(* ===== verification/_CoqProject ===== *)
-Q . S2P
Prelude.v
Checksum.v
Types.v
Posix.v
DeltaFile.v
DeltaSpec.v
DeltaFileFacts.v
DeltaFileCreate.v
DeltaFileTheorems.v
DeltaManifest.v
DeltaManifestFacts.v
DeltaManifestTheorems.v
Names.v
DeltaStore.v
DeltaStoreFacts.v
DeltaStoreSteps.v
DeltaStoreTheorems.v
Bits.v
EdgeBody.v
PropertyLayout.v
Sst.v
SkipList.v
SkipListFacts.v
NeighBors.v
MemTable.v
SstBuild.v
SstBuildFacts.v
SstBuildTheorems.v
MemTableFlush.v
DeltaMerge.v
DeltaMergeTheorems.v
UpdateManager.v
UpdateManagerFacts.v
UpdateManagerInv.v
UpdateManagerProgress.v
UpdateManagerTheorems.v
Versions.v
VersionsInv.v
VersionsSteps.v
VersionsTheorems.v
LevelIndex.v
LsmRead.v
LsmReadFacts.v
LsmReadTheorems.v
LsmHistory.v
EdgeIterators.v
ScanTheorems.v
ScanHistory.v
DelRecords.v
LsmWrite.v
LsmWriteFacts.v
LsmWriteTheorems.v
Text.v
GraphSchema.v
SchemaTheorems.v
GraphDb.v
GraphScan.v
GraphWf.v
GraphUpdate.v
GraphHistory.v
CompactionPick.v
SstWriter.v
CompactionMerge.v
CompactionOutput.v
CompactionWays.v
CompactionTheorems.v
CompactionPublish.v
CompactionReads.v
CompactionClaims.v
Reopen.v
ReopenFacts.v
ReopenLevels.v
CompactionRound.v
CompactionTree.v
CompactionStore.v
CompactionSteps.v
CompactionLoop.v
LsmEngine.v
ReopenTheorems.v
GraphStore.v
