(* ===== verification/Prelude.v ===== *)
(** * RichGraph: a verification development

    RichGraph is an embedded property-graph store: an LSM tree of edges whose
    properties live in fixed-width columns beside the edge files and can be
    updated in place through delta files.  The library models its C++ core and
    proves the parts correct, alone and composed.  Paths are relative to src/.

    ** The program

    - Writes go to a MemTable (core/MemTable.h), one adjacency per source vertex
      (core/neighbors.h: a small array that becomes a skip list).  A full table
      is rotated out and flushed to a level-0 SST: edge bodies, an index of
      sources, a header, and one column file per property.
    - Compaction (src/compaction.cpp) merges SSTs into the next level and points
      the level index (core/DataStructs.h) of every vertex to its new file.
    - A snapshot of MemTables and level-0 files is a super version
      (src/superversion.cpp, src/version_set.cpp), counted by references.
    - A property update goes to the update manager
      (src/property_update_manager.cpp): visible at once in its pending table,
      flushed in batches to immutable delta files (src/property_delta.cpp), which
      the store (src/property_delta_store.cpp) chains per column file, logs in a
      manifest (src/property_delta_manifest.cpp) and merges into the column
      (src/lsmstore.cpp).
    - A read consults MemTables, level-0 files newest first, then the level
      index; a property of an SST edge is the newest visible delta or else the
      base column.

    - The facade (src/graph_db.cpp) reads a schema, opens one store per group of
      edge columns and one for the nodes, splits a write over the stores under
      one sequence number and joins their columns on reads.

    ** Files

    Shared: [Prelude] (results, machine integers, bytes, lists, tactics and the
    hint database [rg]), [Bits] (fields of words), [Checksum] (FNV-1a), [Types]
    (include/richgraph), [Posix] (the file system: a world of files and a script
    of outcomes, faults and crashes included), [Names] (file names).

    Property deltas:
    - [DeltaFile]: src/property_delta.cpp.  [DeltaSpec] is the abstract
      specification [newest_visible]; [DeltaFileFacts], [DeltaFileCreate] and
      [DeltaFileTheorems] show memory safety of opening arbitrary bytes, that
      created files answer like the specification, crash atomicity, detection
      of corrupted bytes.
    - [DeltaManifest], [DeltaManifestFacts], [DeltaManifestTheorems]:
      src/property_delta_manifest.cpp; replay, torn tails, crash consistency, and
      three error paths that lose edits.
    - [DeltaStore], [DeltaStoreFacts], [DeltaStoreSteps], [DeltaStoreTheorems]:
      src/property_delta_store.cpp; views refine the specification, attaching is
      all or nothing, and no interleaving of attachments and merges loses a file.
    - [DeltaMerge], [DeltaMergeTheorems]: the column merge of
      src/lsmstore.cpp; it is atomic and does not change what readers see.
    - [UpdateManager] (critical sections and their interleavings),
      [UpdateManagerFacts], [UpdateManagerInv], [UpdateManagerProgress],
      [UpdateManagerTheorems]:
      acknowledged updates stay visible, flushes are durable and in commit order,
      the worker drains, buffers stay bounded.

    Edges:
    - [EdgeBody] (core/graph/edge.h), [PropertyLayout]
      (core/fixed_property_layout.h): packed bodies and padded slots.
    - [SkipList], [SkipListFacts], [NeighBors]: core/neighbors.h; the skip list
      refines a sorted list.
    - [MemTable], [MemTableFlush], [SstBuild], [SstBuildFacts],
      [SstBuildTheorems]: src/MemTable.cpp; under every interleaving of its
      workers a flush writes the reference image of the table.
    - [Sst]: src/SSTable.cpp and the searches of src/lsmstore.cpp in an SST.
    - [LevelIndex]: [MulLevelIndex] and the lazily allocated array of them.
    - [Versions], [VersionsInv], [VersionsSteps], [VersionsTheorems]: reference counts, the version list, published views;
      nothing a reader holds is freed, and everything else is.
    - [LsmRead], [LsmReadFacts], [LsmReadTheorems], [LsmHistory]: [GetEdge],
      [LocateEdge], [AttachPropertyDelta]; after any history of writes and
      flushes [GetEdge] returns the last write.
    - [EdgeIterators], [ScanTheorems], [ScanHistory]: the
      iterators of core/edge_iterator.h; a scan terminates and reports every
      version of the history once.
    - [LsmWrite], [LsmWriteFacts], [LsmWriteTheorems]: the write path of
      src/lsmstore.cpp (allocation of vertices, insertion, rotation of full
      tables, flush, both sequence counters); whatever the order of the flushes
      reads return what was written, and an insertion returns as soon as a
      waiting table is flushed.
    - [Reopen], [ReopenFacts], [ReopenTheorems], [ReopenLevels]: file.info and
      the load of a directory (the constructor and the destructor of
      src/lsmstore.cpp); a sequence of sessions is one history, and the load
      rebuilds the level index exactly, but drops what compaction needs of the
      lower levels.
    - [DelRecords]: core/del_record_manage.h.
    - Compaction: [CompactionPick] (the choice of inputs), [SstWriter],
      [CompactionOutput] (the writer of output files), [CompactionMerge],
      [CompactionWays], [CompactionTheorems] (readers and multi-way merge),
      [CompactionPublish] (what publication changes), [CompactionReads],
      [CompactionClaims] (a merge of level 0 is invisible to [GetEdge]),
      [CompactionRound] (the two-way merge, moves of files, rounds and their
      schedule), [CompactionTree] (what the files of all levels hold, as a tree
      of tables, and what a round may do to it), [CompactionStore] (a store of a
      tree and its reads), [CompactionSteps] (a round takes
      the store of a tree to the store of the shifted tree), [CompactionLoop]
      (background and forced compactions return, end within the limits of the
      levels and change no answer).
    - [LsmEngine]: writes, flushes and compactions on one store, in any order;
      [GetEdge] returns the last write and every compaction returns.

    The facade:
    - [Text] (the string helpers of src/graph_db.cpp), [GraphSchema]
      ([LoadSchemaFromYaml]), [SchemaTheorems] (a printed schema is read back,
      and what an accepted schema guarantees).
    - [GraphDb]: the database over the class [LSMGraph], which is the abstract
      class of core/LSMGraph.h; [GraphWf] (routing tables and [Init]),
      [GraphUpdate] (updates through the manager), [GraphScan] (joins of
      columns), [GraphHistory]: [StoreLaws] states what a store promises to the
      facade (after a run of writes [GetEdge] returns the last one), and from it
      the facade's reads are those of its history.
    - [GraphStore]: [LsmWrite] is an instance of [LSMGraph] and satisfies
      [StoreLaws]; concrete databases.

    ** Conventions

    Integers are [Z]; wrap-around is written ([u64], [u32], [signed]) where the
    code's type can overflow.  A [bool] with an error string is [result]; [None]
    is undefined behaviour: a read or store outside a buffer, a dangling
    pointer, an uncaught exception, and with [debug] a failed [assert].
    Theorems that conclude [Some] are thus safety theorems.  Concurrency is a
    step relation over the critical sections of the code: a mutex-protected
    section is one step, a condition variable is a guard.

    The modelled build is the default one: multi-version, cached SST data,
    [EdgeBody_t_Dym], [LazyMulLevelIndexArray], neither [MULTI_LEVEL_VERSION] nor
    [DEL_EDGE_SEPARATE], no CSR files.  [std::hash] is the class [StdHash]; file
    ids drawn from a shared counter are an argument ([fetch_time]).

    ** Fuel

    Loops that are not structural take fuel, and the theorems show that what
    they are given is enough: binary searches take the length of the range
    they search, the recovery of a manifest the length of its file, the skip
    list walks its nodes and its height, [GetOverlappingInputs] twice the number
    of files of the level (each restart widens the range by the bound of a
    file), the merges the number of edges of their inputs, a background
    compaction four times the number of edges of its files (every round leaves
    its level with fewer files, and a level has at most as many files as the
    store has edges), a scan the number of entries of its sources, the scan of a
    store the number of its insertions.

    ** Not modelled

    Of compaction: the split into several subcompactions (the default is one) and
    the overlap of a running merge with flushes (a compaction is one step).
    Of src/lsmstore.cpp:
    [get_edge] and [del_edge] (older entry points than [GetEdge]), the CSR
    rebuild and the benchmark parts.  Of
    src/graph_db.cpp: the waits for background work, forced compactions and the
    translation of command-line flags.  The alternative containers of
    core/neighbors.h, iterators of core/edge_iterator.h and level indexes of
    core/DataStructs.h that the default build does not use; caches, arenas,
    thread pool, flags (glue or vendored); tests and examples. *)

From stdpp Require Export base gmap list strings pretty numbers sorting.

Declare Scope rg_scope.
Delimit Scope rg_scope with rg.

(** ** Results: fallible operations of the source

    The C++ code reports failure by a [bool]/[nullptr] result together with a
    message stored through [std::string* error]; here both are one value. *)
Inductive result (E A : Type) : Type :=
| Ok (a : A)
| Err (e : E).
Arguments Ok {E A} a.
Arguments Err {E A} e.

#[export] Instance result_ret {E} : MRet (result E) := fun _ a => Ok a.
#[export] Instance result_bind {E} : MBind (result E) :=
  fun _ _ k m => match m with Ok a => k a | Err e => Err e end.

Definition is_ok {E A} (r : result E A) : bool :=
  match r with Ok _ => true | Err _ => false end.

Lemma bind_Ok_inv {E A B} (m : result E A) (k : A -> result E B) b :
  m ≫= k = Ok b -> exists a, m = Ok a /\ k a = Ok b.
Proof. destruct m; simpl; [eauto | discriminate]. Qed.

(** ** Machine integers: [Z] with the wrap-around written out *)
Open Scope Z_scope.

Definition wrap (w z : Z) : Z := z mod 2 ^ w.
Definition u64 (z : Z) : Z := wrap 64 z.
Definition u32 (z : Z) : Z := wrap 32 z.
Definition u16 (z : Z) : Z := wrap 16 z.
Definition u8 (z : Z) : Z := wrap 8 z.

(** Two's complement reading of a [w]-bit pattern. *)
Definition signed (w z : Z) : Z :=
  let r := wrap w z in if r <? 2 ^ (w - 1) then r else r - 2 ^ w.

Definition fits (w z : Z) : Prop := 0 <= z < 2 ^ w.
Definition sfits (w z : Z) : Prop := - 2 ^ (w - 1) <= z < 2 ^ (w - 1).

#[export] Instance fits_dec w z : Decision (fits w z).
Proof. unfold fits. apply _. Defined.
#[export] Instance sfits_dec w z : Decision (sfits w z).
Proof. unfold sfits. apply _. Defined.

Definition UINT16_MAX : Z := 65535.
Definition UINT32_MAX : Z := 4294967295.
Definition UINT64_MAX : Z := 18446744073709551615.

(** Proves a closed decidable proposition by evaluating its decision. *)
Ltac eval_prop := apply (bool_decide_unpack _); vm_compute; exact I.

(** For large values: whether a call returned, without comparing what it returned. *)
Definition has {A} (o : option A) : bool := match o with Some _ => true | None => false end.
Lemma has_default {A} (d : A) o : has o = true -> o = Some (default d o).
Proof. by destruct o. Qed.

(** Reduces the binds of the option monad, and nothing else. *)
Tactic Notation "simpl_bind" := cbn [mbind option_bind].
Tactic Notation "simpl_bind" "in" hyp(H) := cbn [mbind option_bind] in H.

(** The lemmas that close the common side conditions: [auto with rg] for
    bounds of machine integers and lengths, [autorewrite with rg] to compute
    lengths. *)
Create HintDb rg.

Lemma wrap_fits w z : 0 <= w -> fits w (wrap w z).
Proof. intros. apply Z.mod_pos_bound. lia. Qed.

Lemma wrap_small w z : fits w z -> wrap w z = z.
Proof. intros. by apply Z.mod_small. Qed.

Lemma wrap_wrap w z : 0 <= w -> wrap w (wrap w z) = wrap w z.
Proof. intros. apply wrap_small, wrap_fits; lia. Qed.

Lemma signed_small w z : 0 < w -> 0 <= z < 2 ^ (w - 1) -> signed w z = z.
Proof.
  intros Hw Hz. assert (2 ^ w = 2 * 2 ^ (w - 1)) as E by (rewrite <- Z.pow_succ_r by lia; f_equal; lia).
  unfold signed. rewrite wrap_small by (unfold fits; lia). by rewrite (proj2 (Z.ltb_lt _ _)) by lia.
Qed.

Lemma signed_sfits w z : 0 < w -> sfits w z -> signed w (wrap w z) = z.
Proof.
  unfold signed, sfits. intros Hw Hz. rewrite wrap_wrap by lia. unfold wrap.
  assert (2 ^ w = 2 * 2 ^ (w - 1)) as E.
  { rewrite <- Z.pow_succ_r by lia. f_equal. lia. }
  destruct (Z.lt_ge_cases z 0).
  - assert (z mod 2 ^ w = z + 2 ^ w) as ->.
    { symmetry. apply Z.mod_unique with (-1); lia. }
    destruct (Z.ltb_spec (z + 2 ^ w) (2 ^ (w - 1))); lia.
  - rewrite Z.mod_small by lia.
    destruct (Z.ltb_spec z (2 ^ (w - 1))); lia.
Qed.

Lemma fits_mono w w' z : 0 <= w <= w' -> fits w z -> fits w' z.
Proof.
  unfold fits. intros ? [? ?]. split; [done|].
  eapply Z.lt_le_trans; [done|]. apply Z.pow_le_mono_r; lia.
Qed.

(** ** Bytes and little-endian fields *)
Abbreviation byte := Init.Byte.byte.
Abbreviation bytes := (list Init.Byte.byte).

#[export] Instance byte_eq_dec : EqDecision byte := Stdlib.Strings.Byte.byte_eq_dec.
#[export] Instance byte_countable : Countable byte :=
  inj_countable Stdlib.Strings.Byte.to_N Stdlib.Strings.Byte.of_N
    Stdlib.Strings.Byte.of_to_N.

Definition byte_val (b : byte) : Z := Z.of_N (Stdlib.Strings.Byte.to_N b).
Definition byte_of (z : Z) : byte :=
  default Init.Byte.x00 (Stdlib.Strings.Byte.of_N (Z.to_N (u8 z))).

Fixpoint le (n : nat) (z : Z) : bytes :=
  match n with
  | O => []
  | S n => byte_of z :: le n (z / 256)
  end.

Fixpoint of_le (bs : bytes) : Z :=
  match bs with
  | [] => 0
  | b :: bs => byte_val b + 256 * of_le bs
  end.

Lemma byte_val_fits b : fits 8 (byte_val b).
Proof.
  unfold fits, byte_val. pose proof (Stdlib.Strings.Byte.to_N_bounded b). lia.
Qed.

Lemma byte_val_of z : byte_val (byte_of z) = u8 z.
Proof.
  unfold byte_val, byte_of. pose proof (wrap_fits 8 z ltac:(lia)) as Hw.
  fold (u8 z) in Hw. unfold fits in Hw.
  destruct (Stdlib.Strings.Byte.of_N (Z.to_N (u8 z))) as [b|] eqn:E; simpl.
  - apply Stdlib.Strings.Byte.to_of_N in E. rewrite E. lia.
  - apply Stdlib.Strings.Byte.of_N_None_iff in E. lia.
Qed.

Lemma byte_of_val b : byte_of (byte_val b) = b.
Proof.
  unfold byte_of, byte_val. unfold u8. rewrite wrap_small by apply byte_val_fits.
  by rewrite N2Z.id, Stdlib.Strings.Byte.of_to_N.
Qed.

Lemma byte_val_inj b b' : byte_val b = byte_val b' -> b = b'.
Proof. intros H. by rewrite <- (byte_of_val b), H, byte_of_val. Qed.

Lemma length_le n z : length (le n z) = n.
Proof. revert z. induction n; intros; simpl; auto. Qed.

Lemma pow256 n : 2 ^ (8 * Z.of_nat (S n)) = 256 * 2 ^ (8 * Z.of_nat n).
Proof. replace (8 * Z.of_nat (S n)) with (8 + 8 * Z.of_nat n) by lia. by rewrite Z.pow_add_r by lia. Qed.

Lemma of_le_le n z : of_le (le n z) = wrap (8 * Z.of_nat n) z.
Proof.
  revert z. induction n as [|n IH]; intros z; cbn [le of_le]; unfold wrap in *.
  - by rewrite Z.mod_1_r.
  - rewrite IH, byte_val_of, pow256. unfold u8, wrap.
    rewrite Z.rem_mul_r by lia. done.
Qed.

Lemma of_le_le_fits n z : fits (8 * Z.of_nat n) z -> of_le (le n z) = z.
Proof. intros. rewrite of_le_le. by apply wrap_small. Qed.

Lemma of_le_fits bs : fits (8 * Z.of_nat (length bs)) (of_le bs).
Proof.
  induction bs as [|b bs IH]; [done|]. unfold fits in *. cbn [length of_le].
  rewrite pow256. pose proof (byte_val_fits b) as Hb. unfold fits in Hb. lia.
Qed.

Lemma le_of_le bs : le (length bs) (of_le bs) = bs.
Proof.
  induction bs as [|b bs IH]; [done|]. cbn [length of_le le].
  pose proof (byte_val_fits b) as Hb. unfold fits in Hb. f_equal.
  - apply byte_val_inj. rewrite byte_val_of. unfold u8, wrap.
    rewrite Z.mul_comm, Z.mod_add by lia. by apply Z.mod_small.
  - rewrite Z.mul_comm, Z.div_add by lia. rewrite Z.div_small by lia. done.
Qed.

Lemma of_le_inj l l' : length l = length l' -> of_le l = of_le l' -> l = l'.
Proof. intros Hl E. rewrite <- (le_of_le l), <- (le_of_le l'). by rewrite Hl, E. Qed.

(** ** Sized views of byte sequences *)
Definition zlen {A} (l : list A) : Z := Z.of_nat (length l).

Definition slice {A} (off len : Z) (l : list A) : list A :=
  take (Z.to_nat len) (drop (Z.to_nat off) l).

(** Reading [len] bytes at [off] of a mapping: [None] is a read outside the
    mapping, which the C++ code must never perform. *)
Definition read_at (m : bytes) (off len : Z) : option bytes :=
  if (0 <=? off) && (0 <=? len) && (off + len <=? zlen m)
  then Some (slice off len m) else None.

Lemma zlen_nonneg {A} (l : list A) : 0 <= zlen l.
Proof. unfold zlen. lia. Qed.

Lemma zlen_app {A} (l k : list A) : zlen (l ++ k) = zlen l + zlen k.
Proof. unfold zlen. rewrite length_app. lia. Qed.

Lemma zlen_cons {A} (x : A) l : zlen (x :: l) = 1 + zlen l.
Proof. unfold zlen. simpl. lia. Qed.

#[export] Hint Resolve byte_val_fits zlen_nonneg : rg.
#[export] Hint Extern 1 (fits _ _) => apply wrap_fits; lia : rg.
#[export] Hint Extern 2 (_ <= _) => lia : rg.
#[export] Hint Extern 2 (_ < _) => lia : rg.
#[export] Hint Rewrite @zlen_app @zlen_cons @length_app @length_fmap : rg.

Lemma slice_app_mid {A} (p x q : list A) :
  slice (zlen p) (zlen x) (p ++ x ++ q) = x.
Proof.
  unfold slice, zlen. rewrite !Nat2Z.id, drop_app_length. by rewrite take_app_length.
Qed.

Lemma slice_app_tail {A} (p q : list A) off len :
  0 <= off -> slice (zlen p + off) len (p ++ q) = slice off len q.
Proof.
  intros. unfold slice, zlen.
  rewrite Z2Nat.inj_add, Nat2Z.id by lia.
  by rewrite <- drop_drop, drop_app_length.
Qed.

Lemma slice_app_head {A} (p q : list A) off len :
  0 <= off -> 0 <= len -> off + len <= zlen p -> slice off len (p ++ q) = slice off len p.
Proof.
  intros ? ? Hl. unfold slice, zlen in *. rewrite drop_app_le by lia.
  rewrite take_app_le; [done|]. rewrite length_drop. lia.
Qed.

Lemma slice_all {A} (l : list A) : slice 0 (zlen l) l = l.
Proof. unfold slice, zlen. rewrite Nat2Z.id. apply take_ge. simpl. lia. Qed.

Lemma zlen_slice {A} (l : list A) off len :
  0 <= off -> 0 <= len -> off + len <= zlen l -> zlen (slice off len l) = len.
Proof.
  unfold slice, zlen. intros. rewrite length_take, length_drop. lia.
Qed.

Lemma read_at_Some m off len :
  0 <= off -> 0 <= len -> off + len <= zlen m -> read_at m off len = Some (slice off len m).
Proof.
  intros. unfold read_at.
  rewrite !(proj2 (Z.leb_le _ _)) by lia. done.
Qed.

Lemma read_at_inv m off len bs :
  read_at m off len = Some bs ->
  0 <= off /\ 0 <= len /\ off + len <= zlen m /\ bs = slice off len m.
Proof. unfold read_at. case_match eqn:E; [|discriminate]. naive_solver lia. Qed.

(** ** Plain-old-data structures

    [AppendPod]/[ConsumePod]/[memcpy] of a packed struct: a fixed size, an
    encoding of that size and a decoding that inverts it on values whose
    fields fit their widths. *)
Class Pod (A : Type) := {
  pod_size : nat;
  pod_encode : A -> bytes;
  pod_decode : bytes -> A;
  pod_ok : A -> Prop;
  pod_length : forall a, length (pod_encode a) = pod_size;
  pod_roundtrip : forall a rest, pod_ok a -> pod_decode (pod_encode a ++ rest) = a;
}.
Arguments pod_size A {_}.

Definition sizeof (A : Type) `{Pod A} : Z := Z.of_nat (pod_size A).

(** Packed fields: widths in bytes, little-endian values. *)
Definition fields_encode (ws : list nat) (zs : list Z) : bytes :=
  concat (zip_with le ws zs).

Fixpoint fields_decode (ws : list nat) (bs : bytes) : list Z :=
  match ws with
  | [] => []
  | w :: ws => of_le (take w bs) :: fields_decode ws (drop w bs)
  end.

Definition fields_ok (ws : list nat) (zs : list Z) : Prop :=
  Forall2 (fun w z => fits (8 * Z.of_nat w) z) ws zs.

(** Splits [fields_ok] into one range goal per field and closes the ones that
    are hypotheses or evaluate. *)
Ltac fields_solver :=
  unfold fields_ok;
  repeat match goal with
    | |- Forall2 _ [] [] => constructor
    | |- Forall2 _ (_ :: _) (_ :: _) => constructor
    end;
  try match goal with |- fits ?w _ => let w' := eval vm_compute in w in change w with w' end;
  try assumption; try (unfold fits; lia).

Lemma fields_encode_length ws zs :
  length ws = length zs -> length (fields_encode ws zs) = sum_list ws.
Proof.
  unfold fields_encode. revert zs.
  induction ws as [|w ws IH]; intros [|z zs]; simpl; try done.
  intros [=]. rewrite length_app, length_le. by rewrite IH.
Qed.

Lemma fields_decode_encode ws zs rest :
  fields_ok ws zs -> fields_decode ws (fields_encode ws zs ++ rest) = zs.
Proof.
  unfold fields_encode. induction 1 as [|w z ws zs Hw _ IH]; simpl; [done|].
  rewrite <- app_assoc.
  rewrite take_app_length' by (symmetry; apply length_le).
  rewrite drop_app_length' by (symmetry; apply length_le).
  by rewrite of_le_le_fits, IH.
Qed.

Lemma fields_encode_decode ws bs :
  length bs = sum_list ws -> fields_encode ws (fields_decode ws bs) = bs.
Proof.
  unfold fields_encode. revert bs.
  induction ws as [|w ws IH]; intros bs Hl; simpl in *; [by destruct bs|].
  rewrite IH by (rewrite length_drop; lia).
  assert (length (take w bs) = w) as Hw by (rewrite length_take; lia).
  rewrite <- Hw at 1. by rewrite le_of_le, take_drop.
Qed.

Lemma fields_decode_ok ws bs : length bs = sum_list ws -> fields_ok ws (fields_decode ws bs).
Proof.
  unfold fields_ok. revert bs. induction ws as [|w ws IH]; intros bs Hl; simpl in *; constructor.
  - pose proof (of_le_fits (take w bs)) as H. rewrite length_take_le in H by lia. exact H.
  - apply IH. rewrite length_drop. lia.
Qed.

Lemma fields_decode_app ws ws' bs :
  (sum_list ws <= length bs)%nat ->
  fields_decode (ws ++ ws') bs =
  fields_decode ws (take (sum_list ws) bs) ++ fields_decode ws' (drop (sum_list ws) bs).
Proof.
  revert bs. induction ws as [|w ws IH]; intros bs Hl; simpl in *; [done|].
  f_equal; [by rewrite take_take, Nat.min_l by lia|].
  rewrite IH by (rewrite length_drop; lia). rewrite drop_drop, skipn_firstn_comm.
  do 3 f_equal. lia.
Qed.

Lemma fields_encode_app ws ws' zs zs' :
  length ws = length zs ->
  fields_encode (ws ++ ws') (zs ++ zs') = fields_encode ws zs ++ fields_encode ws' zs'.
Proof.
  intros. unfold fields_encode. by rewrite zip_with_app, concat_app.
Qed.

Lemma fields_decode_length ws bs : length (fields_decode ws bs) = length ws.
Proof. revert bs. induction ws; intros; simpl; auto. Qed.

Lemma StronglySorted_lookup {A} (R : A -> A -> Prop) l i j x y :
  StronglySorted R l -> (i < j)%nat -> l !! i = Some x -> l !! j = Some y -> R x y.
Proof.
  intros Hs. revert i j. induction Hs as [|z l Hs IH Hz]; intros i j Hij Hi Hj; [done|].
  destruct j as [|j]; [lia|]. simpl in Hj. destruct i as [|i]; simpl in Hi.
  - injection Hi as <-. rewrite Forall_forall in Hz. apply Hz.
    by eapply list_elem_of_lookup_2.
  - by apply (IH i j); [lia|..].
Qed.

Lemma StronglySorted_impl_in {A} (R S : A -> A -> Prop) l :
  (forall x y, x ∈ l -> y ∈ l -> R x y -> S x y) -> StronglySorted R l -> StronglySorted S l.
Proof.
  intros Himp Hs. induction Hs as [|x l Hs IH Hx]; constructor.
  - apply IH. intros y z Hy Hz. apply Himp; by right.
  - rewrite Forall_forall in *. intros y Hy. apply Himp; [left|by right|by apply Hx].
Qed.

(** ** [std::stable_sort]

    Insertion that keeps the order of equivalent elements; with a strict weak
    order the result of a stable sort is unique, and this is it. *)
Section StableSort.
Context {A : Type} (less : A -> A -> bool).

Fixpoint sort_insert (x : A) (l : list A) : list A :=
  match l with
  | [] => [x]
  | y :: l' => if less y x then y :: sort_insert x l' else x :: y :: l'
  end.

Definition stable_sort (l : list A) : list A := foldr sort_insert [] l.

Definition nless (x y : A) : Prop := less y x = false.

Lemma sort_insert_perm x l : sort_insert x l ≡ₚ x :: l.
Proof.
  induction l as [|y l IH]; simpl; [done|]. case_match; [|done].
  rewrite IH. apply Permutation_swap.
Qed.

Lemma stable_sort_perm l : stable_sort l ≡ₚ l.
Proof.
  induction l as [|x l IH]; simpl; [done|]. by rewrite sort_insert_perm, IH.
Qed.

Lemma stable_sort_length l : length (stable_sort l) = length l.
Proof. by rewrite stable_sort_perm. Qed.

Context (less_asym : forall x y, less x y = true -> less y x = false).
Context (nless_trans : forall x y z, nless x y -> nless y z -> nless x z).

Lemma sort_insert_sorted x l :
  StronglySorted nless l -> StronglySorted nless (sort_insert x l).
Proof.
  induction 1 as [|y l Hl IH Hy]; simpl; [by repeat constructor|].
  case_match eqn:E.
  - constructor; [done|]. rewrite sort_insert_perm. constructor; [|done].
    by apply less_asym.
  - constructor; [by constructor|]. constructor; [done|].
    eapply Forall_impl; [done|]. intros z Hz. by eapply nless_trans.
Qed.

Lemma stable_sort_sorted l : StronglySorted nless (stable_sort l).
Proof. induction l; simpl; [constructor | by apply sort_insert_sorted]. Qed.

(** Stability: the elements of a class [P] whose members are mutually
    equivalent keep their relative order. *)
Lemma sort_insert_filter (P : A -> Prop) `{!forall x, Decision (P x)} x l :
  (forall y z, P y -> P z -> less y z = false) ->
  filter P (sort_insert x l) = filter P (x :: l).
Proof.
  intros HP. induction l as [|y l IH]; simpl; [done|]. case_match eqn:E; [|done].
  rewrite !filter_cons in *. rewrite IH.
  destruct (decide (P y)), (decide (P x)); try done.
  rewrite HP in E by done. discriminate.
Qed.

Lemma stable_sort_filter (P : A -> Prop) `{!forall x, Decision (P x)} l :
  (forall y z, P y -> P z -> less y z = false) ->
  filter P (stable_sort l) = filter P l.
Proof.
  intros HP. induction l as [|x l IH]; simpl; [done|].
  rewrite sort_insert_filter by done. by rewrite !filter_cons, IH.
Qed.
End StableSort.
