(* ===== verification/Checksum.v ===== *)
(** * FNV-1a integrity checksum

    [ExtendChecksum]/[Checksum] of src/property_delta.cpp, which the manifest
    (src/property_delta_manifest.cpp) repeats verbatim: a 64-bit FNV-1a hash.
    The lemmas show what the checksum can be relied on for: it is a bijection
    of the running state, so two buffers that differ in exactly one byte never
    collide. *)

From S2P Require Import Prelude.

Definition kPrime : Z := 1099511628211.
Definition kOffset : Z := 14695981039346656037.

(** [hash ^= bytes[i]; hash *= kPrime;] at 64 bits. *)
Definition fnv_step (hash : Z) (b : byte) : Z :=
  u64 (Z.lxor hash (byte_val b) * kPrime).

Definition ExtendChecksum (hash : Z) (data : bytes) : Z := foldl fnv_step hash data.

Definition Checksum (data : bytes) : Z := ExtendChecksum kOffset data.

(** The inverse of [kPrime] modulo 2^64. *)
Definition kPrimeInv : Z := 14886173955864302971.

Lemma lxor_fits w a b : 0 <= w -> fits w a -> fits w b -> fits w (Z.lxor a b).
Proof.
  unfold fits. intros Hw [Ha Ha'] [Hb Hb'].
  assert (0 <= Z.lxor a b) as H0 by (apply Z.lxor_nonneg; lia).
  split; [done|]. apply Z.bounded_iff_bits_nonneg; [done..|]. intros l Hl.
  rewrite Z.lxor_spec.
  rewrite (proj1 (Z.bounded_iff_bits_nonneg w a Hw Ha) Ha' l Hl).
  by rewrite (proj1 (Z.bounded_iff_bits_nonneg w b Hw Hb) Hb' l Hl).
Qed.

Lemma mul_kPrime_inj a b :
  fits 64 a -> fits 64 b -> u64 (a * kPrime) = u64 (b * kPrime) -> a = b.
Proof.
  intros Ha Hb H. unfold u64, wrap in H.
  assert (forall z, fits 64 z -> (z * kPrime) mod 2 ^ 64 * kPrimeInv mod 2 ^ 64 = z) as Hinv.
  { intros z Hz. rewrite Z.mul_mod_idemp_l by lia. rewrite <- Z.mul_assoc.
    rewrite <- Z.mul_mod_idemp_r by lia.
    replace (kPrime * kPrimeInv mod 2 ^ 64) with 1 by reflexivity.
    rewrite Z.mul_1_r. by apply Z.mod_small. }
  rewrite <- (Hinv a Ha), <- (Hinv b Hb). by rewrite H.
Qed.

Lemma fnv_step_fits h b : fits 64 (fnv_step h b).
Proof. auto with rg. Qed.

Lemma byte_val_fits64 b : fits 64 (byte_val b).
Proof. apply fits_mono with 8; [lia | apply byte_val_fits]. Qed.

Lemma fnv_step_inj_hash h h' b :
  fits 64 h -> fits 64 h' -> fnv_step h b = fnv_step h' b -> h = h'.
Proof.
  intros Hh Hh' E. apply mul_kPrime_inj in E; [| by apply lxor_fits, byte_val_fits64..].
  apply (f_equal (fun z => Z.lxor z (byte_val b))) in E.
  by rewrite !Z.lxor_assoc, Z.lxor_nilpotent, !Z.lxor_0_r in E.
Qed.

Lemma fnv_step_inj_byte h b b' :
  fits 64 h -> fnv_step h b = fnv_step h b' -> b = b'.
Proof.
  intros Hh E. apply mul_kPrime_inj in E; [| by apply lxor_fits, byte_val_fits64..].
  apply (f_equal (Z.lxor h)) in E.
  rewrite <- !Z.lxor_assoc, Z.lxor_nilpotent, !Z.lxor_0_l in E.
  by apply byte_val_inj.
Qed.

Lemma ExtendChecksum_fits h data : fits 64 h -> fits 64 (ExtendChecksum h data).
Proof.
  revert h. induction data as [|b data IH]; intros h Hh; [done|].
  apply IH, fnv_step_fits.
Qed.

Lemma ExtendChecksum_app h p q :
  ExtendChecksum h (p ++ q) = ExtendChecksum (ExtendChecksum h p) q.
Proof. apply foldl_app. Qed.

Lemma ExtendChecksum_inj_hash h h' data :
  fits 64 h -> fits 64 h' ->
  ExtendChecksum h data = ExtendChecksum h' data -> h = h'.
Proof.
  revert h h'. induction data as [|b data IH]; intros h h' Hh Hh' E; [done|].
  apply IH in E; [| apply fnv_step_fits..]. by apply fnv_step_inj_hash in E.
Qed.

Lemma ExtendChecksum_one_byte h p b b' q :
  fits 64 h ->
  ExtendChecksum h (p ++ b :: q) = ExtendChecksum h (p ++ b' :: q) -> b = b'.
Proof.
  intros Hh. rewrite !ExtendChecksum_app. cbn. intros E.
  assert (fits 64 (ExtendChecksum h p)) as Hp by by apply ExtendChecksum_fits.
  apply ExtendChecksum_inj_hash in E; [| apply fnv_step_fits..].
  by apply fnv_step_inj_byte in E.
Qed.

Lemma kOffset_fits : fits 64 kOffset.
Proof. by vm_compute. Qed.
