(* ===== verification/Types.v ===== *)
(** * Shared data types

    include/richgraph/types.h, include/richgraph/options.h, src/options.cpp and
    the plain structs of core/property_delta.h. *)

From S2P Require Import Prelude.

(** ** include/richgraph/types.h *)
Definition kInvalidVertexId : Z := Z.shiftl UINT16_MAX 32 + UINT32_MAX.
Definition INVALID_File_ID : Z := Z.shiftr UINT32_MAX 1.
Definition kMaxSequence : Z := Z.shiftl UINT16_MAX 32 + UINT32_MAX.
Definition kLatestPropertyCommit : Z := UINT64_MAX.

Inductive Status :=
| kOk | kDelete | kNotFound | kInvalidArgument | kIOError | kCorruption | kBackgroundError.
#[export] Instance Status_eq_dec : EqDecision Status.
Proof. solve_decision. Defined.

Inductive EdgeInsertMode := kSingle | kBidirectional.

(** ** include/richgraph/options.h *)
Inductive DeltaDurability := kNone | kProcessCrashSafe.
#[export] Instance DeltaDurability_eq_dec : EqDecision DeltaDurability.
Proof. solve_decision. Defined.

Record PropertyUpdateOptions := {
  enabled : bool;
  buffer_capacity_records : Z;
  buffer_capacity_bytes : Z;
  buffer_count : Z;
  delta_chain_merge_threshold : Z;
  durability : DeltaDurability;
}.

Record GraphDbOptions := {
  memtable_count : Z;
  default_memtable_capacity : Z;
  max_subcompactions : Z;
  background_threads : Z;
  support_multi_version : bool;
  load_existing : bool;
  cache_sst_data : bool;
  verbose_logging : bool;
  mmap_path : string;
  property_updates : PropertyUpdateOptions;
}.

(** The messages [GraphDbOptions::Validate] returns; [None] is the empty string. *)
Inductive OptionsError :=
| MemtableCountTooSmall
| MemtableCapacityZero
| MemtableCapacityTooLarge
| MaxSubcompactionsZero
| UpdatesRequireSstCache
| BufferCountTooSmall
| BufferRecordsZero
| BufferBytesZero
| BufferRecordsTooLarge
| MergeThresholdZero.

Definition Validate (o : GraphDbOptions) : option OptionsError :=
  let u := property_updates o in
  if memtable_count o <? 2 then Some MemtableCountTooSmall
  else if default_memtable_capacity o =? 0 then Some MemtableCapacityZero
  else if UINT32_MAX <? default_memtable_capacity o then Some MemtableCapacityTooLarge
  else if max_subcompactions o =? 0 then Some MaxSubcompactionsZero
  else if enabled u then
    if negb (cache_sst_data o) then Some UpdatesRequireSstCache
    else if buffer_count u <? 2 then Some BufferCountTooSmall
    else if buffer_capacity_records u =? 0 then Some BufferRecordsZero
    else if buffer_capacity_bytes u =? 0 then Some BufferBytesZero
    else if UINT32_MAX <? buffer_capacity_records u then Some BufferRecordsTooLarge
    else if delta_chain_merge_threshold u =? 0 then Some MergeThresholdZero
    else None
  else None.

(** ** core/property_delta.h *)
Inductive PropertyObjectKind := kNode | kEdge.
#[export] Instance PropertyObjectKind_eq_dec : EqDecision PropertyObjectKind.
Proof. solve_decision. Defined.

(** [static_cast<std::uint8_t>(kind)]: the enumerators are 1 and 2. *)
Definition kind_byte (k : PropertyObjectKind) : Z :=
  match k with kNode => 1 | kEdge => 2 end.

Definition kind_of_byte (z : Z) : PropertyObjectKind := if z =? 1 then kNode else kEdge.

#[export] Instance PropertyObjectKind_countable : Countable PropertyObjectKind.
Proof.
  refine (inj_countable' kind_byte kind_of_byte _). by intros [].
Defined.

Record PropertyDeltaTarget := mkTarget {
  kind : PropertyObjectKind;
  shard_id : Z;
  base_file_id : Z;
  base_generation : Z;
  property_id : Z;
}.
#[export] Instance PropertyDeltaTarget_eq_dec : EqDecision PropertyDeltaTarget.
Proof. solve_decision. Defined.

#[export] Instance PropertyDeltaTarget_countable : Countable PropertyDeltaTarget.
Proof.
  refine (inj_countable'
    (fun t => (kind t, shard_id t, base_file_id t, base_generation t, property_id t))
    (fun '(k, s, f, g, p) => mkTarget k s f g p) _).
  by intros [].
Defined.

Definition target_ok (t : PropertyDeltaTarget) : Prop :=
  fits 32 (shard_id t) /\ fits 32 (base_file_id t) /\
  fits 64 (base_generation t) /\ fits 32 (property_id t).

Record PropertyDeltaRecord := mkRecord {
  src : Z;
  dst : Z;
  base_sequence : Z;
  commit_sequence : Z;
  is_out : bool;
  edge_type : Z;
  value : bytes;
}.
#[export] Instance PropertyDeltaRecord_eq_dec : EqDecision PropertyDeltaRecord.
Proof. solve_decision. Defined.

(** The C++ types of the fields: two [uint64_t] vertex ids, a signed 64-bit
    topology sequence, an unsigned commit sequence and a byte. *)
Definition record_ok (r : PropertyDeltaRecord) : Prop :=
  fits 64 (src r) /\ fits 64 (dst r) /\ sfits 64 (base_sequence r) /\
  fits 64 (commit_sequence r) /\ fits 8 (edge_type r).

Record PropertyDeltaFileMetadata := mkMetadata {
  target : PropertyDeltaTarget;
  file_generation : Z;
  record_count : Z;
  file_bytes : Z;
  min_commit_sequence : Z;
  max_commit_sequence : Z;
  payload_checksum : Z;
}.
#[export] Instance PropertyDeltaFileMetadata_eq_dec : EqDecision PropertyDeltaFileMetadata.
Proof. solve_decision. Defined.

Definition metadata_ok (m : PropertyDeltaFileMetadata) : Prop :=
  target_ok (target m) /\ fits 64 (file_generation m) /\ fits 64 (record_count m) /\
  fits 64 (file_bytes m) /\ fits 64 (min_commit_sequence m) /\
  fits 64 (max_commit_sequence m) /\ fits 64 (payload_checksum m).

#[export] Instance record_ok_dec r : Decision (record_ok r).
Proof. unfold record_ok. apply _. Defined.
#[export] Instance target_ok_dec t : Decision (target_ok t).
Proof. unfold target_ok. apply _. Defined.
#[export] Instance metadata_ok_dec m : Decision (metadata_ok m).
Proof. unfold metadata_ok. apply _. Defined.

(** A logical property key, i.e. a record up to its version and value. *)
Record LogicalKey := mkKey {
  k_src : Z;
  k_dst : Z;
  k_base_sequence : Z;
  k_is_out : bool;
  k_edge_type : Z;
}.
#[export] Instance LogicalKey_eq_dec : EqDecision LogicalKey.
Proof. solve_decision. Defined.

Definition key_of (r : PropertyDeltaRecord) : LogicalKey :=
  mkKey (src r) (dst r) (base_sequence r) (is_out r) (edge_type r).
