(* ===== verification/Posix.v ===== *)
(** * The file-system calls the storage code makes

    The persistence code (src/property_delta.cpp,
    src/property_delta_manifest.cpp) is straight-line code over POSIX calls.
    A world holds the files and a script that fixes how the next calls
    behave: each call consumes one outcome, and an exhausted script means
    that every further call succeeds.  [Crash] kills the process at that
    call, so the worlds after a crash are exactly the states a restarted
    process can find. *)

From S2P Require Import Prelude.

Inductive outcome :=
| Good               (** the call succeeds *)
| Fail               (** the call returns an error *)
| Eintr              (** [write]/[pread] is interrupted *)
| Short (n : nat)    (** [write]/[pread] transfers only [n] bytes *)
| Crash.             (** the process dies in the call *)

Record World := mkWorld {
  files : gmap bytes bytes;
  script : list outcome;
}.

(** A computation of the process; [None] is a process that died. *)
Definition IO (A : Type) : Type := World -> option A * World.

Definition io_ret {A} (a : A) : IO A := fun w => (Some a, w).
Definition io_bind {A B} (m : IO A) (k : A -> IO B) : IO B := fun w =>
  match m w with
  | (Some a, w') => k a w'
  | (None, w') => (None, w')
  end.

Notation "'let*' x := m 'in' k" := (io_bind m (fun x => k))
  (at level 10, x name, m at level 200, k at level 200) : rg_scope.
Open Scope rg_scope.

Definition get_files : IO (gmap bytes bytes) := fun w => (Some (files w), w).
Definition put_file (p c : bytes) : IO unit := fun w =>
  (Some tt, mkWorld (<[p := c]> (files w)) (script w)).
Definition del_file (p : bytes) : IO unit := fun w =>
  (Some tt, mkWorld (delete p (files w)) (script w)).

(** A call that either succeeds or fails. *)
Definition sys_call : IO bool := fun w =>
  match script w with
  | [] => (Some true, w)
  | Crash :: s => (None, mkWorld (files w) s)
  | Good :: s => (Some true, mkWorld (files w) s)
  | _ :: s => (Some false, mkWorld (files w) s)
  end.

(** [open(path, O_CREAT | O_EXCL | O_WRONLY)] *)
Definition sys_open_excl (p : bytes) : IO bool :=
  let* ok := sys_call in let* fs := get_files in
  if ok && bool_decide (fs !! p = None)
  then let* _ := put_file p [] in io_ret true
  else io_ret false.

(** [open(path, O_CREAT | O_RDWR | O_APPEND)] *)
Definition sys_open_append (p : bytes) : IO bool :=
  let* ok := sys_call in let* fs := get_files in
  if ok then
    match fs !! p with
    | Some _ => io_ret true
    | None => let* _ := put_file p [] in io_ret true
    end
  else io_ret false.

(** [open(path, O_RDONLY)], [fstat] and [mmap]: the contents of the file. *)
Definition sys_open_read (p : bytes) : IO (option bytes) :=
  let* ok := sys_call in let* fs := get_files in
  io_ret (if ok then fs !! p else None).

Definition sys_rename (a b : bytes) : IO bool :=
  let* ok := sys_call in let* fs := get_files in
  match ok, fs !! a with
  | true, Some c => let* _ := del_file a in let* _ := put_file b c in io_ret true
  | _, _ => io_ret false
  end.

(** The callers ignore the result of [unlink]. *)
Definition sys_unlink (p : bytes) : IO unit :=
  let* ok := sys_call in if ok then del_file p else io_ret tt.

Definition sys_truncate (p : bytes) (n : Z) : IO bool :=
  let* ok := sys_call in let* fs := get_files in
  match ok, fs !! p with
  | true, Some c => let* _ := put_file p (take (Z.to_nat n) c) in io_ret true
  | _, _ => io_ret false
  end.

(** ** [WriteAll]: the write loop of both persistence files

    [write] may be interrupted (retried), fail, or transfer a part; zero bytes
    transferred is reported as a short write.  The loop is structural in the
    script, so it terminates for every behaviour of [write]. *)
Inductive write_result := WAll | WError | WShort.

Fixpoint write_loop (s : list outcome) (data : bytes)
  : option write_result * bytes * list outcome :=
  match data with
  | [] => (Some WAll, [], s)
  | _ :: _ =>
      match s with
      | [] => (Some WAll, data, [])
      | Good :: s => (Some WAll, data, s)
      | Fail :: s => (Some WError, [], s)
      | Crash :: s => (None, [], s)
      | Eintr :: s => write_loop s data
      | Short O :: s => (Some WShort, [], s)
      | Short n :: s =>
          let '(r, out, s') := write_loop s (drop n data) in (r, take n data ++ out, s')
      end
  end.

Definition WriteAll (p : bytes) (data : bytes) : IO write_result := fun w =>
  let '(r, out, s) := write_loop (script w) data in
  let c := default [] (files w !! p) in
  (r, mkWorld (<[p := c ++ out]> (files w)) s).

(** ** [ReadAllAt]: the read loop of the manifest *)
Fixpoint read_loop (s : list outcome) (content : bytes) (size : nat)
  : option (option bytes) * list outcome :=
  match size with
  | O => (Some (Some []), s)
  | S _ =>
      match s with
      | [] => (Some (if (size <=? length content)%nat then Some (take size content) else None), [])
      | Good :: s => (Some (if (size <=? length content)%nat then Some (take size content) else None), s)
      | Fail :: s => (Some None, s)
      | Crash :: s => (None, s)
      | Eintr :: s => read_loop s content size
      | Short n :: s =>
          let m := Nat.min (Nat.min n size) (length content) in
          match m with
          | O => (Some None, s)
          | _ =>
              match read_loop s (drop m content) (size - m) with
              | (Some (Some out), s') => (Some (Some (take m content ++ out)), s')
              | r => r
              end
          end
      end
  end%nat.

Definition ReadAllAt (p : bytes) (size off : Z) : IO (option bytes) := fun w =>
  let c := drop (Z.to_nat off) (default [] (files w !! p)) in
  let '(r, s) := read_loop (script w) c (Z.to_nat size) in
  (r, mkWorld (files w) s).

(** ** Facts *)
Lemma write_loop_prefix s data r out s' :
  write_loop s data = (r, out, s') -> out `prefix_of` data.
Proof.
  revert data r out s'. induction s as [|o s IH]; intros data r out s'.
  - destruct data; simpl; intros [= <- <- <-]; done.
  - destruct data as [|b data]; simpl; [by intros [= <- <- <-]|].
    destruct o as [| | |[|n]|]; 
      try (intros [= <- <- <-]; (apply prefix_nil || reflexivity)).
    + apply IH.
    + intros H. repeat case_match. simplify_eq.
      match goal with E : write_loop _ _ = _ |- _ => apply IH in E as [k Hk] end.
      exists k. rewrite <- app_assoc, <- Hk. by rewrite take_drop.
Qed.

Lemma write_loop_all s data out s' :
  write_loop s data = (Some WAll, out, s') -> out = data.
Proof.
  revert data out s'. induction s as [|o s IH]; intros data out s'.
  - destruct data; simpl; by intros [= <- <-].
  - destruct data as [|b data]; simpl; [by intros [= <- <-]|].
    destruct o as [| | |[|n]|]; try (by intros [= <- <-]); [apply IH|].
    intros H. repeat case_match. simplify_eq.
    match goal with E : write_loop _ _ = _ |- _ => apply IH in E as -> end.
    by rewrite take_drop.
Qed.

Lemma write_loop_nil data : write_loop [] data = (Some WAll, data, []).
Proof. by destruct data. Qed.

Lemma read_loop_nil content size :
  (size <= length content)%nat -> read_loop [] content size = (Some (Some (take size content)), []).
Proof.
  destruct size; [done|]. intros. simpl.
  destruct (length content) eqn:E; [lia|].
  destruct (Nat.leb_spec size n); [done|lia].
Qed.

(** ** Crash reasoning

    [wp m Q C fs]: started on the files [fs], whatever the calls do, [m]
    returns a result and files satisfying [Q], or the process dies leaving
    files satisfying [C].  One rule per call; [wp_step] applies them. *)
Definition wp {A} (m : IO A) (Q : A -> gmap bytes bytes -> Prop)
    (C : gmap bytes bytes -> Prop) (fs : gmap bytes bytes) : Prop :=
  forall s, match m (mkWorld fs s) with
            | (Some a, w') => Q a (files w')
            | (None, w') => C (files w')
            end.

Section WpRules.
Context {A : Type} (Q : A -> gmap bytes bytes -> Prop) (C : gmap bytes bytes -> Prop).
Implicit Types (fs : gmap bytes bytes) (p : bytes).

Lemma wp_ret a fs : Q a fs -> wp (io_ret a) Q C fs.
Proof. by intros ? ?. Qed.

Lemma wp_bind {B} (m : IO B) (k : B -> IO A) fs :
  wp m (fun b => wp (k b) Q C) C fs -> wp (io_bind m k) Q C fs.
Proof.
  intros H s. specialize (H s). unfold io_bind.
  destruct (m (mkWorld fs s)) as [[b|] [fs' s']]; [apply H|done].
Qed.

Lemma wp_mono (m : IO A) (Q' : A -> gmap bytes bytes -> Prop) (C' : gmap bytes bytes -> Prop) fs :
  wp m Q' C' fs -> (forall a fs', Q' a fs' -> Q a fs') -> (forall fs', C' fs' -> C fs') ->
  wp m Q C fs.
Proof.
  intros H HQ HC s. specialize (H s). destruct (m _) as [[a|] w']; [by apply HQ|by apply HC].
Qed.
End WpRules.

Section WpCalls.
Context (C : gmap bytes bytes -> Prop).
Implicit Types (fs : gmap bytes bytes) (p : bytes).

Lemma wp_call (Q : bool -> gmap bytes bytes -> Prop) fs :
  Q true fs -> Q false fs -> C fs -> wp sys_call Q C fs.
Proof. intros ? ? ? s. by destruct s as [|[] s]. Qed.

Lemma wp_open_excl Q p fs :
  (fs !! p = None -> Q true (<[p := []]> fs)) -> Q false fs -> C fs ->
  wp (sys_open_excl p) Q C fs.
Proof.
  intros H1 H2 H3. unfold sys_open_excl. apply wp_bind, wp_call; [intros s..|done];
    unfold io_bind; simpl; [|done]. case_bool_decide; simpl; auto.
Qed.

Lemma wp_open_append Q p fs :
  (forall c, fs !! p = Some c -> Q true fs) -> (fs !! p = None -> Q true (<[p := []]> fs)) ->
  Q false fs -> C fs -> wp (sys_open_append p) Q C fs.
Proof.
  intros H1 H2 H3 H4. unfold sys_open_append. apply wp_bind, wp_call; [intros s..|done];
    unfold io_bind; simpl; [|done]. destruct (fs !! p) eqn:E; simpl; eauto.
Qed.

Lemma wp_open_read Q p fs :
  Q (fs !! p) fs -> Q None fs -> C fs -> wp (sys_open_read p) Q C fs.
Proof.
  intros H1 H2 H3. unfold sys_open_read. by apply wp_bind, wp_call; [intros s..|].
Qed.

Lemma wp_rename Q a b fs :
  (forall c, fs !! a = Some c -> Q true (<[b := c]> (delete a fs))) ->
  Q false fs -> C fs -> wp (sys_rename a b) Q C fs.
Proof.
  intros H1 H2 H3. unfold sys_rename. apply wp_bind, wp_call; [intros s..|done];
    unfold io_bind; simpl; [|done]. destruct (fs !! a) eqn:E; simpl; auto.
Qed.

Lemma wp_unlink (Q : unit -> gmap bytes bytes -> Prop) p fs :
  Q tt (delete p fs) -> Q tt fs -> C fs -> wp (sys_unlink p) Q C fs.
Proof. intros H1 H2 H3. unfold sys_unlink. by apply wp_bind, wp_call; [intros s..|]. Qed.

Lemma wp_truncate (Q : bool -> gmap bytes bytes -> Prop) p n fs :
  (forall c, fs !! p = Some c -> Q true (<[p := take (Z.to_nat n) c]> fs)) ->
  Q false fs -> C fs -> wp (sys_truncate p n) Q C fs.
Proof.
  intros H1 H2 H3. unfold sys_truncate. apply wp_bind, wp_call; [intros s..|done];
    unfold io_bind; simpl; [|done]. destruct (fs !! p) eqn:E; simpl; auto.
Qed.

(** A write loop that completes has appended everything; one that fails or
    dies has appended a prefix. *)
Lemma wp_WriteAll (Q : write_result -> gmap bytes bytes -> Prop) p data fs :
  let c := default [] (fs !! p) in
  Q WAll (<[p := c ++ data]> fs) ->
  (forall out r, out `prefix_of` data -> r <> WAll -> Q r (<[p := c ++ out]> fs)) ->
  (forall out, out `prefix_of` data -> C (<[p := c ++ out]> fs)) ->
  wp (WriteAll p data) Q C fs.
Proof.
  intros c H1 H2 H3 s. unfold WriteAll. simpl.
  destruct (write_loop s data) as [[r out] s'] eqn:E. pose proof (write_loop_prefix _ _ _ _ _ E).
  destruct r as [[]|]; [apply write_loop_all in E as -> | ..]; simpl; auto.
Qed.

Lemma wp_ReadAllAt Q p size off fs :
  (forall r, Q r fs) -> C fs -> wp (ReadAllAt p size off) Q C fs.
Proof.
  intros H1 H2 s. unfold ReadAllAt. destruct (read_loop _ _ _) as [[r|] s']; simpl; auto.
Qed.
End WpCalls.

Ltac wp_step :=
  lazy beta iota delta [negb andb];
  match goal with
  | |- wp (io_ret _) _ _ _ => apply wp_ret
  | |- wp (io_bind _ _) _ _ _ => apply wp_bind
  | |- wp sys_call _ _ _ => apply wp_call
  | |- wp (sys_open_excl _) _ _ _ => apply wp_open_excl; [intros ?| |]
  | |- wp (sys_open_append _) _ _ _ => apply wp_open_append; [intros ? ?|intros ?| |]
  | |- wp (sys_open_read _) _ _ _ => apply wp_open_read
  | |- wp (sys_rename _ _) _ _ _ => apply wp_rename; [intros ? ?| |]
  | |- wp (sys_unlink _) _ _ _ => apply wp_unlink
  | |- wp (sys_truncate _ _) _ _ _ => apply wp_truncate; [intros ? ?| |]
  | |- wp (WriteAll _ _) _ _ _ => apply wp_WriteAll; [|intros ? ? ? ?|intros ? ?]
  | |- wp (ReadAllAt _ _ _) _ _ _ => apply wp_ReadAllAt; [intros ?|]
  end.

(** [wp] is about every run: read a run off it. *)
Lemma wp_run {A} (m : IO A) Q C w :
  wp m Q C (files w) ->
  match m w with (Some a, w') => Q a (files w') | (None, w') => C (files w') end.
Proof. intros H. destruct w as [fs s]. apply H. Qed.
