(* ===== verification/DeltaFile.v ===== *)
(** * Immutable property-delta files

    core/property_delta.h and src/property_delta.cpp: the on-disk format of a
    delta file (header, sorted fixed-size records, value heap), its creation
    from a batch of updates, its validation when it is opened, and the two
    read paths ([Lookup] by binary search and [ForEachRecord]).

    The mapping of an opened file is a byte list; every read of it goes through
    [read_at], so an access outside the mapping is [None] and the theorems
    that a result is [Some] are memory-safety theorems. *)

From S2P Require Import Prelude.
From S2P Require Import Types.
From S2P Require Import Checksum.
From S2P Require Import Posix.

Definition kMagic : bytes := map byte_of [82; 71; 68; 69; 76; 84; 65; 50].
Definition kFormatVersion : Z := 2.

Record DeltaDiskHeader := mkHeader {
  h_magic : Z;
  h_version : Z;
  h_header_bytes : Z;
  h_object_kind : Z;
  h_reserved0 : Z;
  h_shard_id : Z;
  h_property_id : Z;
  h_base_file_id : Z;
  h_reserved1 : Z;
  h_base_generation : Z;
  h_file_generation : Z;
  h_record_count : Z;
  h_records_offset : Z;
  h_values_offset : Z;
  h_values_bytes : Z;
  h_min_commit_sequence : Z;
  h_max_commit_sequence : Z;
  h_payload_checksum : Z;
  h_header_checksum : Z;
}.

Definition header_widths : list nat :=
  [8; 4; 4; 1; 7; 4; 4; 4; 4; 8; 8; 8; 8; 8; 8; 8; 8; 8; 8]%nat.

Definition header_fields (h : DeltaDiskHeader) : list Z :=
  [h_magic h; h_version h; h_header_bytes h; h_object_kind h; h_reserved0 h;
   h_shard_id h; h_property_id h; h_base_file_id h; h_reserved1 h;
   h_base_generation h; h_file_generation h; h_record_count h; h_records_offset h;
   h_values_offset h; h_values_bytes h; h_min_commit_sequence h;
   h_max_commit_sequence h; h_payload_checksum h; h_header_checksum h].

Definition header_of_fields (zs : list Z) : DeltaDiskHeader :=
  match zs with
  | [a; b; c; d; e; f; g; h; i; j; k; l; m; n; o; p; q; r; s] =>
      mkHeader a b c d e f g h i j k l m n o p q r s
  | _ => mkHeader 0 0 0 0 0 0 0 0 0 0 0 0 0 0 0 0 0 0 0
  end.

#[export] Instance DeltaDiskHeader_pod : Pod DeltaDiskHeader.
Proof.
  refine {|
    pod_size := 120%nat;
    pod_encode h := fields_encode header_widths (header_fields h);
    pod_decode bs := header_of_fields (fields_decode header_widths bs);
    pod_ok h := fields_ok header_widths (header_fields h);
  |}.
  - intros h. by rewrite fields_encode_length.
  - intros h rest Hok. rewrite fields_decode_encode by done. by destruct h.
Defined.

Record DeltaDiskRecord := mkDisk {
  d_src : Z;
  d_dst : Z;
  d_base_sequence : Z;
  d_commit_sequence : Z;
  d_value_offset : Z;
  d_value_length : Z;
  d_edge_type : Z;
  d_is_out : Z;
  d_reserved : Z;
}.

Definition disk_widths : list nat := [8; 8; 8; 8; 8; 4; 1; 1; 2]%nat.

(** [base_sequence] is the one signed field. *)
Definition disk_fields (d : DeltaDiskRecord) : list Z :=
  [d_src d; d_dst d; u64 (d_base_sequence d); d_commit_sequence d; d_value_offset d;
   d_value_length d; d_edge_type d; d_is_out d; d_reserved d].

Definition disk_of_fields (zs : list Z) : DeltaDiskRecord :=
  match zs with
  | [a; b; c; d; e; f; g; h; i] => mkDisk a b (signed 64 c) d e f g h i
  | _ => mkDisk 0 0 0 0 0 0 0 0 0
  end.

#[export] Instance DeltaDiskRecord_pod : Pod DeltaDiskRecord.
Proof.
  refine {|
    pod_size := 48%nat;
    pod_encode d := fields_encode disk_widths (disk_fields d);
    pod_decode bs := disk_of_fields (fields_decode disk_widths bs);
    pod_ok d := fields_ok disk_widths (disk_fields d) /\ sfits 64 (d_base_sequence d);
  |}.
  - intros d. by rewrite fields_encode_length.
  - intros d rest [Hok Hs]. rewrite fields_decode_encode by done. destruct d. simpl in *.
    f_equal. by apply signed_sfits.
Defined.

(** ** Errors of [Create] and [Open] *)
Inductive DeltaError :=
| EmptyDelta | InvalidTargetFileId | ValueTooLong | ValuesOverflow
| OpenTemporary | WriteTemporary | SyncTemporary | CloseTemporary | RenameFailed
| SyncDirectory
| OpenFailed | StatFailed | ShorterThanHeader | MmapFailed
| InvalidHeader | HeaderChecksumMismatch | RecordBoundsOverflow | ValueBoundsOverflow
| InvalidBounds | PayloadChecksumMismatch | RecordValueOutOfBounds | RecordsNotSorted.

(** Assignment to the field [header_checksum]. *)
Definition with_checksum (h : DeltaDiskHeader) (sum : Z) : DeltaDiskHeader :=
  mkHeader (h_magic h) (h_version h) (h_header_bytes h) (h_object_kind h) (h_reserved0 h)
    (h_shard_id h) (h_property_id h) (h_base_file_id h) (h_reserved1 h)
    (h_base_generation h) (h_file_generation h) (h_record_count h)
    (h_records_offset h) (h_values_offset h) (h_values_bytes h)
    (h_min_commit_sequence h) (h_max_commit_sequence h) (h_payload_checksum h) sum.

Definition HeaderChecksum (h : DeltaDiskHeader) : Z :=
  Checksum (pod_encode (with_checksum h 0)).

(** ** Ordering of records *)
Definition CompareLogicalKey (lhs rhs : PropertyDeltaRecord) : Z :=
  if negb (src lhs =? src rhs) then (if src lhs <? src rhs then -1 else 1)
  else if negb (dst lhs =? dst rhs) then (if dst lhs <? dst rhs then -1 else 1)
  else if negb (eqb (is_out lhs) (is_out rhs)) then (if is_out lhs then 1 else -1)
  else if negb (edge_type lhs =? edge_type rhs) then
    (if edge_type lhs <? edge_type rhs then -1 else 1)
  else if negb (base_sequence lhs =? base_sequence rhs) then
    (if base_sequence lhs <? base_sequence rhs then -1 else 1)
  else 0.

Definition RecordLess (lhs rhs : PropertyDeltaRecord) : bool :=
  let key_comparison := CompareLogicalKey lhs rhs in
  if negb (key_comparison =? 0) then key_comparison <? 0
  else commit_sequence lhs <? commit_sequence rhs.

Definition SameVersion (lhs rhs : PropertyDeltaRecord) : bool :=
  (CompareLogicalKey lhs rhs =? 0) && (commit_sequence lhs =? commit_sequence rhs).

Definition CompareDiskLogicalKey (record : DeltaDiskRecord)
    (src dst base_sequence : Z) (is_out : bool) (edge_type : Z) : Z :=
  if negb (d_src record =? src) then (if d_src record <? src then -1 else 1)
  else if negb (d_dst record =? dst) then (if d_dst record <? dst then -1 else 1)
  else let direction := if is_out then 1 else 0 in
  if negb (d_is_out record =? direction) then (if d_is_out record <? direction then -1 else 1)
  else if negb (d_edge_type record =? edge_type) then
    (if d_edge_type record <? edge_type then -1 else 1)
  else if negb (d_base_sequence record =? base_sequence) then
    (if d_base_sequence record <? base_sequence then -1 else 1)
  else 0.

(** ** Reads of the mapping *)
Definition LoadDiskRecord (mapping : bytes) (records_offset index : Z)
  : option DeltaDiskRecord :=
  pod_decode <$> read_at mapping (records_offset + index * sizeof DeltaDiskRecord)
                   (sizeof DeltaDiskRecord).

Definition DiskRecordToRecord (disk : DeltaDiskRecord) (mapping : bytes) (values_offset : Z)
  : option PropertyDeltaRecord :=
  v ← read_at mapping (values_offset + d_value_offset disk) (d_value_length disk);
  Some {| src := d_src disk; dst := d_dst disk; base_sequence := d_base_sequence disk;
          commit_sequence := d_commit_sequence disk; is_out := negb (d_is_out disk =? 0);
          edge_type := d_edge_type disk; value := v |}.

Definition IsValidObjectKind (raw_kind : Z) : bool :=
  (raw_kind =? kind_byte kNode) || (raw_kind =? kind_byte kEdge).

(** ** [PropertyDeltaFile::Create] *)

(** The deduplication loop; [deduplicated] is kept with [back()] first. *)
Definition dedup_push (deduplicated : list PropertyDeltaRecord) (record : PropertyDeltaRecord)
  : list PropertyDeltaRecord :=
  match deduplicated with
  | back :: rest => if SameVersion back record then record :: rest else record :: deduplicated
  | [] => [record]
  end.

Definition deduplicate (records : list PropertyDeltaRecord) : list PropertyDeltaRecord :=
  reverse (foldl dedup_push [] records).

(** The loop that lays records out on disk. *)
Record Layout := mkLayout {
  l_disk : list DeltaDiskRecord;
  l_values : bytes;
  l_min : Z;
  l_max : Z;
}.

Definition layout_step (l : Layout) (record : PropertyDeltaRecord)
  : result DeltaError Layout :=
  if UINT32_MAX <? zlen (value record) then Err ValueTooLong
  else if UINT64_MAX - zlen (value record) <? zlen (l_values l) then Err ValuesOverflow
  else
    let disk := {| d_src := src record; d_dst := dst record;
                   d_base_sequence := base_sequence record;
                   d_commit_sequence := commit_sequence record;
                   d_value_offset := zlen (l_values l);
                   d_value_length := u32 (zlen (value record));
                   d_edge_type := edge_type record;
                   d_is_out := if is_out record then 1 else 0;
                   d_reserved := 0 |} in
    Ok {| l_disk := l_disk l ++ [disk];
          l_values := l_values l ++ value record;
          l_min := Z.min (l_min l) (commit_sequence record);
          l_max := Z.max (l_max l) (commit_sequence record) |}.

Fixpoint layout_records (l : Layout) (records : list PropertyDeltaRecord)
  : result DeltaError Layout :=
  match records with
  | [] => Ok l
  | record :: records =>
      match layout_step l record with
      | Ok l' => layout_records l' records
      | Err e => Err e
      end
  end.

Definition BuildHeader (target : PropertyDeltaTarget) (file_generation : Z) (l : Layout)
  : DeltaDiskHeader :=
  let records_bytes := concat (map pod_encode (l_disk l)) in
  let payload_checksum := ExtendChecksum (ExtendChecksum kOffset records_bytes) (l_values l) in
  let h :=
    {| h_magic := of_le kMagic; h_version := kFormatVersion;
       h_header_bytes := sizeof DeltaDiskHeader;
       h_object_kind := kind_byte (kind target); h_reserved0 := 0;
       h_shard_id := shard_id target; h_property_id := property_id target;
       h_base_file_id := base_file_id target; h_reserved1 := 0;
       h_base_generation := base_generation target;
       h_file_generation := file_generation;
       h_record_count := zlen (l_disk l);
       h_records_offset := sizeof DeltaDiskHeader;
       h_values_offset :=
         u64 (sizeof DeltaDiskHeader + zlen (l_disk l) * sizeof DeltaDiskRecord);
       h_values_bytes := zlen (l_values l);
       h_min_commit_sequence := l_min l; h_max_commit_sequence := l_max l;
       h_payload_checksum := payload_checksum; h_header_checksum := 0 |} in
  with_checksum h (HeaderChecksum h).

(** The three byte ranges [Create] writes. *)
Definition BuildImage (target : PropertyDeltaTarget) (file_generation : Z)
    (records : list PropertyDeltaRecord) : result DeltaError (bytes * bytes * bytes) :=
  if bool_decide (records = []) then Err EmptyDelta
  else if base_file_id target =? INVALID_File_ID then Err InvalidTargetFileId
  else
    let deduplicated := deduplicate (stable_sort RecordLess records) in
    match layout_records (mkLayout [] [] kLatestPropertyCommit 0) deduplicated with
    | Err e => Err e
    | Ok l => Ok (pod_encode (BuildHeader target file_generation l),
                  concat (map pod_encode (l_disk l)), l_values l)
    end.

Definition image_bytes (i : bytes * bytes * bytes) : bytes :=
  let '(header, records, values) := i in header ++ records ++ values.

(** ** [PropertyDeltaFile::OpenAndValidate] after the mapping exists *)
Record PropertyDeltaFile := mkFile {
  mapping_ : bytes;
  records_offset_ : Z;
  values_offset_ : Z;
  metadata_ : PropertyDeltaFileMetadata;
}.

(** The per-record validation loop, from record [i] on. [None] is a read
    outside the mapping. *)
Fixpoint validate_records (n : nat) (mapping : bytes) (h : DeltaDiskHeader) (i : Z)
  : option (result DeltaError unit) :=
  match n with
  | O => Some (Ok tt)
  | S n =>
      record ← LoadDiskRecord mapping (h_records_offset h) i;
      if (h_values_bytes h <? d_value_offset record)
         || (h_values_bytes h - d_value_offset record <? d_value_length record)
      then Some (Err RecordValueOutOfBounds)
      else
        let compared (d : DeltaDiskRecord) :=
          mkRecord (d_src d) (d_dst d) (d_base_sequence d) (d_commit_sequence d)
            (negb (d_is_out d =? 0)) (d_edge_type d) [] in
        ordered ← (if i =? 0 then Some true
                   else previous ← LoadDiskRecord mapping (h_records_offset h) (i - 1);
                        Some (negb (RecordLess (compared record) (compared previous))));
        if (ordered : bool) then validate_records n mapping h (i + 1)
        else Some (Err RecordsNotSorted)
  end.

(** The fields [OpenAndValidate] sets from an accepted header. *)
Definition opened_file (mapping : bytes) (header : DeltaDiskHeader) : PropertyDeltaFile :=
  {| mapping_ := mapping;
     records_offset_ := h_records_offset header;
     values_offset_ := h_values_offset header;
     metadata_ :=
       {| target := {| kind := kind_of_byte (h_object_kind header);
                       shard_id := h_shard_id header;
                       base_file_id := h_base_file_id header;
                       base_generation := h_base_generation header;
                       property_id := h_property_id header |};
          file_generation := h_file_generation header;
          record_count := h_record_count header;
          file_bytes := zlen mapping;
          min_commit_sequence := h_min_commit_sequence header;
          max_commit_sequence := h_max_commit_sequence header;
          payload_checksum := h_payload_checksum header |} |}.

Definition ValidateMapping (mapping : bytes) : option (result DeltaError PropertyDeltaFile) :=
  let mapping_size := zlen mapping in
  if mapping_size <? sizeof DeltaDiskHeader then Some (Err ShorterThanHeader)
  else
    raw ← read_at mapping 0 (sizeof DeltaDiskHeader);
    let header : DeltaDiskHeader := pod_decode raw in
    if negb (bool_decide (le 8 (h_magic header) = kMagic))
       || negb (h_version header =? kFormatVersion)
       || negb (h_header_bytes header =? sizeof DeltaDiskHeader)
       || negb (IsValidObjectKind (h_object_kind header))
    then Some (Err InvalidHeader)
    else if negb (HeaderChecksum header =? h_header_checksum header)
    then Some (Err HeaderChecksumMismatch)
    else if (UINT64_MAX - h_records_offset header) / sizeof DeltaDiskRecord
              <? h_record_count header
    then Some (Err RecordBoundsOverflow)
    else
      let records_end :=
        u64 (h_records_offset header + h_record_count header * sizeof DeltaDiskRecord) in
      if UINT64_MAX - h_values_offset header <? h_values_bytes header
      then Some (Err ValueBoundsOverflow)
      else
        let values_end := u64 (h_values_offset header + h_values_bytes header) in
        if negb (h_records_offset header =? sizeof DeltaDiskHeader)
           || negb (h_values_offset header =? records_end)
           || (mapping_size <? records_end) || negb (values_end =? mapping_size)
        then Some (Err InvalidBounds)
        else
          payload ← (if h_records_offset header <? mapping_size
                     then read_at mapping (h_records_offset header)
                            (mapping_size - h_records_offset header)
                     else Some []);
          if negb (ExtendChecksum kOffset payload =? h_payload_checksum header)
          then Some (Err PayloadChecksumMismatch)
          else
            checked ← validate_records (Z.to_nat (h_record_count header)) mapping header 0;
            match (checked : result DeltaError unit) with
            | Err e => Some (Err e)
            | Ok _ =>
                Some (Ok (opened_file mapping header))
            end.

(** ** [PropertyDeltaFile::Lookup] *)

(** [while (low < high)] bisection: [go_right middle] says that the answer is
    right of [middle].  [fuel] bounds the number of iterations; the interval
    shrinks in each one, so its length is enough. *)
Fixpoint bisect (fuel : nat) (go_right : Z -> option bool) (low high : Z) : option Z :=
  if low <? high then
    match fuel with
    | O => None
    | S fuel =>
        let middle := low + (high - low) / 2 in
        right ← go_right middle;
        if (right : bool) then bisect fuel go_right (middle + 1) high
        else bisect fuel go_right low middle
    end
  else Some low.

Section Lookup.
Context (f : PropertyDeltaFile) (src dst base_sequence : Z) (is_out : bool) (edge_type : Z)
        (read_sequence : Z).

Definition compare_at (index : Z) : option Z :=
  d ← LoadDiskRecord (mapping_ f) (records_offset_ f) index;
  Some (CompareDiskLogicalKey d src dst base_sequence is_out edge_type).

Definition before_key (index : Z) : option bool :=
  c ← compare_at index; Some (c <? 0).

Definition visible_prefix (index : Z) : option bool :=
  d ← LoadDiskRecord (mapping_ f) (records_offset_ f) index;
  let key_comparison := CompareDiskLogicalKey d src dst base_sequence is_out edge_type in
  Some ((key_comparison <? 0)
        || ((key_comparison =? 0) && (d_commit_sequence d <=? read_sequence))).

(** The outer option is memory safety, the inner one [return false]; a hit
    carries the value and its commit sequence. *)
Definition File_Lookup : option (option (bytes * Z)) :=
  let record_count := record_count (metadata_ f) in
  let fuel := Z.to_nat record_count in
  if (record_count =? 0) || (read_sequence <? min_commit_sequence (metadata_ f))
  then Some None
  else
    first ← bisect fuel before_key 0 record_count;
    if first =? record_count then Some None
    else
      c ← compare_at first;
      if negb (c =? 0) then Some None
      else
        low ← bisect fuel visible_prefix first record_count;
        if low =? first then Some None
        else
          selected ← LoadDiskRecord (mapping_ f) (records_offset_ f) (low - 1);
          if negb (CompareDiskLogicalKey selected src dst base_sequence is_out edge_type =? 0)
             || (read_sequence <? d_commit_sequence selected)
          then Some None
          else
            let begin := u64 (values_offset_ f + d_value_offset selected) in
            let end_ := u64 (begin + d_value_length selected) in
            if zlen (mapping_ f) <? end_ then Some None
            else
              v ← read_at (mapping_ f) begin (d_value_length selected);
              Some (Some (v, d_commit_sequence selected)).
End Lookup.

(** ** [PropertyDeltaFile::ForEachRecord]

    The visitor threads a state and answers whether to go on; the boolean of
    the result is that of [ForEachRecord] itself, the outer option memory
    safety. *)
Fixpoint for_each_from {S} (n : nat) (f : PropertyDeltaFile)
    (visitor : PropertyDeltaRecord -> S -> bool * S) (i : Z) (s : S) : option (bool * S) :=
  match n with
  | O => Some (true, s)
  | S n =>
      disk ← LoadDiskRecord (mapping_ f) (records_offset_ f) i;
      let end_ := u64 (values_offset_ f + d_value_offset disk + d_value_length disk) in
      if zlen (mapping_ f) <? end_ then Some (false, s)
      else
        record ← DiskRecordToRecord disk (mapping_ f) (values_offset_ f);
        let '(go_on, s) := visitor record s in
        if go_on then for_each_from n f visitor (i + 1) s else Some (false, s)
  end.

Definition ForEachRecord {S} (f : PropertyDeltaFile)
    (visitor : PropertyDeltaRecord -> S -> bool * S) (s : S) : option (bool * S) :=
  for_each_from (Z.to_nat (record_count (metadata_ f))) f visitor 0 s.

(** ** [PropertyDeltaFile::Open] *)
Definition PropertyDeltaFile_Open (path : bytes)
  : IO (option (result DeltaError PropertyDeltaFile)) :=
  let* content := sys_open_read path in
  match content with
  | None => io_ret (Some (Err OpenFailed))
  | Some mapping =>
      let* stat_ok := sys_call in
      if negb stat_ok then io_ret (Some (Err StatFailed))
      else if zlen mapping <? sizeof DeltaDiskHeader then io_ret (Some (Err ShorterThanHeader))
      else
        let* mmap_ok := sys_call in
        if negb mmap_ok then io_ret (Some (Err MmapFailed))
        else io_ret (ValidateMapping mapping)
  end.

(** [SyncParentDirectory]: open the directory, then fsync it. *)
Definition SyncParentDirectory : IO bool :=
  let* opened := sys_call in
  if opened then sys_call else io_ret false.

(** [ok = WriteAll(header) && WriteAll(records) && WriteAll(values)] *)
Definition write_image (temporary : bytes) (i : bytes * bytes * bytes) : IO bool :=
  let '(header, records, values) := i in
  let* a := WriteAll temporary header in
  match a with
  | WAll =>
      let* b := WriteAll temporary records in
      match b with
      | WAll =>
          let* c := WriteAll temporary values in
          io_ret (match c with WAll => true | _ => false end)
      | _ => io_ret false
      end
  | _ => io_ret false
  end.

(** ** [PropertyDeltaFile::Create]: [temporary] is the name built from [path],
    the process id and the generation. *)
Definition PropertyDeltaFile_Create (path temporary : bytes) (target : PropertyDeltaTarget)
    (file_generation : Z) (records : list PropertyDeltaRecord) (durability : DeltaDurability)
  : IO (option (result DeltaError PropertyDeltaFile)) :=
  match BuildImage target file_generation records with
  | Err e => io_ret (Some (Err e))
  | Ok i =>
      let sync_wanted := bool_decide (durability = kProcessCrashSafe) in
      let* opened := sys_open_excl temporary in
      if negb opened then io_ret (Some (Err OpenTemporary))
      else
        let* written := write_image temporary i in
        let* synced := (if written && sync_wanted then sys_call else io_ret true) in
        let* closed := sys_call in
        let error := if negb written then Some WriteTemporary
                     else if negb synced then Some SyncTemporary
                     else if negb closed then Some CloseTemporary else None in
        match error with
        | Some e => let* _ := sys_unlink temporary in io_ret (Some (Err e))
        | None =>
            let* renamed := sys_rename temporary path in
            if negb renamed then
              let* _ := sys_unlink temporary in io_ret (Some (Err RenameFailed))
            else
              let* dir_ok := (if sync_wanted then SyncParentDirectory else io_ret true) in
              if negb dir_ok then io_ret (Some (Err SyncDirectory))
              else PropertyDeltaFile_Open path
        end
  end.
