(* ===== verification/DeltaSpec.v ===== *)
(** * Abstract specification of versioned property reads

    What every layer of the property-update path promises: reading a logical
    key at a commit sequence yields the newest version of that key that is not
    newer than the sequence, and when one version was written twice, the later
    write.  [newest_visible] says it over the plain list of writes, without
    sorting, files or indexes; the layers are proved equal to it. *)

From S2P Require Import Prelude.
From S2P Require Import Types.
From S2P Require Import Checksum.
From S2P Require Import Posix.
From S2P Require Import DeltaFile.

Section NewestVisible.
Context (k : LogicalKey) (read_sequence : Z).

Definition visible (r : PropertyDeltaRecord) : Prop :=
  key_of r = k /\ commit_sequence r <= read_sequence.

#[export] Instance visible_dec r : Decision (visible r).
Proof. unfold visible. apply _. Defined.

(** One write after another; a write of an equal or newer version replaces. *)
Definition newest_step (best : option PropertyDeltaRecord) (r : PropertyDeltaRecord)
  : option PropertyDeltaRecord :=
  if decide (visible r) then
    match best with
    | Some b => if commit_sequence b <=? commit_sequence r then Some r else best
    | None => Some r
    end
  else best.

Definition newest_visible (writes : list PropertyDeltaRecord) : option PropertyDeltaRecord :=
  foldl newest_step None writes.
End NewestVisible.

(** What a reader observes of a version: its value and commit sequence. *)
Definition observe (r : PropertyDeltaRecord) : bytes * Z := (value r, commit_sequence r).

(** The last write of version [c] of key [k]. *)
Definition version_of (k : LogicalKey) (c : Z) (r : PropertyDeltaRecord) : Prop :=
  key_of r = k /\ commit_sequence r = c.
#[export] Instance version_of_dec k c r : Decision (version_of k c r).
Proof. unfold version_of. apply _. Defined.

Definition last_version (k : LogicalKey) (writes : list PropertyDeltaRecord) (c : Z)
  : option PropertyDeltaRecord := last (filter (version_of k c) writes).

(** ** Characterisation of [newest_visible] by [last_version] *)
Lemma last_version_snoc k l r c :
  last_version k (l ++ [r]) c =
  if decide (version_of k c r) then Some r else last_version k l c.
Proof.
  unfold last_version. rewrite filter_app, filter_cons, filter_nil.
  case_decide; [by rewrite last_snoc | by rewrite app_nil_r].
Qed.

Lemma last_version_is k l c r :
  last_version k l c = Some r -> version_of k c r /\ r ∈ l.
Proof.
  unfold last_version. intros H. apply last_Some_elem_of in H.
  by apply list_elem_of_filter in H.
Qed.

Lemma last_version_is_Some k l r :
  r ∈ l -> key_of r = k -> is_Some (last_version k l (commit_sequence r)).
Proof.
  intros Hin <-. unfold last_version. apply last_is_Some. intros E.
  assert (r ∈ filter (version_of (key_of r) (commit_sequence r)) l) as H.
  { apply list_elem_of_filter. by split. }
  rewrite E in H. by apply not_elem_of_nil in H.
Qed.

Definition newest_of k rs (l : list PropertyDeltaRecord) (o : option PropertyDeltaRecord) : Prop :=
  match o with
  | Some r =>
      commit_sequence r <= rs /\ last_version k l (commit_sequence r) = Some r /\
      (forall c, c <= rs -> is_Some (last_version k l c) -> c <= commit_sequence r)
  | None => forall c, c <= rs -> last_version k l c = None
  end.

Lemma newest_visible_of k rs l : newest_of k rs l (newest_visible k rs l).
Proof.
  induction l as [|r l IH] using rev_ind; [done|].
  unfold newest_visible in *. rewrite foldl_snoc. unfold newest_step at 1.
  destruct (decide (visible k rs r)) as [[Hk Hc]|Hv].
  - destruct (foldl (newest_step k rs) None l) as [b|] eqn:E; simpl in IH |- *.
    + destruct IH as (Hb & Hlv & Hmax). destruct (Z.leb_spec (commit_sequence b) (commit_sequence r)).
      * split_and!; [done| |].
        -- rewrite last_version_snoc, decide_True; done.
        -- intros c ? Hs. rewrite last_version_snoc in Hs. case_decide as Hd.
           { destruct Hd as [_ <-]. done. } { etrans; [by apply Hmax|done]. }
      * split_and!; [done| |].
        -- rewrite last_version_snoc, decide_False; [done|]. intros [_ ?]. lia.
        -- intros c ? Hs. rewrite last_version_snoc in Hs. case_decide as Hd; [|by apply Hmax].
           destruct Hd as [_ <-]. lia.
    + split_and!; [done| |].
      * rewrite last_version_snoc, decide_True; done.
      * intros c ? Hs. rewrite last_version_snoc in Hs. case_decide as Hd.
        { destruct Hd as [_ <-]. done. } { rewrite IH in Hs by done. by destruct Hs. }
  - assert (forall c, c <= rs -> last_version k (l ++ [r]) c = last_version k l c) as Hsame.
    { intros c Hc. rewrite last_version_snoc, decide_False; [done|].
      intros [? ?]. apply Hv. split; [done|lia]. }
    destruct (foldl (newest_step k rs) None l) as [b|]; simpl in IH |- *.
    + destruct IH as (Hb & Hlv & Hmax). split_and!; [done|by rewrite Hsame|].
      intros c Hc Hs. rewrite Hsame in Hs by done. by apply Hmax.
    + intros c Hc. rewrite Hsame by done. by apply IH.
Qed.

Lemma newest_of_unique k rs l o o' : newest_of k rs l o -> newest_of k rs l o' -> o = o'.
Proof.
  destruct o as [r|], o' as [r'|]; simpl; [| | |done].
  - intros (H1 & H2 & H3) (H1' & H2' & H3').
    assert (commit_sequence r = commit_sequence r') as E.
    { pose proof (H3 _ H1' ltac:(by rewrite H2')).
      pose proof (H3' _ H1 ltac:(by rewrite H2)). lia. }
    rewrite E in H2. congruence.
  - intros (H1 & H2 & _) H. rewrite H in H2 by done. discriminate.
  - intros H (H1 & H2 & _). rewrite H in H2 by done. discriminate.
Qed.

(** [newest_visible] depends on the writes only through [last_version]. *)
Lemma newest_visible_ext k rs l l' :
  (forall c, last_version k l c = last_version k l' c) ->
  newest_visible k rs l = newest_visible k rs l'.
Proof.
  intros H. eapply newest_of_unique; [apply newest_visible_of|].
  pose proof (newest_visible_of k rs l') as N.
  destruct (newest_visible k rs l') as [r|]; simpl in *.
  - destruct N as (? & ? & Hm). split_and!; [done|by rewrite H|].
    intros c ?. rewrite H. by apply Hm.
  - intros c ?. rewrite H. by apply N.
Qed.

Lemma newest_visible_Some k rs l r :
  newest_visible k rs l = Some r -> visible k rs r /\ r ∈ l.
Proof.
  intros E. pose proof (newest_visible_of k rs l) as N. rewrite E in N.
  destruct N as (? & H & _). apply last_version_is in H as [[? _] ?]. done.
Qed.

Lemma newest_visible_None k rs l :
  newest_visible k rs l = None <-> (forall r, r ∈ l -> ~ visible k rs r).
Proof.
  pose proof (newest_visible_of k rs l) as N.
  destruct (newest_visible k rs l) as [r|] eqn:E; simpl in N; split; try done.
  - intros H. apply newest_visible_Some in E as [? ?]. by destruct (H r).
  - intros _ r Hr [Hk Hc]. destruct (last_version_is_Some k l r Hr Hk) as [? Hs].
    by rewrite N in Hs.
Qed.

Lemma newest_visible_max k rs l r r' :
  newest_visible k rs l = Some r -> r' ∈ l -> visible k rs r' ->
  commit_sequence r' <= commit_sequence r.
Proof.
  intros E Hin [Hk Hc]. pose proof (newest_visible_of k rs l) as N. rewrite E in N.
  destruct N as (_ & _ & Hm). apply Hm; [done|]. by apply last_version_is_Some.
Qed.

Lemma newest_visible_invisible k rs l l' :
  (forall r, r ∈ l' -> ~ visible k rs r) ->
  newest_visible k rs (l ++ l') = newest_visible k rs l.
Proof.
  unfold newest_visible. rewrite foldl_app. generalize (foldl (newest_step k rs) None l).
  induction l' as [|r l' IH]; intros o Hl; simpl; [done|].
  unfold newest_step at 2. rewrite decide_False by (apply Hl; set_solver).
  apply IH. set_solver.
Qed.

Lemma newest_visible_snoc k rs l r :
  visible k rs r ->
  (forall b, b ∈ l -> visible k rs b -> commit_sequence b <= commit_sequence r) ->
  newest_visible k rs (l ++ [r]) = Some r.
Proof.
  intros Hr Hl. unfold newest_visible at 1. rewrite foldl_snoc. fold (newest_visible k rs l).
  unfold newest_step. rewrite decide_True by done.
  destruct (newest_visible k rs l) as [b|] eqn:E; [|done].
  apply newest_visible_Some in E as [? ?]. rewrite (proj2 (Z.leb_le _ _)); [done|]. by apply Hl.
Qed.

(** ** The order of delta records *)
Definition key_lt (a b : LogicalKey) : Prop :=
  k_src a < k_src b \/ (k_src a = k_src b /\
  (k_dst a < k_dst b \/ (k_dst a = k_dst b /\
  (Z.b2z (k_is_out a) < Z.b2z (k_is_out b) \/ (Z.b2z (k_is_out a) = Z.b2z (k_is_out b) /\
  (k_edge_type a < k_edge_type b \/ (k_edge_type a = k_edge_type b /\
  k_base_sequence a < k_base_sequence b))))))).

#[export] Instance key_lt_dec a b : Decision (key_lt a b).
Proof. unfold key_lt. apply _. Defined.

Lemma key_eq_iff a b :
  a = b <-> k_src a = k_src b /\ k_dst a = k_dst b /\ Z.b2z (k_is_out a) = Z.b2z (k_is_out b) /\
            k_edge_type a = k_edge_type b /\ k_base_sequence a = k_base_sequence b.
Proof.
  split; [by intros ->|]. destruct a, b; simpl. intros (-> & -> & Ho & -> & ->).
  f_equal. by apply Z.b2z_inj.
Qed.

Lemma CompareLogicalKey_cases r r' :
  (CompareLogicalKey r r' = -1 /\ key_lt (key_of r) (key_of r')) \/
  (CompareLogicalKey r r' = 0 /\ key_of r = key_of r') \/
  (CompareLogicalKey r r' = 1 /\ key_lt (key_of r') (key_of r)).
Proof.
  rewrite key_eq_iff. unfold CompareLogicalKey, key_lt. destruct r, r'; simpl.
  repeat (case_match; simpl in *); try lia;
    repeat match goal with b : bool |- _ => destruct b end; simpl in *; try discriminate; lia.
Qed.

Definition rec_lt (r r' : PropertyDeltaRecord) : Prop :=
  key_lt (key_of r) (key_of r') \/
  (key_of r = key_of r' /\ commit_sequence r < commit_sequence r').

Definition rec_le (r r' : PropertyDeltaRecord) : Prop :=
  key_lt (key_of r) (key_of r') \/
  (key_of r = key_of r' /\ commit_sequence r <= commit_sequence r').

Ltac order_solver :=
  unfold rec_lt, rec_le, key_lt in *; rewrite ?key_eq_iff in *; simpl in *; lia.

Lemma RecordLess_spec r r' : RecordLess r r' = true <-> rec_lt r r'.
Proof.
  unfold RecordLess.
  destruct (CompareLogicalKey_cases r r') as [[-> H]|[[-> H]|[-> H]]]; simpl;
    rewrite ?Z.ltb_lt; split; intros; try done; order_solver.
Qed.

Lemma RecordLess_false r r' : RecordLess r r' = false <-> rec_le r' r.
Proof.
  rewrite <- not_true_iff_false, RecordLess_spec.
  destruct (CompareLogicalKey_cases r r') as [[_ H]|[[_ H]|[_ H]]]; split; intros; order_solver.
Qed.

Lemma RecordLess_asym r r' : RecordLess r r' = true -> RecordLess r' r = false.
Proof. rewrite RecordLess_spec, RecordLess_false. order_solver. Qed.

Lemma RecordLess_nless_trans x y z :
  nless RecordLess x y -> nless RecordLess y z -> nless RecordLess x z.
Proof. unfold nless. rewrite !RecordLess_false. order_solver. Qed.

Lemma SameVersion_spec r r' :
  SameVersion r r' = true <-> key_of r = key_of r' /\ commit_sequence r = commit_sequence r'.
Proof.
  unfold SameVersion. rewrite andb_true_iff, !Z.eqb_eq.
  destruct (CompareLogicalKey_cases r r') as [[-> H]|[[-> H]|[-> H]]]; split;
    intros [? ?]; try done; order_solver.
Qed.

(** ** Sorting and deduplication keep what a reader can observe *)
Lemma last_version_stable_sort k l c :
  last_version k (stable_sort RecordLess l) c = last_version k l c.
Proof.
  unfold last_version. f_equal. apply stable_sort_filter.
  intros y z [? ?] [? ?]. apply RecordLess_false. right. split; [congruence|lia].
Qed.

Lemma last_version_dedup_push k acc r c :
  last_version k (reverse (dedup_push acc r)) c =
  last_version k (reverse acc ++ [r]) c.
Proof.
  destruct acc as [|b acc]; simpl; [done|].
  destruct (SameVersion b r) eqn:E; rewrite !reverse_cons; [|done].
  apply SameVersion_spec in E as [Ek Ec]. rewrite !last_version_snoc.
  case_decide as Hd; [done|]. rewrite decide_False; [done|].
  unfold version_of in *. by rewrite Ek, Ec.
Qed.

Lemma last_version_deduplicate k l c : last_version k (deduplicate l) c = last_version k l c.
Proof.
  unfold deduplicate. induction l as [|r l IH] using rev_ind; [done|].
  rewrite foldl_snoc, last_version_dedup_push, !last_version_snoc. by rewrite IH.
Qed.

Lemma newest_visible_canonical k rs l :
  newest_visible k rs (deduplicate (stable_sort RecordLess l)) = newest_visible k rs l.
Proof.
  apply newest_visible_ext. intros c.
  by rewrite last_version_deduplicate, last_version_stable_sort.
Qed.

(** The canonical batch is strictly increasing: one record per version. *)
Definition descending (l : list PropertyDeltaRecord) : Prop :=
  StronglySorted (fun r r' => rec_lt r' r) l.

Lemma rec_lt_le_trans a b c : rec_lt a b -> rec_le b c -> rec_lt a c.
Proof. order_solver. Qed.

Lemma dedup_push_descending acc r :
  descending acc -> Forall (fun b => rec_le b r) acc ->
  descending (dedup_push acc r).
Proof.
  unfold descending. intros Hs Hr. destruct acc as [|b acc]; simpl; [by repeat constructor|].
  apply StronglySorted_inv in Hs as [Hs Hb]. inversion Hr as [|? ? Hbr Hr']; subst.
  destruct (SameVersion b r) eqn:E.
  - constructor; [done|]. eapply Forall_impl; [exact Hb|]. simpl. intros x Hx.
    eapply rec_lt_le_trans; [exact Hx | exact Hbr].
  - constructor; [by constructor|].
    assert (rec_lt b r) as Hlt.
    { destruct Hbr as [?|[Hk Hc]]; [by left|]. right. split; [done|].
      apply Z.le_neq. split; [done|]. intros Hc'.
      rewrite (proj2 (SameVersion_spec b r)) in E by done. discriminate. }
    constructor; [done|]. eapply Forall_impl; [exact Hb|]. simpl. intros x Hx. order_solver.
Qed.

Lemma dedup_push_subset acc r x : x ∈ dedup_push acc r -> x = r \/ x ∈ acc.
Proof. destruct acc as [|b acc]; simpl; [|case_match]; set_solver. Qed.

Lemma foldl_dedup_descending l acc :
  StronglySorted (nless RecordLess) l -> descending acc ->
  Forall (fun b => Forall (rec_le b) l) acc ->
  descending (foldl dedup_push acc l).
Proof.
  revert acc. induction l as [|r l IH]; intros acc Hl Hs Hf; [done|]. simpl.
  apply StronglySorted_inv in Hl as [Hl Hr]. apply IH; [done| |].
  - apply dedup_push_descending; [done|]. eapply Forall_impl; [done|].
    simpl. intros x Hx. by inversion Hx.
  - apply Forall_forall. intros x [->|Hx]%dedup_push_subset.
    + eapply Forall_impl; [done|]. intros y. apply RecordLess_false.
    + rewrite Forall_forall in Hf. specialize (Hf x Hx). by inversion Hf.
Qed.

Lemma StronglySorted_snoc {A} (R : A -> A -> Prop) l x :
  StronglySorted R l -> Forall (fun y => R y x) l -> StronglySorted R (l ++ [x]).
Proof.
  induction 1 as [|y l Hl IH Hy]; intros Hx; simpl; [by repeat constructor|].
  inversion Hx; subst. constructor; [by apply IH|]. apply Forall_app. by split; [|constructor].
Qed.

Lemma StronglySorted_reverse {A} (R : A -> A -> Prop) l :
  StronglySorted R l -> StronglySorted (fun x y => R y x) (reverse l).
Proof.
  induction 1 as [|x l Hl IH Hx]; [constructor|]. rewrite reverse_cons.
  apply StronglySorted_snoc; [done|]. by apply Forall_reverse.
Qed.

Lemma canonical_sorted l :
  StronglySorted rec_lt (deduplicate (stable_sort RecordLess l)).
Proof.
  unfold deduplicate. apply (StronglySorted_reverse (fun r r' => rec_lt r' r)).
  apply foldl_dedup_descending; [|constructor..].
  apply stable_sort_sorted; [apply RecordLess_asym | apply RecordLess_nless_trans].
Qed.

Lemma canonical_subset l r : r ∈ deduplicate (stable_sort RecordLess l) -> r ∈ l.
Proof.
  intros H. apply (elem_of_Permutation_proper r _ _ (stable_sort_perm RecordLess l)).
  revert H. generalize (stable_sort RecordLess l) as k. intros k.
  unfold deduplicate. rewrite elem_of_reverse.
  assert (forall acc, r ∈ foldl dedup_push acc k -> r ∈ acc \/ r ∈ k) as H.
  { induction k as [|x k IH]; simpl; intros acc Hr; [by left|].
    destruct (IH _ Hr) as [Hr'|]; [apply dedup_push_subset in Hr'|]; set_solver. }
  intros Hr. destruct (H _ Hr) as [?%not_elem_of_nil|]; done.
Qed.

Lemma canonical_nonempty l : l <> [] -> deduplicate (stable_sort RecordLess l) <> [].
Proof.
  intros Hl E. destruct l as [|r l]; [done|].
  pose proof (last_version_is_Some (key_of r) (r :: l) r ltac:(set_solver) eq_refl) as [x Hx].
  rewrite <- last_version_stable_sort, <- last_version_deduplicate, E in Hx. done.
Qed.
