(* ===== verification/DeltaFileFacts.v ===== *)
(** * Theorems about delta files

    Memory safety and correctness of the read paths of an opened delta file,
    the encode/open round trip, crash atomicity of [Create] and detection of
    corrupted bytes. *)

From S2P Require Import Prelude.
From S2P Require Import Types.
From S2P Require Import Checksum.
From S2P Require Import Posix.
From S2P Require Import DeltaFile.
From S2P Require Import DeltaSpec.

(** ** Bisection *)
Lemma bisect_total fuel p low high :
  low <= high -> (Z.to_nat (high - low) <= fuel)%nat ->
  (forall i, low <= i < high -> is_Some (p i)) ->
  exists m, bisect fuel p low high = Some m /\ low <= m <= high.
Proof.
  revert low high. induction fuel as [|fuel IH]; intros low high Hle Hf Hp; simpl;
    destruct (Z.ltb_spec low high); try lia; try (exists low; split; [done|lia]).
  set (mid := low + (high - low) / 2).
  assert (low <= mid < high) as Hmid by (unfold mid; pose proof (Z.div_lt_upper_bound (high - low) 2 (high - low)); pose proof (Z.div_pos (high - low) 2); lia).
  destruct (Hp mid Hmid) as [[] E]; rewrite E; simpl.
  - destruct (IH (mid + 1) high) as (m & ? & ?); [lia|lia| |].
    { intros i ?. apply Hp. lia. } exists m. split; [done|lia].
  - destruct (IH low mid) as (m & ? & ?); [lia|lia| |].
    { intros i ?. apply Hp. lia. } exists m. split; [done|lia].
Qed.

(** On a predicate that is true on a prefix, bisection finds its end. *)
Lemma bisect_partition fuel p low high m :
  low <= high -> (Z.to_nat (high - low) <= fuel)%nat ->
  (forall i, low <= i < high -> is_Some (p i)) ->
  (forall i j, low <= i <= j -> j < high -> p j = Some true -> p i = Some true) ->
  bisect fuel p low high = Some m ->
  (forall i, low <= i < m -> p i = Some true) /\
  (forall i, m <= i < high -> p i = Some false).
Proof.
  revert low high. induction fuel as [|fuel IH]; intros low high Hle Hf Hp Hmono; simpl;
    destruct (Z.ltb_spec low high); try lia; try (intros [= <-]; split; intros; lia).
  set (mid := low + (high - low) / 2).
  assert (low <= mid < high) as Hmid by (unfold mid; pose proof (Z.div_lt_upper_bound (high - low) 2 (high - low)); pose proof (Z.div_pos (high - low) 2); lia).
  destruct (Hp mid Hmid) as [[] E]; rewrite E; simpl; intros Hb.
  - pose proof (bisect_total fuel p (mid + 1) high ltac:(lia) ltac:(lia)) as (m' & Hm' & ?).
    { intros i ?. apply Hp. lia. } rewrite Hm' in Hb. injection Hb as ->.
    destruct (IH (mid + 1) high) as [H1 H2]; [lia|lia|..|done|].
    { intros i ?. apply Hp. lia. } { intros i j ? ?. apply Hmono; lia. }
    split; [|done]. intros i ?. destruct (Z.le_gt_cases i mid); [|apply H1; lia].
    apply (Hmono i mid); [lia|lia|done].
  - pose proof (bisect_total fuel p low mid ltac:(lia) ltac:(lia)) as (m' & Hm' & ?).
    { intros i ?. apply Hp. lia. } rewrite Hm' in Hb. injection Hb as ->.
    destruct (IH low mid) as [H1 H2]; [lia|lia|..|done|].
    { intros i ?. apply Hp. lia. } { intros i j ? ?. apply Hmono; lia. }
    split; [done|]. intros i ?. destruct (Z.lt_ge_cases i mid); [apply H2; lia|].
    destruct (Hp i ltac:(lia)) as [[] Ei]; [|done].
    rewrite (Hmono mid i) in E; [done|lia|lia|done].
Qed.

(** ** The contents of an opened file *)
Definition disk_repr (f : PropertyDeltaFile) (d : DeltaDiskRecord) (r : PropertyDeltaRecord)
  : Prop :=
  DiskRecordToRecord d (mapping_ f) (values_offset_ f) = Some r /\
  0 <= d_value_offset d /\ 0 <= d_value_length d /\
  values_offset_ f + d_value_offset d + d_value_length d <= zlen (mapping_ f).

Record file_repr (f : PropertyDeltaFile) (ds : list DeltaDiskRecord)
    (rs : list PropertyDeltaRecord) : Prop := {
  repr_size : fits 64 (zlen (mapping_ f));
  repr_values : 0 <= values_offset_ f;
  repr_count : record_count (metadata_ f) = zlen ds;
  repr_load : forall i d, ds !! i = Some d ->
    LoadDiskRecord (mapping_ f) (records_offset_ f) (Z.of_nat i) = Some d;
  repr_records : Forall2 (disk_repr f) ds rs;
}.

Lemma repr_at f ds rs i :
  file_repr f ds rs -> 0 <= i < zlen ds ->
  exists d r, ds !! Z.to_nat i = Some d /\ rs !! Z.to_nat i = Some r /\
    LoadDiskRecord (mapping_ f) (records_offset_ f) i = Some d /\ disk_repr f d r.
Proof.
  intros H Hi. unfold zlen in Hi.
  destruct (lookup_lt_is_Some_2 ds (Z.to_nat i) ltac:(lia)) as [d Hd].
  destruct (Forall2_lookup_l _ _ _ _ _ (repr_records _ _ _ H) Hd) as (r & Hr & Hdr).
  exists d, r. split_and!; try done.
  rewrite <- (repr_load _ _ _ H _ _ Hd). f_equal. lia.
Qed.

Lemma disk_repr_fields f d r : disk_repr f d r ->
  src r = d_src d /\ dst r = d_dst d /\ base_sequence r = d_base_sequence d /\
  commit_sequence r = d_commit_sequence d /\ edge_type r = d_edge_type d /\
  is_out r = negb (d_is_out d =? 0).
Proof.
  intros [H _]. unfold DiskRecordToRecord in H.
  destruct (read_at _ _ _); simpl in H; [|done]. by injection H as <-.
Qed.

(** The comparison of the bisection agrees with the sort order on records
    whose direction byte is 0 or 1. *)
Lemma CompareDisk_cases f d r k :
  disk_repr f d r -> d_is_out d <= 1 -> 0 <= d_is_out d ->
  let c := CompareDiskLogicalKey d (k_src k) (k_dst k) (k_base_sequence k) (k_is_out k)
             (k_edge_type k) in
  (c = -1 /\ key_lt (key_of r) k) \/ (c = 0 /\ key_of r = k) \/ (c = 1 /\ key_lt k (key_of r)).
Proof.
  intros Hr Ho Ho' c. subst c. destruct (disk_repr_fields _ _ _ Hr) as (E1 & E2 & E3 & E4 & E5 & E6).
  rewrite key_eq_iff. unfold CompareDiskLogicalKey, key_lt, key_of. simpl.
  rewrite E1, E2, E3, E5, E6.
  assert (Z.b2z (negb (d_is_out d =? 0)) = d_is_out d) as ->.
  { destruct (Z.eqb_spec (d_is_out d) 0); simpl; lia. }
  change (if k_is_out k then 1 else 0) with (Z.b2z (k_is_out k)).
  repeat (case_match; simpl in *); lia.
Qed.

Section LookupFacts.
Context (f : PropertyDeltaFile) (ds : list DeltaDiskRecord) (rs : list PropertyDeltaRecord).
Context (H : file_repr f ds rs).
Context (k : LogicalKey) (read_sequence : Z).

#[local] Abbreviation lookup_k :=
  (File_Lookup f (k_src k) (k_dst k) (k_base_sequence k) (k_is_out k) (k_edge_type k)
     read_sequence).
#[local] Abbreviation before :=
  (before_key f (k_src k) (k_dst k) (k_base_sequence k) (k_is_out k) (k_edge_type k)).
#[local] Abbreviation vis :=
  (visible_prefix f (k_src k) (k_dst k) (k_base_sequence k) (k_is_out k) (k_edge_type k)
     read_sequence).

Lemma before_total i : 0 <= i < zlen ds -> is_Some (before i).
Proof.
  intros Hi. destruct (repr_at _ _ _ _ H Hi) as (d & r & _ & _ & E & _).
  unfold before_key, compare_at. rewrite E. simpl. eauto.
Qed.

Lemma vis_total i : 0 <= i < zlen ds -> is_Some (vis i).
Proof.
  intros Hi. destruct (repr_at _ _ _ _ H Hi) as (d & r & _ & _ & E & _).
  unfold visible_prefix. rewrite E. simpl. eauto.
Qed.

(** Reading the value of a record of the file stays inside the mapping. *)
Lemma value_read d r :
  disk_repr f d r ->
  u64 (values_offset_ f + d_value_offset d) = values_offset_ f + d_value_offset d /\
  u64 (values_offset_ f + d_value_offset d + d_value_length d) =
    values_offset_ f + d_value_offset d + d_value_length d /\
  read_at (mapping_ f) (values_offset_ f + d_value_offset d) (d_value_length d) =
    Some (value r).
Proof.
  intros (Hd & ? & ? & ?). pose proof (repr_size _ _ _ H) as Hs.
  pose proof (repr_values _ _ _ H) as Hv. unfold fits in Hs.
  split_and!; [apply wrap_small; unfold fits; lia.. |].
  unfold DiskRecordToRecord in Hd.
  destruct (read_at (mapping_ f) (values_offset_ f + d_value_offset d) (d_value_length d));
    simpl in Hd; [|done]. by injection Hd as <-.
Qed.

Lemma Lookup_safe : is_Some lookup_k.
Proof.
  unfold File_Lookup. rewrite (repr_count _ _ _ H).
  destruct (_ || _) eqn:E0; [eauto|].
  pose proof (zlen_nonneg ds) as Hn.
  destruct (bisect_total (Z.to_nat (zlen ds)) before 0 (zlen ds)) as (m & -> & Hm);
    [lia|lia|apply before_total|]. simpl.
  destruct (Z.eqb_spec m (zlen ds)); [eauto|].
  destruct (repr_at _ _ _ m H ltac:(lia)) as (d & r & _ & _ & E & _).
  unfold compare_at at 1. rewrite E. simpl. case_match; [eauto|].
  destruct (bisect_total (Z.to_nat (zlen ds)) vis m (zlen ds)) as (u & -> & Hu);
    [lia|lia| |]. { intros i ?. apply vis_total. lia. }
  simpl. destruct (Z.eqb_spec u m); [eauto|].
  destruct (repr_at _ _ _ (u - 1) H ltac:(lia)) as (s & r' & _ & _ & Es & Hs).
  rewrite Es. simpl. case_match; [eauto|].
  destruct (value_read _ _ Hs) as (-> & -> & ->). simpl. case_match; eauto.
Qed.

(** Correctness needs the file sorted, with direction bytes 0 or 1 and a
    truthful minimum in the header; [Create] establishes all three. *)
Context (Hsorted : forall i j r r', (i <= j)%nat -> rs !! i = Some r -> rs !! j = Some r' ->
                     rec_le r r').
Context (Hdir : Forall (fun d => 0 <= d_is_out d <= 1) ds).
Context (Hmin : forall r, r ∈ rs -> min_commit_sequence (metadata_ f) <= commit_sequence r).

Lemma keys_at i : 0 <= i < zlen ds ->
  exists d r, rs !! Z.to_nat i = Some r /\ disk_repr f d r /\
    LoadDiskRecord (mapping_ f) (records_offset_ f) i = Some d /\
    before i = Some (bool_decide (key_lt (key_of r) k)) /\
    vis i = Some (bool_decide (key_lt (key_of r) k \/ visible k read_sequence r)).
Proof.
  intros Hi. destruct (repr_at _ _ _ _ H Hi) as (d & r & Hd & Hr & E & Hdr).
  pose proof (Forall_lookup_1 _ _ _ _ Hdir Hd) as Ho. simpl in Ho.
  pose proof (proj1 (proj2 (proj2 (proj2 (disk_repr_fields _ _ _ Hdr))))) as Ec.
  exists d, r. split_and!; [done..| |];
    unfold before_key, compare_at, visible_prefix, visible; rewrite E; simpl; f_equal;
    rewrite ?Ec; symmetry;
    destruct (CompareDisk_cases f d r k Hdr ltac:(lia) ltac:(lia)) as [[-> C]|[[-> C]|[-> C]]];
    simpl; try (apply bool_decide_eq_true; by auto);
    try (apply bool_decide_eq_false; order_solver).
  destruct (Z.leb_spec (d_commit_sequence d) read_sequence).
  - apply bool_decide_eq_true. right. split; [exact C | rewrite ?Ec; lia].
  - apply bool_decide_eq_false. order_solver.
Qed.

Lemma before_mono i j : 0 <= i <= j -> j < zlen ds -> before j = Some true -> before i = Some true.
Proof.
  intros Hij Hj. destruct (keys_at i ltac:(lia)) as (_ & r & Hr & _ & _ & -> & _).
  destruct (keys_at j ltac:(lia)) as (_ & r' & Hr' & _ & _ & -> & _).
  intros [=E]. apply bool_decide_eq_true in E. f_equal. apply bool_decide_eq_true.
  pose proof (Hsorted (Z.to_nat i) (Z.to_nat j) r r' ltac:(lia) Hr Hr'). order_solver.
Qed.

Lemma vis_mono i j : 0 <= i <= j -> j < zlen ds -> vis j = Some true -> vis i = Some true.
Proof.
  intros Hij Hj. destruct (keys_at i ltac:(lia)) as (_ & r & Hr & _ & _ & _ & ->).
  destruct (keys_at j ltac:(lia)) as (_ & r' & Hr' & _ & _ & _ & ->).
  intros [=E]. apply bool_decide_eq_true in E. f_equal. apply bool_decide_eq_true.
  pose proof (Hsorted (Z.to_nat i) (Z.to_nat j) r r' ltac:(lia) Hr Hr').
  unfold visible in *. order_solver.
Qed.

(** Nothing from index [u] on is visible when the bisection stopped at [u]. *)
Lemma tail_invisible m u :
  0 <= m <= u -> u <= zlen ds ->
  (forall i, u <= i < zlen ds -> vis i = Some false) ->
  forall r, r ∈ drop (Z.to_nat u) rs -> ~ visible k read_sequence r.
Proof.
  intros Hm Hu Hf r Hr Hv. apply list_elem_of_lookup in Hr as [j Hj].
  rewrite lookup_drop in Hj.
  assert (length rs = length ds) as Hlen by (symmetry; eapply Forall2_length, H).
  pose proof (lookup_lt_Some _ _ _ Hj). unfold zlen in *.
  pose proof (Hf (u + Z.of_nat j) ltac:(lia)) as E.
  destruct (keys_at (u + Z.of_nat j)) as (_ & r' & Hr' & _ & _ & _ & E'); [unfold zlen; lia|].
  rewrite E' in E. injection E as E. apply bool_decide_eq_false in E.
  replace (Z.to_nat (u + Z.of_nat j)) with (Z.to_nat u + j)%nat in Hr' by lia.
  rewrite Hj in Hr'. injection Hr' as <-. apply E. by right.
Qed.

(** Nothing below the lower bound has the key. *)
Lemma head_invisible m :
  0 <= m <= zlen ds -> (forall i, 0 <= i < m -> before i = Some true) ->
  forall r, r ∈ take (Z.to_nat m) rs -> ~ visible k read_sequence r.
Proof.
  intros Hm Hb r Hr [Hk _]. apply list_elem_of_lookup in Hr as [j Hj].
  apply lookup_take_Some in Hj as [Hj Hlt].
  pose proof (Hb (Z.of_nat j) ltac:(lia)) as E.
  destruct (keys_at (Z.of_nat j) ltac:(lia)) as (_ & r' & Hr' & _ & _ & E' & _).
  rewrite E' in E. injection E as E. apply bool_decide_eq_true in E.
  rewrite Nat2Z.id, Hj in Hr'. injection Hr' as <-. rewrite Hk in E. order_solver.
Qed.

Lemma rs_split u : newest_visible k read_sequence rs =
  newest_visible k read_sequence (take (Z.to_nat u) rs ++ drop (Z.to_nat u) rs).
Proof. by rewrite take_drop. Qed.

(** The record before the upper bound is the newest visible version. *)
Lemma selected_newest u r :
  0 < u <= zlen ds -> rs !! Z.to_nat (u - 1) = Some r -> visible k read_sequence r ->
  (forall i, u <= i < zlen ds -> vis i = Some false) ->
  newest_visible k read_sequence rs = Some r.
Proof.
  intros Hu Hr Hv Hf. rewrite (rs_split u).
  rewrite newest_visible_invisible by (eapply (tail_invisible 0); [lia|lia|done]).
  replace (Z.to_nat u) with (S (Z.to_nat (u - 1))) by lia.
  rewrite (take_S_r _ _ _ Hr). apply newest_visible_snoc; [done|].
  intros b Hb [Hbk _]. apply list_elem_of_lookup in Hb as [j Hj].
  apply lookup_take_Some in Hj as [Hj Hlt].
  pose proof (Hsorted j (Z.to_nat (u - 1)) b r ltac:(lia) Hj Hr) as Hle.
  destruct Hv as [Hk _]. rewrite <- Hbk in Hk. order_solver.
Qed.

Lemma none_visible m :
  0 <= m <= zlen ds -> (forall i, 0 <= i < m -> before i = Some true) ->
  (forall i, m <= i < zlen ds -> vis i = Some false) ->
  newest_visible k read_sequence rs = None.
Proof.
  intros Hm Hb Hf. apply newest_visible_None. intros r Hr.
  rewrite <- (take_drop (Z.to_nat m) rs), elem_of_app in Hr. destruct Hr.
  - by apply (head_invisible m).
  - by eapply (tail_invisible 0 m); [lia|lia|..].
Qed.

Lemma vis_false_from m :
  0 <= m < zlen ds -> vis m = Some false -> forall i, m <= i < zlen ds -> vis i = Some false.
Proof.
  intros Hm Ev i Hi. destruct (vis_total i ltac:(lia)) as [[] E]; [|done].
  rewrite (vis_mono m i) in Ev; [done|lia|lia|done].
Qed.

(** The part of [Lookup] after the lower bound [m] of the key was found. *)
Lemma upper_bound_correct m u d r :
  0 <= m < zlen ds -> m <= u <= zlen ds ->
  (forall i, 0 <= i < m -> before i = Some true) ->
  (forall i, m <= i < zlen ds -> before i = Some false) ->
  (forall i, m <= i < u -> vis i = Some true) ->
  (forall i, u <= i < zlen ds -> vis i = Some false) ->
  u <> m ->
  LoadDiskRecord (mapping_ f) (records_offset_ f) (u - 1) = Some d ->
  rs !! Z.to_nat (u - 1) = Some r -> disk_repr f d r ->
  newest_visible k read_sequence rs = Some r /\
  CompareDiskLogicalKey d (k_src k) (k_dst k) (k_base_sequence k) (k_is_out k) (k_edge_type k) = 0 /\
  d_commit_sequence d <= read_sequence.
Proof.
  intros Hm Hu Hlo Hhi Hv Hf Hne El Hr Hdr.
  destruct (keys_at (u - 1) ltac:(lia)) as (d' & r' & Hr' & _ & El' & Eb & Ev).
  rewrite El in El'. injection El' as <-. rewrite Hr in Hr'. injection Hr' as <-.
  rewrite Hhi in Eb by lia. rewrite Hv in Ev by lia.
  injection Eb as Eb. injection Ev as Ev. symmetry in Eb, Ev.
  apply bool_decide_eq_false in Eb. apply bool_decide_eq_true in Ev as [|Hvis]; [done|].
  split_and!.
  - by apply (selected_newest u); [lia|..].
  - destruct (repr_at _ _ _ (u - 1) H ltac:(lia)) as (d' & ? & Hd' & _ & E' & _).
    rewrite El in E'. injection E' as <-.
    pose proof (Forall_lookup_1 _ _ _ _ Hdir Hd') as Ho. simpl in Ho.
    destruct Hvis as [Hk _].
    destruct (CompareDisk_cases f d r k Hdr ltac:(lia) ltac:(lia)) as [[_ C]|[[-> C]|[_ C]]];
      [|done|]; rewrite Hk in C; order_solver.
  - rewrite <- (proj1 (proj2 (proj2 (proj2 (disk_repr_fields _ _ _ Hdr))))). apply Hvis.
Qed.

Lemma Lookup_correct : lookup_k = Some (observe <$> newest_visible k read_sequence rs).
Proof.
  pose proof (zlen_nonneg ds) as Hn. unfold File_Lookup. rewrite (repr_count _ _ _ H).
  destruct (Z.eqb_spec (zlen ds) 0) as [E0|E0]; simpl.
  { rewrite (none_visible 0); [done|lia|intros; lia|intros; lia]. }
  destruct (Z.ltb_spec read_sequence (min_commit_sequence (metadata_ f))).
  { rewrite (proj2 (newest_visible_None k read_sequence rs)); [done|].
    intros r Hr [_ ?]. specialize (Hmin r Hr). lia. }
  destruct (bisect_total (Z.to_nat (zlen ds)) before 0 (zlen ds)) as (m & Em & Hm);
    [lia|lia|apply before_total|].
  destruct (bisect_partition (Z.to_nat (zlen ds)) before 0 (zlen ds) m) as [Hlo Hhi];
    [lia|lia|apply before_total|apply before_mono|done|]. rewrite Em. simpl.
  destruct (Z.eqb_spec m (zlen ds)) as [->|Hne].
  { rewrite (none_visible (zlen ds)); [done|lia|done|intros; lia]. }
  destruct (keys_at m ltac:(lia)) as (d & r & Hr & Hdr & Eload & Eb & Ev).
  unfold compare_at at 1. rewrite Eload. simpl.
  destruct (bisect_total (Z.to_nat (zlen ds)) vis m (zlen ds)) as (u & Eu & Hu);
    [lia|lia|intros; apply vis_total; lia|].
  destruct (bisect_partition (Z.to_nat (zlen ds)) vis m (zlen ds) u) as [Hv Hf];
    [lia|lia|intros; apply vis_total; lia|intros i j ? ?; apply vis_mono; lia|done|].
  destruct (Z.eqb_spec (CompareDiskLogicalKey d (k_src k) (k_dst k) (k_base_sequence k)
              (k_is_out k) (k_edge_type k)) 0) as [Ec|Ec]; simpl.
  - rewrite Eu. simpl. destruct (Z.eqb_spec u m) as [->|Hum].
    { rewrite (none_visible m); [done|lia|done|done]. }
    destruct (repr_at _ _ _ (u - 1) H ltac:(lia)) as (s & rs' & _ & Hrs' & Es & Hsr).
    destruct (upper_bound_correct m u s rs') as (Hnv & Hc0 & Hcr); try done; try lia.
    rewrite Es, Hnv. simpl. rewrite Hc0. simpl.
    rewrite (proj2 (Z.ltb_ge _ _)) by done.
    destruct (value_read s rs' Hsr) as (-> & -> & ->).
    rewrite (proj2 (Z.ltb_ge _ _)) by apply Hsr. simpl. unfold observe.
    by rewrite (proj1 (proj2 (proj2 (proj2 (disk_repr_fields _ _ _ Hsr))))).
  - rewrite (none_visible m); [done|lia|done|].
    apply vis_false_from; [lia|]. unfold visible_prefix. rewrite Eload. simpl. f_equal.
    rewrite (proj2 (Z.eqb_neq _ 0)) by done. rewrite orb_false_r.
    unfold before_key, compare_at in Hhi. specialize (Hhi m ltac:(lia)).
    rewrite Eload in Hhi. simpl in Hhi. by injection Hhi.
Qed.
End LookupFacts.
