(* ===== verification/DeltaFileCreate.v ===== *)
(** * Creating and opening delta files

    The image [Create] writes is accepted by [OpenAndValidate], and the opened
    file holds exactly the canonical (sorted, deduplicated) batch. *)

From S2P Require Import Prelude.
From S2P Require Import Types.
From S2P Require Import Checksum.
From S2P Require Import Posix.
From S2P Require Import DeltaFile.
From S2P Require Import DeltaSpec.
From S2P Require Import DeltaFileFacts.

(** ** The layout loop *)
Definition laid (values : bytes) (r : PropertyDeltaRecord) (d : DeltaDiskRecord) : Prop :=
  d_src d = src r /\ d_dst d = dst r /\ d_base_sequence d = base_sequence r /\
  d_commit_sequence d = commit_sequence r /\ d_edge_type d = edge_type r /\
  d_is_out d = (if is_out r then 1 else 0) /\ d_reserved d = 0 /\
  fits 64 (d_value_offset d) /\ fits 32 (d_value_length d) /\
  d_value_offset d + d_value_length d <= zlen values /\
  slice (d_value_offset d) (d_value_length d) values = value r.

Lemma laid_app values more r d : laid values r d -> laid (values ++ more) r d.
Proof.
  unfold laid, fits. intros (? & ? & ? & ? & ? & ? & ? & ? & ? & ? & ?).
  rewrite zlen_app, slice_app_head by lia. pose proof (zlen_nonneg more).
  split_and!; try done; lia.
Qed.

Lemma layout_step_laid l r l' :
  layout_step l r = Ok l' ->
  exists d, l_disk l' = l_disk l ++ [d] /\ l_values l' = l_values l ++ value r /\
    laid (l_values l') r d /\ fits 64 (zlen (l_values l')) /\
    l_min l' = Z.min (l_min l) (commit_sequence r) /\
    l_max l' = Z.max (l_max l) (commit_sequence r).
Proof.
  unfold layout_step. case_match eqn:E1; [done|]. case_match eqn:E2; [done|].
  apply Z.ltb_ge in E1, E2. unfold UINT32_MAX, UINT64_MAX in *. intros [= <-]. simpl.
  pose proof (zlen_nonneg (value r)). pose proof (zlen_nonneg (l_values l)).
  assert (u32 (zlen (value r)) = zlen (value r)) as Hw by (apply wrap_small; unfold fits; lia).
  eexists. split_and!; try done.
  - unfold laid, fits. simpl. rewrite Hw, zlen_app. split_and!; try done; try lia.
    rewrite <- (app_nil_r (value r)) at 2. apply slice_app_mid.
  - unfold fits. rewrite zlen_app. lia.
Qed.

Lemma layout_records_laid rs l l' :
  layout_records l rs = Ok l' -> fits 64 (zlen (l_values l)) ->
  exists ds more, l_disk l' = l_disk l ++ ds /\ l_values l' = l_values l ++ more /\
    Forall2 (laid (l_values l')) rs ds /\ fits 64 (zlen (l_values l')) /\
    (forall r, r ∈ rs -> l_min l' <= commit_sequence r <= l_max l') /\
    l_min l' <= l_min l /\ l_max l <= l_max l' /\
    (l_min l' = l_min l \/ exists r, r ∈ rs /\ l_min l' = commit_sequence r) /\
    (l_max l' = l_max l \/ exists r, r ∈ rs /\ l_max l' = commit_sequence r).
Proof.
  revert l. induction rs as [|r rs IH]; intros l; simpl.
  - intros [= <-] Hf. exists [], []. rewrite !app_nil_r.
    split_and!; try done; try lia; try (intros ? H; by apply not_elem_of_nil in H); by left.
  - destruct (layout_step l r) as [l1|] eqn:E1; [|done]. intros E Hf.
    apply layout_step_laid in E1 as (d & Hd1 & Hv1 & Hl1 & Hf1 & Hmin1 & Hmax1).
    destruct (IH _ E Hf1) as (ds & more & Hd & Hv & Hl & Hf' & Hb & Hmin & Hmax & Amin & Amax).
    exists (d :: ds), (value r ++ more).
    rewrite Hd, Hd1, Hv, Hv1, <- !app_assoc. simpl.
    assert (l_values l' = l_values l1 ++ more) as Hv' by done.
    split_and!; try done; try lia.
    + constructor; [|by rewrite Hv1, <- app_assoc in Hv; rewrite <- Hv].
      rewrite app_assoc, <- Hv1. by apply laid_app.
    + by rewrite Hv, Hv1, <- app_assoc in Hf'.
    + intros x [->|Hx]%elem_of_cons; [lia|]. by apply Hb.
    + destruct Amin as [Am|(x & ? & ?)]; [|right; exists x; set_solver].
      rewrite Am, Hmin1. destruct (Z.min_spec (l_min l) (commit_sequence r)) as [[_ ->]|[_ ->]];
        [by left|right; exists r; set_solver].
    + destruct Amax as [Am|(x & ? & ?)]; [|right; exists x; set_solver].
      rewrite Am, Hmax1. destruct (Z.max_spec (l_max l) (commit_sequence r)) as [[_ ->]|[_ ->]];
        [right; exists r; set_solver|by left].
Qed.

Lemma laid_pod_ok values r d : laid values r d -> record_ok r -> pod_ok d.
Proof.
  intros (E1 & E2 & E3 & E4 & E5 & E6 & E7 & H1 & H2 & _) (R1 & R2 & R3 & R4 & R5).
  split; [|by rewrite E3].
  unfold disk_fields, disk_widths. rewrite E1, E2, E4, E5, E6, E7.
  fields_solver; [apply (wrap_fits 64); lia|]. by destruct (is_out r).
Qed.

(** ** Arrays of plain-old-data *)
Lemma concat_pod_length {A} `{Pod A} (l : list A) :
  length (concat (map pod_encode l)) = (length l * pod_size A)%nat.
Proof.
  induction l as [|a l IH]; simpl; [done|]. by rewrite length_app, pod_length, IH.
Qed.

Lemma concat_pod_zlen {A} `{Pod A} (l : list A) :
  zlen (concat (map pod_encode l)) = zlen l * sizeof A.
Proof. unfold zlen, sizeof. rewrite concat_pod_length. lia. Qed.

Lemma concat_pod_slice {A} `{Pod A} (l : list A) i a :
  l !! i = Some a ->
  slice (Z.of_nat i * sizeof A) (sizeof A) (concat (map pod_encode l)) = pod_encode a.
Proof.
  intros Hi. rewrite <- (take_drop_middle l i a Hi) at 1.
  rewrite map_app, concat_app. simpl.
  replace (Z.of_nat i * sizeof A) with (zlen (concat (map pod_encode (take i l)))).
  2: { rewrite concat_pod_zlen. unfold zlen. rewrite length_take.
       apply lookup_lt_Some in Hi. rewrite Nat.min_l by lia. done. }
  replace (sizeof A) with (zlen (pod_encode a)) by (unfold zlen, sizeof; by rewrite pod_length).
  apply slice_app_mid.
Qed.

Lemma pod_decode_encode {A} `{Pod A} (a : A) : pod_ok a -> pod_decode (pod_encode a) = a.
Proof. intros. rewrite <- (app_nil_r (pod_encode a)). by apply pod_roundtrip. Qed.

Lemma LoadDiskRecord_array pre ds post i d :
  zlen pre + zlen ds * sizeof DeltaDiskRecord + zlen post = zlen (pre ++ concat (map pod_encode ds) ++ post) ->
  ds !! i = Some d -> pod_ok d ->
  LoadDiskRecord (pre ++ concat (map pod_encode ds) ++ post) (zlen pre) (Z.of_nat i) = Some d.
Proof.
  intros Hsz Hi Hok. unfold LoadDiskRecord. pose proof (lookup_lt_Some _ _ _ Hi) as Hlt.
  pose proof (zlen_nonneg pre). pose proof (zlen_nonneg post).
  assert (0 < sizeof DeltaDiskRecord) as Hs by done.
  assert (Z.of_nat i * sizeof DeltaDiskRecord + sizeof DeltaDiskRecord
          <= zlen (concat (map pod_encode ds))) as Hin.
  { rewrite concat_pod_zlen. unfold zlen. nia. }
  assert (0 <= Z.of_nat i * sizeof DeltaDiskRecord) as Hi0 by nia.
  rewrite read_at_Some by (rewrite ?zlen_app; lia). cbn [fmap option_fmap option_map]. f_equal.
  rewrite slice_app_tail by lia. rewrite slice_app_head by first [exact Hi0|lia|exact Hin].
  rewrite (concat_pod_slice _ _ _ Hi). by apply pod_decode_encode.
Qed.

(** ** The written image validates *)
Lemma laid_key values r d :
  laid values r d ->
  key_of (mkRecord (d_src d) (d_dst d) (d_base_sequence d) (d_commit_sequence d)
            (negb (d_is_out d =? 0)) (d_edge_type d) []) = key_of r /\
  d_commit_sequence d = commit_sequence r.
Proof.
  intros (E1 & E2 & E3 & E4 & E5 & E6 & _). unfold key_of. simpl.
  rewrite E1, E2, E3, E5, E6. split; [|done]. f_equal. by destruct (is_out r).
Qed.

Lemma laid_ordered values r r' d d' :
  laid values r d -> laid values r' d' -> rec_lt r r' ->
  RecordLess
    (mkRecord (d_src d') (d_dst d') (d_base_sequence d') (d_commit_sequence d')
       (negb (d_is_out d' =? 0)) (d_edge_type d') [])
    (mkRecord (d_src d) (d_dst d) (d_base_sequence d) (d_commit_sequence d)
       (negb (d_is_out d =? 0)) (d_edge_type d) []) = false.
Proof.
  intros [K C]%laid_key [K' C']%laid_key Hlt. apply RecordLess_false.
  unfold rec_le. rewrite K, K'. simpl. rewrite C, C'. order_solver.
Qed.

Lemma validate_records_ok m h values ds rs n i :
  (forall j d, ds !! j = Some d -> LoadDiskRecord m (h_records_offset h) (Z.of_nat j) = Some d) ->
  Forall2 (laid values) rs ds -> h_values_bytes h = zlen values ->
  StronglySorted rec_lt rs -> (i + n = length ds)%nat ->
  validate_records n m h (Z.of_nat i) = Some (Ok tt).
Proof.
  intros Hload Hl Hv Hs. revert i. induction n as [|n IH]; intros i Hi; simpl; [done|].
  destruct (lookup_lt_is_Some_2 ds i ltac:(lia)) as [d Hd].
  destruct (Forall2_lookup_r _ _ _ _ _ Hl Hd) as (r & Hr & Hrd).
  rewrite (Hload i d Hd). simpl.
  pose proof Hrd as (_ & _ & _ & _ & _ & _ & _ & F1 & F2 & Hb & _). unfold fits in *.
  rewrite Hv, !(proj2 (Z.ltb_ge _ _)) by lia. simpl.
  replace (Z.of_nat i + 1) with (Z.of_nat (S i)) by lia.
  destruct i as [|i]; [apply (IH 1%nat); lia|].
  rewrite (proj2 (Z.eqb_neq _ 0)) by lia.
  replace (Z.of_nat (S i) - 1) with (Z.of_nat i) by lia.
  destruct (lookup_lt_is_Some_2 ds i ltac:(lia)) as [d0 Hd0].
  destruct (Forall2_lookup_r _ _ _ _ _ Hl Hd0) as (r0 & Hr0 & Hrd0).
  rewrite (Hload i d0 Hd0). simpl.
  rewrite (laid_ordered values r0 r d0 d Hrd0 Hrd); [apply IH; lia|].
  by apply (StronglySorted_lookup rec_lt rs i (S i)); [|lia|..].
Qed.

Lemma laid_disk_repr f pre values r d :
  mapping_ f = pre ++ values -> values_offset_ f = zlen pre ->
  laid values r d -> disk_repr f d r.
Proof.
  intros Hm Hv (E1 & E2 & E3 & E4 & E5 & E6 & E7 & F1 & F2 & Hb & Hs). unfold fits in *.
  pose proof (zlen_nonneg pre).
  split_and!; [|lia|lia|rewrite Hm, Hv, zlen_app; lia].
  unfold DiskRecordToRecord. rewrite Hm, Hv.
  rewrite read_at_Some by (rewrite ?zlen_app; lia). rewrite slice_app_tail by lia.
  rewrite Hs. simpl. rewrite E1, E2, E3, E4, E5, E6. by destruct r as [? ? ? ? [] ? ?].
Qed.

Lemma magic_roundtrip : le 8 (of_le kMagic) = kMagic.
Proof. by vm_compute. Qed.

Lemma HeaderChecksum_with h sum : HeaderChecksum (with_checksum h sum) = HeaderChecksum h.
Proof. unfold HeaderChecksum. reflexivity. Qed.

Lemma HeaderChecksum_fits h : fits 64 (HeaderChecksum h).
Proof. apply ExtendChecksum_fits, kOffset_fits. Qed.

Lemma IsValidObjectKind_byte k : IsValidObjectKind (kind_byte k) = true.
Proof. by destruct k. Qed.

Lemma kind_of_byte_byte k : kind_of_byte (kind_byte k) = k.
Proof. by destruct k. Qed.

Lemma BuildHeader_pod_ok t g l :
  target_ok t -> fits 64 g -> fits 64 (l_min l) -> fits 64 (l_max l) ->
  fits 64 (zlen (l_disk l)) -> fits 64 (zlen (l_values l)) -> pod_ok (BuildHeader t g l).
Proof.
  intros (T1 & T2 & T3 & T4) Hg Hmin Hmax Hd Hv.
  pose proof (HeaderChecksum_fits) as Hc. pose proof (ExtendChecksum_fits) as He.
  cbn [pod_ok DeltaDiskHeader_pod]. unfold header_fields, header_widths.
  unfold BuildHeader, with_checksum.
  cbn [h_magic h_version h_header_bytes h_object_kind h_reserved0 h_shard_id h_property_id
       h_base_file_id h_reserved1 h_base_generation h_file_generation h_record_count
       h_records_offset h_values_offset h_values_bytes h_min_commit_sequence
       h_max_commit_sequence h_payload_checksum h_header_checksum].
  fields_solver.
  - by vm_compute.
  - by vm_compute.
  - by vm_compute.
  - by destruct (kind t).
  - by vm_compute.
  - apply wrap_fits; lia.
  - apply He, He, kOffset_fits.
  - apply Hc.
Qed.

(** The conditions under which [OpenAndValidate] accepts a mapping. *)
Record acceptable (h : DeltaDiskHeader) (body : bytes) : Prop := {
  acc_ok : pod_ok h;
  acc_magic : le 8 (h_magic h) = kMagic;
  acc_version : h_version h = kFormatVersion;
  acc_header_bytes : h_header_bytes h = sizeof DeltaDiskHeader;
  acc_kind : IsValidObjectKind (h_object_kind h) = true;
  acc_checksum : HeaderChecksum h = h_header_checksum h;
  acc_records : h_records_offset h = sizeof DeltaDiskHeader;
  acc_count : 0 <= h_record_count h;
  acc_values : h_values_offset h =
    sizeof DeltaDiskHeader + h_record_count h * sizeof DeltaDiskRecord;
  acc_values_bytes : 0 <= h_values_bytes h;
  acc_end : h_values_offset h + h_values_bytes h = sizeof DeltaDiskHeader + zlen body;
  acc_size : fits 64 (sizeof DeltaDiskHeader + zlen body);
  acc_payload : ExtendChecksum kOffset body = h_payload_checksum h;
}.

Lemma zlen_pod_encode {A} `{Pod A} (a : A) : zlen (pod_encode a) = sizeof A.
Proof. unfold zlen, sizeof. by rewrite pod_length. Qed.

Lemma ValidateMapping_accepts h body :
  acceptable h body ->
  validate_records (Z.to_nat (h_record_count h)) (pod_encode h ++ body) h 0 = Some (Ok tt) ->
  ValidateMapping (pod_encode h ++ body) = Some (Ok (opened_file (pod_encode h ++ body) h)).
Proof.
  intros [] Hval. unfold ValidateMapping. pose proof (zlen_nonneg body) as Hbody.
  assert (zlen (pod_encode h ++ body) = sizeof DeltaDiskHeader + zlen body) as Hsz
    by (by rewrite zlen_app, zlen_pod_encode).
  rewrite Hsz, (proj2 (Z.ltb_ge _ _)) by lia.
  change (sizeof DeltaDiskHeader) with 120 in *. change (sizeof DeltaDiskRecord) with 48 in *.
  unfold fits in *. rewrite read_at_Some by lia. simpl_bind.
  assert (slice 0 120 (pod_encode h ++ body) = pod_encode h) as ->.
  { rewrite slice_app_head by (rewrite ?zlen_pod_encode; done).
    change 120 with (sizeof DeltaDiskHeader). rewrite <- (zlen_pod_encode h). apply slice_all. }
  rewrite (pod_decode_encode h) by done.
  rewrite acc_magic0, bool_decide_true, acc_version0, acc_header_bytes0, acc_kind0, acc_checksum0 by done.
  rewrite !Z.eqb_refl. cbn [negb orb].
  rewrite acc_records0, (proj2 (Z.ltb_ge _ _)) by (apply Z.div_le_lower_bound; unfold UINT64_MAX; lia).
  rewrite (proj2 (Z.ltb_ge _ _)) by (unfold UINT64_MAX; lia).
  unfold u64. rewrite !wrap_small by (unfold fits; lia).
  rewrite acc_end0, <- acc_values0, !Z.eqb_refl, (proj2 (Z.ltb_ge _ _)) by lia.
  cbn [negb orb].
  assert ((if 120 <? 120 + zlen body then read_at (pod_encode h ++ body) 120 (120 + zlen body - 120)
           else Some []) = Some body) as ->.
  { destruct (Z.ltb_spec 120 (120 + zlen body)).
    - rewrite read_at_Some by lia. f_equal. change 120 with (sizeof DeltaDiskHeader) at 1.
      rewrite <- (zlen_pod_encode h), <- (Z.add_0_r (zlen (pod_encode h))).
      rewrite slice_app_tail by lia. replace (120 + zlen body - 120) with (zlen body) by lia.
      apply slice_all.
    - destruct body; [done|]. rewrite zlen_cons in *. pose proof (zlen_nonneg body). lia. }
  simpl_bind. rewrite acc_payload0, Z.eqb_refl. cbn [negb].
  by rewrite Hval.
Qed.

(** ** What [BuildImage] writes *)
Definition canonical (records : list PropertyDeltaRecord) : list PropertyDeltaRecord :=
  deduplicate (stable_sort RecordLess records).

Record built (t : PropertyDeltaTarget) (g : Z) (records : list PropertyDeltaRecord)
    (i : bytes * bytes * bytes) (l : Layout) : Prop := {
  built_image : i = (pod_encode (BuildHeader t g l), concat (map pod_encode (l_disk l)),
                     l_values l);
  built_laid : Forall2 (laid (l_values l)) (canonical records) (l_disk l);
  built_values : fits 64 (zlen (l_values l));
  built_bounds : forall r, r ∈ canonical records -> l_min l <= commit_sequence r <= l_max l;
  built_min : exists r, r ∈ records /\ l_min l = commit_sequence r;
  built_max : exists r, r ∈ records /\ l_max l = commit_sequence r;
  built_target : base_file_id t <> INVALID_File_ID;
}.

Lemma BuildImage_built t g records i :
  BuildImage t g records = Ok i -> Forall record_ok records ->
  exists l, built t g records i l.
Proof.
  unfold BuildImage. case_bool_decide as Hne; [done|].
  destruct (Z.eqb_spec (base_file_id t) INVALID_File_ID) as [|Ht]; [done|].
  fold (canonical records).
  destruct (layout_records _ _) as [l|] eqn:El; [|done]. intros [= <-] Hok. exists l.
  apply layout_records_laid in El as (ds & more & Hd & Hv & Hl & Hf & Hb & Hmin & Hmax & Amin & Amax);
    [|done]. simpl in *.
  assert (exists r, r ∈ canonical records) as [r0 Hr0].
  { destruct (canonical records) as [|r rs] eqn:E; [|exists r; set_solver].
    by apply canonical_nonempty in E. }
  assert (fits 64 (commit_sequence r0)) as F0.
  { rewrite Forall_forall in Hok. by apply Hok, canonical_subset. }
  pose proof (Hb _ Hr0) as Hb0. unfold kLatestPropertyCommit, UINT64_MAX, fits in *.
  split; simpl; [done|by rewrite Hd|done|done| | |done].
  - destruct Amin as [Am|(r & Hr & Hm)]; [|exists r; split; [by apply canonical_subset|done]].
    exists r0. split; [by apply canonical_subset|lia].
  - destruct Amax as [Am|(r & Hr & Hm)]; [|exists r; split; [by apply canonical_subset|done]].
    exists r0. split; [by apply canonical_subset|lia].
Qed.

Lemma built_acceptable t g records i l :
  built t g records i l -> Forall record_ok records -> target_ok t -> fits 64 g ->
  fits 64 (zlen (image_bytes i)) ->
  acceptable (BuildHeader t g l) (concat (map pod_encode (l_disk l)) ++ l_values l).
Proof.
  intros [Hi Hl Hv Hb (r1 & Hr1 & Hmin) (r2 & Hr2 & Hmax) _] Hok Ht Hg Hsz.
  rewrite Forall_forall in Hok.
  assert (fits 64 (l_min l)) by (rewrite Hmin; by apply Hok).
  assert (fits 64 (l_max l)) by (rewrite Hmax; by apply Hok).
  rewrite Hi in Hsz. cbn [image_bytes] in Hsz.
  rewrite zlen_app, zlen_pod_encode in Hsz.
  pose proof Hsz as Hsz'. rewrite zlen_app, concat_pod_zlen in Hsz'.
  pose proof (zlen_nonneg (l_disk l)). pose proof (zlen_nonneg (l_values l)).
  change (sizeof DeltaDiskHeader) with 120 in *. change (sizeof DeltaDiskRecord) with 48 in *.
  unfold fits in Hsz'.
  assert (u64 (120 + zlen (l_disk l) * 48) = 120 + zlen (l_disk l) * 48) as Hw
    by (apply wrap_small; unfold fits; lia).
  split; change (sizeof DeltaDiskHeader) with 120; change (sizeof DeltaDiskRecord) with 48;
    unfold BuildHeader; cbn [with_checksum h_values_offset h_record_count h_values_bytes].
  - apply BuildHeader_pod_ok; try done. unfold fits; lia.
  - apply magic_roundtrip.
  - done.
  - done.
  - apply IsValidObjectKind_byte.
  - apply HeaderChecksum_with.
  - done.
  - lia.
  - exact Hw.
  - lia.
  - change (sizeof DeltaDiskHeader) with 120; change (sizeof DeltaDiskRecord) with 48.
    rewrite Hw, zlen_app, concat_pod_zlen. change (sizeof DeltaDiskRecord) with 48. lia.
  - done.
  - cbn. apply ExtendChecksum_app.
Qed.

Lemma built_load t g records i l j d :
  built t g records i l -> Forall record_ok records -> l_disk l !! j = Some d ->
  LoadDiskRecord (image_bytes i) (sizeof DeltaDiskHeader) (Z.of_nat j) = Some d.
Proof.
  intros [Hi Hl _ _ _ _ _] Hok Hd. rewrite Hi. cbn [image_bytes].
  rewrite <- (zlen_pod_encode (BuildHeader t g l)).
  apply LoadDiskRecord_array; [|done|].
  - rewrite !zlen_app, concat_pod_zlen. lia.
  - destruct (Forall2_lookup_r _ _ _ _ _ Hl Hd) as (r & Hr & Hrd).
    eapply laid_pod_ok; [done|]. rewrite Forall_forall in Hok.
    apply Hok, canonical_subset. by eapply list_elem_of_lookup_2.
Qed.

(** The image of a batch opens, and the opened file represents the canonical batch. *)
Lemma built_opens t g records i l :
  built t g records i l -> Forall record_ok records -> target_ok t -> fits 64 g ->
  fits 64 (zlen (image_bytes i)) ->
  let f := opened_file (image_bytes i) (BuildHeader t g l) in
  ValidateMapping (image_bytes i) = Some (Ok f) /\
  file_repr f (l_disk l) (canonical records).
Proof.
  intros B Hok Ht Hg Hsz f. pose proof (built_acceptable _ _ _ _ _ B Hok Ht Hg Hsz) as Hacc.
  pose proof (fun j d => built_load _ _ _ _ _ j d B Hok) as Hload.
  assert (image_bytes i = pod_encode (BuildHeader t g l) ++
            (concat (map pod_encode (l_disk l)) ++ l_values l)) as Ei
    by (by rewrite (built_image _ _ _ _ _ B)).
  split.
  - subst f. rewrite Ei in Hload |- *. apply ValidateMapping_accepts; [done|].
    apply (validate_records_ok _ _ (l_values l) (l_disk l) (canonical records) _ 0).
    + intros j d Hj. rewrite (acc_records _ _ Hacc). by apply Hload.
    + apply B.
    + done.
    + apply canonical_sorted.
    + change (h_record_count (BuildHeader t g l)) with (zlen (l_disk l)). unfold zlen. lia.
  - split; [done| | done | |].
    + change (0 <= h_values_offset (BuildHeader t g l)). rewrite (acc_values _ _ Hacc).
      pose proof (acc_count _ _ Hacc). change (sizeof DeltaDiskHeader) with 120.
      change (sizeof DeltaDiskRecord) with 48. lia.
    + intros j d Hj. by apply Hload.
    + apply Forall2_flip. eapply Forall2_impl; [apply B|]. intros r d Hrd.
      eapply (laid_disk_repr f (pod_encode (BuildHeader t g l) ++ concat (map pod_encode (l_disk l))));
        [subst f; cbn [mapping_ opened_file]; by rewrite Ei, app_assoc| |done].
      change (h_values_offset (BuildHeader t g l) = 
        zlen (pod_encode (BuildHeader t g l) ++ concat (map pod_encode (l_disk l)))).
      rewrite (acc_values _ _ Hacc), zlen_app, zlen_pod_encode, concat_pod_zlen. done.
Qed.
