(* ===== verification/DeltaFileTheorems.v ===== *)
(** * Correctness of delta files

    The theorems about [PropertyDeltaFile] as a whole: opening arbitrary bytes
    is memory safe, a created file answers every lookup like the abstract
    specification, creation is atomic under crashes, iteration yields the
    canonical batch, and a corrupted payload byte is always detected. *)

From S2P Require Import Prelude.
From S2P Require Import Types.
From S2P Require Import Checksum.
From S2P Require Import Posix.
From S2P Require Import DeltaFile.
From S2P Require Import DeltaSpec.
From S2P Require Import DeltaFileFacts.
From S2P Require Import DeltaFileCreate.

(** ** Files accepted by [OpenAndValidate], whoever wrote them *)
Lemma of_le_nonneg bs : 0 <= of_le bs.
Proof. apply of_le_fits. Qed.

Lemma disk_decode_nonneg bs (d : DeltaDiskRecord) :
  pod_decode bs = d -> 0 <= d_value_offset d /\ 0 <= d_value_length d.
Proof. intros <-. split; apply of_le_nonneg. Qed.

Lemma header_decode_nonneg bs (h : DeltaDiskHeader) :
  pod_decode bs = h ->
  0 <= h_records_offset h /\ 0 <= h_record_count h /\ 0 <= h_values_offset h /\
  0 <= h_values_bytes h.
Proof. intros <-. split_and!; apply of_le_nonneg. Qed.

(** The record the validation loop compares. *)
Definition compared (d : DeltaDiskRecord) : PropertyDeltaRecord :=
  mkRecord (d_src d) (d_dst d) (d_base_sequence d) (d_commit_sequence d)
    (negb (d_is_out d =? 0)) (d_edge_type d) [].

Lemma validate_records_inv n m h i j :
  validate_records n m h i = Some (Ok tt) -> 0 <= i -> i <= j < i + Z.of_nat n ->
  exists d, LoadDiskRecord m (h_records_offset h) j = Some d /\
    d_value_offset d + d_value_length d <= h_values_bytes h /\
    (j = 0 \/ exists p, LoadDiskRecord m (h_records_offset h) (j - 1) = Some p /\
                        rec_le (compared p) (compared d)).
Proof.
  revert i. induction n as [|n IH]; intros i; cbn [validate_records]; [lia|].
  destruct (LoadDiskRecord m (h_records_offset h) i) as [d|] eqn:Ed; [|done]. simpl_bind.
  destruct (_ || _) eqn:Eb; [done|]. apply orb_false_iff in Eb as [Eb1 Eb2].
  apply Z.ltb_ge in Eb1, Eb2. intros Hv Hi Hj.
  destruct (Z.eqb_spec i 0) as [->|Hi0]; simpl_bind in Hv.
  - destruct (Z.eq_dec j 0) as [->|]; [|apply (IH 1); [done|lia|lia]].
    exists d. split_and!; [done|lia|by left].
  - destruct (LoadDiskRecord m (h_records_offset h) (i - 1)) as [p|] eqn:Ep; [|done].
    simpl_bind in Hv. fold (compared d) (compared p) in Hv.
    destruct (RecordLess (compared d) (compared p)) eqn:El; [done|].
    destruct (Z.eq_dec j i) as [->|]; [|apply (IH (i + 1)); [done|lia|lia]].
    exists d. split_and!; [done|lia|]. right. exists p. split; [done|]. by apply RecordLess_false.
Qed.

Lemma validate_records_safe n m h i :
  (forall j, 0 <= j < i + Z.of_nat n -> is_Some (LoadDiskRecord m (h_records_offset h) j)) ->
  0 <= i -> is_Some (validate_records n m h i).
Proof.
  revert i. induction n as [|n IH]; intros i Hl Hi; cbn [validate_records]; [eauto|].
  destruct (Hl i ltac:(lia)) as [d ->]. simpl_bind.
  destruct (_ || _); [eauto|].
  destruct (Z.eqb_spec i 0); simpl_bind; [apply IH; [intros; apply Hl; lia|lia]|].
  destruct (Hl (i - 1) ltac:(lia)) as [p ->]. simpl_bind.
  case_match; [apply IH; [intros; apply Hl; lia|lia]|eauto].
Qed.

Lemma LoadDiskRecord_inside m off i n :
  0 <= off -> 0 <= i < n -> off + n * sizeof DeltaDiskRecord <= zlen m ->
  is_Some (LoadDiskRecord m off i).
Proof.
  intros. unfold LoadDiskRecord. change (sizeof DeltaDiskRecord) with 48 in *.
  rewrite read_at_Some by lia. simpl. eauto.
Qed.

(** What acceptance establishes about the header. *)
Record accepted (m : bytes) (h : DeltaDiskHeader) : Prop := {
  ac_header : h = pod_decode (slice 0 (sizeof DeltaDiskHeader) m);
  ac_records : h_records_offset h = sizeof DeltaDiskHeader;
  ac_count : 0 <= h_record_count h;
  ac_values : h_values_offset h =
    sizeof DeltaDiskHeader + h_record_count h * sizeof DeltaDiskRecord;
  ac_bytes : 0 <= h_values_bytes h;
  ac_end : h_values_offset h + h_values_bytes h = zlen m;
}.

(** Every outcome of [ValidateMapping]: never a read outside the mapping, and
    an accepted mapping has a consistent header whose payload checksum holds. *)
Lemma ValidateMapping_cases m :
  fits 64 (zlen m) ->
  (exists e, ValidateMapping m = Some (Err e)) \/
  (exists h, ValidateMapping m = Some (Ok (opened_file m h)) /\ accepted m h /\
     ExtendChecksum kOffset (drop 120 m) = h_payload_checksum h /\
     HeaderChecksum h = h_header_checksum h /\
     validate_records (Z.to_nat (h_record_count h)) m h 0 = Some (Ok tt)).
Proof.
  intros Hm. unfold ValidateMapping. unfold fits in Hm.
  destruct (Z.ltb_spec (zlen m) (sizeof DeltaDiskHeader)) as [|Hlen]; [eauto|].
  assert (sizeof DeltaDiskHeader = 120) as Sh by done.
  assert (sizeof DeltaDiskRecord = 48) as Sr by done. rewrite Sh, Sr in *.
  rewrite read_at_Some by lia. simpl_bind.
  remember (pod_decode (slice 0 120 m)) as h eqn:Eh.
  destruct (header_decode_nonneg _ h (eq_sym Eh)) as (Hro & Hrc & Hvo & Hvb).
  destruct (_ || _); [eauto|].
  destruct (Z.eqb_spec (HeaderChecksum h) (h_header_checksum h)) as [Hhc|]; [|eauto]. cbn [negb].
  destruct (Z.ltb_spec ((UINT64_MAX - h_records_offset h) / 48) (h_record_count h)) as [|B1]; [eauto|].
  destruct (Z.ltb_spec (UINT64_MAX - h_values_offset h) (h_values_bytes h)) as [|B2]; [eauto|].
  destruct (Z.eqb_spec (h_records_offset h) 120) as [E1|]; [|eauto]. cbn [negb orb].
  rewrite E1 in *. unfold UINT64_MAX in *.
  assert (h_record_count h * 48 <= 18446744073709551615 - 120) as B1'.
  { pose proof (Z.mul_div_le (18446744073709551615 - 120) 48 ltac:(lia)). lia. }
  unfold u64. rewrite !wrap_small by (unfold fits; lia).
  destruct (Z.eqb_spec (h_values_offset h) (120 + h_record_count h * 48)) as [E2|]; [|eauto].
  destruct (Z.ltb_spec (zlen m) (120 + h_record_count h * 48)) as [|B3]; [eauto|].
  destruct (Z.eqb_spec (h_values_offset h + h_values_bytes h) (zlen m)) as [E3|]; [|eauto].
  cbn [negb orb].
  assert ((if 120 <? zlen m then read_at m 120 (zlen m - 120) else Some []) = Some (drop 120 m)) as ->.
  { destruct (Z.ltb_spec 120 (zlen m)).
    - rewrite read_at_Some by lia. f_equal. unfold slice. apply take_ge.
      rewrite length_drop. unfold zlen. lia.
    - f_equal. symmetry. apply drop_ge. unfold zlen in *. lia. }
  simpl_bind.
  destruct (Z.eqb_spec (ExtendChecksum kOffset (drop 120 m)) (h_payload_checksum h)) as [Hpc|]; [|eauto].
  cbn [negb].
  destruct (validate_records_safe (Z.to_nat (h_record_count h)) m h 0) as [[[]|e] Ev]; [|lia| |].
  { intros j Hj. rewrite E1. eapply (LoadDiskRecord_inside _ _ _ (h_record_count h)); lia. }
  - right. exists h. rewrite Ev. by split_and!.
  - left. rewrite Ev. eauto.
Qed.

(** An accepted file, by whatever process it was written, represents a sorted
    list of records. *)
Lemma accepted_repr m h :
  fits 64 (zlen m) -> accepted m h ->
  validate_records (Z.to_nat (h_record_count h)) m h 0 = Some (Ok tt) ->
  exists ds rs, file_repr (opened_file m h) ds rs.
Proof.
  intros Hm [Eh Er Hc Ev Hb Ee] Hval.
  pose proof (fun j Hj => validate_records_inv _ m h 0 j Hval ltac:(lia) Hj) as Hat.
  assert (forall n, (n <= Z.to_nat (h_record_count h))%nat ->
    exists ds rs, length ds = n /\
      (forall i d, ds !! i = Some d -> LoadDiskRecord m (h_records_offset h) (Z.of_nat i) = Some d) /\
      Forall2 (disk_repr (opened_file m h)) ds rs) as Hind.
  { induction n as [|n IH]; intros Hn; [by exists [], []|].
    destruct IH as (ds & rs & Hl & Hload & Hr); [lia|].
    destruct (Hat (Z.of_nat n) ltac:(lia)) as (d & Hd & Hdb & _).
    assert (exists bs, pod_decode bs = d) as [bs Hbs].
    { apply fmap_Some in Hd as (bs & _ & ->). by exists bs. }
    destruct (disk_decode_nonneg _ _ Hbs) as [H1 H2].
    assert (0 <= h_values_offset h) by (rewrite Ev;
      change (sizeof DeltaDiskHeader) with 120; change (sizeof DeltaDiskRecord) with 48; lia).
    assert (exists r, DiskRecordToRecord d m (h_values_offset h) = Some r) as [r Hrec].
    { unfold DiskRecordToRecord. rewrite read_at_Some by lia. simpl_bind. eauto. }
    exists (ds ++ [d]), (rs ++ [r]). split_and!.
    - rewrite length_app. simpl. lia.
    - intros i d' [[_ Hi]|[-> <-]]%lookup_snoc_Some; [by apply Hload|]. by rewrite Hl.
    - apply Forall2_app; [done|]. repeat constructor; simpl; try done; lia. }
  destruct (Hind (Z.to_nat (h_record_count h)) ltac:(lia)) as (ds & rs & Hl & Hload & Hr).
  exists ds, rs. split; try done; simpl.
  - rewrite Ev. change (sizeof DeltaDiskHeader) with 120. change (sizeof DeltaDiskRecord) with 48. lia.
  - unfold zlen. lia.
Qed.

(** ** [ForEachRecord] *)

(** The visitor protocol over a plain list. *)
Fixpoint visit_all {S} (visitor : PropertyDeltaRecord -> S -> bool * S)
    (rs : list PropertyDeltaRecord) (s : S) : bool * S :=
  match rs with
  | [] => (true, s)
  | r :: rs => let '(go_on, s) := visitor r s in if go_on then visit_all visitor rs s else (false, s)
  end.

Lemma for_each_from_repr {S} f ds rs (visitor : PropertyDeltaRecord -> S -> bool * S) n i s :
  file_repr f ds rs -> (i + n = length ds)%nat ->
  for_each_from n f visitor (Z.of_nat i) s = Some (visit_all visitor (drop i rs) s).
Proof.
  intros H. revert i s. induction n as [|n IH]; intros i s Hi; cbn [for_each_from].
  - rewrite drop_ge; [done|]. rewrite <- (Forall2_length _ _ _ (repr_records _ _ _ H)). lia.
  - destruct (repr_at _ _ _ (Z.of_nat i) H) as (d & r & Hd & Hr & -> & Hdr); [unfold zlen; lia|].
    rewrite Nat2Z.id in Hr. simpl_bind.
    destruct (value_read _ _ _ H d r Hdr) as (_ & -> & _).
    rewrite (proj2 (Z.ltb_ge _ _)) by apply Hdr. rewrite (proj1 Hdr). simpl_bind.
    rewrite (drop_S _ _ _ Hr). cbn [visit_all].
    destruct (visitor r s) as [[] s']; [|done].
    replace (Z.of_nat i + 1) with (Z.of_nat (Datatypes.S i)) by lia. apply IH. lia.
Qed.

Lemma ForEachRecord_repr {S} f ds rs (visitor : PropertyDeltaRecord -> S -> bool * S) s :
  file_repr f ds rs -> ForEachRecord f visitor s = Some (visit_all visitor rs s).
Proof.
  intros H. unfold ForEachRecord. rewrite (repr_count _ _ _ H).
  apply (for_each_from_repr f ds rs visitor _ 0 s H). unfold zlen. lia.
Qed.

(** The visitor that collects every record. *)
Definition collect (r : PropertyDeltaRecord) (acc : list PropertyDeltaRecord)
  : bool * list PropertyDeltaRecord := (true, acc ++ [r]).

Lemma visit_all_collect rs acc :
  visit_all collect rs acc = (true, acc ++ rs).
Proof.
  revert acc. induction rs as [|r rs IH]; intros acc; simpl; [by rewrite app_nil_r|].
  by rewrite IH, <- app_assoc.
Qed.

(** ** A created file answers like the specification *)
Lemma built_dirs t g records i l :
  built t g records i l -> Forall (fun d => 0 <= d_is_out d <= 1) (l_disk l).
Proof.
  intros [_ Hl _ _ _ _ _]. apply Forall_lookup_2. intros j d Hd.
  destruct (Forall2_lookup_r _ _ _ _ _ Hl Hd) as (r & _ & (_ & _ & _ & _ & _ & -> & _)).
  by destruct (is_out r).
Qed.

Lemma canonical_lookup_le records i j r r' :
  (i <= j)%nat -> canonical records !! i = Some r -> canonical records !! j = Some r' -> rec_le r r'.
Proof.
  intros Hij Hi Hj. destruct (decide (i = j)) as [->|].
  - simplify_eq. right. split; [done|lia].
  - pose proof (StronglySorted_lookup _ _ i j _ _ (canonical_sorted records) ltac:(lia) Hi Hj).
    order_solver.
Qed.

(** [File_Lookup] at a logical key. *)
Definition lookup_at (f : PropertyDeltaFile) (k : LogicalKey) (read_sequence : Z)
  : option (option (bytes * Z)) :=
  File_Lookup f (k_src k) (k_dst k) (k_base_sequence k) (k_is_out k) (k_edge_type k) read_sequence.

(** [f] is the opened form of the batch [records]. *)
Record holds (f : PropertyDeltaFile) (t : PropertyDeltaTarget) (g : Z)
    (records : list PropertyDeltaRecord) : Prop := {
  holds_lookup : forall k rs, lookup_at f k rs = Some (observe <$> newest_visible k rs records);
  holds_each : forall S (visitor : PropertyDeltaRecord -> S -> bool * S) s,
    ForEachRecord f visitor s = Some (visit_all visitor (canonical records) s);
  holds_target : target (metadata_ f) = t;
  holds_generation : file_generation (metadata_ f) = g;
  holds_count : record_count (metadata_ f) = zlen (canonical records);
  holds_bytes : file_bytes (metadata_ f) = zlen (mapping_ f);
  holds_min : forall r, r ∈ records -> min_commit_sequence (metadata_ f) <= commit_sequence r;
  holds_max : forall r, r ∈ records -> commit_sequence r <= max_commit_sequence (metadata_ f);
}.

(** Every version of the batch survives canonicalisation, so bounds over the
    canonical batch are bounds over the batch. *)
Lemma canonical_version records r :
  r ∈ records -> exists r', r' ∈ canonical records /\ key_of r' = key_of r /\
                            commit_sequence r' = commit_sequence r.
Proof.
  intros Hr. destruct (last_version_is_Some (key_of r) records r Hr eq_refl) as [r' Hr'].
  rewrite <- last_version_stable_sort, <- last_version_deduplicate in Hr'.
  apply last_version_is in Hr' as [[? ?] ?]. by exists r'.
Qed.

Lemma BuildImage_holds t g records i :
  BuildImage t g records = Ok i -> Forall record_ok records -> target_ok t -> fits 64 g ->
  fits 64 (zlen (image_bytes i)) ->
  exists f, ValidateMapping (image_bytes i) = Some (Ok f) /\ mapping_ f = image_bytes i /\
            holds f t g records.
Proof.
  intros Hi Hok Ht Hg Hsz. destruct (BuildImage_built _ _ _ _ Hi Hok) as [l B].
  destruct (built_opens _ _ _ _ _ B Hok Ht Hg Hsz) as [Hval Hrepr].
  eexists. split; [exact Hval|]. split; [done|].
  pose proof (built_bounds _ _ _ _ _ B) as Hb.
  split; simpl; try done.
  - intros k rs. unfold lookup_at.
    rewrite (Lookup_correct _ _ _ Hrepr k rs (canonical_lookup_le records) (built_dirs _ _ _ _ _ B)).
    + unfold canonical. by rewrite newest_visible_canonical.
    + intros r Hr. by apply Hb.
  - intros S visitor s. by eapply ForEachRecord_repr.
  - rewrite kind_of_byte_byte. by destruct t.
  - unfold zlen. by rewrite (Forall2_length _ _ _ (built_laid _ _ _ _ _ B)).
  - intros r Hr. destruct (canonical_version _ _ Hr) as (r' & Hr' & _ & <-). by apply Hb.
  - intros r Hr. destruct (canonical_version _ _ Hr) as (r' & Hr' & _ & <-). by apply Hb.
Qed.

(** ** Creation under faults and crashes *)
Section CreateRuns.
Context (path temporary : bytes) (t : PropertyDeltaTarget) (g : Z)
        (records : list PropertyDeltaRecord) (dur : DeltaDurability).
Context (Hne : path <> temporary).
Implicit Types fs : gmap bytes bytes.

(** What any run, complete or not, may have done to the files. *)
Definition create_frame fs fs' : Prop :=
  (forall p, p <> path -> p <> temporary -> fs' !! p = fs !! p) /\
  (fs' !! path = fs !! path \/
   exists i, BuildImage t g records = Ok i /\ fs' !! path = Some (image_bytes i)).

Lemma frame_refl fs : create_frame fs fs.
Proof. split; [done|by left]. Qed.

Lemma frame_insert fs c : create_frame fs (<[temporary := c]> fs).
Proof.
  split; [intros p ? ?; by rewrite lookup_insert_ne|]. left. by rewrite lookup_insert_ne.
Qed.

Lemma frame_delete fs fs' : create_frame fs fs' -> create_frame fs (delete temporary fs').
Proof.
  intros [H1 H2]. split; [intros p ? ?; rewrite lookup_delete_ne by done; by apply H1|].
  by rewrite lookup_delete_ne.
Qed.

Lemma frame_rename fs i :
  BuildImage t g records = Ok i ->
  create_frame fs (<[path := image_bytes i]> (delete temporary (<[temporary := image_bytes i]> fs))).
Proof.
  intros Hi. split.
  - intros p ? ?. by rewrite lookup_insert_ne, lookup_delete_ne, lookup_insert_ne.
  - right. exists i. by rewrite lookup_insert_eq.
Qed.

Lemma wp_write_image fs (i : bytes * bytes * bytes) (Q : bool -> gmap bytes bytes -> Prop) (C : gmap bytes bytes -> Prop) :
  (forall c b, (b = true -> c = image_bytes i) -> Q b (<[temporary := c]> fs)) ->
  (forall c, C (<[temporary := c]> fs)) ->
  wp (write_image temporary i) Q C (<[temporary := []]> fs).
Proof.
  intros HQ HC. destruct i as [[header rs] values]. unfold write_image.
  wp_step. wp_step; rewrite ?lookup_insert_eq, ?insert_insert_eq; simpl; [|by destruct r; [|wp_step; apply HQ..]|apply HC].
  wp_step. wp_step; rewrite ?lookup_insert_eq, ?insert_insert_eq; simpl; [|by destruct r; [|wp_step; apply HQ..]|apply HC].
  wp_step. wp_step; rewrite ?lookup_insert_eq, ?insert_insert_eq; simpl; [| |apply HC].
  - wp_step. apply HQ. intros _. by rewrite <- app_assoc.
  - wp_step. apply HQ. by destruct r.
Qed.

Lemma wp_Open (p : bytes) fs (c : bytes) (C : gmap bytes bytes -> Prop) :
  fs !! p = Some c -> C fs ->
  wp (PropertyDeltaFile_Open p)
     (fun r fs' => fs' = fs /\ forall f, r = Some (Ok f) -> ValidateMapping c = Some (Ok f)) C fs.
Proof.
  intros Hc HC. unfold PropertyDeltaFile_Open. wp_step. wp_step; [rewrite Hc|by wp_step|done].
  wp_step. wp_step; [cbn [negb]|by wp_step|done].
  case_match; [by wp_step|]. wp_step. wp_step; [cbn [negb]|by wp_step|done].
  wp_step. by split.
Qed.

Lemma wp_if_call (b : bool) fs (Q : bool -> gmap bytes bytes -> Prop) (C : gmap bytes bytes -> Prop) :
  (forall a, Q a fs) -> C fs -> wp (if b then sys_call else io_ret true) Q C fs.
Proof. intros. by destruct b; wp_step. Qed.

Lemma wp_if_sync (b : bool) fs (Q : bool -> gmap bytes bytes -> Prop) (C : gmap bytes bytes -> Prop) :
  (forall a, Q a fs) -> C fs -> wp (if b then SyncParentDirectory else io_ret true) Q C fs.
Proof.
  intros HQ HC. destruct b; [|by wp_step]. unfold SyncParentDirectory.
  wp_step. wp_step; [by wp_step|by wp_step|done].
Qed.

(** The failure tail: unlink the temporary and report. *)
Lemma wp_fail fs fs' (e : DeltaError)
    (Q : option (result DeltaError PropertyDeltaFile) -> gmap bytes bytes -> Prop) :
  create_frame fs fs' -> (forall fs'', create_frame fs fs'' -> Q (Some (Err e)) fs'') ->
  wp (let* _ := sys_unlink temporary in io_ret (Some (Err e))) Q (create_frame fs) fs'.
Proof.
  intros H HQ. wp_step.
  wp_step; [wp_step; by apply HQ, frame_delete|wp_step; by apply HQ|done].
Qed.

Lemma wp_Create fs :
  wp (PropertyDeltaFile_Create path temporary t g records dur)
     (fun r fs' => create_frame fs fs' /\
        forall f, r = Some (Ok f) -> exists i, BuildImage t g records = Ok i /\
          fs' !! path = Some (image_bytes i) /\ ValidateMapping (image_bytes i) = Some (Ok f))
     (create_frame fs) fs.
Proof.
  unfold PropertyDeltaFile_Create.
  destruct (BuildImage t g records) as [i|e] eqn:Hi;
    [|wp_step; split; [apply frame_refl|done]].
  wp_step. wp_step; [cbn [negb]|wp_step; split; [apply frame_refl|done]|apply frame_refl].
  wp_step. apply wp_write_image; [|apply frame_insert]. intros c written Hw.
  wp_step. apply wp_if_call; [intros synced|apply frame_insert].
  wp_step. apply (wp_if_call true); [intros closed|apply frame_insert].
  destruct written; cbn [negb]; [|by apply wp_fail; [apply frame_insert|]].
  destruct synced; cbn [negb]; [|by apply wp_fail; [apply frame_insert|]].
  destruct closed; cbn [negb]; [|by apply wp_fail; [apply frame_insert|]].
  rewrite (Hw eq_refl). wp_step.
  wp_step; [|by apply wp_fail; [apply frame_insert|]|apply frame_insert].
  cbn [negb]. rewrite lookup_insert_eq in *. simplify_eq.
  wp_step. apply wp_if_sync; [intros dir_ok|by apply frame_rename].
  destruct dir_ok; cbn [negb]; [|wp_step; split; [by apply frame_rename|done]].
  eapply wp_mono; [apply (wp_Open path); [apply lookup_insert_eq|by apply frame_rename]| |done].
  simpl. intros r fs' [-> Hr]. split; [by apply frame_rename|].
  intros f Hf. exists i. split_and!; [done|apply lookup_insert_eq|by apply Hr].
Qed.
End CreateRuns.

(** Without faults, creation publishes the image and opens it. *)
Lemma image_bytes_header t g records i :
  BuildImage t g records = Ok i -> sizeof DeltaDiskHeader <= zlen (image_bytes i).
Proof.
  unfold BuildImage. case_bool_decide; [done|]. case_match; [done|].
  destruct (layout_records _ _) as [l|]; [|done]. intros [= <-].
  cbn [image_bytes]. rewrite zlen_app.
  match goal with |- _ <= _ + zlen ?x => pose proof (zlen_nonneg x) end.
  pose proof (zlen_pod_encode (BuildHeader t g l)) as Hz. cbn [pod_encode DeltaDiskHeader_pod] in Hz. lia.
Qed.

Lemma WriteAll_no_faults p data fs :
  WriteAll p data (mkWorld fs []) =
  (Some WAll, mkWorld (<[p := default [] (fs !! p) ++ data]> fs) []).
Proof. unfold WriteAll. cbn [script files]. by rewrite write_loop_nil. Qed.

Lemma write_image_no_faults temporary i fs :
  write_image temporary i (mkWorld (<[temporary := []]> fs) []) =
  (Some true, mkWorld (<[temporary := image_bytes i]> fs) []).
Proof.
  destruct i as [[h r] v]. unfold write_image, io_bind, io_ret.
  do 3 (rewrite WriteAll_no_faults, lookup_insert_eq, insert_insert_eq; simpl).
  by rewrite <- app_assoc.
Qed.

Lemma Open_no_faults p c fs :
  fs !! p = Some c -> sizeof DeltaDiskHeader <= zlen c ->
  PropertyDeltaFile_Open p (mkWorld fs []) = (Some (ValidateMapping c), mkWorld fs []).
Proof.
  intros Hc Hl. unfold PropertyDeltaFile_Open, sys_open_read, io_bind, io_ret, get_files. simpl.
  rewrite Hc. simpl. by rewrite (proj2 (Z.ltb_ge _ _)).
Qed.

Lemma open_excl_no_faults p fs :
  fs !! p = None ->
  sys_open_excl p (mkWorld fs []) = (Some true, mkWorld (<[p := []]> fs) []).
Proof.
  intros H. unfold sys_open_excl, io_bind, sys_call, get_files. cbn [script files andb].
  by rewrite bool_decide_true.
Qed.

Lemma rename_no_faults a b c fs :
  fs !! a = Some c ->
  sys_rename a b (mkWorld fs []) = (Some true, mkWorld (<[b := c]> (delete a fs)) []).
Proof.
  intros H. unfold sys_rename, io_bind, sys_call, get_files. cbn [script files]. by rewrite H.
Qed.

Lemma Create_no_faults path temporary t g records dur i fs :
  path <> temporary -> fs !! temporary = None -> BuildImage t g records = Ok i ->
  PropertyDeltaFile_Create path temporary t g records dur (mkWorld fs []) =
  (Some (ValidateMapping (image_bytes i)), mkWorld (<[path := image_bytes i]> fs) []).
Proof.
  intros Hne Hfresh Hi. unfold PropertyDeltaFile_Create. rewrite Hi.
  unfold io_bind at 1. rewrite open_excl_no_faults by done. cbn [negb].
  unfold io_bind at 1. rewrite write_image_no_faults.
  unfold SyncParentDirectory, sys_call, io_bind, io_ret.
  destruct dur; [rewrite bool_decide_false by done|rewrite bool_decide_true by done];
    cbn [andb negb script files];
    rewrite (rename_no_faults _ _ (image_bytes i)) by apply lookup_insert_eq;
    cbn [andb negb script files];
    rewrite delete_insert_id by done;
    (rewrite (Open_no_faults path (image_bytes i)); [done|apply lookup_insert_eq|by eapply image_bytes_header]).
Qed.

(** ** Detection of corrupted bytes *)
Lemma header_fields_of_fields zs : length zs = 19%nat -> header_fields (header_of_fields zs) = zs.
Proof.
  intros Hl. do 19 (destruct zs as [|? zs]; [done|]). by destruct zs.
Qed.

Lemma with_checksum_fields h sum :
  header_fields (with_checksum h sum) = take 18 (header_fields h) ++ [sum].
Proof. done. Qed.

Lemma header_checksum_bytes bs (h : DeltaDiskHeader) :
  length bs = 120%nat -> h = pod_decode bs ->
  pod_encode (with_checksum h 0) = take 112 bs ++ le 8 0 /\ h_header_checksum h = of_le (drop 112 bs).
Proof.
  intros Hl ->. set (ws := take 18 header_widths).
  assert (sum_list ws = 112%nat) as Hs by done.
  assert (fields_decode header_widths bs =
          fields_decode ws (take 112 bs) ++ [of_le (drop 112 bs)]) as E.
  { change header_widths with (ws ++ [8%nat]). rewrite fields_decode_app by lia. rewrite Hs.
    f_equal. cbn [fields_decode]. do 2 f_equal. apply take_ge. rewrite length_drop. lia. }
  pose proof (fields_decode_length ws (take 112 bs)) as Hn. change (length ws) with 18%nat in Hn.
  assert (header_fields (pod_decode bs) = fields_decode ws (take 112 bs) ++ [of_le (drop 112 bs)]) as F.
  { cbn [pod_decode DeltaDiskHeader_pod]. rewrite E. apply header_fields_of_fields.
    rewrite length_app, Hn. done. }
  split.
  - cbn [pod_encode DeltaDiskHeader_pod]. rewrite with_checksum_fields, F.
    rewrite take_app_length' by done. change header_widths with (ws ++ [8%nat]).
    rewrite fields_encode_app by done.
    rewrite fields_encode_decode by (rewrite length_take; lia). done.
  - assert (header_fields (pod_decode bs) !! 18%nat = Some (of_le (drop 112 bs))) as H18
      by (rewrite F; by rewrite lookup_app_r, Hn by lia).
    by injection H18.
Qed.

Lemma length_slice_header (m : bytes) : 120 <= zlen m -> length (slice 0 120 m) = 120%nat.
Proof. intros H. unfold slice, zlen in *. rewrite length_take, length_drop. lia. Qed.

(** An accepted mapping is at least a header long. *)
Lemma accepted_long m h : accepted m h -> 120 <= zlen m.
Proof.
  intros [_ _ Hc Ev Hb Ee].
  change (sizeof DeltaDiskHeader) with 120 in *. change (sizeof DeltaDiskRecord) with 48 in *. lia.
Qed.

(** The three regions of a file a byte can lie in: the payload, the stored
    header checksum, and the bytes that checksum covers. *)
Lemma payload_byte (p : bytes) b b' q :
  (120 <= length p)%nat ->
  ExtendChecksum kOffset (drop 120 (p ++ b :: q)) = ExtendChecksum kOffset (drop 120 (p ++ b' :: q)) ->
  b = b'.
Proof.
  intros Hp P. rewrite !drop_app_le in P by done.
  by eapply ExtendChecksum_one_byte in P; [|apply kOffset_fits].
Qed.

Lemma take_past (p : bytes) b q n :
  (length p < n)%nat -> take n (p ++ b :: q) = p ++ b :: take (n - 1 - length p) q.
Proof.
  intros. rewrite take_app_ge by lia.
  by replace (n - length p)%nat with (S (n - 1 - length p)) by lia.
Qed.

Lemma stored_byte (p : bytes) b b' q :
  (112 <= length p < 120)%nat ->
  of_le (drop 112 (take 120 (p ++ b :: q))) = of_le (drop 112 (take 120 (p ++ b' :: q))) -> b = b'.
Proof.
  intros Hp E. rewrite !take_past, !drop_app_le in E by lia. apply of_le_inj in E.
  - apply app_inv_head in E. by injection E.
  - by rewrite !length_app.
Qed.

Lemma covered_byte (p : bytes) b b' q :
  (length p < 112)%nat ->
  (ExtendChecksum kOffset (take 112 (p ++ b :: q) ++ le 8 0) = of_le (drop 112 (take 120 (p ++ b :: q)))) ->
  (ExtendChecksum kOffset (take 112 (p ++ b' :: q) ++ le 8 0) = of_le (drop 112 (take 120 (p ++ b' :: q)))) ->
  b = b'.
Proof.
  intros Hp E E'.
  assert (drop 112 (take 120 (p ++ b :: q)) = drop 112 (take 120 (p ++ b' :: q))) as Hsame.
  { rewrite !take_past, !drop_app_ge by lia. by destruct (112 - length p)%nat eqn:Em; [lia|]. }
  rewrite Hsame, <- E', !take_past, <- !app_assoc in E by lia. cbn [app] in E.
  by eapply ExtendChecksum_one_byte in E; [|apply kOffset_fits].
Qed.

Lemma slice_header (m : bytes) : slice 0 (sizeof DeltaDiskHeader) m = take 120 m.
Proof. unfold slice. by rewrite drop_0. Qed.

Lemma HeaderChecksum_bytes h :
  HeaderChecksum h = ExtendChecksum kOffset (pod_encode (with_checksum h 0)).
Proof. unfold HeaderChecksum, Checksum. reflexivity. Qed.

(** The header checksum of an accepted file, on bytes. *)
Lemma accepted_checksum m h :
  accepted m h -> HeaderChecksum h = h_header_checksum h ->
  ExtendChecksum kOffset (take 112 m ++ le 8 0) = of_le (drop 112 (take 120 m)).
Proof.
  intros A S. pose proof (ac_header _ _ A) as E. pose proof (accepted_long _ _ A) as L.
  rewrite slice_header in E.
  destruct (header_checksum_bytes (take 120 m) h) as [B1 B2]; [|done|].
  { unfold zlen in L. rewrite length_take. lia. }
  rewrite take_take, Nat.min_l in B1 by lia. rewrite <- B2, <- S, HeaderChecksum_bytes. 
  f_equal. symmetry. exact B1.
Qed.

(** Two accepted mappings cannot differ in exactly one byte. *)
Lemma accepted_one_byte p b b' q h h' :
  accepted (p ++ b :: q) h -> accepted (p ++ b' :: q) h' ->
  ExtendChecksum kOffset (drop 120 (p ++ b :: q)) = h_payload_checksum h ->
  ExtendChecksum kOffset (drop 120 (p ++ b' :: q)) = h_payload_checksum h' ->
  HeaderChecksum h = h_header_checksum h -> HeaderChecksum h' = h_header_checksum h' -> b = b'.
Proof.
  intros A A' P P' S S'.
  pose proof (accepted_checksum _ _ A S) as C. pose proof (accepted_checksum _ _ A' S') as C'.
  destruct (decide (120 <= length p)%nat) as [Hp|].
  - apply (payload_byte p b b' q Hp). rewrite P, P'. f_equal.
    rewrite (ac_header _ _ A), (ac_header _ _ A'), !slice_header. by rewrite !take_app_le.
  - destruct (decide (112 <= length p)%nat); [|by apply (covered_byte p b b' q); [lia|..]].
    eapply (stored_byte p b b' q); [lia|].
    rewrite <- C, <- C'. by rewrite !take_app_le.
Qed.

(** ** The component's theorems *)

(** A batch used by the witnesses: two versions of one key, one of them written
    twice, and another key. *)
Definition sample_target : PropertyDeltaTarget := mkTarget kEdge 3 7 9 1.
Definition sample_batch : list PropertyDeltaRecord :=
  [mkRecord 5 6 (-1) 20 true 2 (map byte_of [97]); mkRecord 5 6 (-1) 10 true 2 (map byte_of [98; 99]);
   mkRecord 1 2 4 15 false 0 []; mkRecord 5 6 (-1) 20 true 2 (map byte_of [100])].
Definition sample_image : bytes :=
  match BuildImage sample_target 1 sample_batch with Ok i => image_bytes i | Err _ => [] end.

(** C4: creating a delta file from a batch, with no failing call and a fresh
    temporary name, succeeds; afterwards the file at [path] is the written
    image and every lookup in the opened file, for every key and read
    sequence, returns exactly the newest visible write of the batch (value and
    commit sequence), or nothing when the batch has none. *)
Theorem create_then_lookup path temporary t g records dur i fs :
  path <> temporary -> fs !! temporary = None -> BuildImage t g records = Ok i ->
  Forall record_ok records -> target_ok t -> fits 64 g -> fits 64 (zlen (image_bytes i)) ->
  exists f,
    PropertyDeltaFile_Create path temporary t g records dur (mkWorld fs []) =
      (Some (Some (Ok f)), mkWorld (<[path := image_bytes i]> fs) []) /\
    mapping_ f = image_bytes i /\ target (metadata_ f) = t /\
    forall k rs, lookup_at f k rs = Some (observe <$> newest_visible k rs records).
Proof.
  intros Hne Hfr Hi Hok Ht Hg Hsz.
  destruct (BuildImage_holds _ _ _ _ Hi Hok Ht Hg Hsz) as (f & Hval & Hm & H).
  exists f. rewrite (Create_no_faults _ _ _ _ _ _ i) by done. rewrite Hval.
  split_and!; [done|done|apply H|apply H].
Qed.

Lemma create_then_lookup_witness :
  exists i f,
    BuildImage sample_target 1 sample_batch = Ok i /\
    PropertyDeltaFile_Create [Init.Byte.x61] [Init.Byte.x62] sample_target 1 sample_batch kNone
      (mkWorld ∅ []) = (Some (Some (Ok f)), mkWorld (<[[Init.Byte.x61] := image_bytes i]> ∅) []) /\
    lookup_at f (mkKey 5 6 (-1) true 2) 25 = Some (Some (map byte_of [100], 20)).
Proof.
  destruct (BuildImage sample_target 1 sample_batch) as [i|] eqn:E; [|by vm_compute in E].
  destruct (create_then_lookup [Init.Byte.x61] [Init.Byte.x62] sample_target 1 sample_batch kNone i ∅)
    as (f & H1 & _ & _ & H2).
  - done.
  - done.
  - exact E.
  - repeat constructor; by vm_compute.
  - by vm_compute.
  - by vm_compute.
  - injection E as <-. by vm_compute.
  - exists i, f. split_and!; [done|exact H1|]. rewrite H2. by vm_compute.
Defined.

(** C17: whatever the system calls do (errors, interruptions, partial writes, a
    crash at any call), a run of [Create] leaves every other file alone, and
    the target path holds either what it held before or one complete image of
    the batch, never a torn one; and a run that reports success has published
    the image it opened. *)
Theorem create_crash_atomic path temporary t g records dur w :
  path <> temporary ->
  let '(r, w') := PropertyDeltaFile_Create path temporary t g records dur w in
  (forall p, p <> path -> p <> temporary -> files w' !! p = files w !! p) /\
  (files w' !! path = files w !! path \/
   exists i, BuildImage t g records = Ok i /\ files w' !! path = Some (image_bytes i)) /\
  (forall f, r = Some (Some (Ok f)) -> exists i, BuildImage t g records = Ok i /\
     files w' !! path = Some (image_bytes i) /\ ValidateMapping (image_bytes i) = Some (Ok f)).
Proof.
  intros Hne. pose proof (wp_run _ _ _ w (wp_Create path temporary t g records dur Hne (files w))) as H.
  destruct (PropertyDeltaFile_Create _ _ _ _ _ _ w) as [[r|] w'].
  - destruct H as [[H1 H2] H3]. split_and!; [done|done|]. intros f [= ->]. by apply H3.
  - destruct H as [H1 H2]. by split_and!.
Qed.

Lemma create_crash_atomic_witness :
  let w := mkWorld ∅ [Good; Short 7; Eintr; Good; Good; Good; Good; Crash] in
  let '(r, w') := PropertyDeltaFile_Create [Init.Byte.x61] [Init.Byte.x62] sample_target 1
                    sample_batch kNone w in
  r = None /\
  (files w' !! [Init.Byte.x61] = files w !! [Init.Byte.x61] \/
   exists i, BuildImage sample_target 1 sample_batch = Ok i /\
             files w' !! [Init.Byte.x61] = Some (image_bytes i)).
Proof.
  pose proof (create_crash_atomic [Init.Byte.x61] [Init.Byte.x62] sample_target 1 sample_batch kNone
    (mkWorld ∅ [Good; Short 7; Eintr; Good; Good; Good; Good; Crash]) ltac:(done)) as H.
  cbn zeta.
  destruct (PropertyDeltaFile_Create _ _ _ _ _ _ _) as [r w'] eqn:E.
  destruct H as (_ & H & _). split; [|exact H].
  apply (f_equal fst) in E. vm_compute in E. by rewrite <- E.
Defined.

(** C39: opening arbitrary bytes never reads outside the mapping, and neither
    does any lookup or iteration over a file that was accepted, even when the
    bytes were not written by [Create]; both loops of [Lookup] terminate. *)
Theorem open_memory_safe m :
  fits 64 (zlen m) ->
  exists r, ValidateMapping m = Some r /\
    forall f, r = Ok f ->
      (forall k rs, is_Some (lookup_at f k rs)) /\
      (forall (S : Type) (visitor : PropertyDeltaRecord -> S -> bool * S) s,
         is_Some (ForEachRecord f visitor s)).
Proof.
  intros Hm. destruct (ValidateMapping_cases m Hm) as [[e E]|(h & E & A & _ & _ & V)];
    rewrite E; eexists; (split; [done|]); [done|]. intros f [= <-].
  destruct (accepted_repr m h Hm A V) as (ds & rs & H). split.
  - intros k r. by eapply Lookup_safe.
  - intros S visitor s. rewrite (ForEachRecord_repr _ _ _ _ _ H). eauto.
Qed.

Lemma open_memory_safe_witness :
  exists f, ValidateMapping sample_image = Some (Ok f) /\ is_Some (lookup_at f (mkKey 5 6 (-1) true 2) 12).
Proof.
  destruct (open_memory_safe sample_image) as (r & Hr & H); [by vm_compute|].
  destruct r as [f|e].
  - exists f. split; [exact Hr|]. by apply H.
  - apply (f_equal (fun o => match o with Some (Err _) => true | _ => false end)) in Hr.
    by vm_compute in Hr.
Defined.

(** C37: changing any single byte of an accepted file (payload, header or the
    stored checksums) makes it rejected when it is opened. *)
Theorem corruption_detected p b b' q f :
  fits 64 (zlen (p ++ b :: q)) -> ValidateMapping (p ++ b :: q) = Some (Ok f) -> b <> b' ->
  exists e, ValidateMapping (p ++ b' :: q) = Some (Err e).
Proof.
  intros Hm Hv Hb.
  destruct (ValidateMapping_cases _ Hm) as [[e E]|(h & _ & A & P & S & _)]; [congruence|].
  destruct (ValidateMapping_cases (p ++ b' :: q)) as [?|(h' & _ & A' & P' & S' & _)]; [|done|].
  - by rewrite zlen_app, zlen_cons in *.
  - destruct Hb. by eapply accepted_one_byte.
Qed.

Lemma corruption_detected_witness :
  exists e, ValidateMapping (take 200 sample_image ++ Init.Byte.xff :: drop 201 sample_image) = Some (Err e).
Proof.
  destruct (ValidateMapping (take 200 sample_image ++ Init.Byte.x00 :: drop 201 sample_image))
    as [[f|e]|] eqn:E.
  - apply (corruption_detected (take 200 sample_image) Init.Byte.x00 Init.Byte.xff
             (drop 201 sample_image) f). 
    + apply (bool_decide_unpack _). vm_compute. exact I.
    + exact E.
    + discriminate.
  - apply (f_equal (fun o => match o with Some (Err _) => true | _ => false end)) in E.
    by vm_compute in E.
  - apply (f_equal (fun o => match o with None => true | _ => false end)) in E.
    by vm_compute in E.
Defined.

(** iterating over a created file visits each version of each key exactly
    once, in strictly increasing (key, commit) order, with the value of the
    last write of that version in the batch. *)
Theorem create_then_iterate t g records i :
  BuildImage t g records = Ok i -> Forall record_ok records -> target_ok t -> fits 64 g ->
  fits 64 (zlen (image_bytes i)) ->
  exists f visited,
    ValidateMapping (image_bytes i) = Some (Ok f) /\
    ForEachRecord f collect [] = Some (true, visited) /\
    StronglySorted rec_lt visited /\
    (forall k c, last_version k visited c = last_version k records c) /\
    (forall r, r ∈ visited -> r ∈ records).
Proof.
  intros Hi Hok Ht Hg Hsz. destruct (BuildImage_holds _ _ _ _ Hi Hok Ht Hg Hsz) as (f & Hval & _ & H).
  exists f, (canonical records). split_and!; [done| |apply canonical_sorted| |apply canonical_subset].
  { by rewrite (holds_each _ _ _ _ H), visit_all_collect. }
  intros k c. unfold canonical. by rewrite last_version_deduplicate, last_version_stable_sort.
Qed.

Lemma create_then_iterate_witness :
  exists i f visited, BuildImage sample_target 1 sample_batch = Ok i /\
    ValidateMapping (image_bytes i) = Some (Ok f) /\
    ForEachRecord f collect [] = Some (true, visited) /\ StronglySorted rec_lt visited.
Proof.
  destruct (BuildImage sample_target 1 sample_batch) as [i|] eqn:E; [|by vm_compute in E].
  destruct (create_then_iterate sample_target 1 sample_batch i) as (f & v & H1 & H2 & H3 & _).
  - exact E.
  - repeat constructor; by vm_compute.
  - by vm_compute.
  - by vm_compute.
  - injection E as <-. by vm_compute.
  - exists i, f, v. split_and!; [done|exact H1|exact H2|exact H3].
Defined.

(** the error branches of [Create] that precede any system call: an empty
    batch, the reserved file id and a value whose length does not fit 32 bits
    are refused without touching the files. *)
Theorem create_rejects path temporary t g records dur w :
  (records = [] \/ base_file_id t = INVALID_File_ID \/
   exists r, r ∈ records /\ UINT32_MAX < zlen (value r) /\
             forall r', r' ∈ records -> key_of r' = key_of r -> commit_sequence r' = commit_sequence r -> r' = r) ->
  exists e, PropertyDeltaFile_Create path temporary t g records dur w = (Some (Some (Err e)), w).
Proof.
  intros H. unfold PropertyDeltaFile_Create.
  enough (exists e, BuildImage t g records = Err e) as [e ->] by eauto.
  unfold BuildImage. case_bool_decide as He; [eauto|].
  destruct (Z.eqb_spec (base_file_id t) INVALID_File_ID); [eauto|].
  destruct H as [|[|(r & Hr & Hl & Hu)]]; [done|done|].
  destruct (layout_records _ _) as [l|e] eqn:E; [|eauto].
  apply layout_records_laid in E as (ds & more & _ & _ & Hf & _); [|done].
  destruct (canonical_version records r Hr) as (r' & Hr' & Hk & Hc).
  rewrite (Hu r') in Hr' by (done || by apply canonical_subset).
  apply list_elem_of_lookup in Hr' as [j Hj].
  destruct (Forall2_lookup_l _ _ _ _ _ Hf Hj) as (d & _ & L).
  destruct L as (_ & _ & _ & _ & _ & _ & _ & F1 & F2 & Hb & Hs). exfalso.
  unfold fits, UINT32_MAX in *.
  assert (zlen (value r) = d_value_length d) by (rewrite <- Hs; apply zlen_slice; lia). lia.
Qed.

Lemma create_rejects_witness :
  exists e, PropertyDeltaFile_Create [Init.Byte.x61] [Init.Byte.x62]
    (mkTarget kEdge 3 INVALID_File_ID 9 1) 1 sample_batch kNone (mkWorld ∅ []) =
    (Some (Some (Err e)), mkWorld ∅ []).
Proof. apply create_rejects. right. left. reflexivity. Defined.
