(* ===== verification/DeltaManifest.v ===== *)
(** * The delta manifest

    core/property_delta_manifest.h and src/property_delta_manifest.cpp: the
    append-only commit log of published delta files.  A record is a 36-byte
    header and a payload, an add or a remove edit; opening the manifest
    replays the records, stops at a torn tail and cuts it off. *)

From S2P Require Import Prelude.
From S2P Require Import Types.
From S2P Require Import Checksum.
From S2P Require Import Posix.
From S2P Require Import DeltaFile.

Definition kManifestMagic : bytes := map byte_of [82; 71; 77; 65; 78; 73; 70; 51].
Definition kManifestVersion : Z := 3.
Definition kAddRecord : Z := 1.
Definition kRemoveRecord : Z := 2.

Record PropertyDeltaManifestEntry := mkEntry {
  file_name : bytes;
  metadata : PropertyDeltaFileMetadata;
  target_is_persistent : bool;
}.
#[export] Instance PropertyDeltaManifestEntry_eq_dec : EqDecision PropertyDeltaManifestEntry.
Proof. solve_decision. Defined.

(** ** Disk structures *)
Record ManifestDiskHeader := mkManifestHeader {
  mh_magic : Z;
  mh_version : Z;
  mh_type : Z;
  mh_reserved : Z;
  mh_payload_bytes : Z;
  mh_edit_sequence : Z;
  mh_checksum : Z;
}.

Definition manifest_header_widths : list nat := [8; 4; 1; 3; 4; 8; 8]%nat.

Definition manifest_header_fields (h : ManifestDiskHeader) : list Z :=
  [mh_magic h; mh_version h; mh_type h; mh_reserved h; mh_payload_bytes h;
   mh_edit_sequence h; mh_checksum h].

Definition manifest_header_of (zs : list Z) : ManifestDiskHeader :=
  match zs with
  | [a; b; c; d; e; f; g] => mkManifestHeader a b c d e f g
  | _ => mkManifestHeader 0 0 0 0 0 0 0
  end.

#[export] Instance ManifestDiskHeader_pod : Pod ManifestDiskHeader.
Proof.
  refine {|
    pod_size := 36%nat;
    pod_encode h := fields_encode manifest_header_widths (manifest_header_fields h);
    pod_decode bs := manifest_header_of (fields_decode manifest_header_widths bs);
    pod_ok h := fields_ok manifest_header_widths (manifest_header_fields h);
  |}.
  - intros h. by rewrite fields_encode_length.
  - intros h rest Hok. rewrite fields_decode_encode by done. by destruct h.
Defined.

Record ManifestAddPayload := mkAddPayload {
  ap_object_kind : Z;
  ap_target_is_persistent : Z;
  ap_reserved0 : Z;
  ap_shard_id : Z;
  ap_property_id : Z;
  ap_base_file_id : Z;
  ap_base_generation : Z;
  ap_file_generation : Z;
  ap_record_count : Z;
  ap_file_bytes : Z;
  ap_min_commit_sequence : Z;
  ap_max_commit_sequence : Z;
  ap_payload_checksum : Z;
  ap_file_name_bytes : Z;
}.

Definition add_payload_widths : list nat := [1; 1; 2; 4; 4; 4; 8; 8; 8; 8; 8; 8; 8; 4]%nat.

Definition add_payload_fields (p : ManifestAddPayload) : list Z :=
  [ap_object_kind p; ap_target_is_persistent p; ap_reserved0 p; ap_shard_id p;
   ap_property_id p; ap_base_file_id p; ap_base_generation p; ap_file_generation p;
   ap_record_count p; ap_file_bytes p; ap_min_commit_sequence p;
   ap_max_commit_sequence p; ap_payload_checksum p; ap_file_name_bytes p].

Definition add_payload_of (zs : list Z) : ManifestAddPayload :=
  match zs with
  | [a; b; c; d; e; f; g; h; i; j; k; l; m; n] => mkAddPayload a b c d e f g h i j k l m n
  | _ => mkAddPayload 0 0 0 0 0 0 0 0 0 0 0 0 0 0
  end.

#[export] Instance ManifestAddPayload_pod : Pod ManifestAddPayload.
Proof.
  refine {|
    pod_size := 76%nat;
    pod_encode p := fields_encode add_payload_widths (add_payload_fields p);
    pod_decode bs := add_payload_of (fields_decode add_payload_widths bs);
    pod_ok p := fields_ok add_payload_widths (add_payload_fields p);
  |}.
  - intros p. by rewrite fields_encode_length.
  - intros p rest Hok. rewrite fields_decode_encode by done. by destruct p.
Defined.

(** A bare [std::uint32_t] in a payload. *)
#[export] Instance uint32_pod : Pod Z.
Proof.
  refine {|
    pod_size := 4%nat;
    pod_encode z := le 4 z;
    pod_decode bs := of_le (take 4 bs);
    pod_ok z := fits 32 z;
  |}.
  - intros z. apply length_le.
  - intros z rest Hok. rewrite take_app_length' by (symmetry; apply length_le).
    by rewrite of_le_le_fits.
Defined.

(** ** Errors *)
Inductive ManifestError :=
| CreateDirectoryFailed | ManifestOpenFailed | ManifestStatFailed
| InvalidManifestHeader (offset : Z) | ManifestChecksumMismatch (offset : Z)
| SequenceNotIncreasing | InvalidAddPayload | InvalidRemovePayload
| TruncateFailed | SyncRepairedFailed
| PayloadTooLong | ManifestWriteFailed | ManifestSyncFailed
| RequiresBasename | InvalidRemoveName
| RecoveryDiverged.  (** not an error of the code: recovery ran out of fuel *)

(** [header.checksum = 0] in [RecordChecksum]; assignment in [AppendRecord]. *)
Definition with_manifest_checksum (h : ManifestDiskHeader) (sum : Z) : ManifestDiskHeader :=
  mkManifestHeader (mh_magic h) (mh_version h) (mh_type h) (mh_reserved h)
    (mh_payload_bytes h) (mh_edit_sequence h) sum.

Definition RecordChecksum (header : ManifestDiskHeader) (payload : bytes) : Z :=
  let hash := ExtendChecksum kOffset (pod_encode (with_manifest_checksum header 0)) in
  match payload with [] => hash | _ => ExtendChecksum hash payload end.

Definition AppendPod {A} `{Pod A} (payload : bytes) (v : A) : bytes := payload ++ pod_encode v.

(** [None] is [return false]; a hit is the value and the new offset. *)
Definition ConsumePod {A} `{Pod A} (payload : bytes) (offset : Z) : option (A * Z) :=
  if (zlen payload <? offset) || (zlen payload - offset <? sizeof A) then None
  else Some (pod_decode (slice offset (sizeof A) payload), offset + sizeof A).

(** [filename() == path] and not absolute: no directory separator. *)
Definition ValidFileName (name : bytes) : bool :=
  match name with
  | [] => false
  | _ => forallb (fun b => negb (bool_decide (b = byte_of 47))) name
         && negb (bool_decide (name = [byte_of 46]))
         && negb (bool_decide (name = [byte_of 46; byte_of 46]))
  end.

Definition ValidObjectKind (v : Z) : bool := (v =? kind_byte kNode) || (v =? kind_byte kEdge).

(** ** Payloads *)
Definition EncodeAdd (entry : PropertyDeltaManifestEntry) : bytes :=
  let m := metadata entry in
  let fixed :=
    {| ap_object_kind := kind_byte (kind (target m));
       ap_target_is_persistent := if target_is_persistent entry then 1 else 0;
       ap_reserved0 := 0;
       ap_shard_id := shard_id (target m);
       ap_property_id := property_id (target m);
       ap_base_file_id := base_file_id (target m);
       ap_base_generation := base_generation (target m);
       ap_file_generation := file_generation m;
       ap_record_count := record_count m;
       ap_file_bytes := file_bytes m;
       ap_min_commit_sequence := min_commit_sequence m;
       ap_max_commit_sequence := max_commit_sequence m;
       ap_payload_checksum := payload_checksum m;
       ap_file_name_bytes := u32 (zlen (file_name entry)) |} in
  AppendPod [] fixed ++ file_name entry.

Definition DecodeAdd (payload : bytes) : option PropertyDeltaManifestEntry :=
  if zlen payload <? sizeof ManifestAddPayload then None
  else
    let fixed : ManifestAddPayload := pod_decode (slice 0 (sizeof ManifestAddPayload) payload) in
    if negb (ValidObjectKind (ap_object_kind fixed))
       || (1 <? ap_target_is_persistent fixed)
       || negb (ap_file_name_bytes fixed =? zlen payload - sizeof ManifestAddPayload)
    then None
    else
      let name := slice (sizeof ManifestAddPayload) (ap_file_name_bytes fixed) payload in
      if negb (ValidFileName name) then None
      else
        Some {| file_name := name;
                metadata :=
                  {| target := {| kind := kind_of_byte (ap_object_kind fixed);
                                  shard_id := ap_shard_id fixed;
                                  base_file_id := ap_base_file_id fixed;
                                  base_generation := ap_base_generation fixed;
                                  property_id := ap_property_id fixed |};
                     file_generation := ap_file_generation fixed;
                     record_count := ap_record_count fixed;
                     file_bytes := ap_file_bytes fixed;
                     min_commit_sequence := ap_min_commit_sequence fixed;
                     max_commit_sequence := ap_max_commit_sequence fixed;
                     payload_checksum := ap_payload_checksum fixed |};
                target_is_persistent := negb (ap_target_is_persistent fixed =? 0) |}.

Definition EncodeRemove (file_names : list bytes) : bytes :=
  foldl (fun payload name => AppendPod payload (u32 (zlen name)) ++ name)
    (AppendPod [] (u32 (zlen file_names))) file_names.

(** The loop over the names: [i] counts down from [count]. *)
Fixpoint decode_names (i : nat) (payload : bytes) (offset : Z) (file_names : list bytes)
  : option (list bytes) :=
  match i with
  | O => if offset =? zlen payload then Some file_names else None
  | S i =>
      '(length, offset) ← ConsumePod payload offset;
      if (zlen payload <? offset) || (zlen payload - offset <? length) then None
      else
        let name := slice offset length payload in
        let offset := offset + length in
        if negb (ValidFileName name) then None
        else decode_names i payload offset (file_names ++ [name])
  end.

Definition DecodeRemove (payload : bytes) : option (list bytes) :=
  '(count, offset) ← ConsumePod payload 0;
  decode_names (Z.to_nat count) payload offset [].

(** ** The in-memory entries *)
Fixpoint ApplyAdd (active : list PropertyDeltaManifestEntry) (entry : PropertyDeltaManifestEntry)
  : list PropertyDeltaManifestEntry :=
  match active with
  | [] => [entry]
  | item :: rest =>
      if bool_decide (file_name item = file_name entry) then entry :: rest
      else item :: ApplyAdd rest entry
  end.

Definition ApplyRemove (active : list PropertyDeltaManifestEntry) (file_names : list bytes)
  : list PropertyDeltaManifestEntry :=
  filter (fun entry => file_name entry ∉ file_names) active.

(** ** The manifest object

    [m_path] is [path_], which also identifies the open descriptor. *)
Record PropertyDeltaManifest := mkManifest {
  m_path : bytes;
  durability_ : DeltaDurability;
  next_edit_sequence_ : Z;
  active_entries_ : list PropertyDeltaManifestEntry;
}.

(** ** Recovery *)

(** The effect of a checked record on the active entries. *)
Definition apply_record (type : Z) (payload : bytes) (active : list PropertyDeltaManifestEntry)
  : result ManifestError (list PropertyDeltaManifestEntry) :=
  if type =? kAddRecord then
    match DecodeAdd payload with
    | Some entry => Ok (ApplyAdd active entry)
    | None => Err InvalidAddPayload
    end
  else
    match DecodeRemove payload with
    | Some names => Ok (ApplyRemove active names)
    | None => Err InvalidRemovePayload
    end.

Record RecoveryState := mkRecovery {
  rc_offset : Z;    (** [offset], equal to [valid_end] at the loop head *)
  rc_last : Z;      (** [last_sequence] *)
  rc_active : list PropertyDeltaManifestEntry;
}.

(** The [while (offset < file_size)] loop.  Every iteration that continues
    consumes a header, so [file_size] iterations are enough. *)
Fixpoint recover_loop (fuel : nat) (path : bytes) (file_size : Z) (st : RecoveryState)
  : IO (result ManifestError RecoveryState) :=
  let offset := rc_offset st in
  if negb (offset <? file_size) then io_ret (Ok st)
  else if file_size - offset <? sizeof ManifestDiskHeader then io_ret (Ok st)
  else
    match fuel with
    | O => io_ret (Err RecoveryDiverged)
    | S fuel =>
        let* raw := ReadAllAt path (sizeof ManifestDiskHeader) offset in
        match raw with
        | None => io_ret (Ok st)
        | Some raw =>
            let header : ManifestDiskHeader := pod_decode raw in
            if negb (bool_decide (le 8 (mh_magic header) = kManifestMagic))
               || negb (mh_version header =? kManifestVersion)
               || (negb (mh_type header =? kAddRecord) && negb (mh_type header =? kRemoveRecord))
               || (Z.shiftl 1 30 <? mh_payload_bytes header)
            then io_ret (Err (InvalidManifestHeader offset))
            else
              let record_size := sizeof ManifestDiskHeader + mh_payload_bytes header in
              if file_size - offset <? record_size then io_ret (Ok st)
              else
                let* payload :=
                  (if mh_payload_bytes header =? 0 then io_ret (Some [])
                   else ReadAllAt path (mh_payload_bytes header)
                          (offset + sizeof ManifestDiskHeader)) in
                match payload with
                | None => io_ret (Ok st)
                | Some payload =>
                    if negb (RecordChecksum header payload =? mh_checksum header) then
                      (if offset + record_size =? file_size then io_ret (Ok st)
                       else io_ret (Err (ManifestChecksumMismatch offset)))
                    else if mh_edit_sequence header <=? rc_last st
                    then io_ret (Err SequenceNotIncreasing)
                    else
                      match apply_record (mh_type header) payload (rc_active st) with
                      | Err e => io_ret (Err e)
                      | Ok active =>
                          recover_loop fuel path file_size
                            (mkRecovery (offset + record_size) (mh_edit_sequence header) active)
                      end
                end
        end
    end.

(** [OpenAndRecover] once the descriptor is open: replay, then cut a torn tail. *)
Definition replay_and_cut (path : bytes) (durability : DeltaDurability) (file_size : Z)
  : IO (result ManifestError PropertyDeltaManifest) :=
  let* recovered := recover_loop (Z.to_nat file_size) path file_size (mkRecovery 0 0 []) in
  match recovered with
  | Err e => io_ret (Err e)
  | Ok st =>
      let manifest :=
        {| m_path := path; durability_ := durability;
           next_edit_sequence_ := u64 (rc_last st + 1); active_entries_ := rc_active st |} in
      if rc_offset st =? file_size then io_ret (Ok manifest)
      else
        let* cut := sys_truncate path (rc_offset st) in
        if negb cut then io_ret (Err TruncateFailed)
        else
          let* synced := (if bool_decide (durability = kProcessCrashSafe)
                          then sys_call else io_ret true) in
          if negb synced then io_ret (Err SyncRepairedFailed) else io_ret (Ok manifest)
  end.

(** [OpenAndRecover], from the creation of the directory on. *)
Definition Manifest_Open (path : bytes) (durability : DeltaDurability)
  : IO (result ManifestError PropertyDeltaManifest) :=
  let* made := sys_call in
  if negb made then io_ret (Err CreateDirectoryFailed)
  else
    let* opened := sys_open_append path in
    if negb opened then io_ret (Err ManifestOpenFailed)
    else
      let* stat_ok := sys_call in
      if negb stat_ok then io_ret (Err ManifestStatFailed)
      else
        let* fs := get_files in
        replay_and_cut path durability (zlen (default [] (fs !! path))).

(** ** Appending *)

(** The bytes [AppendRecord] writes. *)
Definition encode_record (edit_sequence type : Z) (payload : bytes) : bytes :=
  let header := mkManifestHeader (of_le kManifestMagic) kManifestVersion type 0
                  (u32 (zlen payload)) edit_sequence 0 in
  AppendPod [] (with_manifest_checksum header (RecordChecksum header payload)) ++ payload.

Definition AppendRecord (m : PropertyDeltaManifest) (type : Z) (payload : bytes)
  : IO (result ManifestError PropertyDeltaManifest) :=
  if UINT32_MAX <? zlen payload then io_ret (Err PayloadTooLong)
  else
    let* written := WriteAll (m_path m) (encode_record (next_edit_sequence_ m) type payload) in
    match written with
    | WAll =>
        let* synced := (if bool_decide (durability_ m = kProcessCrashSafe)
                        then sys_call else io_ret true) in
        if negb synced then io_ret (Err ManifestSyncFailed)
        else io_ret (Ok {| m_path := m_path m; durability_ := durability_ m;
                           next_edit_sequence_ := u64 (next_edit_sequence_ m + 1);
                           active_entries_ := active_entries_ m |})
    | _ => io_ret (Err ManifestWriteFailed)
    end.

Definition set_active (m : PropertyDeltaManifest) (active : list PropertyDeltaManifestEntry)
  : PropertyDeltaManifest :=
  {| m_path := m_path m; durability_ := durability_ m;
     next_edit_sequence_ := next_edit_sequence_ m; active_entries_ := active |}.

(** On an error the object is unchanged, so only [Ok] carries a new one. *)
Definition AppendAdd (m : PropertyDeltaManifest) (entry : PropertyDeltaManifestEntry)
  : IO (result ManifestError PropertyDeltaManifest) :=
  if negb (ValidFileName (file_name entry)) then io_ret (Err RequiresBasename)
  else
    let* r := AppendRecord m kAddRecord (EncodeAdd entry) in
    match r with
    | Err e => io_ret (Err e)
    | Ok m' => io_ret (Ok (set_active m' (ApplyAdd (active_entries_ m') entry)))
    end.

Definition AppendRemove (m : PropertyDeltaManifest) (file_names : list bytes)
  : IO (result ManifestError PropertyDeltaManifest) :=
  match file_names with
  | [] => io_ret (Ok m)
  | _ =>
      if (UINT32_MAX <? zlen file_names)
         || existsb (fun name => negb (ValidFileName name) || (UINT32_MAX <? zlen name)) file_names
      then io_ret (Err InvalidRemoveName)
      else
        let* r := AppendRecord m kRemoveRecord (EncodeRemove file_names) in
        match r with
        | Err e => io_ret (Err e)
        | Ok m' => io_ret (Ok (set_active m' (ApplyRemove (active_entries_ m') file_names)))
        end
  end.

Definition ActiveEntries (m : PropertyDeltaManifest) : list PropertyDeltaManifestEntry :=
  active_entries_ m.
