(* ===== verification/DeltaManifestFacts.v ===== *)
(** * Theorems about the delta manifest

    Payload round trips, replay of a log, torn-tail repair, and crash
    consistency: whatever happens during an append, reopening the manifest
    yields the edits before it or the edits including it. *)

From S2P Require Import Prelude.
From S2P Require Import Types.
From S2P Require Import Checksum.
From S2P Require Import Posix.
From S2P Require Import DeltaFile.
From S2P Require Import DeltaSpec.
From S2P Require Import DeltaFileFacts.
From S2P Require Import DeltaFileCreate.
From S2P Require Import DeltaManifest.

(** ** Edits: the abstract contents of a manifest *)
Inductive edit :=
| Add (entry : PropertyDeltaManifestEntry)
| Remove (file_names : list bytes).

Definition edit_type (ed : edit) : Z :=
  match ed with Add _ => kAddRecord | Remove _ => kRemoveRecord end.

Definition edit_payload (ed : edit) : bytes :=
  match ed with Add e => EncodeAdd e | Remove ns => EncodeRemove ns end.

Definition apply_edit (active : list PropertyDeltaManifestEntry) (ed : edit)
  : list PropertyDeltaManifestEntry :=
  match ed with Add e => ApplyAdd active e | Remove ns => ApplyRemove active ns end.

Definition name_ok (n : bytes) : Prop := ValidFileName n = true /\ fits 32 (zlen n).
#[export] Instance name_ok_dec n : Decision (name_ok n).
Proof. unfold name_ok. apply _. Defined.

Definition entry_ok (e : PropertyDeltaManifestEntry) : Prop :=
  name_ok (file_name e) /\ metadata_ok (metadata e).
#[export] Instance entry_ok_dec e : Decision (entry_ok e).
Proof. unfold entry_ok. apply _. Defined.

Definition edit_ok (ed : edit) : Prop :=
  match ed with
  | Add e => entry_ok e
  | Remove ns => Forall name_ok ns /\ fits 32 (zlen ns)
  end /\ zlen (edit_payload ed) <= 2 ^ 30.
#[export] Instance edit_ok_dec ed : Decision (edit_ok ed).
Proof. unfold edit_ok. destruct ed; apply _. Defined.

(** ** Payload round trips *)
Lemma slice_0_app {A} (p q : list A) : slice 0 (zlen p) (p ++ q) = p.
Proof. pose proof (slice_app_mid [] p q) as H. exact H. Qed.

Lemma slice_tail_all {A} (p q : list A) : slice (zlen p) (zlen q) (p ++ q) = q.
Proof. rewrite <- (app_nil_r q) at 2. apply slice_app_mid. Qed.

Lemma DecodeAdd_EncodeAdd e : entry_ok e -> DecodeAdd (EncodeAdd e) = Some e.
Proof.
  intros [[Hn Hl] (Ht & M1 & M2 & M3 & M4 & M5 & M6)]. destruct Ht as (T1 & T2 & T3 & T4).
  unfold EncodeAdd, AppendPod. rewrite app_nil_l.
  match goal with |- context [pod_encode ?p ++ _] => set (fixed := p) end.
  assert (u32 (zlen (file_name e)) = zlen (file_name e)) as Hw by by apply wrap_small.
  assert (pod_ok fixed) as Hok.
  { cbn [pod_ok ManifestAddPayload_pod]. unfold add_payload_fields, add_payload_widths, fixed.
    cbn [ap_object_kind ap_target_is_persistent ap_reserved0 ap_shard_id ap_property_id
         ap_base_file_id ap_base_generation ap_file_generation ap_record_count ap_file_bytes
         ap_min_commit_sequence ap_max_commit_sequence ap_payload_checksum ap_file_name_bytes].
    rewrite Hw. fields_solver; [by destruct (kind _)|by destruct (target_is_persistent e)]. }
  unfold DecodeAdd. cbv zeta. pose proof (zlen_pod_encode fixed) as Hz. pose proof (zlen_nonneg (file_name e)).
  rewrite zlen_app, Hz, (proj2 (Z.ltb_ge _ _)) by lia.
  assert (slice 0 (sizeof ManifestAddPayload) (pod_encode fixed ++ file_name e) = pod_encode fixed)
    as -> by (rewrite <- Hz; apply slice_0_app).
  assert (slice (sizeof ManifestAddPayload) (zlen (file_name e)) (pod_encode fixed ++ file_name e) =
          file_name e) as Hs by (rewrite <- Hz; apply slice_tail_all).
  rewrite pod_decode_encode by done. revert Hs. clear Hok Hz.
  generalize (pod_encode fixed). intros enc Hs.
  unfold ValidObjectKind. subst fixed. cbn [ap_object_kind ap_target_is_persistent ap_file_name_bytes].
  rewrite Hw. replace (sizeof ManifestAddPayload + zlen (file_name e) - sizeof ManifestAddPayload)
    with (zlen (file_name e)) by lia.
  rewrite Z.eqb_refl, Hs, Hn.
  destruct e as [name [[k s f g p] ? ? ? ? ? ?] per]. simpl in *. by destruct k, per.
Qed.

Definition name_bytes (n : bytes) : bytes := le 4 (u32 (zlen n)) ++ n.

Lemma EncodeRemove_concat ns :
  EncodeRemove ns = le 4 (u32 (zlen ns)) ++ concat (map name_bytes ns).
Proof.
  unfold EncodeRemove, AppendPod. rewrite app_nil_l. cbn [pod_encode uint32_pod].
  generalize (le 4 (u32 (zlen ns))) as acc.
  induction ns as [|n ns IH]; intros acc; simpl; [by rewrite app_nil_r|].
  rewrite IH. unfold name_bytes. by rewrite <- !app_assoc.
Qed.

Lemma ConsumePod_app {A} `{Pod A} pre (a : A) rest :
  pod_ok a -> ConsumePod (pre ++ pod_encode a ++ rest) (zlen pre) = Some (a, zlen pre + sizeof A).
Proof.
  intros Ha. unfold ConsumePod. pose proof (zlen_pod_encode a) as Hz.
  pose proof (zlen_nonneg rest). pose proof (zlen_nonneg (pod_encode a)).
  rewrite !zlen_app, !(proj2 (Z.ltb_ge _ _)) by lia. cbn [orb]. do 2 f_equal.
  rewrite <- Hz, slice_app_mid. by apply pod_decode_encode.
Qed.

Lemma decode_names_concat ns pre acc :
  Forall name_ok ns ->
  decode_names (length ns) (pre ++ concat (map name_bytes ns)) (zlen pre) acc = Some (acc ++ ns).
Proof.
  intros Hns. revert pre acc. induction Hns as [|n ns [Hv Hl] _ IH]; intros pre acc;
    cbn [length map concat decode_names].
  - rewrite app_nil_r. by rewrite Z.eqb_refl, app_nil_r.
  - assert (name_bytes n = le 4 (zlen n) ++ n) as -> by (unfold name_bytes, u32; by rewrite wrap_small).
    assert (fits 32 (zlen n)) as Hok by done. pose proof (zlen_nonneg n).
    rewrite <- !app_assoc.
    pose proof (ConsumePod_app (A := Z) pre (zlen n) (n ++ concat (map name_bytes ns)) Hok) as Hc.
    cbn [pod_encode uint32_pod] in Hc. rewrite Hc. simpl_bind.
    change (sizeof Z) with 4. pose proof (zlen_nonneg (concat (map name_bytes ns))).
    assert (zlen (le 4 (zlen n)) = 4) as Hle by (unfold zlen at 1; by rewrite length_le).
    rewrite !zlen_app, Hle. rewrite !(proj2 (Z.ltb_ge _ _)) by lia. cbn [orb].
    assert (slice (zlen pre + 4) (zlen n)
              (pre ++ le 4 (zlen n) ++ n ++ concat (map name_bytes ns)) = n) as ->.
    { rewrite app_assoc. replace (zlen pre + 4) with (zlen (pre ++ le 4 (zlen n))).
      - apply slice_app_mid.
      - rewrite zlen_app. lia. }
    rewrite Hv. cbn [negb].
    specialize (IH (pre ++ le 4 (zlen n) ++ n) (acc ++ [n])).
    rewrite !zlen_app, Hle, <- !app_assoc in IH. cbn [app] in IH.
    by replace (zlen pre + 4 + zlen n) with (zlen pre + (4 + zlen n)) by lia.
Qed.

Lemma DecodeRemove_EncodeRemove ns :
  Forall name_ok ns -> fits 32 (zlen ns) -> DecodeRemove (EncodeRemove ns) = Some ns.
Proof.
  intros Hns Hl. rewrite EncodeRemove_concat. unfold DecodeRemove, u32. rewrite wrap_small by done.
  pose proof (ConsumePod_app (A := Z) [] (zlen ns) (concat (map name_bytes ns)) Hl) as Hc.
  cbn [app pod_encode uint32_pod] in Hc. change (zlen []) with 0 in Hc. rewrite Hc.
  simpl_bind. replace (Z.to_nat (zlen ns)) with (length ns) by (unfold zlen; lia).
  replace (0 + sizeof Z) with (zlen (le 4 (zlen ns))) by (unfold zlen at 1; by rewrite length_le).
  by rewrite decode_names_concat.
Qed.

Lemma apply_record_edit ed active :
  edit_ok ed -> apply_record (edit_type ed) (edit_payload ed) active = Ok (apply_edit active ed).
Proof.
  intros [H _]. unfold apply_record. destruct ed as [e|ns]; cbn [edit_type edit_payload apply_edit].
  - rewrite Z.eqb_refl, DecodeAdd_EncodeAdd by exact H. reflexivity.
  - destruct H. change (kRemoveRecord =? kAddRecord) with false.
    rewrite DecodeRemove_EncodeRemove by assumption. reflexivity.
Qed.

(** ** Records of the log *)
Definition edit_bytes (r : Z * edit) : bytes :=
  encode_record r.1 (edit_type r.2) (edit_payload r.2).

Definition record_header (seq type : Z) (payload : bytes) : ManifestDiskHeader :=
  let h := mkManifestHeader (of_le kManifestMagic) kManifestVersion type 0
             (zlen payload) seq 0 in
  with_manifest_checksum h (RecordChecksum h payload).

Lemma RecordChecksum_fits h p : fits 64 (RecordChecksum h p).
Proof.
  unfold RecordChecksum. destruct p; apply ExtendChecksum_fits; [apply kOffset_fits|].
  apply ExtendChecksum_fits, kOffset_fits.
Qed.

Lemma RecordChecksum_with h s p : RecordChecksum (with_manifest_checksum h s) p = RecordChecksum h p.
Proof. unfold RecordChecksum. reflexivity. Qed.

Lemma edit_type_cases ed : edit_type ed = 1 \/ edit_type ed = 2.
Proof. destruct ed; auto. Qed.

Lemma record_header_ok seq ed :
  fits 64 seq -> edit_ok ed -> pod_ok (record_header seq (edit_type ed) (edit_payload ed)).
Proof.
  intros Hs [_ Hl]. cbn [pod_ok ManifestDiskHeader_pod].
  unfold manifest_header_fields, manifest_header_widths, record_header, with_manifest_checksum.
  cbn [mh_magic mh_version mh_type mh_reserved mh_payload_bytes mh_edit_sequence mh_checksum].
  pose proof (zlen_nonneg (edit_payload ed)).
  fields_solver.
  - by vm_compute.
  - by vm_compute.
  - destruct (edit_type_cases ed) as [-> | ->]; by vm_compute.
  - apply RecordChecksum_fits.
Qed.

Lemma edit_bytes_eq seq ed :
  edit_ok ed ->
  edit_bytes (seq, ed) = pod_encode (record_header seq (edit_type ed) (edit_payload ed)) ++ edit_payload ed.
Proof.
  intros [_ Hl]. unfold edit_bytes, encode_record, AppendPod, record_header. cbn [fst snd].
  rewrite app_nil_l. unfold u32. rewrite wrap_small; [done|].
  pose proof (zlen_nonneg (edit_payload ed)). unfold fits. lia.
Qed.

Lemma zlen_edit_bytes seq ed : edit_ok ed -> zlen (edit_bytes (seq, ed)) = 36 + zlen (edit_payload ed).
Proof. intros H. rewrite edit_bytes_eq by done. by rewrite zlen_app, zlen_pod_encode. Qed.

(** A read that stays inside the file, without faults. *)
Lemma ReadAllAt_no_faults p size off fs c :
  fs !! p = Some c -> 0 <= off -> 0 <= size -> off + size <= zlen c ->
  ReadAllAt p size off (mkWorld fs []) = (Some (Some (slice off size c)), mkWorld fs []).
Proof.
  intros Hc Ho Hs Hb. unfold ReadAllAt. cbn [files script]. rewrite Hc. cbn [default id from_option].
  rewrite read_loop_nil; [done|]. rewrite length_drop. unfold zlen in *. lia.
Qed.

(** The header test of the loop passes on a header [AppendRecord] wrote. *)
Lemma record_header_valid seq ed :
  edit_ok ed ->
  let h := record_header seq (edit_type ed) (edit_payload ed) in
  negb (bool_decide (le 8 (mh_magic h) = kManifestMagic))
    || negb (mh_version h =? kManifestVersion)
    || (negb (mh_type h =? kAddRecord) && negb (mh_type h =? kRemoveRecord))
    || (Z.shiftl 1 30 <? mh_payload_bytes h) = false.
Proof.
  intros [_ Hl] h. subst h. unfold record_header, with_manifest_checksum.
  cbn [mh_magic mh_version mh_type mh_payload_bytes].
  rewrite bool_decide_true by (by vm_compute). change (Z.shiftl 1 30) with (2 ^ 30).
  rewrite (proj2 (Z.ltb_ge _ _)) by lia.
  destruct (edit_type_cases ed) as [-> | ->]; reflexivity.
Qed.

(** The sequence of the last record of a log. *)
Definition last_sequence (start : Z) (log : list (Z * edit)) : Z :=
  foldl (fun _ r => r.1) start log.

Section Loop.
Context (path : bytes) (fs : gmap bytes bytes) (c : bytes).
Context (Hc : fs !! path = Some c).
#[local] Abbreviation w := (mkWorld fs []).

Lemma loop_step pre seq ed rest fuel last active :
  c = pre ++ edit_bytes (seq, ed) ++ rest -> edit_ok ed -> fits 64 seq -> last < seq ->
  recover_loop (S fuel) path (zlen c) (mkRecovery (zlen pre) last active) w =
  recover_loop fuel path (zlen c)
    (mkRecovery (zlen pre + zlen (edit_bytes (seq, ed))) seq (apply_edit active ed)) w.
Proof.
  intros Ec Hed Hseq Hlast. pose proof (zlen_edit_bytes seq ed Hed) as Hz.
  pose proof (edit_bytes_eq seq ed Hed) as Eb.
  set (h := record_header seq (edit_type ed) (edit_payload ed)) in *.
  pose proof (zlen_nonneg (edit_payload ed)) as Hp. pose proof (zlen_nonneg rest) as Hr.
  pose proof (zlen_nonneg pre) as Hpre.
  assert (zlen c = zlen pre + (36 + zlen (edit_payload ed)) + zlen rest) as Hlen
    by (rewrite Ec, !zlen_app, Hz; lia).
  assert (sizeof ManifestDiskHeader = 36) as Sh by done.
  assert (zlen (pod_encode h) = 36) as Hh by (rewrite zlen_pod_encode; exact Sh).
  pose proof (record_header_ok seq ed Hseq Hed : pod_ok h) as Hok.
  pose proof (record_header_valid seq ed Hed) as Hvalid. cbv zeta in Hvalid. fold h in Hvalid.
  assert (mh_payload_bytes h = zlen (edit_payload ed)) as Hpl by done.
  assert (mh_edit_sequence h = seq) as Hsq by done.
  assert (mh_type h = edit_type ed) as Hty by done.
  assert (RecordChecksum h (edit_payload ed) = mh_checksum h) as Hsum by apply RecordChecksum_with.
  clearbody h.
  cbn [recover_loop rc_offset]. rewrite Sh.
  rewrite (proj2 (Z.ltb_lt _ _)), (proj2 (Z.ltb_ge _ _)) by lia. cbn [negb].
  unfold io_bind at 1. rewrite (ReadAllAt_no_faults _ _ _ _ c) by (done || lia).
  assert (slice (zlen pre) 36 c = pod_encode h) as ->.
  { rewrite Ec, Eb, <- app_assoc, <- Hh. apply slice_app_mid. }
  rewrite (pod_decode_encode h) by done.
  cbv zeta. rewrite Hvalid, Hpl.
  rewrite (proj2 (Z.ltb_ge _ _)) by lia.
  assert ((if zlen (edit_payload ed) =? 0 then io_ret (Some [])
           else ReadAllAt path (zlen (edit_payload ed)) (zlen pre + 36)) w =
          (Some (Some (edit_payload ed)), w)) as Hread.
  { destruct (Z.eqb_spec (zlen (edit_payload ed)) 0) as [E0|].
    - destruct (edit_payload ed) eqn:Ep; [done|].
      rewrite zlen_cons in E0. pose proof (zlen_nonneg l). lia.
    - rewrite (ReadAllAt_no_faults _ _ _ _ c) by (done || lia). do 3 f_equal.
      rewrite Ec, Eb, <- app_assoc, app_assoc.
      replace (zlen pre + 36) with (zlen (pre ++ pod_encode h)) by (rewrite zlen_app, Hh; done).
      apply slice_app_mid. }
  unfold io_bind at 1. rewrite Hread, Hsum, Z.eqb_refl, Hsq. cbn [negb rc_last rc_active].
  rewrite (proj2 (Z.leb_gt _ _)) by lia. rewrite Hty, apply_record_edit by done.
  by rewrite Hz, Z.add_assoc.
Qed.

(** The replay of a log of records with increasing sequences. *)
Lemma loop_log log pre rest fuel last active :
  c = pre ++ concat (map edit_bytes log) ++ rest ->
  Forall (fun r => edit_ok r.2 /\ fits 64 r.1) log ->
  StronglySorted Z.lt (last :: map fst log) ->
  recover_loop (length log + fuel) path (zlen c) (mkRecovery (zlen pre) last active) w =
  recover_loop fuel path (zlen c)
    (mkRecovery (zlen pre + zlen (concat (map edit_bytes log))) (last_sequence last log)
       (foldl apply_edit active (map snd log))) w.
Proof.
  revert pre last active. induction log as [|[seq ed] log IH]; intros pre last active Ec Hok Hs.
  - simpl. by rewrite Z.add_0_r.
  - apply Forall_cons in Hok as [[Hed Hseq] Hok]. simpl in Hed, Hseq.
    apply StronglySorted_inv in Hs as [Hs Hlast]. apply Forall_cons in Hlast as [Hlt _].
    cbn [map concat] in Ec |- *. rewrite <- app_assoc in Ec.
    cbn [length Nat.add]. rewrite (loop_step pre seq ed (concat (map edit_bytes log) ++ rest)) by done.
    specialize (IH (pre ++ edit_bytes (seq, ed)) seq (apply_edit active ed)).
    rewrite zlen_app, <- app_assoc in IH. rewrite IH by done.
    by rewrite zlen_app, Z.add_assoc.
Qed.

(** A strict prefix of a record at the end of the file is left alone. *)
Lemma loop_torn pre torn seq ed fuel last active :
  c = pre ++ torn -> edit_ok ed -> fits 64 seq ->
  torn `prefix_of` edit_bytes (seq, ed) -> zlen torn < zlen (edit_bytes (seq, ed)) ->
  zlen torn <= Z.of_nat fuel ->
  recover_loop fuel path (zlen c) (mkRecovery (zlen pre) last active) w =
  (Some (Ok (mkRecovery (zlen pre) last active)), w).
Proof.
  intros Ec Hed Hseq [k Hk] Hlt Hf. pose proof (zlen_edit_bytes seq ed Hed) as Hz.
  pose proof (edit_bytes_eq seq ed Hed) as Eb. pose proof (zlen_nonneg torn) as Ht.
  pose proof (zlen_nonneg pre) as Hpre.
  assert (zlen c = zlen pre + zlen torn) as Hlen by (by rewrite Ec, zlen_app).
  assert (sizeof ManifestDiskHeader = 36) as Sh by done.
  destruct (Z.lt_ge_cases (zlen torn) 36) as [Hsmall|Hbig].
  { destruct fuel as [|fuel]; cbn [recover_loop rc_offset]; rewrite Sh;
      (destruct (Z.ltb_spec (zlen pre) (zlen c)); cbn [negb]; [|done]);
      (destruct (Z.ltb_spec (zlen c - zlen pre) 36); [done|lia]). }
  destruct fuel as [|fuel]; [lia|].
  set (h := record_header seq (edit_type ed) (edit_payload ed)) in *.
  assert (zlen (pod_encode h) = 36) as Hh by (rewrite zlen_pod_encode; exact Sh).
  pose proof (record_header_ok seq ed Hseq Hed : pod_ok h) as Hok.
  pose proof (record_header_valid seq ed Hed) as Hvalid. cbv zeta in Hvalid. fold h in Hvalid.
  assert (mh_payload_bytes h = zlen (edit_payload ed)) as Hpl by done.
  clearbody h. rewrite Eb in Hk.
  cbn [recover_loop rc_offset]. rewrite Sh.
  rewrite (proj2 (Z.ltb_lt _ _)), (proj2 (Z.ltb_ge _ _)) by lia. cbn [negb].
  unfold io_bind at 1. rewrite (ReadAllAt_no_faults _ _ _ _ c) by (done || lia).
  assert (slice (zlen pre) 36 c = pod_encode h) as ->.
  { rewrite Ec, <- (Z.add_0_r (zlen pre)), slice_app_tail by lia.
    rewrite <- (slice_app_head torn k) by lia. rewrite <- Hk, <- Hh. apply slice_0_app. }
  rewrite (pod_decode_encode h) by done. cbv zeta. rewrite Hvalid, Hpl.
  rewrite (proj2 (Z.ltb_lt _ _)) by lia. done.
Qed.
End Loop.

(** ** Opening a manifest *)
Definition log_bytes (log : list (Z * edit)) : bytes := concat (map edit_bytes log).

Definition valid_log (log : list (Z * edit)) : Prop :=
  Forall (fun r => edit_ok r.2 /\ fits 64 r.1) log /\ StronglySorted Z.lt (0 :: map fst log).

Definition active_of (log : list (Z * edit)) : list PropertyDeltaManifestEntry :=
  foldl apply_edit [] (map snd log).

(** The manifest object that corresponds to a log. *)
Definition recovered (path : bytes) (dur : DeltaDurability) (log : list (Z * edit))
  : PropertyDeltaManifest :=
  mkManifest path dur (u64 (last_sequence 0 log + 1)) (active_of log).

Lemma log_bytes_length log : Forall (fun r => edit_ok r.2 /\ fits 64 r.1) log ->
  Z.of_nat (length log) <= zlen (log_bytes log).
Proof.
  unfold log_bytes. induction 1 as [|[s ed] log [Hed _] _ IH]; [done|].
  cbn [map concat length].
  rewrite zlen_app, zlen_edit_bytes by done. pose proof (zlen_nonneg (edit_payload ed)). lia.
Qed.

(** A tail that is nothing or a strict prefix of some record. *)
Definition torn_tail (torn : bytes) : Prop :=
  torn = [] \/ exists seq ed, edit_ok ed /\ fits 64 seq /\
    torn `prefix_of` edit_bytes (seq, ed) /\ zlen torn < zlen (edit_bytes (seq, ed)).

Lemma loop_replays path fs log torn :
  fs !! path = Some (log_bytes log ++ torn) -> valid_log log -> torn_tail torn ->
  recover_loop (Z.to_nat (zlen (log_bytes log ++ torn))) path (zlen (log_bytes log ++ torn))
    (mkRecovery 0 0 []) (mkWorld fs []) =
  (Some (Ok (mkRecovery (zlen (log_bytes log)) (last_sequence 0 log) (active_of log))), mkWorld fs []).
Proof.
  intros Hc [Hok Hs] Ht. pose proof (log_bytes_length log Hok) as Hl. pose proof (zlen_nonneg torn).
  replace (Z.to_nat (zlen (log_bytes log ++ torn)))
    with (length log + (Z.to_nat (zlen (log_bytes log ++ torn)) - length log))%nat
    by (rewrite zlen_app; lia).
  rewrite (loop_log path fs _ Hc log [] torn); [|done..]. fold (log_bytes log).
  change (zlen [] + zlen (log_bytes log)) with (zlen (log_bytes log)).
  destruct Ht as [->|(seq & ed & Hed & Hseq & Hp & Hlt)].
  - rewrite app_nil_r. destruct (Z.to_nat (zlen (log_bytes log)) - length log)%nat;
      cbn [recover_loop rc_offset]; by rewrite (proj2 (Z.ltb_ge _ _)) by lia.
  - eapply loop_torn; try done. rewrite zlen_app. lia.
Qed.

Lemma Manifest_Open_replays path dur fs log torn :
  fs !! path = Some (log_bytes log ++ torn) -> valid_log log -> torn_tail torn ->
  Manifest_Open path dur (mkWorld fs []) =
  (Some (Ok (recovered path dur log)), mkWorld (<[path := log_bytes log]> fs) []).
Proof.
  intros Hc Hlog Ht. unfold Manifest_Open, sys_open_append, sys_call, get_files.
  unfold io_bind at 1 2 3 4 5 6. cbn [script files negb]. rewrite Hc. cbn [io_ret negb].
  unfold io_bind at 1. cbn [script files negb]. rewrite Hc. cbn [default from_option id].
  unfold replay_and_cut, io_bind at 1. rewrite (loop_replays path fs log torn) by done. cbn [rc_offset rc_last rc_active].
  rewrite zlen_app. pose proof (zlen_nonneg torn).
  destruct (Z.eqb_spec (zlen (log_bytes log)) (zlen (log_bytes log) + zlen torn)) as [E|E].
  - assert (torn = []) as -> by (destruct torn; [done|rewrite zlen_cons in E; pose proof (zlen_nonneg torn); lia]).
    rewrite app_nil_r in Hc. by rewrite insert_id.
  - unfold sys_truncate, sys_call, get_files, io_bind. cbn [script files]. rewrite Hc.
    unfold put_file. cbn [script files negb].
    assert (take (Z.to_nat (zlen (log_bytes log))) (log_bytes log ++ torn) = log_bytes log) as ->
      by (unfold zlen; by rewrite Nat2Z.id, take_app_length).
    by case_bool_decide.
Qed.

(** ** Appending *)
Definition Append (m : PropertyDeltaManifest) (ed : edit)
  : IO (result ManifestError PropertyDeltaManifest) :=
  match ed with Add e => AppendAdd m e | Remove ns => AppendRemove m ns end.

Definition appended (m : PropertyDeltaManifest) (ed : edit) : PropertyDeltaManifest :=
  mkManifest (m_path m) (durability_ m) (u64 (next_edit_sequence_ m + 1))
    (apply_edit (active_entries_ m) ed).

Lemma Append_record m ed :
  edit_ok ed -> ed <> Remove [] ->
  Append m ed =
  (let* r := AppendRecord m (edit_type ed) (edit_payload ed) in
   match r with
   | Err e => io_ret (Err e)
   | Ok m' => io_ret (Ok (set_active m' (apply_edit (active_entries_ m') ed)))
   end).
Proof.
  intros [H _] Hne. destruct ed as [e|ns]; cbn [Append edit_type edit_payload apply_edit].
  - unfold AppendAdd. destruct H as [[-> _] _]. done.
  - unfold AppendRemove. destruct ns as [|n ns]; [done|]. destruct H as [Hns Hl].
    assert (existsb (fun name => negb (ValidFileName name) || (UINT32_MAX <? zlen name)) (n :: ns) = false) as ->.
    { apply not_true_iff_false. intros (x & Hx & Hb)%existsb_exists.
      rewrite Forall_forall in Hns. destruct (Hns x) as [Hv Hf]; [by apply list_elem_of_In|].
      rewrite Hv in Hb. simpl in Hb. apply Z.ltb_lt in Hb. unfold fits, UINT32_MAX in *. lia. }
    rewrite (proj2 (Z.ltb_ge _ _)) by (unfold fits, UINT32_MAX in *; lia). done.
Qed.

(** Any run of an append leaves the old contents and a prefix of the record;
    a run that reports success has written the whole record. *)
Lemma wp_Append m ed c fs :
  fs !! m_path m = Some c -> edit_ok ed -> ed <> Remove [] ->
  let grown out := <[m_path m := c ++ out]> fs in
  wp (Append m ed)
    (fun r fs' => exists out, out `prefix_of` edit_bytes (next_edit_sequence_ m, ed) /\ fs' = grown out /\
       forall m', r = Ok m' -> out = edit_bytes (next_edit_sequence_ m, ed) /\ m' = appended m ed)
    (fun fs' => exists out, out `prefix_of` edit_bytes (next_edit_sequence_ m, ed) /\ fs' = grown out) fs.
Proof.
  intros Hc Hed Hne grown. rewrite Append_record by done. wp_step. unfold AppendRecord.
  rewrite (proj2 (Z.ltb_ge _ _)) by (destruct Hed as [_ Hl]; unfold UINT32_MAX; lia).
  fold (edit_bytes (next_edit_sequence_ m, ed)).
  wp_step. wp_step; rewrite ?Hc; cbn [default from_option id].
  - wp_step. assert (forall (b : bool) Q (C : gmap bytes bytes -> Prop) fs', (forall a, Q a fs') -> C fs' ->
      wp (if b then sys_call else io_ret true) Q C fs') as Hif by (intros []; intros; wp_step; auto).
    apply Hif; [intros synced|by exists (edit_bytes (next_edit_sequence_ m, ed))].
    destruct synced; cbn [negb]; wp_step; wp_step; eexists; (split; [done|]); (split; [done|]); [|done].
    by intros m' [= <-].
  - destruct r; [done|..]; wp_step; wp_step; by eexists.
  - by eexists.
Qed.

Lemma last_sequence_bounds s log :
  StronglySorted Z.lt (s :: map fst log) ->
  Forall (fun x => x <= last_sequence s log) (s :: map fst log).
Proof.
  revert s. induction log as [|[x ed] log IH]; intros s Hs; [by repeat constructor|].
  apply StronglySorted_inv in Hs as [Hs Hx]. specialize (IH x Hs).
  cbn [map last_sequence foldl fst] in *. constructor; [|exact IH].
  apply Forall_cons in IH as [Hle _]. apply Forall_cons in Hx as [Hlt _]. unfold last_sequence in Hle. lia.
Qed.

Lemma last_sequence_snoc s log r : last_sequence s (log ++ [r]) = r.1.
Proof. unfold last_sequence. by rewrite foldl_snoc. Qed.

Lemma active_of_snoc log seq ed : active_of (log ++ [(seq, ed)]) = apply_edit (active_of log) ed.
Proof. unfold active_of. rewrite map_app. apply foldl_snoc. Qed.

Lemma log_bytes_snoc log r : log_bytes (log ++ [r]) = log_bytes log ++ edit_bytes r.
Proof. unfold log_bytes. rewrite map_app, concat_app. cbn [map concat]. by rewrite app_nil_r. Qed.

Lemma valid_log_snoc log ed :
  valid_log log -> edit_ok ed -> fits 64 (last_sequence 0 log + 1) ->
  valid_log (log ++ [(last_sequence 0 log + 1, ed)]).
Proof.
  intros [Hok Hs] Hed Hf. split; [apply Forall_app; split; [done|]; constructor; [by split|constructor]|].
  rewrite map_app. cbn [map fst].
  change (0 :: map fst log ++ [last_sequence 0 log + 1])
    with ((0 :: map fst log) ++ [last_sequence 0 log + 1]).
  apply StronglySorted_snoc; [done|].
  eapply Forall_impl; [by apply last_sequence_bounds|]. simpl. lia.
Qed.

(** ** Uniqueness of file names *)
Definition unique_names (active : list PropertyDeltaManifestEntry) : Prop :=
  NoDup (map file_name active).

Lemma ApplyAdd_names active e n :
  n ∈ map file_name (ApplyAdd active e) <-> n = file_name e \/ n ∈ map file_name active.
Proof.
  induction active as [|item active IH]; simpl; [set_solver|].
  case_bool_decide as E; simpl; rewrite !elem_of_cons; [rewrite E; naive_solver|rewrite IH; naive_solver].
Qed.

Lemma ApplyAdd_unique active e : unique_names active -> unique_names (ApplyAdd active e).
Proof.
  unfold unique_names. induction active as [|item active IH]; simpl; [by repeat constructor; set_solver|].
  intros [Hn Hd]%NoDup_cons. case_bool_decide as E; simpl; constructor; try done.
  - by rewrite <- E.
  - rewrite ApplyAdd_names. naive_solver.
  - by apply IH.
Qed.

Lemma ApplyRemove_unique active ns : unique_names active -> unique_names (ApplyRemove active ns).
Proof.
  unfold unique_names, ApplyRemove. induction active as [|item active IH]; [done|].
  simpl. intros [Hn Hd]%NoDup_cons. rewrite filter_cons. case_decide; simpl; [constructor|]; auto.
  intros Hin. apply Hn. apply list_elem_of_fmap in Hin as (x & -> & Hx%list_elem_of_filter).
  apply list_elem_of_fmap. naive_solver.
Qed.

Lemma apply_edit_unique active ed : unique_names active -> unique_names (apply_edit active ed).
Proof. destruct ed; [apply ApplyAdd_unique|apply ApplyRemove_unique]. Qed.

(** Replay is lookup: an entry is active iff its add is not followed by an edit
    of the same name. *)
Lemma ApplyAdd_elem active e x :
  unique_names active ->
  x ∈ ApplyAdd active e <-> x = e \/ (x ∈ active /\ file_name x <> file_name e).
Proof.
  unfold unique_names. induction active as [|item active IH]; simpl; [set_solver|].
  intros [Hn Hd]%NoDup_cons. case_bool_decide as E; rewrite !elem_of_cons.
  - split; [|naive_solver]. intros [->|Hx]; [by left|right]. split; [by right|].
    intros Ex. apply Hn. rewrite E, <- Ex. apply list_elem_of_fmap. eauto.
  - rewrite (IH Hd). naive_solver.
Qed.

Lemma ApplyRemove_elem active ns x :
  x ∈ ApplyRemove active ns <-> x ∈ active /\ file_name x ∉ ns.
Proof. unfold ApplyRemove. rewrite list_elem_of_filter. naive_solver. Qed.
