(* ===== verification/DeltaManifestTheorems.v ===== *)
(** * Correctness of the delta manifest

    Replay and repair of a log, crash consistency of appends, uniqueness of the
    active names, termination of recovery, and two behaviours of the code that
    lose committed edits. *)

From S2P Require Import Prelude.
From S2P Require Import Types.
From S2P Require Import Checksum.
From S2P Require Import Posix.
From S2P Require Import DeltaFile.
From S2P Require Import DeltaSpec.
From S2P Require Import DeltaFileFacts.
From S2P Require Import DeltaFileCreate.
From S2P Require Import DeltaManifest.
From S2P Require Import DeltaManifestFacts.

(** ** Recovery from arbitrary bytes under arbitrary faults *)
Lemma manifest_header_nonneg raw (h : ManifestDiskHeader) :
  h = pod_decode raw -> 0 <= mh_payload_bytes h.
Proof. intros ->. apply of_le_fits. Qed.

Lemma apply_record_unique type payload active active' :
  apply_record type payload active = Ok active' -> unique_names active -> unique_names active'.
Proof.
  unfold apply_record. repeat case_match; intros; simplify_eq;
    [by apply ApplyAdd_unique|by apply ApplyRemove_unique].
Qed.

Definition recovery_post (r : result ManifestError RecoveryState) : Prop :=
  match r with
  | Ok st => unique_names (rc_active st)
  | Err e => e <> RecoveryDiverged
  end.

Lemma wp_recover_loop fuel path size st fs :
  size - rc_offset st <= Z.of_nat fuel -> unique_names (rc_active st) ->
  wp (recover_loop fuel path size st)
     (fun r fs' => fs' = fs /\ recovery_post r) (fun fs' => fs' = fs) fs.
Proof.
  revert st. induction fuel as [|fuel IH]; intros st Hf Hu; cbn [recover_loop];
    (destruct (Z.ltb_spec (rc_offset st) size); cbn [negb]; [|by wp_step]);
    (destruct (size - rc_offset st <? sizeof ManifestDiskHeader); [by wp_step|]); [lia|].
  wp_step. wp_step; [|done]. destruct r as [raw|]; [|by wp_step].
  remember (pod_decode raw) as h eqn:Eh. cbv zeta. pose proof (manifest_header_nonneg raw h Eh) as Hp.
  destruct (_ || _); [by wp_step|].
  destruct (_ <? _); [by wp_step|]. wp_step.
  assert (forall Q : option bytes -> gmap bytes bytes -> Prop, (forall r, Q r fs) ->
    wp (if mh_payload_bytes h =? 0 then io_ret (Some [])
        else ReadAllAt path (mh_payload_bytes h) (rc_offset st + sizeof ManifestDiskHeader))
      Q (fun fs' => fs' = fs) fs) as Hread.
  { intros Q HQ. destruct (_ =? 0); [by wp_step|by wp_step]. }
  apply Hread. intros [payload|]; [|by wp_step].
  destruct (_ =? mh_checksum h); cbn [negb]; [|by destruct (rc_offset st + _ =? size); wp_step].
  destruct (_ <=? _); [by wp_step|].
  destruct (apply_record _ _ _) as [active|e] eqn:Ea.
  - apply IH; cbn [rc_offset rc_active]; [|by eapply apply_record_unique].
    change (sizeof ManifestDiskHeader) with 36. lia.
  - wp_step. split; [done|]. unfold apply_record in Ea. simpl.
    repeat case_match; by simplify_eq.
Qed.

(** What any run of [Open] may return. *)
Lemma wp_Manifest_Open path dur fs :
  wp (Manifest_Open path dur)
     (fun r _ => match r with
                 | Ok m => unique_names (active_entries_ m)
                 | Err e => e <> RecoveryDiverged
                 end) (fun _ => True) fs.
Proof.
  unfold Manifest_Open. wp_step. wp_step; [|by wp_step|done]. cbn [negb].
  assert (forall fs' size, 0 <= size -> wp (replay_and_cut path dur size)
    (fun r _ => match r with
                | Ok m => unique_names (active_entries_ m)
                | Err e => e <> RecoveryDiverged
                end) (fun _ => True) fs') as H.
  { intros fs' size Hs. unfold replay_and_cut. wp_step. eapply wp_mono;
      [apply wp_recover_loop; [cbn [rc_offset]; lia|constructor]| |done].
    intros r fs'' [_ Hr]. destruct r as [st|e]; [|by wp_step]. cbn [recovery_post] in Hr.
    destruct (_ =? _); [by wp_step|]. wp_step. wp_step; [|by wp_step|done]. cbn [negb].
    wp_step. destruct (bool_decide _); wp_step; try done; by wp_step. }
  assert (forall fs', wp (let* stat_ok := sys_call in
      if negb stat_ok then io_ret (Err ManifestStatFailed)
      else let* fs := get_files in
           replay_and_cut path dur (zlen (default [] (fs !! path))))
    (fun r _ => match r with
                | Ok m => unique_names (active_entries_ m)
                | Err e => e <> RecoveryDiverged
                end) (fun _ => True) fs') as H'.
  { intros fs'. wp_step. wp_step; [|by wp_step|done]. cbn [negb]. wp_step.
    intros s. apply H, zlen_nonneg. }
  wp_step. wp_step; [apply H'|apply H'|by wp_step|done].
Qed.

(** Reopening a file that holds a log and a prefix of one more record. *)
Lemma reopen_prefix path fs log seq ed out :
  valid_log (log ++ [(seq, ed)]) -> valid_log log -> edit_ok ed -> fits 64 seq ->
  out `prefix_of` edit_bytes (seq, ed) -> fs !! path = Some (log_bytes log ++ out) ->
  exists log', (log' = log \/ log' = log ++ [(seq, ed)]) /\
    (out = edit_bytes (seq, ed) -> log' = log ++ [(seq, ed)]) /\
    forall dur, Manifest_Open path dur (mkWorld fs []) =
      (Some (Ok (recovered path dur log')), mkWorld (<[path := log_bytes log']> fs) []).
Proof.
  intros Hlog' Hlog Hed Hseq [k Hk] Hfs. destruct k as [|b k].
  - rewrite app_nil_r in Hk. exists (log ++ [(seq, ed)]). split_and!; [by right|done|].
    intros dur. apply (Manifest_Open_replays _ _ _ _ []); [|done|by left].
    by rewrite Hfs, app_nil_r, log_bytes_snoc, Hk.
  - assert (zlen out < zlen (edit_bytes (seq, ed))) as Hlt
      by (rewrite Hk, zlen_app, zlen_cons; pose proof (zlen_nonneg k); lia).
    exists log. split_and!; [by left|intros ->; lia|].
    intros dur. apply (Manifest_Open_replays _ _ _ log out); [done|done|].
    right. exists seq, ed. split_and!; [done|done| |done]. rewrite Hk. by eexists.
Qed.

(** ** The component's theorems *)
Definition sample_path : bytes := map byte_of [77].
Definition sample_name (n : Z) : bytes := map byte_of [100; n].
Definition sample_entry (n : Z) : PropertyDeltaManifestEntry :=
  mkEntry (sample_name n) (mkMetadata (mkTarget kEdge 1 2 3 4) n 5 6 7 8 9) true.
Definition sample_log : list (Z * edit) :=
  [(1, Add (sample_entry 97)); (2, Add (sample_entry 98)); (4, Remove [sample_name 97])].

Lemma sample_log_valid : valid_log sample_log.
Proof.
  split.
  - repeat (apply Forall_cons; split); [..|constructor];
      (split; [apply (bool_decide_unpack _); by vm_compute|by vm_compute]).
  - repeat constructor; lia.
Qed.

(** C38: opening a manifest whose bytes are a log of records followed by
    nothing or by a torn final record (any strict prefix of a record)
    succeeds, replays exactly the complete edits in order, continues with the
    next edit sequence, and cuts the torn bytes off the file. *)
Theorem manifest_open_replays path dur fs log torn :
  fs !! path = Some (log_bytes log ++ torn) -> valid_log log -> torn_tail torn ->
  Manifest_Open path dur (mkWorld fs []) =
  (Some (Ok {| m_path := path; durability_ := dur;
               next_edit_sequence_ := u64 (last_sequence 0 log + 1);
               active_entries_ := foldl apply_edit [] (map snd log) |}),
   mkWorld (<[path := log_bytes log]> fs) []).
Proof. intros. by rewrite (Manifest_Open_replays _ _ _ log torn). Qed.

Lemma manifest_open_replays_witness :
  Manifest_Open sample_path kProcessCrashSafe
    (mkWorld {[ sample_path := log_bytes sample_log ++ take 50 (edit_bytes (5, Add (sample_entry 99))) ]} []) =
  (Some (Ok (mkManifest sample_path kProcessCrashSafe 5 [sample_entry 98])),
   mkWorld {[ sample_path := log_bytes sample_log ]} []).
Proof.
  rewrite (manifest_open_replays sample_path kProcessCrashSafe _ sample_log
             (take 50 (edit_bytes (5, Add (sample_entry 99))))).
  - rewrite insert_singleton_eq. by vm_compute.
  - apply lookup_singleton_eq.
  - apply sample_log_valid.
  - right. exists 5, (Add (sample_entry 99)). split_and!.
    + apply (bool_decide_unpack _). by vm_compute.
    + by vm_compute.
    + apply prefix_take.
    + by vm_compute.
Defined.

(** C21: crash consistency of the commit log. Appending an edit to a manifest
    that matches its file, under any behaviour of the system calls (partial
    writes, errors, a crash in the middle), leaves a file from which reopening
    recovers either exactly the edits before the append or exactly those edits
    plus the new one; when the append reported success it is the latter, and
    the in-memory object agrees with it. *)
Theorem manifest_append_crash_consistent m log ed w :
  m = recovered (m_path m) (durability_ m) log ->
  valid_log log -> fits 64 (last_sequence 0 log + 1) ->
  files w !! m_path m = Some (log_bytes log) -> edit_ok ed -> ed <> Remove [] ->
  let '(r, w') := Append m ed w in
  exists log',
    (log' = log \/ log' = log ++ [(next_edit_sequence_ m, ed)]) /\
    (forall m', r = Some (Ok m') ->
       log' = log ++ [(next_edit_sequence_ m, ed)] /\ m' = recovered (m_path m) (durability_ m) log') /\
    forall dur, Manifest_Open (m_path m) dur (mkWorld (files w') []) =
      (Some (Ok (recovered (m_path m) dur log')),
       mkWorld (<[m_path m := log_bytes log']> (files w')) []).
Proof.
  intros Hm Hlog Hf Hc Hed Hne.
  assert (next_edit_sequence_ m = last_sequence 0 log + 1) as Hnext
    by (rewrite Hm; cbn [recovered next_edit_sequence_]; by apply wrap_small).
  assert (active_entries_ m = active_of log) as Hact by (by rewrite Hm).
  assert (valid_log (log ++ [(next_edit_sequence_ m, ed)])) as Hlog'
    by (rewrite Hnext; by apply valid_log_snoc).
  pose proof (wp_run _ _ _ w (wp_Append m ed _ (files w) Hc Hed Hne)) as H. cbv zeta in H.
  destruct (Append m ed w) as [r w'] eqn:Erun.
  assert (exists out, out `prefix_of` edit_bytes (next_edit_sequence_ m, ed) /\
    files w' = <[m_path m := log_bytes log ++ out]> (files w) /\
    forall m', r = Some (Ok m') -> out = edit_bytes (next_edit_sequence_ m, ed) /\ m' = appended m ed)
    as (out & Hp & Hfs & Hr).
  { destruct r as [r|]; [destruct H as (out & ? & ? & Hr)|destruct H as (out & ? & ?)];
      exists out; split_and!; try done. intros m' [= ->]. by apply Hr. }
  destruct (reopen_prefix (m_path m) (files w') log (next_edit_sequence_ m) ed out)
    as (log' & Hcase & Hwhole & Hopen); try done.
  { by rewrite Hnext. } { by rewrite Hfs, lookup_insert_eq. }
  exists log'. split_and!; [done| |done]. intros m' Hm'. destruct (Hr m' Hm') as [Hout ->].
  rewrite (Hwhole Hout). split; [done|].
  unfold recovered, appended. by rewrite last_sequence_snoc, active_of_snoc, Hact.
Qed.

Lemma manifest_append_crash_consistent_witness :
  let m := recovered sample_path kProcessCrashSafe sample_log in
  let w := mkWorld {[ sample_path := log_bytes sample_log ]} [Short 40; Eintr; Crash] in
  let '(r, w') := Append m (Add (sample_entry 99)) w in
  r = None /\ exists log', (log' = sample_log \/ log' = sample_log ++ [(5, Add (sample_entry 99))]) /\
    forall dur, Manifest_Open sample_path dur (mkWorld (files w') []) =
      (Some (Ok (recovered sample_path dur log')),
       mkWorld (<[sample_path := log_bytes log']> (files w')) []).
Proof.
  cbv zeta.
  pose proof (manifest_append_crash_consistent (recovered sample_path kProcessCrashSafe sample_log)
    sample_log (Add (sample_entry 99))
    (mkWorld {[ sample_path := log_bytes sample_log ]} [Short 40; Eintr; Crash])
    eq_refl sample_log_valid) as H.
  destruct (Append _ _ _) as [r w'] eqn:E.
  destruct H as (log' & H1 & _ & H2).
  - by vm_compute.
  - apply lookup_singleton_eq.
  - apply (bool_decide_unpack _). by vm_compute.
  - done.
  - split; [|exists log'; split; [exact H1|exact H2]].
    apply (f_equal fst) in E. vm_compute in E. by rewrite <- E.
Defined.

(** the payload encodings are faithful: decoding an encoded add entry or an
    encoded list of removed names gives back exactly what was encoded. *)
Theorem manifest_payload_roundtrip e ns :
  entry_ok e -> Forall name_ok ns -> fits 32 (zlen ns) ->
  DecodeAdd (EncodeAdd e) = Some e /\ DecodeRemove (EncodeRemove ns) = Some ns.
Proof. intros. split; [by apply DecodeAdd_EncodeAdd|by apply DecodeRemove_EncodeRemove]. Qed.

Lemma manifest_payload_roundtrip_witness :
  DecodeAdd (EncodeAdd (sample_entry 97)) = Some (sample_entry 97) /\
  DecodeRemove (EncodeRemove [sample_name 97; sample_name 98]) = Some [sample_name 97; sample_name 98].
Proof.
  apply manifest_payload_roundtrip; apply (bool_decide_unpack _); by vm_compute.
Defined.

(** opening a manifest with arbitrary contents, under arbitrary faults,
    terminates (the fuel is never exhausted), and whenever it succeeds the
    active entries have pairwise distinct file names; appending keeps them
    distinct. *)
Theorem manifest_names_unique path dur w :
  let '(r, _) := Manifest_Open path dur w in
  r <> Some (Err RecoveryDiverged) /\
  forall m, r = Some (Ok m) ->
    NoDup (map file_name (ActiveEntries m)) /\
    forall ed, NoDup (map file_name (apply_edit (ActiveEntries m) ed)).
Proof.
  pose proof (wp_run _ _ _ w (wp_Manifest_Open path dur (files w))) as H.
  destruct (Manifest_Open path dur w) as [[r|] w']; [|done]. split; [by intros [= ->]|].
  intros m [= ->]. split; [exact H|]. intros ed. by apply apply_edit_unique.
Qed.

(** the active set after replay is the last-writer-wins set: after an add
    an entry is active iff it is the added one or was active under another
    name, and after a remove iff it was active and is not named. *)
Theorem manifest_edits_meaning log seq e ns x :
  unique_names (active_of log) ->
  (x ∈ active_of (log ++ [(seq, Add e)]) <-> x = e \/ (x ∈ active_of log /\ file_name x <> file_name e)) /\
  (x ∈ active_of (log ++ [(seq, Remove ns)]) <-> x ∈ active_of log /\ file_name x ∉ ns).
Proof.
  intros Hu. rewrite !active_of_snoc. split; [by apply ApplyAdd_elem|apply ApplyRemove_elem].
Qed.

Lemma manifest_edits_meaning_witness :
  sample_entry 98 ∈ active_of (sample_log ++ [(5, Add (sample_entry 99))]).
Proof.
  apply (manifest_edits_meaning sample_log 5 (sample_entry 99) []).
  - vm_compute. repeat constructor; set_solver.
  - right. split; [vm_compute; set_solver|by vm_compute].
Defined.

(** a failing read loses committed edits. With one committed record and a
    [pread] error while its header is read, [Open] succeeds with no active
    entry and truncates the file to nothing. *)
Theorem manifest_read_error_truncates :
  let fs := {[ sample_path := log_bytes [(1, Add (sample_entry 97))] ]} in
  exists m, Manifest_Open sample_path kProcessCrashSafe (mkWorld fs [Good; Good; Good; Fail]) =
      (Some (Ok m), mkWorld {[ sample_path := [] ]} []) /\ active_entries_ m = [].
Proof. eexists. split; vm_compute; reflexivity. Qed.

(** a failed append poisons the log. After an append that fails in the
    middle of its write, the next append still reports success, but the
    manifest can no longer be opened: the torn bytes are now in the middle. *)
Theorem manifest_failed_append_poisons :
  let m := recovered sample_path kProcessCrashSafe [] in
  let run1 := Append m (Add (sample_entry 97)) (mkWorld {[ sample_path := [] ]} [Short 40; Fail]) in
  let run2 := Append m (Add (sample_entry 98)) run1.2 in
  run1.1 = Some (Err ManifestWriteFailed) /\
  run2.1 = Some (Ok (appended m (Add (sample_entry 98)))) /\
  (Manifest_Open sample_path kProcessCrashSafe run2.2).1 = Some (Err (ManifestChecksumMismatch 0)).
Proof. cbv zeta. split_and!; vm_compute; reflexivity. Qed.

(** after a failed [fdatasync] the record is in the file but the edit
    sequence is not advanced, so a second append writes the same sequence and
    the manifest can no longer be opened. *)
Theorem manifest_failed_sync_duplicates_sequence :
  let m := recovered sample_path kProcessCrashSafe [] in
  let run1 := Append m (Add (sample_entry 97)) (mkWorld {[ sample_path := [] ]} [Good; Fail]) in
  let run2 := Append m (Add (sample_entry 98)) run1.2 in
  run1.1 = Some (Err ManifestSyncFailed) /\
  run2.1 = Some (Ok (appended m (Add (sample_entry 98)))) /\
  (Manifest_Open sample_path kProcessCrashSafe run2.2).1 = Some (Err SequenceNotIncreasing).
Proof. cbv zeta. split_and!; vm_compute; reflexivity. Qed.
