(* ===== verification/Names.v ===== *)
(** * File names of the property-delta store

    [std::to_string], [DeltaFileName] (src/property_delta_store.cpp), the
    temporary name of [PropertyDeltaFile::Create] and the two path operations
    the store uses.  Delta file names are valid manifest names and determine
    the target and the generation. *)

From S2P Require Import Prelude.
From S2P Require Import Types.
From S2P Require Import DeltaFile.
From S2P Require Import DeltaManifest.

Definition str (s : string) : bytes := Stdlib.Strings.String.list_byte_of_string s.
Arguments str s%_string.

(** [std::to_string] of an unsigned integer. *)
Definition to_string (z : Z) : bytes := str (pretty (Z.to_N z)).

Definition DeltaFileName (target : PropertyDeltaTarget) (generation : Z) : bytes :=
  let kind := match kind target with kNode => str "n" | kEdge => str "e" end in
  str "delta-" ++ kind ++ str "-s" ++ to_string (shard_id target) ++
  str "-f" ++ to_string (base_file_id target) ++ str "-b" ++ to_string (base_generation target) ++
  str "-p" ++ to_string (property_id target) ++ str "-g" ++ to_string generation ++ str ".rgd".

(** [path + ".tmp." + getpid() + "." + generation] *)
Definition TemporaryName (path : bytes) (pid generation : Z) : bytes :=
  path ++ str ".tmp." ++ to_string pid ++ str "." ++ to_string generation.

(** [std::filesystem::path(directory) / name], for a non-empty directory
    without a trailing separator. *)
Definition child (directory name : bytes) : bytes := directory ++ str "/" ++ name.

(** [path.parent_path()] of a path below the root directory: the part before
    the last separator. *)
Fixpoint parent_path (path : bytes) : bytes :=
  match path with
  | [] => []
  | b :: rest => if bool_decide (byte_of 47 ∈ rest) then b :: parent_path rest else []
  end.

(** ** Decimal strings *)
Lemma str_inj s s' : str s = str s' -> s = s'.
Proof.
  intros E. rewrite <- (Stdlib.Strings.String.string_of_list_byte_of_string s), <- (Stdlib.Strings.String.string_of_list_byte_of_string s').
  unfold str in E. by rewrite E.
Qed.

Lemma to_string_inj a b : 0 <= a -> 0 <= b -> to_string a = to_string b -> a = b.
Proof. intros Ha Hb E%str_inj. apply (inj pretty) in E. lia. Qed.

Definition is_digit (b : byte) : Prop := 48 <= byte_val b <= 57.
#[export] Instance is_digit_dec b : Decision (is_digit b).
Proof. unfold is_digit. apply _. Defined.

Lemma pretty_N_go_digits x s :
  Forall is_digit (str s) -> Forall is_digit (str (pretty_N_go x s)).
Proof.
  revert s. induction (N.lt_wf_0 x) as [x _ IH]; intros s Hs.
  assert (x = 0 \/ 0 < x)%N as [->|Hx] by lia; [by rewrite pretty_N_go_0|].
  rewrite pretty_N_go_step by done. apply IH; [by apply N.div_lt|].
  cbn. constructor; [|done]. apply (bool_decide_unpack _).
  unfold pretty_N_char. by repeat case_match.
Qed.

Lemma to_string_digits z : Forall is_digit (to_string z).
Proof.
  unfold to_string, pretty, pretty_N. case_decide; [|by apply pretty_N_go_digits; constructor].
  constructor; [by vm_compute|constructor].
Qed.

Lemma pretty_N_go_length (k : nat) x s :
  (x < 10 ^ N.of_nat k)%N -> (length (str (pretty_N_go x s)) <= k + length (str s))%nat.
Proof.
  revert x s. induction k as [|k IH]; intros x s Hx.
  - change (10 ^ N.of_nat 0)%N with 1%N in Hx. assert (x = 0%N) as -> by lia.
    by rewrite pretty_N_go_0.
  - assert (x = 0 \/ 0 < x)%N as [->|Hx0] by lia; [rewrite pretty_N_go_0; lia|].
    rewrite pretty_N_go_step by done. etrans; [apply IH|].
    2: { change (length (str (String (pretty_N_char (x `mod` 10)) s))) with (S (length (str s))). lia. }
    rewrite Nat2N.inj_succ, N.pow_succ_r' in Hx. by apply N.Div0.div_lt_upper_bound.
Qed.

Lemma to_string_length z : fits 64 z -> (length (to_string z) <= 20)%nat.
Proof.
  unfold fits. intros Hz. unfold to_string, pretty, pretty_N. case_decide; [cbn; lia|].
  etrans; [apply (pretty_N_go_length 20)|done].
  change (10 ^ N.of_nat 20)%N with 100000000000000000000%N. lia.
Qed.

(** Digits up to a separator determine both sides. *)
Lemma digits_split a a' c x x' :
  Forall is_digit a -> Forall is_digit a' -> ~ is_digit c ->
  a ++ c :: x = a' ++ c :: x' -> a = a' /\ x = x'.
Proof.
  intros Ha. revert a'. induction Ha as [|b a Hb Ha IH]; intros a' Ha' Hc E.
  - destruct Ha' as [|b' a' Hb' Ha']; [by injection E|]. injection E as -> _. done.
  - destruct Ha' as [|b' a' Hb' Ha']; [by injection E as -> _|].
    injection E as -> E. apply IH in E as [-> ->]; done.
Qed.

Lemma DeltaFileName_inj t t' g g' :
  target_ok t -> target_ok t' -> fits 64 g -> fits 64 g' ->
  DeltaFileName t g = DeltaFileName t' g' -> t = t' /\ g = g'.
Proof.
  unfold target_ok, fits. intros (S1 & F1 & G1 & P1) (S2 & F2 & G2 & P2) H1 H2 E.
  assert (~ is_digit (byte_of 45)) as Nd by (by vm_compute; intros []).
  assert (~ is_digit (byte_of 46)) as Np by (by vm_compute; intros []).
  unfold DeltaFileName in E. destruct t as [k s f b p], t' as [k' s' f' b' p']. cbn [kind shard_id base_file_id base_generation property_id] in *.
  assert (k = k') as <- by (by destruct k, k').
  apply app_inv_head, app_inv_head, app_inv_head in E.
  apply digits_split in E as [E1 E]; [|apply to_string_digits..|exact Nd]. injection E as E.
  apply digits_split in E as [E2 E]; [|apply to_string_digits..|exact Nd]. injection E as E.
  apply digits_split in E as [E3 E]; [|apply to_string_digits..|exact Nd]. injection E as E.
  apply digits_split in E as [E4 E]; [|apply to_string_digits..|exact Nd]. injection E as E.
  apply digits_split in E as [E5 _]; [|apply to_string_digits..|exact Np].
  apply to_string_inj in E1, E2, E3, E4, E5; try lia. by subst.
Qed.

Definition no_separator (name : bytes) : bool :=
  forallb (fun b => negb (bool_decide (b = byte_of 47))) name.

Lemma digits_no_separator l : Forall is_digit l -> no_separator l = true.
Proof.
  induction 1 as [|b l Hb _ IH]; [done|]. cbn. unfold no_separator in IH. rewrite IH, andb_true_r.
  rewrite bool_decide_false; [done|]. intros ->. by vm_compute in Hb; destruct Hb.
Qed.

Lemma DeltaFileName_valid t g : ValidFileName (DeltaFileName t g) = true.
Proof.
  assert (no_separator (DeltaFileName t g) = true) as H.
  { unfold DeltaFileName, no_separator. rewrite !forallb_app.
    rewrite !(digits_no_separator _ (to_string_digits _) : forallb _ _ = true).
    by destruct (kind t). }
  unfold no_separator in H. unfold ValidFileName.
  destruct (DeltaFileName t g) as [|b l] eqn:E; [done|]. rewrite H.
  unfold DeltaFileName in E. injection E as <- E.
  by rewrite !bool_decide_false.
Qed.

Lemma DeltaFileName_length t g :
  target_ok t -> fits 64 g -> fits 32 (zlen (DeltaFileName t g)).
Proof.
  intros (S1 & F1 & G1 & P1) Hg. unfold DeltaFileName. rewrite !zlen_app. unfold fits, zlen.
  assert (forall z, fits 32 z -> (length (to_string z) <= 20)%nat) as H32.
  { intros z Hz. apply to_string_length. by apply (fits_mono 32). }
  pose proof (H32 _ S1). pose proof (H32 _ F1). pose proof (H32 _ P1).
  pose proof (to_string_length _ G1). pose proof (to_string_length _ Hg).
  destruct (kind t); cbn; lia.
Qed.
