(* ===== verification/DeltaStore.v ===== *)
(** * The property-delta store

    core/property_delta_store.h and src/property_delta_store.cpp: the registry
    of delta chains (one per target), attaching a file to a chain, immutable
    read views, the persistence handoff, background merging and recovery.

    Every operation passes the store explicitly; an operation that holds the
    chain mutex is one function on the chain ([chain_attach], [chain_capture],
    [chain_publish], [chain_persist]), so that the same functions are the
    atomic steps of the concurrent model in [DeltaStoreSteps]. *)

From S2P Require Import Prelude.
From S2P Require Import Types.
From S2P Require Import Checksum.
From S2P Require Import Posix.
From S2P Require Import DeltaFile.
From S2P Require Import DeltaManifest.
From S2P Require Import Names.

Inductive StoreError :=
| MergeThresholdIsZero
| ManifestFailure (e : ManifestError)
| FileFailure (e : DeltaError)
| MemoryFault            (** a read outside a mapping; excluded by the theorems *)
| MetadataMismatch (name : bytes)
| EmptyBatch
| CallbackNotConfigured
| CallbackFailed
| ChainChanged
| PrefixChanged
| ChainBusy.

Definition MetadataMatches (expected actual : PropertyDeltaFileMetadata) : bool :=
  bool_decide (target expected = target actual) &&
  (file_generation expected =? file_generation actual) &&
  (record_count expected =? record_count actual) &&
  (file_bytes expected =? file_bytes actual) &&
  (min_commit_sequence expected =? min_commit_sequence actual) &&
  (max_commit_sequence expected =? max_commit_sequence actual) &&
  (payload_checksum expected =? payload_checksum actual).

(** The compare-exchange loop of [AtomicMax], seen by its caller. *)
Definition AtomicMax (target candidate : Z) : Z :=
  if target <? candidate then candidate else target.

(** ** Read views *)
Record PropertyDeltaLookupCounters := mkCounters {
  lookups : Z;
  files_probed : Z;
  hits : Z;
  base_fallbacks : Z;
}.

(** A shared [PropertyDeltaFile]: its base name and the opened file.  Files of
    one store have distinct names, so the name stands for the pointer. *)
Record FileRef := mkRef {
  ref_name : bytes;
  ref_file : PropertyDeltaFile;
}.

Record PropertyDeltaReadView := mkView {
  merged_base : option bytes;
  deltas : list FileRef;
  view_generation : Z;
}.

Definition empty_view : PropertyDeltaReadView := mkView None [] 0.

Section ViewLookup.
Context (k : LogicalKey) (read_sequence : Z).

Definition file_lookup (f : PropertyDeltaFile) : option (option (bytes * Z)) :=
  File_Lookup f (k_src k) (k_dst k) (k_base_sequence k) (k_is_out k) (k_edge_type k) read_sequence.

(** One iteration: [best] is [found], [best_value] and [best_commit];
    [probed] counts the files that were searched. *)
Definition view_step (f : PropertyDeltaFile) (st : option (bytes * Z) * Z)
  : option (option (bytes * Z) * Z) :=
  let '(best, probed) := st in
  if (read_sequence <? min_commit_sequence (metadata_ f))
     || match best with
        | Some (_, best_commit) => max_commit_sequence (metadata_ f) <=? best_commit
        | None => false
        end
  then Some st
  else
    candidate ← file_lookup f;
    Some (match (candidate : option (bytes * Z)) with
          | Some (v, c) =>
              if match best with Some (_, best_commit) => best_commit <? c | None => true end
              then Some (v, c) else best
          | None => best
          end, probed + 1).

Fixpoint view_loop (fs : list FileRef) (st : option (bytes * Z) * Z)
  : option (option (bytes * Z) * Z) :=
  match fs with
  | [] => Some st
  | f :: fs => st' ← view_step (ref_file f) st; view_loop fs st'
  end.

(** [PropertyDeltaReadView::Lookup]: the result and the updated counters. *)
Definition ReadView_Lookup (v : PropertyDeltaReadView) (counters : PropertyDeltaLookupCounters)
  : option (option (bytes * Z) * PropertyDeltaLookupCounters) :=
  '(best, probed) ← view_loop (reverse (deltas v)) (None, 0);
  let bump (b : bool) n := if b then u64 (n + 1) else n in
  let found := match best with Some _ => true | None => false end in
  Some (best, mkCounters (u64 (lookups counters + 1)) (u64 (files_probed counters + probed))
                (bump found (hits counters)) (bump (negb found) (base_fallbacks counters))).
End ViewLookup.

(** ** Chains *)
Record Chain := mkChain {
  read_view : PropertyDeltaReadView;
  chain_persistent : bool;            (** [target_is_persistent] *)
  merge_scheduled_or_running : bool;
}.

Definition new_chain : Chain := mkChain empty_view false false.

(** The tail of the critical section of [Attach], after the manifest commit:
    publish the view and decide whether to schedule a merge. *)
Definition chain_attach (has_callback : bool) (merge_threshold : Z) (file : FileRef)
    (generation : Z) (c : Chain) : Chain * bool :=
  let old_view := read_view c in
  let view := mkView (merged_base old_view) (deltas old_view ++ [file])
                (Z.max (view_generation old_view) generation) in
  let schedule := has_callback && chain_persistent c && negb (merge_scheduled_or_running c)
                  && (merge_threshold <=? zlen (deltas old_view) + 1) in
  (mkChain view (chain_persistent c) (merge_scheduled_or_running c || schedule), schedule).

(** The critical section of [MarkTargetPersistent], after its manifest edits. *)
Definition chain_persist (has_callback : bool) (merge_threshold : Z) (c : Chain) : Chain * bool :=
  let schedule := has_callback && negb (merge_scheduled_or_running c)
                  && (merge_threshold <=? zlen (deltas (read_view c))) in
  (mkChain (read_view c) true (merge_scheduled_or_running c || schedule), schedule).

(** The first critical section of [MergeChain]: [None] is [return true]. *)
Definition chain_capture (merge_threshold : Z) (merge_all : bool) (c : Chain)
  : Chain * option (PropertyDeltaReadView * list FileRef) :=
  let captured := read_view c in
  if negb (chain_persistent c) || bool_decide (deltas captured = [])
     || (negb merge_all && (zlen (deltas captured) <? merge_threshold))
  then (mkChain (read_view c) (chain_persistent c) false, None)
  else
    let count := if merge_all then length (deltas captured) else Z.to_nat merge_threshold in
    (c, Some (captured, take count (deltas captured))).

(** [current->deltas[i] == batch[i]] for every file of the batch. *)
Fixpoint same_prefix (batch current : list FileRef) : bool :=
  match batch, current with
  | [], _ => true
  | b :: batch, x :: current =>
      bool_decide (ref_name b = ref_name x) && same_prefix batch current
  | _ :: _, [] => false
  end.

(** The second critical section of [MergeChain]: publish the merged base. *)
Definition chain_publish (merge_threshold : Z) (merge_all : bool) (batch : list FileRef)
    (merged : bytes) (output_generation : Z) (c : Chain) : result StoreError (Chain * bool) :=
  let current := read_view c in
  if zlen (deltas current) <? zlen batch then Err ChainChanged
  else if negb (same_prefix batch (deltas current)) then Err PrefixChanged
  else
    let next := mkView (Some merged) (drop (length batch) (deltas current)) output_generation in
    let schedule_next := negb merge_all && chain_persistent c
                         && (merge_threshold <=? zlen (deltas current) - zlen batch) in
    Ok (mkChain next (chain_persistent c) schedule_next, schedule_next).

(** ** The store *)
Definition MergeCallback : Type :=
  PropertyDeltaTarget -> option bytes -> list FileRef -> Z -> IO (option bytes).

Record StoreStats := mkStats {
  files_created : Z;
  files_recovered : Z;
  records_written : Z;
  bytes_written : Z;
  merges_started : Z;
  merges_completed : Z;
  merge_failures : Z;
}.

Record PropertyDeltaStore := mkStore {
  directory_ : bytes;
  pid_ : Z;                                  (** [getpid()] *)
  merge_threshold_ : Z;
  store_durability_ : DeltaDurability;
  merge_callback_ : option MergeCallback;
  manifest_ : PropertyDeltaManifest;
  registry_ : list (gmap PropertyDeltaTarget Chain);
  next_file_generation_ : Z;
  maximum_commit_sequence_ : Z;
  persistent_base_files_ : gset Z;
  jobs_ : list PropertyDeltaTarget;
  running_jobs_ : Z;
  background_error_ : option StoreError;
  stats_ : StoreStats;
}.

Definition has_callback (s : PropertyDeltaStore) : bool :=
  match merge_callback_ s with Some _ => true | None => false end.

(** Assignment to one field. *)
Definition set_manifest (s : PropertyDeltaStore) x : PropertyDeltaStore :=
  mkStore (directory_ s) (pid_ s) (merge_threshold_ s) (store_durability_ s) (merge_callback_ s)
    x (registry_ s) (next_file_generation_ s) (maximum_commit_sequence_ s)
    (persistent_base_files_ s) (jobs_ s) (running_jobs_ s) (background_error_ s) (stats_ s).
Definition set_registry (s : PropertyDeltaStore) x : PropertyDeltaStore :=
  mkStore (directory_ s) (pid_ s) (merge_threshold_ s) (store_durability_ s) (merge_callback_ s)
    (manifest_ s) x (next_file_generation_ s) (maximum_commit_sequence_ s)
    (persistent_base_files_ s) (jobs_ s) (running_jobs_ s) (background_error_ s) (stats_ s).
Definition set_generation (s : PropertyDeltaStore) x : PropertyDeltaStore :=
  mkStore (directory_ s) (pid_ s) (merge_threshold_ s) (store_durability_ s) (merge_callback_ s)
    (manifest_ s) (registry_ s) x (maximum_commit_sequence_ s)
    (persistent_base_files_ s) (jobs_ s) (running_jobs_ s) (background_error_ s) (stats_ s).
Definition set_max_commit (s : PropertyDeltaStore) x : PropertyDeltaStore :=
  mkStore (directory_ s) (pid_ s) (merge_threshold_ s) (store_durability_ s) (merge_callback_ s)
    (manifest_ s) (registry_ s) (next_file_generation_ s) x
    (persistent_base_files_ s) (jobs_ s) (running_jobs_ s) (background_error_ s) (stats_ s).
Definition set_persistent (s : PropertyDeltaStore) x : PropertyDeltaStore :=
  mkStore (directory_ s) (pid_ s) (merge_threshold_ s) (store_durability_ s) (merge_callback_ s)
    (manifest_ s) (registry_ s) (next_file_generation_ s) (maximum_commit_sequence_ s)
    x (jobs_ s) (running_jobs_ s) (background_error_ s) (stats_ s).
Definition set_jobs (s : PropertyDeltaStore) x n : PropertyDeltaStore :=
  mkStore (directory_ s) (pid_ s) (merge_threshold_ s) (store_durability_ s) (merge_callback_ s)
    (manifest_ s) (registry_ s) (next_file_generation_ s) (maximum_commit_sequence_ s)
    (persistent_base_files_ s) x n (background_error_ s) (stats_ s).
Definition set_stats (s : PropertyDeltaStore) x : PropertyDeltaStore :=
  mkStore (directory_ s) (pid_ s) (merge_threshold_ s) (store_durability_ s) (merge_callback_ s)
    (manifest_ s) (registry_ s) (next_file_generation_ s) (maximum_commit_sequence_ s)
    (persistent_base_files_ s) (jobs_ s) (running_jobs_ s) (background_error_ s) x.

(** [RecordBackgroundError]: only the first error is kept. *)
Definition RecordBackgroundError (s : PropertyDeltaStore) (e : StoreError) : PropertyDeltaStore :=
  mkStore (directory_ s) (pid_ s) (merge_threshold_ s) (store_durability_ s) (merge_callback_ s)
    (manifest_ s) (registry_ s) (next_file_generation_ s) (maximum_commit_sequence_ s)
    (persistent_base_files_ s) (jobs_ s) (running_jobs_ s)
    (match background_error_ s with Some e => Some e | None => Some e end) (stats_ s).

(** ** The registry: 64 hash buckets *)
Definition kRegistryBucketCount : nat := 64.

(** [std::hash] of the integers is a parameter: nothing depends on it. *)
Class StdHash := std_hash : Z -> Z.

Section Store.
Context `{StdHash}.

Definition hash_combine (hash v : Z) : Z :=
  Z.lxor hash (u64 (v + 11400714819323198485 + u64 (Z.shiftl hash 6) + Z.shiftr hash 2)).

Definition PropertyDeltaTargetHash (t : PropertyDeltaTarget) : Z :=
  let hash := u64 (std_hash (base_generation t)) in
  let hash := hash_combine hash (u64 (std_hash (kind_byte (kind t)))) in
  let hash := hash_combine hash (u64 (std_hash (shard_id t))) in
  let hash := hash_combine hash (u64 (std_hash (base_file_id t))) in
  hash_combine hash (u64 (std_hash (property_id t))).

Definition BucketIndex (t : PropertyDeltaTarget) : nat :=
  Z.to_nat (PropertyDeltaTargetHash t mod Z.of_nat kRegistryBucketCount).

Definition FindChain (s : PropertyDeltaStore) (t : PropertyDeltaTarget) : option Chain :=
  bucket ← registry_ s !! BucketIndex t; (bucket : gmap PropertyDeltaTarget Chain) !! t.

(** Mutation of the chain object a pointer from the registry refers to. *)
Definition put_chain (s : PropertyDeltaStore) (t : PropertyDeltaTarget) (c : Chain)
  : PropertyDeltaStore :=
  set_registry s (alter (<[t := c]>) (BucketIndex t) (registry_ s)).

Definition GetOrCreateChain (s : PropertyDeltaStore) (t : PropertyDeltaTarget)
    (target_is_persistent : bool) : PropertyDeltaStore * Chain :=
  let target_is_persistent :=
    target_is_persistent || bool_decide (base_file_id t ∈ persistent_base_files_ s) in
  let c := match FindChain s t with Some c => c | None => new_chain end in
  let c := if target_is_persistent
           then mkChain (read_view c) true (merge_scheduled_or_running c) else c in
  (put_chain s t c, c).

Definition ReadView (s : PropertyDeltaStore) (t : PropertyDeltaTarget)
  : option PropertyDeltaReadView := read_view <$> FindChain s t.

Definition ScheduleMerge (s : PropertyDeltaStore) (t : PropertyDeltaTarget) : PropertyDeltaStore :=
  let st := stats_ s in
  set_stats (set_jobs s (jobs_ s ++ [t]) (running_jobs_ s))
    (mkStats (files_created st) (files_recovered st) (records_written st) (bytes_written st)
       (u64 (merges_started st + 1)) (merges_completed st) (merge_failures st)).

Definition schedule_if (b : bool) (s : PropertyDeltaStore) (t : PropertyDeltaTarget)
  : PropertyDeltaStore := if b then ScheduleMerge s t else s.

(** ** [Attach] *)
Definition attach_stats (st : StoreStats) (m : PropertyDeltaFileMetadata) : StoreStats :=
  mkStats (u64 (files_created st + 1)) (files_recovered st)
    (u64 (records_written st + record_count m)) (u64 (bytes_written st + file_bytes m))
    (merges_started st) (merges_completed st) (merge_failures st).

Definition Attach (s : PropertyDeltaStore) (t : PropertyDeltaTarget)
    (records : list PropertyDeltaRecord) (target_is_persistent : bool)
  : IO (result StoreError unit * PropertyDeltaStore) :=
  if bool_decide (records = []) then io_ret (Err EmptyBatch, s)
  else
    let '(s, _) := GetOrCreateChain s t target_is_persistent in
    let generation := next_file_generation_ s in
    let s := set_generation s (u64 (generation + 1)) in
    let name := DeltaFileName t generation in
    let path := child (directory_ s) name in
    let* created := PropertyDeltaFile_Create path (TemporaryName path (pid_ s) generation) t
                      generation records (store_durability_ s) in
    match created with
    | None => io_ret (Err MemoryFault, s)
    | Some (Err e) => io_ret (Err (FileFailure e), s)
    | Some (Ok file) =>
        let c := default new_chain (FindChain s t) in
        let entry := mkEntry name (metadata_ file) (chain_persistent c) in
        let* appended := AppendAdd (manifest_ s) entry in
        match appended with
        | Err e =>
            (* [file->MarkObsolete()], and the last reference goes away *)
            let* _ := sys_unlink path in
            io_ret (Err (ManifestFailure e), s)
        | Ok manifest =>
            let '(c, schedule) :=
              chain_attach (has_callback s) (merge_threshold_ s) (mkRef name file) generation c in
            let s := put_chain (set_manifest s manifest) t c in
            let s := set_stats s (attach_stats (stats_ s) (metadata_ file)) in
            let s := set_max_commit s
                       (AtomicMax (maximum_commit_sequence_ s) (max_commit_sequence (metadata_ file))) in
            io_ret (Ok tt, schedule_if schedule s t)
        end
    end.

(** ** [MarkTargetPersistent] *)
Fixpoint mark_files (m : PropertyDeltaManifest) (fs : list FileRef)
  : IO (result ManifestError unit * PropertyDeltaManifest) :=
  match fs with
  | [] => io_ret (Ok tt, m)
  | f :: fs =>
      let* r := AppendAdd m (mkEntry (ref_name f) (metadata_ (ref_file f)) true) in
      match r with
      | Err e => io_ret (Err e, m)
      | Ok m' => mark_files m' fs
      end
  end.

Definition MarkTargetPersistent (s : PropertyDeltaStore) (t : PropertyDeltaTarget)
  : IO (result StoreError unit * PropertyDeltaStore) :=
  let s := set_persistent s ({[ base_file_id t ]} ∪ persistent_base_files_ s) in
  match FindChain s t with
  | None => io_ret (Ok tt, s)
  | Some c =>
      let* marked := mark_files (manifest_ s)
                       (if chain_persistent c then [] else deltas (read_view c)) in
      let '(r, manifest) := marked in
      let s := set_manifest s manifest in
      match r with
      | Err e => io_ret (Err (ManifestFailure e), RecordBackgroundError s (ManifestFailure e))
      | Ok _ =>
          let '(c, schedule) := chain_persist (has_callback s) (merge_threshold_ s) c in
          io_ret (Ok tt, schedule_if schedule (put_chain s t c) t)
      end
  end.

(** ** [MergeChain] *)
Definition MergeChain (s : PropertyDeltaStore) (t : PropertyDeltaTarget) (merge_all : bool)
  : IO (result StoreError unit * PropertyDeltaStore) :=
  match FindChain s t, merge_callback_ s with
  | Some c, Some callback =>
      let '(c, captured) := chain_capture (merge_threshold_ s) merge_all c in
      let s := put_chain s t c in
      match captured with
      | None => io_ret (Ok tt, s)
      | Some (view, batch) =>
          let output_generation := next_file_generation_ s in
          let s := set_generation s (u64 (output_generation + 1)) in
          let* merged := callback t (merged_base view) batch output_generation in
          match merged with
          | None => io_ret (Err CallbackFailed, s)
          | Some merged =>
              let* removed := AppendRemove (manifest_ s) (map ref_name batch) in
              match removed with
              | Err e => io_ret (Err (ManifestFailure e), s)
              | Ok manifest =>
                  let s := set_manifest s manifest in
                  let current := default new_chain (FindChain s t) in
                  match chain_publish (merge_threshold_ s) merge_all batch merged
                          output_generation current with
                  | Err e => io_ret (Err e, s)
                  | Ok (c, schedule_next) =>
                      let s := put_chain s t c in
                      let st := stats_ s in
                      let s := set_stats s
                        (mkStats (files_created st) (files_recovered st) (records_written st)
                           (bytes_written st) (merges_started st)
                           (u64 (merges_completed st + 1)) (merge_failures st)) in
                      io_ret (Ok tt, schedule_if schedule_next s t)
                  end
              end
          end
      end
  | _, _ => io_ret (Err CallbackNotConfigured, s)
  end.

Definition set_busy (s : PropertyDeltaStore) (t : PropertyDeltaTarget) (b : bool)
  : PropertyDeltaStore :=
  match FindChain s t with
  | Some c => put_chain s t (mkChain (read_view c) (chain_persistent c) b)
  | None => s
  end.

(** ** One iteration of [WorkerMain]; [None] is a worker that has to wait. *)
Definition WorkerStep (s : PropertyDeltaStore) : option (IO PropertyDeltaStore) :=
  match jobs_ s with
  | [] => None
  | t :: rest => Some (
      let s := set_jobs s rest (running_jobs_ s + 1) in
      let* merged := MergeChain s t false in
      let '(r, s) := merged in
      let s := match r with
               | Ok _ => s
               | Err e =>
                   let st := stats_ s in
                   let s := set_stats s
                     (mkStats (files_created st) (files_recovered st) (records_written st)
                        (bytes_written st) (merges_started st) (merges_completed st)
                        (u64 (merge_failures st + 1))) in
                   set_busy (RecordBackgroundError s e) t false
               end in
      io_ret (set_jobs s (jobs_ s) (running_jobs_ s - 1)))
  end.

(** ** Synchronous draining: the chains are snapshotted first. *)
Definition chains_of (s : PropertyDeltaStore) : list PropertyDeltaTarget :=
  concat (map (fun b : gmap PropertyDeltaTarget Chain => (map_to_list b).*1) (registry_ s)).

(** The guard of [WaitForIdle]; the caller blocks while it is false. *)
Definition is_idle (s : PropertyDeltaStore) : bool :=
  bool_decide (jobs_ s = []) && (running_jobs_ s =? 0).

Definition WaitForIdle (s : PropertyDeltaStore) : result StoreError unit :=
  match background_error_ s with Some e => Err e | None => Ok tt end.

Fixpoint merge_all_loop (needs_merge : Chain -> bool) (ts : list PropertyDeltaTarget)
    (s : PropertyDeltaStore) : IO (result StoreError unit * PropertyDeltaStore) :=
  match ts with
  | [] => io_ret (Ok tt, s)
  | t :: ts =>
      let c := default new_chain (FindChain s t) in
      if negb (needs_merge c) then merge_all_loop needs_merge ts s
      else if merge_scheduled_or_running c then io_ret (Err ChainBusy, s)
      else
        let s := set_busy s t true in
        let* merged := MergeChain s t true in
        let '(r, s) := merged in
        match r with
        | Err e => io_ret (Err e, set_busy s t false)
        | Ok _ => merge_all_loop needs_merge ts s
        end
  end.

Definition MergeAllForBaseFiles (s : PropertyDeltaStore) (base_file_ids : list Z)
  : IO (result StoreError unit * PropertyDeltaStore) :=
  match WaitForIdle s with
  | Err e => io_ret (Err e, s)
  | Ok _ =>
      let selected := filter (fun t => base_file_id t ∈ base_file_ids) (chains_of s) in
      merge_all_loop (fun _ => true) selected s
  end.

Definition MergeAllPersistent (s : PropertyDeltaStore)
  : IO (result StoreError unit * PropertyDeltaStore) :=
  match WaitForIdle s with
  | Err e => io_ret (Err e, s)
  | Ok _ =>
      merge_all_loop
        (fun c => chain_persistent c && negb (bool_decide (deltas (read_view c) = [])))
        (chains_of s) s
  end.

(** ** Recovery *)
Record RecoverAcc := mkAcc {
  acc_store : PropertyDeltaStore;
  maximum_generation : Z;
  abandoned_entries : list bytes;
  promoted_entries : list PropertyDeltaManifestEntry;
}.

Definition base_path (directory : bytes) (file_id : Z) : bytes :=
  child (parent_path directory) (to_string file_id ++ str ".sst").

Definition generation_less (lhs rhs : FileRef) : bool :=
  file_generation (metadata_ (ref_file lhs)) <? file_generation (metadata_ (ref_file rhs)).

(** The end of an iteration: the file joins its chain, in generation order. *)
Definition recover_attach (s : PropertyDeltaStore) (entry : PropertyDeltaManifestEntry)
    (file : PropertyDeltaFile) : PropertyDeltaStore :=
  let t := target (metadata entry) in
  let '(s, c) := GetOrCreateChain s t (target_is_persistent entry) in
  let old_view := read_view c in
  let view := mkView (merged_base old_view)
    (stable_sort generation_less (deltas old_view ++ [mkRef (file_name entry) file]))
    (Z.max (view_generation old_view) (file_generation (metadata entry))) in
  let s := put_chain s t (mkChain view (chain_persistent c) (merge_scheduled_or_running c)) in
  let s := set_max_commit s
             (AtomicMax (maximum_commit_sequence_ s) (max_commit_sequence (metadata entry))) in
  let st := stats_ s in
  set_stats s (mkStats (files_created st) (u64 (files_recovered st + 1)) (records_written st)
    (bytes_written st) (merges_started st) (merges_completed st) (merge_failures st)).

(** One iteration of the loop over the active entries. *)
Definition recover_entry (acc : RecoverAcc) (entry : PropertyDeltaManifestEntry)
  : IO (result StoreError RecoverAcc) :=
  let s := acc_store acc in
  let maximum_generation := Z.max (maximum_generation acc) (file_generation (metadata entry)) in
  let* fs := get_files in
  let exists_ := bool_decide (is_Some
    (fs !! base_path (directory_ s) (base_file_id (target (metadata entry))))) in
  if negb (target_is_persistent entry) && negb exists_ then
    io_ret (Ok (mkAcc s maximum_generation (abandoned_entries acc ++ [file_name entry])
                  (promoted_entries acc)))
  else
    let promoted := mkEntry (file_name entry) (metadata entry) true in
    let promoted_entries := if target_is_persistent entry then promoted_entries acc
                            else promoted_entries acc ++ [promoted] in
    let* opened := PropertyDeltaFile_Open (child (directory_ s) (file_name entry)) in
    match opened with
    | None => io_ret (Err MemoryFault)
    | Some (Err e) => io_ret (Err (FileFailure e))
    | Some (Ok file) =>
        if negb (MetadataMatches (metadata entry) (metadata_ file))
        then io_ret (Err (MetadataMismatch (file_name entry)))
        else io_ret (Ok (mkAcc (recover_attach s promoted file) maximum_generation
                           (abandoned_entries acc) promoted_entries))
    end.

Fixpoint recover_entries (acc : RecoverAcc) (entries : list PropertyDeltaManifestEntry)
  : IO (result StoreError RecoverAcc) :=
  match entries with
  | [] => io_ret (Ok acc)
  | entry :: entries =>
      let* r := recover_entry acc entry in
      match r with
      | Err e => io_ret (Err e)
      | Ok acc => recover_entries acc entries
      end
  end.

Fixpoint append_all (m : PropertyDeltaManifest) (entries : list PropertyDeltaManifestEntry)
  : IO (result ManifestError PropertyDeltaManifest) :=
  match entries with
  | [] => io_ret (Ok m)
  | entry :: entries =>
      let* r := AppendAdd m entry in
      match r with
      | Err e => io_ret (Err e)
      | Ok m => append_all m entries
      end
  end.

Fixpoint unlink_all (paths : list bytes) : IO unit :=
  match paths with
  | [] => io_ret tt
  | p :: paths => let* _ := sys_unlink p in unlink_all paths
  end.

(** The name of a file directly inside a directory. *)
Definition name_in (directory path : bytes) : option bytes :=
  let prefix := directory ++ str "/" in
  if bool_decide (take (length prefix) path = prefix)
     && no_separator (drop (length prefix) path)
  then Some (drop (length prefix) path) else None.

(** [name.find(needle) != npos] *)
Fixpoint contains (needle name : bytes) : bool :=
  bool_decide (take (length needle) name = needle)
  || match name with [] => false | _ :: rest => contains needle rest end.

Definition is_orphan (active : list bytes) (name : bytes) : bool :=
  let is_delta := bool_decide (take 6 name = str "delta-") && contains (str ".rgd") name in
  let is_temporary := contains (str ".tmp.") name in
  (is_delta && negb (bool_decide (name ∈ active))) || is_temporary.

Definition orphan_path (active : list bytes) (directory path : bytes) : bool :=
  match name_in directory path with Some name => is_orphan active name | None => false end.

Definition RemoveOrphanFiles (s : PropertyDeltaStore) : IO unit :=
  let active := map file_name (ActiveEntries (manifest_ s)) in
  let* fs := get_files in
  unlink_all (filter (fun p => orphan_path active (directory_ s) p = true) (map_to_list fs).*1).

(** The final loop of [OpenAndRecover]. *)
Definition schedule_recovered (s : PropertyDeltaStore) : PropertyDeltaStore :=
  foldl (fun s t =>
    match FindChain s t with
    | Some c =>
        if has_callback s && chain_persistent c
           && (merge_threshold_ s <=? zlen (deltas (read_view c)))
        then ScheduleMerge (put_chain s t (mkChain (read_view c) (chain_persistent c) true)) t
        else s
    | None => s
    end) s (chains_of s).

Definition Store_Open (directory : bytes) (pid merge_threshold : Z) (durability : DeltaDurability)
    (merge_callback : option MergeCallback)
  : IO (result StoreError PropertyDeltaStore) :=
  if merge_threshold =? 0 then io_ret (Err MergeThresholdIsZero)
  else
    let* opened := Manifest_Open (child directory (str "MANIFEST")) durability in
    match opened with
    | Err e => io_ret (Err (ManifestFailure e))
    | Ok manifest =>
        let s := mkStore directory pid merge_threshold durability merge_callback manifest
          (replicate kRegistryBucketCount ∅) 1 0 ∅ [] 0 None (mkStats 0 0 0 0 0 0 0) in
        let* recovered := recover_entries (mkAcc s 0 [] []) (ActiveEntries manifest) in
        match recovered with
        | Err e => io_ret (Err e)
        | Ok acc =>
            let s := acc_store acc in
            let* promoted := append_all (manifest_ s) (promoted_entries acc) in
            match promoted with
            | Err e => io_ret (Err (ManifestFailure e))
            | Ok manifest =>
                let* removed := AppendRemove manifest (abandoned_entries acc) in
                match removed with
                | Err e => io_ret (Err (ManifestFailure e))
                | Ok manifest =>
                    let* _ := unlink_all (map (child directory) (abandoned_entries acc)) in
                    let s := set_generation (set_manifest s manifest)
                               (u64 (maximum_generation acc + 1)) in
                    let* _ := RemoveOrphanFiles s in
                    io_ret (Ok (schedule_recovered s))
                end
            end
        end
    end.

(** [Stats]: the registry part. *)
Definition chain_stats (s : PropertyDeltaStore) : Z * Z * Z :=
  foldl (fun '(chain_count, visible_files, max_chain_length) t =>
           let length := zlen (deltas (default empty_view (ReadView s t))) in
           (chain_count + 1, visible_files + length, Z.max max_chain_length length))
    (0, 0, 0) (chains_of s).
End Store.
