(* ===== verification/DeltaStoreFacts.v ===== *)
(** * Theorems about the property-delta store

    The hash-bucketed registry behaves like one map, a read view answers like
    the abstract specification over all its files, and attaching a batch
    changes exactly the chain it is attached to. *)

From S2P Require Import Prelude.
From S2P Require Import Types.
From S2P Require Import Checksum.
From S2P Require Import Posix.
From S2P Require Import DeltaFile.
From S2P Require Import DeltaSpec.
From S2P Require Import DeltaFileFacts.
From S2P Require Import DeltaFileCreate.
From S2P Require Import DeltaFileTheorems.
From S2P Require Import DeltaManifest.
From S2P Require Import DeltaManifestFacts.
From S2P Require Import Names.
From S2P Require Import DeltaStore.

(** ** The interface of a versioned property layer

    A layer answers reads of a logical key at a commit sequence, and promises
    that the answer is the newest visible one of the writes it holds. *)
Class VersionedRead (A : Type) := {
  vr_read : A -> LogicalKey -> Z -> option (option (bytes * Z));
  vr_writes : A -> list PropertyDeltaRecord -> Prop;
  vr_correct : forall a ws k rs,
    vr_writes a ws -> vr_read a k rs = Some (observe <$> newest_visible k rs ws);
}.

#[export] Program Instance PropertyDeltaFile_read : VersionedRead PropertyDeltaFile := {|
  vr_read f k rs := lookup_at f k rs;
  vr_writes f ws := exists t g, holds f t g ws;
|}.
Next Obligation. intros f ws k rs (t & g & H). apply H. Qed.

(** ** Newest version across layers *)
Definition newer (older newest : option PropertyDeltaRecord) : option PropertyDeltaRecord :=
  match newest, older with
  | Some r, Some o => if commit_sequence o <=? commit_sequence r then Some r else Some o
  | Some r, None => Some r
  | None, o => o
  end.

Lemma newest_visible_app k rs l l' :
  newest_visible k rs (l ++ l') = newer (newest_visible k rs l) (newest_visible k rs l').
Proof.
  unfold newest_visible. rewrite foldl_app. generalize (foldl (newest_step k rs) None l) as o.
  induction l' as [|r l' IH] using rev_ind; intros o; [by destruct o|].
  rewrite !foldl_snoc, IH. generalize (foldl (newest_step k rs) None l') as n. intros n.
  unfold newest_step. case_decide; [|done].
  destruct o as [o|], n as [n|]; simpl; try done.
  - destruct (Z.leb_spec (commit_sequence o) (commit_sequence n));
      destruct (Z.leb_spec (commit_sequence n) (commit_sequence r)); simpl;
      repeat case_match; rewrite ?Z.leb_le, ?Z.leb_gt in *; try done; lia.
  - by destruct (_ <=? _).
Qed.

(** ** Read views *)
Definition ref_holds (f : FileRef) (batch : list PropertyDeltaRecord) : Prop :=
  exists t g, holds (ref_file f) t g batch.

Definition chain_repr (fs : list FileRef) (batches : list (list PropertyDeltaRecord)) : Prop :=
  Forall2 ref_holds fs batches.

Section ViewFacts.
Context (k : LogicalKey) (rs : Z).

(** Adding an older file in front of the files already searched. *)
Lemma view_step_correct f batch newest probed :
  ref_holds f batch ->
  (forall r, newest = Some r -> visible k rs r) ->
  exists probed', view_step k rs (ref_file f) (observe <$> newest, probed) =
    Some (observe <$> newer (newest_visible k rs batch) newest, probed').
Proof.
  intros (t & g & H) Hn. unfold view_step.
  destruct (Z.ltb_spec rs (min_commit_sequence (metadata_ (ref_file f)))) as [Hmin|Hmin].
  { assert (newest_visible k rs batch = None) as ->.
    { apply newest_visible_None. intros r Hr [_ Hv]. pose proof (holds_min _ _ _ _ H r Hr). lia. }
    exists probed. by destruct newest. }
  assert (file_lookup k rs (ref_file f) = Some (observe <$> newest_visible k rs batch)) as El
    by apply (holds_lookup _ _ _ _ H k rs).
  destruct newest as [n|]; simpl.
  - destruct (Z.leb_spec (max_commit_sequence (metadata_ (ref_file f))) (commit_sequence n)) as [Hmax|Hmax]; simpl.
    + exists probed. destruct (newest_visible k rs batch) as [r|] eqn:E; simpl; [|done].
      apply newest_visible_Some in E as [_ Hr]. pose proof (holds_max _ _ _ _ H r Hr).
      by rewrite (proj2 (Z.leb_le _ _)) by lia.
    + exists (probed + 1). rewrite El. simpl.
      destruct (newest_visible k rs batch) as [r|]; simpl; [|done].
      destruct (Z.ltb_spec (commit_sequence n) (commit_sequence r)), (Z.leb_spec (commit_sequence r) (commit_sequence n));
        try lia; done.
  - exists (probed + 1). rewrite El. simpl. by destruct (newest_visible k rs batch).
Qed.

Lemma newer_visible batch newest :
  (forall r, newest = Some r -> visible k rs r) ->
  forall r, newer (newest_visible k rs batch) newest = Some r -> visible k rs r.
Proof.
  intros Hn r. destruct newest as [n|], (newest_visible k rs batch) as [b|] eqn:E; simpl.
  - destruct (_ <=? _); intros [= <-]; [by apply Hn|]. by apply newest_visible_Some in E as [? _].
  - intros [= <-]. by apply Hn.
  - intros [= <-]. by apply newest_visible_Some in E as [? _].
  - done.
Qed.

Lemma newer_assoc a b c : newer (newer a b) c = newer a (newer b c).
Proof.
  destruct a, b, c; simpl; repeat case_match; simplify_eq; rewrite ?Z.leb_le, ?Z.leb_gt in *; simpl in *;
    repeat case_match; simplify_eq; rewrite ?Z.leb_le, ?Z.leb_gt in *; try done; try lia.
Qed.

Lemma view_loop_correct fs batches newest probed :
  Forall2 ref_holds fs batches -> (forall r, newest = Some r -> visible k rs r) ->
  exists probed', view_loop k rs fs (observe <$> newest, probed) =
    Some (observe <$> newer (newest_visible k rs (concat (reverse batches))) newest, probed').
Proof.
  intros H. revert newest probed. induction H as [|f b fs batches Hf _ IH]; intros newest probed Hn.
  - exists probed. by destruct newest.
  - cbn [view_loop]. destruct (view_step_correct f b newest probed Hf Hn) as [p ->].
    simpl_bind.
    destruct (IH (newer (newest_visible k rs b) newest) p) as [p' ->]; [by apply newer_visible|].
    exists p'. do 3 f_equal. rewrite reverse_cons, concat_app, newest_visible_app.
    cbn [concat]. by rewrite app_nil_r, newer_assoc.
Qed.

Lemma ReadView_Lookup_correct v counters batches :
  chain_repr (deltas v) batches ->
  exists counters', ReadView_Lookup k rs v counters =
    Some (observe <$> newest_visible k rs (concat batches), counters').
Proof.
  intros H. unfold ReadView_Lookup.
  destruct (view_loop_correct (reverse (deltas v)) (reverse batches) None 0) as [p E].
  { by apply Forall2_reverse. } { done. }
  simpl in E. rewrite E. simpl_bind. rewrite reverse_involutive. by eexists.
Qed.
End ViewFacts.

#[export] Program Instance PropertyDeltaReadView_read : VersionedRead PropertyDeltaReadView := {|
  vr_read v k rs := fst <$> ReadView_Lookup k rs v (mkCounters 0 0 0 0);
  vr_writes v ws := exists batches, chain_repr (deltas v) batches /\ ws = concat batches;
|}.
Next Obligation.
  intros v ws k rs (batches & H & ->).
  by destruct (ReadView_Lookup_correct k rs v (mkCounters 0 0 0 0) batches H) as [c ->].
Qed.

(** ** The registry *)
Section Registry.
Context `{StdHash}.
Implicit Types s : PropertyDeltaStore.

Definition registry_wf s : Prop := length (registry_ s) = kRegistryBucketCount.

Lemma BucketIndex_lt t : (BucketIndex t < kRegistryBucketCount)%nat.
Proof.
  unfold BucketIndex. pose proof (Z.mod_pos_bound (PropertyDeltaTargetHash t) 64 ltac:(lia)).
  unfold kRegistryBucketCount in *. lia.
Qed.

Lemma put_chain_wf s t c : registry_wf s -> registry_wf (put_chain s t c).
Proof. unfold registry_wf, put_chain. simpl. by rewrite length_alter. Qed.

Lemma FindChain_put s t c t' :
  registry_wf s -> FindChain (put_chain s t c) t' = if decide (t' = t) then Some c else FindChain s t'.
Proof.
  intros Hw. unfold FindChain, put_chain. cbn [registry_ set_registry].
  destruct (lookup_lt_is_Some_2 (registry_ s) (BucketIndex t)) as [b Hb].
  { rewrite Hw. apply BucketIndex_lt. }
  destruct (decide (BucketIndex t' = BucketIndex t)) as [E|E].
  - rewrite E, list_lookup_alter_eq, Hb. simpl. case_decide as Et.
    + subst. by rewrite lookup_insert_eq.
    + by rewrite lookup_insert_ne.
  - rewrite list_lookup_alter_ne by done. case_decide as Et; [by subst|done].
Qed.
End Registry.

(** ** What a store holds: the batches attached to each target *)
Definition contents : Type := PropertyDeltaTarget -> list (list PropertyDeltaRecord).

Definition attach_to (M : contents) (t : PropertyDeltaTarget) (batch : list PropertyDeltaRecord)
  : contents := fun t' => if decide (t' = t) then M t ++ [batch] else M t'.

Section StoreRepr.
Context `{StdHash}.
Implicit Types (s : PropertyDeltaStore) (M : contents).

Definition view_repr (o : option Chain) (batches : list (list PropertyDeltaRecord)) : Prop :=
  match o with
  | Some c => chain_repr (deltas (read_view c)) batches
  | None => batches = []
  end.

Record store_repr s M : Prop := {
  sr_wf : registry_wf s;
  sr_chains : forall t, view_repr (FindChain s t) (M t);
}.

(** What a reader of the store observes. *)
Definition store_lookup s (t : PropertyDeltaTarget) (k : LogicalKey) (rs : Z)
  : option (option (bytes * Z)) :=
  match ReadView s t with
  | Some v => vr_read v k rs
  | None => Some None
  end.

Lemma store_lookup_correct s M t k rs :
  store_repr s M -> store_lookup s t k rs = Some (observe <$> newest_visible k rs (concat (M t))).
Proof.
  intros [Hw Hc]. specialize (Hc t). unfold store_lookup, ReadView.
  destruct (FindChain s t) as [c|]; cbn [fmap option_fmap option_map view_repr] in *; [|by rewrite Hc].
  apply vr_correct. by exists (M t).
Qed.

(** Updates that do not touch the registry. *)
Lemma store_repr_same s s' M :
  registry_ s' = registry_ s -> store_repr s M -> store_repr s' M.
Proof.
  intros E [Hw Hc]. unfold registry_wf, FindChain in *. split.
  - unfold registry_wf. by rewrite E.
  - unfold FindChain. by rewrite E.
Qed.

Lemma put_chain_repr s M t c batches :
  store_repr s M -> chain_repr (deltas (read_view c)) batches ->
  store_repr (put_chain s t c) (fun t' => if decide (t' = t) then batches else M t').
Proof.
  intros [Hw Hc] Hb. split; [by apply put_chain_wf|].
  intros t'. rewrite FindChain_put by done. case_decide; [done|apply Hc].
Qed.

(** Replacing a chain by one with the same files. *)
Lemma put_chain_repr_same s M t c :
  store_repr s M -> chain_repr (deltas (read_view c)) (M t) -> store_repr (put_chain s t c) M.
Proof.
  intros Hs Hb. destruct (put_chain_repr s M t c (M t) Hs Hb) as [Hw Hc]. split; [done|].
  intros t'. specialize (Hc t'). simpl in Hc. case_decide; by subst.
Qed.

Lemma GetOrCreateChain_repr s M t p s' c :
  GetOrCreateChain s t p = (s', c) -> store_repr s M ->
  store_repr s' M /\ FindChain s' t = Some c /\ chain_repr (deltas (read_view c)) (M t) /\
  manifest_ s' = manifest_ s /\ directory_ s' = directory_ s /\ pid_ s' = pid_ s /\
  store_durability_ s' = store_durability_ s /\
  next_file_generation_ s' = next_file_generation_ s.
Proof.
  unfold GetOrCreateChain. set (c0 := match FindChain s t with Some c => c | None => new_chain end).
  set (c1 := if p || _ then _ else c0). intros [= <- <-] Hs.
  assert (chain_repr (deltas (read_view c1)) (M t)) as Hc.
  { pose proof (sr_chains _ _ Hs t) as Hv.
    assert (deltas (read_view c1) = deltas (read_view c0)) as -> by (subst c1; by destruct (_ || _)).
    subst c0. destruct (FindChain s t); simpl in *; [done|]. rewrite Hv. constructor. }
  split_and!; try done.
  - by apply put_chain_repr_same.
  - rewrite FindChain_put by apply Hs. by rewrite decide_True.
Qed.

Lemma chain_attach_repr cb th f g c c' b batches batch :
  chain_attach cb th f g c = (c', b) -> chain_repr (deltas (read_view c)) batches ->
  ref_holds f batch -> chain_repr (deltas (read_view c')) (batches ++ [batch]).
Proof.
  unfold chain_attach. intros [= <- <-] Hc Hf. simpl. apply Forall2_app; [done|]. by repeat constructor.
Qed.

Lemma TemporaryName_ne path pid g : path <> TemporaryName path pid g.
Proof.
  unfold TemporaryName. intros E. apply (f_equal length) in E. rewrite !length_app in E.
  change (length (str ".tmp.")) with 5%nat in E. lia.
Qed.

(** The postcondition of [Attach]. *)
Definition attach_post M t records (r : result StoreError unit * PropertyDeltaStore) : Prop :=
  match r.1 with
  | Ok _ => store_repr r.2 (attach_to M t records)
  | Err _ => store_repr r.2 M
  end.

Lemma attach_to_put M t records s c :
  store_repr s M -> chain_repr (deltas (read_view c)) (M t ++ [records]) ->
  store_repr (put_chain s t c) (attach_to M t records).
Proof. intros. by apply put_chain_repr. Qed.

Lemma wp_AppendAdd m e fs :
  wp (AppendAdd m e) (fun _ _ => True) (fun _ => True) fs.
Proof.
  intros s. by destruct (AppendAdd m e (mkWorld fs s)) as [[]].
Qed.

Context (records : list PropertyDeltaRecord) (t : PropertyDeltaTarget).
Context (Hrec : Forall record_ok records) (Ht : target_ok t).

(** The end of a successful [Attach]. *)
Lemma attach_finish s M name file g manifest c' b :
  store_repr s M -> holds file t g records ->
  chain_attach (has_callback s) (merge_threshold_ s) (mkRef name file) g
    (default new_chain (FindChain s t)) = (c', b) ->
  store_repr
    (schedule_if b
       (set_max_commit
          (set_stats (put_chain (set_manifest s manifest) t c')
             (attach_stats (stats_ (put_chain (set_manifest s manifest) t c')) (metadata_ file)))
          (AtomicMax (maximum_commit_sequence_
                        (set_stats (put_chain (set_manifest s manifest) t c')
                           (attach_stats (stats_ (put_chain (set_manifest s manifest) t c')) (metadata_ file))))
             (max_commit_sequence (metadata_ file)))) t)
    (attach_to M t records).
Proof.
  intros Hs Hf Ea.
  apply (store_repr_same (put_chain (set_manifest s manifest) t c')); [by destruct b|].
  apply attach_to_put; [by apply (store_repr_same s)|].
  eapply chain_attach_repr; [exact Ea| |by exists t, g].
  pose proof (sr_chains _ _ Hs t) as Hv. destruct (FindChain s t); simpl in *; [done|].
  rewrite Hv. constructor.
Qed.

Lemma wp_Attach s M p fs :
  store_repr s M -> fits 64 (next_file_generation_ s) ->
  (forall i, BuildImage t (next_file_generation_ s) records = Ok i -> fits 64 (zlen (image_bytes i))) ->
  wp (Attach s t records p) (fun r _ => attach_post M t records r) (fun _ => True) fs.
Proof.
  intros Hs Hg Hsz. unfold Attach. case_bool_decide as He; [by wp_step|].
  destruct (GetOrCreateChain s t p) as [s1 c1] eqn:E1.
  destruct (GetOrCreateChain_repr _ _ _ _ _ _ E1 Hs) as (Hs1 & Hf1 & Hc1 & Hm1 & Hd1 & Hp1 & Hu1 & Hg1).
  rewrite <- Hg1 in Hg, Hsz. cbv zeta.
  wp_step. eapply wp_mono; [apply wp_Create, TemporaryName_ne| |done].
  intros r fs1 [_ Hr].
  assert (store_repr (set_generation s1 (u64 (next_file_generation_ s1 + 1))) M) as Hs2
    by by apply (store_repr_same s1).
  destruct r as [[f|e]|]; [|by wp_step|by wp_step].
  destruct (Hr f eq_refl) as (i & Hi & _ & Hv).
  destruct (BuildImage_holds _ _ _ _ Hi Hrec Ht Hg (Hsz i Hi)) as (f' & Hv' & _ & Hh).
  rewrite Hv in Hv'. injection Hv' as <-.
  wp_step. eapply wp_mono; [apply wp_AppendAdd| |done]. intros [manifest|e] fs2 _.
  - destruct (chain_attach _ _ _ _ _) as [c' b] eqn:Ea. wp_step. by eapply attach_finish.
  - wp_step. wp_step; [by wp_step|by wp_step|done].
Qed.
End StoreRepr.
