(* ===== verification/DeltaStoreSteps.v ===== *)
(** * Concurrent attach, handoff and merge

    Attachments, persistence handoffs, the merge worker and synchronous
    merges interleave at the granularity of the chain mutex.  The steps are
    built from the critical sections of [DeltaStore]; a merge is in flight
    between its two critical sections while other threads keep attaching.

    Two ghost histories per target, the files ever attached and the files
    consumed by published merges, state that nothing is lost or merged twice. *)

From S2P Require Import Prelude.
From S2P Require Import Types.
From S2P Require Import Checksum.
From S2P Require Import Posix.
From S2P Require Import DeltaFile.
From S2P Require Import DeltaManifest.
From S2P Require Import Names.
From S2P Require Import DeltaStore.

(** A merge in flight: popped from the queue (or started synchronously), and
    then with the batch captured under the chain mutex. *)
Inductive Stage :=
| Popped
| Captured (batch : list FileRef).

Record Run := mkRun {
  run_target : PropertyDeltaTarget;
  run_all : bool;               (** [merge_all] *)
  run_stage : Stage;
}.

Record CState := mkCState {
  cs_chains : gmap PropertyDeltaTarget Chain;
  cs_jobs : list PropertyDeltaTarget;
  cs_runs : list Run;
  cs_attached : gmap PropertyDeltaTarget (list FileRef);
  cs_merged : gmap PropertyDeltaTarget (list FileRef);
}.

Definition history (m : gmap PropertyDeltaTarget (list FileRef)) (t : PropertyDeltaTarget)
  : list FileRef := default [] (m !! t).

Definition extend (m : gmap PropertyDeltaTarget (list FileRef)) t (fs : list FileRef) :=
  <[t := history m t ++ fs]> m.

Definition push_if (b : bool) (jobs : list PropertyDeltaTarget) (t : PropertyDeltaTarget) :=
  if b then jobs ++ [t] else jobs.

Definition busy_set (c : Chain) (b : bool) : Chain :=
  mkChain (read_view c) (chain_persistent c) b.

Section Steps.
Context (callback : bool) (threshold : Z).

(** [GetOrCreateChain] followed by the publishing section of [Attach]. *)
Inductive step : CState -> CState -> Prop :=
| step_attach ch jobs runs att mg t p c c' sched file g :
    c = (let c := default new_chain (ch !! t) in
         if (p : bool) then mkChain (read_view c) true (merge_scheduled_or_running c) else c) ->
    chain_attach callback threshold file g c = (c', sched) ->
    step (mkCState ch jobs runs att mg)
         (mkCState (<[t := c']> ch) (push_if sched jobs t) runs (extend att t [file]) mg)
| step_persist ch jobs runs att mg t c c' sched :
    ch !! t = Some c -> chain_persist callback threshold c = (c', sched) ->
    step (mkCState ch jobs runs att mg) (mkCState (<[t := c']> ch) (push_if sched jobs t) runs att mg)
| step_pop ch t jobs runs att mg :
    step (mkCState ch (t :: jobs) runs att mg) (mkCState ch jobs (runs ++ [mkRun t false Popped]) att mg)
| step_sync ch jobs runs att mg t c :
    ch !! t = Some c -> merge_scheduled_or_running c = false ->
    step (mkCState ch jobs runs att mg)
         (mkCState (<[t := busy_set c true]> ch) jobs (runs ++ [mkRun t true Popped]) att mg)
| step_nothing ch jobs r1 r2 att mg t all c c' :
    ch !! t = Some c -> chain_capture threshold all c = (c', None) ->
    step (mkCState ch jobs (r1 ++ mkRun t all Popped :: r2) att mg)
         (mkCState (<[t := c']> ch) jobs (r1 ++ r2) att mg)
| step_capture ch jobs r1 r2 att mg t all c c' v batch :
    ch !! t = Some c -> chain_capture threshold all c = (c', Some (v, batch)) ->
    step (mkCState ch jobs (r1 ++ mkRun t all Popped :: r2) att mg)
         (mkCState (<[t := c']> ch) jobs (r1 ++ mkRun t all (Captured batch) :: r2) att mg)
| step_fail ch jobs r1 r2 att mg t all stage c :
    ch !! t = Some c ->
    step (mkCState ch jobs (r1 ++ mkRun t all stage :: r2) att mg)
         (mkCState (<[t := busy_set c false]> ch) jobs (r1 ++ r2) att mg)
| step_publish ch jobs r1 r2 att mg t all batch merged g c c' sched :
    ch !! t = Some c -> chain_publish threshold all batch merged g c = Ok (c', sched) ->
    step (mkCState ch jobs (r1 ++ mkRun t all (Captured batch) :: r2) att mg)
         (mkCState (<[t := c']> ch) (push_if sched jobs t) (r1 ++ r2) att (extend mg t batch)).

(** A freshly opened store: chains recovered from the manifest, the jobs that
    [OpenAndRecover] scheduled, and nothing running. *)
Definition initial (s : CState) : Prop :=
  cs_runs s = [] /\ NoDup (cs_jobs s) /\
  (forall t, t ∈ cs_jobs s <-> exists c, cs_chains s !! t = Some c /\ merge_scheduled_or_running c = true) /\
  (forall t, history (cs_merged s) t = []) /\
  (forall t, history (cs_attached s) t = deltas (read_view (default new_chain (cs_chains s !! t)))).

Inductive reachable : CState -> Prop :=
| reach_init s : initial s -> reachable s
| reach_step s s' : reachable s -> step s s' -> reachable s'.

(** ** The invariant *)
Definition busy_at (ch : gmap PropertyDeltaTarget Chain) (t : PropertyDeltaTarget) : Prop :=
  exists c, ch !! t = Some c /\ merge_scheduled_or_running c = true.

(** The busy chains are exactly the ones queued or in flight, each once. *)
Definition owned (O : list PropertyDeltaTarget) (ch : gmap PropertyDeltaTarget Chain) : Prop :=
  NoDup O /\ forall t, t ∈ O <-> busy_at ch t.

Definition owners (s : CState) : list PropertyDeltaTarget := cs_jobs s ++ map run_target (cs_runs s).

Definition files_of (s : CState) (t : PropertyDeltaTarget) : list FileRef :=
  deltas (read_view (default new_chain (cs_chains s !! t))).

Record inv (s : CState) : Prop := {
  inv_owned : owned (owners s) (cs_chains s);
  inv_prefix : forall t all batch, mkRun t all (Captured batch) ∈ cs_runs s ->
    batch `prefix_of` files_of s t;
  inv_history : forall t, history (cs_merged s) t ++ files_of s t = history (cs_attached s) t;
}.

Lemma busy_insert ch t c t' :
  busy_at (<[t := c]> ch) t' <->
  (t' = t /\ merge_scheduled_or_running c = true) \/ (t' <> t /\ busy_at ch t').
Proof.
  unfold busy_at. destruct (decide (t' = t)) as [->|Hne].
  - rewrite lookup_insert_eq. split; [intros (? & [= <-] & ?); by left|].
    intros [[_ ?]|[? _]]; [by exists c|done].
  - rewrite lookup_insert_ne by done. naive_solver.
Qed.

Lemma busy_default ch t :
  busy_at ch t <-> merge_scheduled_or_running (default new_chain (ch !! t)) = true.
Proof. unfold busy_at. destruct (ch !! t); simpl; naive_solver. Qed.

Lemma owned_same O O' ch t c :
  O' ≡ₚ O -> (merge_scheduled_or_running c = true <-> busy_at ch t) ->
  owned O ch -> owned O' (<[t := c]> ch).
Proof.
  intros HP Hc [Hd Ho]. split; [by rewrite HP|]. intros t'. rewrite HP, busy_insert, Ho.
  destruct (decide (t' = t)) as [->|]; naive_solver.
Qed.

Lemma owned_add O O' ch t c :
  O' ≡ₚ t :: O -> ~ busy_at ch t -> merge_scheduled_or_running c = true ->
  owned O ch -> owned O' (<[t := c]> ch).
Proof.
  intros HP Hn Hc [Hd Ho]. split.
  - rewrite HP. constructor; [by rewrite Ho|done].
  - intros t'. rewrite HP, elem_of_cons, busy_insert, Ho. destruct (decide (t' = t)); naive_solver.
Qed.

Lemma owned_del O O' ch t c :
  O ≡ₚ t :: O' -> merge_scheduled_or_running c = false ->
  owned O ch -> owned O' (<[t := c]> ch).
Proof.
  intros HP Hc [Hd Ho]. rewrite HP in Hd. apply NoDup_cons in Hd as [Hn Hd]. split; [done|].
  intros t'. specialize (Ho t'). rewrite HP, elem_of_cons in Ho. rewrite busy_insert, <- Ho, Hc.
  destruct (decide (t' = t)) as [->|]; naive_solver.
Qed.

Lemma owners_run ch jobs r1 t all st r2 att mg :
  owners (mkCState ch jobs (r1 ++ mkRun t all st :: r2) att mg) ≡ₚ
  t :: jobs ++ map run_target (r1 ++ r2).
Proof. unfold owners. simpl. rewrite !map_app. simpl. by rewrite app_assoc, <- Permutation_middle, <- app_assoc. Qed.

Lemma history_extend m t fs t' :
  history (extend m t fs) t' = if decide (t' = t) then history m t ++ fs else history m t'.
Proof.
  unfold history at 1, extend. case_decide as E.
  - subst. by rewrite lookup_insert_eq.
  - by rewrite lookup_insert_ne.
Qed.

Lemma files_of_insert ch jobs runs att mg t c t' :
  files_of (mkCState (<[t := c]> ch) jobs runs att mg) t' =
  if decide (t' = t) then deltas (read_view c) else files_of (mkCState ch jobs runs att mg) t'.
Proof.
  unfold files_of. simpl. case_decide as E.
  - subst. by rewrite lookup_insert_eq.
  - by rewrite lookup_insert_ne.
Qed.

Lemma initial_inv s : initial s -> inv s.
Proof.
  intros (Hr & Hd & Hb & Hm & Ha). split.
  - unfold owners. rewrite Hr, app_nil_r. by split.
  - intros t all batch Hin. rewrite Hr in Hin. by apply not_elem_of_nil in Hin.
  - intros t. by rewrite Hm, Ha.
Qed.

Lemma chain_attach_spec file g c c' sched :
  chain_attach callback threshold file g c = (c', sched) ->
  deltas (read_view c') = deltas (read_view c) ++ [file] /\
  merge_scheduled_or_running c' = merge_scheduled_or_running c || sched /\
  (sched = true -> merge_scheduled_or_running c = false).
Proof.
  unfold chain_attach. intros [= <- <-]. split_and!; [done..|].
  destruct (merge_scheduled_or_running c); [|done]. by rewrite andb_false_r.
Qed.

Lemma chain_persist_spec c c' sched :
  chain_persist callback threshold c = (c', sched) ->
  read_view c' = read_view c /\
  merge_scheduled_or_running c' = merge_scheduled_or_running c || sched /\
  (sched = true -> merge_scheduled_or_running c = false).
Proof.
  unfold chain_persist. intros [= <- <-]. split_and!; [done..|].
  destruct (merge_scheduled_or_running c); [|done]. by rewrite andb_false_r.
Qed.

Lemma chain_capture_spec all c c' o :
  chain_capture threshold all c = (c', o) ->
  read_view c' = read_view c /\
  match o with
  | None => merge_scheduled_or_running c' = false
  | Some (v, batch) => c' = c /\ v = read_view c /\ batch `prefix_of` deltas (read_view c)
  end.
Proof.
  unfold chain_capture. destruct (_ || _); intros [= <- <-]; [done|].
  split_and!; [done..|]. apply prefix_take.
Qed.

(** Publishing a captured prefix succeeds and drops exactly that prefix. *)
Lemma same_prefix_refl batch rest : same_prefix batch (batch ++ rest) = true.
Proof. induction batch as [|b batch IH]; [done|]. simpl. by rewrite bool_decide_true. Qed.

Lemma chain_publish_spec all batch merged g c :
  batch `prefix_of` deltas (read_view c) ->
  exists c' sched, chain_publish threshold all batch merged g c = Ok (c', sched) /\
    deltas (read_view c) = batch ++ deltas (read_view c') /\
    merged_base (read_view c') = Some merged /\ merge_scheduled_or_running c' = sched.
Proof.
  intros [rest Hr]. unfold chain_publish. rewrite Hr, zlen_app.
  pose proof (zlen_nonneg rest). rewrite (proj2 (Z.ltb_ge _ _)) by lia.
  rewrite same_prefix_refl. cbn [negb]. do 2 eexists. split; [done|]. simpl.
  by rewrite drop_app_length.
Qed.

(** The scheduling flag and the queue move together. *)
Lemma owned_push ch jobs runs t c sched :
  owned (jobs ++ map run_target runs) ch ->
  merge_scheduled_or_running c =
    merge_scheduled_or_running (default new_chain (ch !! t)) || sched ->
  (sched = true -> merge_scheduled_or_running (default new_chain (ch !! t)) = false) ->
  owned (push_if sched jobs t ++ map run_target runs) (<[t := c]> ch).
Proof.
  intros Ho Hc Hs. destruct sched; simpl.
  - eapply owned_add; [|rewrite busy_default, Hs; done|by rewrite Hc, orb_true_r|exact Ho].
    rewrite <- app_assoc. cbn [app]. by rewrite <- Permutation_middle.
  - rewrite orb_false_r in Hc. eapply owned_same; [done| |exact Ho].
    by rewrite Hc, busy_default.
Qed.

Lemma captured_other r1 r2 t all st t' all' batch :
  mkRun t' all' (Captured batch) ∈ r1 ++ r2 ->
  mkRun t' all' (Captured batch) ∈ r1 ++ mkRun t all st :: r2.
Proof. set_solver. Qed.

(** No second run works on the target of a run. *)
Lemma run_unique ch jobs r1 t all st r2 att mg all' st' :
  owned (owners (mkCState ch jobs (r1 ++ mkRun t all st :: r2) att mg)) ch ->
  mkRun t all' st' ∉ r1 ++ r2.
Proof.
  intros [Hd _] Hin. rewrite owners_run in Hd. apply NoDup_cons in Hd as [Hn _]. apply Hn.
  apply elem_of_app. right. apply list_elem_of_fmap. by exists (mkRun t all' st').
Qed.

(** The prefix and history parts for steps that keep every file list. *)
Lemma files_same ch t c c' jobs runs att mg jobs' runs' att' mg' t' :
  default new_chain (ch !! t) = c -> deltas (read_view c') = deltas (read_view c) ->
  files_of (mkCState (<[t := c']> ch) jobs runs att mg) t' =
  files_of (mkCState ch jobs' runs' att' mg') t'.
Proof.
  intros Hc Hd. rewrite files_of_insert. case_decide as E; [|done]. subst. by unfold files_of.
Qed.

(** Steps that keep the file lists keep the last two parts. *)
Lemma inv_files_same ch jobs runs att mg t c c' jobs' runs' :
  inv (mkCState ch jobs runs att mg) -> ch !! t = Some c ->
  deltas (read_view c') = deltas (read_view c) ->
  (forall t' all batch, mkRun t' all (Captured batch) ∈ runs' -> mkRun t' all (Captured batch) ∈ runs) ->
  owned (jobs' ++ map run_target runs') (<[t := c']> ch) ->
  inv (mkCState (<[t := c']> ch) jobs' runs' att mg).
Proof.
  intros [Ho Hp Hh] Hl Hd Hr Ho'.
  assert (default new_chain (ch !! t) = c) as Ec by (by rewrite Hl).
  split; [exact Ho'| |]; simpl.
  - intros t' all batch Hin. rewrite (files_same ch t c c' _ _ _ _ jobs runs att mg) by done.
    by eapply Hp, Hr.
  - intros t'. rewrite (files_same ch t c c' _ _ _ _ jobs runs att mg) by done. apply Hh.
Qed.

Lemma inv_attach ch jobs runs att mg t p c c' sched file g :
  c = (let c := default new_chain (ch !! t) in
       if (p : bool) then mkChain (read_view c) true (merge_scheduled_or_running c) else c) ->
  chain_attach callback threshold file g c = (c', sched) ->
  inv (mkCState ch jobs runs att mg) ->
  inv (mkCState (<[t := c']> ch) (push_if sched jobs t) runs (extend att t [file]) mg).
Proof.
  intros Ec (Ed & Eb & Es)%chain_attach_spec [Ho Hp Hh].
  assert (deltas (read_view c) = files_of (mkCState ch jobs runs att mg) t) as Ef
    by (subst c; unfold files_of; by destruct p).
  assert (merge_scheduled_or_running c = merge_scheduled_or_running (default new_chain (ch !! t))) as Ebc
    by (subst c; by destruct p).
  split; simpl.
  - apply (owned_push ch jobs runs t c' sched Ho); [by rewrite <- Ebc|by rewrite <- Ebc].
  - intros t' all batch Hin. rewrite files_of_insert. specialize (Hp t' all batch Hin).
    case_decide as E; [|exact Hp]. subst t'. rewrite Ed, Ef. by apply prefix_app_r.
  - intros t'. rewrite history_extend, files_of_insert. specialize (Hh t').
    case_decide as E; [|exact Hh]. subst t'. simpl in Hh. by rewrite Ed, Ef, app_assoc, Hh.
Qed.

Lemma inv_pop ch t jobs runs att mg :
  inv (mkCState ch (t :: jobs) runs att mg) ->
  inv (mkCState ch jobs (runs ++ [mkRun t false Popped]) att mg).
Proof.
  intros [[Hd Ho] Hp Hh]. split; simpl.
  - assert (owners (mkCState ch (t :: jobs) runs att mg) ≡ₚ
      owners (mkCState ch jobs (runs ++ [mkRun t false Popped]) att mg)) as HP.
    { unfold owners. simpl. rewrite map_app. simpl. by rewrite app_assoc, <- Permutation_cons_append. }
    split; [by rewrite <- HP|]. intros t'. by rewrite <- HP.
  - intros t' all batch Hin. apply (Hp t' all batch). set_solver.
  - exact Hh.
Qed.

Lemma inv_capture ch jobs r1 r2 att mg t all c v batch :
  ch !! t = Some c -> chain_capture threshold all c = (c, Some (v, batch)) ->
  inv (mkCState ch jobs (r1 ++ mkRun t all Popped :: r2) att mg) ->
  inv (mkCState (<[t := c]> ch) jobs (r1 ++ mkRun t all (Captured batch) :: r2) att mg).
Proof.
  intros Hl [_ (_ & _ & Hpre)]%chain_capture_spec [Ho Hp Hh].
  rewrite insert_id by done. split; simpl.
  - unfold owners in *. simpl in *. rewrite !map_app in *. exact Ho.
  - intros t' all' batch' [Hin|[Heq|Hin]%elem_of_cons]%elem_of_app.
    + apply (Hp t' all' batch'). set_solver.
    + injection Heq as -> -> ->. unfold files_of. simpl. by rewrite Hl.
    + apply (Hp t' all' batch'). set_solver.
  - exact Hh.
Qed.

Lemma inv_publish ch jobs r1 r2 att mg t all batch merged g c c' sched :
  ch !! t = Some c -> chain_publish threshold all batch merged g c = Ok (c', sched) ->
  inv (mkCState ch jobs (r1 ++ mkRun t all (Captured batch) :: r2) att mg) ->
  inv (mkCState (<[t := c']> ch) (push_if sched jobs t) (r1 ++ r2) att (extend mg t batch)).
Proof.
  intros Hl Ea [Ho Hp Hh]. assert (default new_chain (ch !! t) = c) as Ec by (by rewrite Hl).
  assert (batch `prefix_of` deltas (read_view c)) as Hpre.
  { rewrite <- Ec. apply (Hp t all batch). set_solver. }
  destruct (chain_publish_spec all batch merged g c Hpre) as (c2 & sched2 & E2 & Ed & _ & Eb).
  rewrite E2 in Ea. injection Ea as -> ->. split; simpl.
  - pose proof (owners_run ch jobs r1 t all (Captured batch) r2 att mg) as HP.
    destruct sched; [|by eapply owned_del; [exact HP|exact Eb|exact Ho]].
    eapply owned_same; [etrans; [|symmetry; exact HP]| |exact Ho].
    + unfold owners. simpl. rewrite <- app_assoc. cbn [app]. by rewrite <- Permutation_middle.
    + rewrite Eb. split; [intros _|done]. apply Ho. rewrite HP. set_solver.
  - intros t' all' batch' Hin. rewrite files_of_insert. case_decide as E.
    + subst t'. by destruct (run_unique ch jobs r1 t all (Captured batch) r2 att mg all' (Captured batch') Ho).
    + apply (Hp t' all' batch'). by apply captured_other.
  - intros t'. rewrite history_extend, files_of_insert. specialize (Hh t').
    case_decide as E; [|exact Hh]. subst t'. rewrite <- app_assoc, <- Ed, <- Ec. exact Hh.
Qed.

Lemma step_inv s s' : step s s' -> inv s -> inv s'.
Proof.
  intros Hstep Hi.
  destruct Hstep as [ch jobs runs att mg t p c c' sched file g Ec Ea
    |ch jobs runs att mg t c c' sched Hl Ea|ch t jobs runs att mg
    |ch jobs runs att mg t c Hl Hb|ch jobs r1 r2 att mg t all c c' Hl Ea
    |ch jobs r1 r2 att mg t all c c' v batch Hl Ea|ch jobs r1 r2 att mg t all stage c Hl
    |ch jobs r1 r2 att mg t all batch merged g c c' sched Hl Ea].
  - by eapply inv_attach.
  - apply chain_persist_spec in Ea as (Ed & Eb & Es).
    eapply inv_files_same; [exact Hi|exact Hl|by rewrite Ed|done|].
    apply owned_push; [apply Hi|by rewrite Hl..].
  - by apply inv_pop.
  - eapply inv_files_same; [exact Hi|exact Hl|done|set_solver|].
    eapply owned_add; [| |done|apply Hi].
    + unfold owners. simpl. rewrite map_app. simpl. by rewrite app_assoc, <- Permutation_cons_append.
    + rewrite busy_default, Hl. simpl. by rewrite Hb.
  - apply chain_capture_spec in Ea as [Ed Eb].
    eapply inv_files_same; [exact Hi|exact Hl|by rewrite Ed|intros ? ? ?; apply captured_other|].
    eapply owned_del; [apply owners_run|exact Eb|apply Hi].
  - pose proof (chain_capture_spec _ _ _ _ Ea) as [_ (-> & _ & _)]. by eapply inv_capture.
  - eapply inv_files_same; [exact Hi|exact Hl|done|intros ? ? ?; apply captured_other|].
    eapply owned_del; [apply owners_run|done|apply Hi].
  - by eapply inv_publish.
Qed.

Lemma reachable_inv s : reachable s -> inv s.
Proof. induction 1; [by apply initial_inv|by eapply step_inv]. Qed.
End Steps.
