(* ===== verification/DeltaStoreTheorems.v ===== *)
(** * Correctness of the property-delta store

    Reads through a view, attachments under faults, merges that interleave
    with attachments, and the safety of orphan removal. *)

From S2P Require Import Prelude.
From S2P Require Import Types.
From S2P Require Import Checksum.
From S2P Require Import Posix.
From S2P Require Import DeltaFile.
From S2P Require Import DeltaSpec.
From S2P Require Import DeltaFileFacts.
From S2P Require Import DeltaFileCreate.
From S2P Require Import DeltaFileTheorems.
From S2P Require Import DeltaManifest.
From S2P Require Import DeltaManifestFacts.
From S2P Require Import Names.
From S2P Require Import DeltaStore.
From S2P Require Import DeltaStoreFacts.
From S2P Require Import DeltaStoreSteps.

(** ** Orphan removal *)
Lemma contains_elem needle name b : contains needle name = true -> b ∈ needle -> b ∈ name.
Proof.
  induction name as [|c name IH]; simpl; rewrite orb_true_iff; intros [H|H] Hb;
    try (apply bool_decide_eq_true in H; rewrite <- H in Hb; by eapply elem_of_take in Hb as (? & Hb & _);
         apply list_elem_of_lookup_2 in Hb).
  - done.
  - right. by apply IH.
Qed.

Definition letters : bytes := str "delta-nesfbpg.r0123456789".

Lemma digits_letters l : Forall is_digit l -> Forall (fun b => b ∈ letters) l.
Proof.
  intros H. eapply Forall_impl; [exact H|]. intros b Hb.
  assert (forall z, 48 <= z <= 57 -> byte_of z ∈ letters) as Hz.
  { intros z Hz. assert (z = 48 \/ z = 49 \/ z = 50 \/ z = 51 \/ z = 52 \/ z = 53 \/ z = 54 \/ z = 55 \/ z = 56 \/ z = 57) as Hc by lia.
    apply (bool_decide_unpack _). by destruct_or? Hc; subst. }
  rewrite <- (byte_of_val b). by apply Hz.
Qed.

Lemma DeltaFileName_letters t g : Forall (fun b => b ∈ letters) (DeltaFileName t g).
Proof.
  unfold DeltaFileName. rewrite !Forall_app.
  split_and!; try (apply digits_letters, to_string_digits);
    try (apply (bool_decide_unpack _); by vm_compute).
  apply (bool_decide_unpack _). by destruct (kind t).
Qed.

Lemma DeltaFileName_not_temporary t g : contains (str ".tmp.") (DeltaFileName t g) = false.
Proof.
  apply not_true_iff_false. intros H.
  pose proof (contains_elem _ _ (byte_of 109) H ltac:(apply (bool_decide_unpack _); by vm_compute)) as Hm.
  pose proof (DeltaFileName_letters t g) as Hl. rewrite Forall_forall in Hl. specialize (Hl _ Hm).
  apply (bool_decide_pack _) in Hl. by vm_compute in Hl.
Qed.

Lemma name_in_child directory name n : name_in directory (child directory name) = Some n -> n = name.
Proof.
  unfold name_in, child. rewrite app_assoc, drop_app_length. case_match; by intros [= <-].
Qed.

Lemma wp_unlink_all paths fs :
  wp (unlink_all paths) (fun _ fs' => forall p, p ∉ paths -> fs' !! p = fs !! p)
     (fun fs' => forall p, p ∉ paths -> fs' !! p = fs !! p) fs.
Proof.
  revert fs. induction paths as [|q paths IH]; intros fs; cbn [unlink_all]; [by wp_step|].
  assert (forall fs', fs' = delete q fs \/ fs' = fs ->
    wp (unlink_all paths) (fun _ fs' => forall p, p ∉ q :: paths -> fs' !! p = fs !! p)
       (fun fs' => forall p, p ∉ q :: paths -> fs' !! p = fs !! p) fs') as H.
  { intros fs' Hfs. eapply wp_mono; [apply IH| |];
      [intros [] fs2 H2 p Hp|intros fs2 H2 p Hp]; (rewrite H2 by set_solver);
      (destruct Hfs as [E|E]; rewrite E; [rewrite lookup_delete_ne by set_solver; done|done]). }
  wp_step. wp_step; [apply H; by left|apply H; by right|done].
Qed.

(** ** Chains in commit order *)

(** Later files never hold an older version of a key than earlier files; the
    single flush worker publishes updates in commit order. *)
Definition commit_ordered (batches : list (list PropertyDeltaRecord)) : Prop :=
  forall i j b b' r r', (i < j)%nat -> batches !! i = Some b -> batches !! j = Some b' ->
    r ∈ b -> r' ∈ b' -> key_of r = key_of r' -> commit_sequence r <= commit_sequence r'.

Lemma commit_ordered_app bs bs' r r' :
  commit_ordered (bs ++ bs') -> r ∈ concat bs -> r' ∈ concat bs' -> key_of r = key_of r' ->
  commit_sequence r <= commit_sequence r'.
Proof.
  intros Ho Hr Hr' Hk. apply list_elem_of_In, in_concat in Hr as (b & Hb & Hr).
  apply list_elem_of_In, in_concat in Hr' as (b' & Hb' & Hr').
  apply list_elem_of_In, list_elem_of_lookup in Hb as [i Hi].
  apply list_elem_of_In, list_elem_of_lookup in Hb' as [j Hj].
  apply (Ho i (length bs + j)%nat b b' r r'); try done; try (by apply list_elem_of_In).
  - apply lookup_lt_Some in Hi. lia.
  - by apply lookup_app_l_Some.
  - by rewrite lookup_app_r, Nat.add_comm, Nat.add_sub by lia.
Qed.

(** ** The component's theorems *)
Definition sample_file (t : PropertyDeltaTarget) (g : Z) (records : list PropertyDeltaRecord) : FileRef :=
  mkRef (DeltaFileName t g)
    (match BuildImage t g records with
     | Ok i => match ValidateMapping (image_bytes i) with
               | Some (Ok f) => f
               | _ => mkFile [] 0 0 (mkMetadata t 0 0 0 0 0 0)
               end
     | Err _ => mkFile [] 0 0 (mkMetadata t 0 0 0 0 0 0)
     end).

Definition older_batch : list PropertyDeltaRecord := [mkRecord 5 6 (-1) 3 true 2 (map byte_of [120])].

Lemma sample_file_holds t g records :
  target_ok t -> fits 64 g -> Forall record_ok records ->
  (exists i, BuildImage t g records = Ok i /\ fits 64 (zlen (image_bytes i))) ->
  ref_holds (sample_file t g records) records.
Proof.
  intros Ht Hg Hr (i & Hi & Hsz). destruct (BuildImage_holds _ _ _ _ Hi Hr Ht Hg Hsz) as (f & Hv & _ & Hh).
  exists t, g. unfold sample_file. rewrite Hi, Hv. exact Hh.
Qed.

(** a lookup through a read view, which searches the files newest first
    and skips files by their commit bounds, returns exactly the newest visible
    write of all the batches of the chain, with later files winning ties. *)
Theorem view_lookup_refines k rs v counters batches :
  chain_repr (deltas v) batches ->
  exists counters', ReadView_Lookup k rs v counters =
    Some (observe <$> newest_visible k rs (concat batches), counters').
Proof. apply ReadView_Lookup_correct. Qed.

Lemma view_lookup_refines_witness :
  exists counters', ReadView_Lookup (mkKey 5 6 (-1) true 2) 12
    (mkView None [sample_file sample_target 1 older_batch; sample_file sample_target 2 sample_batch] 2)
    (mkCounters 0 0 0 0) = Some (Some (map byte_of [98; 99], 10), counters').
Proof.
  destruct (view_lookup_refines (mkKey 5 6 (-1) true 2) 12
    (mkView None [sample_file sample_target 1 older_batch; sample_file sample_target 2 sample_batch] 2)
    (mkCounters 0 0 0 0) [older_batch; sample_batch]) as [c H].
  - cbn [deltas]. constructor; [|constructor; [|constructor]]; apply sample_file_holds;
      try eval_prop; (eexists; split; [vm_compute; reflexivity|eval_prop]).
  - exists c. rewrite H. vm_compute. reflexivity.
Defined.

(** C22: [Attach], under any behaviour of the system calls, either succeeds and
    adds exactly the given batch as the newest file of its target's chain, or
    fails and leaves what every reader of every target observes unchanged. *)
Theorem attach_refines `{StdHash} s M t records p w k rs :
  store_repr s M -> Forall record_ok records -> target_ok t -> fits 64 (next_file_generation_ s) ->
  (forall i, BuildImage t (next_file_generation_ s) records = Ok i -> fits 64 (zlen (image_bytes i))) ->
  match Attach s t records p w with
  | (Some (Ok _, s'), _) =>
      store_repr s' (attach_to M t records) /\
      (forall t', t' <> t -> store_lookup s' t' k rs = store_lookup s t' k rs) /\
      store_lookup s' t k rs = Some (observe <$> newest_visible k rs (concat (M t) ++ records))
  | (Some (Err _, s'), _) => forall t', store_lookup s' t' k rs = store_lookup s t' k rs
  | (None, _) => True
  end.
Proof.
  intros Hs Hr Ht Hg Hsz.
  pose proof (wp_run _ _ _ w (wp_Attach records t Hr Ht s M p (files w) Hs Hg Hsz)) as Hw.
  destruct (Attach s t records p w) as [[[[[]|e] s']|] w']; unfold attach_post in Hw; simpl in Hw; [| |done].
  - split_and!; [done| |].
    + intros t' Hne. rewrite (store_lookup_correct _ _ _ _ _ Hw), (store_lookup_correct _ _ _ _ _ Hs).
      unfold attach_to. by rewrite decide_False.
    + rewrite (store_lookup_correct _ _ _ _ _ Hw). unfold attach_to. rewrite decide_True by done.
      rewrite concat_app. simpl. by rewrite app_nil_r.
  - intros t'. by rewrite (store_lookup_correct _ _ _ _ _ Hw), (store_lookup_correct _ _ _ _ _ Hs).
Qed.

Definition sample_store : PropertyDeltaStore :=
  mkStore (str "d") 7 4 kNone None (mkManifest (str "d/MANIFEST") kNone 1 [])
    (replicate kRegistryBucketCount ∅) 1 0 ∅ [] 0 None (mkStats 0 0 0 0 0 0 0).

Lemma sample_store_repr `{StdHash} : store_repr sample_store (fun _ => []).
Proof.
  split; [done|]. intros t. unfold FindChain, sample_store. cbn [registry_].
  rewrite lookup_replicate_2 by apply BucketIndex_lt. done.
Qed.

Lemma attach_refines_witness :
  let H : StdHash := fun z => z in
  match Attach sample_store sample_target sample_batch true (mkWorld ∅ []) with
  | (Some (Ok _, s'), _) =>
      store_lookup s' sample_target (mkKey 5 6 (-1) true 2) 12 = Some (Some (map byte_of [98; 99], 10))
  | _ => False
  end.
Proof.
  intros H.
  pose proof (attach_refines sample_store (fun _ => []) sample_target sample_batch true (mkWorld ∅ [])
    (mkKey 5 6 (-1) true 2) 12 sample_store_repr) as Ha.
  destruct (Attach _ _ _ _ _) as [[[[[]|e] s']|] w'] eqn:E.
  - destruct Ha as (_ & _ & Ha).
    + eval_prop.
    + eval_prop.
    + eval_prop.
    + intros i Hi. injection Hi as <-. eval_prop.
    + rewrite Ha. vm_compute. reflexivity.
  - apply (f_equal (fun r => match r.1 with Some (Ok _, _) => true | _ => false end)) in E.
    by vm_compute in E.
  - apply (f_equal (fun r => match r.1 with Some _ => true | _ => false end)) in E.
    by vm_compute in E.
Defined.

(** merges never lose or repeat an attached file. In every state the
    interleaving of attachments, persistence handoffs, the merge worker,
    synchronous merges and failed merges can reach, the files consumed by
    published merges followed by the files still visible are exactly the files
    ever attached, in order, and each busy chain has exactly one queued or
    running merge. *)
Theorem merge_no_file_lost callback threshold s t :
  reachable callback threshold s ->
  history (cs_merged s) t ++ files_of s t = history (cs_attached s) t /\
  NoDup (owners s) /\
  (t ∈ owners s <-> exists c, cs_chains s !! t = Some c /\ merge_scheduled_or_running c = true).
Proof. intros [[Hd Ho] _ Hh]%reachable_inv. split_and!; [apply Hh|done|apply Ho]. Qed.

Definition sample_ref (n : Z) : FileRef := mkRef [byte_of n] (mkFile [] 0 0 (mkMetadata sample_target n 1 0 n n 0)).

(** Two attachments that reach the threshold, then the worker pops the job. *)
Definition sample_state : CState :=
  let att c n := (chain_attach true 2 (sample_ref n) n c).1 in
  let c1 := att (mkChain empty_view true false) 1 in
  mkCState (<[sample_target := att c1 2]> (<[sample_target := c1]> ∅)) []
    [mkRun sample_target false Popped]
    (extend (extend ∅ sample_target [sample_ref 1]) sample_target [sample_ref 2]) ∅.

Lemma sample_state_reachable : reachable true 2 sample_state.
Proof.
  set (c1 := (chain_attach true 2 (sample_ref 1) 1 (mkChain empty_view true false)).1).
  eapply reach_step.
  - eapply reach_step.
    + eapply reach_step.
      * apply (reach_init true 2 (mkCState ∅ [] [] ∅ ∅)).
        split_and!; [done|constructor| |done|done].
        intros t. split; [by intros ?%not_elem_of_nil|]. intros (c & Hc & _). by cbn [cs_chains] in Hc; rewrite lookup_empty in Hc.
      * apply (step_attach true 2 ∅ [] [] ∅ ∅ sample_target true (mkChain empty_view true false) c1 false
                 (sample_ref 1) 1); [by vm_compute|by vm_compute].
    + apply (step_attach true 2 (<[sample_target := c1]> ∅) [] [] _ ∅ sample_target true c1
               (chain_attach true 2 (sample_ref 2) 2 c1).1 true (sample_ref 2) 2); by vm_compute.
  - apply step_pop.
Qed.

Lemma merge_no_file_lost_witness :
  history (cs_merged sample_state) sample_target ++ files_of sample_state sample_target =
    [sample_ref 1; sample_ref 2] /\ sample_target ∈ owners sample_state.
Proof.
  destruct (merge_no_file_lost true 2 sample_state sample_target sample_state_reachable) as (H1 & _ & H2).
  split; [rewrite H1; by vm_compute|]. apply H2. eexists. split; vm_compute; reflexivity.
Defined.

(** a merge that captured a batch can always publish it, whatever was
    attached meanwhile: the two consistency errors of the publishing section
    are unreachable, and publishing leaves exactly the files attached after
    the captured batch. *)
Theorem merge_publish_succeeds callback threshold s t all batch merged g c :
  reachable callback threshold s -> mkRun t all (Captured batch) ∈ cs_runs s ->
  cs_chains s !! t = Some c ->
  exists c' sched,
    chain_publish threshold all batch merged g c = Ok (c', sched) /\
    deltas (read_view c) = batch ++ deltas (read_view c') /\
    merged_base (read_view c') = Some merged.
Proof.
  intros Hr Hin Hl. pose proof (inv_prefix _ (reachable_inv _ _ _ Hr) _ _ _ Hin) as Hp.
  unfold files_of in Hp. rewrite Hl in Hp.
  destruct (chain_publish_spec threshold all batch merged g c Hp) as (c' & b & H1 & H2 & H3 & _).
  by exists c', b.
Qed.

Lemma merge_publish_succeeds_witness :
  exists s c c' sched, mkRun sample_target false (Captured [sample_ref 1; sample_ref 2]) ∈ cs_runs s /\
    cs_chains s !! sample_target = Some c /\
    chain_publish 2 false [sample_ref 1; sample_ref 2] [] 3 c = Ok (c', sched).
Proof.
  set (c := default new_chain (cs_chains sample_state !! sample_target)).
  set (s := mkCState (<[sample_target := c]> (cs_chains sample_state)) []
              ([] ++ mkRun sample_target false (Captured [sample_ref 1; sample_ref 2]) :: [])
              (cs_attached sample_state) (cs_merged sample_state)).
  assert (reachable true 2 s) as Hr.
  { eapply reach_step; [apply sample_state_reachable|].
    apply (step_capture true 2 (cs_chains sample_state) [] [] [] (cs_attached sample_state)
             (cs_merged sample_state) sample_target false c c (read_view c)); vm_compute; reflexivity. }
  destruct (merge_publish_succeeds true 2 s sample_target false [sample_ref 1; sample_ref 2] [] 3 c)
    as (c' & b & H & _).
  - exact Hr.
  - by left.
  - apply lookup_insert_eq.
  - exists s, c, c', b. split_and!; [by left|apply lookup_insert_eq|exact H].
Defined.

(** names of delta files are usable and unique: every name passes the
    manifest's basename check and fits its length field, and a name determines
    the target and the generation it was made from, so two attachments never
    collide on a path. *)
Theorem delta_file_names t t' g g' :
  target_ok t -> target_ok t' -> fits 64 g -> fits 64 g' ->
  ValidFileName (DeltaFileName t g) = true /\ fits 32 (zlen (DeltaFileName t g)) /\
  (DeltaFileName t g = DeltaFileName t' g' -> t = t' /\ g = g').
Proof.
  intros. split_and!; [apply DeltaFileName_valid|by apply DeltaFileName_length|by apply DeltaFileName_inj].
Qed.

Lemma delta_file_names_witness :
  DeltaFileName sample_target 12 = str "delta-e-s3-f7-b9-p1-g12.rgd" /\
  DeltaFileName sample_target 12 <> DeltaFileName sample_target 1.
Proof.
  split; [vm_compute; reflexivity|]. intros E.
  destruct (delta_file_names sample_target sample_target 12 1) as (_ & _ & H); [eval_prop..|].
  destruct (H E) as [_ H']. discriminate.
Defined.

(** removing orphans after recovery is safe under any faults: files outside
    the delta directory, the manifest and every delta file with an active
    manifest entry survive; only unreferenced delta files and temporaries can
    disappear. *)
Theorem orphan_removal_safe `{StdHash} s w p :
  (forall name, p = child (directory_ s) name ->
     name = str "MANIFEST" \/
     (exists t g, name = DeltaFileName t g) /\ name ∈ map file_name (ActiveEntries (manifest_ s))) ->
  files (RemoveOrphanFiles s w).2 !! p = files w !! p.
Proof.
  intros Hp.
  assert (orphan_path (map file_name (ActiveEntries (manifest_ s))) (directory_ s) p = false) as Hno.
  { unfold orphan_path. destruct (name_in (directory_ s) p) as [n|] eqn:En; [|done].
    assert (p = child (directory_ s) n) as ->.
    { unfold name_in in En. case_match eqn:E; [|done]. injection En as <-.
      apply andb_true_iff in E as [E _]. apply bool_decide_eq_true in E.
      unfold child. rewrite app_assoc. rewrite <- E at 1. by rewrite take_drop. }
    unfold is_orphan. destruct (Hp n eq_refl) as [->|[(t & g & ->) Ha]].
    - by vm_compute.
    - rewrite DeltaFileName_not_temporary, orb_false_r. rewrite (bool_decide_true (_ ∈ _)) by done.
      by rewrite andb_false_r. }
  unfold RemoveOrphanFiles. destruct w as [fs scr]. unfold io_bind, get_files. cbn [files].
  set (paths := filter _ _).
  pose proof (wp_unlink_all paths fs scr) as Hw.
  destruct (unlink_all paths _) as [[]  w']; cbn [snd]; apply Hw; subst paths;
    rewrite list_elem_of_filter; intros [Ho _]; congruence.
Qed.

Lemma orphan_removal_safe_witness :
  let H : StdHash := fun z => z in
  let s := set_manifest sample_store
    (mkManifest (str "d/MANIFEST") kNone 2
       [mkEntry (DeltaFileName sample_target 1) (mkMetadata sample_target 1 0 0 0 0 0) true]) in
  let p := child (str "d") (DeltaFileName sample_target 1) in
  let w := mkWorld (<[p := []]> (<[str "d/x.tmp.1" := []]> ∅)) [] in
  files (RemoveOrphanFiles s w).2 !! p = Some [] /\
  files (RemoveOrphanFiles s w).2 !! str "d/x.tmp.1" = None.
Proof.
  intros H s p w. split; [|vm_compute; reflexivity].
  rewrite (orphan_removal_safe s w p); [vm_compute; reflexivity|].
  intros name E. right. assert (name = DeltaFileName sample_target 1) as ->.
  { symmetry. exact (app_inv_head _ _ _ (app_inv_head _ _ _ E)). }
  split; [by exists sample_target, 1|by left].
Defined.
