(* ===== verification/Bits.v ===== *)
(** * Bit fields of machine words

    Reading and replacing a field of a word, the shape behind every packed
    structure of the storage code, with the two laws of a field: what was
    written is read back, and a write leaves disjoint fields alone. *)

From S2P Require Import Prelude.

Definition get_field (lo len p : Z) : Z := Z.land (Z.shiftr p lo) (Z.ones len).

Definition set_field (lo len p v : Z) : Z :=
  Z.lor (Z.land p (Z.lnot (Z.shiftl (Z.ones len) lo))) (Z.shiftl v lo).

Lemma fits_testbit w v n : 0 <= w -> fits w v -> w <= n -> Z.testbit v n = false.
Proof.
  intros Hw [H0 H1] Hn. destruct (decide (v = 0)) as [->|]; [apply Z.bits_0|].
  apply Z.bits_above_log2; [lia|]. assert (Z.log2 v < w) by (apply Z.log2_lt_pow2; lia). lia.
Qed.

Lemma get_field_testbit lo len p n :
  0 <= lo -> 0 <= len -> 0 <= n ->
  Z.testbit (get_field lo len p) n = Z.testbit p (n + lo) && bool_decide (n < len).
Proof.
  intros. unfold get_field. rewrite Z.land_spec, Z.shiftr_spec, Z.testbit_ones_nonneg by lia.
  f_equal. destruct (Z.ltb_spec n len); [by rewrite bool_decide_true|by rewrite bool_decide_false by lia].
Qed.

Lemma set_field_testbit lo len p v n :
  0 <= lo -> 0 <= len -> fits len v -> 0 <= n ->
  Z.testbit (set_field lo len p v) n =
  if decide (lo <= n < lo + len) then Z.testbit v (n - lo) else Z.testbit p n.
Proof.
  intros Hlo Hlen Hv Hn. unfold set_field.
  rewrite Z.lor_spec, Z.land_spec, Z.lnot_spec, !Z.shiftl_spec by lia.
  destruct (decide (n < lo)) as [Hl|Hl].
  - rewrite !(Z.testbit_neg_r _ (n - lo)) by lia. rewrite decide_False by lia.
    simpl. by rewrite andb_true_r, orb_false_r.
  - rewrite Z.testbit_ones_nonneg by lia. case_decide.
    + rewrite (proj2 (Z.ltb_lt _ _)) by lia. simpl. by rewrite andb_false_r.
    + rewrite (proj2 (Z.ltb_ge _ _)) by lia. simpl.
      rewrite (fits_testbit len v) by (done || lia). by rewrite andb_true_r, orb_false_r.
Qed.

Lemma get_set_same lo len p v :
  0 <= lo -> 0 <= len -> fits len v -> get_field lo len (set_field lo len p v) = v.
Proof.
  intros Hlo Hlen Hv. apply Z.bits_inj'. intros n Hn.
  rewrite get_field_testbit, set_field_testbit by (done || lia).
  destruct (decide (n < len)).
  - rewrite bool_decide_true, decide_True by lia. rewrite andb_true_r. f_equal. lia.
  - rewrite bool_decide_false, andb_false_r by lia. symmetry. by apply (fits_testbit len); [lia| |lia].
Qed.

Lemma get_set_other lo len p v lo' len' :
  0 <= lo -> 0 <= len -> fits len v -> 0 <= lo' -> 0 <= len' ->
  lo + len <= lo' \/ lo' + len' <= lo ->
  get_field lo' len' (set_field lo len p v) = get_field lo' len' p.
Proof.
  intros Hlo Hlen Hv Hlo' Hlen' Hd. apply Z.bits_inj'. intros n Hn.
  rewrite !get_field_testbit, set_field_testbit by (done || lia).
  destruct (decide (n < len')).
  - by rewrite decide_False by lia.
  - by rewrite bool_decide_false, !andb_false_r by lia.
Qed.

Lemma set_field_fits w lo len p v :
  0 <= lo -> 0 <= len -> lo + len <= w -> fits len v -> fits w p -> fits w (set_field lo len p v).
Proof.
  intros Hlo Hlen Hw Hv Hp.
  assert (0 <= set_field lo len p v) as H0.
  { unfold set_field. apply Z.lor_nonneg. split; [apply Z.land_nonneg; left; apply Hp|].
    apply Z.shiftl_nonneg. apply Hv. }
  split; [done|]. apply Z.bounded_iff_bits_nonneg; [lia|done|]. intros n Hn.
  rewrite set_field_testbit by (done || lia). rewrite decide_False by lia.
  by apply (fits_testbit w); [lia|..].
Qed.

Lemma land_ones_mod p n : 0 <= n -> Z.land p (Z.ones n) = wrap n p.
Proof. intros. by rewrite Z.land_ones. Qed.

(** A 48-bit quantity split into a 16-bit high and a 32-bit low half. *)
Definition high16 (v : Z) : Z := Z.land (Z.shiftr v 32) UINT16_MAX.
Definition low32 (v : Z) : Z := Z.land v UINT32_MAX.
Definition join48 (high low : Z) : Z := Z.shiftl high 32 + low.

Lemma join48_split v : fits 48 v -> join48 (high16 v) (low32 v) = v.
Proof.
  intros [H0 H1]. unfold join48, high16, low32.
  change UINT16_MAX with (Z.ones 16). change UINT32_MAX with (Z.ones 32).
  rewrite !Z.land_ones, Z.shiftl_mul_pow2, Z.shiftr_div_pow2 by lia.
  rewrite (Z.mod_small (v / 2 ^ 32)).
  - rewrite Z.mul_comm, <- Z.div_mod by lia. done.
  - split; [apply Z.div_pos; lia|apply Z.div_lt_upper_bound; lia].
Qed.

Lemma high16_fits v : fits 16 (high16 v).
Proof. unfold high16. change UINT16_MAX with (Z.ones 16). rewrite Z.land_ones by lia. auto with rg. Qed.

Lemma low32_fits v : fits 32 (low32 v).
Proof. unfold low32. change UINT32_MAX with (Z.ones 32). rewrite Z.land_ones by lia. auto with rg. Qed.

(** Joining with [|] instead of [+]. *)
Lemma join48_lor high low : fits 16 high -> fits 32 low -> Z.lor low (Z.shiftl high 32) = join48 high low.
Proof.
  intros Hh Hl. unfold join48. rewrite Z.add_comm. symmetry. apply Z.add_nocarry_lor.
  apply Z.bits_inj'. intros n Hn. rewrite Z.land_spec, Z.bits_0, Z.shiftl_spec by lia.
  destruct (decide (n < 32)).
  - by rewrite (Z.testbit_neg_r _ (n - 32)), andb_false_r by lia.
  - by rewrite (fits_testbit 32 low) by (done || lia).
Qed.
