(* ===== verification/EdgeBody.v ===== *)
(** * Packed edge bodies

    core/graph/edge.h (the four body layouts, of which [EdgeBody_t_Dym] is the
    one in use) and the raw accessors of src/storage_internal.cpp that read a
    body straight out of an SST mapping. *)

From S2P Require Import Prelude.
From S2P Require Import Types.
From S2P Require Import Bits.

Definition bool_bit (b : bool) : Z := if b then 1 else 0.

(** ** [EdgeBody_t_Dym]: 16 bytes *)
Module Dym.
Record EdgeBody := mkBody {
  prop_pointer : Z;
  dst_low : Z;
  seq_low : Z;
  dst_high : Z;
  seq_high : Z;
}.

Definition kMarkerMask : Z := 0x80000000.
Definition kIsOutMask : Z := 0x40000000.
Definition kEdgeTypeShift : Z := 22.
Definition kEdgeTypeMask : Z := 0x3fc00000.
Definition kPayloadMask : Z := 0x003fffff.

(** [~mask] at 32 bits. *)
Definition not32 (mask : Z) : Z := u32 (Z.lnot mask).

Definition with_pointer (b : EdgeBody) (p : Z) : EdgeBody :=
  mkBody p (dst_low b) (seq_low b) (dst_high b) (seq_high b).

Definition set_dst (b : EdgeBody) (dst : Z) : EdgeBody :=
  mkBody (prop_pointer b) (Z.land dst UINT32_MAX) (seq_low b)
    (Z.land (Z.shiftr dst 32) UINT16_MAX) (seq_high b).

Definition get_dst (b : EdgeBody) : Z := Z.shiftl (dst_high b) 32 + dst_low b.

Definition set_seq (b : EdgeBody) (seq : Z) : EdgeBody :=
  mkBody (prop_pointer b) (dst_low b) (Z.land seq UINT32_MAX)
    (dst_high b) (Z.land (Z.shiftr seq 32) UINT16_MAX).

Definition get_seq (b : EdgeBody) : Z := Z.shiftl (seq_high b) 32 + seq_low b.

Definition set_Offset (b : EdgeBody) (offset : Z) : EdgeBody :=
  with_pointer b (Z.lor (Z.land offset kPayloadMask)
                        (Z.land (prop_pointer b) (not32 kPayloadMask))).

Definition get_Offset (b : EdgeBody) : Z := Z.land (prop_pointer b) kPayloadMask.

Definition set_marker (b : EdgeBody) (marker : bool) : EdgeBody :=
  with_pointer b (Z.lor (Z.land (prop_pointer b) (not32 kMarkerMask))
                        (u32 (Z.shiftl (bool_bit marker) 31))).

Definition get_marker (b : EdgeBody) : bool :=
  negb (Z.land (Z.shiftr (prop_pointer b) 31) 1 =? 0).

Definition set_is_out (b : EdgeBody) (is_out : bool) : EdgeBody :=
  with_pointer b (Z.lor (Z.land (prop_pointer b) (not32 kIsOutMask))
                        (u32 (Z.shiftl (bool_bit is_out) 30))).

Definition get_is_out (b : EdgeBody) : bool :=
  negb (Z.land (Z.shiftr (prop_pointer b) 30) 1 =? 0).

Definition set_edge_type (b : EdgeBody) (edge_type : Z) : EdgeBody :=
  with_pointer b (Z.lor (Z.land (prop_pointer b) (not32 kEdgeTypeMask))
                        (Z.land (u32 (Z.shiftl edge_type kEdgeTypeShift)) kEdgeTypeMask)).

Definition get_edge_type (b : EdgeBody) : Z :=
  u8 (Z.shiftr (Z.land (prop_pointer b) kEdgeTypeMask) kEdgeTypeShift).

(** The constructor; [prop_pointer] starts at 0 and the other fields are
    assigned before they are read. *)
Definition EdgeBody_t (dst seq offset : Z) (marker is_out : bool) (edge_type : Z) : EdgeBody :=
  let b := mkBody 0 0 0 0 0 in
  let b := set_dst b dst in
  let b := set_seq b seq in
  let b := set_Offset b offset in
  let b := set_marker b marker in
  let b := set_is_out b is_out in
  set_edge_type b edge_type.

(** [operator<]: destination first, newer sequence first. *)
Definition less (rhs1 rhs2 : EdgeBody) : bool :=
  if get_dst rhs1 <? get_dst rhs2 then true
  else if get_dst rhs1 =? get_dst rhs2 then get_seq rhs2 <? get_seq rhs1
  else false.

(** The 16 bytes of a body in an edge file. *)
Definition body_widths : list nat := [4; 4; 4; 2; 2]%nat.
Definition body_fields (b : EdgeBody) : list Z :=
  [prop_pointer b; dst_low b; seq_low b; dst_high b; seq_high b].
Definition body_of (zs : list Z) : EdgeBody :=
  match zs with [p; d; s; dh; sh] => mkBody p d s dh sh | _ => mkBody 0 0 0 0 0 end.

#[global] Instance EdgeBody_pod : Pod EdgeBody.
Proof.
  refine {|
    pod_size := 16%nat;
    pod_encode b := fields_encode body_widths (body_fields b);
    pod_decode bs := body_of (fields_decode body_widths bs);
    pod_ok b := fields_ok body_widths (body_fields b);
  |}.
  - intros b. by rewrite fields_encode_length.
  - intros b rest Hok. rewrite fields_decode_encode by done. by destruct b.
Defined.
End Dym.

(** ** Raw accessors of src/storage_internal.cpp *)
Definition ReadUint32 (data : bytes) (off : Z) : option Z := of_le <$> read_at data off 4.

Definition raw_get_dst (data : bytes) : option Z :=
  low ← ReadUint32 data 4;
  high_part ← ReadUint32 data 12;
  let high := u16 (Z.land high_part UINT16_MAX) in
  Some (Z.lor low (Z.shiftl high 32)).

Definition raw_get_seq (data : bytes) : option Z :=
  low ← ReadUint32 data 8;
  high_part ← ReadUint32 data 12;
  let high := u16 (Z.land (Z.shiftr high_part 16) UINT16_MAX) in
  Some (Z.lor low (Z.shiftl high 32)).

Definition raw_get_marker (data : bytes) : option bool :=
  word ← ReadUint32 data 0;
  Some (negb (Z.land (Z.shiftr word 31) 1 =? 0)).

(** ** Facts about the packed word *)
Section DymFacts.
Import Dym.

(** The word as fields: payload 0-21, type 22-29, direction 30, marker 31. *)
Lemma not32_land p mask : fits 32 p -> Z.land p (not32 mask) = Z.land p (Z.lnot mask).
Proof.
  intros Hp. unfold not32, u32. rewrite <- land_ones_mod by lia.
  rewrite (Z.land_comm (Z.lnot mask)), Z.land_assoc, Z.land_ones by lia.
  by rewrite Z.mod_small by apply Hp.
Qed.

Definition word_ok (b : EdgeBody) : Prop := fits 32 (prop_pointer b).

Lemma set_marker_field b m : word_ok b ->
  prop_pointer (set_marker b m) = set_field 31 1 (prop_pointer b) (bool_bit m).
Proof. intros H. simpl. rewrite not32_land by done. unfold set_field. f_equal. by destruct m. Qed.

Lemma set_is_out_field b m : word_ok b ->
  prop_pointer (set_is_out b m) = set_field 30 1 (prop_pointer b) (bool_bit m).
Proof. intros H. simpl. rewrite not32_land by done. unfold set_field. f_equal. by destruct m. Qed.

Lemma set_edge_type_field b t : word_ok b -> fits 8 t ->
  prop_pointer (set_edge_type b t) = set_field 22 8 (prop_pointer b) t.
Proof.
  intros H Ht. simpl. rewrite not32_land by done. unfold set_field.
  change (Z.lnot kEdgeTypeMask) with (Z.lnot (Z.shiftl (Z.ones 8) 22)). f_equal.
  unfold kEdgeTypeShift, u32. rewrite <- land_ones_mod by lia. unfold kEdgeTypeMask.
  rewrite <- Z.land_assoc. change (Z.land (Z.ones 32) 0x3fc00000) with (Z.shiftl (Z.ones 8) 22).
  rewrite <- Z.shiftl_land, Z.land_ones by lia. by rewrite Z.mod_small by apply Ht.
Qed.

Lemma set_Offset_field b o : word_ok b ->
  prop_pointer (set_Offset b o) = set_field 0 22 (prop_pointer b) (wrap 22 o).
Proof.
  intros H. simpl. rewrite not32_land by done. unfold set_field. rewrite Z.lor_comm, Z.shiftl_0_r.
  f_equal. unfold kPayloadMask. change 0x3fffff with (Z.ones 22). by rewrite Z.land_ones by lia.
Qed.

Lemma bit_field p lo : get_field lo 1 p = Z.land (Z.shiftr p lo) 1.
Proof. done. Qed.

Lemma get_edge_type_field b : word_ok b -> get_edge_type b = get_field 22 8 (prop_pointer b).
Proof.
  intros H. unfold get_edge_type, get_field, kEdgeTypeMask, kEdgeTypeShift, u8.
  rewrite Z.shiftr_land. change (Z.shiftr 0x3fc00000 22) with (Z.ones 8).
  rewrite Z.land_ones by lia. by apply wrap_wrap.
Qed.

Lemma get_Offset_field b : get_Offset b = get_field 0 22 (prop_pointer b).
Proof. done. Qed.

Lemma bool_bit_fits m : fits 1 (bool_bit m).
Proof. by destruct m. Qed.

Lemma bool_bit_test m : negb (bool_bit m =? 0) = m.
Proof. by destruct m. Qed.
End DymFacts.

(** ** The other layouts of core/graph/edge.h *)
Module B24.
Record EdgeBody := mkBody { dst_ : Z; seq_ : Z; prop_pointer_ : Z; marker_ : bool }.

Definition set_dst (b : EdgeBody) (dst : Z) := mkBody dst (seq_ b) (prop_pointer_ b) (marker_ b).
Definition set_seq (b : EdgeBody) (seq : Z) := mkBody (dst_ b) (signed 64 seq) (prop_pointer_ b) (marker_ b).
Definition set_prop_pointer (b : EdgeBody) (p : Z) := mkBody (dst_ b) (seq_ b) p (marker_ b).
Definition set_marker (b : EdgeBody) (m : bool) := mkBody (dst_ b) (seq_ b) (prop_pointer_ b) m.
Definition get_dst (b : EdgeBody) : Z := dst_ b.
Definition get_seq (b : EdgeBody) : Z := u64 (seq_ b).
Definition get_prop_pointer (b : EdgeBody) : Z := prop_pointer_ b.
Definition get_marker (b : EdgeBody) : bool := marker_ b.

Definition less (rhs1 rhs2 : EdgeBody) : bool :=
  if dst_ rhs1 <? dst_ rhs2 then true
  else if dst_ rhs1 =? dst_ rhs2 then seq_ rhs2 <? seq_ rhs1 else false.
End B24.

Module B16.
Record EdgeBody := mkBody {
  prop_pointer : Z; dst_low : Z; seq_low : Z; dst_high : Z; seq_high : Z }.

Definition with_pointer (b : EdgeBody) (p : Z) : EdgeBody :=
  mkBody p (dst_low b) (seq_low b) (dst_high b) (seq_high b).
Definition set_dst (b : EdgeBody) (dst : Z) : EdgeBody :=
  mkBody (prop_pointer b) (Z.land dst UINT32_MAX) (seq_low b)
    (Z.land (Z.shiftr dst 32) UINT16_MAX) (seq_high b).
Definition get_dst (b : EdgeBody) : Z := Z.shiftl (dst_high b) 32 + dst_low b.
Definition set_seq (b : EdgeBody) (seq : Z) : EdgeBody :=
  mkBody (prop_pointer b) (dst_low b) (Z.land seq UINT32_MAX)
    (dst_high b) (Z.land (Z.shiftr seq 32) UINT16_MAX).
Definition get_seq (b : EdgeBody) : Z := Z.shiftl (seq_high b) 32 + seq_low b.
Definition set_prop_pointer (b : EdgeBody) (p : Z) : EdgeBody :=
  with_pointer b (Z.lor (Z.land p 0x7FFFFFFF) (Z.land (prop_pointer b) 0x80000000)).
Definition get_prop_pointer (b : EdgeBody) : Z := Z.land (prop_pointer b) 0x7FFFFFFF.
(** [marker << 31] is an [int] whose pattern has bit 31 set. *)
Definition set_marker (b : EdgeBody) (marker : bool) : EdgeBody :=
  with_pointer b (Z.lor (Z.land (prop_pointer b) 0x7FFFFFFF)
                        (u32 (Z.shiftl (bool_bit marker) 31))).
Definition get_marker (b : EdgeBody) : bool :=
  negb (Z.land (Z.shiftr (prop_pointer b) 31) 1 =? 0).

(** The constructor, from whatever the memory held. *)
Definition EdgeBody_t (garbage : EdgeBody) (dst seq p : Z) (marker : bool) : EdgeBody :=
  set_marker (set_prop_pointer (set_seq (set_dst garbage dst) seq) p) marker.

Definition less (rhs1 rhs2 : EdgeBody) : bool :=
  if get_dst rhs1 <? get_dst rhs2 then true
  else if get_dst rhs1 =? get_dst rhs2 then get_seq rhs2 <? get_seq rhs1 else false.
End B16.

Module Var.
(** [Offset] points to [FLAGS_sub_property_num] offsets. *)
Record EdgeBody := mkBody {
  prop_pointer : Z; dst_low : Z; seq_low : Z; dst_high : Z; seq_high : Z; Offset : list Z }.

Definition set_dst (b : EdgeBody) (dst : Z) : EdgeBody :=
  mkBody (prop_pointer b) (Z.land dst UINT32_MAX) (seq_low b)
    (Z.land (Z.shiftr dst 32) UINT16_MAX) (seq_high b) (Offset b).
Definition get_dst (b : EdgeBody) : Z := Z.shiftl (dst_high b) 32 + dst_low b.
Definition set_seq (b : EdgeBody) (seq : Z) : EdgeBody :=
  mkBody (prop_pointer b) (dst_low b) (Z.land seq UINT32_MAX)
    (dst_high b) (Z.land (Z.shiftr seq 32) UINT16_MAX) (Offset b).
Definition get_seq (b : EdgeBody) : Z := Z.shiftl (seq_high b) 32 + seq_low b.
Definition with_offsets (b : EdgeBody) (o : list Z) : EdgeBody :=
  mkBody (prop_pointer b) (dst_low b) (seq_low b) (dst_high b) (seq_high b) o.
(** Copies [sub_property_num] offsets, or fills with the maximum; [None] is a
    read past the end of the given array. *)
Definition set_prop_pointer (sub_property_num : nat) (b : EdgeBody) (offsets : option (list Z))
  : option EdgeBody :=
  match offsets with
  | Some o => if bool_decide (sub_property_num <= length o)%nat
              then Some (with_offsets b (take sub_property_num o)) else None
  | None => Some (with_offsets b (replicate sub_property_num UINT32_MAX))
  end.
Definition set_prop_pointer_spa (b : EdgeBody) (p : Z) (sub_property_id : nat) : option EdgeBody :=
  if bool_decide (sub_property_id < length (Offset b))%nat
  then Some (with_offsets b (<[sub_property_id := p]> (Offset b))) else None.
Definition get_prop_pointer (b : EdgeBody) (id : nat) : option Z := Offset b !! id.
Definition set_marker (b : EdgeBody) (marker : bool) : EdgeBody :=
  mkBody (Z.lor (Z.land (prop_pointer b) 0x7FFFFFFF) (u32 (Z.shiftl (bool_bit marker) 31)))
    (dst_low b) (seq_low b) (dst_high b) (seq_high b) (Offset b).
Definition get_marker (b : EdgeBody) : bool :=
  negb (Z.land (Z.shiftr (prop_pointer b) 31) 1 =? 0).
Definition less (rhs1 rhs2 : EdgeBody) : bool :=
  if get_dst rhs1 <? get_dst rhs2 then true
  else if get_dst rhs1 =? get_dst rhs2 then get_seq rhs2 <? get_seq rhs1 else false.
End Var.

(** ** [tmp_Edge] of core/types.h: the record that compaction sorts *)
Record tmp_Edge := mkTmpEdge {
  te_src : Z; te_dst : Z; te_marker : bool; te_is_out : bool; te_edge_type : Z; te_seq : Z;
  te_property : bytes }.

Definition tmp_less (a b : tmp_Edge) : bool :=
  if te_src a =? te_src b then
    if te_dst a =? te_dst b then
      if negb (eqb (te_is_out a) (te_is_out b)) then negb (te_is_out a) && te_is_out b
      else if negb (te_edge_type a =? te_edge_type b) then te_edge_type a <? te_edge_type b
      else te_seq b <? te_seq a
    else te_dst a <? te_dst b
  else te_src a <? te_src b.

(** ** Theorems *)
Section DymTheorems.
Import Dym.

(** The packed word of a constructed body, field by field. *)
Lemma constructed_word dst seq offset marker is_out edge_type :
  fits 8 edge_type ->
  prop_pointer (EdgeBody_t dst seq offset marker is_out edge_type) =
  set_field 22 8 (set_field 30 1 (set_field 31 1 (set_field 0 22 0 (wrap 22 offset))
    (bool_bit marker)) (bool_bit is_out)) edge_type.
Proof.
  intros Ht. pose proof bool_bit_fits as Hb.
  assert (fits 22 (wrap 22 offset)) as Ho by (auto with rg).
  assert (fits 32 0) as H0 by done.
  pose proof (set_field_fits 32 0 22 0 (wrap 22 offset) ltac:(lia) ltac:(lia) ltac:(lia) Ho H0) as W1.
  pose proof (set_field_fits 32 31 1 _ (bool_bit marker) ltac:(lia) ltac:(lia) ltac:(lia) (Hb _) W1) as W2.
  pose proof (set_field_fits 32 30 1 _ (bool_bit is_out) ltac:(lia) ltac:(lia) ltac:(lia) (Hb _) W2) as W3.
  unfold EdgeBody_t. cbv zeta.
  set (b0 := set_seq (set_dst (mkBody 0 0 0 0 0) dst) seq).
  assert (prop_pointer b0 = 0) as E0 by done.
  pose proof (set_Offset_field b0 offset) as E1. unfold word_ok in E1. rewrite E0 in E1. specialize (E1 H0).
  pose proof (set_marker_field (set_Offset b0 offset) marker) as E2. unfold word_ok in E2.
  rewrite E1 in E2. specialize (E2 W1).
  pose proof (set_is_out_field (set_marker (set_Offset b0 offset) marker) is_out) as E3. unfold word_ok in E3.
  rewrite E2 in E3. specialize (E3 W2).
  rewrite set_edge_type_field; [by rewrite E3|unfold word_ok; by rewrite E3|done].
Qed.

Lemma constructed_word_fits dst seq offset marker is_out edge_type :
  fits 8 edge_type -> word_ok (EdgeBody_t dst seq offset marker is_out edge_type).
Proof.
  intros Ht. unfold word_ok. rewrite constructed_word by done. pose proof bool_bit_fits as Hb.
  repeat (apply set_field_fits; [lia|lia|lia|done || auto with rg|]). done.
Qed.

Lemma constructed_pod_ok dst seq offset marker is_out edge_type :
  fits 8 edge_type -> pod_ok (EdgeBody_t dst seq offset marker is_out edge_type).
Proof.
  intros Ht. cbn [pod_ok EdgeBody_pod]. unfold body_fields, body_widths.
  pose proof (constructed_word_fits dst seq offset marker is_out edge_type Ht) as Hw. unfold word_ok in Hw.
  unfold EdgeBody_t in *. cbv zeta in *.
  cbn [prop_pointer dst_low seq_low dst_high seq_high set_edge_type set_is_out set_marker
       set_Offset set_seq set_dst with_pointer] in *.
  fields_solver; [apply low32_fits|apply low32_fits|apply high16_fits|apply high16_fits].
Qed.
End DymTheorems.

Lemma of_le_app l l' : of_le (l ++ l') = of_le l + 2 ^ (8 * Z.of_nat (length l)) * of_le l'.
Proof.
  induction l as [|b l IH]; [simpl; lia|]. cbn [app of_le length]. rewrite IH, pow256. ring.
Qed.

(** Four bytes at a field boundary of an encoded body. *)
Lemma ReadUint32_field pre l post :
  length l = 4%nat -> ReadUint32 (pre ++ l ++ post) (zlen pre) = Some (of_le l).
Proof.
  intros Hl. unfold ReadUint32. pose proof (zlen_nonneg pre). pose proof (zlen_nonneg post).
  assert (zlen l = 4) as Hz by (unfold zlen; by rewrite Hl).
  rewrite read_at_Some by (rewrite ?zlen_app; lia). rewrite <- Hz, slice_app_mid. done.
Qed.

Section RawFacts.
Import Dym.
Context (b : EdgeBody) (Hok : pod_ok b) (rest : bytes).

Lemma body_bytes :
  pod_encode b ++ rest =
  le 4 (prop_pointer b) ++ le 4 (dst_low b) ++ le 4 (seq_low b) ++ (le 2 (dst_high b) ++ le 2 (seq_high b)) ++ rest.
Proof. cbn [pod_encode EdgeBody_pod]. unfold fields_encode, body_widths, body_fields. cbn [zip_with concat]. by rewrite app_nil_r, <- !app_assoc. Qed.

Lemma body_ranges :
  fits 32 (prop_pointer b) /\ fits 32 (dst_low b) /\ fits 32 (seq_low b) /\
  fits 16 (dst_high b) /\ fits 16 (seq_high b).
Proof.
  cbn [pod_ok EdgeBody_pod] in Hok. unfold fields_ok, body_widths, body_fields in Hok.
  repeat match goal with H : Forall2 _ (_ :: _) (_ :: _) |- _ => inversion H; clear H; subst end.
  split_and!; assumption.
Qed.

Lemma raw_words :
  ReadUint32 (pod_encode b ++ rest) 0 = Some (prop_pointer b) /\
  ReadUint32 (pod_encode b ++ rest) 4 = Some (dst_low b) /\
  ReadUint32 (pod_encode b ++ rest) 8 = Some (seq_low b) /\
  ReadUint32 (pod_encode b ++ rest) 12 = Some (dst_high b + 2 ^ 16 * seq_high b).
Proof.
  destruct body_ranges as (H1 & H2 & H3 & H4 & H5). rewrite body_bytes.
  set (P := le 4 (prop_pointer b)). set (D := le 4 (dst_low b)). set (S := le 4 (seq_low b)).
  assert (forall z, fits 32 z -> of_le (le 4 z) = z) as E32 by (intros; by apply of_le_le_fits).
  assert (forall z, fits 16 z -> of_le (le 2 z) = z) as E16 by (intros; by apply of_le_le_fits).
  split_and!.
  - etrans; [apply (ReadUint32_field [] P); apply length_le|]. f_equal. by apply E32.
  - etrans; [apply (ReadUint32_field P D); apply length_le|]. f_equal. by apply E32.
  - rewrite app_assoc. etrans; [apply (ReadUint32_field (P ++ D) S); apply length_le|].
    f_equal. by apply E32.
  - rewrite app_assoc, app_assoc. etrans; [apply (ReadUint32_field ((P ++ D) ++ S))|].
    + by rewrite length_app, !length_le.
    + rewrite of_le_app, length_le, !E16 by done. done.
Qed.

Lemma split_high :
  Z.land (dst_high b + 2 ^ 16 * seq_high b) UINT16_MAX = dst_high b /\
  Z.land (Z.shiftr (dst_high b + 2 ^ 16 * seq_high b) 16) UINT16_MAX = seq_high b.
Proof.
  destruct body_ranges as (_ & _ & _ & H4 & H5). unfold fits in *.
  change UINT16_MAX with (Z.ones 16). rewrite !Z.land_ones, Z.shiftr_div_pow2 by lia. split.
  - rewrite Z.mul_comm, Z.mod_add by lia. by apply Z.mod_small.
  - rewrite Z.mul_comm, Z.div_add, Z.div_small by lia. by apply Z.mod_small.
Qed.
End RawFacts.

(** The accessors of a constructed body. *)
Lemma body_accessors dst seq offset marker is_out edge_type :
  fits 48 dst -> fits 48 seq -> fits 8 edge_type ->
  let b := Dym.EdgeBody_t dst seq offset marker is_out edge_type in
  Dym.get_dst b = dst /\ Dym.get_seq b = seq /\ Dym.get_Offset b = offset mod 2 ^ 22 /\
  Dym.get_marker b = marker /\ Dym.get_is_out b = is_out /\ Dym.get_edge_type b = edge_type.
Proof.
  intros Hd Hs Ht b. pose proof bool_bit_fits as Hb.
  pose proof (constructed_word dst seq offset marker is_out edge_type Ht) as W.
  pose proof (constructed_word_fits dst seq offset marker is_out edge_type Ht) as Wf. fold b in W, Wf.
  assert (fits 22 (wrap 22 offset)) as Ho by (auto with rg).
  split_and!.
  - exact (join48_split dst Hd).
  - exact (join48_split seq Hs).
  - rewrite get_Offset_field, W. rewrite !get_set_other by (done || lia). by apply get_set_same.
  - unfold Dym.get_marker. rewrite <- bit_field, W, !get_set_other by (done || lia).
    rewrite get_set_same by (done || lia). apply bool_bit_test.
  - unfold Dym.get_is_out. rewrite <- bit_field, W, get_set_other by (done || lia).
    rewrite get_set_same by (done || lia). apply bool_bit_test.
  - rewrite get_edge_type_field, W by done. by apply get_set_same.
Qed.

(** an edge body written to memory and read back gives what it was built
    from: destination and sequence up to 48 bits, the low 22 bits of the offset,
    the deletion marker, the direction and the type, although the last four
    share one word. *)
Theorem edge_body_roundtrip dst seq offset marker is_out edge_type rest :
  fits 48 dst -> fits 48 seq -> fits 8 edge_type ->
  let b := pod_decode (pod_encode (Dym.EdgeBody_t dst seq offset marker is_out edge_type) ++ rest) in
  Dym.get_dst b = dst /\ Dym.get_seq b = seq /\ Dym.get_Offset b = offset mod 2 ^ 22 /\
  Dym.get_marker b = marker /\ Dym.get_is_out b = is_out /\ Dym.get_edge_type b = edge_type.
Proof.
  intros Hd Hs Ht b. unfold b. rewrite pod_roundtrip by (by apply constructed_pod_ok).
  by apply body_accessors.
Qed.

Lemma edge_body_roundtrip_witness :
  let b := pod_decode (pod_encode (Dym.EdgeBody_t 281474976710655 123456789012 5000000 true false 255) ++ []) in
  Dym.get_dst b = 281474976710655 /\ Dym.get_seq b = 123456789012 /\ Dym.get_Offset b = 805696 /\
  Dym.get_marker b = true /\ Dym.get_is_out b = false /\ Dym.get_edge_type b = 255.
Proof. apply (edge_body_roundtrip 281474976710655 123456789012 5000000 true false 255 []); eval_prop. Defined.

Lemma raw_accessors b rest :
  pod_ok b ->
  raw_get_dst (pod_encode b ++ rest) = Some (Dym.get_dst b) /\
  raw_get_seq (pod_encode b ++ rest) = Some (Dym.get_seq b) /\
  raw_get_marker (pod_encode b ++ rest) = Some (Dym.get_marker b) /\
  pod_decode (pod_encode b ++ rest) = b.
Proof.
  intros Hok. destruct (raw_words b Hok rest) as (R0 & R4 & R8 & R12).
  destruct (split_high b Hok) as [S1 S2]. destruct (body_ranges b Hok) as (H1 & H2 & H3 & H4 & H5).
  unfold raw_get_dst, raw_get_seq, raw_get_marker. rewrite R0, R4, R8, R12. simpl_bind.
  rewrite S1, S2. unfold u16. rewrite !wrap_small by done. rewrite !join48_lor by done.
  split_and!; [done..|]. by apply pod_roundtrip.
Qed.

(** Any sixteen bytes are the encoding of the body they decode to. *)
Lemma body_decode_encode data :
  zlen data = 16 -> pod_ok (pod_decode data : Dym.EdgeBody) /\ pod_encode (pod_decode data : Dym.EdgeBody) = data.
Proof.
  intros Hl. assert (length data = sum_list Dym.body_widths) as Hs by (unfold zlen in Hl; simpl; lia).
  assert (Dym.body_fields (pod_decode data) = fields_decode Dym.body_widths data) as E by reflexivity.
  cbn [pod_ok pod_encode Dym.EdgeBody_pod]. split.
  - change (fields_ok Dym.body_widths (Dym.body_fields (pod_decode data))). rewrite E.
    by apply fields_decode_ok.
  - change (fields_encode Dym.body_widths (Dym.body_fields (pod_decode data)) = data). rewrite E.
    by apply fields_encode_decode.
Qed.

Lemma raw_seq_decode data : zlen data = 16 -> raw_get_seq data = Some (Dym.get_seq (pod_decode data)).
Proof.
  intros Hl. destruct (body_decode_encode data Hl) as [Hok E].
  destruct (raw_accessors _ [] Hok) as (_ & H & _). by rewrite app_nil_r, E in H.
Qed.

(** the raw accessors the SST readers use on a mapping agree with the
    accessors of the decoded body, for every body and whatever follows it. *)
Theorem raw_accessors_agree b rest :
  pod_ok b ->
  raw_get_dst (pod_encode b ++ rest) = Some (Dym.get_dst b) /\
  raw_get_seq (pod_encode b ++ rest) = Some (Dym.get_seq b) /\
  raw_get_marker (pod_encode b ++ rest) = Some (Dym.get_marker b) /\
  pod_decode (pod_encode b ++ rest) = b.
Proof. apply raw_accessors. Qed.

Lemma raw_accessors_agree_witness :
  raw_get_dst (pod_encode (Dym.EdgeBody_t 281474976710655 7 0 false true 3) ++ [Init.Byte.x01]) =
    Some 281474976710655.
Proof.
  destruct (raw_accessors_agree (Dym.EdgeBody_t 281474976710655 7 0 false true 3) [Init.Byte.x01])
    as [H _]; [apply constructed_pod_ok; eval_prop|]. rewrite H. reflexivity.
Defined.

(** the comparison that compaction sorts by is a strict order that is
    total up to equal (source, destination, direction, type, sequence), and it
    puts the newest version of an edge first. *)
Theorem tmp_edge_order a b c :
  tmp_less a a = false /\
  (tmp_less a b = true -> tmp_less b c = true -> tmp_less a c = true) /\
  (tmp_less a b = false -> tmp_less b a = false ->
     te_src a = te_src b /\ te_dst a = te_dst b /\ te_is_out a = te_is_out b /\
     te_edge_type a = te_edge_type b /\ te_seq a = te_seq b) /\
  (te_src a = te_src b -> te_dst a = te_dst b -> te_is_out a = te_is_out b ->
   te_edge_type a = te_edge_type b -> tmp_less a b = (te_seq b <? te_seq a)).
Proof.
  unfold tmp_less. destruct a as [s d m o t q p], b as [s' d' m' o' t' q' p'], c as [s2 d2 m2 o2 t2 q2 p2].
  simpl. split_and!.
  - rewrite !Z.eqb_refl, !Z.ltb_irrefl. by destruct o.
  - destruct o, o', o2; repeat (case_match; simpl in *); try lia; try done.
  - intros H1 H2.
    destruct o, o'; repeat (case_match; simpl in *); try (exfalso; (congruence || lia)); split_and!; lia || done.
  - intros -> -> -> ->. rewrite !Z.eqb_refl. by destruct o'.
Qed.

Lemma tmp_edge_order_witness :
  let e q := mkTmpEdge 1 2 false true 0 q [] in
  tmp_less (e 9) (e 5) = true /\ tmp_less (e 5) (e 1) = true /\ tmp_less (e 9) (e 1) = true.
Proof.
  cbv zeta. split_and!; [reflexivity|reflexivity|].
  apply (tmp_edge_order (mkTmpEdge 1 2 false true 0 9 []) (mkTmpEdge 1 2 false true 0 5 [])
           (mkTmpEdge 1 2 false true 0 1 [])); reflexivity.
Defined.
