(* ===== verification/PropertyLayout.v ===== *)
(** * Fixed-width property columns

    core/fixed_property_layout.h: the active column layout (a thread-local
    override of the process-wide flags), slot addressing, and the padded slots
    a value is stored in. *)

From S2P Require Import Prelude.
From S2P Require Import Types.
From S2P Require Import Bits.
From S2P Require Import EdgeBody.

(** [FLAGS_sub_property_num] and [FLAGS_max_property_length]. *)
Record Flags := mkFlags { FLAGS_sub_property_num : Z; FLAGS_max_property_length : Z }.

(** [tls_fixed_property_lengths]: [None] is the null pointer. *)
Abbreviation layout := (option (list Z)).

Definition EDGEBODY_SIZE : Z := sizeof Dym.EdgeBody.

(** Constructing a [ScopedFixedPropertyLayout] installs the override; its
    destructor reinstates the previous one. *)
Definition scoped_enter (lengths : option (list Z)) : layout :=
  match lengths with Some (l :: ls) => Some (l :: ls) | _ => None end.

Definition with_layout {A} (lengths : option (list Z)) (body : layout -> A) (tls : layout)
  : A * layout := (body (scoped_enter lengths), tls).

Definition GetActiveSubPropertyNum (flags : Flags) (tls : layout) : Z :=
  match tls with
  | Some (l :: ls) => zlen (l :: ls)
  | _ => FLAGS_sub_property_num flags
  end.

Definition BuildUniformSubPropertyLengths (property_num fixed_length : Z) : list Z :=
  replicate (Z.to_nat (Z.max 1 property_num)) (Z.max 1 fixed_length).

Definition GetSubPropertyFixedLength (flags : Flags) (tls : layout) (sub_property_id : Z) : Z :=
  if sub_property_id <? 0 then Z.max 1 (FLAGS_max_property_length flags)
  else
    match tls with
    | Some lengths =>
        match lengths !! Z.to_nat sub_property_id with
        | Some l => l
        | None => Z.max 1 (FLAGS_max_property_length flags)
        end
    | None => Z.max 1 (FLAGS_max_property_length flags)
    end.

(** [None] is the failing assertion. *)
Definition GetEdgeOrdinalFromBodyOffset (body_offset_bytes : Z) : option Z :=
  if body_offset_bytes mod EDGEBODY_SIZE =? 0 then Some (body_offset_bytes / EDGEBODY_SIZE) else None.

Definition GetSubPropertyOffsetByEdgeOrdinal (flags : Flags) (tls : layout)
    (edge_ordinal sub_property_id : Z) : Z :=
  u64 (edge_ordinal * GetSubPropertyFixedLength flags tls sub_property_id).

(** Stores into a mapping; [None] is a store outside it. *)
Definition store_at (m : bytes) (off : Z) (data : bytes) : option bytes :=
  if (0 <=? off) && (off + zlen data <=? zlen m)
  then Some (take (Z.to_nat off) m ++ data ++ drop (Z.to_nat (off + zlen data)) m) else None.

(** [memset] to zero, then [memcpy] of the part that fits. *)
Definition slot_bytes (slot_len : Z) (src : bytes) : bytes :=
  let copy_len := Z.min slot_len (zlen src) in
  take (Z.to_nat copy_len) src ++ replicate (Z.to_nat (slot_len - copy_len)) Init.Byte.x00.

Definition WritePaddedSubPropertySlot (flags : Flags) (tls : layout) (m : bytes) (slot_begin : Z)
    (src : bytes) (sub_property_id : Z) : option bytes :=
  store_at m slot_begin (slot_bytes (GetSubPropertyFixedLength flags tls sub_property_id) src).

(** [while (!value->empty() && value->back() == 0) value->pop_back()] *)
Fixpoint drop_zeros (rev : bytes) : bytes :=
  match rev with
  | b :: rest => if bool_decide (b = Init.Byte.x00) then drop_zeros rest else rev
  | [] => []
  end.

Definition TrimTrailingZero (v : bytes) : bytes := reverse (drop_zeros (reverse v)).

Definition ReadSubPropertyFromSlot (flags : Flags) (tls : layout) (m : bytes) (slot_begin : Z)
    (sub_property_id : Z) : option bytes :=
  TrimTrailingZero <$> read_at m slot_begin (GetSubPropertyFixedLength flags tls sub_property_id).

(** ** Facts *)
Lemma slot_bytes_length slot_len src : 0 <= slot_len -> zlen (slot_bytes slot_len src) = slot_len.
Proof.
  intros. unfold slot_bytes, zlen. rewrite length_app, length_take, length_replicate. lia.
Qed.

Lemma store_at_Some m off data :
  0 <= off -> off + zlen data <= zlen m ->
  store_at m off data = Some (take (Z.to_nat off) m ++ data ++ drop (Z.to_nat (off + zlen data)) m).
Proof. intros. unfold store_at. by rewrite !(proj2 (Z.leb_le _ _)) by lia. Qed.

Lemma store_at_length m off data m' : store_at m off data = Some m' -> zlen m' = zlen m.
Proof.
  unfold store_at. case_match eqn:E; [|done]. intros [= <-].
  apply andb_true_iff in E as [E1%Z.leb_le E2%Z.leb_le].
  unfold zlen in *. rewrite !length_app, length_take, length_drop. lia.
Qed.

(** A store is seen by a read of the same range and by no disjoint read. *)
Lemma store_read_same m off data m' :
  store_at m off data = Some m' -> read_at m' off (zlen data) = Some data.
Proof.
  intros Hs. pose proof (store_at_length _ _ _ _ Hs) as Hl. unfold store_at in Hs.
  case_match eqn:E; [|done]. injection Hs as <-.
  apply andb_true_iff in E as [E1%Z.leb_le E2%Z.leb_le]. pose proof (zlen_nonneg data).
  rewrite read_at_Some by lia. f_equal.
  replace off with (zlen (take (Z.to_nat off) m)) at 1
    by (unfold zlen in *; rewrite length_take; lia).
  apply slice_app_mid.
Qed.

Lemma store_read_other m off data m' off' len :
  store_at m off data = Some m' -> 0 <= off' -> 0 <= len ->
  off' + len <= off \/ off + zlen data <= off' -> read_at m' off' len = read_at m off' len.
Proof.
  intros Hs Ho Hlen Hd. pose proof (store_at_length _ _ _ _ Hs) as Hl. unfold store_at in Hs.
  case_match eqn:E; [|done]. injection Hs as <-.
  apply andb_true_iff in E as [E1%Z.leb_le E2%Z.leb_le]. pose proof (zlen_nonneg data).
  unfold read_at. rewrite Hl. case_match; [|done]. f_equal. unfold slice.
  apply list_eq. intros i. rewrite !lookup_take, !lookup_drop. case_decide; [|done].
  destruct Hd as [Hd|Hd].
  - rewrite lookup_app_l; [by rewrite lookup_take_lt by lia|]. rewrite length_take. unfold zlen in *. lia.
  - assert (length (take (Z.to_nat off) m) = Z.to_nat off) as Lt by (rewrite length_take; unfold zlen in *; lia).
    rewrite lookup_app_r by (rewrite Lt; unfold zlen in *; lia).
    rewrite lookup_app_r by (rewrite Lt; unfold zlen in *; lia).
    rewrite lookup_drop, Lt. f_equal. unfold zlen in *. lia.
Qed.

Lemma drop_zeros_replicate n rev : drop_zeros (replicate n Init.Byte.x00 ++ rev) = drop_zeros rev.
Proof. induction n as [|n IH]; [done|]. exact IH. Qed.

(** Reading a padded slot gives the stored prefix without trailing zeros. *)
Lemma trim_slot slot_len src :
  TrimTrailingZero (slot_bytes slot_len src) = TrimTrailingZero (take (Z.to_nat slot_len) src).
Proof.
  unfold TrimTrailingZero, slot_bytes. rewrite reverse_app, reverse_replicate, drop_zeros_replicate.
  do 2 f_equal. destruct (Z.le_ge_cases slot_len (zlen src)).
  - by rewrite Z.min_l.
  - rewrite Z.min_r by done. rewrite !take_ge; [done|unfold zlen in *; lia|unfold zlen; lia].
Qed.

(** A value that a slot stores faithfully. *)
Definition storable (slot_len : Z) (v : bytes) : Prop :=
  zlen v <= slot_len /\ last v <> Some Init.Byte.x00.
#[export] Instance storable_dec slot_len v : Decision (storable slot_len v).
Proof. unfold storable. apply _. Defined.

Lemma trim_storable slot_len v : storable slot_len v -> TrimTrailingZero (take (Z.to_nat slot_len) v) = v.
Proof.
  intros [Hl Hz]. rewrite take_ge by (unfold zlen in Hl; lia).
  unfold TrimTrailingZero. destruct v as [|b v] using rev_ind; [done|].
  rewrite last_snoc in Hz. rewrite reverse_snoc. simpl.
  rewrite bool_decide_false by congruence. by rewrite reverse_cons, reverse_involutive.
Qed.

(** ** Theorems *)

(** a value written to a fixed-width slot is read back exactly when it fits
    the slot and has no trailing zero byte; a longer value is truncated and
    trailing zeros are lost, and no other slot of the column changes. *)
Theorem slot_write_read flags tls m m' ordinal ordinal' src pid :
  let len := GetSubPropertyFixedLength flags tls pid in
  0 <= ordinal -> 0 <= ordinal' -> 0 <= len ->
  WritePaddedSubPropertySlot flags tls m (ordinal * len) src pid = Some m' ->
  ReadSubPropertyFromSlot flags tls m' (ordinal * len) pid =
    Some (TrimTrailingZero (take (Z.to_nat len) src)) /\
  (storable len src -> ReadSubPropertyFromSlot flags tls m' (ordinal * len) pid = Some src) /\
  (ordinal' <> ordinal ->
     ReadSubPropertyFromSlot flags tls m' (ordinal' * len) pid =
     ReadSubPropertyFromSlot flags tls m (ordinal' * len) pid) /\
  zlen m' = zlen m.
Proof.
  intros len Ho Ho' Hlen Hw. unfold WritePaddedSubPropertySlot, ReadSubPropertyFromSlot in *. fold len in Hw |- *.
  pose proof (slot_bytes_length len src Hlen) as Hs.
  pose proof (store_read_same _ _ _ _ Hw) as Hr. rewrite Hs in Hr.
  assert (TrimTrailingZero <$> read_at m' (ordinal * len) len =
          Some (TrimTrailingZero (take (Z.to_nat len) src))) as E
    by (rewrite Hr; simpl; by rewrite trim_slot).
  split_and!; [done| | |by eapply store_at_length].
  - intros Hst. rewrite E. f_equal. by apply trim_storable.
  - intros Hne. f_equal. eapply store_read_other; [exact Hw|nia|done|]. rewrite Hs.
    destruct (Z.lt_total ordinal ordinal') as [?|[?|?]]; [right; nia|lia|left; nia].
Qed.

Lemma slot_write_read_witness :
  exists m', WritePaddedSubPropertySlot (mkFlags 1 4) None (replicate 12 Init.Byte.x41) (1 * 4)
    (map byte_of [104; 105]) 0 = Some m' /\
    ReadSubPropertyFromSlot (mkFlags 1 4) None m' (1 * 4) 0 = Some (map byte_of [104; 105]).
Proof.
  eexists. split; [vm_compute; reflexivity|].
  apply (slot_write_read (mkFlags 1 4) None (replicate 12 Init.Byte.x41) _ 1 2 (map byte_of [104; 105]) 0);
    try eval_prop.
Defined.

(** every layout addresses at least one column: the uniform layout has
    positive widths, and a column index below the active count always resolves
    to the width the active layout gives it. *)
Theorem layout_widths flags property_num fixed_length id :
  let ls := BuildUniformSubPropertyLengths property_num fixed_length in
  0 <= id < GetActiveSubPropertyNum flags (scoped_enter (Some ls)) ->
  ls !! Z.to_nat id = Some (GetSubPropertyFixedLength flags (scoped_enter (Some ls)) id) /\
  1 <= GetSubPropertyFixedLength flags (scoped_enter (Some ls)) id.
Proof.
  intros ls Hid.
  assert (scoped_enter (Some ls) = Some ls) as E.
  { subst ls. unfold BuildUniformSubPropertyLengths.
    destruct (Z.to_nat (Z.max 1 property_num)) eqn:En; [lia|done]. }
  rewrite E in *.
  assert (GetActiveSubPropertyNum flags (Some ls) = zlen ls) as En.
  { subst ls. unfold BuildUniformSubPropertyLengths in *. by destruct (Z.to_nat (Z.max 1 property_num)) eqn:En; [lia|]. }
  rewrite En in Hid. unfold GetSubPropertyFixedLength. rewrite (proj2 (Z.ltb_ge _ _)) by lia.
  destruct (lookup_lt_is_Some_2 ls (Z.to_nat id)) as [l Hl]; [unfold zlen in Hid; lia|].
  rewrite Hl. split; [done|]. subst ls. apply lookup_replicate in Hl as [-> _]. lia.
Qed.

Lemma layout_widths_witness :
  let ls := BuildUniformSubPropertyLengths 3 0 in
  ls !! Z.to_nat 2 = Some (GetSubPropertyFixedLength (mkFlags 1 4) (scoped_enter (Some ls)) 2).
Proof. apply (layout_widths (mkFlags 1 4) 3 0 2). vm_compute. split; [discriminate|reflexivity]. Defined.
