(* ===== verification/Sst.v ===== *)
(** * SST files: index, edge search, property reads

    core/SSTable.h and src/SSTable.cpp (the cached index of an edge file), the
    [Header] and [Index] structures of core/DataStructs.h, and the lookup
    functions of src/lsmstore.cpp that search a vertex's edges in a mapping. *)

From S2P Require Import Prelude.
From S2P Require Import Types.
From S2P Require Import Checksum.
From S2P Require Import Posix.
From S2P Require Import DeltaFile.
From S2P Require Import DeltaSpec.
From S2P Require Import DeltaFileFacts.
From S2P Require Import DeltaFileCreate.
From S2P Require Import Bits.
From S2P Require Import EdgeBody.
From S2P Require Import PropertyLayout.

(** ** On-disk structures *)
Record Header := mkHeader_ {
  timeStamp : Z; size : Z; index_size : Z; minKey : Z; maxKey : Z }.

Definition header_widths : list nat := [8; 8; 8; 8; 8]%nat.

#[export] Instance Header_pod : Pod Header.
Proof.
  refine {|
    pod_size := 40%nat;
    pod_encode h := fields_encode header_widths [timeStamp h; size h; index_size h; minKey h; maxKey h];
    pod_decode bs := match fields_decode header_widths bs with
                     | [a; b; c; d; e] => mkHeader_ a b c d e
                     | _ => mkHeader_ 0 0 0 0 0
                     end;
    pod_ok h := fields_ok header_widths [timeStamp h; size h; index_size h; minKey h; maxKey h];
  |}.
  - intros h. by rewrite fields_encode_length.
  - intros h rest Hok. rewrite fields_decode_encode by done. by destruct h.
Defined.

Record Index := mkIndex { ix_key : Z; ix_offset : Z }.
#[export] Instance Index_eq_dec : EqDecision Index.
Proof. solve_decision. Defined.

#[export] Instance Index_pod : Pod Index.
Proof.
  refine {|
    pod_size := 12%nat;
    pod_encode x := fields_encode [8; 4]%nat [ix_key x; ix_offset x];
    pod_decode bs := match fields_decode [8; 4]%nat bs with
                     | [a; b] => mkIndex a b | _ => mkIndex 0 0 end;
    pod_ok x := fields_ok [8; 4]%nat [ix_key x; ix_offset x];
  |}.
  - intros x. by rewrite fields_encode_length.
  - intros x rest Hok. rewrite fields_decode_encode by done. by destruct x.
Defined.

(** ** Loading the cached index: [SSTableCache(dir, manager)] *)
Fixpoint load_indexes (n : nat) (buf : bytes) (i : Z) : option (list Index) :=
  match n with
  | O => Some []
  | S n =>
      raw ← read_at buf (sizeof Index * i) (sizeof Index);
      rest ← load_indexes n buf (i + 1);
      Some (pod_decode raw :: rest)
  end.

Definition LoadSSTableCache (file : bytes) : option (Header * list Index) :=
  raw ← read_at file (zlen file - sizeof Header) (sizeof Header);
  let header : Header := pod_decode raw in
  indexBuf ← read_at file (size header * EDGEBODY_SIZE) (index_size header * sizeof Index);
  indexes ← load_indexes (Z.to_nat (index_size header)) indexBuf 0;
  Some (header, indexes).

(** ** [SSTableCache::find] and [get] *)

(** [while (start <= last)]; the interval shrinks in every iteration. *)
Fixpoint find (fuel : nat) (indexes : list Index) (key start last : Z) : option Z :=
  if start <=? last then
    match fuel with
    | O => None
    | S fuel =>
        let mid := start + Z.shiftr (last - start) 1 in
        x ← indexes !! Z.to_nat mid;
        if ix_key x =? key then Some mid
        else if ix_key x <? key then find fuel indexes key (mid + 1) last
        else find fuel indexes key start (mid - 1)
    end
  else Some (-1).

Definition get (indexes : list Index) (src : Z) : option Z :=
  find (length indexes) indexes src 0 (zlen indexes - 1).

(** [low_bound] over a raw index buffer. *)
Fixpoint low_bound (fuel : nat) (indexBuf : bytes) (key start last : Z) : option Z :=
  if start <? last then
    match fuel with
    | O => None
    | S fuel =>
        let mid := (start + last) / 2 in
        raw ← read_at indexBuf (mid * 12) 8;
        if key <=? of_le raw then low_bound fuel indexBuf key start mid
        else low_bound fuel indexBuf key (mid + 1) last
    end
  else Some start.

(** ** Edge search in [low, high) of an edge mapping *)
Definition body_at (body_buffer : bytes) (pos : Z) : option Dym.EdgeBody :=
  pod_decode <$> read_at body_buffer pos EDGEBODY_SIZE.

Fixpoint edge_lower_bound (fuel : nat) (body_buffer : bytes) (dst left right : Z) : option Z :=
  if left <? right then
    match fuel with
    | O => None
    | S fuel =>
        let mid := left + (right - left) / 2 / EDGEBODY_SIZE * EDGEBODY_SIZE in
        body ← body_at body_buffer mid;
        if dst <=? Dym.get_dst body then edge_lower_bound fuel body_buffer dst left mid
        else edge_lower_bound fuel body_buffer dst (mid + EDGEBODY_SIZE) right
    end
  else Some left.

(** The scan of the run of equal destinations. *)
Fixpoint edge_scan (fuel : nat) (body_buffer : bytes) (pos high dst : Z) (is_out : bool)
    (edge_type : Z) : option (Status * Z) :=
  if pos <? high then
    match fuel with
    | O => None
    | S fuel =>
        body ← body_at body_buffer pos;
        if negb (Dym.get_dst body =? dst) then Some (kNotFound, -1)
        else if negb (eqb (Dym.get_is_out body) is_out) || negb (Dym.get_edge_type body =? edge_type)
        then edge_scan fuel body_buffer (pos + EDGEBODY_SIZE) high dst is_out edge_type
        else Some (if Dym.get_marker body then kDelete else kOk, pos)
    end
  else Some (kNotFound, -1).

(** [EdgeLookupResult] as status and body offset; the outer option is memory
    safety. *)
Definition FindEdgeByDstDirectionAndType (body_buffer : bytes) (low high dst : Z) (is_out : bool)
    (edge_type : Z) : option (Status * Z) :=
  if high <=? low then Some (kNotFound, -1)
  else
    let fuel := Z.to_nat (high - low) in
    left ← edge_lower_bound fuel body_buffer dst low high;
    edge_scan fuel body_buffer left high dst is_out edge_type.

(** ** [ExtractSubProperty]: the [property_id]-th field of a '|'-separated payload *)
Fixpoint extract_field (payload : bytes) (current : bytes) (property_id : nat) : bytes :=
  match payload with
  | [] => match property_id with O => current | _ => [] end
  | b :: rest =>
      if bool_decide (b = byte_of 124) then
        match property_id with O => current | S k => extract_field rest [] k end
      else extract_field rest (current ++ [b]) property_id
  end.

Definition ExtractSubProperty (payload : bytes) (property_id : Z) : bytes :=
  if property_id <? 0 then payload else extract_field payload [] (Z.to_nat property_id).

(** ** An SST with its mappings *)
Record SstData := mkSst {
  sst_indexes : list Index;
  edge_data : bytes;                (** [GetEdgeData()] *)
  property_data : list bytes;       (** [GetPropertyData(id)] *)
}.

(** [get_seq(body_buffer + off)] of an edge body. *)
Definition get_seq_at (body_buffer : bytes) (off : Z) : option Z :=
  data ← read_at body_buffer off EDGEBODY_SIZE; raw_get_seq data.

(** [LocateSstEdgeOrdinal]: [Some None] is [return false]. *)
Definition LocateSstEdgeOrdinal (data : SstData) (record : PropertyDeltaRecord) : option (option Z) :=
  pos ← get (sst_indexes data) (src record);
  if (pos <? 0) || (zlen (sst_indexes data) <=? pos + 1) then Some None
  else
    b ← sst_indexes data !! Z.to_nat pos;
    e ← sst_indexes data !! Z.to_nat (pos + 1);
    '(status, off) ← FindEdgeByDstDirectionAndType (edge_data data)
                       (signed 32 (ix_offset b)) (signed 32 (ix_offset e)) (dst record) (is_out record) (edge_type record);
    if negb (bool_decide (status = kOk)) || (off <? 0) then Some None
    else
      sequence ← get_seq_at (edge_data data) off;
      if negb (sequence =? base_sequence record) then Some None
      else
        ordinal ← GetEdgeOrdinalFromBodyOffset off;
        Some (Some ordinal).

(** ** Facts about [find] *)
Lemma get_seq_at_body buf off : get_seq_at buf off = Dym.get_seq <$> body_at buf off.
Proof.
  unfold get_seq_at, body_at. destruct (read_at buf off EDGEBODY_SIZE) as [data|] eqn:E; [|done].
  apply read_at_inv in E as (H0 & _ & Hhi & ->). change EDGEBODY_SIZE with 16 in *. cbn [mbind option_bind fmap option_fmap option_map].
  apply raw_seq_decode. by apply zlen_slice.
Qed.

Definition keys_sorted (ixs : list Index) : Prop := StronglySorted (fun x y => ix_key x < ix_key y) ixs.

Lemma keys_sorted_lookup ixs i j x y :
  keys_sorted ixs -> (i < j)%nat -> ixs !! i = Some x -> ixs !! j = Some y -> ix_key x < ix_key y.
Proof. apply (StronglySorted_lookup (fun x y => ix_key x < ix_key y)). Qed.

(** Every outcome of the search over [start..last] when the key can only be there. *)
Lemma find_spec fuel ixs key start last :
  keys_sorted ixs -> 0 <= start -> last < zlen ixs -> start <= last + 1 ->
  (Z.to_nat (last + 1 - start) <= fuel)%nat ->
  (forall i x, ixs !! i = Some x -> ix_key x = key -> start <= Z.of_nat i <= last) ->
  exists r, find fuel ixs key start last = Some r /\
    ((r = -1 /\ forall x, x ∈ ixs -> ix_key x <> key) \/
     (0 <= r < zlen ixs /\ exists x, ixs !! Z.to_nat r = Some x /\ ix_key x = key)).
Proof.
  intros Hs. revert start last. induction fuel as [|fuel IH]; intros start last H0 Hl Hle Hf Hin; simpl;
    destruct (Z.leb_spec start last); try lia.
  1, 3: exists (-1); split; [done|left; split; [done|]]; intros x [i Hi]%list_elem_of_lookup Hx;
        specialize (Hin i x Hi Hx); lia.
  set (mid := start + Z.shiftr (last - start) 1).
  assert (start <= mid <= last) as Hmid.
  { unfold mid. rewrite Z.shiftr_div_pow2 by lia. change (2 ^ 1) with 2.
    pose proof (Z.div_pos (last - start) 2). pose proof (Z.div_le_upper_bound (last - start) 2 (last - start)). lia. }
  destruct (lookup_lt_is_Some_2 ixs (Z.to_nat mid)) as [x Hx]; [unfold zlen in *; lia|].
  rewrite Hx. simpl_bind.
  destruct (Z.eqb_spec (ix_key x) key) as [Ek|Nk].
  { exists mid. split; [done|right]. split; [unfold zlen in *; lia|by exists x]. }
  destruct (Z.ltb_spec (ix_key x) key).
  - apply IH; try lia. intros i y Hi Hy. specialize (Hin i y Hi Hy). split; [|lia].
    destruct (Z.le_gt_cases (mid + 1) (Z.of_nat i)); [done|]. exfalso.
    destruct (decide (i = Z.to_nat mid)) as [->|]; [simplify_eq|].
    pose proof (keys_sorted_lookup _ i (Z.to_nat mid) y x Hs ltac:(lia) Hi Hx). lia.
  - apply IH; try lia. intros i y Hi Hy. specialize (Hin i y Hi Hy). split; [lia|].
    destruct (Z.le_gt_cases (Z.of_nat i) (mid - 1)); [done|]. exfalso.
    destruct (decide (i = Z.to_nat mid)) as [->|]; [simplify_eq; lia|].
    pose proof (keys_sorted_lookup _ (Z.to_nat mid) i x y Hs ltac:(lia) Hx Hi). lia.
Qed.

Lemma get_spec ixs key :
  keys_sorted ixs ->
  exists r, get ixs key = Some r /\
    ((r = -1 /\ forall x, x ∈ ixs -> ix_key x <> key) \/
     (0 <= r < zlen ixs /\ exists x, ixs !! Z.to_nat r = Some x /\ ix_key x = key)).
Proof.
  intros Hs. unfold get. pose proof (zlen_nonneg ixs). apply find_spec; try done; try lia.
  - unfold zlen. lia.
  - intros i x Hi _. apply lookup_lt_Some in Hi. unfold zlen. lia.
Qed.

(** ** Edge search: the bodies of a range, and the linear search it refines *)

(** The [n] edge bodies stored from byte [low]. *)
Definition edge_bodies (buf : bytes) (low : Z) (n : nat) : list Dym.EdgeBody :=
  (fun i => pod_decode (slice (low + EDGEBODY_SIZE * Z.of_nat i) EDGEBODY_SIZE buf)) <$> seq 0 n.

Definition edge_matches (dst : Z) (is_out : bool) (edge_type : Z) (b : Dym.EdgeBody) : Prop :=
  Dym.get_dst b = dst /\ Dym.get_is_out b = is_out /\ Dym.get_edge_type b = edge_type.
#[export] Instance edge_matches_dec dst is_out edge_type b : Decision (edge_matches dst is_out edge_type b).
Proof. unfold edge_matches. apply _. Defined.

(** The first matching edge of the range, and what its marker means. *)
Definition first_edge (low : Z) (dst : Z) (is_out : bool) (edge_type : Z) (bs : list Dym.EdgeBody)
    : Status * Z :=
  match list_find (edge_matches dst is_out edge_type) bs with
  | Some (i, b) => (if Dym.get_marker b then kDelete else kOk, low + EDGEBODY_SIZE * Z.of_nat i)
  | None => (kNotFound, -1)
  end.

Definition dst_sorted (bs : list Dym.EdgeBody) : Prop :=
  StronglySorted (fun a b => Dym.get_dst a <= Dym.get_dst b) bs.

Lemma edge_bodies_length buf low n : length (edge_bodies buf low n) = n.
Proof. unfold edge_bodies. by rewrite length_fmap, length_seq. Qed.

Section EdgeSearch.
Context (buf : bytes) (low : Z) (n : nat).
Context (Hlow : 0 <= low) (Hhigh : low + EDGEBODY_SIZE * Z.of_nat n <= zlen buf).
Let bs := edge_bodies buf low n.

Lemma body_at_edge i :
  (i < n)%nat -> body_at buf (low + EDGEBODY_SIZE * Z.of_nat i) = bs !! i.
Proof.
  intros Hi. unfold body_at, bs, edge_bodies. change EDGEBODY_SIZE with 16 in *.
  rewrite read_at_Some by lia. rewrite list_lookup_fmap, lookup_seq_lt by done. done.
Qed.

(** [mid] of a range of whole bodies is a body boundary, half-way. *)
Lemma mid_aligned (l r : nat) :
  (l <= r)%nat ->
  low + EDGEBODY_SIZE * Z.of_nat l +
    (low + EDGEBODY_SIZE * Z.of_nat r - (low + EDGEBODY_SIZE * Z.of_nat l)) / 2 / EDGEBODY_SIZE * EDGEBODY_SIZE
  = low + EDGEBODY_SIZE * Z.of_nat (l + (r - l) / 2).
Proof.
  intros. change EDGEBODY_SIZE with 16. rewrite Z.div_div by lia.
  replace (low + 16 * Z.of_nat r - (low + 16 * Z.of_nat l)) with (Z.of_nat (r - l) * 16) by lia.
  rewrite Z.mul_comm with (n := 2), Z.mul_comm with (n := Z.of_nat (r - l)).
  rewrite Z.div_mul_cancel_l by lia. rewrite Nat2Z.inj_add, Nat2Z.inj_div. lia.
Qed.

Lemma edge_lower_bound_spec fuel dst l r :
  dst_sorted bs -> (l <= r <= n)%nat -> (r - l <= fuel)%nat ->
  (forall i b, bs !! i = Some b -> (i < l)%nat -> Dym.get_dst b < dst) ->
  (forall i b, bs !! i = Some b -> (r <= i)%nat -> dst <= Dym.get_dst b) ->
  exists p, edge_lower_bound fuel buf dst (low + EDGEBODY_SIZE * Z.of_nat l)
              (low + EDGEBODY_SIZE * Z.of_nat r) = Some (low + EDGEBODY_SIZE * Z.of_nat p)
    /\ (p <= n)%nat
    /\ (forall i b, bs !! i = Some b -> (i < p)%nat -> Dym.get_dst b < dst)
    /\ (forall i b, bs !! i = Some b -> (p <= i)%nat -> dst <= Dym.get_dst b).
Proof.
  intros Hs. revert l r. induction fuel as [|fuel IH]; intros l r Hlr Hf Hl Hr; cbn [edge_lower_bound].
  - destruct (Z.ltb_spec (low + EDGEBODY_SIZE * Z.of_nat l) (low + EDGEBODY_SIZE * Z.of_nat r)) as [Hlt|Hge];
      change EDGEBODY_SIZE with 16 in *; [lia|]. exists l. repeat split; try done; try lia.
    intros i b Hi ?. apply (Hr i b Hi). lia.
  - destruct (Z.ltb_spec (low + EDGEBODY_SIZE * Z.of_nat l) (low + EDGEBODY_SIZE * Z.of_nat r)) as [Hlt|Hge].
    2:{ exists l. repeat split; try done; try lia. intros i b Hi ?. apply (Hr i b Hi).
        change EDGEBODY_SIZE with 16 in *. lia. }
    rewrite mid_aligned by lia. set (mid := (l + (r - l) / 2)%nat).
    assert (l < r)%nat by (change EDGEBODY_SIZE with 16 in *; lia).
    assert (l <= mid < r)%nat as Hmid.
    { unfold mid. pose proof (Nat.div_lt (r - l) 2). lia. }
    rewrite body_at_edge by lia.
    destruct (lookup_lt_is_Some_2 bs mid) as [b Hb]; [unfold bs; rewrite edge_bodies_length; lia|].
    rewrite Hb. simpl_bind.
    destruct (Z.leb_spec dst (Dym.get_dst b)).
    + apply IH; try done; try lia. intros i c Hi ?.
      destruct (decide (i = mid)) as [->|]; [by simplify_eq|].
      pose proof (StronglySorted_lookup _ _ mid i b c Hs ltac:(lia) Hb Hi). simpl in *. lia.
    + replace (low + EDGEBODY_SIZE * Z.of_nat mid + EDGEBODY_SIZE)
        with (low + EDGEBODY_SIZE * Z.of_nat (S mid)) by (change EDGEBODY_SIZE with 16; lia).
      apply IH; try done; try lia. intros i c Hi ?.
      destruct (decide (i = mid)) as [->|]; [by simplify_eq|].
      pose proof (StronglySorted_lookup _ _ i mid c b Hs ltac:(lia) Hi Hb). simpl in *. lia.
Qed.

Lemma list_find_above dst is_out ty (l : list Dym.EdgeBody) :
  (forall b, b ∈ l -> dst < Dym.get_dst b) -> list_find (edge_matches dst is_out ty) l = None.
Proof.
  intros Hl. apply list_find_None, Forall_forall. intros b Hb [E _]. specialize (Hl b Hb). lia.
Qed.

Lemma edge_scan_spec fuel dst is_out ty pre suf :
  bs = pre ++ suf -> dst_sorted suf -> (length suf <= fuel)%nat ->
  (forall b, b ∈ suf -> dst <= Dym.get_dst b) ->
  edge_scan fuel buf (low + EDGEBODY_SIZE * Z.of_nat (length pre))
    (low + EDGEBODY_SIZE * Z.of_nat n) dst is_out ty
  = Some (first_edge (low + EDGEBODY_SIZE * Z.of_nat (length pre)) dst is_out ty suf).
Proof.
  revert pre suf. induction fuel as [|fuel IH]; intros pre suf E Hs Hf Hge.
  all: pose proof (edge_bodies_length buf low n) as Hn; fold bs in Hn; rewrite E, length_app in Hn.
  - destruct suf; simpl in *; [|lia].
    rewrite (proj2 (Z.ltb_ge _ _)) by (change EDGEBODY_SIZE with 16; lia). done.
  - destruct suf as [|b suf]; simpl in Hn, Hf; cbn [edge_scan].
    { rewrite (proj2 (Z.ltb_ge _ _)) by (change EDGEBODY_SIZE with 16; lia). done. }
    rewrite (proj2 (Z.ltb_lt _ _)) by (change EDGEBODY_SIZE with 16; lia).
    rewrite body_at_edge, E, list_lookup_middle by (done || lia). simpl_bind.
    apply StronglySorted_inv in Hs as [Hs Hb]. rewrite Forall_forall in Hb.
    assert (dst <= Dym.get_dst b) as Hd by (apply Hge; left).
    destruct (Z.eqb_spec (Dym.get_dst b) dst) as [Ed|Nd]; cbn [negb].
    2:{ unfold first_edge. rewrite list_find_above; [done|]. intros c [->|Hc]%elem_of_cons; [lia|].
        specialize (Hb c Hc). lia. }
    unfold first_edge. cbn [list_find].
    destruct (decide (edge_matches dst is_out ty b)) as [[_ [Eo Et]]|Nm].
    + rewrite Eo, Et, eqb_reflx, Z.eqb_refl. cbn [negb orb]. do 2 f_equal. change EDGEBODY_SIZE with 16. lia.
    + assert (negb (eqb (Dym.get_is_out b) is_out) || negb (Dym.get_edge_type b =? ty) = true) as ->.
      { apply orb_true_iff. destruct (eqb (Dym.get_is_out b) is_out) eqn:E1; [right|by left].
        destruct (Z.eqb_spec (Dym.get_edge_type b) ty); [|done]. destruct Nm.
        repeat split; try done. by apply eqb_prop. }
      replace (low + EDGEBODY_SIZE * Z.of_nat (length pre) + EDGEBODY_SIZE)
        with (low + EDGEBODY_SIZE * Z.of_nat (length (pre ++ [b])))
        by (rewrite length_app; change EDGEBODY_SIZE with 16; simpl; lia).
      rewrite (IH (pre ++ [b]) suf); [|by rewrite <- app_assoc|done|lia|intros; apply Hge; by right].
      unfold first_edge. f_equal. destruct (list_find _ suf) as [[i c]|]; [|reflexivity].
      cbn [fmap option_fmap option_map prod_map id fst snd]. f_equal. rewrite length_app. change EDGEBODY_SIZE with 16. simpl. lia.
Qed.

Lemma FindEdge_refines dst is_out ty :
  dst_sorted bs ->
  FindEdgeByDstDirectionAndType buf low (low + EDGEBODY_SIZE * Z.of_nat n) dst is_out ty
  = Some (first_edge low dst is_out ty bs).
Proof.
  intros Hs. unfold FindEdgeByDstDirectionAndType.
  destruct (Z.leb_spec (low + EDGEBODY_SIZE * Z.of_nat n) low) as [Hle|Hgt].
  { assert (n = 0%nat) as Hn0 by (change EDGEBODY_SIZE with 16 in *; lia).
    unfold bs, edge_bodies. by rewrite Hn0. }
  destruct (edge_lower_bound_spec (Z.to_nat (low + EDGEBODY_SIZE * Z.of_nat n - low)) dst 0 n)
    as (p & E & Hp & Hlt & Hge); [done|lia|change EDGEBODY_SIZE with 16; lia|lia| |].
  { intros i b Hi%lookup_lt_Some. unfold bs in Hi. rewrite edge_bodies_length in Hi. lia. }
  rewrite Z.add_0_r in E. rewrite E. simpl_bind.
  assert (length (take p bs) = p) as Ep
    by (rewrite length_take; unfold bs; rewrite edge_bodies_length; lia).
  pose proof (edge_scan_spec (Z.to_nat (low + EDGEBODY_SIZE * Z.of_nat n - low)) dst is_out ty
                (take p bs) (drop p bs)) as Hscan.
  rewrite Ep in Hscan. rewrite Hscan; clear Hscan.
  - f_equal. unfold first_edge. rewrite <- (take_drop p bs) at 2.
    rewrite list_find_app_r; [|apply list_find_None, Forall_forall; intros b [i Hi]%list_elem_of_lookup [Ed _];
      apply lookup_take_Some in Hi as [Hi ?]; specialize (Hlt i b Hi ltac:(lia)); lia].
    rewrite Ep. destruct (list_find _ (drop p bs)) as [[i b]|]; [|reflexivity].
    cbn [fmap option_fmap option_map prod_map id fst snd]. f_equal. change EDGEBODY_SIZE with 16. lia.
  - by rewrite take_drop.
  - unfold dst_sorted in *. rewrite <- (take_drop p bs) in Hs. by apply StronglySorted_app_1_r in Hs.
  - rewrite length_drop. unfold bs. rewrite edge_bodies_length. change EDGEBODY_SIZE with 16. lia.
  - intros b [i Hi]%list_elem_of_lookup. rewrite lookup_drop in Hi. apply (Hge _ _ Hi). lia.
Qed.
End EdgeSearch.

(** ** Well-formed SSTs and the edge they locate *)

(** The bodies between two consecutive index entries. *)
Definition range_bodies (data : SstData) (b e : Index) : list Dym.EdgeBody :=
  edge_bodies (edge_data data) (ix_offset b) (Z.to_nat ((ix_offset e - ix_offset b) / EDGEBODY_SIZE)).

Definition range_ok (data : SstData) (b e : Index) : Prop :=
  0 <= ix_offset b /\ ix_offset b <= ix_offset e /\ ix_offset e <= zlen (edge_data data) /\
  ix_offset e < 2 ^ 31 /\
  ix_offset b mod EDGEBODY_SIZE = 0 /\ ix_offset e mod EDGEBODY_SIZE = 0 /\
  dst_sorted (range_bodies data b e).

(** Sorted source index whose entries delimit dst-sorted runs of whole bodies,
    in a file below the 2 GiB that the [int] offsets of the readers can address. *)
Definition wf_sst (data : SstData) : Prop :=
  keys_sorted (sst_indexes data) /\
  forall i b e, sst_indexes data !! i = Some b -> sst_indexes data !! S i = Some e -> range_ok data b e.

(** What [LocateSstEdgeOrdinal] promises: the ordinal of the first edge of the
    record's source with the record's destination, direction and type, provided
    that edge is live and is the version the record was written against. *)
Definition locate_spec (data : SstData) (r : PropertyDeltaRecord) : option Z :=
  '(i, b) ← list_find (fun x => ix_key x = src r) (sst_indexes data);
  e ← sst_indexes data !! S i;
  '(j, body) ← list_find (edge_matches (dst r) (is_out r) (edge_type r)) (range_bodies data b e);
  if Dym.get_marker body then None
  else if Dym.get_seq body =? base_sequence r then Some (ix_offset b / EDGEBODY_SIZE + Z.of_nat j)
  else None.

Lemma get_first ixs key :
  keys_sorted ixs ->
  get ixs key = Some (match list_find (fun x => ix_key x = key) ixs with
                      | Some (i, _) => Z.of_nat i
                      | None => -1
                      end).
Proof.
  intros Hs. destruct (get_spec ixs key Hs) as (r & -> & [[-> Hn]|[Hr (x & Hx & Ek)]]); f_equal.
  - rewrite (proj2 (list_find_None _ _)); [done|]. apply Forall_forall. auto.
  - destruct (list_find (fun x => ix_key x = key) ixs) as [[i y]|] eqn:E.
    + apply list_find_Some in E as (Hi & Ey & _).
      destruct (Nat.lt_total i (Z.to_nat r)) as [Hlt|[->|Hlt]]; [|lia|].
      * pose proof (keys_sorted_lookup _ _ _ _ _ Hs Hlt Hi Hx). lia.
      * pose proof (keys_sorted_lookup _ _ _ _ _ Hs Hlt Hx Hi). lia.
    + apply list_find_None in E. rewrite Forall_forall in E. destruct (E x); [|done].
      by eapply list_elem_of_lookup_2.
Qed.

Lemma range_bodies_search data b e dst is_out ty :
  range_ok data b e ->
  FindEdgeByDstDirectionAndType (edge_data data) (ix_offset b) (ix_offset e) dst is_out ty
  = Some (first_edge (ix_offset b) dst is_out ty (range_bodies data b e)).
Proof.
  intros (H0 & Hle & Hhi & Hmax & Hb & He & Hs). unfold range_bodies in *.
  set (n := Z.to_nat ((ix_offset e - ix_offset b) / EDGEBODY_SIZE)) in *.
  assert (ix_offset e = ix_offset b + EDGEBODY_SIZE * Z.of_nat n) as E.
  { unfold n. change EDGEBODY_SIZE with 16 in *. rewrite Z2Nat.id by (apply Z.div_pos; lia).
    pose proof (Z.div_mod (ix_offset e - ix_offset b) 16 ltac:(lia)).
    rewrite Zminus_mod, Hb, He in *. change ((0 - 0) mod 16) with 0 in *. lia. }
  rewrite E. apply FindEdge_refines; [done|by rewrite <- E|done].
Qed.

(** The body a match of the search names is the one read back at its offset. *)
Lemma range_body_at data b e j body :
  range_ok data b e -> range_bodies data b e !! j = Some body ->
  body_at (edge_data data) (ix_offset b + EDGEBODY_SIZE * Z.of_nat j) = Some body.
Proof.
  intros (H0 & Hle & Hhi & Hmax & Hb & He & Hs) Hj.
  pose proof (lookup_lt_Some _ _ _ Hj) as Hlt. unfold range_bodies in *. rewrite edge_bodies_length in Hlt.
  rewrite <- Hj. apply body_at_edge; [done| |done].
  change EDGEBODY_SIZE with 16 in *.
  pose proof (Z.mul_div_le (ix_offset e - ix_offset b) 16 ltac:(lia)).
  rewrite Z2Nat.id by (apply Z.div_pos; lia). lia.
Qed.

Lemma LocateSstEdgeOrdinal_spec data r :
  wf_sst data -> LocateSstEdgeOrdinal data r = Some (locate_spec data r).
Proof.
  intros [Hk Hr]. unfold LocateSstEdgeOrdinal, locate_spec. rewrite get_first by done.
  destruct (list_find _ (sst_indexes data)) as [[i b]|] eqn:Ei; simpl_bind; [|done].
  apply list_find_Some in Ei as (Hi & _ & _). rewrite (proj2 (Z.ltb_ge _ _)) by lia. cbn [orb].
  destruct (sst_indexes data !! S i) as [e|] eqn:Ee.
  2:{ apply lookup_ge_None in Ee. rewrite (proj2 (Z.leb_le _ _)) by (unfold zlen; lia). done. }
  pose proof (lookup_lt_Some _ _ _ Ee). rewrite (proj2 (Z.leb_gt _ _)) by (unfold zlen; lia).
  rewrite Nat2Z.id, Hi. replace (Z.to_nat (Z.of_nat i + 1)) with (S i) by lia. rewrite Ee.
  simpl_bind. pose proof (Hr _ _ _ Hi Ee) as Hok.
  pose proof Hok as (H0 & Hle & _ & Hmax & Hb & _).
  rewrite !signed_small, range_bodies_search by (done || lia).
  unfold first_edge.
  destruct (list_find _ (range_bodies data b e)) as [[j body]|] eqn:Ej; simpl_bind; [|done].
  apply list_find_Some in Ej as (Hj & _ & _). destruct (Dym.get_marker body); [done|].
  rewrite bool_decide_eq_true_2 by done. cbn [negb orb].
  rewrite (proj2 (Z.ltb_ge _ _)) by (change EDGEBODY_SIZE with 16; lia).
  rewrite get_seq_at_body, (range_body_at data b e j body) by done. cbn [mbind option_bind fmap option_fmap option_map].
  destruct (Dym.get_seq body =? base_sequence r); cbn [negb]; [|done].
  unfold GetEdgeOrdinalFromBodyOffset. rewrite Z.mul_comm, Z.mod_add, Hb by done.
  cbn [Z.eqb mbind option_bind]. by rewrite Z.div_add by done.
Qed.

(** On a well-formed SST, [LocateSstEdgeOrdinal] never reads outside the
    index or the edge mapping, and returns exactly the ordinal of the first edge
    with the record's source, destination, direction and type when that edge is
    live and carries the record's base sequence, and "no such edge" otherwise. *)
Theorem locate_edge_correct (data : SstData) (r : PropertyDeltaRecord) :
  wf_sst data -> LocateSstEdgeOrdinal data r = Some (locate_spec data r).
Proof. apply LocateSstEdgeOrdinal_spec. Qed.

(** Two sources, three edges (one deleted), and the sentinel entries. *)
Definition sample_bodies : list Dym.EdgeBody :=
  [Dym.EdgeBody_t 7 11 0 false true 1; Dym.EdgeBody_t 9 12 8 true true 1;
   Dym.EdgeBody_t 3 13 16 false false 2].
Definition sample_sst : SstData :=
  mkSst [mkIndex 5 0; mkIndex 6 32; mkIndex kInvalidVertexId 48] (concat (pod_encode <$> sample_bodies)) [].

Lemma sample_sst_wf : wf_sst sample_sst.
Proof.
  split; [repeat constructor; vm_compute; reflexivity|].
  intros [|[|i]] b e Hb He; simpl in Hb, He; simplify_eq.
  all: unfold range_ok; split_and!; try (vm_compute; congruence); try reflexivity.
  all: unfold dst_sorted; vm_compute; repeat (constructor; try discriminate).
Qed.

Lemma locate_edge_correct_witness :
  wf_sst sample_sst /\
  LocateSstEdgeOrdinal sample_sst (mkRecord 6 3 13 40 false 2 []) = Some (Some 2) /\
  LocateSstEdgeOrdinal sample_sst (mkRecord 5 9 12 40 true 1 []) = Some None.
Proof.
  split_and!; [exact sample_sst_wf| |].
  all: rewrite locate_edge_correct by exact sample_sst_wf; vm_compute; reflexivity.
Defined.
