(* ===== verification/SkipList.v ===== *)
(** * The skip list of a MemTable adjacency

    [Edge_string] and [EdgeComparator] of core/graph/edge.h and [SkipList] of
    core/neighbors.h. Nodes live in a heap of numbered cells; a [next_] array is
    the list of forward pointers, its length the height of the node. [None] is
    undefined behaviour: a dangling pointer, a forward pointer above a node's
    height, or (in a build with assertions) a failed [assert]. *)

From S2P Require Import Prelude.
From S2P Require Import Types.

(** ** [Edge_string] *)
Record Edge := mkEdge {
  destination : Z;
  sequence : Z;
  marker : bool;
  property : bytes;
  e_is_out : bool;
  e_edge_type : Z;
}.
#[export] Instance Edge_eq_dec : EqDecision Edge.
Proof. solve_decision. Defined.

Definition default_edge : Edge := mkEdge kInvalidVertexId 0 false [] true 0.

(** [Edge(dst, MAX_SEQ_ID)], the probe of the lookups. *)
Definition probe (dst : Z) : Edge := mkEdge dst kMaxSequence false [] true 0.

(** [property(sub_property_id)]: characters of the [sub_property_id]-th field. *)
Fixpoint sub_property (p : bytes) (now_id sub_property_id : Z) : bytes :=
  match p with
  | [] => []
  | c :: rest =>
      let now_id' := if bool_decide (c = byte_of 124) then now_id + 1 else now_id in
      let here := if bool_decide (c = byte_of 124) then []
                  else if now_id =? sub_property_id then [c] else [] in
      if sub_property_id <? now_id' then here
      else here ++ sub_property rest now_id' sub_property_id
  end.

Definition Edge_property (e : Edge) (sub_property_id : Z) : bytes :=
  if sub_property_id =? -1 then property e else sub_property (property e) 0 sub_property_id.

(** [operator<] and [EdgeComparator::compare]: newer versions first. *)
Definition edge_less (a b : Edge) : bool :=
  if destination a <? destination b then true
  else if destination a =? destination b then sequence b <? sequence a
  else false.

Definition compare (a b : Edge) : Z :=
  if destination a <? destination b then -1
  else if destination b <? destination a then 1
  else if sequence a <? sequence b then 1
  else if sequence b <? sequence a then -1
  else 0.

(** ** Nodes and the list *)
Definition kMaxHeight : nat := 4.
Definition kBranching : Z := 4.
Definition kScaledInverseBranching : Z := 2147483647 / kBranching.

Record Node := mkNode { key : Edge; next_ : list (option nat) }.

Definition head_ : nat := 0.

Record SkipList := mkList {
  nodes : gmap nat Node;
  prev_ : list nat;
  max_height_ : nat;
  prev_height_ : nat;
  size_ : nat;
  property_size_ : Z;
}.

Definition new_list : SkipList :=
  mkList {[ head_ := mkNode (mkEdge 0 0 false [] true 0) (replicate kMaxHeight None) ]}
    (replicate kMaxHeight head_) 1 1 0 0.

(** [rand() < kScaledInverseBranching_] while below the maximal height; each
    draw is one call of [rand]. *)
Fixpoint random_height (height : nat) (draws : list Z) : nat :=
  match draws with
  | r :: draws =>
      if (height <? kMaxHeight)%nat && (r <? kScaledInverseBranching)
      then random_height (S height) draws else height
  | [] => height
  end.
Definition RandomHeight (draws : list Z) : nat := random_height 1 draws.

(** [assert], compiled in when [debug] is set. *)
Definition assert_ (debug c : bool) : option unit := if debug && negb c then None else Some ().

Section Operations.
Context (debug : bool).

(** [x->Next(level)]; the inner option is [nullptr]. *)
Definition Next (ns : gmap nat Node) (x level : nat) : option (option nat) :=
  n ← ns !! x; next_ n !! level.

Definition SetNext (ns : gmap nat Node) (x level : nat) (p : option nat) : option (gmap nat Node) :=
  n ← ns !! x;
  if (level <? length (next_ n))%nat then Some (<[x := mkNode (key n) (<[level := p]> (next_ n))]> ns)
  else None.

Definition KeyIsAfterNode (ns : gmap nat Node) (k : Edge) (n : option nat) : option bool :=
  match n with
  | None => Some false
  | Some n => nd ← ns !! n; Some (compare (key nd) k <? 0)
  end.

(** The two assertions at the head of both searches: the list is sorted at
    [x], and the search has not overshot. *)
Definition search_asserts (ns : gmap nat Node) (k : Edge) (x : nat) (nxt : option nat) : option unit :=
  sorted ← match nxt with
           | None => Some true
           | Some n => nd ← ns !! n; a ← KeyIsAfterNode ns (key nd) (Some x); Some ((x =? head_)%nat || a)
           end;
  _ ← assert_ debug sorted;
  after ← KeyIsAfterNode ns k (Some x);
  assert_ debug ((x =? head_)%nat || after).

Fixpoint find_ge (fuel : nat) (ns : gmap nat Node) (k : Edge) (x level : nat) (last_bigger : option nat)
    : option (option nat) :=
  match fuel with
  | O => None
  | S fuel =>
      nxt ← Next ns x level;
      _ ← search_asserts ns k x nxt;
      cmp ← match nxt with
            | None => Some 1
            | Some n => if bool_decide (nxt = last_bigger) then Some 1
                        else nd ← ns !! n; Some (compare (key nd) k)
            end;
      if cmp =? 0 then Some nxt
      else if 0 <? cmp then
        match level with
        | O => Some nxt
        | S level => find_ge fuel ns k x level nxt
        end
      else match nxt with
           | Some n => find_ge fuel ns k n level last_bigger
           | None => None
           end
  end.

(** Each iteration advances along the list or descends a level. *)
Definition search_fuel (sl : SkipList) : nat := size_ sl + S kMaxHeight.

Definition FindGreaterOrEqual (sl : SkipList) (k : Edge) : option (option nat) :=
  find_ge (search_fuel sl) (nodes sl) k head_ (max_height_ sl - 1) None.

(** [FindLessThan(key, prev)]: the result and the updated [prev] array. *)
Fixpoint find_lt (fuel : nat) (ns : gmap nat Node) (k : Edge) (x level : nat)
    (last_not_after : option nat) (prev : list nat) : option (nat * list nat) :=
  match fuel with
  | O => None
  | S fuel =>
      nxt ← Next ns x level;
      _ ← search_asserts ns k x nxt;
      after ← KeyIsAfterNode ns k nxt;
      match nxt with
      | Some n =>
          if negb (bool_decide (nxt = last_not_after)) && after
          then find_lt fuel ns k n level last_not_after prev
          else match level with
               | O => Some (x, <[O := x]> prev)
               | S level' => find_lt fuel ns k x level' nxt (<[level := x]> prev)
               end
      | None =>
          match level with
          | O => Some (x, <[O := x]> prev)
          | S level' => find_lt fuel ns k x level' nxt (<[level := x]> prev)
          end
      end
  end.

Definition FindLessThan (sl : SkipList) (k : Edge) (prev : list nat) : option (nat * list nat) :=
  find_lt (search_fuel sl) (nodes sl) k head_ (max_height_ sl - 1) None prev.

(** [for (i = 1; i < prev_height_; i++) prev_[i] = prev_[0]] *)
Definition spread_prev (prev_height : nat) (p0 : nat) (prev : list nat) : list nat :=
  imap (fun i p => if (1 <=? i)%nat && (i <? prev_height)%nat then p0 else p) prev.

(** [for (i = GetMaxHeight(); i < height; i++) prev_[i] = head_] *)
Definition raise_prev (max_height height : nat) (prev : list nat) : list nat :=
  imap (fun i p => if (max_height <=? i)%nat && (i <? height)%nat then head_ else p) prev.

(** The linking loop over the levels [i .. i + n). *)
Fixpoint link (n i : nat) (x : nat) (prev : list nat) (ns : gmap nat Node) : option (gmap nat Node) :=
  match n with
  | O => Some ns
  | S n =>
      p ← prev !! i;
      after ← Next ns p i;
      ns1 ← SetNext ns x i after;
      ns2 ← SetNext ns1 p i (Some x);
      link n (S i) x prev ns2
  end.

(** The predecessors of the insertion: the remembered ones on the fast path of
    sequential insertion, a search otherwise. *)
Definition insertion_prev (sl : SkipList) (ns : gmap nat Node) (k : Edge) : option (list nat) :=
  p0 ← prev_ sl !! 0%nat;
  nxt ← Next ns p0 0;
  a ← KeyIsAfterNode ns k nxt;
  b ← KeyIsAfterNode ns k (Some p0);
  if negb a && ((p0 =? head_)%nat || b) then
    _ ← assert_ debug (negb (p0 =? head_)%nat
                       || ((prev_height_ sl =? 1)%nat && (max_height_ sl =? 1)%nat));
    Some (spread_prev (prev_height_ sl) p0 (prev_ sl))
  else snd <$> FindLessThan (mkList ns (prev_ sl) (max_height_ sl) (prev_height_ sl) (size_ sl)
                               (property_size_ sl)) k (prev_ sl).

(** [put_edge]; the first [reserve_node] insertions take preallocated nodes of
    height one. *)
Definition put_edge (reserve_node : Z) (draws : list Z) (sl : SkipList) (k : Edge) : option SkipList :=
  let height := if Z.of_nat (size_ sl) <? reserve_node then 1%nat else RandomHeight draws in
  let x := S (size_ sl) in
  let ns := <[x := mkNode k (replicate height None)]> (nodes sl) in
  prev ← insertion_prev sl ns k;
  p0 ← prev !! 0%nat;
  nxt ← Next ns p0 0;
  _ ← match nxt with
      | None => Some ()
      | Some n => nd ← ns !! n; assert_ debug (negb (compare k (key nd) =? 0))
      end;
  let prev := raise_prev (max_height_ sl) height prev in
  ns ← link height 0 x prev ns;
  Some (mkList ns (<[0%nat := x]> prev) (Nat.max (max_height_ sl) height) height
          (S (size_ sl)) (signed 32 (property_size_ sl + zlen (property k)))).

(** ** Lookups *)

(** [while (x != nullptr && x->key.destination() == key.destination())] *)
Fixpoint scan_dst (fuel : nat) (ns : gmap nat Node) (dst : Z) (is_out : bool) (edge_type : Z)
    (x : option nat) : option (option Edge) :=
  match x with
  | None => Some None
  | Some n =>
      match fuel with
      | O => None
      | S fuel =>
          nd ← ns !! n;
          if negb (destination (key nd) =? dst) then Some None
          else if bool_decide (e_is_out (key nd) = is_out) && (e_edge_type (key nd) =? edge_type)
          then Some (Some (key nd))
          else nxt ← Next ns n 0; scan_dst fuel ns dst is_out edge_type nxt
      end
  end.

(** What a lookup reports of the edge it found. *)
Definition status_of {A} (f : Edge -> A) (e : option Edge) : Status * option A :=
  match e with
  | None => (kNotFound, None)
  | Some e => if marker e then (kDelete, None) else (kOk, Some (f e))
  end.

(** [get(dst, is_out, edge_type, property)] and its sequence variant. *)
Definition find_typed (sl : SkipList) (dst : Z) (is_out : bool) (edge_type : Z) : option (option Edge) :=
  x ← FindGreaterOrEqual sl (probe dst);
  scan_dst (S (size_ sl)) (nodes sl) dst is_out edge_type x.

Definition get_typed (sl : SkipList) (dst : Z) (is_out : bool) (edge_type : Z)
    : option (Status * option bytes) := status_of property <$> find_typed sl dst is_out edge_type.

Definition get_typed_seq (sl : SkipList) (dst : Z) (is_out : bool) (edge_type : Z)
    : option (Status * option Z) := status_of sequence <$> find_typed sl dst is_out edge_type.

(** [get(dst, property)] and [get(dst, seq)]: only the first node is inspected. *)
Definition find_untyped (sl : SkipList) (dst : Z) : option (option Edge) :=
  x ← FindGreaterOrEqual sl (probe dst);
  match x with
  | None => Some None
  | Some n => nd ← nodes sl !! n;
              Some (if destination (key nd) =? dst then Some (key nd) else None)
  end.

Definition get_untyped (sl : SkipList) (dst : Z) : option (Status * option bytes) :=
  status_of property <$> find_untyped sl dst.
Definition get_untyped_seq (sl : SkipList) (dst : Z) : option (Status * option Z) :=
  status_of sequence <$> find_untyped sl dst.

(** [MemEdgeIterator] from [SeekToFirst]: the level-0 list. *)
Fixpoint walk (fuel : nat) (ns : gmap nat Node) (x : option nat) : option (list Edge) :=
  match x with
  | None => Some []
  | Some n =>
      match fuel with
      | O => None
      | S fuel => nd ← ns !! n; nxt ← Next ns n 0; rest ← walk fuel ns nxt; Some (key nd :: rest)
      end
  end.

Definition iterate (sl : SkipList) : option (list Edge) :=
  first ← Next (nodes sl) head_ 0; walk (S (size_ sl)) (nodes sl) first.

(** [get_edges]: [edges.resize(size_)], then a descent from the top level that
    stores the key of the node it leaves. *)
Fixpoint get_edges_loop (fuel : nat) (ns : gmap nat Node) (x level : nat) (acc : list Edge)
    : option (list Edge) :=
  match fuel with
  | O => None
  | S fuel =>
      nxt ← Next ns x level;
      match nxt with
      | None => match level with O => Some acc | S level => get_edges_loop fuel ns x level acc end
      | Some n => nd ← ns !! x; get_edges_loop fuel ns n level (acc ++ [key nd])
      end
  end.

Definition get_edges (sl : SkipList) : option (list Edge) :=
  written ← get_edges_loop (search_fuel sl) (nodes sl) head_ (max_height_ sl - 1) [];
  Some (take (size_ sl) (written ++ replicate (size_ sl - length written) default_edge)).
End Operations.
