(* ===== verification/SkipListFacts.v ===== *)
(** * The skip list refines a sorted list

    The representation invariant of [SkipList] and its preservation by
    [put_edge]: at every level the forward pointers link exactly the nodes of
    sufficient height, in key order, and the remembered predecessors are the
    predecessors of the last insertion. *)

From S2P Require Import Prelude.
From S2P Require Import Types.
From S2P Require Import SkipList.

(** ** The order of the list *)
Ltac cmp_lia :=
  unfold compare in *;
  repeat match goal with
    | H : context [Z.ltb ?a ?b] |- _ => destruct (Z.ltb_spec a b)
    | |- context [Z.ltb ?a ?b] => destruct (Z.ltb_spec a b)
    end; try lia.

Lemma compare_lt_le_trans a b k : compare a b <= 0 -> compare b k < 0 -> compare a k < 0.
Proof. cmp_lia. Qed.
Lemma compare_le_ge_trans a b k : compare a b <= 0 -> 0 <= compare a k -> 0 <= compare b k.
Proof. cmp_lia. Qed.
Lemma compare_flip a k : 0 <= compare a k -> compare k a <= 0.
Proof. cmp_lia. Qed.
Lemma compare_flip_strict a k : compare a k <> 0 -> 0 <= compare a k -> compare k a < 0.
Proof. cmp_lia. Qed.

(** Keys may repeat only where assertions are compiled out. *)
Definition ordered (debug : bool) (a b : Edge) : Prop :=
  if debug then compare a b < 0 else compare a b <= 0.

Lemma ordered_le debug a b : ordered debug a b -> compare a b <= 0.
Proof. destruct debug; simpl; lia. Qed.

(** ** Linked levels *)
Definition lvl (ht : nat -> nat) (i : nat) (l : list nat) : list nat :=
  filter (fun x => (i < ht x)%nat) l.

Fixpoint linked (ns : gmap nat Node) (i : nat) (l : list nat) : Prop :=
  match l with
  | [] => True
  | x :: l' => Next ns x i = Some (head l') /\ linked ns i l'
  end.

Definition shape (ht : nat -> nat) (ky : nat -> Edge) (ns : gmap nat Node) (l : list nat) : Prop :=
  forall x, x ∈ l -> exists n, ns !! x = Some n /\ length (next_ n) = ht x /\ key n = ky x.

(** The last node of [l] that reaches level [i]. *)
Definition is_pred (ht : nat -> nat) (l : list nat) (i q : nat) : Prop :=
  exists A B, l = A ++ q :: B /\ (i < ht q)%nat /\ lvl ht i B = [].

Lemma lvl_app ht i l k : lvl ht i (l ++ k) = lvl ht i l ++ lvl ht i k.
Proof. apply filter_app. Qed.

Lemma lvl_cons_in ht i x l : (i < ht x)%nat -> lvl ht i (x :: l) = x :: lvl ht i l.
Proof. intros. unfold lvl. by rewrite filter_cons_True. Qed.

Lemma lvl_cons_out ht i x l : ~ (i < ht x)%nat -> lvl ht i (x :: l) = lvl ht i l.
Proof. intros. unfold lvl. by rewrite filter_cons_False. Qed.

Lemma lvl_ext ht ht' i l : (forall x, x ∈ l -> ht x = ht' x) -> lvl ht i l = lvl ht' i l.
Proof.
  induction l as [|x l IH]; intros E; [done|]. unfold lvl in *. rewrite !filter_cons.
  rewrite (E x) by left. rewrite IH; [done|]. intros. apply E. by right.
Qed.

Lemma lvl_nil_high ht i l : (forall x, x ∈ l -> (ht x <= i)%nat) -> lvl ht i l = [].
Proof.
  induction l as [|x l IH]; intros E; [done|]. rewrite lvl_cons_out; [apply IH; intros; apply E; by right|].
  specialize (E x ltac:(left)). lia.
Qed.

Lemma lvl_zero ht l : (forall x, x ∈ l -> (1 <= ht x)%nat) -> lvl ht 0 l = l.
Proof.
  induction l as [|x l IH]; intros E; [done|].
  rewrite lvl_cons_in by (specialize (E x ltac:(left)); lia). f_equal. apply IH. intros. apply E. by right.
Qed.

Lemma lvl_elem ht i l x : x ∈ lvl ht i l -> x ∈ l.
Proof. unfold lvl. by intros [_ ?]%list_elem_of_filter. Qed.

(** The first node of a level, split out of the whole list. *)
Lemma lvl_cons_split ht i l n l' :
  lvl ht i l = n :: l' -> exists A B, l = A ++ n :: B /\ (i < ht n)%nat.
Proof.
  induction l as [|x l IH]; [done|]. destruct (decide (i < ht x)%nat).
  - rewrite lvl_cons_in by done. intros [= -> _]. by exists [], l.
  - rewrite lvl_cons_out by done. intros (A & B & -> & ?)%IH. by exists (x :: A), B.
Qed.

Lemma linked_mid ns i A x B : linked ns i (A ++ x :: B) -> Next ns x i = Some (head B).
Proof. induction A as [|a A IH]; simpl; naive_solver. Qed.

Lemma linked_ext ns ns' i l :
  (forall x, x ∈ l -> Next ns' x i = Next ns x i) -> linked ns i l -> linked ns' i l.
Proof.
  induction l as [|x l IH]; simpl; intros E; [done|]. intros [Hx Hl].
  split; [by rewrite E by left|]. apply IH; [|done]. intros. apply E. by right.
Qed.

Lemma linked_insert ns ns' i A q x B :
  linked ns i (A ++ q :: B) -> NoDup (A ++ q :: B) -> x ∉ A ++ q :: B ->
  Next ns' x i = Some (head B) -> Next ns' q i = Some (Some x) ->
  (forall y, y <> x -> y <> q -> Next ns' y i = Next ns y i) ->
  linked ns' i (A ++ q :: x :: B).
Proof.
  induction A as [|a A IH]; cbn [app linked]; intros Hl Hnd Hx Ex Eq Eo.
  - apply NoDup_cons in Hnd as [Hq Hnd]. split_and!; [done|done|].
    destruct Hl as [_ Hl]. eapply linked_ext; [|done]. intros y Hy. apply Eo; set_solver.
  - apply NoDup_cons in Hnd as [Ha Hnd]. destruct Hl as [Ha' Hl]. split.
    + rewrite Eo by set_solver. rewrite Ha'. by destruct A.
    + apply IH; try done. set_solver.
Qed.

(** ** Writing a forward pointer *)
Lemma Next_shape ht ky ns l x i :
  shape ht ky ns l -> x ∈ l -> (i < ht x)%nat -> is_Some (Next ns x i).
Proof.
  intros Hs Hx Hi. destruct (Hs x Hx) as (n & En & Hn & _). unfold Next. rewrite En. simpl.
  apply lookup_lt_is_Some_2. lia.
Qed.

Lemma SetNext_spec ht ky ns l x i p :
  shape ht ky ns l -> x ∈ l -> (i < ht x)%nat ->
  exists ns', SetNext ns x i p = Some ns' /\ shape ht ky ns' l /\ Next ns' x i = Some p /\
    (forall y j, y <> x \/ j <> i -> Next ns' y j = Next ns y j).
Proof.
  intros Hs Hx Hi. destruct (Hs x Hx) as (n & En & Hn & Hk). unfold SetNext. rewrite En. simpl_bind.
  rewrite (proj2 (Nat.ltb_lt _ _)) by lia. eexists. split; [done|]. split_and!.
  - intros y Hy. destruct (decide (y = x)) as [->|].
    + eexists. rewrite lookup_insert_eq. split; [done|]. simpl. by rewrite length_insert.
    + rewrite lookup_insert_ne by done. by apply Hs.
  - unfold Next. rewrite lookup_insert_eq. simpl. by rewrite list_lookup_insert_eq by lia.
  - intros y j Hne. unfold Next. destruct (decide (y = x)) as [->|].
    + rewrite lookup_insert_eq, En. simpl. destruct Hne as [|]; [done|]. by rewrite list_lookup_insert_ne.
    + by rewrite lookup_insert_ne.
Qed.

(** ** The linking loop *)
Section Link.
Context (ht : nat -> nat) (ky : nat -> Edge) (L Hi : list nat) (x h : nat) (prev : list nat).
Context (Hnd : NoDup (L ++ Hi)) (Hx : x ∉ L ++ Hi) (Hh : ht x = h) (Hh4 : (h <= kMaxHeight)%nat).
Context (Hprev : forall i, (i < kMaxHeight)%nat -> exists q, prev !! i = Some q /\ is_pred ht L i q).

Lemma link_spec n i ns :
  (i + n = h)%nat ->
  shape ht ky ns (x :: L ++ Hi) ->
  (forall j, (j < i)%nat -> linked ns j (lvl ht j (L ++ x :: Hi))) ->
  (forall j, (i <= j < kMaxHeight)%nat -> linked ns j (lvl ht j (L ++ Hi))) ->
  exists ns', link n i x prev ns = Some ns' /\ shape ht ky ns' (x :: L ++ Hi) /\
    (forall j, (j < kMaxHeight)%nat -> linked ns' j (lvl ht j (L ++ x :: Hi))).
Proof.
  revert i ns. induction n as [|n IH]; intros i ns Hi_ Hs Hlo Hhi; cbn [link].
  - exists ns. split_and!; try done. intros j Hj. destruct (decide (j < i)%nat); [by apply Hlo|].
    rewrite lvl_app, lvl_cons_out, <- lvl_app by lia. apply Hhi. lia.
  - destruct (Hprev i) as (q & Eq & A & B & EL & Hq & HB); [lia|].
    rewrite Eq. simpl_bind.
    pose proof (Hhi i ltac:(lia)) as Hlink.
    assert (lvl ht i (L ++ Hi) = lvl ht i A ++ q :: lvl ht i Hi) as Elvl.
    { by rewrite EL, <- app_assoc, <- app_comm_cons, lvl_app, lvl_cons_in, lvl_app, HB by done. }
    rewrite Elvl in Hlink. rewrite (linked_mid _ _ _ _ _ Hlink). simpl_bind.
    assert (q ∈ L) as HqL by (rewrite EL; set_solver).
    assert (q <> x) as Hqx by set_solver.
    destruct (SetNext_spec ht ky ns (x :: L ++ Hi) x i (head (lvl ht i Hi))) as (ns1 & -> & Hs1 & Ex & Eo);
      [done|left|lia|]. simpl_bind.
    destruct (SetNext_spec ht ky ns1 (x :: L ++ Hi) q i (Some x)) as (ns2 & -> & Hs2 & Eq2 & Eo2);
      [done|set_solver|done|]. simpl_bind.
    apply IH; [lia|done| |].
    + intros j Hj. destruct (decide (j = i)) as [->|].
      * rewrite EL, <- app_assoc, <- app_comm_cons, lvl_app, lvl_cons_in by done.
        rewrite lvl_app, HB, lvl_cons_in by lia. cbn [app].
        eapply (linked_insert ns); [exact Hlink| | | |done|].
        -- rewrite <- Elvl. by apply NoDup_filter.
        -- rewrite <- Elvl. intros ?%lvl_elem. done.
        -- rewrite Eo2 by (by left). done.
        -- intros y Hy1 Hy2. rewrite Eo2, Eo by (by left). done.
      * eapply linked_ext; [|apply Hlo; lia]. intros y _. rewrite Eo2, Eo by (right; lia). done.
    + intros j Hj. eapply linked_ext; [|apply Hhi; lia]. intros y _. rewrite Eo2, Eo by (right; lia). done.
Qed.
End Link.

Lemma assert_true debug : assert_ debug true = Some ().
Proof. unfold assert_. by rewrite andb_false_r. Qed.

(** ** The searches *)
Section Search.
Context (debug : bool) (ht : nat -> nat) (ky : nat -> Edge) (ns : gmap nat Node) (k : Edge).
Context (Lo Hi : list nat).
Let L := head_ :: Lo.
Context (Hshape : shape ht ky ns (L ++ Hi)).
Context (Hlinked : forall i, (i < kMaxHeight)%nat -> linked ns i (lvl ht i (L ++ Hi))).
Context (Hsorted : StronglySorted (fun x y => ordered debug (ky x) (ky y)) (Lo ++ Hi)).
Context (Hnd : NoDup (L ++ Hi)).
Context (HLo : forall y, y ∈ Lo -> compare (ky y) k < 0).
Context (HHi : forall y, y ∈ Hi -> 0 <= compare (ky y) k).

Lemma KeyIsAfter_eval n : n ∈ L ++ Hi -> KeyIsAfterNode ns k (Some n) = Some (compare (ky n) k <? 0).
Proof. intros Hn. destruct (Hshape n Hn) as (nd & En & _ & Ek). simpl. by rewrite En, <- Ek. Qed.

Lemma Next_at P x R i :
  L ++ Hi = P ++ x :: R -> (i < ht x)%nat -> (i < kMaxHeight)%nat ->
  Next ns x i = Some (head (lvl ht i R)).
Proof.
  intros E Hx Hi_. specialize (Hlinked i Hi_). rewrite E, lvl_app, lvl_cons_in in Hlinked by done.
  by apply linked_mid in Hlinked.
Qed.

(** The order of two nodes of the list, the first not the head. *)
Lemma key_order P x R n :
  L ++ Hi = P ++ x :: R -> n ∈ R -> x <> head_ -> ordered debug (ky x) (ky n).
Proof.
  intros E Hn Hx. destruct P as [|p P].
  - injection E as <- _. done.
  - injection E as _ E. rewrite E in Hsorted. apply StronglySorted_app_1_r, StronglySorted_inv in Hsorted as [_ H].
    rewrite Forall_forall in H. by apply H.
Qed.

Lemma asserts_pass P x R nxt :
  L ++ Hi = P ++ x :: R -> x ∈ L -> (nxt = None \/ exists n, nxt = Some n /\ n ∈ R) ->
  search_asserts debug ns k x nxt = Some ().
Proof.
  intros E Hx Hn. unfold search_asserts.
  assert (x ∈ L ++ Hi) as HxA by set_solver.
  assert ((x =? head_)%nat || (compare (ky x) k <? 0) = true) as Hafter.
  { apply elem_of_cons in Hx as [->|Hx]; [done|]. apply orb_true_iff. right. apply Z.ltb_lt. by apply HLo. }
  rewrite (KeyIsAfter_eval x HxA).
  destruct Hn as [->|(n & -> & Hn)]; simpl_bind.
  - rewrite assert_true. simpl_bind. by rewrite Hafter, assert_true.
  - assert (n ∈ L ++ Hi) as HnA by (rewrite E; set_solver).
    destruct (Hshape n HnA) as (nd & -> & _ & Ek). destruct (Hshape x HxA) as (xd & Ex & _ & Ekx).
    cbn [mbind option_bind KeyIsAfterNode]. rewrite Ex. simpl_bind.
    rewrite Ek, Ekx, Hafter, assert_true.
    destruct (Nat.eqb_spec x head_) as [->|Hne]; cbn [orb]; [by rewrite assert_true|].
    pose proof (key_order P x R n E Hn Hne) as Ho. unfold ordered in Ho.
    case_match; [|done]. by rewrite (proj2 (Z.ltb_lt _ _)) by done.
Qed.

(** The next node on a level: another node below the key, or the first node of
    the level above it. *)
Lemma next_cases P x Q i :
  L = P ++ x :: Q -> (i < ht x)%nat -> (i < kMaxHeight)%nat ->
  (exists A n B, Q = A ++ n :: B /\ (i < ht n)%nat /\ Next ns x i = Some (Some n)) \/
  (lvl ht i Q = [] /\ Next ns x i = Some (head (lvl ht i Hi))).
Proof.
  intros E Hx Hi_. pose proof (Next_at P x (Q ++ Hi) i) as HN.
  rewrite E, <- app_assoc in HN. specialize (HN eq_refl Hx Hi_). rewrite lvl_app in HN.
  destruct (lvl ht i Q) as [|n Q'] eqn:EQ; [by right|]. left.
  destruct (lvl_cons_split _ _ _ _ _ EQ) as (A & B & -> & Hn). by exists A, n, B.
Qed.

Lemma next_not_below i n : head (lvl ht i Hi) = Some n -> n ∈ Hi.
Proof. intros Hn%head_Some_elem_of. by apply lvl_elem in Hn. Qed.

Lemma find_lt_spec fuel level x P Q lna prev :
  L = P ++ x :: Q -> (level < ht x)%nat -> (level < kMaxHeight)%nat ->
  (length Q + level < fuel)%nat -> length prev = kMaxHeight ->
  (forall y, lna = Some y -> y ∈ Hi) ->
  exists y prev', find_lt debug fuel ns k x level lna prev = Some (y, prev') /\ length prev' = kMaxHeight /\
    (forall i, (i <= level)%nat -> exists q, prev' !! i = Some q /\ is_pred ht L i q) /\
    (forall i, (level < i)%nat -> prev' !! i = prev !! i).
Proof.
  revert level x P Q lna prev.
  induction fuel as [|fuel IH]; intros level x P Q lna prev E Hx Hl4 Hf Hp Hlna; [lia|].
  assert (L ++ Hi = P ++ x :: (Q ++ Hi)) as EL by (by rewrite E, <- app_assoc).
  cbn [find_lt].
  (* stopping at [x] on this level *)
  assert (forall nxt, (forall n, nxt = Some n -> n ∈ Hi) -> lvl ht level Q = [] ->
    exists y prev', match level with
      | O => Some (x, <[O := x]> prev)
      | S level' => find_lt debug fuel ns k x level' nxt (<[level := x]> prev)
      end = Some (y, prev') /\ length prev' = kMaxHeight /\
      (forall i, (i <= level)%nat -> exists q, prev' !! i = Some q /\ is_pred ht L i q) /\
      (forall i, (level < i)%nat -> prev' !! i = prev !! i)) as Hstop.
  { intros nxt Hnxt HQ. assert (is_pred ht L level x) as Hpred by (by exists P, Q).
    destruct level as [|level'].
    - exists x, (<[0%nat := x]> prev). split; [done|]. rewrite length_insert. split; [done|]. split.
      + intros i Hi_. assert (i = 0%nat) as -> by lia. exists x. by rewrite list_lookup_insert_eq by (rewrite Hp; done).
      + intros i Hi_. apply list_lookup_insert_ne. lia.
    - destruct (IH level' x P Q nxt (<[S level' := x]> prev)) as (y & prev' & -> & Hlen & Hle & Hgt);
        [done|lia|lia|lia|by rewrite length_insert|done|].
      exists y, prev'. split_and!; try done.
      + intros i Hi_. destruct (decide (i = S level')) as [->|]; [|apply Hle; lia].
        exists x. rewrite Hgt by lia. by rewrite list_lookup_insert_eq by (rewrite Hp; done).
      + intros i Hi_. rewrite Hgt by lia. apply list_lookup_insert_ne. lia. }
  destruct (next_cases P x Q level E Hx Hl4) as [(A & n & B & EQ & Hn & HN)|[HQ HN]].
  - rewrite HN. simpl_bind.
    assert (n ∈ Lo) as HnLo.
    { assert (n ∈ Q) as HnQ by (rewrite EQ; set_solver). unfold L in E. destruct P; injection E as _ ->; set_solver. }
    rewrite (asserts_pass P x (Q ++ Hi)); [|done|rewrite E; set_solver|right; exists n; split; [done|rewrite EQ; set_solver]].
    simpl_bind. rewrite KeyIsAfter_eval by set_solver. simpl_bind.
    rewrite (proj2 (Z.ltb_lt _ _)) by (by apply HLo). rewrite andb_true_r.
    rewrite bool_decide_eq_false_2; cycle 1.
    { intros Heq. symmetry in Heq. specialize (Hlna n Heq). specialize (HHi n Hlna). specialize (HLo n HnLo). lia. }
    cbn [negb]. apply (IH level n (P ++ x :: A) B); try done.
    + rewrite E, EQ, <- app_assoc. done.
    + rewrite EQ, length_app in Hf. simpl in Hf. lia.
  - rewrite HN. simpl_bind.
    assert (forall n, head (lvl ht level Hi) = Some n -> n ∈ Hi) as Hnb by (intros; by eapply next_not_below).
    rewrite (asserts_pass P x (Q ++ Hi)); [|done|rewrite E; set_solver|].
    2:{ destruct (head (lvl ht level Hi)) as [n|] eqn:En; [right; exists n; split; [done|]|by left].
        specialize (Hnb n eq_refl). set_solver. }
    simpl_bind. destruct (head (lvl ht level Hi)) as [n|] eqn:En.
    + rewrite KeyIsAfter_eval by (specialize (Hnb n eq_refl); set_solver). simpl_bind.
      rewrite (proj2 (Z.ltb_ge _ _)) by (apply HHi; by apply Hnb). rewrite andb_false_r. by apply Hstop.
    + cbn [KeyIsAfterNode mbind option_bind]. by apply Hstop.
Qed.

Context (Hht : forall y, y ∈ L ++ Hi -> (1 <= ht y)%nat).

Lemma find_ge_spec fuel level x P Q last :
  (forall y, y ∈ Hi -> compare (ky y) k = 0 -> head Hi = Some y) ->
  L = P ++ x :: Q -> (level < ht x)%nat -> (level < kMaxHeight)%nat ->
  (length Q + level < fuel)%nat -> (forall y, last = Some y -> y ∈ Hi) ->
  find_ge debug fuel ns k x level last = Some (head Hi).
Proof.
  intros Heq. revert level x P Q last.
  induction fuel as [|fuel IH]; intros level x P Q last E Hx Hl4 Hf Hlast; [lia|].
  assert (L ++ Hi = P ++ x :: (Q ++ Hi)) as EL by (by rewrite E, <- app_assoc).
  cbn [find_ge].
  (* the search leaves this level *)
  assert (lvl ht level Q = [] ->
    match level with
    | O => Some (head (lvl ht level Hi))
    | S level' => find_ge debug fuel ns k x level' (head (lvl ht level Hi))
    end = Some (head Hi)) as Hdown.
  { intros HQ. destruct level as [|level'].
    - f_equal. rewrite lvl_zero; [done|]. intros. apply Hht. set_solver.
    - apply (IH level' x P Q); [done|lia|lia|lia|]. intros y Hy. by eapply next_not_below. }
  destruct (next_cases P x Q level E Hx Hl4) as [(A & n & B & EQ & Hn & HN)|[HQ HN]].
  - rewrite HN. simpl_bind.
    assert (n ∈ Lo) as HnLo.
    { assert (n ∈ Q) as HnQ by (rewrite EQ; set_solver). unfold L in E. destruct P; injection E as _ ->; set_solver. }
    rewrite (asserts_pass P x (Q ++ Hi)); [|done|rewrite E; set_solver|right; exists n; split; [done|rewrite EQ; set_solver]].
    simpl_bind. rewrite bool_decide_eq_false_2; cycle 1.
    { intros Hl. symmetry in Hl. specialize (Hlast n Hl). specialize (HHi n Hlast). specialize (HLo n HnLo). lia. }
    destruct (Hshape n) as (nd & -> & _ & Ek); [set_solver|]. simpl_bind. rewrite Ek.
    specialize (HLo n HnLo). rewrite (proj2 (Z.eqb_neq _ _)), (proj2 (Z.ltb_ge _ _)) by lia.
    apply (IH level n (P ++ x :: A) B); try done.
    + rewrite E, EQ, <- app_assoc. done.
    + rewrite EQ, length_app in Hf. simpl in Hf. lia.
  - rewrite HN. simpl_bind.
    assert (forall n, head (lvl ht level Hi) = Some n -> n ∈ Hi) as Hnb by (intros; by eapply next_not_below).
    rewrite (asserts_pass P x (Q ++ Hi)); [|done|rewrite E; set_solver|].
    2:{ destruct (head (lvl ht level Hi)) as [n|] eqn:En; [right; exists n; split; [done|]|by left].
        specialize (Hnb n eq_refl). set_solver. }
    simpl_bind. specialize (Hdown HQ).
    destruct (head (lvl ht level Hi)) as [n|] eqn:En; [|simpl_bind; exact Hdown].
    specialize (Hnb n eq_refl). case_bool_decide; [simpl_bind; exact Hdown|].
    destruct (Hshape n) as (nd & -> & _ & Ek); [set_solver|]. simpl_bind. rewrite Ek.
    destruct (Z.eqb_spec (compare (ky n) k) 0) as [E0|]; [by rewrite (Heq n)|].
    specialize (HHi n Hnb). rewrite (proj2 (Z.ltb_lt _ _)) by lia. exact Hdown.
Qed.
End Search.

(** ** The representation invariant *)
(** The part of the invariant about the heap. *)
Record heap_ok (debug : bool) (ht : nat -> nat) (ky : nat -> Edge) (max : nat) (ns : gmap nat Node)
    (chain : list nat) : Prop := {
  heap_nodup : NoDup (head_ :: chain);
  heap_shape : shape ht ky ns (head_ :: chain);
  heap_head : ht head_ = kMaxHeight;
  heap_heights : forall x, x ∈ chain -> (1 <= ht x <= max)%nat;
  heap_max : (1 <= max <= kMaxHeight)%nat;
  heap_linked : forall i, (i < kMaxHeight)%nat -> linked ns i (lvl ht i (head_ :: chain));
  heap_sorted : StronglySorted (fun x y => ordered debug (ky x) (ky y)) chain;
}.

(** The remembered predecessors of the last insertion, after node [p]. *)
Definition prev_ok (ht : nat -> nat) (sl : SkipList) (chain : list nat) : Prop :=
  length (prev_ sl) = kMaxHeight /\
  exists P p Q, head_ :: chain = P ++ p :: Q /\ prev_ sl !! 0%nat = Some p /\
    (1 <= prev_height_ sl <= ht p)%nat /\ (prev_height_ sl <= max_height_ sl)%nat /\
    (p = head_ -> prev_height_ sl = 1%nat /\ max_height_ sl = 1%nat) /\
    (forall i, (prev_height_ sl <= i < kMaxHeight)%nat ->
       exists q, prev_ sl !! i = Some q /\ is_pred ht (P ++ [p]) i q).

(** [repr debug sl es]: the list holds the edges [es], in key order. *)
Definition repr (debug : bool) (sl : SkipList) (es : list Edge) : Prop :=
  exists ht ky chain,
    es = ky <$> chain /\ heap_ok debug ht ky (max_height_ sl) (nodes sl) chain /\
    prev_ok ht sl chain /\ size_ sl = length chain /\ (forall x, x ∈ chain -> (x <= size_ sl)%nat).

(** ** Where an insertion goes *)
Lemma split_at debug (ky : nat -> Edge) k chain :
  StronglySorted (fun x y => ordered debug (ky x) (ky y)) chain ->
  exists Lo Hi, chain = Lo ++ Hi /\ (forall y, y ∈ Lo -> compare (ky y) k < 0) /\
    (forall y, y ∈ Hi -> 0 <= compare (ky y) k).
Proof.
  induction 1 as [|x l Hl IH Hx]; [by exists [], []; split_and!; set_solver|].
  destruct (Z.lt_ge_cases (compare (ky x) k) 0) as [Hlt|Hge].
  - destruct IH as (Lo & Hi & -> & HLo & HHi). exists (x :: Lo), Hi. split_and!; [done| |done].
    intros y [->|?]%elem_of_cons; auto.
  - exists [], (x :: l). split_and!; [done|set_solver|]. intros y [->|Hy]%elem_of_cons; [done|].
    rewrite Forall_forall in Hx. by eapply compare_le_ge_trans; [eapply ordered_le, Hx|].
Qed.

Lemma is_pred_head ht Lo i :
  ht head_ = kMaxHeight -> (i < kMaxHeight)%nat -> (forall x, x ∈ Lo -> (ht x <= i)%nat) ->
  is_pred ht (head_ :: Lo) i head_.
Proof. intros Hh Hi HLo. exists [], Lo. split_and!; [done|lia|]. by apply lvl_nil_high. Qed.

(** Above the current height every remembered predecessor is the head. *)
Lemma is_pred_high debug ht ky max ns chain i L q :
  heap_ok debug ht ky max ns chain -> (max <= i)%nat -> (forall y, y ∈ L -> y ∈ head_ :: chain) ->
  is_pred ht L i q -> q = head_.
Proof.
  intros Hh Hi HL (A & B & -> & Hq & _). specialize (HL q ltac:(set_solver)).
  apply elem_of_cons in HL as [->|Hc]; [done|]. pose proof (heap_heights _ _ _ _ _ _ Hh q Hc). lia.
Qed.

Section Insertion.
Context (debug : bool) (ht : nat -> nat) (ky : nat -> Edge) (sl : SkipList) (ns : gmap nat Node)
  (chain : list nat) (k : Edge).
Context (Hheap : heap_ok debug ht ky (max_height_ sl) ns chain) (Hprev : prev_ok ht sl chain)
  (Hsize : size_ sl = length chain).

Lemma search_prev Lo Hi :
  chain = Lo ++ Hi -> (forall y, y ∈ Lo -> compare (ky y) k < 0) ->
  (forall y, y ∈ Hi -> 0 <= compare (ky y) k) ->
  exists y prev, FindLessThan debug (mkList ns (prev_ sl) (max_height_ sl) (prev_height_ sl) (size_ sl)
                                       (property_size_ sl)) k (prev_ sl) = Some (y, prev) /\
    length prev = kMaxHeight /\
    forall i, (i < kMaxHeight)%nat -> exists q, prev !! i = Some q /\ is_pred ht (head_ :: Lo) i q.
Proof.
  intros E HLo HHi. pose proof Hheap as [Hnd Hsh Hhd Hht Hmax Hlk Hso].
  destruct Hprev as (Hlen & P & p & Q & Ep & _ & [Hph1 Hph2] & Hphm & _ & Hpo).
  rewrite E in *. rewrite app_comm_cons in *. unfold FindLessThan, search_fuel. cbn [nodes prev_ max_height_ size_].
  destruct (find_lt_spec debug ht ky ns k Lo Hi Hsh Hlk Hso Hnd HLo HHi
              (size_ sl + S kMaxHeight) (max_height_ sl - 1) head_ [] Lo None (prev_ sl))
    as (y & prev & Ey & Hl & Hle & Hgt); [done|lia|lia| |done|done|].
  { rewrite Hsize, length_app. lia. }
  exists y, prev. split_and!; [done|done|]. intros i Hi4.
  destruct (decide (i <= max_height_ sl - 1)%nat); [by apply Hle|].
  rewrite Hgt by lia. destruct (Hpo i) as (q & Eq & Hq); [lia|].
  assert (q = head_) as ->.
  { eapply is_pred_high; [exact Hheap| |rewrite E|exact Hq]; [lia|]. intros z Hz. rewrite app_comm_cons, Ep. set_solver. }
  exists head_. split; [done|]. apply is_pred_head; [done|done|]. intros z Hz.
  pose proof (Hht z ltac:(set_solver)). lia.
Qed.

(** The fast path keeps predecessors of the right place. *)
Lemma insertion_prev_spec :
  exists Lo Hi prev, chain = Lo ++ Hi /\ (forall y, y ∈ Lo -> compare (ky y) k < 0) /\
    (forall y, y ∈ Hi -> 0 <= compare (ky y) k) /\
    insertion_prev debug sl ns k = Some prev /\ length prev = kMaxHeight /\
    forall i, (i < kMaxHeight)%nat -> exists q, prev !! i = Some q /\ is_pred ht (head_ :: Lo) i q.
Proof.
  pose proof Hheap as [Hnd Hsh Hhd Hht Hmax Hlk Hso].
  pose proof Hprev as (Hlen & P & p & Q & Ep & E0 & Hph & Hphm & Hp0 & Hpo).
  destruct (split_at debug ky k chain Hso) as (Lo & Hi & E & HLo & HHi).
  destruct (search_prev Lo Hi E HLo HHi) as (y & prevs & Efind & Hl & Hpr).
  assert (shape ht ky ns ((head_ :: Lo) ++ Hi)) as Hsh' by (by rewrite <- app_comm_cons, <- E).
  unfold insertion_prev. rewrite E0. simpl_bind.
  assert (forall z, z ∈ Q -> (1 <= ht z)%nat) as HQ.
  { intros z Hz. destruct P as [|? P]; injection Ep as ? ->; apply Hht; set_solver. }
  assert (Next ns p 0 = Some (head Q)) as HN.
  { specialize (Hlk 0%nat ltac:(unfold kMaxHeight; lia)). rewrite Ep, lvl_app, lvl_cons_in in Hlk by lia.
    rewrite (lvl_zero ht Q) in Hlk by done. by apply linked_mid in Hlk. }
  rewrite HN. simpl_bind.
  assert (forall n, n ∈ head_ :: chain -> KeyIsAfterNode ns k (Some n) = Some (compare (ky n) k <? 0)) as HK.
  { intros n Hn. apply (KeyIsAfter_eval ht ky ns k Lo Hi Hsh'). by rewrite <- app_comm_cons, <- E. }
  assert (exists a, KeyIsAfterNode ns k (head Q) = Some a /\ (a = false -> forall z, z ∈ Q -> 0 <= compare (ky z) k))
    as (a & -> & Ha).
  { destruct Q as [|n Q']; [by exists false; split; [done|set_solver]|]. exists (compare (ky n) k <? 0). split.
    - apply HK. rewrite Ep. set_solver.
    - intros Hn%Z.ltb_ge z [->|Hz]%elem_of_cons; [done|].
      assert (chain = tl (P ++ [p]) ++ n :: Q') as Ec.
      { destruct P; injection Ep as ? ->; [done|]. simpl. by rewrite <- app_assoc. }
      rewrite Ec in Hso. apply StronglySorted_app_1_r, StronglySorted_inv in Hso as [_ Hf].
      rewrite Forall_forall in Hf. by eapply compare_le_ge_trans; [eapply ordered_le, Hf|]. }
  rewrite HK by (rewrite Ep; set_solver). simpl_bind.
  destruct (negb a && ((p =? head_)%nat || (compare (ky p) k <? 0))) eqn:Efast.
  2:{ exists Lo, Hi, prevs. rewrite Efind. by split_and!. }
  apply andb_true_iff in Efast as [Ea%negb_true_iff Eb].
  assert (assert_ debug (negb (p =? head_)%nat || ((prev_height_ sl =? 1)%nat && (max_height_ sl =? 1)%nat)) = Some ()) as ->.
  { destruct (Nat.eqb_spec p head_) as [Eph|]; [|by rewrite assert_true].
    destruct (Hp0 Eph) as [-> ->]. by rewrite assert_true. }
  exists (tl (P ++ [p])), Q. eexists. simpl_bind. split_and!.
  - destruct P; injection Ep as ? ->; [done|]. simpl. by rewrite <- app_assoc.
  - intros z Hz. destruct P as [|? P]; [by apply elem_of_nil in Hz|]. injection Ep as <- Ec. simpl in Hz.
    assert (p <> head_) as Hpne by (intros ->; apply NoDup_cons in Hnd as [Hn _]; rewrite Ec in Hn; set_solver).
    rewrite (proj2 (Nat.eqb_neq _ _)) in Eb by done. apply Z.ltb_lt in Eb.
    apply elem_of_app in Hz as [Hz|Hz]; [|by apply list_elem_of_singleton in Hz as ->].
    rewrite Ec in Hso. eapply compare_lt_le_trans; [eapply ordered_le|exact Eb].
    apply (StronglySorted_app_1_elem_of _ _ _ z p Hso Hz). left.
  - by apply Ha.
  - done.
  - unfold spread_prev. by rewrite length_imap.
  - intros i Hi4. assert (head_ :: tl (P ++ [p]) = P ++ [p]) as -> by (destruct P; injection Ep as <- _; done).
    unfold spread_prev. rewrite list_lookup_imap.
    destruct (decide (prev_height_ sl <= i)%nat).
    + destruct (Hpo i) as (q & Eq & Hq); [lia|]. exists q. rewrite Eq.
      cbn [fmap option_fmap option_map]. rewrite (proj2 (Nat.ltb_ge i _)) by lia. by rewrite andb_false_r.
    + exists p. split.
      * destruct (decide (i = 0%nat)) as [->|]; [by rewrite E0|].
        destruct (lookup_lt_is_Some_2 (prev_ sl) i) as [q ->]; [lia|].
        cbn [fmap option_fmap option_map]. rewrite (proj2 (Nat.leb_le 1 i)), (proj2 (Nat.ltb_lt i _)) by lia. done.
      * exists P, []. split_and!; [done|lia|done].
Qed.
End Insertion.

(** ** [put_edge] inserts in order *)
Lemma edge_less_compare a b : edge_less a b = (compare a b <? 0).
Proof.
  unfold edge_less, compare.
  destruct (Z.ltb_spec (destination a) (destination b)); [done|].
  destruct (Z.ltb_spec (destination b) (destination a)), (Z.eqb_spec (destination a) (destination b)); try lia; try done.
  destruct (Z.ltb_spec (sequence a) (sequence b)), (Z.ltb_spec (sequence b) (sequence a)); try lia; done.
Qed.

Lemma sort_insert_split (ky : nat -> Edge) k Lo Hi :
  (forall y, y ∈ Lo -> compare (ky y) k < 0) -> (forall y, y ∈ Hi -> 0 <= compare (ky y) k) ->
  sort_insert edge_less k (ky <$> (Lo ++ Hi)) = (ky <$> Lo) ++ k :: (ky <$> Hi).
Proof.
  intros HLo HHi. induction Lo as [|x Lo IH]; cbn [app fmap list_fmap sort_insert].
  - destruct Hi as [|y Hi]; [done|]. cbn [fmap list_fmap sort_insert]. rewrite edge_less_compare.
    by rewrite (proj2 (Z.ltb_ge _ _)) by (apply HHi; left).
  - rewrite edge_less_compare, (proj2 (Z.ltb_lt _ _)) by (apply HLo; left). f_equal.
    apply IH. intros. apply HLo. by right.
Qed.

Lemma RandomHeight_bounds draws : (1 <= RandomHeight draws <= kMaxHeight)%nat.
Proof.
  unfold RandomHeight. cut (forall h, (1 <= h <= kMaxHeight)%nat -> (1 <= random_height h draws <= kMaxHeight)%nat);
    [intros H; apply H; unfold kMaxHeight; lia|].
  induction draws as [|r draws IH]; intros h Hh; cbn [random_height]; [done|].
  destruct (Nat.ltb_spec h kMaxHeight); cbn [andb]; [|done]. case_match; [|done]. apply IH. lia.
Qed.

Lemma raise_prev_pred ht L max h prev :
  length prev = kMaxHeight -> ht head_ = kMaxHeight -> (forall x, x ∈ L -> (ht x <= max)%nat) ->
  (forall i, (i < kMaxHeight)%nat -> exists q, prev !! i = Some q /\ is_pred ht (head_ :: L) i q) ->
  forall i, (i < kMaxHeight)%nat ->
    exists q, raise_prev max h prev !! i = Some q /\ is_pred ht (head_ :: L) i q.
Proof.
  intros Hlen Hh HL Hp i Hi. unfold raise_prev. rewrite list_lookup_imap.
  destruct (Hp i Hi) as (q & -> & Hq). cbn [fmap option_fmap option_map].
  destruct (Nat.leb_spec max i), (Nat.ltb_spec i h); cbn [andb]; try (by exists q).
  exists head_. split; [done|]. apply is_pred_head; [done|done|]. intros x Hx. specialize (HL x Hx). lia.
Qed.

(** A fresh node leaves the heap part of the invariant alone. *)
Lemma heap_fresh debug ht ky max ns chain x k h :
  heap_ok debug ht ky max ns chain -> x ∉ head_ :: chain ->
  heap_ok debug (fun y => if decide (y = x) then h else ht y) (fun y => if decide (y = x) then k else ky y)
    max (<[x := mkNode k (replicate h None)]> ns) chain.
Proof.
  intros [Hnd Hsh Hhd Hht Hmax Hlk Hso] Hx.
  assert (forall y, y ∈ head_ :: chain -> y <> x) as Hne by set_solver.
  split; try done.
  - intros y Hy. rewrite lookup_insert_ne by (intros <-; set_solver). destruct (Hsh y Hy) as (n & ? & ? & ?).
    exists n. by rewrite !decide_False by (by apply Hne).
  - rewrite decide_False; [done|]. apply Hne. left.
  - intros y Hy. rewrite decide_False by (apply Hne; by right). by apply Hht.
  - intros i Hi. rewrite (lvl_ext _ ht) by (intros y Hy; rewrite decide_False by (by apply Hne); done).
    eapply linked_ext; [|by apply Hlk]. intros y Hy%lvl_elem. unfold Next. by rewrite lookup_insert_ne by (symmetry; by apply Hne).
  - eapply StronglySorted_impl_in; [|exact Hso]. intros y z Hy Hz. simpl.
    rewrite !decide_False by (apply Hne; by right). done.
Qed.

Lemma prev_ok_ext ht ht' sl chain :
  (forall y, y ∈ head_ :: chain -> ht' y = ht y) -> prev_ok ht sl chain -> prev_ok ht' sl chain.
Proof.
  intros Hold (Hlen & P & p & Q & Ep & E0 & Hph & Hphm & Hp0 & Hpo). split; [done|].
  exists P, p, Q. assert (forall y, y ∈ P ++ [p] -> ht' y = ht y) as HPp.
  { intros y Hy. apply Hold. rewrite Ep. set_solver. }
  split_and!; try done; try lia. 1: rewrite HPp by set_solver; lia.
  intros i Hi. destruct (Hpo i Hi) as (q & Eq & A & B & EAB & Hq & HB). exists q. split; [done|].
  exists A, B. split; [done|]. rewrite (HPp q) by (rewrite EAB; set_solver). split; [done|].
  rewrite (lvl_ext _ ht); [done|]. intros y Hy. apply HPp. rewrite EAB. set_solver.
Qed.

(** The insertion step, from the predecessors to the linked node. *)
Section InsertNode.
Context (debug : bool) (ht : nat -> nat) (ky : nat -> Edge) (max : nat) (ns : gmap nat Node).
Context (Lo Hi : list nat) (x : nat) (k : Edge) (prev : list nat).
Context (Hheap : heap_ok debug ht ky max ns (Lo ++ Hi)).
Context (HLo : forall y, y ∈ Lo -> compare (ky y) k < 0) (HHi : forall y, y ∈ Hi -> 0 <= compare (ky y) k).
Context (Hpred : forall i, (i < kMaxHeight)%nat -> exists q, prev !! i = Some q /\ is_pred ht (head_ :: Lo) i q).

Lemma first_above : exists p0, prev !! 0%nat = Some p0 /\ Next ns p0 0 = Some (head Hi).
Proof.
  destruct Hheap as [Hnd Hsh Hhd Hht Hmax Hlk Hso].
  destruct (Hpred 0%nat) as (p0 & Ep0 & A & B & EAB & Hp0 & HB); [unfold kMaxHeight; lia|].
  exists p0. split; [done|].
  assert (forall y, y ∈ B ++ Hi -> (1 <= ht y)%nat) as Hpos.
  { intros y Hy. apply Hht. destruct A; injection EAB as ? ->; set_solver. }
  rewrite lvl_zero in HB by (intros; apply Hpos; set_solver). subst B.
  specialize (Hlk 0%nat ltac:(unfold kMaxHeight; lia)). rewrite app_comm_cons, EAB, <- app_assoc, lvl_app in Hlk.
  cbn [app] in Hlk. rewrite lvl_cons_in, (lvl_zero ht Hi) in Hlk by done. by apply linked_mid in Hlk.
Qed.

Lemma duplicate_assert :
  (debug = true -> forall y, y ∈ Lo ++ Hi -> compare (ky y) k <> 0) ->
  match head Hi with
  | None => Some ()
  | Some n => nd ← ns !! n; assert_ debug (negb (compare k (key nd) =? 0))
  end = Some ().
Proof.
  intros Hfresh. destruct (head Hi) as [n|] eqn:En; [|done]. apply head_Some_elem_of in En.
  destruct (heap_shape _ _ _ _ _ _ Hheap n) as (nd & -> & _ & Ek); [set_solver|]. simpl_bind. rewrite Ek.
  destruct debug; [|done]. rewrite (proj2 (Z.eqb_neq _ _)); [done|].
  specialize (Hfresh eq_refl n ltac:(set_solver)). revert Hfresh. cmp_lia.
Qed.

Context (Hfresh : debug = true -> forall y, y ∈ Lo ++ Hi -> compare (ky y) k <> 0).
Context (Hx : x ∉ head_ :: Lo ++ Hi) (Hkx : ky x = k) (Hhx : (1 <= ht x <= kMaxHeight)%nat).
Context (Hnx : exists n, ns !! x = Some n /\ length (next_ n) = ht x /\ key n = ky x).

Lemma insert_sorted : StronglySorted (fun x y => ordered debug (ky x) (ky y)) (Lo ++ x :: Hi).
Proof.
  pose proof (heap_sorted _ _ _ _ _ _ Hheap) as Hs. apply StronglySorted_app in Hs as (Hc & H1 & H2).
  apply StronglySorted_app. split_and!; [|done|apply StronglySorted_cons; split; [|done]].
  - intros y z Hy [->|Hz]%elem_of_cons; [|by apply Hc]. rewrite Hkx. specialize (HLo y Hy).
    unfold ordered. case_match; lia.
  - apply Forall_forall. intros y Hy. rewrite Hkx. specialize (HHi y Hy). unfold ordered. case_match.
    + apply compare_flip_strict; [|done]. apply Hfresh; [done|set_solver].
    + by apply compare_flip.
Qed.

Lemma link_heap :
  exists ns', link (ht x) 0 x prev ns = Some ns' /\
    heap_ok debug ht ky (Nat.max max (ht x)) ns' (Lo ++ x :: Hi).
Proof.
  pose proof Hheap as [Hnd Hsh Hhd Hht Hmax Hlk Hso].
  destruct (link_spec ht ky (head_ :: Lo) Hi x (ht x) prev Hnd Hx eq_refl (proj2 Hhx) Hpred (ht x) 0 ns)
    as (ns' & E & Hsh' & Hlk'); [done| |lia|intros j Hj; apply Hlk; lia|].
  { intros y [->|Hy]%elem_of_cons; [done|by apply Hsh]. }
  exists ns'. split; [done|]. split.
  - rewrite app_comm_cons, <- Permutation_middle. by apply NoDup_cons.
  - intros y Hy. apply Hsh'. set_solver.
  - done.
  - intros y Hy. destruct (decide (y = x)) as [->|]; [lia|]. specialize (Hht y ltac:(set_solver)). lia.
  - lia.
  - done.
  - apply insert_sorted.
Qed.
End InsertNode.

(** The new node is remembered as the last insertion. *)
Lemma insert_prev_ok ht sl sl' Lo Hi x prev :
  length prev = kMaxHeight -> x <> head_ -> (1 <= ht x)%nat ->
  (forall i, (i < kMaxHeight)%nat -> exists q, prev !! i = Some q /\ is_pred ht (head_ :: Lo) i q) ->
  prev_ sl' = <[0%nat := x]> prev -> prev_height_ sl' = ht x ->
  max_height_ sl' = Nat.max (max_height_ sl) (ht x) ->
  prev_ok ht sl' (Lo ++ x :: Hi).
Proof.
  intros Hlen Hne Hh Hp Eprev Eph Emax. split; [by rewrite Eprev, length_insert|].
  exists (head_ :: Lo), x, Hi. rewrite Eprev, Eph, Emax. split_and!; try done; try lia.
  - apply list_lookup_insert_eq. rewrite Hlen. unfold kMaxHeight. lia.
  - intros i Hi_. rewrite list_lookup_insert_ne by lia. destruct (Hp i) as (q & Eq & A & B & EAB & Hq & HB); [lia|].
    exists q. split; [done|]. exists A, (B ++ [x]). split_and!; [by rewrite EAB, <- app_assoc|done|].
    rewrite lvl_app, HB, lvl_cons_out by lia. done.
Qed.

Lemma put_edge_repr debug reserve_node draws sl es k :
  repr debug sl es -> (debug = true -> forall e, e ∈ es -> compare e k <> 0) ->
  exists sl', put_edge debug reserve_node draws sl k = Some sl' /\ repr debug sl' (sort_insert edge_less k es).
Proof.
  intros (ht0 & ky0 & chain & -> & Hheap0 & Hprev0 & Hsize & Hids) Hfresh.
  set (x := S (size_ sl)).
  set (h := if Z.of_nat (size_ sl) <? reserve_node then 1%nat else RandomHeight draws).
  assert (1 <= h <= kMaxHeight)%nat as Hh.
  { unfold h. case_match; [unfold kMaxHeight; lia|apply RandomHeight_bounds]. }
  assert (x ∉ head_ :: chain) as Hx.
  { intros [?|Hx]%elem_of_cons; [unfold x, head_ in *; lia|]. specialize (Hids x Hx). unfold x in Hids. lia. }
  pose proof (heap_fresh _ _ _ _ _ _ x k h Hheap0 Hx) as Hheap.
  set (ht := fun y => if decide (y = x) then h else ht0 y) in *.
  set (ky := fun y => if decide (y = x) then k else ky0 y) in *.
  assert (ht x = h) as Ehx by (unfold ht; by rewrite decide_True).
  assert (ky x = k) as Ekx by (unfold ky; by rewrite decide_True).
  assert (forall y, y ∈ head_ :: chain -> ht y = ht0 y /\ ky y = ky0 y) as Hold.
  { intros y Hy. unfold ht, ky. rewrite !decide_False by set_solver. done. }
  assert (prev_ok ht sl chain) as Hprev by (eapply prev_ok_ext; [|exact Hprev0]; intros; by apply Hold).
  assert (ky0 <$> chain = ky <$> chain) as Eky.
  { apply list_fmap_ext. intros i y Hy. symmetry. apply Hold. right. by eapply list_elem_of_lookup_2. }
  unfold put_edge. fold x. fold h. set (ns := <[x := mkNode k (replicate h None)]> (nodes sl)) in *.
  destruct (insertion_prev_spec debug ht ky sl ns chain k Hheap Hprev Hsize)
    as (Lo & Hi & prev & Echain & HLo & HHi & -> & Hlen & Hpred). simpl_bind. subst chain.
  assert (debug = true -> forall y, y ∈ Lo ++ Hi -> compare (ky y) k <> 0) as Hfr.
  { intros Hd y Hy. apply Hfresh; [done|]. rewrite Eky. apply list_elem_of_fmap. by exists y. }
  destruct (first_above debug ht ky _ ns Lo Hi k prev Hheap HLo HHi Hpred) as (p0 & -> & EN).
  simpl_bind. rewrite EN. simpl_bind.
  rewrite (duplicate_assert debug ht ky _ ns Lo Hi k prev Hheap HLo HHi Hpred Hfr). simpl_bind.
  pose proof (heap_heights _ _ _ _ _ _ Hheap) as Hht.
  pose proof (raise_prev_pred ht Lo (max_height_ sl) h prev Hlen (heap_head _ _ _ _ _ _ Hheap)
                ltac:(intros y Hy; apply Hht; set_solver) Hpred) as Hpred'.
  destruct (link_heap debug ht ky (max_height_ sl) ns Lo Hi x k (raise_prev (max_height_ sl) h prev))
    as (ns' & El & Hheap'); try done; [by rewrite Ehx| |].
  { exists (mkNode k (replicate h None)). unfold ns. rewrite lookup_insert_eq. cbn [next_ key].
    by rewrite length_replicate, Ehx. }
  rewrite Ehx in *. rewrite El. simpl_bind. eexists. split; [done|].
  exists ht, ky, (Lo ++ x :: Hi). split_and!.
  - by rewrite Eky, sort_insert_split, fmap_app, fmap_cons, Ekx.
  - exact Hheap'.
  - eapply (insert_prev_ok ht sl _ Lo Hi x); [|unfold x, head_; lia|lia|exact Hpred'|done|done|by rewrite Ehx].
    unfold raise_prev. by rewrite length_imap.
  - cbn [size_]. unfold x. rewrite Hsize, !length_app. simpl. lia.
  - cbn [size_]. intros y Hy. destruct (decide (y = x)) as [->|]; [done|].
    specialize (Hids y ltac:(set_solver)). lia.
Qed.

Lemma new_list_repr debug : repr debug new_list [].
Proof.
  exists (fun _ => kMaxHeight), (fun _ => mkEdge 0 0 false [] true 0), []. split_and!; [done| | |done|set_solver].
  - split.
    + apply NoDup_singleton.
    + intros y ->%list_elem_of_singleton. by eexists.
    + done.
    + set_solver.
    + unfold kMaxHeight. simpl. lia.
    + intros i Hi. rewrite lvl_cons_in by done. split; [|done].
      do 4 (destruct i as [|i]; [done|]). unfold kMaxHeight in Hi. lia.
    + constructor.
  - split; [done|]. exists [], head_, []. simpl. unfold kMaxHeight. split_and!; try done; try lia.
    intros i Hi. exists head_. split; [|exists [], []; split_and!; [done|lia|done]].
    do 4 (destruct i as [|i]; [done|]). lia.
Qed.

(** ** Iteration and lookups *)
Lemma level0_linked debug ht ky max ns chain :
  heap_ok debug ht ky max ns chain -> linked ns 0 (head_ :: chain).
Proof.
  intros [Hnd Hsh Hhd Hht Hmax Hlk Hso]. specialize (Hlk 0%nat ltac:(unfold kMaxHeight; lia)).
  rewrite lvl_cons_in, lvl_zero in Hlk; [done| |rewrite Hhd; unfold kMaxHeight; lia].
  intros x Hx. by apply Hht.
Qed.

Lemma walk_spec ht ky ns l fuel :
  shape ht ky ns l -> linked ns 0 l -> (length l <= fuel)%nat -> walk fuel ns (head l) = Some (ky <$> l).
Proof.
  revert l. induction fuel as [|fuel IH]; intros [|x l] Hs Hl Hf; simpl in Hf; try done; try lia.
  cbn [head walk]. destruct (Hs x ltac:(left)) as (n & -> & _ & Ek). simpl_bind.
  destruct Hl as [-> Hl]. simpl_bind. rewrite IH; [by rewrite Ek| |done|lia].
  intros y Hy. apply Hs. by right.
Qed.

Lemma iterate_repr debug sl es : repr debug sl es -> iterate sl = Some es.
Proof.
  intros (ht & ky & chain & -> & Hh & _ & Hsize & _). unfold iterate.
  pose proof (level0_linked _ _ _ _ _ _ Hh) as [-> Hl]. simpl_bind.
  apply (walk_spec ht); [|done|lia]. intros x Hx. apply (heap_shape _ _ _ _ _ _ Hh). by right.
Qed.

Definition version_of (dst : Z) (is_out : bool) (edge_type : Z) (e : Edge) : Prop :=
  destination e = dst /\ e_is_out e = is_out /\ e_edge_type e = edge_type.
#[export] Instance version_of_dec dst is_out edge_type e : Decision (version_of dst is_out edge_type e).
Proof. unfold version_of. apply _. Defined.

(** The first version in list order. *)
Definition first_version (dst : Z) (is_out : bool) (edge_type : Z) (es : list Edge) : option Edge :=
  snd <$> list_find (version_of dst is_out edge_type) es.

Lemma first_version_cons dst is_out ty e es :
  first_version dst is_out ty (e :: es) =
  if decide (version_of dst is_out ty e) then Some e else first_version dst is_out ty es.
Proof.
  unfold first_version. cbn [list_find]. destruct (decide _); [done|].
  by destruct (list_find _ es) as [[i x]|].
Qed.

Lemma first_version_none dst is_out ty es :
  (forall e, e ∈ es -> destination e <> dst) -> first_version dst is_out ty es = None.
Proof.
  intros He. unfold first_version. rewrite (proj2 (list_find_None _ _)); [done|].
  apply Forall_forall. intros e Hin [Hd _]. by apply (He e).
Qed.

Lemma first_version_app dst is_out ty es es' :
  (forall e, e ∈ es -> destination e <> dst) ->
  first_version dst is_out ty (es ++ es') = first_version dst is_out ty es'.
Proof.
  induction es as [|e es IH]; intros He; [done|]. cbn [app]. rewrite first_version_cons, decide_False.
  - apply IH. intros. apply He. by right.
  - intros [Hd _]. by apply (He e ltac:(left)).
Qed.

Lemma scan_dst_spec debug ht ky ns l fuel dst is_out ty :
  shape ht ky ns l -> linked ns 0 l -> (length l <= fuel)%nat ->
  StronglySorted (fun x y => ordered debug (ky x) (ky y)) l -> (forall y, y ∈ l -> dst <= destination (ky y)) ->
  scan_dst fuel ns dst is_out ty (head l) = Some (first_version dst is_out ty (ky <$> l)).
Proof.
  revert l. induction fuel as [|fuel IH]; intros [|x l] Hs Hl Hf Hso Hd; simpl in Hf; try done; try lia.
  cbn [head scan_dst]. destruct (Hs x ltac:(left)) as (n & -> & _ & Ek). simpl_bind. rewrite Ek.
  apply StronglySorted_inv in Hso as [Hso Hx]. rewrite Forall_forall in Hx. cbn [fmap list_fmap].
  destruct (Z.eqb_spec (destination (ky x)) dst) as [Ed|Nd]; cbn [negb].
  - rewrite first_version_cons.
    destruct (decide (version_of dst is_out ty (ky x))) as [(_ & -> & ->)|Nv].
    + by rewrite bool_decide_eq_true_2, Z.eqb_refl.
    + assert (bool_decide (e_is_out (ky x) = is_out) && (e_edge_type (ky x) =? ty) = false) as ->.
      { apply andb_false_iff. destruct (decide (e_is_out (ky x) = is_out)); [right|left; by apply bool_decide_eq_false].
        apply Z.eqb_neq. intros ?. by apply Nv. }
      destruct Hl as [-> Hl]. simpl_bind. apply IH; try done; [|lia|]; intros y Hy;
        [apply Hs|apply Hd]; by right.
  - f_equal. symmetry. rewrite first_version_cons, decide_False by (by intros [? _]).
    apply first_version_none. intros e (y & -> & Hy)%list_elem_of_fmap.
    specialize (Hd x ltac:(left)). pose proof (ordered_le _ _ _ (Hx y Hy)) as Ho. revert Ho. cmp_lia.
Qed.

(** Splits the list at the probe of a destination. *)
Lemma probe_split debug (ky : nat -> Edge) dst chain :
  StronglySorted (fun x y => ordered debug (ky x) (ky y)) chain ->
  (forall x, x ∈ chain -> sequence (ky x) < kMaxSequence) ->
  exists Lo Hi, chain = Lo ++ Hi /\
    (forall y, y ∈ Lo -> compare (ky y) (probe dst) < 0 /\ destination (ky y) < dst) /\
    (forall y, y ∈ Hi -> 0 < compare (ky y) (probe dst) /\ dst <= destination (ky y)).
Proof.
  intros Hso Hseq. destruct (split_at debug ky (probe dst) chain Hso) as (Lo & Hi & -> & HLo & HHi).
  exists Lo, Hi. split_and!; [done| |]; intros y Hy; specialize (Hseq y ltac:(set_solver)).
  - specialize (HLo y Hy). revert HLo. unfold compare, probe. simpl. cmp_lia.
  - specialize (HHi y Hy). revert HHi. unfold compare, probe. simpl. cmp_lia.
Qed.

Lemma find_probe debug ht ky sl dst Lo Hi :
  heap_ok debug ht ky (max_height_ sl) (nodes sl) (Lo ++ Hi) -> size_ sl = length (Lo ++ Hi) ->
  (forall y, y ∈ Lo -> compare (ky y) (probe dst) < 0 /\ destination (ky y) < dst) ->
  (forall y, y ∈ Hi -> 0 < compare (ky y) (probe dst) /\ dst <= destination (ky y)) ->
  FindGreaterOrEqual debug sl (probe dst) = Some (head Hi).
Proof.
  intros [Hnd Hsh Hhd Hht Hmax Hlk Hso] Hsize HLo HHi. unfold FindGreaterOrEqual, search_fuel.
  eapply (find_ge_spec debug ht ky (nodes sl) (probe dst) Lo Hi) with (P := []) (Q := Lo); try done.
  - intros y Hy. by apply HLo.
  - intros y Hy. specialize (HHi y Hy). lia.
  - intros y [->|Hy]%elem_of_cons; [rewrite Hhd; unfold kMaxHeight; lia|by apply Hht].
  - intros y Hy E0. specialize (HHi y Hy). lia.
  - rewrite Hhd. lia.
  - lia.
  - rewrite Hsize, length_app. lia.
Qed.

Lemma find_typed_repr debug sl es dst is_out ty :
  repr debug sl es -> (forall e, e ∈ es -> sequence e < kMaxSequence) ->
  find_typed debug sl dst is_out ty = Some (first_version dst is_out ty es).
Proof.
  intros (ht & ky & chain & -> & Hheap & _ & Hsize & _) Hseq. pose proof Hheap as [Hnd Hsh Hhd Hht Hmax Hlk Hso].
  pose proof (level0_linked _ _ _ _ _ _ Hheap) as Hl0.
  destruct (probe_split debug ky dst chain Hso) as (Lo & Hi & -> & HLo & HHi).
  { intros x Hx. apply Hseq, list_elem_of_fmap. by exists x. }
  unfold find_typed. rewrite (find_probe debug ht ky sl dst Lo Hi) by done. simpl_bind.
  destruct Hl0 as [_ Hl0]. rewrite (scan_dst_spec debug ht ky _ Hi).
  - by rewrite fmap_app, first_version_app by (intros e (y & -> & Hy)%list_elem_of_fmap; specialize (HLo y Hy); lia).
  - intros y Hy. apply Hsh. set_solver.
  - clear -Hl0. induction Lo as [|x Lo IH]; [done|]. apply IH. by destruct Hl0.
  - rewrite Hsize, length_app. lia.
  - by apply StronglySorted_app_1_r in Hso.
  - intros y Hy. by apply HHi.
Qed.
