(* ===== verification/NeighBors.v ===== *)
(** * Adjacencies of a MemTable

    [NewEdgeSL] of core/neighbors.h (the representation [NeighBors] names): a
    small array that turns into a skip list when it is full. *)

From S2P Require Import Prelude.
From S2P Require Import Types.
From S2P Require Import SkipList.
From S2P Require Import SkipListFacts.

(** [cnt_] is the length of [dst_]. *)
Record NewEdgeSL := mkNB {
  full_ : bool;
  dst_ : list Edge;
  list_ : option SkipList;
  nb_property_size : Z;
}.

Definition new_neighbors : NewEdgeSL := mkNB false [] None 0.

Section NeighBorsOps.
Context (debug : bool) (reserve_node : Z).

(** The array moves into a new list, whose preallocated nodes all have height
    one. *)
Fixpoint put_all (sl : SkipList) (es : list Edge) : option SkipList :=
  match es with
  | [] => Some sl
  | e :: es => sl' ← put_edge debug reserve_node [] sl e; put_all sl' es
  end.

Definition NB_put_edge (nb : NewEdgeSL) (draws : list Z) (e : Edge) : option NewEdgeSL :=
  let size := u64 (nb_property_size nb + zlen (property e)) in
  if negb (full_ nb) then
    if zlen (dst_ nb) =? reserve_node then
      sl ← put_all new_list (dst_ nb);
      sl ← put_edge debug reserve_node draws sl e;
      Some (mkNB true (dst_ nb) (Some sl) size)
    else Some (mkNB false (dst_ nb ++ [e]) (list_ nb) size)
  else
    sl ← list_ nb;
    sl ← put_edge debug reserve_node draws sl e;
    Some (mkNB true (dst_ nb) (Some sl) size).

(** [for (i = cnt_ - 1; i >= 0; i--)] over the array. *)
Definition scan_back (es : list Edge) (dst : Z) (is_out : bool) (edge_type : Z) : option Edge :=
  first_version dst is_out edge_type (reverse es).

Definition NB_find_typed (nb : NewEdgeSL) (dst : Z) (is_out : bool) (edge_type : Z) : option (option Edge) :=
  if negb (full_ nb) then Some (scan_back (dst_ nb) dst is_out edge_type)
  else sl ← list_ nb; find_typed debug sl dst is_out edge_type.

Definition NB_get (nb : NewEdgeSL) (dst : Z) (is_out : bool) (edge_type : Z) : option (Status * option bytes) :=
  status_of property <$> NB_find_typed nb dst is_out edge_type.
Definition NB_get_seq (nb : NewEdgeSL) (dst : Z) (is_out : bool) (edge_type : Z) : option (Status * option Z) :=
  status_of sequence <$> NB_find_typed nb dst is_out edge_type.

(** The overloads without direction and type: [get(dst, property)] scans the
    array from the back, [get(dst, seq)] from the front. *)
Definition NB_get_untyped (nb : NewEdgeSL) (dst : Z) : option (Status * option bytes) :=
  if negb (full_ nb)
  then Some (status_of property (snd <$> list_find (fun e => destination e = dst) (reverse (dst_ nb))))
  else sl ← list_ nb; get_untyped debug sl dst.
Definition NB_get_untyped_seq (nb : NewEdgeSL) (dst : Z) : option (Status * option Z) :=
  if negb (full_ nb)
  then Some (status_of sequence (snd <$> list_find (fun e => destination e = dst) (dst_ nb)))
  else sl ← list_ nb; get_untyped_seq debug sl dst.

(** [get_edges] of the array: a deletion hides the following entries of its
    destination. *)
Fixpoint collect_edges (skipping : option Z) (es : list Edge) : list Edge :=
  match es with
  | [] => []
  | e :: es =>
      if bool_decide (skipping = Some (destination e)) then collect_edges skipping es
      else if marker e then collect_edges (Some (destination e)) es
      else e :: collect_edges skipping es
  end.

Definition NB_get_edges (nb : NewEdgeSL) : option (list Edge) :=
  if negb (full_ nb) then Some (collect_edges None (dst_ nb))
  else sl ← list_ nb; get_edges sl.

(** [update_edge] on the array: the loop variable is never advanced. *)
Fixpoint update_loop (fuel : nat) (es : list Edge) (i : nat) (dst seq : Z) (mark : bool) (p : bytes)
    : option (list Edge) :=
  if (i <? length es)%nat then
    match fuel with
    | O => None
    | S fuel =>
        e ← es !! i;
        if destination e =? dst
        then Some (<[i := mkEdge (destination e) seq mark p (e_is_out e) (e_edge_type e)]> es)
        else update_loop fuel es i dst seq mark p
    end
  else Some es.

Definition NB_getEdgeNum (nb : NewEdgeSL) : option nat :=
  if negb (full_ nb) then Some (length (dst_ nb)) else sl ← list_ nb; Some (size_ sl).

(** [std::sort] of the array by destination, newest version first. *)
Definition NB_sort (nb : NewEdgeSL) : NewEdgeSL :=
  if negb (full_ nb) then mkNB false (stable_sort edge_less (dst_ nb)) (list_ nb) (nb_property_size nb)
  else nb.

(** [MemEdgeIterator] *)
Definition NB_iterate (nb : NewEdgeSL) : option (list Edge) :=
  if negb (full_ nb) then Some (dst_ nb) else sl ← list_ nb; iterate sl.

Definition NB_reset (nb : NewEdgeSL) : NewEdgeSL := mkNB false [] None 0.

(** A sequence of insertions, each with the draws of its random height. *)
Fixpoint NB_put_edges (nb : NewEdgeSL) (ops : list (Edge * list Z)) : option NewEdgeSL :=
  match ops with
  | [] => Some nb
  | (e, draws) :: ops => nb' ← NB_put_edge nb draws e; NB_put_edges nb' ops
  end.
End NeighBorsOps.

(** ** Both representations hold the inserted edges *)

(** In a build with assertions the (destination, sequence) pairs are distinct. *)
Definition distinct_versions (es : list Edge) : Prop :=
  NoDup ((fun e => (destination e, sequence e)) <$> es).

Definition nb_repr (debug : bool) (reserve_node : Z) (nb : NewEdgeSL) (es : list Edge) : Prop :=
  if full_ nb then exists sl, list_ nb = Some sl /\ repr debug sl (stable_sort edge_less (reverse es))
  else dst_ nb = es /\ zlen es <= reserve_node.

Lemma distinct_prefix es es' : distinct_versions (es ++ es') -> distinct_versions es.
Proof. unfold distinct_versions. rewrite fmap_app. by intros [? _]%NoDup_app. Qed.

Lemma compare_eq_version a b : compare a b = 0 -> (destination a, sequence a) = (destination b, sequence b).
Proof. unfold compare. intros H. f_equal; revert H; cmp_lia. Qed.

Lemma stable_sort_snoc es e :
  stable_sort edge_less (reverse (es ++ [e])) = sort_insert edge_less e (stable_sort edge_less (reverse es)).
Proof. by rewrite reverse_snoc. Qed.

Lemma put_edge_snoc debug reserve_node draws sl es e :
  repr debug sl (stable_sort edge_less (reverse es)) -> (debug = true -> distinct_versions (es ++ [e])) ->
  exists sl', put_edge debug reserve_node draws sl e = Some sl' /\
    repr debug sl' (stable_sort edge_less (reverse (es ++ [e]))).
Proof.
  intros Hr Hd. rewrite stable_sort_snoc. apply put_edge_repr; [done|].
  intros Ed x Hx Ec. specialize (Hd Ed). unfold distinct_versions in Hd.
  rewrite stable_sort_perm, reverse_Permutation in Hx.
  rewrite fmap_app, NoDup_app in Hd. destruct Hd as (_ & Hne & _). apply compare_eq_version in Ec.
  eapply Hne; [apply list_elem_of_fmap; exists x; split; [exact eq_refl|done]|]. rewrite Ec. left.
Qed.

Lemma put_all_repr debug reserve_node es0 es sl :
  repr debug sl (stable_sort edge_less (reverse es0)) -> (debug = true -> distinct_versions (es0 ++ es)) ->
  exists sl', put_all debug reserve_node sl es = Some sl' /\
    repr debug sl' (stable_sort edge_less (reverse (es0 ++ es))).
Proof.
  revert es0 sl. induction es as [|e es IH]; intros es0 sl Hr Hd; cbn [put_all].
  - rewrite app_nil_r. by exists sl.
  - assert (es0 ++ e :: es = (es0 ++ [e]) ++ es) as E by (by rewrite <- app_assoc). rewrite E in *.
    destruct (put_edge_snoc debug reserve_node [] sl es0 e Hr) as (sl' & -> & Hr').
    { intros Ed. eapply distinct_prefix. by apply Hd. }
    simpl_bind. by apply IH.
Qed.

Lemma NB_put_edge_repr debug reserve_node draws nb es e :
  nb_repr debug reserve_node nb es -> (debug = true -> distinct_versions (es ++ [e])) ->
  exists nb', NB_put_edge debug reserve_node nb draws e = Some nb' /\ nb_repr debug reserve_node nb' (es ++ [e]).
Proof.
  unfold nb_repr, NB_put_edge. destruct (full_ nb) eqn:Ef; cbn [negb].
  - intros (sl & -> & Hr) Hd. simpl_bind.
    destruct (put_edge_snoc debug reserve_node draws sl es e Hr Hd) as (sl' & -> & Hr').
    simpl_bind. eexists. split; [done|]. simpl. by exists sl'.
  - intros [-> Hlen] Hd. destruct (Z.eqb_spec (zlen es) reserve_node) as [E|N].
    + destruct (put_all_repr debug reserve_node [] es new_list) as (sl & -> & Hr); [apply new_list_repr| |].
      { intros Ed. eapply distinct_prefix. by apply Hd. }
      simpl_bind. destruct (put_edge_snoc debug reserve_node draws sl es e Hr Hd) as (sl' & -> & Hr').
      simpl_bind. eexists. split; [done|]. simpl. by exists sl'.
    + eexists. split; [done|]. simpl. split; [done|]. rewrite zlen_app. unfold zlen in *. simpl. lia.
Qed.

Lemma NB_put_edges_repr debug reserve_node ops nb es :
  nb_repr debug reserve_node nb es -> (debug = true -> distinct_versions (es ++ ops.*1)) ->
  exists nb', NB_put_edges debug reserve_node nb ops = Some nb' /\ nb_repr debug reserve_node nb' (es ++ ops.*1).
Proof.
  revert nb es. induction ops as [|[e draws] ops IH]; intros nb es Hr Hd; cbn [NB_put_edges].
  - rewrite app_nil_r. by exists nb.
  - cbn [fmap list_fmap fst] in *. rewrite (cons_middle e es) in *. rewrite app_assoc in *.
    destruct (NB_put_edge_repr debug reserve_node draws nb es e Hr) as (nb' & -> & Hr').
    { intros Ed. eapply distinct_prefix. by apply Hd. }
    simpl_bind. by apply IH.
Qed.

(** ** The first version in list order is the newest *)
Lemma first_version_insert_new dst is_out ty k l :
  version_of dst is_out ty k -> (forall e, e ∈ l -> version_of dst is_out ty e -> sequence e < sequence k) ->
  first_version dst is_out ty (sort_insert edge_less k l) = Some k.
Proof.
  intros Hk. induction l as [|y l IH]; intros Hl; cbn [sort_insert].
  - by rewrite first_version_cons, decide_True.
  - destruct (edge_less y k) eqn:E; rewrite first_version_cons; [|by rewrite decide_True].
    rewrite decide_False; [apply IH; intros; apply Hl; [by right|done]|].
    intros Hy. specialize (Hl y ltac:(left) Hy). destruct Hy as [Ey _], Hk as [Ek _].
    rewrite edge_less_compare in E. apply Z.ltb_lt in E. revert E. cmp_lia.
Qed.

Lemma first_version_insert_other dst is_out ty k l :
  ~ version_of dst is_out ty k ->
  first_version dst is_out ty (sort_insert edge_less k l) = first_version dst is_out ty l.
Proof.
  intros Hk. induction l as [|y l IH]; cbn [sort_insert].
  - by rewrite first_version_cons, decide_False.
  - destruct (edge_less y k); [by rewrite !first_version_cons, IH|].
    by rewrite (first_version_cons _ _ _ k), decide_False.
Qed.

Definition increasing (es : list Edge) : Prop := StronglySorted (fun a b => sequence a < sequence b) es.

Lemma increasing_distinct es : increasing es -> distinct_versions es.
Proof.
  unfold distinct_versions. induction 1 as [|e es Hs IH He]; [constructor|]. cbn [fmap list_fmap]. constructor; [|done].
  intros (x & [= _ E] & Hx)%list_elem_of_fmap. rewrite Forall_forall in He. specialize (He x Hx). lia.
Qed.

Lemma first_version_sorted dst is_out ty es :
  increasing es ->
  first_version dst is_out ty (stable_sort edge_less (reverse es)) = last (filter (version_of dst is_out ty) es).
Proof.
  induction es as [|e es IH] using rev_ind; intros Hs; [done|].
  apply StronglySorted_app in Hs as (Hlt & Hs & _). rewrite stable_sort_snoc, filter_app, filter_cons.
  destruct (decide (version_of dst is_out ty e)) as [Hv|Hv].
  - rewrite filter_nil, last_snoc. apply first_version_insert_new; [done|].
    intros x Hx _. rewrite stable_sort_perm, reverse_Permutation in Hx. apply Hlt; [done|left].
  - rewrite filter_nil, app_nil_r, first_version_insert_other by done. by apply IH.
Qed.

Lemma first_version_reverse dst is_out ty es :
  first_version dst is_out ty (reverse es) = last (filter (version_of dst is_out ty) es).
Proof.
  induction es as [|e es IH] using rev_ind; [done|].
  rewrite reverse_snoc, first_version_cons, filter_app, filter_cons.
  destruct (decide _); rewrite filter_nil; [by rewrite last_snoc|by rewrite app_nil_r].
Qed.

Lemma NB_find_typed_repr debug reserve_node nb es dst is_out ty :
  nb_repr debug reserve_node nb es -> increasing es -> (forall e, e ∈ es -> sequence e < kMaxSequence) ->
  NB_find_typed debug nb dst is_out ty = Some (last (filter (version_of dst is_out ty) es)).
Proof.
  unfold nb_repr, NB_find_typed, scan_back. intros Hr Hi Hm. destruct (full_ nb); cbn [negb].
  - destruct Hr as (sl & -> & Hr). simpl_bind.
    rewrite (find_typed_repr _ _ _ _ _ _ Hr); [by rewrite first_version_sorted|].
    intros e He. apply Hm. by rewrite stable_sort_perm, reverse_Permutation in He.
  - destruct Hr as [-> _]. by rewrite first_version_reverse.
Qed.

(** ** Theorems *)

(** whatever heights the random draws give, and on both sides of the switch
    from the array to the skip list, inserting edges in increasing sequence
    order never goes wrong (no dangling pointer, no failed assertion), and a
    lookup by destination, direction and type reports exactly the last inserted
    version: its property and sequence, or that it is deleted. *)
Theorem neighbors_get_newest debug reserve_node ops dst is_out ty :
  0 <= reserve_node -> increasing ops.*1 -> Forall (fun e => sequence e < kMaxSequence) ops.*1 ->
  exists nb, NB_put_edges debug reserve_node new_neighbors ops = Some nb /\
    NB_get debug nb dst is_out ty
      = Some (status_of property (last (filter (version_of dst is_out ty) ops.*1))) /\
    NB_get_seq debug nb dst is_out ty
      = Some (status_of sequence (last (filter (version_of dst is_out ty) ops.*1))).
Proof.
  intros H0 Hi Hm. rewrite Forall_forall in Hm.
  destruct (NB_put_edges_repr debug reserve_node ops new_neighbors []) as (nb & E & Hr).
  - split; [done|]. unfold zlen. simpl. lia.
  - intros _. by apply increasing_distinct.
  - exists nb. split; [done|]. unfold NB_get, NB_get_seq.
    by rewrite (NB_find_typed_repr _ _ _ _ _ _ _ Hr).
Qed.

(** Inserts that cross the switch to the list, with a deletion at the end. *)
Definition sample_ops : list (Edge * list Z) :=
  [(mkEdge 7 1 false [] true 1, []); (mkEdge 3 2 false [byte_of 65] true 1, []);
   (mkEdge 7 3 false [byte_of 66] true 1, [0; 2147483647]); (mkEdge 5 4 false [] false 2, [0; 0; 0]);
   (mkEdge 3 5 true [] true 1, [2147483647])].

Lemma neighbors_get_newest_witness :
  exists nb, NB_put_edges true 2 new_neighbors sample_ops = Some nb /\ full_ nb = true /\
    NB_get true nb 7 true 1 = Some (kOk, Some [byte_of 66]) /\ NB_get true nb 3 true 1 = Some (kDelete, None).
Proof.
  assert (increasing sample_ops.*1) as Hi by (repeat constructor).
  assert (Forall (fun e => sequence e < kMaxSequence) sample_ops.*1) as Hm by (repeat constructor).
  destruct (neighbors_get_newest true 2 sample_ops 7 true 1 ltac:(lia) Hi Hm) as (nb & E & H7 & _).
  destruct (neighbors_get_newest true 2 sample_ops 3 true 1 ltac:(lia) Hi Hm) as (nb' & E' & H3 & _).
  rewrite E in E'. injection E' as <-. exists nb. split_and!; [exact E| |exact H7|exact H3].
  revert E. vm_compute. by intros [= <-].
Defined.

Lemma edge_less_asym x y : edge_less x y = true -> edge_less y x = false.
Proof. rewrite !edge_less_compare. intros E%Z.ltb_lt. apply Z.ltb_ge. revert E. cmp_lia. Qed.

Lemma edge_nless_trans x y z : nless edge_less x y -> nless edge_less y z -> nless edge_less x z.
Proof.
  unfold nless. rewrite !edge_less_compare. intros E1%Z.ltb_ge E2%Z.ltb_ge. apply Z.ltb_ge. revert E1 E2. cmp_lia.
Qed.

(** With distinct versions the order is strict. *)
Lemma stable_sort_strict es :
  distinct_versions es -> StronglySorted (fun a b => edge_less a b = true) (stable_sort edge_less es).
Proof.
  intros Hd. pose proof (stable_sort_sorted edge_less edge_less_asym edge_nless_trans es) as Hs.
  assert (distinct_versions (stable_sort edge_less es)) as Hd'.
  { unfold distinct_versions in *. by rewrite stable_sort_perm. }
  revert Hs Hd'. generalize (stable_sort edge_less es). clear. induction 1 as [|e l Hl IH He]; intros Hd; [constructor|].
  unfold distinct_versions in Hd. cbn [fmap list_fmap] in Hd. apply NoDup_cons in Hd as [Hn Hd].
  constructor; [by apply IH|]. rewrite Forall_forall in *. intros x Hx. specialize (He x Hx). unfold nless in He.
  rewrite edge_less_compare in *. apply Z.ltb_ge in He. apply Z.ltb_lt.
  destruct (Z.eq_dec (compare x e) 0) as [E|N]; [|apply compare_flip_strict; lia].
  destruct Hn. apply list_elem_of_fmap. exists x. split; [|done]. symmetry. by apply compare_eq_version.
Qed.

Lemma NB_flush_order debug reserve_node nb es :
  nb_repr debug reserve_node nb es -> distinct_versions es ->
  exists es', NB_iterate (NB_sort nb) = Some es' /\ es' ≡ₚ es /\
    StronglySorted (fun a b => edge_less a b = true) es'.
Proof.
  intros Hr Hd. unfold nb_repr, NB_iterate, NB_sort in *. destruct (full_ nb) eqn:Ef; cbn [negb].
  - destruct Hr as (sl & El & Hr). exists (stable_sort edge_less (reverse es)). rewrite Ef, El.
    cbn [negb mbind option_bind]. rewrite (iterate_repr _ _ _ Hr). split_and!; [done| |].
    + by rewrite stable_sort_perm, reverse_Permutation.
    + apply stable_sort_strict. unfold distinct_versions in *. by rewrite reverse_Permutation.
  - destruct Hr as [-> _]. exists (stable_sort edge_less es). cbn [full_ dst_ negb].
    split_and!; [done|by rewrite stable_sort_perm|by apply stable_sort_strict].
Qed.

(** what a flush writes. After [sort()], iterating over an adjacency visits
    exactly the inserted edges, ordered by destination and newest version
    first, in both representations. *)
Theorem neighbors_flush_order debug reserve_node ops :
  0 <= reserve_node -> distinct_versions ops.*1 ->
  exists nb es, NB_put_edges debug reserve_node new_neighbors ops = Some nb /\
    NB_iterate (NB_sort nb) = Some es /\ es ≡ₚ ops.*1 /\
    StronglySorted (fun a b => edge_less a b = true) es.
Proof.
  intros H0 Hd. destruct (NB_put_edges_repr debug reserve_node ops new_neighbors []) as (nb & E & Hr).
  - split; [done|]. unfold zlen. simpl. lia.
  - done.
  - destruct (NB_flush_order _ _ _ _ Hr Hd) as (es & ? & ? & ?). by exists nb, es.
Qed.

Lemma neighbors_flush_order_witness :
  exists nb es, NB_put_edges false 2 new_neighbors sample_ops = Some nb /\ NB_iterate (NB_sort nb) = Some es /\
    es ≡ₚ sample_ops.*1 /\ StronglySorted (fun a b => edge_less a b = true) es.
Proof.
  apply (neighbors_flush_order false 2 sample_ops); [lia|]. apply (bool_decide_unpack _). vm_compute. exact I.
Defined.

(** ** The skip list on its own *)
Fixpoint put_edges (debug : bool) (reserve_node : Z) (sl : SkipList) (ops : list (Edge * list Z)) : option SkipList :=
  match ops with
  | [] => Some sl
  | (e, draws) :: ops => sl' ← put_edge debug reserve_node draws sl e; put_edges debug reserve_node sl' ops
  end.

Lemma put_edges_repr debug reserve_node ops sl es :
  repr debug sl (stable_sort edge_less (reverse es)) -> (debug = true -> distinct_versions (es ++ ops.*1)) ->
  exists sl', put_edges debug reserve_node sl ops = Some sl' /\
    repr debug sl' (stable_sort edge_less (reverse (es ++ ops.*1))).
Proof.
  revert sl es. induction ops as [|[e draws] ops IH]; intros sl es Hr Hd; cbn [put_edges].
  - rewrite app_nil_r. by exists sl.
  - cbn [fmap list_fmap fst] in *. rewrite (cons_middle e es) in *. rewrite app_assoc in *.
    destruct (put_edge_snoc debug reserve_node draws sl es e Hr) as (sl' & -> & Hr').
    { intros Ed. eapply distinct_prefix. by apply Hd. }
    simpl_bind. by apply IH.
Qed.

(** C35: the skip list implements a sorted list. For any insertions and any
    random heights, every pointer it follows is valid and every assertion
    holds; iteration gives the inserted edges sorted by destination and newest
    first (equal versions latest first), and a search over the levels finds
    exactly the first matching edge of that order. *)
Theorem skiplist_refines_sorted_list debug reserve_node ops dst is_out ty :
  (debug = true -> distinct_versions ops.*1) -> Forall (fun e => sequence e < kMaxSequence) ops.*1 ->
  exists sl, put_edges debug reserve_node new_list ops = Some sl /\
    iterate sl = Some (stable_sort edge_less (reverse ops.*1)) /\
    find_typed debug sl dst is_out ty
      = Some (first_version dst is_out ty (stable_sort edge_less (reverse ops.*1))).
Proof.
  intros Hd Hm. rewrite Forall_forall in Hm.
  destruct (put_edges_repr debug reserve_node ops new_list []) as (sl & E & Hr); [apply new_list_repr|done|].
  exists sl. split_and!; [done|by eapply iterate_repr|]. eapply find_typed_repr; [done|].
  intros e He. apply Hm. by rewrite stable_sort_perm, reverse_Permutation in He.
Qed.

Lemma skiplist_refines_sorted_list_witness :
  exists sl, put_edges true 1 new_list sample_ops = Some sl /\ max_height_ sl = 4%nat /\
    find_typed true sl 5 false 2 = Some (Some (mkEdge 5 4 false [] false 2)).
Proof.
  destruct (skiplist_refines_sorted_list true 1 sample_ops 5 false 2) as (sl & E & _ & Hf).
  - intros _. apply (bool_decide_unpack _). vm_compute. exact I.
  - repeat constructor.
  - exists sl. split_and!; [exact E| |exact Hf]. revert E. vm_compute. by intros [= <-].
Defined.

(** ** Defects *)

(** reads of an adjacency being flushed go back in time. [sort()] puts the
    newest version of an edge first, but the array lookup scans from the back:
    with two versions in the array, a lookup after [sort()] reports the older
    one. *)
Theorem sort_makes_reads_stale debug reserve_node dst is_out ty e1 e2 :
  2 <= reserve_node -> version_of dst is_out ty e1 -> version_of dst is_out ty e2 ->
  sequence e1 < sequence e2 ->
  exists nb, NB_put_edges debug reserve_node new_neighbors [(e1, []); (e2, [])] = Some nb /\
    NB_find_typed debug nb dst is_out ty = Some (Some e2) /\
    NB_find_typed debug (NB_sort nb) dst is_out ty = Some (Some e1).
Proof.
  intros Hr H1 H2 Hs. cbn [NB_put_edges NB_put_edge new_neighbors full_ negb dst_ list_].
  unfold NB_put_edge, zlen. cbn [full_ negb dst_ length app mbind option_bind].
  rewrite !(proj2 (Z.eqb_neq _ _)) by lia. cbn [mbind option_bind full_ negb dst_ app length].
  rewrite !(proj2 (Z.eqb_neq _ _)) by lia. simpl_bind.
  eexists. split; [done|]. unfold NB_find_typed, NB_sort, scan_back. cbn [full_ negb dst_ app].
  rewrite !first_version_reverse. split.
  - rewrite !filter_cons_True by done. done.
  - assert (stable_sort edge_less [e1; e2] = [e2; e1]) as ->.
    { cbn [stable_sort foldr sort_insert]. rewrite edge_less_compare, (proj2 (Z.ltb_lt _ _)); [done|].
      destruct H1 as [E1 _], H2 as [E2 _]. cmp_lia. }
    rewrite !filter_cons_True by done. done.
Qed.

Lemma sort_makes_reads_stale_witness :
  exists nb, NB_put_edges true 2 new_neighbors
      [(mkEdge 7 1 false [byte_of 65] true 1, []); (mkEdge 7 2 false [byte_of 66] true 1, [])] = Some nb /\
    NB_find_typed true nb 7 true 1 = Some (Some (mkEdge 7 2 false [byte_of 66] true 1)) /\
    NB_find_typed true (NB_sort nb) 7 true 1 = Some (Some (mkEdge 7 1 false [byte_of 65] true 1)).
Proof. apply sort_makes_reads_stale; done. Defined.

(** [update_edge] on the array never returns unless the first entry has the
    wanted destination: the loop does not advance its index. *)
Theorem update_edge_diverges fuel e es dst seq mark p :
  destination e <> dst -> update_loop fuel (e :: es) 0 dst seq mark p = None.
Proof.
  intros Hd. induction fuel as [|fuel IH]; cbn [update_loop length Nat.ltb Nat.leb]; [done|].
  cbn [lookup list_lookup mbind option_bind]. by rewrite (proj2 (Z.eqb_neq _ _)) by done.
Qed.

Lemma update_edge_diverges_witness :
  update_loop 1000 [mkEdge 7 1 false [] true 1; mkEdge 8 2 false [] true 1] 0 8 3 false [] = None.
Proof. apply update_edge_diverges. done. Defined.

(** [get_edges] of a full adjacency drops edges: it stores the key of each
    node it leaves, so the list starts with the head's placeholder and the last
    edge is missing. *)
Theorem skiplist_get_edges_wrong :
  match NB_put_edges true 1 new_neighbors [(mkEdge 3 1 false [] true 1, []); (mkEdge 5 2 false [] true 1, [])] with
  | Some nb => NB_get_edges nb = Some [mkEdge 0 0 false [] true 0; mkEdge 3 1 false [] true 1]
  | None => False
  end.
Proof. vm_compute. reflexivity. Qed.
