(* ===== verification/MemTable.v ===== *)
(** * MemTables

    The state of [MemTable] (core/MemTable.h, src/MemTable.cpp) and its
    operations other than the flush, which is in SstBuild.v. *)

From S2P Require Import Prelude.
From S2P Require Import Types.
From S2P Require Import SkipList.
From S2P Require Import SkipListFacts.
From S2P Require Import NeighBors.

(** [vertex_adjs] maps the vertices whose slot is not [NULLPOINTER];
    [vertex_max_level] is shared with the store. *)
Record MemTable := mkMem {
  vertex_adjs : gmap Z NewEdgeSL;
  listLength : Z;
  src_vertex_num : Z;
  max_edge_num : Z;
  remain_capacity : Z;
  newest_edge : Z;
  vertex_max_level : gmap Z Z;
  fid_ : Z;
  start_time_ : Z;
  refs : Z;
  islive : bool;
  isflash : bool;
}.

Definition new_memtable (max_edges : Z) (levels : gmap Z Z) : MemTable :=
  mkMem ∅ 0 0 max_edges max_edges 0 levels 0 0 0 false false.

Definition write_max (target candidate : Z) : Z := Z.max target candidate.

Section MemTableOps.
Context (debug : bool) (reserve_node : Z).

(** [put_edge]; [draws] are the calls of [rand] it makes. The arena hands out an
    empty adjacency for a new source. [None] is a failed assertion. *)
Definition Mem_put_edge (m : MemTable) (src : Z) (e : Edge) (draws : list Z) : option MemTable :=
  let fresh := bool_decide (vertex_adjs m !! src = None) in
  nb ← NB_put_edge debug reserve_node (default new_neighbors (vertex_adjs m !! src)) draws e;
  _ ← assert_ debug (listLength m + 1 <=? max_edge_num m);
  Some (mkMem (<[src := nb]> (vertex_adjs m))
    (listLength m + 1)
    (if fresh then src_vertex_num m + 1 else src_vertex_num m)
    (max_edge_num m) (remain_capacity m)
    (write_max (newest_edge m) (sequence e))
    (if fresh then <[src := write_max (default 0 (vertex_max_level m !! src)) 0]> (vertex_max_level m)
     else vertex_max_level m)
    (fid_ m) (start_time_ m) (refs m) (islive m) (isflash m)).

Definition Mem_get (m : MemTable) (src dst : Z) (is_out : bool) (edge_type : Z)
    : option (Status * option bytes) :=
  match vertex_adjs m !! src with
  | None => Some (kNotFound, None)
  | Some nb => NB_get debug nb dst is_out edge_type
  end.

(** [get(src, dst, is_out, edge_type, fid, seq)] also reports the table's file id. *)
Definition Mem_get_seq (m : MemTable) (src dst : Z) (is_out : bool) (edge_type : Z)
    : option (Status * option Z * option Z) :=
  match vertex_adjs m !! src with
  | None => Some (kNotFound, None, None)
  | Some nb => '(st, seq) ← NB_get_seq debug nb dst is_out edge_type; Some (st, Some (fid_ m), seq)
  end.

(** The overloads without direction and type: the property one asks for the
    outgoing edge of type zero, the sequence one for any edge. *)
Definition Mem_get_out (m : MemTable) (src dst : Z) : option (Status * option bytes) :=
  Mem_get m src dst true 0.
Definition Mem_get_any_seq (m : MemTable) (src dst : Z) : option (Status * option Z * option Z) :=
  match vertex_adjs m !! src with
  | None => Some (kNotFound, None, None)
  | Some nb => '(st, seq) ← NB_get_untyped_seq debug nb dst; Some (st, Some (fid_ m), seq)
  end.

Definition Mem_get_edges (m : MemTable) (src : Z) : option (list Edge) :=
  match vertex_adjs m !! src with None => Some [] | Some nb => NB_get_edges nb end.

(** [reset]: [None] is the assertion that no reader holds the table. *)
Definition Mem_reset (m : MemTable) : option MemTable :=
  _ ← assert_ debug (refs m =? 0);
  Some (mkMem ∅ 0 0 (max_edge_num m) (max_edge_num m) 0 (vertex_max_level m)
          (fid_ m) (start_time_ m) (refs m) false false).

Definition Mem_Ref (m : MemTable) : MemTable :=
  mkMem (vertex_adjs m) (listLength m) (src_vertex_num m) (max_edge_num m) (remain_capacity m)
    (newest_edge m) (vertex_max_level m) (fid_ m) (start_time_ m) (refs m + 1) (islive m) (isflash m).
Definition Mem_Unref (m : MemTable) : option MemTable :=
  _ ← assert_ debug (0 <=? refs m);
  Some (mkMem (vertex_adjs m) (listLength m) (src_vertex_num m) (max_edge_num m) (remain_capacity m)
    (newest_edge m) (vertex_max_level m) (fid_ m) (start_time_ m) (refs m - 1) (islive m) (isflash m)).

Fixpoint Mem_put_edges (m : MemTable) (ops : list (Z * Edge * list Z)) : option MemTable :=
  match ops with
  | [] => Some m
  | (src, e, draws) :: ops => m' ← Mem_put_edge m src e draws; Mem_put_edges m' ops
  end.
End MemTableOps.

(** ** The table holds, per source, the edges inserted for it *)
Definition edges_of (src : Z) (ops : list (Z * Edge * list Z)) : list Edge :=
  (fun op => op.1.2) <$> filter (fun op => op.1.1 = src) ops.

Definition mem_repr (debug : bool) (reserve_node : Z) (m : MemTable) (ops : list (Z * Edge * list Z)) : Prop :=
  (forall src, match vertex_adjs m !! src with
               | None => edges_of src ops = []
               | Some nb => edges_of src ops <> [] /\ nb_repr debug reserve_node nb (edges_of src ops)
               end) /\
  listLength m = zlen ops /\ src_vertex_num m = Z.of_nat (size (dom (vertex_adjs m))).

Lemma edges_of_snoc src ops s e draws :
  edges_of src (ops ++ [(s, e, draws)]) = if decide (s = src) then edges_of src ops ++ [e] else edges_of src ops.
Proof.
  unfold edges_of. rewrite filter_app, filter_cons. simpl. destruct (decide (s = src)).
  - by rewrite fmap_app.
  - by rewrite filter_nil, app_nil_r.
Qed.

Lemma Mem_put_edge_repr debug reserve_node m ops src e draws :
  0 <= reserve_node -> mem_repr debug reserve_node m ops -> listLength m + 1 <= max_edge_num m ->
  (debug = true -> distinct_versions (edges_of src ops ++ [e])) ->
  exists m', Mem_put_edge debug reserve_node m src e draws = Some m' /\ max_edge_num m' = max_edge_num m /\
    mem_repr debug reserve_node m' (ops ++ [(src, e, draws)]).
Proof.
  intros H0 (Hm & Hl & Hn) Hmax Hd. unfold Mem_put_edge.
  assert (nb_repr debug reserve_node (default new_neighbors (vertex_adjs m !! src)) (edges_of src ops)) as Hr.
  { specialize (Hm src). destruct (vertex_adjs m !! src); [by destruct Hm|]. rewrite Hm. split; [done|].
    unfold zlen. simpl. lia. }
  destruct (NB_put_edge_repr debug reserve_node draws _ _ e Hr Hd) as (nb & -> & Hr'). simpl_bind.
  rewrite (proj2 (Z.leb_le _ _)), assert_true by done. simpl_bind.
  eexists. split_and!; [done|done|]. split_and!; cbn [vertex_adjs listLength src_vertex_num].
  - intros s. rewrite edges_of_snoc. destruct (decide (src = s)) as [<-|Hne].
    + rewrite lookup_insert_eq. split; [by destruct (edges_of src ops)|done].
    + rewrite lookup_insert_ne by done. apply Hm.
  - rewrite zlen_app, Hl. done.
  - rewrite dom_insert_L. case_bool_decide as E.
    + rewrite size_union by (apply not_elem_of_dom in E; set_solver). rewrite size_singleton. lia.
    + rewrite (subseteq_union_1_L {[src]} _); [done|]. apply not_eq_None_Some, elem_of_dom in E. set_solver.
Qed.

Lemma edges_of_app_prefix src ops ops' : exists es, edges_of src (ops ++ ops') = edges_of src ops ++ es.
Proof. unfold edges_of. rewrite filter_app, fmap_app. eauto. Qed.

Lemma Mem_put_edges_repr debug reserve_node ops' m ops :
  0 <= reserve_node -> mem_repr debug reserve_node m ops -> zlen (ops ++ ops') <= max_edge_num m ->
  (debug = true -> forall src, distinct_versions (edges_of src (ops ++ ops'))) ->
  exists m', Mem_put_edges debug reserve_node m ops' = Some m' /\ mem_repr debug reserve_node m' (ops ++ ops').
Proof.
  intros H0. revert m ops. induction ops' as [|[[src e] draws] ops' IH]; intros m ops Hm Hmax Hd; cbn [Mem_put_edges].
  - rewrite app_nil_r. by exists m.
  - rewrite (cons_middle _ ops ops'), app_assoc in *.
    destruct (Mem_put_edge_repr debug reserve_node m ops src e draws) as (m' & -> & Emax & Hm'); [done|done| | |].
    + destruct Hm as (_ & -> & _). rewrite !zlen_app in Hmax. pose proof (zlen_nonneg ops').
      unfold zlen in Hmax at 2. simpl in Hmax. lia.
    + intros Ed. specialize (Hd Ed src). destruct (edges_of_app_prefix src (ops ++ [(src, e, draws)]) ops') as [es Ees].
      rewrite Ees in Hd. apply distinct_prefix in Hd. rewrite edges_of_snoc in Hd. by rewrite decide_True in Hd.
    + simpl_bind. apply IH; [done|by rewrite Emax|done].
Qed.

Lemma new_memtable_repr debug reserve_node n levels : mem_repr debug reserve_node (new_memtable n levels) [].
Proof. split_and!; [|done|done]. intros src. simpl. by rewrite lookup_empty. Qed.

Lemma edges_of_increasing src ops :
  StronglySorted (fun a b : Z * Edge * list Z => sequence a.1.2 < sequence b.1.2) ops -> increasing (edges_of src ops).
Proof.
  unfold increasing, edges_of. induction 1 as [|op ops Hs IH Hop]; [constructor|]. rewrite filter_cons. case_decide; [|done].
  cbn [fmap list_fmap]. constructor; [done|]. rewrite Forall_forall in Hop. apply Forall_forall.
  intros e (o & -> & [_ Ho]%list_elem_of_filter)%list_elem_of_fmap. by apply Hop.
Qed.

(** a MemTable filled in commit order answers every lookup with the last
    edge inserted for that source, destination, direction and type (its
    property, or that it is deleted), and reports absence for everything else;
    the edge and source counters are exact. *)
Theorem memtable_get_latest debug reserve_node capacity levels ops src dst is_out ty :
  0 <= reserve_node -> zlen ops <= capacity ->
  StronglySorted (fun a b : Z * Edge * list Z => sequence a.1.2 < sequence b.1.2) ops ->
  Forall (fun op => sequence op.1.2 < kMaxSequence) ops ->
  exists m, Mem_put_edges debug reserve_node (new_memtable capacity levels) ops = Some m /\
    Mem_get debug m src dst is_out ty
      = Some (status_of property (last (filter (version_of dst is_out ty) (edges_of src ops)))) /\
    listLength m = zlen ops /\ src_vertex_num m = Z.of_nat (size (dom (vertex_adjs m))).
Proof.
  intros H0 Hc Hs Hm. rewrite Forall_forall in Hm.
  destruct (Mem_put_edges_repr debug reserve_node ops (new_memtable capacity levels) []) as (m & E & Hr).
  - done.
  - apply new_memtable_repr.
  - done.
  - intros _ s. by apply increasing_distinct, edges_of_increasing.
  - cbn [app] in Hr. exists m. destruct Hr as (Hr & Hl & Hn). split_and!; try done. unfold Mem_get. specialize (Hr src).
    destruct (vertex_adjs m !! src) as [nb|]; [|by rewrite Hr]. destruct Hr as [_ Hr]. unfold NB_get.
    rewrite (NB_find_typed_repr _ _ _ _ _ _ _ Hr); [done|by apply edges_of_increasing|].
    intros e (o & -> & [_ Ho]%list_elem_of_filter)%list_elem_of_fmap. by apply Hm.
Qed.

Definition sample_mem_ops : list (Z * Edge * list Z) :=
  [(1, mkEdge 7 1 false [] true 1, []); (2, mkEdge 3 2 false [byte_of 65] true 1, []);
   (1, mkEdge 7 3 false [byte_of 66] true 1, []); (1, mkEdge 9 4 false [] false 2, [0; 0; 0]);
   (2, mkEdge 3 5 true [] true 1, [])].

Lemma memtable_get_latest_witness :
  exists m, Mem_put_edges true 2 (new_memtable 10 ∅) sample_mem_ops = Some m /\
    Mem_get true m 1 7 true 1 = Some (kOk, Some [byte_of 66]) /\
    listLength m = 5 /\ src_vertex_num m = Z.of_nat (size (dom (vertex_adjs m))).
Proof. apply (memtable_get_latest true 2 10 ∅ sample_mem_ops 1 7 true 1); [done|done|..]; repeat constructor. Defined.
