(* ===== verification/SstBuild.v ===== *)
(** * Flushing a MemTable to an SST

    [MemTable::save2eSSTable_split_property] of src/MemTable.cpp: the split of
    the sources into chunks, the worker each chunk runs ([build_sstable]), the
    sentinels and the header. Workers only write, each through its own pointers,
    so a worker is modelled by the sequence of its writes; the targets are the
    topology buffer, the packed [cache->indexes] array and the property column
    buffers. *)

From S2P Require Import Prelude.
From S2P Require Import Types.
From S2P Require Import SkipList.
From S2P Require Import NeighBors.
From S2P Require Import MemTable.
From S2P Require Import EdgeBody.
From S2P Require Import PropertyLayout.
From S2P Require Import Sst.

Inductive Target := EFile | Cache | PFile (id : nat).
#[export] Instance Target_eq_dec : EqDecision Target.
Proof. solve_decision. Defined.

Record Write := mkWrite { w_target : Target; w_off : Z; w_data : bytes }.

(** The writes to one buffer, in program order; [None] is a write outside it. *)
Fixpoint exec (t : Target) (ws : list Write) (buffer : bytes) : option bytes :=
  match ws with
  | [] => Some buffer
  | w :: ws => if bool_decide (w_target w = t)
               then buffer' ← store_at buffer (w_off w) (w_data w); exec t ws buffer'
               else exec t ws buffer
  end.

(** The segments of a property string between '|' characters. *)
Fixpoint split_fields (raw : bytes) (segment : bytes) : list bytes :=
  match raw with
  | [] => [segment]
  | c :: raw => if bool_decide (c = byte_of 124) then segment :: split_fields raw []
                else split_fields raw (segment ++ [c])
  end.

Section Build.
Context (flags : Flags) (tls : layout) (property_num : nat).

Definition slot_len (id : nat) : Z := GetSubPropertyFixedLength flags tls (Z.of_nat id).

(** The slots of one edge: the segments in order, then zeros. The slot address
    [edge_ordinal * slot_len] is computed in 32 bits. *)
Fixpoint slot_writes (n id : nat) (edge_ordinal : Z) (segments : list bytes) : list Write :=
  match n with
  | O => []
  | S n => mkWrite (PFile id) (u32 (edge_ordinal * slot_len id)) (slot_bytes (slot_len id) (default [] (head segments)))
           :: slot_writes n (S id) edge_ordinal (tail segments)
  end.

(** The pointers of a worker. *)
Record Cursor := mkCursor {
  temp_index : Z;
  temp_body : Z;
  temp_body_offset : Z;
  Offset_ : Z;
}.

Definition body_of_edge (offset : Z) (e : Edge) : Dym.EdgeBody :=
  Dym.EdgeBody_t (destination e) (sequence e) offset (marker e) (e_is_out e) (e_edge_type e).

(** One iteration of the edge loop; [None] is [exit(-1)]. *)
Definition build_edge (write_all_edge_num : Z) (c : Cursor) (e : Edge) : option (Cursor * list Write) :=
  let newOffset := u32 (temp_body_offset c + EDGEBODY_SIZE) in
  if EDGEBODY_SIZE * write_all_edge_num <? newOffset then None
  else
    let after := temp_body c + EDGEBODY_SIZE in
    Some (mkCursor (temp_index c) after newOffset (u32 (Offset_ c + slot_len 0)),
          mkWrite EFile (temp_body c) (pod_encode (body_of_edge (Offset_ c) e))
          :: slot_writes property_num 0 (after / EDGEBODY_SIZE - 1) (split_fields (property e) [])).

Fixpoint build_edges (write_all_edge_num : Z) (c : Cursor) (es : list Edge) : option (Cursor * list Write) :=
  match es with
  | [] => Some (c, [])
  | e :: es =>
      '(c1, w1) ← build_edge write_all_edge_num c e;
      '(c2, w2) ← build_edges write_all_edge_num c1 es;
      Some (c2, w1 ++ w2)
  end.

(** A source: its index entry, then its edges. *)
Fixpoint build_vertices (write_all_edge_num : Z) (v_index : nat) (c : Cursor) (vs : list (Z * list Edge))
    : option (Cursor * list Write) :=
  match vs with
  | [] => Some (c, [])
  | (vid, es) :: vs =>
      let w0 := [mkWrite EFile (temp_index c) (le 8 vid);
                 mkWrite EFile (temp_index c + 8) (le 4 (temp_body_offset c));
                 mkWrite Cache (sizeof Index * Z.of_nat v_index) (pod_encode (mkIndex vid (temp_body_offset c)))] in
      '(c1, w1) ← build_edges write_all_edge_num
                    (mkCursor (temp_index c + 12) (temp_body c) (temp_body_offset c) (Offset_ c)) es;
      '(c2, w2) ← build_vertices write_all_edge_num (S v_index) c1 vs;
      Some (c2, w0 ++ w1 ++ w2)
  end.

(** ** The chunks *)
Record ChunkStart := mkChunk {
  chunk_src_id : nat;
  chunk_edge_offset : Z;
  chunk_index_offset : Z;
  chunk_property_offset : Z;
}.

Record Scan := mkScan {
  s_i : nat;
  edge_num : Z;
  edge_num_sum : Z;
  property_size_sum : Z;
  chunks : list ChunkStart;
}.

Definition scan_init : Scan := mkScan 0 0 0 0 [mkChunk 0 0 0 0].

(** One source of the pre-scan: closes the chunk when it would exceed
    [chunk_size] edges. *)
Definition scan_vertex (chunk_size : Z) (s : Scan) (adj_num : Z) : Scan :=
  let s' :=
    if chunk_size <? edge_num s + adj_num then
      let sum := edge_num_sum s + edge_num s in
      mkScan (s_i s) 0 sum (property_size_sum s)
        (chunks s ++ [mkChunk (s_i s) (u32 (sum * EDGEBODY_SIZE)) (u32 (Z.of_nat (s_i s) * 12))
                        (u32 (property_size_sum s))])
    else s in
  mkScan (S (s_i s')) (edge_num s' + adj_num) (edge_num_sum s')
    (property_size_sum s' + adj_num * slot_len 0) (chunks s').

Definition scan_all (chunk_size : Z) (vs : list (Z * list Edge)) : Scan :=
  foldl (fun s v => scan_vertex chunk_size s (zlen v.2)) scan_init vs.

(** [build_sstable(chunk_id)]: the sources [chunk_src_ids[c] .. chunk_src_ids[c+1]). *)
Definition build_chunk (write_all_edge_num index_base : Z) (vs : list (Z * list Edge)) (c : ChunkStart) (last : nat)
    : option (list Write) :=
  snd <$> build_vertices write_all_edge_num (chunk_src_id c)
            (mkCursor (index_base + chunk_index_offset c) (chunk_edge_offset c) (chunk_edge_offset c)
               (chunk_property_offset c))
            (take (last - chunk_src_id c) (drop (chunk_src_id c) vs)).

Fixpoint build_chunks (write_all_edge_num index_base : Z) (vs : list (Z * list Edge)) (cs : list ChunkStart) (last : nat)
    : option (list (list Write)) :=
  match cs with
  | [] => Some []
  | c :: cs =>
      w ← build_chunk write_all_edge_num index_base vs c (match cs with c' :: _ => chunk_src_id c' | [] => last end);
      ws ← build_chunks write_all_edge_num index_base vs cs last;
      Some (w :: ws)
  end.

(** ** The whole flush

    [vs] are the sources in increasing order with their sorted edges. The
    workers' writes come first, one list per worker; then the sentinel index
    entry, the sentinel body and the header. [None] covers the fatal error
    exits. *)
Record FlushPlan := mkPlan {
  plan_header : Header;
  plan_sentinel : Index;
  plan_workers : list (list Write);
  plan_final : list Write;
  plan_size : Z;
}.

Definition plan_flush (max_subcompactions timestamp list_length src_num : Z) (vs : list (Z * list Edge))
    : option FlushPlan :=
  let n := list_length in
  let s := scan_all (n / max_subcompactions) vs in
  if (max_subcompactions <=? 0) || negb ((Z.of_nat (s_i s) =? src_num) && (0 <? Z.of_nat (s_i s))) then None
  else if negb (edge_num_sum s + edge_num s =? n) then None
  else
    min ← head vs; max ← list.last vs;
    let header := mkHeader_ timestamp (n + 1) (src_num + 1) min.1 max.1 in
    let index_base := EDGEBODY_SIZE * (n + 1) in
    workers ← build_chunks n index_base vs
                (if 1 <? max_subcompactions then chunks s else take 1 (chunks s)) (s_i s);
    let sentinel := index_base + 12 * src_num in
    let total := sizeof Header + EDGEBODY_SIZE * (n + 1) + (src_num + 1) * 12 in
    Some (mkPlan header (mkIndex kInvalidVertexId (u32 (EDGEBODY_SIZE * n))) workers
      [mkWrite EFile sentinel (le 8 kInvalidVertexId);
       mkWrite EFile (sentinel + 8) (le 4 (u32 (EDGEBODY_SIZE * n)));
       mkWrite EFile (u32 (EDGEBODY_SIZE * n))
         (pod_encode (Dym.EdgeBody_t kInvalidVertexId kInvalidVertexId (u32 (property_size_sum s)) false true 0));
       mkWrite EFile (total - sizeof Header) (pod_encode header)]
      total).
End Build.

(** The adjacencies of a table in increasing source order, sorted and read
    through their iterators. *)
Fixpoint flush_input (m : MemTable) (ids : list Z) : option (list (Z * list Edge)) :=
  match ids with
  | [] => Some []
  | id :: ids =>
      match vertex_adjs m !! id with
      | None => flush_input m ids
      | Some nb => es ← NB_iterate (NB_sort nb); rest ← flush_input m ids; Some ((id, es) :: rest)
      end
  end.
