(* ===== verification/SstBuildFacts.v ===== *)
(** * What a flush leaves in its buffers

    Disjoint writes that tile a buffer leave the concatenation of their data,
    in whatever order they are performed; the writes of all flush workers
    together with the sentinels and the header tile every buffer. *)

From S2P Require Import Prelude.
From S2P Require Import Types.
From S2P Require Import SkipList.
From S2P Require Import NeighBors.
From S2P Require Import MemTable.
From S2P Require Import EdgeBody.
From S2P Require Import PropertyLayout.
From S2P Require Import Sst.
From S2P Require Import SstBuild.

(** ** Disjoint writes *)
Definition chunk_disjoint (x y : Z * bytes) : Prop :=
  x.1 + zlen x.2 <= y.1 \/ y.1 + zlen y.2 <= x.1.

Fixpoint pairwise_disjoint (l : list (Z * bytes)) : Prop :=
  match l with
  | [] => True
  | x :: l => (forall y, y ∈ l -> chunk_disjoint x y) /\ pairwise_disjoint l
  end.

Lemma chunk_disjoint_sym x y : chunk_disjoint x y -> chunk_disjoint y x.
Proof. unfold chunk_disjoint. tauto. Qed.

Lemma pairwise_disjoint_perm l l' : l ≡ₚ l' -> pairwise_disjoint l -> pairwise_disjoint l'.
Proof.
  induction 1 as [|x l l' Hp IH|x y l|l l' l'' _ IH1 _ IH2]; simpl; try tauto.
  - intros [Hx Hl]. split; [|by apply IH]. intros y Hy. apply Hx. by rewrite Hp.
  - intros (Hx & Hy & Hl). split_and!; [|intros; apply Hx; by right|done].
    intros z [->|Hz]%elem_of_cons; [apply chunk_disjoint_sym, Hx; left|by apply Hy].
Qed.

Fixpoint stores (l : list (Z * bytes)) (buffer : bytes) : option bytes :=
  match l with
  | [] => Some buffer
  | x :: l => buffer' ← store_at buffer x.1 x.2; stores l buffer'
  end.

(** Every write of a disjoint family is there afterwards. *)
Lemma stores_agree l buffer :
  pairwise_disjoint l -> (forall x, x ∈ l -> 0 <= x.1 /\ x.1 + zlen x.2 <= zlen buffer) ->
  exists buffer', stores l buffer = Some buffer' /\ zlen buffer' = zlen buffer /\
    (forall x, x ∈ l -> read_at buffer' x.1 (zlen x.2) = Some x.2) /\
    (forall o d, 0 <= o -> (forall x, x ∈ l -> chunk_disjoint (o, d) x) ->
       read_at buffer' o (zlen d) = read_at buffer o (zlen d)).
Proof.
  revert buffer. induction l as [|x l IH]; intros buffer Hd Hb; cbn [stores].
  { exists buffer. split_and!; set_solver. }
  destruct Hd as [Hx Hd]. destruct (Hb x ltac:(left)) as [H0 H1].
  pose proof (store_at_Some buffer x.1 x.2 H0 H1) as Es. rewrite Es. simpl_bind.
  pose proof (store_at_length _ _ _ _ Es) as El.
  set (b1 := take _ _ ++ _) in *.
  destruct (IH b1) as (b2 & -> & El2 & Hin & Hout); [done|intros y Hy; rewrite El; apply Hb; by right|].
  exists b2. split_and!; [done|congruence| |].
  - intros y [->|Hy]%elem_of_cons; [|by apply Hin].
    rewrite (Hout x.1 x.2) by (done || (intros z Hz; destruct x; by apply Hx)). by apply (store_read_same _ _ _ _ Es).
  - intros o d Ho Hdis. rewrite Hout by (done || (intros; apply Hdis; by right)).
    apply (store_read_other _ _ _ _ _ _ Es Ho (zlen_nonneg d)).
    destruct (Hdis x ltac:(left)) as [|]; [by left|by right].
Qed.

(** ** Tilings *)
Fixpoint tiles (o : Z) (ds : list bytes) : list (Z * bytes) :=
  match ds with
  | [] => []
  | d :: ds => (o, d) :: tiles (o + zlen d) ds
  end.

Lemma tiles_app o ds ds' : tiles o (ds ++ ds') = tiles o ds ++ tiles (o + zlen (concat ds)) ds'.
Proof.
  revert o. induction ds as [|d ds IH]; intros o; cbn [tiles app concat].
  - by rewrite Z.add_0_r.
  - rewrite IH, zlen_app. do 3 f_equal. lia.
Qed.

Lemma tiles_bounds o ds x : x ∈ tiles o ds -> o <= x.1 /\ x.1 + zlen x.2 <= o + zlen (concat ds).
Proof.
  revert o. induction ds as [|d ds IH]; intros o; cbn [tiles concat]; [by intros ?%elem_of_nil|].
  rewrite zlen_app. pose proof (zlen_nonneg d). pose proof (zlen_nonneg (concat ds)).
  intros [->|Hx]%elem_of_cons; [simpl; lia|]. apply IH in Hx. lia.
Qed.

Lemma tiles_disjoint o ds : pairwise_disjoint (tiles o ds).
Proof.
  revert o. induction ds as [|d ds IH]; intros o; cbn [tiles pairwise_disjoint]; [done|]. split; [|done].
  intros y Hy%tiles_bounds. left. simpl. lia.
Qed.

Lemma tiles_read o ds buffer :
  0 <= o -> o + zlen (concat ds) = zlen buffer ->
  (forall x, x ∈ tiles o ds -> read_at buffer x.1 (zlen x.2) = Some x.2) ->
  drop (Z.to_nat o) buffer = concat ds.
Proof.
  revert o. induction ds as [|d ds IH]; intros o Ho Hl Hr; cbn [tiles concat] in *.
  - apply drop_ge. unfold zlen in Hl. simpl in Hl. lia.
  - rewrite zlen_app in Hl. pose proof (zlen_nonneg d). pose proof (zlen_nonneg (concat ds)).
    specialize (IH (o + zlen d)). rewrite <- IH; [|lia|lia|intros; apply Hr; by right].
    specialize (Hr (o, d) ltac:(left)). simpl in Hr. apply read_at_inv in Hr as (_ & _ & _ & Ed).
    rewrite Ed at 1. unfold slice. rewrite Z2Nat.inj_add by lia. rewrite <- drop_drop.
    by rewrite take_drop.
Qed.

(** Writes that are a permutation of a tiling leave the concatenation. *)
Lemma stores_tiles l ds buffer :
  l ≡ₚ tiles 0 ds -> zlen buffer = zlen (concat ds) -> stores l buffer = Some (concat ds).
Proof.
  intros Hp Hl. destruct (stores_agree l buffer) as (b & Es & Eb & Hin & _).
  - eapply pairwise_disjoint_perm; [symmetry; exact Hp|apply tiles_disjoint].
  - intros x Hx. rewrite Hp in Hx. apply tiles_bounds in Hx. lia.
  - rewrite Es. f_equal. rewrite <- (tiles_read 0 ds b); [by rewrite drop_0|lia|lia|].
    intros x Hx. apply Hin. by rewrite Hp.
Qed.

(** ** Writes to one target *)
Definition writes_to (t : Target) (ws : list Write) : list (Z * bytes) :=
  (fun w => (w_off w, w_data w)) <$> filter (fun w => w_target w = t) ws.

Lemma writes_to_app t ws ws' : writes_to t (ws ++ ws') = writes_to t ws ++ writes_to t ws'.
Proof. unfold writes_to. by rewrite filter_app, fmap_app. Qed.

Lemma writes_to_cons t w ws :
  writes_to t (w :: ws) = if decide (w_target w = t) then (w_off w, w_data w) :: writes_to t ws else writes_to t ws.
Proof. unfold writes_to. rewrite filter_cons. by case_decide. Qed.

Lemma exec_stores t ws buffer : exec t ws buffer = stores (writes_to t ws) buffer.
Proof.
  revert buffer. induction ws as [|w ws IH]; intros buffer; [done|]. rewrite writes_to_cons. cbn [exec].
  case_bool_decide; [rewrite decide_True by done|rewrite decide_False by done; apply IH].
  cbn [stores fst snd]. destruct (store_at _ _ _); [|done]. apply IH.
Qed.

#[export] Instance writes_to_perm t : Proper ((≡ₚ) ==> (≡ₚ)) (writes_to t).
Proof. intros ws ws' E. unfold writes_to. by rewrite E. Qed.

Lemma exec_tiles t ws ds buffer :
  writes_to t ws ≡ₚ tiles 0 ds -> zlen buffer = zlen (concat ds) -> exec t ws buffer = Some (concat ds).
Proof. intros. rewrite exec_stores. by apply stores_tiles. Qed.

(** ** The writes of a worker *)
Section Workers.
Context (flags : Flags) (tls : layout) (property_num : nat) (n : Z).
Abbreviation slot_len := (slot_len flags tls).

(** The contents of the buffers: bodies, index entries and slots. *)
Definition ref_body (k : Z) (e : Edge) : bytes := pod_encode (body_of_edge (u32 (k * slot_len 0)) e).

Fixpoint ref_bodies (k : Z) (es : list Edge) : list bytes :=
  match es with
  | [] => []
  | e :: es => ref_body k e :: ref_bodies (k + 1) es
  end.

Fixpoint ref_index (k : Z) (vs : list (Z * list Edge)) : list Index :=
  match vs with
  | [] => []
  | (vid, es) :: vs => mkIndex vid (EDGEBODY_SIZE * k) :: ref_index (k + zlen es) vs
  end.

Definition index_pieces (x : Index) : list bytes := [le 8 (ix_key x); le 4 (ix_offset x)].

Definition field (p : nat) (e : Edge) : bytes := default [] (split_fields (property e) [] !! p).
Definition ref_slot (p : nat) (e : Edge) : bytes := slot_bytes (slot_len p) (field p e).
Definition all_edges (vs : list (Z * list Edge)) : list Edge := concat (snd <$> vs).

(** The sizes that fit the 32-bit offsets of the format. *)
Definition sizes_fit : Prop :=
  EDGEBODY_SIZE * n < 2 ^ 32 /\
  forall p, (p < property_num)%nat -> 0 <= slot_len p /\ n * slot_len p < 2 ^ 32.
Context (Hfit : sizes_fit).

Lemma ref_bodies_app k es es' : ref_bodies k (es ++ es') = ref_bodies k es ++ ref_bodies (k + zlen es) es'.
Proof.
  revert k. induction es as [|e es IH]; intros k; cbn [app ref_bodies].
  - by rewrite Z.add_0_r.
  - rewrite IH, zlen_cons. do 3 f_equal. lia.
Qed.

Lemma zlen_ref_bodies k es : zlen (concat (ref_bodies k es)) = EDGEBODY_SIZE * zlen es.
Proof.
  revert k. induction es as [|e es IH]; intros k; cbn [ref_bodies concat]; [done|].
  rewrite zlen_app, IH, zlen_cons. unfold ref_body, zlen at 1. rewrite pod_length.
  change (Z.of_nat (pod_size Dym.EdgeBody)) with EDGEBODY_SIZE. lia.
Qed.

Lemma ref_index_app k vs vs' :
  ref_index k (vs ++ vs') = ref_index k vs ++ ref_index (k + zlen (all_edges vs)) vs'.
Proof.
  revert k. induction vs as [|[vid es] vs IH]; intros k; cbn [app ref_index all_edges].
  - by rewrite Z.add_0_r.
  - rewrite IH. unfold all_edges. cbn [fmap list_fmap concat snd]. rewrite zlen_app. do 3 f_equal. lia.
Qed.

Lemma ref_index_length k vs : length (ref_index k vs) = length vs.
Proof. revert k. induction vs as [|[vid es] vs IH]; intros k; simpl; auto. Qed.

Lemma zlen_ref_index k vs : zlen (ref_index k vs) = zlen vs.
Proof. unfold zlen. by rewrite ref_index_length. Qed.

Lemma zlen_ref_slots p es : 0 <= slot_len p -> zlen (concat (ref_slot p <$> es)) = zlen es * slot_len p.
Proof.
  intros H. induction es as [|e es IH]; [done|]. cbn [fmap list_fmap concat].
  rewrite zlen_app, zlen_cons, IH. unfold ref_slot. rewrite slot_bytes_length by done. lia.
Qed.

Lemma zlen_index_pieces ixs : zlen (concat (concat (index_pieces <$> ixs))) = 12 * zlen ixs.
Proof.
  induction ixs as [|x ixs IH]; [done|]. cbn [fmap list_fmap index_pieces app concat].
  rewrite !zlen_app, IH, zlen_cons. unfold zlen at 1 2. rewrite !length_le. lia.
Qed.

Lemma slot_writes_efile m id o segs : writes_to EFile (slot_writes flags tls m id o segs) = [].
Proof. revert id segs. induction m as [|m IH]; intros id segs; [done|]. cbn [slot_writes]. rewrite writes_to_cons, decide_False by done. apply IH. Qed.

Lemma slot_writes_cache m id o segs : writes_to Cache (slot_writes flags tls m id o segs) = [].
Proof. revert id segs. induction m as [|m IH]; intros id segs; [done|]. cbn [slot_writes]. rewrite writes_to_cons, decide_False by done. apply IH. Qed.

Lemma slot_writes_pfile m id o segs p :
  writes_to (PFile p) (slot_writes flags tls m id o segs) =
  if decide (id <= p < id + m)%nat
  then [(u32 (o * slot_len p), slot_bytes (slot_len p) (default [] (segs !! (p - id)%nat)))] else [].
Proof.
  revert id segs. induction m as [|m IH]; intros id segs; cbn [slot_writes].
  { rewrite decide_False by lia. done. }
  rewrite writes_to_cons, IH. cbn [w_target w_off w_data].
  destruct (decide (PFile id = PFile p)) as [[= ->]|Hne].
  - rewrite decide_False, decide_True by lia. rewrite Nat.sub_diag. by destruct segs.
  - assert (id <> p) by congruence. destruct (decide (S id <= p < S id + m)%nat).
    + rewrite decide_True by lia. replace (p - id)%nat with (S (p - S id)) by lia. by destruct segs.
    + by rewrite decide_False by lia.
Qed.

Definition cursor_at (ti k : Z) : Cursor :=
  mkCursor ti (EDGEBODY_SIZE * k) (EDGEBODY_SIZE * k) (u32 (k * slot_len 0)).

Lemma build_edge_spec ti k e :
  0 <= k -> k + 1 <= n ->
  exists ws, build_edge flags tls property_num n (cursor_at ti k) e = Some (cursor_at ti (k + 1), ws) /\
    writes_to EFile ws = [(EDGEBODY_SIZE * k, ref_body k e)] /\ writes_to Cache ws = [] /\
    forall p, (p < property_num)%nat -> writes_to (PFile p) ws = [(k * slot_len p, ref_slot p e)].
Proof.
  intros Hk Hn. destruct Hfit as [H16 Hcol]. unfold build_edge, cursor_at. cbn [temp_index temp_body temp_body_offset Offset_].
  change EDGEBODY_SIZE with 16 in *.
  assert (u32 (16 * k + 16) = 16 * (k + 1)) as Eo.
  { unfold u32. rewrite wrap_small by (unfold fits; lia). lia. }
  rewrite Eo, (proj2 (Z.ltb_ge _ _)) by lia. eexists. split.
  { f_equal. f_equal. f_equal; [lia|]. unfold u32, wrap. rewrite Zplus_mod_idemp_l. f_equal. lia. }
  split_and!.
  - by rewrite writes_to_cons, slot_writes_efile.
  - by rewrite writes_to_cons, slot_writes_cache.
  - intros p Hp. rewrite writes_to_cons, slot_writes_pfile. cbn [w_target]. rewrite decide_False by done.
    rewrite decide_True by lia. rewrite Nat.sub_0_r. destruct (Hcol p Hp) as [Hl Hlt].
    replace (16 * k + 16) with ((k + 1) * 16) by lia. rewrite Z.div_mul by lia.
    replace (k + 1 - 1) with k by lia. unfold u32. rewrite wrap_small; [done|]. unfold fits. nia.
Qed.

Lemma build_edges_spec ti k es :
  0 <= k -> k + zlen es <= n ->
  exists ws, build_edges flags tls property_num n (cursor_at ti k) es = Some (cursor_at ti (k + zlen es), ws) /\
    writes_to EFile ws = tiles (EDGEBODY_SIZE * k) (ref_bodies k es) /\ writes_to Cache ws = [] /\
    forall p, (p < property_num)%nat -> writes_to (PFile p) ws = tiles (k * slot_len p) (ref_slot p <$> es).
Proof.
  revert k. induction es as [|e es IH]; intros k Hk Hn; cbn [build_edges].
  { exists []. rewrite Z.add_0_r. done. }
  rewrite zlen_cons in *. pose proof (zlen_nonneg es).
  destruct (build_edge_spec ti k e) as (w1 & -> & E1 & C1 & P1); [done|lia|]. simpl_bind.
  destruct (IH (k + 1)) as (w2 & -> & E2 & C2 & P2); [lia|lia|]. simpl_bind.
  exists (w1 ++ w2). split_and!.
  - do 3 f_equal. lia.
  - rewrite writes_to_app, E1, E2. cbn [ref_bodies tiles app]. do 3 f_equal.
    unfold ref_body, zlen. rewrite pod_length. change EDGEBODY_SIZE with 16. simpl. lia.
  - by rewrite writes_to_app, C1, C2.
  - intros p Hp. rewrite writes_to_app, P1, P2 by done. cbn [fmap list_fmap tiles app]. do 3 f_equal.
    unfold ref_slot. destruct Hfit as [_ Hc]. rewrite slot_bytes_length by (by apply Hc). lia.
Qed.

Lemma all_edges_app vs vs' : all_edges (vs ++ vs') = all_edges vs ++ all_edges vs'.
Proof. unfold all_edges. by rewrite fmap_app, concat_app. Qed.

Lemma perm_interleave {A} (a b c d : list A) : (a ++ b) ++ (c ++ d) ≡ₚ (a ++ c) ++ (b ++ d).
Proof. rewrite <- !app_assoc. f_equiv. rewrite !app_assoc. f_equiv. apply Permutation_app_comm. Qed.

(** What the writes of consecutive sources must be: from the [v]-th source, with
    [k] edges before it and its index entry at [ti]. *)
Definition vertex_writes (ti k : Z) (v : nat) (vs : list (Z * list Edge)) (ws : list Write) : Prop :=
  writes_to EFile ws ≡ₚ tiles ti (concat (index_pieces <$> ref_index k vs))
                        ++ tiles (EDGEBODY_SIZE * k) (ref_bodies k (all_edges vs)) /\
  writes_to Cache ws = tiles (sizeof Index * Z.of_nat v) (pod_encode <$> ref_index k vs) /\
  forall p, (p < property_num)%nat -> writes_to (PFile p) ws = tiles (k * slot_len p) (ref_slot p <$> all_edges vs).

Lemma zlen_pod_index (ixs : list Index) : zlen (concat (pod_encode <$> ixs)) = sizeof Index * zlen ixs.
Proof.
  induction ixs as [|x ixs IH]; [done|]. cbn [fmap list_fmap concat]. rewrite zlen_app, IH, zlen_cons.
  unfold zlen at 1. rewrite pod_length. unfold sizeof. lia.
Qed.

Lemma vertex_writes_app ti k v vs vs' ws ws' :
  vertex_writes ti k v vs ws ->
  vertex_writes (ti + 12 * zlen vs) (k + zlen (all_edges vs)) (v + length vs) vs' ws' ->
  vertex_writes ti k v (vs ++ vs') (ws ++ ws').
Proof.
  intros (E1 & C1 & P1) (E2 & C2 & P2). split_and!.
  - rewrite writes_to_app, E1, E2, perm_interleave. rewrite ref_index_app, fmap_app, concat_app, tiles_app, zlen_index_pieces, zlen_ref_index.
    rewrite all_edges_app, ref_bodies_app, (tiles_app (EDGEBODY_SIZE * k)), zlen_ref_bodies.
    by rewrite (Z.mul_add_distr_l EDGEBODY_SIZE).
  - rewrite writes_to_app, C1, C2. rewrite ref_index_app, fmap_app, tiles_app, zlen_pod_index, zlen_ref_index.
    do 2 f_equal. unfold zlen. lia.
  - intros p Hp. rewrite writes_to_app, P1, P2 by done. rewrite all_edges_app, fmap_app, tiles_app.
    rewrite zlen_ref_slots by (by apply Hfit). do 2 f_equal. lia.
Qed.

Lemma build_vertices_spec ti k v vs :
  0 <= k -> k + zlen (all_edges vs) <= n ->
  exists ws, build_vertices flags tls property_num n v (cursor_at ti k) vs
               = Some (cursor_at (ti + 12 * zlen vs) (k + zlen (all_edges vs)), ws) /\ vertex_writes ti k v vs ws.
Proof.
  revert ti k v. induction vs as [|[vid es] vs IH]; intros ti k v Hk Hn; cbn [build_vertices].
  { exists []. rewrite !Z.add_0_r. split; [done|]. by split_and!. }
  assert (zlen (all_edges ((vid, es) :: vs)) = zlen es + zlen (all_edges vs)) as El
    by (unfold all_edges; cbn [fmap list_fmap concat snd]; by rewrite zlen_app).
  rewrite El in *. pose proof (zlen_nonneg (all_edges vs)). pose proof (zlen_nonneg es).
  destruct (build_edges_spec (ti + 12) k es) as (w1 & E1 & F1 & C1 & P1); [done|lia|].
  unfold cursor_at in E1 at 1. cbn [temp_index temp_body temp_body_offset Offset_ cursor_at]. rewrite E1.
  simpl_bind.
  destruct (IH (ti + 12) (k + zlen es) (S v)) as (w2 & -> & Hw2); [lia|lia|]. simpl_bind.
  replace (ti + 12 * zlen ((vid, es) :: vs)) with (ti + 12 + 12 * zlen vs) by (rewrite zlen_cons; lia).
  rewrite Z.add_assoc. eexists. split; [done|].
  rewrite app_assoc. apply (vertex_writes_app ti k v [(vid, es)] vs).
  - assert (all_edges [(vid, es)] = es) as Ee by (unfold all_edges; cbn [fmap list_fmap concat snd]; apply app_nil_r).
    unfold vertex_writes. rewrite Ee. cbn [ref_index fmap list_fmap concat index_pieces app ix_key ix_offset]. split_and!.
    + rewrite !writes_to_cons, F1. cbn [w_target w_off w_data tiles app].
      rewrite !decide_True by done. rewrite decide_False by done. unfold zlen. by rewrite length_le.
    + rewrite !writes_to_cons, C1. cbn [w_target w_off w_data].
      rewrite !decide_False by done. by rewrite decide_True.
    + intros p Hp. rewrite !writes_to_cons, P1 by done. cbn [w_target].
      by rewrite !decide_False by done.
  - rewrite zlen_cons. unfold all_edges. cbn [fmap list_fmap concat snd length]. rewrite app_nil_r.
    replace (v + 1)%nat with (S v) by lia. exact Hw2.
Qed.

(** ** Chunks *)

(** A chunk that starts at a source of [vs] with the offsets of that source. *)
Definition chunk_ok (vs : list (Z * list Edge)) (c : ChunkStart) : Prop :=
  let k := zlen (all_edges (take (chunk_src_id c) vs)) in
  (chunk_src_id c <= length vs)%nat /\ chunk_edge_offset c = u32 (k * EDGEBODY_SIZE) /\
  chunk_index_offset c = u32 (Z.of_nat (chunk_src_id c) * 12) /\
  chunk_property_offset c = u32 (k * slot_len 0).

Definition starts_sorted (cs : list ChunkStart) : Prop :=
  StronglySorted (fun a b => (chunk_src_id a <= chunk_src_id b)%nat) cs.

Lemma u32_small z : 0 <= z < 2 ^ 32 -> u32 z = z.
Proof. intros. unfold u32. by apply wrap_small. Qed.

Lemma all_edges_take vs s : zlen (all_edges (take s vs)) <= zlen (all_edges vs).
Proof.
  rewrite <- (take_drop s vs) at 2. rewrite all_edges_app, zlen_app.
  pose proof (zlen_nonneg (all_edges (drop s vs))). lia.
Qed.

Lemma build_chunk_spec base vs c e :
  chunk_ok vs c -> (chunk_src_id c <= e <= length vs)%nat -> zlen (all_edges vs) <= n -> 12 * zlen vs < 2 ^ 32 ->
  exists ws, build_chunk flags tls property_num n base vs c e = Some ws /\
    vertex_writes (base + 12 * Z.of_nat (chunk_src_id c)) (zlen (all_edges (take (chunk_src_id c) vs)))
      (chunk_src_id c) (take (e - chunk_src_id c) (drop (chunk_src_id c) vs)) ws.
Proof.
  intros (Hs & E1 & E2 & E3) He Hn Hsrc. unfold build_chunk. set (s := chunk_src_id c) in *.
  set (k := zlen (all_edges (take s vs))) in *.
  assert (0 <= k) by apply zlen_nonneg.
  assert (k + zlen (all_edges (take (e - s) (drop s vs))) <= n) as Hke.
  { unfold k. rewrite <- zlen_app, <- all_edges_app. replace (take s vs ++ take (e - s) (drop s vs)) with (take e vs).
    - etrans; [apply all_edges_take|done].
    - rewrite take_take_drop. f_equal. lia. }
  pose proof (zlen_nonneg (all_edges (take (e - s) (drop s vs)))).
  destruct Hfit as [H16 _]. change EDGEBODY_SIZE with 16 in H16.
  rewrite E1, E2, E3. change EDGEBODY_SIZE with 16.
  rewrite (u32_small (k * 16)), (u32_small (Z.of_nat s * 12)) by (unfold zlen in *; lia).
  destruct (build_vertices_spec (base + 12 * Z.of_nat s) k s (take (e - s) (drop s vs))) as (ws & E & Hw); [done|done|].
  unfold cursor_at in E at 1. change EDGEBODY_SIZE with 16 in E.
  replace (Z.of_nat s * 12) with (12 * Z.of_nat s) by lia. replace (k * 16) with (16 * k) by lia.
  rewrite E. by exists ws.
Qed.

Lemma build_chunks_spec base vs cs c :
  Forall (chunk_ok vs) (c :: cs) -> starts_sorted (c :: cs) -> zlen (all_edges vs) <= n -> 12 * zlen vs < 2 ^ 32 ->
  exists wss, build_chunks flags tls property_num n base vs (c :: cs) (length vs) = Some wss /\
    vertex_writes (base + 12 * Z.of_nat (chunk_src_id c)) (zlen (all_edges (take (chunk_src_id c) vs)))
      (chunk_src_id c) (drop (chunk_src_id c) vs) (concat wss).
Proof.
  intros Hok Hso Hn Hsrc. revert c Hok Hso. induction cs as [|c' cs IH]; intros c Hok Hso.
  - apply Forall_cons in Hok as [Hc _]. destruct (build_chunk_spec base vs c (length vs)) as (w & E & Hw); try done.
    { split; [apply Hc|done]. }
    cbn [build_chunks]. rewrite E. simpl_bind. exists [w]. split; [done|]. cbn [concat]. rewrite app_nil_r.
    rewrite (take_ge (drop (chunk_src_id c) vs)) in Hw; [done|]. rewrite length_drop. lia.
  - apply Forall_cons in Hok as [Hc Hok]. apply StronglySorted_inv in Hso as [Hso Hle].
    apply Forall_cons in Hle as [Hle _]. pose proof Hok as [Hc' _]%Forall_cons.
    assert (chunk_src_id c' <= length vs)%nat as Hl' by apply Hc'.
    destruct (build_chunk_spec base vs c (chunk_src_id c')) as (w & E & Hw); try done.
    destruct (IH c' Hok Hso) as (wss & E' & Hws).
    change (build_chunks flags tls property_num n base vs (c :: c' :: cs) (length vs)) with
      (w ← build_chunk flags tls property_num n base vs c (chunk_src_id c');
       ws ← build_chunks flags tls property_num n base vs (c' :: cs) (length vs); Some (w :: ws)).
    rewrite E, E'. simpl_bind. exists (w :: wss). split; [done|]. cbn [concat].
    set (s := chunk_src_id c) in *. set (s' := chunk_src_id c') in *.
    replace (drop s vs) with (take (s' - s) (drop s vs) ++ drop s' vs).
    2:{ rewrite <- (take_drop (s' - s) (drop s vs)) at 2. rewrite drop_drop. do 2 f_equal. lia. }
    assert (length (take (s' - s) (drop s vs)) = (s' - s)%nat) as Elen
      by (rewrite length_take, length_drop; lia).
    apply vertex_writes_app; [done|]. rewrite Elen. unfold zlen at 1. rewrite Elen.
    replace (s + (s' - s))%nat with s' by lia.
    replace (base + 12 * Z.of_nat s + 12 * Z.of_nat (s' - s)) with (base + 12 * Z.of_nat s') by lia.
    rewrite <- zlen_app, <- all_edges_app. rewrite take_take_drop. replace (s + (s' - s))%nat with s' by lia. done.
Qed.

(** ** The pre-scan *)
Lemma chunk_ok_snoc vs v c : chunk_ok vs c -> chunk_ok (vs ++ [v]) c.
Proof.
  intros (Hs & E1 & E2 & E3). unfold chunk_ok. rewrite take_app_le by done. rewrite length_app. simpl. split_and!; try done. lia.
Qed.

Definition scan_ok (vs : list (Z * list Edge)) (s : Scan) : Prop :=
  s_i s = length vs /\ edge_num_sum s + edge_num s = zlen (all_edges vs) /\ 0 <= edge_num_sum s /\
  property_size_sum s = zlen (all_edges vs) * slot_len 0 /\
  Forall (chunk_ok vs) (chunks s) /\ starts_sorted (chunks s) /\
  exists cs, chunks s = mkChunk 0 0 0 0 :: cs.

Lemma scan_vertex_ok size vs s v :
  scan_ok vs s -> scan_ok (vs ++ [v]) (scan_vertex flags tls size s (zlen v.2)).
Proof.
  intros (Ei & Es & H0 & Ep & Hc & Hso & cs & Ecs).
  assert (zlen (all_edges (vs ++ [v])) = zlen (all_edges vs) + zlen v.2) as El.
  { rewrite all_edges_app, zlen_app. unfold all_edges at 2. cbn [fmap list_fmap concat]. by rewrite app_nil_r. }
  assert (Forall (chunk_ok (vs ++ [v])) (chunks s)) as Hc' by (eapply Forall_impl; [exact Hc|]; intros; by apply chunk_ok_snoc).
  pose proof (zlen_nonneg v.2). pose proof (zlen_nonneg (all_edges vs)). unfold scan_vertex.
  assert (length (vs ++ [v]) = S (length vs)) as Elen by (rewrite length_app; simpl; lia).
  destruct (Z.ltb_spec size (edge_num s + zlen v.2)); unfold scan_ok;
    cbn [s_i edge_num edge_num_sum property_size_sum chunks]; rewrite Elen, El; split_and!; try done; try lia.
  - apply Forall_app. split; [done|]. apply Forall_singleton. unfold chunk_ok.
    cbn [chunk_src_id chunk_edge_offset chunk_index_offset chunk_property_offset].
    rewrite Ei, Elen, take_app_length, Es, Ep. split_and!; done || lia.
  - apply StronglySorted_app. split_and!; [|done|repeat constructor].
    intros a b Ha ->%list_elem_of_singleton. cbn [chunk_src_id]. rewrite Ei. rewrite Forall_forall in Hc. by apply Hc.
  - rewrite Ecs. by eexists.
  - by exists cs.
Qed.

Lemma scan_all_snoc size vs v :
  scan_all flags tls size (vs ++ [v]) = scan_vertex flags tls size (scan_all flags tls size vs) (zlen v.2).
Proof. unfold scan_all. by rewrite foldl_app. Qed.

Lemma scan_all_ok size vs : scan_ok vs (scan_all flags tls size vs).
Proof.
  induction vs as [|v vs IH] using rev_ind.
  - unfold scan_all, scan_ok. simpl. split_and!; try done; try lia.
    + repeat constructor. 
    + repeat constructor.
    + by exists [].
  - rewrite scan_all_snoc. by apply scan_vertex_ok.
Qed.

(** With one worker nothing is split off. *)
Lemma scan_single size vs : zlen (all_edges vs) <= size -> chunks (scan_all flags tls size vs) = [mkChunk 0 0 0 0].
Proof.
  induction vs as [|v vs IH] using rev_ind; intros Hl; [done|].
  rewrite all_edges_app, zlen_app in Hl. pose proof (zlen_nonneg (all_edges [v])).
  assert (zlen (all_edges [v]) = zlen v.2) as Ev by (unfold all_edges; cbn [fmap list_fmap concat]; by rewrite app_nil_r).
  destruct (scan_all_ok size vs) as (_ & Es & H0 & _).
  rewrite scan_all_snoc. unfold scan_vertex. rewrite (proj2 (Z.ltb_ge _ _)) by lia. cbn [chunks]. apply IH. lia.
Qed.
End Workers.
