(* ===== verification/SstBuildTheorems.v ===== *)
(** * A flushed SST holds the MemTable

    The image a flush writes under any interleaving of its workers, and the
    lookups a reader performs on it. *)

From S2P Require Import Prelude.
From S2P Require Import Types.
From S2P Require Import DeltaFileCreate.
From S2P Require Import SkipList.
From S2P Require Import SkipListFacts.
From S2P Require Import NeighBors.
From S2P Require Import MemTable.
From S2P Require Import EdgeBody.
From S2P Require Import PropertyLayout.
From S2P Require Import Sst.
From S2P Require Import SstBuild.
From S2P Require Import SstBuildFacts.

Lemma zlen_le k z : zlen (le k z) = Z.of_nat k.
Proof. unfold zlen. by rewrite length_le. Qed.

Section Image.
Context (flags : Flags) (tls : layout) (property_num : nat) (vs : list (Z * list Edge)) (timestamp : Z).
Abbreviation n := (zlen (all_edges vs)).

Definition ref_header : Header :=
  mkHeader_ timestamp (n + 1) (zlen vs + 1) (from_option fst 0 (head vs)) (from_option fst 0 (list.last vs)).
Definition sentinel_body : Dym.EdgeBody :=
  Dym.EdgeBody_t kInvalidVertexId kInvalidVertexId (u32 (n * slot_len flags tls 0)) false true 0.
Definition sentinel_index : Index := mkIndex kInvalidVertexId (EDGEBODY_SIZE * n).

(** The index a reader of the table uses: the sources, then the sentinel. *)
Definition ref_indexes : list Index := ref_index 0 vs ++ [sentinel_index].

(** The topology file: bodies, sentinel body, index, header. *)
Definition ref_file : bytes :=
  concat (ref_bodies flags tls 0 (all_edges vs)) ++ pod_encode sentinel_body ++
  concat (pod_encode <$> ref_indexes) ++ pod_encode ref_header.

Definition ref_column (p : nat) : bytes := concat (ref_slot flags tls p <$> all_edges vs).

(** What fits the format: 32-bit offsets, and at least one source. *)
Definition flushable : Prop :=
  vs <> [] /\ sizes_fit flags tls property_num n /\ 12 * zlen vs < 2 ^ 32.
Context (Hok : flushable).

Lemma plan_chunks max_sub :
  1 <= max_sub ->
  exists cs, (if 1 <? max_sub then chunks (scan_all flags tls (n / max_sub) vs)
              else take 1 (chunks (scan_all flags tls (n / max_sub) vs))) = mkChunk 0 0 0 0 :: cs /\
    Forall (chunk_ok flags tls vs) (mkChunk 0 0 0 0 :: cs) /\ starts_sorted (mkChunk 0 0 0 0 :: cs).
Proof.
  intros Hm. destruct (scan_all_ok flags tls (n / max_sub) vs) as (_ & _ & _ & _ & Hc & Hs & cs & E).
  destruct (Z.ltb_spec 1 max_sub).
  - exists cs. by rewrite <- E.
  - assert (max_sub = 1) as -> by lia. rewrite scan_single by (rewrite Z.div_1_r; done).
    rewrite scan_single in Hc by (rewrite Z.div_1_r; done). exists []. split_and!; [done|done|repeat constructor].
Qed.

Lemma plan_flush_spec max_sub :
  1 <= max_sub ->
  exists plan, plan_flush flags tls property_num max_sub timestamp n (zlen vs) vs = Some plan /\
    plan_header plan = ref_header /\ plan_sentinel plan = sentinel_index /\
    plan_size plan = zlen ref_file /\
    vertex_writes flags tls property_num (EDGEBODY_SIZE * (n + 1)) 0 0 vs (concat (plan_workers plan)) /\
    writes_to EFile (plan_final plan)
      = tiles (EDGEBODY_SIZE * (n + 1) + 12 * zlen vs) (index_pieces sentinel_index)
        ++ [(EDGEBODY_SIZE * n, pod_encode sentinel_body); (zlen ref_file - sizeof Header, pod_encode ref_header)].
Proof.
  intros Hm. destruct Hok as (Hne & Hfit & Hsrc). pose proof Hfit as [H16 _].
  destruct (scan_all_ok flags tls (n / max_sub) vs) as (Ei & Es & H0 & Ep & _).
  assert (0 < zlen vs) as Hpos by (destruct vs; [done|unfold zlen; simpl; lia]).
  assert (0 <= n) as Hn by apply zlen_nonneg.
  assert (zlen ref_file = sizeof Header + EDGEBODY_SIZE * (n + 1) + (zlen vs + 1) * 12) as Esize.
  { unfold ref_file, ref_indexes. rewrite !zlen_app, zlen_ref_bodies, zlen_pod_index, zlen_app, zlen_ref_index.
    unfold zlen at 2 4 5. rewrite !pod_length. change (pod_size Dym.EdgeBody) with 16%nat.
    change EDGEBODY_SIZE with 16. change (sizeof Index) with 12. change (sizeof Header) with 40. simpl. lia. }
  unfold plan_flush. rewrite (proj2 (Z.leb_gt _ _)) by lia. rewrite Ei. cbn [orb].
  change (Z.of_nat (length vs)) with (zlen vs).
  rewrite Z.eqb_refl, (proj2 (Z.ltb_lt _ _)) by done. cbn [andb negb].
  rewrite Z.add_comm in Es. rewrite (Z.add_comm (edge_num_sum _)), Es. rewrite Z.eqb_refl. cbn [negb].
  destruct vs as [|v0 vs'] eqn:Evs; [done|]. rewrite <- Evs in *. 
  assert (exists a b, head vs = Some a /\ list.last vs = Some b) as (a & b & Ea & Eb).
  { rewrite Evs. exists v0. destruct (list.last (v0 :: vs')) as [b|] eqn:E; [by exists b|]. by apply last_None in E. }
  rewrite Ea, Eb. simpl_bind.
  destruct (plan_chunks max_sub Hm) as (cs & -> & Hc & Hs).
  destruct (build_chunks_spec flags tls property_num n Hfit (EDGEBODY_SIZE * (n + 1)) vs cs _ Hc Hs) as (wss & E & Hw);
    [lia|done|].
  cbn [chunk_src_id] in Hw. rewrite E. simpl_bind. eexists. split; [done|].
  cbn [plan_header plan_sentinel plan_workers plan_final plan_size].
  assert (u32 (EDGEBODY_SIZE * n) = EDGEBODY_SIZE * n) as E16 by (apply u32_small; change EDGEBODY_SIZE with 16 in *; lia).
  rewrite E16. split_and!.
  - unfold ref_header. by rewrite Ea, Eb.
  - done.
  - by rewrite Esize.
  - rewrite Z.add_0_r in Hw. exact Hw.
  - rewrite <- Esize, Ep, !writes_to_cons. cbn [w_target w_off w_data]. rewrite !decide_True by done.
    unfold index_pieces, sentinel_index. cbn [ix_key ix_offset tiles app]. rewrite (zlen_le 8).
    unfold ref_header, sentinel_body. by rewrite Ea, Eb.
Qed.

(** The tiles of the topology file, in file order. *)
Definition file_tiles : list bytes :=
  ref_bodies flags tls 0 (all_edges vs) ++ [pod_encode sentinel_body]
  ++ concat (index_pieces <$> ref_indexes) ++ [pod_encode ref_header].

Lemma index_pieces_concat ixs : concat (concat (index_pieces <$> ixs)) = concat (pod_encode <$> ixs).
Proof.
  induction ixs as [|x ixs IH]; [done|]. cbn [fmap list_fmap concat index_pieces app]. rewrite IH.
  cbn [pod_encode Index_pod]. unfold fields_encode. cbn [zip_with concat]. by rewrite app_nil_r, <- app_assoc.
Qed.

Lemma file_tiles_concat : concat file_tiles = ref_file.
Proof.
  unfold file_tiles, ref_file. rewrite !concat_app, index_pieces_concat. cbn [concat]. by rewrite !app_nil_r.
Qed.

Lemma flush_writes_tile ws final :
  vertex_writes flags tls property_num (EDGEBODY_SIZE * (n + 1)) 0 0 vs ws ->
  writes_to EFile final = tiles (EDGEBODY_SIZE * (n + 1) + 12 * zlen vs) (index_pieces sentinel_index)
    ++ [(EDGEBODY_SIZE * n, pod_encode sentinel_body); (zlen ref_file - sizeof Header, pod_encode ref_header)] ->
  writes_to EFile (ws ++ final) ≡ₚ tiles 0 file_tiles.
Proof.
  intros (Ew & _) Ef. rewrite writes_to_app, Ew, Ef. unfold file_tiles, ref_indexes.
  assert (zlen (pod_encode sentinel_body) = EDGEBODY_SIZE) as Eb by (unfold zlen; by rewrite pod_length).
  assert (zlen (pod_encode ref_header) = sizeof Header) as Eh by (unfold zlen; by rewrite pod_length).
  rewrite fmap_app, concat_app, !tiles_app, zlen_ref_bodies. cbn [fmap list_fmap concat tiles]. rewrite !app_nil_r.
  assert (zlen (concat (index_pieces sentinel_index)) = 12) as E12
    by (unfold index_pieces; cbn [concat]; by rewrite !zlen_app, !zlen_le).
  assert (zlen ref_file - sizeof Header = EDGEBODY_SIZE * n + EDGEBODY_SIZE + (12 * zlen vs + 12)) as Eoff.
  { rewrite <- file_tiles_concat. unfold file_tiles, ref_indexes.
    rewrite fmap_app, !concat_app, !zlen_app, zlen_ref_bodies, zlen_index_pieces, zlen_ref_index.
    cbn [fmap list_fmap concat]. rewrite !app_nil_r, Eb, Eh, E12. lia. }
  rewrite Eoff, concat_app, zlen_app, zlen_index_pieces, zlen_ref_index, E12, Eb, Z.mul_0_r, !Z.add_0_l.
  replace (EDGEBODY_SIZE * (n + 1)) with (EDGEBODY_SIZE * n + EDGEBODY_SIZE) by lia.
  set (A := tiles (EDGEBODY_SIZE * n + EDGEBODY_SIZE) (concat (index_pieces <$> ref_index 0 vs))).
  set (B := tiles 0 (ref_bodies flags tls 0 (all_edges vs))).
  set (C := tiles _ (index_pieces sentinel_index)).
  set (x := (EDGEBODY_SIZE * n, pod_encode sentinel_body)).
  rewrite (Permutation_app_comm A B), <- !app_assoc. f_equiv. cbn [app].
  rewrite Permutation_middle. f_equiv. by rewrite Permutation_middle.
Qed.
End Image.

(** Disjoint writes that tile the buffers: the image does not depend on their order. *)
Lemma plan_image flags tls property_num vs timestamp max_sub :
  flushable flags tls property_num vs -> 1 <= max_sub ->
  exists plan, plan_flush flags tls property_num max_sub timestamp (zlen (all_edges vs)) (zlen vs) vs = Some plan /\
    plan_header plan = ref_header vs timestamp /\ plan_sentinel plan = sentinel_index vs /\
    forall ws, ws ≡ₚ concat (plan_workers plan) ->
      (forall buffer, zlen buffer = plan_size plan ->
         exec EFile (ws ++ plan_final plan) buffer = Some (ref_file flags tls vs timestamp)) /\
      (forall buffer, zlen buffer = sizeof Index * zlen vs ->
         exec Cache ws buffer = Some (concat (pod_encode <$> ref_index 0 vs))) /\
      (forall p buffer, (p < property_num)%nat -> zlen buffer = zlen (all_edges vs) * slot_len flags tls p ->
         exec (PFile p) ws buffer = Some (ref_column flags tls vs p)).
Proof.
  intros Hok Hm. destruct (plan_flush_spec flags tls property_num vs timestamp Hok max_sub Hm)
    as (plan & E & Eh & Es & Esz & Hw & Ef).
  exists plan. split_and!; try done. intros ws Hp.
  assert (writes_to EFile (ws ++ plan_final plan) ≡ₚ tiles 0 (file_tiles flags tls vs timestamp)) as HE.
  { rewrite Hp. by apply (flush_writes_tile flags tls property_num). }
  destruct Hw as (_ & Hc & Hpf). pose proof Hok as (_ & [_ Hcol] & _). split_and!.
  - intros buffer Hb. rewrite <- file_tiles_concat. apply exec_tiles; [done|]. by rewrite file_tiles_concat, Hb.
  - intros buffer Hb. apply exec_tiles; [by rewrite Hp, Hc|]. by rewrite zlen_pod_index, zlen_ref_index.
  - intros p buffer Hlt Hb. apply exec_tiles; [by rewrite Hp, Hpf|]. rewrite zlen_ref_slots; [done|]. by apply Hcol.
Qed.

(** C12: whatever the number of workers and however their writes interleave, and
    whatever the freshly allocated buffers contained, a flush leaves exactly
    the reference image: packed bodies in source and version order, a sentinel
    body, the index with its sentinel, the header; the index cache; and one
    padded slot per edge in every property column. No write falls outside its
    buffer. *)
Theorem flush_writes_reference_image flags tls property_num vs timestamp max_sub :
  flushable flags tls property_num vs -> 1 <= max_sub ->
  exists plan, plan_flush flags tls property_num max_sub timestamp (zlen (all_edges vs)) (zlen vs) vs = Some plan /\
    plan_header plan = ref_header vs timestamp /\ plan_sentinel plan = sentinel_index vs /\
    forall ws, ws ≡ₚ concat (plan_workers plan) ->
      (forall buffer, zlen buffer = plan_size plan ->
         exec EFile (ws ++ plan_final plan) buffer = Some (ref_file flags tls vs timestamp)) /\
      (forall buffer, zlen buffer = sizeof Index * zlen vs ->
         exec Cache ws buffer = Some (concat (pod_encode <$> ref_index 0 vs))) /\
      (forall p buffer, (p < property_num)%nat -> zlen buffer = zlen (all_edges vs) * slot_len flags tls p ->
         exec (PFile p) ws buffer = Some (ref_column flags tls vs p)).
Proof. apply plan_image. Qed.

(** ** Reading the image *)
Definition edge_fits (e : Edge) : Prop :=
  fits 48 (destination e) /\ fits 48 (sequence e) /\ fits 8 (e_edge_type e).
#[export] Instance edge_fits_dec e : Decision (edge_fits e).
Proof. unfold edge_fits. apply _. Defined.

Fixpoint body_list (flags : Flags) (tls : layout) (k : Z) (es : list Edge) : list Dym.EdgeBody :=
  match es with
  | [] => []
  | e :: es => body_of_edge (u32 (k * slot_len flags tls 0)) e :: body_list flags tls (k + 1) es
  end.

Lemma body_list_length flags tls k es : length (body_list flags tls k es) = length es.
Proof. revert k. induction es as [|e es IH]; intros k; simpl; auto. Qed.

Lemma body_list_bytes flags tls k es : ref_bodies flags tls k es = pod_encode <$> body_list flags tls k es.
Proof. revert k. induction es as [|e es IH]; intros k; [done|]. cbn [ref_bodies body_list fmap list_fmap]. by rewrite IH. Qed.

Lemma body_list_ok flags tls k es : Forall edge_fits es -> Forall pod_ok (body_list flags tls k es).
Proof.
  intros Hf. revert k. induction Hf as [|e es (_ & _ & He) Hf IH]; intros k; cbn [body_list]; constructor; [|apply IH].
  by apply constructed_pod_ok.
Qed.

Lemma body_list_matches flags tls k es dst is_out ty :
  Forall edge_fits es ->
  match list_find (version_of dst is_out ty) es with
  | None => list_find (edge_matches dst is_out ty) (body_list flags tls k es) = None
  | Some (j, x) => exists b, list_find (edge_matches dst is_out ty) (body_list flags tls k es) = Some (j, b)
                             /\ Dym.get_marker b = marker x
  end.
Proof.
  intros Hf. revert k. induction Hf as [|e es (Hd & Hs & Ht) Hf IH]; intros k; cbn [body_list list_find]; [done|].
  destruct (body_accessors (destination e) (sequence e) (u32 (k * slot_len flags tls 0)) (marker e) (e_is_out e)
              (e_edge_type e) Hd Hs Ht) as (Ed & _ & _ & Em & Eo & Et). fold (body_of_edge (u32 (k * slot_len flags tls 0)) e) in *.
  destruct (decide (version_of dst is_out ty e)) as [(E1 & E2 & E3)|Hv].
  - rewrite decide_True by (split_and!; congruence). by eexists.
  - rewrite decide_False by (intros (M1 & M2 & M3); apply Hv; split_and!; congruence).
    specialize (IH (k + 1)). destruct (list_find (version_of dst is_out ty) es) as [[j x]|]; cbn [fmap option_fmap option_map].
    + destruct IH as (b & -> & Hb). by exists b.
    + by rewrite IH.
Qed.

Lemma body_list_lookup flags tls k es i e :
  es !! i = Some e -> body_list flags tls k es !! i = Some (body_of_edge (u32 ((k + Z.of_nat i) * slot_len flags tls 0)) e).
Proof.
  revert k i. induction es as [|x es IH]; intros k [|i] Hi; try done; cbn [body_list lookup list_lookup] in *.
  - injection Hi as ->. by rewrite Z.add_0_r.
  - rewrite (IH (k + 1)) by done. do 3 f_equal. lia.
Qed.

Lemma body_list_sorted flags tls k es :
  Forall edge_fits es -> StronglySorted (fun a b => edge_less a b = true) es -> dst_sorted (body_list flags tls k es).
Proof.
  intros Hf Hs. revert k. induction Hs as [|e es Hs IH He]; intros k; cbn [body_list]; [constructor|].
  apply Forall_cons in Hf as [Hfe Hf]. constructor; [by apply IH|]. clear IH Hs.
  assert (forall e0 k0, edge_fits e0 -> Dym.get_dst (body_of_edge (u32 (k0 * slot_len flags tls 0)) e0) = destination e0) as Hdst.
  { intros e0 k0 (Hd & Hq & Ht). by apply body_accessors. }
  generalize (k + 1). induction He as [|x es Hx He IH]; intros k'; cbn [body_list]; constructor.
  - apply Forall_cons in Hf as [Hfx _]. rewrite !Hdst by done. unfold edge_less in Hx.
    destruct (Z.ltb_spec (destination e) (destination x)), (Z.eqb_spec (destination e) (destination x)); try done; lia.
  - apply IH. by apply Forall_cons in Hf as [_ Hf].
Qed.

(** The bodies stored in the middle of a buffer. *)
Lemma edge_bodies_array (a b : bytes) (bs : list Dym.EdgeBody) :
  Forall pod_ok bs -> edge_bodies (a ++ concat (pod_encode <$> bs) ++ b) (zlen a) (length bs) = bs.
Proof.
  intros Hok. apply list_eq. intros i. unfold edge_bodies. rewrite list_lookup_fmap.
  destruct (bs !! i) as [x|] eqn:Ei.
  - pose proof (lookup_lt_Some _ _ _ Ei). rewrite lookup_seq_lt by done. cbn [fmap option_fmap option_map]. f_equal.
    rewrite Nat.add_0_l.
    rewrite slice_app_tail by (change EDGEBODY_SIZE with 16; lia).
    pose proof (concat_pod_zlen bs) as Hz. change (sizeof Dym.EdgeBody) with EDGEBODY_SIZE in Hz.
    rewrite slice_app_head; [|change EDGEBODY_SIZE with 16; lia|done|].
    2:{ change (concat (pod_encode <$> bs)) with (concat (map pod_encode bs)). rewrite Hz.
        change EDGEBODY_SIZE with 16. unfold zlen. lia. }
    rewrite (Z.mul_comm EDGEBODY_SIZE). change (concat (pod_encode <$> bs)) with (concat (map pod_encode bs)).
    pose proof (concat_pod_slice bs i x Ei) as Hs. change (sizeof Dym.EdgeBody) with EDGEBODY_SIZE in Hs. rewrite Hs.
    apply pod_decode_encode. rewrite Forall_forall in Hok. apply Hok. by eapply list_elem_of_lookup_2.
  - apply lookup_ge_None in Ei. rewrite (proj2 (lookup_ge_None (seq 0 _) i)); [done|]. by rewrite length_seq.
Qed.

(** The input of a flush: sources in increasing order below the reserved id,
    each with its edges in version order. *)
Definition flush_input_ok (vs : list (Z * list Edge)) : Prop :=
  StronglySorted (fun a b => a.1 < b.1) vs /\
  Forall (fun v => 0 <= v.1 < kInvalidVertexId /\ Forall edge_fits v.2 /\
                   StronglySorted (fun a b => edge_less a b = true) v.2) vs.

Lemma load_indexes_spec ixs rest m i :
  Forall pod_ok ixs -> (i + m = length ixs)%nat ->
  load_indexes m (concat (pod_encode <$> ixs) ++ rest) (Z.of_nat i) = Some (drop i ixs).
Proof.
  intros Hok. revert i. induction m as [|m IH]; intros i Hi; cbn [load_indexes].
  { rewrite drop_ge by lia. done. }
  destruct (lookup_lt_is_Some_2 ixs i) as [x Hx]; [lia|].
  pose proof (zlen_pod_index ixs) as Hz. pose proof (zlen_nonneg rest).
  change (sizeof Index) with 12 in *.
  rewrite read_at_Some; [|lia|lia|rewrite zlen_app, Hz; unfold zlen at 1; lia]. simpl_bind.
  rewrite slice_app_head; [|lia|lia|rewrite Hz; unfold zlen; lia].
  rewrite (Z.mul_comm 12). pose proof (concat_pod_slice ixs i x Hx) as Hs. change (sizeof Index) with 12 in Hs.
  change (concat (pod_encode <$> ixs)) with (concat (map pod_encode ixs)) at 1. rewrite Hs.
  replace (Z.of_nat i + 1) with (Z.of_nat (S i)) by lia. rewrite IH by lia. simpl_bind.
  rewrite pod_decode_encode by (rewrite Forall_forall in Hok; apply Hok; by eapply list_elem_of_lookup_2).
  by rewrite (drop_S ixs x i).
Qed.

Section Reload.
Context (flags : Flags) (tls : layout) (property_num : nat) (vs : list (Z * list Edge)) (timestamp : Z).
Context (Hok : flushable flags tls property_num vs) (Hin : flush_input_ok vs) (Hts : fits 64 timestamp).
Abbreviation n := (zlen (all_edges vs)).

Lemma n_bound : 0 <= n /\ 16 * n < 2 ^ 32.
Proof. split; [apply zlen_nonneg|]. destruct Hok as (_ & [H _] & _). exact H. Qed.

Lemma ref_index_ok k vs' : 0 <= k -> 16 * (k + zlen (all_edges vs')) < 2 ^ 32 ->
  Forall (fun v => 0 <= v.1 < kInvalidVertexId) vs' ->
  Forall pod_ok (ref_index k vs').
Proof.
  intros Hk. revert k Hk. induction vs' as [|[vid es] vs' IH]; intros k Hk Hb Hv; cbn [ref_index]; [constructor|].
  apply Forall_cons in Hv as [Hv Hvs]. unfold all_edges in Hb. cbn [fmap list_fmap concat snd] in Hb.
  rewrite zlen_app in Hb. fold (all_edges vs') in Hb. pose proof (zlen_nonneg es). pose proof (zlen_nonneg (all_edges vs')).
  constructor; [|apply IH; [lia|lia|done]].
  cbn [pod_ok Index_pod ix_key ix_offset]. change EDGEBODY_SIZE with 16. simpl in Hv.
  change kInvalidVertexId with 281474976710655 in Hv. fields_solver; unfold fits; lia.
Qed.

Lemma ref_indexes_ok : Forall pod_ok (ref_indexes vs).
Proof.
  pose proof n_bound as [H0 H1]. apply Forall_app. split.
  - apply ref_index_ok; [done|lia|]. destruct Hin as [_ H]. eapply Forall_impl; [exact H|]. simpl. tauto.
  - apply Forall_singleton. cbn [pod_ok Index_pod sentinel_index ix_key ix_offset]. change EDGEBODY_SIZE with 16.
    change kInvalidVertexId with 281474976710655. fields_solver; unfold fits; lia.
Qed.

Lemma ref_header_ok : pod_ok (ref_header vs timestamp).
Proof.
  pose proof n_bound as [H0 H1]. destruct Hok as (_ & _ & Hs). pose proof (zlen_nonneg vs).
  assert (forall o, (forall v, o = Some v -> v ∈ vs) -> fits 64 (from_option fst 0 o)) as Hkey.
  { intros [v|] Hv; [|done]. destruct Hin as [_ Hf]. rewrite Forall_forall in Hf.
    destruct (Hf v (Hv v eq_refl)) as [Hb _]. change kInvalidVertexId with 281474976710655 in Hb. unfold fits. simpl. lia. }
  cbn [pod_ok Header_pod ref_header timeStamp size index_size minKey maxKey].
  unfold Sst.header_widths. fields_solver; try (unfold fits; lia).
  - apply Hkey. intros v Hv. by apply head_Some_elem_of.
  - apply Hkey. intros v Hv. by apply last_Some_elem_of.
Qed.

(** The file of a table, whatever body ends it: flush and compaction differ in
    that body. *)
Definition table_image (end_ : Dym.EdgeBody) : bytes :=
  concat (ref_bodies flags tls 0 (all_edges vs)) ++ pod_encode end_ ++
  concat (pod_encode <$> ref_indexes vs) ++ pod_encode (ref_header vs timestamp).

Lemma reload_image end_ : LoadSSTableCache (table_image end_) = Some (ref_header vs timestamp, ref_indexes vs).
Proof.
  pose proof n_bound as [H0 H1]. unfold LoadSSTableCache.
  set (bodies := concat (ref_bodies flags tls 0 (all_edges vs)) ++ pod_encode end_).
  set (ixs := concat (pod_encode <$> ref_indexes vs)).
  assert (table_image end_ = (bodies ++ ixs) ++ pod_encode (ref_header vs timestamp) ++ []) as Ef.
  { unfold table_image, bodies, ixs. by rewrite app_nil_r, <- !app_assoc. }
  assert (zlen (pod_encode (ref_header vs timestamp)) = sizeof Header) as Eh by (unfold zlen; by rewrite pod_length).
  assert (zlen bodies = (n + 1) * EDGEBODY_SIZE) as Eb.
  { unfold bodies. rewrite zlen_app, zlen_ref_bodies. unfold zlen at 2. rewrite pod_length.
    change (Z.of_nat (pod_size Dym.EdgeBody)) with EDGEBODY_SIZE. lia. }
  assert (zlen ixs = (zlen vs + 1) * sizeof Index) as Ei.
  { unfold ixs. rewrite zlen_pod_index. unfold ref_indexes. rewrite zlen_app, zlen_ref_index. unfold zlen at 2. simpl. lia. }
  pose proof (zlen_nonneg bodies). pose proof (zlen_nonneg ixs). change (sizeof Header) with 40 in *.
  assert (zlen (table_image end_) = zlen (bodies ++ ixs) + 40) as El.
  { rewrite Ef, (zlen_app (bodies ++ ixs)), (zlen_app (pod_encode _)), Eh. change (zlen (@nil byte)) with 0. lia. }
  rewrite El. replace (zlen (bodies ++ ixs) + 40 - 40) with (zlen (bodies ++ ixs)) by lia.
  rewrite read_at_Some by (rewrite ?El; rewrite ?zlen_app; lia).
  simpl_bind. rewrite Ef.
  assert (slice (zlen (bodies ++ ixs)) 40 ((bodies ++ ixs) ++ pod_encode (ref_header vs timestamp) ++ [])
          = pod_encode (ref_header vs timestamp)) as -> by (rewrite <- Eh; apply slice_app_mid).
  rewrite pod_decode_encode by apply ref_header_ok. cbn [size index_size ref_header].
  rewrite <- Eb, <- Ei. rewrite read_at_Some by (rewrite <- ?Ef, ?El; rewrite ?zlen_app; lia).
  rewrite <- app_assoc.
  simpl_bind. rewrite slice_app_mid. unfold ixs at 1.
  pose proof (load_indexes_spec (ref_indexes vs) [] (Z.to_nat (zlen vs + 1)) 0 ref_indexes_ok) as Hload.
  rewrite app_nil_r in Hload. change (Z.of_nat 0) with 0 in Hload. rewrite Hload.
  - done.
  - unfold ref_indexes. rewrite length_app, ref_index_length. unfold zlen. simpl. lia.
Qed.

Lemma reload : LoadSSTableCache (ref_file flags tls vs timestamp) = Some (ref_header vs timestamp, ref_indexes vs).
Proof. apply (reload_image (sentinel_body flags tls vs)). Qed.
End Reload.

(** a flushed table can be reopened: loading the written file gives back the
    header and exactly the index the flush cached. *)
Theorem flushed_sst_reloads flags tls property_num vs timestamp :
  flushable flags tls property_num vs -> flush_input_ok vs -> fits 64 timestamp ->
  LoadSSTableCache (ref_file flags tls vs timestamp) = Some (ref_header vs timestamp, ref_indexes vs).
Proof. apply reload. Qed.

(** ** Lookups in the image *)
Lemma ref_indexes_split (A B : list (Z * list Edge)) vid es :
  let k := zlen (all_edges A) in
  exists y Y, ref_indexes (A ++ (vid, es) :: B) = ref_index 0 A ++ mkIndex vid (EDGEBODY_SIZE * k) :: y :: Y /\
    ix_offset y = EDGEBODY_SIZE * (k + zlen es).
Proof.
  intros k. unfold ref_indexes. rewrite ref_index_app, Z.add_0_l. cbn [ref_index]. fold k.
  rewrite <- app_assoc. cbn [app]. destruct B as [|[v2 es2] B]; cbn [ref_index app]; eexists _, _; (split; [done|]); [|done].
  cbn [sentinel_index ix_offset]. rewrite all_edges_app, zlen_app. unfold all_edges at 2. cbn [fmap list_fmap concat snd].
  by rewrite app_nil_r.
Qed.

Lemma ref_index_keys k vs : ix_key <$> ref_index k vs = fst <$> vs.
Proof. revert k. induction vs as [|[vid es] vs IH]; intros k; [done|]. cbn. f_equal. apply IH. Qed.

Lemma keys_sorted_fmap ixs : StronglySorted Z.lt (ix_key <$> ixs) -> keys_sorted ixs.
Proof.
  unfold keys_sorted. induction ixs as [|x ixs IH]; [constructor|]. cbn [fmap list_fmap].
  intros [Hs Hx]%StronglySorted_inv. constructor; [by apply IH|]. rewrite Forall_fmap in Hx. exact Hx.
Qed.

Lemma ref_indexes_sorted vs : flush_input_ok vs -> keys_sorted (ref_indexes vs).
Proof.
  intros [Hs Hf]. apply keys_sorted_fmap. unfold ref_indexes. rewrite fmap_app, ref_index_keys.
  apply StronglySorted_app. split_and!; [| |repeat constructor].
  - intros a b (v & -> & Hv)%list_elem_of_fmap ->%list_elem_of_singleton. rewrite Forall_forall in Hf.
    by apply Hf.
  - clear Hf. induction Hs as [|v vs Hs IH Hv]; [constructor|]. cbn [fmap list_fmap]. constructor; [done|].
    apply Forall_fmap. exact Hv.
Qed.

Lemma read_slot flags tls vs p j x :
  0 <= slot_len flags tls p -> all_edges vs !! j = Some x ->
  read_at (ref_column flags tls vs p) (Z.of_nat j * slot_len flags tls p) (slot_len flags tls p)
  = Some (ref_slot flags tls p x).
Proof.
  intros H0 Hj. pose proof (lookup_lt_Some _ _ _ Hj) as Hlt.
  unfold ref_column. rewrite <- (take_drop_middle _ _ _ Hj), fmap_app, concat_app. cbn [fmap list_fmap concat].
  assert (zlen (concat (ref_slot flags tls p <$> take j (all_edges vs))) = Z.of_nat j * slot_len flags tls p) as Ez.
  { rewrite zlen_ref_slots by done. unfold zlen. rewrite length_take. f_equal. lia. }
  pose proof (slot_bytes_length (slot_len flags tls p) (field p x) H0) as El. fold (ref_slot flags tls p x) in El.
  rewrite <- Ez. set (a := concat _). set (c := concat (ref_slot flags tls p <$> drop (S j) _)).
  rewrite read_at_Some; [|apply zlen_nonneg|done|rewrite !zlen_app, El; pose proof (zlen_nonneg c); lia].
  rewrite <- El at 1. by rewrite slice_app_mid.
Qed.

Lemma read_column flags tls vs p j x :
  0 <= slot_len flags tls p -> zlen (all_edges vs) * slot_len flags tls p < 2 ^ 32 -> all_edges vs !! j = Some x ->
  ReadSubPropertyFromSlot flags tls (ref_column flags tls vs p)
    (GetSubPropertyOffsetByEdgeOrdinal flags tls (Z.of_nat j) (Z.of_nat p)) (Z.of_nat p)
  = Some (TrimTrailingZero (take (Z.to_nat (slot_len flags tls p)) (field p x))).
Proof.
  intros H0 Hb Hj. unfold ReadSubPropertyFromSlot, GetSubPropertyOffsetByEdgeOrdinal.
  fold (slot_len flags tls p). pose proof (lookup_lt_Some _ _ _ Hj) as Hlt.
  assert (u64 (Z.of_nat j * slot_len flags tls p) = Z.of_nat j * slot_len flags tls p) as ->.
  { unfold u64. apply wrap_small. unfold fits. unfold zlen in Hb. nia. }
  rewrite (read_slot _ _ _ _ _ x) by done. cbn [fmap option_fmap option_map]. f_equal. unfold ref_slot. apply trim_slot.
Qed.

(** A file that starts with the bodies of a table. *)
Definition bodies_file (flags : Flags) (tls : layout) (vs : list (Z * list Edge)) (rest : bytes) : bytes :=
  concat (ref_bodies flags tls 0 (all_edges vs)) ++ rest.

(** The sequences of all edges, read from their bodies. *)
Lemma file_sequences flags tls vs rest :
  Forall edge_fits (all_edges vs) ->
  mapM (fun i => get_seq_at (bodies_file flags tls vs rest) (i * EDGEBODY_SIZE)) (seqZ 0 (zlen (all_edges vs)))
  = Some (sequence <$> all_edges vs).
Proof.
  intros Hf. set (es := all_edges vs) in *. pose proof (edge_bodies_array [] rest (body_list flags tls 0 es) (body_list_ok flags tls 0 es Hf)) as Eb.
  rewrite <- body_list_bytes, body_list_length in Eb. change (zlen (@nil byte)) with 0 in Eb. cbn [app] in Eb. change (concat (ref_bodies flags tls 0 es) ++ rest) with (bodies_file flags tls vs rest) in Eb.
  apply mapM_Some_2. apply Forall2_same_length_lookup_2.
  { rewrite length_seqZ, length_fmap. unfold zlen. lia. }
  intros i x q Hx Hq. apply lookup_seqZ in Hx as [-> Hi]. rewrite list_lookup_fmap in Hq. destruct (es !! i) as [e|] eqn:Ee; [|done].
  injection Hq as <-. pose proof (lookup_lt_Some _ _ _ Ee) as Hlt. rewrite get_seq_at_body, Z.mul_comm, Z.add_0_l, <- (Z.add_0_l (_ * Z.of_nat i)).
  rewrite (body_at_edge _ 0 (length es)); [|done| |done].
  - rewrite Eb, (body_list_lookup _ _ _ _ _ _ Ee). cbn. f_equal. rewrite Forall_forall in Hf.
    destruct (Hf e) as (Hd & Hs & Ht); [by eapply list_elem_of_lookup_2|]. by apply body_accessors.
  - unfold bodies_file. rewrite zlen_app, zlen_ref_bodies. fold es. pose proof (zlen_nonneg rest). unfold zlen at 1. lia.
Qed.

(** The bodies of one source inside the image. *)
Lemma bodies_split flags tls A B vid es tail :
  let vs := A ++ (vid, es) :: B in
  let k := zlen (all_edges A) in
  exists rest, bodies_file flags tls vs tail
    = concat (ref_bodies flags tls 0 (all_edges A)) ++ concat (pod_encode <$> body_list flags tls k es) ++ rest.
Proof.
  intros vs k. unfold bodies_file, vs. rewrite (all_edges_app A). unfold all_edges at 2. cbn [fmap list_fmap concat snd].
  fold (all_edges B). rewrite !ref_bodies_app, !concat_app, Z.add_0_l. fold k. rewrite (body_list_bytes _ _ k).
  eexists. by rewrite <- !app_assoc.
Qed.

Lemma image_split flags tls A B vid es timestamp :
  let vs := A ++ (vid, es) :: B in
  let k := zlen (all_edges A) in
  exists rest, ref_file flags tls vs timestamp
    = concat (ref_bodies flags tls 0 (all_edges A)) ++ concat (pod_encode <$> body_list flags tls k es) ++ rest.
Proof. apply bodies_split. Qed.

Lemma find_in_bodies flags tls A B vid es tail dst is_out ty :
  let vs := A ++ (vid, es) :: B in
  let k := zlen (all_edges A) in
  Forall edge_fits es -> StronglySorted (fun a b => edge_less a b = true) es ->
  FindEdgeByDstDirectionAndType (bodies_file flags tls vs tail) (EDGEBODY_SIZE * k) (EDGEBODY_SIZE * (k + zlen es))
    dst is_out ty
  = Some (first_edge (EDGEBODY_SIZE * k) dst is_out ty (body_list flags tls k es)).
Proof.
  intros vs k Hf Hs.
  destruct (bodies_split flags tls A B vid es tail) as [rest Ef]. fold k vs in Ef.
  rewrite Ef. set (a := concat _).
  assert (zlen a = EDGEBODY_SIZE * k) as Ea by apply zlen_ref_bodies.
  rewrite <- Ea at 1. replace (EDGEBODY_SIZE * (k + zlen es)) with (zlen a + EDGEBODY_SIZE * Z.of_nat (length es))
    by (rewrite Ea; unfold zlen; lia).
  pose proof (edge_bodies_array a rest (body_list flags tls k es) (body_list_ok flags tls k es Hf)) as Eb.
  rewrite body_list_length in Eb. rewrite FindEdge_refines.
  - by rewrite Eb, Ea.
  - apply zlen_nonneg.
  - rewrite !zlen_app. pose proof (zlen_nonneg rest).
    pose proof (concat_pod_zlen (body_list flags tls k es)) as Hz. change (sizeof Dym.EdgeBody) with EDGEBODY_SIZE in Hz.
    change (concat (pod_encode <$> body_list flags tls k es)) with (concat (map pod_encode (body_list flags tls k es))).
    rewrite Hz. unfold zlen at 3. rewrite body_list_length. lia.
  - rewrite Eb. by apply body_list_sorted.
Qed.

(** Where the index of the image puts a source. *)
Lemma image_range vs i vid es :
  flush_input_ok vs -> vs !! i = Some (vid, es) ->
  let k := zlen (all_edges (take i vs)) in
  get (ref_indexes vs) vid = Some (Z.of_nat i) /\ ref_indexes vs !! i = Some (mkIndex vid (EDGEBODY_SIZE * k)) /\
  exists y, ref_indexes vs !! S i = Some y /\ ix_offset y = EDGEBODY_SIZE * (k + zlen es).
Proof.
  intros Hin Hi k. set (A := take i vs) in *. set (B := drop (S i) vs).
  assert (vs = A ++ (vid, es) :: B) as Evs by (symmetry; by apply take_drop_middle).
  assert (length A = i) as El by (unfold A; rewrite length_take; apply lookup_lt_Some in Hi; lia).
  destruct (ref_indexes_split A B vid es) as (y & Y & Eix & Ey). rewrite <- Evs in Eix.
  assert (ref_indexes vs !! i = Some (mkIndex vid (EDGEBODY_SIZE * k))) as Eb.
  { rewrite Eix, lookup_app_r, ref_index_length, El, Nat.sub_diag by (rewrite ref_index_length; lia). done. }
  split_and!; [|done|exists y; split; [|done]].
  - rewrite get_first by (by apply ref_indexes_sorted). f_equal.
    destruct (list_find _ (ref_indexes vs)) as [[i' x']|] eqn:E.
    + apply list_find_Some in E as (Hi' & Ek & Hmin). f_equal.
      destruct (Nat.lt_total i' i) as [Hlt|[->|Hlt]]; [|done|by destruct (Hmin i _ Eb Hlt)].
      pose proof (keys_sorted_lookup _ _ _ _ _ (ref_indexes_sorted vs Hin) Hlt Hi' Eb) as Hk. simpl in Hk. lia.
    + apply list_find_None in E. rewrite Forall_forall in E. destruct (E _ (list_elem_of_lookup_2 _ _ _ Eb)). done.
  - rewrite Eix, lookup_app_r, ref_index_length, El by (rewrite ref_index_length; lia).
    by replace (S i - i)%nat with 1%nat by lia.
Qed.

(** Lookup of a source in a file that holds the table. *)
Lemma bodies_lookup flags tls property_num vs tail i vid es dst is_out ty :
  flushable flags tls property_num vs -> flush_input_ok vs -> vs !! i = Some (vid, es) ->
  exists b e, get (ref_indexes vs) vid = Some (Z.of_nat i) /\
    ref_indexes vs !! i = Some b /\ ref_indexes vs !! S i = Some e /\
    let found := FindEdgeByDstDirectionAndType (bodies_file flags tls vs tail) (ix_offset b) (ix_offset e) dst is_out ty in
    match first_version dst is_out ty es with
    | None => found = Some (kNotFound, -1)
    | Some x => exists j, all_edges vs !! j = Some x /\
        found = Some (if marker x then kDelete else kOk, EDGEBODY_SIZE * Z.of_nat j) /\
        forall p, (p < property_num)%nat ->
          ReadSubPropertyFromSlot flags tls (ref_column flags tls vs p)
            (GetSubPropertyOffsetByEdgeOrdinal flags tls (Z.of_nat j) (Z.of_nat p)) (Z.of_nat p)
          = Some (TrimTrailingZero (take (Z.to_nat (slot_len flags tls p)) (field p x)))
    end.
Proof.
  intros Hok Hin Hi. pose proof Hin as [_ Hf]. rewrite Forall_forall in Hf.
  destruct (Hf (vid, es) (list_elem_of_lookup_2 _ _ _ Hi)) as (_ & Hfe & Hse). simpl in Hfe, Hse.
  set (A := take i vs). set (B := drop (S i) vs).
  assert (vs = A ++ (vid, es) :: B) as Evs by (symmetry; by apply take_drop_middle).
  assert (length A = i) as El by (unfold A; rewrite length_take; apply lookup_lt_Some in Hi; lia).
  destruct (image_range vs i vid es Hin Hi) as (Hg & Eb & y & Hy & Ey). fold A in Eb, Ey.
  exists (mkIndex vid (EDGEBODY_SIZE * zlen (all_edges A))), y. split_and!; [done|done|done|].
  - pose proof (find_in_bodies flags tls A B vid es tail dst is_out ty Hfe Hse) as Hfind.
    cbn zeta in *. rewrite <- Evs in Hfind. cbn [ix_offset]. rewrite Ey, Hfind.
    pose proof (body_list_matches flags tls (zlen (all_edges A)) es dst is_out ty Hfe) as Hm.
    unfold first_version, first_edge. destruct (list_find (version_of dst is_out ty) es) as [[j x]|] eqn:Ej.
    2:{ cbn [fmap option_fmap option_map]. by rewrite Hm. }
    destruct Hm as (bd & -> & Em). cbn [fmap option_fmap option_map snd]. apply list_find_Some in Ej as (Hj & _).
    exists (length (all_edges A) + j)%nat.
    assert (all_edges vs !! (length (all_edges A) + j)%nat = Some x) as Hx.
    { rewrite Evs, all_edges_app, lookup_app_r by lia. replace (length (all_edges A) + j - length (all_edges A))%nat with j by lia.
      unfold all_edges. cbn [fmap list_fmap concat snd]. by apply lookup_app_l_Some. }
    split_and!; [done| |].
    + rewrite Em. do 2 f_equal. unfold zlen. lia.
    + intros p Hp. destruct Hok as (_ & [_ Hcol] & _). destruct (Hcol p Hp). by apply read_column.
Qed.

(** nothing is lost by a flush. For every flushed source, the index search
    finds its range, and the edge search in that range reports, for any
    destination, direction and type, the newest version the MemTable held: its
    absence, its deletion, or its position; at that position every property
    column holds the corresponding field of its property string, cut to the
    slot width and without trailing zeros. *)
Theorem flushed_sst_lookup flags tls property_num vs timestamp i vid es dst is_out ty :
  flushable flags tls property_num vs -> flush_input_ok vs -> vs !! i = Some (vid, es) ->
  exists b e, get (ref_indexes vs) vid = Some (Z.of_nat i) /\
    ref_indexes vs !! i = Some b /\ ref_indexes vs !! S i = Some e /\
    let found := FindEdgeByDstDirectionAndType (ref_file flags tls vs timestamp) (ix_offset b) (ix_offset e) dst is_out ty in
    match first_version dst is_out ty es with
    | None => found = Some (kNotFound, -1)
    | Some x => exists j, all_edges vs !! j = Some x /\
        found = Some (if marker x then kDelete else kOk, EDGEBODY_SIZE * Z.of_nat j) /\
        forall p, (p < property_num)%nat ->
          ReadSubPropertyFromSlot flags tls (ref_column flags tls vs p)
            (GetSubPropertyOffsetByEdgeOrdinal flags tls (Z.of_nat j) (Z.of_nat p)) (Z.of_nat p)
          = Some (TrimTrailingZero (take (Z.to_nat (slot_len flags tls p)) (field p x)))
    end.
Proof. apply bodies_lookup. Qed.

(** Two sources; two columns of width 4 and 2. *)
Definition sample_vs : list (Z * list Edge) :=
  [(1, [mkEdge 7 3 false [byte_of 65; byte_of 124; byte_of 66] true 1; mkEdge 7 1 false [] true 1;
        mkEdge 9 4 true [] false 2]); (4, [mkEdge 3 2 false [byte_of 67] true 1])].
Definition sample_flags : Flags := mkFlags 2 8.
Definition sample_layout : layout := Some [4; 2].

Lemma sample_flushable : flushable sample_flags sample_layout 2 sample_vs.
Proof.
  split_and!; [done| |reflexivity]. split; [reflexivity|].
  intros [|[|p]] Hp; [split; [done|reflexivity]..|lia].
Qed.

Lemma sample_input_ok : flush_input_ok sample_vs.
Proof.
  split; [repeat constructor|].
  repeat (constructor; [split_and!; try done; [eval_prop|repeat constructor]|]). constructor.
Qed.

Lemma flush_writes_reference_image_witness :
  exists plan, plan_flush sample_flags sample_layout 2 3 17 4 2 sample_vs = Some plan /\
    length (plan_workers plan) = 3%nat /\
    exec EFile (concat (reverse (plan_workers plan)) ++ plan_final plan) (replicate 156 Init.Byte.xff)
      = Some (ref_file sample_flags sample_layout sample_vs 17).
Proof.
  destruct (flush_writes_reference_image sample_flags sample_layout 2 sample_vs 17 3 sample_flushable)
    as (plan & E & _ & _ & H); [done|].
  exists plan. change (zlen (all_edges sample_vs)) with 4 in E. change (zlen sample_vs) with 2 in E.
  split_and!; [exact E| |].
  - revert E. vm_compute. by intros [= <-].
  - destruct (H (concat (reverse (plan_workers plan)))) as (HE & _).
    + clear. induction (plan_workers plan) as [|w ws IH]; [done|].
      rewrite reverse_cons, concat_app. cbn [concat]. rewrite app_nil_r, Permutation_app_comm. by f_equiv.
    + apply HE. revert E. vm_compute. by intros [= <-].
Defined.

Lemma flushed_sst_reloads_witness :
  LoadSSTableCache (ref_file sample_flags sample_layout sample_vs 17)
  = Some (mkHeader_ 17 5 3 1 4, [mkIndex 1 0; mkIndex 4 48; mkIndex kInvalidVertexId 64]).
Proof.
  rewrite (flushed_sst_reloads sample_flags sample_layout 2 sample_vs 17 sample_flushable sample_input_ok); [|eval_prop].
  reflexivity.
Defined.

Lemma flushed_sst_lookup_witness :
  exists b e, get (ref_indexes sample_vs) 1 = Some 0 /\
    ref_indexes sample_vs !! 0%nat = Some b /\ ref_indexes sample_vs !! 1%nat = Some e /\
    exists j, all_edges sample_vs !! j = Some (mkEdge 7 3 false [byte_of 65; byte_of 124; byte_of 66] true 1) /\
      FindEdgeByDstDirectionAndType (ref_file sample_flags sample_layout sample_vs 17) (ix_offset b) (ix_offset e) 7 true 1
        = Some (kOk, EDGEBODY_SIZE * Z.of_nat j).
Proof.
  destruct (flushed_sst_lookup sample_flags sample_layout 2 sample_vs 17 0 1
              [mkEdge 7 3 false [byte_of 65; byte_of 124; byte_of 66] true 1; mkEdge 7 1 false [] true 1;
               mkEdge 9 4 true [] false 2] 7 true 1 sample_flushable sample_input_ok eq_refl)
    as (b & e & H1 & H2 & H3 & j & H4 & H5 & _).
  exists b, e. split_and!; [exact H1|exact H2|exact H3|]. exists j. split; [exact H4|exact H5].
Defined.
