(* ===== verification/MemTableFlush.v ===== *)
(** * From a MemTable to its SST

    The input of a flush is exactly the contents of the table: the adjacencies
    of its sources in increasing order, each with its versions in search order. *)

From S2P Require Import Prelude.
From S2P Require Import Types.
From S2P Require Import SkipList.
From S2P Require Import SkipListFacts.
From S2P Require Import NeighBors.
From S2P Require Import MemTable.
From S2P Require Import PropertyLayout.
From S2P Require Import SstBuild.
From S2P Require Import SstBuildFacts.
From S2P Require Import SstBuildTheorems.

(** Strictly sorted permutations are unique. *)
Lemma sorted_perm_unique es es' :
  StronglySorted (fun a b => edge_less a b = true) es -> StronglySorted (fun a b => edge_less a b = true) es' ->
  es ≡ₚ es' -> es = es'.
Proof.
  intros H1 H2 Hp. eapply (StronglySorted_unique_strong (fun a b => edge_less a b = true)); [|done|done|done].
  intros x y _ _ Hxy Hyx. apply edge_less_asym in Hxy. congruence.
Qed.

(** The last write of an edge: the reference for every read. *)
Definition last_written (src dst : Z) (is_out : bool) (ty : Z) (ops : list (Z * Edge * list Z)) : option Edge :=
  last (filter (version_of dst is_out ty) (edges_of src ops)).

Definition present (ops : list (Z * Edge * list Z)) (id : Z) : Prop := edges_of id ops <> [].
#[export] Instance present_dec ops id : Decision (present ops id).
Proof. unfold present. apply _. Defined.

Section Input.
Context (debug : bool) (reserve_node : Z) (m : MemTable) (ops : list (Z * Edge * list Z)).
Context (Hm : mem_repr debug reserve_node m ops) (Hd : forall src, distinct_versions (edges_of src ops)).

(** The input of the flush holds each present source with its sorted edges. *)
Lemma flush_input_spec ids :
  exists vs, flush_input m ids = Some vs /\ vs.*1 = filter (present ops) ids /\
    Forall (fun v => v.2 ≡ₚ edges_of v.1 ops /\ StronglySorted (fun a b => edge_less a b = true) v.2) vs.
Proof.
  induction ids as [|id ids (vs & E & Ek & Hv)]; [by exists []|]. cbn [flush_input]. rewrite filter_cons.
  destruct Hm as (Hadj & _). specialize (Hadj id). destruct (vertex_adjs m !! id) as [nb|].
  - destruct Hadj as [Hne Hr]. destruct (NB_flush_order _ _ _ _ Hr (Hd id)) as (es & -> & Hp & Hs).
    simpl_bind. rewrite E. simpl_bind. exists ((id, es) :: vs). rewrite decide_True by done.
    split_and!; [done|by rewrite fmap_cons, Ek|by constructor].
  - exists vs. rewrite decide_False by (intros Hp; by apply Hp). done.
Qed.

Lemma count_edges ids :
  NoDup ids -> (forall op, op ∈ ops -> op.1.1 ∈ ids) ->
  sum_list ((fun id => length (edges_of id ops)) <$> ids) = length ops.
Proof.
  clear Hm Hd. intros Hnd. induction ops as [|[[s e] d] ops' IH]; intros Hin.
  - clear. induction ids as [|id ids IH]; [done|]. exact IH.
  - cbn [length]. rewrite <- IH by (intros; apply Hin; by right).
    specialize (Hin (s, e, d) ltac:(left)). simpl in Hin. clear IH.
    assert (forall id, length (edges_of id ((s, e, d) :: ops'))
              = ((if decide (s = id) then 1 else 0) + length (edges_of id ops'))%nat) as Hcons.
    { intros id. unfold edges_of. rewrite filter_cons. simpl. by destruct (decide (s = id)). }
    induction Hnd as [|id ids Hni Hnd IH]; [by apply elem_of_nil in Hin|]. cbn [fmap list_fmap sum_list]. rewrite Hcons.
    apply elem_of_cons in Hin as [->|Hin].
    + rewrite decide_True by done.
      assert ((fun id0 => length (edges_of id0 ((id, e, d) :: ops'))) <$> ids
              = (fun id0 => length (edges_of id0 ops')) <$> ids) as ->; [|done].
      apply list_fmap_ext. intros i id' Hi. rewrite Hcons, decide_False; [done|].
      intros <-. apply Hni. by eapply list_elem_of_lookup_2.
    + rewrite decide_False by (intros <-; done). rewrite IH by done. simpl. lia.
Qed.
End Input.

Lemma seqZ_sorted n k : StronglySorted Z.lt (seqZ n k).
Proof.
  destruct (Z.le_gt_cases 0 k) as [Hk|Hk]; [|rewrite seqZ_nil by lia; constructor].
  revert n. pattern k. apply natlike_ind; [|clear k Hk|done].
  - intros n. rewrite seqZ_nil by lia. constructor.
  - intros k Hk IH n. rewrite seqZ_cons by lia. replace (Z.pred (Z.succ k)) with k by lia. constructor; [apply IH|].
    apply Forall_forall. intros x Hx%elem_of_seqZ. lia.
Qed.

Lemma StronglySorted_filter {A} (R : A -> A -> Prop) (P : A -> Prop) `{!forall x, Decision (P x)} l :
  StronglySorted R l -> StronglySorted R (filter P l).
Proof.
  induction 1 as [|x l Hs IH Hx]; [constructor|]. rewrite filter_cons. case_decide; [|done]. constructor; [done|].
  rewrite Forall_forall in Hx. apply Forall_forall. intros y [_ Hy]%list_elem_of_filter. by apply Hx.
Qed.

Section Complete.
Context (debug : bool) (reserve_node : Z) (m : MemTable) (ops : list (Z * Edge * list Z)) (max_v : Z).
Context (vs : list (Z * list Edge)).
Context (Hm : mem_repr debug reserve_node m ops).
Context (Hv : 0 <= max_v < kInvalidVertexId).
Context (Hops : forall op, op ∈ ops -> sequence op.1.2 < kMaxSequence /\ edge_fits op.1.2 /\ 0 <= op.1.1 < max_v).
Context (Hkeys : vs.*1 = filter (present ops) (seqZ 0 max_v)).
Context (Hvs : forall v, v ∈ vs -> v.2 ≡ₚ edges_of v.1 ops /\ StronglySorted (fun a b => edge_less a b = true) v.2).

Lemma input_ok : flush_input_ok vs.
Proof.
  split.
  - assert (StronglySorted Z.lt vs.*1) as Hs by (rewrite Hkeys; apply StronglySorted_filter, seqZ_sorted).
    clear -Hs. induction vs as [|v vs' IH]; [constructor|]. cbn [fmap list_fmap] in Hs.
    apply StronglySorted_inv in Hs as [Hs Hx]. constructor; [by apply IH|]. rewrite Forall_fmap in Hx. exact Hx.
  - apply Forall_forall. intros v Hin. destruct (Hvs v Hin) as [Hp Hs]. split_and!; [| | |done].
    1, 2: assert (v.1 ∈ filter (present ops) (seqZ 0 max_v)) as [_ Hr%elem_of_seqZ]%list_elem_of_filter
      by (rewrite <- Hkeys; apply list_elem_of_fmap; by exists v); lia.
    rewrite Hp. apply Forall_forall. intros e (op & -> & [_ Hop]%list_elem_of_filter)%list_elem_of_fmap.
    by apply Hops.
Qed.

Lemma input_edges : zlen (all_edges vs) = listLength m.
Proof.
  destruct Hm as (_ & -> & _). unfold zlen. f_equal.
  rewrite <- (count_edges ops (seqZ 0 max_v)); [|apply NoDup_seqZ|intros op Hop; apply elem_of_seqZ; specialize (Hops op Hop); lia].
  transitivity (sum_list ((fun id => length (edges_of id ops)) <$> vs.*1)).
  - clear -Hvs. unfold all_edges. induction vs as [|v vs' IH]; [done|]. cbn [fmap list_fmap concat].
    rewrite length_app, IH by (intros; apply Hvs; by right).
    destruct (Hvs v ltac:(left)) as [Hp%Permutation_length _]. rewrite Hp. done.
  - rewrite Hkeys. generalize (seqZ 0 max_v). clear. induction l as [|id ids IH]; [done|]. rewrite filter_cons.
    destruct (decide (present ops id)) as [Hp|Hp].
    + cbn [fmap list_fmap]. unfold sum_list in *. cbn [sum_list_with]. by rewrite IH.
    + cbn [fmap list_fmap]. unfold sum_list in *. cbn [sum_list_with]. rewrite <- IH.
      unfold present in Hp. apply dec_stable in Hp. by rewrite Hp.
Qed.

Lemma input_sources : zlen vs = src_vertex_num m.
Proof.
  destruct Hm as (Hadj & _ & ->). unfold zlen. f_equal. rewrite <- (length_fmap fst vs), Hkeys.
  rewrite <- (size_list_to_set (C := gset Z)) by (apply NoDup_filter, NoDup_seqZ). f_equal.
  apply set_eq. intros id. rewrite elem_of_list_to_set, list_elem_of_filter, elem_of_dom. unfold present.
  specialize (Hadj id). destruct (vertex_adjs m !! id) as [nb|]; split; try (by intros [? ?]).
  intros _. destruct Hadj as [Hne _]. split; [done|]. destruct (edges_of id ops) as [|e es] eqn:E; [done|].
  assert (e ∈ edges_of id ops) as (op & -> & [Hid Hop]%list_elem_of_filter)%list_elem_of_fmap by (rewrite E; left).
  apply elem_of_seqZ. specialize (Hops op Hop). lia.
Qed.

(** The last version written, in a table and in the input of its flush. *)
Lemma mem_find_last {A} (f : Edge -> A) nb src dst is_out ty :
  increasing (edges_of src ops) -> vertex_adjs m !! src = Some nb ->
  status_of f <$> NB_find_typed debug nb dst is_out ty = Some (status_of f (last_written src dst is_out ty ops)).
Proof.
  intros Hi Hnb. destruct Hm as (Hadj & _). specialize (Hadj src). rewrite Hnb in Hadj. destruct Hadj as [_ Hr].
  rewrite (NB_find_typed_repr _ _ _ _ _ _ _ Hr Hi); [done|].
  intros e (op & -> & [_ Hop]%list_elem_of_filter)%list_elem_of_fmap. by apply Hops.
Qed.

Lemma absent_last src dst is_out ty : vertex_adjs m !! src = None -> last_written src dst is_out ty ops = None.
Proof. intros Hnb. destruct Hm as (Hadj & _). specialize (Hadj src). rewrite Hnb in Hadj. unfold last_written. by rewrite Hadj. Qed.

Lemma mem_get_last src dst is_out ty :
  increasing (edges_of src ops) ->
  Mem_get debug m src dst is_out ty = Some (status_of property (last_written src dst is_out ty ops)).
Proof.
  intros Hi. unfold Mem_get. destruct (vertex_adjs m !! src) as [nb|] eqn:Hnb; [by apply mem_find_last|].
  by rewrite (absent_last _ _ _ _ Hnb).
Qed.

Lemma input_last src dst is_out ty :
  increasing (edges_of src ops) ->
  ('(_, v) ← list_find (fun v => v.1 = src) vs; first_version dst is_out ty v.2) = last_written src dst is_out ty ops.
Proof.
  intros Hi. destruct (list_find (fun v => v.1 = src) vs) as [[i v]|] eqn:Ef.
  - apply list_find_Some in Ef as (Hin & Hsrc & _). apply list_elem_of_lookup_2 in Hin.
    destruct (Hvs v Hin) as [Hp Hs]. rewrite Hsrc in Hp. simpl_bind. unfold last_written.
    rewrite <- first_version_sorted by done.
    rewrite (sorted_perm_unique v.2 (stable_sort edge_less (reverse (edges_of src ops)))); [done|done| |].
    + apply stable_sort_strict. pose proof (increasing_distinct _ Hi) as Hd. unfold distinct_versions in *.
      by rewrite reverse_Permutation.
    + by rewrite stable_sort_perm, reverse_Permutation.
  - simpl_bind. unfold last_written. destruct (edges_of src ops) as [|e es] eqn:E; [done|]. exfalso.
    apply list_find_None in Ef. rewrite Forall_forall in Ef.
    assert (src ∈ vs.*1) as (v & -> & Hin)%list_elem_of_fmap; [|by apply (Ef v)].
    rewrite Hkeys. apply list_elem_of_filter. unfold present. rewrite E. split; [done|].
    assert (e ∈ edges_of src ops) as (op & -> & [Hid Hop]%list_elem_of_filter)%list_elem_of_fmap by (rewrite E; left).
    apply elem_of_seqZ. specialize (Hops op Hop). lia.
Qed.

Lemma input_get src dst is_out ty :
  increasing (edges_of src ops) ->
  Mem_get debug m src dst is_out ty
  = Some (status_of property ('(_, v) ← list_find (fun v => v.1 = src) vs; first_version dst is_out ty v.2)).
Proof. intros Hi. by rewrite input_last, mem_get_last. Qed.
End Complete.

(** what is flushed is what was readable. For a table filled in commit
    order, the flush input lists exactly the sources of the table in increasing
    order, passes the consistency checks of the flush (the edge and source
    counts), is well formed, and for every source the newest version in its
    edge list is what [get] answered before the flush. *)
Theorem flush_input_complete debug reserve_node capacity levels ops max_v dst is_out ty :
  0 <= reserve_node -> zlen ops <= capacity -> 0 <= max_v < kInvalidVertexId ->
  StronglySorted (fun a b : Z * Edge * list Z => sequence a.1.2 < sequence b.1.2) ops ->
  Forall (fun op => sequence op.1.2 < kMaxSequence /\ edge_fits op.1.2 /\ 0 <= op.1.1 < max_v) ops ->
  exists m vs, Mem_put_edges debug reserve_node (new_memtable capacity levels) ops = Some m /\
    flush_input m (seqZ 0 max_v) = Some vs /\ flush_input_ok vs /\
    zlen (all_edges vs) = listLength m /\ zlen vs = src_vertex_num m /\
    forall src, Mem_get debug m src dst is_out ty
      = Some (status_of property ('(_, v) ← list_find (fun v => v.1 = src) vs; first_version dst is_out ty v.2)).
Proof.
  intros H0 Hc Hv Hs Hf. rewrite Forall_forall in Hf.
  assert (forall src, distinct_versions (edges_of src ops)) as Hd by (intros; by apply increasing_distinct, edges_of_increasing).
  destruct (Mem_put_edges_repr debug reserve_node ops (new_memtable capacity levels) []) as (m & E & Hm);
    [done|apply new_memtable_repr|done|done|]. cbn [app] in Hm.
  destruct (flush_input_spec debug reserve_node m ops Hm Hd (seqZ 0 max_v)) as (vs & Ev & Ek & Hvs).
  rewrite Forall_forall in Hvs. exists m, vs. split_and!; [done|done|..].
  - by apply (input_ok ops max_v).
  - by apply (input_edges debug reserve_node m ops max_v).
  - by apply (input_sources debug reserve_node m ops max_v).
  - intros src. by apply (input_get debug reserve_node m ops max_v), edges_of_increasing.
Qed.

Lemma flush_input_complete_witness :
  exists m vs, Mem_put_edges true 2 (new_memtable 10 ∅) sample_mem_ops = Some m /\
    flush_input m (seqZ 0 8) = Some vs /\ flush_input_ok vs /\ zlen (all_edges vs) = listLength m /\
    zlen vs = src_vertex_num m /\
    forall src, Mem_get true m src 7 true 1
      = Some (status_of property ('(_, v) ← list_find (fun v => v.1 = src) vs; first_version 7 true 1 v.2)).
Proof.
  apply (flush_input_complete true 2 10 ∅ sample_mem_ops 8 7 true 1); [done|done|done|repeat constructor|].
  eval_prop.
Defined.
