(* ===== verification/DeltaMerge.v ===== *)
(** * Merging a delta chain into its base column

    The part of src/lsmstore.cpp that gives the property-delta store its merge
    callback: a fresh column file is written beside the old one (the base
    image with the records of the merged files applied in chain order) and
    renamed over it.  The SSTs known to the data manager are a map from file
    id to [SstData]; column numbers are far below the range of [int], so the
    casts between [uint32_t] and [int] are the identity. *)

From S2P Require Import Prelude.
From S2P Require Import Types.
From S2P Require Import Posix.
From S2P Require Import DeltaFile.
From S2P Require Import DeltaManifest.
From S2P Require Import Names.
From S2P Require Import DeltaStore.
From S2P Require Import PropertyLayout.
From S2P Require Import Sst.
From S2P Require Import DeltaSpec.
From S2P Require Import DeltaFileCreate.
From S2P Require Import DeltaFileTheorems.
From S2P Require Import DeltaStoreFacts.
From S2P Require Import DeltaStoreTheorems.
From S2P Require Import EdgeBody.

(** The members of [LSMStore] these operations read. *)
Record LsmColumns := mkColumns {
  property_object_kind_ : PropertyObjectKind;
  property_shard_id_ : Z;
  sub_property_lengths_ : list Z;
  dataDir : bytes;
  update_durability_ : DeltaDurability;
  sstdata_manager_ : gmap Z SstData;
  process_flags : Flags;
}.

Inductive MergeError :=
| InvalidMergeRequest
| TargetUnavailable
| BaseEmpty
| MergeOpen
| MergeTruncate
| MergeMmap
| RecordRejected          (** topology mismatch or offset outside the column *)
| MergeSync
| MergeClose
| MergeRename
| MergeSyncDirectory
| MergedOpen.

(** [ftruncate] on a file that may have to grow: new bytes are zero. *)
Definition sys_resize (p : bytes) (n : Z) : IO bool :=
  let* ok := sys_call in let* fs := get_files in
  match ok, fs !! p with
  | true, Some c =>
      let* _ := put_file p (take (Z.to_nat n) c ++ replicate (Z.to_nat n - length c) Init.Byte.x00) in
      io_ret true
  | _, _ => io_ret false
  end.

(** ** File names (src/storage_internal.cpp), under the path override *)
Definition eFileName (db_path : bytes) (current_time : Z) : bytes :=
  db_path ++ str "/" ++ to_string current_time ++ str ".sst".
Definition pFileName (db_path : bytes) (current_time : Z) : bytes :=
  db_path ++ str "/" ++ to_string current_time ++ str ".sst_p".
Definition pFileName_with_id (property_file : bytes) (id : Z) : bytes :=
  property_file ++ str "_" ++ to_string id.

(** ** [MappedPropertyFile::Open] *)
Definition MappedPropertyFile_Open (path : bytes) : IO (option bytes) :=
  let* content := sys_open_read path in
  match content with
  | None => io_ret None
  | Some mapping =>
      let* stat_ok := sys_call in
      if negb stat_ok || (zlen mapping <=? 0) then io_ret None
      else
        let* mapped := sys_call in
        io_ret (if mapped then Some mapping else None)
  end.

Section Columns.
Context (L : LsmColumns).

Definition MakePropertyDeltaTarget (base_file_id property_id : Z) : PropertyDeltaTarget :=
  mkTarget (property_object_kind_ L) (property_shard_id_ L) base_file_id base_file_id
    (u32 property_id).

(** [ScopedFixedPropertyLayout property_layout(&sub_property_lengths_)] *)
Definition merge_layout : layout := scoped_enter (Some (sub_property_lengths_ L)).

(** ** The visitor of the merge

    The state is the output mapping; [None] is an access outside a mapping. *)
Definition merge_visit (data : SstData) (property_id base_size : Z)
    (record : PropertyDeltaRecord) (output : option bytes) : bool * option bytes :=
  match output with
  | None => (false, None)
  | Some output =>
      match LocateSstEdgeOrdinal data record with
      | None => (false, None)
      | Some None => (false, Some output)
      | Some (Some edge_ordinal) =>
          let slot_length := GetSubPropertyFixedLength (process_flags L) merge_layout property_id in
          let offset := u64 (edge_ordinal * slot_length) in
          if (base_size <? offset) || (base_size - offset <? slot_length) then (false, Some output)
          else
            match WritePaddedSubPropertySlot (process_flags L) merge_layout output offset
                    (value record) property_id with
            | None => (false, None)
            | Some output => (true, Some output)
            end
      end
  end.

(** The loop over the files; the boolean is [ok]. *)
Fixpoint merge_files (data : SstData) (property_id base_size : Z) (deltas : list FileRef)
    (output : option bytes) : option (bool * option bytes) :=
  match deltas with
  | [] => Some (true, output)
  | delta :: deltas =>
      match ForEachRecord (ref_file delta) (merge_visit data property_id base_size) output with
      | None => None
      | Some (true, output) => merge_files data property_id base_size deltas output
      | Some (false, output) => Some (false, output)
      end
  end.

Definition merge_paths (target : PropertyDeltaTarget) (output_generation : Z) : bytes * bytes :=
  let final_path := pFileName_with_id (pFileName (dataDir L) (base_file_id target))
                      (property_id target) in
  (final_path, final_path ++ str ".merge." ++ to_string output_generation ++ str ".tmp").

(** The part between opening the temporary file and closing it: [Ok] when the
    temporary holds the merged image; the outer option is memory safety. *)
Definition fill_temporary (data : SstData) (property_id : Z) (base : bytes) (deltas : list FileRef)
    (temporary : bytes) : IO (option (option MergeError)) :=
  let sync_wanted := bool_decide (update_durability_ L = kProcessCrashSafe) in
  let* sized := sys_resize temporary (zlen base) in
  if negb sized then io_ret (Some (Some MergeTruncate))
  else
    let* mapped := sys_call in
    if negb mapped then io_ret (Some (Some MergeMmap))
    else
      let* _ := put_file temporary base in                       (* memcpy *)
      match merge_files data property_id (zlen base) deltas (Some base) with
      | Some (ok, Some output) =>
          let* _ := put_file temporary output in                 (* the shared mapping *)
          if negb ok then io_ret (Some (Some RecordRejected))
          else
            let* msynced := (if sync_wanted then sys_call else io_ret true) in
            if negb msynced then io_ret (Some (Some MergeSync))
            else
              let* synced := (if sync_wanted then sys_call else io_ret true) in
              io_ret (Some (if synced then None else Some MergeSync))
      | _ => io_ret None
      end.

Definition merge_base (data : SstData) (current_base : option bytes) (property_id : Z) : bytes :=
  match current_base with
  | Some base => base
  | None => default [] (property_data data !! Z.to_nat property_id)
  end.

(** ** [MergePropertyDeltaColumn] *)
Definition MergePropertyDeltaColumn (target : PropertyDeltaTarget) (current_base : option bytes)
    (deltas : list FileRef) (output_generation : Z) : IO (option (result MergeError bytes)) :=
  if bool_decide (deltas = []) || negb (bool_decide (kind target = property_object_kind_ L))
     || negb (shard_id target =? property_shard_id_ L)
     || (zlen (sub_property_lengths_ L) <=? property_id target)
  then io_ret (Some (Err InvalidMergeRequest))
  else
    match sstdata_manager_ L !! base_file_id target with
    | None => io_ret (Some (Err TargetUnavailable))
    | Some data =>
        let base := merge_base data current_base (property_id target) in
        if zlen base =? 0 then io_ret (Some (Err BaseEmpty))
        else
          let '(final_path, temporary_path) := merge_paths target output_generation in
          let* opened := sys_open_excl temporary_path in
          if negb opened then io_ret (Some (Err MergeOpen))
          else
            let* filled := fill_temporary data (property_id target) base deltas temporary_path in
            match filled with
            | None => io_ret None
            | Some error =>
                let* closed := sys_call in
                let error := match error with
                             | Some e => Some e
                             | None => if closed then None else Some MergeClose
                             end in
                match error with
                | Some e => let* _ := sys_unlink temporary_path in io_ret (Some (Err e))
                | None =>
                    let* renamed := sys_rename temporary_path final_path in
                    if negb renamed then
                      let* _ := sys_unlink temporary_path in io_ret (Some (Err MergeRename))
                    else
                      let* dir_ok := (if bool_decide (update_durability_ L = kProcessCrashSafe)
                                      then SyncParentDirectory else io_ret true) in
                      if negb dir_ok then io_ret (Some (Err MergeSyncDirectory))
                      else
                        let* mapped := MappedPropertyFile_Open final_path in
                        io_ret (Some (match mapped with Some m => Ok m | None => Err MergedOpen end))
                end
            end
    end.

(** The callback the constructor installs in the property-delta store. *)
Definition merge_callback : MergeCallback := fun target current_base deltas output_generation =>
  let* merged := MergePropertyDeltaColumn target current_base deltas output_generation in
  io_ret (match merged with Some (Ok m) => Some m | _ => None end).

(** ** The read side: [find_edge_from_sstdata_cache]

    [s_offset, e_offset) is the range of the source vertex; the result is the
    status and the value assigned to [*property], if any.  [debug] is a build
    with assertions. *)
Definition BaseDataOr (view : PropertyDeltaReadView) (original : bytes) : bytes :=
  default original (merged_base view).

Definition delta_lookup (view : option PropertyDeltaReadView) (k : LogicalKey)
  : option (option bytes) :=
  match view with
  | None => Some None
  | Some view =>
      '(best, _) ← ReadView_Lookup k kLatestPropertyCommit view (mkCounters 0 0 0 0);
      Some (fst <$> (best : option (bytes * Z)))
  end.

Definition find_edge_from_sstdata_cache (debug : bool) (view : option PropertyDeltaReadView)
    (sstcache : SstData) (src dst s_offset e_offset property_id : Z) (is_out : bool) (edge_type : Z)
  : option (Status * option bytes) :=
  '(status, low) ← FindEdgeByDstDirectionAndType (edge_data sstcache) (signed 32 s_offset)
                     (signed 32 e_offset) dst is_out edge_type;
  if negb (bool_decide (status = kOk)) then Some (status, None)
  else
    sequence ← get_seq_at (edge_data sstcache) low;
    delta ← delta_lookup view (mkKey src dst sequence is_out edge_type);
    match (delta : option bytes) with
    | Some property => Some (kOk, Some property)
    | None =>
        let column := default [] (property_data sstcache !! Z.to_nat property_id) in
        let property_buffer := match view with Some v => BaseDataOr v column | None => column end in
        edge_ordinal ← GetEdgeOrdinalFromBodyOffset low;
        let property_offset :=
          GetSubPropertyOffsetByEdgeOrdinal (process_flags L) merge_layout edge_ordinal property_id in
        let length := GetSubPropertyFixedLength (process_flags L) merge_layout property_id in
        if debug && negb (length <? 1024) then None
        else if 0 <? length then
          property ← ReadSubPropertyFromSlot (process_flags L) merge_layout property_buffer
                       property_offset property_id;
          Some (kOk, Some property)
        else Some (kOk, None)
    end.

(** ** The store-side entry points of the LSM store *)
Section Entry.
Context `{StdHash}.

Definition LoadPropertyDeltaView (store : option PropertyDeltaStore) (base_file_id property_id : Z)
  : option PropertyDeltaReadView :=
  match store with
  | None => None
  | Some s =>
      if (property_id <? 0) || (zlen (sub_property_lengths_ L) <=? property_id) then None
      else ReadView s (MakePropertyDeltaTarget base_file_id property_id)
  end.

(** [MarkPropertyDeltaTargetPersistent]: errors are only logged. *)
Fixpoint mark_columns (s : PropertyDeltaStore) (base_file_id : Z) (property_ids : list Z)
  : IO PropertyDeltaStore :=
  match property_ids with
  | [] => io_ret s
  | pid :: rest =>
      let* marked := MarkTargetPersistent s (MakePropertyDeltaTarget base_file_id pid) in
      mark_columns (snd marked) base_file_id rest
  end.

Definition MarkPropertyDeltaTargetPersistent (store : option PropertyDeltaStore) (base_file_id : Z)
  : IO (option PropertyDeltaStore) :=
  match store with
  | None => io_ret None
  | Some s =>
      let* s := mark_columns s base_file_id (Z.of_nat <$> seq 0 (length (sub_property_lengths_ L))) in
      io_ret (Some s)
  end.

(** [PreparePropertyDeltasForCompaction]: the guard, when it is granted. *)
Definition PreparePropertyDeltasForCompaction (store : option PropertyDeltaStore)
  : IO (result StoreError unit * option PropertyDeltaStore) :=
  match store with
  | None => io_ret (Ok tt, None)
  | Some s =>
      let* drained := MergeAllPersistent s in
      io_ret (fst drained, Some (snd drained))
  end.
End Entry.
End Columns.

(** ** Facts about the column merge

    Distinct logical edges have distinct ordinals, the merge loop applies the
    records of the chain in order, and for a chain in commit order the record
    applied last to an edge is its newest version. *)

(** ** Ordinals of logical edges *)
Definition key_record (k : LogicalKey) : PropertyDeltaRecord :=
  mkRecord (k_src k) (k_dst k) (k_base_sequence k) 0 (k_is_out k) (k_edge_type k) [].

(** The row of a logical edge in the property columns of an SST. *)
Definition edge_ordinal (data : SstData) (k : LogicalKey) : option Z := locate_spec data (key_record k).

Lemma locate_spec_key data r : locate_spec data r = edge_ordinal data (key_of r).
Proof. reflexivity. Qed.

Lemma wf_offsets data i j b e :
  wf_sst data -> (i <= j)%nat -> sst_indexes data !! i = Some b -> sst_indexes data !! j = Some e ->
  ix_offset b <= ix_offset e.
Proof.
  intros [_ Hr] Hij. revert e. induction Hij as [|j Hij IH]; intros e Hb He; [simplify_eq; lia|].
  destruct (lookup_lt_is_Some_2 (sst_indexes data) j) as [x Hx]; [apply lookup_lt_Some in He; lia|].
  specialize (IH x Hb Hx). destruct (Hr j x e Hx He) as (_ & Hle & _). lia.
Qed.

(** What an ordinal says about its edge: its range and the body stored there. *)
Lemma edge_ordinal_inv data k o :
  wf_sst data -> edge_ordinal data k = Some o ->
  exists i b e body, sst_indexes data !! i = Some b /\ sst_indexes data !! S i = Some e /\
    range_ok data b e /\ ix_key b = k_src k /\
    ix_offset b <= EDGEBODY_SIZE * o < ix_offset e /\
    body_at (edge_data data) (EDGEBODY_SIZE * o) = Some body /\
    edge_matches (k_dst k) (k_is_out k) (k_edge_type k) body /\ Dym.get_seq body = k_base_sequence k.
Proof.
  intros [Hk Hr] H. unfold edge_ordinal, locate_spec in H. cbn [key_record src dst is_out edge_type base_sequence] in H.
  destruct (list_find _ (sst_indexes data)) as [[i b]|] eqn:Ei; [|done]. simpl_bind in H.
  apply list_find_Some in Ei as (Hi & Hsrc & _).
  destruct (sst_indexes data !! S i) as [e|] eqn:He; [|done]. simpl_bind in H.
  destruct (list_find _ (range_bodies data b e)) as [[j body]|] eqn:Ej; [|done]. simpl_bind in H.
  apply list_find_Some in Ej as (Hj & Hm & _). destruct (Dym.get_marker body); [done|].
  destruct (Z.eqb_spec (Dym.get_seq body) (k_base_sequence k)); [|done]. injection H as <-.
  pose proof (Hr _ _ _ Hi He) as Hok. pose proof (range_body_at _ _ _ _ _ Hok Hj) as Hb.
  pose proof (lookup_lt_Some _ _ _ Hj) as Hlt. unfold range_bodies in Hlt. rewrite edge_bodies_length in Hlt.
  pose proof Hok as (H0 & Hle & Hhi & Hmax & Hb0 & He0 & _).
  assert (EDGEBODY_SIZE * (ix_offset b / EDGEBODY_SIZE + Z.of_nat j) = ix_offset b + EDGEBODY_SIZE * Z.of_nat j) as E.
  { change EDGEBODY_SIZE with 16 in *. pose proof (Z.div_mod (ix_offset b) 16). lia. }
  exists i, b, e, body. rewrite E. split_and!; try done; change EDGEBODY_SIZE with 16 in *; [lia|].
  pose proof (Z.mul_div_le (ix_offset e - ix_offset b) 16). lia.
Qed.

(** Distinct logical edges never share a row. *)
Lemma edge_ordinal_inj data k k' o :
  wf_sst data -> edge_ordinal data k = Some o -> edge_ordinal data k' = Some o -> k = k'.
Proof.
  intros Hwf H H'. apply edge_ordinal_inv in H as (i & b & e & body & Hi & He & _ & Hs & Ho & Hb & Hm & Hq); [|done].
  apply edge_ordinal_inv in H' as (i' & b' & e' & body' & Hi' & He' & _ & Hs' & Ho' & Hb' & Hm' & Hq'); [|done].
  assert (i = i') as <-.
  { destruct (Nat.lt_total i i') as [Hlt|[?|Hlt]]; [|done|].
    - pose proof (wf_offsets data (S i) i' e b' Hwf ltac:(lia) He Hi'). lia.
    - pose proof (wf_offsets data (S i') i e' b Hwf ltac:(lia) He' Hi). lia. }
  simplify_eq. destruct Hm as (? & ? & ?), Hm' as (? & ? & ?). destruct k, k'. simpl in *. congruence.
Qed.

Lemma edge_ordinal_nonneg data k o : wf_sst data -> edge_ordinal data k = Some o -> 0 <= o.
Proof.
  intros Hwf H. apply edge_ordinal_inv in H as (i & b & e & body & _ & _ & (H0 & _) & _ & Ho & _); [|done].
  change EDGEBODY_SIZE with 16 in *. lia.
Qed.

(** ** The records of a chain, in the order the merge applies them *)
Definition applied (batches : list (list PropertyDeltaRecord)) : list PropertyDeltaRecord :=
  concat (canonical <$> batches).

Definition last_write (k : LogicalKey) (rs : list PropertyDeltaRecord) : option PropertyDeltaRecord :=
  last (filter (fun r => key_of r = k) rs).

Definition key_sorted (rs : list PropertyDeltaRecord) : Prop :=
  StronglySorted (fun a b => key_of a = key_of b -> commit_sequence a <= commit_sequence b) rs.

Lemma elem_of_applied r bs : r ∈ applied bs -> exists b, b ∈ bs /\ r ∈ b.
Proof.
  unfold applied. intros H. apply list_elem_of_In, in_concat in H as (l & Hl & Hr).
  apply list_elem_of_In, list_elem_of_fmap in Hl as (b & -> & Hb). exists b. split; [done|].
  by apply canonical_subset, list_elem_of_In.
Qed.

Lemma commit_ordered_tail b bs : commit_ordered (b :: bs) -> commit_ordered bs.
Proof. intros H i j x y r r' Hij Hi Hj. by apply (H (S i) (S j) x y r r'); [lia|..]. Qed.

Lemma applied_key_sorted bs : commit_ordered bs -> key_sorted (applied bs).
Proof.
  induction bs as [|b bs IH]; intros Ho; [constructor|].
  unfold applied. cbn [fmap list_fmap concat]. apply StronglySorted_app_2; [| |].
  - intros x y Hx Hy Hk. apply canonical_subset in Hx. apply elem_of_applied in Hy as (b' & Hb' & Hy).
    apply list_elem_of_lookup in Hb' as [j Hj]. by apply (Ho O (S j) b b' x y ltac:(lia) eq_refl Hj).
  - eapply StronglySorted_impl_in; [|apply canonical_sorted]. intros x y _ _ [Hlt|[_ Hc]] Hk; [|lia].
    exfalso. rewrite Hk in Hlt. unfold key_lt in Hlt. lia.
  - apply IH. by eapply commit_ordered_tail.
Qed.

Lemma newest_last k rs l :
  key_sorted l -> (forall r, r ∈ l -> commit_sequence r <= rs) ->
  newest_visible k rs l = last_write k l.
Proof.
  unfold last_write. induction l as [|r l IH] using rev_ind; intros Hs Hc; [done|].
  pose proof (StronglySorted_app_1_l _ _ _ Hs) as Hl.
  rewrite filter_app, filter_cons, filter_nil. case_decide as Hk.
  - rewrite last_snoc. apply newest_visible_snoc.
    + split; [done|]. apply Hc. apply elem_of_app. right. by left.
    + intros b Hb [Hkb _]. apply (StronglySorted_app_1_elem_of _ _ _ b r Hs Hb); [by left|congruence].
  - rewrite app_nil_r, newest_visible_invisible.
    + apply IH; [done|]. intros x Hx. apply Hc. apply elem_of_app. by left.
    + intros x Hx [? _]. apply elem_of_cons in Hx as [->|Hx]; [done|by apply elem_of_nil in Hx].
Qed.

Lemma newest_applied k rs bs : newest_visible k rs (applied bs) = newest_visible k rs (concat bs).
Proof.
  unfold applied. induction bs as [|b bs IH]; [done|]. cbn [fmap list_fmap concat].
  rewrite !newest_visible_app, IH. unfold canonical. by rewrite newest_visible_canonical.
Qed.

(** For a chain in commit order, the last record applied to a key is its newest
    committed version. *)
Lemma last_write_newest k bs :
  commit_ordered bs -> Forall (Forall record_ok) bs ->
  last_write k (applied bs) = newest_visible k kLatestPropertyCommit (concat bs).
Proof.
  intros Ho Hok. rewrite <- newest_applied. symmetry. apply newest_last; [by apply applied_key_sorted|].
  intros r Hr. apply elem_of_applied in Hr as (b & Hb & Hr).
  rewrite Forall_forall in Hok. specialize (Hok b Hb). rewrite Forall_forall in Hok.
  destruct (Hok r Hr) as (_ & _ & _ & Hc & _). unfold fits in Hc. unfold kLatestPropertyCommit, UINT64_MAX. lia.
Qed.

(** ** The merge loop *)
Section MergeLoop.
Context (L : LsmColumns) (data : SstData) (pid size : Z).
Context (Hwf : wf_sst data) (Hsize : fits 64 size).
Abbreviation len := (GetSubPropertyFixedLength (process_flags L) (merge_layout L) pid).
Context (Hlen : 0 <= len).

(** The record names an edge of the SST whose slot lies inside the column. *)
Definition mergeable (r : PropertyDeltaRecord) : Prop :=
  exists o, edge_ordinal data (key_of r) = Some o /\ (o + 1) * len <= size.

Definition slot (m : bytes) (o : Z) : option bytes := read_at m (o * len) len.

(** What the merge leaves in row [o]. *)
Definition merged_slot (m : bytes) (rs : list PropertyDeltaRecord) (o : Z) : option bytes :=
  match last (filter (fun r => edge_ordinal data (key_of r) = Some o) rs) with
  | Some r => Some (slot_bytes len (value r))
  | None => slot m o
  end.

(** The visitor never leaves the mapping, whatever the record says. *)
Lemma merge_visit_safe r m :
  zlen m = size -> exists go m', merge_visit L data pid size r (Some m) = (go, Some m') /\ zlen m' = size.
Proof.
  intros Hm. unfold merge_visit. rewrite LocateSstEdgeOrdinal_spec by done.
  destruct (locate_spec data r) as [o|]; [|eauto]. cbn zeta.
  pose proof (wrap_fits 64 (o * len) ltac:(lia)) as Ho. unfold fits in Ho.
  destruct (Z.ltb_spec size (u64 (o * len))); cbn [orb]; [by eauto|].
  destruct (Z.ltb_spec (size - u64 (o * len)) len); [by eauto|].
  unfold WritePaddedSubPropertySlot. unfold u64 in *.
  pose proof (slot_bytes_length len (value r) Hlen) as Hs.
  destruct (store_at m _ _) as [m'|] eqn:E.
  - exists true, m'. split; [done|]. apply store_at_length in E. lia.
  - rewrite store_at_Some in E by lia. done.
Qed.

Lemma merge_visit_ok r m o :
  zlen m = size -> edge_ordinal data (key_of r) = Some o -> (o + 1) * len <= size ->
  exists m', merge_visit L data pid size r (Some m) = (true, Some m') /\
             store_at m (o * len) (slot_bytes len (value r)) = Some m' /\ zlen m' = size.
Proof.
  intros Hm Ho Hb. pose proof (edge_ordinal_nonneg _ _ _ Hwf Ho). unfold fits in Hsize.
  unfold merge_visit. rewrite LocateSstEdgeOrdinal_spec, locate_spec_key, Ho by done. cbn zeta.
  unfold u64. rewrite wrap_small by (unfold fits; nia).
  rewrite (proj2 (Z.ltb_ge _ _)) by nia. rewrite (proj2 (Z.ltb_ge _ _)) by nia. cbn [orb].
  unfold WritePaddedSubPropertySlot. pose proof (slot_bytes_length len (value r) Hlen) as Hs.
  destruct (store_at m (o * len) _) as [m'|] eqn:E.
  - exists m'. split_and!; [done|done|]. apply store_at_length in E. lia.
  - rewrite store_at_Some in E by nia. done.
Qed.

(** One record changes its own row only. *)
Lemma store_slot m m' o v o' :
  store_at m (o * len) (slot_bytes len v) = Some m' -> 0 <= o -> 0 <= o' ->
  slot m' o' = if decide (o' = o) then Some (slot_bytes len v) else slot m o'.
Proof.
  intros Hst Ho Ho'. pose proof (slot_bytes_length len v Hlen) as Hs. unfold slot. case_decide as E.
  - subst o'. rewrite <- Hs at 2. by eapply store_read_same.
  - eapply store_read_other; [done|nia|done|]. rewrite Hs.
    destruct (Z.lt_total o o') as [?|[?|?]]; [right; nia|lia|left; nia].
Qed.

Lemma visit_all_safe rs m :
  zlen m = size ->
  exists go m', visit_all (merge_visit L data pid size) rs (Some m) = (go, Some m') /\ zlen m' = size.
Proof.
  revert m. induction rs as [|r rs IH]; intros m Hm; cbn [visit_all]; [eauto|].
  destruct (merge_visit_safe r m Hm) as (go & m1 & -> & H1). destruct go; [by apply IH|eauto].
Qed.

Lemma visit_all_merged rs m :
  zlen m = size -> Forall mergeable rs ->
  exists m', visit_all (merge_visit L data pid size) rs (Some m) = (true, Some m') /\ zlen m' = size /\
    forall o, 0 <= o -> slot m' o = merged_slot m rs o.
Proof.
  revert m. induction rs as [|r rs IH]; intros m Hm Hrs; cbn [visit_all]; [by eauto|].
  inversion_clear Hrs as [|? ? (o & Ho & Hb) Hrs'].
  destruct (merge_visit_ok r m o Hm Ho Hb) as (m1 & -> & Hst & H1).
  destruct (IH m1 H1 Hrs') as (m' & -> & Hz & Hslots). exists m'. split_and!; [done|done|].
  intros o' Ho'. rewrite Hslots by done. unfold merged_slot. rewrite filter_cons.
  rewrite (store_slot _ _ _ _ _ Hst) by (done || by eapply edge_ordinal_nonneg).
  destruct (decide (o' = o)) as [->|Hne].
  - rewrite (decide_True _ _ Ho), last_cons. by destruct (last _).
  - rewrite (decide_False (P := edge_ordinal data (key_of r) = Some o')) by congruence. done.
Qed.

(** Applying two runs of records one after the other. *)
Lemma visit_all_app {S} (f : PropertyDeltaRecord -> S -> bool * S) l l' s :
  visit_all f (l ++ l') s = let '(go, s) := visit_all f l s in if go then visit_all f l' s else (false, s).
Proof.
  revert s. induction l as [|r l IH]; intros s; [done|]. cbn [visit_all app].
  destruct (f r s) as [[] s']; [apply IH|done].
Qed.

Lemma merge_files_visit fs bs m :
  chain_repr fs bs -> merge_files L data pid size fs m =
    Some (visit_all (merge_visit L data pid size) (applied bs) m).
Proof.
  intros H. revert m. induction H as [|f b fs bs (t & g & Hf) _ IH]; intros m; [done|].
  cbn [merge_files]. rewrite (holds_each _ _ _ _ Hf). unfold applied. cbn [fmap list_fmap concat].
  rewrite visit_all_app. destruct (visit_all _ (canonical b) m) as [[] m']; [apply IH|done].
Qed.

Lemma merge_files_safe fs bs m :
  chain_repr fs bs -> zlen m = size ->
  exists ok m', merge_files L data pid size fs (Some m) = Some (ok, Some m') /\ zlen m' = size.
Proof.
  intros Hf Hm. rewrite (merge_files_visit fs bs) by done.
  destruct (visit_all_safe (applied bs) m Hm) as (ok & m' & -> & ?). eauto.
Qed.

(** Row by row, the merge of a chain in commit order stores the newest version. *)
Lemma merge_files_newest fs bs m :
  chain_repr fs bs -> commit_ordered bs -> Forall (Forall record_ok) bs ->
  Forall mergeable (applied bs) -> zlen m = size ->
  exists m', merge_files L data pid size fs (Some m) = Some (true, Some m') /\ zlen m' = size /\
    forall k o, edge_ordinal data k = Some o ->
      slot m' o = match newest_visible k kLatestPropertyCommit (concat bs) with
                  | Some r => Some (slot_bytes len (value r))
                  | None => slot m o
                  end.
Proof.
  intros Hf Ho Hok Hm Hz. rewrite (merge_files_visit fs bs) by done.
  destruct (visit_all_merged (applied bs) m Hz Hm) as (m' & -> & Hz' & Hs).
  exists m'. split_and!; [done|done|]. intros k o Hk.
  rewrite Hs by (by eapply edge_ordinal_nonneg). unfold merged_slot.
  rewrite <- last_write_newest by done. unfold last_write.
  rewrite (list_filter_iff _ (fun r => key_of r = k)); [done|].
  intros r. split; [|by intros ->]. intros Hr. by eapply edge_ordinal_inj.
Qed.
End MergeLoop.
