(* ===== verification/DeltaMergeTheorems.v ===== *)
(** * Theorems about the column merge

    Crash atomicity of [MergePropertyDeltaColumn], what a fault-free merge
    publishes, and that publishing it does not change what readers see. *)

From S2P Require Import Prelude.
From S2P Require Import Types.
From S2P Require Import Posix.
From S2P Require Import DeltaFile.
From S2P Require Import DeltaSpec.
From S2P Require Import DeltaFileCreate.
From S2P Require Import DeltaFileTheorems.
From S2P Require Import DeltaManifest.
From S2P Require Import Names.
From S2P Require Import DeltaStore.
From S2P Require Import DeltaStoreFacts.
From S2P Require Import DeltaStoreTheorems.
From S2P Require Import EdgeBody.
From S2P Require Import PropertyLayout.
From S2P Require Import Sst.
From S2P Require Import DeltaMerge.

(** ** Runs under faults and crashes *)
Section MergeRuns.
Context (L : LsmColumns) (t : PropertyDeltaTarget) (g : Z) (mb : option bytes)
        (fs : list FileRef) (bs : list (list PropertyDeltaRecord)).
Context (Hlen : 0 <= GetSubPropertyFixedLength (process_flags L) (merge_layout L) (property_id t)).
Context (Hchain : chain_repr fs bs).
Implicit Types files : gmap bytes bytes.

Abbreviation final := (fst (merge_paths L t g)).
Abbreviation tmp := (snd (merge_paths L t g)).

(** The image the merge of this request would publish. *)
Definition merge_image (m : bytes) : Prop :=
  exists data, sstdata_manager_ L !! base_file_id t = Some data /\
    merge_files L data (property_id t) (zlen (merge_base data mb (property_id t))) fs
      (Some (merge_base data mb (property_id t))) = Some (true, Some m).

Definition merge_frame files files' : Prop :=
  (forall p, p <> final -> p <> tmp -> files' !! p = files !! p) /\
  (files' !! final = files !! final \/ exists m, merge_image m /\ files' !! final = Some m).

Lemma tmp_ne_final : tmp <> final.
Proof.
  unfold merge_paths. cbn [fst snd]. intros E. apply (f_equal length) in E. rewrite !length_app in E.
  change (length (str ".merge.")) with 7%nat in E. lia.
Qed.

Lemma merge_frame_refl files : merge_frame files files.
Proof. split; [done|by left]. Qed.

Lemma merge_frame_insert files c : merge_frame files (<[tmp := c]> files).
Proof.
  pose proof tmp_ne_final. split; [intros p ? ?; by rewrite lookup_insert_ne by congruence|].
  left. by rewrite lookup_insert_ne.
Qed.

Lemma merge_frame_delete files files' : merge_frame files files' -> merge_frame files (delete tmp files').
Proof.
  pose proof tmp_ne_final. intros [H1 H2].
  split; [intros p ? ?; rewrite lookup_delete_ne by congruence; by apply H1|].
  by rewrite lookup_delete_ne by congruence.
Qed.

Lemma merge_frame_rename files m :
  merge_image m -> merge_frame files (<[final := m]> (delete tmp (<[tmp := m]> files))).
Proof.
  intros Hm. split.
  - intros p ? ?. by rewrite lookup_insert_ne, lookup_delete_ne, lookup_insert_ne by congruence.
  - right. exists m. by rewrite lookup_insert_eq.
Qed.

Lemma wp_resize (p : bytes) (n : Z) (Q : bool -> gmap bytes bytes -> Prop) (C : gmap bytes bytes -> Prop) files :
  (forall c : bytes, Q true (<[p := c]> files)) -> Q false files -> C files -> wp (sys_resize p n) Q C files.
Proof.
  intros H1 H2 H3. unfold sys_resize. apply wp_bind, wp_call; [intros s..|done];
    unfold io_bind; simpl; [|done]. destruct (files !! p); simpl; auto.
Qed.

Lemma wp_put_file (p c : bytes) (Q : unit -> gmap bytes bytes -> Prop) (C : gmap bytes bytes -> Prop) files :
  Q tt (<[p := c]> files) -> wp (put_file p c) Q C files.
Proof. by intros H s. Qed.

(** Filling the temporary: nothing but the temporary changes, the code stays
    inside its mappings, and success means the merged image is in place. *)
Lemma wp_fill_temporary data files :
  sstdata_manager_ L !! base_file_id t = Some data -> wf_sst data ->
  fits 64 (zlen (merge_base data mb (property_id t))) ->
  wp (fill_temporary L data (property_id t) (merge_base data mb (property_id t)) fs tmp)
     (fun r files' => exists e c, r = Some e /\ files' = <[tmp := c]> files /\ (e = None -> merge_image c))
     (merge_frame files) (<[tmp := []]> files).
Proof.
  intros Hd Hwf Hsz. set (base := merge_base data mb (property_id t)) in *.
  assert (forall c, merge_frame files (<[tmp := c]> files)) as Hfr by apply merge_frame_insert.
  assert (forall (e : MergeError) (c : bytes), exists (e' : option MergeError) (c' : bytes), Some (Some e) = Some e' /\ <[tmp := c]> files = <[tmp := c']> files /\
    (e' = None -> merge_image c')) as Hfail by (intros e c; by exists (Some e), c).
  unfold fill_temporary. wp_step. apply wp_resize; [intros c; rewrite insert_insert_eq|wp_step; by apply Hfail|apply Hfr].
  cbn [negb]. wp_step. apply wp_call; [|wp_step; by apply Hfail|apply Hfr]. cbn [negb].
  wp_step. apply wp_put_file. rewrite insert_insert_eq.
  destruct (merge_files_safe L data (property_id t) (zlen base) Hwf Hlen fs bs base Hchain eq_refl)
    as (ok & m & E & _). rewrite E.
  wp_step. apply wp_put_file. rewrite insert_insert_eq. destruct ok; cbn [negb]; [|wp_step; by apply Hfail].
  wp_step. apply wp_if_call; [intros a|apply Hfr]. destruct a; cbn [negb]; [|wp_step; by apply Hfail].
  wp_step. apply wp_if_call; [intros a|apply Hfr]. wp_step. exists (if a then None else Some MergeSync), m.
  split_and!; [done|done|]. destruct a; [|done]. intros _. by exists data.
Qed.

Lemma wp_MappedPropertyFile_Open (p c : bytes) (C : gmap bytes bytes -> Prop) files :
  files !! p = Some c -> C files ->
  wp (MappedPropertyFile_Open p) (fun r files' => files' = files /\ forall m, r = Some m -> m = c) C files.
Proof.
  intros Hc HC. unfold MappedPropertyFile_Open. wp_step. wp_step; [rewrite Hc|by wp_step|done].
  wp_step. wp_step; cbn [negb orb]; [|by wp_step|done]. case_match; [by wp_step|].
  wp_step. wp_step; [wp_step|wp_step|done]; (split; [done|]); congruence.
Qed.

Definition merge_post files (r : option (result MergeError bytes)) files' : Prop :=
  merge_frame files files' /\ is_Some r /\
  forall m, r = Some (Ok m) -> merge_image m /\ files' !! final = Some m.

Lemma wp_merge_fail files files' e :
  merge_frame files files' ->
  wp (let* _ := sys_unlink tmp in io_ret (Some (Err e))) (merge_post files) (merge_frame files) files'.
Proof.
  intros H. wp_step. wp_step; [wp_step|wp_step|done]; (split_and!; [|done|done]); [|done].
  by apply merge_frame_delete.
Qed.

Lemma wp_merge files :
  (forall data, sstdata_manager_ L !! base_file_id t = Some data ->
     wf_sst data /\ fits 64 (zlen (merge_base data mb (property_id t)))) ->
  wp (MergePropertyDeltaColumn L t mb fs g) (merge_post files) (merge_frame files) files.
Proof.
  intros Hdata.
  assert (forall e, merge_post files (Some (Err e)) files) as Herr.
  { intros e. split_and!; [apply merge_frame_refl|done|done]. }
  unfold MergePropertyDeltaColumn. case_match; [wp_step; by apply Herr|].
  destruct (sstdata_manager_ L !! base_file_id t) as [data|] eqn:Hd; [|wp_step; by apply Herr].
  destruct (Hdata data eq_refl) as [Hwf Hsz]. cbn zeta. case_match; [wp_step; by apply Herr|].
  destruct (merge_paths L t g) as [final_ tmp_] eqn:Ep.
  assert (final = final_) as Ef by by rewrite Ep. assert (tmp = tmp_) as Et by by rewrite Ep.
  rewrite <- Ef, <- Et. clear Ep Ef Et.
  wp_step. wp_step; [cbn [negb]|wp_step; by apply Herr|apply merge_frame_refl].
  wp_step. eapply wp_mono; [by apply wp_fill_temporary| |done]. cbn beta.
  intros r files' (e & c & -> & -> & Himg).
  wp_step. apply wp_call; [| |apply merge_frame_insert]; destruct e as [e|];
    try (by apply wp_merge_fail, merge_frame_insert).
  specialize (Himg eq_refl). wp_step.
  wp_step; [|by apply wp_merge_fail, merge_frame_insert|apply merge_frame_insert].
  cbn [negb]. rewrite lookup_insert_eq in *. simplify_eq.
  pose proof (merge_frame_rename files _ Himg) as Hfr.
  wp_step. apply wp_if_sync; [intros ok|done]. destruct ok; cbn [negb]; [|by wp_step; split_and!].
  wp_step. eapply wp_mono; [apply wp_MappedPropertyFile_Open; [apply lookup_insert_eq|done]| |done].
  cbn beta. intros r files' [-> Hr]. wp_step. split_and!; [done|done|].
  intros m Hm. destruct r; simplify_eq. rewrite (Hr _ eq_refl). split; [done|apply lookup_insert_eq].
Qed.

(** Without faults the merge publishes its image. *)
Lemma merge_no_faults files data m :
  fs <> [] -> kind t = property_object_kind_ L -> shard_id t = property_shard_id_ L ->
  property_id t < zlen (sub_property_lengths_ L) ->
  sstdata_manager_ L !! base_file_id t = Some data ->
  0 < zlen (merge_base data mb (property_id t)) -> files !! tmp = None -> 0 < zlen m ->
  merge_files L data (property_id t) (zlen (merge_base data mb (property_id t))) fs
    (Some (merge_base data mb (property_id t))) = Some (true, Some m) ->
  MergePropertyDeltaColumn L t mb fs g (mkWorld files []) =
    (Some (Some (Ok m)), mkWorld (<[final := m]> files) []).
Proof.
  intros Hfs Hk Hs Hp Hd Hb Hfresh Hm E. unfold MergePropertyDeltaColumn.
  rewrite (bool_decide_eq_false_2 (fs = [])), (bool_decide_eq_true_2 (kind t = _)) by done.
  rewrite Hs, Z.eqb_refl, (proj2 (Z.leb_gt _ _)) by done. cbn [negb orb]. rewrite Hd. cbn zeta.
  rewrite (proj2 (Z.eqb_neq _ _)) by lia.
  destruct (merge_paths L t g) as [final_ tmp_] eqn:Ep. cbn [fst snd] in *.
  unfold io_bind at 1. rewrite open_excl_no_faults by done. cbn [negb].
  assert (fill_temporary L data (property_id t) (merge_base data mb (property_id t)) fs tmp_
            (mkWorld (<[tmp_ := []]> files) []) = (Some (Some None), mkWorld (<[tmp_ := m]> files) [])) as Ef.
  { unfold fill_temporary, sys_resize, io_bind, get_files, put_file, io_ret, sys_call. cbn [script Posix.files].
    rewrite lookup_insert_eq. cbn [negb script Posix.files]. rewrite E. cbn [negb script Posix.files].
    rewrite !insert_insert_eq. by case_bool_decide. }
  unfold io_bind at 1. rewrite Ef. unfold io_bind at 1, sys_call at 1. cbn [script].
  unfold io_bind at 1. rewrite (rename_no_faults _ _ m) by apply lookup_insert_eq. cbn [negb].
  rewrite delete_insert_id by done.
  assert (forall (p : bool -> IO (option (result MergeError bytes))) w, (io_bind (if bool_decide (update_durability_ L = kProcessCrashSafe)
      then SyncParentDirectory else io_ret true) p) (mkWorld w []) = p true (mkWorld w [])) as Es
    by (intros p w; by case_bool_decide).
  rewrite Es. cbn [negb].
  unfold MappedPropertyFile_Open, sys_open_read, io_bind, sys_call, get_files, io_ret. cbn [script Posix.files].
  rewrite lookup_insert_eq. cbn [negb orb]. by rewrite (proj2 (Z.leb_gt _ _)).
Qed.
End MergeRuns.

(** ** What a reader of an SST edge sees *)
Section Reads.
Context (L : LsmColumns) (data : SstData) (pid : Z) (i : nat) (b e : Index).
Context (Hwf : wf_sst data) (Hb : sst_indexes data !! i = Some b) (He : sst_indexes data !! S i = Some e).
Abbreviation len := (GetSubPropertyFixedLength (process_flags L) (merge_layout L) pid).
Context (Hlen : 0 < len < 1024).

Definition column : bytes := default [] (property_data data !! Z.to_nat pid).

(** A live match of the range search is the row of its logical edge. *)
Lemma match_ordinal dst is_out ty j body :
  list_find (edge_matches dst is_out ty) (range_bodies data b e) = Some (j, body) ->
  Dym.get_marker body = false ->
  edge_ordinal data (mkKey (ix_key b) dst (Dym.get_seq body) is_out ty) =
    Some (ix_offset b / EDGEBODY_SIZE + Z.of_nat j).
Proof.
  intros Hj Hm. unfold edge_ordinal, locate_spec.
  cbn [key_record k_src k_dst k_base_sequence k_is_out k_edge_type src Types.dst Types.is_out edge_type base_sequence].
  assert (list_find (fun x => ix_key x = ix_key b) (sst_indexes data) = Some (i, b)) as ->.
  { apply list_find_Some. split_and!; [done|done|]. intros j' x Hx Hlt.
    pose proof (keys_sorted_lookup _ _ _ _ _ (proj1 Hwf) Hlt Hx Hb). lia. }
  simpl_bind. rewrite He. simpl_bind. rewrite Hj. simpl_bind.
  by rewrite Hm, Z.eqb_refl.
Qed.

Definition read_result (base : bytes) (newest : option PropertyDeltaRecord) (o : Z) : option (Status * option bytes) :=
  match newest with
  | Some r => Some (kOk, Some (value r))
  | None => (fun p => (kOk, Some (TrimTrailingZero p))) <$> slot L pid base o
  end.

Lemma find_edge_read debug v batches dst is_out ty :
  chain_repr (deltas v) batches ->
  find_edge_from_sstdata_cache L debug (Some v) data (ix_key b) dst (ix_offset b) (ix_offset e) pid is_out ty =
  match list_find (edge_matches dst is_out ty) (range_bodies data b e) with
  | None => Some (kNotFound, None)
  | Some (j, body) =>
      if Dym.get_marker body then Some (kDelete, None)
      else read_result (BaseDataOr v column)
             (newest_visible (mkKey (ix_key b) dst (Dym.get_seq body) is_out ty) kLatestPropertyCommit (concat batches))
             (ix_offset b / EDGEBODY_SIZE + Z.of_nat j)
  end.
Proof.
  intros Hv. unfold find_edge_from_sstdata_cache. pose proof (proj2 Hwf _ _ _ Hb He) as Hok.
  pose proof Hok as (H0 & Hle & Hhi & Hmax & Hb0 & _).
  rewrite !signed_small, range_bodies_search by (done || lia). unfold first_edge. simpl_bind.
  destruct (list_find _ (range_bodies data b e)) as [[j body]|] eqn:Ej; [|done].
  destruct (Dym.get_marker body); [done|]. rewrite (bool_decide_eq_true_2 (kOk = kOk)) by done. cbn [negb].
  apply list_find_Some in Ej as (Hj & _ & _).
  rewrite get_seq_at_body, (range_body_at data b e j body) by done. cbn [mbind option_bind fmap option_fmap option_map].
  unfold delta_lookup.
  destruct (ReadView_Lookup_correct (mkKey (ix_key b) dst (Dym.get_seq body) is_out ty) kLatestPropertyCommit
              v (mkCounters 0 0 0 0) batches Hv) as [c ->].
  simpl_bind. unfold read_result. destruct (newest_visible _ _ _) as [r|]; [done|].
  cbn [fmap option_fmap option_map]. unfold GetEdgeOrdinalFromBodyOffset.
  rewrite Z.mul_comm, Z.mod_add, Hb0 by done. cbn [Z.eqb mbind option_bind]. rewrite Z.div_add by done.
  rewrite (proj2 (Z.ltb_lt _ 1024)), andb_false_r, (proj2 (Z.ltb_lt 0 _)) by lia.
  unfold GetSubPropertyOffsetByEdgeOrdinal, ReadSubPropertyFromSlot, u64.
  assert (0 <= ix_offset b / EDGEBODY_SIZE + Z.of_nat j < 2 ^ 31) as Ho.
  { apply lookup_lt_Some in Hj. unfold range_bodies in Hj. rewrite edge_bodies_length in Hj.
    change EDGEBODY_SIZE with 16 in *. pose proof (Z.mul_div_le (ix_offset e - ix_offset b) 16).
    pose proof (Z.mul_div_le (ix_offset b) 16). pose proof (Z.div_pos (ix_offset b) 16). lia. }
  rewrite wrap_small by (unfold fits; nia).
  unfold slot, column. by destruct (read_at (BaseDataOr v _) _ _).
Qed.
End Reads.

(** A value that survives the column: read back from its slot unchanged. *)
Lemma trim_stored len v : 0 <= len -> storable len v -> TrimTrailingZero (slot_bytes len v) = v.
Proof. intros Hl Hs. rewrite trim_slot by done. by apply trim_storable. Qed.

Lemma newest_app_ordered k bs rest :
  commit_ordered (bs ++ rest) ->
  newest_visible k kLatestPropertyCommit (concat (bs ++ rest)) =
  match newest_visible k kLatestPropertyCommit (concat rest) with
  | Some r => Some r
  | None => newest_visible k kLatestPropertyCommit (concat bs)
  end.
Proof.
  intros Ho. rewrite concat_app, newest_visible_app.
  destruct (newest_visible k _ (concat rest)) as [r|] eqn:Er; [|by destruct (newest_visible _ _ _)].
  destruct (newest_visible k _ (concat bs)) as [r0|] eqn:E0; [|done]. cbn [newer].
  apply newest_visible_Some in Er as [[Hk _] Hr]. apply newest_visible_Some in E0 as [[Hk0 _] Hr0].
  rewrite (proj2 (Z.leb_le _ _)); [done|]. eapply commit_ordered_app; [done..|congruence].
Qed.

(** An SST with one four-byte column, and a chain of two files to merge. *)
Definition column_sst : SstData :=
  mkSst (sst_indexes sample_sst) (edge_data sample_sst) [replicate 12 Init.Byte.x41].
Definition sample_columns : LsmColumns :=
  mkColumns kEdge 3 [4] (str "/db") kProcessCrashSafe {[ 7 := column_sst ]} (mkFlags 1 8).
Definition column_target : PropertyDeltaTarget := mkTarget kEdge 3 7 7 0.
Definition merge_batches : list (list PropertyDeltaRecord) :=
  [[mkRecord 5 7 11 3 true 1 (str "x")];
   [mkRecord 5 7 11 8 true 1 (str "hi"); mkRecord 6 3 13 9 false 2 (str "z")]].
Definition later_batch : list PropertyDeltaRecord := [mkRecord 6 3 13 12 false 2 (str "q")].
Definition merge_chain : list FileRef := imap (fun i b => sample_file column_target (1 + Z.of_nat i) b) merge_batches.

Lemma column_sst_wf : wf_sst column_sst.
Proof. exact sample_sst_wf. Qed.

Lemma merge_chain_repr : chain_repr merge_chain merge_batches.
Proof.
  constructor; [|constructor; [|constructor]]; apply sample_file_holds;
    try eval_prop; (eexists; split; [vm_compute; reflexivity|eval_prop]).
Qed.

Lemma later_chain_repr : chain_repr [sample_file column_target 3 later_batch] [later_batch].
Proof.
  constructor; [|constructor]. apply sample_file_holds;
    try eval_prop; (eexists; split; [vm_compute; reflexivity|eval_prop]).
Qed.

Lemma merge_batches_ordered : commit_ordered (merge_batches ++ [later_batch]).
Proof.
  intros i j b b' r r' Hij Hi Hj Hr Hr'.
  destruct i as [|[|[|i]]], j as [|[|[|j]]]; simpl in Hi, Hj; simplify_eq; try lia;
    unfold later_batch in *; repeat match goal with
    | H : _ ∈ _ :: _ |- _ => apply elem_of_cons in H as [->|H]
    | H : _ ∈ [] |- _ => by apply elem_of_nil in H
    end; intros E; first [vm_compute in E; discriminate E | eval_prop].
Qed.

Lemma merge_batches_mergeable : Forall (mergeable sample_columns column_sst 0 12) (applied merge_batches).
Proof.
  change (applied merge_batches) with
    [mkRecord 5 7 11 3 true 1 (str "x"); mkRecord 5 7 11 8 true 1 (str "hi"); mkRecord 6 3 13 9 false 2 (str "z")].
  repeat constructor; unfold mergeable; [exists 0|exists 0|exists 2]; (split; [vm_compute; reflexivity|eval_prop]).
Qed.

(** ** Theorems *)

(** C36: under any faults, and wherever the process dies, a column merge changes
    no file but its own temporary and the column; the column is either as before
    or the complete merged image, a reported success means the image is
    published, and the code never leaves a mapping. *)
Theorem merge_crash_atomic L t g mb fs bs w :
  let final := fst (merge_paths L t g) in
  let tmp := snd (merge_paths L t g) in
  0 <= GetSubPropertyFixedLength (process_flags L) (merge_layout L) (property_id t) ->
  chain_repr fs bs ->
  (forall data, sstdata_manager_ L !! base_file_id t = Some data ->
     wf_sst data /\ fits 64 (zlen (merge_base data mb (property_id t)))) ->
  let '(r, w') := MergePropertyDeltaColumn L t mb fs g w in
  (forall p, p <> final -> p <> tmp -> files w' !! p = files w !! p) /\
  (files w' !! final = files w !! final \/
   exists m, merge_image L t mb fs m /\ files w' !! final = Some m) /\
  r <> Some None /\
  (forall m, r = Some (Some (Ok m)) -> merge_image L t mb fs m /\ files w' !! final = Some m).
Proof.
  intros final tmp Hlen Hc Hd. pose proof (wp_run _ _ _ w (wp_merge L t g mb fs bs Hlen Hc (files w) Hd)) as H.
  destruct (MergePropertyDeltaColumn _ _ _ _ _ w) as [[r|] w'].
  - destruct H as ([H1 H2] & Hs & H3). split_and!; [done|done| |].
    + intros [= ->]. by destruct Hs.
    + intros m [= ->]. by apply H3.
  - destruct H as [H1 H2]. by split_and!.
Qed.

Lemma merge_crash_atomic_witness :
  let '(r, w') := MergePropertyDeltaColumn sample_columns column_target None merge_chain 9
                    (mkWorld ∅ [Good; Good; Good; Good; Crash]) in
  r = None /\ files w' !! fst (merge_paths sample_columns column_target 9) = None.
Proof.
  pose proof (merge_crash_atomic sample_columns column_target 9 None merge_chain merge_batches
    (mkWorld ∅ [Good; Good; Good; Good; Crash]) ltac:(eval_prop) merge_chain_repr) as H.
  assert (forall data, sstdata_manager_ sample_columns !! base_file_id column_target = Some data ->
    wf_sst data /\ fits 64 (zlen (merge_base data None (property_id column_target)))) as Hd.
  { intros data E. change (Some column_sst = Some data) in E. injection E as <-.
    split; [exact column_sst_wf|eval_prop]. }
  specialize (H Hd). cbn zeta in H.
  destruct (MergePropertyDeltaColumn _ _ _ _ _ _) as [r w'] eqn:E.
  destruct H as (_ & H & _). 
  pose proof (f_equal fst E) as E1. pose proof (f_equal (fun x => files (snd x) !! fst (merge_paths sample_columns column_target 9)) E) as E2.
  vm_compute in E1. cbn [fst snd] in E2. split; [by rewrite <- E1|].
  destruct H as [H|(m & _ & H)]; [exact H|]. rewrite H in E2. by vm_compute in E2.
Defined.

(** without faults, merging a chain in commit order publishes a column that
    holds, for every edge of the SST, the newest committed value of the chain
    when there is one and the old contents of the slot otherwise. *)
Theorem merge_publishes_newest L t g mb fs bs data files :
  let pid := property_id t in
  let len := GetSubPropertyFixedLength (process_flags L) (merge_layout L) pid in
  let base := merge_base data mb pid in
  let '(final, tmp) := merge_paths L t g in
  0 < len -> fs <> [] -> chain_repr fs bs -> commit_ordered bs -> Forall (Forall record_ok) bs ->
  kind t = property_object_kind_ L -> shard_id t = property_shard_id_ L ->
  pid < zlen (sub_property_lengths_ L) ->
  sstdata_manager_ L !! base_file_id t = Some data -> wf_sst data ->
  0 < zlen base < 2 ^ 64 -> files !! tmp = None ->
  Forall (mergeable L data pid (zlen base)) (applied bs) ->
  exists m, MergePropertyDeltaColumn L t mb fs g (mkWorld files []) =
      (Some (Some (Ok m)), mkWorld (<[final := m]> files) []) /\
    zlen m = zlen base /\
    forall k o, edge_ordinal data k = Some o ->
      ReadSubPropertyFromSlot (process_flags L) (merge_layout L) m (o * len) pid =
      match newest_visible k kLatestPropertyCommit (concat bs) with
      | Some r => Some (TrimTrailingZero (take (Z.to_nat len) (value r)))
      | None => ReadSubPropertyFromSlot (process_flags L) (merge_layout L) base (o * len) pid
      end.
Proof.
  cbn zeta. destruct (merge_paths L t g) as [final tmp] eqn:Ep.
  intros Hlen Hne Hc Ho Hok Hk Hs Hp Hd Hwf Hb Hfresh Hm.
  assert (0 <= GetSubPropertyFixedLength (process_flags L) (merge_layout L) (property_id t)) as Hl by lia.
  destruct (merge_files_newest L data (property_id t) (zlen (merge_base data mb (property_id t))) Hwf
              ltac:(unfold fits; lia) Hl fs bs _ Hc Ho Hok Hm eq_refl)
    as (m & E & Hz & Hslots).
  exists m. split_and!; [|done|].
  - pose proof (merge_no_faults L t g mb fs files data m) as H. rewrite Ep in H. cbn [fst snd] in H.
    apply H; try done; lia.
  - intros k o Hko. specialize (Hslots k o Hko). unfold slot in Hslots. unfold ReadSubPropertyFromSlot.
    rewrite Hslots. destruct (newest_visible _ _ _) as [r|]; [|done].
    cbn [fmap option_fmap option_map]. by rewrite trim_slot.
Qed.

Lemma merge_publishes_newest_witness :
  exists m, MergePropertyDeltaColumn sample_columns column_target None merge_chain 9 (mkWorld ∅ []) =
      (Some (Some (Ok m)), mkWorld {[ fst (merge_paths sample_columns column_target 9) := m ]} []) /\
    ReadSubPropertyFromSlot (mkFlags 1 8) (Some [4]) m (0 * 4) 0 = Some (str "hi") /\
    ReadSubPropertyFromSlot (mkFlags 1 8) (Some [4]) m (1 * 4) 0 = Some (str "AAAA").
Proof.
  pose proof (merge_publishes_newest sample_columns column_target 9 None merge_chain merge_batches column_sst ∅) as H.
  cbn zeta in H. destruct (merge_paths sample_columns column_target 9) as [final tmp] eqn:Ep.
  destruct H as (m & H1 & _ & H2); try eval_prop; try reflexivity.
  - exact merge_chain_repr.
  - intros i j b b' r r' Hij Hi Hj. by apply (merge_batches_ordered i j b b' r r' Hij); apply lookup_app_l_Some.
  - exact column_sst_wf.
  - exact merge_batches_mergeable.
  - exists m. split_and!; [exact H1| |].
    + etrans; [apply (H2 (mkKey 5 7 11 true 1) 0)|]; vm_compute; reflexivity.
    + apply (f_equal (fun x => ReadSubPropertyFromSlot (mkFlags 1 8) (Some [4])
        match fst x with Some (Some (Ok m)) => m | _ => [] end (1 * 4) 0)) in H1.
      etrans; [symmetry; exact H1|]. vm_compute. reflexivity.
Defined.

(** C14: publishing the merge of a prefix of a chain does not change any read of
    an edge property of that SST: the reader that saw the value in the delta
    files finds the same value in the merged column, as long as the merged
    values fit their slots and do not end in a zero byte. *)
Theorem merge_preserves_reads L data pid i b e debug mb fs rest bs bs' m g g' :
  let len := GetSubPropertyFixedLength (process_flags L) (merge_layout L) pid in
  let base := merge_base data mb pid in
  wf_sst data -> sst_indexes data !! i = Some b -> sst_indexes data !! S i = Some e ->
  0 < len < 1024 -> fits 64 (zlen base) ->
  chain_repr fs bs -> chain_repr rest bs' -> commit_ordered (bs ++ bs') ->
  Forall (Forall record_ok) bs -> Forall (mergeable L data pid (zlen base)) (applied bs) ->
  Forall (fun r => storable len (value r)) (concat bs) ->
  merge_files L data pid (zlen base) fs (Some base) = Some (true, Some m) ->
  forall dst is_out ty,
    find_edge_from_sstdata_cache L debug (Some (mkView (Some m) rest g')) data
      (ix_key b) dst (ix_offset b) (ix_offset e) pid is_out ty =
    find_edge_from_sstdata_cache L debug (Some (mkView mb (fs ++ rest) g)) data
      (ix_key b) dst (ix_offset b) (ix_offset e) pid is_out ty.
Proof.
  cbn zeta. intros Hwf Hb He Hlen Hsz Hf Hr Ho Hok Hm Hst E dst is_out ty.
  assert (commit_ordered bs) as Ho1.
  { intros x y l l' r r' Hxy Hx Hy. by apply (Ho x y l l' r r' Hxy); apply lookup_app_l_Some. }
  destruct (merge_files_newest L data pid (zlen (merge_base data mb pid)) Hwf Hsz ltac:(lia) fs bs _ Hf Ho1 Hok Hm eq_refl)
    as (m' & E' & _ & Hslots). rewrite E in E'. injection E' as <-.
  rewrite (find_edge_read L data pid i b e Hwf Hb He Hlen debug (mkView (Some m) rest g') bs') by done.
  rewrite (find_edge_read L data pid i b e Hwf Hb He Hlen debug (mkView mb (fs ++ rest) g) (bs ++ bs'))
    by (by apply Forall2_app).
  destruct (list_find _ _) as [[j body]|] eqn:Ej; [|done]. destruct (Dym.get_marker body) eqn:Em; [done|].
  pose proof (match_ordinal data i b e Hwf Hb He dst is_out ty j body Ej Em) as Hko.
  rewrite newest_app_ordered by done. unfold read_result.
  destruct (newest_visible _ _ (concat bs')) as [r|]; [done|].
  change (BaseDataOr (mkView (Some m) rest g') (column data pid)) with m. rewrite (Hslots _ _ Hko).
  destruct (newest_visible _ _ (concat bs)) as [r|] eqn:En.
  - cbn [fmap option_fmap option_map]. apply newest_visible_Some in En as [_ Hin].
    rewrite Forall_forall in Hst. rewrite trim_stored by (lia || by apply Hst). done.
  - unfold merge_base, column, BaseDataOr. by destruct mb.
Qed.

Lemma merge_preserves_reads_witness :
  exists m, merge_files sample_columns column_sst 0 12 merge_chain (Some (replicate 12 Init.Byte.x41)) = Some (true, Some m) /\
    find_edge_from_sstdata_cache sample_columns true (Some (mkView (Some m) [sample_file column_target 3 later_batch] 9))
      column_sst 5 7 0 32 0 true 1 = Some (kOk, Some (str "hi")).
Proof.
  destruct (merge_files_newest sample_columns column_sst 0 12 column_sst_wf ltac:(eval_prop) ltac:(eval_prop)
    merge_chain merge_batches (replicate 12 Init.Byte.x41) merge_chain_repr) as (m & E & _).
  - intros i j b b' r r' Hij Hi Hj. by apply (merge_batches_ordered i j b b' r r' Hij); apply lookup_app_l_Some.
  - eval_prop.
  - exact merge_batches_mergeable.
  - reflexivity.
  - exists m. split; [exact E|].
    etrans; [apply (merge_preserves_reads sample_columns column_sst 0 0 (mkIndex 5 0) (mkIndex 6 32) true None
      merge_chain [sample_file column_target 3 later_batch] merge_batches [later_batch] m 3 9)|].
    + exact column_sst_wf.
    + reflexivity.
    + reflexivity.
    + eval_prop.
    + eval_prop.
    + exact merge_chain_repr.
    + exact later_chain_repr.
    + exact merge_batches_ordered.
    + eval_prop.
    + exact merge_batches_mergeable.
    + eval_prop.
    + exact E.
    + vm_compute. reflexivity.
Defined.
