(* ===== verification/UpdateManager.v ===== *)
(** * The property-update manager

    core/property_update_manager.h and src/property_update_manager.cpp: the
    pending table readers consult first, the ring of update buffers, the flush
    worker and the blocking entry points.

    The functions here are the critical sections of the code, on an explicit
    manager state; [UpdateManagerSteps] interleaves them.  A submission that
    has to wait on [free_cv_] is an outcome of its critical section. *)

From S2P Require Import Prelude.
From S2P Require Import Types.

Record BufferedPropertyUpdate := mkUpdate {
  u_target : PropertyDeltaTarget;
  u_record : PropertyDeltaRecord;
  u_persistent : bool;                  (** [target_is_persistent] *)
}.
#[export] Instance BufferedPropertyUpdate_eq_dec : EqDecision BufferedPropertyUpdate.
Proof. solve_decision. Defined.

Record PendingKey := mkPKey {
  pk_kind : PropertyObjectKind;
  pk_shard_id : Z;
  pk_property_id : Z;
  pk_src : Z;
  pk_dst : Z;
  pk_is_out : bool;
  pk_edge_type : Z;
}.
#[export] Instance PendingKey_eq_dec : EqDecision PendingKey.
Proof. solve_decision. Defined.
#[export] Instance PendingKey_countable : Countable PendingKey.
Proof.
  refine (inj_countable'
    (fun k => (pk_kind k, pk_shard_id k, pk_property_id k, pk_src k, pk_dst k, pk_is_out k, pk_edge_type k))
    (fun '(a, b, c, d, e, f, g) => mkPKey a b c d e f g) _).
  by intros [].
Defined.

Record PendingValue := mkPending {
  pv_base_sequence : Z;
  pv_commit_sequence : Z;
  pv_value : bytes;
}.

Inductive BufferState := kFree | kActive | kQueued | kFlushing | kFailed.
#[export] Instance BufferState_eq_dec : EqDecision BufferState.
Proof. solve_decision. Defined.

Record Buffer := mkBuffer {
  state : BufferState;
  records : list BufferedPropertyUpdate;
  buf_bytes : Z;
}.

Definition empty_buffer : Buffer := mkBuffer kFree [] 0.

Inductive UpdateError :=
| InvalidManagerOptions
| EmptyUpdateBatch
| BatchExceedsBytes
| BatchExceedsRecords
| ManagerStopping
| FlushError (e : Z).               (** the error a flush callback reported *)

Record ManagerStats := mkMStats {
  submitted_records : Z;
  submitted_bytes : Z;
  buffers_flushed : Z;
  delta_batches_published : Z;
  flush_failures : Z;
  blocked_submissions : Z;
}.

(** The 64 pending buckets partition the keys by hash and each operation locks
    one of them, so they are one map.  The commit counter is 64 bits wide and
    advances once per submission; it is not exhausted. *)
Record Manager := mkManager {
  options_ : PropertyUpdateOptions;
  next_commit_sequence_ : Z;
  pending_ : gmap PendingKey PendingValue;
  buffers_ : list Buffer;
  queued_buffers_ : list nat;
  active_buffer_ : option nat;         (** [None] is [kNoBuffer] *)
  running_flushes_ : Z;
  stop_ : bool;
  fatal_error_ : option UpdateError;
  mstats_ : ManagerStats;
}.

Definition set_pending (m : Manager) x : Manager :=
  mkManager (options_ m) (next_commit_sequence_ m) x (buffers_ m) (queued_buffers_ m)
    (active_buffer_ m) (running_flushes_ m) (stop_ m) (fatal_error_ m) (mstats_ m).
Definition set_buffers (m : Manager) bs q a : Manager :=
  mkManager (options_ m) (next_commit_sequence_ m) (pending_ m) bs q a
    (running_flushes_ m) (stop_ m) (fatal_error_ m) (mstats_ m).
Definition set_next_commit (m : Manager) x : Manager :=
  mkManager (options_ m) x (pending_ m) (buffers_ m) (queued_buffers_ m)
    (active_buffer_ m) (running_flushes_ m) (stop_ m) (fatal_error_ m) (mstats_ m).
Definition set_running (m : Manager) x : Manager :=
  mkManager (options_ m) (next_commit_sequence_ m) (pending_ m) (buffers_ m) (queued_buffers_ m)
    (active_buffer_ m) x (stop_ m) (fatal_error_ m) (mstats_ m).
Definition set_fatal (m : Manager) x : Manager :=
  mkManager (options_ m) (next_commit_sequence_ m) (pending_ m) (buffers_ m) (queued_buffers_ m)
    (active_buffer_ m) (running_flushes_ m) (stop_ m) x (mstats_ m).
Definition set_mstats (m : Manager) x : Manager :=
  mkManager (options_ m) (next_commit_sequence_ m) (pending_ m) (buffers_ m) (queued_buffers_ m)
    (active_buffer_ m) (running_flushes_ m) (stop_ m) (fatal_error_ m) x.

(** ** Construction; [has_callback] is [!flush_callback_] negated *)
Definition new_manager (options : PropertyUpdateOptions) (has_callback : bool)
    (initial_commit_sequence : Z) : result UpdateError Manager :=
  if negb (enabled options) || (buffer_count options <? 2) || (buffer_capacity_records options =? 0)
     || (buffer_capacity_bytes options =? 0) || negb has_callback
  then Err InvalidManagerOptions
  else Ok (mkManager options (Z.max 1 initial_commit_sequence) ∅
             (<[0%nat := mkBuffer kActive [] 0]> (replicate (Z.to_nat (buffer_count options)) empty_buffer))
             [] (Some 0%nat) 0 false None (mkMStats 0 0 0 0 0 0)).

(** ** The pending table *)
Definition MakePendingKey (u : BufferedPropertyUpdate) : PendingKey :=
  mkPKey (kind (u_target u)) (shard_id (u_target u)) (property_id (u_target u))
    (src (u_record u)) (dst (u_record u)) (is_out (u_record u)) (edge_type (u_record u)).

Definition pending_of (u : BufferedPropertyUpdate) : PendingValue :=
  mkPending (base_sequence (u_record u)) (commit_sequence (u_record u)) (value (u_record u)).

(** [operator[]] creates the entry; an older version does not replace it. *)
Definition PublishPending (p : gmap PendingKey PendingValue) (u : BufferedPropertyUpdate)
  : gmap PendingKey PendingValue :=
  let v := default (mkPending 0 0 []) (p !! MakePendingKey u) in
  <[MakePendingKey u := if pv_commit_sequence v <=? commit_sequence (u_record u) then pending_of u else v]> p.

Definition RetirePending (p : gmap PendingKey PendingValue) (u : BufferedPropertyUpdate)
  : gmap PendingKey PendingValue :=
  match p !! MakePendingKey u with
  | Some v => if pv_commit_sequence v =? commit_sequence (u_record u) then delete (MakePendingKey u) p else p
  | None => p
  end.

Definition LookupLatest (m : Manager) (k : PendingKey) : option (bytes * Z) :=
  (fun v => (pv_value v, pv_commit_sequence v)) <$> pending_ m !! k.

Definition LookupExact (m : Manager) (k : PendingKey) (base_sequence : Z) : option (bytes * Z) :=
  match pending_ m !! k with
  | Some v => if pv_base_sequence v =? base_sequence then Some (pv_value v, pv_commit_sequence v) else None
  | None => None
  end.

Record BufferedPropertySnapshotEntry := mkSnapshot {
  sn_dst : Z;
  sn_base_sequence : Z;
  sn_commit_sequence : Z;
  sn_value : bytes;
}.

Definition SnapshotForSource (m : Manager) (kind_ : PropertyObjectKind) (shard property src_ : Z)
    (out : bool) (ty : Z) : list BufferedPropertySnapshotEntry :=
  omap (fun '(k, v) =>
    if bool_decide (pk_kind k = kind_) && (pk_shard_id k =? shard) && (pk_property_id k =? property)
       && (pk_src k =? src_) && bool_decide (pk_is_out k = out) && (pk_edge_type k =? ty)
    then Some (mkSnapshot (pk_dst k) (pv_base_sequence v) (pv_commit_sequence v) (pv_value v))
    else None) (map_to_list (pending_ m)).

(** ** Buffers *)
Section Buffers.
Context (update_size : Z).           (** [sizeof(BufferedPropertyUpdate)] *)

Definition EstimateBytes (u : BufferedPropertyUpdate) : Z := update_size + zlen (value (u_record u)).

Definition set_state (st : BufferState) (b : Buffer) : Buffer := mkBuffer st (records b) (buf_bytes b).

(** The first free buffer becomes the active one; nothing changes without one. *)
Definition activate_free (m : Manager) : Manager :=
  match list_find (fun b => state b = kFree) (buffers_ m) with
  | Some (i, b) => set_buffers m (<[i := set_state kActive b]> (buffers_ m)) (queued_buffers_ m) (Some i)
  | None => m
  end.

Definition QueueActiveBuffer (m : Manager) : Manager :=
  match active_buffer_ m with
  | None => m
  | Some a =>
      match buffers_ m !! a with
      | None => m
      | Some b =>
          if bool_decide (records b = []) then m
          else activate_free
                 (set_buffers m (<[a := set_state kQueued b]> (buffers_ m)) (queued_buffers_ m ++ [a]) None)
      end
  end.

(** The test of the loop of [EnsureActiveBuffer] and what follows it; [None]
    is a caller that has to wait. *)
Definition ensure_active (m : Manager) : option (result UpdateError nat) :=
  match fatal_error_ m with
  | Some e => Some (Err e)
  | None =>
      if stop_ m then Some (Err ManagerStopping)
      else match active_buffer_ m with
           | None => None
           | Some a => Some (Ok a)
           end
  end.

(** ** [SubmitBatch] *)
Fixpoint batch_bytes_from (capacity acc : Z) (us : list BufferedPropertyUpdate) : option Z :=
  match us with
  | [] => Some acc
  | u :: us =>
      if u64 (capacity - acc) <? EstimateBytes u then None
      else batch_bytes_from capacity (acc + EstimateBytes u) us
  end.

(** The checks that precede the lock. *)
Definition submit_checks (o : PropertyUpdateOptions) (us : list BufferedPropertyUpdate)
  : result UpdateError Z :=
  if bool_decide (us = []) then Err EmptyUpdateBatch
  else
    match batch_bytes_from (buffer_capacity_bytes o) 0 us with
    | None => Err BatchExceedsBytes
    | Some n => if buffer_capacity_records o <? zlen us then Err BatchExceedsRecords else Ok n
    end.

Inductive SubmitOutcome :=
| Blocked (second : bool) (m : Manager)      (** waiting, in the first or second [EnsureActiveBuffer] *)
| Rejected (e : UpdateError) (m : Manager)
| Committed (us : list BufferedPropertyUpdate) (m : Manager).

Definition stamp (commit : Z) (u : BufferedPropertyUpdate) : BufferedPropertyUpdate :=
  let r := u_record u in
  mkUpdate (u_target u)
    (mkRecord (src r) (dst r) (base_sequence r) commit (is_out r) (edge_type r) (value r)) (u_persistent u).

Definition full (o : PropertyUpdateOptions) (b : Buffer) : bool :=
  (buffer_capacity_records o <=? zlen (records b)) || (buffer_capacity_bytes o <=? buf_bytes b).

(** From the commit on: publish, append to the active buffer, rotate it when full.
    The active index is always in range (an invariant of [UpdateManagerSteps]);
    the branch for an index outside the vector is never taken. *)
Definition submit_commit (m : Manager) (a : nat) (us : list BufferedPropertyUpdate) (batch_bytes : Z)
  : SubmitOutcome :=
  match buffers_ m !! a with
  | None => Rejected ManagerStopping m
  | Some b =>
      let committed := next_commit_sequence_ m in
      let us := map (stamp committed) us in
      let b := mkBuffer (state b) (records b ++ us) (buf_bytes b + batch_bytes) in
      let st := mstats_ m in
      let m := set_next_commit m (committed + 1) in
      let m := set_pending m (foldl PublishPending (pending_ m) us) in
      let m := set_buffers m (<[a := b]> (buffers_ m)) (queued_buffers_ m) (active_buffer_ m) in
      let m := set_mstats m (mkMStats (u64 (submitted_records st + zlen us))
                 (u64 (submitted_bytes st + batch_bytes)) (buffers_flushed st)
                 (delta_batches_published st) (flush_failures st) (blocked_submissions st)) in
      Committed us (if full (options_ m) b then QueueActiveBuffer m else m)
  end.

Definition count_blocked (m : Manager) : Manager :=
  let st := mstats_ m in
  set_mstats m (mkMStats (submitted_records st) (submitted_bytes st) (buffers_flushed st)
    (delta_batches_published st) (flush_failures st) (u64 (blocked_submissions st + 1))).

(** The second [EnsureActiveBuffer], after the rotation. *)
Definition submit_second (m : Manager) (us : list BufferedPropertyUpdate) (batch_bytes : Z) : SubmitOutcome :=
  match ensure_active m with
  | None => Blocked true (count_blocked m)
  | Some (Err e) => Rejected e m
  | Some (Ok a) => submit_commit m a us batch_bytes
  end.

Definition has_room (o : PropertyUpdateOptions) (b : Buffer) (n batch_bytes : Z) : bool :=
  bool_decide (records b = [])
  || negb ((buffer_capacity_records o <? zlen (records b) + n)
           || (buffer_capacity_bytes o <? buf_bytes b + batch_bytes)).

(** The first [EnsureActiveBuffer] and the rotation. *)
Definition submit_first (m : Manager) (us : list BufferedPropertyUpdate) (batch_bytes : Z) : SubmitOutcome :=
  match ensure_active m with
  | None => Blocked false (count_blocked m)
  | Some (Err e) => Rejected e m
  | Some (Ok a) =>
      match buffers_ m !! a with
      | None => Rejected ManagerStopping m
      | Some b =>
          if has_room (options_ m) b (zlen us) batch_bytes then submit_commit m a us batch_bytes
          else submit_second (QueueActiveBuffer m) us batch_bytes
      end
  end.

(** Waking up from [free_cv_.wait]: the loop body looks for a free buffer, then
    the loop test runs again. *)
Definition submit_wake (second : bool) (m : Manager) (us : list BufferedPropertyUpdate) (batch_bytes : Z)
  : SubmitOutcome :=
  let m := activate_free m in
  if second then submit_second m us batch_bytes else submit_first m us batch_bytes.
End Buffers.

(** ** The flush worker *)

(** The grouping of a buffer by target; the hash map has no fixed order. *)
Definition Group : Type := PropertyDeltaTarget * (list PropertyDeltaRecord * bool).

Fixpoint add_to_group (gs : list Group) (u : BufferedPropertyUpdate) : list Group :=
  match gs with
  | [] => [(u_target u, ([u_record u], u_persistent u))]
  | (t, (rs, p)) :: gs =>
      if bool_decide (t = u_target u) then (t, (rs ++ [u_record u], p || u_persistent u)) :: gs
      else (t, (rs, p)) :: add_to_group gs u
  end.

Definition group_updates (us : list BufferedPropertyUpdate) : list Group := foldl add_to_group [] us.

(** The first critical section of the loop of [WorkerMain], when it takes a
    buffer; a stopped worker still takes the queued ones. *)
Definition worker_pop (m : Manager) : option (Manager * nat) :=
  match queued_buffers_ m with
  | [] => None
  | i :: q =>
      b ← buffers_ m !! i;
      Some (set_running (set_buffers m (<[i := set_state kFlushing b]> (buffers_ m)) q (active_buffer_ m))
              (running_flushes_ m + 1), i)
  end.

(** The test that leaves the loop. *)
Definition worker_ends (m : Manager) : bool := stop_ m && bool_decide (queued_buffers_ m = []).

Definition count_batch (m : Manager) : Manager :=
  let st := mstats_ m in
  set_mstats m (mkMStats (submitted_records st) (submitted_bytes st) (buffers_flushed st)
    (u64 (delta_batches_published st + 1)) (flush_failures st) (blocked_submissions st)).

(** The second critical section: [None] for a flush that succeeded. *)
Definition worker_finish (m : Manager) (i : nat) (error : option UpdateError) : Manager :=
  match buffers_ m !! i with
  | None => m
  | Some b =>
      let m := set_running m (running_flushes_ m - 1) in
      let st := mstats_ m in
      match error with
      | None =>
          let active := match active_buffer_ m with None => Some i | a => a end in
          let st' := match active_buffer_ m with None => kActive | _ => kFree end in
          set_mstats (set_buffers m (<[i := mkBuffer st' [] 0]> (buffers_ m)) (queued_buffers_ m) active)
            (mkMStats (submitted_records st) (submitted_bytes st) (u64 (buffers_flushed st + 1))
               (delta_batches_published st) (flush_failures st) (blocked_submissions st))
      | Some e =>
          let m := set_buffers m (<[i := set_state kFailed b]> (buffers_ m)) (queued_buffers_ m) (active_buffer_ m) in
          set_mstats (match fatal_error_ m with None => set_fatal m (Some e) | _ => m end)
            (mkMStats (submitted_records st) (submitted_bytes st) (buffers_flushed st)
               (delta_batches_published st) (u64 (flush_failures st + 1)) (blocked_submissions st))
      end
  end.

(** ** [FlushAndWait]: request, the awaited condition, and what follows it *)
Definition flush_request (m : Manager) : result UpdateError Manager :=
  match fatal_error_ m with Some e => Err e | None => Ok (QueueActiveBuffer m) end.

Definition flush_idle (m : Manager) : bool :=
  bool_decide (queued_buffers_ m = []) && (running_flushes_ m =? 0).

Definition flush_ready (m : Manager) : bool :=
  match fatal_error_ m with Some _ => true | None => flush_idle m end.

Definition flush_return (m : Manager) : result UpdateError Manager :=
  match fatal_error_ m with
  | Some e => Err e
  | None => Ok (match active_buffer_ m with None => activate_free m | _ => m end)
  end.

Definition SetFatalError (m : Manager) (e : UpdateError) : Manager :=
  match fatal_error_ m with None => set_fatal m (Some e) | _ => m end.

Definition StopWorker (m : Manager) : Manager :=
  mkManager (options_ m) (next_commit_sequence_ m) (pending_ m) (buffers_ m) (queued_buffers_ m)
    (active_buffer_ m) (running_flushes_ m) true (fatal_error_ m) (mstats_ m).

Definition Stats (m : Manager) : ManagerStats * Z := (mstats_ m, Z.of_nat (size (pending_ m))).

(** ** Interleavings of the property-update manager

    The threads of the update manager as a step relation: submitters (possibly
    blocked on [free_cv_]), the flush worker, callers of [FlushAndWait], and
    [StopWorker].  A step is one critical section, one call of the flush
    callback, or the retirement of one pending entry, so readers may look at
    the state between any two of them.  [published] is what the callbacks that
    returned true were given and [acked] the updates whose submission was
    acknowledged. *)

Record Waiter := mkWaiter {
  w_second : bool;
  w_updates : list BufferedPropertyUpdate;
  w_bytes : Z;
}.

(** The local state of [WorkerMain] and [FlushBuffer]. *)
Inductive WorkerState :=
| Waiting
| Publishing (i : nat) (groups : list Group)
| Retiring (i : nat) (left : list BufferedPropertyUpdate)
| Finishing (i : nat) (error : option UpdateError)
| Ended.                               (** the thread has left its loop *)

Record Sys := mkSys {
  mgr : Manager;
  published : list Group;
  waiting : list Waiter;
  worker : WorkerState;
  acked : list BufferedPropertyUpdate;
}.

Definition with_mgr (s : Sys) (m : Manager) : Sys := mkSys m (published s) (waiting s) (worker s) (acked s).
Definition with_worker (s : Sys) (m : Manager) (w : WorkerState) : Sys :=
  mkSys m (published s) (waiting s) w (acked s).

(** The effect of a submission section: [ws] are the other waiters. *)
Definition after_submit (s : Sys) (ws : list Waiter) (us : list BufferedPropertyUpdate) (n : Z)
    (o : SubmitOutcome) : Sys :=
  match o with
  | Blocked second m => mkSys m (published s) (mkWaiter second us n :: ws) (worker s) (acked s)
  | Rejected _ m => mkSys m (published s) ws (worker s) (acked s)
  | Committed us' m => mkSys m (published s) ws (worker s) (acked s ++ us')
  end.

Inductive action :=
| ASubmit | AWake | APop | APublish | APublishFail | APublished | ARetire | ARetired | AFinish
| AFlushRequest | AFlushReturn | AStop | AEnd.

Section Steps.
Context (update_size : Z).

Inductive step : action -> Sys -> Sys -> Prop :=
| step_submit s us n :
    submit_checks update_size (options_ (mgr s)) us = Ok n ->
    step ASubmit s (after_submit s (waiting s) us n (submit_first (mgr s) us n))
| step_wake s ws ws' w :
    waiting s = ws ++ w :: ws' ->
    step AWake s (after_submit s (ws ++ ws') (w_updates w) (w_bytes w)
                    (submit_wake (w_second w) (mgr s) (w_updates w) (w_bytes w)))
| step_pop s m i b gs :
    worker s = Waiting -> worker_pop (mgr s) = Some (m, i) -> buffers_ m !! i = Some b ->
    gs ≡ₚ group_updates (records b) ->
    step APop s (with_worker s m (Publishing i gs))
| step_publish s i g gs :
    worker s = Publishing i (g :: gs) ->
    step APublish s (mkSys (count_batch (mgr s)) (published s ++ [g]) (waiting s) (Publishing i gs) (acked s))
| step_publish_fail s i g gs e :
    worker s = Publishing i (g :: gs) ->
    step APublishFail s (with_worker s (mgr s) (Finishing i (Some e)))
| step_published s i b :
    worker s = Publishing i [] -> buffers_ (mgr s) !! i = Some b ->
    step APublished s (with_worker s (mgr s) (Retiring i (records b)))
| step_retire s i u us :
    worker s = Retiring i (u :: us) ->
    step ARetire s (with_worker s (set_pending (mgr s) (RetirePending (pending_ (mgr s)) u)) (Retiring i us))
| step_retired s i :
    worker s = Retiring i [] ->
    step ARetired s (with_worker s (mgr s) (Finishing i None))
| step_finish s i e :
    worker s = Finishing i e ->
    step AFinish s (with_worker s (worker_finish (mgr s) i e) Waiting)
| step_flush_request s m :
    flush_request (mgr s) = Ok m -> step AFlushRequest s (with_mgr s m)
| step_flush_return s m :
    flush_ready (mgr s) = true -> flush_return (mgr s) = Ok m ->
    step AFlushReturn s (with_mgr s m)
| step_stop s : step AStop s (with_mgr s (StopWorker (mgr s)))
| step_end s :
    worker s = Waiting -> worker_ends (mgr s) = true -> step AEnd s (with_worker s (mgr s) Ended).

(** Runs whose steps are all [allowed], with the actions they take. *)
Inductive run (allowed : action -> Sys -> Prop) : list action -> Sys -> Sys -> Prop :=
| run_nil s : run allowed [] s s
| run_snoc tr a s1 s2 s3 :
    run allowed tr s1 s2 -> allowed a s2 -> step a s2 s3 -> run allowed (tr ++ [a]) s1 s3.
End Steps.

Definition anything : action -> Sys -> Prop := fun _ _ => True.

(** No submitter wakes up from [free_cv_] after another thread has already
    installed an active buffer. *)
Definition no_stranding : action -> Sys -> Prop := fun a s => a = AWake -> active_buffer_ (mgr s) = None.

Definition worker_action (a : action) : bool :=
  match a with
  | APop | APublish | APublishFail | APublished | ARetire | ARetired | AFinish | AEnd => true
  | _ => false
  end.

Definition initial (m : Manager) : Sys := mkSys m [] [] Waiting [].

(** ** The pipeline of buffers *)

Definition opt_list {A} (o : option A) : list A := match o with Some x => [x] | None => [] end.

(** The buffer the worker holds. *)
Definition worker_buffer (w : WorkerState) : option nat :=
  match w with
  | Waiting | Ended => None
  | Publishing i _ | Retiring i _ | Finishing i _ => Some i
  end.

(** The buffers on their way to being published, oldest first: the worker's,
    the queued ones, and the active one. *)
Definition behind (m : Manager) : list nat := queued_buffers_ m ++ opt_list (active_buffer_ m).
Definition pipeline (m : Manager) (w : WorkerState) : list nat := opt_list (worker_buffer w) ++ behind m.

Definition records_at (m : Manager) (i : nat) : list BufferedPropertyUpdate :=
  default [] (records <$> buffers_ m !! i).

(** The updates held by the buffers [pl], in order. *)
Definition flow (m : Manager) (pl : list nat) : list BufferedPropertyUpdate := pl ≫= records_at m.

(** The updates of the active buffer. *)
Definition active_updates (m : Manager) : list BufferedPropertyUpdate := flow m (opt_list (active_buffer_ m)).

Definition commit (u : BufferedPropertyUpdate) : Z := commit_sequence (u_record u).

Definition in_group (u : BufferedPropertyUpdate) (g : Group) : Prop :=
  u_target u = g.1 /\ u_record u ∈ g.2.1.
Definition is_published (gs : list Group) (u : BufferedPropertyUpdate) : Prop :=
  exists g, g ∈ gs /\ in_group u g.

(** ** The invariant

    First the ring of buffers, for the buffers in use [pl]. *)
Record ring (m : Manager) (pl : list nat) : Prop := {
  ring_nodup : NoDup pl;
  ring_range : forall i, i ∈ pl -> is_Some (buffers_ m !! i);
  ring_free : forall i b, buffers_ m !! i = Some b -> state b = kFree -> i ∉ pl /\ records b = [];
  ring_active : forall a b, active_buffer_ m = Some a -> buffers_ m !! a = Some b -> state b = kActive;
  ring_outside : forall i b, buffers_ m !! i = Some b -> i ∉ pl -> records b <> [] ->
    state b = kFailed \/ state b = kActive;
}.

(** Then what the worker has done with its buffer. *)
Definition worker_ok (m : Manager) (pub : list Group) (w : WorkerState) : Prop :=
  match w with
  | Waiting | Ended => True
  | Publishing i gs =>
      (forall u, u ∈ records_at m i -> is_published pub u \/ is_published gs u) /\
      (forall g r, g ∈ gs -> r ∈ g.2.1 -> exists u, u ∈ records_at m i /\ u_record u = r) /\
      NoDup gs.*1 /\
      (forall g g' r r', g ∈ pub -> g' ∈ gs -> g.1 = g'.1 -> r ∈ g.2.1 -> r' ∈ g'.2.1 ->
         commit_sequence r <= commit_sequence r')
  | Retiring i us =>
      (forall u, u ∈ records_at m i -> is_published pub u) /\ (forall u, u ∈ us -> u ∈ records_at m i)
  | Finishing i None => forall u, u ∈ records_at m i -> is_published pub u
  | Finishing i (Some _) => True
  end.

(** Batches of one target are published in commit order. *)
Definition target_ordered (pub : list Group) : Prop :=
  forall i j g g' r r', (i < j)%nat -> pub !! i = Some g -> pub !! j = Some g' -> g.1 = g'.1 ->
    r ∈ g.2.1 -> r' ∈ g'.2.1 -> commit_sequence r <= commit_sequence r'.

(** An update is visible when it, or a newer update of its key, is published or
    is the pending value of the key. *)
Definition covered (s : Sys) (u : BufferedPropertyUpdate) : Prop :=
  exists u', u' ∈ acked s /\ MakePendingKey u' = MakePendingKey u /\ commit u <= commit u' /\
    (is_published (published s) u' \/ pending_ (mgr s) !! MakePendingKey u = Some (pending_of u')).

Record inv (s : Sys) : Prop := {
  inv_ring : ring (mgr s) (pipeline (mgr s) (worker s));
  inv_running : running_flushes_ (mgr s) = match worker_buffer (worker s) with None => 0 | _ => 1 end;
  inv_blocked : active_buffer_ (mgr s) = None ->
    queued_buffers_ (mgr s) <> [] \/ worker_buffer (worker s) <> None \/ is_Some (fatal_error_ (mgr s));
  inv_sorted : StronglySorted (fun u v => commit u <= commit v) (flow (mgr s) (pipeline (mgr s) (worker s)));
  inv_acked : forall u, u ∈ flow (mgr s) (pipeline (mgr s) (worker s)) -> u ∈ acked s;
  inv_commit : forall u, u ∈ acked s -> commit u < next_commit_sequence_ (mgr s);
  inv_pending : forall k v, pending_ (mgr s) !! k = Some v ->
    pv_commit_sequence v < next_commit_sequence_ (mgr s);
  inv_behind : forall g r u, g ∈ published s -> r ∈ g.2.1 -> u ∈ flow (mgr s) (behind (mgr s)) ->
    commit_sequence r <= commit u;
  inv_older : forall g r, g ∈ published s -> r ∈ g.2.1 -> commit_sequence r < next_commit_sequence_ (mgr s);
  inv_order : target_ordered (published s);
  inv_worker : worker_ok (mgr s) (published s) (worker s);
  inv_visible : forall u, u ∈ acked s -> covered s u;
  inv_next : 0 < next_commit_sequence_ (mgr s);
}.
