(* ===== verification/UpdateManagerFacts.v ===== *)
(** * Preservation of the update manager's invariant

    How each critical section moves the buffers and the updates in them, and
    that every step preserves [inv]. *)

From S2P Require Import Prelude.
From S2P Require Import Types.
From S2P Require Import UpdateManager.

(** ** The updates in a list of buffers *)
Lemma flow_app m l l' : flow m (l ++ l') = flow m l ++ flow m l'.
Proof. apply bind_app. Qed.

Lemma flow_one m i : flow m [i] = records_at m i.
Proof. unfold flow. cbn. by rewrite app_nil_r. Qed.

Lemma flow_ext m m' pl : (forall i, i ∈ pl -> records_at m' i = records_at m i) -> flow m' pl = flow m pl.
Proof.
  induction pl as [|i pl IH]; intros H; [done|]. unfold flow in *. cbn.
  rewrite H by left. f_equal. apply IH. intros j Hj. apply H. by right.
Qed.

Lemma elem_of_flow m pl u : u ∈ flow m pl <-> exists i, i ∈ pl /\ u ∈ records_at m i.
Proof. unfold flow. rewrite list_elem_of_bind. naive_solver. Qed.

Lemma flow_sub m l l' u : l ⊆ l' -> u ∈ flow m l -> u ∈ flow m l'.
Proof. intros Hl. rewrite !elem_of_flow. intros (i & Hi & Hu). eauto. Qed.

Lemma records_at_lookup m i b : buffers_ m !! i = Some b -> records_at m i = records b.
Proof. intros H. unfold records_at. by rewrite H. Qed.

(** Replacing a buffer by one with the same updates changes no flow. *)
Lemma records_at_insert m q a bs i b b' j :
  buffers_ m = bs -> bs !! i = Some b -> records b' = records b ->
  records_at (set_buffers m (<[i := b']> bs) q a) j = records_at m j.
Proof.
  intros <- Hi Hr. unfold records_at. cbn [set_buffers buffers_].
  destruct (decide (i = j)) as [->|]; [|by rewrite list_lookup_insert_ne].
  rewrite list_lookup_insert_eq by (by eapply lookup_lt_Some). rewrite Hi. simpl. by rewrite Hr.
Qed.

Lemma lookup_insert_cases {A} (l : list A) i x j y :
  <[i := x]> l !! j = Some y -> (j = i /\ y = x /\ (i < length l)%nat) \/ (j <> i /\ l !! j = Some y).
Proof. intros [(-> & -> & ?)|[? ?]]%list_lookup_insert_Some; [left|right]; done. Qed.

(** ** [activate_free] *)
Lemma activate_free_cases m :
  activate_free m = m \/
  exists i b, buffers_ m !! i = Some b /\ state b = kFree /\
    activate_free m = set_buffers m (<[i := set_state kActive b]> (buffers_ m)) (queued_buffers_ m) (Some i).
Proof.
  unfold activate_free. destruct (list_find _ _) as [[i b]|] eqn:E; [|by left].
  right. exists i, b. apply list_find_Some in E as (? & ? & _). done.
Qed.

(** The fields other than the ring and the stop flag. *)
Definition same_rest (m m' : Manager) : Prop :=
  options_ m' = options_ m /\ next_commit_sequence_ m' = next_commit_sequence_ m /\
  pending_ m' = pending_ m /\ running_flushes_ m' = running_flushes_ m /\
  fatal_error_ m' = fatal_error_ m.

#[export] Instance same_rest_refl : Reflexive same_rest.
Proof. by intros m. Qed.
#[export] Instance same_rest_trans : Transitive same_rest.
Proof. unfold same_rest. intros a b c H H'. destruct_and!. split_and!; congruence. Qed.

Lemma activate_free_rest m : same_rest m (activate_free m).
Proof. destruct (activate_free_cases m) as [->|(i & b & _ & _ & ->)]; done. Qed.

Lemma activate_free_records m i : records_at (activate_free m) i = records_at m i.
Proof.
  destruct (activate_free_cases m) as [->|(j & b & Hj & _ & ->)]; [done|].
  by apply (records_at_insert m _ _ _ _ b).
Qed.

Lemma activate_free_queued m : queued_buffers_ (activate_free m) = queued_buffers_ m.
Proof. by destruct (activate_free_cases m) as [->|(j & b & Hj & _ & ->)]. Qed.

(** The general step of the ring: one buffer is replaced, and the list of the
    buffers in use changes around it. *)
Lemma ring_update m pl q a i b b' pl' :
  ring m pl -> buffers_ m !! i = Some b -> NoDup pl' -> (forall j, j ∈ pl' -> j ∈ pl \/ j = i) ->
  (state b' = kFree -> i ∉ pl' /\ records b' = []) ->
  (forall x, a = Some x -> (x = i /\ state b' = kActive) \/ (x <> i /\ active_buffer_ m = Some x)) ->
  (i ∉ pl' -> records b' <> [] -> state b' = kFailed \/ state b' = kActive) ->
  (forall j c, j <> i -> j ∈ pl -> j ∉ pl' -> buffers_ m !! j = Some c -> state c = kFailed \/ state c = kActive) ->
  ring (set_buffers m (<[i := b']> (buffers_ m)) q a) pl'.
Proof.
  intros R Hi Hnd Hsub Hfree Hact Hout Hother. pose proof (lookup_lt_Some _ _ _ Hi) as Hlt.
  split; cbn [set_buffers buffers_ active_buffer_].
  - done.
  - intros j Hj. destruct (decide (i = j)) as [->|].
    + rewrite list_lookup_insert_eq by done. eauto.
    + rewrite list_lookup_insert_ne by done. destruct (Hsub j Hj); [|done]. by apply (ring_range _ _ R).
  - intros j c [(-> & -> & _)|[Hne Hj]]%lookup_insert_cases Hs; [by apply Hfree|].
    destruct (ring_free _ _ R j c Hj Hs) as [Hn Hr]. split; [|done].
    intros H. destruct (Hsub j H); done.
  - intros x c Hx [(-> & -> & _)|[Hne Hj]]%lookup_insert_cases;
      destruct (Hact _ Hx) as [[? ?]|[? ?]]; try done. by eapply (ring_active _ _ R).
  - intros j c [(-> & -> & _)|[Hne Hj]]%lookup_insert_cases Hn Hr; [by apply Hout|].
    destruct (decide (j ∈ pl)); [by eapply Hother|]. by eapply (ring_outside _ _ R).
Qed.

(** The new active buffer was free, hence empty and outside the ring; a previous
    active buffer drops out. *)
Lemma activate_free_ring m wl :
  ring m (wl ++ behind m) ->
  ring (activate_free m) (wl ++ behind (activate_free m)) /\
  flow m (behind (activate_free m)) `prefix_of` flow m (behind m) /\
  (active_buffer_ m = None -> flow m (behind (activate_free m)) = flow m (behind m)).
Proof.
  intros R. destruct (activate_free_cases m) as [->|(i & b & Hi & Hs & ->)]; [done|].
  destruct (ring_free _ _ R i b Hi Hs) as [Hni Hb].
  pose proof (ring_nodup _ _ R) as Hnd. unfold behind in *. cbn [set_buffers queued_buffers_ active_buffer_ opt_list].
  assert (flow m (queued_buffers_ m ++ [i]) = flow m (queued_buffers_ m)) as Hflow.
  { rewrite flow_app, flow_one, (records_at_lookup _ _ _ Hi), Hb. apply app_nil_r. }
  rewrite !elem_of_app in Hni. split_and!.
  - apply (ring_update m (wl ++ queued_buffers_ m ++ opt_list (active_buffer_ m)) _ _ i b); try done.
    + rewrite app_assoc in Hnd |- *. apply NoDup_app in Hnd as (Hnd & _ & _).
      apply NoDup_app. split_and!; [done| |apply NoDup_singleton].
      intros x Hx ->%list_elem_of_singleton. apply elem_of_app in Hx. tauto.
    + intros j. rewrite !elem_of_app, list_elem_of_singleton. tauto.
    + intros x [= ->]. by left.
    + intros j c Hne Hj Hn Hc. rewrite !elem_of_app, list_elem_of_singleton in *. right.
      destruct (active_buffer_ m) as [a|] eqn:Ea; cbn [opt_list] in Hj.
      * rewrite list_elem_of_singleton in Hj. assert (j = a) as -> by tauto. by eapply (ring_active _ _ R).
      * rewrite elem_of_nil in Hj. tauto.
  - rewrite Hflow, flow_app. apply prefix_app_r. done.
  - intros ->. by rewrite Hflow, app_nil_r.
Qed.

Lemma activate_free_active m wl :
  ring m (wl ++ behind m) -> active_updates (activate_free m) ⊆ active_updates m.
Proof.
  intros R. destruct (activate_free_cases m) as [->|(i & b & Hi & Hs & E)]; [done|].
  unfold active_updates at 1. rewrite (flow_ext m) by (intros; apply activate_free_records).
  rewrite E. cbn [set_buffers active_buffer_ opt_list]. rewrite flow_one, (records_at_lookup _ _ _ Hi).
  destruct (ring_free _ _ R i b Hi Hs) as [_ ->]. apply list_subseteq_nil.
Qed.

(** ** [QueueActiveBuffer] *)
Lemma QueueActiveBuffer_rest m : same_rest m (QueueActiveBuffer m).
Proof.
  unfold QueueActiveBuffer. destruct (active_buffer_ m); [|done]. destruct (_ !! _); [|done].
  case_bool_decide; [done|]. etrans; [|apply activate_free_rest]. done.
Qed.

Lemma QueueActiveBuffer_records m i : records_at (QueueActiveBuffer m) i = records_at m i.
Proof.
  unfold QueueActiveBuffer. destruct (active_buffer_ m) as [a|]; [|done].
  destruct (buffers_ m !! a) as [b|] eqn:Ha; [|done]. case_bool_decide; [done|].
  rewrite activate_free_records. by apply (records_at_insert m _ _ _ _ b).
Qed.

Lemma QueueActiveBuffer_ring m wl :
  ring m (wl ++ behind m) ->
  ring (QueueActiveBuffer m) (wl ++ behind (QueueActiveBuffer m)) /\
  flow m (behind (QueueActiveBuffer m)) = flow m (behind m) /\
  (active_buffer_ (QueueActiveBuffer m) = None ->
     active_buffer_ m = None /\ QueueActiveBuffer m = m \/ queued_buffers_ (QueueActiveBuffer m) <> []) /\
  (forall a, active_buffer_ (QueueActiveBuffer m) = Some a -> records_at m a = []).
Proof.
  intros R. unfold QueueActiveBuffer. destruct (active_buffer_ m) as [a|] eqn:Ea; [|split_and!; [done|done|by left|by rewrite Ea]].
  assert (a ∈ wl ++ behind m) as Hin by (unfold behind; rewrite Ea, !elem_of_app; right; right; left).
  destruct (ring_range _ _ R a Hin) as [b Hb]. rewrite Hb.
  case_bool_decide as Hr.
  { rewrite Ea. split_and!; [done|done|done|]. intros ? [= <-]. by rewrite (records_at_lookup _ _ _ Hb). }
  set (m1 := set_buffers m (<[a := set_state kQueued b]> (buffers_ m)) (queued_buffers_ m ++ [a]) None).
  assert (behind m1 = behind m) as Eb.
  { unfold behind, m1. cbn [set_buffers queued_buffers_ active_buffer_ opt_list]. by rewrite Ea, app_nil_r. }
  assert (ring m1 (wl ++ behind m1)) as R1.
  { rewrite Eb. apply (ring_update m (wl ++ behind m) _ _ a b); try done; [apply R|tauto]. }
  destruct (activate_free_ring m1 wl R1) as (R2 & _ & Hf).
  assert (forall i, records_at m1 i = records_at m i) as Hrec by (intros i; by apply (records_at_insert m _ _ _ _ b)).
  split_and!; [done| | |].
  - rewrite <- (flow_ext m m1), Hf, (flow_ext m m1), Eb by done. done.
  - intros _. right. rewrite activate_free_queued. cbn. by destruct (queued_buffers_ m).
  - intros x Hx. rewrite <- Hrec. destruct (activate_free_cases m1) as [E|(i & c & Hi & Hs & E)]; rewrite E in Hx.
    + done.
    + injection Hx as <-. destruct (ring_free _ _ R1 i c Hi Hs) as [_ Hc]. by rewrite (records_at_lookup _ _ _ Hi).
Qed.

Lemma QueueActiveBuffer_active m wl :
  ring m (wl ++ behind m) ->
  active_updates (QueueActiveBuffer m) = [].
Proof.
  intros R. destruct (QueueActiveBuffer_ring m wl R) as (_ & _ & _ & H).
  unfold active_updates. destruct (active_buffer_ (QueueActiveBuffer m)) as [a|]; [|done].
  cbn [opt_list]. rewrite flow_one, QueueActiveBuffer_records. by apply H.
Qed.

(** ** Committing a batch *)
Lemma full_queue_rest m b : same_rest m (if full (options_ m) b then QueueActiveBuffer m else m).
Proof. destruct (full _ _); [apply QueueActiveBuffer_rest|done]. Qed.

Record commit_spec (m m' : Manager) (wl : list nat) (us : list BufferedPropertyUpdate) : Prop := {
  cs_ring : ring m' (wl ++ behind m');
  cs_flow : flow m' (behind m') = flow m (behind m) ++ us;
  cs_worker : forall i, i ∈ wl -> records_at m' i = records_at m i;
  cs_next : next_commit_sequence_ m' = next_commit_sequence_ m + 1;
  cs_pending : pending_ m' = foldl PublishPending (pending_ m) us;
  cs_rest : options_ m' = options_ m /\ running_flushes_ m' = running_flushes_ m /\
            fatal_error_ m' = fatal_error_ m;
  cs_blocked : active_buffer_ m' = None -> queued_buffers_ m' <> [];
  cs_active : active_updates m' ⊆ active_updates m ++ us;
}.

Lemma submit_commit_spec m a us n wl :
  ring m (wl ++ behind m) -> active_buffer_ m = Some a ->
  exists m', submit_commit m a us n = Committed (map (stamp (next_commit_sequence_ m)) us) m' /\
    commit_spec m m' wl (map (stamp (next_commit_sequence_ m)) us).
Proof.
  intros R Ea. assert (a ∈ behind m) as Hin by (unfold behind; rewrite Ea, elem_of_app; right; left).
  destruct (ring_range _ _ R a) as [b Hb]; [apply elem_of_app; by right|].
  unfold submit_commit. rewrite Hb. cbn zeta. eexists. split; [reflexivity|].
  set (us' := map _ us). set (b' := mkBuffer _ _ _).
  match goal with |- context [QueueActiveBuffer ?x] => set (m1 := x) end.
  assert (buffers_ m1 = <[a := b']> (buffers_ m)) as Ebuf by done.
  assert (behind m1 = behind m) as Ebeh by done.
  assert (forall i, i <> a -> records_at m1 i = records_at m i) as Hne.
  { intros i Hi. unfold records_at. by rewrite Ebuf, list_lookup_insert_ne. }
  assert (records_at m1 a = records_at m a ++ us') as Heq.
  { unfold records_at. rewrite Ebuf, list_lookup_insert_eq, Hb by (by eapply lookup_lt_Some). done. }
  pose proof (ring_nodup _ _ R) as Hnd. apply NoDup_app in Hnd as (_ & Hdis & Hnd).
  assert (ring m1 (wl ++ behind m1)) as R1.
  { assert (ring (set_buffers m (<[a := b']> (buffers_ m)) (queued_buffers_ m) (Some a)) (wl ++ behind m)) as [? ? ? ? ?].
    { apply (ring_update m (wl ++ behind m) _ _ a b); [done|done|apply R|tauto| | | |].
      - cbn. intros E. by rewrite (ring_active _ _ R a b) in E.
      - intros x [= <-]. left. split; [done|]. exact (ring_active _ _ R a b Ea Hb).
      - intros Hn. destruct Hn. apply elem_of_app. by right.
      - intros j c _ Hj Hn. done. }
    split; rewrite ?Ebuf, ?Ebeh; try done. intros x c Hx. assert (x = a) as -> by (cbn in Hx; congruence). eauto. }
  assert (flow m1 (behind m1) = flow m (behind m) ++ us') as Hflow.
  { rewrite Ebeh. unfold behind in *. rewrite Ea in *. cbn [opt_list] in *. rewrite !flow_app, !flow_one, Heq, app_assoc.
    do 2 f_equal. apply flow_ext. intros i Hi. apply Hne. intros ->.
    apply NoDup_app in Hnd as (_ & Hd & _). apply (Hd a Hi). left. }
  assert (forall i, i ∈ wl -> records_at m1 i = records_at m i) as Hwl.
  { intros i Hi. apply Hne. intros ->. by apply (Hdis a). }
  destruct (full (options_ m1) b').
  - destruct (QueueActiveBuffer_ring m1 wl R1) as (R2 & Hf & Hb2 & _).
    destruct (QueueActiveBuffer_rest m1) as (E1 & E2 & E3 & E4 & E5).
    split; [done| | |by rewrite E2|by rewrite E3|by rewrite E1, E4, E5| |].
    + rewrite (flow_ext m1) by (intros; apply QueueActiveBuffer_records). by rewrite Hf.
    + intros i Hi. rewrite QueueActiveBuffer_records. by apply Hwl.
    + intros Hn. destruct (Hb2 Hn) as [[Hx _]|]; [|done]. cbn in Hx. congruence.
    + rewrite (QueueActiveBuffer_active m1 wl R1). apply list_subseteq_nil.
  - split; try done.
    + cbn. by rewrite Ea.
    + unfold active_updates. change (active_buffer_ m1) with (active_buffer_ m). rewrite Ea. cbn [opt_list].
      by rewrite !flow_one, Heq.
Qed.

(** ** Publishing a batch in the pending table *)
Lemma publish_all_spec (p : gmap PendingKey PendingValue) us c :
  (forall u, u ∈ us -> commit u = c) -> 0 < c ->
  (forall k v, p !! k = Some v -> pv_commit_sequence v < c) ->
  forall k, match foldl PublishPending p us !! k with
            | Some v => (p !! k = Some v /\ forall u, u ∈ us -> MakePendingKey u <> k) \/
                        exists u, u ∈ us /\ MakePendingKey u = k /\ v = pending_of u
            | None => p !! k = None /\ forall u, u ∈ us -> MakePendingKey u <> k
            end.
Proof.
  induction us as [|u us IH] using rev_ind; intros Hc H0 Hp k.
  { cbn. destruct (p !! k); [left|]; split; set_solver. }
  rewrite foldl_snoc. unfold PublishPending at 1. specialize (IH ltac:(set_solver) H0 Hp).
  set (q := foldl PublishPending p us) in *.
  assert (commit u = c) as Hu by (apply Hc; set_solver).
  assert (pv_commit_sequence (default (mkPending 0 0 []) (q !! MakePendingKey u)) <= commit_sequence (u_record u)) as Hle.
  { change (commit_sequence (u_record u)) with (commit u). rewrite Hu. specialize (IH (MakePendingKey u)).
    destruct (q !! MakePendingKey u) as [v|]; cbn; [|lia]. destruct IH as [[Hv _]|(u' & Hu' & _ & ->)].
    - specialize (Hp _ _ Hv). lia.
    - cbn. change (commit u' <= c). rewrite Hc by set_solver. lia. }
  rewrite (proj2 (Z.leb_le _ _) Hle). destruct (decide (MakePendingKey u = k)) as [<-|Hk].
  - rewrite lookup_insert_eq. right. exists u. set_solver.
  - rewrite lookup_insert_ne by done. specialize (IH k). destruct (q !! k) as [v|]; set_solver.
Qed.

(** ** Sections that only move buffers

    [strict] when no update leaves the pipeline. *)
Record moves (strict : bool) (m m' : Manager) (wl : list nat) : Prop := {
  mv_ring : ring m' (wl ++ behind m');
  mv_flow : flow m' (behind m') `prefix_of` flow m (behind m);
  mv_strict : strict = true -> flow m' (behind m') = flow m (behind m);
  mv_records : forall i, records_at m' i = records_at m i;
  mv_rest : same_rest m m';
  mv_blocked : active_buffer_ m' = None ->
    (active_buffer_ m = None /\ queued_buffers_ m' = queued_buffers_ m) \/ queued_buffers_ m' <> [];
  mv_active : active_updates m' ⊆ active_updates m;
}.

Lemma moves_refl strict m wl : ring m (wl ++ behind m) -> moves strict m m wl.
Proof. intros R. split; try done. intros Hn. by left. Qed.

Lemma moves_trans strict m1 m2 m3 wl : moves strict m1 m2 wl -> moves strict m2 m3 wl -> moves strict m1 m3 wl.
Proof.
  intros [R1 F1 S1 C1 E1 B1 A1] [R2 F2 S2 C2 E2 B2 A2]. split; [done| | | | | |by etrans].
  - by etrans.
  - intros Hs. rewrite S2, S1; done.
  - intros i. by rewrite C2, C1.
  - by etrans.
  - intros Hn. destruct (B2 Hn) as [[Ha Hq]|]; [|by right]. rewrite Hq. by apply B1.
Qed.

Lemma moves_activate m wl :
  ring m (wl ++ behind m) ->
  moves false m (activate_free m) wl /\ (active_buffer_ m = None -> moves true m (activate_free m) wl).
Proof.
  intros R. destruct (activate_free_ring m wl R) as (R1 & F1 & S1).
  assert (forall l, flow (activate_free m) l = flow m l) as Ef.
  { intros l. apply flow_ext. intros i _. apply activate_free_records. }
  assert (forall strict, (strict = true -> flow m (behind (activate_free m)) = flow m (behind m)) ->
    moves strict m (activate_free m) wl) as H.
  { intros strict Hs. split; [done|by rewrite Ef|intros; rewrite Ef; auto|apply activate_free_records|apply activate_free_rest| |
      by eapply activate_free_active].
    intros Hn. left. rewrite activate_free_queued. split; [|done].
    destruct (activate_free_cases m) as [E|(i & b & _ & _ & E)]; rewrite E in Hn; [done|done]. }
  split; [by apply H|]. intros Hn. apply H. intros _. by apply S1.
Qed.

Lemma moves_queue strict m wl : ring m (wl ++ behind m) -> moves strict m (QueueActiveBuffer m) wl.
Proof.
  intros R. destruct (QueueActiveBuffer_ring m wl R) as (R1 & F1 & B1 & _).
  assert (forall l, flow (QueueActiveBuffer m) l = flow m l) as Ef.
  { intros l. apply flow_ext. intros i _. apply QueueActiveBuffer_records. }
  split; [done|by rewrite Ef, F1|by rewrite Ef, F1|apply QueueActiveBuffer_records|apply QueueActiveBuffer_rest| |
    by rewrite (QueueActiveBuffer_active m wl R); apply list_subseteq_nil].
  intros Hn. destruct (B1 Hn) as [[Ha E]|]; [left|by right]. by rewrite E.
Qed.

Lemma moves_count strict m wl : ring m (wl ++ behind m) -> moves strict m (count_blocked m) wl.
Proof.
  intros R. destruct R as [R1 R2 R3 R4 R5]. split; try done; by left.
Qed.

(** ** The outcome of a submission *)
Definition outcome_spec (strict : bool) (m : Manager) (wl : list nat) (us : list BufferedPropertyUpdate)
    (o : SubmitOutcome) : Prop :=
  match o with
  | Blocked _ m' => moves strict m m' wl
  | Rejected _ m' => moves strict m m' wl
  | Committed us' m' =>
      us' = map (stamp (next_commit_sequence_ m)) us /\
      exists m0, moves strict m m0 wl /\ commit_spec m0 m' wl us'
  end.

Lemma outcome_moves strict m m0 wl us o :
  moves strict m m0 wl -> outcome_spec strict m0 wl us o -> outcome_spec strict m wl us o.
Proof.
  intros Hm. pose proof (mv_rest _ _ _ _ Hm) as (_ & En & _).
  destruct o as [second m'|e m'|us' m']; cbn; [by apply moves_trans|by apply moves_trans|].
  intros (-> & m1 & H1 & H2). split; [by rewrite En|]. exists m1. split; [by eapply moves_trans|done].
Qed.

Lemma submit_commit_outcome strict m a us n wl :
  ring m (wl ++ behind m) -> active_buffer_ m = Some a -> outcome_spec strict m wl us (submit_commit m a us n).
Proof.
  intros R Ea. destruct (submit_commit_spec m a us n wl R Ea) as (m' & -> & H). split; [done|].
  exists m. split; [by apply moves_refl|done].
Qed.

Lemma ensure_active_Ok m a : ensure_active m = Some (Ok a) -> active_buffer_ m = Some a.
Proof. unfold ensure_active. repeat case_match; congruence. Qed.

Lemma submit_second_outcome strict m us n wl :
  ring m (wl ++ behind m) -> outcome_spec strict m wl us (submit_second m us n).
Proof.
  intros R. unfold submit_second. destruct (ensure_active m) as [[a|e]|] eqn:E.
  - apply submit_commit_outcome; [done|]. by apply ensure_active_Ok.
  - by apply moves_refl.
  - by apply moves_count.
Qed.

Lemma submit_first_outcome strict m us n wl :
  ring m (wl ++ behind m) -> outcome_spec strict m wl us (submit_first m us n).
Proof.
  intros R. unfold submit_first. destruct (ensure_active m) as [[a|e]|] eqn:E.
  - apply ensure_active_Ok in E. destruct (buffers_ m !! a) as [b|]; [|by apply moves_refl].
    destruct (has_room _ _ _ _); [by apply submit_commit_outcome|].
    pose proof (moves_queue strict m wl R) as Hq. eapply outcome_moves; [done|].
    apply submit_second_outcome, Hq.
  - by apply moves_refl.
  - by apply moves_count.
Qed.

Lemma submit_wake_outcome second m us n wl :
  ring m (wl ++ behind m) -> outcome_spec false m wl us (submit_wake second m us n).
Proof.
  intros R. destruct (moves_activate m wl R) as [Hm _]. unfold submit_wake. eapply outcome_moves; [done|].
  destruct second; [apply submit_second_outcome|apply submit_first_outcome]; apply Hm.
Qed.

(** ** The invariant is preserved *)
Lemma worker_ok_ext m m' pub w :
  (forall i, i ∈ opt_list (worker_buffer w) -> records_at m' i = records_at m i) ->
  worker_ok m pub w -> worker_ok m' pub w.
Proof.
  intros H. destruct w as [|i gs|i us|i [e|]|]; cbn in *; try done.
  all: rewrite H by left; done.
Qed.

Lemma covered_mono s s' u :
  acked s ⊆ acked s' -> published s ⊆ published s' ->
  pending_ (mgr s') !! MakePendingKey u = pending_ (mgr s) !! MakePendingKey u ->
  covered s u -> covered s' u.
Proof.
  intros Ha Hp E (u' & H1 & H2 & H3 & H4). exists u'. rewrite E. split_and!; [by apply Ha|done|done|].
  destruct H4 as [(g & Hg & Hu)|]; [left|by right]. exists g. split; [by apply Hp|done].
Qed.

Lemma StronglySorted_prefix {A} (R : A -> A -> Prop) l l' :
  l `prefix_of` l' -> StronglySorted R l' -> StronglySorted R l.
Proof. intros [k ->]. apply StronglySorted_app_1_l. Qed.

Lemma flow_moves strict m m' wl :
  moves strict m m' wl -> flow m' (wl ++ behind m') `prefix_of` flow m (wl ++ behind m).
Proof.
  intros M. rewrite !flow_app. rewrite (flow_ext m m' wl) by (intros; by apply M). apply prefix_app. apply M.
Qed.

Lemma prefix_elem {A} (l l' : list A) x : l `prefix_of` l' -> x ∈ l -> x ∈ l'.
Proof. intros [k ->]. rewrite elem_of_app. by left. Qed.

Abbreviation held s := (opt_list (worker_buffer (worker s))).

Lemma inv_moves strict s m' ws :
  inv s -> moves strict (mgr s) m' (held s) -> inv (mkSys m' (published s) ws (worker s) (acked s)).
Proof.
  intros [Iring Irun Iblk Isort Iack Icom Ipend Ibeh Iold Iord Iwork Ivis Inext] M. pose proof (mv_rest _ _ _ _ M) as (_ & En & Ep & Er & Ef).
  pose proof (flow_moves _ _ _ _ M) as Hpre.
  split; cbn [mgr published waiting worker acked]; rewrite ?En, ?Ep, ?Er, ?Ef; try done.
  - apply M.
  - intros Hn. destruct (mv_blocked _ _ _ _ M Hn) as [[Ha Hq]|]; [rewrite Hq; by apply Iblk|by left].
  - by eapply StronglySorted_prefix.
  - intros u Hu. apply Iack. by eapply prefix_elem.
  - intros g r u Hg Hr Hu. eapply Ibeh; [done..|]. eapply prefix_elem; [apply M|done].
  - eapply worker_ok_ext; [|done]. intros; by apply M.
  - intros u Hu. eapply covered_mono; [..|by apply Ivis]; cbn; by rewrite ?Ep.
Qed.

Lemma stamp_commit c us u : u ∈ map (stamp c) us -> commit u = c.
Proof. intros (u' & -> & _)%list_elem_of_fmap. done. Qed.

Lemma StronglySorted_app_le us us' c :
  StronglySorted (fun u v => commit u <= commit v) us -> (forall u, u ∈ us -> commit u <= c) ->
  (forall u, u ∈ us' -> commit u = c) -> StronglySorted (fun u v => commit u <= commit v) (us ++ us').
Proof.
  intros Hs Hu Hu'. apply StronglySorted_app_2; [|done|].
  - intros x y Hx Hy. rewrite (Hu' y Hy). by apply Hu.
  - clear Hs Hu. induction us' as [|u us' IH]; constructor.
    + apply IH. intros v Hv. apply Hu'. by right.
    + apply Forall_forall. intros v Hv. rewrite (Hu' u), (Hu' v); [done|by right|by left].
Qed.

Lemma inv_commits s m' ws us :
  inv s -> commit_spec (mgr s) m' (held s) (map (stamp (next_commit_sequence_ (mgr s))) us) ->
  inv (mkSys m' (published s) ws (worker s) (acked s ++ map (stamp (next_commit_sequence_ (mgr s))) us)).
Proof.
  intros [Iring Irun Iblk Isort Iack Icom Ipend Ibeh Iold Iord Iwork Ivis Inext] C. set (c := next_commit_sequence_ (mgr s)) in *. set (us' := map (stamp c) us) in *.
  assert (forall u, u ∈ us' -> commit u = c) as Hc by apply stamp_commit.
  destruct C as [R F W N P (_ & E1 & E2) B _].
  assert (flow m' (pipeline m' (worker s)) = flow (mgr s) (pipeline (mgr s) (worker s)) ++ us') as Hflow.
  { unfold pipeline. rewrite !flow_app, F, (flow_ext (mgr s) m') by done. by rewrite app_assoc. }
  pose proof (publish_all_spec (pending_ (mgr s)) us' c Hc Inext Ipend) as Hpub.
  split; cbn [mgr published waiting worker acked]; rewrite ?N, ?E1, ?E2, ?Hflow; try done.
  - intros Hn. left. by apply B.
  - apply (StronglySorted_app_le _ _ c); [done| |done]. intros u Hu. apply Iack, Icom in Hu. unfold c. lia.
  - intros u [Hu|Hu]%elem_of_app; apply elem_of_app; [left; by apply Iack|by right].
  - intros u [Hu|Hu]%elem_of_app; [apply Icom in Hu|apply Hc in Hu]; fold c in Hu; lia.
  - intros k v Hv. rewrite P in Hv. specialize (Hpub k). rewrite Hv in Hpub.
    destruct Hpub as [[Hk _]|(u & Hu & _ & ->)]; [apply Ipend in Hk; fold c in Hk; lia|].
    cbn. apply Hc in Hu. unfold commit in Hu. lia.
  - intros g r u Hg Hr Hu. rewrite F in Hu. apply elem_of_app in Hu as [Hu|Hu]; [by eapply Ibeh|].
    rewrite (Hc u Hu). specialize (Iold g r Hg Hr). fold c in Iold. lia.
  - intros g r Hg Hr. specialize (Iold g r Hg Hr). fold c in Iold. lia.
  - by eapply worker_ok_ext.
  - intros u [Hu|Hu]%elem_of_app.
    + destruct (Ivis u Hu) as (u' & H1 & H2 & H3 & H4).
      specialize (Hpub (MakePendingKey u)). destruct H4 as [H4|H4].
      { exists u'. cbn. split_and!; [apply elem_of_app; by left|done|done|by left]. }
      rewrite H4 in Hpub. destruct (foldl _ _ _ !! _) as [v|] eqn:Ev; [|by destruct Hpub].
      destruct Hpub as [[[= <-] _]|(u2 & Hu2 & Hk & ->)].
      * exists u'. cbn. split_and!; [apply elem_of_app; by left|done|done|right; by rewrite P].
      * exists u2. cbn. split_and!; [apply elem_of_app; by right|done| |right; by rewrite P].
        rewrite (Hc u2 Hu2). apply Icom in Hu. fold c in Hu. lia.
    + specialize (Hpub (MakePendingKey u)).
      destruct (foldl _ _ _ !! _) as [v|] eqn:Ev; [|by destruct Hpub as [_ Hx]; destruct (Hx u Hu)].
      destruct Hpub as [[_ Hx]|(u2 & Hu2 & Hk & ->)]; [by destruct (Hx u Hu)|].
      exists u2. cbn. split_and!; [apply elem_of_app; by right|done| |right; by rewrite P].
      by rewrite (Hc u Hu), (Hc u2 Hu2).
  - lia.
Qed.

Lemma inv_outcome strict s ws us n o :
  inv s -> outcome_spec strict (mgr s) (held s) us o -> inv (after_submit s ws us n o).
Proof.
  intros Hi. destruct o as [second m'|e m'|us' m']; cbn [after_submit outcome_spec].
  - by apply (inv_moves strict).
  - by apply (inv_moves strict).
  - intros (-> & m0 & M & C). pose proof (inv_moves strict s m0 ws Hi M) as H0.
    pose proof (mv_rest _ _ _ _ M) as (_ & En & _). rewrite <- En in C |- *.
    by apply (inv_commits (mkSys m0 (published s) ws (worker s) (acked s)) m' ws us).
Qed.

(** ** Grouping by target *)
Lemma add_to_group_spec gs u :
  NoDup gs.*1 ->
  NoDup (add_to_group gs u).*1 /\
  (forall t, t ∈ (add_to_group gs u).*1 <-> t ∈ gs.*1 \/ t = u_target u) /\
  is_published (add_to_group gs u) u /\
  (forall v, is_published gs v -> is_published (add_to_group gs u) v) /\
  (forall g r, g ∈ add_to_group gs u -> r ∈ g.2.1 ->
     (exists g', g' ∈ gs /\ g'.1 = g.1 /\ r ∈ g'.2.1) \/ (r = u_record u /\ g.1 = u_target u)).
Proof.
  induction gs as [|[t [rs p]] gs IH]; intros Hnd; cbn [add_to_group].
  - cbn. split_and!.
    + apply NoDup_singleton.
    + intros t. rewrite list_elem_of_singleton, elem_of_nil. tauto.
    + eexists. split; [left|]. split; [done|left].
    + intros v (g & Hg & _). by apply elem_of_nil in Hg.
    + intros g r ->%list_elem_of_singleton ->%list_elem_of_singleton. by right.
  - cbn in Hnd. apply NoDup_cons in Hnd as [Hn Hnd]. case_bool_decide as Ht.
    + cbn. subst t. split_and!.
      * by constructor.
      * intros t. rewrite elem_of_cons. tauto.
      * eexists. split; [left|]. split; [done|]. cbn. apply elem_of_app. right. left.
      * intros v (g & [->|Hg]%elem_of_cons & Hv).
        -- eexists. split; [left|]. destruct Hv. split; [done|]. cbn. apply elem_of_app. by left.
        -- exists g. split; [by right|done].
      * intros g r [->|Hg]%elem_of_cons Hr.
        -- cbn in Hr. apply elem_of_app in Hr as [Hr| ->%list_elem_of_singleton]; [left|by right].
           eexists. split; [left|]. done.
        -- left. exists g. split; [by right|done].
    + destruct (IH Hnd) as (H1 & H2 & H3 & H4 & H5). cbn. split_and!.
      * constructor; [|done]. rewrite H2. tauto.
      * intros x. rewrite !elem_of_cons, H2. tauto.
      * destruct H3 as (g & Hg & Hu). exists g. split; [by right|done].
      * intros v (g & [->|Hg]%elem_of_cons & Hv); [eexists; split; [left|done]|].
        destruct (H4 v) as (g' & Hg' & Hv'); [by exists g|]. exists g'. split; [by right|done].
      * intros g r [->|Hg]%elem_of_cons Hr; [left; eexists; split; [left|done]|].
        destruct (H5 g r Hg Hr) as [(g' & Hg' & ? & ?)|]; [|by right]. left. exists g'. split; [by right|done].
Qed.

Lemma group_updates_spec us :
  NoDup (group_updates us).*1 /\
  (forall u, u ∈ us -> is_published (group_updates us) u) /\
  (forall g r, g ∈ group_updates us -> r ∈ g.2.1 -> exists u, u ∈ us /\ u_record u = r /\ u_target u = g.1).
Proof.
  unfold group_updates. induction us as [|u us (H1 & H2 & H3)] using rev_ind.
  { split_and!; [apply NoDup_nil_2|set_solver|set_solver]. }
  rewrite foldl_snoc. destruct (add_to_group_spec (foldl add_to_group [] us) u H1) as (A1 & _ & A3 & A4 & A5).
  split_and!; [done| |].
  - intros v [Hv| ->%list_elem_of_singleton]%elem_of_app; [by apply A4, H2|done].
  - intros g r Hg Hr. destruct (A5 g r Hg Hr) as [(g' & Hg' & Et & Hr')|[-> Et]].
    + destruct (H3 g' r Hg' Hr') as (v & ? & ? & ?). exists v. rewrite elem_of_app, <- Et. tauto.
    + exists u. rewrite elem_of_app, list_elem_of_singleton. auto.
Qed.

(** ** The worker's steps *)
Lemma worker_pop_spec m m' i :
  worker_pop m = Some (m', i) -> ring m (behind m) ->
  exists b, buffers_ m !! i = Some b /\ behind m = i :: behind m' /\ ring m' (behind m) /\
    (forall j, records_at m' j = records_at m j) /\
    running_flushes_ m' = running_flushes_ m + 1 /\ next_commit_sequence_ m' = next_commit_sequence_ m /\
    pending_ m' = pending_ m /\ fatal_error_ m' = fatal_error_ m /\ active_buffer_ m' = active_buffer_ m /\
    options_ m' = options_ m.
Proof.
  unfold worker_pop. destruct (queued_buffers_ m) as [|j q] eqn:Eq; [done|]. intros H R.
  destruct (buffers_ m !! j) as [b|] eqn:Hb; [|done]. cbn in H. injection H as <- <-.
  exists b. split_and!; try done.
  - unfold behind. rewrite Eq. done.
  - assert (ring (set_buffers m (<[j := set_state kFlushing b]> (buffers_ m)) q (active_buffer_ m)) (behind m)) as R'.
    { apply (ring_update m (behind m) _ _ j b); [done|done|apply R|tauto|done| | |done].
      - intros x Hx. right. split; [|done]. intros ->. pose proof (ring_nodup _ _ R) as Hnd. unfold behind in Hnd.
        rewrite Eq, Hx in Hnd. apply NoDup_cons in Hnd as [Hn _]. apply Hn, elem_of_app. right. left.
      - intros Hn. destruct Hn. unfold behind. rewrite Eq. left. }
    destruct R' as [R1 R2 R3 R4 R5]. split; [exact R1|exact R2|exact R3|exact R4|exact R5].
  - intros k. by apply (records_at_insert m _ _ _ _ b).
Qed.

Record finish_spec (m m' : Manager) (e : option UpdateError) : Prop := {
  fs_ring : ring m' (behind m');
  fs_flow : flow m' (behind m') = flow m (behind m);
  fs_running : running_flushes_ m' = running_flushes_ m - 1;
  fs_next : next_commit_sequence_ m' = next_commit_sequence_ m;
  fs_pending : pending_ m' = pending_ m;
  fs_options : options_ m' = options_ m;
  fs_failed : e <> None -> is_Some (fatal_error_ m');
  fs_fatal : e = None -> fatal_error_ m' = fatal_error_ m;
  fs_active : e = None -> active_buffer_ m' <> None;
  fs_queued : queued_buffers_ m' = queued_buffers_ m;
  fs_active_updates : active_updates m' ⊆ active_updates m;
  fs_records : forall j, j ∈ behind m -> records_at m' j = records_at m j;
}.

Lemma worker_finish_failed m i e :
  ring m ([i] ++ behind m) -> finish_spec m (worker_finish m i (Some e)) (Some e).
Proof.
  intros R. pose proof (ring_nodup _ _ R) as Hnd. cbn [app] in Hnd. apply NoDup_cons in Hnd as [Hni Hnd].
  destruct (ring_range _ _ R i) as [b Hb]; [left|]. unfold worker_finish. rewrite Hb. cbn zeta.
  set (m1 := set_buffers (set_running m (running_flushes_ m - 1)) (<[i := set_state kFailed b]> (buffers_ m))
    (queued_buffers_ m) (active_buffer_ m)).
  assert (ring m1 (behind m)) as R1.
  { apply (ring_update (set_running m (running_flushes_ m - 1)) ([i] ++ behind m) _ _ i b); try done.
    - destruct R as [? ? ? ? ?]. by split.
    - intros j Hj. left. apply elem_of_app. by right.
    - intros x Hx. right. split; [|done]. intros ->. apply Hni. unfold behind. rewrite elem_of_app. right.
      rewrite Hx. left.
    - by left.
    - intros j c Hne Hj Hn. rewrite elem_of_app, list_elem_of_singleton in Hj. tauto. }
  assert (forall x st, ring (set_mstats (set_fatal m1 x) st) (behind m) /\ ring (set_mstats m1 st) (behind m)) as Rf
    by (intros x st; destruct R1 as [? ? ? ? ?]; split; by split).
  assert (forall j, records_at m1 j = records_at m j) as Hrec.
  { intros j. by apply (records_at_insert (set_running m (running_flushes_ m - 1)) _ _ _ _ b). }
  assert (flow m1 (behind m) = flow m (behind m)) as Hf by (by apply flow_ext).
  cbn [fatal_error_ set_buffers set_running]. fold m1. change (fatal_error_ m1) with (fatal_error_ m).
  destruct (fatal_error_ m) as [e'|] eqn:Ee; split; try done; try (by apply Rf); try (exact Hf).
  - exact (proj2 (Rf None _)).
  - unfold active_updates. by rewrite (flow_ext m) by (intros; apply Hrec).
  - intros j _. apply Hrec.
  - unfold active_updates. by rewrite (flow_ext m) by (intros; apply Hrec).
  - intros j _. apply Hrec.
Qed.

Lemma worker_finish_ok m i : ring m ([i] ++ behind m) -> finish_spec m (worker_finish m i None) None.
Proof.
  intros R. pose proof (ring_nodup _ _ R) as Hnd. cbn [app] in Hnd. apply NoDup_cons in Hnd as [Hni Hnd].
  destruct (ring_range _ _ R i) as [b Hb]; [left|]. unfold worker_finish. rewrite Hb. cbn zeta.
  set (st' := match active_buffer_ m with None => kActive | _ => kFree end).
  set (act := match active_buffer_ m with None => Some i | a => a end).
  set (m1 := set_buffers (set_running m (running_flushes_ m - 1)) (<[i := mkBuffer st' [] 0]> (buffers_ m))
    (queued_buffers_ m) act).
  assert (behind m1 = behind m ++ match active_buffer_ m with None => [i] | _ => [] end) as Eb.
  { unfold behind, m1, act. cbn. destruct (active_buffer_ m); cbn; by rewrite ?app_nil_r. }
  assert (ring m1 (behind m1)) as R1.
  { apply (ring_update (set_running m (running_flushes_ m - 1)) ([i] ++ behind m) _ _ i b).
    - destruct R as [? ? ? ? ?]. by split.
    - done.
    - rewrite Eb. apply NoDup_app. split_and!; [done| |destruct (active_buffer_ m); [apply NoDup_nil_2|apply NoDup_singleton]].
      intros x Hx Hx'. destruct (active_buffer_ m); [by apply elem_of_nil in Hx'|].
      apply list_elem_of_singleton in Hx' as ->. done.
    - intros j Hj. rewrite Eb in Hj. apply elem_of_app in Hj as [Hj|Hj]; [left; apply elem_of_app; by right|].
      destruct (active_buffer_ m); [by apply elem_of_nil in Hj|]. apply list_elem_of_singleton in Hj. by right.
    - change (state (mkBuffer st' [] 0)) with st'. intros Hs. split; [|done]. rewrite Eb. unfold st' in Hs.
      destruct (active_buffer_ m); [by rewrite app_nil_r|done].
    - intros x Hx. cbn. unfold act, st' in *. destruct (active_buffer_ m) as [a|] eqn:Ea.
      + injection Hx as <-. right. split; [|done]. intros ->. apply Hni. unfold behind. rewrite Ea, elem_of_app. right. left.
      + injection Hx as <-. by left.
    - done.
    - intros j c Hne Hj Hn. rewrite Eb, elem_of_app in Hn. rewrite elem_of_app, list_elem_of_singleton in Hj. tauto. }
  assert (forall j, j ∈ behind m -> records_at m1 j = records_at m j) as Hrec.
  { intros j Hj. unfold records_at, m1. cbn. by rewrite list_lookup_insert_ne by (intros ->; done). }
  split; try done.
  - destruct R1 as [? ? ? ? ?]; by split.
  - change (flow m1 (behind m1) = flow m (behind m)). rewrite Eb, flow_app.
    assert (flow m1 match active_buffer_ m with None => [i] | _ => [] end = []) as ->.
    { destruct (active_buffer_ m); [done|]. rewrite flow_one. unfold records_at, m1. cbn.
      by rewrite list_lookup_insert_eq by (by eapply lookup_lt_Some). }
    rewrite app_nil_r. by apply flow_ext.
  - intros _. cbn. unfold act. by destruct (active_buffer_ m).
  - change (flow m1 (opt_list act) ⊆ active_updates m). unfold active_updates, act.
    destruct (active_buffer_ m) as [a|] eqn:Ea; cbn [opt_list]; rewrite ?flow_one; unfold records_at, m1; cbn.
    + rewrite list_lookup_insert_ne by (intros ->; apply Hni; unfold behind; rewrite Ea, elem_of_app; right; left).
      done.
    + rewrite list_lookup_insert_eq by (by eapply lookup_lt_Some). apply list_subseteq_nil.
Qed.

Lemma worker_finish_spec m i e : ring m ([i] ++ behind m) -> finish_spec m (worker_finish m i e) e.
Proof. destruct e; [apply worker_finish_failed|apply worker_finish_ok]. Qed.
