(* ===== verification/UpdateManagerInv.v ===== *)
(** * The update manager's invariant holds in every reachable state

    One lemma per step of the worker, then [inv_step] and [inv_run]. *)

From S2P Require Import Prelude.
From S2P Require Import Types.
From S2P Require Import UpdateManager.
From S2P Require Import UpdateManagerFacts.

Lemma is_published_mono gs gs' u : gs ⊆ gs' -> is_published gs u -> is_published gs' u.
Proof. intros H (g & Hg & Hu). exists g. split; [by apply H|done]. Qed.

Lemma is_published_cons g gs u : is_published (g :: gs) u <-> in_group u g \/ is_published gs u.
Proof.
  split.
  - intros (g' & [->|Hg]%elem_of_cons & Hu); [by left|right; by exists g'].
  - intros [Hu|(g' & Hg & Hu)]; [exists g|exists g']; (split; [|done]); [left|by right].
Qed.

(** A step that changes only what the worker is doing with its buffer. *)
Lemma inv_worker_only s w :
  inv s -> worker_buffer w = worker_buffer (worker s) -> worker_buffer (worker s) <> None ->
  worker_ok (mgr s) (published s) w -> inv (with_worker s (mgr s) w).
Proof.
  intros I Hw Hb Hok.
  destruct I as [Iring Irun Iblk Isort Iack Icom Ipend Ibeh Iold Iord Iwork Ivis Inext].
  assert (pipeline (mgr s) w = pipeline (mgr s) (worker s)) as Ep by (unfold pipeline; by rewrite Hw).
  split; cbn [with_worker mgr published waiting worker acked]; rewrite ?Ep; try done.
  - by rewrite Irun, Hw.
  - intros _. right. left. by rewrite Hw.
Qed.

Lemma inv_worker_end s : inv s -> worker s = Waiting -> inv (with_worker s (mgr s) Ended).
Proof.
  intros [Iring Irun Iblk Isort Iack Icom Ipend Ibeh Iold Iord Iwork Ivis Inext] Hw. rewrite Hw in *.
  by split; cbn [with_worker mgr published waiting worker acked].
Qed.

Lemma inv_worker_pop s m i b gs :
  inv s -> worker s = Waiting -> worker_pop (mgr s) = Some (m, i) -> buffers_ m !! i = Some b ->
  gs ≡ₚ group_updates (records b) -> inv (with_worker s m (Publishing i gs)).
Proof.
  intros [Iring Irun Iblk Isort Iack Icom Ipend Ibeh Iold Iord Iwork Ivis Inext] Hw Hp Hb Hgs.
  unfold pipeline in *. rewrite Hw in *. cbn [opt_list worker_buffer app] in *.
  destruct (worker_pop_spec _ _ _ Hp Iring) as (b0 & _ & Eb & R & Hrec & Er & En & Epe & Ef & Ea & _).
  assert (forall l, flow m l = flow (mgr s) l) as Hf by (intros; by apply flow_ext).
  destruct (group_updates_spec (records b)) as (G1 & G2 & G3). rewrite <- (records_at_lookup _ _ _ Hb) in G1, G2, G3, Hgs.
  assert (forall u, u ∈ records_at m i -> u ∈ flow (mgr s) (behind (mgr s))) as Hin.
  { intros u Hu. rewrite Eb. apply elem_of_flow. exists i. rewrite <- Hrec. split; [left|done]. }
  split; cbn [with_worker mgr published waiting worker acked opt_list worker_buffer app]; unfold pipeline;
    cbn [worker_buffer opt_list app]; rewrite <- ?Eb, ?Hf, ?En, ?Epe; try done.
  - lia.
  - intros _. right. by left.
  - intros g r u Hg Hr Hu. eapply Ibeh; [done..|]. rewrite Eb. eapply flow_sub; [|done].
    intros j Hj. by right.
  - split_and!.
    + intros u Hu. right. destruct (G2 u Hu) as (g & Hg & Hug). exists g. by rewrite Hgs.
    + intros g r Hg Hr. rewrite Hgs in Hg. destruct (G3 g r Hg Hr) as (u & ? & ? & _). eauto.
    + by rewrite Hgs.
    + intros g g' r r' Hg Hg' _ Hr Hr'. rewrite Hgs in Hg'. destruct (G3 g' r' Hg' Hr') as (u & Hu & <- & _).
      exact (Ibeh g r u Hg Hr (Hin u Hu)).
  - intros u Hu. eapply covered_mono; [..|by apply Ivis]; cbn; by rewrite ?Epe.
Qed.

Lemma target_ordered_snoc pub g :
  target_ordered pub ->
  (forall g' r r', g' ∈ pub -> g'.1 = g.1 -> r ∈ g'.2.1 -> r' ∈ g.2.1 -> commit_sequence r <= commit_sequence r') ->
  target_ordered (pub ++ [g]).
Proof.
  intros Hord Hnew i j g1 g2 r r' Hij Hi Hj Ht Hr Hr'.
  apply lookup_app_Some in Hj as [Hj|[Hle Hj]].
  - rewrite lookup_app_l in Hi by (apply lookup_lt_Some in Hj; lia). by eapply (Hord i j g1 g2).
  - apply list_lookup_singleton_Some in Hj as [Hz ->]. rewrite lookup_app_l in Hi by lia.
    eapply (Hnew g1); [by eapply list_elem_of_lookup_2|done..].
Qed.

Lemma flow_sorted_head m i l u v :
  StronglySorted (fun u v => commit u <= commit v) (flow m ([i] ++ l)) ->
  u ∈ records_at m i -> v ∈ flow m l -> commit u <= commit v.
Proof.
  rewrite flow_app, flow_one. intros Hs Hu Hv.
  exact (StronglySorted_app_1_elem_of _ _ _ u v Hs Hu Hv).
Qed.

Lemma inv_worker_publish s i g gs :
  inv s -> worker s = Publishing i (g :: gs) ->
  inv (mkSys (count_batch (mgr s)) (published s ++ [g]) (waiting s) (Publishing i gs) (acked s)).
Proof.
  intros [Iring Irun Iblk Isort Iack Icom Ipend Ibeh Iold Iord Iwork Ivis Inext] Hw.
  rewrite Hw in *. destruct Iwork as (W1 & W2 & W3 & W4). unfold pipeline in *. cbn [worker_buffer opt_list] in *.
  assert (forall r, r ∈ g.2.1 -> exists u, u ∈ records_at (mgr s) i /\ u_record u = r) as Hg.
  { intros r. apply W2. left. }
  assert (forall g' r, g' ∈ published s ++ [g] -> r ∈ g'.2.1 ->
    g' ∈ published s \/ exists u, u ∈ records_at (mgr s) i /\ u_record u = r) as Hpub.
  { intros g' r [H| ->%list_elem_of_singleton]%elem_of_app Hr; [by left|right; by apply Hg]. }
  assert (forall u, u ∈ records_at (mgr s) i -> u ∈ acked s) as Hack.
  { intros u Hu. apply Iack. apply elem_of_flow. exists i. split; [left|done]. }
  cbn [fmap list_fmap] in W3. apply NoDup_cons in W3 as [Hn Hnd].
  split; cbn [mgr published waiting worker acked]; unfold pipeline; cbn [worker_buffer opt_list];
    change (flow (count_batch (mgr s))) with (flow (mgr s));
    change (behind (count_batch (mgr s))) with (behind (mgr s)); try done.
  - destruct Iring as [? ? ? ? ?]. by split.
  - intros g' r u Hg' Hr Hu. destruct (Hpub g' r Hg' Hr) as [H|(v & Hv & <-)]; [by eapply Ibeh|].
    exact (flow_sorted_head _ _ _ v u Isort Hv Hu).
  - intros g' r Hg' Hr. destruct (Hpub g' r Hg' Hr) as [H|(v & Hv & <-)]; [by eapply Iold|].
    exact (Icom v (Hack v Hv)).
  - apply target_ordered_snoc; [done|]. intros g' r r' H Ht Hr Hr'. eapply (W4 g' g); [done|left|done..].
  - split_and!.
    + intros u Hu. destruct (W1 u Hu) as [H|[H|H]%is_published_cons].
      * left. eapply is_published_mono; [|done]. intros x Hx. apply elem_of_app. by left.
      * left. exists g. split; [apply elem_of_app; right; left|done].
      * by right.
    + intros g' r Hg' Hr. eapply W2; [by right|done].
    + done.
    + intros g1 g2 r r' [H| ->%list_elem_of_singleton]%elem_of_app H2 Ht Hr Hr'.
      * eapply (W4 g1 g2); [done|by right|done..].
      * destruct Hn. rewrite Ht. by apply list_elem_of_fmap_2.
  - intros u Hu. eapply covered_mono; [..|by apply Ivis]; cbn; try done. intros x Hx. apply elem_of_app. by left.
Qed.

(** A retired entry belonged to an update that is published. *)
Lemma inv_retire s i u us :
  inv s -> worker s = Retiring i (u :: us) ->
  inv (with_worker s (set_pending (mgr s) (RetirePending (pending_ (mgr s)) u)) (Retiring i us)).
Proof.
  intros [Iring Irun Iblk Isort Iack Icom Ipend Ibeh Iold Iord Iwork Ivis Inext] Hw.
  rewrite Hw in *. destruct Iwork as [W1 W2].
  assert (u ∈ records_at (mgr s) i) as Hu by (apply W2; left).
  assert (u ∈ acked s) as Hua.
  { apply Iack, elem_of_flow. exists i. split; [apply elem_of_app; left; left|done]. }
  set (p := RetirePending (pending_ (mgr s)) u).
  assert (forall k v, p !! k = Some v -> pending_ (mgr s) !! k = Some v) as Hsub.
  { intros k v. unfold p, RetirePending. repeat case_match; try done. by intros [_ ?]%lookup_delete_Some. }
  split; cbn [with_worker mgr published waiting worker acked]; try done.
  - destruct Iring as [? ? ? ? ?]. by split.
  - intros k v Hv. eauto.
  - split; [done|]. intros v Hv. apply W2. by right.
  - intros v Hv. destruct (Ivis v Hv) as (v' & H1 & H2 & H3 & [H4|H4]).
    { exists v'. cbn. auto. }
    destruct (p !! MakePendingKey v) as [x|] eqn:Ex.
    { pose proof (Hsub _ _ Ex) as E'. rewrite H4 in E'. injection E' as <-. exists v'. cbn. auto. }
    unfold p, RetirePending in Ex. destruct (pending_ (mgr s) !! MakePendingKey u) as [y|] eqn:Ey; [|congruence].
    destruct (pv_commit_sequence y =? _) eqn:Ec; [|congruence]. apply lookup_delete_None in Ex as [Ek|]; [|congruence].
    exists u. cbn. split_and!; [done|done| |left; by apply W1].
    rewrite Ek, H4 in Ey. injection Ey as <-. apply Z.eqb_eq in Ec. cbn in Ec. unfold commit in *. lia.
Qed.

Lemma inv_finish s i e :
  inv s -> worker s = Finishing i e -> inv (with_worker s (worker_finish (mgr s) i e) Waiting).
Proof.
  intros [Iring Irun Iblk Isort Iack Icom Ipend Ibeh Iold Iord Iwork Ivis Inext] Hw.
  unfold pipeline in *. rewrite Hw in *. cbn [worker_buffer opt_list] in *.
  destruct (worker_finish_spec (mgr s) i e Iring) as [F1 F2 F3 F4 F5 F6 F7 F8 F9 F10 _ _].
  split; cbn [with_worker mgr published waiting worker acked]; unfold pipeline;
    cbn [worker_buffer opt_list app]; rewrite ?F2, ?F4, ?F5; try done.
  - lia.
  - intros Hn. right. right. destruct e; [by apply F7|]. by destruct F9.
  - rewrite flow_app in Isort. by eapply StronglySorted_app_1_r.
  - intros u Hu. apply Iack. rewrite flow_app. apply elem_of_app. by right.
  - intros u Hu. eapply covered_mono; [..|by apply Ivis]; cbn; by rewrite ?F5.
Qed.

Lemma inv_with_mgr strict s m : inv s -> moves strict (mgr s) m (held s) -> inv (with_mgr s m).
Proof. intros. by eapply inv_moves. Qed.

Lemma moves_stop strict m wl : ring m (wl ++ behind m) -> moves strict m (StopWorker m) wl.
Proof. intros [R1 R2 R3 R4 R5]. split; try done; by left. Qed.

Lemma moves_return m m' wl :
  ring m (wl ++ behind m) -> flush_return m = Ok m' -> moves true m m' wl.
Proof.
  unfold flush_return. intros R. destruct (fatal_error_ m); [done|]. intros [= <-].
  destruct (active_buffer_ m) eqn:Ea; [by apply moves_refl|]. by apply moves_activate.
Qed.

Section Runs.
Context (update_size : Z).

Lemma inv_step a s s' : inv s -> step update_size a s s' -> inv s'.
Proof.
  intros I H. pose proof (inv_ring s I) as R. inversion H; subst; clear H.
  - eapply (inv_outcome true); [done|]. by apply submit_first_outcome.
  - eapply (inv_outcome false); [done|]. by apply submit_wake_outcome.
  - by eapply inv_worker_pop.
  - by eapply inv_worker_publish.
  - apply inv_worker_only; [done|by rewrite H0|by rewrite H0|done].
  - apply inv_worker_only; [done|by rewrite H0|by rewrite H0|].
    pose proof (inv_worker s I) as W. rewrite H0 in W. destruct W as (W1 & _).
    cbn. rewrite (records_at_lookup _ _ _ H1) in W1 |- *. split; [|done].
    intros u Hu. destruct (W1 u Hu) as [?|(g & Hg & _)]; [done|]. by apply elem_of_nil in Hg.
  - by eapply inv_retire.
  - apply inv_worker_only; [done|by rewrite H0|by rewrite H0|].
    pose proof (inv_worker s I) as W. rewrite H0 in W. exact (proj1 W).
  - by apply inv_finish.
  - apply (inv_with_mgr true); [done|]. unfold flush_request in H0. destruct (fatal_error_ _); [done|].
    injection H0 as <-. by apply moves_queue.
  - apply (inv_with_mgr true); [done|]. by eapply moves_return.
  - apply (inv_with_mgr true); [done|]. by apply moves_stop.
  - by apply inv_worker_end.
Qed.

Lemma inv_run ok tr s s' : inv s -> run update_size ok tr s s' -> inv s'.
Proof. intros I H. induction H; [done|]. eapply inv_step; [by apply IHrun|done]. Qed.
End Runs.

Lemma inv_initial options has_callback c m :
  new_manager options has_callback c = Ok m -> inv (initial m).
Proof.
  unfold new_manager. destruct (_ || _) eqn:E; [done|]. intros [= <-].
  rewrite !orb_false_iff in E. destruct E as ((((_ & Hc) & _) & _) & _). apply Z.ltb_ge in Hc.
  set (bs := replicate _ _). assert (0 < length bs)%nat as Hl by (unfold bs; rewrite length_replicate; lia).
  assert (forall i b, <[0%nat := mkBuffer kActive [] 0]> bs !! i = Some b ->
            records b = [] /\ (state b = kFree -> i <> 0%nat)) as Hb.
  { intros i b [(-> & -> & _)|[Hne Hi]]%lookup_insert_cases; [done|].
    apply lookup_replicate in Hi as [-> _]. done. }
  split; cbn; try done.
  - split; cbn.
    + apply NoDup_singleton.
    + intros i ->%list_elem_of_singleton. rewrite list_lookup_insert_eq by done. eauto.
    + intros i b Hi Hs. destruct (Hb i b Hi) as [Hr Hn]. split; [|done]. rewrite list_elem_of_singleton. auto.
    + intros a b [= <-] [(_ & -> & _)|[Hne _]]%lookup_insert_cases; done.
    + intros i b Hi _ Hr. by destruct (Hb i b Hi).
  - unfold flow. cbn. unfold records_at. cbn. rewrite list_lookup_insert_eq by done. constructor.
  - unfold flow. cbn. unfold records_at. cbn. rewrite list_lookup_insert_eq by done. set_solver.
  - intros u Hu. by apply elem_of_nil in Hu.
  - intros g r u Hg. by apply elem_of_nil in Hg.
  - intros g r Hg. by apply elem_of_nil in Hg.
  - intros u Hu. by apply elem_of_nil in Hu.
  - lia.
Qed.

(** ** What a flush of the update manager achieves

    Two facts that need more than [inv]: an acknowledged update is published,
    still in the pipeline, or the manager has failed ([kept], on runs in which
    no wake-up strands a buffer); and after a flush request the active buffer
    holds only later commits ([fresh]). *)

Abbreviation failed s := (is_Some (fatal_error_ (mgr s))).
Abbreviation in_pipeline s u := (u ∈ flow (mgr s) (pipeline (mgr s) (worker s))).

Definition kept (s : Sys) : Prop :=
  forall u, u ∈ acked s -> failed s \/ is_published (published s) u \/ in_pipeline s u.

Definition fresh (c : Z) (s : Sys) : Prop :=
  c <= next_commit_sequence_ (mgr s) /\ forall u, u ∈ active_updates (mgr s) -> c <= commit u.

(** [s'] follows [s] and no update of [s] is lost. *)
Record extends (s s' : Sys) : Prop := {
  ex_failed : failed s -> failed s';
  ex_published : published s ⊆ published s';
  ex_flow : forall u, in_pipeline s u -> failed s' \/ is_published (published s') u \/ in_pipeline s' u;
}.

Lemma kept_extends s s' us :
  kept s -> extends s s' -> acked s' = acked s ++ us -> (forall u, u ∈ us -> in_pipeline s' u) -> kept s'.
Proof.
  intros K [E1 E2 E3] Ha Hus u. rewrite Ha. intros [Hu|Hu]%elem_of_app; [|right; right; by apply Hus].
  destruct (K u Hu) as [H|[H|H]]; [left; by apply E1|right; left; by eapply is_published_mono|by apply E3].
Qed.

Lemma kept_same s s' : kept s -> extends s s' -> acked s' = acked s -> kept s'.
Proof. intros K E Ha. apply (kept_extends s s' []); [done|done|by rewrite app_nil_r|set_solver]. Qed.

Lemma moves_flow_eq m m' w :
  moves true m m' (opt_list (worker_buffer w)) -> flow m' (pipeline m' w) = flow m (pipeline m w).
Proof.
  intros M. unfold pipeline. rewrite !flow_app, (mv_strict _ _ _ _ M) by done. f_equal. apply flow_ext. intros; apply M.
Qed.

Lemma extends_moves s m' ws ac :
  moves true (mgr s) m' (held s) -> extends s (mkSys m' (published s) ws (worker s) ac).
Proof.
  intros M. pose proof (mv_rest _ _ _ _ M) as (_ & _ & _ & _ & Ef). split; cbn; [by rewrite Ef|done|].
  intros u Hu. right. right. by rewrite (moves_flow_eq _ _ _ M).
Qed.

Lemma extends_outcome s ws us n o :
  outcome_spec true (mgr s) (held s) us o -> extends s (after_submit s ws us n o) /\
  (kept s -> kept (after_submit s ws us n o)).
Proof.
  destruct o as [second m'|e m'|us' m']; cbn [after_submit outcome_spec].
  1,2: intros M; pose proof (fun ws => extends_moves s m' ws (acked s) M) as E; split; [apply E|];
    intros K; eapply kept_same; [done|apply E|done].
  intros (-> & m0 & M & [R F W N P (_ & E1 & E2) B A]). set (us' := map _ us) in *.
  pose proof (mv_rest _ _ _ _ M) as (_ & _ & _ & _ & Ef).
  assert (flow m' (pipeline m' (worker s)) = flow (mgr s) (pipeline (mgr s) (worker s)) ++ us') as Hflow.
  { rewrite <- (moves_flow_eq _ _ _ M). unfold pipeline. rewrite !flow_app, F, (flow_ext m0 m') by done.
    by rewrite app_assoc. }
  assert (extends s (mkSys m' (published s) ws (worker s) (acked s ++ us'))) as E.
  { split; cbn; [by rewrite E2, Ef|done|]. intros u Hu. right. right. rewrite Hflow. apply elem_of_app. by left. }
  split; [done|]. intros K. apply (kept_extends s _ us'); [done|done|done|]. cbn. intros u Hu. rewrite Hflow.
  apply elem_of_app. by right.
Qed.

(** Steps of the worker that leave the buffers in place. *)
Lemma extends_same s s' :
  fatal_error_ (mgr s') = fatal_error_ (mgr s) -> published s ⊆ published s' ->
  pipeline (mgr s') (worker s') = pipeline (mgr s) (worker s) -> buffers_ (mgr s') = buffers_ (mgr s) ->
  extends s s'.
Proof.
  intros Ef Ep El Eb. split; [by rewrite Ef|done|]. intros u Hu. right. right. rewrite El, (flow_ext (mgr s)); [done|].
  intros i _. unfold records_at. by rewrite Eb.
Qed.

Lemma extends_pop s m i gs :
  inv s -> worker s = Waiting -> worker_pop (mgr s) = Some (m, i) -> extends s (with_worker s m (Publishing i gs)).
Proof.
  intros I Hw Hp. pose proof (inv_ring s I) as R. unfold pipeline in R. rewrite Hw in R.
  destruct (worker_pop_spec _ _ _ Hp R) as (b & _ & Eb & _ & Hrec & _ & _ & _ & Ef & _).
  split; cbn [with_worker mgr published worker]; [by rewrite Ef|done|]. intros u Hu. right. right. unfold pipeline in *. rewrite Hw in Hu.
  cbn [with_worker mgr worker worker_buffer opt_list app] in Hu |- *. rewrite Eb in Hu. by rewrite (flow_ext (mgr s)).
Qed.

Lemma extends_finish s i e :
  inv s -> worker s = Finishing i e -> extends s (with_worker s (worker_finish (mgr s) i e) Waiting).
Proof.
  intros I Hw. pose proof (inv_ring s I) as R. pose proof (inv_worker s I) as W. unfold pipeline in R. rewrite Hw in R, W.
  destruct (worker_finish_spec _ i e R) as [F1 F2 F3 F4 F5 F6 F7 F8 F9 F10 F11 _].
  split; cbn [with_worker mgr published worker]; [|done|].
  - intros Hf. destruct e; [by apply F7|]. by rewrite F8.
  - intros u. unfold pipeline. rewrite Hw. cbn [worker_buffer opt_list]. rewrite flow_app, flow_one.
    intros [Hu|Hu]%elem_of_app.
    + destruct e; [left; by apply F7|right; left; by apply W].
    + right. right. cbn [app]. by rewrite F2.
Qed.

Section Steps.
Context (update_size : Z).

Lemma kept_step a s s' :
  inv s -> kept s -> no_stranding a s -> step update_size a s s' -> extends s s' /\ kept s'.
Proof.
  intros I K Hn H. pose proof (inv_ring s I) as R.
  assert (forall s', extends s s' -> acked s' = acked s -> extends s s' /\ kept s') as Easy.
  { intros s2 E Ha. split; [done|by eapply kept_same]. }
  inversion H; subst; clear H.
  - destruct (extends_outcome s (waiting s) us n (submit_first (mgr s) us n)); [by apply submit_first_outcome|auto].
  - destruct (extends_outcome s (ws ++ ws') (w_updates w) (w_bytes w)
      (submit_wake (w_second w) (mgr s) (w_updates w) (w_bytes w))); [|auto].
    unfold submit_wake. destruct (moves_activate _ _ R) as [_ Hm]. specialize (Hm (Hn eq_refl)).
    eapply outcome_moves; [done|]. destruct (w_second w); [apply submit_second_outcome|apply submit_first_outcome]; apply Hm.
  - apply Easy; [by apply extends_pop|done].
  - apply Easy; [|done]. apply extends_same; cbn; try done; [|by rewrite H0].
    intros x Hx. apply elem_of_app. by left.
  - apply Easy; [|done]. apply extends_same; cbn; try done. by rewrite H0.
  - apply Easy; [|done]. apply extends_same; cbn; try done. by rewrite H0.
  - apply Easy; [|done]. apply extends_same; cbn; try done. by rewrite H0.
  - apply Easy; [|done]. apply extends_same; cbn; try done. by rewrite H0.
  - apply Easy; [|done]. by apply extends_finish.
  - apply Easy; [|done]. apply extends_moves. unfold flush_request in H0. destruct (fatal_error_ _); [done|].
    injection H0 as <-. by apply moves_queue.
  - apply Easy; [|done]. apply extends_moves. by eapply moves_return.
  - apply Easy; [|done]. apply extends_moves. by apply moves_stop.
  - apply Easy; [|done]. apply extends_same; cbn; try done. by rewrite H0.
Qed.

Lemma kept_run tr s s' : inv s -> kept s -> run update_size no_stranding tr s s' -> kept s'.
Proof.
  intros I K H. assert (inv s' /\ kept s') as [_ ?]; [|done]. induction H; [done|].
  destruct IHrun as [I2 K2]; [done..|]. split; [by eapply inv_step|]. by eapply kept_step.
Qed.

(** ** The active buffer after a flush request *)
Lemma fresh_moves c strict s m' ws ac wl :
  fresh c s -> moves strict (mgr s) m' wl -> fresh c (mkSys m' (published s) ws (worker s) ac).
Proof.
  intros [H1 H2] M. pose proof (mv_rest _ _ _ _ M) as (_ & En & _). split; cbn; [by rewrite En|].
  intros u Hu. by apply H2, (mv_active _ _ _ _ M).
Qed.

Lemma fresh_outcome c strict s ws us n o wl :
  fresh c s -> outcome_spec strict (mgr s) wl us o -> fresh c (after_submit s ws us n o).
Proof.
  intros F. destruct o as [second m'|e m'|us' m']; cbn [after_submit outcome_spec]; [by apply fresh_moves..|].
  intros (-> & m0 & M & [_ _ _ N _ _ _ A]). pose proof (mv_rest _ _ _ _ M) as (_ & En & _).
  destruct F as [H1 H2]. split; cbn; [lia|]. intros u Hu. apply A, elem_of_app in Hu as [Hu|Hu].
  - by apply H2, (mv_active _ _ _ _ M).
  - by rewrite (stamp_commit _ _ _ Hu).
Qed.

Lemma fresh_same c s s' :
  fresh c s -> next_commit_sequence_ (mgr s') = next_commit_sequence_ (mgr s) ->
  active_updates (mgr s') ⊆ active_updates (mgr s) -> fresh c s'.
Proof. intros [H1 H2] En Ha. split; [by rewrite En|]. intros u Hu. by apply H2, Ha. Qed.

Lemma fresh_step c a s s' : inv s -> fresh c s -> step update_size a s s' -> fresh c s'.
Proof.
  intros I F H. pose proof (inv_ring s I) as R. inversion H; subst; clear H.
  - eapply (fresh_outcome c true); [done|]. by apply submit_first_outcome.
  - eapply (fresh_outcome c false); [done|]. by apply submit_wake_outcome.
  - unfold pipeline in R. rewrite H0 in R.
    destruct (worker_pop_spec _ _ _ H1 R) as (b0 & _ & _ & _ & Hrec & _ & En & _ & _ & Ea & _).
    eapply fresh_same; [done|done|]. cbn. unfold active_updates. rewrite Ea, (flow_ext (mgr s)); done.
  - eapply fresh_same; done.
  - eapply fresh_same; done.
  - eapply fresh_same; done.
  - eapply fresh_same; done.
  - eapply fresh_same; done.
  - unfold pipeline in R. rewrite H0 in R. destruct (worker_finish_spec _ i e R) as [_ _ _ En _ _ _ _ _ _ Ha _].
    by eapply fresh_same.
  - unfold flush_request in H0. destruct (fatal_error_ _); [done|]. injection H0 as <-.
    eapply (fresh_moves c true); [done|]. by apply moves_queue.
  - eapply (fresh_moves c true); [done|]. by eapply moves_return.
  - eapply (fresh_moves c true); [done|]. by apply moves_stop.
  - eapply fresh_same; done.
Qed.

Lemma fresh_run c ok tr s s' : inv s -> fresh c s -> run update_size ok tr s s' -> fresh c s'.
Proof.
  intros I F H. induction H; [done|]. eapply fresh_step; [|by apply IHrun|done]. by eapply inv_run.
Qed.

Lemma fresh_request s m :
  inv s -> flush_request (mgr s) = Ok m -> fresh (next_commit_sequence_ (mgr s)) (with_mgr s m).
Proof.
  intros I. unfold flush_request. destruct (fatal_error_ _); [done|]. intros [= <-].
  destruct (QueueActiveBuffer_rest (mgr s)) as (_ & En & _). split; cbn; [by rewrite En|].
  rewrite (QueueActiveBuffer_active _ _ (inv_ring s I)). intros u Hu. by apply elem_of_nil in Hu.
Qed.

(** When the flusher sees the manager idle, everything acknowledged before its
    request has been published. *)
Lemma flush_complete s1 s2 u :
  inv s1 -> inv s2 -> kept s2 -> fresh (next_commit_sequence_ (mgr s1)) s2 ->
  u ∈ acked s1 -> u ∈ acked s2 -> fatal_error_ (mgr s2) = None -> flush_idle (mgr s2) = true ->
  is_published (published s2) u.
Proof.
  intros I1 I2 K [_ F] Hu1 Hu2 Hf Hidle. destruct (K u Hu2) as [[e He]|[H|H]]; [congruence|done|].
  apply andb_true_iff in Hidle as [Hq%bool_decide_eq_true Hr%Z.eqb_eq].
  pose proof (inv_running s2 I2) as Er. unfold pipeline, behind in H.
  destruct (worker_buffer (worker s2)) as [i|]; [lia|]. rewrite Hq in H. cbn in H. apply F in H.
  pose proof (inv_commit s1 I1 u Hu1). lia.
Qed.

(** Acknowledgements are never withdrawn. *)
Lemma acked_step a s s' : step update_size a s s' -> acked s ⊆ acked s'.
Proof.
  intros H. inversion H; subst; cbn; try done;
    match goal with |- _ ⊆ acked (after_submit _ _ _ _ ?o) => destruct o; cbn; try done end;
    intros x Hx; apply elem_of_app; by left.
Qed.

Lemma acked_run ok tr s s' : run update_size ok tr s s' -> acked s ⊆ acked s'.
Proof. intros H. induction H; [done|]. etrans; [done|by eapply acked_step]. Qed.
End Steps.
