(* ===== verification/UpdateManagerProgress.v ===== *)
(** * Progress and capacity of the update manager

    The worker always has a step while there is something to flush, and every
    step of it lowers [work]; the buffers stay below twice the configured
    capacity. *)

From S2P Require Import Prelude.
From S2P Require Import Types.
From S2P Require Import UpdateManager.
From S2P Require Import UpdateManagerFacts.
From S2P Require Import UpdateManagerInv.

(** ** The worker's remaining work *)
Definition stage_work (m : Manager) (w : WorkerState) : nat :=
  match w with
  | Ended => 0
  | Waiting => 1
  | Publishing i gs => length gs + length (records_at m i) + 4
  | Retiring _ us => length us + 3
  | Finishing _ _ => 2
  end.

Definition queue_work (m : Manager) (q : list nat) : nat :=
  sum_list_with (fun i => 2 * length (records_at m i) + 4)%nat q.

Definition work (s : Sys) : nat := (stage_work (mgr s) (worker s) + queue_work (mgr s) (queued_buffers_ (mgr s)))%nat.

Lemma queue_work_ext m m' q :
  (forall i, i ∈ q -> records_at m' i = records_at m i) -> queue_work m' q = queue_work m q.
Proof.
  induction q as [|i q IH]; intros H; [done|]. unfold queue_work in *. cbn [sum_list_with]. rewrite H by left.
  f_equal. apply IH. intros j Hj. apply H. by right.
Qed.

Lemma length_add_to_group gs u : (length (add_to_group gs u) <= length gs + 1)%nat.
Proof.
  induction gs as [|[t [rs p]] gs IH]; [cbn; lia|]. cbn [add_to_group]. case_bool_decide; cbn [length]; lia.
Qed.

Lemma length_group_updates us : (length (group_updates us) <= length us)%nat.
Proof.
  unfold group_updates. induction us as [|u us IH] using rev_ind; [done|]. rewrite foldl_snoc, length_app.
  pose proof (length_add_to_group (foldl add_to_group [] us) u). cbn [length]. lia.
Qed.

Section Progress.
Context (update_size : Z).

Lemma worker_step_decreases a s s' :
  inv s -> step update_size a s s' -> worker_action a = true -> (work s' < work s)%nat.
Proof.
  intros I H Ha. pose proof (inv_ring s I) as R. unfold work. inversion H; subst; clear H; try done;
    cbn [with_worker mgr worker published]; rewrite ?H0.
  - unfold pipeline in R. rewrite H0 in R. pose proof (worker_pop_spec _ _ _ H1 R) as (b0 & _ & _ & _ & Hrec & _).
    unfold worker_pop in H1. destruct (queued_buffers_ (mgr s)) as [|j q]; [done|].
    destruct (buffers_ (mgr s) !! j); [|done]. injection H1 as <- <-. cbn [queued_buffers_ set_running set_buffers].
    rewrite (queue_work_ext (mgr s)) by (intros; apply Hrec). cbn [stage_work].
    rewrite H3, (records_at_lookup _ _ _ H2). pose proof (length_group_updates (records b)).
    unfold queue_work. cbn [sum_list_with]. rewrite <- Hrec, (records_at_lookup _ _ _ H2). lia.
  - cbn [stage_work length]. change (records_at (count_batch (mgr s))) with (records_at (mgr s)).
    change (queue_work (count_batch (mgr s)) (queued_buffers_ (count_batch (mgr s))))
      with (queue_work (mgr s) (queued_buffers_ (mgr s))). lia.
  - cbn [stage_work length]. lia.
  - cbn [stage_work length]. rewrite (records_at_lookup _ _ _ H1). lia.
  - cbn [stage_work length set_pending queued_buffers_].
    change (queue_work (set_pending _ _)) with (queue_work (mgr s)). lia.
  - cbn [stage_work length]. lia.
  - unfold pipeline in R. rewrite H0 in R. destruct (worker_finish_spec _ i e R).
    rewrite fs_queued, (queue_work_ext (mgr s)); [cbn [stage_work]; lia|].
    intros j Hj. apply fs_records. unfold behind. apply elem_of_app. by left.
  - cbn [stage_work]. lia.
Qed.

Lemma worker_enabled s :
  inv s -> worker s <> Ended -> worker s <> Waiting \/ queued_buffers_ (mgr s) <> [] ->
  exists a s', step update_size a s s' /\ worker_action a = true /\ a <> APublishFail /\ worker s' <> Ended.
Proof.
  intros I He Hw. pose proof (inv_ring s I) as R. unfold pipeline in R.
  destruct (worker s) as [|i gs|i us|i e|] eqn:E; cbn [worker_buffer opt_list app] in R.
  - destruct Hw as [|Hq]; [done|]. unfold behind in R. destruct (queued_buffers_ (mgr s)) as [|i q] eqn:Eq; [done|].
    destruct (ring_range _ _ R i) as [b Hb]; [left|].
    eexists APop, (with_worker s _ (Publishing i (group_updates (records b)))). split; [|done]. eapply (step_pop _ s _ i (set_state kFlushing b) (group_updates (records b))); [done| | |done].
    + unfold worker_pop. rewrite Eq, Hb. done.
    + cbn. by rewrite list_lookup_insert_eq by (by eapply lookup_lt_Some).
  - destruct gs as [|g gs].
    + destruct (ring_range _ _ R i) as [b Hb]; [left|].
      eexists APublished, _. split; [by eapply step_published|done].
    + eexists APublish, _. split; [by eapply step_publish|done].
  - destruct us as [|u us].
    + eexists ARetired, _. split; [by eapply step_retired|done].
    + eexists ARetire, _. split; [by eapply step_retire|done].
  - eexists AFinish, _. split; [by eapply step_finish|done].
  - done.
Qed.

(** Runs of the worker alone. *)
Definition worker_only : action -> Sys -> Prop := fun a _ => worker_action a = true.
Definition worker_succeeds : action -> Sys -> Prop := fun a _ => worker_action a = true /\ a <> APublishFail.

Lemma worker_run_bounded tr s s' :
  inv s -> run update_size worker_only tr s s' -> (length tr + work s' <= work s)%nat.
Proof.
  intros I H. induction H as [|tr a s1 s2 s3 H IH Ha Hs]; [done|]. specialize (IH I).
  pose proof (worker_step_decreases a s2 s3 (inv_run _ _ _ _ _ I H) Hs Ha). rewrite length_app. cbn [length]. lia.
Qed.

Lemma run_cons ok a tr s1 s2 s3 :
  ok a s1 -> step update_size a s1 s2 -> run update_size ok tr s2 s3 -> run update_size ok (a :: tr) s1 s3.
Proof.
  intros Ha Hs H. induction H as [|tr b s s2' s3 H IH Hb Hs'].
  - apply (run_snoc _ _ [] a s1 s1 s); [constructor|done|done].
  - change (a :: tr ++ [b]) with ((a :: tr) ++ [b]). eapply run_snoc; [by apply IH|done|done].
Qed.

Lemma worker_run_idle s :
  inv s -> worker s <> Ended ->
  exists tr s', run update_size worker_succeeds tr s s' /\ worker s' = Waiting /\ queued_buffers_ (mgr s') = [].
Proof.
  remember (work s) as n eqn:En. revert s En. induction n as [n IH] using lt_wf_ind. intros s -> I He.
  assert ((worker s = Waiting /\ queued_buffers_ (mgr s) = []) \/
          (worker s <> Waiting \/ queued_buffers_ (mgr s) <> [])) as [[Hw Hq]|Hb].
  { destruct (worker s); [destruct (queued_buffers_ (mgr s))|..]; auto; right; by left. }
  { exists [], s. split; [constructor|done]. }
  destruct (worker_enabled s I He Hb) as (a & s1 & Hs & Ha & Hf & He1).
  destruct (IH (work s1)) with (s := s1) as (tr & s2 & Hr & Hw & Hq');
    [by eapply worker_step_decreases|done|by eapply inv_step|done|].
  exists (a :: tr), s2. split; [by eapply run_cons|done].
Qed.

(** A worker that has no step left. *)
Definition worker_stuck (s : Sys) : Prop := forall a s', step update_size a s s' -> worker_action a = false.

Lemma worker_stuck_waits s :
  inv s -> worker s <> Ended -> worker_stuck s -> worker s = Waiting /\ queued_buffers_ (mgr s) = [] /\ stop_ (mgr s) = false.
Proof.
  intros I He Hst. destruct (decide (queued_buffers_ (mgr s) = [])) as [Hq|Hq].
  2:{ destruct (worker_enabled s I He (or_intror Hq)) as (a & s1 & Hs & Ha & _). by rewrite (Hst _ _ Hs) in Ha. }
  assert (worker s = Waiting) as Hw.
  { destruct (worker s) eqn:E; [done|..]; destruct (worker_enabled s I) as (a & s1 & Hs & Ha & _);
      try (by rewrite (Hst _ _ Hs) in Ha); rewrite E; try done; by left. }
  split_and!; [done|done|]. destruct (stop_ (mgr s)) eqn:Es; [|done].
  assert (worker_action AEnd = false) as Hf by (apply (Hst AEnd _ (step_end _ s Hw ltac:(unfold worker_ends; by rewrite Es, Hq)))). done.
Qed.

(** The worker leaves its loop only when it is stopped and nothing is queued. *)
Lemma worker_run_ends tr s s' :
  worker s <> Ended -> run update_size worker_only tr s s' -> worker s' = Ended -> queued_buffers_ (mgr s') = [] /\ stop_ (mgr s') = true.
Proof.
  intros He H. induction H as [|tr a s1 s2 s3 H IH Ha Hs]; [done|]. specialize (IH He). unfold worker_only in Ha.
  inversion Hs; subst; try done; cbn [with_worker worker mgr]; try (intros; congruence). intros _.
  unfold worker_ends in *. apply andb_true_iff in H1 as [Hs' Hq%bool_decide_eq_true]. done.
Qed.
End Progress.

(** ** Capacity *)
Definition options_ok (o : PropertyUpdateOptions) : Prop :=
  0 < buffer_capacity_records o /\ 0 < buffer_capacity_bytes o < 2 ^ 64.

Definition batch_ok (o : PropertyUpdateOptions) (us : list BufferedPropertyUpdate) (n : Z) : Prop :=
  zlen us <= buffer_capacity_records o /\ n <= buffer_capacity_bytes o.

Definition below_twice (o : PropertyUpdateOptions) (b : Buffer) : Prop :=
  zlen (records b) < 2 * buffer_capacity_records o /\ buf_bytes b < 2 * buffer_capacity_bytes o.

(** The active buffer is not full, and a free buffer is empty. *)
Record bounded (m : Manager) : Prop := {
  bd_options : options_ok (options_ m);
  bd_buffers : forall i b, buffers_ m !! i = Some b -> below_twice (options_ m) b;
  bd_active : forall a b, active_buffer_ m = Some a -> buffers_ m !! a = Some b -> full (options_ m) b = false;
  bd_free : forall i b, buffers_ m !! i = Some b -> state b = kFree -> records b = [] /\ buf_bytes b = 0;
}.

Lemma full_false o b :
  full o b = false <-> zlen (records b) < buffer_capacity_records o /\ buf_bytes b < buffer_capacity_bytes o.
Proof. unfold full. rewrite orb_false_iff, !Z.leb_gt. done. Qed.

Lemma empty_not_full o b : options_ok o -> records b = [] -> buf_bytes b = 0 -> full o b = false.
Proof. intros [? ?] Hr Hb. apply full_false. rewrite Hr, Hb. change (zlen []) with 0. lia. Qed.

(** Replacing one buffer and moving the active index. *)
Lemma bounded_update m q a i b' :
  bounded m -> below_twice (options_ m) b' ->
  (state b' = kFree -> records b' = [] /\ buf_bytes b' = 0) ->
  (forall x, a = Some x -> (x = i /\ full (options_ m) b' = false) \/ (x <> i /\ active_buffer_ m = Some x)) ->
  bounded (set_buffers m (<[i := b']> (buffers_ m)) q a).
Proof.
  intros [B1 B2 B3 B4] Hb Hf Ha. split; cbn [set_buffers options_ buffers_ active_buffer_].
  - done.
  - intros j c [(-> & -> & _)|[Hne Hj]]%lookup_insert_cases; [done|by eapply B2].
  - intros x c Hx [(-> & -> & _)|[Hne Hj]]%lookup_insert_cases; destruct (Ha _ Hx) as [[? ?]|[? ?]]; try done.
    by eapply B3.
  - intros j c [(-> & -> & _)|[Hne Hj]]%lookup_insert_cases; [done|by eapply B4].
Qed.

Lemma bounded_same m m' :
  bounded m -> options_ m' = options_ m -> buffers_ m' = buffers_ m -> active_buffer_ m' = active_buffer_ m -> bounded m'.
Proof. intros [B1 B2 B3 B4] E1 E2 E3. split; rewrite ?E1, ?E2, ?E3; done. Qed.

Lemma bounded_activate m : bounded m -> bounded (activate_free m).
Proof.
  intros B. destruct (activate_free_cases m) as [->|(i & b & Hi & Hs & ->)]; [done|].
  destruct (bd_free _ B i b Hi Hs) as [Hr Hb].
  apply bounded_update; [done|exact (bd_buffers _ B i b Hi)|done|]. intros x [= ->]. left. split; [done|].
  by apply empty_not_full; [apply B|..].
Qed.

Lemma bounded_queue m : bounded m -> bounded (QueueActiveBuffer m).
Proof.
  intros B. unfold QueueActiveBuffer. destruct (active_buffer_ m) as [a|]; [|done].
  destruct (buffers_ m !! a) as [b|] eqn:Hb; [|done]. case_bool_decide; [done|]. apply bounded_activate.
  apply bounded_update; [done|exact (bd_buffers _ B a b Hb)|done|done].
Qed.

Definition outcome_manager (o : SubmitOutcome) : Manager :=
  match o with Blocked _ m | Rejected _ m | Committed _ m => m end.

(** A full buffer is queued at once, so the next active buffer is not full. *)
Lemma bounded_commit m a us n :
  bounded m -> active_buffer_ m = Some a -> batch_ok (options_ m) us n ->
  (forall b, buffers_ m !! a = Some b -> state b <> kFree) -> 0 < zlen us ->
  bounded (outcome_manager (submit_commit m a us n)).
Proof.
  intros B Ea [Hn Hb] Hst Hus. unfold submit_commit. destruct (buffers_ m !! a) as [b|] eqn:E; [|done]. cbn zeta.
  set (us' := map _ us). assert (zlen us' = zlen us) as Hl by (unfold us', zlen; by rewrite length_map).
  pose proof (proj1 (full_false _ _) (bd_active _ B a b Ea E)) as [F1 F2].
  set (b' := mkBuffer _ _ _). match goal with |- context [QueueActiveBuffer ?x] => set (m1 := x) end.
  assert (below_twice (options_ m) b') as Hb'.
  { unfold below_twice, b'. cbn [records buf_bytes]. rewrite zlen_app. lia. }
  assert (records b' <> []) as Hne.
  { unfold b'. cbn. intros [_ Hx]%app_nil. rewrite Hx in Hl. change (zlen []) with 0 in Hl. lia. }
  cbn [outcome_manager]. destruct (full (options_ m1) b') eqn:Ef.
  - unfold QueueActiveBuffer. change (active_buffer_ m1) with (active_buffer_ m). rewrite Ea.
    assert (buffers_ m1 !! a = Some b') as -> by (cbn; by rewrite list_lookup_insert_eq by (by eapply lookup_lt_Some)).
    rewrite bool_decide_eq_false_2 by done. apply bounded_activate.
    eapply (bounded_same (set_buffers m (<[a := set_state kQueued b']> (buffers_ m)) (queued_buffers_ m) None)); try done.
    + apply bounded_update; done.
    + cbn. by rewrite list_insert_insert_eq.
  - eapply (bounded_same (set_buffers m (<[a := b']> (buffers_ m)) (queued_buffers_ m) (Some a))); try done.
    apply bounded_update; [done|done| |].
    + cbn. intros Hs. by destruct (Hst b eq_refl).
    + intros x [= <-]. left. done.
Qed.

Definition batch_fits (o : PropertyUpdateOptions) (us : list BufferedPropertyUpdate) (n : Z) : Prop :=
  batch_ok o us n /\ 0 < zlen us.

Lemma bounded_second m us n wl :
  ring m (wl ++ behind m) -> bounded m -> batch_fits (options_ m) us n ->
  bounded (outcome_manager (submit_second m us n)).
Proof.
  intros R B [Hb Hl]. unfold submit_second. destruct (ensure_active m) as [[a|e]|] eqn:E; [|done|].
  - apply ensure_active_Ok in E. apply bounded_commit; try done.
    intros b H. by rewrite (ring_active _ _ R a b E H).
  - by eapply bounded_same.
Qed.

Lemma bounded_first m us n wl :
  ring m (wl ++ behind m) -> bounded m -> batch_fits (options_ m) us n ->
  bounded (outcome_manager (submit_first m us n)).
Proof.
  intros R B Hb. unfold submit_first. destruct (ensure_active m) as [[a|e]|] eqn:E; [|done|by eapply bounded_same].
  apply ensure_active_Ok in E. destruct (buffers_ m !! a) as [b|] eqn:Ea; [|done].
  destruct (has_room _ _ _ _).
  - destruct Hb as [Hb Hl]. apply bounded_commit; try done. intros c H. by rewrite (ring_active _ _ R a c E H).
  - destruct (QueueActiveBuffer_rest m) as (Eo & _).
    apply (bounded_second _ us n wl); [apply (QueueActiveBuffer_ring m wl R)|by apply bounded_queue|by rewrite Eo].
Qed.

Lemma bounded_wake second m us n wl :
  ring m (wl ++ behind m) -> bounded m -> batch_fits (options_ m) us n ->
  bounded (outcome_manager (submit_wake second m us n)).
Proof.
  intros R B Hb. unfold submit_wake. destruct (activate_free_ring m wl R) as (R' & _).
  destruct (activate_free_rest m) as (Eo & _). rewrite <- Eo in Hb.
  destruct second; [eapply bounded_second|eapply bounded_first]; try done; by apply bounded_activate.
Qed.

Lemma outcome_options strict m wl us o : outcome_spec strict m wl us o -> options_ (outcome_manager o) = options_ m.
Proof.
  destruct o as [second m'|e m'|us' m']; cbn; [intros M..|intros (_ & m0 & M & C)];
    destruct (mv_rest _ _ _ _ M) as (E & _); [done|done|].
  destruct (cs_rest _ _ _ _ C) as (E' & _). congruence.
Qed.

Definition bounded_sys (s : Sys) : Prop :=
  bounded (mgr s) /\ forall w, w ∈ waiting s -> batch_fits (options_ (mgr s)) (w_updates w) (w_bytes w).

Lemma bounded_after s ws us n o :
  bounded (outcome_manager o) -> options_ (outcome_manager o) = options_ (mgr s) ->
  (forall w, w ∈ ws -> batch_fits (options_ (mgr s)) (w_updates w) (w_bytes w)) ->
  batch_fits (options_ (mgr s)) us n -> bounded_sys (after_submit s ws us n o).
Proof.
  intros B Eo Hw Hb. split.
  - by destruct o.
  - intros w. destruct o; cbn in *; rewrite Eo; [intros [->|H]%elem_of_cons; [done|auto]|auto|auto].
Qed.

Section Bounds.
Context (update_size : Z).
Hypothesis update_size_pos : 0 < update_size.

Lemma batch_bytes_bound cap acc us n :
  0 <= acc <= cap -> cap < 2 ^ 64 -> batch_bytes_from update_size cap acc us = Some n -> n <= cap.
Proof.
  intros Ha Hc. revert acc Ha. induction us as [|u us IH]; intros acc Ha; cbn [batch_bytes_from]; [intros [= <-]; lia|].
  unfold u64. rewrite wrap_small by (unfold fits; lia). destruct (_ <? _) eqn:E; [done|]. apply Z.ltb_ge in E.
  apply IH. unfold EstimateBytes in *. pose proof (zlen_nonneg (value (u_record u))). lia.
Qed.

Lemma submit_checks_fit o us n :
  options_ok o -> submit_checks update_size o us = Ok n -> batch_fits o us n.
Proof.
  intros [H1 H2]. unfold submit_checks. case_bool_decide as Hne; [done|].
  destruct (batch_bytes_from _ _ _ _) as [k|] eqn:E; [|done]. destruct (_ <? _) eqn:El; [done|]. intros [= <-].
  apply Z.ltb_ge in El. split; [split; [done|]|].
  - eapply (batch_bytes_bound _ 0); [|..|done]; lia.
  - destruct us; [done|]. unfold zlen. cbn [length]. lia.
Qed.

Lemma bounded_with s m : bounded_sys s -> bounded m -> options_ m = options_ (mgr s) -> bounded_sys (with_mgr s m).
Proof. intros [_ H] B E. split; [done|]. cbn. by rewrite E. Qed.

Lemma bounded_finish m i e : bounded m -> bounded (worker_finish m i e).
Proof.
  intros B. unfold worker_finish. destruct (buffers_ m !! i) as [b|] eqn:Hi; [|done]. cbn zeta. destruct e as [e|].
  - assert (bounded (set_buffers m (<[i := set_state kFailed b]> (buffers_ m)) (queued_buffers_ m) (active_buffer_ m))) as B1.
    { apply bounded_update; [done|exact (bd_buffers _ B i b Hi)|done|]. intros x Hx.
      destruct (decide (x = i)) as [->|]; [left|by right]. split; [done|]. exact (bd_active _ B i b Hx Hi). }
    eapply bounded_same; [exact B1|..]; cbn; destruct (fatal_error_ m); done.
  - eapply (bounded_same (set_buffers m (<[i := mkBuffer _ [] 0]> (buffers_ m)) (queued_buffers_ m) _)); [|done..].
    assert (forall st, full (options_ m) (mkBuffer st [] 0) = false) as Hf by (intros; by apply empty_not_full; [apply B|..]).
    apply bounded_update; [done| |done|].
    + destruct (bd_options _ B) as [? ?]. unfold below_twice. cbn. change (zlen []) with 0. lia.
    + intros x Hx. destruct (decide (x = i)) as [->|]; [left; by rewrite Hf|right].
      cbn in Hx. destruct (active_buffer_ m); split; congruence.
Qed.

Lemma bounded_step a s s' : inv s -> bounded_sys s -> step update_size a s s' -> bounded_sys s'.
Proof.
  intros I B H. pose proof (inv_ring s I) as R. pose proof B as [B1 B2]. inversion H; subst; clear H; try exact B.
  - pose proof (submit_checks_fit _ _ _ (bd_options _ B1) H0).
    apply bounded_after; [by eapply bounded_first|by eapply (outcome_options true), submit_first_outcome|done|done].
  - assert (batch_fits (options_ (mgr s)) (w_updates w) (w_bytes w)) as Hw.
    { apply B2. rewrite H0. apply elem_of_app. right. left. }
    apply bounded_after; [by eapply bounded_wake|by eapply (outcome_options false), submit_wake_outcome| |done].
    intros w' Hw'. apply B2. rewrite H0. apply elem_of_app in Hw' as [?|?]; apply elem_of_app; [by left|right; by right].
  - unfold worker_pop in H1. destruct (queued_buffers_ (mgr s)) as [|j q]; [done|].
    destruct (buffers_ (mgr s) !! j) as [c|] eqn:Hj; [|done]. injection H1 as <- <-.
    apply (bounded_with s); [done| |done].
    eapply (bounded_same (set_buffers (mgr s) (<[j := set_state kFlushing c]> (buffers_ (mgr s))) q (active_buffer_ (mgr s))));
      [|done..].
    apply bounded_update; [done|exact (bd_buffers _ B1 j c Hj)|done|]. intros x Hx.
    destruct (decide (x = j)) as [->|]; [left|by right]. split; [done|]. exact (bd_active _ B1 j c Hx Hj).
  - apply (bounded_with s); [done|by eapply bounded_same|done].
  - apply (bounded_with s); [done|by eapply bounded_same|done].
  - unfold pipeline in R. rewrite H0 in R. destruct (worker_finish_spec _ i e R).
    apply (bounded_with s); [done|by apply bounded_finish|done].
  - unfold flush_request in H0. destruct (fatal_error_ _); [done|]. injection H0 as <-.
    apply (bounded_with s); [done|by apply bounded_queue|apply QueueActiveBuffer_rest].
  - unfold flush_return in H1. destruct (fatal_error_ _); [done|]. injection H1 as <-.
    apply (bounded_with s); [done|destruct (active_buffer_ _); [done|by apply bounded_activate]|].
    destruct (active_buffer_ _); [done|apply activate_free_rest].
  - apply (bounded_with s); [done|by eapply bounded_same|done].
Qed.

Lemma bounded_run ok tr s s' : inv s -> bounded_sys s -> run update_size ok tr s s' -> bounded_sys s'.
Proof. intros I B H. induction H; [done|]. eapply bounded_step; [|by apply IHrun|done]. by eapply inv_run. Qed.
End Bounds.

Lemma bounded_initial o cb c m :
  0 <= buffer_capacity_records o -> 0 <= buffer_capacity_bytes o < 2 ^ 64 ->
  new_manager o cb c = Ok m -> bounded_sys (initial m).
Proof.
  unfold new_manager. intros H1 H2. destruct (_ || _) eqn:E; [done|]. intros [= <-].
  rewrite !orb_false_iff, !Z.eqb_neq in E. destruct E as ((((_ & Hc) & Hr) & Hb) & _).
  assert (options_ok o) as Ho by (split; lia).
  split; [|intros w Hw; by apply elem_of_nil in Hw]. cbn.
  assert (forall i b, <[0%nat := mkBuffer kActive [] 0]> (replicate (Z.to_nat (buffer_count o)) empty_buffer) !! i = Some b ->
            records b = [] /\ buf_bytes b = 0) as He.
  { intros i b [(-> & -> & _)|[_ [-> _]%lookup_replicate]]%lookup_insert_cases; done. }
  split; cbn; [done| | |].
  - intros i b [Hx Hy]%He. unfold below_twice. rewrite Hx, Hy. change (zlen []) with 0. lia.
  - intros a b _ [Hx Hy]%He. by apply empty_not_full.
  - intros i b Hi _. by apply He in Hi.
Qed.
