(* ===== verification/UpdateManagerTheorems.v ===== *)
(** * Theorems on the property-update manager

    They hold for every interleaving of submitters, the flush worker, flushers
    and [StopWorker].  [exec] is an executable scheduler of the same steps, for
    the concrete runs below. *)

From S2P Require Import Prelude.
From S2P Require Import Types.
From S2P Require Import UpdateManager.
From S2P Require Import UpdateManagerFacts.
From S2P Require Import UpdateManagerInv.
From S2P Require Import UpdateManagerProgress.
From S2P Require Import DeltaFile.
From S2P Require Import DeltaStoreTheorems.

(** ** An executable scheduler *)
Inductive command :=
| CSubmit (us : list BufferedPropertyUpdate)
| CWake (k : nat)                       (** the [k]th waiter *)
| CWorker (fail : option UpdateError)   (** the worker's next step *)
| CFlushRequest
| CFlushReturn
| CStop.

Section Exec.
Context (update_size : Z).

Definition exec_worker (fail : option UpdateError) (s : Sys) : option (action * Sys) :=
  match worker s with
  | Waiting =>
      if worker_ends (mgr s) then Some (AEnd, with_worker s (mgr s) Ended)
      else
        '(m, i) ← worker_pop (mgr s);
        b ← buffers_ m !! i;
        Some (APop, with_worker s m (Publishing i (group_updates (records b))))
  | Ended => None
  | Publishing i (g :: gs) =>
      match fail with
      | Some e => Some (APublishFail, with_worker s (mgr s) (Finishing i (Some e)))
      | None => Some (APublish,
          mkSys (count_batch (mgr s)) (published s ++ [g]) (waiting s) (Publishing i gs) (acked s))
      end
  | Publishing i [] =>
      b ← buffers_ (mgr s) !! i;
      Some (APublished, with_worker s (mgr s) (Retiring i (records b)))
  | Retiring i (u :: us) =>
      Some (ARetire, with_worker s (set_pending (mgr s) (RetirePending (pending_ (mgr s)) u)) (Retiring i us))
  | Retiring i [] => Some (ARetired, with_worker s (mgr s) (Finishing i None))
  | Finishing i e => Some (AFinish, with_worker s (worker_finish (mgr s) i e) Waiting)
  end.

Definition exec1 (c : command) (s : Sys) : option (action * Sys) :=
  match c with
  | CSubmit us =>
      match submit_checks update_size (options_ (mgr s)) us with
      | Ok n => Some (ASubmit, after_submit s (waiting s) us n (submit_first (mgr s) us n))
      | Err _ => None
      end
  | CWake k =>
      w ← waiting s !! k;
      Some (AWake, after_submit s (take k (waiting s) ++ drop (S k) (waiting s)) (w_updates w) (w_bytes w)
                     (submit_wake (w_second w) (mgr s) (w_updates w) (w_bytes w)))
  | CWorker fail => exec_worker fail s
  | CFlushRequest =>
      match flush_request (mgr s) with Ok m => Some (AFlushRequest, with_mgr s m) | Err _ => None end
  | CFlushReturn =>
      if flush_ready (mgr s) then
        match flush_return (mgr s) with Ok m => Some (AFlushReturn, with_mgr s m) | Err _ => None end
      else None
  | CStop => Some (AStop, with_mgr s (StopWorker (mgr s)))
  end.

Fixpoint exec (cs : list command) (tr : list action) (s : Sys) : option (list action * Sys) :=
  match cs with
  | [] => Some (tr, s)
  | c :: cs => '(a, s) ← exec1 c s; exec cs (tr ++ [a]) s
  end.

Lemma exec1_step c s a s' : exec1 c s = Some (a, s') -> step update_size a s s'.
Proof.
  destruct c as [us|k|fail| | |]; cbn [exec1].
  - destruct (submit_checks _ _ _) as [n|] eqn:E; [|done]. intros [= <- <-]. by apply step_submit.
  - destruct (waiting s !! k) as [w|] eqn:E; [|done]. cbn. intros [= <- <-].
    apply step_wake. by rewrite take_drop_middle.
  - unfold exec_worker. destruct (worker s) as [|i [|g gs]|i [|u us]|i e|] eqn:E.
    + destruct (worker_ends _) eqn:Ee; [intros [= <- <-]; by apply step_end|]. destruct (worker_pop _) as [[m i]|] eqn:Ep; [|done]. cbn. destruct (buffers_ m !! i) as [b|] eqn:Eb; [|done].
      cbn. intros [= <- <-]. by eapply step_pop.
    + destruct (buffers_ (mgr s) !! i) eqn:Eb; [|done]. cbn. intros [= <- <-]. by apply step_published.
    + destruct fail; intros [= <- <-]; [by eapply step_publish_fail|by apply step_publish].
    + intros [= <- <-]. by apply step_retired.
    + intros [= <- <-]. by apply step_retire.
    + intros [= <- <-]. by apply step_finish.
    + done.
  - destruct (flush_request _) eqn:E; [|done]. intros [= <- <-]. by apply step_flush_request.
  - destruct (flush_ready _) eqn:Er; [|done]. destruct (flush_return _) eqn:E; [|done].
    intros [= <- <-]. by apply step_flush_return.
  - intros [= <- <-]. apply step_stop.
Qed.

Lemma exec_extends cs tr s tr' s' a : exec cs tr s = Some (tr', s') -> a ∈ tr -> a ∈ tr'.
Proof.
  revert tr s. induction cs as [|c cs IH]; intros tr s; cbn [exec]; [by intros [= <- <-]|].
  destruct (exec1 c s) as [[b s1]|]; [|done]. cbn. intros H Ha. eapply IH; [done|]. apply elem_of_app. by left.
Qed.

Lemma exec_run (ok : action -> Sys -> Prop) cs tr s0 s tr' s' :
  run update_size ok tr s0 s -> exec cs tr s = Some (tr', s') -> (forall a t, a ∈ tr' -> ok a t) ->
  run update_size ok tr' s0 s'.
Proof.
  revert tr s. induction cs as [|c cs IH]; intros tr s Hr; cbn [exec]; [by intros [= <- <-]|].
  destruct (exec1 c s) as [[a s1]|] eqn:E; [|done]. cbn. intros H Hok. eapply IH; [|done|done].
  eapply run_snoc; [done| |by eapply exec1_step]. apply Hok. eapply exec_extends; [done|]. apply elem_of_app. right. left.
Qed.
End Exec.

(** ** Concrete runs: two buffers of two records *)
Definition run_options : PropertyUpdateOptions :=
  {| enabled := true; buffer_capacity_records := 2; buffer_capacity_bytes := 1000; buffer_count := 2;
     delta_chain_merge_threshold := 2; durability := kNone |}.

Definition run_manager : Manager :=
  match new_manager run_options true 1 with
  | Ok m => m
  | Err _ => mkManager run_options 1 ∅ [] [] None 0 false None (mkMStats 0 0 0 0 0 0)
  end.

Definition sample_update (dst_ : Z) : BufferedPropertyUpdate :=
  mkUpdate (mkTarget kEdge 0 1 1 0) (mkRecord 1 dst_ 7 0 true 0 (map byte_of [dst_])) true.

Definition full_flush (records : nat) : list command := replicate (records + 5) (CWorker None).

(** One update, flushed. *)
Definition short_run : list command := [CSubmit [sample_update 1]; CFlushRequest] ++ full_flush 1.

Definition run_from (s : Sys) (cs : list command) : list action * Sys := default ([], s) (exec 48 cs [] s).
Abbreviation run_result cs := (run_from (initial run_manager) cs).

Lemma run_manager_new : new_manager run_options true 1 = Ok run_manager.
Proof. reflexivity. Qed.

(** A run computed by [exec]. *)
Lemma run_of (ok : action -> Sys -> Prop) s cs :
  exec 48 cs [] s = Some (run_from s cs) -> (forall a t, a ∈ (run_from s cs).1 -> ok a t) ->
  run 48 ok (run_from s cs).1 s (run_from s cs).2.
Proof. intros H Hok. eapply exec_run; [constructor|rewrite H; by destruct (run_from s cs)|done]. Qed.

(** The batches of one target, in the order in which they were published. *)
Definition batches_of (pub : list Group) (t : PropertyDeltaTarget) : list (list PropertyDeltaRecord) :=
  map (fun g => g.2.1) (filter (fun g => g.1 = t) pub).

Lemma commit_ordered_snoc bs b :
  commit_ordered bs ->
  (forall b' r r', b' ∈ bs -> r ∈ b' -> r' ∈ b -> commit_sequence r <= commit_sequence r') ->
  commit_ordered (bs ++ [b]).
Proof.
  intros Ho Hb i j b1 b2 r r' Hij Hi Hj Hr Hr' Hk. apply lookup_app_Some in Hj as [Hj|[Hle Hj]].
  - rewrite lookup_app_l in Hi by (apply lookup_lt_Some in Hj; lia). by eapply (Ho i j b1 b2).
  - apply list_lookup_singleton_Some in Hj as [Hz ->]. rewrite lookup_app_l in Hi by lia.
    eapply Hb; [by eapply list_elem_of_lookup_2|done..].
Qed.

Lemma target_ordered_init pub g : target_ordered (pub ++ [g]) -> target_ordered pub.
Proof.
  intros H i j g1 g2 r r' Hij Hi Hj. apply (H i j); [done|by apply lookup_app_l_Some..].
Qed.

Lemma target_ordered_last pub g g' r r' :
  target_ordered (pub ++ [g]) -> g' ∈ pub -> g'.1 = g.1 -> r ∈ g'.2.1 -> r' ∈ g.2.1 ->
  commit_sequence r <= commit_sequence r'.
Proof.
  intros H [i Hi]%list_elem_of_lookup. apply (H i (length pub)).
  - by eapply lookup_lt_Some.
  - by apply lookup_app_l_Some.
  - rewrite lookup_app_r, Nat.sub_diag by done. done.
Qed.

Lemma target_ordered_batches pub t : target_ordered pub -> commit_ordered (batches_of pub t).
Proof.
  unfold batches_of. induction pub as [|g pub IH] using rev_ind; intros H.
  { intros i j b b' r r' _ Hi. done. }
  specialize (IH (target_ordered_init _ _ H)). rewrite filter_app, filter_cons, filter_nil.
  case_decide as Ht; [|by rewrite app_nil_r]. rewrite map_app. apply commit_ordered_snoc; [done|].
  intros b' r r' Hb Hr Hr'. apply list_elem_of_fmap in Hb as (g' & -> & Hg). apply list_elem_of_filter in Hg as [Hg' Hg].
  eapply target_ordered_last; [done|done|congruence|done..].
Qed.

Section Claims.
Context (update_size : Z) (options : PropertyUpdateOptions) (has_callback : bool) (first_commit : Z) (m : Manager).
Hypothesis created : new_manager options has_callback first_commit = Ok m.

(** C11: An acknowledged update never becomes invisible.  In every state any
    interleaving can reach, including between two retirements of a flush, after
    a failed flush and after a buffer has been stranded, each acknowledged
    update is covered by an acknowledged update of its key that is at least as
    new and has been published, or is the pending value of the key. *)
Theorem update_visible tr s u :
  run update_size anything tr (initial m) s -> u ∈ acked s -> covered s u.
Proof. intros H Hu. eapply inv_visible; [|done]. eapply inv_run; [by eapply inv_initial|done]. Qed.

(** C19: Flushes reach the delta store in commit order.  In every reachable
    state, the batches handed to the flush callback for one target are ordered:
    no record of a later batch is older than a record of the same key in an
    earlier one.  This is the assumption under which the chain of delta files
    answers with the newest value and can be merged. *)
Theorem flush_commit_order tr s t :
  run update_size anything tr (initial m) s -> commit_ordered (batches_of (published s) t).
Proof.
  intros H. apply target_ordered_batches, inv_order. eapply inv_run; [by eapply inv_initial|done].
Qed.

(** C18: A successful [FlushAndWait] makes everything acknowledged before it
    durable: when the flusher finds the manager idle without an error, each
    update acknowledged before its request has been handed to a callback that
    returned true, whatever the other threads did meanwhile, in every run in
    which no submitter woke up after another thread had installed an active
    buffer. *)
Theorem flush_and_wait_durable tr1 s1 m2 tr2 s3 u :
  run update_size no_stranding tr1 (initial m) s1 -> flush_request (mgr s1) = Ok m2 ->
  run update_size no_stranding tr2 (with_mgr s1 m2) s3 ->
  flush_ready (mgr s3) = true -> (exists m4, flush_return (mgr s3) = Ok m4) ->
  u ∈ acked s1 -> is_published (published s3) u.
Proof.
  intros H1 Hreq H2 Hready [m4 Hret] Hu. pose proof (inv_initial _ _ _ _ created) as I0.
  pose proof (inv_run _ _ _ _ _ I0 H1) as I1. assert (kept (initial m)) as K0 by (intros v Hv; by apply elem_of_nil in Hv).
  assert (step update_size AFlushRequest s1 (with_mgr s1 m2)) as Hs by (by apply step_flush_request).
  destruct (kept_step update_size AFlushRequest s1 (with_mgr s1 m2) I1) as [_ K2];
    [exact (kept_run _ _ _ _ I0 K0 H1)|done|done|].
  pose proof (inv_step _ _ _ _ I1 Hs) as I2. pose proof (fresh_request s1 m2 I1 Hreq) as F2.
  unfold flush_ready in Hready. unfold flush_return in Hret.
  destruct (fatal_error_ (mgr s3)) eqn:Ef; [done|].
  apply (flush_complete s1 s3); try done; [exact (inv_run _ _ _ _ _ I2 H2)|exact (kept_run _ _ _ _ I2 K2 H2)|
    exact (fresh_run _ _ _ _ _ _ I2 F2 H2)|].
  eapply acked_run in H2. by apply H2.
Qed.

(** C30: The flush worker cannot deadlock and ends only when its queue is empty.
    From every reachable state in which its thread runs, the worker alone takes
    at most [work s] steps.  Wherever it stops taking steps, whether callbacks
    succeeded or failed, nothing is queued or in flight, and its thread has ended
    exactly if [StopWorker] was called.  With callbacks that succeed it reaches a
    state with nothing queued and nothing in flight, in which a flusher returns
    and a blocked submitter finds an active buffer, unless the manager has
    failed. *)
Theorem worker_drains tr s :
  run update_size anything tr (initial m) s -> worker s <> Ended ->
  (forall tr' s', run update_size worker_only tr' s s' -> (length tr' <= work s)%nat) /\
  (forall tr' s', run update_size worker_only tr' s s' -> worker_stuck update_size s' ->
     flush_idle (mgr s') = true /\ (worker s' = Ended <-> stop_ (mgr s') = true)) /\
  (exists tr' s', run update_size worker_succeeds tr' s s' /\ flush_idle (mgr s') = true /\
     (active_buffer_ (mgr s') <> None \/ is_Some (fatal_error_ (mgr s')))).
Proof.
  intros H He. pose proof (inv_run _ _ _ _ _ (inv_initial _ _ _ _ created) H) as I. split_and!.
  - intros tr' s' Hr. pose proof (worker_run_bounded _ _ _ _ I Hr). lia.
  - intros tr' s' Hr Hst. pose proof (inv_run _ _ _ _ _ I Hr) as I'. pose proof (inv_running _ I') as Hrun.
    assert (worker s' = Ended \/ worker s' <> Ended) as [Hw|Hw] by (destruct (worker s'); auto).
    + destruct (worker_run_ends _ _ _ _ He Hr Hw) as [Hq Hs]. rewrite Hw in Hrun |- *. unfold flush_idle. by rewrite Hq, Hrun.
    + destruct (worker_stuck_waits _ _ I' Hw Hst) as (Hw' & Hq & Hs). rewrite Hw' in Hrun |- *. unfold flush_idle. by rewrite Hq, Hrun, Hs.
  - destruct (worker_run_idle update_size s I He) as (tr' & s' & Hr & Hw & Hq). pose proof (inv_run _ _ _ _ _ I Hr) as I'.
    exists tr', s'. split; [done|]. pose proof (inv_running _ I') as Hrun. rewrite Hw in Hrun. split.
    + unfold flush_idle. by rewrite Hq, Hrun.
    + destruct (active_buffer_ (mgr s')) eqn:Ea; [by left|right].
      destruct (inv_blocked _ I' Ea) as [?|[Hb|?]]; [done| |done]. by rewrite Hw in Hb.
Qed.

(** C40: No buffer ever holds twice its configured capacity, in records or in
    estimated bytes, whatever the interleaving; so with a byte capacity of at
    most 2^63 the byte counts never wrap. *)
Theorem buffer_capacity_bound tr s i b :
  0 < update_size -> 0 <= buffer_capacity_records options -> 0 <= buffer_capacity_bytes options < 2 ^ 64 ->
  run update_size anything tr (initial m) s -> buffers_ (mgr s) !! i = Some b ->
  zlen (records b) < 2 * buffer_capacity_records (options_ (mgr s)) /\
  buf_bytes b < 2 * buffer_capacity_bytes (options_ (mgr s)).
Proof.
  intros Hu Hr Hb H Hi. pose proof (inv_initial _ _ _ _ created) as I0.
  destruct (bounded_run update_size Hu _ _ _ _ I0 (bounded_initial _ _ _ _ Hr Hb created) H) as [B _].
  exact (bd_buffers _ B i b Hi).
Qed.
End Claims.

(** ** The theorems on concrete runs *)
Lemma update_visible_witness :
  exists u, u ∈ acked (run_result (take 6 short_run)).2 /\ covered (run_result (take 6 short_run)).2 u.
Proof.
  exists (stamp 1 (sample_update 1)). assert (stamp 1 (sample_update 1) ∈ acked (run_result (take 6 short_run)).2) as H
    by (vm_compute; left).
  split; [exact H|]. refine (update_visible 48 run_options true 1 run_manager run_manager_new _ _ _ _ H).
  apply (run_of anything); [vm_compute; reflexivity|done].
Defined.

Lemma flush_commit_order_witness :
  commit_ordered (batches_of (published (run_result short_run).2) (mkTarget kEdge 0 1 1 0)) /\
  batches_of (published (run_result short_run).2) (mkTarget kEdge 0 1 1 0) <> [].
Proof.
  split; [|by vm_compute].
  refine (flush_commit_order 48 run_options true 1 run_manager run_manager_new _ _ _ _).
  apply (run_of anything); [vm_compute; reflexivity|done].
Defined.

Lemma no_wake_no_stranding tr : forallb (fun a => negb match a with AWake => true | _ => false end) tr = true ->
  forall a t, a ∈ tr -> no_stranding a t.
Proof. intros H a t Ha ->. rewrite forallb_forall in H. apply list_elem_of_In, H in Ha. done. Qed.

Definition submitted : Sys := (run_result [CSubmit [sample_update 1]]).2.
Definition requested : Sys := (run_result [CSubmit [sample_update 1]; CFlushRequest]).2.

Lemma flush_and_wait_durable_witness :
  is_published (published (run_from requested (full_flush 1)).2) (stamp 1 (sample_update 1)).
Proof.
  assert (with_mgr submitted (mgr requested) = requested) as E by (vm_compute; reflexivity).
  refine (flush_and_wait_durable 48 run_options true 1 run_manager run_manager_new _ submitted (mgr requested) _ _ _
    _ _ _ _ _ _).
  - apply (run_of no_stranding); [vm_compute; reflexivity|]. apply no_wake_no_stranding. vm_compute. reflexivity.
  - vm_compute. reflexivity.
  - rewrite E. apply (run_of no_stranding); [vm_compute; reflexivity|]. apply no_wake_no_stranding. vm_compute. reflexivity.
  - vm_compute. reflexivity.
  - eexists. vm_compute. reflexivity.
  - vm_compute. left.
Defined.

(** A worker stopped with a buffer in its queue: it flushes it, then ends. *)
Definition stopped : Sys := (run_result [CSubmit [sample_update 1]; CFlushRequest; CStop]).2.
Definition drained : Sys := (run_from stopped (full_flush 1 ++ [CWorker None])).2.

Lemma drained_stuck : worker_stuck 48 drained.
Proof. intros a s' H. inversion H; subst; try done; by vm_compute in H0. Qed.

Lemma worker_drains_witness :
  worker stopped <> Ended /\ flush_idle (mgr drained) = true /\ worker drained = Ended /\
  exists tr' s', run 48 worker_succeeds tr' stopped s' /\ flush_idle (mgr s') = true.
Proof.
  assert (stop_ (mgr drained) = true) as Hstop by (vm_compute; reflexivity). assert (worker stopped <> Ended) as He by (vm_compute; congruence).
  destruct (worker_drains 48 run_options true 1 run_manager run_manager_new
    (run_result [CSubmit [sample_update 1]; CFlushRequest; CStop]).1 stopped) as (_ & Hd & (tr & s' & H & Hi & _)).
  - apply (run_of anything (initial run_manager) [CSubmit [sample_update 1]; CFlushRequest; CStop]); [vm_compute; reflexivity|done].
  - exact He.
  - destruct (Hd (run_from stopped (full_flush 1 ++ [CWorker None])).1 drained) as [Hf Hw].
    + apply (run_of worker_only); [vm_compute; reflexivity|]. intros a t Ha.
      assert (Forall (fun a => worker_action a = true) (run_from stopped (full_flush 1 ++ [CWorker None])).1) as Hall by eval_prop.
      rewrite Forall_forall in Hall. exact (Hall a Ha).
    + exact drained_stuck.
    + split; [exact He|]. split; [exact Hf|]. split; [exact (proj2 Hw Hstop)|]. exists tr, s'. split; [exact H|exact Hi].
Defined.

Lemma buffer_capacity_bound_witness :
  exists b, buffers_ (mgr submitted) !! 0%nat = Some b /\ zlen (records b) < 2 * 2 /\ buf_bytes b < 2 * 1000.
Proof.
  eexists. split; [vm_compute; reflexivity|].
  refine (buffer_capacity_bound 48 run_options true 1 run_manager run_manager_new _ submitted 0%nat _ _ _ _ _ _).
  - lia.
  - vm_compute. done.
  - vm_compute. done.
  - apply (run_of anything (initial run_manager) [CSubmit [sample_update 1]]); [vm_compute; reflexivity|done].
  - vm_compute. reflexivity.
Defined.

(** ** Two defects of [EnsureActiveBuffer] *)

#[export] Instance in_group_dec u g : Decision (in_group u g).
Proof. unfold in_group. apply _. Defined.

Lemma not_published pub u : Forall (fun g => ~ in_group u g) pub -> ~ is_published pub u.
Proof. intros H (g & Hg & Hu). rewrite Forall_forall in H. exact (H g Hg Hu). Qed.

(** Both buffers fill up and a submitter blocks; the worker frees buffer 0,
    which becomes active and takes update 6; the worker frees buffer 1; only
    then does the blocked submitter wake up, and takes buffer 1. *)
Definition stranding_run : list command :=
  [CSubmit [sample_update 1; sample_update 2]; CSubmit [sample_update 3; sample_update 4]; CSubmit [sample_update 5]]
  ++ full_flush 2 ++ [CSubmit [sample_update 6]] ++ full_flush 2 ++ [CWake 0].

(** The wake-up loop of [EnsureActiveBuffer] installs a free buffer without
    testing whether another thread has installed one: the displaced buffer is
    never queued again, and a later [FlushAndWait] reports success although an
    acknowledged update was not published. *)
Theorem wake_strands_buffer :
  exists tr s u, run 48 anything tr (initial run_manager) s /\ last tr = Some AFlushReturn /\
    fatal_error_ (mgr s) = None /\ flush_idle (mgr s) = true /\
    u ∈ acked s /\ ~ is_published (published s) u /\ u ∉ flow (mgr s) (pipeline (mgr s) (worker s)).
Proof.
  set (cs := stranding_run ++ [CFlushRequest] ++ full_flush 1 ++ [CFlushReturn]).
  exists (run_result cs).1, (run_result cs).2, (stamp 3 (sample_update 6)). split_and!.
  - apply (run_of anything); [vm_compute; reflexivity|done].
  - vm_compute. reflexivity.
  - vm_compute. reflexivity.
  - vm_compute. reflexivity.
  - eval_prop.
  - apply not_published. eval_prop.
  - eval_prop.
Qed.

(** The second [EnsureActiveBuffer] of [SubmitBatch] may wait, and the space of
    the buffer it returns is not tested again: a buffer exceeds its configured
    capacity. *)
Theorem second_wait_overfills :
  exists tr s i b, run 48 anything tr (initial run_manager) s /\ buffers_ (mgr s) !! i = Some b /\
    buffer_capacity_records (options_ (mgr s)) < zlen (records b).
Proof.
  set (cs := [CSubmit [sample_update 1; sample_update 2]; CSubmit [sample_update 3]; CSubmit [sample_update 4; sample_update 5]]
    ++ full_flush 2 ++ [CSubmit [sample_update 6]; CWake 0]).
  exists (run_result cs).1, (run_result cs).2, 0%nat. eexists. split_and!.
  - apply (run_of anything); [vm_compute; reflexivity|done].
  - vm_compute. reflexivity.
  - vm_compute. reflexivity.
Qed.
