(* ===== verification/Versions.v ===== *)
(** * Versions and super versions

    core/version_set.h, src/version_set.cpp, core/superversion.h,
    src/superversion.cpp, the reference counts of [SSTableCache] and
    [MemTable], and the critical sections that publish a new view: the rotation
    of the MemTable (src/lsmstore.cpp), the end of a flush (src/MemTable.cpp)
    and the end of a compaction (src/compaction.cpp).

    Objects are named by numbers; an object that has been freed is absent from
    its map.  An operation returns [None] when it uses a freed object or when
    an assertion fails.  Dropping a reference is a step of its own: the
    operations put the references they give up into [drops], and [run_drop]
    executes one, in any order and interleaved with everything else. *)

From S2P Require Import Prelude.

Record Version := mkVersion {
  refs_ : Z;
  l0_filemetas_ : list Z;             (** the files, by [header.timeStamp] *)
}.

(** A [VersionAndMemTable] with the use count of its [shared_ptr]. *)
Record View := mkView {
  use_count : Z;
  menTables : list nat;
  view_version : option nat;          (** its [current_] *)
}.

Inductive Drop :=
| DView (w : nat)
| DVersion (v : nat)
| DFile (f : Z)
| DTable (t : nat)
| DUnlink (v : nat).                  (** [DeleteVersion] and [delete this] *)
#[export] Instance Drop_eq_dec : EqDecision Drop.
Proof. solve_decision. Defined.

Record Links := mkLinks { next_ : nat; prev_ : nat }.

Record Store := mkStore {
  files : gmap Z Z;                   (** live [SSTableCache]s and their [refs] *)
  versions : gmap nat Version;
  links : gmap nat Links;             (** the list of versions; 0 is [dummy_versions_] *)
  current_ : option nat;
  views : gmap nat View;
  sv_ : option nat;                   (** [sv_.version_memtable] *)
  tables : gmap nat Z;                (** the [refs] of the MemTables *)
  readers : list nat;                 (** the views held by readers *)
  drops : list Drop;
}.

Definition set_files s x := mkStore x (versions s) (links s) (current_ s) (views s) (sv_ s) (tables s) (readers s) (drops s).
Definition set_versions s x := mkStore (files s) x (links s) (current_ s) (views s) (sv_ s) (tables s) (readers s) (drops s).
Definition set_links s x := mkStore (files s) (versions s) x (current_ s) (views s) (sv_ s) (tables s) (readers s) (drops s).
Definition set_current s x := mkStore (files s) (versions s) (links s) x (views s) (sv_ s) (tables s) (readers s) (drops s).
Definition set_views s x := mkStore (files s) (versions s) (links s) (current_ s) x (sv_ s) (tables s) (readers s) (drops s).
Definition set_sv s x := mkStore (files s) (versions s) (links s) (current_ s) (views s) x (tables s) (readers s) (drops s).
Definition set_tables s x := mkStore (files s) (versions s) (links s) (current_ s) (views s) (sv_ s) x (readers s) (drops s).
Definition set_readers s x := mkStore (files s) (versions s) (links s) (current_ s) (views s) (sv_ s) (tables s) x (drops s).
Definition set_drops s x := mkStore (files s) (versions s) (links s) (current_ s) (views s) (sv_ s) (tables s) (readers s) x.
Definition push (s : Store) (ds : list Drop) : Store := set_drops s (drops s ++ ds).

(** ** Reference counts *)
Definition SSTableCache_Ref (f : Z) (s : Store) : option Store :=
  n ← files s !! f; Some (set_files s (<[f := n + 1]> (files s))).

(** At zero the topology and property files are removed and the object freed. *)
Definition SSTableCache_Unref (f : Z) (s : Store) : option Store :=
  n ← files s !! f;
  if n <? 1 then None
  else Some (set_files s (if n =? 1 then delete f (files s) else <[f := n - 1]> (files s))).

Definition Version_Ref (v : nat) (s : Store) : option Store :=
  x ← versions s !! v;
  Some (set_versions s (<[v := mkVersion (refs_ x + 1) (l0_filemetas_ x)]> (versions s))).

Definition Version_Unref (v : nat) (s : Store) : option Store :=
  x ← versions s !! v;
  if (v =? 0)%nat || (refs_ x <? 1) then None
  else if 1 <? refs_ x then
    Some (set_versions s (<[v := mkVersion (refs_ x - 1) (l0_filemetas_ x)]> (versions s)))
  else Some (push (set_versions s (delete v (versions s))) (map DFile (l0_filemetas_ x) ++ [DUnlink v])).

Definition MemTable_Ref (t : nat) (s : Store) : option Store :=
  n ← tables s !! t; Some (set_tables s (<[t := n + 1]> (tables s))).

Definition MemTable_Unref (t : nat) (s : Store) : option Store :=
  n ← tables s !! t;
  if n <? 0 then None else Some (set_tables s (<[t := n - 1]> (tables s))).

Fixpoint each {A} (f : A -> Store -> option Store) (l : list A) (s : Store) : option Store :=
  match l with
  | [] => Some s
  | x :: l => s ← f x s; each f l s
  end.

(** ** The list of versions *)
Definition set_next (l : gmap nat Links) (v n : nat) : option (gmap nat Links) :=
  x ← l !! v; Some (<[v := mkLinks n (prev_ x)]> l).
Definition set_prev (l : gmap nat Links) (v p : nat) : option (gmap nat Links) :=
  x ← l !! v; Some (<[v := mkLinks (next_ x) p]> l).

(** [new Version]: a node linked to itself. *)
Definition new_node (v : nat) (l : gmap nat Links) : gmap nat Links := <[v := mkLinks v v]> l.

Definition link_front (v : nat) (l : gmap nat Links) : option (gmap nat Links) :=
  d ← l !! 0%nat;
  l ← set_next l v (next_ d);
  l ← set_prev l (next_ d) v;
  l ← set_next l 0%nat v;
  set_prev l v 0%nat.

Definition DeleteVersion (v : nat) (l : gmap nat Links) : option (gmap nat Links) :=
  x ← l !! v;
  l ← set_next l (prev_ x) (next_ x);
  x ← l !! v;
  set_prev l (next_ x) (prev_ x).

Definition AppendVersion (v : nat) (s : Store) : option Store :=
  x ← versions s !! v;
  if negb (refs_ x =? 0) || bool_decide (current_ s = Some v) then None
  else
    s ← match current_ s with Some c => Version_Unref c s | None => Some s end;
    s ← Version_Ref v (set_current s (Some v));
    l ← link_front v (links s);
    Some (set_links s l).

(** ** [LogAndApply] *)
Record VersionEdit := mkEdit { new_files_ : list Z; deleted_files_ : gset Z }.

Definition kept_files (edit : VersionEdit) (l : list Z) : list Z := filter (fun f => f ∉ deleted_files_ edit) l.

Definition insert_desc (f : Z) : list Z -> list Z :=
  fix go l := match l with [] => [f] | g :: l' => if g <=? f then f :: l else g :: go l' end.
(** [std::sort] by [cacheTimeCompare]: newest file first. *)
Definition sort_desc (l : list Z) : list Z := foldr insert_desc [] l.

Definition LogAndApply (edit : VersionEdit) (v : nat) (s : Store) : option Store :=
  c ← current_ s;
  cur ← versions s !! c;
  x ← versions s !! v;
  s ← each SSTableCache_Ref (kept_files edit (l0_filemetas_ cur)) s;
  s ← each SSTableCache_Ref (kept_files edit (new_files_ edit)) s;
  let l := l0_filemetas_ x ++ kept_files edit (l0_filemetas_ cur) ++ kept_files edit (new_files_ edit) in
  AppendVersion v (set_versions s (<[v := mkVersion (refs_ x) (sort_desc l)]> (versions s))).

(** [new Version(vset)] at a fresh address. *)
Definition new_version (v : nat) (s : Store) : Store :=
  set_links (set_versions s (<[v := mkVersion 0 []]> (versions s))) (new_node v (links s)).

(** ** Views *)
Definition new_view (w : nat) (s : Store) : Store := set_views s (<[w := mkView 1 [] None]> (views s)).

Definition set_vs (w v : nat) (s : Store) : option Store :=
  s ← Version_Ref v s;
  x ← views s !! w;
  Some (set_views s (<[w := mkView (use_count x) (menTables x) (Some v)]> (views s))).

Definition insert_tb (w t : nat) (s : Store) : option Store :=
  s ← MemTable_Ref t s;
  x ← views s !! w;
  Some (set_views s (<[w := mkView (use_count x) (menTables x ++ [t]) (view_version x)]> (views s))).

Definition batch_insert_tb (w : nat) (ts : list nat) (s : Store) : option Store := each (insert_tb w) ts s.

Fixpoint vectorDel (ts : list nat) (t : nat) : list nat :=
  match ts with
  | [] => []
  | x :: ts => if (x =? t)%nat then ts else x :: vectorDel ts t
  end.

Definition remove_tb (w t : nat) (s : Store) : option Store :=
  x ← views s !! w;
  MemTable_Unref t (set_views s (<[w := mkView (use_count x) (vectorDel (menTables x) t) (view_version x)]> (views s))).

(** [sv_.version_memtable = new_vms]: the reference to the previous view is given up. *)
Definition publish_view (w : nat) (s : Store) : Store :=
  push (set_sv s (Some w)) (match sv_ s with Some old => [DView old] | None => [] end).

(** A [shared_ptr] to a view goes away; at zero the destructor runs. *)
Definition release_view (w : nat) (s : Store) : option Store :=
  x ← views s !! w;
  if use_count x <? 1 then None
  else if 1 <? use_count x then
    Some (set_views s (<[w := mkView (use_count x - 1) (menTables x) (view_version x)]> (views s)))
  else
    Some (push (set_views s (delete w (views s)))
            (match view_version x with Some v => [DVersion v] | None => [] end ++ map DTable (menTables x))).

Definition free_version (v : nat) (s : Store) : option Store :=
  l ← DeleteVersion v (links s);
  Some (set_links s (delete v l)).

Definition run_drop (d : Drop) (s : Store) : option Store :=
  match d with
  | DView w => release_view w s
  | DVersion v => Version_Unref v s
  | DFile f => SSTableCache_Unref f s
  | DTable t => MemTable_Unref t s
  | DUnlink v => free_version v s
  end.

(** ** The critical sections *)

(** [VersionSet::VersionSet]. *)
Definition new_versionset (v : nat) : option Store :=
  AppendVersion v (new_version v (mkStore ∅ ∅ {[0%nat := mkLinks 0 0]} None ∅ None ∅ [] [])).

(** The first view of [LSMStore::LSMStore], over the first MemTable. *)
Definition init_view (w t : nat) (s : Store) : option Store :=
  c ← current_ s;
  s ← set_vs w c (new_view w s);
  s ← insert_tb w t s;
  Some (publish_view w s).

(** The rotation of [put_edge]: the new MemTable joins the view. *)
Definition rotate (w t : nat) (s : Store) : option Store :=
  o ← sv_ s;
  old ← views s !! o;
  s ← batch_insert_tb w (menTables old) (new_view w s);
  v ← view_version old;
  s ← set_vs w v s;
  s ← insert_tb w t s;
  Some (publish_view w s).

(** The end of a flush of table [t] into file [f]. *)
Definition publish_flush (f : Z) (t v w : nat) (s : Store) : option Store :=
  s ← LogAndApply (mkEdit [f] ∅) v (new_version v s);
  o ← sv_ s;
  old ← views s !! o;
  s ← batch_insert_tb w (menTables old) (new_view w s);
  s ← remove_tb w t s;
  c ← current_ s;
  s ← set_vs w c s;
  Some (publish_view w s).

(** The end of a compaction of level 0 that consumed [deleted]; [unref] are the
    files of [delete_filemeta_set_]. *)
Definition publish_compaction (deleted : gset Z) (unref : list Z) (v w : nat) (s : Store) : option Store :=
  s ← LogAndApply (mkEdit [] deleted) v (new_version v s);
  o ← sv_ s;
  old ← views s !! o;
  s ← batch_insert_tb w (menTables old) (new_view w s);
  c ← current_ s;
  s ← set_vs w c s;
  Some (push (publish_view w s) (map DFile unref)).

(** [get_superversion] and the end of a read. *)
Definition get_superversion (s : Store) : option Store :=
  w ← sv_ s;
  x ← views s !! w;
  Some (set_readers (set_views s (<[w := mkView (use_count x + 1) (menTables x) (view_version x)]> (views s)))
          (readers s ++ [w])).

Definition end_read (k : nat) (s : Store) : option Store :=
  w ← readers s !! k;
  Some (push (set_readers s (take k (readers s) ++ drop (S k) (readers s))) [DView w]).

(** A new SST object, owned by the level that lists it ([refs = {1}]). *)
Definition new_file (f : Z) (s : Store) : Store := set_files s (<[f := 1]> (files s)).

(** ** Reference tokens and the list of versions

    A reference count is right when it equals the number of references that
    exist: those in [current_], in the views, in the versions, in [sv_], held by
    readers, and those about to be dropped.  [held] lists them; [inv] compares
    them with the counts, and [own] are the references the running section, or
    the levels of the tree, hold besides. *)

(** ** The doubly linked list *)
Definition edge (l : gmap nat Links) (a b : nat) : Prop :=
  next_ <$> l !! a = Some b /\ prev_ <$> l !! b = Some a.

(** Each element of [xs] is linked with its successor. *)
Definition chained (l : gmap nat Links) (xs : list nat) : Prop :=
  forall i a b, xs !! i = Some a -> xs !! S i = Some b -> edge l a b.

(** The circular list through the dummy node, with the versions [vs]. *)
Record dll (l : gmap nat Links) (vs : list nat) : Prop := {
  dll_nodup : NoDup (0%nat :: vs);
  dll_chained : chained l (0%nat :: vs ++ [0%nat]);
}.

Lemma chained_nil l a : chained l [a].
Proof. intros i x y _ Hy. by rewrite lookup_cons_ne_0 in Hy by done. Qed.

Lemma chained_cons l a b xs : chained l (a :: b :: xs) <-> edge l a b /\ chained l (b :: xs).
Proof.
  split.
  - intros H. split; [by apply (H 0%nat)|]. intros i x y Hx Hy. by apply (H (S i)).
  - intros [He H] [|i] x y Hx Hy; [cbn in Hx, Hy; congruence|]. by apply (H i).
Qed.

Lemma chained_app l xs a ys : chained l (xs ++ a :: ys) <-> chained l (xs ++ [a]) /\ chained l (a :: ys).
Proof.
  induction xs as [|x xs IH]; cbn [app].
  { split; [intros H; split; [apply chained_nil|done]|tauto]. }
  destruct xs as [|y xs]; cbn [app] in *.
  - rewrite !chained_cons. pose proof (chained_nil l a). tauto.
  - rewrite !chained_cons, IH. tauto.
Qed.

(** Only the links inside the list matter. *)
Lemma chained_frame l l' xs :
  (forall a b, edge l a b -> a ∈ removelast xs -> b ∈ tail xs -> edge l' a b) -> chained l xs -> chained l' xs.
Proof.
  intros He H i a b Ha Hb. apply He; [by apply (H i)|..].
  - apply list_elem_of_lookup. exists i. rewrite removelast_firstn_len. rewrite lookup_take_lt; [done|].
    apply lookup_lt_Some in Hb. lia.
  - destruct xs as [|x xs]; [done|]. cbn in Hb |- *. apply list_elem_of_lookup. by exists i.
Qed.

Abbreviation nxt l a := (next_ <$> l !! a).
Abbreviation prv l a := (prev_ <$> l !! a).
Definition same_nodes (l l' : gmap nat Links) : Prop := forall a, is_Some (l' !! a) <-> is_Some (l !! a).

Lemma set_next_spec l v n :
  is_Some (l !! v) ->
  exists l', set_next l v n = Some l' /\ (forall a, nxt l' a = if decide (a = v) then Some n else nxt l a) /\
    (forall a, prv l' a = prv l a) /\ same_nodes l l'.
Proof.
  intros [x Hx]. unfold set_next. rewrite Hx. cbn. eexists. split; [reflexivity|]. split_and!.
  - intros a. case_decide as E; [subst; by rewrite lookup_insert_eq|by rewrite lookup_insert_ne].
  - intros a. destruct (decide (v = a)) as [->|]; [by rewrite lookup_insert_eq, Hx|by rewrite lookup_insert_ne].
  - intros a. rewrite lookup_insert_is_Some. destruct (decide (v = a)) as [->|]; [split; eauto|tauto].
Qed.

Lemma set_prev_spec l v p :
  is_Some (l !! v) ->
  exists l', set_prev l v p = Some l' /\ (forall a, prv l' a = if decide (a = v) then Some p else prv l a) /\
    (forall a, nxt l' a = nxt l a) /\ same_nodes l l'.
Proof.
  intros [x Hx]. unfold set_prev. rewrite Hx. cbn. eexists. split; [reflexivity|]. split_and!.
  - intros a. case_decide as E; [subst; by rewrite lookup_insert_eq|by rewrite lookup_insert_ne].
  - intros a. destruct (decide (v = a)) as [->|]; [by rewrite lookup_insert_eq, Hx|by rewrite lookup_insert_ne].
  - intros a. rewrite lookup_insert_is_Some. destruct (decide (v = a)) as [->|]; [split; eauto|tauto].
Qed.

Lemma edge_nodes l a b : edge l a b -> is_Some (l !! a) /\ is_Some (l !! b).
Proof. intros [H1 H2]. destruct (l !! a), (l !! b); try done; eauto. Qed.

Lemma dll_dummy l vs : dll l vs -> is_Some (l !! 0%nat).
Proof.
  intros [_ H]. destruct vs as [|v vs]; cbn in H; apply chained_cons in H as [H _]; apply edge_nodes in H as [? ?]; done.
Qed.

Lemma dll_node l vs v : dll l vs -> v ∈ vs -> is_Some (l !! v).
Proof.
  intros [_ H] Hv. apply list_elem_of_split in Hv as (xs & ys & ->).
  change (0%nat :: (xs ++ v :: ys) ++ [0%nat]) with ((0%nat :: xs ++ v :: ys) ++ [0%nat]) in H.
  replace ((0%nat :: xs ++ v :: ys) ++ [0%nat]) with ((0%nat :: xs) ++ v :: (ys ++ [0%nat])) in H
    by (cbn; by rewrite <- app_assoc).
  apply chained_app in H as [_ H]. destruct ys; cbn in H; apply chained_cons in H as [H _]; apply edge_nodes in H as [? ?]; done.
Qed.

(** Appending a version puts it at the front of the list. *)
Lemma link_front_dll l vs v :
  dll l vs -> v <> 0%nat -> v ∉ vs -> is_Some (l !! v) ->
  exists l', link_front v l = Some l' /\ dll l' (v :: vs) /\ same_nodes l l'.
Proof.
  intros D Hv0 Hv Hlv. pose proof (dll_dummy l vs D) as [d Hd]. destruct D as [Hnd Hch].
  assert (exists h xs, vs ++ [0%nat] = h :: xs) as (h & xs & E) by (destruct vs; cbn; eauto).
  rewrite E in Hch. pose proof Hch as Hch'. apply chained_cons in Hch' as [[He1 He2] Hrest].
  assert (next_ d = h) as Hdh by (rewrite Hd in He1; by injection He1).
  assert (v <> h) as Hvh.
  { intros ->. assert (h ∈ vs ++ [0%nat]) as Hin by (rewrite E; left). apply elem_of_app in Hin as [?|Hin]; [done|].
    by apply list_elem_of_singleton in Hin. }
  unfold link_front. rewrite Hd. simpl_bind. rewrite Hdh.
  destruct (set_next_spec l v h Hlv) as (l1 & -> & N1 & P1 & S1). simpl_bind.
  destruct (set_prev_spec l1 h v) as (l2 & -> & P2 & N2 & S2).
  { apply S1. destruct (edge_nodes l 0 h); done. }
  simpl_bind.
  destruct (set_next_spec l2 0 v) as (l3 & -> & N3 & P3 & S3); [by apply S2, S1; eauto|]. simpl_bind.
  destruct (set_prev_spec l3 v 0) as (l4 & -> & P4 & N4 & S4); [by apply S3, S2, S1|].
  exists l4. split; [done|]. split; [|intros a; by rewrite (S4 a), (S3 a), (S2 a), (S1 a)].
  apply NoDup_cons in Hnd as [H0 Hnd]. split.
  - rewrite !NoDup_cons, elem_of_cons. naive_solver.
  - cbn [app]. rewrite E. apply chained_cons. split; [|apply chained_cons; split].
    + split; [rewrite N4, N3|rewrite P4]; by rewrite decide_True.
    + split; [by rewrite N4, N3, decide_False, N2, N1, decide_True|by rewrite P4, decide_False, P3, P2, decide_True].
    + eapply chained_frame; [|exact Hrest]. intros a b [Ha Hb] Hina Hinb. split.
      * assert (a ∈ vs) as Hav by (rewrite <- E, removelast_last in Hina; done).
        rewrite N4, N3, decide_False by (by intros E1; rewrite E1 in Hav).
        rewrite N2, N1, decide_False by (by intros E1; rewrite E1 in Hav). done.
      * assert (b ∈ xs) as Hbx by done.
        assert (b <> h /\ b <> v) as [Hbh Hbv]; [split|by rewrite P4, decide_False, P3, P2, decide_False, P1].
        -- intros ->. destruct vs as [|x vs]; cbn in E; injection E as E0 E1; rewrite <- E1 in Hbx.
           { by apply elem_of_nil in Hbx. }
           rewrite <- E0 in Hbx. apply elem_of_app in Hbx as [Hbx|Hbx]; [by apply NoDup_cons in Hnd as [? _]|].
           apply list_elem_of_singleton in Hbx. apply H0. rewrite <- Hbx. left.
        -- intros ->. assert (v ∈ vs ++ [0%nat]) as Hin by (rewrite E; by right).
           apply elem_of_app in Hin as [?|Hin]; [done|]. by apply list_elem_of_singleton in Hin.
Qed.

Lemma chained_snoc l xs p n : chained l ((xs ++ [p]) ++ [n]) <-> chained l (xs ++ [p]) /\ edge l p n.
Proof.
  rewrite <- app_assoc. cbn [app]. rewrite chained_app, chained_cons. pose proof (chained_nil l n). tauto.
Qed.

(** Deleting a version takes it out of the list. *)
Lemma DeleteVersion_dll l xs v ys :
  dll l (xs ++ v :: ys) ->
  exists l', DeleteVersion v l = Some l' /\ dll (delete v l') (xs ++ ys) /\ same_nodes l l'.
Proof.
  intros [Hnd Hch].
  replace (0%nat :: (xs ++ v :: ys) ++ [0%nat]) with ((0%nat :: xs) ++ v :: (ys ++ [0%nat])) in Hch
    by (cbn; by rewrite <- app_assoc).
  apply chained_app in Hch as [Hl Hr].
  assert (exists p zs, 0%nat :: xs = zs ++ [p]) as (p & zs & Ep).
  { destruct (exists_last (l := 0%nat :: xs)) as (zs & p & ->); [done|eauto]. }
  assert (exists n ws, ys ++ [0%nat] = n :: ws) as (n & ws & En) by (destruct ys; cbn; eauto).
  rewrite Ep in Hl. rewrite En in Hr. apply chained_snoc in Hl as [Hl Hpv]. apply chained_cons in Hr as [Hvn Hr].
  assert (v <> 0%nat /\ v ∉ xs /\ v ∉ ys /\ NoDup (0%nat :: xs ++ ys)) as (Hv0 & Hvx & Hvy & Hnd').
  { rewrite <- Permutation_middle in Hnd. apply NoDup_cons in Hnd as [H0 Hnd]. apply NoDup_cons in Hnd as [Hv Hnd].
    rewrite elem_of_cons in H0. rewrite elem_of_app in Hv. split_and!; [intros ->; tauto|tauto|tauto|]. constructor; [tauto|done]. }
  assert (v <> p /\ v <> n) as [Hvp Hvn'].
  { split; intros ->.
    - assert (p ∈ 0%nat :: xs) as H by (rewrite Ep, elem_of_app; right; left). apply elem_of_cons in H. tauto.
    - assert (n ∈ ys ++ [0%nat]) as H by (rewrite En; left). apply elem_of_app in H as [?|H%list_elem_of_singleton]; done. }
  destruct Hpv as [Hpv1 Hpv2], Hvn as [Hvn1 Hvn2].
  assert (l !! v = Some (mkLinks n p)) as Hv by (destruct (l !! v) as [[]|]; cbn in *; congruence).
  unfold DeleteVersion. rewrite Hv. cbn [mbind option_bind prev_ next_].
  destruct (set_next_spec l p n) as (l1 & -> & N1 & P1 & S1); [destruct (l !! p); done|]. simpl_bind.
  assert (l1 !! v = Some (mkLinks n p)) as ->.
  { pose proof (N1 v) as Hn. pose proof (P1 v) as Hp. rewrite decide_False in Hn by done.
    destruct (l1 !! v) as [[]|]; rewrite Hv in *; cbn in *; congruence. }
  cbn [mbind option_bind prev_ next_].
  destruct (set_prev_spec l1 n p) as (l2 & -> & P2 & N2 & S2); [apply S1; destruct (l !! n); done|].
  exists l2. split; [done|]. split; [|intros a; by rewrite (S2 a), (S1 a)].
  split; [done|].
  replace (0%nat :: (xs ++ ys) ++ [0%nat]) with (zs ++ p :: n :: ws)
    by (rewrite <- En; change (zs ++ p :: ys ++ [0%nat]) with (zs ++ [p] ++ ys ++ [0%nat]); rewrite !app_assoc, <- Ep;
        cbn; by rewrite <- app_assoc).
  assert (forall a b, a <> v -> b <> v -> nxt l2 a = Some b -> prv l2 b = Some a -> edge (delete v l2) a b) as Hdel.
  { intros a b Ha Hb H1 H2. split; rewrite lookup_delete_ne by done; done. }
  apply chained_app. split; [|apply chained_cons; split].
  - eapply chained_frame; [|exact Hl]. intros a b [Ha Hb] Hia Hib. rewrite removelast_last in Hia.
    assert (b ∈ xs) as Hbx.
    { destruct zs as [|z zs]; cbn in Ep, Hib; [by apply elem_of_nil in Hib|]. injection Ep as _ Ep. by rewrite Ep. }
    assert (a ∈ 0%nat :: xs) as Hax by (rewrite Ep; apply elem_of_app; by left).
    assert (a <> p) as Hap.
    { intros ->. assert (NoDup (zs ++ [p])) as Hz by (rewrite <- Ep; apply NoDup_cons in Hnd' as [? Hz];
        rewrite NoDup_app in Hz; constructor; [rewrite elem_of_app in *; tauto|tauto]).
      apply NoDup_app in Hz as (_ & Hz & _). apply (Hz p Hia). left. }
    assert (b <> n) as Hbn.
    { intros ->. assert (n ∈ ys ++ [0%nat]) as H by (rewrite En; left). apply NoDup_cons in Hnd' as [H0 Hn'].
      apply NoDup_app in Hn' as (_ & Hd & _). apply elem_of_app in H as [H|H%list_elem_of_singleton]; [by apply (Hd n)|].
      subst n. apply H0, elem_of_app. by left. }
    apply Hdel; [intros ->; apply elem_of_cons in Hax; tauto|by intros ->| |].
    + rewrite N2, N1, decide_False; done.
    + rewrite P2, P1, decide_False; done.
  - apply Hdel; [done|done|rewrite N2, N1; by rewrite decide_True|rewrite P2; by rewrite decide_True].
  - eapply chained_frame; [|exact Hr]. intros a b [Ha Hb] Hia Hib.
    assert (a ∈ ys) as Hay by (by rewrite <- En, removelast_last in Hia).
    cbn in Hib. assert (b ∈ ys ++ [0%nat]) as Hby by (rewrite En; by right).
    assert (NoDup (ys ++ [0%nat])) as Hny.
    { apply NoDup_cons in Hnd' as [H0 Hn']. apply NoDup_app in Hn' as (_ & _ & Hn').
      apply NoDup_app. split_and!; [done| |apply NoDup_singleton]. intros x Hx ->%list_elem_of_singleton.
      apply H0, elem_of_app. by right. }
    apply Hdel.
    + by intros ->.
    + intros ->. apply elem_of_app in Hby as [?|H%list_elem_of_singleton]; done.
    + rewrite N2, N1, decide_False; [done|]. intros ->. apply NoDup_cons in Hnd' as [H0 Hn'].
      assert (p ∈ 0%nat :: xs) as Hp by (rewrite Ep, elem_of_app; right; left).
      apply elem_of_cons in Hp as [->|Hp]; [apply H0, elem_of_app; by right|].
      apply NoDup_app in Hn' as (_ & Hd & _). by apply (Hd p).
    + rewrite P2, P1, decide_False; [done|]. intros ->. rewrite En in Hny. by apply NoDup_cons in Hny as [? _].
Qed.
