(* ===== verification/VersionsInv.v ===== *)
(** * The reference counts are exact

    [inv s own newborn]: the counts of [s] equal the references held in the
    store plus those in [own]; nothing live has count zero, except a version
    that is being built. *)

From S2P Require Import Prelude.
From S2P Require Import Versions.

Definition opt_list {A} (o : option A) : list A := match o with Some x => [x] | None => [] end.

Definition cnt (d : Drop) (l : list Drop) : Z := Z.of_nat (length (filter (fun x => x = d) l)).

Definition view_tokens (x : View) : list Drop := map DVersion (opt_list (view_version x)) ++ map DTable (menTables x).
Definition version_tokens (x : Version) : list Drop := map DFile (l0_filemetas_ x).

Definition tokens_of {A} (f : A -> list Drop) (m : gmap nat A) : list Drop := map_to_list m ≫= (fun p => f p.2).

Definition held (s : Store) : list Drop :=
  map DVersion (opt_list (current_ s)) ++ map DView (opt_list (sv_ s)) ++ map DView (readers s) ++
  tokens_of view_tokens (views s) ++ tokens_of version_tokens (versions s) ++ drops s.

(** The count an object carries; for [DUnlink], whether a freed version is
    still linked. *)
Definition refcount (s : Store) (d : Drop) : Z :=
  match d with
  | DView w => default 0 (use_count <$> views s !! w)
  | DVersion v => default 0 (refs_ <$> versions s !! v)
  | DFile f => default 0 (files s !! f)
  | DTable t => default 0 (tables s !! t)
  | DUnlink v => if decide (v <> 0%nat /\ is_Some (links s !! v) /\ versions s !! v = None) then 1 else 0
  end.

Record inv (s : Store) (own : list Drop) (newborn : option nat) : Prop := {
  inv_counts : forall d, cnt d (held s ++ own) = refcount s d;
  inv_views : forall w x, views s !! w = Some x -> 1 <= use_count x /\ (view_version x = None -> DView w ∈ own);
  inv_versions : forall v x, versions s !! v = Some x -> 1 <= refs_ x \/ newborn = Some v;
  inv_files : forall f n, files s !! f = Some n -> 1 <= n;
  inv_linked : forall v, is_Some (versions s !! v) -> v <> 0%nat /\ is_Some (links s !! v);
  inv_list : exists vs, dll (links s) vs /\
    forall v, is_Some (links s !! v) <-> v = 0%nat \/ v ∈ vs \/ newborn = Some v;
  inv_newborn : forall v, newborn = Some v -> v <> 0%nat /\ is_Some (versions s !! v) /\ forall vs, dll (links s) vs -> v ∉ vs;
}.

(** ** Counting *)
Lemma cnt_app d l l' : cnt d (l ++ l') = cnt d l + cnt d l'.
Proof. unfold cnt. rewrite filter_app, length_app. lia. Qed.

Lemma cnt_cons d x l : cnt d (x :: l) = (if decide (x = d) then 1 else 0) + cnt d l.
Proof. unfold cnt. rewrite filter_cons. case_decide; cbn [length]; lia. Qed.

Lemma cnt_nil d : cnt d [] = 0.
Proof. done. Qed.

#[export] Instance cnt_perm d : Proper ((≡ₚ) ==> eq) (cnt d).
Proof. intros l l' H. unfold cnt. by rewrite H. Qed.

Lemma cnt_nonneg d l : 0 <= cnt d l.
Proof. unfold cnt. lia. Qed.

Lemma cnt_elem d l : 0 < cnt d l <-> d ∈ l.
Proof.
  unfold cnt. split.
  - intros H. destruct (filter _ l) as [|x k] eqn:E; [cbn in H; lia|].
    assert (x ∈ filter (fun y => y = d) l) as Hx by (rewrite E; left). by apply list_elem_of_filter in Hx as [-> ?].
  - intros H. assert (d ∈ filter (fun y => y = d) l) as Hx by (by apply list_elem_of_filter).
    destruct (filter _ l); [by apply elem_of_nil in Hx|cbn; lia].
Qed.

Lemma tokens_of_insert {A} (f : A -> list Drop) m k x :
  m !! k = None -> tokens_of f (<[k := x]> m) ≡ₚ f x ++ tokens_of f m.
Proof. intros H. unfold tokens_of. by rewrite map_to_list_insert. Qed.

Lemma tokens_of_delete {A} (f : A -> list Drop) m k x :
  m !! k = Some x -> tokens_of f m ≡ₚ f x ++ tokens_of f (delete k m).
Proof.
  intros H. rewrite <- (insert_id m k x H) at 1. rewrite <- insert_delete_eq. apply tokens_of_insert, lookup_delete_eq.
Qed.

Lemma tokens_of_update {A} (f : A -> list Drop) m k x y :
  m !! k = Some x -> f x ++ tokens_of f (<[k := y]> m) ≡ₚ f y ++ tokens_of f m.
Proof.
  intros H. rewrite (tokens_of_delete f m k x H), <- insert_delete_eq.
  rewrite tokens_of_insert by apply lookup_delete_eq. rewrite !app_assoc. f_equiv. apply Permutation_app_comm.
Qed.

Lemma cnt_tokens_insert {A} (f : A -> list Drop) m k x d :
  m !! k = None -> cnt d (tokens_of f (<[k := x]> m)) = cnt d (f x) + cnt d (tokens_of f m).
Proof. intros H. by rewrite tokens_of_insert, cnt_app. Qed.

Lemma cnt_tokens_delete {A} (f : A -> list Drop) m k x d :
  m !! k = Some x -> cnt d (tokens_of f (delete k m)) = cnt d (tokens_of f m) - cnt d (f x).
Proof. intros H. rewrite (tokens_of_delete f m k x H), cnt_app. lia. Qed.

Lemma cnt_tokens_update {A} (f : A -> list Drop) m k x y d :
  m !! k = Some x -> cnt d (tokens_of f (<[k := y]> m)) = cnt d (tokens_of f m) - cnt d (f x) + cnt d (f y).
Proof.
  intros H. pose proof (tokens_of_update f m k x y H) as E. apply (cnt_perm d) in E. rewrite !cnt_app in E. lia.
Qed.

Lemma held_cnt s d :
  cnt d (held s) = cnt d (map DVersion (opt_list (current_ s))) + cnt d (map DView (opt_list (sv_ s))) +
    cnt d (map DView (readers s)) + cnt d (tokens_of view_tokens (views s)) +
    cnt d (tokens_of version_tokens (versions s)) + cnt d (drops s).
Proof. unfold held. rewrite !cnt_app. lia. Qed.

Lemma inv_perm s own own' nb : own ≡ₚ own' -> inv s own nb -> inv s own' nb.
Proof.
  intros H [I1 I2 I3 I4 I5 I6 I7]. split; try done.
  - intros d. by rewrite <- H.
  - intros w x Hw. rewrite <- H. by apply I2.
Qed.

(** A token in [own] shows that its object is live. *)
Lemma inv_token s own nb d : inv s own nb -> d ∈ own -> 1 <= refcount s d.
Proof.
  intros I H. rewrite <- (inv_counts _ _ _ I), cnt_app. apply cnt_elem in H. pose proof (cnt_nonneg d (held s)). lia.
Qed.

Lemma inv_held s own nb d : inv s own nb -> d ∈ held s -> 1 <= refcount s d.
Proof.
  intros I H. rewrite <- (inv_counts _ _ _ I), cnt_app. apply cnt_elem in H. pose proof (cnt_nonneg d own). lia.
Qed.

Lemma unlink_ext s s' u :
  (is_Some (links s' !! u) <-> is_Some (links s !! u)) -> (versions s' !! u = None <-> versions s !! u = None) ->
  refcount s' (DUnlink u) = refcount s (DUnlink u).
Proof. intros H1 H2. cbn. apply decide_ext. by rewrite H1, H2. Qed.

Lemma insert_None_iff {A} (m : gmap nat A) k x y u :
  m !! k = Some x -> (<[k := y]> m !! u = None <-> m !! u = None).
Proof. intros H. rewrite lookup_insert_None. naive_solver. Qed.

(** Solves the arithmetic of a counting goal, after the maps have been handled. *)
Ltac count := rewrite ?cnt_app, ?cnt_cons, ?cnt_nil in *; repeat case_decide; simplify_eq; try lia.

(** ** Taking references *)
Lemma file_ref s own nb f :
  inv s own nb -> is_Some (files s !! f) ->
  exists n, files s !! f = Some n /\ SSTableCache_Ref f s = Some (set_files s (<[f := n + 1]> (files s))) /\
    inv (set_files s (<[f := n + 1]> (files s))) (own ++ [DFile f]) nb.
Proof.
  intros [I1 I2 I3 I4 I5 I6 I7] [n Hn]. exists n. unfold SSTableCache_Ref. rewrite Hn. split_and!; [done|done|].
  split; cbn [set_files views versions links files]; try done.
  - intros d. specialize (I1 d). change (held (set_files s _)) with (held s). rewrite !cnt_app in *. rewrite cnt_cons, cnt_nil.
    destruct d as [w|v|g|t|v]; cbn [refcount set_files files views versions tables links] in *; count.
    + by rewrite lookup_insert_eq, Hn in *; cbn in *; lia.
    + rewrite lookup_insert_ne by congruence. lia.
  - intros w x Hw. rewrite elem_of_app. destruct (I2 w x Hw). split; [done|]. intros. left. auto.
  - intros g k. destruct (decide (f = g)) as [->|]; [rewrite lookup_insert_eq|rewrite lookup_insert_ne by done; apply I4].
    intros [= <-]. specialize (I4 _ _ Hn). lia.
Qed.

Lemma files_ref s own nb l :
  inv s own nb -> (forall f, f ∈ l -> is_Some (files s !! f)) ->
  exists fs, each SSTableCache_Ref l s = Some (set_files s fs) /\ inv (set_files s fs) (own ++ map DFile l) nb /\
    (forall f, is_Some (files s !! f) -> is_Some (fs !! f)).
Proof.
  revert s own. induction l as [|f l IH]; intros s own I Hl.
  { exists (files s). cbn. rewrite app_nil_r. split_and!; [by destruct s|by destruct s|done]. }
  destruct (file_ref s own nb f I) as (n & Hn & E & I1); [apply Hl; left|].
  assert (forall g, is_Some (files s !! g) -> is_Some (<[f := n + 1]> (files s) !! g)) as Hm
    by (intros g Hg; by apply lookup_insert_is_Some'; right).
  destruct (IH _ _ I1) as (fs & E2 & I2 & Hm2).
  { intros g Hg. cbn. apply Hm, Hl. by right. }
  exists fs. cbn [each]. rewrite E. simpl_bind. rewrite E2. split_and!; [done| |].
  - cbn [map]. by rewrite cons_middle, app_assoc.
  - intros g Hg. by apply Hm2, Hm.
Qed.

Lemma version_ref s own nb v x :
  inv s own nb -> versions s !! v = Some x ->
  let s' := set_versions s (<[v := mkVersion (refs_ x + 1) (l0_filemetas_ x)]> (versions s)) in
  Version_Ref v s = Some s' /\ inv s' (own ++ [DVersion v]) nb.
Proof.
  intros [I1 I2 I3 I4 I5 I6 I7] Hv. cbn zeta. unfold Version_Ref. rewrite Hv. split; [done|].
  split; cbn [set_versions views versions links files]; try done.
  - intros d. specialize (I1 d). rewrite cnt_app, held_cnt in *. cbn [set_versions current_ sv_ readers views versions drops].
    rewrite (cnt_tokens_update _ _ _ x) by done. unfold version_tokens at 2 3. cbn [l0_filemetas_]. rewrite cnt_app, cnt_cons, cnt_nil.
    destruct d as [w|u|g|t|u]; [..|rewrite (unlink_ext s) by (try done; by apply (insert_None_iff _ _ x)); count];
      cbn [refcount set_versions files views versions tables links] in *; count.
    + rewrite lookup_insert_eq in *. rewrite Hv in I1. cbn in *. lia.
    + rewrite lookup_insert_ne by congruence. lia.
  - intros w y Hw. rewrite elem_of_app. destruct (I2 w y Hw). split; [done|]. intros. left. auto.
  - intros u y [[<- <-]|[Hne Hu]]%lookup_insert_Some; [cbn|by apply I3].
    left. specialize (I1 (DVersion v)). cbn in I1. rewrite Hv in I1. cbn in I1.
    pose proof (cnt_nonneg (DVersion v) (held s ++ own)). lia.
  - intros u [Hu|Hu]%lookup_insert_is_Some'; [subst u|]; apply I5; eauto.
  - intros u Hu. destruct (I7 u Hu) as (? & ? & ?). split_and!; [done| |done]. apply lookup_insert_is_Some'. by right.
Qed.

Lemma table_ref s own nb t n :
  inv s own nb -> tables s !! t = Some n ->
  MemTable_Ref t s = Some (set_tables s (<[t := n + 1]> (tables s))) /\
  inv (set_tables s (<[t := n + 1]> (tables s))) (own ++ [DTable t]) nb.
Proof.
  intros [I1 I2 I3 I4 I5 I6 I7] Ht. unfold MemTable_Ref. rewrite Ht. split; [done|].
  split; cbn [set_tables views versions links files]; try done.
  - intros d. specialize (I1 d). change (held (set_tables s _)) with (held s). rewrite !cnt_app in *. rewrite cnt_cons, cnt_nil.
    destruct d as [w|v|g|u|v]; cbn [refcount set_tables files views versions tables links] in *; count.
    + rewrite lookup_insert_eq, Ht in *; cbn in *; lia.
    + rewrite lookup_insert_ne by congruence. lia.
  - intros w x Hw. rewrite elem_of_app. destruct (I2 w x Hw). split; [done|]. intros. left. auto.
Qed.

(** ** Giving references back *)
Lemma table_unref s own nb t :
  inv s (DTable t :: own) nb ->
  exists n, tables s !! t = Some n /\ MemTable_Unref t s = Some (set_tables s (<[t := n - 1]> (tables s))) /\
    inv (set_tables s (<[t := n - 1]> (tables s))) own nb.
Proof.
  intros I. pose proof (inv_token _ _ _ (DTable t) I) as Hc. specialize (Hc ltac:(left)). cbn in Hc.
  destruct I as [I1 I2 I3 I4 I5 I6 I7]. destruct (tables s !! t) as [n|] eqn:Ht; [|cbn in Hc; lia]. cbn in Hc.
  exists n. unfold MemTable_Unref. rewrite Ht. simpl_bind. rewrite (proj2 (Z.ltb_ge n 0)) by lia. split_and!; [done|done|].
  split; cbn [set_tables views versions links files]; try done.
  - intros d. specialize (I1 d). change (held (set_tables s _)) with (held s). rewrite !cnt_app, ?cnt_cons in *.
    destruct d as [w|v|g|u|v]; cbn [refcount set_tables files views versions tables links] in *; count.
    + rewrite lookup_insert_eq, Ht in *; cbn in *; lia.
    + rewrite lookup_insert_ne by congruence. lia.
  - intros w x Hw. destruct (I2 w x Hw) as [? H]. split; [done|]. intros Hn. specialize (H Hn). by apply elem_of_cons in H as [?|?].
Qed.

Lemma file_unref s own nb f :
  inv s (DFile f :: own) nb ->
  exists fs, SSTableCache_Unref f s = Some (set_files s fs) /\ inv (set_files s fs) own nb.
Proof.
  intros I. pose proof (inv_token _ _ _ (DFile f) I) as Hc. specialize (Hc ltac:(left)). cbn in Hc.
  destruct I as [I1 I2 I3 I4 I5 I6 I7]. destruct (files s !! f) as [n|] eqn:Hf; [|cbn in Hc; lia]. cbn in Hc.
  unfold SSTableCache_Unref. rewrite Hf. simpl_bind. rewrite (proj2 (Z.ltb_ge n 1)) by lia.
  eexists. split; [done|]. set (fs := if n =? 1 then _ else _).
  assert (forall g, default 0 (fs !! g) = default 0 (files s !! g) - (if decide (f = g) then 1 else 0)) as Hfs.
  { intros g. unfold fs. destruct (Z.eqb_spec n 1); case_decide as E; subst.
    - rewrite lookup_delete_eq, Hf. done.
    - rewrite lookup_delete_ne by done. lia.
    - rewrite lookup_insert_eq, Hf. done.
    - rewrite lookup_insert_ne by done. lia. }
  split; cbn [set_files views versions links files]; try done.
  - intros d. specialize (I1 d). change (held (set_files s _)) with (held s). rewrite !cnt_app, ?cnt_cons in *.
    destruct d as [w|v|g|u|v]; cbn [refcount set_files files views versions tables links] in *; rewrite ?Hfs; count.
  - intros w x Hw. destruct (I2 w x Hw) as [? H]. split; [done|]. intros Hn. specialize (H Hn). by apply elem_of_cons in H as [?|?].
  - intros g k Hg. unfold fs in Hg. destruct (Z.eqb_spec n 1).
    + apply lookup_delete_Some in Hg as [_ Hg]. by eapply I4.
    + apply lookup_insert_Some in Hg as [[<- <-]|[_ Hg]]; [lia|by eapply I4].
Qed.

Lemma own_tail (own : list Drop) d w : DView w ∈ d :: own -> d <> DView w -> DView w ∈ own.
Proof. rewrite elem_of_cons. intros [<-|?]; done. Qed.

(** What dropping a reference to a version leaves alone. *)
Record unref_frame (v : nat) (s s' : Store) : Prop := {
  uf_rest : files s' = files s /\ links s' = links s /\ current_ s' = current_ s /\ views s' = views s /\
            sv_ s' = sv_ s /\ tables s' = tables s /\ readers s' = readers s;
  uf_other : forall u, u <> v -> versions s' !! u = versions s !! u;
  uf_files : forall u x, versions s' !! u = Some x ->
    exists y, versions s !! u = Some y /\ l0_filemetas_ x = l0_filemetas_ y;
}.

Lemma own_views s own d :
  (forall w x, views s !! w = Some x -> 1 <= use_count x /\ (view_version x = None -> DView w ∈ d :: own)) ->
  (forall w, d <> DView w) ->
  forall w x, views s !! w = Some x -> 1 <= use_count x /\ (view_version x = None -> DView w ∈ own).
Proof.
  intros I2 Hd w x Hw. destruct (I2 w x Hw) as [? H]. split; [done|]. intros Hn. by eapply own_tail; [auto|].
Qed.

(** Not the last reference. *)
Lemma version_unref_shared s own nb v x :
  inv s (DVersion v :: own) nb -> versions s !! v = Some x -> 1 < refs_ x ->
  inv (set_versions s (<[v := mkVersion (refs_ x - 1) (l0_filemetas_ x)]> (versions s))) own nb.
Proof.
  intros [I1 I2 I3 I4 I5 I6 I7] Hv Hx. split; cbn [set_versions views versions links files]; try done.
  - intros d. specialize (I1 d). rewrite cnt_app, held_cnt, ?cnt_cons in *.
    cbn [set_versions current_ sv_ readers views versions drops].
    rewrite (cnt_tokens_update _ _ _ x) by done. unfold version_tokens at 2 3. cbn [l0_filemetas_].
    destruct d as [w|u|g|t|u]; [..|rewrite (unlink_ext s) by (try done; by apply (insert_None_iff _ _ x)); count];
      cbn [refcount set_versions files views versions tables links] in *; count.
    + rewrite lookup_insert_eq in *. rewrite Hv in I1. cbn in *. lia.
    + rewrite lookup_insert_ne by congruence. lia.
  - by eapply own_views.
  - intros u y [[<- <-]|[Hne Hu]]%lookup_insert_Some; [cbn; left; lia|by apply I3].
  - intros u [Hu|Hu]%lookup_insert_is_Some'; [subst u|]; apply I5; eauto.
  - intros u Hu. destruct (I7 u Hu) as (? & ? & ?). split_and!; [done| |done]. apply lookup_insert_is_Some'. by right.
Qed.

(** The last reference: the version gives up its files and leaves the list. *)
Lemma version_unref_last s own nb v x :
  inv s (DVersion v :: own) nb -> versions s !! v = Some x -> refs_ x = 1 -> nb <> Some v ->
  inv (push (set_versions s (delete v (versions s))) (map DFile (l0_filemetas_ x) ++ [DUnlink v])) own nb.
Proof.
  intros [I1 I2 I3 I4 I5 I6 I7] Hv Hx Hnb. destruct (I5 v) as [Hv0 Hlv]; [eauto|].
  split; cbn [set_versions set_drops push views versions links files]; try done.
  - intros d. specialize (I1 d). rewrite cnt_app, held_cnt, ?cnt_cons in *.
    cbn [set_versions set_drops push current_ sv_ readers views versions drops]. rewrite !cnt_app.
    rewrite (cnt_tokens_delete _ _ _ x) by done. unfold version_tokens at 2. rewrite cnt_cons, cnt_nil.
    destruct d as [w|u|g|t|u]; cbn [refcount set_versions set_drops push files views versions tables links] in *.
    + count.
    + count; [rewrite lookup_delete_eq, Hv in *; cbn in *; lia|rewrite lookup_delete_ne by congruence; lia].
    + count.
    + count.
    + destruct (decide (u = v)) as [->|].
      * rewrite (decide_False (P := v <> 0%nat /\ _)) in I1 by (rewrite Hv; naive_solver).
        rewrite (decide_True (P := v <> 0%nat /\ _)) by (by rewrite lookup_delete_eq).
        rewrite (decide_False (P := DVersion v = _)) in I1 by done. rewrite decide_True by done. lia.
      * rewrite lookup_delete_ne by done. count.
  - by eapply own_views.
  - intros u y [Hne Hu]%lookup_delete_Some. by apply I3.
  - intros u [y [Hne Hu]%lookup_delete_Some]. apply I5. eauto.
  - intros u Hu. destruct (I7 u Hu) as (? & [y Hy] & ?). split_and!; [done| |done]. exists y.
    rewrite lookup_delete_ne by congruence. done.
Qed.

Lemma version_unref s own nb v :
  inv s (DVersion v :: own) nb -> nb <> Some v ->
  exists s', Version_Unref v s = Some s' /\ inv s' own nb /\ unref_frame v s s'.
Proof.
  intros I Hnb. pose proof (inv_token _ _ _ (DVersion v) I) as Hc. specialize (Hc ltac:(left)). cbn in Hc.
  destruct (versions s !! v) as [x|] eqn:Hv; [|cbn in Hc; lia]. cbn in Hc.
  destruct (inv_linked _ _ _ I v) as [Hv0 _]; [eauto|]. unfold Version_Unref. rewrite Hv. simpl_bind.
  rewrite (proj2 (Nat.eqb_neq v 0) Hv0), (proj2 (Z.ltb_ge (refs_ x) 1)) by lia. cbn [orb].
  destruct (Z.ltb_spec 1 (refs_ x)); (eexists; split; [done|]; split).
  - by apply version_unref_shared.
  - split; cbn; [done|intros u Hu; by rewrite lookup_insert_ne|].
    intros u y [[<- <-]|[Hne Hu]]%lookup_insert_Some; eauto.
  - apply version_unref_last; [done|done|lia|done].
  - split; cbn; [done|intros u Hu; by rewrite lookup_delete_ne|]. intros u y [Hne Hu]%lookup_delete_Some. eauto.
Qed.

(** ** Views *)
Lemma new_view_inv s own nb w :
  inv s own nb -> views s !! w = None -> inv (new_view w s) (own ++ [DView w]) nb.
Proof.
  intros [I1 I2 I3 I4 I5 I6 I7] Hw. split; cbn [new_view set_views views versions links files]; try done.
  - intros d. specialize (I1 d). rewrite cnt_app, held_cnt in *. cbn [new_view set_views current_ sv_ readers views versions drops].
    rewrite cnt_tokens_insert by done. cbn [view_tokens view_version menTables opt_list map app]. rewrite cnt_app, cnt_cons, cnt_nil.
    destruct d as [u|u|g|t|u]; cbn [refcount new_view set_views files views versions tables links] in *; count.
    + rewrite lookup_insert_eq, Hw in *. cbn in *. lia.
    + rewrite lookup_insert_ne by congruence. lia.
  - intros u x [[<- <-]|[Hne Hu]]%lookup_insert_Some; rewrite elem_of_app.
    + split; [done|]. intros _. right. left.
    + destruct (I2 u x Hu). split; [done|]. intros. left. auto.
Qed.

(** A view takes over tokens of the running section, or gives some back. *)
Lemma view_update s own own' nb w x y :
  inv s own nb -> views s !! w = Some x -> use_count y = use_count x ->
  (forall d, cnt d (view_tokens x) + cnt d own = cnt d (view_tokens y) + cnt d own') ->
  (view_version y = None -> DView w ∈ own') -> (forall u, DView u ∈ own -> DView u ∈ own') ->
  inv (set_views s (<[w := y]> (views s))) own' nb.
Proof.
  intros [I1 I2 I3 I4 I5 I6 I7] Hw Hu Hd Hy Ho. split; cbn [set_views views versions links files]; try done.
  - intros d. specialize (I1 d). specialize (Hd d). rewrite cnt_app, held_cnt in *.
    cbn [set_views current_ sv_ readers views versions drops]. rewrite (cnt_tokens_update _ _ _ x) by done.
    destruct d as [u|u|g|t|u]; cbn [refcount set_views files views versions tables links] in *; try lia.
    destruct (decide (w = u)) as [->|]; [rewrite lookup_insert_eq, Hw in *; cbn in *; lia|].
    rewrite lookup_insert_ne by done. lia.
  - intros u z [[<- <-]|[Hne Hz]]%lookup_insert_Some.
    + split; [destruct (I2 w x Hw); lia|done].
    + destruct (I2 u z Hz). split; [done|]. intros. apply Ho. auto.
Qed.

(** What building a view leaves alone. *)
Definition builds (s s' : Store) : Prop :=
  files s' = files s /\ links s' = links s /\ current_ s' = current_ s /\ sv_ s' = sv_ s /\ readers s' = readers s /\
  drops s' = drops s /\ (forall t, is_Some (tables s !! t) -> is_Some (tables s' !! t)) /\
  (forall v, is_Some (versions s !! v) -> is_Some (versions s' !! v)).

#[export] Instance builds_refl : Reflexive builds.
Proof. by intros s. Qed.
#[export] Instance builds_trans : Transitive builds.
Proof. unfold builds. intros a b c H H'. destruct_and!. split_and!; try congruence; auto. Qed.

Lemma set_vs_inv s own nb w v y :
  inv s own nb -> is_Some (versions s !! v) -> views s !! w = Some y -> view_version y = None ->
  exists s', set_vs w v s = Some s' /\ inv s' own nb /\ builds s s' /\
    views s' = <[w := mkView (use_count y) (menTables y) (Some v)]> (views s).
Proof.
  intros I [x Hv] Hw Hy. destruct (version_ref _ _ _ _ _ I Hv) as [E I1].
  set (s1 := set_versions s _) in *. unfold set_vs. rewrite E. simpl_bind.
  change (views s1) with (views s). rewrite Hw. simpl_bind. eexists. split; [done|]. split_and!.
  - eapply (view_update s1 _ _ _ w y); [exact I1|done|done| | |].
    + intros d. unfold view_tokens. rewrite Hy. cbn [view_version menTables opt_list map app].
      rewrite ?cnt_app, ?cnt_cons, ?cnt_nil. lia.
    + done.
    + intros u. rewrite elem_of_app, list_elem_of_singleton. intros [?|?]; done.
  - split_and!; try done. intros u Hu. cbn. apply lookup_insert_is_Some'. by right.
  - done.
Qed.

Lemma insert_tb_inv s own nb w t y :
  inv s own nb -> is_Some (tables s !! t) -> views s !! w = Some y -> (view_version y = None -> DView w ∈ own) ->
  exists s', insert_tb w t s = Some s' /\ inv s' own nb /\ builds s s' /\
    views s' = <[w := mkView (use_count y) (menTables y ++ [t]) (view_version y)]> (views s).
Proof.
  intros I [n Ht] Hw Hy. destruct (table_ref _ _ _ _ _ I Ht) as [E I1].
  set (s1 := set_tables s _) in *. unfold insert_tb. rewrite E. simpl_bind.
  change (views s1) with (views s). rewrite Hw. simpl_bind. eexists. split; [done|]. split_and!.
  - eapply (view_update s1 _ _ _ w y); [exact I1|done|done| |done|].
    + intros d. unfold view_tokens. cbn [view_version menTables]. rewrite map_app. cbn [map].
      rewrite ?cnt_app, ?cnt_cons, ?cnt_nil. lia.
    + intros u. rewrite elem_of_app, list_elem_of_singleton. intros [?|?]; done.
  - split_and!; try done. intros u Hu. cbn. apply lookup_insert_is_Some'. by right.
  - done.
Qed.

Lemma batch_insert_inv s own nb w ts y :
  inv s own nb -> (forall t, t ∈ ts -> is_Some (tables s !! t)) -> views s !! w = Some y ->
  (view_version y = None -> DView w ∈ own) ->
  exists s', batch_insert_tb w ts s = Some s' /\ inv s' own nb /\ builds s s' /\
    views s' = <[w := mkView (use_count y) (menTables y ++ ts) (view_version y)]> (views s).
Proof.
  unfold batch_insert_tb. revert s y. induction ts as [|t ts IH]; intros s y I Hts Hw Hy.
  { exists s. cbn. rewrite app_nil_r. split_and!; [done|done|done|]. rewrite insert_id; [done|]. by destruct y. }
  destruct (insert_tb_inv s own nb w t y) as (s1 & E1 & I1 & B1 & V1); [done|apply Hts; left|done|done|].
  cbn [each]. rewrite E1. simpl_bind.
  destruct (IH s1 (mkView (use_count y) (menTables y ++ [t]) (view_version y))) as (s2 & E2 & I2 & B2 & V2).
  - done.
  - intros u Hu. apply B1, Hts. by right.
  - rewrite V1. apply lookup_insert_eq.
  - done.
  - exists s2. split_and!; [done|done|by etrans|]. rewrite V2, V1, insert_insert_eq. cbn. by rewrite <- app_assoc.
Qed.

Lemma vectorDel_perm ts t : t ∈ ts -> ts ≡ₚ t :: vectorDel ts t.
Proof.
  induction ts as [|x ts IH]; cbn; [by intros ?%elem_of_nil|]. destruct (Nat.eqb_spec x t) as [->|Hne]; [done|].
  intros [?|H]%elem_of_cons; [congruence|]. rewrite (IH H) at 1. apply Permutation_swap.
Qed.

Lemma remove_tb_inv s own nb w t y :
  inv s own nb -> t ∈ menTables y -> views s !! w = Some y -> (view_version y = None -> DView w ∈ own) ->
  exists s', remove_tb w t s = Some s' /\ inv s' own nb /\ builds s s' /\
    views s' = <[w := mkView (use_count y) (vectorDel (menTables y) t) (view_version y)]> (views s).
Proof.
  intros I Ht Hw Hy. unfold remove_tb. rewrite Hw. simpl_bind. set (s1 := set_views s _).
  assert (inv s1 (DTable t :: own) nb) as I1.
  { eapply (view_update s _ _ _ w y); [exact I|done|done| | |].
    - intros d. unfold view_tokens. cbn [view_version menTables]. rewrite (vectorDel_perm _ _ Ht) at 1. cbn [map].
      rewrite ?cnt_app, ?cnt_cons. lia.
    - intros Hn. right. by apply Hy.
    - intros u Hu. by right. }
  destruct (table_unref s1 own nb t I1) as (n & Hn & E & I2). rewrite E. eexists. split; [done|]. split_and!; [done| |done].
  split_and!; try done. intros u Hu. cbn. apply lookup_insert_is_Some'. by right.
Qed.

(** Publishing moves the reference of the section to [sv_]. *)
Lemma publish_view_inv s own nb w y :
  inv s (DView w :: own) nb -> views s !! w = Some y -> view_version y <> None -> inv (publish_view w s) own nb.
Proof.
  intros [I1 I2 I3 I4 I5 I6 I7] Hw Hy. unfold publish_view.
  split; cbn [push set_drops set_sv views versions links files]; try done.
  - intros d. specialize (I1 d). rewrite cnt_app, held_cnt, ?cnt_cons in *.
    cbn [push set_drops set_sv current_ sv_ readers views versions drops opt_list map].
    rewrite cnt_cons, cnt_nil, cnt_app.
    assert (cnt d match sv_ s with Some old => [DView old] | None => [] end = cnt d (map DView (opt_list (sv_ s)))) as ->
      by (by destruct (sv_ s)).
    destruct d as [u|u|g|t|u]; cbn [refcount push set_drops set_sv files views versions tables links] in *; lia.
  - intros u x Hu. destruct (I2 u x Hu) as [? H]. split; [done|]. intros Hn. specialize (H Hn).
    eapply own_tail; [done|]. intros [= ->]. congruence.
Qed.

Lemma release_view_inv s own nb w :
  inv s (DView w :: own) nb -> (forall u y, views s !! u = Some y -> view_version y <> None) ->
  exists s', release_view w s = Some s' /\ inv s' own nb.
Proof.
  intros I Hall. pose proof (inv_token _ _ _ (DView w) I) as Hc. specialize (Hc ltac:(left)). cbn in Hc.
  destruct I as [I1 I2 I3 I4 I5 I6 I7]. destruct (views s !! w) as [x|] eqn:Hw; [|cbn in Hc; lia]. cbn in Hc.
  unfold release_view. rewrite Hw. simpl_bind. rewrite (proj2 (Z.ltb_ge (use_count x) 1)) by lia.
  destruct (Z.ltb_spec 1 (use_count x)); (eexists; split; [done|]).
  - split; cbn [set_views views versions links files]; try done.
    + intros d. specialize (I1 d). rewrite cnt_app, held_cnt, ?cnt_cons in *.
      cbn [set_views current_ sv_ readers views versions drops]. rewrite (cnt_tokens_update _ _ _ x) by done.
      unfold view_tokens at 2 3. cbn [view_version menTables].
      destruct d as [u|u|g|t|u]; cbn [refcount set_views files views versions tables links] in *; count.
      * rewrite lookup_insert_eq, Hw in *. cbn in *. lia.
      * rewrite lookup_insert_ne by congruence. lia.
    + intros u y [[<- <-]|[Hne Hu]]%lookup_insert_Some; [split; [cbn; lia|]|].
      * intros Hn. by destruct (Hall _ _ Hw).
      * split; [by eapply I2|]. intros Hn. by destruct (Hall _ _ Hu).
  - split; cbn [push set_drops set_views views versions links files]; try done.
    + intros d. specialize (I1 d). rewrite cnt_app, held_cnt, ?cnt_cons in *.
      cbn [push set_drops set_views current_ sv_ readers views versions drops]. rewrite (cnt_tokens_delete _ _ _ x) by done.
      assert (match view_version x with Some v => [DVersion v] | None => [] end ++ map DTable (menTables x) = view_tokens x) as ->
        by (unfold view_tokens; by destruct (view_version x)).
      rewrite cnt_app.
      destruct d as [u|u|g|t|u]; cbn [refcount push set_drops set_views files views versions tables links] in *; count.
      * rewrite lookup_delete_eq, Hw in *. cbn in *. lia.
      * rewrite lookup_delete_ne by congruence. lia.
    + intros u y [Hne Hu]%lookup_delete_Some. split; [by eapply I2|]. intros Hn. by destruct (Hall _ _ Hu).
Qed.

Lemma free_version_inv s own v :
  inv s (DUnlink v :: own) None -> exists s', free_version v s = Some s' /\ inv s' own None.
Proof.
  intros I. pose proof (inv_token _ _ _ (DUnlink v) I) as Hc. specialize (Hc ltac:(left)). cbn in Hc.
  destruct I as [I1 I2 I3 I4 I5 (vs & D & Hvs) I7]. destruct (decide _) as [(Hv0 & Hl & Hv)|]; [|lia].
  assert (v ∈ vs) as Hin by (apply Hvs in Hl as [?|[?|?]]; done).
  apply list_elem_of_split in Hin as (xs & ys & ->). destruct (DeleteVersion_dll _ _ _ _ D) as (l' & E & D' & Hs).
  unfold free_version. rewrite E. simpl_bind. eexists. split; [done|].
  assert (v ∉ xs ++ ys) as Hnin.
  { destruct D as [Hnd _]. apply NoDup_cons in Hnd as [_ Hnd]. rewrite <- Permutation_middle in Hnd.
    by apply NoDup_cons in Hnd as [? _]. }
  split; cbn [set_links views versions links files]; try done.
  - intros d. specialize (I1 d). change (held (set_links s _)) with (held s). rewrite cnt_app, cnt_cons in *.
    destruct d as [u|u|g|t|u]; try (cbn [refcount set_links files views versions tables links] in *; count; fail).
    cbn [refcount set_links versions links] in *. destruct (decide (v = u)) as [->|Hne].
    + rewrite decide_True in I1 by done. rewrite (decide_True (P := u <> 0%nat /\ _)) in I1 by done.
      rewrite decide_False by (rewrite lookup_delete_eq; intros (_ & [? ?] & _); done). lia.
    + rewrite decide_False in I1 by congruence. rewrite lookup_delete_ne by done.
      rewrite (decide_ext _ (u <> 0%nat /\ is_Some (links s !! u) /\ versions s !! u = None)) by (by rewrite (Hs u)). lia.
  - by eapply own_views.
  - intros u Hu. destruct (I5 u Hu) as [? ?]. split; [done|]. rewrite lookup_delete_ne; [by apply Hs|].
    intros ->. destruct Hu. congruence.
  - exists (xs ++ ys). split; [done|]. intros u. rewrite elem_of_app. destruct (decide (u = v)) as [->|].
    + rewrite lookup_delete_eq, elem_of_app in *. split; [intros [? ?]; done|]. intros [?|[?|?]]; [tauto|tauto|done].
    + rewrite lookup_delete_ne by done. rewrite (Hs u), (Hvs u), elem_of_app, elem_of_cons. tauto.
Qed.
