(* ===== verification/VersionsSteps.v ===== *)
(** * Interleavings of readers, publishers and reclamation

    The sections of [Versions] preserve [inv]; [step] interleaves them with
    readers and with single drops of references. *)

From S2P Require Import Prelude.
From S2P Require Import Versions.
From S2P Require Import VersionsInv.

(** ** A new version *)
Lemma dll_next_ne l vs v : dll l vs -> v ∈ vs -> nxt l v <> Some v.
Proof.
  intros [Hnd Hch] Hv. apply list_elem_of_split in Hv as (xs & ys & ->).
  replace (0%nat :: (xs ++ v :: ys) ++ [0%nat]) with ((0%nat :: xs) ++ v :: (ys ++ [0%nat])) in Hch
    by (cbn; by rewrite <- app_assoc).
  apply chained_app in Hch as [_ Hch]. rewrite <- Permutation_middle in Hnd.
  apply NoDup_cons in Hnd as [H0 Hnd]. apply NoDup_cons in Hnd as [Hv _].
  destruct ys as [|y ys]; cbn in Hch; apply chained_cons in Hch as [[-> _] _]; intros [= E]; subst.
  - apply H0. left.
  - apply Hv, elem_of_app. right. left.
Qed.

Lemma new_version_inv s own v :
  inv s own None -> links s !! v = None -> v <> 0%nat -> inv (new_version v s) own (Some v).
Proof.
  intros [I1 I2 I3 I4 I5 (vs & D & Hvs) I7] Hl Hv0.
  assert (versions s !! v = None) as Hv.
  { destruct (versions s !! v) eqn:E; [|done]. destruct (I5 v) as [_ [? ?]]; [eauto|congruence]. }
  assert (dll (new_node v (links s)) vs) as D'.
  { destruct D as [Hnd Hch]. split; [done|]. eapply chained_frame; [|done]. intros a b He _ _.
    destruct (edge_nodes _ _ _ He) as [[? Ha] [? Hb]]. destruct He as [H1 H2]. unfold new_node.
    split; rewrite lookup_insert_ne; congruence. }
  split; cbn [new_version set_links set_versions views versions links files]; try done.
  - intros d. specialize (I1 d). rewrite cnt_app, held_cnt in *.
    cbn [new_version set_links set_versions current_ sv_ readers views versions drops].
    rewrite cnt_tokens_insert by done. unfold version_tokens at 1. cbn [l0_filemetas_ map]. rewrite cnt_nil.
    destruct d as [u|u|g|t|u]; cbn [refcount new_version set_links set_versions files views versions tables links] in *; try lia.
    + destruct (decide (v = u)) as [->|]; [rewrite lookup_insert_eq, Hv in *; cbn in *; lia|].
      rewrite lookup_insert_ne by done. lia.
    + unfold new_node. destruct (decide (v = u)) as [->|].
      * rewrite !lookup_insert_eq. rewrite decide_False in I1 by (rewrite Hl; intros (_ & [? ?] & _); done).
        rewrite decide_False by naive_solver. lia.
      * rewrite !lookup_insert_ne by done. lia.
  - intros u y [[<- <-]|[Hne Hu]]%lookup_insert_Some; [by right|]. destruct (I3 u y Hu); [by left|done].
  - intros u [Hu|Hu]%lookup_insert_is_Some'; unfold new_node; rewrite lookup_insert_is_Some'; [subst; auto|].
    destruct (I5 u Hu). auto.
  - exists vs. split; [done|]. intros u. unfold new_node. rewrite lookup_insert_is_Some', (Hvs u). naive_solver.
  - intros u [= <-]. split_and!; [done|apply lookup_insert_is_Some'; by left|]. intros vs' D2 Hin.
    apply (dll_next_ne _ _ _ D2 Hin). unfold new_node. by rewrite lookup_insert_eq.
Qed.

(** ** [AppendVersion] *)
Lemma take_current s own nb c :
  inv s own nb -> current_ s = Some c -> inv (set_current s None) (DVersion c :: own) nb.
Proof.
  intros [I1 I2 I3 I4 I5 I6 I7] Hc. split; cbn [set_current views versions links files]; try done.
  - intros d. specialize (I1 d). rewrite cnt_app, held_cnt, Hc in *.
    cbn [set_current current_ sv_ readers views versions drops opt_list map] in *. rewrite !cnt_cons, !cnt_nil in *.
    change (refcount (set_current s None) d) with (refcount s d). lia.
  - intros w x Hw. destruct (I2 w x Hw). split; [done|]. intros. right. auto.
Qed.

Lemma put_current s own nb v :
  inv s (own ++ [DVersion v]) nb -> current_ s = None -> inv (set_current s (Some v)) own nb.
Proof.
  intros [I1 I2 I3 I4 I5 I6 I7] Hc. split; cbn [set_current views versions links files]; try done.
  - intros d. specialize (I1 d). rewrite !cnt_app, held_cnt, Hc in *.
    cbn [set_current current_ sv_ readers views versions drops opt_list map] in *. rewrite !cnt_cons, !cnt_nil in *.
    change (refcount (set_current s (Some v)) d) with (refcount s d). lia.
  - intros w x Hw. destruct (I2 w x Hw) as [? H]. split; [done|]. intros Hn. specialize (H Hn).
    apply elem_of_app in H as [?|H%list_elem_of_singleton]; done.
Qed.

Lemma Version_Unref_current v s o :
  Version_Unref v (set_current s o) = (fun s' => set_current s' o) <$> Version_Unref v s.
Proof. unfold Version_Unref. cbn. destruct (versions s !! v); [|done]. cbn. repeat case_match; done. Qed.

Lemma link_front_inv s own v :
  inv s own (Some v) -> (forall x, versions s !! v = Some x -> 1 <= refs_ x) ->
  exists l, link_front v (links s) = Some l /\ inv (set_links s l) own None.
Proof.
  intros [I1 I2 I3 I4 I5 (vs & D & Hvs) I7] Hx. destruct (I7 v eq_refl) as (Hv0 & Hv & Hnin).
  destruct (link_front_dll (links s) vs v) as (l & E & D' & Hs); [done|done|by apply Hnin|by apply I5|].
  exists l. split; [done|]. split; cbn [set_links views versions links files]; try done.
  - intros d. specialize (I1 d). change (held (set_links s l)) with (held s).
    destruct d as [u|u|g|t|u]; try done. rewrite (unlink_ext s); [done|apply Hs|done].
  - intros u y Hu. left. destruct (I3 u y Hu) as [?|[= ->]]; [done|by apply Hx].
  - intros u Hu. destruct (I5 u Hu). split; [done|by apply Hs].
  - exists (v :: vs). split; [done|]. intros u. rewrite (Hs u), (Hvs u), elem_of_cons. naive_solver.
Qed.

Lemma AppendVersion_inv s own v x :
  inv s own (Some v) -> versions s !! v = Some x -> refs_ x = 0 ->
  exists s', AppendVersion v s = Some s' /\ inv s' own None /\ current_ s' = Some v /\
    versions s' !! v = Some (mkVersion 1 (l0_filemetas_ x)) /\
    files s' = files s /\ views s' = views s /\ sv_ s' = sv_ s /\ tables s' = tables s /\ readers s' = readers s.
Proof.
  intros I Hv Hx. assert (current_ s <> Some v) as Hcv.
  { intros Hc. pose proof (inv_held _ _ _ (DVersion v) I) as H. unfold refcount in H. rewrite Hv in H. cbn in H.
    assert (DVersion v ∈ held s) as Hin by (unfold held; rewrite Hc; left). specialize (H Hin). lia. }
  assert (exists s1, (match current_ s with Some c => Version_Unref c s | None => Some s end) = Some s1 /\
    inv (set_current s1 None) own (Some v) /\ versions s1 !! v = Some x /\
    files s1 = files s /\ views s1 = views s /\ sv_ s1 = sv_ s /\ tables s1 = tables s /\ readers s1 = readers s)
    as (s1 & E1 & I1 & V1 & F1 & F2 & F3 & F4 & F5).
  { destruct (current_ s) as [c|] eqn:Ec.
    - destruct (version_unref (set_current s None) own (Some v) c) as (s1' & E & I1 & [Hr Ho _]).
      { by apply take_current. } { congruence. }
      rewrite Version_Unref_current in E. destruct (Version_Unref c s) as [s1|]; [|done]. cbn in E. injection E as <-.
      exists s1. cbn in Ho, Hr. split_and!; try done; [|destruct_and!; done..]. rewrite Ho by congruence. done.
    - exists s. split_and!; try done. destruct s. cbn in *. by subst. }
  unfold AppendVersion. rewrite Hv. simpl_bind. rewrite Hx, bool_decide_eq_false_2 by done.
  cbn [Z.eqb negb orb]. rewrite E1. simpl_bind.
  destruct (version_ref _ _ _ v x I1 V1) as [E2 I2]. cbn zeta in E2, I2. cbn [set_current versions] in E2, I2.
  assert (Version_Ref v (set_current s1 (Some v)) =
    Some (set_versions (set_current s1 (Some v)) (<[v := mkVersion (refs_ x + 1) (l0_filemetas_ x)]> (versions s1)))) as ->.
  { unfold Version_Ref. cbn. by rewrite V1. }
  simpl_bind. apply put_current in I2; [|done].
  match type of I2 with inv ?z _ _ => set (s2 := z) in * end.
  destruct (link_front_inv s2 own v I2) as (l & E3 & I3).
  { intros y. cbn. rewrite lookup_insert_eq. intros [= <-]. cbn. lia. }
  cbn [set_versions links]. change (links (set_current s1 (Some v))) with (links s2). rewrite E3. simpl_bind.
  eexists. split; [done|]. split_and!; try done. cbn. rewrite lookup_insert_eq, Hx. done.
Qed.

(** ** [LogAndApply] *)
Lemma insert_desc_perm f l : insert_desc f l ≡ₚ f :: l.
Proof.
  induction l as [|g l IH]; [done|]. cbn. destruct (g <=? f); [done|]. rewrite IH. apply Permutation_swap.
Qed.

Lemma sort_desc_perm l : sort_desc l ≡ₚ l.
Proof. induction l as [|f l IH]; [done|]. cbn. by rewrite insert_desc_perm, IH. Qed.

Lemma insert_desc_sorted f l : StronglySorted Z.ge l -> StronglySorted Z.ge (insert_desc f l).
Proof.
  induction l as [|g l IH]; intros H; cbn; [by repeat constructor|]. apply StronglySorted_inv in H as [Hs Hg].
  destruct (Z.leb_spec g f).
  - constructor; [by constructor|]. constructor; [lia|]. eapply Forall_impl; [exact Hg|]. cbn. lia.
  - constructor; [by apply IH|]. rewrite insert_desc_perm. constructor; [lia|done].
Qed.

Lemma sort_desc_sorted l : StronglySorted Z.ge (sort_desc l).
Proof. induction l as [|f l IH]; cbn; [constructor|by apply insert_desc_sorted]. Qed.

Lemma version_fill s own nb v x l l' :
  inv s (own ++ map DFile l) nb -> versions s !! v = Some x -> l0_filemetas_ x = [] -> l' ≡ₚ l ->
  inv (set_versions s (<[v := mkVersion (refs_ x) l']> (versions s))) own nb.
Proof.
  intros [I1 I2 I3 I4 I5 I6 I7] Hv Hx Hl. split; cbn [set_versions views versions links files]; try done.
  - intros d. specialize (I1 d). rewrite !cnt_app, held_cnt in *.
    cbn [set_versions current_ sv_ readers views versions drops].
    rewrite (cnt_tokens_update _ _ _ x) by done. unfold version_tokens at 2 3. rewrite Hx. cbn [l0_filemetas_ map].
    assert (cnt d (map DFile l') = cnt d (map DFile l)) as -> by (apply cnt_perm; by apply Permutation_map).
    rewrite cnt_nil.
    destruct d as [w|u|g|t|u]; [..|rewrite (unlink_ext s) by (try done; by apply (insert_None_iff _ _ x)); lia];
      cbn [refcount set_versions files views versions tables links] in *; try lia.
    destruct (decide (v = u)) as [->|]; [rewrite lookup_insert_eq, Hv in *; cbn in *; lia|].
    rewrite lookup_insert_ne by done. lia.
  - intros w y Hw. destruct (I2 w y Hw) as [? H]. split; [done|]. intros Hn. specialize (H Hn).
    apply elem_of_app in H as [?|H]; [done|]. apply list_elem_of_fmap in H as (? & ? & _). done.
  - intros u y [[<- <-]|[Hne Hu]]%lookup_insert_Some; [by apply (I3 v x)|by apply I3].
  - intros u [Hu|Hu]%lookup_insert_is_Some'; [subst u|]; apply I5; eauto.
  - intros u Hu. destruct (I7 u Hu) as (? & ? & ?). split_and!; [done| |done]. apply lookup_insert_is_Some'. by right.
Qed.

Lemma elem_of_tokens {A} (f : A -> list Drop) (m : gmap nat A) k x d :
  m !! k = Some x -> d ∈ f x -> d ∈ tokens_of f m.
Proof. intros H Hd. rewrite (tokens_of_delete f m k x H). apply elem_of_app. by left. Qed.

(** The files of a live version are live. *)
Lemma version_files_live s own nb v x f :
  inv s own nb -> versions s !! v = Some x -> f ∈ l0_filemetas_ x -> is_Some (files s !! f).
Proof.
  intros I Hv Hf. pose proof (inv_held _ _ _ (DFile f) I) as H. cbn in H.
  assert (DFile f ∈ held s) as Hin.
  { unfold held. rewrite !elem_of_app. do 4 right. left. eapply elem_of_tokens; [done|]. by apply list_elem_of_fmap_2. }
  specialize (H Hin). destruct (files s !! f); [eauto|cbn in H; lia].
Qed.

(** The files of the version that [edit] makes of one with the files [l]. *)
Definition edited (edit : VersionEdit) (l : list Z) : list Z :=
  sort_desc (kept_files edit l ++ kept_files edit (new_files_ edit)).

Record applied (edit : VersionEdit) (v : nat) (s s' : Store) : Prop := {
  ap_current : current_ s' = Some v;
  ap_rest : views s' = views s /\ sv_ s' = sv_ s /\ tables s' = tables s /\ readers s' = readers s;
  ap_files : forall f, is_Some (files s !! f) -> is_Some (files s' !! f);
  ap_version : forall c x, current_ s = Some c -> versions s !! c = Some x ->
    versions s' !! v = Some (mkVersion 1 (edited edit (l0_filemetas_ x)));
}.

Lemma LogAndApply_inv s own edit v c x :
  inv s own None -> links s !! v = None -> v <> 0%nat -> current_ s = Some c -> versions s !! c = Some x ->
  (forall f, f ∈ new_files_ edit -> is_Some (files s !! f)) ->
  exists s', LogAndApply edit v (new_version v s) = Some s' /\ inv s' own None /\ applied edit v s s'.
Proof.
  intros I Hl Hv0 Hc Hx Hnew. pose proof (new_version_inv s own v I Hl Hv0) as I0. set (s0 := new_version v s) in *.
  assert (c <> v) as Hcv by (intros ->; destruct (inv_linked _ _ _ I v) as [_ [? ?]]; [eauto|congruence]).
  unfold LogAndApply. change (current_ s0) with (current_ s). rewrite Hc. simpl_bind.
  assert (versions s0 !! c = Some x) as Hx0 by (cbn; by rewrite lookup_insert_ne). rewrite Hx0. simpl_bind.
  assert (versions s0 !! v = Some (mkVersion 0 [])) as Hv by (cbn; by rewrite lookup_insert_eq).
  rewrite Hv. simpl_bind.
  set (l1 := kept_files edit (l0_filemetas_ x)). set (l2 := kept_files edit (new_files_ edit)).
  destruct (files_ref s0 own (Some v) l1 I0) as (fs1 & E1 & I1 & F1).
  { intros f [_ Hf]%list_elem_of_filter. by eapply (version_files_live s). }
  rewrite E1. simpl_bind. destruct (files_ref _ _ _ l2 I1) as (fs2 & E2 & I2 & F2).
  { intros f [_ Hf]%list_elem_of_filter. by apply F1, Hnew. }
  rewrite E2. cbn [mbind option_bind refs_ l0_filemetas_ app]. rewrite <- app_assoc, <- map_app in I2.
  pose proof (version_fill _ _ _ v _ _ (sort_desc (l1 ++ l2)) I2 Hv eq_refl (sort_desc_perm _)) as I3.
  destruct (AppendVersion_inv _ _ _ (mkVersion 0 (sort_desc (l1 ++ l2))) I3) as (s' & E & I4 & C4 & V4 & F4 & F5 & F6 & F7 & F8);
    [cbn; by rewrite lookup_insert_eq|done|].
  exists s'. split; [exact E|]. split; [done|]. split; [done|done| |].
  - intros f Hf. rewrite F4. cbn. by apply F2, F1.
  - intros c' x' Hc' Hx'. assert (c' = c) as -> by congruence. assert (x' = x) as -> by congruence. exact V4.
Qed.

(** ** The invariant of the system

    [owned] are the files whose creation reference the levels still hold. *)
Record winv (s : Store) (owned : list Z) : Prop := {
  w_inv : inv s (map DFile owned) None;
  w_sv : exists o x v, sv_ s = Some o /\ views s !! o = Some x /\ view_version x = Some v /\ current_ s = Some v;
}.

Lemma not_view_token owned w : DView w ∉ map DFile owned.
Proof. intros (f & ? & _)%list_elem_of_fmap. done. Qed.

Lemma winv_versioned s owned : winv s owned -> forall w x, views s !! w = Some x -> view_version x <> None.
Proof. intros [I _] w x Hw Hn. destruct (inv_views _ _ _ I w x Hw) as [_ H]. exact (not_view_token _ _ (H Hn)). Qed.

Lemma view_live s own nb w x :
  inv s own nb -> views s !! w = Some x ->
  (forall v, view_version x = Some v -> is_Some (versions s !! v)) /\
  (forall t, t ∈ menTables x -> exists n, tables s !! t = Some n /\ 1 <= n).
Proof.
  intros I Hw. assert (forall d, d ∈ view_tokens x -> 1 <= refcount s d) as H.
  { intros d Hd. eapply inv_held; [done|]. unfold held. rewrite !elem_of_app. do 3 right. left. by eapply elem_of_tokens. }
  split.
  - intros v Hv. assert (1 <= refcount s (DVersion v)) as Hc.
    { apply H. unfold view_tokens. rewrite Hv. left. }
    cbn in Hc. destruct (versions s !! v); [eauto|cbn in Hc; lia].
  - intros t Ht. assert (1 <= refcount s (DTable t)) as Hc.
    { apply H. unfold view_tokens. apply elem_of_app. right. by apply list_elem_of_fmap_2. }
    cbn in Hc. destruct (tables s !! t) as [n|]; [eauto|cbn in Hc; lia].
Qed.

Lemma view_tables_live s own nb w x :
  inv s own nb -> views s !! w = Some x -> forall t, t ∈ menTables x -> is_Some (tables s !! t).
Proof. intros I Hw t Ht. destruct (view_live _ _ _ _ _ I Hw) as [_ H]. destruct (H t Ht) as (n & ? & _). eauto. Qed.

(** The end of every publishing section. *)
Lemma publish_winv s owned w x v :
  inv s (map DFile owned ++ [DView w]) None -> views s !! w = Some x -> view_version x = Some v -> current_ s = Some v ->
  winv (publish_view w s) owned.
Proof.
  intros I Hw Hx Hc. split.
  - eapply (publish_view_inv s _ _ w x); [|done|by rewrite Hx].
    eapply inv_perm; [|exact I]. apply Permutation_app_comm.
  - exists w, x, v. done.
Qed.

Lemma rotate_winv s owned w t :
  winv s owned -> views s !! w = None -> is_Some (tables s !! t) ->
  exists s', rotate w t s = Some s' /\ winv s' owned.
Proof.
  intros [I (o & x & v & Hsv & Hx & Hv & Hc)] Hw Ht. destruct (view_live _ _ _ _ _ I Hx) as [Hver _].
  pose proof (view_tables_live _ _ _ _ _ I Hx) as Htab.
  pose proof (new_view_inv _ _ _ w I Hw) as I1. set (s1 := new_view w s) in *.
  unfold rotate. rewrite Hsv. simpl_bind. rewrite Hx. simpl_bind.
  destruct (batch_insert_inv s1 _ _ w (menTables x) (mkView 1 [] None) I1) as (s2 & E2 & I2 & B2 & V2);
    [done|apply lookup_insert_eq|intros _; apply elem_of_app; right; left|].
  fold s1. rewrite E2. simpl_bind. rewrite Hv. simpl_bind. cbn [menTables app] in V2.
  destruct (set_vs_inv s2 _ _ w v (mkView 1 (menTables x) None) I2) as (s3 & E3 & I3 & B3 & V3);
    [apply B2; by apply Hver|rewrite V2; apply lookup_insert_eq|done|].
  rewrite E3. simpl_bind.
  destruct (insert_tb_inv s3 _ _ w t (mkView 1 (menTables x) (Some v)) I3) as (s4 & E4 & I4 & B4 & V4);
    [by apply B3, B2|rewrite V3; apply lookup_insert_eq|done|].
  rewrite E4. simpl_bind. eexists. split; [done|].
  eapply publish_winv; [done|rewrite V4; apply lookup_insert_eq|done|].
  destruct B2 as (_ & _ & B2 & _), B3 as (_ & _ & B3 & _), B4 as (_ & _ & B4 & _). rewrite B4, B3, B2. exact Hc.
Qed.

Lemma publish_flush_winv s owned f t v w o x :
  winv s owned -> sv_ s = Some o -> views s !! o = Some x -> t ∈ menTables x ->
  is_Some (files s !! f) -> links s !! v = None -> v <> 0%nat -> views s !! w = None ->
  exists s', publish_flush f t v w s = Some s' /\ winv s' owned.
Proof.
  intros [I (o' & x' & c & Hsv' & Hx' & Hc & Hcur)] Hsv Hx Ht Hf Hl Hv0 Hw.
  assert (o' = o) as -> by congruence. assert (x' = x) as -> by congruence. clear Hsv' Hx'.
  destruct (view_live _ _ _ _ _ I Hx) as [Hver _]. destruct (Hver c Hc) as [cx Hcx].
  pose proof (view_tables_live _ _ _ _ _ I Hx) as Htab.
  destruct (LogAndApply_inv s _ (mkEdit [f] ∅) v c cx I Hl Hv0 Hcur Hcx) as (s1 & E1 & I1 & [A1 (A2 & A3 & A4 & A5) A6 A7]).
  { intros g Hg. apply list_elem_of_singleton in Hg as ->. done. }
  specialize (A7 c cx Hcur Hcx). unfold publish_flush. rewrite E1. simpl_bind.
  rewrite A3, Hsv. simpl_bind. rewrite A2, Hx. simpl_bind.
  rewrite <- A2 in Hw. pose proof (new_view_inv _ _ _ w I1 Hw) as J1. set (s2 := new_view w s1) in *.
  destruct (batch_insert_inv s2 _ _ w (menTables x) (mkView 1 [] None) J1) as (s3 & E3 & I3 & B3 & V3);
    [intros u Hu; cbn; rewrite A4; by apply Htab|apply lookup_insert_eq|intros _; apply elem_of_app; right; left|].
  rewrite E3. simpl_bind. cbn [menTables app] in V3.
  destruct (remove_tb_inv s3 _ _ w t (mkView 1 (menTables x) None) I3) as (s4 & E4 & I4 & B4 & V4);
    [done|rewrite V3; apply lookup_insert_eq|intros _; apply elem_of_app; right; left|].
  rewrite E4. simpl_bind.
  assert (current_ s4 = Some v) as C4 by (destruct B3 as (_ & _ & B3 & _), B4 as (_ & _ & B4 & _); rewrite B4, B3; exact A1).
  rewrite C4. simpl_bind.
  destruct (set_vs_inv s4 _ _ w v (mkView 1 (vectorDel (menTables x) t) None) I4) as (s5 & E5 & I5 & B5 & V5);
    [apply B4, B3; cbn; rewrite A7; eauto|rewrite V4; apply lookup_insert_eq|done|].
  rewrite E5. simpl_bind. eexists. split; [done|].
  eapply publish_winv; [done|rewrite V5; apply lookup_insert_eq|done|].
  destruct B5 as (_ & _ & B5 & _). by rewrite B5.
Qed.

Lemma push_inv s own own' nb ds :
  inv s own nb -> own ≡ₚ ds ++ own' -> (forall w, DView w ∉ ds) -> inv (push s ds) own' nb.
Proof.
  intros [I1 I2 I3 I4 I5 I6 I7] Hp Hd. split; cbn [push set_drops views versions links files]; try done.
  - intros d. specialize (I1 d). rewrite !cnt_app, held_cnt in *. cbn [push set_drops current_ sv_ readers views versions drops].
    rewrite (cnt_perm d _ _ Hp) in I1. rewrite !cnt_app in *.
    change (refcount (push s ds) d) with (refcount s d). lia.
  - intros w x Hw. destruct (I2 w x Hw) as [? H]. split; [done|]. intros Hn. specialize (H Hn).
    rewrite Hp in H. apply elem_of_app in H as [H|?]; [by destruct (Hd w)|done].
Qed.

Lemma publish_compaction_winv s owned owned' deleted unref v w :
  winv s owned -> owned ≡ₚ unref ++ owned' -> links s !! v = None -> v <> 0%nat -> views s !! w = None ->
  exists s', publish_compaction deleted unref v w s = Some s' /\ winv s' owned'.
Proof.
  intros [I (o & x & c & Hsv & Hx & Hc & Hcur)] Hown Hl Hv0 Hw.
  destruct (view_live _ _ _ _ _ I Hx) as [Hver _]. destruct (Hver c Hc) as [cx Hcx].
  pose proof (view_tables_live _ _ _ _ _ I Hx) as Htab.
  destruct (LogAndApply_inv s _ (mkEdit [] deleted) v c cx I Hl Hv0 Hcur Hcx) as (s1 & E1 & I1 & [A1 (A2 & A3 & A4 & A5) A6 A7]).
  { intros g Hg. by apply elem_of_nil in Hg. }
  specialize (A7 c cx Hcur Hcx). unfold publish_compaction. rewrite E1. simpl_bind.
  rewrite A3, Hsv. simpl_bind. rewrite A2, Hx. simpl_bind.
  rewrite <- A2 in Hw. pose proof (new_view_inv _ _ _ w I1 Hw) as J1. set (s2 := new_view w s1) in *.
  destruct (batch_insert_inv s2 _ _ w (menTables x) (mkView 1 [] None) J1) as (s3 & E3 & I3 & B3 & V3);
    [intros u Hu; cbn; rewrite A4; by apply Htab|apply lookup_insert_eq|intros _; apply elem_of_app; right; left|].
  rewrite E3. simpl_bind. cbn [menTables app] in V3.
  assert (current_ s3 = Some v) as C3 by (destruct B3 as (_ & _ & B3 & _); rewrite B3; exact A1).
  rewrite C3. simpl_bind.
  destruct (set_vs_inv s3 _ _ w v (mkView 1 (menTables x) None) I3) as (s5 & E5 & I5 & B5 & V5);
    [apply B3; cbn; rewrite A7; eauto|rewrite V3; apply lookup_insert_eq|done|].
  rewrite E5. simpl_bind. eexists. split; [done|].
  destruct (publish_winv s5 owned w (mkView 1 (menTables x) (Some v)) v) as [J2 J3];
    [done|rewrite V5; apply lookup_insert_eq|done|destruct B5 as (_ & _ & B5 & _); by rewrite B5|].
  split; [|exact J3]. eapply push_inv; [exact J2|rewrite <- map_app; by apply Permutation_map|].
  intros u. apply not_view_token.
Qed.

(** ** Readers, drops, new objects *)
Lemma get_superversion_winv s owned :
  winv s owned -> exists s', get_superversion s = Some s' /\ winv s' owned.
Proof.
  intros W. pose proof (winv_versioned _ _ W) as Hall. destruct W as [[I1 I2 I3 I4 I5 I6 I7] (o & x & c & Hsv & Hx & Hc & Hcur)].
  unfold get_superversion. rewrite Hsv. simpl_bind. rewrite Hx. simpl_bind. eexists. split; [done|].
  split.
  - split; cbn [set_readers set_views views versions links files]; try done.
    + intros d. specialize (I1 d). rewrite cnt_app, held_cnt in *.
      cbn [set_readers set_views current_ sv_ readers views versions drops].
      rewrite (cnt_tokens_update _ _ _ x) by done. unfold view_tokens at 2 3. cbn [view_version menTables].
      rewrite map_app, !cnt_app. cbn [map]. rewrite !cnt_cons, !cnt_nil.
      destruct d as [u|u|g|t|u]; cbn [refcount set_readers set_views files views versions tables links] in *; count.
      * rewrite lookup_insert_eq, Hx in *. cbn in *. lia.
      * rewrite lookup_insert_ne by congruence. lia.
    + intros u y [[<- <-]|[Hne Hu]]%lookup_insert_Some; [|by apply I2]. destruct (I2 o x Hx). split; [cbn; lia|done].
  - exists o, (mkView (use_count x + 1) (menTables x) (view_version x)), c. split_and!; try done. apply lookup_insert_eq.
Qed.

Lemma end_read_winv s owned k w :
  winv s owned -> readers s !! k = Some w -> exists s', end_read k s = Some s' /\ winv s' owned.
Proof.
  intros [[I1 I2 I3 I4 I5 I6 I7] Hsv] Hk. unfold end_read. rewrite Hk. simpl_bind. eexists. split; [done|].
  split; [|done]. split; cbn [push set_drops set_readers views versions links files]; try done.
  intros d. specialize (I1 d). rewrite cnt_app, held_cnt in *.
  cbn [push set_drops set_readers current_ sv_ readers views versions drops].
  rewrite <- (take_drop_middle _ _ _ Hk) in I1. rewrite !map_app, !cnt_app in *. cbn [map] in I1. rewrite cnt_cons, cnt_nil in *.
  change (refcount (push (set_readers s _) _) d) with (refcount s d). lia.
Qed.

(** What a drop leaves alone. *)
Record drop_frame (s s' : Store) : Prop := {
  df_rest : current_ s' = current_ s /\ sv_ s' = sv_ s /\ readers s' = readers s;
  df_views : forall w y, views s' !! w = Some y -> exists x, views s !! w = Some x /\
    menTables y = menTables x /\ view_version y = view_version x;
}.

Lemma take_drop s owned ds1 d ds2 :
  inv s (map DFile owned) None -> drops s = ds1 ++ d :: ds2 ->
  inv (set_drops s (ds1 ++ ds2)) (d :: map DFile owned) None.
Proof.
  intros [I1 I2 I3 I4 I5 I6 I7] Hd. split; cbn [set_drops views versions links files]; try done.
  - intros e. specialize (I1 e). rewrite cnt_app, held_cnt, Hd in *.
    cbn [set_drops current_ sv_ readers views versions drops]. rewrite !cnt_app, !cnt_cons in *.
    change (refcount (set_drops s _) e) with (refcount s e). lia.
  - intros w x Hw. destruct (I2 w x Hw) as [? H]. split; [done|]. intros Hn. right. auto.
Qed.

Lemma run_drop_inv s d owned :
  inv s (d :: map DFile owned) None -> (forall w x, views s !! w = Some x -> view_version x <> None) ->
  exists s', run_drop d s = Some s' /\ inv s' (map DFile owned) None.
Proof.
  intros I Hall. destruct d as [w|v|f|t|v]; cbn [run_drop].
  - by apply release_view_inv.
  - destruct (version_unref _ _ _ _ I) as (s' & ? & ? & _); [done|eauto].
  - destruct (file_unref _ _ _ _ I) as (fs & ? & ?). eauto.
  - destruct (table_unref _ _ _ _ I) as (n & _ & ? & ?). eauto.
  - by apply free_version_inv.
Qed.

Lemma run_drop_frame d s s' : run_drop d s = Some s' -> drop_frame s s'.
Proof.
  destruct d as [w|v|f|t|v]; cbn [run_drop]; unfold release_view, Version_Unref, SSTableCache_Unref, MemTable_Unref, free_version.
  - destruct (views s !! w) as [x|] eqn:Hx; [|done]. cbn. destruct (_ <? 1); [done|]. destruct (1 <? _); intros [= <-].
    + split; [done|]. cbn. intros u y [[<- <-]|[Hne Hu]]%lookup_insert_Some; eauto.
    + split; [done|]. cbn. intros u y [Hne Hu]%lookup_delete_Some. eauto.
  - destruct (versions s !! v); [|done]. cbn. destruct (_ || _); [done|]. destruct (1 <? _); intros [= <-]; split; cbn; eauto.
  - destruct (files s !! f); [|done]. cbn. destruct (_ <? 1); [done|]. intros [= <-]. split; cbn; eauto.
  - destruct (tables s !! t); [|done]. cbn. destruct (_ <? 0); [done|]. intros [= <-]. split; cbn; eauto.
  - destruct (DeleteVersion v (links s)); [|done]. cbn. intros [= <-]. split; cbn; eauto.
Qed.

Lemma drop_winv s owned ds1 d ds2 :
  winv s owned -> drops s = ds1 ++ d :: ds2 ->
  exists s', run_drop d (set_drops s (ds1 ++ ds2)) = Some s' /\ winv s' owned.
Proof.
  intros W Hd. pose proof (winv_versioned _ _ W) as Hall. destruct W as [I (o & x & c & Hsv & Hx & Hc & Hcur)].
  destruct (run_drop_inv _ _ _ (take_drop _ _ _ _ _ I Hd) Hall) as (s' & E & I').
  exists s'. split; [done|]. split; [done|]. destruct (run_drop_frame _ _ _ E) as [(C1 & C2 & C3) Hv].
  cbn in C1, C2, C3, Hv. pose proof (inv_held _ _ _ (DView o) I') as Hl.
  assert (DView o ∈ held s') as Hin by (unfold held; rewrite C2, Hsv, !elem_of_app; right; left; left).
  specialize (Hl Hin). cbn in Hl. destruct (views s' !! o) as [y|] eqn:Ey; [|cbn in Hl; lia].
  destruct (Hv o y Ey) as (x' & Hx' & _ & Hvv). assert (x' = x) as -> by congruence.
  exists o, y, c. split_and!; congruence.
Qed.

Lemma new_file_winv s owned f : winv s owned -> files s !! f = None -> winv (new_file f s) (owned ++ [f]).
Proof.
  intros [[I1 I2 I3 I4 I5 I6 I7] Hsv] Hf. split; [|done]. split; cbn [new_file set_files views versions links files]; try done.
  - intros d. specialize (I1 d). change (held (new_file f s)) with (held s). rewrite map_app, !cnt_app in *. cbn [map].
    rewrite cnt_cons, cnt_nil.
    destruct d as [u|u|g|t|u]; cbn [refcount new_file set_files files views versions tables links] in *; count.
    + rewrite lookup_insert_eq, Hf in *. cbn in *. lia.
    + rewrite lookup_insert_ne by congruence. lia.
  - intros w x Hw. destruct (I2 w x Hw) as [? H]. split; [done|]. intros Hn. destruct (not_view_token _ _ (H Hn)).
  - intros g n [[<- <-]|[_ Hg]]%lookup_insert_Some; [lia|by eapply I4].
Qed.

(** A MemTable from the free list, whose count is zero. *)
Definition new_table (t : nat) (s : Store) : Store := set_tables s (<[t := 0]> (tables s)).

Lemma new_table_inv s own nb t : inv s own nb -> default 0 (tables s !! t) = 0 -> inv (new_table t s) own nb.
Proof.
  intros [I1 I2 I3 I4 I5 I6 I7] Ht. split; cbn [new_table set_tables views versions links files]; try done.
  intros d. specialize (I1 d). change (held (new_table t s)) with (held s).
  destruct d as [u|u|g|t'|u]; cbn [refcount new_table set_tables files views versions tables links] in *; try done.
  destruct (decide (t = t')) as [->|]; [rewrite lookup_insert_eq; cbn; lia|by rewrite lookup_insert_ne].
Qed.

Lemma new_table_winv s owned t : winv s owned -> default 0 (tables s !! t) = 0 -> winv (new_table t s) owned.
Proof. intros [I Hsv] Ht. split; [by apply new_table_inv|done]. Qed.

(** ** The interleavings *)
Inductive step : Store * list Z -> Store * list Z -> Prop :=
| step_new_table s owned t :
    default 0 (tables s !! t) = 0 -> step (s, owned) (new_table t s, owned)
| step_rotate s s' owned w t :
    views s !! w = None -> is_Some (tables s !! t) -> rotate w t s = Some s' -> step (s, owned) (s', owned)
| step_new_file s owned f :
    files s !! f = None -> step (s, owned) (new_file f s, owned ++ [f])
| step_flush s s' owned f t v w o x :
    sv_ s = Some o -> views s !! o = Some x -> t ∈ menTables x -> is_Some (files s !! f) ->
    links s !! v = None -> v <> 0%nat -> views s !! w = None ->
    publish_flush f t v w s = Some s' -> step (s, owned) (s', owned)
| step_compaction s s' owned owned' deleted unref v w :
    owned ≡ₚ unref ++ owned' -> links s !! v = None -> v <> 0%nat -> views s !! w = None ->
    publish_compaction deleted unref v w s = Some s' -> step (s, owned) (s', owned')
| step_read s s' owned : get_superversion s = Some s' -> step (s, owned) (s', owned)
| step_end_read s s' owned k : end_read k s = Some s' -> step (s, owned) (s', owned)
| step_drop s s' owned ds1 d ds2 :
    drops s = ds1 ++ d :: ds2 -> run_drop d (set_drops s (ds1 ++ ds2)) = Some s' -> step (s, owned) (s', owned).

(** The store after [LSMStore::LSMStore]: version 1, view 1 over table [t]. *)
Definition opened (t : nat) : option Store :=
  s ← new_versionset 1;
  init_view 1 t (new_table t s).

Inductive reachable : Store * list Z -> Prop :=
| reach_init t s : opened t = Some s -> reachable (s, [])
| reach_step p q : reachable p -> step p q -> reachable q.

Definition no_store : Store := mkStore ∅ ∅ {[0%nat := mkLinks 0 0]} None ∅ None ∅ [] [].

Lemma no_store_inv : inv no_store [] None.
Proof.
  split; cbn [no_store views versions links files]; try (intros; set_solver).
  - intros d. change (held no_store ++ []) with (@nil Drop). rewrite cnt_nil.
    destruct d as [u|u|g|t|u]; cbn [refcount no_store files views versions tables links]; rewrite ?lookup_empty; try done.
    rewrite decide_False; [done|]. intros (H0 & [x Hx] & _). by rewrite lookup_singleton_ne in Hx.
  - intros v [x Hx]. by rewrite lookup_empty in Hx.
  - exists []. split.
    + split; [apply NoDup_singleton|]. cbn. apply chained_cons. split; [|apply chained_nil]. by split; rewrite lookup_singleton_eq.
    + intros v. rewrite lookup_singleton_is_Some. split; [intros <-; by left|]. intros [->|[H|H]]; [done| |done].
      by apply elem_of_nil in H.
Qed.

Lemma opened_winv t : exists s, opened t = Some s /\ winv s [].
Proof.
  unfold opened, new_versionset. fold no_store.
  pose proof (new_version_inv no_store [] 1 no_store_inv eq_refl ltac:(done)) as I0.
  destruct (AppendVersion_inv _ _ 1 (mkVersion 0 []) I0 eq_refl eq_refl)
    as (s1 & E1 & I1 & C1 & V1 & F1 & F2 & F3 & F4 & F5).
  rewrite E1. simpl_bind. unfold init_view.
  assert (inv (new_table t s1) [] None) as I2 by (apply new_table_inv; [done|by rewrite F4]).
  change (current_ (new_table t s1)) with (current_ s1). rewrite C1. simpl_bind.
  assert (views (new_table t s1) !! 1%nat = None) as Hw by (cbn; by rewrite F2).
  pose proof (new_view_inv _ _ _ 1 I2 Hw) as I3. set (s3 := new_view 1 (new_table t s1)) in *.
  destruct (set_vs_inv s3 _ _ 1 1 (mkView 1 [] None) I3) as (s4 & E4 & I4 & B4 & V4);
    [cbn; rewrite V1; eauto|apply lookup_insert_eq|done|].
  rewrite E4. simpl_bind.
  destruct (insert_tb_inv s4 _ _ 1 t (mkView 1 [] (Some 1%nat)) I4) as (s5 & E5 & I5 & B5 & V5);
    [apply B4; cbn; rewrite lookup_insert_eq; eauto|rewrite V4; apply lookup_insert_eq|done|].
  rewrite E5. simpl_bind. eexists. split; [done|].
  eapply publish_winv; [exact I5|rewrite V5; apply lookup_insert_eq|done|].
  destruct B4 as (_ & _ & B4 & _), B5 as (_ & _ & B5 & _). rewrite B5, B4. exact C1.
Qed.

Lemma step_winv p q : winv p.1 p.2 -> step p q -> winv q.1 q.2.
Proof.
  intros W H. destruct H as [s owned t Ht|s s' owned w t Hw Ht E|s owned f Hf|s s' owned f t v w o x Hsv Hx Ht Hf Hl Hv Hw E|
    s s' owned owned' deleted unref v w Ho Hl Hv Hw E|s s' owned E|s s' owned k E|s s' owned ds1 d ds2 Hd E]; cbn [fst snd] in *.
  - by apply new_table_winv.
  - destruct (rotate_winv s owned w t) as (? & ? & ?); [done..|]. by simplify_eq.
  - by apply new_file_winv.
  - destruct (publish_flush_winv s owned f t v w o x) as (? & ? & ?); [done..|]. by simplify_eq.
  - destruct (publish_compaction_winv s owned owned' deleted unref v w) as (? & ? & ?); [done..|]. by simplify_eq.
  - destruct (get_superversion_winv s owned) as (? & ? & ?); [done..|]. by simplify_eq.
  - destruct (readers s !! k) as [w|] eqn:Hk; [|unfold end_read in E; by rewrite Hk in E].
    destruct (end_read_winv s owned k w) as (? & ? & ?); [done..|]. by simplify_eq.
  - destruct (drop_winv s owned ds1 d ds2) as (? & ? & ?); [done..|]. by simplify_eq.
Qed.

Lemma reachable_winv p : reachable p -> winv p.1 p.2.
Proof.
  induction 1 as [t s E|p q _ IH Hs]; [|by eapply step_winv].
  destruct (opened_winv t) as (s' & E' & W). cbn. by simplify_eq.
Qed.
