(* ===== verification/VersionsTheorems.v ===== *)
(** * Theorems on versions and super versions *)

From S2P Require Import Prelude.
From S2P Require Import Versions.
From S2P Require Import VersionsInv.
From S2P Require Import VersionsSteps.

(** ** What readers may rely on *)

(** The view [w] and everything a reader reaches through it are live. *)
Definition protected (s : Store) (w : nat) : Prop :=
  exists x v y, views s !! w = Some x /\ view_version x = Some v /\ versions s !! v = Some y /\
    (forall f, f ∈ l0_filemetas_ y -> is_Some (files s !! f)) /\
    (forall t, t ∈ menTables x -> exists n, tables s !! t = Some n /\ 1 <= n).

Lemma token_protected s owned w : winv s owned -> DView w ∈ held s -> protected s w.
Proof.
  intros W Hin. pose proof (winv_versioned _ _ W) as Hall. destruct W as [I _].
  pose proof (inv_held _ _ _ _ I Hin) as Hc. cbn in Hc. destruct (views s !! w) as [x|] eqn:Hx; [|cbn in Hc; lia].
  destruct (view_live _ _ _ _ _ I Hx) as [Hv Ht]. specialize (Hall w x Hx).
  destruct (view_version x) as [v|] eqn:Hxv; [|done]. destruct (Hv v eq_refl) as [y Hy].
  exists x, v, y. split_and!; try done. intros f Hf. by eapply version_files_live.
Qed.

(** C16: A reader's snapshot stays valid for as long as the reader holds it.
    Whatever flushes, rotations, compactions and other readers do, in every
    reachable state the view held by each reader, and the published one, is
    live, its version is live, every level-0 file of that version still exists,
    and every MemTable of the view has a positive count, so it is not
    recycled. *)
Theorem readers_protected s owned w :
  reachable (s, owned) -> w ∈ readers s \/ sv_ s = Some w -> protected s w.
Proof.
  intros R Hw. apply reachable_winv in R. eapply token_protected; [exact R|].
  unfold held. rewrite !elem_of_app. right. destruct Hw as [Hw| ->]; [right; left; by apply list_elem_of_fmap_2|left; left].
Qed.

(** C26: No operation on versions and views ever touches a freed object or fails
    an assertion: in every reachable state every pending drop can run, a reader
    can take the published view, and the publishing sections of rotation, flush
    and compaction succeed. *)
Theorem version_ops_never_fail s owned :
  reachable (s, owned) ->
  (forall ds1 d ds2, drops s = ds1 ++ d :: ds2 -> is_Some (run_drop d (set_drops s (ds1 ++ ds2)))) /\
  is_Some (get_superversion s) /\
  (forall w t, views s !! w = None -> is_Some (tables s !! t) -> is_Some (rotate w t s)) /\
  (forall f t v w o x, sv_ s = Some o -> views s !! o = Some x -> t ∈ menTables x -> is_Some (files s !! f) ->
     links s !! v = None -> v <> 0%nat -> views s !! w = None -> is_Some (publish_flush f t v w s)) /\
  (forall deleted unref owned' v w, owned ≡ₚ unref ++ owned' -> links s !! v = None -> v <> 0%nat ->
     views s !! w = None -> is_Some (publish_compaction deleted unref v w s)).
Proof.
  intros R. apply reachable_winv in R as W. cbn [fst snd] in W. split_and!.
  - intros ds1 d ds2 Hd. destruct (drop_winv _ _ _ _ _ W Hd) as (? & ? & _). eauto.
  - destruct (get_superversion_winv _ _ W) as (? & ? & _). eauto.
  - intros w t Hw Ht. destruct (rotate_winv _ _ w t W Hw Ht) as (? & ? & _). eauto.
  - intros f t v w o x H1 H2 H3 H4 H5 H6 H7. destruct (publish_flush_winv _ _ f t v w o x W) as (? & ? & _); eauto.
  - intros deleted unref owned' v w H1 H2 H3 H4.
    destruct (publish_compaction_winv _ _ owned' deleted unref v w W) as (? & ? & _); eauto.
Qed.

(** ** Reclamation *)
Definition sum_sizes {A} (f : A -> nat) (m : gmap nat A) : nat := sum_list_with (fun p => f p.2) (map_to_list m).

(** The drops that can still happen without new readers or publications. *)
Definition reclaim_work (s : Store) : nat :=
  (length (drops s) + sum_sizes (fun x => length (l0_filemetas_ x) + 2) (versions s)
   + sum_sizes (fun x => length (menTables x) + 2) (views s))%nat.

Lemma sum_list_with_perm {A} (f : A -> nat) l l' : l ≡ₚ l' -> sum_list_with f l = sum_list_with f l'.
Proof. induction 1; cbn; lia. Qed.

Lemma sum_sizes_delete {A} (f : A -> nat) (m : gmap nat A) k x :
  m !! k = Some x -> sum_sizes f m = (f x + sum_sizes f (delete k m))%nat.
Proof.
  intros H. unfold sum_sizes. rewrite <- (insert_id m k x H) at 1. rewrite <- insert_delete_eq.
  rewrite (sum_list_with_perm _ _ _ (map_to_list_insert _ _ _ (lookup_delete_eq m k))). done.
Qed.

Lemma sum_sizes_update {A} (f : A -> nat) (m : gmap nat A) k x y :
  m !! k = Some x -> f y = f x -> sum_sizes f (<[k := y]> m) = sum_sizes f m.
Proof.
  intros H E. rewrite (sum_sizes_delete f _ k y (lookup_insert_eq _ _ _)), (sum_sizes_delete f m k x H).
  rewrite delete_insert_eq. lia.
Qed.

Lemma drop_decreases s ds1 d ds2 s' :
  drops s = ds1 ++ d :: ds2 -> run_drop d (set_drops s (ds1 ++ ds2)) = Some s' -> (reclaim_work s' < reclaim_work s)%nat.
Proof.
  intros Hd. unfold reclaim_work. rewrite Hd. destruct d as [w|v|f|t|v]; cbn [run_drop];
    unfold release_view, Version_Unref, SSTableCache_Unref, MemTable_Unref, free_version; cbn [set_drops views versions files tables links].
  - destruct (views s !! w) as [x|] eqn:Hx; [|done]. cbn. destruct (_ <? 1); [done|]. destruct (1 <? _); intros [= <-]; cbn.
    + rewrite (sum_sizes_update _ _ _ x) by done. rewrite !length_app. cbn. lia.
    + rewrite (sum_sizes_delete _ (views s) w x) by done. rewrite !length_app, length_map. cbn.
      destruct (view_version x); cbn; lia.
  - destruct (versions s !! v) as [x|] eqn:Hx; [|done]. cbn. destruct (_ || _); [done|]. destruct (1 <? _); intros [= <-]; cbn.
    + rewrite (sum_sizes_update _ _ _ x) by done. rewrite !length_app. cbn. lia.
    + rewrite (sum_sizes_delete _ (versions s) v x) by done. rewrite !length_app, length_map. cbn. lia.
  - destruct (files s !! f); [|done]. cbn. destruct (_ <? 1); [done|]. intros [= <-]. cbn. rewrite !length_app. cbn. lia.
  - destruct (tables s !! t); [|done]. cbn. destruct (_ <? 0); [done|]. intros [= <-]. cbn. rewrite !length_app. cbn. lia.
  - destruct (DeleteVersion v (links s)); [|done]. cbn. intros [= <-]. cbn. rewrite !length_app. cbn. lia.
Qed.

(** Runs that only drop references. *)
Inductive drains : nat -> Store -> Store -> Prop :=
| drains_nil s : drains 0 s s
| drains_cons n s ds1 d ds2 s1 s2 :
    drops s = ds1 ++ d :: ds2 -> run_drop d (set_drops s (ds1 ++ ds2)) = Some s1 -> drains n s1 s2 -> drains (S n) s s2.

Lemma drains_bounded n s s' : drains n s s' -> (n + reclaim_work s' <= reclaim_work s)%nat.
Proof. induction 1 as [|n s ds1 d ds2 s1 s2 Hd E _ IH]; [lia|]. pose proof (drop_decreases _ _ _ _ _ Hd E). lia. Qed.

Lemma drains_readers n s s' : drains n s s' -> readers s' = readers s.
Proof.
  induction 1 as [|n s ds1 d ds2 s1 s2 Hd E _ IH]; [done|]. destruct (run_drop_frame _ _ _ E) as [(_ & _ & Hr) _].
  cbn in Hr. congruence.
Qed.

Lemma drains_exists s owned : winv s owned -> exists n s', drains n s s' /\ drops s' = [] /\ winv s' owned.
Proof.
  remember (reclaim_work s) as k eqn:Ek. revert s Ek. induction k as [k IH] using lt_wf_ind. intros s -> W.
  destruct (drops s) as [|d ds] eqn:Hd; [exists 0%nat, s; split; [constructor|done]|].
  destruct (drop_winv s owned [] d ds W Hd) as (s1 & E & W1).
  destruct (IH (reclaim_work s1)) with (s := s1) as (n & s2 & Hdr & H0 & W2);
    [by eapply (drop_decreases s [] d ds)|done|done|].
  exists (S n), s2. split; [by eapply (drains_cons n s [] d ds)|done].
Qed.

(** With no reader and nothing pending, only what is current is left. *)
Definition quiet (s : Store) (owned : list Z) : Prop :=
  exists c o x y, current_ s = Some c /\ sv_ s = Some o /\ versions s !! c = Some x /\ views s !! o = Some y /\
    (forall v, is_Some (versions s !! v) -> v = c) /\ (forall w, is_Some (views s !! w) -> w = o) /\
    dll (links s) [c] /\
    (forall f, is_Some (files s !! f) -> f ∈ owned \/ f ∈ l0_filemetas_ x).

Lemma held_quiet_view s w : readers s = [] -> drops s = [] -> DView w ∈ held s -> sv_ s = Some w.
Proof.
  intros Hr Hd. unfold held. rewrite Hr, Hd. cbn. rewrite app_nil_r, !elem_of_app.
  intros [H|[H|[H|H]]].
  - by apply list_elem_of_fmap in H as (? & ? & _).
  - destruct (sv_ s) as [o|]; cbn in H; [apply list_elem_of_singleton in H; congruence|by apply elem_of_nil in H].
  - unfold tokens_of in H. apply list_elem_of_bind in H as (p & Hp & _). unfold view_tokens in Hp.
    apply elem_of_app in Hp as [Hp|Hp]; by apply list_elem_of_fmap in Hp as (? & ? & _).
  - unfold tokens_of in H. apply list_elem_of_bind in H as (p & Hp & _). by apply list_elem_of_fmap in Hp as (? & ? & _).
Qed.

Lemma held_quiet_version s v :
  drops s = [] -> DVersion v ∈ held s ->
  current_ s = Some v \/ exists w x, views s !! w = Some x /\ view_version x = Some v.
Proof.
  intros Hd. unfold held. rewrite Hd, app_nil_r, !elem_of_app. intros [H|[H|[H|[H|H]]]].
  - destruct (current_ s) as [c|]; cbn in H; [apply list_elem_of_singleton in H as [= ->]; by left|by apply elem_of_nil in H].
  - by apply list_elem_of_fmap in H as (? & ? & _).
  - by apply list_elem_of_fmap in H as (? & ? & _).
  - unfold tokens_of in H. apply list_elem_of_bind in H as ([w x] & Hp & Hm). apply elem_of_map_to_list in Hm.
    cbn in Hp. unfold view_tokens in Hp. apply elem_of_app in Hp as [Hp|Hp]; [|by apply list_elem_of_fmap in Hp as (? & ? & _)].
    right. exists w, x. split; [done|]. destruct (view_version x) as [u|]; cbn in Hp; [|by apply elem_of_nil in Hp].
    apply list_elem_of_singleton in Hp as [= ->]. done.
  - unfold tokens_of in H. apply list_elem_of_bind in H as (p & Hp & _). by apply list_elem_of_fmap in Hp as (? & ? & _).
Qed.

Lemma held_quiet_file s f :
  drops s = [] -> DFile f ∈ held s -> exists v x, versions s !! v = Some x /\ f ∈ l0_filemetas_ x.
Proof.
  intros Hd. unfold held. rewrite Hd, app_nil_r, !elem_of_app. intros [H|[H|[H|[H|H]]]].
  1,2,3: by apply list_elem_of_fmap in H as (? & ? & _).
  - unfold tokens_of in H. apply list_elem_of_bind in H as ([w x] & Hp & Hm). cbn in Hp. unfold view_tokens in Hp.
    apply elem_of_app in Hp as [Hp|Hp]; by apply list_elem_of_fmap in Hp as (? & ? & _).
  - unfold tokens_of in H. apply list_elem_of_bind in H as ([v x] & Hp & Hm). apply elem_of_map_to_list in Hm.
    cbn in Hp. apply list_elem_of_fmap in Hp as (g & [= <-] & Hg). eauto.
Qed.

Lemma held_quiet_unlink s v : drops s = [] -> DUnlink v ∉ held s.
Proof.
  intros Hd. unfold held. rewrite Hd, app_nil_r, !elem_of_app. intros [H|[H|[H|[H|H]]]].
  1,2,3: by apply list_elem_of_fmap in H as (? & ? & _).
  all: unfold tokens_of in H; apply list_elem_of_bind in H as (p & Hp & _); try unfold view_tokens in Hp.
  - apply elem_of_app in Hp as [Hp|Hp]; by apply list_elem_of_fmap in Hp as (? & ? & _).
  - by apply list_elem_of_fmap in Hp as (? & ? & _).
Qed.

(** A positive count means that a reference exists. *)
Lemma count_held s owned d :
  inv s (map DFile owned) None -> 1 <= refcount s d -> d ∈ held s \/ d ∈ map DFile owned.
Proof. intros I H. rewrite <- (inv_counts _ _ _ I) in H. apply elem_of_app, cnt_elem. lia. Qed.

Lemma not_file_token owned d : d ∈ map DFile owned -> exists f, d = DFile f /\ f ∈ owned.
Proof. intros (f & -> & Hf)%list_elem_of_fmap. eauto. Qed.

Lemma all_equal_singleton (c : nat) vs : NoDup vs -> c ∈ vs -> (forall v, v ∈ vs -> v = c) -> vs = [c].
Proof.
  intros Hnd Hc H. destruct vs as [|a [|b vs]].
  - by apply elem_of_nil in Hc.
  - f_equal. apply H. left.
  - apply NoDup_cons in Hnd as [Ha _]. destruct Ha. rewrite (H a), (H b); [left|right; left|left].
Qed.

Lemma quiet_when_drained s owned : winv s owned -> readers s = [] -> drops s = [] -> quiet s owned.
Proof.
  intros [I (o & y & c & Hsv & Hy & Hyv & Hcur)] Hr Hd.
  assert (forall w, is_Some (views s !! w) -> w = o) as Hviews.
  { intros w [x Hx]. destruct (count_held s owned (DView w)) as [H|H]; [done|cbn; rewrite Hx; apply (inv_views _ _ _ I w x Hx)| |].
    - apply held_quiet_view in H; [congruence|done|done].
    - apply not_file_token in H as (f & ? & _). done. }
  assert (forall v, is_Some (versions s !! v) -> v = c) as Hvers.
  { intros v [x Hx]. destruct (count_held s owned (DVersion v)) as [H|H]; [done| | |].
    - cbn. rewrite Hx. cbn. destruct (inv_versions _ _ _ I v x Hx); done.
    - apply held_quiet_version in H as [H|(w & z & Hz & Hzv)]; [congruence| |done].
      assert (w = o) as -> by (apply Hviews; eauto). congruence.
    - apply not_file_token in H as (f & ? & _). done. }
  destruct (view_live _ _ _ _ _ I Hy) as [Hver _]. destruct (Hver c Hyv) as [x Hx].
  exists c, o, x, y. split_and!; try done.
  - destruct (inv_list _ _ _ I) as (vs & D & Hvs). replace [c] with vs; [done|].
    apply all_equal_singleton.
    + destruct D as [Hnd _]. by apply NoDup_cons in Hnd as [_ ?].
    + destruct (inv_linked _ _ _ I c) as [H0 Hl]; [eauto|]. apply Hvs in Hl as [?|[?|?]]; done.
    + intros v Hv. destruct (versions s !! v) as [z|] eqn:Ez; [apply Hvers; eauto|].
      assert (DUnlink v ∈ held s \/ DUnlink v ∈ map DFile owned) as [H|H].
      { apply count_held; [done|]. cbn. rewrite decide_True; [done|]. split_and!; [|by eapply dll_node|done].
        intros ->. destruct D as [Hnd _]. by apply NoDup_cons in Hnd as [? _]. }
      * by apply held_quiet_unlink in H.
      * apply not_file_token in H as (f & ? & _). done.
  - intros f [n Hf]. destruct (count_held s owned (DFile f)) as [H|H]; [done|cbn; rewrite Hf; by apply (inv_files _ _ _ I f n)| |].
    + right. apply held_quiet_file in H as (v & z & Hz & Hin); [|done]. assert (v = c) as -> by (apply Hvers; eauto). congruence.
    + left. apply not_file_token in H as (g & [= ->] & ?). done.
Qed.

(** C24: Reclamation terminates and leaks nothing.  From every reachable state at
    most [reclaim_work s] references can be dropped one after the other, in any
    order, and dropping them all is possible; when no reader is left, then only
    the current version and the published view remain, the list of versions
    holds exactly the current one, and every file that still exists is owned by
    a level or listed in the current version. *)
Theorem reclamation_terminates s owned :
  reachable (s, owned) ->
  (forall n s', drains n s s' -> (n <= reclaim_work s)%nat) /\
  (exists n s', drains n s s' /\ drops s' = [] /\ (readers s = [] -> quiet s' owned)).
Proof.
  intros R. apply reachable_winv in R as W. cbn [fst snd] in W. split.
  - intros n s' H. apply drains_bounded in H. lia.
  - destruct (drains_exists s owned W) as (n & s' & Hd & H0 & W'). exists n, s'. split_and!; [done|done|].
    intros Hr. apply quiet_when_drained; [done|by rewrite (drains_readers _ _ _ Hd)|done].
Qed.

(** [LogAndApply] installs a version that lists exactly the files of the
    previous one that were not deleted and the new ones, newest first, and
    leaves the views of readers alone. *)
Theorem log_and_apply_files s owned edit v c x :
  reachable (s, owned) -> current_ s = Some c -> versions s !! c = Some x ->
  links s !! v = None -> v <> 0%nat -> (forall f, f ∈ new_files_ edit -> is_Some (files s !! f)) ->
  exists s' l, LogAndApply edit v (new_version v s) = Some s' /\ current_ s' = Some v /\ views s' = views s /\
    versions s' !! v = Some (mkVersion 1 l) /\ StronglySorted Z.ge l /\
    l ≡ₚ filter (fun f => f ∉ deleted_files_ edit) (l0_filemetas_ x ++ new_files_ edit).
Proof.
  intros R Hc Hx Hl Hv Hnew. apply reachable_winv in R as [I _].
  destruct (LogAndApply_inv s _ edit v c x I Hl Hv Hc Hx Hnew) as (s' & E & _ & [A1 (A2 & _) _ A4]).
  exists s', (edited edit (l0_filemetas_ x)). split_and!; try done.
  - by apply A4 with c.
  - apply sort_desc_sorted.
  - unfold edited, kept_files. rewrite sort_desc_perm, filter_app. done.
Qed.

(** ** A concrete run *)
Definition start : Store := default no_store (opened 1).
Definition flushed : Store :=
  default no_store (s ← rotate 2 2 (new_table 2 start); s ← get_superversion s; publish_flush 10 1 2 3 (new_file 10 s)).

Lemma start_reachable : reachable (start, []).
Proof. apply (reach_init 1). vm_compute. reflexivity. Qed.

Lemma flushed_reachable : reachable (flushed, [10]).
Proof.
  eapply reach_step; [eapply reach_step; [eapply reach_step; [eapply reach_step; [eapply reach_step; [exact start_reachable|]|]|]|]|].
  - apply (step_new_table _ _ 2). vm_compute. reflexivity.
  - eapply (step_rotate _ _ _ 2 2); [vm_compute; reflexivity|eexists; vm_compute; reflexivity|vm_compute; reflexivity].
  - eapply step_read. vm_compute. reflexivity.
  - apply (step_new_file _ _ 10). vm_compute. reflexivity.
  - eapply (step_flush _ _ _ 10 1 2 3 2); [vm_compute; reflexivity|vm_compute; reflexivity|left|
      eexists; vm_compute; reflexivity|vm_compute; reflexivity|done|vm_compute; reflexivity|vm_compute; reflexivity].
Qed.

Lemma readers_protected_witness : exists w, w ∈ readers flushed /\ protected flushed w.
Proof.
  exists 2%nat. assert (2%nat ∈ readers flushed) as H by (vm_compute; left).
  split; [exact H|]. exact (readers_protected flushed [10] 2 flushed_reachable (or_introl H)).
Defined.

Lemma version_ops_never_fail_witness : is_Some (get_superversion flushed).
Proof. exact (proj1 (proj2 (version_ops_never_fail flushed [10] flushed_reachable))). Defined.

Lemma reclamation_terminates_witness : exists n s', drains n flushed s' /\ drops s' = [].
Proof.
  destruct (reclamation_terminates flushed [10] flushed_reachable) as [_ (n & s' & H & H0 & _)]. eauto.
Defined.

Lemma log_and_apply_files_witness :
  exists s' l, LogAndApply (mkEdit [] {[10]}) 5 (new_version 5 flushed) = Some s' /\
    versions s' !! 5%nat = Some (mkVersion 1 l) /\ l ≡ₚ filter (fun f => f ∉ ({[10]} : gset Z)) ([10] ++ []).
Proof.
  destruct (log_and_apply_files flushed [10] (mkEdit [] {[10]}) 5 2 (mkVersion 2 [10])) as (s' & l & E & _ & _ & V & _ & P).
  - exact flushed_reachable.
  - vm_compute. reflexivity.
  - vm_compute. reflexivity.
  - vm_compute. reflexivity.
  - done.
  - intros f H. by apply elem_of_nil in H.
  - exists s', l. split_and!; [exact E|exact V|exact P].
Defined.

(** Runs the pending drops, in order. *)
Fixpoint drain (n : nat) (s : Store) : option Store :=
  match n, drops s with
  | S n, d :: ds => s ← run_drop d (set_drops s ds); drain n s
  | _, _ => Some s
  end.

Lemma drain_steps n s s' owned : drain n s = Some s' -> rtc step (s, owned) (s', owned).
Proof.
  revert s. induction n as [|n IH]; intros s; cbn [drain]; [by intros [= <-]|].
  destruct (drops s) as [|d ds] eqn:Hd; [by intros [= <-]|]. destruct (run_drop d _) as [s1|] eqn:E; [|done]. cbn.
  intros H. eapply rtc_l; [|by apply IH]. by apply (step_drop s s1 owned [] d ds).
Qed.

(** The compaction keeps a pointer to the level-0 list of the current version
    after it has released the version lock, without a reference: a flush that
    publishes meanwhile frees that version. *)
Theorem borrowed_version_dangles :
  exists p q c, reachable p /\ current_ p.1 = Some c /\ rtc step p q /\ versions q.1 !! c = None /\ links q.1 !! c = None.
Proof.
  set (s1 := default no_store (rotate 2 2 (new_table 2 start))).
  set (s2 := default no_store (publish_flush 10 1 2 3 (new_file 10 s1))).
  set (s3 := default no_store (drain 20 s2)).
  exists (s1, []), (s3, [10]), 1%nat. split_and!; [| | |vm_compute; reflexivity..].
  - eapply reach_step; [eapply reach_step; [exact start_reachable|]|].
    + apply (step_new_table _ _ 2). vm_compute. reflexivity.
    + eapply (step_rotate _ _ _ 2 2); [vm_compute; reflexivity|eexists; vm_compute; reflexivity|vm_compute; reflexivity].
  - vm_compute. reflexivity.
  - eapply rtc_l; [apply (step_new_file s1 [] 10); vm_compute; reflexivity|].
    eapply (rtc_l _ _ (s2, [10])); [|apply (drain_steps 20); vm_compute; reflexivity].
    eapply (step_flush _ _ _ 10 1 2 3 2); [vm_compute; reflexivity|vm_compute; reflexivity|left|
      eexists; vm_compute; reflexivity|vm_compute; reflexivity|done|vm_compute; reflexivity|vm_compute; reflexivity].
Qed.
