(* ===== verification/LevelIndex.v ===== *)
(** * The level index

    core/DataStructs.h: [MulLevelIndex], the position of a vertex in each level
    above zero, and [LazyMulLevelIndexArray], the block-allocated array of them
    that the default build uses.  An access outside an array is [None]. *)

From S2P Require Import Prelude.
From S2P Require Import Types.

Definition MAX_LEVEL : Z := 5.
Definition LEVEL_INDEX_SIZE : Z := MAX_LEVEL - 1.
Definition INVALID_OFFSET : Z := 4294967295.

Record LevelData := mkLevel { lv_fileID : Z; lv_offset : Z; lv_next_offset : Z }.
Definition no_level : LevelData := mkLevel INVALID_File_ID INVALID_OFFSET INVALID_OFFSET.

Record MulLevelIndex := mkMulLevel { levels : list LevelData; min_level_0_fid : Z }.

(** A default-constructed index: the member initializers. *)
Definition empty_index : MulLevelIndex := mkMulLevel (replicate (Z.to_nat LEVEL_INDEX_SIZE) no_level) 0.

(** [init] assigns the same values to an index in use. *)
Definition init (x : MulLevelIndex) : MulLevelIndex := mkMulLevel (map (fun _ => no_level) (levels x)) 0.

Definition at_level (x : MulLevelIndex) (level : Z) : option LevelData :=
  if level <? 0 then None else levels x !! Z.to_nat level.
Definition update_level (x : MulLevelIndex) (level : Z) (f : LevelData -> LevelData) : option MulLevelIndex :=
  d ← at_level x level; Some (mkMulLevel (<[Z.to_nat level := f d]> (levels x)) (min_level_0_fid x)).

Definition set_level_data x level fid offset next_offset :=
  update_level x level (fun _ => mkLevel fid offset next_offset).
Definition set_fileID x level fid := update_level x level (fun d => mkLevel fid (lv_offset d) (lv_next_offset d)).
Definition set_offset x level offset := update_level x level (fun d => mkLevel (lv_fileID d) offset (lv_next_offset d)).
Definition set_next_offset x level next := update_level x level (fun d => mkLevel (lv_fileID d) (lv_offset d) next).
Definition set_min_level_0_fid (x : MulLevelIndex) (fid : Z) : MulLevelIndex := mkMulLevel (levels x) fid.
Definition get_fileID (x : MulLevelIndex) (level : Z) : option Z := lv_fileID <$> at_level x level.
Definition get_offset (x : MulLevelIndex) (level : Z) : option Z := lv_offset <$> at_level x level.
Definition get_next_offset (x : MulLevelIndex) (level : Z) : option Z := lv_next_offset <$> at_level x level.
Definition readable (x : MulLevelIndex) (level : Z) : option bool :=
  (fun fid => negb (fid =? INVALID_File_ID)) <$> get_fileID x level.

(** ** [LazyMulLevelIndexArray] *)
Definition kBlockShift : Z := 20.
Definition kBlockSize : Z := Z.shiftl 1 kBlockShift.

(** A published block is a function from the offset to the entry, all entries
    of a fresh block being default-constructed. *)
Record LazyArray := mkLazy {
  max_vertex_num_ : Z;
  block_count_ : Z;
  published_blocks_ : gmap Z (Z -> MulLevelIndex);
}.

Definition BlockCount (max_vertex_num : Z) : Z := Z.shiftr (u64 (max_vertex_num + kBlockSize - 1)) kBlockShift.

Definition ResetStorage (max_vertex_num : Z) : LazyArray := mkLazy max_vertex_num (BlockCount max_vertex_num) ∅.

(** [None] is the exception [out_of_range]. *)
Definition EnsureBlock (a : LazyArray) (block_id : Z) : option (LazyArray * (Z -> MulLevelIndex)) :=
  if block_count_ a <=? block_id then None
  else
    match published_blocks_ a !! block_id with
    | Some block => Some (a, block)
    | None =>
        let block := fun _ => empty_index in
        Some (mkLazy (max_vertex_num_ a) (block_count_ a) (<[block_id := block]> (published_blocks_ a)), block)
    end.

(** [operator[]], read and written through. *)
Definition lazy_get (a : LazyArray) (vid : Z) : option (LazyArray * MulLevelIndex) :=
  let block_id := Z.shiftr vid kBlockShift in
  let offset := Z.land vid (kBlockSize - 1) in
  '(a, block) ← EnsureBlock a block_id;
  Some (a, block offset).

Definition lazy_set (a : LazyArray) (vid : Z) (x : MulLevelIndex) : option LazyArray :=
  let block_id := Z.shiftr vid kBlockShift in
  let offset := Z.land vid (kBlockSize - 1) in
  '(a, block) ← EnsureBlock a block_id;
  Some (mkLazy (max_vertex_num_ a) (block_count_ a)
          (<[block_id := fun o => if o =? offset then x else block o]> (published_blocks_ a))).

Definition allocated_blocks (a : LazyArray) : Z := Z.of_nat (size (published_blocks_ a)).
Definition index_size : Z := 64.
Definition allocated_bytes (a : LazyArray) : Z := u64 (allocated_blocks a * kBlockSize * index_size).

(** ** Facts *)

(** The entry of a vertex, without allocating. *)
Definition entry (a : LazyArray) (vid : Z) : MulLevelIndex :=
  match published_blocks_ a !! Z.shiftr vid kBlockShift with
  | Some block => block (Z.land vid (kBlockSize - 1))
  | None => empty_index
  end.

Lemma split_vid vid : 0 <= vid -> vid = Z.shiftr vid kBlockShift * kBlockSize + Z.land vid (kBlockSize - 1).
Proof.
  intros _. change (kBlockSize - 1) with (Z.ones 20). rewrite Z.land_ones, Z.shiftr_div_pow2 by done.
  change kBlockSize with (2 ^ 20). change kBlockShift with 20. pose proof (Z.div_mod vid (2 ^ 20)). lia.
Qed.

Lemma split_vid_inj v w :
  0 <= v -> 0 <= w -> Z.shiftr v kBlockShift = Z.shiftr w kBlockShift ->
  Z.land v (kBlockSize - 1) = Z.land w (kBlockSize - 1) -> v = w.
Proof. intros Hv Hw H1 H2. rewrite (split_vid v Hv), (split_vid w Hw), H1, H2. done. Qed.

Lemma lazy_get_spec a vid :
  Z.shiftr vid kBlockShift < block_count_ a ->
  exists a', lazy_get a vid = Some (a', entry a vid) /\ (forall w, entry a' w = entry a w) /\
    block_count_ a' = block_count_ a /\ max_vertex_num_ a' = max_vertex_num_ a.
Proof.
  intros H. unfold lazy_get, EnsureBlock, entry. cbn zeta. rewrite (proj2 (Z.leb_gt _ _) H).
  destruct (published_blocks_ a !! Z.shiftr vid kBlockShift) as [b|] eqn:E; simpl_bind.
  - exists a. done.
  - eexists. split; [done|]. split_and!; [|done|done]. intros w. cbn [published_blocks_].
    destruct (decide (Z.shiftr vid kBlockShift = Z.shiftr w kBlockShift)) as [Ew|Hne];
      [rewrite <- Ew, lookup_insert_eq, E; done|by rewrite lookup_insert_ne].
Qed.

Lemma lazy_set_spec a vid x :
  0 <= vid -> Z.shiftr vid kBlockShift < block_count_ a ->
  exists a', lazy_set a vid x = Some a' /\
    (forall w, 0 <= w -> entry a' w = if decide (w = vid) then x else entry a w) /\
    block_count_ a' = block_count_ a /\ max_vertex_num_ a' = max_vertex_num_ a.
Proof.
  intros H0 H. unfold lazy_set, EnsureBlock. cbn zeta. rewrite (proj2 (Z.leb_gt _ _) H).
  set (bid := Z.shiftr vid kBlockShift) in *. set (off := Z.land vid (kBlockSize - 1)).
  assert (forall (blk : Z -> MulLevelIndex) m, (forall w, Z.shiftr w kBlockShift = bid ->
      blk (Z.land w (kBlockSize - 1)) = entry a w) ->
    (forall w, Z.shiftr w kBlockShift <> bid -> m !! Z.shiftr w kBlockShift = published_blocks_ a !! Z.shiftr w kBlockShift) ->
    forall w, 0 <= w ->
      entry (mkLazy (max_vertex_num_ a) (block_count_ a) (<[bid := fun o => if o =? off then x else blk o]> m)) w
      = if decide (w = vid) then x else entry a w) as Hset.
  { intros blk m Hb Hm w Hw. unfold entry at 1. cbn [published_blocks_].
    destruct (decide (bid = Z.shiftr w kBlockShift)) as [E|Hne].
    - rewrite <- E, lookup_insert_eq. destruct (Z.eqb_spec (Z.land w (kBlockSize - 1)) off) as [Eo|Ho].
      + rewrite decide_True; [done|]. by apply split_vid_inj.
      + rewrite decide_False by (by intros ->). by apply Hb.
    - rewrite lookup_insert_ne, Hm by done. rewrite decide_False by (by intros ->). done. }
  destruct (published_blocks_ a !! bid) as [b|] eqn:E; simpl_bind; (eexists; split; [done|]; split_and!; [|done|done]).
  - apply Hset; [|done]. intros w Ew. unfold entry. by rewrite Ew, E.
  - cbn [max_vertex_num_ block_count_ published_blocks_]. apply Hset.
    + intros w Ew. unfold entry. by rewrite Ew, E.
    + intros w Hne. by rewrite lookup_insert_ne.
Qed.

(** Writes to the array, by vertex. *)
Fixpoint lazy_sets (a : LazyArray) (ws : list (Z * MulLevelIndex)) : option LazyArray :=
  match ws with
  | [] => Some a
  | (vid, x) :: ws => a ← lazy_set a vid x; lazy_sets a ws
  end.

Definition last_write (ws : list (Z * MulLevelIndex)) (vid : Z) : MulLevelIndex :=
  foldl (fun acc w => if decide (w.1 = vid) then w.2 else acc) empty_index ws.

Lemma lazy_sets_spec a ws f :
  (forall w, 0 <= w -> entry a w = f w) ->
  Forall (fun w => 0 <= w.1 /\ Z.shiftr w.1 kBlockShift < block_count_ a) ws ->
  exists a', lazy_sets a ws = Some a' /\ block_count_ a' = block_count_ a /\
    (forall v, 0 <= v -> entry a' v = foldl (fun acc w => if decide (w.1 = v) then w.2 else acc) (f v) ws).
Proof.
  revert a f. induction ws as [|[vid x] ws IH]; intros a f Hf Hws; [exists a; done|].
  apply Forall_cons in Hws as [[H0 Hb] Hws]. cbn [lazy_sets fst] in *.
  destruct (lazy_set_spec a vid x H0 Hb) as (a1 & E & He & Hc & _). rewrite E. simpl_bind.
  destruct (IH a1 (fun v => if decide (vid = v) then x else f v)) as (a2 & E2 & Hc2 & He2).
  - intros w Hw. rewrite He by done. destruct (decide (w = vid)), (decide (vid = w)); try congruence. by apply Hf.
  - by rewrite Hc.
  - exists a2. split_and!; [done|congruence|]. intros v Hv. by rewrite He2.
Qed.

Lemma BlockCount_covers n vid :
  0 <= n -> n + kBlockSize <= 2 ^ 64 -> 0 <= vid < n -> Z.shiftr vid kBlockShift < BlockCount n.
Proof.
  intros Hn Hm Hv. unfold BlockCount, u64. change kBlockSize with 1048576 in *. rewrite wrap_small by (unfold fits; lia).
  change kBlockShift with 20. rewrite !Z.shiftr_div_pow2 by done. change (2 ^ 20) with 1048576.
  apply Z.div_lt_upper_bound; [done|]. pose proof (Z.div_mod (n + 1048576 - 1) 1048576).
  pose proof (Z.mod_pos_bound (n + 1048576 - 1) 1048576). lia.
Qed.

(** the lazily allocated array behaves as a plain array of
    default-constructed level indexes: for any sequence of writes to vertices
    below the configured maximum, every access succeeds, and every vertex reads
    the last index written for it, or an empty index. *)
Theorem lazy_array_refines n ws vid :
  0 <= n -> n + kBlockSize <= 2 ^ 64 -> Forall (fun w => 0 <= w.1 < n) ws -> 0 <= vid < n ->
  exists a a', lazy_sets (ResetStorage n) ws = Some a /\ lazy_get a vid = Some (a', last_write ws vid).
Proof.
  intros Hn Hm Hws Hv. destruct (lazy_sets_spec (ResetStorage n) ws (fun _ => empty_index)) as (a & E & Hc & He).
  - done.
  - eapply Forall_impl; [exact Hws|]. intros w Hw. cbn beta in Hw. split; [lia|]. by apply BlockCount_covers.
  - destruct (lazy_get_spec a vid) as (a' & E' & _); [rewrite Hc; by apply BlockCount_covers|].
    exists a, a'. split; [done|]. rewrite E', He by lia. done.
Qed.

Lemma lazy_array_refines_witness :
  exists a a', lazy_sets (ResetStorage 3000000) [(2000000, mkMulLevel [] 7); (5, mkMulLevel [] 8)] = Some a /\
    lazy_get a 2000000 = Some (a', mkMulLevel [] 7).
Proof.
  apply (lazy_array_refines 3000000 [(2000000, mkMulLevel [] 7); (5, mkMulLevel [] 8)] 2000000).
  - lia.
  - change kBlockSize with 1048576. lia.
  - repeat constructor; cbn; lia.
  - lia.
Defined.
