(* ===== verification/LsmRead.v ===== *)
(** * Point reads of the LSM store

    The point lookups of src/lsmstore.cpp that GraphDb uses: the MemTables of
    the snapshot, then the level-0 files, then the level index; and
    [AttachPropertyDelta], which rebinds property updates to the file that holds
    their edge.  This is the multi-version build without CSR mode
    ([FLAGS_support_mulversion], [FLAGS_OPEN_SSTDATA_CACHE], [use_csr_disk_ = false]).  The reference counts
    of the snapshot are the subject of [Versions].

    [None] is an access outside a buffer, a missing file (an exception of the
    data manager) or, with [debug], a failed assertion. *)

From S2P Require Import Prelude.
From S2P Require Import Types.
From S2P Require Import Posix.
From S2P Require Import DeltaFile.
From S2P Require Import DeltaStore.
From S2P Require Import PropertyLayout.
From S2P Require Import Sst.
From S2P Require Import SkipList.
From S2P Require Import NeighBors.
From S2P Require Import MemTable.
From S2P Require Import DeltaMerge.
From S2P Require Import LevelIndex.

(** The metadata of a level-0 file; [cache_seq] is [seq_], its earliest sequence. *)
Record SSTableCache := mkCache { cache_header : Header; cache_seq : Z; cache_indexes : list Index }.

(** What a read takes when it starts: the published view and the copy of the
    source's level index.  [GetEdge] loads the view once for the MemTables and
    again for the files, so the fields need not be of one moment. *)
Record Snapshot := mkSnap {
  snap_tables : list MemTable;               (** [menTables], oldest first *)
  snap_level0 : list SSTableCache;           (** [GetLevel0Files()], newest first *)
  snap_findex : MulLevelIndex;
}.

Record LSMEdgeLocation := mkLocation { in_memtable : bool; target_id : Z; location_sequence : Z }.
Definition no_location : LSMEdgeLocation := mkLocation false INVALID_File_ID kMaxSequence.

Section Reads.
Context `{StdHash} (debug : bool) (L : LsmColumns) (store : option PropertyDeltaStore).

Definition view_of (fid property_id : Z) : option PropertyDeltaReadView := LoadPropertyDeltaView L store fid property_id.

(** ** MemTables *)
Fixpoint find_edge_in_memtable (tables : list MemTable) (src dst property_id : Z) (is_out : bool) (edge_type : Z)
  : option (Status * option bytes) :=
  match tables with
  | [] => Some (kNotFound, None)
  | tb :: tables =>
      '(rs, fid, seq) ← Mem_get_seq debug tb src dst is_out edge_type;
      match rs with
      | kNotFound => find_edge_in_memtable tables src dst property_id is_out edge_type
      | kOk =>
          delta ← delta_lookup (view_of (default INVALID_File_ID fid) property_id)
                    (mkKey src dst (default kMaxSequence seq) is_out edge_type);
          match (delta : option bytes) with
          | Some property => Some (kOk, Some property)
          | None =>
              '(rs, payload) ← Mem_get debug tb src dst is_out edge_type;
              match rs with
              | kOk =>
                  _ ← assert_ debug (property_id <? GetActiveSubPropertyNum (process_flags L) (merge_layout L));
                  Some (kOk, Some (ExtractSubProperty (default [] payload) property_id))
              | _ => Some (rs, None)
              end
          end
      | _ => Some (rs, None)
      end
  end.

(** ** Files *)

(** The range of a source in the index of a file: [Some None] when absent. *)
Definition source_range (indexes : list Index) (src : Z) : option (option (Z * Z)) :=
  pos ← get indexes src;
  if pos <? 0 then Some None
  else
    b ← indexes !! Z.to_nat pos;
    e ← indexes !! Z.to_nat (pos + 1);
    Some (Some (ix_offset b, ix_offset e)).

Definition in_key_range (src : Z) (it : SSTableCache) : bool :=
  (src <=? maxKey (cache_header it)) && (minKey (cache_header it) <=? src).

Definition find_edge_in_lonely_SStableCache (it : SSTableCache) (src dst property_id : Z) (is_out : bool) (edge_type : Z)
  : option (Status * option bytes) :=
  range ← source_range (cache_indexes it) src;
  match (range : option (Z * Z)) with
  | None => Some (kNotFound, None)
  | Some (offset, next_offset) =>
      sstcache ← sstdata_manager_ L !! timeStamp (cache_header it);
      find_edge_from_sstdata_cache L debug (view_of (timeStamp (cache_header it)) property_id) sstcache
        src dst offset next_offset property_id is_out edge_type
  end.

Fixpoint find_in_level0 (files : list SSTableCache) (src dst property_id : Z) (is_out : bool) (edge_type : Z)
  : option (Status * option bytes) :=
  match files with
  | [] => Some (kNotFound, None)
  | it :: files =>
      if in_key_range src it then
        '(rs, property) ← find_edge_in_lonely_SStableCache it src dst property_id is_out edge_type;
        match rs with
        | kNotFound => find_in_level0 files src dst property_id is_out edge_type
        | _ => Some (rs, property)
        end
      else find_in_level0 files src dst property_id is_out edge_type
  end.

(** A level of the index: [Some None] when the vertex has no file there. *)
Definition level_range (findex : MulLevelIndex) (levelID : Z) : option (option (Z * Z * Z)) :=
  fileID ← get_fileID findex levelID;
  if fileID =? INVALID_File_ID then Some None
  else
    offset ← get_offset findex levelID;
    next_offset ← get_next_offset findex levelID;
    _ ← assert_ debug (offset <=? next_offset);
    Some (Some (fileID, offset, next_offset)).

Fixpoint find_by_levels (findex : MulLevelIndex) (levelIDs : list Z) (src dst property_id : Z) (is_out : bool)
    (edge_type : Z) : option (Status * option bytes) :=
  match levelIDs with
  | [] => Some (kNotFound, None)
  | levelID :: levelIDs =>
      range ← level_range findex levelID;
      match (range : option (Z * Z * Z)) with
      | None => find_by_levels findex levelIDs src dst property_id is_out edge_type
      | Some (fileID, offset, next_offset) =>
          sstcache ← sstdata_manager_ L !! fileID;
          '(rs, property) ← find_edge_from_sstdata_cache L debug (view_of fileID property_id) sstcache
                              src dst offset next_offset property_id is_out edge_type;
          match rs with
          | kNotFound => find_by_levels findex levelIDs src dst property_id is_out edge_type
          | _ => Some (rs, property)
          end
      end
  end.

Definition find_edge_by_levelindex (findex : MulLevelIndex) (src dst property_id : Z) (is_out : bool) (edge_type : Z)
  : option (Status * option bytes) :=
  find_by_levels findex (seqZ 0 LEVEL_INDEX_SIZE) src dst property_id is_out edge_type.

Definition find_edge_in_SStableCache (snap : Snapshot) (src dst property_id : Z) (is_out : bool) (edge_type : Z)
  : option (Status * option bytes) :=
  '(rs, property) ← find_in_level0 (snap_level0 snap) src dst property_id is_out edge_type;
  match rs with
  | kNotFound => find_edge_by_levelindex (snap_findex snap) src dst property_id is_out edge_type
  | _ => Some (rs, property)
  end.

(** ** [GetEdge] *)
Definition GetEdge (snap : Snapshot) (src dst property_id : Z) (is_out : bool) (edge_type : Z)
  : option (Status * option bytes) :=
  '(rs, property) ← find_edge_in_memtable (snap_tables snap) src dst property_id is_out edge_type;
  match rs with
  | kNotFound => find_edge_in_SStableCache snap src dst property_id is_out edge_type
  | _ => Some (rs, property)
  end.

(** ** [LocateEdge] *)

(** [find_edge_from_sstdata_cache], the overload that reports the sequence. *)
Definition find_edge_seq (sstcache : SstData) (dst s_offset e_offset : Z) (is_out : bool) (edge_type : Z)
  : option (Status * option Z) :=
  '(status, off) ← FindEdgeByDstDirectionAndType (edge_data sstcache) (signed 32 s_offset)
                     (signed 32 e_offset) dst is_out edge_type;
  if bool_decide (status = kOk) then sequence ← get_seq_at (edge_data sstcache) off; Some (kOk, Some sequence)
  else Some (status, None).

Fixpoint locate_in_tables (tables : list MemTable) (src dst : Z) (is_out : bool) (edge_type : Z)
  : option (Status * LSMEdgeLocation) :=
  match tables with
  | [] => Some (kNotFound, no_location)
  | tb :: tables =>
      '(rs, fid, seq) ← Mem_get_seq debug tb src dst is_out edge_type;
      match rs with
      | kNotFound => locate_in_tables tables src dst is_out edge_type
      | _ => Some (rs, mkLocation true (default INVALID_File_ID fid) (default kMaxSequence seq))
      end
  end.

Fixpoint locate_in_level0 (files : list SSTableCache) (min_fid src dst : Z) (is_out : bool) (edge_type : Z)
  : option (Status * LSMEdgeLocation) :=
  match files with
  | [] => Some (kNotFound, no_location)
  | it :: files =>
      if (min_fid <=? timeStamp (cache_header it)) && in_key_range src it then
        range ← source_range (cache_indexes it) src;
        match (range : option (Z * Z)) with
        | None => locate_in_level0 files min_fid src dst is_out edge_type
        | Some (offset, next_offset) =>
            sstcache ← sstdata_manager_ L !! timeStamp (cache_header it);
            '(rs, seq) ← find_edge_seq sstcache dst offset next_offset is_out edge_type;
            match rs with
            | kNotFound => locate_in_level0 files min_fid src dst is_out edge_type
            | _ => Some (rs, mkLocation false (timeStamp (cache_header it)) (default kMaxSequence (seq : option Z)))
            end
        end
      else locate_in_level0 files min_fid src dst is_out edge_type
  end.

Fixpoint locate_by_levels (findex : MulLevelIndex) (levelIDs : list Z) (dst : Z) (is_out : bool) (edge_type : Z)
  : option (Status * LSMEdgeLocation) :=
  match levelIDs with
  | [] => Some (kNotFound, no_location)
  | levelID :: levelIDs =>
      range ← level_range findex levelID;
      match (range : option (Z * Z * Z)) with
      | None => locate_by_levels findex levelIDs dst is_out edge_type
      | Some (fileID, offset, next_offset) =>
          sstcache ← sstdata_manager_ L !! fileID;
          '(rs, seq) ← find_edge_seq sstcache dst offset next_offset is_out edge_type;
          match rs with
          | kNotFound => locate_by_levels findex levelIDs dst is_out edge_type
          | _ => Some (rs, mkLocation false fileID (default kMaxSequence (seq : option Z)))
          end
      end
  end.

Definition LocateEdge (snap : Snapshot) (src dst : Z) (is_out : bool) (edge_type : Z)
  : option (Status * LSMEdgeLocation) :=
  '(rs, location) ← locate_in_tables (snap_tables snap) src dst is_out edge_type;
  match rs with
  | kNotFound =>
      '(rs, location) ← locate_in_level0 (snap_level0 snap) (min_level_0_fid (snap_findex snap)) src dst is_out edge_type;
      match rs with
      | kNotFound => locate_by_levels (snap_findex snap) (seqZ 0 LEVEL_INDEX_SIZE) dst is_out edge_type
      | _ => Some (rs, location)
      end
  | _ => Some (rs, location)
  end.
End Reads.

(** ** [AttachPropertyDelta] *)
Definition Rebound : Type := list (Z * (bool * list PropertyDeltaRecord)).

Fixpoint add_rebound (batches : Rebound) (fid : Z) (persistent : bool) (r : PropertyDeltaRecord) : Rebound :=
  match batches with
  | [] => [(fid, (persistent, [r]))]
  | (f, (p, rs)) :: batches =>
      if f =? fid then (f, (p || persistent, rs ++ [r])) :: batches
      else (f, (p, rs)) :: add_rebound batches fid persistent r
  end.

Section Attach.
Context `{StdHash} (debug : bool) (L : LsmColumns).
(** The iteration order of the hash map of rebound batches. *)
Context (hash_order : Rebound -> Rebound).

(** Every record comes with the snapshot its [LocateEdge] takes.  [Err] is the
    status returned for a record that does not resolve to its topology. *)
Fixpoint rebind (records : list (PropertyDeltaRecord * Snapshot)) (batches : Rebound)
  : option (result Status Rebound) :=
  match records with
  | [] => Some (Ok batches)
  | (r, snap) :: records =>
      '(status, location) ← LocateEdge debug L snap (src r) (dst r) (is_out r) (edge_type r);
      if negb (bool_decide (status = kOk)) || negb (location_sequence location =? base_sequence r)
         || (target_id location =? INVALID_File_ID)
      then Some (Err (if bool_decide (status = kOk) then kCorruption else status))
      else rebind records (add_rebound batches (target_id location) (negb (in_memtable location)) r)
  end.

Fixpoint attach_all (s : PropertyDeltaStore) (property_id : Z) (batches : Rebound)
  : IO (Status * PropertyDeltaStore) :=
  match batches with
  | [] => io_ret (kOk, s)
  | (fid, (persistent, records)) :: batches =>
      let* attached := Attach s (MakePropertyDeltaTarget L fid property_id) records persistent in
      match fst attached with
      | Ok _ => attach_all (snd attached) property_id batches
      | Err _ => io_ret (kBackgroundError, snd attached)
      end
  end.

(** [None] inside is a memory fault of a lookup. *)
Definition AttachPropertyDelta (store : option PropertyDeltaStore) (target_fid property_id : Z)
    (records : list (PropertyDeltaRecord * Snapshot)) : IO (option (Status * option PropertyDeltaStore)) :=
  match store with
  | None => io_ret (Some (kNotFound, store))
  | Some s =>
      if bool_decide (zlen records = 0) || (target_fid =? INVALID_File_ID) || (property_id <? 0)
         || (zlen (sub_property_lengths_ L) <=? property_id)
      then io_ret (Some (kNotFound, store))
      else
        match rebind records [] with
        | None => io_ret None
        | Some (Err status) => io_ret (Some (status, store))
        | Some (Ok batches) =>
            let* done := attach_all s property_id (hash_order batches) in
            io_ret (Some (fst done, Some (snd done)))
        end
  end.
End Attach.
