(* ===== verification/LsmReadFacts.v ===== *)
(** * Facts about the point reads of the LSM store

    [LocateEdge] and [GetEdge] search the same places in the same order, and
    rebinding attaches every record to the place a later [GetEdge] consults. *)

From S2P Require Import Prelude.
From S2P Require Import Types.
From S2P Require Import Posix.
From S2P Require Import DeltaFile.
From S2P Require Import DeltaSpec.
From S2P Require Import DeltaFileCreate.
From S2P Require Import DeltaFileTheorems.
From S2P Require Import DeltaStore.
From S2P Require Import DeltaStoreFacts.
From S2P Require Import PropertyLayout.
From S2P Require Import Sst.
From S2P Require Import SkipList.
From S2P Require Import NeighBors.
From S2P Require Import MemTable.
From S2P Require Import DeltaMerge.
From S2P Require Import LevelIndex.
From S2P Require Import LsmRead.

(** ** [GetEdge] reads where [LocateEdge] locates *)
Section Locate.
Context `{StdHash} (debug : bool) (L : LsmColumns) (store : option PropertyDeltaStore).
Context (src dst pid : Z) (is_out : bool) (ty : Z).

(** The delta value of the located version, if its file has one. *)
Definition located_delta (loc : LSMEdgeLocation) : option (option bytes) :=
  delta_lookup (view_of L store (target_id loc) pid) (mkKey src dst (location_sequence loc) is_out ty).

(** The value of the body at [low] in the base column of a file. *)
Definition base_slot (view : option PropertyDeltaReadView) (data : SstData) (low : Z) : option (Status * option bytes) :=
  let column := default [] (property_data data !! Z.to_nat pid) in
  let property_buffer := match view with Some v => BaseDataOr v column | None => column end in
  edge_ordinal ← GetEdgeOrdinalFromBodyOffset low;
  let property_offset := GetSubPropertyOffsetByEdgeOrdinal (process_flags L) (merge_layout L) edge_ordinal pid in
  let length := GetSubPropertyFixedLength (process_flags L) (merge_layout L) pid in
  if debug && negb (length <? 1024) then None
  else if 0 <? length then
    property ← ReadSubPropertyFromSlot (process_flags L) (merge_layout L) property_buffer property_offset pid;
    Some (kOk, Some property)
  else Some (kOk, None).

(** The base value of the located version: a field of its payload in a table, or
    the slot of a body of the located file that has the located sequence. *)
Definition located_base (loc : LSMEdgeLocation) (found : option (Status * option bytes)) : Prop :=
  if in_memtable loc then
    exists payload, found = (_ ← assert_ debug (pid <? GetActiveSubPropertyNum (process_flags L) (merge_layout L));
                             Some (kOk, Some (ExtractSubProperty payload pid)))
  else
    exists data low, sstdata_manager_ L !! target_id loc = Some data /\
      get_seq_at (edge_data data) low = Some (location_sequence loc) /\
      found = base_slot (view_of L store (target_id loc) pid) data low.

(** What a search that located [loc] may answer. *)
Record agrees (rs : Status) (loc : LSMEdgeLocation) (found : option (Status * option bytes)) : Prop := {
  ag_other : rs <> kOk -> found = Some (rs, None);
  ag_delta : rs = kOk -> forall v, located_delta loc = Some (Some v) -> found = Some (kOk, Some v);
  ag_base : rs = kOk -> located_delta loc = Some None -> located_base loc found;
  ag_fault : rs = kOk -> located_delta loc = None -> found = None;
}.

Lemma base_slot_ok view data low st pr : base_slot view data low = Some (st, pr) -> st = kOk.
Proof.
  unfold base_slot. destruct (GetEdgeOrdinalFromBodyOffset low); simpl_bind; [|done]. destruct (_ && _); [done|].
  destruct (_ <? _); [|by intros [= <- _]]. destruct (ReadSubPropertyFromSlot _ _ _ _ _); simpl_bind; [|done]. by intros [= <- _].
Qed.

(** The statuses are equal. *)
Lemma agrees_status rs loc found st pr : agrees rs loc found -> found = Some (st, pr) -> st = rs.
Proof.
  intros [H1 H2 H3 H4] E. destruct (decide (rs = kOk)) as [->|Hne]; [|specialize (H1 Hne); congruence].
  destruct (located_delta loc) as [[v|]|]; [specialize (H2 eq_refl v eq_refl); congruence| |specialize (H4 eq_refl eq_refl); congruence].
  specialize (H3 eq_refl eq_refl). unfold located_base in H3. destruct (in_memtable loc).
  - destruct H3 as [payload ->]. destruct (assert_ _ _); simpl_bind in E; [|done]. by injection E as <- _.
  - destruct H3 as (data & low & _ & _ & ->). by eapply base_slot_ok.
Qed.

Lemma agrees_other rs loc found : rs <> kOk -> found = Some (rs, None) -> agrees rs loc found.
Proof. intros Hne ->. by split. Qed.

Lemma sst_agrees data fid s e rs seq :
  sstdata_manager_ L !! fid = Some data -> find_edge_seq data dst s e is_out ty = Some (rs, seq) ->
  agrees rs (mkLocation false fid (default kMaxSequence seq))
    (find_edge_from_sstdata_cache L debug (view_of L store fid pid) data src dst s e pid is_out ty).
Proof.
  intros Hd. unfold find_edge_seq, find_edge_from_sstdata_cache.
  destruct (FindEdgeByDstDirectionAndType _ _ _ _ _ _) as [[st off]|]; simpl_bind; [|done].
  case_bool_decide as Hst; cbn [negb].
  - destruct (get_seq_at _ _) as [q|] eqn:Eq; cbn [mbind option_bind default]; [|done]. intros [= <- <-]. change (default kMaxSequence (Some q)) with q.
    split; unfold located_delta; cbn [target_id location_sequence]; [done|..].
    + intros _ v ->. done.
    + intros _ ->. simpl_bind. unfold located_base. cbn [in_memtable target_id location_sequence]. exists data, off. by split_and!.
    + intros _ ->. done.
  - intros [= <- <-]. by apply agrees_other.
Qed.

Lemma Mem_get_status tb rs fid seq :
  Mem_get_seq debug tb src dst is_out ty = Some (rs, fid, seq) ->
  exists p, Mem_get debug tb src dst is_out ty = Some (rs, p).
Proof.
  unfold Mem_get_seq, Mem_get. destruct (vertex_adjs tb !! src) as [nb|]; [|intros [= <- _ _]; by eexists].
  unfold NB_get_seq, NB_get. destruct (NB_find_typed _ _ _ _ _) as [r|]; cbn; [|done].
  unfold status_of. destruct r as [e|]; [destruct (marker e)|]; intros [= <- _ _]; by eexists.
Qed.

Lemma tables_agree tables rs loc :
  locate_in_tables debug tables src dst is_out ty = Some (rs, loc) ->
  agrees rs loc (find_edge_in_memtable debug L store tables src dst pid is_out ty).
Proof.
  induction tables as [|tb tables IH]; cbn [locate_in_tables find_edge_in_memtable]; [intros [= <- <-]; by apply agrees_other|].
  destruct (Mem_get_seq debug tb src dst is_out ty) as [[[st fid] seq]|] eqn:E; simpl_bind; [|done].
  destruct st; try exact IH; intros [= <- <-]; try (by apply agrees_other).
  destruct (Mem_get_status tb _ _ _ E) as [p Ep]. split; unfold located_delta; cbn [target_id location_sequence]; [done|..].
  - by intros _ v ->.
  - intros _ ->. simpl_bind. rewrite Ep. simpl_bind. unfold located_base. cbn [in_memtable]. by exists (default [] p).
  - by intros _ ->.
Qed.

(** Going on after a search that found something. *)
Lemma agrees_found rs loc found (next : option (Status * option bytes)) :
  rs <> kNotFound -> agrees rs loc found ->
  ('(rs, property) ← found; match rs with kNotFound => next | _ => Some (rs, property) end) = found.
Proof.
  intros Hne Ha. destruct found as [[st pr]|]; [|done]. simpl_bind. rewrite (agrees_status _ _ _ _ _ Ha eq_refl). by destruct rs.
Qed.

Lemma agrees_missed loc found (next : option (Status * option bytes)) :
  agrees kNotFound loc found ->
  ('(rs, property) ← found; match rs with kNotFound => next | _ => Some (rs, property) end) = next.
Proof. intros Ha. by rewrite (ag_other _ _ _ Ha). Qed.

Lemma level0_agree files min_fid rs loc :
  Forall (fun it => min_fid <= timeStamp (cache_header it)) files ->
  locate_in_level0 L files min_fid src dst is_out ty = Some (rs, loc) ->
  agrees rs loc (find_in_level0 debug L store files src dst pid is_out ty).
Proof.
  induction 1 as [|it files Hmin _ IH]; cbn [locate_in_level0 find_in_level0]; [intros [= <- <-]; by apply agrees_other|].
  rewrite (proj2 (Z.leb_le _ _) Hmin). cbn [andb]. destruct (in_key_range src it); [|exact IH].
  unfold find_edge_in_lonely_SStableCache.
  destruct (source_range (cache_indexes it) src) as [[[s e]|]|]; simpl_bind; [|exact IH|done].
  destruct (sstdata_manager_ L !! timeStamp (cache_header it)) as [data|] eqn:Ed; simpl_bind; [|done].
  destruct (find_edge_seq data dst s e is_out ty) as [[st q]|] eqn:E; simpl_bind; [|done].
  apply (sst_agrees _ (timeStamp (cache_header it))) in E; [|done]. destruct (decide (st = kNotFound)) as [->|Hne].
  - rewrite (agrees_missed _ _ _ E). exact IH.
  - rewrite (agrees_found _ _ _ _ Hne E). by destruct st; intros; simplify_eq.
Qed.

Lemma levels_agree findex ids rs loc :
  locate_by_levels debug L findex ids dst is_out ty = Some (rs, loc) ->
  agrees rs loc (find_by_levels debug L store findex ids src dst pid is_out ty).
Proof.
  induction ids as [|id ids IH]; cbn [locate_by_levels find_by_levels]; [intros [= <- <-]; by apply agrees_other|].
  destruct (level_range debug findex id) as [[[[fid s] e]|]|]; simpl_bind; [|exact IH|done].
  destruct (sstdata_manager_ L !! fid) as [data|] eqn:Ed; simpl_bind; [|done].
  destruct (find_edge_seq data dst s e is_out ty) as [[st q]|] eqn:E; simpl_bind; [|done].
  apply (sst_agrees _ fid) in E; [|done]. destruct (decide (st = kNotFound)) as [->|Hne].
  - rewrite (agrees_missed _ _ _ E). exact IH.
  - rewrite (agrees_found _ _ _ _ Hne E). by destruct st; intros; simplify_eq.
Qed.

(** Level-0 files older than the source's [min_level_0_fid] are searched by
    [GetEdge] but not by [LocateEdge]. *)
Definition level0_current (snap : Snapshot) : Prop :=
  Forall (fun it => min_level_0_fid (snap_findex snap) <= timeStamp (cache_header it)) (snap_level0 snap).

Lemma GetEdge_agrees snap rs loc :
  level0_current snap -> LocateEdge debug L snap src dst is_out ty = Some (rs, loc) ->
  agrees rs loc (GetEdge debug L store snap src dst pid is_out ty).
Proof.
  unfold LocateEdge, GetEdge. intros Hc.
  destruct (locate_in_tables _ _ _ _ _ _) as [[r1 l1]|] eqn:E1; simpl_bind; [|done].
  apply tables_agree in E1.
  destruct (decide (r1 = kNotFound)) as [->|H1];
    [|rewrite (agrees_found _ _ _ _ H1 E1); by destruct r1; intros; simplify_eq].
  rewrite (agrees_missed _ _ _ E1). unfold find_edge_in_SStableCache.
  destruct (locate_in_level0 _ _ _ _ _ _ _) as [[r2 l2]|] eqn:E2; simpl_bind; [|done].
  apply level0_agree in E2; [|done].
  destruct (decide (r2 = kNotFound)) as [->|H2];
    [|rewrite (agrees_found _ _ _ _ H2 E2); by destruct r2; intros; simplify_eq].
  rewrite (agrees_missed _ _ _ E2). apply levels_agree.
Qed.
End Locate.

(** ** The size of an image is bounded by its batch *)
Definition batch_bytes (records : list PropertyDeltaRecord) : Z :=
  foldr (fun r n => sizeof DeltaDiskRecord + zlen (value r) + n) 0 records.

Lemma batch_bytes_cons r l : batch_bytes (r :: l) = 48 + zlen (value r) + batch_bytes l.
Proof. done. Qed.
Lemma batch_bytes_nil : batch_bytes [] = 0.
Proof. done. Qed.

Lemma batch_bytes_app l k : batch_bytes (l ++ k) = batch_bytes l + batch_bytes k.
Proof. induction l as [|r l IH]; [done|]. rewrite <- app_comm_cons, !batch_bytes_cons, IH. lia. Qed.

Lemma batch_bytes_nonneg l : 0 <= batch_bytes l.
Proof. induction l as [|r l IH]; [done|]. rewrite batch_bytes_cons. pose proof (zlen_nonneg (value r)). lia. Qed.

Lemma batch_bytes_perm l k : l ≡ₚ k -> batch_bytes l = batch_bytes k.
Proof. induction 1; rewrite ?batch_bytes_cons; lia. Qed.

Lemma batch_bytes_reverse l : batch_bytes (reverse l) = batch_bytes l.
Proof. apply batch_bytes_perm, reverse_Permutation. Qed.

Lemma dedup_push_bytes acc r : batch_bytes (dedup_push acc r) <= batch_bytes (r :: acc).
Proof.
  unfold dedup_push. destruct acc as [|b acc]; [done|]. destruct (SameVersion b r); [|done].
  rewrite !batch_bytes_cons. pose proof (zlen_nonneg (value b)). lia.
Qed.

Lemma canonical_bytes records : batch_bytes (canonical records) <= batch_bytes records.
Proof.
  unfold canonical, deduplicate. rewrite batch_bytes_reverse.
  rewrite <- (batch_bytes_perm _ _ (stable_sort_perm RecordLess records)).
  set (l := stable_sort RecordLess records). clearbody l. clear.
  enough (forall acc, batch_bytes (foldl dedup_push acc l) <= batch_bytes acc + batch_bytes l) as Hf
    by (etrans; [apply Hf|done]).
  induction l as [|r l IH]; intros acc; cbn [foldl]; [rewrite batch_bytes_nil; lia|].
  etrans; [apply IH|]. pose proof (dedup_push_bytes acc r) as Hp. rewrite batch_bytes_cons in *. lia.
Qed.

Lemma layout_records_bytes l records l' :
  layout_records l records = Ok l' ->
  zlen (l_disk l') * 48 + zlen (l_values l') = zlen (l_disk l) * 48 + zlen (l_values l) + batch_bytes records.
Proof.
  revert l. induction records as [|r records IH]; intros l; cbn [layout_records]; [intros [= <-]; rewrite batch_bytes_nil; lia|].
  destruct (layout_step l r) as [l1|] eqn:E; [|done]. intros Hl. rewrite (IH _ Hl), batch_bytes_cons.
  unfold layout_step in E. do 2 (case_match; [done|]). injection E as <-. cbn [l_disk l_values].
  rewrite !zlen_app. match goal with |- context [zlen [?d]] => change (zlen [d]) with 1 end. lia.
Qed.

Lemma image_bytes_le t g records i :
  BuildImage t g records = Ok i -> zlen (image_bytes i) <= 120 + batch_bytes records.
Proof.
  unfold BuildImage. case_bool_decide; [done|]. case_match; [done|]. fold (canonical records).
  destruct (layout_records _ _) as [l|] eqn:El; [|done]. intros Ei.
  assert (i = (pod_encode (BuildHeader t g l), concat (map pod_encode (l_disk l)), l_values l)) as -> by congruence.
  apply layout_records_bytes in El. cbn [l_disk l_values] in El.
  pose proof (zlen_pod_encode (BuildHeader t g l)) as Hz. pose proof (concat_pod_zlen (l_disk l)) as Hc.
  pose proof (canonical_bytes records). cbn [image_bytes]. rewrite !zlen_app, Hz, Hc.
  change (sizeof DeltaDiskHeader) with 120. change (sizeof DeltaDiskRecord) with 48.
  change (@zlen DeltaDiskRecord []) with 0 in El. change (@zlen Byte.byte []) with 0 in El. lia.
Qed.

(** ** Attaching the rebound batches *)
Section AttachFacts.
Context `{StdHash}.

Lemma wp_conj {A} (m : IO A) (Q R : A -> gmap bytes bytes -> Prop) (C : gmap bytes bytes -> Prop) fs :
  wp m Q C fs -> wp m R C fs -> wp m (fun a fs => Q a fs /\ R a fs) C fs.
Proof. intros HQ HR s. specialize (HQ s). specialize (HR s). by destruct (m _) as [[a|] w']. Qed.

Lemma wp_any {A} (m : IO A) fs : wp m (fun _ _ => True) (fun _ => True) fs.
Proof. intros s. by destruct (m _) as [[]]. Qed.

(** The generation counter stays a 64-bit number. *)
Lemma wp_Attach_generation s t records p fs :
  fits 64 (next_file_generation_ s) ->
  wp (Attach s t records p) (fun r _ => fits 64 (next_file_generation_ r.2)) (fun _ => True) fs.
Proof.
  intros Hg. unfold Attach. case_bool_decide; [by wp_step|].
  destruct (GetOrCreateChain s t p) as [s1 c1] eqn:E1.
  assert (next_file_generation_ s1 = next_file_generation_ s) as E
    by (unfold GetOrCreateChain in E1; by injection E1 as <- _). cbv zeta.
  assert (fits 64 (u64 (next_file_generation_ s1 + 1))) as Hw by auto with rg.
  wp_step. eapply wp_mono; [apply wp_any| |done]. intros [[f|e]|] fs1 _; [|by wp_step|by wp_step].
  wp_step. eapply wp_mono; [apply wp_any| |done]. intros [manifest|e] fs2 _.
  - destruct (chain_attach _ _ _ _ _) as [c' []]; wp_step; exact Hw.
  - wp_step. wp_step; [by wp_step|by wp_step|done].
Qed.

Context (L : LsmColumns) (pid : Z).
Abbreviation target_of fid := (MakePropertyDeltaTarget L fid pid).

Definition attach_rebound (M : contents) (batches : Rebound) : contents :=
  foldl (fun M b => attach_to M (target_of b.1) b.2.2) M batches.

Definition batch_fits (b : Z * (bool * list PropertyDeltaRecord)) : Prop :=
  Forall record_ok b.2.2 /\ target_ok (target_of b.1) /\ 120 + batch_bytes b.2.2 < 2 ^ 64.

Lemma wp_attach_all batches s M fs :
  store_repr s M -> fits 64 (next_file_generation_ s) -> Forall batch_fits batches ->
  wp (attach_all L s pid batches)
     (fun r _ => r.1 = kOk -> store_repr r.2 (attach_rebound M batches)) (fun _ => True) fs.
Proof.
  intros Hs Hg Hf. revert s M fs Hs Hg. induction Hf as [|[fid [p rs]] batches (Hr & Ht & Hb) Hf IH]; intros s M fs Hs Hg;
    cbn [attach_all]; [by wp_step|].
  wp_step. eapply wp_mono; [apply wp_conj; [apply wp_Attach|apply wp_Attach_generation]| |done]; try done.
  - intros i Hi. apply image_bytes_le in Hi. unfold fits. pose proof (zlen_nonneg (image_bytes i)).
    cbn [fst snd] in Hb. lia.
  - intros [[[]|e] s'] fs' [Hp Hg']; cbn [fst snd attach_post] in *; [|by wp_step].
    by apply (IH s').
Qed.
End AttachFacts.

(** ** Rebinding *)
Section RebindFacts.
Context (debug : bool) (L : LsmColumns).
Abbreviation records_of batches := (concat ((fun b : Z * (bool * list PropertyDeltaRecord) => b.2.2) <$> batches)).

Lemma add_rebound_perm batches fid p r : records_of (add_rebound batches fid p r) ≡ₚ r :: records_of batches.
Proof.
  induction batches as [|[f [q rs]] batches IH]; cbn [add_rebound]; [done|].
  destruct (f =? fid); cbn [fmap list_fmap concat snd].
  - rewrite <- app_assoc. symmetry. apply Permutation_middle.
  - rewrite IH. symmetry. apply Permutation_middle.
Qed.

Definition holds_record (batches : Rebound) (fid : Z) (r : PropertyDeltaRecord) : Prop :=
  exists p rs, (fid, (p, rs)) ∈ batches /\ r ∈ rs.

Lemma add_rebound_holds batches fid p r : holds_record (add_rebound batches fid p r) fid r.
Proof.
  induction batches as [|[f [q rs]] batches IH]; cbn [add_rebound].
  - exists p, [r]. split; [left|set_solver].
  - destruct (Z.eqb_spec f fid) as [->|].
    + exists (q || p), (rs ++ [r]). split; [left|set_solver].
    + destruct IH as (p' & rs' & ? & ?). exists p', rs'. split; [by right|done].
Qed.

Lemma add_rebound_keeps batches fid p r f r' :
  holds_record batches f r' -> holds_record (add_rebound batches fid p r) f r'.
Proof.
  intros (q & rs & Hin & Hr). induction batches as [|[f' [q' rs']] batches IH]; [by apply elem_of_nil in Hin|].
  cbn [add_rebound]. apply elem_of_cons in Hin as [[= -> -> ->]|Hin].
  - destruct (f' =? fid).
    + exists (q' || p), (rs' ++ [r]). split; [left|set_solver].
    + exists q', rs'. split; [left|done].
  - destruct (f' =? fid).
    + exists q, rs. split; [by right|done].
    + destruct (IH Hin) as (q0 & rs0 & ? & ?). exists q0, rs0. split; [by right|done].
Qed.

Lemma add_rebound_keys batches fid p r b :
  b ∈ add_rebound batches fid p r -> b.1 = fid \/ exists b', b' ∈ batches /\ b.1 = b'.1.
Proof.
  induction batches as [|[f [q rs]] batches IH]; cbn [add_rebound].
  - intros ->%list_elem_of_singleton. by left.
  - destruct (f =? fid); intros [->|Hin]%elem_of_cons.
    + right. exists (f, (q, rs)). split; [left|done].
    + right. exists b. split; [by right|done].
    + right. exists (f, (q, rs)). split; [left|done].
    + destruct (IH Hin) as [|(b' & ? & ?)]; [by left|]. right. exists b'. split; [by right|done].
Qed.

(** The place a record was resolved to. *)
Definition resolved (rs : PropertyDeltaRecord * Snapshot) (loc : LSMEdgeLocation) : Prop :=
  let r := rs.1 in
  LocateEdge debug L rs.2 (src r) (dst r) (is_out r) (edge_type r) = Some (kOk, loc) /\
  location_sequence loc = base_sequence r /\ target_id loc <> INVALID_File_ID.

Lemma rebind_cons r snap records batches batches' :
  rebind debug L ((r, snap) :: records) batches = Some (Ok batches') ->
  exists loc, resolved (r, snap) loc /\
    rebind debug L records (add_rebound batches (target_id loc) (negb (in_memtable loc)) r) = Some (Ok batches').
Proof.
  cbn [rebind]. unfold resolved. cbn [fst snd].
  destruct (LocateEdge _ _ _ _ _ _ _) as [[st loc]|]; simpl_bind; [|done].
  case_bool_decide as Hst; [|done]. subst st. cbn [negb orb].
  destruct (Z.eqb_spec (location_sequence loc) (base_sequence r)); cbn [negb orb]; [|done].
  destruct (Z.eqb_spec (target_id loc) INVALID_File_ID); cbn [negb orb]; [done|].
  intros Hr. by exists loc.
Qed.

Lemma rebind_error records batches st : rebind debug L records batches = Some (Err st) -> st <> kOk.
Proof.
  revert batches. induction records as [|[r snap] records IH]; intros batches; cbn [rebind]; [done|].
  destruct (LocateEdge _ _ _ _ _ _ _) as [[st' loc]|]; simpl_bind; [|done].
  case_match; [|by apply IH]. intros [= <-]. by case_bool_decide.
Qed.

Lemma rebind_perm records batches batches' :
  rebind debug L records batches = Some (Ok batches') -> records_of batches' ≡ₚ records_of batches ++ records.*1.
Proof.
  revert batches. induction records as [|[r snap] records IH]; intros batches.
  - intros [= <-]. by rewrite app_nil_r.
  - intros (loc & _ & E)%rebind_cons. rewrite (IH _ E), add_rebound_perm. cbn [fmap list_fmap fst]. apply Permutation_middle.
Qed.

Lemma rebind_keeps records batches batches' f r :
  rebind debug L records batches = Some (Ok batches') -> holds_record batches f r -> holds_record batches' f r.
Proof.
  revert batches. induction records as [|[r' snap] records IH]; intros batches.
  - by intros [= <-].
  - intros (loc & _ & E)%rebind_cons Hh. by eapply IH, add_rebound_keeps.
Qed.

Lemma rebind_resolved records batches batches' rs :
  rebind debug L records batches = Some (Ok batches') -> rs ∈ records ->
  exists loc, resolved rs loc /\ holds_record batches' (target_id loc) rs.1.
Proof.
  revert batches. induction records as [|[r snap] records IH]; intros batches E Hin; [by apply elem_of_nil in Hin|].
  apply rebind_cons in E as (loc & Hl & E). apply elem_of_cons in Hin as [->|Hin]; [|by eapply IH].
  exists loc. split; [done|]. by eapply rebind_keeps, add_rebound_holds.
Qed.

Lemma rebind_keys records batches batches' b :
  rebind debug L records batches = Some (Ok batches') -> b ∈ batches' ->
  (exists b', b' ∈ batches /\ b.1 = b'.1) \/ exists rs loc, rs ∈ records /\ resolved rs loc /\ b.1 = target_id loc.
Proof.
  revert batches. induction records as [|[r snap] records IH]; intros batches E Hin.
  - injection E as <-. left. by exists b.
  - apply rebind_cons in E as (loc & Hl & E). destruct (IH _ E Hin) as [(b' & Hb' & ->)|(rs & l & ? & ? & ?)].
    + destruct (add_rebound_keys _ _ _ _ _ Hb') as [->|?]; [|by left]. right. exists (r, snap), loc. split; [left|done].
    + right. exists rs, l. split; [by right|done].
Qed.
End RebindFacts.
