(* ===== verification/LsmReadTheorems.v ===== *)
(** * Theorems about the point reads of the LSM store *)

From S2P Require Import Prelude.
From S2P Require Import Types.
From S2P Require Import Posix.
From S2P Require Import DeltaFile.
From S2P Require Import DeltaSpec.
From S2P Require Import Names.
From S2P Require Import DeltaStore.
From S2P Require Import DeltaStoreFacts.
From S2P Require Import DeltaStoreTheorems.
From S2P Require Import PropertyLayout.
From S2P Require Import EdgeBody.
From S2P Require Import Sst.
From S2P Require Import SkipList.
From S2P Require Import NeighBors.
From S2P Require Import MemTable.
From S2P Require Import DeltaMerge.
From S2P Require Import DeltaMergeTheorems.
From S2P Require Import LevelIndex.
From S2P Require Import LsmRead.
From S2P Require Import LsmReadFacts.

(** ** A sample: one level-0 file with the edges 5 -> 7 and 6 -> 3 *)
Definition level0_file : SSTableCache := mkCache (mkHeader_ 7 0 0 5 6) 0 (sst_indexes sample_sst).
Definition sample_snap : Snapshot := mkSnap [new_memtable 4 ∅] [level0_file] empty_index.

(** C32: for a source whose level-0 files are all current, [GetEdge] answers at
    the place [LocateEdge] reports. Whenever it returns, its status is the located
    one. A missing or deleted edge is answered without a value. For an edge that
    is there it returns the newest delta value attached to the located file for
    the located version, and without one the base value: the field of the payload
    in the table, or the slot, in the column of the located file, of a body with
    the located sequence. *)
Theorem locate_then_get `{StdHash} debug L store snap src dst pid is_out ty rs loc :
  level0_current snap -> LocateEdge debug L snap src dst is_out ty = Some (rs, loc) ->
  let found := GetEdge debug L store snap src dst pid is_out ty in
  (forall st pr, found = Some (st, pr) -> st = rs) /\
  (rs <> kOk -> found = Some (rs, None)) /\
  (rs = kOk -> forall v, located_delta L store src dst pid is_out ty loc = Some (Some v) -> found = Some (kOk, Some v)) /\
  (rs = kOk -> located_delta L store src dst pid is_out ty loc = Some None -> located_base debug L store pid loc found).
Proof.
  intros Hc Hl. pose proof (GetEdge_agrees debug L store src dst pid is_out ty snap rs loc Hc Hl) as Ha. split_and!; [|apply Ha..].
  intros st pr. by apply (agrees_status debug L store src dst pid is_out ty rs loc).
Qed.

Lemma locate_then_get_witness :
  let H : StdHash := fun z => z in
  GetEdge true sample_columns None sample_snap 5 9 0 true 1 = Some (kDelete, None) /\
  LocateEdge true sample_columns sample_snap 5 7 true 1 = Some (kOk, mkLocation false 7 11) /\
  located_base true sample_columns None 0 (mkLocation false 7 11) (GetEdge true sample_columns None sample_snap 5 7 0 true 1).
Proof.
  intros H. split; [|split; [vm_compute; reflexivity|]].
  - apply (proj1 (proj2 (locate_then_get true sample_columns None sample_snap 5 9 0 true 1 kDelete (mkLocation false 7 kMaxSequence)
      ltac:(eval_prop) ltac:(vm_compute; reflexivity)))). discriminate.
  - apply (proj2 (proj2 (proj2 (locate_then_get true sample_columns None sample_snap 5 7 0 true 1 kOk (mkLocation false 7 11)
      ltac:(eval_prop) ltac:(vm_compute; reflexivity))))); vm_compute; reflexivity.
Defined.

(** ** Updates attached by [AttachPropertyDelta] *)
Section Attached.
Context `{StdHash} (debug : bool) (L : LsmColumns) (pid : Z).
Abbreviation target_of fid := (MakePropertyDeltaTarget L fid pid).

(** File ids of a snapshot are 32-bit numbers. *)
Definition snap_ids_ok (snap : Snapshot) : Prop :=
  Forall (fun tb => fits 32 (fid_ tb)) (snap_tables snap) /\
  Forall (fun it => fits 32 (timeStamp (cache_header it))) (snap_level0 snap) /\
  Forall (fun d => fits 32 (lv_fileID d)) (levels (snap_findex snap)).

Definition property_id_ok : Prop := 0 <= pid < zlen (sub_property_lengths_ L).

Lemma locate_tables_fits tables src dst is_out ty rs loc :
  Forall (fun tb => fits 32 (fid_ tb)) tables ->
  locate_in_tables debug tables src dst is_out ty = Some (rs, loc) -> fits 32 (target_id loc).
Proof.
  induction 1 as [|tb tables Hfid _ IH]; cbn [locate_in_tables]; [by intros [= <- <-]|].
  unfold Mem_get_seq. destruct (vertex_adjs tb !! src) as [nb|]; simpl_bind; [|exact IH].
  destruct (NB_get_seq _ _ _ _ _) as [[st q]|]; simpl_bind; [|done].
  destruct st; try exact IH; by intros [= <- <-].
Qed.

Lemma locate_level0_fits files min_fid src dst is_out ty rs loc :
  Forall (fun it => fits 32 (timeStamp (cache_header it))) files ->
  locate_in_level0 L files min_fid src dst is_out ty = Some (rs, loc) -> fits 32 (target_id loc).
Proof.
  induction 1 as [|it files Hfid _ IH]; cbn [locate_in_level0]; [by intros [= <- <-]|].
  destruct (_ && _); [|exact IH].
  destruct (source_range _ _) as [[[s e]|]|]; simpl_bind; [|exact IH|done].
  destruct (sstdata_manager_ L !! _); simpl_bind; [|done].
  destruct (find_edge_seq _ _ _ _ _ _) as [[st q]|]; simpl_bind; [|done].
  destruct st; try exact IH; by intros [= <- <-].
Qed.

Lemma locate_levels_fits findex ids dst is_out ty rs loc :
  Forall (fun d => fits 32 (lv_fileID d)) (levels findex) ->
  locate_by_levels debug L findex ids dst is_out ty = Some (rs, loc) -> fits 32 (target_id loc).
Proof.
  intros Hf. induction ids as [|id ids IH]; cbn [locate_by_levels]; [by intros [= <- <-]|].
  destruct (level_range debug findex id) as [[[[fid s] e]|]|] eqn:El; simpl_bind; [|exact IH|done].
  assert (fits 32 fid) as Hfid.
  { unfold level_range, get_fileID, at_level in El. destruct (id <? 0); [done|].
    destruct (levels findex !! Z.to_nat id) as [d|] eqn:Ed; cbn [fmap option_fmap option_map mbind option_bind] in El; [|done].
    destruct (_ =? _); [done|].
    destruct (get_offset findex id); simpl_bind in El; [|done].
    destruct (get_next_offset findex id); simpl_bind in El; [|done].
    destruct (assert_ _ _); simpl_bind in El; [|done]. injection El as <- _ _. rewrite Forall_forall in Hf. by eapply Hf, list_elem_of_lookup_2. }
  destruct (sstdata_manager_ L !! _); simpl_bind; [|done].
  destruct (find_edge_seq _ _ _ _ _ _) as [[st q]|]; simpl_bind; [|done].
  destruct st; try exact IH; by intros [= <- <-].
Qed.

Lemma LocateEdge_fits snap src dst is_out ty rs loc :
  snap_ids_ok snap -> LocateEdge debug L snap src dst is_out ty = Some (rs, loc) -> fits 32 (target_id loc).
Proof.
  intros (Ht & H0 & Hl). unfold LocateEdge.
  destruct (locate_in_tables _ _ _ _ _ _) as [[r1 l1]|] eqn:E1; simpl_bind; [|done].
  apply locate_tables_fits in E1; [|done].
  destruct r1; try (by intros [= <- <-]).
  destruct (locate_in_level0 _ _ _ _ _ _ _) as [[r2 l2]|] eqn:E2; simpl_bind; [|done].
  apply locate_level0_fits in E2; [|done].
  destruct r2; try (by intros [= <- <-]). by apply locate_levels_fits.
Qed.

Lemma attach_rebound_elem M batches t r :
  r ∈ concat (attach_rebound L pid M batches t) <->
  r ∈ concat (M t) \/ exists b, b ∈ batches /\ target_of b.1 = t /\ r ∈ b.2.2.
Proof.
  unfold attach_rebound. revert M. induction batches as [|b batches IH]; intros M; cbn [foldl].
  - split; [by left|]. intros [|(b & Hb & _)]; [done|by apply elem_of_nil in Hb].
  - rewrite IH. clear IH.
    assert (r ∈ concat (attach_to M (target_of b.1) b.2.2 t) <->
            r ∈ concat (M t) \/ (target_of b.1 = t /\ r ∈ b.2.2)) as ->.
    { unfold attach_to. case_decide as Et.
      - rewrite concat_app. cbn [concat]. rewrite app_nil_r, elem_of_app. subst t. tauto.
      - split; [by left|]. intros [|[E _]]; [done|by subst]. }
    split.
    + intros [[|[? ?]]|(b' & ? & ? & ?)]; [by left|right; exists b; split; [left|done]|right; exists b'; split; [by right|done]].
    + intros [|(b' & [->|Hb]%elem_of_cons & ? & ?)]; [by left; left|by left; right|right; by exists b'].
Qed.

Lemma rebind_batches_fit records batches :
  Forall record_ok records.*1 -> 120 + batch_bytes records.*1 < 2 ^ 64 -> fits 32 (property_shard_id_ L) ->
  Forall (fun rs => snap_ids_ok rs.2) records -> rebind debug L records [] = Some (Ok batches) ->
  Forall (batch_fits L pid) batches.
Proof.
  intros Hr Hb Hs Hids E. pose proof (rebind_perm _ _ _ _ _ E) as Hp. cbn [fmap list_fmap concat app] in Hp.
  rewrite Forall_forall in Hr. rewrite Forall_forall in Hids. apply Forall_forall. intros b Hin.
  apply list_elem_of_split in Hin as Hsp. destruct Hsp as (l1 & l2 & El).
  assert (b.2.2 ⊆ records.*1) as Hsub.
  { intros r Hin'. rewrite <- Hp. apply list_elem_of_In, in_concat. exists b.2.2.
    rewrite <- !list_elem_of_In. split; [apply list_elem_of_fmap; by exists b|done]. }
  assert (batch_bytes b.2.2 <= batch_bytes records.*1) as Hle.
  { rewrite <- (batch_bytes_perm _ _ Hp), El, fmap_app, concat_app, batch_bytes_app. cbn [fmap list_fmap concat].
    rewrite batch_bytes_app. pose proof (batch_bytes_nonneg (concat ((fun b => b.2.2) <$> l1))).
    pose proof (batch_bytes_nonneg (concat ((fun b => b.2.2) <$> l2))). lia. }
  destruct (rebind_keys _ _ _ _ _ _ E Hin) as [(b' & Hb' & _)|(rs & loc & Hrs & (Hl & _) & Hk)];
    [by apply elem_of_nil in Hb'|].
  apply LocateEdge_fits in Hl; [|by apply Hids]. split_and!.
  - apply Forall_forall. intros r Hr'. by apply Hr, Hsub.
  - unfold target_ok. cbn. rewrite Hk. unfold fits in *. split_and!; try lia.
    all: by apply wrap_fits.
  - lia.
Qed.

(** What [GetEdge] sees of a record bound to its place. *)
Lemma located_newest s M loc snap r :
  store_repr s M -> property_id_ok -> level0_current snap -> resolved debug L (r, snap) loc ->
  fits 64 (commit_sequence r) -> r ∈ concat (M (target_of (target_id loc))) ->
  exists r', r' ∈ concat (M (target_of (target_id loc))) /\ key_of r' = key_of r /\
    (forall r'', r'' ∈ concat (M (target_of (target_id loc))) -> key_of r'' = key_of r ->
       fits 64 (commit_sequence r'') -> commit_sequence r'' <= commit_sequence r') /\
    GetEdge debug L (Some s) snap (src r) (dst r) pid (is_out r) (edge_type r) = Some (kOk, Some (value r')).
Proof.
  intros Hs Hp Hc (Hl & Hq & Hi) Hcs Hin. cbn [fst snd] in *.
  set (t := target_of (target_id loc)) in *. set (key := key_of r).
  assert (forall r'' : PropertyDeltaRecord, fits 64 (commit_sequence r'') -> commit_sequence r'' <= kLatestPropertyCommit) as Hlatest
    by (intros r'' Hf; unfold fits, kLatestPropertyCommit, UINT64_MAX in *; lia).
  pose proof (store_lookup_correct s M t key kLatestPropertyCommit Hs) as Hlk.
  destruct (newest_visible key kLatestPropertyCommit (concat (M t))) as [r'|] eqn:En.
  - exists r'. pose proof (newest_visible_Some _ _ _ _ En) as [[Hk Hv] Hr']. split_and!; [done|done| |].
    + intros r'' Hr'' Hk'' Hf. apply (newest_visible_max _ _ _ _ _ En Hr''). split; [done|by apply Hlatest].
    + destruct (GetEdge_agrees debug L (Some s) (src r) (dst r) pid (is_out r) (edge_type r) snap kOk loc Hc Hl) as [_ Hg _ _].
      apply Hg; [done|]. unfold located_delta. rewrite Hq.
      unfold view_of, LoadPropertyDeltaView. destruct Hp as [Hp0 Hp1].
      rewrite (proj2 (Z.ltb_ge _ _) Hp0), (proj2 (Z.leb_gt _ _) Hp1). cbn [orb]. fold t.
      unfold store_lookup in Hlk. destruct (ReadView s t) as [v|]; [|done].
      unfold delta_lookup. cbn [vr_read PropertyDeltaReadView_read] in Hlk.
      change (mkKey (src r) (dst r) (base_sequence r) (is_out r) (edge_type r)) with key.
      destruct (ReadView_Lookup key kLatestPropertyCommit v _) as [[best c]|]; [|done].
      cbn [fmap option_fmap option_map fst observe] in Hlk. injection Hlk as ->. done.
  - exfalso. rewrite newest_visible_None in En. apply (En r Hin). split; [done|by apply Hlatest].
Qed.
End Attached.

Lemma attach_kOk `{StdHash} debug L hash_order s tfid pid records w s' w' :
  AttachPropertyDelta debug L hash_order (Some s) tfid pid records w = (Some (Some (kOk, Some s')), w') ->
  property_id_ok L pid /\ exists batches, rebind debug L records [] = Some (Ok batches) /\
    attach_all L s pid (hash_order batches) w = (Some (kOk, s'), w').
Proof.
  unfold AttachPropertyDelta, property_id_ok. intros E.
  destruct (bool_decide _ || _ || _ || _) eqn:Eg; [done|].
  apply orb_false_iff in Eg as [[[_ _]%orb_false_iff H0%Z.ltb_ge]%orb_false_iff H1%Z.leb_gt]. split; [done|].
  destruct (rebind _ _ _ _) as [[batches|st]|] eqn:Er; [|apply rebind_error in Er; unfold io_ret in E; congruence|done].
  exists batches. split; [done|]. unfold io_bind in E.
  destruct (attach_all _ _ _ _ w) as [[[st s1]|] w1]; [|done]. unfold io_ret in E. cbn in E. congruence.
Qed.

(** C15: an attached update is what the next read returns. When [AttachPropertyDelta]
    returns kOk, whatever the system calls did and in whatever order the batches
    were attached, each of its records is served: [GetEdge] on the record's edge
    returns kOk with the value of a version of that edge, taken from the batch or
    attached before, that is at least as new as the record and as everything
    attached to its file before. *)
Theorem attached_update_visible `{StdHash} debug L hash_order s M tfid pid records w s' w' :
  (forall b, hash_order b ≡ₚ b) -> store_repr s M -> fits 64 (next_file_generation_ s) ->
  fits 32 (property_shard_id_ L) -> Forall record_ok records.*1 -> 120 + batch_bytes records.*1 < 2 ^ 64 ->
  Forall (fun rs => snap_ids_ok rs.2 /\ level0_current rs.2) records ->
  AttachPropertyDelta debug L hash_order (Some s) tfid pid records w = (Some (Some (kOk, Some s')), w') ->
  forall r snap, (r, snap) ∈ records ->
  exists fid r', let before := concat (M (MakePropertyDeltaTarget L fid pid)) in
    (r' ∈ before \/ r' ∈ records.*1) /\ key_of r' = key_of r /\ commit_sequence r <= commit_sequence r' /\
    (forall r'', r'' ∈ before -> key_of r'' = key_of r -> fits 64 (commit_sequence r'') ->
       commit_sequence r'' <= commit_sequence r') /\
    GetEdge debug L (Some s') snap (src r) (dst r) pid (is_out r) (edge_type r) = Some (kOk, Some (value r')).
Proof.
  intros Ho Hs Hg Hsh Hr Hb Hsn (Hp & batches & Er & Ea)%attach_kOk r snap Hin.
  rewrite Forall_and in Hsn. destruct Hsn as [Hids Hcur].
  pose proof (rebind_batches_fit debug L pid _ _ Hr Hb Hsh Hids Er) as Hfit. rewrite <- (Ho batches) in Hfit.
  pose proof (wp_run _ _ _ w (wp_attach_all L pid _ s M (files w) Hs Hg Hfit)) as Hw. rewrite Ea in Hw.
  specialize (Hw eq_refl). cbn [snd] in Hw.
  destruct (rebind_resolved _ _ _ _ _ _ Er Hin) as (loc & Hl & (p & rs & Hh & Hrs)). cbn [fst] in Hrs.
  rewrite Forall_forall in Hcur. rewrite Forall_forall in Hr.
  assert (fits 64 (commit_sequence r)) as Hcs by (apply Hr, list_elem_of_fmap; by exists (r, snap)).
  assert (r ∈ concat (attach_rebound L pid M (hash_order batches) (MakePropertyDeltaTarget L (target_id loc) pid))) as Hnew.
  { apply attach_rebound_elem. right. exists (target_id loc, (p, rs)). by rewrite (Ho batches). }
  destruct (located_newest debug L pid s' _ loc snap r Hw Hp (Hcur _ Hin) Hl Hcs Hnew) as (r' & Hr' & Hk & Hmax & Hget).
  exists (target_id loc), r'. cbv zeta. split_and!; [|done|by apply Hmax| |done].
  - apply attach_rebound_elem in Hr' as [|(b & Hb' & _ & Hin')]; [by left|right].
    rewrite (Ho batches) in Hb'. pose proof (rebind_perm _ _ _ _ _ Er) as Hperm. cbn [fmap list_fmap concat app] in Hperm.
    rewrite <- Hperm. apply list_elem_of_In, in_concat. exists b.2.2. rewrite <- !list_elem_of_In.
    split; [apply list_elem_of_fmap; by exists b|done].
  - intros r'' Hr'' Hk'' Hf. apply Hmax; [|done|done]. apply attach_rebound_elem. by left.
Qed.

Definition sample_update : PropertyDeltaRecord := mkRecord 5 7 11 20 true 1 (str "new").
Definition sample_rebound : list (PropertyDeltaRecord * Snapshot) := [(sample_update, sample_snap)].

Lemma attached_update_visible_witness :
  let H : StdHash := fun z => z in
  match AttachPropertyDelta true sample_columns (fun b => b) (Some sample_store) 7 0 sample_rebound (mkWorld ∅ []) with
  | (Some (Some (kOk, Some s')), _) =>
      exists r', key_of r' = key_of sample_update /\ 20 <= commit_sequence r' /\
        GetEdge true sample_columns (Some s') sample_snap 5 7 0 true 1 = Some (kOk, Some (value r'))
  | _ => False
  end.
Proof.
  intros H.
  assert (match AttachPropertyDelta true sample_columns (fun b => b) (Some sample_store) 7 0 sample_rebound (mkWorld ∅ []) with
          | (Some (Some (kOk, Some _)), _) => true | _ => false end = true) as Hok by (vm_compute; reflexivity).
  destruct (AttachPropertyDelta _ _ _ _ _ _ _ _) as [[[[[] [s'|]]|]|] w'] eqn:E; try discriminate Hok.
  destruct (attached_update_visible true sample_columns (fun b => b) sample_store (fun _ => []) 7 0 sample_rebound
    (mkWorld ∅ []) s' w' ltac:(done) sample_store_repr ltac:(eval_prop) ltac:(eval_prop) ltac:(eval_prop)
    ltac:(eval_prop) ltac:(unfold sample_rebound; repeat constructor; eval_prop) E sample_update sample_snap ltac:(left))
    as (fid & r' & _ & Hk & Hc & _ & Hg).
  exists r'. split_and!; [exact Hk|exact Hc|exact Hg].
Defined.
