(* ===== verification/LsmHistory.v ===== *)
(** * Reads return the last write

    MemTable, flush, SST and point read composed: after any history of
    insertions and deletions, part of it flushed to level-0 files and the rest
    in the active MemTable, [GetEdge] answers with the last write. *)

From S2P Require Import Prelude.
From S2P Require Import Types.
From S2P Require Import DeltaFile.
From S2P Require Import DeltaStore.
From S2P Require Import PropertyLayout.
From S2P Require Import EdgeBody.
From S2P Require Import Sst.
From S2P Require Import SkipList.
From S2P Require Import SkipListFacts.
From S2P Require Import NeighBors.
From S2P Require Import MemTable.
From S2P Require Import SstBuild.
From S2P Require Import SstBuildFacts.
From S2P Require Import SstBuildTheorems.
From S2P Require Import MemTableFlush.
From S2P Require Import DeltaMerge.
From S2P Require Import LevelIndex.
From S2P Require Import LsmRead.

Abbreviation Op := (Z * Edge * list Z)%type.

(** ** Writes *)
Lemma edges_of_app src ops ops' : edges_of src (ops ++ ops') = edges_of src ops ++ edges_of src ops'.
Proof. unfold edges_of. by rewrite filter_app, fmap_app. Qed.

Lemma last_written_app src dst is_out ty ops ops' :
  last_written src dst is_out ty (ops ++ ops') =
  match last_written src dst is_out ty ops' with Some e => Some e | None => last_written src dst is_out ty ops end.
Proof.
  unfold last_written, edges_of. rewrite !filter_app, fmap_app, filter_app, last_app. done.
Qed.

Lemma extract_field_split raw segment p : extract_field raw segment p = default [] (split_fields raw segment !! p).
Proof.
  revert segment p. induction raw as [|c raw IH]; intros segment p; cbn [extract_field split_fields]; [by destruct p|].
  case_bool_decide; [|apply IH]. destruct p as [|p]; [done|]. apply IH.
Qed.

(** ** Bounds and keys of the index of an image *)
Lemma ref_index_offsets vs k :
  0 <= k -> Forall (fun x => 0 <= ix_offset x <= EDGEBODY_SIZE * (k + zlen (all_edges vs))) (ref_index k vs).
Proof.
  revert k. induction vs as [|[vid es] vs IH]; intros k Hk; cbn [ref_index]; [constructor|].
  assert (all_edges ((vid, es) :: vs) = es ++ all_edges vs) as E by done. rewrite E, zlen_app.
  pose proof (zlen_nonneg es). pose proof (zlen_nonneg (all_edges vs)). change EDGEBODY_SIZE with 16 in *.
  constructor; [cbn [ix_offset]; lia|]. eapply Forall_impl; [apply IH; lia|]. cbn beta. intros x Hx. lia.
Qed.

Lemma ref_indexes_offset vs i x :
  ref_indexes vs !! i = Some x -> 0 <= ix_offset x <= EDGEBODY_SIZE * zlen (all_edges vs).
Proof.
  unfold ref_indexes. intros [Hi|[_ Hi]]%lookup_app_Some.
  - pose proof (ref_index_offsets vs 0 ltac:(done)) as Hf. rewrite Forall_lookup in Hf. apply (Hf _ _ Hi).
  - apply list_lookup_singleton_Some in Hi as [_ <-]. cbn [sentinel_index ix_offset].
    pose proof (zlen_nonneg (all_edges vs)). change EDGEBODY_SIZE with 16. lia.
Qed.

Lemma ref_indexes_key vs i x :
  ref_indexes vs !! i = Some x -> ix_key x = kInvalidVertexId \/ exists v, v ∈ vs /\ v.1 = ix_key x.
Proof.
  intros Hi. apply (f_equal (fmap ix_key)) in Hi. rewrite <- list_lookup_fmap in Hi. unfold ref_indexes in Hi.
  rewrite fmap_app, ref_index_keys in Hi. apply list_elem_of_lookup_2, elem_of_app in Hi as [Hi|Hi].
  - right. apply list_elem_of_fmap in Hi as (v & E & Hv). exists v. by rewrite E.
  - left. apply list_elem_of_singleton in Hi. by rewrite Hi.
Qed.

Lemma sorted_last_max {A} (vs : list (Z * A)) v x :
  StronglySorted (fun a b => a.1 < b.1) vs -> v ∈ vs -> list.last vs = Some x -> v.1 <= x.1.
Proof.
  induction vs as [|y vs IH] using rev_ind; intros Hs Hv El; [by apply elem_of_nil in Hv|].
  rewrite last_snoc in El. injection El as <-. apply StronglySorted_app in Hs as (Hlt & _ & _).
  apply elem_of_app in Hv as [Hv|Hv]; [|by apply list_elem_of_singleton in Hv as ->].
  specialize (Hlt v y Hv ltac:(left)). lia.
Qed.

(** ** Runs: level-0 files written from a MemTable *)
Record Run := mkRun { run_fid : Z; run_start : Z; run_ops : list Op; run_vs : list (Z * list Edge) }.

Section History.
Context `{StdHash} (debug : bool) (L : LsmColumns) (reserve_node capacity max_v : Z) (lv : gmap Z Z) (p : nat).
Abbreviation fl := (process_flags L).
Abbreviation tls := (merge_layout L).
Abbreviation pnum := (length (sub_property_lengths_ L)).

(** A write of a vertex of the graph whose property field fits its column. *)
Definition op_ok (op : Op) : Prop :=
  sequence op.1.2 < kMaxSequence /\ edge_fits op.1.2 /\ 0 <= op.1.1 < max_v /\
  storable (slot_len fl tls p) (field p op.1.2).

(** A file in the data manager, written by the flush of a table filled with [run_ops]. *)
Definition run_ok (r : Run) : Prop :=
  (exists m, Mem_put_edges debug reserve_node (new_memtable capacity lv) (run_ops r) = Some m /\
     flush_input m (seqZ 0 max_v) = Some (run_vs r)) /\
  flushable fl tls pnum (run_vs r) /\ EDGEBODY_SIZE * zlen (all_edges (run_vs r)) < 2 ^ 31 /\
  zlen (run_ops r) <= capacity /\
  sstdata_manager_ L !! run_fid r =
    Some (mkSst (ref_indexes (run_vs r)) (SstBuildTheorems.ref_file fl tls (run_vs r) (run_fid r))
            (ref_column fl tls (run_vs r) <$> seq 0 pnum)).

(** The same, for a table however it came to hold [run_ops]. *)
Definition run_repr (r : Run) : Prop :=
  (exists m, mem_repr debug reserve_node m (run_ops r) /\ flush_input m (seqZ 0 max_v) = Some (run_vs r)) /\
  flushable fl tls pnum (run_vs r) /\ EDGEBODY_SIZE * zlen (all_edges (run_vs r)) < 2 ^ 31 /\
  sstdata_manager_ L !! run_fid r =
    Some (mkSst (ref_indexes (run_vs r)) (SstBuildTheorems.ref_file fl tls (run_vs r) (run_fid r))
            (ref_column fl tls (run_vs r) <$> seq 0 pnum)).

Definition run_cache (r : Run) : SSTableCache := mkCache (ref_header (run_vs r) (run_fid r)) (run_start r) (ref_indexes (run_vs r)).

Lemma table_source_in_range vs c v :
  flush_input_ok vs -> cache_header c = ref_header vs (timeStamp (cache_header c)) -> v ∈ vs -> in_key_range v.1 c = true.
Proof.
  intros [Hs _] Hc Hin. unfold in_key_range. rewrite Hc. cbn [ref_header maxKey minKey].
  apply andb_true_iff. split; apply Z.leb_le.
  - destruct (list.last vs) as [x|] eqn:El; cbn [from_option].
    + exact (sorted_last_max _ _ _ Hs Hin El).
    + apply last_None in El. rewrite El in Hin. by apply elem_of_nil in Hin.
  - destruct vs as [|x vs]; [by apply elem_of_nil in Hin|]. cbn [head from_option].
    apply StronglySorted_inv in Hs as [_ Hx]. rewrite Forall_forall in Hx.
    apply elem_of_cons in Hin as [->|Hin]; [lia|]. specialize (Hx v Hin). lia.
Qed.

Lemma source_in_range r v : flush_input_ok (run_vs r) -> v ∈ run_vs r -> in_key_range v.1 (run_cache r) = true.
Proof. intros Hin. by apply table_source_in_range. Qed.

Lemma image_seq vs tail j :
  (j < length (all_edges vs))%nat ->
  is_Some (get_seq_at (bodies_file fl tls vs tail) (EDGEBODY_SIZE * Z.of_nat j)).
Proof.
  intros Hj. rewrite get_seq_at_body. unfold body_at. rewrite read_at_Some; [by eexists|change EDGEBODY_SIZE with 16; lia|done|].
  unfold bodies_file. rewrite zlen_app, zlen_ref_bodies. pose proof (zlen_nonneg tail).
  unfold zlen at 1. change EDGEBODY_SIZE with 16. lia.
Qed.

(** The writes of every source come in sequence order. *)
Definition in_order (ops : list Op) : Prop := forall src, increasing (edges_of src ops).

Lemma in_order_distinct ops src : in_order ops -> distinct_versions (edges_of src ops).
Proof. intros Ho. apply increasing_distinct, Ho. Qed.

Context (Hp : (p < pnum)%nat) (Hw : 0 < slot_len fl tls p < 1024) (H0 : 0 <= reserve_node)
  (Hv : 0 <= max_v < kInvalidVertexId).

Lemma run_ok_repr r : run_ok r -> in_order (run_ops r) -> run_repr r.
Proof.
  intros ((m & Em & Ev) & Hfl & Hsz & Hc & Hd) Ho. split_and!; [|done..]. exists m. split; [|done].
  destruct (Mem_put_edges_repr debug reserve_node (run_ops r) (new_memtable capacity lv) []) as (m' & E & Hm);
    [done|apply new_memtable_repr|done|intros _ src; by apply in_order_distinct|].
  rewrite Em in E. by injection E as <-.
Qed.

(** What the flush of a run is given. *)
Lemma run_contents r :
  run_repr r -> in_order (run_ops r) -> Forall op_ok (run_ops r) ->
  (run_vs r).*1 = filter (present (run_ops r)) (seqZ 0 max_v) /\
  forall v, v ∈ run_vs r -> v.2 ≡ₚ edges_of v.1 (run_ops r) /\ StronglySorted (fun a b => edge_less a b = true) v.2.
Proof.
  intros ((m & Hm & Ev) & _) Ho Hf.
  destruct (flush_input_spec debug reserve_node m (run_ops r) Hm (fun src => in_order_distinct _ src Ho) (seqZ 0 max_v))
    as (vs & Ev' & Ek & Hvs).
  rewrite Ev in Ev'. injection Ev' as <-. by rewrite Forall_forall in Hvs.
Qed.

Lemma op_in_graph ops :
  Forall op_ok ops ->
  forall op, op ∈ ops -> sequence op.1.2 < kMaxSequence /\ edge_fits op.1.2 /\ 0 <= op.1.1 < max_v.
Proof. rewrite Forall_forall. intros Hf op Hop. destruct (Hf op Hop) as (? & ? & ? & _). done. Qed.

Lemma run_input r :
  run_repr r -> in_order (run_ops r) -> Forall op_ok (run_ops r) ->
  flush_input_ok (run_vs r) /\
  forall src dst is_out ty, ('(_, v) ← list_find (fun v => v.1 = src) (run_vs r); first_version dst is_out ty v.2)
    = last_written src dst is_out ty (run_ops r).
Proof.
  intros Hr Ho Hf. destruct (run_contents r Hr Ho Hf) as [Hk Hvs]. pose proof (op_in_graph _ Hf) as Hops.
  split; [by apply (input_ok (run_ops r) max_v)|].
  intros src dst is_out ty. by apply (input_last (run_ops r) max_v).
Qed.

Lemma written_op src dst is_out ty ops e :
  last_written src dst is_out ty ops = Some e -> exists op, op ∈ ops /\ e = op.1.2.
Proof.
  unfold last_written. intros He%last_Some_elem_of.
  apply list_elem_of_filter in He as [_ (op & -> & [_ Hop]%list_elem_of_filter)%list_elem_of_fmap]. by exists op.
Qed.

(** The search in the range of a source of a file that holds a table. *)
Lemma table_range_read vs d tail i src es b e dst is_out ty :
  flushable fl tls pnum vs -> flush_input_ok vs -> EDGEBODY_SIZE * zlen (all_edges vs) < 2 ^ 31 ->
  edge_data d = bodies_file fl tls vs tail -> property_data d = ref_column fl tls vs <$> seq 0 pnum ->
  vs !! i = Some (src, es) -> ref_indexes vs !! i = Some b -> ref_indexes vs !! S i = Some e ->
  (forall x, x ∈ es -> storable (slot_len fl tls p) (field p x)) ->
  find_edge_from_sstdata_cache L debug None d src dst (ix_offset b) (ix_offset e) (Z.of_nat p) is_out ty
  = Some (status_of (field p) (first_version dst is_out ty es)).
Proof.
  intros Hfl Hin Hsz Hed Hpd Hi Hb He Hst.
  destruct (bodies_lookup fl tls pnum vs tail i src es dst is_out ty Hfl Hin Hi) as (b' & e' & _ & Hb' & He' & Hfound).
  rewrite Hb in Hb'. injection Hb' as <-. rewrite He in He'. injection He' as <-.
  unfold find_edge_from_sstdata_cache. rewrite Hed, Hpd.
  pose proof (ref_indexes_offset _ _ _ Hb). pose proof (ref_indexes_offset _ _ _ He).
  rewrite !signed_small by lia. cbv zeta in Hfound.
  destruct (first_version dst is_out ty es) as [x|] eqn:Ex; [|by rewrite Hfound].
  destruct Hfound as (j & Hj & -> & Hcol). cbn [mbind option_bind status_of].
  destruct (marker x); [done|]. rewrite bool_decide_eq_true_2 by done. cbn [negb].
  assert (is_Some (get_seq_at (bodies_file fl tls vs tail) (EDGEBODY_SIZE * Z.of_nat j))) as [q ->]
    by (apply image_seq; by eapply lookup_lt_Some).
  cbn [mbind option_bind view_of LoadPropertyDeltaView delta_lookup]. unfold GetEdgeOrdinalFromBodyOffset.
  rewrite Z.mul_comm, Z_mod_mult, Z.div_mul by done. cbn [Z.eqb mbind option_bind].
  change (GetSubPropertyFixedLength fl tls (Z.of_nat p)) with (slot_len fl tls p).
  rewrite (proj2 (Z.ltb_lt _ 1024)), andb_false_r, (proj2 (Z.ltb_lt 0 _)) by lia.
  rewrite Nat2Z.id, list_lookup_fmap, lookup_seq_lt by done. cbn [fmap option_fmap option_map default]. rewrite Nat.add_0_l.
  cbn. rewrite Hcol by done. simpl_bind. do 3 f_equal. apply trim_storable, Hst.
  unfold first_version in Ex. destruct (list_find _ es) as [[j' y]|] eqn:Ef; [|done]. injection Ex as ->.
  apply list_find_Some in Ef as (Hy & _). by eapply list_elem_of_lookup_2.
Qed.

(** The newest version a table holds of an edge. *)
Definition table_value (vs : list (Z * list Edge)) (src dst : Z) (is_out : bool) (ty : Z) : option Edge :=
  '(_, v) ← list_find (fun v => v.1 = src) vs; first_version dst is_out ty v.2.

(** A file that holds a table answers with the newest version in it. *)
Lemma table_file_read vs c d tail src dst is_out ty :
  flushable fl tls pnum vs -> flush_input_ok vs -> EDGEBODY_SIZE * zlen (all_edges vs) < 2 ^ 31 ->
  cache_indexes c = ref_indexes vs -> sstdata_manager_ L !! timeStamp (cache_header c) = Some d ->
  edge_data d = bodies_file fl tls vs tail -> property_data d = ref_column fl tls vs <$> seq 0 pnum ->
  (forall v x, v ∈ vs -> x ∈ v.2 -> storable (slot_len fl tls p) (field p x)) -> 0 <= src < kInvalidVertexId ->
  find_edge_in_lonely_SStableCache debug L None c src dst (Z.of_nat p) is_out ty
  = Some (status_of (field p) (table_value vs src dst is_out ty)).
Proof.
  intros Hfl Hin Hsz Hix Hdata Hed Hpd Hst Hsrc. unfold find_edge_in_lonely_SStableCache, source_range, table_value. rewrite Hix.
  destruct (list_find (fun v => v.1 = src) vs) as [[i [vid es]]|] eqn:Ei; cbn [mbind option_bind snd].
  - apply list_find_Some in Ei as (Hi & Hs & _). cbn [fst] in Hs. subst vid.
    destruct (image_range vs i src es Hin Hi) as (Hg & Hb & e & He & _).
    rewrite Hg. simpl_bind. rewrite (proj2 (Z.ltb_ge _ _)), Nat2Z.id, Hb by lia.
    simpl_bind. replace (Z.to_nat (Z.of_nat i + 1)) with (S i) by lia. rewrite He. simpl_bind.
    rewrite Hdata. simpl_bind. eapply table_range_read; try done. intros x Hx.
    apply (Hst (src, es)); [by eapply list_elem_of_lookup_2|done].
  - apply list_find_None in Ei. rewrite get_first by (by apply ref_indexes_sorted).
    destruct (list_find _ (ref_indexes vs)) as [[i x]|] eqn:E; [|done]. exfalso.
    apply list_find_Some in E as (Hi & Hk & _).
    destruct (ref_indexes_key _ _ _ Hi) as [Hinv|(v & Hv' & E)]; [lia|].
    rewrite Forall_forall in Ei. apply (Ei v Hv'). congruence.
Qed.

(** A file answers with the last write of its run. *)
Lemma run_read r src dst is_out ty :
  run_repr r -> in_order (run_ops r) -> Forall op_ok (run_ops r) -> 0 <= src < max_v ->
  find_edge_in_lonely_SStableCache debug L None (run_cache r) src dst (Z.of_nat p) is_out ty
  = Some (status_of (field p) (last_written src dst is_out ty (run_ops r))).
Proof.
  intros Hr Ho Hf Hsrc. destruct (run_input r Hr Ho Hf) as [Hin Hlast]. rewrite <- Hlast.
  pose proof (run_contents r Hr Ho Hf) as [_ Hvs]. destruct Hr as (_ & Hfl & Hsz & Hdata).
  eapply table_file_read; try done; [|lia]. intros v x Hv' Hx.
  destruct (Hvs v Hv') as [Hperm _]. rewrite Hperm in Hx. unfold edges_of in Hx.
  apply list_elem_of_fmap in Hx as (op & -> & [_ Hop]%list_elem_of_filter). rewrite Forall_forall in Hf. apply Hf, Hop.
Qed.

Lemma out_of_range r src dst is_out ty :
  run_repr r -> in_order (run_ops r) -> Forall op_ok (run_ops r) ->
  in_key_range src (run_cache r) = false -> last_written src dst is_out ty (run_ops r) = None.
Proof.
  intros Hr Ho Hf Hk. destruct (run_input r Hr Ho Hf) as [Hin Hlast]. rewrite <- Hlast.
  destruct (list_find _ (run_vs r)) as [[i v]|] eqn:Ei; [|done]. exfalso.
  apply list_find_Some in Ei as (Hi & <- & _).
  rewrite (source_in_range r v Hin) in Hk; [done|by eapply list_elem_of_lookup_2].
Qed.

(** The level-0 files, newest first, answer with the last write of all runs. *)
Definition runs_ops (runs : list Run) : list Op := concat (reverse (run_ops <$> runs)).

Lemma level0_read runs src dst is_out ty :
  Forall (fun r => run_repr r /\ in_order (run_ops r) /\ Forall op_ok (run_ops r)) runs -> 0 <= src < max_v ->
  find_in_level0 debug L None (run_cache <$> runs) src dst (Z.of_nat p) is_out ty
  = Some (status_of (field p) (last_written src dst is_out ty (runs_ops runs))).
Proof.
  intros Hruns Hsrc. induction Hruns as [|r runs (Hr & Ho & Hf) _ IH]; [done|].
  cbn [fmap list_fmap find_in_level0]. unfold runs_ops. cbn [fmap list_fmap].
  rewrite reverse_cons, concat_app. cbn [concat]. rewrite app_nil_r, last_written_app. fold (runs_ops runs).
  destruct (in_key_range src (run_cache r)) eqn:Ek; [|by rewrite (out_of_range _ _ _ _ _ Hr Ho Hf Ek)].
  rewrite run_read by done. simpl_bind.
  destruct (last_written _ _ _ _ (run_ops r)) as [e|]; cbn [status_of]; [|exact IH]. by destruct (marker e).
Qed.

Lemma table_read m ops src dst is_out ty :
  mem_repr debug reserve_node m ops -> in_order ops -> Forall op_ok ops ->
  find_edge_in_memtable debug L None [m] src dst (Z.of_nat p) is_out ty
  = Some (status_of (field p) (last_written src dst is_out ty ops)).
Proof.
  intros Hm Ho Hf. pose proof (op_in_graph _ Hf) as Hops. pose proof (Ho src) as Hi.
  cbn [find_edge_in_memtable]. unfold Mem_get_seq.
  rewrite (mem_get_last debug reserve_node m ops max_v) by done.
  destruct (vertex_adjs m !! src) as [nb|] eqn:Hnb; [|by erewrite absent_last by done].
  pose proof (mem_find_last debug reserve_node m ops max_v Hm Hops sequence nb src dst is_out ty Hi Hnb) as Hq.
  unfold NB_get_seq. rewrite Hq. simpl_bind.
  destruct (last_written src dst is_out ty ops) as [e|] eqn:El; cbn [status_of]; [|done].
  destruct (marker e); [done|]. cbn [delta_lookup view_of LoadPropertyDeltaView mbind option_bind].
  assert (Z.of_nat p < GetActiveSubPropertyNum fl tls) as Ha.
  { unfold GetActiveSubPropertyNum, merge_layout, scoped_enter. destruct (sub_property_lengths_ L) as [|l ls]; [simpl in Hp; lia|].
    unfold zlen. lia. }
  rewrite (proj2 (Z.ltb_lt _ _) Ha). unfold assert_. rewrite andb_false_r. cbn [mbind option_bind negb].
  unfold ExtractSubProperty. rewrite (proj2 (Z.ltb_ge _ _)), Nat2Z.id by lia. cbn [default].
  by rewrite extract_field_split.
Qed.
End History.

Lemma in_order_app ops ops' : in_order (ops ++ ops') -> in_order ops /\ in_order ops'.
Proof.
  intros Ho. split; intros src; specialize (Ho src); revert Ho; rewrite edges_of_app; unfold increasing;
    by intros (_ & ? & ?)%StronglySorted_app.
Qed.

Lemma sorted_in_order ops : StronglySorted (fun a b : Op => sequence a.1.2 < sequence b.1.2) ops -> in_order ops.
Proof. intros Hs src. by apply edges_of_increasing. Qed.

Lemma runs_order runs : in_order (runs_ops runs) -> Forall (fun r => in_order (run_ops r)) runs.
Proof.
  induction runs as [|r runs IH]; [constructor|]. unfold runs_ops. cbn [fmap list_fmap].
  rewrite reverse_cons, concat_app. cbn [concat]. rewrite app_nil_r. intros [H1 H2]%in_order_app.
  constructor; [done|by apply IH].
Qed.

Lemma runs_forall (P : Op -> Prop) runs : Forall P (runs_ops runs) -> Forall (fun r => Forall P (run_ops r)) runs.
Proof.
  induction runs as [|r runs IH]; [constructor|]. unfold runs_ops. cbn [fmap list_fmap].
  rewrite reverse_cons, concat_app. cbn [concat]. rewrite app_nil_r. intros [H1 H2]%Forall_app.
  constructor; [done|by apply IH].
Qed.

(** The read of one table over flushed files. *)
Lemma store_read `{StdHash} debug L reserve_node max_v p m runs ops src dst is_out ty :
  (p < length (sub_property_lengths_ L))%nat -> 0 < slot_len (process_flags L) (merge_layout L) p < 1024 ->
  0 <= max_v < kInvalidVertexId -> 0 <= src < max_v ->
  in_order (runs_ops runs ++ ops) -> Forall (op_ok L max_v p) (runs_ops runs ++ ops) ->
  Forall (run_repr debug L reserve_node max_v) runs -> mem_repr debug reserve_node m ops ->
  GetEdge debug L None (mkSnap [m] (run_cache <$> runs) empty_index) src dst (Z.of_nat p) is_out ty
  = Some (status_of (field p) (last_written src dst is_out ty (runs_ops runs ++ ops))).
Proof.
  intros Hp Hw Hv Hsrc [Ho Ho']%in_order_app [Hf Hf']%Forall_app Hr Hm.
  unfold GetEdge. cbn [snap_tables]. rewrite (table_read debug L reserve_node max_v p Hp m ops) by done.
  rewrite last_written_app. simpl_bind.
  destruct (last_written _ _ _ _ ops) as [e|]; cbn [status_of]; [by destruct (marker e)|].
  unfold find_edge_in_SStableCache. cbn [snap_level0 snap_findex].
  assert (Forall (fun r => run_repr debug L reserve_node max_v r /\ in_order (run_ops r) /\
    Forall (op_ok L max_v p) (run_ops r)) runs) as Hruns
    by (rewrite !Forall_and; split_and!; [done|by apply runs_order|by apply runs_forall]).
  rewrite (level0_read debug L reserve_node max_v p Hp Hw Hv runs src dst is_out ty Hruns Hsrc).
  simpl_bind. destruct (last_written _ _ _ _ (runs_ops runs)) as [e|]; cbn [status_of]; [by destruct (marker e)|].
  done.
Qed.

Lemma runs_repr debug `{StdHash} L reserve_node capacity max_v lv runs :
  0 <= reserve_node -> in_order (runs_ops runs) -> Forall (run_ok debug L reserve_node capacity max_v lv) runs ->
  Forall (run_repr debug L reserve_node max_v) runs.
Proof.
  intros H0 Ho%runs_order Hr. rewrite Forall_forall in *. intros r Hin.
  apply (run_ok_repr debug L reserve_node capacity max_v lv H0); [by apply Hr|by apply Ho].
Qed.

(** a point read returns the last write. Take any history of insertions and
    deletions whose writes of each source are in sequence order, the older part flushed to level-0 files one
    MemTable after the other and the rest in the active MemTable. The table
    accepts its part, and [GetEdge] answers, for every source, destination,
    direction and type, with the last write of the whole history: kNotFound if
    there is none, kDelete if it is a deletion, and otherwise kOk with exactly
    the requested field of its property string. *)
Theorem get_returns_last_write `{StdHash} debug L reserve_node capacity max_v lv p runs ops src dst is_out ty :
  (p < length (sub_property_lengths_ L))%nat -> 0 < slot_len (process_flags L) (merge_layout L) p < 1024 ->
  0 <= reserve_node -> 0 <= max_v < kInvalidVertexId -> 0 <= src < max_v -> zlen ops <= capacity ->
  in_order (runs_ops runs ++ ops) -> Forall (op_ok L max_v p) (runs_ops runs ++ ops) ->
  Forall (run_ok debug L reserve_node capacity max_v lv) runs ->
  exists m, Mem_put_edges debug reserve_node (new_memtable capacity lv) ops = Some m /\
    GetEdge debug L None (mkSnap [m] (run_cache <$> runs) empty_index) src dst (Z.of_nat p) is_out ty
    = Some (status_of (field p) (last_written src dst is_out ty (runs_ops runs ++ ops))).
Proof.
  intros Hp Hw H0 Hv Hsrc Hc Ho Hf Hr. destruct (in_order_app _ _ Ho) as [Ho1 Ho2].
  destruct (Mem_put_edges_repr debug reserve_node ops (new_memtable capacity lv) []) as (m & E & Hm);
    [done|apply new_memtable_repr|done|intros _ s; by apply in_order_distinct|]. exists m. split; [done|]. cbn [app] in Hm.
  apply (store_read debug L reserve_node max_v); try done. by eapply runs_repr.
Qed.

(** ** A sample: two flushed tables and an active one *)
Definition run1 : list Op := [(1, mkEdge 7 1 false [byte_of 65] true 1, []); (4, mkEdge 3 2 false [byte_of 67] true 1, [])].
Definition run2 : list Op := [(1, mkEdge 7 3 false [byte_of 66] true 1, []); (1, mkEdge 9 4 false [byte_of 68] true 1, [])].
Definition active_ops : list Op := [(1, mkEdge 9 5 true [] true 1, [])].
Definition table_of (ops : list Op) : MemTable :=
  default (new_memtable 8 ∅) (Mem_put_edges true 2 (new_memtable 8 ∅) ops).
Definition vs_of (ops : list Op) : list (Z * list Edge) := default [] (flush_input (table_of ops) (seqZ 0 8)).
Definition history_lengths : list Z := [2].
Definition history_data (fid : Z) (vs : list (Z * list Edge)) : SstData :=
  let fl := mkFlags 1 8 in let tls := scoped_enter (Some history_lengths) in
  mkSst (ref_indexes vs) (SstBuildTheorems.ref_file fl tls vs fid) [ref_column fl tls vs 0].
Definition history_columns : LsmColumns :=
  mkColumns kEdge 3 history_lengths [] kProcessCrashSafe
    {[ 10 := history_data 10 (vs_of run1); 11 := history_data 11 (vs_of run2) ]} (mkFlags 1 8).
Definition sample_runs : list Run := [mkRun 11 3 run2 (vs_of run2); mkRun 10 1 run1 (vs_of run1)].

Lemma get_returns_last_write_witness :
  let H : StdHash := fun z => z in
  exists m, Mem_put_edges true 2 (new_memtable 8 ∅) active_ops = Some m /\
    GetEdge true history_columns None (mkSnap [m] (run_cache <$> sample_runs) empty_index) 1 7 0 true 1
    = Some (kOk, Some [byte_of 66]).
Proof.
  intros H.
  apply (get_returns_last_write true history_columns 2 8 8 ∅ 0 sample_runs active_ops 1 7 true 1);
    [eval_prop|eval_prop|eval_prop|eval_prop|eval_prop|eval_prop|apply sorted_in_order; repeat constructor|eval_prop|].
  constructor; [|constructor; [|constructor]];
    (split_and!; [match goal with |- exists m, Mem_put_edges _ _ _ (run_ops (mkRun _ _ ?ops _)) = _ /\ _ => exists (table_of ops) end; split; vm_compute; reflexivity|..|eval_prop|eval_prop|vm_compute; reflexivity]).
  all: split_and!; [vm_compute; discriminate| |eval_prop]; split; [eval_prop|]; intros [|q] Hq; [eval_prop|].
  all: change (length (sub_property_lengths_ history_columns)) with 1%nat in Hq; lia.
Defined.

(** With more than one MemTable the last write is not what is read: the tables
    are searched in the order they were added, so a version in an older table
    that still waits for its flush hides the newer one of the active table. *)
Theorem older_memtable_wins `{StdHash} :
  last_written 1 7 true 1 (run1 ++ run2) = Some (mkEdge 7 3 false [byte_of 66] true 1) /\
  GetEdge true history_columns None (mkSnap [table_of run1; table_of run2] [] empty_index) 1 7 0 true 1
  = Some (kOk, Some [byte_of 65]).
Proof. split; vm_compute; reflexivity. Qed.
