(* ===== verification/EdgeIterators.v ===== *)
(** * Edge iterators

    The iterators behind an adjacency scan: [NewEdgeSL::MemEdgeIterator] of
    core/neighbors.h, [SSTEdgeIterator], [PropertyDeltaOverlayIterator], and
    [EdgeIteratorDynamic] of core/edge_iterator.h, which [LSMStore::get_edges]
    and [Get_Edges] return (multi-version build, cached SST data, no CSR files).

    An iterator holds its adjacency by value: the scan of a table that is not
    written meanwhile.  [None] is an access outside a buffer, a dangling node, a
    missing file or, with [debug], a failed assertion. *)

From S2P Require Import Prelude.
From S2P Require Import Types.
From S2P Require Import DeltaFile.
From S2P Require Import DeltaStore.
From S2P Require Import PropertyLayout.
From S2P Require Import EdgeBody.
From S2P Require Import Sst.
From S2P Require Import SkipList.
From S2P Require Import NeighBors.
From S2P Require Import MemTable.
From S2P Require Import DeltaMerge.
From S2P Require Import LevelIndex.
From S2P Require Import LsmRead.
From S2P Require Import DeltaSpec.
From S2P Require Import DeltaStoreFacts.
From S2P Require Import SkipListFacts.

(** ** [NewEdgeSL::MemEdgeIterator] *)
Inductive MemCursor := ArrayAt (array_it_ : nat) | ListAt (node_ : option nat).
Record MemEdgeIterator := mkMemIt { edges_ : option NewEdgeSL; mem_cursor : MemCursor }.

(** The constructor: the head of the array, or the first node of the list. *)
Definition Mem_begin (edges : option NewEdgeSL) : option MemEdgeIterator :=
  match edges with
  | None => Some (mkMemIt None (ArrayAt 0))
  | Some nb =>
      if negb (full_ nb) then Some (mkMemIt edges (ArrayAt 0))
      else match list_ nb with
           | None => Some (mkMemIt edges (ListAt None))
           | Some sl => first ← Next (nodes sl) head_ 0; Some (mkMemIt edges (ListAt first))
           end
  end.

Definition Mem_valid (m : MemEdgeIterator) : bool :=
  match edges_ m, mem_cursor m with
  | None, _ => false
  | Some nb, ArrayAt pos => negb (bool_decide (pos = length (dst_ nb)))
  | Some _, ListAt node => bool_decide (is_Some node)
  end.

Definition Mem_key (m : MemEdgeIterator) : option Edge :=
  nb ← edges_ m;
  match mem_cursor m with
  | ArrayAt pos => dst_ nb !! pos
  | ListAt node => n ← node; sl ← list_ nb; nd ← nodes sl !! n; Some (key nd)
  end.

Definition Mem_next (m : MemEdgeIterator) : option MemEdgeIterator :=
  if negb (Mem_valid m) then Some m
  else
    nb ← edges_ m;
    match mem_cursor m with
    | ArrayAt pos => Some (mkMemIt (edges_ m) (ArrayAt (S pos)))
    | ListAt node => n ← node; sl ← list_ nb; nxt ← Next (nodes sl) n 0; Some (mkMemIt (edges_ m) (ListAt nxt))
    end.

(** ** [SSTEdgeIterator]: [body_data_] is an address in the edge mapping *)
Record SSTEdgeIterator := mkSstIt {
  it_mapping : bytes;
  body_data_ : Z;
  property_data_ : bytes;
  body_num_ : Z;
  body_cursor_ : Z;
  now_offset : Z;
  fixed_property_len_ : Z;
}.

Definition SstIt_valid (s : SSTEdgeIterator) : bool := body_cursor_ s <? body_data_ s + EDGEBODY_SIZE * body_num_ s.
Definition SstIt_next (s : SSTEdgeIterator) : SSTEdgeIterator :=
  mkSstIt (it_mapping s) (body_data_ s) (property_data_ s) (body_num_ s) (body_cursor_ s + EDGEBODY_SIZE)
    (u32 (now_offset s + fixed_property_len_ s)) (fixed_property_len_ s).
Definition SstIt_body (s : SSTEdgeIterator) : option Dym.EdgeBody := body_at (it_mapping s) (body_cursor_ s).

Definition SstIt_edge_data (s : SSTEdgeIterator) : option bytes :=
  if negb (SstIt_valid s) then Some []
  else
    let property_offset := now_offset s in
    let property_offset_nxt := u32 (now_offset s + fixed_property_len_ s) in
    ep ← read_at (property_data_ s) property_offset (u32 (property_offset_nxt - property_offset));
    Some (TrimTrailingZero ep).

(** ** [EdgeIteratorBase] and [PropertyDeltaOverlayIterator] *)
Inductive EdgeIteratorBase :=
| ItMem (m : MemEdgeIterator)
| ItSst (s : SSTEdgeIterator)
| ItOverlay (src_ : Z) (base_ : EdgeIteratorBase) (read_view_ : option PropertyDeltaReadView) (read_sequence_ : Z).

Fixpoint valid (it : EdgeIteratorBase) : bool :=
  match it with ItMem m => Mem_valid m | ItSst s => SstIt_valid s | ItOverlay _ base _ _ => valid base end.

Fixpoint next (it : EdgeIteratorBase) : option EdgeIteratorBase :=
  match it with
  | ItMem m => ItMem <$> Mem_next m
  | ItSst s => Some (ItSst (SstIt_next s))
  | ItOverlay src base view rs => base' ← next base; Some (ItOverlay src base' view rs)
  end.

Fixpoint it_dst (it : EdgeIteratorBase) : option Z :=
  match it with ItMem m => destination <$> Mem_key m | ItSst s => Dym.get_dst <$> SstIt_body s
           | ItOverlay _ base _ _ => it_dst base end.
Fixpoint it_sequence (it : EdgeIteratorBase) : option Z :=
  match it with ItMem m => sequence <$> Mem_key m | ItSst s => Dym.get_seq <$> SstIt_body s
           | ItOverlay _ base _ _ => it_sequence base end.
Fixpoint it_marker (it : EdgeIteratorBase) : option bool :=
  match it with ItMem m => marker <$> Mem_key m | ItSst s => Dym.get_marker <$> SstIt_body s
           | ItOverlay _ base _ _ => it_marker base end.
Fixpoint it_is_out (it : EdgeIteratorBase) : option bool :=
  match it with ItMem m => e_is_out <$> Mem_key m | ItSst s => Dym.get_is_out <$> SstIt_body s
           | ItOverlay _ base _ _ => it_is_out base end.
Fixpoint it_edge_type (it : EdgeIteratorBase) : option Z :=
  match it with ItMem m => e_edge_type <$> Mem_key m | ItSst s => Dym.get_edge_type <$> SstIt_body s
           | ItOverlay _ base _ _ => it_edge_type base end.

(** A visible delta of the entry replaces the property of the base iterator. *)
Fixpoint it_edge_data (it : EdgeIteratorBase) (id : Z) : option bytes :=
  match it with
  | ItMem m => e ← Mem_key m; Some (Edge_property e id)
  | ItSst s => SstIt_edge_data s
  | ItOverlay src base view read_sequence =>
      match valid base, view with
      | true, Some view =>
          dst ← it_dst base;
          sequence ← it_sequence base;
          is_out ← it_is_out base;
          edge_type ← it_edge_type base;
          '(best, _) ← ReadView_Lookup (mkKey src dst sequence is_out edge_type) read_sequence view (mkCounters 0 0 0 0);
          match (best : option (bytes * Z)) with
          | Some (value, _) => Some value
          | None => it_edge_data base id
          end
      | _, _ => it_edge_data base id
      end
  end.

(** ** [EdgeIteratorDynamic] *)

(** The member of the base class: the derived iterators declare a member of the
    same name, and the one read through [EdgeIteratorBase] is never assigned. *)
Definition base_newest_edge : Z := 0.

Record EdgeIteratorDynamic := mkDyn {
  dyn_it : option EdgeIteratorBase;
  it_array : list EdgeIteratorBase;     (** [back()] first *)
}.

Definition Dyn_valid (d : EdgeIteratorDynamic) : bool :=
  match dyn_it d with None => false | Some it => valid it end.

Section Dynamic.
Context (debug : bool) (seq_ : Z) (is_out_ : bool) (edge_type_ : Z).

Definition check_entry_valid (it : EdgeIteratorBase) : option bool :=
  _ ← assert_ debug (valid it);
  out ← it_is_out it;
  if negb (Bool.eqb out is_out_) then Some false
  else
    ty ← it_edge_type it;
    if negb (ty =? edge_type_) then Some false
    else if base_newest_edge <? seq_ then Some true
    else sequence ← it_sequence it; Some (negb (seq_ <? sequence)).

(** [while (valid() && !check_entry_valid()) it->next();] *)
Fixpoint skip_entries (fuel : nat) (it : EdgeIteratorBase) : option EdgeIteratorBase :=
  if negb (valid it) then Some it
  else
    ok ← check_entry_valid it;
    if (ok : bool) then Some it
    else match fuel with O => None | S fuel => it ← next it; skip_entries fuel it end.

Fixpoint findFirstValid (fuel : nat) (array : list EdgeIteratorBase) : option EdgeIteratorDynamic :=
  match array with
  | [] => Some (mkDyn None [])
  | it :: array =>
      it ← skip_entries fuel it;
      if valid it || bool_decide (length array = 0%nat) then Some (mkDyn (Some it) array)
      else findFirstValid fuel array
  end.

Fixpoint Dyn_next (fuel : nat) (d : EdgeIteratorDynamic) : option EdgeIteratorDynamic :=
  match dyn_it d with
  | Some it =>
      if negb (valid it) then Some d
      else match fuel with
        | O => None
        | S fuel =>
            it ← next it;
            d ← (if valid it then Some (mkDyn (Some it) (it_array d)) else findFirstValid fuel (it_array d));
            match dyn_it d with
            | Some it =>
                if negb (valid it) then Some d
                else ok ← check_entry_valid it; if (ok : bool) then Some d else Dyn_next fuel d
            | None => Some d
            end
        end
  | None => Some d
  end.

(** The constructors over prepared iterators: one range of a CSR file, or the
    iterators of the MemTables and one CSR range. *)
Definition Dyn_single (fuel : nat) (single_it : EdgeIteratorBase) : option EdgeIteratorDynamic :=
  it ← skip_entries fuel single_it; Some (mkDyn (Some it) []).
Definition Dyn_prepared (fuel : nat) (prepared_iters : list EdgeIteratorBase) : option EdgeIteratorDynamic :=
  findFirstValid fuel (reverse prepared_iters).
End Dynamic.

(** ** The constructor over a snapshot *)
Section Construct.
Context `{StdHash} (debug : bool) (L : LsmColumns) (store : option PropertyDeltaStore).
Context (src property_id seq_ : Z).

Definition ResolveDeltaView (fid : Z) : option PropertyDeltaReadView :=
  if property_id <? 0 then None else LoadPropertyDeltaView L store fid property_id.

Definition overlay (it : EdgeIteratorBase) (view : option PropertyDeltaReadView) : EdgeIteratorBase :=
  match view with Some _ => ItOverlay src it view kLatestPropertyCommit | None => it end.

Fixpoint memtable_iterators (tables : list MemTable) : option (list EdgeIteratorBase) :=
  match tables with
  | [] => Some []
  | tb :: tables =>
      if seq_ <=? start_time_ tb then memtable_iterators tables
      else
        m ← Mem_begin (vertex_adjs tb !! src);
        rest ← memtable_iterators tables;
        Some (if Mem_valid m then overlay (ItMem m) (ResolveDeltaView (fid_ tb)) :: rest else rest)
  end.

(** The iterator over [offset, next_offset) of a file, if it is not empty. *)
Definition sst_iterator (fid offset next_offset : Z) : option (list EdgeIteratorBase) :=
  sstcache ← sstdata_manager_ L !! fid;
  let view := ResolveDeltaView fid in
  let column := default [] (property_data sstcache !! Z.to_nat property_id) in
  let property_data := match view with Some v => BaseDataOr v column | None => column end in
  let adj_size := u32 (next_offset - offset) / EDGEBODY_SIZE in
  _ ← assert_ debug (offset <=? next_offset);
  ordinal ← GetEdgeOrdinalFromBodyOffset offset;
  let it := overlay (ItSst (mkSstIt (edge_data sstcache) offset property_data adj_size offset
                       (u32 (GetSubPropertyOffsetByEdgeOrdinal (process_flags L) (merge_layout L) ordinal property_id))
                       (GetSubPropertyFixedLength (process_flags L) (merge_layout L) property_id))) view in
  Some (if valid it then [it] else []).

Definition find_iterator_sst (it : SSTableCache) : option (list EdgeIteratorBase) :=
  range ← source_range (cache_indexes it) src;
  match (range : option (Z * Z)) with
  | None => Some []
  | Some (offset, next_offset) => sst_iterator (timeStamp (cache_header it)) offset next_offset
  end.

Fixpoint level0_iterators (min_fid : Z) (files : list SSTableCache) : option (list EdgeIteratorBase) :=
  match files with
  | [] => Some []
  | it :: files =>
      if negb (seq_ <=? cache_seq it) && (min_fid <=? timeStamp (cache_header it)) && in_key_range src it then
        its ← find_iterator_sst it; rest ← level0_iterators min_fid files; Some (its ++ rest)
      else level0_iterators min_fid files
  end.

Fixpoint find_iterator_sst_by_levelindex (findex : MulLevelIndex) (levelIDs : list Z) : option (list EdgeIteratorBase) :=
  match levelIDs with
  | [] => Some []
  | levelID :: levelIDs =>
      range ← level_range debug findex levelID;
      match (range : option (Z * Z * Z)) with
      | None => find_iterator_sst_by_levelindex findex levelIDs
      | Some (fileID, offset, next_offset) =>
          its ← sst_iterator fileID offset next_offset;
          rest ← find_iterator_sst_by_levelindex findex levelIDs;
          Some (its ++ rest)
      end
  end.

Definition sources (snap : Snapshot) (max_level : Z) : option (list EdgeIteratorBase) :=
  if max_level <? 0 then Some []
  else
    mem ← memtable_iterators (snap_tables snap);
    level0 ← (if 1 <=? max_level then level0_iterators (min_level_0_fid (snap_findex snap)) (snap_level0 snap) else Some []);
    rest ← (if 2 <=? max_level then find_iterator_sst_by_levelindex (snap_findex snap) (seqZ 0 (max_level - 1)) else Some []);
    Some (mem ++ level0 ++ rest).

(** [LSMStore::Get_Edges]; [max_level] is [vertex_max_level_[src]]. *)
Definition Get_Edges (snap : Snapshot) (max_level : Z) (is_out : bool) (edge_type : Z) (fuel : nat)
  : option EdgeIteratorDynamic :=
  its ← sources snap max_level;
  findFirstValid debug seq_ is_out edge_type fuel (reverse its).
End Construct.

(** What a caller sees of the current entry. *)
Record Entry := mkEntry {
  en_dst : Z; en_sequence : Z; en_marker : bool; en_is_out : bool; en_type : Z; en_data : bytes }.
#[export] Instance Entry_eq_dec : EqDecision Entry.
Proof. solve_decision. Defined.

Definition current (pid : Z) (it : EdgeIteratorBase) : option Entry :=
  dst ← it_dst it; sequence ← it_sequence it; marker ← it_marker it; out ← it_is_out it; ty ← it_edge_type it;
  data ← it_edge_data it pid; Some (mkEntry dst sequence marker out ty data).

(** [for (; it.valid(); it.next())] *)
Fixpoint scan (debug : bool) (seq_ : Z) (is_out_ : bool) (edge_type_ pid : Z) (fuel : nat) (d : EdgeIteratorDynamic)
  : option (list Entry) :=
  match dyn_it d with
  | Some it =>
      if negb (valid it) then Some []
      else match fuel with
        | O => None
        | S fuel =>
            e ← current pid it;
            d ← Dyn_next debug seq_ is_out_ edge_type_ (S fuel) d;
            rest ← scan debug seq_ is_out_ edge_type_ pid fuel d;
            Some (e :: rest)
        end
  | None => Some []
  end.

(** ** Facts about the edge iterators

    [yields it es]: driving the iterator [it] with [valid], [next] and the
    accessors produces the entries [es] and then ends.  Each kind of iterator
    yields the entries of its source, and the scanning iterator yields, one
    source after the other, the entries that pass its filter. *)

Inductive yields (pid : Z) : EdgeIteratorBase -> list Entry -> Prop :=
| yields_end it : valid it = false -> yields pid it []
| yields_entry it it' e es :
    valid it = true -> current pid it = Some e -> next it = Some it' -> yields pid it' es -> yields pid it (e :: es).

Lemma yields_valid pid it es : yields pid it es -> valid it = bool_decide (es <> []).
Proof. destruct 1 as [it Hv|it it' e es Hv]; by rewrite Hv. Qed.

(** ** MemTable iterators *)
Section Mem.
Context (pid : Z).
Definition mem_entry (e : Edge) : Entry :=
  mkEntry (destination e) (sequence e) (marker e) (e_is_out e) (e_edge_type e) (Edge_property e pid).

Lemma current_mem m e : Mem_key m = Some e -> current pid (ItMem m) = Some (mem_entry e).
Proof. intros E. unfold current. cbn [it_dst it_sequence it_marker it_is_out it_edge_type it_edge_data]. by rewrite E. Qed.

Lemma array_yields nb pos :
  full_ nb = false -> (pos <= length (dst_ nb))%nat ->
  yields pid (ItMem (mkMemIt (Some nb) (ArrayAt pos))) (mem_entry <$> drop pos (dst_ nb)).
Proof.
  intros Hf. remember (length (dst_ nb) - pos)%nat as n eqn:En. revert pos En.
  induction n as [|n IH]; intros pos En Hp.
  - replace pos with (length (dst_ nb)) by lia. rewrite drop_all. apply yields_end. cbn [valid Mem_valid edges_ mem_cursor].
    by rewrite bool_decide_eq_true_2.
  - destruct (dst_ nb !! pos) as [e|] eqn:E; [|apply lookup_ge_None in E; lia].
    rewrite (drop_S _ _ _ E). cbn [fmap list_fmap].
    assert (Mem_valid (mkMemIt (Some nb) (ArrayAt pos)) = true) as Hv
      by (cbn [Mem_valid edges_ mem_cursor]; rewrite bool_decide_eq_false_2; [done|lia]).
    eapply yields_entry; [exact Hv|by apply current_mem| |apply (IH (S pos)); lia].
    cbn [next]. unfold Mem_next. rewrite Hv. done.
Qed.

Lemma walk_yields nb sl fuel node es :
  list_ nb = Some sl -> walk fuel (nodes sl) node = Some es ->
  yields pid (ItMem (mkMemIt (Some nb) (ListAt node))) (mem_entry <$> es).
Proof.
  intros Hl. revert node es. induction fuel as [|fuel IH]; intros [n|] es; cbn [walk]; try done.
  1, 3: intros [= <-]; by apply yields_end.
  destruct (nodes sl !! n) as [nd|] eqn:En; simpl_bind; [|done].
  destruct (Next (nodes sl) n 0) as [nxt|] eqn:Ex; simpl_bind; [|done].
  destruct (walk fuel (nodes sl) nxt) as [rest|] eqn:Ew; simpl_bind; [|done]. intros [= <-]. cbn [fmap list_fmap].
  eapply yields_entry; [done| | |by apply IH].
  - apply current_mem. unfold Mem_key. cbn [edges_ mem_cursor]. simpl_bind. by rewrite Hl; simpl_bind; rewrite En.
  - cbn [next]. unfold Mem_next. cbn [Mem_valid edges_ mem_cursor negb]. rewrite bool_decide_eq_true_2 by done.
    cbn [negb]. simpl_bind. rewrite Hl. simpl_bind. by rewrite Ex.
Qed.

Lemma mem_yields nb es :
  NB_iterate nb = Some es -> exists m, Mem_begin (Some nb) = Some m /\ yields pid (ItMem m) (mem_entry <$> es).
Proof.
  unfold NB_iterate, Mem_begin. destruct (full_ nb) eqn:Ef; cbn [negb].
  - destruct (list_ nb) as [sl|] eqn:El; simpl_bind; [|done]. unfold iterate.
    destruct (Next (nodes sl) head_ 0) as [first|]; simpl_bind; [|done]. intros Hw.
    eexists. split; [done|]. by eapply walk_yields.
  - intros [= <-]. eexists. split; [done|]. apply (array_yields nb 0); [done|lia].
Qed.
End Mem.

(** ** SST iterators *)
Definition sst_entry (b : Dym.EdgeBody) (slot : bytes) : Entry :=
  mkEntry (Dym.get_dst b) (Dym.get_seq b) (Dym.get_marker b) (Dym.get_is_out b) (Dym.get_edge_type b) (TrimTrailingZero slot).

Section SstFacts.
Context (pid : Z) (mapping column : bytes) (o off len : Z) (bodies : list Dym.EdgeBody) (slots : list bytes).
Context (Hlen : 0 <= len) (Hoff : 0 <= off) (Hn : length bodies = length slots) (Hfit : off + len * zlen bodies < 2 ^ 32).
Context (Hb : forall j b, bodies !! j = Some b -> body_at mapping (o + EDGEBODY_SIZE * Z.of_nat j) = Some b).
Context (Hs : forall j s, slots !! j = Some s -> read_at column (off + len * Z.of_nat j) len = Some s).

Definition sst_at (j : nat) : SSTEdgeIterator :=
  mkSstIt mapping o column (zlen bodies) (o + EDGEBODY_SIZE * Z.of_nat j) (off + len * Z.of_nat j) len.

Lemma sst_yields_from j :
  (j <= length bodies)%nat -> yields pid (ItSst (sst_at j)) (zip_with sst_entry (drop j bodies) (drop j slots)).
Proof.
  remember (length bodies - j)%nat as n eqn:En. revert j En. induction n as [|n IH]; intros j En Hj.
  - replace j with (length bodies) by lia. rewrite drop_all. apply yields_end. cbn [valid]. unfold SstIt_valid, sst_at, zlen.
    cbn [body_cursor_ body_data_ body_num_]. apply Z.ltb_ge. lia.
  - destruct (bodies !! j) as [b|] eqn:Eb; [|apply lookup_ge_None in Eb; lia].
    destruct (slots !! j) as [s|] eqn:Es; [|apply lookup_ge_None in Es; lia].
    rewrite (drop_S _ _ _ Eb), (drop_S _ _ _ Es). cbn [zip_with].
    assert (SstIt_valid (sst_at j) = true) as Hv.
    { unfold SstIt_valid, sst_at, zlen. cbn [body_cursor_ body_data_ body_num_]. apply Z.ltb_lt.
      apply lookup_lt_Some in Eb. change EDGEBODY_SIZE with 16. lia. }
    assert (u32 (off + len * Z.of_nat j + len) = off + len * Z.of_nat (S j)) as Ew.
    { unfold u32. rewrite wrap_small; [lia|]. unfold fits. apply lookup_lt_Some in Eb. unfold zlen in Hfit. nia. }
    eapply yields_entry; [exact Hv| | |apply (IH (S j)); lia].
    + unfold current. cbn [it_dst it_sequence it_marker it_is_out it_edge_type it_edge_data]. unfold SstIt_body, SstIt_edge_data.
      rewrite Hv. cbn [sst_at it_mapping body_cursor_ property_data_ now_offset fixed_property_len_ negb].
      rewrite (Hb _ _ Eb). cbn [fmap option_fmap option_map]. simpl_bind. rewrite Ew.
      replace (u32 (off + len * Z.of_nat (S j) - (off + len * Z.of_nat j))) with len.
      * rewrite (Hs _ _ Es). done.
      * unfold u32. rewrite wrap_small; [lia|]. unfold fits. apply lookup_lt_Some in Eb. unfold zlen in Hfit. nia.
    + cbn [next]. unfold SstIt_next, sst_at. cbn [it_mapping body_data_ property_data_ body_num_ body_cursor_ now_offset fixed_property_len_].
      rewrite Ew. do 3 f_equal. lia.
Qed.

Lemma sst_yields :
  yields pid (ItSst (mkSstIt mapping o column (zlen bodies) o off len)) (zip_with sst_entry bodies slots).
Proof.
  pose proof (sst_yields_from 0 ltac:(lia)) as Hy. unfold sst_at in Hy. change (Z.of_nat 0) with 0 in Hy.
  by rewrite !Z.mul_0_r, !Z.add_0_r in Hy.
Qed.
End SstFacts.

(** ** Overlays *)
Section Overlay.
Context (pid src rs : Z) (view : PropertyDeltaReadView) (batches : list (list PropertyDeltaRecord)).
Context (Hview : chain_repr (deltas view) batches).

Definition entry_key (e : Entry) : LogicalKey := mkKey src (en_dst e) (en_sequence e) (en_is_out e) (en_type e).
Definition overlaid (e : Entry) : Entry :=
  match newest_visible (entry_key e) rs (concat batches) with
  | Some r => mkEntry (en_dst e) (en_sequence e) (en_marker e) (en_is_out e) (en_type e) (value r)
  | None => e
  end.

Lemma overlay_yields it es : yields pid it es -> yields pid (ItOverlay src it (Some view) rs) (overlaid <$> es).
Proof.
  induction 1 as [it Hv|it it' e es Hv Hc Hn _ IH]; [by apply yields_end|]. cbn [fmap list_fmap].
  eapply yields_entry; [done| |cbn [next]; by rewrite Hn|exact IH].
  unfold current in *. cbn [it_dst it_sequence it_marker it_is_out it_edge_type it_edge_data]. rewrite Hv.
  destruct (it_dst it) as [d|]; simpl_bind; simpl_bind in Hc; [|done].
  destruct (it_sequence it) as [q|]; simpl_bind; simpl_bind in Hc; [|done].
  destruct (it_marker it) as [mk|]; simpl_bind; simpl_bind in Hc; [|done].
  destruct (it_is_out it) as [o|]; simpl_bind; simpl_bind in Hc; [|done].
  destruct (it_edge_type it) as [ty|]; simpl_bind; simpl_bind in Hc; [|done].
  destruct (it_edge_data it pid) as [data|]; simpl_bind in Hc; [|done]. injection Hc as <-.
  destruct (ReadView_Lookup_correct (mkKey src d q o ty) rs view (mkCounters 0 0 0 0) batches Hview) as [c ->].
  simpl_bind. unfold overlaid, entry_key. cbn [en_dst en_sequence en_marker en_is_out en_type].
  by destruct (newest_visible _ _ _) as [r|].
Qed.
End Overlay.

(** ** The scanning iterator *)
Section Scan.
Context (debug : bool) (seq_ : Z) (is_out_ : bool) (edge_type_ pid : Z).

Definition accepted (e : Entry) : Prop :=
  en_is_out e = is_out_ /\ en_type e = edge_type_ /\ (0 < seq_ \/ en_sequence e <= seq_).
#[export] Instance accepted_dec e : Decision (accepted e).
Proof. unfold accepted. apply _. Defined.

Abbreviation check := (check_entry_valid debug seq_ is_out_ edge_type_).

Lemma check_spec it e : valid it = true -> current pid it = Some e -> check it = Some (bool_decide (accepted e)).
Proof.
  intros Hv Hc. unfold check_entry_valid. rewrite Hv. unfold assert_. rewrite andb_false_r. cbn [negb]. simpl_bind.
  unfold current in Hc.
  destruct (it_dst it) as [d|]; simpl_bind in Hc; [|done].
  destruct (it_sequence it) as [q|]; simpl_bind in Hc; [|done].
  destruct (it_marker it) as [mk|]; simpl_bind in Hc; [|done].
  destruct (it_is_out it) as [o|]; simpl_bind; simpl_bind in Hc; [|done].
  destruct (it_edge_type it) as [ty|]; simpl_bind; simpl_bind in Hc; [|done].
  destruct (it_edge_data it pid) as [data|]; simpl_bind in Hc; [|done]. injection Hc as <-.
  unfold accepted. cbn [en_is_out en_type en_sequence]. unfold base_newest_edge.
  destruct (Bool.eqb_spec o is_out_) as [->|Ho]; cbn [negb]; [|by rewrite bool_decide_eq_false_2 by tauto].
  destruct (Z.eqb_spec ty edge_type_) as [->|Ht]; cbn [negb]; [|by rewrite bool_decide_eq_false_2 by tauto].
  destruct (Z.ltb_spec 0 seq_); [by rewrite bool_decide_eq_true_2 by tauto|].
  destruct (Z.ltb_spec seq_ q); cbn [negb].
  - rewrite bool_decide_eq_false_2; [done|]. intros (_ & _ & [?|?]); lia.
  - rewrite bool_decide_eq_true_2; [done|]. split_and!; auto.
Qed.

(** What is left of a source when the iterator stops at an accepted entry. *)
Definition ready (es : list Entry) : Prop := match es with [] => True | e :: _ => accepted e end.

Lemma skip_spec fuel it es :
  yields pid it es -> (length es <= fuel)%nat ->
  exists it' es', skip_entries debug seq_ is_out_ edge_type_ fuel it = Some it' /\ yields pid it' es' /\ ready es' /\
    filter accepted es' = filter accepted es /\ (length es' <= length es)%nat.
Proof.
  intros Hy. revert fuel. induction Hy as [it Hv|it it' e es Hv Hc Hn Hy IH]; intros fuel Hf.
  - exists it, []. destruct fuel; cbn [skip_entries]; rewrite Hv; (split_and!; [done|by apply yields_end|done|done|done]).
  - destruct (decide (accepted e)) as [Ha|Ha].
    + exists it, (e :: es). split_and!; [|by eapply yields_entry|done|done|done].
      destruct fuel; cbn [skip_entries]; rewrite Hv, (check_spec _ _ Hv Hc), bool_decide_eq_true_2; done.
    + destruct fuel as [|fuel]; [cbn [length] in Hf; lia|]. cbn [length] in Hf.
      destruct (IH fuel ltac:(lia)) as (it2 & es2 & E & Hy2 & Hr & Hfl & Hl). exists it2, es2.
      split_and!; [|done|done|by rewrite filter_cons_False|cbn [length]; lia].
      cbn [skip_entries]. rewrite Hv, (check_spec _ _ Hv Hc), bool_decide_eq_false_2 by done. cbn [negb]. simpl_bind.
      by rewrite Hn.
Qed.

(** The entries still to come from an iterator stopped at an accepted entry;
    [n] bounds the entries its sources still hold. *)
Definition pending (n : nat) (d : EdgeIteratorDynamic) (es : list Entry) : Prop :=
  match dyn_it d with
  | None => es = []
  | Some it => exists cur rest, yields pid it cur /\ ready cur /\ Forall2 (yields pid) (it_array d) rest /\
      (cur = [] -> it_array d = []) /\ es = filter accepted (cur ++ concat rest) /\
      (length cur + length (concat rest) <= n)%nat
  end.

Lemma findFirst_spec fuel array rest :
  Forall2 (yields pid) array rest -> (length (concat rest) <= fuel)%nat ->
  exists d, findFirstValid debug seq_ is_out_ edge_type_ fuel array = Some d /\
    pending (length (concat rest)) d (filter accepted (concat rest)).
Proof.
  intros Hy Hf. induction Hy as [|it es array rest Hit Hy IH]; cbn [findFirstValid concat] in *; [by eexists|].
  rewrite length_app in Hf.
  destruct (skip_spec fuel it es Hit ltac:(lia)) as (it' & es' & -> & Hy' & Hr & Hfl & Hl). simpl_bind.
  rewrite (yields_valid _ _ _ Hy'). destruct (decide (es' = [])) as [->|Hne].
  - rewrite bool_decide_eq_false_2 by (intros Hc; by apply Hc). cbn [orb]. rewrite filter_nil in Hfl.
    case_bool_decide as Ha.
    + destruct array as [|]; [|done]. apply Forall2_nil_inv_l in Hy as ->. eexists. split; [done|].
      exists [], []. split_and!; [done|done|done|done| |simpl; lia]. by rewrite filter_app, <- Hfl.
    + destruct (IH ltac:(lia)) as (d & -> & Hp). exists d. split; [done|]. rewrite filter_app, <- Hfl.
      unfold pending in *. destruct (dyn_it d); [|done]. destruct Hp as (cur & rest' & ? & ? & ? & ? & ? & ?).
      exists cur, rest'. split_and!; try done. rewrite length_app. lia.
  - rewrite bool_decide_eq_true_2 by done. cbn [orb]. eexists. split; [done|]. exists es', rest.
    split_and!; [done|done|done|done|by rewrite !filter_app, Hfl|rewrite length_app; lia].
Qed.

Lemma Dyn_next_spec cur fuel it array rest :
  yields pid it cur -> cur <> [] -> Forall2 (yields pid) array rest ->
  (length cur + length (concat rest) <= fuel)%nat ->
  exists d, Dyn_next debug seq_ is_out_ edge_type_ fuel (mkDyn (Some it) array) = Some d /\
    pending (length (tail cur) + length (concat rest)) d (filter accepted (tail cur ++ concat rest)).
Proof.
  revert fuel it. induction cur as [|c cur IH]; intros fuel it Hy Hne Ha Hf; [done|].
  inversion Hy as [|? it' ? ? Hv Hc Hn Hy' E1 E2]; subst. destruct fuel as [|fuel]; [cbn [length] in Hf; lia|].
  cbn [length] in Hf. cbn [Dyn_next dyn_it tail]. rewrite Hv, Hn. cbn [negb it_array]. simpl_bind.
  rewrite (yields_valid _ _ _ Hy'). destruct (decide (cur = [])) as [->|Hcur].
  - rewrite bool_decide_eq_false_2 by (intros Hx; by apply Hx). cbn [app length].
    destruct (findFirst_spec fuel array rest Ha ltac:(lia)) as (d & -> & Hp). simpl_bind.
    exists d. split; [|done]. unfold pending in Hp. destruct (dyn_it d) as [it2|]; [|done].
    destruct Hp as (cur2 & rest2 & Hy2 & Hr2 & _). destruct Hy2 as [it2 Hv2|it2 it3 e2 es2 Hv2 Hc2 _ _]; rewrite Hv2; [done|].
    cbn [negb]. rewrite (check_spec _ _ Hv2 Hc2), bool_decide_eq_true_2 by done. done.
  - rewrite bool_decide_eq_true_2 by done. simpl_bind. cbn [dyn_it].
    destruct Hy' as [it' Hv'|it' it2 e2 es2 Hv' Hc' Hn' Hy2]; [done|]. rewrite Hv', (check_spec _ _ Hv' Hc'). cbn [negb]. simpl_bind.
    case_bool_decide as Hacc.
    + eexists. split; [done|]. exists (e2 :: es2), rest. split_and!; [by eapply yields_entry|done|done|done|done|done].
    + destruct (IH fuel it') as (d & -> & Hp); [by eapply yields_entry|done|done|lia|]. exists d. split; [done|].
      cbn [tail app] in *. rewrite filter_cons_False by done. unfold pending in *. destruct (dyn_it d); [|done].
      destruct Hp as (cur2 & rest2 & ? & ? & ? & ? & ? & ?). exists cur2, rest2. split_and!; try done. cbn [length]. lia.
Qed.

(** Scanning produces exactly the pending entries, and ends. *)
Lemma scan_spec n d es fuel :
  pending n d es -> (n <= fuel)%nat -> scan debug seq_ is_out_ edge_type_ pid fuel d = Some es.
Proof.
  revert d es fuel. induction n as [n IH] using lt_wf_ind. intros d es fuel Hp Hf.
  unfold pending in Hp. destruct d as [[it|] array]; cbn [dyn_it it_array] in Hp; [|by destruct fuel; subst].
  destruct Hp as (cur & rest & Hy & Hr & Ha & Hemp & -> & Hn). pose proof (yields_valid _ _ _ Hy) as Hvalid.
  destruct cur as [|e cur].
  - rewrite (Hemp eq_refl) in Ha. apply Forall2_nil_inv_l in Ha as ->.
    destruct fuel; cbn [scan dyn_it]; by rewrite Hvalid.
  - cbn [length] in Hn. destruct fuel as [|fuel]; [lia|]. cbn [scan dyn_it]. rewrite Hvalid. cbn [negb bool_decide].
    rewrite bool_decide_eq_true_2 by done. cbn [negb].
    destruct (Dyn_next_spec (e :: cur) (S fuel) it array rest Hy ltac:(done) Ha ltac:(cbn [length]; lia)) as (d' & Ed & Hp').
    inversion Hy as [|? it' ? ? Hv Hc Hnx Hy' E1 E2]; subst. rewrite Hc. simpl_bind. rewrite Ed. simpl_bind. cbn [tail] in Hp'.
    rewrite (IH (length cur + length (concat rest))%nat ltac:(lia) _ _ fuel Hp') by lia. simpl_bind. by rewrite <- app_comm_cons, filter_cons_True.
Qed.
End Scan.
