(* ===== verification/ScanTheorems.v ===== *)
(** * Theorems about adjacency scans *)

From S2P Require Import Prelude.
From S2P Require Import Types.
From S2P Require Import DeltaFile.
From S2P Require Import DeltaSpec.
From S2P Require Import DeltaStore.
From S2P Require Import DeltaStoreFacts.
From S2P Require Import DeltaStoreTheorems.
From S2P Require Import PropertyLayout.
From S2P Require Import EdgeBody.
From S2P Require Import Sst.
From S2P Require Import SkipList.
From S2P Require Import SkipListFacts.
From S2P Require Import NeighBors.
From S2P Require Import MemTable.
From S2P Require Import SstBuild.
From S2P Require Import SstBuildFacts.
From S2P Require Import SstBuildTheorems.
From S2P Require Import MemTableFlush.
From S2P Require Import DeltaMerge.
From S2P Require Import DeltaMergeTheorems.
From S2P Require Import LevelIndex.
From S2P Require Import LsmRead.
From S2P Require Import LsmHistory.
From S2P Require Import EdgeIterators.

(** ** Scanning the sources of a snapshot *)
Lemma scan_sources `{StdHash} debug L store snap src pid seq_ max_level is_out ty its ess fuel :
  sources debug L store src pid seq_ snap max_level = Some its -> Forall2 (yields pid) its ess ->
  (length (concat ess) <= fuel)%nat ->
  exists d, Get_Edges debug L store src pid seq_ snap max_level is_out ty fuel = Some d /\
    scan debug seq_ is_out ty pid fuel d = Some (filter (accepted seq_ is_out ty) (concat (reverse ess))).
Proof.
  intros Hs Hy Hf. unfold Get_Edges. rewrite Hs. simpl_bind.
  assert (length (concat (reverse ess)) = length (concat ess)) as El.
  { clear. induction ess as [|es ess IH]; [done|]. rewrite reverse_cons, concat_app, length_app, IH. cbn [concat].
    rewrite app_nil_r, length_app. lia. }
  destruct (findFirst_spec debug seq_ is_out ty pid fuel (reverse its) (reverse ess)) as (d & -> & Hp);
    [by apply Forall2_reverse|lia|].
  exists d. split; [done|]. eapply scan_spec; [exact Hp|lia].
Qed.

(** The entries of the same edge. *)
Definition same_edge (a b : Entry) : Prop := en_dst a = en_dst b /\ en_is_out a = en_is_out b /\ en_type a = en_type b.


(** ** The iterator over a range of a file *)
Lemma list_find_zip {A B C} (f : A -> B -> C) (P : C -> Prop) (Q : A -> Prop) `{!forall x, Decision (P x), !forall x, Decision (Q x)}
    l k : (forall a b, P (f a b) <-> Q a) -> length l = length k ->
  list_find P (zip_with f l k) = '(j, a) ← list_find Q l; b ← k !! j; Some (j, f a b).
Proof.
  intros HP. revert k. induction l as [|a l IH]; intros [|b k] Hl; try done. cbn [zip_with list_find].
  destruct (decide (Q a)) as [Hq|Hq].
  - rewrite decide_True by (by apply HP). done.
  - rewrite decide_False by (by rewrite HP). rewrite IH by (cbn [length] in Hl; lia).
    destruct (list_find Q l) as [[j x]|]; [|done]. cbn. by destruct (k !! j).
Qed.

Definition entry_matches (dst : Z) (is_out : bool) (ty : Z) (e : Entry) : Prop :=
  en_dst e = dst /\ en_is_out e = is_out /\ en_type e = ty.
#[export] Instance entry_matches_dec dst is_out ty e : Decision (entry_matches dst is_out ty e).
Proof. unfold entry_matches. apply _. Defined.

(** What a point read answers for an entry. *)
Definition answer (found : option (nat * Entry)) : Status * option bytes :=
  match found with
  | None => (kNotFound, None)
  | Some (_, e) => if en_marker e then (kDelete, None) else (kOk, Some (en_data e))
  end.

Lemma list_find_overlaid src rs bs dst is_out ty es :
  list_find (entry_matches dst is_out ty) (overlaid src rs bs <$> es)
  = prod_map id (overlaid src rs bs) <$> list_find (entry_matches dst is_out ty) es.
Proof.
  rewrite list_find_fmap. f_equal. apply list_find_ext. intros e. unfold compose, overlaid.
  by destruct (newest_visible _ _ _).
Qed.

Section Range.
Context `{StdHash} (debug : bool) (L : LsmColumns) (store : option PropertyDeltaStore) (fid pid : Z).
Context (data : SstData) (i : nat) (b e : Index).
Context (Hwf : wf_sst data) (Hb : sst_indexes data !! i = Some b) (He : sst_indexes data !! S i = Some e).
Context (Hdata : sstdata_manager_ L !! fid = Some data).
Abbreviation len := (GetSubPropertyFixedLength (process_flags L) (merge_layout L) pid).
Abbreviation view := (ResolveDeltaView L store pid fid).
Context (Hlen : 0 < len < 1024) (Hpid : 0 <= pid).

(** The deltas of the file, and the column under them. *)
Definition file_batches (batches : list (list PropertyDeltaRecord)) : Prop :=
  match view with Some v => chain_repr (deltas v) batches | None => batches = [] end.
Definition base_column : bytes :=
  match view with Some v => BaseDataOr v (column data pid) | None => column data pid end.
Context (Hcol : len * (ix_offset e / EDGEBODY_SIZE) <= zlen base_column)
        (Hfit : len * (ix_offset e / EDGEBODY_SIZE) < 2 ^ 32).

Definition first_row : Z := ix_offset b / EDGEBODY_SIZE.
Definition range_slots : list bytes :=
  (fun j => slice ((first_row + Z.of_nat j) * len) len base_column) <$> seq 0 (length (range_bodies data b e)).
Definition range_entries (batches : list (list PropertyDeltaRecord)) : list Entry :=
  overlaid (ix_key b) kLatestPropertyCommit batches <$> zip_with sst_entry (range_bodies data b e) range_slots.

Lemma range_count :
  first_row + zlen (range_bodies data b e) = ix_offset e / EDGEBODY_SIZE /\ 0 <= first_row /\
  EDGEBODY_SIZE * first_row = ix_offset b /\ zlen (range_bodies data b e) = (ix_offset e - ix_offset b) / EDGEBODY_SIZE.
Proof.
  destruct (proj2 Hwf _ _ _ Hb He) as (H0 & Hle & _ & _ & Hb0 & He0 & _).
  unfold first_row, range_bodies, zlen. rewrite edge_bodies_length. change EDGEBODY_SIZE with 16 in *.
  pose proof (Z.div_mod (ix_offset b) 16 ltac:(lia)). pose proof (Z.div_mod (ix_offset e) 16 ltac:(lia)).
  assert ((ix_offset e - ix_offset b) / 16 = ix_offset e / 16 - ix_offset b / 16) as ->.
  { rewrite (Z.mod_eq) in Hb0, He0 by lia. symmetry. apply Z.div_unique with 0; lia. }
  lia.
Qed.

Lemma range_slot j s :
  range_slots !! j = Some s -> read_at base_column (first_row * len + len * Z.of_nat j) len = Some s.
Proof.
  unfold range_slots. rewrite list_lookup_fmap. intros Hj.
  destruct (seq 0 _ !! j) as [j'|] eqn:E; [|done]. apply lookup_seq in E as [-> Hlt]. injection Hj as <-.
  destruct range_count as (Hr & H0 & _ & _). unfold zlen in Hr. cbn [Nat.add].
  replace (first_row * len + len * Z.of_nat j) with ((first_row + Z.of_nat j) * len) by lia.
  apply read_at_Some; nia.
Qed.

Lemma range_iterator batches :
  file_batches batches ->
  exists its ess, sst_iterator debug L store (ix_key b) pid fid (ix_offset b) (ix_offset e) = Some its /\
    Forall2 (yields pid) its ess /\ concat ess = range_entries batches.
Proof.
  intros Hv. destruct range_count as (Hr & H0 & Hm & Hn).
  destruct (proj2 Hwf _ _ _ Hb He) as (Ho & Hle & Hz & Hmax & Hb0 & He0 & _).
  unfold sst_iterator. rewrite Hdata. simpl_bind. unfold assert_. rewrite (proj2 (Z.leb_le _ _) Hle), andb_false_r. cbn [negb]. simpl_bind.
  unfold GetEdgeOrdinalFromBodyOffset. rewrite Hb0. cbn [Z.eqb]. simpl_bind. unfold GetSubPropertyOffsetByEdgeOrdinal.
  fold first_row. fold (column data pid). fold base_column.
  assert (first_row * len < 2 ^ 32) as Hoff by (pose proof (zlen_nonneg (range_bodies data b e)); nia).
  unfold u64. rewrite (wrap_small 64) by (unfold fits; nia). unfold u32. rewrite !wrap_small by (unfold fits; nia).
  rewrite <- Hn.
  set (it := mkSstIt _ _ _ _ _ _ _).
  assert (yields pid (ItSst it) (zip_with sst_entry (range_bodies data b e) range_slots)) as Hy.
  { apply sst_yields; [lia|nia|by unfold range_slots; rewrite length_fmap, length_seq|nia| |].
    - intros j body Hj. eapply range_body_at; [|done]. by apply (proj2 Hwf i).
    - apply range_slot. }
  assert (yields pid (overlay (ix_key b) (ItSst it) view) (range_entries batches)) as Hy'.
  { unfold file_batches, range_entries, overlay in *. destruct view as [v|].
    - by apply overlay_yields.
    - subst batches. erewrite list_fmap_ext, list_fmap_id; [exact Hy|]. done. }
  rewrite (yields_valid _ _ _ Hy'). case_bool_decide as Hne.
  - eexists _, [range_entries batches]. split; [done|]. split; [by repeat constructor|]. cbn [concat]. by rewrite app_nil_r.
  - exists [], []. split; [done|]. split; [done|]. by rewrite Hne.
Qed.

Lemma find_edge_no_view dst s_offset e_offset is_out ty src :
  find_edge_from_sstdata_cache L debug None data src dst s_offset e_offset pid is_out ty
  = find_edge_from_sstdata_cache L debug (Some empty_view) data src dst s_offset e_offset pid is_out ty.
Proof. done. Qed.

Lemma range_answer batches dst is_out ty :
  file_batches batches ->
  find_edge_from_sstdata_cache L debug view data (ix_key b) dst (ix_offset b) (ix_offset e) pid is_out ty
  = Some (answer (list_find (entry_matches dst is_out ty) (range_entries batches))).
Proof.
  intros Hv. destruct range_count as (Hr & H0 & _ & _). unfold range_entries. rewrite list_find_overlaid.
  rewrite (list_find_zip sst_entry _ (edge_matches dst is_out ty)) by
    (done || by unfold range_slots; rewrite length_fmap, length_seq).
  assert (exists v, chain_repr (deltas v) batches /\ BaseDataOr v (column data pid) = base_column /\
    find_edge_from_sstdata_cache L debug view data (ix_key b) dst (ix_offset b) (ix_offset e) pid is_out ty
    = find_edge_from_sstdata_cache L debug (Some v) data (ix_key b) dst (ix_offset b) (ix_offset e) pid is_out ty)
    as (v & Hc & Hbase & ->).
  { unfold file_batches, base_column in *. destruct view as [v|]; [by exists v|]. exists empty_view. subst batches.
    split_and!; [constructor|done|apply find_edge_no_view]. }
  rewrite (find_edge_read L data pid i b e Hwf Hb He Hlen debug v batches dst is_out ty Hc), Hbase.
  destruct (list_find _ (range_bodies data b e)) as [[j body]|] eqn:Ej; [|done]. simpl_bind.
  apply list_find_Some in Ej as (Hj & (Hd & Hout & Hty) & _). pose proof (lookup_lt_Some _ _ _ Hj) as Hlt.
  unfold range_slots. rewrite list_lookup_fmap, lookup_seq_lt by done. cbn [fmap option_fmap option_map Nat.add]. simpl_bind.
  cbn [fmap option_fmap option_map prod_map answer fst snd]. unfold overlaid, entry_key.
  cbn [sst_entry en_dst en_sequence en_marker en_is_out en_type]. rewrite Hd, Hout, Hty.
  destruct (newest_visible _ _ _) as [r|]; cbn [sst_entry en_marker en_data].
  - by destruct (Dym.get_marker body).
  - destruct (Dym.get_marker body); [done|]. unfold read_result, slot. fold first_row. unfold zlen in Hr.
    rewrite read_at_Some by nia. done.
Qed.
End Range.

(** C31: a scan shows what a point read answers. Over the range of a source in a
    file with its deltas, the iterator of the scan reports the edges of the range
    with their merged properties, and for every destination, direction and type
    the point read of the file is the first matching entry of the scan: absent,
    deleted, or with exactly the same property value. *)
Theorem scan_matches_get `{StdHash} debug L store fid pid data i b e batches :
  wf_sst data -> sst_indexes data !! i = Some b -> sst_indexes data !! S i = Some e ->
  sstdata_manager_ L !! fid = Some data ->
  0 < GetSubPropertyFixedLength (process_flags L) (merge_layout L) pid < 1024 -> 
  GetSubPropertyFixedLength (process_flags L) (merge_layout L) pid * (ix_offset e / EDGEBODY_SIZE)
    <= zlen (base_column L store fid pid data) ->
  GetSubPropertyFixedLength (process_flags L) (merge_layout L) pid * (ix_offset e / EDGEBODY_SIZE) < 2 ^ 32 ->
  file_batches L store fid pid batches ->
  exists its ess, sst_iterator debug L store (ix_key b) pid fid (ix_offset b) (ix_offset e) = Some its /\
    Forall2 (yields pid) its ess /\
    forall dst is_out ty,
      find_edge_from_sstdata_cache L debug (ResolveDeltaView L store pid fid) data (ix_key b) dst
        (ix_offset b) (ix_offset e) pid is_out ty
      = Some (answer (list_find (entry_matches dst is_out ty) (concat ess))).
Proof.
  intros Hwf Hb He Hd Hlen Hcol Hfit Hv.
  destruct (range_iterator debug L store fid pid data i b e Hwf Hb He Hd Hlen Hcol Hfit batches Hv) as (its & ess & E & Hy & Hc).
  exists its, ess. split_and!; [done|done|]. intros dst is_out ty. rewrite Hc.
  by apply (range_answer debug L store fid pid data i b e Hwf Hb He Hlen Hcol).
Qed.

(** The file of the sample read through a scan. *)
Definition scan_snap : Snapshot := mkSnap [] [mkCache (mkHeader_ 7 0 0 5 6) 0 (sst_indexes sample_sst)] empty_index.

Lemma scan_matches_get_witness :
  let H : StdHash := fun z => z in
  exists its ess, sst_iterator true sample_columns None 5 0 7 0 32 = Some its /\ Forall2 (yields 0) its ess /\
    find_edge_from_sstdata_cache sample_columns true None column_sst 5 7 0 32 0 true 1
    = Some (answer (list_find (entry_matches 7 true 1) (concat ess))).
Proof.
  intros H. destruct (sst_indexes column_sst !! 0%nat) as [b|] eqn:Eb; [|done].
  destruct (sst_indexes column_sst !! 1%nat) as [e|] eqn:Ee; [|done].
  destruct (scan_matches_get true sample_columns None 7 0 column_sst 0 b e [] column_sst_wf Eb Ee) as (its & ess & E & Hy & Hg).
  1: vm_compute; reflexivity.
  1-3: vm_compute in Ee; injection Ee as <-; vm_compute in Eb; injection Eb as <-; eval_prop.
  1: vm_compute; reflexivity.
  vm_compute in Ee; injection Ee as <-; vm_compute in Eb; injection Eb as <-.
  exists its, ess. split_and!; [exact E|exact Hy|apply Hg].
Defined.

