(* ===== verification/ScanHistory.v ===== *)
(** * Scans return the whole history

    After any history of insertions and deletions, partly flushed to level-0
    files, a scan of a source reports every version written for the requested
    direction and type exactly once, deletion markers included. *)

From S2P Require Import Prelude.
From S2P Require Import Types.
From S2P Require Import DeltaFile.
From S2P Require Import DeltaFileCreate.
From S2P Require Import DeltaStore.
From S2P Require Import PropertyLayout.
From S2P Require Import EdgeBody.
From S2P Require Import Sst.
From S2P Require Import SkipList.
From S2P Require Import SkipListFacts.
From S2P Require Import NeighBors.
From S2P Require Import MemTable.
From S2P Require Import SstBuild.
From S2P Require Import SstBuildFacts.
From S2P Require Import SstBuildTheorems.
From S2P Require Import MemTableFlush.
From S2P Require Import DeltaMerge.
From S2P Require Import LevelIndex.
From S2P Require Import LsmRead.
From S2P Require Import LsmHistory.
From S2P Require Import EdgeIterators.
From S2P Require Import ScanTheorems.

Definition version_entry (p : nat) (e : Edge) : Entry :=
  mkEntry (destination e) (sequence e) (marker e) (e_is_out e) (e_edge_type e) (field p e).

(** The field extraction of the MemTable iterator is the one of the flush. *)
Lemma sub_property_extract raw now id current :
  0 <= now <= id ->
  extract_field raw current (Z.to_nat (id - now)) = (if now =? id then current else []) ++ sub_property raw now id.
Proof.
  revert now current. induction raw as [|c raw IH]; intros now current Hn; cbn [extract_field sub_property].
  - rewrite app_nil_r. destruct (Z.eqb_spec now id) as [->|Hne]; [by rewrite Z.sub_diag|].
    destruct (Z.to_nat (id - now)) eqn:E; [lia|done].
  - case_bool_decide as Hb.
    + destruct (Z.eqb_spec now id) as [->|Hne].
      * rewrite Z.sub_diag, (proj2 (Z.ltb_lt _ _)) by lia. by rewrite app_nil_r.
      * rewrite (proj2 (Z.ltb_ge _ _)) by lia. destruct (Z.to_nat (id - now)) as [|k] eqn:E; [lia|]. cbn [app].
        replace k with (Z.to_nat (id - (now + 1))) by lia. rewrite IH by lia. by destruct (now + 1 =? id).
    + rewrite IH, (proj2 (Z.ltb_ge id now)) by lia. destruct (Z.eqb_spec now id); [by rewrite <- app_assoc|done].
Qed.

Lemma mem_entry_version p e : mem_entry (Z.of_nat p) e = version_entry p e.
Proof.
  unfold mem_entry, version_entry, Edge_property. f_equal. rewrite (proj2 (Z.eqb_neq _ _)) by lia.
  pose proof (sub_property_extract (property e) 0 (Z.of_nat p) [] ltac:(lia)) as E.
  replace (if 0 =? Z.of_nat p then [] else []) with (@nil Init.Byte.byte) in E by (by destruct (0 =? Z.of_nat p)). cbn [app] in E.
  rewrite <- E, Z.sub_0_r, Nat2Z.id. apply extract_field_split.
Qed.

Section History.
Context `{StdHash} (debug : bool) (L : LsmColumns) (reserve_node max_v : Z) (p : nat).
Abbreviation fl := (process_flags L).
Abbreviation tls := (merge_layout L).
Context (Hp : (p < length (sub_property_lengths_ L))%nat) (Hw : 0 < slot_len fl tls p < 1024)
  (Hv : 0 <= max_v < kInvalidVertexId).

(** The edges of a source in the input of a flush. *)
Definition source_edges (src : Z) (vs : list (Z * list Edge)) : list Edge :=
  match list_find (fun v => v.1 = src) vs with Some (_, v) => v.2 | None => [] end.

Lemma image_body A B vid es fid j x :
  Forall edge_fits es -> es !! j = Some x ->
  exists b, body_list fl tls (zlen (all_edges A)) es !! j = Some b /\
    body_at (ref_file fl tls (A ++ (vid, es) :: B) fid) (EDGEBODY_SIZE * zlen (all_edges A) + EDGEBODY_SIZE * Z.of_nat j) = Some b.
Proof.
  intros Hf Hj. destruct (image_split fl tls A B vid es fid) as [rest ->]. set (a := concat _). set (bl := body_list _ _ _ _).
  assert (zlen a = EDGEBODY_SIZE * zlen (all_edges A)) as Ea by apply zlen_ref_bodies.
  destruct (bl !! j) as [b|] eqn:Eb; [|apply lookup_ge_None in Eb; unfold bl in Eb; rewrite body_list_length in Eb;
    apply lookup_lt_Some in Hj; lia].
  exists b. split; [done|]. pose proof (edge_bodies_array a rest bl (body_list_ok fl tls _ es Hf)) as Ebs.
  rewrite <- Ebs in Eb. unfold edge_bodies in Eb. rewrite list_lookup_fmap in Eb.
  destruct (seq 0 (length bl) !! j) as [j'|] eqn:Es; [|done]. apply lookup_seq in Es as [-> Hlt]. injection Eb as <-.
  unfold body_at. rewrite <- Ea. cbn [Nat.add]. pose proof (zlen_nonneg a). pose proof (zlen_nonneg rest).
  rewrite read_at_Some; [done|change EDGEBODY_SIZE with 16; lia|done|].
  rewrite !zlen_app. pose proof (concat_pod_zlen bl) as Hz. change (sizeof Dym.EdgeBody) with EDGEBODY_SIZE in Hz.
  change (concat (pod_encode <$> bl)) with (concat (map pod_encode bl)). rewrite Hz. change (zlen bl) with (Z.of_nat (length bl)).
  change EDGEBODY_SIZE with 16. lia.
Qed.

Lemma body_entry es k j b x s :
  Forall edge_fits es -> es !! j = Some x -> body_list fl tls k es !! j = Some b -> s = ref_slot fl tls p x ->
  storable (slot_len fl tls p) (field p x) -> sst_entry b s = version_entry p x.
Proof.
  intros Hf Hj Hb -> Hst.
  assert (exists q, b = body_of_edge q x) as [q ->].
  { clear -Hj Hb. revert k j Hj Hb. induction es as [|e es IH]; intros k [|j] Hj Hb; try done; cbn [body_list] in Hb.
    - injection Hj as ->. injection Hb as <-. by eexists.
    - by eapply IH. }
  rewrite Forall_forall in Hf. destruct (Hf x (list_elem_of_lookup_2 _ _ _ Hj)) as (Hd & Hs & Ht).
  destruct (body_accessors (destination x) (sequence x) q (marker x) (e_is_out x) (e_edge_type x) Hd Hs Ht)
    as (E1 & E2 & _ & E3 & E4 & E5).
  unfold sst_entry, version_entry, body_of_edge. rewrite E1, E2, E3, E4, E5. f_equal. unfold ref_slot.
  rewrite trim_slot. by apply trim_storable.
Qed.

Lemma zip_entries es k :
  Forall edge_fits es -> Forall (fun x => storable (slot_len fl tls p) (field p x)) es ->
  zip_with sst_entry (body_list fl tls k es) (ref_slot fl tls p <$> es) = version_entry p <$> es.
Proof.
  intros Hf Hst. rewrite Forall_lookup in Hst. apply list_eq. intros j. rewrite lookup_zip_with, !list_lookup_fmap.
  destruct (es !! j) as [x|] eqn:Hj.
  - destruct (body_list fl tls k es !! j) as [b|] eqn:Hb.
    + cbn. f_equal. apply (body_entry es k j b x); try done. by apply (Hst j).
    + apply lookup_ge_None in Hb. rewrite body_list_length in Hb. apply lookup_lt_Some in Hj. lia.
  - by destruct (body_list fl tls k es !! j).
Qed.

(** The iterator over a range of an image. *)
Lemma image_iterator vs i src es fid :
  flush_input_ok vs -> vs !! i = Some (src, es) -> EDGEBODY_SIZE * zlen (all_edges vs) < 2 ^ 31 ->
  zlen (all_edges vs) * slot_len fl tls p < 2 ^ 32 -> Forall (fun x => storable (slot_len fl tls p) (field p x)) es ->
  sstdata_manager_ L !! fid = Some (mkSst (ref_indexes vs) (ref_file fl tls vs fid)
                                     (ref_column fl tls vs <$> seq 0 (length (sub_property_lengths_ L)))) ->
  let k := zlen (all_edges (take i vs)) in
  exists its ess, sst_iterator debug L None src (Z.of_nat p) fid (EDGEBODY_SIZE * k) (EDGEBODY_SIZE * (k + zlen es)) = Some its /\
    Forall2 (yields (Z.of_nat p)) its ess /\ concat ess = version_entry p <$> es.
Proof.
  intros Hin Hi Hsz Hcol Hst Hdata k. set (A := take i vs) in *. set (B := drop (S i) vs).
  assert (vs = A ++ (src, es) :: B) as Evs by (symmetry; by apply take_drop_middle).
  assert (all_edges vs = all_edges A ++ es ++ all_edges B) as Eall by (rewrite Evs, all_edges_app; done).
  assert (0 <= k /\ k + zlen es <= zlen (all_edges vs)) as [Hk Hke].
  { rewrite Eall, !zlen_app. pose proof (zlen_nonneg (all_edges B)). split; [apply zlen_nonneg|fold k; lia]. }
  pose proof (zlen_nonneg es) as Hes. pose proof Hin as [_ Hf]. rewrite Forall_forall in Hf.
  destruct (Hf _ (list_elem_of_lookup_2 _ _ _ Hi)) as (_ & Hfe & _). cbn [snd] in Hfe.
  unfold sst_iterator. rewrite Hdata. simpl_bind.
  assert (ResolveDeltaView L None (Z.of_nat p) fid = None) as -> by (unfold ResolveDeltaView; by destruct (_ <? _)).
  cbn [overlay property_data edge_data]. rewrite Nat2Z.id, list_lookup_fmap, lookup_seq_lt by done.
  cbn [fmap option_fmap option_map default]. change EDGEBODY_SIZE with 16 in *.
  unfold assert_. rewrite (proj2 (Z.leb_le _ _)), andb_false_r by lia. simpl_bind.
  unfold GetEdgeOrdinalFromBodyOffset. change EDGEBODY_SIZE with 16. rewrite Z.mul_comm, Z_mod_mult, Z.div_mul by done. cbn [Z.eqb]. simpl_bind.
  unfold GetSubPropertyOffsetByEdgeOrdinal. fold (slot_len fl tls p). unfold u64, u32.
  rewrite !(wrap_small 64), !(wrap_small 32) by (unfold fits; nia).
  replace ((16 * (k + zlen es) - k * 16) / 16) with (zlen (body_list fl tls k es)).
  2:{ unfold zlen. rewrite body_list_length. apply Z.div_unique with 0; unfold zlen; lia. }
  assert (yields (Z.of_nat p) (ItSst (mkSstIt (ref_file fl tls vs fid) (k * 16) (ref_column fl tls vs (0 + p))
    (zlen (body_list fl tls k es)) (k * 16) (k * slot_len fl tls p) (slot_len fl tls p))) (version_entry p <$> es)) as Hy.
  { rewrite <- (zip_entries es k Hfe Hst). apply sst_yields.
    - lia.
    - nia.
    - by rewrite length_fmap, body_list_length.
    - unfold zlen. rewrite body_list_length. unfold zlen in *. nia.
    - intros j b Hb. destruct (es !! j) as [x|] eqn:Hj.
      + destruct (image_body A B src es fid j x Hfe Hj) as (b' & Hb' & Hat). rewrite <- Evs in Hat. fold k in Hb', Hat.
        rewrite Hb in Hb'. injection Hb' as <-. rewrite <- Hat. f_equal. change EDGEBODY_SIZE with 16. lia.
      + apply lookup_lt_Some in Hb. rewrite body_list_length in Hb. apply lookup_ge_None in Hj. lia.
    - intros j s Hs. rewrite list_lookup_fmap in Hs. destruct (es !! j) as [x|] eqn:Hj; [|done]. injection Hs as <-.
      replace (k * slot_len fl tls p + slot_len fl tls p * Z.of_nat j) with (Z.of_nat (length (all_edges A) + j) * slot_len fl tls p)
        by (unfold k, zlen; lia).
      apply read_slot; [lia|]. rewrite Eall, lookup_app_r by lia.
      replace (length (all_edges A) + j - length (all_edges A))%nat with j by lia. by apply lookup_app_l_Some. }
  cbn [Nat.add id] in Hy |- *. rewrite (yields_valid _ _ _ Hy). case_bool_decide as Hne.
  - eexists _, [_]. split; [done|]. split; [constructor; [exact Hy|constructor]|]. cbn [concat]. by rewrite app_nil_r.
  - exists [], []. split; [done|]. split; [done|]. by rewrite Hne.
Qed.

Lemma run_edges r src :
  run_repr debug L reserve_node max_v r -> in_order (run_ops r) -> Forall (op_ok L max_v p) (run_ops r) ->
  source_edges src (run_vs r) ≡ₚ edges_of src (run_ops r).
Proof.
  intros Hr Ho Hf. destruct (run_contents debug L reserve_node max_v p r Hr Ho Hf) as (Hkeys & Hperm).
  unfold source_edges. destruct (list_find (fun v => v.1 = src) (run_vs r)) as [[i v]|] eqn:Ei.
  - apply list_find_Some in Ei as (Hi & <- & _). by apply Hperm, list_elem_of_lookup_2 with i.
  - destruct (edges_of src (run_ops r)) as [|e es] eqn:E; [done|]. exfalso. apply list_find_None in Ei.
    assert (src ∈ (run_vs r).*1) as (v & -> & Hin)%list_elem_of_fmap; [|rewrite Forall_forall in Ei; by apply (Ei v)].
    rewrite Hkeys. apply list_elem_of_filter. unfold present. rewrite E. split; [done|].
    assert (e ∈ edges_of src (run_ops r)) as (op & -> & [<- Hop]%list_elem_of_filter)%list_elem_of_fmap by (rewrite E; left).
    rewrite Forall_forall in Hf. destruct (Hf op Hop) as (_ & _ & Hr' & _). apply elem_of_seqZ. lia.
Qed.

(** The iterator over a source of a flushed file yields its versions. *)
Lemma run_iterator r src :
  run_repr debug L reserve_node max_v r -> in_order (run_ops r) -> Forall (op_ok L max_v p) (run_ops r) ->
  0 <= src < max_v ->
  exists its ess, find_iterator_sst debug L None src (Z.of_nat p) (run_cache r) = Some its /\
    Forall2 (yields (Z.of_nat p)) its ess /\ concat ess = version_entry p <$> source_edges src (run_vs r).
Proof.
  intros Hr Ho Hf Hsrc. pose proof (run_edges r src Hr Ho Hf) as Hperm.
  destruct (run_input debug L reserve_node max_v p Hv r Hr Ho Hf) as [Hin _].
  destruct Hr as (_ & (_ & [_ Hsizes] & _) & Hsz & Hdata). unfold find_iterator_sst, source_range, source_edges in *.
  cbn [run_cache cache_indexes cache_header ref_header timeStamp].
  destruct (list_find (fun v => v.1 = src) (run_vs r)) as [[i [vid es]]|] eqn:Ei; cbn [snd] in *.
  - apply list_find_Some in Ei as (Hi & Hs & _). cbn [fst] in Hs. subst vid.
    destruct (image_range _ _ _ _ Hin Hi) as (-> & Hb & y & Hy & Ey).
    simpl_bind. rewrite (proj2 (Z.ltb_ge _ _)), Nat2Z.id, Hb by lia. simpl_bind.
    replace (Z.to_nat (Z.of_nat i + 1)) with (S i) by lia. rewrite Hy. simpl_bind. cbn [ix_offset]. rewrite Ey.
    apply (image_iterator (run_vs r)); [done|done|done|by apply Hsizes| |done].
    rewrite Hperm. rewrite Forall_forall in Hf. apply Forall_forall.
    intros x (op & -> & [_ Hop]%list_elem_of_filter)%list_elem_of_fmap. by apply Hf.
  - apply list_find_None in Ei. rewrite get_first by (by apply ref_indexes_sorted).
    destruct (list_find _ (ref_indexes (run_vs r))) as [[i x]|] eqn:E; [exfalso|by exists [], []].
    apply list_find_Some in E as (Hi & Hk & _).
    destruct (ref_indexes_key _ _ _ Hi) as [Hinv|(v & Hv' & E)]; [lia|].
    rewrite Forall_forall in Ei. apply (Ei v Hv'). congruence.
Qed.

Lemma level0_scan runs src seq_ :
  Forall (fun r => run_repr debug L reserve_node max_v r /\ in_order (run_ops r) /\
                   Forall (op_ok L max_v p) (run_ops r)) runs ->
  Forall (fun r => run_start r < seq_ /\ 0 <= run_fid r) runs -> 0 <= src < max_v ->
  exists its ess, level0_iterators debug L None src (Z.of_nat p) seq_ 0 (run_cache <$> runs) = Some its /\
    Forall2 (yields (Z.of_nat p)) its ess /\ concat ess ≡ₚ version_entry p <$> edges_of src (runs_ops runs).
Proof.
  intros Hr Hst Hsrc. induction Hr as [|r runs (Hr & Ho & Hf) Hruns IH]; [by exists [], []|].
  apply Forall_cons in Hst as [[Hs Hfid] Hst]. destruct (IH Hst) as (its & ess & E & Hy & Hc). clear IH.
  assert (edges_of src (runs_ops (r :: runs)) = edges_of src (runs_ops runs) ++ edges_of src (run_ops r)) as ->.
  { unfold runs_ops. cbn [fmap list_fmap]. rewrite reverse_cons, concat_app. cbn [concat]. rewrite app_nil_r.
    unfold edges_of. by rewrite filter_app, fmap_app. }
  pose proof (fmap_Permutation (version_entry p) _ _ (run_edges r src Hr Ho Hf)) as Hperm.
  enough (exists its' ess', level0_iterators debug L None src (Z.of_nat p) seq_ 0 (run_cache <$> r :: runs) = Some its' /\
    Forall2 (yields (Z.of_nat p)) its' ess' /\
    concat ess' ≡ₚ concat ess ++ (version_entry p <$> source_edges src (run_vs r))) as (its' & ess' & ? & ? & Hc').
  { exists its', ess'. split_and!; [done|done|]. rewrite fmap_app. etrans; [exact Hc'|]. by apply Permutation_app. }
  cbn [fmap list_fmap level0_iterators]. cbn [run_cache cache_seq cache_header ref_header timeStamp].
  rewrite (proj2 (Z.leb_gt _ _) Hs), (proj2 (Z.leb_le _ _) Hfid). cbn [negb andb].
  destruct (in_key_range src (run_cache r)) eqn:Ek.
  - destruct (run_iterator r src Hr Ho Hf Hsrc) as (its1 & ess1 & -> & Hy1 & Hc1). simpl_bind. rewrite E. simpl_bind.
    exists (its1 ++ its), (ess1 ++ ess). split_and!; [done|by apply Forall2_app|].
    rewrite concat_app, Hc1. apply Permutation_app_comm.
  - exists its, ess. split_and!; [done|done|]. replace (source_edges src (run_vs r)) with (@nil Edge); [by rewrite app_nil_r|].
    unfold source_edges. destruct (list_find _ (run_vs r)) as [[i v]|] eqn:Ei; [|done]. exfalso.
    apply list_find_Some in Ei as (Hi & <- & _).
    destruct (run_input debug L reserve_node max_v p Hv r Hr Ho Hf) as [Hin _].
    rewrite (source_in_range r v Hin) in Ek; [done|by eapply list_elem_of_lookup_2].
Qed.

Lemma NB_iterate_repr nb es : nb_repr debug reserve_node nb es -> exists es', NB_iterate nb = Some es' /\ es' ≡ₚ es.
Proof.
  unfold nb_repr, NB_iterate. destruct (full_ nb); cbn [negb].
  - intros (sl & -> & Hr). exists (stable_sort edge_less (reverse es)). simpl_bind. rewrite (iterate_repr _ _ _ Hr).
    split; [done|]. by rewrite stable_sort_perm, reverse_Permutation.
  - intros [-> _]. by exists es.
Qed.

Lemma start_time_kept ops m m' :
  Mem_put_edges debug reserve_node m ops = Some m' -> start_time_ m' = start_time_ m.
Proof.
  revert m. induction ops as [|[[src e] draws] ops IH]; intros m; cbn [Mem_put_edges]; [by intros [= ->]|].
  destruct (Mem_put_edge debug reserve_node m src e draws) as [m1|] eqn:E; simpl_bind; [|done]. intros Hm.
  rewrite (IH _ Hm). unfold Mem_put_edge in E.
  destruct (NB_put_edge _ _ _ _ _) as [nb|]; simpl_bind in E; [|done].
  destruct (assert_ _ _); simpl_bind in E; [|done]. by injection E as <-.
Qed.

Lemma memtable_iterators_app m tables src seq_ :
  memtable_iterators L None src (Z.of_nat p) seq_ (m :: tables) =
  (a ← memtable_iterators L None src (Z.of_nat p) seq_ [m]; b ← memtable_iterators L None src (Z.of_nat p) seq_ tables; Some (a ++ b)).
Proof.
  cbn [memtable_iterators]. destruct (seq_ <=? start_time_ m); [by destruct (memtable_iterators _ _ _ _ _ tables)|].
  destruct (Mem_begin (vertex_adjs m !! src)) as [it|]; [|done]. simpl_bind.
  destruct (memtable_iterators _ _ _ _ _ tables); [|by destruct (Mem_valid it)]. by destruct (Mem_valid it).
Qed.

Lemma table_scan m ops src seq_ :
  mem_repr debug reserve_node m ops -> start_time_ m < seq_ ->
  exists its ess, memtable_iterators L None src (Z.of_nat p) seq_ [m] = Some its /\
    Forall2 (yields (Z.of_nat p)) its ess /\ concat ess ≡ₚ version_entry p <$> edges_of src ops.
Proof.
  intros (Hadj & _) Hs. cbn [memtable_iterators]. rewrite (proj2 (Z.leb_gt _ _) Hs). specialize (Hadj src).
  destruct (vertex_adjs m !! src) as [nb|]; [|rewrite Hadj; by exists [], []]. destruct Hadj as [_ Hr].
  destruct (NB_iterate_repr nb _ Hr) as (es & Ei & Hperm).
  destruct (mem_yields (Z.of_nat p) nb es Ei) as (it & -> & Hy). simpl_bind.
  assert (ResolveDeltaView L None (Z.of_nat p) (fid_ m) = None) as -> by (unfold ResolveDeltaView; by destruct (_ <? _)).
  cbn [overlay]. change (Mem_valid it) with (valid (ItMem it)). rewrite (yields_valid _ _ _ Hy).
  assert (mem_entry (Z.of_nat p) <$> es = version_entry p <$> es) as Ee
    by (apply list_fmap_ext; intros; apply mem_entry_version).
  rewrite Ee in Hy |- *. apply (fmap_Permutation (version_entry p)) in Hperm. case_bool_decide as Hne.
  - eexists [_], [_]. split; [done|]. split; [constructor; [exact Hy|constructor]|]. cbn [concat]. by rewrite app_nil_r.
  - exists [], []. split; [done|]. split; [done|]. by rewrite <- Hperm, Hne.
Qed.

Lemma tables_scan (tables : list (MemTable * list Op)) src seq_ :
  Forall (fun t => mem_repr debug reserve_node t.1 t.2 /\ start_time_ t.1 < seq_) tables ->
  exists its ess, memtable_iterators L None src (Z.of_nat p) seq_ tables.*1 = Some its /\
    Forall2 (yields (Z.of_nat p)) its ess /\ concat ess ≡ₚ version_entry p <$> edges_of src (concat tables.*2).
Proof.
  induction 1 as [|[m ops] tables [Hm Hs] _ (its & ess & E & Hy & Hc)]; [by exists [], []|].
  destruct (table_scan m ops src seq_ Hm Hs) as (its1 & ess1 & E1 & Hy1 & Hc1).
  exists (its1 ++ its), (ess1 ++ ess). split_and!; [|by apply Forall2_app|].
  - cbn [fmap list_fmap fst]. by rewrite memtable_iterators_app, E1, E.
  - cbn [fmap list_fmap snd concat]. rewrite concat_app, Hc1, Hc, edges_of_app, fmap_app. done.
Qed.
End History.

Lemma no_level_iterators `{StdHash} debug L store src pid max_level :
  max_level <= MAX_LEVEL ->
  find_iterator_sst_by_levelindex debug L store src pid empty_index (seqZ 0 (max_level - 1)) = Some [].
Proof.
  intros Hm. assert (forall ids, Forall (fun id => 0 <= id < LEVEL_INDEX_SIZE) ids ->
    find_iterator_sst_by_levelindex debug L store src pid empty_index ids = Some []) as Hids.
  { induction 1 as [|id ids Hid _ IH]; [done|]. cbn [find_iterator_sst_by_levelindex].
    assert (level_range debug empty_index id = Some None) as ->; [|exact IH].
    unfold LEVEL_INDEX_SIZE, MAX_LEVEL in Hid. assert (id = 0 \/ id = 1 \/ id = 2 \/ id = 3) as Hcases by lia.
    by destruct Hcases as [-> | [-> | [-> | ->] ] ]. }
  apply Hids, Forall_forall. intros id Hid%elem_of_seqZ. unfold LEVEL_INDEX_SIZE. lia.
Qed.

Lemma filter_versions p seq_ is_out ty (es : list Edge) :
  0 < seq_ ->
  filter (accepted seq_ is_out ty) (version_entry p <$> es)
  = version_entry p <$> filter (fun e => e_is_out e = is_out /\ e_edge_type e = ty) es.
Proof.
  intros Hs. induction es as [|e es IH]; [done|]. cbn [fmap list_fmap]. rewrite !filter_cons.
  destruct (decide (e_is_out e = is_out /\ e_edge_type e = ty)) as [[H1 H2]|Hn].
  - rewrite decide_True by (split_and!; [done|done|by left]). cbn [fmap list_fmap]. by rewrite IH.
  - rewrite decide_False; [done|]. intros (H1 & H2 & _). by apply Hn.
Qed.

Lemma concat_reverse_perm {A} (ls : list (list A)) : concat (reverse ls) ≡ₚ concat ls.
Proof.
  induction ls as [|l ls IH]; [done|]. rewrite reverse_cons, concat_app. cbn [concat]. rewrite app_nil_r, IH.
  apply Permutation_app_comm.
Qed.

(** The scan of tables over flushed files. *)
Lemma store_scan `{StdHash} debug L reserve_node max_v p runs tables src is_out ty seq_ max_level fuel :
  (p < length (sub_property_lengths_ L))%nat -> 0 < slot_len (process_flags L) (merge_layout L) p < 1024 ->
  0 <= max_v < kInvalidVertexId -> 0 <= src < max_v ->
  let ops := runs_ops runs ++ concat tables.*2 in
  in_order (runs_ops runs) -> Forall (op_ok L max_v p) (runs_ops runs) ->
  Forall (run_repr debug L reserve_node max_v) runs ->
  Forall (fun t => mem_repr debug reserve_node t.1 t.2 /\ start_time_ t.1 < seq_) tables ->
  0 < seq_ -> Forall (fun r => run_start r < seq_ /\ 0 <= run_fid r) runs -> max_level <= MAX_LEVEL ->
  (max_level < 0 -> edges_of src ops = []) -> (max_level < 1 -> edges_of src (runs_ops runs) = []) ->
  (length (edges_of src ops) <= fuel)%nat ->
  exists d entries,
    Get_Edges debug L None src (Z.of_nat p) seq_ (mkSnap tables.*1 (run_cache <$> runs) empty_index) max_level is_out ty fuel = Some d /\
    scan debug seq_ is_out ty (Z.of_nat p) fuel d = Some entries /\
    entries ≡ₚ version_entry p <$> filter (fun e => e_is_out e = is_out /\ e_edge_type e = ty) (edges_of src ops).
Proof.
  intros Hp Hw Hv Hsrc ops Ho Hf Hr Ht Hseq Hst Hml Hml0 Hml1 Hfuel.
  destruct (tables_scan debug L reserve_node p tables src seq_ Ht) as (its1 & ess1 & E1 & Hy1 & Hc1).
  assert (Forall (fun r => run_repr debug L reserve_node max_v r /\ in_order (run_ops r) /\
    Forall (op_ok L max_v p) (run_ops r)) runs) as Hruns
    by (rewrite !Forall_and; split_and!; [done|by apply runs_order|by apply runs_forall]).
  destruct (level0_scan debug L reserve_node max_v p Hp Hw Hv runs src seq_ Hruns Hst Hsrc) as (its2 & ess2 & E2 & Hy2 & Hc2).
  set (ess := if max_level <? 0 then [] else ess1 ++ (if 1 <=? max_level then ess2 else [])).
  assert (concat ess ≡ₚ version_entry p <$> edges_of src ops) as Hall.
  { unfold ess. destruct (Z.ltb_spec max_level 0) as [Hn|_]; [by rewrite Hml0|].
    unfold ops. rewrite edges_of_app, fmap_app, concat_app, Hc1. destruct (Z.leb_spec 1 max_level) as [_|Hn]; [rewrite Hc2; apply Permutation_app_comm|].
    rewrite Hml1 by done. by rewrite app_nil_r. }
  destruct (scan_sources debug L None (mkSnap tables.*1 (run_cache <$> runs) empty_index) src (Z.of_nat p) seq_ max_level is_out ty
    (if max_level <? 0 then [] else its1 ++ (if 1 <=? max_level then its2 else [])) ess fuel) as (d & Ed & Es).
  - unfold sources. destruct (max_level <? 0); [done|].
    cbn [snap_tables snap_level0 snap_findex]. rewrite E1. simpl_bind. change (min_level_0_fid empty_index) with 0. rewrite E2.
    rewrite no_level_iterators by lia. destruct (1 <=? max_level), (2 <=? max_level); simpl_bind; by rewrite ?app_nil_r.
  - unfold ess. destruct (max_level <? 0); [done|]. apply Forall2_app; [done|]. by destruct (1 <=? max_level).
  - rewrite Hall, length_fmap. done.
  - exists d, (filter (accepted seq_ is_out ty) (concat (reverse ess))). split_and!; [done|done|].
    rewrite concat_reverse_perm, Hall. by rewrite filter_versions.
Qed.

(** a scan returns the whole history of a source. Take any history of
    insertions and deletions whose writes of each source are in sequence order, the older part flushed to level-0
    files and the rest in the active MemTable. The scan of a source at a positive
    sequence newer than its tables terminates within the number of versions of
    the source, and reports every version of the requested direction and type
    exactly once, deletion markers and superseded versions included, each with
    its destination, sequence, marker and requested property field. *)
Theorem scan_returns_history `{StdHash} debug L reserve_node capacity max_v lv p runs ops src is_out ty seq_ max_level fuel :
  (p < length (sub_property_lengths_ L))%nat -> 0 < slot_len (process_flags L) (merge_layout L) p < 1024 ->
  0 <= reserve_node -> 0 <= max_v < kInvalidVertexId -> 0 <= src < max_v -> zlen ops <= capacity ->
  in_order (runs_ops runs ++ ops) -> Forall (op_ok L max_v p) (runs_ops runs ++ ops) ->
  Forall (run_ok debug L reserve_node capacity max_v lv) runs ->
  0 < seq_ -> Forall (fun r => run_start r < seq_ /\ 0 <= run_fid r) runs -> 1 <= max_level <= MAX_LEVEL ->
  (length (edges_of src (runs_ops runs ++ ops)) <= fuel)%nat ->
  exists m d entries, Mem_put_edges debug reserve_node (new_memtable capacity lv) ops = Some m /\
    Get_Edges debug L None src (Z.of_nat p) seq_ (mkSnap [m] (run_cache <$> runs) empty_index) max_level is_out ty fuel = Some d /\
    scan debug seq_ is_out ty (Z.of_nat p) fuel d = Some entries /\
    entries ≡ₚ version_entry p <$> filter (fun e => e_is_out e = is_out /\ e_edge_type e = ty) (edges_of src (runs_ops runs ++ ops)).
Proof.
  intros Hp Hw H0 Hv Hsrc Hc Ho Hf Hr Hseq Hst Hml Hfuel. destruct (in_order_app _ _ Ho) as [Ho1 Ho2].
  apply Forall_app in Hf as [Hf1 Hf2].
  destruct (Mem_put_edges_repr debug reserve_node ops (new_memtable capacity lv) []) as (m & E & Hm);
    [done|apply new_memtable_repr|done|intros _ s; by apply in_order_distinct|]. cbn [app] in Hm.
  destruct (store_scan debug L reserve_node max_v p runs [(m, ops)] src is_out ty seq_ max_level fuel) as (d & es & Ed & Es & Hp');
    cbn [fmap list_fmap concat fst snd]; rewrite ?app_nil_r; try done.
  - by eapply runs_repr.
  - apply Forall_singleton. split; [done|]. cbn [fst]. by rewrite (start_time_kept _ _ _ _ _ E).
  - lia.
  - lia.
  - lia.
  - cbn [fmap list_fmap concat fst snd] in Hp'. rewrite app_nil_r in Hp'. by exists m, d, es.
Qed.

Lemma sample_runs_ok `{StdHash} : Forall (run_ok true history_columns 2 8 8 ∅) sample_runs.
Proof.
  constructor; [|constructor; [|constructor]];
    (split_and!; [match goal with |- exists m, Mem_put_edges _ _ _ (run_ops (mkRun _ _ ?ops _)) = _ /\ _ => exists (table_of ops) end;
                  split; vm_compute; reflexivity|..|eval_prop|eval_prop|vm_compute; reflexivity]).
  all: split_and!; [vm_compute; discriminate| |eval_prop]; split; [eval_prop|]; intros [|q] Hq; [eval_prop|].
  all: change (length (sub_property_lengths_ history_columns)) with 1%nat in Hq; lia.
Qed.

(** Both versions of the edge 1 -> 7 and both records of 1 -> 9 are reported. *)
Lemma scan_returns_history_witness :
  let H : StdHash := fun z => z in
  exists m d entries, Mem_put_edges true 2 (new_memtable 8 ∅) active_ops = Some m /\
    Get_Edges true history_columns None 1 0 kMaxSequence (mkSnap [m] (run_cache <$> sample_runs) empty_index) 1 true 1 9 = Some d /\
    scan true kMaxSequence true 1 0 9 d = Some entries /\
    entries ≡ₚ [mkEntry 7 1 false true 1 [byte_of 65]; mkEntry 7 3 false true 1 [byte_of 66];
                mkEntry 9 4 false true 1 [byte_of 68]; mkEntry 9 5 true true 1 []].
Proof.
  intros H.
  apply (scan_returns_history true history_columns 2 8 8 ∅ 0 sample_runs active_ops 1 true 1 kMaxSequence 1 9);
    [eval_prop|eval_prop|eval_prop|eval_prop|eval_prop|eval_prop|apply sorted_in_order; repeat constructor|eval_prop|exact sample_runs_ok|eval_prop|
     eval_prop|eval_prop|eval_prop].
Defined.
