(* ===== verification/DelRecords.v ===== *)
(** * Deletion records

    core/del_record_manage.h: per file, the time at which each edge id was
    deleted.  [tbb::concurrent_hash_map::insert] keeps an existing entry; one
    call is one atomic step.  The inner maps are owned by the manager and never
    replaced, so a pointer to one is its file id. *)

From S2P Require Import Prelude.
From S2P Require Import Types.

Abbreviation EidToTimeMap := (gmap Z Z).
Record DelRecordManage := mkDel { fidMap : gmap Z EidToTimeMap }.
Definition no_records : DelRecordManage := mkDel ∅.

Definition records_size (d : DelRecordManage) : Z := Z.of_nat (size (fidMap d)).

(** [insert(std::make_pair(eid, time))] *)
Definition insert_absent (m : EidToTimeMap) (eid time : Z) : EidToTimeMap :=
  match m !! eid with Some _ => m | None => <[eid := time]> m end.

Definition put_fid_and_record (d : DelRecordManage) (fid eid time : Z) : DelRecordManage :=
  mkDel (<[fid := insert_absent (default ∅ (fidMap d !! fid)) eid time]> (fidMap d)).

(** [None] when the file has no records. *)
Definition find_eidmap (d : DelRecordManage) (fid : Z) : option EidToTimeMap :=
  m ← fidMap d !! fid; if bool_decide (size m = 0%nat) then None else Some m.

Definition get_time (m : EidToTimeMap) (eid : Z) : option Z := m !! eid.

(** [del_eid_frome_eidmap] on the map of [fid]. *)
Definition del_eid (d : DelRecordManage) (fid eid : Z) : DelRecordManage := mkDel (alter (delete eid) fid (fidMap d)).

(** The deletion time a reader of a file sees for an edge. *)
Definition deleted_at (d : DelRecordManage) (fid eid : Z) : option Z := m ← find_eidmap d fid; get_time m eid.

Fixpoint put_all (d : DelRecordManage) (rs : list (Z * Z * Z)) : DelRecordManage :=
  match rs with [] => d | (fid, eid, time) :: rs => put_all (put_fid_and_record d fid eid time) rs end.

Lemma deleted_at_lookup d fid eid : deleted_at d fid eid = m ← fidMap d !! fid; m !! eid.
Proof.
  unfold deleted_at, find_eidmap, get_time. destruct (fidMap d !! fid) as [m|]; [|done]. simpl_bind.
  case_bool_decide as Hs; [|done]. apply map_size_empty_iff in Hs as ->. done.
Qed.

Lemma deleted_at_put d fid eid time fid' eid' :
  deleted_at (put_fid_and_record d fid eid time) fid' eid' =
  match deleted_at d fid' eid' with
  | Some t => Some t
  | None => if decide (fid' = fid /\ eid' = eid) then Some time else None
  end.
Proof.
  rewrite !deleted_at_lookup. unfold put_fid_and_record, insert_absent. cbn [fidMap].
  destruct (decide (fid' = fid)) as [->|Hf].
  - rewrite lookup_insert_eq. simpl_bind. destruct (fidMap d !! fid) as [m|]; cbn [default from_option id]; simpl_bind.
    + destruct (m !! eid) as [t|] eqn:E.
      * destruct (m !! eid') eqn:E'; [done|]. rewrite decide_False; [done|]. intros [_ ->]. congruence.
      * destruct (decide (eid' = eid)) as [->|He].
        -- rewrite lookup_insert_eq, E, decide_True; done.
        -- rewrite lookup_insert_ne, decide_False by (congruence || tauto). by destruct (m !! eid').
    + rewrite lookup_empty. destruct (decide (eid' = eid)) as [->|He].
      * rewrite lookup_insert_eq, decide_True; done.
      * rewrite lookup_insert_ne, decide_False by (congruence || tauto). done.
  - rewrite lookup_insert_ne by congruence. rewrite decide_False by tauto.
    destruct (fidMap d !! fid') as [m|]; simpl_bind; [|done]. by destruct (m !! eid').
Qed.

(** The first deletion of an edge is the one that counts: whatever is recorded
    later for the same file and edge, readers see the first time; and removing
    a record hides exactly that edge. *)
Theorem first_deletion_wins rs fid eid :
  deleted_at (put_all no_records rs) fid eid = snd <$> (snd <$> list_find (fun r => r.1 = (fid, eid)) rs) /\
  forall eid', deleted_at (del_eid (put_all no_records rs) fid eid) fid eid' =
    if decide (eid' = eid) then None else deleted_at (put_all no_records rs) fid eid'.
Proof.
  split.
  - enough (forall d, deleted_at (put_all d rs) fid eid =
      match deleted_at d fid eid with Some t => Some t | None => snd <$> (snd <$> list_find (fun r => r.1 = (fid, eid)) rs) end) as He
      by (rewrite He, deleted_at_lookup; done).
    induction rs as [|[[f q] t] rs IH]; intros d; cbn [put_all list_find]; [by destruct (deleted_at d fid eid)|].
    rewrite IH, deleted_at_put. destruct (deleted_at d fid eid); [done|]. cbn [fst].
    destruct (decide (fid = f /\ eid = q)) as [[-> ->]|Hne]; [by rewrite decide_True by done|].
    rewrite decide_False by (intros [= -> ->]; by apply Hne). by destruct (list_find _ rs) as [[]|].
  - intros eid'. rewrite !deleted_at_lookup. unfold del_eid. cbn [fidMap]. rewrite lookup_alter_eq.
    destruct (fidMap (put_all no_records rs) !! fid) as [m|]; cbn [fmap option_fmap option_map]; simpl_bind; [|by case_decide].
    case_decide as E; [subst; by rewrite lookup_delete_eq|by rewrite lookup_delete_ne].
Qed.
