(* ===== verification/LsmWrite.v ===== *)
(** * The write path of the LSM store

    [LSMStore::put_edge], [update_edge], [new_vertex], [InitVerticesUpTo],
    [ObserveTopologySequence], [get_newmemTable] and [recycle_memTable] of
    src/lsmstore.cpp, and the background flush of a full table
    ([MemTable::save2eSSTable_split_property] with its publication).  One writer
    thread; flushes of full tables are steps of their own, in any order.
    Compaction, which changes the level index, is modelled separately: here
    every index entry is the initial one.

    [None] is a wait (for a free table, for room in level 0), a failed assertion
    or a fatal exit of the flush. *)

From S2P Require Import Prelude.
From S2P Require Import Types.
From S2P Require Import Names.
From S2P Require Import DeltaFile.
From S2P Require Import DeltaStore.
From S2P Require Import PropertyLayout.
From S2P Require Import Sst.
From S2P Require Import SkipList.
From S2P Require Import NeighBors.
From S2P Require Import MemTable.
From S2P Require Import SstBuild.
From S2P Require Import DeltaMerge.
From S2P Require Import LevelIndex.
From S2P Require Import LsmRead.
From S2P Require Import EdgeIterators.

Record LSMStore := mkLsm {
  memTable_ : MemTable;
  immutables : list MemTable;             (** full tables waiting for their flush *)
  free_menTables : list MemTable;
  level0_files : list SSTableCache;       (** newest first *)
  lsm_data : gmap Z SstData;              (** [sstdata_manager_] *)
  vertex_levels : gmap Z Z;               (** [vertex_max_level_], shared by the tables *)
  currentTime : Z;
  global_seq : Z;
  next_topology_sequence_ : Z;
  vertex_id_ : Z;
  insertions : nat;                       (** how many edges were inserted *)
}.

(** ** Fields of a table *)
Definition set_remain (n : Z) (m : MemTable) : MemTable :=
  mkMem (vertex_adjs m) (listLength m) (src_vertex_num m) (max_edge_num m) n (newest_edge m) (vertex_max_level m)
    (fid_ m) (start_time_ m) (refs m) (islive m) (isflash m).
Definition share_levels (lv : gmap Z Z) (m : MemTable) : MemTable :=
  mkMem (vertex_adjs m) (listLength m) (src_vertex_num m) (max_edge_num m) (remain_capacity m) (newest_edge m) lv
    (fid_ m) (start_time_ m) (refs m) (islive m) (isflash m).
(** [SetStartTime], [SetLive(true)], [SetFid] *)
Definition start_table (fid start : Z) (m : MemTable) : MemTable :=
  mkMem (vertex_adjs m) (listLength m) (src_vertex_num m) (max_edge_num m) (remain_capacity m) (newest_edge m) (vertex_max_level m)
    fid start (refs m) true (isflash m).
Definition set_flash (m : MemTable) : MemTable :=
  mkMem (vertex_adjs m) (listLength m) (src_vertex_num m) (max_edge_num m) (remain_capacity m) (newest_edge m) (vertex_max_level m)
    (fid_ m) (start_time_ m) (refs m) (islive m) true.
Definition init_vertex_adjs (vid : Z) (m : MemTable) : MemTable :=
  mkMem (delete vid (vertex_adjs m)) (listLength m) (src_vertex_num m) (max_edge_num m) (remain_capacity m) (newest_edge m)
    (vertex_max_level m) (fid_ m) (start_time_ m) (refs m) (islive m) (isflash m).

(** ** Vertices *)
Definition init_vertex (vid : Z) (s : LSMStore) : LSMStore :=
  mkLsm (init_vertex_adjs vid (memTable_ s)) (init_vertex_adjs vid <$> immutables s) (init_vertex_adjs vid <$> free_menTables s)
    (level0_files s) (lsm_data s) (<[vid := -1]> (vertex_levels s)) (currentTime s) (global_seq s) (next_topology_sequence_ s)
    (vertex_id_ s) (insertions s).
Definition set_vertex_id (n : Z) (s : LSMStore) : LSMStore :=
  mkLsm (memTable_ s) (immutables s) (free_menTables s) (level0_files s) (lsm_data s) (vertex_levels s) (currentTime s)
    (global_seq s) (next_topology_sequence_ s) n (insertions s).

(** The recycling flag is ignored. *)
Definition new_vertex (s : LSMStore) : LSMStore * Z :=
  let vertex_id := vertex_id_ s in (init_vertex vertex_id (set_vertex_id (vertex_id + 1) s), vertex_id).

Definition InitVerticesUpTo (next_vertex_id : Z) (s : LSMStore) : LSMStore :=
  let current := vertex_id_ s in
  if next_vertex_id <=? current then s
  else set_vertex_id next_vertex_id (foldl (fun s vid => init_vertex vid s) s (seqZ current (next_vertex_id - current))).

(** ** Sequences *)
Definition observe (next sequence : Z) : Z :=
  if (sequence <? 0) || (sequence =? kMaxSequence) then next else Z.max next (sequence + 1).

Section Write.
Context `{StdHash} (debug : bool) (L : LsmColumns) (reserve_node : Z).
(** The outcomes of [rand] for the n-th insertion. *)
Context (draws : nat -> list Z).
(** The workers of a flush, the order their writes take effect in, and the
    bound on level 0. *)
Context (max_subcompactions : Z) (interleave : list (list Write) -> list Write) (level_0_max_sst_num_ : Z).

(** ** A new active table *)

(** [get_newmemTable] waits for the table at the front of the queue. *)
Definition get_newmemTable (s : LSMStore) : option (MemTable * list MemTable) :=
  match free_menTables s with
  | [] => None
  | table :: free =>
      if (isflash table || negb (islive table)) && (refs table =? 0)
      then t ← Mem_reset debug table; Some (t, free)
      else None
  end.

Definition rotate_table (s : LSMStore) : option LSMStore :=
  '(t, free) ← get_newmemTable s;
  let t := start_table (currentTime s) (global_seq s) t in
  Some (mkLsm t (immutables s ++ [memTable_ s]) free (level0_files s) (lsm_data s) (vertex_levels s) (currentTime s + 1)
    (global_seq s + max_edge_num t) (next_topology_sequence_ s) (vertex_id_ s) (insertions s)).

(** ** Insertion *)
Definition put_single (s : LSMStore) (src dst : Z) (payload : bytes) (is_out : bool) (edge_type explicit_seq : Z)
  : option LSMStore :=
  let marker := bool_decide (payload = str "~DELETED~") in
  let old_mem := memTable_ s in
  let remain := remain_capacity old_mem in
  if remain <=? 0 then None
  else
    let old_mem := share_levels (vertex_levels s) (set_remain (remain - 1) old_mem) in
    let id := max_edge_num old_mem - remain in
    let seq := if 0 <=? explicit_seq then explicit_seq else start_time_ old_mem + id in
    m ← Mem_put_edge debug reserve_node old_mem src (mkEdge dst seq marker payload is_out edge_type) (draws (insertions s));
    let s := mkLsm m (immutables s) (free_menTables s) (level0_files s) (lsm_data s) (vertex_max_level m) (currentTime s)
               (global_seq s) (observe (next_topology_sequence_ s) seq) (vertex_id_ s) (S (insertions s)) in
    if 1 <? remain then Some s else rotate_table s.

Definition put_edge (s : LSMStore) (src dst : Z) (payload : bytes) (insert_mode : EdgeInsertMode) (is_out : bool)
    (edge_type explicit_seq : Z) : option LSMStore :=
  match insert_mode with
  | kSingle => put_single s src dst payload is_out edge_type explicit_seq
  | kBidirectional =>
      s ← put_single s src dst payload is_out edge_type explicit_seq;
      put_single s dst src payload (negb is_out) edge_type explicit_seq
  end.

Definition update_edge (s : LSMStore) (src dst : Z) (payload : bytes) (mk : bool) (sq : Z) (is_out : bool) (edge_type : Z)
  : option LSMStore :=
  put_edge s src dst (if mk then str "~DELETED~" else payload) kSingle is_out edge_type sq.

(** ** The flush of a full table *)
Definition decode_indexes (n : nat) (buffer : bytes) : list Index :=
  (fun i => pod_decode (slice (Z.of_nat i * sizeof Index) (sizeof Index) buffer)) <$> seq 0 n.

(** The file of table [m]: topology, index, columns; the buffers are fresh. *)
Definition flush_file (fl : Flags) (tls : layout) (max_v : Z) (m : MemTable)
  : option (list (Z * list Edge) * Header * SstData) :=
  let zeros n := replicate (Z.to_nat n) (byte_of 0) in
  vs ← flush_input m (seqZ 0 max_v);
  let pnum := length (sub_property_lengths_ L) in
  plan ← plan_flush fl tls pnum max_subcompactions (fid_ m) (listLength m) (src_vertex_num m) vs;
  let ws := interleave (plan_workers plan) in
  efile ← exec EFile (ws ++ plan_final plan) (zeros (plan_size plan));
  packed ← exec Cache ws (zeros (sizeof Index * src_vertex_num m));
  cols ← mapM (fun p => exec (PFile p) ws (zeros (listLength m * slot_len fl tls p))) (seq 0 pnum);
  Some (vs, plan_header plan, mkSst (decode_indexes (Z.to_nat (src_vertex_num m)) packed ++ [plan_sentinel plan]) efile cols).

(** Level 0 stays sorted by file id, newest first. *)
Fixpoint insert_file (c : SSTableCache) (files : list SSTableCache) : list SSTableCache :=
  match files with
  | [] => [c]
  | f :: files => if timeStamp (cache_header f) <? timeStamp (cache_header c) then c :: f :: files else f :: insert_file c files
  end.

Definition raise_levels (sources : list Z) (lv : gmap Z Z) : gmap Z Z :=
  foldl (fun lv v => <[v := write_max (default 0 (lv !! v)) 1]> lv) lv sources.

(** The flush of a waiting table: its file, the publication on level 0, which
    waits while level 0 has [level_0_max_sst_num_] files (the limit at which the
    compactor starts), and the recycling of the table.  The compaction that the
    job schedules at its end is a step of its own, [Compact] of [LsmEngine]. *)
Definition flush_table (i : nat) (s : LSMStore) : option LSMStore :=
  m ← immutables s !! i;
  '(vs, header, data) ← flush_file (process_flags L) (merge_layout L) (vertex_id_ s) m;
  if level_0_max_sst_num_ <=? zlen (level0_files s) then None
  else
    Some (mkLsm (memTable_ s) (delete i (immutables s)) (free_menTables s ++ [set_flash m])
      (insert_file (mkCache header (start_time_ m) (sst_indexes data)) (level0_files s))
      (<[fid_ m := data]> (lsm_data s)) (raise_levels vs.*1 (vertex_levels s)) (currentTime s) (global_seq s)
      (next_topology_sequence_ s) (vertex_id_ s) (insertions s)).

(** ** Reads *)
Definition snapshot (s : LSMStore) : Snapshot := mkSnap (immutables s ++ [memTable_ s]) (level0_files s) empty_index.
Definition columns (s : LSMStore) : LsmColumns :=
  mkColumns (property_object_kind_ L) (property_shard_id_ L) (sub_property_lengths_ L) (dataDir L) (update_durability_ L)
    (lsm_data s) (process_flags L).

Definition store_get (s : LSMStore) (src dst pid : Z) (is_out : bool) (ty : Z) : option (Status * option bytes) :=
  GetEdge debug (columns s) None (snapshot s) src dst pid is_out ty.
Definition store_locate (s : LSMStore) (src dst : Z) (is_out : bool) (ty : Z) : option (Status * LSMEdgeLocation) :=
  LocateEdge debug (columns s) (snapshot s) src dst is_out ty.

(** [Get_Edges] at the latest sequence, driven to its end. *)
Definition store_scan_edges (s : LSMStore) (src pid : Z) (is_out : bool) (ty : Z) : option (list Entry) :=
  let fuel := insertions s in
  d ← Get_Edges debug (columns s) None src pid kMaxSequence (snapshot s) (default (-1) (vertex_levels s !! src)) is_out ty fuel;
  scan debug kMaxSequence is_out ty pid fuel d.
End Write.

(** [LSMStore::LSMStore] without data to load: [tables] tables of [capacity]. *)
Definition new_store (tables : nat) (capacity : Z) : LSMStore :=
  let m := new_memtable capacity ∅ in
  mkLsm (start_table 0 0 m) [] (replicate (tables - 1) m) [] ∅ ∅ 1 capacity 0 0 0.
