(* ===== verification/LsmWriteFacts.v ===== *)
(** * The write path keeps the history

    A store is described by its closed tables in the order they were filled,
    each flushed or waiting, and the edges of the active table.  Insertions add
    to that history; rotations and flushes, in any order, leave it as it is. *)

From S2P Require Import Prelude.
From S2P Require Import Types.
From S2P Require Import Names.
From S2P Require Import DeltaFile.
From S2P Require Import DeltaFileCreate.
From S2P Require Import DeltaStore.
From S2P Require Import PropertyLayout.
From S2P Require Import EdgeBody.
From S2P Require Import Sst.
From S2P Require Import SkipList.
From S2P Require Import SkipListFacts.
From S2P Require Import NeighBors.
From S2P Require Import MemTable.
From S2P Require Import SstBuild.
From S2P Require Import SstBuildFacts.
From S2P Require Import SstBuildTheorems.
From S2P Require Import MemTableFlush.
From S2P Require Import DeltaMerge.
From S2P Require Import LevelIndex.
From S2P Require Import LsmRead.
From S2P Require Import LsmHistory.
From S2P Require Import EdgeIterators.
From S2P Require Import LsmWrite.

(** ** Tables *)
Lemma present_in src ops : present ops src -> exists op, op ∈ ops /\ op.1.1 = src.
Proof.
  unfold present, edges_of. destruct (filter (fun op => op.1.1 = src) ops) as [|op l] eqn:E; [done|]. intros _. exists op.
  assert (op ∈ filter (fun op => op.1.1 = src) ops) as [? ?]%list_elem_of_filter by (rewrite E; left). done.
Qed.

Lemma edges_of_none src ops : (forall op, op ∈ ops -> op.1.1 <> src) -> edges_of src ops = [].
Proof. intros Hn. destruct (decide (edges_of src ops = [])) as [?|(op & Hop & E)%present_in]; [done|]. by apply Hn in Hop. Qed.

Lemma mem_repr_ext debug rn m m' ops :
  vertex_adjs m' = vertex_adjs m -> listLength m' = listLength m -> src_vertex_num m' = src_vertex_num m ->
  mem_repr debug rn m ops -> mem_repr debug rn m' ops.
Proof. unfold mem_repr. by intros -> -> ->. Qed.

(** Sources beyond the allocated vertices are absent. *)
Lemma flush_input_skip m ids : (forall id, id ∈ ids -> vertex_adjs m !! id = None) -> flush_input m ids = Some [].
Proof.
  induction ids as [|id ids IH]; intros Hn; [done|]. cbn [flush_input]. rewrite Hn by left. apply IH. intros; apply Hn. by right.
Qed.

Lemma flush_input_app m ids ids' vs :
  flush_input m ids = Some vs -> (forall id, id ∈ ids' -> vertex_adjs m !! id = None) -> flush_input m (ids ++ ids') = Some vs.
Proof.
  intros Hf Hn. revert vs Hf. induction ids as [|id ids IH]; intros vs; cbn [flush_input app].
  - intros [= <-]. by apply flush_input_skip.
  - destruct (vertex_adjs m !! id) as [nb|]; [|apply IH]. destruct (NB_iterate (NB_sort nb)) as [es|]; [|done]. simpl_bind.
    destruct (flush_input m ids) as [rest|]; [|done]. simpl_bind. intros [= <-]. by rewrite (IH rest).
Qed.

Lemma flush_input_more debug rn m ops n max_v vs :
  mem_repr debug rn m ops -> (forall op, op ∈ ops -> op.1.1 < n) -> 0 <= n <= max_v ->
  flush_input m (seqZ 0 n) = Some vs -> flush_input m (seqZ 0 max_v) = Some vs.
Proof.
  intros (Hadj & _) Hops Hn Hf. replace max_v with (n + (max_v - n)) by lia. rewrite seqZ_app by lia.
  apply flush_input_app; [done|]. intros id Hid%elem_of_seqZ. specialize (Hadj id).
  destruct (vertex_adjs m !! id) as [nb|]; [|done]. destruct Hadj as [Hne _]. exfalso. apply Hne.
  apply edges_of_none. intros op Hop. specialize (Hops op Hop). lia.
Qed.

(** ** The written index *)
Lemma decode_indexes_encode xs : Forall pod_ok xs -> decode_indexes (length xs) (concat (pod_encode <$> xs)) = xs.
Proof.
  intros Hok. apply list_eq. intros i. unfold decode_indexes. rewrite list_lookup_fmap.
  destruct (xs !! i) as [x|] eqn:Hx.
  - rewrite lookup_seq_lt by (by eapply lookup_lt_Some). cbn [fmap option_fmap option_map]. f_equal. rewrite Nat.add_0_l.
    change (concat (pod_encode <$> xs)) with (concat (map pod_encode xs)). rewrite (concat_pod_slice _ _ _ Hx).
    apply pod_decode_encode. rewrite Forall_lookup in Hok. by eapply Hok.
  - apply lookup_ge_None in Hx. rewrite lookup_seq_ge by lia. done.
Qed.

Lemma ref_index_bounds vs :
  flush_input_ok vs -> EDGEBODY_SIZE * zlen (all_edges vs) < 2 ^ 31 -> Forall pod_ok (ref_index 0 vs).
Proof.
  intros [_ Hf] Hsz. apply Forall_forall. intros x Hx.
  pose proof (ref_index_offsets vs 0 ltac:(done)) as Ho. rewrite Forall_forall in Ho. specialize (Ho x Hx).
  assert (ix_key x ∈ vs.*1) as Hk by (rewrite <- (ref_index_keys 0 vs); apply list_elem_of_fmap; by exists x).
  apply list_elem_of_fmap in Hk as (v & Ek & Hv). rewrite Forall_forall in Hf. destruct (Hf v Hv) as (H1 & H2 & _).
  cbn [pod_ok Index_pod]. change kInvalidVertexId with 281474976710655 in *. change (2 ^ 31) with 2147483648 in *.
  repeat constructor; rewrite ?Ek; try lia.
  all: first [change (2 ^ _) with 18446744073709551616; lia|change (2 ^ _) with 4294967296; lia].
Qed.

Lemma mapM_total {A B} (f : A -> option B) (g : A -> B) l : (forall x, x ∈ l -> f x = Some (g x)) -> mapM f l = Some (g <$> l).
Proof.
  induction l as [|x l IH]; intros Hf; [done|]. cbn [mapM]. rewrite Hf by left. simpl_bind. rewrite IH by (intros; apply Hf; by right). done.
Qed.

Section Facts.
Context `{StdHash} (debug : bool) (L : LsmColumns) (reserve_node capacity max_v : Z).
Context (draws : nat -> list Z) (max_subcompactions : Z) (interleave : list (list Write) -> list Write) (level_0_max_sst_num_ : Z).
Abbreviation fl := (process_flags L).
Abbreviation tls := (merge_layout L).
Abbreviation pnum := (length (sub_property_lengths_ L)).

(** The sizes a table of [capacity] edges needs, and the scheduler. *)
Record config_ok : Prop := {
  ok_reserve : 0 <= reserve_node;
  ok_capacity : 0 < capacity /\ EDGEBODY_SIZE * capacity < 2 ^ 31;
  ok_columns : forall p, (p < pnum)%nat -> 0 <= slot_len fl tls p /\ capacity * slot_len fl tls p < 2 ^ 32;
  ok_vertices : 0 <= max_v < kInvalidVertexId;
  ok_workers : 1 <= max_subcompactions;
  ok_interleave : forall ws, interleave ws ≡ₚ concat ws;
}.
Context (Hcfg : config_ok).

(** A write of an allocated vertex. *)
Definition op_in (n : Z) (op : Op) : Prop :=
  sequence op.1.2 < kMaxSequence /\ edge_fits op.1.2 /\ 0 <= op.1.1 < n.

Lemma sources_bound (ops : list Op) n (vs : list (Z * list Edge)) :
  vs.*1 = filter (present ops) (seqZ 0 n) -> zlen vs <= zlen ops.
Proof.
  intros Hk. assert (vs.*1 ⊆+ (fun op : Op => op.1.1) <$> ops) as Hs.
  { apply NoDup_submseteq; [rewrite Hk; apply NoDup_filter, NoDup_seqZ|]. intros v. rewrite Hk.
    intros [(op & Hop & <-)%present_in _]%list_elem_of_filter. apply list_elem_of_fmap. by exists op. }
  apply submseteq_length in Hs. rewrite !length_fmap in Hs. unfold zlen. lia.
Qed.

Lemma flush_file_spec m ops n :
  mem_repr debug reserve_node m ops -> in_order ops -> Forall (op_in n) ops -> 0 <= n <= max_v ->
  ops <> [] -> zlen ops <= capacity ->
  exists vs, flush_file L max_subcompactions interleave fl tls n m =
      Some (vs, ref_header vs (fid_ m), mkSst (ref_indexes vs) (ref_file fl tls vs (fid_ m)) (ref_column fl tls vs <$> seq 0 pnum)) /\
    flush_input m (seqZ 0 max_v) = Some vs /\ flushable fl tls pnum vs /\ EDGEBODY_SIZE * zlen (all_edges vs) < 2 ^ 31 /\
    vs.*1 = filter (present ops) (seqZ 0 n).
Proof.
  intros Hm Ho Hf Hn Hne Hc. destruct Hcfg as [_ [_ Hcap] Hcols Hv Hsub Hint].
  assert (0 <= n < kInvalidVertexId) as Hn' by lia.
  destruct (flush_input_spec debug reserve_node m ops Hm (fun src => in_order_distinct _ src Ho) (seqZ 0 n)) as (vs & Ev & Hk & Hvs).
  rewrite Forall_forall in Hvs. rewrite Forall_forall in Hf.
  assert (zlen (all_edges vs) = listLength m) as En by (by eapply (input_edges debug reserve_node m ops n)).
  assert (zlen vs = src_vertex_num m) as Es by (by eapply (input_sources debug reserve_node m ops n)).
  pose proof (input_ok ops n vs Hn' Hf Hk Hvs) as Hin. pose proof (sources_bound ops n vs Hk) as Hsb.
  assert (listLength m = zlen ops) as El by apply Hm.
  assert (flushable fl tls pnum vs) as Hfl.
  { split_and!.
    - intros ->. cbn in En. rewrite El in En. by destruct ops.
    - split; [rewrite En, El; change EDGEBODY_SIZE with 16 in *; lia|]. intros q Hq. destruct (Hcols q Hq). split; [done|]. rewrite En, El. nia.
    - change EDGEBODY_SIZE with 16 in *. lia. }
  assert (EDGEBODY_SIZE * zlen (all_edges vs) < 2 ^ 31) as Hsz by (rewrite En, El; change EDGEBODY_SIZE with 16 in *; lia).
  exists vs. split_and!; [|by eapply flush_input_more; [exact Hm|intros op Hop; apply Hf, Hop|..]|done|done|done].
  destruct (plan_image fl tls pnum vs (fid_ m) max_subcompactions Hfl Hsub) as (plan & Ep & Eh & Esn & Himg).
  destruct (Himg (interleave (plan_workers plan)) (Hint _)) as (He & Hx & Hcol).
  unfold flush_file. rewrite Ev. simpl_bind. rewrite <- En, <- Es, Ep. simpl_bind.
  assert (0 <= plan_size plan) as Hps.
  { destruct (plan_flush_spec fl tls pnum vs (fid_ m) Hfl max_subcompactions Hsub) as (plan' & Ep' & _ & _ & Esz & _).
    rewrite Ep in Ep'. injection Ep' as <-. rewrite Esz. apply zlen_nonneg. }
  assert (forall k, 0 <= k -> zlen (replicate (Z.to_nat k) (byte_of 0)) = k) as Hz by (intros; unfold zlen; rewrite length_replicate; lia).
  rewrite He by (by rewrite Hz). simpl_bind. rewrite Hx by (rewrite Hz; [done|change (sizeof Index) with 12; unfold zlen; lia]). simpl_bind.
  rewrite (mapM_total _ (ref_column fl tls vs)).
  2:{ intros q Hq%elem_of_seq. apply Hcol; [lia|]. apply Hz. destruct (Hcols q ltac:(lia)). pose proof (zlen_nonneg (all_edges vs)). nia. }
  simpl_bind. rewrite Eh, Esn. do 3 f_equal. unfold ref_indexes. f_equal.
  replace (Z.to_nat (zlen vs)) with (length (ref_index 0 vs)); [by apply decode_indexes_encode, ref_index_bounds|].
  rewrite <- (length_fmap ix_key), ref_index_keys, length_fmap. unfold zlen. lia.
Qed.

(** ** The invariant *)

(** A closed table: what was written to it, and the table while it waits. *)
Record Closed := mkClosed { c_run : Run; c_mem : option MemTable }.

Definition flushed (cs : list Closed) : list Run := omap (fun c => match c_mem c with None => Some (c_run c) | Some _ => None end) cs.
Definition closed_ops (cs : list Closed) : list Op := concat ((fun c => run_ops (c_run c)) <$> cs).

(** Both kinds of table accept no reader's reference in this model. *)
Definition waiting_ok (c : Closed) : Prop :=
  0 < zlen (run_ops (c_run c)) <= capacity /\ 0 <= run_fid (c_run c) /\
  match c_mem c with
  | None => True
  | Some m => mem_repr debug reserve_node m (run_ops (c_run c)) /\ fid_ m = run_fid (c_run c) /\
              start_time_ m = run_start (c_run c) /\ max_edge_num m = capacity /\ refs m = 0
  end.

Definition free_ok (m : MemTable) : Prop :=
  max_edge_num m = capacity /\ refs m = 0 /\ isflash m || negb (islive m) = true.

Record store_inv (s : LSMStore) (cs : list Closed) (ops : list Op) : Prop := {
  si_immutables : immutables s = omap c_mem cs;
  si_level0 : level0_files s = run_cache <$> reverse (flushed cs);
  si_flushed : Forall (run_repr debug (columns L s) reserve_node max_v) (flushed cs);
  si_closed : Forall waiting_ok cs;
  si_active : mem_repr debug reserve_node (memTable_ s) ops;
  si_capacity : max_edge_num (memTable_ s) = capacity /\ refs (memTable_ s) = 0 /\
    remain_capacity (memTable_ s) = capacity - zlen ops /\ zlen ops < capacity;
  si_free : Forall free_ok (free_menTables s);
  si_fids : StronglySorted Z.lt ((fun c => run_fid (c_run c)) <$> cs) /\
    Forall (fun c => run_fid (c_run c) < fid_ (memTable_ s)) cs /\ 0 <= fid_ (memTable_ s) < currentTime s;
  si_starts : Forall (fun c => 0 <= run_start (c_run c) < global_seq s) cs /\ 0 <= start_time_ (memTable_ s) < global_seq s;
  si_vertices : Forall (op_in (vertex_id_ s)) (closed_ops cs ++ ops) /\ 0 <= vertex_id_ s <= max_v;
  si_order : in_order (closed_ops cs ++ ops);
  si_levels : forall src, (present (closed_ops cs ++ ops) src -> 0 <= default (-1) (vertex_levels s !! src)) /\
    (present (concat (run_ops <$> flushed cs)) src -> 1 <= default (-1) (vertex_levels s !! src)) /\
    default (-1) (vertex_levels s !! src) <= 1;
  si_count : insertions s = length (closed_ops cs ++ ops);
  si_sequence : Forall (fun op => sequence op.1.2 < next_topology_sequence_ s) (closed_ops cs ++ ops);
}.

(** ** Insertion *)
Lemma in_order_snoc ops src e d :
  in_order ops -> (forall e', e' ∈ edges_of src ops -> sequence e' < sequence e) -> in_order (ops ++ [(src, e, d)]).
Proof.
  intros Ho He s. rewrite edges_of_snoc. case_decide as Hs; [|apply Ho]. subst s. unfold increasing.
  apply StronglySorted_app. split_and!; [|apply Ho|repeat constructor].
  intros x y Hx Hy%list_elem_of_singleton. subst y. by apply He.
Qed.

Lemma present_snoc ops src e d v : present (ops ++ [(src, e, d)]) v -> v = src \/ present ops v.
Proof. unfold present. rewrite edges_of_snoc. case_decide; [by left|by right]. Qed.

Lemma flushed_ops_present cs ops v : present (concat (run_ops <$> flushed cs)) v -> present (closed_ops cs ++ ops) v.
Proof.
  unfold present. intros Hp Hn. apply Hp. rewrite edges_of_app in Hn. apply app_eq_nil in Hn as [Hn _]. clear Hp.
  unfold closed_ops, flushed in *. induction cs as [|[r [m|]] cs IH]; [done|..]; cbn [fmap list_fmap omap list_omap concat c_mem c_run] in *;
    rewrite edges_of_app in *; apply app_eq_nil in Hn as [Hn1 Hn2]; [by apply IH|]. rewrite Hn1. by apply IH.
Qed.

(** What a put adds to the history. *)
Definition put_op (s : LSMStore) (src dst : Z) (payload : bytes) (is_out : bool) (ty seq : Z) : Op :=
  (src, mkEdge dst seq (bool_decide (payload = str "~DELETED~")) payload is_out ty, draws (insertions s)).

Lemma put_insert s cs ops src dst payload is_out ty seq :
  store_inv s cs ops -> 0 <= seq -> op_in (vertex_id_ s) (put_op s src dst payload is_out ty seq) ->
  (forall e, e ∈ edges_of src (closed_ops cs ++ ops) -> sequence e < seq) ->
  let m := memTable_ s in
  exists m', Mem_put_edge debug reserve_node (share_levels (vertex_levels s) (set_remain (remain_capacity m - 1) m)) src
      (mkEdge dst seq (bool_decide (payload = str "~DELETED~")) payload is_out ty) (draws (insertions s)) = Some m' /\
    mem_repr debug reserve_node m' (ops ++ [put_op s src dst payload is_out ty seq]) /\
    max_edge_num m' = capacity /\ refs m' = 0 /\ remain_capacity m' = remain_capacity m - 1 /\ fid_ m' = fid_ m /\ start_time_ m' = start_time_ m /\
    (vertex_max_level m' = vertex_levels s /\ present ops src \/
     vertex_max_level m' = <[src := Z.max (default 0 (vertex_levels s !! src)) 0]> (vertex_levels s)).
Proof.
  intros Hi Hseq Hop Hlt m. destruct Hi as [_ _ _ _ Hact (Hmax & Hrefs & Hrem & Hlen) _ _ _ _ Ho _ _ _].
  set (m0 := share_levels (vertex_levels s) (set_remain (remain_capacity m - 1) m)).
  set (e := mkEdge dst seq (bool_decide (payload = str "~DELETED~")) payload is_out ty).
  assert (mem_repr debug reserve_node m0 ops) as Hm0 by (by eapply mem_repr_ext; [..|exact Hact]).
  assert (in_order (ops ++ [(src, e, draws (insertions s))])) as Ho'.
  { apply in_order_snoc; [by apply in_order_app in Ho as [_ Ho]|]. intros e' He'. apply Hlt. rewrite edges_of_app. apply elem_of_app. by right. }
  destruct (Mem_put_edge_repr debug reserve_node m0 ops src e (draws (insertions s))) as (m' & E & Em & Hm').
  - apply Hcfg.
  - done.
  - destruct Hact as (_ & Hl & _). change (listLength m0) with (listLength m). change (max_edge_num m0) with (max_edge_num m).
    unfold m. rewrite Hl, Hmax. lia.
  - intros _. pose proof (in_order_distinct _ src Ho') as Hd. rewrite edges_of_snoc in Hd. by rewrite decide_True in Hd.
  - exists m'. split_and!; [exact E|exact Hm'|by rewrite Em|..].
    all: unfold Mem_put_edge in E; destruct (NB_put_edge _ _ _ _ _) as [nb|]; [|done]; simpl_bind in E;
      destruct (assert_ _ _); [|done]; simpl_bind in E; injection E as <-; try done.
    cbn [vertex_max_level]. case_bool_decide as Hf; [by right|]. left. split; [done|].
    destruct Hact as (Hadj & _). specialize (Hadj src). change (vertex_adjs m0) with (vertex_adjs m) in Hf. unfold m in Hf.
    destruct (vertex_adjs (memTable_ s) !! src); [|done]. apply Hadj.
Qed.

Lemma observe_above next seq : 0 <= seq < kMaxSequence -> observe next seq = Z.max next (seq + 1).
Proof. intros Hs. unfold observe. rewrite (proj2 (Z.ltb_ge _ _)), (proj2 (Z.eqb_neq _ _)) by lia. done. Qed.

Lemma closed_ops_app cs cs' : closed_ops (cs ++ cs') = closed_ops cs ++ closed_ops cs'.
Proof. unfold closed_ops. by rewrite fmap_app, concat_app. Qed.

(** The store between the insertion and the rotation. *)
Definition inserted (s : LSMStore) (m : MemTable) (seq : Z) : LSMStore :=
  mkLsm m (immutables s) (free_menTables s) (level0_files s) (lsm_data s) (vertex_max_level m) (currentTime s)
    (global_seq s) (observe (next_topology_sequence_ s) seq) (vertex_id_ s) (S (insertions s)).

(** The parts of the invariant that speak of the whole history. *)
Lemma put_history s cs ops m' src dst payload is_out ty seq :
  store_inv s cs ops -> 0 <= seq -> op_in (vertex_id_ s) (put_op s src dst payload is_out ty seq) ->
  (forall e, e ∈ edges_of src (closed_ops cs ++ ops) -> sequence e < seq) ->
  (vertex_max_level m' = vertex_levels s /\ present ops src \/
   vertex_max_level m' = <[src := Z.max (default 0 (vertex_levels s !! src)) 0]> (vertex_levels s)) ->
  let ops' := closed_ops cs ++ ops ++ [put_op s src dst payload is_out ty seq] in
  Forall (op_in (vertex_id_ s)) ops' /\ in_order ops' /\ S (insertions s) = length ops' /\
  Forall (fun op => sequence op.1.2 < observe (next_topology_sequence_ s) seq) ops' /\
  forall v, (present ops' v -> 0 <= default (-1) (vertex_max_level m' !! v)) /\
    (present (concat (run_ops <$> flushed cs)) v -> 1 <= default (-1) (vertex_max_level m' !! v)) /\
    default (-1) (vertex_max_level m' !! v) <= 1.
Proof.
  intros Hi Hseq Hop Hlt Hlv ops'. destruct Hi as [_ _ _ _ _ _ _ _ _ [Hv _] Ho Hl Hc Hs].
  assert (seq < kMaxSequence) as Hmax by apply Hop. unfold ops'. rewrite app_assoc. split_and!.
  - apply Forall_app. split; [done|]. by apply Forall_singleton.
  - by apply in_order_snoc.
  - rewrite length_app, Hc. cbn. lia.
  - rewrite observe_above by lia. apply Forall_app. split; [eapply Forall_impl; [exact Hs|]; cbn; lia|].
    apply Forall_singleton. cbn. lia.
  - intros v. destruct (Hl v) as (H1 & H2 & H3). destruct (Hl src) as (S1 & S2 & S3). destruct Hlv as [[-> Hp]| ->].
    + split_and!; [|done|done]. intros [->|Hpv]%present_snoc; [|by apply H1]. apply S1. unfold present in *. rewrite edges_of_app.
      intros [_ ?]%app_eq_nil. done.
    + destruct (decide (v = src)) as [->|Hne].
      * rewrite lookup_insert_eq. cbn [default]. destruct (vertex_levels s !! src) as [x|]; cbn in *; split_and!; try lia; intros; try lia.
        all: specialize (S2 ltac:(assumption)); lia.
      * rewrite lookup_insert_ne by done. split_and!; [|done|done]. intros [->|Hpv]%present_snoc; [done|by apply H1].
Qed.

(** A put on a store that has room returns, and adds its edge to the history. *)
Lemma put_single_keeps s cs ops src dst payload is_out ty seq :
  store_inv s cs ops -> 0 <= seq -> op_in (vertex_id_ s) (put_op s src dst payload is_out ty seq) ->
  (forall e, e ∈ edges_of src (closed_ops cs ++ ops) -> sequence e < seq) ->
  zlen ops + 1 < capacity \/ free_menTables s <> [] ->
  exists s' cs' ops', put_single debug reserve_node draws s src dst payload is_out ty seq = Some s' /\ store_inv s' cs' ops' /\
    closed_ops cs' ++ ops' = closed_ops cs ++ ops ++ [put_op s src dst payload is_out ty seq] /\
    vertex_id_ s' = vertex_id_ s /\ next_topology_sequence_ s' = Z.max (next_topology_sequence_ s) (seq + 1) /\
    exists full, cs' = cs ++ full /\ Forall (fun c => is_Some (c_mem c) /\ run_fid (c_run c) = fid_ (memTable_ s)) full /\
      (fid_ (memTable_ s') = fid_ (memTable_ s) \/ fid_ (memTable_ s') = currentTime s).
Proof.
  intros Hi Hseq Hop Hlt Hroom.
  destruct (put_insert s cs ops src dst payload is_out ty seq Hi Hseq Hop Hlt) as (m' & E & Hm' & Hmax' & Hrefs' & Hrem' & Hfid' & Hst' & Hlv).
  destruct (put_history s cs ops m' src dst payload is_out ty seq Hi Hseq Hop Hlt Hlv) as (Hv' & Ho' & Hc' & Hs' & Hl').
  pose proof Hi as [Himm Hl0 Hfl Hcl Hact (Hmax & Hrefs & Hrem & Hlen) Hfree (Hf1 & Hf2 & Hf3) (Hs1 & Hs2) [Hv Hvb] Ho Hl Hc Hs].
  assert (seq < kMaxSequence) as Hsm by apply Hop. set (op := put_op s src dst payload is_out ty seq) in *.
  pose proof (zlen_nonneg ops) as Hz. assert (zlen (ops ++ [op]) = zlen ops + 1) as Hz1 by (rewrite zlen_app; done).
  unfold put_single. rewrite (proj2 (Z.leb_gt _ _)) by lia. rewrite (proj2 (Z.leb_le 0 seq)) by done. rewrite E. simpl_bind.
  fold (inserted s m' seq). destruct (Z.ltb_spec 1 (remain_capacity (memTable_ s))) as [Hr|Hr].
  - exists (inserted s m' seq), cs, (ops ++ [op]). split_and!; [done| |by rewrite app_assoc|done|cbn; by rewrite observe_above by lia|exists []; rewrite app_nil_r; split_and!; [done|done|by left]].
    split; try done; cbn [inserted memTable_ fid_ currentTime start_time_ global_seq vertex_id_].
    + split_and!; [done|done|lia|lia].
    + split_and!; [done|eapply Forall_impl; [exact Hf2|]; cbn; lia|lia|lia].
    + split; [done|lia].
  - destruct Hroom as [Hroom|Hroom]; [lia|]. unfold rotate_table, get_newmemTable. cbn [inserted free_menTables].
    destruct (free_menTables s) as [|t free] eqn:Ef; [done|]. apply Forall_cons in Hfree as [(Ht1 & Ht2 & Ht3) Hfree].
    rewrite Ht3, Ht2. cbn [andb Z.eqb]. unfold Mem_reset. rewrite Ht2. cbn [Z.eqb]. rewrite assert_true. simpl_bind.
    eexists _, (cs ++ [mkClosed (mkRun (fid_ m') (start_time_ m') (ops ++ [op]) []) (Some m')]), [].
    split_and!; [reflexivity| |by rewrite closed_ops_app, app_nil_r, app_assoc; cbn; rewrite app_nil_r; apply app_assoc
      |done|cbn; by rewrite observe_above by lia|by eexists; split_and!; [done|by repeat constructor|by right]].
    assert (flushed (cs ++ [mkClosed (mkRun (fid_ m') (start_time_ m') (ops ++ [op]) []) (Some m')]) = flushed cs) as Hfl'
      by (unfold flushed; rewrite omap_app; cbn; by rewrite app_nil_r).
    assert (closed_ops (cs ++ [mkClosed (mkRun (fid_ m') (start_time_ m') (ops ++ [op]) []) (Some m')]) ++ []
      = closed_ops cs ++ ops ++ [op]) as Hops' by (rewrite closed_ops_app, app_nil_r; cbn; by rewrite app_nil_r).
    split; cbn [inserted memTable_ immutables free_menTables level0_files lsm_data vertex_levels currentTime global_seq next_topology_sequence_ vertex_id_ insertions
                start_table max_edge_num fid_ start_time_ remain_capacity refs]; rewrite ?Hfl', ?Hops'; try done.
    + rewrite omap_app, <- Himm. done.
    + apply Forall_app. split; [done|]. apply Forall_singleton. split_and!; cbn [c_run run_ops run_fid run_start c_mem]; try done; lia.
    + destruct Hcfg as [_ [Hc0 _] _ _ _ _]. change (zlen []) with 0. split_and!; [done|done|lia|lia].
    + rewrite fmap_app. split_and!.
      * apply StronglySorted_app. split_and!; [|done|repeat constructor]. intros x y (c & -> & Hcin)%list_elem_of_fmap Hy%list_elem_of_singleton.
        subst y. rewrite Forall_forall in Hf2. cbn. specialize (Hf2 c Hcin). lia.
      * apply Forall_app. split; [eapply Forall_impl; [exact Hf2|]; cbn; lia|]. apply Forall_singleton. cbn. lia.
      * lia.
      * lia.
    + assert (0 < max_edge_num t) by (destruct Hcfg as [_ [? _] _ _ _ _]; lia). split.
      * apply Forall_app. split; [eapply Forall_impl; [exact Hs1|]; cbn; lia|]. apply Forall_singleton. cbn. lia.
      * lia.
Qed.

(** ** Flushes *)
Lemma omap_pick (cs : list Closed) i m :
  omap c_mem cs !! i = Some m -> exists pre c post, cs = pre ++ c :: post /\ c_mem c = Some m /\ length (omap c_mem pre) = i.
Proof.
  revert i. induction cs as [|c cs IH]; intros i; [done|]. cbn [omap list_omap]. destruct (c_mem c) as [m'|] eqn:Ec.
  - destruct i as [|i]; [intros [= ->]; by exists [], c, cs|]. intros (pre & c' & post & -> & Hc & Hl)%IH.
    exists (c :: pre), c', post. split_and!; [done|done|]. cbn. rewrite Ec. cbn. by rewrite Hl.
  - intros (pre & c' & post & -> & Hc & Hl)%IH. exists (c :: pre), c', post. split_and!; [done|done|]. cbn. by rewrite Ec.
Qed.

Lemma insert_file_between c newer older :
  Forall (fun f => timeStamp (cache_header c) < timeStamp (cache_header f)) newer ->
  Forall (fun f => timeStamp (cache_header f) < timeStamp (cache_header c)) older ->
  insert_file c (newer ++ older) = newer ++ c :: older.
Proof.
  induction 1 as [|f newer Hf _ IH]; intros Ho; cbn [app insert_file].
  - destruct Ho as [|f older Hf _]; [done|]. cbn [insert_file]. by rewrite (proj2 (Z.ltb_lt _ _) Hf).
  - rewrite (proj2 (Z.ltb_ge _ _)) by lia. by rewrite IH.
Qed.

Lemma flushed_app cs cs' : flushed (cs ++ cs') = flushed cs ++ flushed cs'.
Proof. unfold flushed. apply omap_app. Qed.

Lemma flushed_in cs r : r ∈ flushed cs -> exists c, c ∈ cs /\ c_run c = r.
Proof.
  unfold flushed. intros (c & Hc & E)%list_elem_of_omap. exists c. destruct (c_mem c); [done|]. by injection E as <-.
Qed.

Lemma raise_levels_lookup vs lv v :
  raise_levels vs lv !! v = if decide (v ∈ vs) then Some (Z.max (default 0 (lv !! v)) 1) else lv !! v.
Proof.
  unfold raise_levels. revert lv. induction vs as [|x vs IH]; intros lv; [done|]. cbn [foldl]. rewrite IH. unfold write_max.
  destruct (decide (v = x)) as [->|Hne].
  - rewrite lookup_insert_eq. cbn [default]. rewrite (decide_True (P := x ∈ x :: vs)) by left. case_decide; f_equal. cbn. lia.
  - rewrite lookup_insert_ne by done. destruct (decide (v ∈ vs)) as [Hv|Hv].
    + by rewrite decide_True by (by right).
    + rewrite decide_False; [done|]. by rewrite not_elem_of_cons.
Qed.

Lemma run_repr_data s s' r :
  lsm_data s' !! run_fid r = lsm_data s !! run_fid r ->
  run_repr debug (columns L s) reserve_node max_v r -> run_repr debug (columns L s') reserve_node max_v r.
Proof. intros E (H1 & H2 & H3 & H4). split_and!; [exact H1|exact H2|exact H3|]. cbn [columns sstdata_manager_] in *. by rewrite E. Qed.

(** Every waiting table can be flushed while level 0 has room; the history and
    the active table stay as they are. *)
Lemma flush_keeps s cs ops i m :
  store_inv s cs ops -> immutables s !! i = Some m -> zlen (level0_files s) < level_0_max_sst_num_ ->
  exists s' cs', flush_table L max_subcompactions interleave level_0_max_sst_num_ i s = Some s' /\ store_inv s' cs' ops /\
    closed_ops cs' = closed_ops cs /\ immutables s' = delete i (immutables s) /\ vertex_id_ s' = vertex_id_ s /\
    next_topology_sequence_ s' = next_topology_sequence_ s /\
    exists pre r post vs, cs = pre ++ mkClosed r (Some m) :: post /\ cs' = pre ++ mkClosed (mkRun (run_fid r) (run_start r) (run_ops r) vs) None :: post /\
      length (omap c_mem pre) = i /\ fid_ m = run_fid r /\
      flush_file L max_subcompactions interleave fl tls (vertex_id_ s) m =
        Some (vs, ref_header vs (fid_ m), mkSst (ref_indexes vs) (ref_file fl tls vs (fid_ m)) (ref_column fl tls vs <$> seq 0 pnum)).
Proof.
  intros Hi Him Hroom.
  pose proof Hi as [Himm Hl0 Hfl Hcl Hact Hcapa Hfree (Hf1 & Hf2 & Hf3) (Hs1 & Hs2) [Hv Hvb] Ho Hl Hc Hs].
  rewrite Himm in Him. destruct (omap_pick cs i m Him) as (pre & [r mm] & post & -> & Em & Hlen). cbn [c_mem] in Em. subst mm.
  pose proof Hcl as Hcl'. apply Forall_app in Hcl' as [Hpre Hcl']. apply Forall_cons in Hcl' as [(Hcap & Hfid0 & Hm & Efid & Est & Emax & Erefs) Hpost].
  cbn [c_run c_mem] in *.
  assert (closed_ops (pre ++ mkClosed r (Some m) :: post) = closed_ops pre ++ run_ops r ++ closed_ops post) as Eops
    by (rewrite closed_ops_app; done).
  assert (in_order (run_ops r)) as Hor.
  { rewrite Eops, <- app_assoc in Ho. apply in_order_app in Ho as [_ Ho]. rewrite <- app_assoc in Ho. by apply in_order_app in Ho as [Ho _]. }
  assert (Forall (op_in (vertex_id_ s)) (run_ops r)) as Hvr.
  { rewrite Eops in Hv. apply Forall_app in Hv as [Hv _]. apply Forall_app in Hv as [_ Hv]. by apply Forall_app in Hv as [Hv _]. }
  assert (run_ops r <> []) as Hne by (intros E; rewrite E in Hcap; destruct Hcfg as [_ [? _] _ _ _ _]; change (zlen []) with 0 in Hcap; lia).
  destruct (flush_file_spec m (run_ops r) (vertex_id_ s) Hm Hor Hvr Hvb Hne ltac:(lia)) as (vs & Eff & Hfi & Hflb & Hsz & Hkeys).
  unfold flush_table. rewrite Himm, Him. simpl_bind. rewrite Eff. simpl_bind. rewrite (proj2 (Z.leb_gt _ _) Hroom).
  set (r' := mkRun (run_fid r) (run_start r) (run_ops r) vs).
  eexists _, (pre ++ mkClosed r' None :: post). split; [reflexivity|].
  assert (closed_ops (pre ++ mkClosed r' None :: post) = closed_ops (pre ++ mkClosed r (Some m) :: post)) as Ecl
    by (rewrite !closed_ops_app; done).
  assert (flushed (pre ++ mkClosed r (Some m) :: post) = flushed pre ++ flushed post) as Efl by (rewrite flushed_app; done).
  assert (flushed (pre ++ mkClosed r' None :: post) = flushed pre ++ r' :: flushed post) as Efl' by (rewrite flushed_app; done).
  rewrite fmap_app in Hf1. apply StronglySorted_app in Hf1 as (Hlt & Hf1a & Hf1b). apply StronglySorted_inv in Hf1b as [Hf1b Hgt].
  assert (Forall (fun x => run_fid x < run_fid r) (flushed pre)) as Hbefore.
  { apply Forall_forall. intros x (c & Hcin & <-)%flushed_in. apply Hlt; [apply list_elem_of_fmap; by exists c|left]. }
  assert (Forall (fun x => run_fid r < run_fid x) (flushed post)) as Hafter.
  { apply Forall_forall. intros x (c & Hcin & <-)%flushed_in. rewrite Forall_forall in Hgt. apply Hgt, list_elem_of_fmap. by exists c. }
  assert (omap c_mem (pre ++ mkClosed r' None :: post) = delete i (omap c_mem (pre ++ mkClosed r (Some m) :: post))) as Eom.
  { rewrite !omap_app, <- Hlen. cbn [omap list_omap c_mem]. by rewrite delete_middle. }
  split_and!; [|done|done|done|done|by eexists pre, r, post, vs].
  split; cbn [memTable_ immutables free_menTables level0_files lsm_data vertex_levels currentTime global_seq next_topology_sequence_ vertex_id_ insertions];
    rewrite ?Ecl, ?Efl'; try done.
  - rewrite Hl0, Efl, reverse_app, reverse_app, reverse_cons, <- app_assoc, !fmap_app. cbn [app fmap list_fmap].
    cbn [sst_indexes]. rewrite Efid, Est. change (mkCache _ _ _) with (run_cache r').
    rewrite insert_file_between; [done|..]; by apply Forall_fmap, Forall_reverse.
  - apply Forall_app. rewrite Efl in Hfl. apply Forall_app in Hfl as [Hfa Hfb]. split; [|apply Forall_cons; split].
    + apply Forall_forall. intros x Hx. rewrite Forall_forall in Hfa, Hbefore. specialize (Hbefore x Hx).
      eapply run_repr_data; [|by apply Hfa]. cbn. rewrite lookup_insert_ne by lia. done.
    + split_and!; [by exists m|done|done|]. cbn [columns sstdata_manager_ lsm_data]. rewrite Efid.
      exact (lookup_insert_eq (lsm_data s) (run_fid r) _).
    + apply Forall_forall. intros x Hx. rewrite Forall_forall in Hfb, Hafter. specialize (Hafter x Hx).
      eapply run_repr_data; [|by apply Hfb]. cbn. rewrite lookup_insert_ne by lia. done.
  - apply Forall_app. split; [done|]. by apply Forall_cons.
  - apply Forall_app. split; [done|]. by apply Forall_singleton.
  - rewrite fmap_app. apply Forall_app in Hf2 as [Hf2a Hf2b]. apply Forall_cons in Hf2b as [Hf2b Hf2c].
    split_and!; [apply StronglySorted_app; split_and!; [exact Hlt|done|by constructor]| |lia|lia].
    apply Forall_app. split; [done|]. by apply Forall_cons.
  - apply Forall_app in Hs1 as [Hs1a Hs1b]. apply Forall_cons in Hs1b as [Hs1b Hs1c]. split; [|done].
    apply Forall_app. split; [done|]. by apply Forall_cons.
  - intros v. destruct (Hl v) as (H1 & H2 & H3). rewrite raise_levels_lookup, Hkeys. case_decide as Hin; cbn [default].
    + destruct (vertex_levels s !! v) as [x|]; cbn in *; split_and!; lia.
    + split_and!; [done| |done]. rewrite fmap_app, concat_app. intros Hp. apply H2. rewrite Efl, fmap_app, concat_app.
      unfold present in *. cbn [fmap list_fmap concat run_ops r'] in Hp. rewrite !edges_of_app in *.
      destruct (decide (edges_of v (run_ops r) = [])) as [E|E]; [by rewrite E in Hp|]. exfalso. apply Hin.
      apply list_elem_of_filter. split; [done|]. apply elem_of_seqZ.
      destruct (present_in v (run_ops r) E) as (op & Hop & <-).
      rewrite Forall_forall in Hvr. destruct (Hvr op Hop) as (_ & _ & ?). lia.
Qed.
End Facts.
