(* ===== verification/LsmWriteTheorems.v ===== *)
(** * The store as a history of writes

    The writer's commands and the background flushes as a step relation on the
    abstract state (the number of vertices and the history of writes), and the
    refinement: whatever the order of the flushes, reads and scans of the store
    see exactly the history. *)

From S2P Require Import Prelude.
From S2P Require Import Types.
From S2P Require Import Names.
From S2P Require Import DeltaFile.
From S2P Require Import DeltaStore.
From S2P Require Import PropertyLayout.
From S2P Require Import EdgeBody.
From S2P Require Import Sst.
From S2P Require Import SkipList.
From S2P Require Import SkipListFacts.
From S2P Require Import NeighBors.
From S2P Require Import MemTable.
From S2P Require Import SstBuild.
From S2P Require Import SstBuildFacts.
From S2P Require Import SstBuildTheorems.
From S2P Require Import MemTableFlush.
From S2P Require Import DeltaMerge.
From S2P Require Import LevelIndex.
From S2P Require Import LsmRead.
From S2P Require Import LsmHistory.
From S2P Require Import EdgeIterators.
From S2P Require Import ScanTheorems.
From S2P Require Import ScanHistory.
From S2P Require Import LsmWrite.
From S2P Require Import LsmWriteFacts.

(** ** Commands *)
Inductive Command :=
| PutEdge (src dst : Z) (payload : bytes) (mode : EdgeInsertMode) (is_out : bool) (ty seq : Z)
| NewVertex
| InitVertices (next : Z)
| FlushTable (i : nat).

(** The abstract store. *)
Record Graph := mkGraph { g_vertices : Z; g_ops : list Op }.

Section Writes.
Context `{StdHash} (debug : bool) (L : LsmColumns) (reserve_node capacity max_v : Z).
Context (draws : nat -> list Z) (max_subcompactions : Z) (interleave : list (list Write) -> list Write) (level_0_max_sst_num_ : Z).

Definition exec_command (s : LSMStore) (c : Command) : option LSMStore :=
  match c with
  | PutEdge src dst payload mode is_out ty seq => put_edge debug reserve_node draws s src dst payload mode is_out ty seq
  | NewVertex => Some (new_vertex s).1
  | InitVertices next => Some (InitVerticesUpTo next s)
  | FlushTable i => flush_table L max_subcompactions interleave level_0_max_sst_num_ i s
  end.

Fixpoint exec_commands (s : LSMStore) (cs : list Command) : option LSMStore :=
  match cs with [] => Some s | c :: cs => s ← exec_command s c; exec_commands s cs end.

(** ** The abstract steps *)
Definition op_of (g : Graph) (src dst : Z) (payload : bytes) (is_out : bool) (ty seq : Z) : Op :=
  (src, mkEdge dst seq (bool_decide (payload = str "~DELETED~")) payload is_out ty, draws (length (g_ops g))).
Definition add_op (g : Graph) (op : Op) : Graph := mkGraph (g_vertices g) (g_ops g ++ [op]).

(** A write of an allocated vertex whose sequence is above the earlier ones of
    its source. *)
Definition accepts (g : Graph) (op : Op) : Prop :=
  0 <= sequence op.1.2 /\ op_in (g_vertices g) op /\ Forall (fun e => sequence e < sequence op.1.2) (edges_of op.1.1 (g_ops g)).

Inductive step (g : Graph) : Command -> Graph -> Prop :=
| step_single src dst payload is_out ty seq :
    let op := op_of g src dst payload is_out ty seq in
    accepts g op -> step g (PutEdge src dst payload kSingle is_out ty seq) (add_op g op)
| step_both src dst payload is_out ty seq :
    let op := op_of g src dst payload is_out ty seq in
    let op' := op_of (add_op g op) dst src payload (negb is_out) ty seq in
    accepts g op -> accepts (add_op g op) op' ->
    step g (PutEdge src dst payload kBidirectional is_out ty seq) (add_op (add_op g op) op')
| step_vertex : g_vertices g < max_v -> step g NewVertex (mkGraph (g_vertices g + 1) (g_ops g))
| step_vertices next : next <= max_v -> step g (InitVertices next) (mkGraph (Z.max next (g_vertices g)) (g_ops g))
| step_flush i : step g (FlushTable i) g.

Inductive steps (g : Graph) : list Command -> Graph -> Prop :=
| steps_nil : steps g [] g
| steps_cons c cs g' g'' : step g c g' -> steps g' cs g'' -> steps g (c :: cs) g''.

(** ** The simulation *)
Context (Hcfg : config_ok L reserve_node capacity max_v max_subcompactions interleave).

Definition simulates (s : LSMStore) (g : Graph) : Prop :=
  exists cs ops, store_inv debug L reserve_node capacity max_v s cs ops /\ closed_ops cs ++ ops = g_ops g /\ vertex_id_ s = g_vertices g.

(** An insertion extends the history; it may close the active table. *)
Lemma put_grows s cs ops g s' src dst payload is_out ty seq :
  store_inv debug L reserve_node capacity max_v s cs ops -> closed_ops cs ++ ops = g_ops g -> vertex_id_ s = g_vertices g ->
  accepts g (op_of g src dst payload is_out ty seq) -> put_single debug reserve_node draws s src dst payload is_out ty seq = Some s' ->
  exists full ops', Forall (fun c => is_Some (c_mem c) /\ run_fid (c_run c) = fid_ (memTable_ s)) full /\ store_inv debug L reserve_node capacity max_v s' (cs ++ full) ops' /\
    closed_ops (cs ++ full) ++ ops' = g_ops (add_op g (op_of g src dst payload is_out ty seq)) /\ vertex_id_ s' = g_vertices g /\
    (fid_ (memTable_ s') = fid_ (memTable_ s) \/ fid_ (memTable_ s') = currentTime s).
Proof.
  intros Hi Eops Ev (H0 & Hin & Hfresh) E. rewrite Forall_forall in Hfresh. cbn in H0.
  assert (put_op draws s src dst payload is_out ty seq = op_of g src dst payload is_out ty seq) as Eop.
  { unfold put_op, op_of. by rewrite (si_count _ _ _ _ _ _ _ _ Hi), Eops. }
  assert (op_in (vertex_id_ s) (put_op draws s src dst payload is_out ty seq)) as Hin' by (by rewrite Eop, Ev).
  assert (forall e, e ∈ edges_of src (closed_ops cs ++ ops) -> sequence e < seq) as Hlt by (rewrite Eops; exact Hfresh).
  assert (zlen ops + 1 < capacity \/ free_menTables s <> []) as Hroom.
  { destruct (decide (zlen ops + 1 < capacity)) as [?|Hfull]; [by left|right]. intros Ef.
    destruct (put_insert debug L reserve_node capacity max_v draws max_subcompactions interleave Hcfg s cs ops src dst payload is_out ty seq Hi H0 Hin' Hlt)
      as (m' & Em & _). destruct (si_capacity _ _ _ _ _ _ _ _ Hi) as (_ & _ & Hrem & Hlen).
    unfold put_single in E. rewrite (proj2 (Z.leb_gt _ _)) in E by lia. rewrite (proj2 (Z.leb_le 0 seq)) in E by done.
    rewrite Em in E. simpl_bind in E. rewrite (proj2 (Z.ltb_ge 1 _)) in E by lia.
    unfold rotate_table, get_newmemTable in E. cbn [free_menTables] in E. by rewrite Ef in E. }
  destruct (put_single_keeps debug L reserve_node capacity max_v draws max_subcompactions interleave Hcfg s cs ops src dst payload is_out ty seq Hi H0 Hin' Hlt Hroom)
    as (s1 & cs' & ops' & E' & Hi' & Eh & Ev' & _ & full & -> & Hfull & Hfid).
  rewrite E in E'. injection E' as <-. exists full, ops'. split_and!; [done|done| |by rewrite Ev'|done].
  by rewrite Eh, Eop, app_assoc, Eops.
Qed.

Lemma put_simulates s g s' src dst payload is_out ty seq :
  simulates s g -> accepts g (op_of g src dst payload is_out ty seq) ->
  put_single debug reserve_node draws s src dst payload is_out ty seq = Some s' ->
  simulates s' (add_op g (op_of g src dst payload is_out ty seq)).
Proof.
  intros (cs & ops & Hi & Eops & Ev) Ha E. destruct (put_grows s cs ops g s' src dst payload is_out ty seq Hi Eops Ev Ha E) as (full & ops' & _ & Hi' & Eops' & Ev' & _).
  by exists (cs ++ full), ops'.
Qed.

(** Allocating a vertex nobody wrote to. *)
Lemma absent_adjs m ops vid n :
  mem_repr debug reserve_node m ops -> Forall (op_in n) ops -> n <= vid -> init_vertex_adjs vid m = m.
Proof.
  intros (Hadj & _) Hf Hn. unfold init_vertex_adjs. rewrite delete_id; [by destruct m|]. specialize (Hadj vid).
  destruct (vertex_adjs m !! vid); [|done]. destruct Hadj as [Hne _]. exfalso. apply Hne.
  apply (edges_of_none vid ops). rewrite Forall_forall in Hf. intros op Hop. destruct (Hf op Hop) as (_ & _ & ?). lia.
Qed.

Lemma init_vertex_keeps s cs ops vid :
  store_inv debug L reserve_node capacity max_v s cs ops -> vertex_id_ s <= vid ->
  store_inv debug L reserve_node capacity max_v (init_vertex vid s) cs ops.
Proof.
  intros [Himm Hl0 Hfl Hcl Hact Hcapa Hfree Hf Hs [Hv Hvb] Ho Hl Hc Hq] Hvid.
  pose proof Hv as [Hvc Hvo]%Forall_app.
  assert (init_vertex_adjs vid (memTable_ s) = memTable_ s) as Em by (by eapply absent_adjs).
  assert (init_vertex_adjs vid <$> immutables s = immutables s) as Ei.
  { rewrite <- (list_fmap_id (immutables s)) at 2. apply list_fmap_ext. intros i m Him. rewrite Himm in Him.
    destruct (omap_pick cs i m Him) as (pre & [r mm] & post & -> & Ec & _). cbn in Ec. subst mm.
    apply Forall_app in Hcl as [_ [(_ & _ & Hm & _) _]%Forall_cons]. cbn [c_run] in Hm.
    rewrite closed_ops_app in Hvc. apply Forall_app in Hvc as [_ Hvc]. apply Forall_app in Hvc as [Hvc _]. by eapply absent_adjs. }
  split; cbn [init_vertex memTable_ immutables free_menTables level0_files lsm_data vertex_levels currentTime global_seq
    next_topology_sequence_ vertex_id_ insertions]; rewrite ?Em, ?Ei; try done.
  - by apply Forall_fmap.
  - intros v. destruct (Hl v) as (H1 & H2 & H3). destruct (decide (v = vid)) as [->|Hne]; [|by rewrite lookup_insert_ne].
    rewrite lookup_insert_eq. cbn.
    assert (~ present (closed_ops cs ++ ops) vid) as Hn.
    { intros Hp. apply Hp, edges_of_none. rewrite Forall_forall in Hv. intros op Hop. destruct (Hv op Hop) as (_ & _ & ?). lia. }
    split_and!; [done| |lia]. intros Hp. by apply (flushed_ops_present _ ops) in Hp.
Qed.

Lemma set_vertex_id_keeps s cs ops n :
  store_inv debug L reserve_node capacity max_v s cs ops -> vertex_id_ s <= n <= max_v ->
  store_inv debug L reserve_node capacity max_v (set_vertex_id n s) cs ops.
Proof.
  intros [Himm Hl0 Hfl Hcl Hact Hcapa Hfree Hf Hs [Hv Hvb] Ho Hl Hc Hq] Hn. split; try done. cbn [set_vertex_id vertex_id_].
  split; [|lia]. eapply Forall_impl; [exact Hv|]. intros op (? & ? & ?). split_and!; try done; lia.
Qed.

Lemma init_vertices_keeps vids s cs ops :
  store_inv debug L reserve_node capacity max_v s cs ops -> Forall (fun vid => vertex_id_ s <= vid) vids ->
  let s' := foldl (fun s vid => init_vertex vid s) s vids in
  store_inv debug L reserve_node capacity max_v s' cs ops /\ vertex_id_ s' = vertex_id_ s.
Proof.
  revert s. induction vids as [|vid vids IH]; intros s Hi Hf; [done|]. apply Forall_cons in Hf as [Hvid Hf]. cbn [foldl].
  destruct (IH (init_vertex vid s)) as [? E]; [by apply init_vertex_keeps|done|]. split; [done|]. by rewrite E.
Qed.

Lemma new_vertex_simulates s g : simulates s g -> g_vertices g < max_v -> simulates (new_vertex s).1 (mkGraph (g_vertices g + 1) (g_ops g)).
Proof.
  intros (cs & ops & Hi & Eops & Ev) Hlt. exists cs, ops. cbn [new_vertex fst g_ops g_vertices]. split_and!; [|done|cbn; lia].
  destruct (si_vertices _ _ _ _ _ _ _ _ Hi) as [_ Hb].
  pose proof (init_vertex_keeps s cs ops (vertex_id_ s) Hi ltac:(lia)) as Hi1.
  apply (set_vertex_id_keeps _ cs ops (vertex_id_ s + 1)) in Hi1; [exact Hi1|cbn; lia].
Qed.

Lemma init_upto_simulates s g next :
  simulates s g -> next <= max_v -> simulates (InitVerticesUpTo next s) (mkGraph (Z.max next (g_vertices g)) (g_ops g)).
Proof.
  intros (cs & ops & Hi & Eops & Ev) Hle. exists cs, ops. cbn [g_ops g_vertices]. unfold InitVerticesUpTo.
  destruct (Z.leb_spec next (vertex_id_ s)) as [Hn|Hn]; [split_and!; [done|done|lia]|].
  destruct (init_vertices_keeps (seqZ (vertex_id_ s) (next - vertex_id_ s)) s cs ops Hi) as [Hi' E'].
  { apply Forall_forall. intros vid Hvid%elem_of_seqZ. lia. }
  split_and!; [|done|cbn; lia]. apply set_vertex_id_keeps; [done|lia].
Qed.

Lemma command_simulates s g c g' s' : simulates s g -> step g c g' -> exec_command s c = Some s' -> simulates s' g'.
Proof.
  intros Hs Hst E. destruct Hst; cbn [exec_command put_edge] in E.
  - by eapply put_simulates.
  - destruct (put_single _ _ _ _ _ _ _ _ _ _) as [s1|] eqn:E1; [|done]. simpl_bind in E.
    eapply put_simulates; [|done|exact E]. by eapply put_simulates.
  - injection E as <-. by apply new_vertex_simulates.
  - injection E as <-. by apply init_upto_simulates.
  - destruct Hs as (cs & ops & Hi & Eops & Ev).
    destruct (immutables s !! i) as [m|] eqn:Em; [|unfold flush_table in E; by rewrite Em in E].
    destruct (decide (zlen (level0_files s) < level_0_max_sst_num_)) as [Hroom|Hroom].
    + destruct (flush_keeps debug L reserve_node capacity max_v max_subcompactions interleave level_0_max_sst_num_ Hcfg s cs ops i m Hi Em Hroom)
        as (s1 & cs' & E1 & Hi' & Ec & _ & Ev' & _).
      rewrite E in E1. injection E1 as <-. exists cs', ops. split_and!; [done|by rewrite Ec|by rewrite Ev'].
    + exfalso. unfold flush_table in E. rewrite Em in E. simpl_bind in E.
      destruct (flush_file _ _ _ _ _ _ _) as [[[? ?] ?]|]; [|done]. simpl_bind in E. rewrite (proj2 (Z.leb_le _ _)) in E by lia. done.
Qed.

Lemma commands_simulate s g cs g' s' : simulates s g -> steps g cs g' -> exec_commands s cs = Some s' -> simulates s' g'.
Proof.
  intros Hs Hst. revert s Hs. induction Hst as [|g c cs g' g'' Hc _ IH]; intros s Hs E; cbn [exec_commands] in E; [by injection E as <-|].
  destruct (exec_command s c) as [s1|] eqn:E1; [|done]. simpl_bind in E. eapply IH; [|exact E]. by eapply command_simulates.
Qed.

Lemma new_store_inv tables : store_inv debug L reserve_node capacity max_v (new_store tables capacity) [] [].
Proof.
  destruct Hcfg as [_ [Hc _] _ Hv _ _].
  split; cbn [new_store memTable_ immutables free_menTables level0_files vertex_levels currentTime global_seq vertex_id_ insertions
    next_topology_sequence_ start_table max_edge_num refs remain_capacity new_memtable fid_ start_time_ closed_ops fmap list_fmap concat app]; try done.
  - change (zlen []) with 0. split_and!; [done|done|lia|lia].
  - apply Forall_replicate. done.
  - split_and!; [constructor|constructor|lia|lia].
  - split; [constructor|lia].
  - intros src. constructor.
Qed.

Lemma new_store_simulates tables : simulates (new_store tables capacity) (mkGraph 0 []).
Proof. exists [], []. split_and!; [apply new_store_inv|done|done]. Qed.

(** ** Reading a simulated store *)
Lemma op_in_ok n p (op : Op) :
  op_in n op -> n <= max_v -> storable (slot_len (process_flags L) (merge_layout L) p) (field p op.1.2) -> op_ok L max_v p op.
Proof. intros (H1 & H2 & H3) Hn Hs. split_and!; try done; lia. Qed.

Lemma runs_ops_reverse runs : runs_ops (reverse runs) = concat (run_ops <$> runs).
Proof. unfold runs_ops. by rewrite fmap_reverse, reverse_involutive. Qed.

Lemma all_flushed cs : omap c_mem cs = [] -> concat (run_ops <$> flushed cs) = closed_ops cs.
Proof.
  unfold flushed, closed_ops. induction cs as [|[r [m|]] cs IH]; [done|done|]. cbn. intros E. by rewrite IH.
Qed.

Lemma flushed_sublist cs : concat (run_ops <$> flushed cs) `sublist_of` closed_ops cs.
Proof.
  unfold flushed, closed_ops. induction cs as [|[r [m|]] cs IH]; [done|..]; cbn [fmap list_fmap omap list_omap concat c_mem c_run].
  - by apply sublist_inserts_l.
  - by apply sublist_app.
Qed.

Lemma sorted_sublist {A} (R : A -> A -> Prop) l k : l `sublist_of` k -> StronglySorted R k -> StronglySorted R l.
Proof.
  induction 1 as [|x l k Hs IH|x l k _ IH]; [done|..]; intros [Hk Hx]%StronglySorted_inv; [|by apply IH].
  constructor; [by apply IH|]. rewrite Forall_forall in *. intros y Hy. apply Hx. by eapply elem_of_submseteq, sublist_submseteq.
Qed.

Lemma in_order_sublist (ops ops' : list Op) : ops `sublist_of` ops' -> in_order ops' -> in_order ops.
Proof.
  intros Hs Ho src. specialize (Ho src). unfold increasing in *. eapply sorted_sublist; [|exact Ho].
  unfold edges_of. clear Ho. induction Hs as [|op l k _ IH|op l k _ IH]; [done|..]; rewrite ?filter_cons.
  - case_decide; [by apply sublist_skip|done].
  - case_decide; [by apply sublist_cons|done].
Qed.

Lemma closed_split cs src :
  edges_of src (closed_ops cs) ≡ₚ
  edges_of src (concat (run_ops <$> flushed cs) ++ concat (omap (fun c => (fun _ => run_ops (c_run c)) <$> c_mem c) cs)).
Proof.
  rewrite edges_of_app. unfold flushed, closed_ops. induction cs as [|[r [m|]] cs IH]; [done|..];
    cbn [fmap list_fmap omap list_omap concat c_mem c_run option_fmap option_map]; rewrite !edges_of_app, IH; [|by rewrite app_assoc].
  rewrite !app_assoc. f_equiv. apply Permutation_app_comm.
Qed.

Lemma read_simulated s g p src dst is_out ty :
  simulates s g -> immutables s = [] ->
  (p < length (sub_property_lengths_ L))%nat -> 0 < slot_len (process_flags L) (merge_layout L) p < 1024 -> 0 <= src < max_v ->
  Forall (fun op => storable (slot_len (process_flags L) (merge_layout L) p) (field p op.1.2)) (g_ops g) ->
  store_get debug L s src dst (Z.of_nat p) is_out ty = Some (status_of (field p) (last_written src dst is_out ty (g_ops g))).
Proof.
  intros (cs & ops & Hi & Eops & Ev) Him Hp Hw Hsrc Hst. destruct Hi as [Himm Hl0 Hfl _ Hact _ _ _ _ [Hv Hvb] Ho _ _ _].
  rewrite Him in Himm. unfold store_get, snapshot. rewrite Him, Hl0. cbn [app]. rewrite <- Eops in Hst |- *.
  rewrite <- (all_flushed cs (eq_sym Himm)), <- (runs_ops_reverse (flushed cs)) in Hst, Ho, Hv |- *.
  apply (store_read debug (columns L s) reserve_node max_v p); try done.
  - apply Hcfg.
  - rewrite Forall_forall in *. intros op Hop. eapply op_in_ok; [by apply Hv|lia|by apply Hst].
  - by apply Forall_reverse.
Qed.

Lemma scan_simulated s g p src is_out ty :
  simulates s g -> global_seq s <= kMaxSequence ->
  (p < length (sub_property_lengths_ L))%nat -> 0 < slot_len (process_flags L) (merge_layout L) p < 1024 -> 0 <= src < max_v ->
  Forall (fun op => storable (slot_len (process_flags L) (merge_layout L) p) (field p op.1.2)) (g_ops g) ->
  exists entries, store_scan_edges debug L s src (Z.of_nat p) is_out ty = Some entries /\
    entries ≡ₚ version_entry p <$> filter (fun e => e_is_out e = is_out /\ e_edge_type e = ty) (edges_of src (g_ops g)).
Proof.
  intros (cs & ops & Hi & Eops & Ev) Hgs Hp Hw Hsrc Hst.
  destruct Hi as [Himm Hl0 Hfl Hcl Hact _ _ _ [Hs1 Hs2] [Hv Hvb] Ho Hl Hc _]. rewrite <- Eops in Hst |- *.
  set (waiting := omap (fun c => (fun m => (m, run_ops (c_run c))) <$> c_mem c) cs).
  set (tables := waiting ++ [(memTable_ s, ops)]).
  assert (tables.*1 = immutables s ++ [memTable_ s]) as Et.
  { unfold tables. rewrite fmap_app, Himm. f_equal. unfold waiting. clear. induction cs as [|[r [m|]] cs IH]; [done|..]; cbn; by rewrite ?IH. }
  assert (edges_of src (closed_ops cs ++ ops) ≡ₚ edges_of src (runs_ops (reverse (flushed cs)) ++ concat tables.*2)) as Hperm.
  { rewrite edges_of_app, closed_split, runs_ops_reverse. unfold tables. rewrite fmap_app, concat_app. cbn [fmap list_fmap snd concat].
    rewrite app_nil_r, !edges_of_app, <- app_assoc.
    replace waiting.*2 with (omap (fun c => (fun _ => run_ops (c_run c)) <$> c_mem c) cs); [done|]. unfold waiting. clear.
    induction cs as [|[r [m|]] cs IH]; [done|..]; cbn; by rewrite ?IH. }
  destruct (Hl src) as (Hl1 & Hl2 & Hl3).
  destruct (store_scan debug (columns L s) reserve_node max_v p (reverse (flushed cs)) tables src is_out ty kMaxSequence
    (default (-1) (vertex_levels s !! src)) (insertions s)) as (d & entries & Ed & Es & Hent); try done.
  - apply Hcfg.
  - rewrite runs_ops_reverse. eapply in_order_sublist; [apply flushed_sublist|]. by apply in_order_app in Ho as [Ho _].
  - rewrite runs_ops_reverse. rewrite Forall_forall in *. intros op Hop.
    assert (op ∈ closed_ops cs ++ ops) as Hin by (apply elem_of_app; left; by eapply elem_of_submseteq, sublist_submseteq, flushed_sublist).
    eapply op_in_ok; [by apply Hv|lia|by apply Hst].
  - by apply Forall_reverse.
  - unfold tables. apply Forall_app. split; [|apply Forall_singleton; split; [done|cbn; lia]]. unfold waiting.
    rewrite Forall_forall in Hcl, Hs1. apply Forall_forall. intros t (c & Hc' & E)%list_elem_of_omap. destruct (Hcl c Hc') as (_ & _ & Hcm). specialize (Hs1 c Hc').
    destruct (c_mem c) as [m|]; [|done]. injection E as <-. destruct Hcm as (Hm & _ & Est & _). split; [done|]. cbn. rewrite Est. lia.
  - apply Forall_reverse, Forall_forall. rewrite Forall_forall in Hcl, Hs1. intros r (c & Hc' & <-)%flushed_in. destruct (Hcl c Hc') as (_ & ? & _).
    specialize (Hs1 c Hc'). cbn in Hs1. lia.
  - change MAX_LEVEL with 5. lia.
  - intros Hneg. apply Permutation_nil_r. rewrite <- Hperm. destruct (decide (present (closed_ops cs ++ ops) src)) as [Hpr|Hpr].
    + specialize (Hl1 Hpr). lia.
    + unfold present in Hpr. destruct (edges_of src (closed_ops cs ++ ops)); [done|]. by exfalso; apply Hpr.
  - intros Hneg. rewrite runs_ops_reverse. destruct (decide (edges_of src (concat (run_ops <$> flushed cs)) = [])) as [?|Hpr]; [done|].
    specialize (Hl2 Hpr). lia.
  - rewrite <- Hperm, Hc. unfold edges_of. rewrite length_fmap. apply length_filter.
  - exists entries. unfold store_scan_edges, snapshot. rewrite <- Et, Hl0, Ed. simpl_bind. split; [done|]. by rewrite Hent, Hperm.
Qed.
End Writes.

(** reads and scans of the store return the history. Run any sequence of
    insertions, deletions, vertex allocations and flushes of full tables, the
    flushes in any order and interleaved with the insertions in any way, whose
    insertions give each source increasing sequences. A scan returns exactly
    the versions of the source, direction and type that were written, wherever
    they are now; and once no table waits for its flush, [GetEdge] answers with
    the last write of the history. *)
Theorem store_refines_history `{StdHash} debug L reserve_node capacity max_v draws max_subcompactions interleave level_0_max
    tables cmds s g p src is_out ty :
  config_ok L reserve_node capacity max_v max_subcompactions interleave ->
  steps max_v draws (mkGraph 0 []) cmds g ->
  exec_commands debug L reserve_node draws max_subcompactions interleave level_0_max (new_store tables capacity) cmds = Some s ->
  (p < length (sub_property_lengths_ L))%nat -> 0 < slot_len (process_flags L) (merge_layout L) p < 1024 -> 0 <= src < max_v ->
  Forall (fun op => storable (slot_len (process_flags L) (merge_layout L) p) (field p op.1.2)) (g_ops g) ->
  global_seq s <= kMaxSequence ->
  (exists entries, store_scan_edges debug L s src (Z.of_nat p) is_out ty = Some entries /\
    entries ≡ₚ version_entry p <$> filter (fun e => e_is_out e = is_out /\ e_edge_type e = ty) (edges_of src (g_ops g))) /\
  (immutables s = [] -> forall dst,
    store_get debug L s src dst (Z.of_nat p) is_out ty = Some (status_of (field p) (last_written src dst is_out ty (g_ops g)))).
Proof.
  intros Hcfg Hst E Hp Hw Hsrc Hf Hgs.
  pose proof (commands_simulate debug L reserve_node capacity max_v draws max_subcompactions interleave level_0_max Hcfg
    _ _ _ _ _ (new_store_simulates debug L reserve_node capacity max_v max_subcompactions interleave Hcfg tables) Hst E) as Hs.
  split; [by eapply scan_simulated|]. intros Him dst. by eapply read_simulated.
Qed.

(** ** Progress *)
Definition spare_tables (s : LSMStore) : nat := length (immutables s) + length (free_menTables s).

Lemma put_spare debug reserve_node draws s src dst payload is_out ty seq s' :
  put_single debug reserve_node draws s src dst payload is_out ty seq = Some s' -> spare_tables s' = spare_tables s.
Proof.
  unfold put_single. destruct (_ <=? 0); [done|]. destruct (Mem_put_edge _ _ _ _ _ _) as [m|]; [|done]. simpl_bind.
  destruct (1 <? _); [by intros [= <-]|]. unfold rotate_table, get_newmemTable. cbn [free_menTables].
  destruct (free_menTables s) as [|t free] eqn:Ef; [done|]. destruct ((_ || _) && _); [|done].
  destruct (Mem_reset debug t) as [t'|]; [|done]. simpl_bind. intros [= <-]. unfold spare_tables. cbn. rewrite Ef, length_app. cbn. lia.
Qed.

Lemma command_spare `{StdHash} debug L reserve_node draws max_subcompactions interleave level_0_max s c s' :
  exec_command debug L reserve_node draws max_subcompactions interleave level_0_max s c = Some s' -> spare_tables s' = spare_tables s.
Proof.
  destruct c as [src dst payload [] is_out ty seq| |next|i]; cbn [exec_command put_edge].
  - by apply put_spare.
  - destruct (put_single _ _ _ _ _ _ _ _ _ _) as [s1|] eqn:E1; [|done]. simpl_bind. intros ->%put_spare. by apply put_spare in E1.
  - intros [= <-]. unfold spare_tables. cbn. by rewrite !length_fmap.
  - intros [= <-]. unfold InitVerticesUpTo. destruct (_ <=? _); [done|].
    assert (forall vids s, spare_tables (foldl (fun s vid => init_vertex vid s) s vids) = spare_tables s) as Hf; [|by apply Hf].
    induction vids as [|vid vids IH]; intros s1; [done|]. cbn [foldl]. rewrite IH. unfold spare_tables. cbn. by rewrite !length_fmap.
  - unfold flush_table. destruct (immutables s !! i) as [m|] eqn:Em; [|done]. simpl_bind.
    destruct (flush_file _ _ _ _ _ _ _) as [[[? ?] ?]|]; [|done]. simpl_bind. destruct (_ <=? _); [done|]. intros [= <-].
    unfold spare_tables. cbn. rewrite length_app. cbn. apply lookup_lt_Some in Em as Hlt. rewrite length_delete by done. lia.
Qed.

Lemma commands_spare `{StdHash} debug L reserve_node draws max_subcompactions interleave level_0_max cmds s s' :
  exec_commands debug L reserve_node draws max_subcompactions interleave level_0_max s cmds = Some s' -> spare_tables s' = spare_tables s.
Proof.
  revert s. induction cmds as [|c cmds IH]; intros s; cbn [exec_commands]; [by intros [= <-]|].
  destruct (exec_command _ _ _ _ _ _ _ s c) as [s1|] eqn:E; [|done]. simpl_bind. intros ->%IH. by eapply command_spare.
Qed.

(** C27: the writer never deadlocks. In a store of at least two tables, at any
    point of a run, an insertion that is accepted returns; or else its table is
    the last free one, some full table waits for its flush, the flush of any
    waiting table returns if level 0 has room for a file, and after it the
    insertion returns. *)
Theorem put_or_flush_returns `{StdHash} debug L reserve_node capacity max_v draws max_subcompactions interleave level_0_max
    tables cmds s g src dst payload is_out ty seq :
  config_ok L reserve_node capacity max_v max_subcompactions interleave -> (2 <= tables)%nat ->
  steps max_v draws (mkGraph 0 []) cmds g ->
  exec_commands debug L reserve_node draws max_subcompactions interleave level_0_max (new_store tables capacity) cmds = Some s ->
  accepts g (op_of draws g src dst payload is_out ty seq) ->
  is_Some (put_single debug reserve_node draws s src dst payload is_out ty seq) \/
  immutables s <> [] /\
  (zlen (level0_files s) < level_0_max -> forall i, (i < length (immutables s))%nat ->
    exists s1, flush_table L max_subcompactions interleave level_0_max i s = Some s1 /\
      is_Some (put_single debug reserve_node draws s1 src dst payload is_out ty seq)).
Proof.
  intros Hcfg Ht Hst E (H0 & Hin & Hfresh). rewrite Forall_forall in Hfresh. cbn in H0.
  pose proof (commands_spare _ _ _ _ _ _ _ _ _ _ E) as Hsp.
  destruct (commands_simulate debug L reserve_node capacity max_v draws max_subcompactions interleave level_0_max Hcfg
    _ _ _ _ _ (new_store_simulates debug L reserve_node capacity max_v max_subcompactions interleave Hcfg tables) Hst E)
    as (cs & ops & Hi & Eops & Ev).
  assert (forall s1, insertions s1 = insertions s -> put_op draws s1 src dst payload is_out ty seq = op_of draws g src dst payload is_out ty seq) as Eop.
  { intros s1 E1. unfold put_op, op_of. by rewrite E1, (si_count _ _ _ _ _ _ _ _ Hi), Eops. }
  rewrite <- Eops in Hfresh.
  assert (forall s1 cs1, store_inv debug L reserve_node capacity max_v s1 cs1 ops -> closed_ops cs1 = closed_ops cs ->
    vertex_id_ s1 = vertex_id_ s -> free_menTables s1 <> [] ->
    is_Some (put_single debug reserve_node draws s1 src dst payload is_out ty seq)) as Hput.
  { intros s1 cs1 Hi1 E1 Ev1 Hf1.
    assert (insertions s1 = insertions s) as Ec by (by rewrite (si_count _ _ _ _ _ _ _ _ Hi1), (si_count _ _ _ _ _ _ _ _ Hi), E1).
    destruct (put_single_keeps debug L reserve_node capacity max_v draws max_subcompactions interleave Hcfg s1 cs1 ops src dst payload is_out ty seq Hi1 H0)
      as (s2 & _ & _ & E2 & _); [by rewrite (Eop s1 Ec), Ev1, Ev|by rewrite E1|by right|by exists s2]. }
  destruct (free_menTables s) as [|t free] eqn:Ef; [|left; by eapply Hput; rewrite ?Ef].
  right. unfold spare_tables in Hsp. rewrite Ef in Hsp. cbn in Hsp. rewrite length_replicate in Hsp.
  split; [intros E0; rewrite E0 in Hsp; cbn in Hsp; lia|]. intros Hroom i (m & Em)%lookup_lt_is_Some_2.
  destruct (flush_keeps debug L reserve_node capacity max_v max_subcompactions interleave level_0_max Hcfg s cs ops i m Hi Em Hroom)
    as (s1 & cs1 & E1 & Hi1 & Ec & _ & Ev1 & _).
  exists s1. split; [done|]. eapply (Hput s1 cs1); try done.
  unfold flush_table in E1. rewrite Em in E1. simpl_bind in E1. destruct (flush_file _ _ _ _ _ _ _) as [[[? ?] ?]|]; [|done].
  simpl_bind in E1. destruct (_ <=? _); [done|]. injection E1 as <-. cbn. by rewrite Ef.
Qed.

(** *** A run: a full table flushed, a second one waiting, a third one active *)
Definition write_columns : LsmColumns := mkColumns kEdge 3 [12] [] kProcessCrashSafe ∅ (mkFlags 1 8).
Definition write_commands : list Command :=
  [InitVertices 4; PutEdge 1 2 [byte_of 65] kSingle true 1 0; PutEdge 1 2 [byte_of 66] kBidirectional true 1 1; NewVertex;
   PutEdge 4 1 (str "~DELETED~") kSingle true 1 2; FlushTable 1; FlushTable 0; PutEdge 1 3 [byte_of 67] kSingle true 1 3].
Definition write_run `{StdHash} (n : nat) : option LSMStore :=
  exec_commands true write_columns 2 (fun _ => []) 2 (@concat Write) 4 (new_store 3 2) (take n write_commands).
Definition write_store `{StdHash} : LSMStore := default (new_store 3 2) (write_run 8).
Definition write_history : list Op :=
  [(1, mkEdge 2 0 false [byte_of 65] true 1, []); (1, mkEdge 2 1 false [byte_of 66] true 1, []);
   (2, mkEdge 1 1 false [byte_of 66] false 1, []); (4, mkEdge 1 2 true (str "~DELETED~") true 1, []);
   (1, mkEdge 3 3 false [byte_of 67] true 1, [])].

Lemma write_config_ok : config_ok write_columns 2 2 8 2 (@concat Write).
Proof.
  split; [lia|eval_prop| |eval_prop|lia|done].
  intros [|p] Hp; [eval_prop|]. change (length (sub_property_lengths_ write_columns)) with 1%nat in Hp. lia.
Qed.

Lemma write_steps : steps 8 (fun _ => []) (mkGraph 0 []) write_commands (mkGraph 5 write_history).
Proof.
  repeat (eapply steps_cons; [constructor; eval_prop|cbn [op_of add_op g_vertices g_ops app Z.max Z.compare]]). constructor.
Qed.

Lemma store_refines_history_witness :
  let H : StdHash := fun z => z in
  (exists entries, store_scan_edges true write_columns write_store 1 0 true 1 = Some entries /\
    entries ≡ₚ [mkEntry 2 0 false true 1 [byte_of 65]; mkEntry 2 1 false true 1 [byte_of 66]; mkEntry 3 3 false true 1 [byte_of 67]]) /\
  store_get true write_columns write_store 1 2 0 true 1 = Some (kOk, Some [byte_of 66]).
Proof.
  intros H.
  destruct (store_refines_history true write_columns 2 2 8 (fun _ => []) 2 (@concat Write) 4 3 write_commands write_store
    (mkGraph 5 write_history) 0 1 true 1) as [Hscan Hget];
    [exact write_config_ok|exact write_steps|vm_compute; reflexivity|eval_prop|eval_prop|lia|eval_prop|eval_prop|].
  split; [exact Hscan|]. apply Hget. vm_compute. reflexivity.
Defined.

(** Both spare tables are full; flushing either lets the insertion through. *)
Definition blocked_store `{StdHash} : LSMStore := default (new_store 3 2)
  (exec_commands true write_columns 2 (fun _ => []) 2 (@concat Write) 4 (new_store 3 2) (take 5 write_commands ++ [PutEdge 1 3 [] kSingle true 1 3])).

Lemma put_or_flush_returns_witness :
  let H : StdHash := fun z => z in
  put_single true 2 (fun _ => []) blocked_store 1 4 [] true 1 4 = None /\ length (immutables blocked_store) = 2%nat /\
  exists s1, flush_table write_columns 2 (@concat Write) 4 1 blocked_store = Some s1 /\
    is_Some (put_single true 2 (fun _ => []) s1 1 4 [] true 1 4).
Proof.
  intros H. split; [vm_compute; reflexivity|]. split; [vm_compute; reflexivity|].
  destruct (put_or_flush_returns true write_columns 2 2 8 (fun _ => []) 2 (@concat Write) 4 3
    (take 5 write_commands ++ [PutEdge 1 3 [] kSingle true 1 3]) blocked_store
    (mkGraph 5 (take 4 write_history ++ [(1, mkEdge 3 3 false [] true 1, [])])) 1 4 [] true 1 4) as [[s Hs]|[_ Hf]];
    [exact write_config_ok|lia| |vm_compute; reflexivity|eval_prop|by vm_compute in Hs|].
  - repeat (eapply steps_cons; [constructor; eval_prop|cbn [op_of add_op g_vertices g_ops app Z.max Z.compare take]]). constructor.
  - apply Hf; [eval_prop|vm_compute; lia].
Defined.
