(* ===== verification/Text.v ===== *)
(** * Text helpers of the GraphDb facade

    The string functions of src/graph_db.cpp that read a schema file: [Trim],
    [StripComment], [StartsWith], [Unquote], [ParseBool], [ParseUint64],
    [ParseUint32], [ParseInt], [ParseInlineList], [ParseKeyValue], with
    [std::getline], [std::stoull] and [std::stoi] as far as they use them.  A
    [bool] result with an out parameter is an option. *)

From S2P Require Import Prelude.
From S2P Require Import DeltaManifest.
From S2P Require Import Names.

Abbreviation HASH := (byte_of 35).
Abbreviation COLON := (byte_of 58).
Abbreviation COMMA := (byte_of 44).
Abbreviation NEWLINE := (byte_of 10).

(** [std::isspace] of the C locale. *)
Definition isspace (b : byte) : bool :=
  let c := byte_val b in (c =? 32) || ((9 <=? c) && (c <=? 13)).

Fixpoint skip_spaces (s : bytes) : bytes :=
  match s with
  | [] => []
  | b :: s' => if isspace b then skip_spaces s' else s
  end.

Definition Trim (s : bytes) : bytes := reverse (skip_spaces (reverse (skip_spaces s))).

(** [s.find(c)] and the parts before and after it. *)
Fixpoint cut_at (c : byte) (s : bytes) : option (bytes * bytes) :=
  match s with
  | [] => None
  | b :: s' =>
      if bool_decide (b = c) then Some ([], s')
      else '(l, r) ← cut_at c s'; Some (b :: l, r)
  end.

Definition StripComment (line : bytes) : bytes :=
  match cut_at HASH line with None => line | Some (l, _) => l end.

Definition StartsWith (s prefix : bytes) : bool := bool_decide (take (length prefix) s = prefix).

Definition Unquote (s : bytes) : bytes :=
  match s, last s with
  | a :: _ :: _, Some b =>
      if bool_decide ((a = byte_of 34 /\ b = byte_of 34) \/ (a = byte_of 39 /\ b = byte_of 39))
      then take (length s - 2) (drop 1 s) else s
  | _, _ => s
  end.

(** [std::getline(stream, token, c)] until it fails: the pieces between
    separators, without an empty one at the end. *)
Fixpoint getlines (c : byte) (token s : bytes) : list bytes :=
  match s with
  | [] => match token with [] => [] | _ => [token] end
  | b :: s' => if bool_decide (b = c) then token :: getlines c [] s' else getlines c (token ++ [b]) s'
  end.

(** ** Numbers *)
Definition is_digit_b (b : byte) : bool := (48 <=? byte_val b) && (byte_val b <=? 57).

(** The digits a number starts with, and their value. *)
Fixpoint read_digits (acc : Z) (s : bytes) : Z :=
  match s with
  | b :: s' => if is_digit_b b then read_digits (10 * acc + (byte_val b - 48)) s' else acc
  | [] => acc
  end.

(** The sign and the magnitude [strtoull] and [strtol] read; [None] when there
    are no digits ([std::invalid_argument]).  What follows the digits is
    ignored. *)
Definition read_number (s : bytes) : option (bool * Z) :=
  let s := skip_spaces s in
  let '(negative, s) := match s with
    | b :: s' => if bool_decide (b = byte_of 45) then (true, s')
                 else if bool_decide (b = byte_of 43) then (false, s') else (false, s)
    | [] => (false, []) end in
  match s with
  | b :: _ => if is_digit_b b then Some (negative, read_digits 0 s) else None
  | [] => None
  end.

(** A magnitude that does not fit is [std::out_of_range]; a negative number is
    negated in 64 bits. *)
Definition stoull (s : bytes) : option Z :=
  '(negative, n) ← read_number s;
  if UINT64_MAX <? n then None else Some (if (negative : bool) then u64 (- n) else n).

Definition stoi (s : bytes) : option Z :=
  '(negative, n) ← read_number s;
  let v := if (negative : bool) then - n else n in
  if decide (sfits 32 v) then Some v else None.

Definition ParseBool (raw : bytes) : option bool :=
  let s := Trim raw in
  if decide (s ∈ [str "1"; str "true"; str "True"; str "TRUE"]) then Some true
  else if decide (s ∈ [str "0"; str "false"; str "False"; str "FALSE"]) then Some false
  else None.

Definition ParseUint64 (raw : bytes) : option Z :=
  match Trim raw with [] => None | s => stoull s end.

Definition ParseUint32 (raw : bytes) : option Z :=
  tmp ← ParseUint64 raw;
  if UINT32_MAX <? tmp then None else Some tmp.

Definition ParseInt (raw : bytes) : option Z :=
  match Trim raw with [] => None | s => stoi s end.

(** ** Lists and fields *)
Definition push_token (token : bytes) : list bytes :=
  match Unquote (Trim token) with [] => [] | t => [t] end.

(** It never fails. *)
Definition ParseInlineList (raw : bytes) : list bytes :=
  match Trim raw with
  | [] => []
  | s =>
      let s := if bool_decide (head s = Some (byte_of 91) /\ last s = Some (byte_of 93))
               then Trim (take (length s - 2) (drop 1 s)) else s in
      match getlines COMMA [] s ≫= push_token with
      | [] => push_token s
      | out => out
      end
  end.

Definition ParseKeyValue (line : bytes) : option (bytes * bytes) :=
  '(k, v) ← cut_at COLON line; Some (Trim k, Trim v).

(** ** Facts about the text helpers

    Trimming, cutting and splitting of text that was put together from
    trimmed pieces, and the decimal round trip. *)

(** ** Trimming *)

(** Nothing to trim, and something left. *)
Definition trimmed (s : bytes) : Prop :=
  match head s, last s with
  | Some a, Some b => isspace a = false /\ isspace b = false
  | _, _ => False
  end.
#[export] Instance trimmed_dec s : Decision (trimmed s).
Proof. unfold trimmed. destruct (head s), (last s); apply _. Defined.

Lemma skip_spaces_head s a : head s = Some a -> isspace a = false -> skip_spaces s = s.
Proof. destruct s as [|b s]; [done|]. simpl. intros [= ->] ->. done. Qed.

Lemma skip_spaces_app p s : forallb isspace p = true -> skip_spaces (p ++ s) = skip_spaces s.
Proof. induction p as [|b p IH]; [done|]. simpl. intros [-> H]%andb_true_iff. by apply IH. Qed.

Lemma Trim_trimmed s : trimmed s -> Trim s = s.
Proof.
  unfold trimmed, Trim. destruct (head s) as [a|] eqn:Ha, (last s) as [b|] eqn:Hb; try done. intros [? ?].
  rewrite (skip_spaces_head s a), (skip_spaces_head _ b), reverse_involutive by (done || by rewrite head_reverse). done.
Qed.

Lemma Trim_indent p s : forallb isspace p = true -> trimmed s -> Trim (p ++ s) = s.
Proof. intros Hp Hs. rewrite <- (Trim_trimmed s Hs) at 2. unfold Trim. by rewrite skip_spaces_app. Qed.

Lemma trimmed_app a s : trimmed a -> trimmed s -> forall t, trimmed (a ++ t ++ s).
Proof.
  unfold trimmed. intros Ha Hs t. destruct a as [|x a]; [done|]. rewrite app_assoc, last_app.
  destruct (last s) as [b|]; [|by destruct (head s)]. destruct (head s); [|done].
  cbn [head app] in *. destruct (last (x :: a)); [|done]. naive_solver.
Qed.

Lemma trimmed_nonempty s : trimmed s -> s <> [].
Proof. by intros H ->. Qed.

(** ** Cutting and splitting *)
Lemma cut_at_app c l r : c ∉ l -> cut_at c (l ++ c :: r) = Some (l, r).
Proof.
  induction l as [|b l IH]; intros Hc; cbn [app cut_at]; [by rewrite bool_decide_true|].
  apply not_elem_of_cons in Hc as [Hb Hc]. rewrite bool_decide_false by congruence. by rewrite IH.
Qed.

Lemma cut_at_none c s : c ∉ s -> cut_at c s = None.
Proof.
  induction s as [|b s IH]; intros Hc; [done|]. apply not_elem_of_cons in Hc as [Hb Hc].
  cbn [cut_at]. rewrite bool_decide_false by congruence. by rewrite IH.
Qed.

Lemma StripComment_none line : HASH ∉ line -> StripComment line = line.
Proof. intros H. unfold StripComment. by rewrite cut_at_none. Qed.

Lemma getlines_app c t l s : c ∉ l -> getlines c t (l ++ c :: s) = (t ++ l) :: getlines c [] s.
Proof.
  revert t. induction l as [|b l IH]; intros t Hc; cbn [app getlines]; [by rewrite bool_decide_true, app_nil_r|].
  apply not_elem_of_cons in Hc as [Hb Hc]. rewrite bool_decide_false, IH by congruence. by rewrite <- app_assoc.
Qed.

Lemma getlines_end c t l : c ∉ l -> getlines c t l = match t ++ l with [] => [] | s => [s] end.
Proof.
  revert t. induction l as [|b l IH]; intros t Hc; cbn [getlines]; [rewrite app_nil_r; by destruct t|].
  apply not_elem_of_cons in Hc as [Hb Hc]. rewrite bool_decide_false, IH by congruence. by rewrite <- app_assoc.
Qed.

(** A text of lines that all end in a newline. *)
Definition unlines (ls : list bytes) : bytes := ls ≫= fun l => l ++ [NEWLINE].

Lemma getlines_unlines ls : Forall (fun l => NEWLINE ∉ l) ls -> getlines NEWLINE [] (unlines ls) = ls.
Proof.
  induction 1 as [|l ls Hl _ IH]; [done|]. unfold unlines. cbn [mbind list_bind].
  rewrite <- app_assoc. cbn [app]. rewrite getlines_app by done. by f_equal.
Qed.

(** ** Numbers *)
Lemma is_digit_reflect b : is_digit b -> is_digit_b b = true.
Proof. unfold is_digit, is_digit_b. intros [? ?]. apply andb_true_iff. split; lia. Qed.

Lemma read_pretty x s : read_digits 0 (str (pretty_N_go x s)) = read_digits (Z.of_N x) (str s).
Proof.
  revert s. induction (N.lt_wf_0 x) as [x _ IH]; intros s.
  assert (x = 0 \/ 0 < x)%N as [->|Hx] by lia; [by rewrite pretty_N_go_0|].
  rewrite pretty_N_go_step, IH by (done || by apply N.div_lt).
  assert (x mod 10 < 10)%N as Hm by (by apply N.mod_lt).
  assert (forall c : Ascii.ascii, str (String c s) = Ascii.byte_of_ascii c :: str s) as -> by done.
  cbn [read_digits].
  assert (is_digit_b (Ascii.byte_of_ascii (pretty_N_char (x mod 10))) = true /\
    byte_val (Ascii.byte_of_ascii (pretty_N_char (x mod 10))) - 48 = Z.of_N (x mod 10)) as [-> ->].
  { remember (x mod 10)%N as d. clear -Hm.
    assert (d = 0 \/ d = 1 \/ d = 2 \/ d = 3 \/ d = 4 \/ d = 5 \/ d = 6 \/ d = 7 \/ d = 8 \/ d = 9)%N as Hd by lia.
    repeat destruct Hd as [->|Hd]; [..|subst]; split; reflexivity. }
  f_equal. rewrite N2Z.inj_div, N2Z.inj_mod. change (Z.of_N 10) with 10.
  rewrite <- Z.div_mod by done. done.
Qed.

Lemma to_string_nonempty z : exists b s, to_string z = b :: s /\ is_digit b.
Proof.
  pose proof (to_string_digits z) as Hd. destruct (to_string z) as [|b s] eqn:E; [|inversion Hd; by exists b, s].
  exfalso. revert E. unfold to_string, pretty, pretty_N. case_decide; [done|].
  rewrite pretty_N_go_step by lia. intros E.
  assert (forall x s', str s' <> [] -> str (pretty_N_go x s') <> []) as Hne.
  { clear. intros x. induction (N.lt_wf_0 x) as [x _ IH]; intros s' Hs.
    assert (x = 0 \/ 0 < x)%N as [->|Hx] by lia; [by rewrite pretty_N_go_0|].
    rewrite pretty_N_go_step by done. apply IH; [by apply N.div_lt|done]. }
  by eapply Hne in E.
Qed.

Lemma read_number_to_string z : 0 <= z -> read_number (to_string z) = Some (false, z).
Proof.
  intros Hz. destruct (to_string_nonempty z) as (b & s & E & Hb). unfold read_number. rewrite E.
  assert (isspace b = false) as Hs.
  { unfold isspace, is_digit in *. rewrite (proj2 (Z.eqb_neq _ _)), (proj2 (Z.leb_gt (byte_val b) 13)), andb_false_r by lia. done. }
  cbn [skip_spaces]. rewrite Hs.
  rewrite !bool_decide_false by (intros ->; by vm_compute in Hb; destruct Hb).
  rewrite (is_digit_reflect b Hb), <- E. do 2 f_equal. unfold to_string, pretty, pretty_N.
  case_decide as H0; [assert (z = 0) as -> by lia; reflexivity|]. rewrite read_pretty. cbn. lia.
Qed.

Lemma digit_trimmed s : Forall is_digit s -> s <> [] -> trimmed s.
Proof.
  intros Hd Hne. unfold trimmed. assert (forall b, b ∈ s -> isspace b = false) as Hs.
  { intros b Hb. rewrite Forall_forall in Hd. specialize (Hd b Hb). unfold isspace, is_digit in *.
    rewrite (proj2 (Z.eqb_neq _ _)), (proj2 (Z.leb_gt (byte_val b) 13)), andb_false_r by lia. done. }
  destruct s as [|a s]; [done|]. cbn [head]. destruct (last (a :: s)) as [b|] eqn:E.
  - split; apply Hs; [left|]. apply last_Some in E as (l & ->). apply elem_of_app. right. left.
  - by apply last_None in E.
Qed.

Lemma to_string_trimmed z : trimmed (to_string z).
Proof. apply digit_trimmed; [apply to_string_digits|]. destruct (to_string_nonempty z) as (b & s & -> & _). done. Qed.

Lemma ParseUint64_to_string z : fits 64 z -> ParseUint64 (to_string z) = Some z.
Proof.
  intros [Hz Hz']. unfold ParseUint64. rewrite Trim_trimmed by apply to_string_trimmed.
  destruct (to_string_nonempty z) as (b & s & E & _). rewrite E, <- E. unfold stoull. rewrite read_number_to_string by done.
  simpl_bind. unfold UINT64_MAX. rewrite (proj2 (Z.ltb_ge _ _)) by lia. done.
Qed.

Lemma ParseUint32_to_string z : fits 32 z -> ParseUint32 (to_string z) = Some z.
Proof.
  intros Hz. unfold ParseUint32. rewrite ParseUint64_to_string by (eapply fits_mono; [|done]; lia).
  simpl_bind. unfold UINT32_MAX. destruct Hz. rewrite (proj2 (Z.ltb_ge _ _)) by lia. done.
Qed.

Lemma ParseInt_to_string z : 0 <= z < 2 ^ 31 -> ParseInt (to_string z) = Some z.
Proof.
  intros [Hz Hz']. unfold ParseInt. rewrite Trim_trimmed by apply to_string_trimmed.
  destruct (to_string_nonempty z) as (b & s & E & _). rewrite E, <- E. unfold stoi. rewrite read_number_to_string by done.
  simpl_bind. rewrite decide_True; [done|]. change (2 ^ 31) with 2147483648 in *. split; [|done]. change (- 2 ^ (32 - 1)) with (-2147483648). lia.
Qed.

(** Results are in range whatever the text. *)
Lemma read_digits_nonneg s acc : 0 <= acc -> 0 <= read_digits acc s.
Proof.
  revert acc. induction s as [|b s IH]; intros acc Ha; [done|]. cbn [read_digits]. unfold is_digit_b.
  destruct (Z.leb_spec 48 (byte_val b)); [|done]. destruct (byte_val b <=? 57); [|done]. cbn [andb]. apply IH. lia.
Qed.

Lemma ParseUint64_fits s z : ParseUint64 s = Some z -> fits 64 z.
Proof.
  unfold ParseUint64. destruct (Trim s) as [|b t]; [done|]. unfold stoull, read_number.
  destruct (match skip_spaces (b :: t) with [] => _ | _ => _ end) as [neg [|c u]]; [done|].
  destruct (is_digit_b c); [|done]. cbn [mbind option_bind]. pose proof (read_digits_nonneg (c :: u) 0 ltac:(lia)) as Hn.
  remember (read_digits 0 (c :: u)) as n.
  destruct (Z.ltb_spec UINT64_MAX n) as [|Hm]; [done|]. intros [= <-].
  destruct neg; [by apply wrap_fits|]. unfold UINT64_MAX in Hm. unfold fits. lia.
Qed.

Lemma ParseUint32_fits s z : ParseUint32 s = Some z -> fits 32 z.
Proof.
  unfold ParseUint32. destruct (ParseUint64 s) as [v|] eqn:E; [|done]. apply ParseUint64_fits in E. simpl_bind.
  destruct (Z.ltb_spec UINT32_MAX v) as [|Hm]; [done|]. intros [= <-]. unfold fits, UINT32_MAX in *. lia.
Qed.

Lemma ParseInt_fits s z : ParseInt s = Some z -> sfits 32 z.
Proof.
  unfold ParseInt. destruct (Trim s) as [|b t]; [done|]. unfold stoi.
  destruct (read_number (b :: t)) as [[neg n]|]; [|done]. simpl_bind. case_decide; [|done]. by intros [= <-].
Qed.
