(* ===== verification/GraphSchema.v ===== *)
(** * Loading a schema

    The schema structs of include/richgraph/graph_db.h and
    [GraphDb::LoadSchemaFromYaml] of src/graph_db.cpp, a line-by-line state
    machine.  The text of the file is an argument ([None] when it cannot be
    opened); an error message is a constructor, with the line it names. *)

From S2P Require Import Prelude.
From S2P Require Import Types.
From S2P Require Import Names.
From S2P Require Import Text.

(** ** Schemas *)
Record PropertyDef := mkDef { def_name : bytes; def_length : Z }.

(** [EdgeShardSchema] and [NodeShardSchema], which differ in the default name. *)
Record ShardSchema := mkShard {
  shard_name : bytes;
  shard_properties : list bytes;
  memtable_size : Z;
  is_csr : bool;
  csr_l0_max_sst_num : Z;
  csr_l1_max_sst_num : Z;
}.

Record Schema := mkSchema {
  max_vertex_num : Z;
  use_csr_disk : bool;
  sub_property_num : Z;
  max_property_length : Z;
  system_threads : Z;
  property_defs : list PropertyDef;
  edge_shards : list ShardSchema;
  node_db : ShardSchema;
}.

Definition new_def : PropertyDef := mkDef [] 10.
Definition new_edge_shard : ShardSchema := mkShard [] [] 0 false 8 10000.
Definition new_node_shard : ShardSchema := mkShard (str "node_Db") [] 0 false 8 10000.
Definition new_schema : Schema := mkSchema 0 false 0 10 1 [] [] new_node_shard.

(** ** Errors *)
Inductive Section_ := kRoot | kEdgeShards | kNodeDb | kPropertyDefs.
#[export] Instance Section_eq_dec : EqDecision Section_.
Proof. solve_decision. Defined.

Inductive SchemaError :=
| OpenFailed
| InvalidValue (sec : Section_) (key : bytes) (line : Z)      (** "invalid [key] at line" *)
| InvalidItem (sec : Section_) (line : Z)                     (** a list item without a key *)
| InvalidLine (sec : Section_) (line : Z)
| UnknownKey (sec : Section_) (line : Z) (key : bytes)
| Misplaced (line : Z) (text : bytes)
| MaxVertexNumRequired
| EdgeShardsEmpty.

Definition schema_status (e : SchemaError) : Status :=
  match e with OpenFailed => kIOError | _ => kInvalidArgument end.

(** ** The loader *)
Record Loader := mkLoader {
  schema : Schema;
  section : Section_;
  curr_edge_shard : ShardSchema;
  edge_shard_open : bool;
  curr_prop_def : PropertyDef;
  prop_def_open : bool;
  has_max_vertex_num : bool;
}.

Definition new_loader : Loader := mkLoader new_schema kRoot new_edge_shard false new_def false false.

Definition set_schema (s : Schema) (l : Loader) : Loader :=
  mkLoader s (section l) (curr_edge_shard l) (edge_shard_open l) (curr_prop_def l) (prop_def_open l) (has_max_vertex_num l).
Definition set_section (sec : Section_) (l : Loader) : Loader :=
  mkLoader (schema l) sec (curr_edge_shard l) (edge_shard_open l) (curr_prop_def l) (prop_def_open l) (has_max_vertex_num l).
Definition set_shard (c : ShardSchema) (opened : bool) (l : Loader) : Loader :=
  mkLoader (schema l) (section l) c opened (curr_prop_def l) (prop_def_open l) (has_max_vertex_num l).
Definition set_def (d : PropertyDef) (opened : bool) (l : Loader) : Loader :=
  mkLoader (schema l) (section l) (curr_edge_shard l) (edge_shard_open l) d opened (has_max_vertex_num l).
Definition set_has_max (l : Loader) : Loader :=
  mkLoader (schema l) (section l) (curr_edge_shard l) (edge_shard_open l) (curr_prop_def l) (prop_def_open l) true.

Definition add_edge_shard (c : ShardSchema) (s : Schema) : Schema :=
  mkSchema (max_vertex_num s) (use_csr_disk s) (sub_property_num s) (max_property_length s) (system_threads s)
    (property_defs s) (edge_shards s ++ [c]) (node_db s).
Definition add_property_def (d : PropertyDef) (s : Schema) : Schema :=
  mkSchema (max_vertex_num s) (use_csr_disk s) (sub_property_num s) (max_property_length s) (system_threads s)
    (property_defs s ++ [d]) (edge_shards s) (node_db s).
Definition set_node_db (n : ShardSchema) (s : Schema) : Schema :=
  mkSchema (max_vertex_num s) (use_csr_disk s) (sub_property_num s) (max_property_length s) (system_threads s)
    (property_defs s) (edge_shards s) n.
Definition set_shard_name (n : bytes) (c : ShardSchema) : ShardSchema :=
  mkShard n (shard_properties c) (memtable_size c) (is_csr c) (csr_l0_max_sst_num c) (csr_l1_max_sst_num c).

Definition flush_edge_shard (l : Loader) : Loader :=
  if edge_shard_open l then
    let c := curr_edge_shard l in
    let c := match shard_name c with
             | [] => set_shard_name (str "edge_Db" ++ to_string (zlen (edge_shards (schema l)))) c
             | _ => c end in
    set_shard new_edge_shard false (set_schema (add_edge_shard c (schema l)) l)
  else l.

Definition flush_prop_def (l : Loader) : Loader :=
  if prop_def_open l then
    let d := curr_prop_def l in
    let s := match def_name d with [] => schema l | _ => add_property_def d (schema l) end in
    set_def new_def false (set_schema s l)
  else l.

(** A value that does not parse is an error naming its key. *)
Definition parsed {A} (sec : Section_) (key : bytes) (line_no : Z) (o : option A) : result SchemaError A :=
  match o with Some a => Ok a | None => Err (InvalidValue sec key line_no) end.

(** The keys of the root, allowed in every section: [None] when [key] is not
    one of them. *)
Definition root_key (line_no : Z) (key value : bytes) (l : Loader) : option (result SchemaError Loader) :=
  let s := schema l in
  if decide (key = str "max_vertex_num") then Some (
    v ← parsed kRoot key line_no (ParseUint64 value);
    Ok (set_has_max (set_schema (mkSchema v (use_csr_disk s) (sub_property_num s) (max_property_length s) (system_threads s)
      (property_defs s) (edge_shards s) (node_db s)) l)))
  else if decide (key = str "use_csr_disk") then Some (
    v ← parsed kRoot key line_no (ParseBool value);
    Ok (set_schema (mkSchema (max_vertex_num s) v (sub_property_num s) (max_property_length s) (system_threads s)
      (property_defs s) (edge_shards s) (node_db s)) l))
  else if decide (key = str "sub_property_num") then Some (
    v ← parsed kRoot key line_no (ParseUint32 value);
    Ok (set_schema (mkSchema (max_vertex_num s) (use_csr_disk s) v (max_property_length s) (system_threads s)
      (property_defs s) (edge_shards s) (node_db s)) l))
  else if decide (key = str "max_property_length") then Some (
    v ← parsed kRoot key line_no (ParseUint32 value);
    Ok (set_schema (mkSchema (max_vertex_num s) (use_csr_disk s) (sub_property_num s) v (system_threads s)
      (property_defs s) (edge_shards s) (node_db s)) l))
  else if decide (key = str "system_threads") then Some (
    v ← parsed kRoot key line_no (v ← ParseInt value; if v <=? 0 then None else Some v);
    Ok (set_schema (mkSchema (max_vertex_num s) (use_csr_disk s) (sub_property_num s) (max_property_length s) v
      (property_defs s) (edge_shards s) (node_db s)) l))
  else None.

(** The keys of a shard; the code repeats them for a list item, for a further
    line of it and for the node shard. *)
Definition shard_key (sec : Section_) (line_no : Z) (key value : bytes) (c : ShardSchema) : result SchemaError ShardSchema :=
  if decide (key = str "name") then Ok (set_shard_name (Unquote value) c)
  else if decide (key = str "properties") then
    Ok (mkShard (shard_name c) (ParseInlineList value) (memtable_size c) (is_csr c) (csr_l0_max_sst_num c) (csr_l1_max_sst_num c))
  else if decide (key = str "memtable_size") then
    v ← parsed sec key line_no (ParseUint32 value);
    Ok (mkShard (shard_name c) (shard_properties c) v (is_csr c) (csr_l0_max_sst_num c) (csr_l1_max_sst_num c))
  else if decide (key = str "is_csr") then
    v ← parsed sec key line_no (ParseBool value);
    Ok (mkShard (shard_name c) (shard_properties c) (memtable_size c) v (csr_l0_max_sst_num c) (csr_l1_max_sst_num c))
  else if decide (key = str "csr_l0_max_sst_num") then
    v ← parsed sec key line_no (ParseUint32 value);
    Ok (mkShard (shard_name c) (shard_properties c) (memtable_size c) (is_csr c) v (csr_l1_max_sst_num c))
  else if decide (key = str "csr_l1_max_sst_num") then
    v ← parsed sec key line_no (ParseUint32 value);
    Ok (mkShard (shard_name c) (shard_properties c) (memtable_size c) (is_csr c) (csr_l0_max_sst_num c) v)
  else Err (UnknownKey sec line_no key).

Definition def_key (line_no : Z) (key value : bytes) (d : PropertyDef) : result SchemaError PropertyDef :=
  if decide (key = str "name") then Ok (mkDef (Unquote value) (def_length d))
  else if decide (key = str "length") then
    v ← parsed kPropertyDefs key line_no (ParseUint32 value);
    Ok (mkDef (def_name d) v)
  else Err (UnknownKey kPropertyDefs line_no key).

(** One field of the current shard or definition. *)
Definition shard_field (line_no : Z) (kv : bytes * bytes) (l : Loader) : result SchemaError Loader :=
  c ← shard_key kEdgeShards line_no kv.1 kv.2 (curr_edge_shard l);
  Ok (set_shard c true l).
Definition def_field (line_no : Z) (kv : bytes * bytes) (l : Loader) : result SchemaError Loader :=
  d ← def_key line_no kv.1 kv.2 (curr_prop_def l);
  Ok (set_def d true l).

Definition edge_shard_line (line_no : Z) (line : bytes) (l : Loader) : result SchemaError Loader :=
  if StartsWith line (str "-") then
    let l := set_shard new_edge_shard true (flush_edge_shard l) in
    match Trim (drop 1 line) with
    | [] => Ok l
    | remain =>
        match ParseKeyValue remain with
        | None => Err (InvalidItem kEdgeShards line_no)
        | Some kv => shard_field line_no kv l
        end
    end
  else
    let l := if edge_shard_open l then l else set_shard new_edge_shard true l in
    match ParseKeyValue line with
    | None => Err (InvalidLine kEdgeShards line_no)
    | Some kv => shard_field line_no kv l
    end.

Definition node_db_line (line_no : Z) (line : bytes) (l : Loader) : result SchemaError Loader :=
  match ParseKeyValue line with
  | None => Err (InvalidLine kNodeDb line_no)
  | Some (key, value) =>
      n ← shard_key kNodeDb line_no key value (node_db (schema l));
      Ok (set_schema (set_node_db n (schema l)) l)
  end.

Definition property_def_line (line_no : Z) (line : bytes) (l : Loader) : result SchemaError Loader :=
  if StartsWith line (str "-") then
    let l := set_def new_def true (flush_prop_def l) in
    match Trim (drop 1 line) with
    | [] => Ok l
    | remain =>
        match ParseKeyValue remain with
        | None => Err (InvalidItem kPropertyDefs line_no)
        | Some kv => def_field line_no kv l
        end
    end
  else
    let l := if prop_def_open l then l else set_def new_def true l in
    match ParseKeyValue line with
    | None => Err (InvalidLine kPropertyDefs line_no)
    | Some kv => def_field line_no kv l
    end.

Definition section_line (line_no : Z) (line : bytes) (l : Loader) : result SchemaError Loader :=
  match section l with
  | kEdgeShards => edge_shard_line line_no line l
  | kNodeDb => node_db_line line_no line l
  | kPropertyDefs => property_def_line line_no line l
  | kRoot => Err (Misplaced line_no line)
  end.

(** One iteration of the loop over the lines. *)
Definition load_line (line_no : Z) (raw_line : bytes) (l : Loader) : result SchemaError Loader :=
  match Trim (StripComment raw_line) with
  | [] => Ok l
  | line =>
      if decide (line = str "edge_shards:") then Ok (set_section kEdgeShards (flush_edge_shard (flush_prop_def l)))
      else if decide (line = str "node_db:") then Ok (set_section kNodeDb (flush_edge_shard (flush_prop_def l)))
      else if decide (line = str "property_defs:") then Ok (set_section kPropertyDefs (flush_prop_def (flush_edge_shard l)))
      else
        match kv ← ParseKeyValue line; root_key line_no kv.1 kv.2 l with
        | Some r => r
        | None => section_line line_no line l
        end
  end.

Fixpoint load_lines (line_no : Z) (lines : list bytes) (l : Loader) : result SchemaError Loader :=
  match lines with
  | [] => Ok l
  | raw_line :: lines =>
      l ← load_line (line_no + 1) raw_line l;
      load_lines (line_no + 1) lines l
  end.

(** The checks and defaults after the last line. *)
Definition max_columns (s : Schema) : Z :=
  foldl (fun m c => Z.max m (zlen (shard_properties c))) (zlen (shard_properties (node_db s))) (edge_shards s).

Definition finish_schema (l : Loader) : result SchemaError Schema :=
  let l := flush_prop_def (flush_edge_shard l) in
  let s := schema l in
  if negb (has_max_vertex_num l) || (max_vertex_num s =? 0) then Err MaxVertexNumRequired
  else if decide (edge_shards s = []) then Err EdgeShardsEmpty
  else
    let node := match shard_name (node_db s) with [] => set_shard_name (str "node_Db") (node_db s) | _ => node_db s end in
    let threads := if system_threads s <=? 0 then 1 else system_threads s in
    let columns := if sub_property_num s =? 0
                   then let m := max_columns s in u32 (if m =? 0 then 1 else m)
                   else sub_property_num s in
    Ok (mkSchema (max_vertex_num s) (use_csr_disk s) columns (max_property_length s) threads
          (property_defs s) (edge_shards s) node).

Definition LoadSchemaFromYaml (file : option bytes) : result SchemaError Schema :=
  match file with
  | None => Err OpenFailed
  | Some text =>
      l ← load_lines 0 (getlines NEWLINE [] text) new_loader;
      finish_schema l
  end.
