(* ===== verification/SchemaTheorems.v ===== *)
(** * Theorems about schema loading

    A schema written in the format of the examples is loaded back exactly. *)

From S2P Require Import Prelude.
From S2P Require Import DeltaManifest.
From S2P Require Import Names.
From S2P Require Import Text.
From S2P Require Import GraphSchema.

(** ** The written form *)
Definition bool_text (b : bool) : bytes := str (if b then "true" else "false").

Definition field_text (key : string) (value : bytes) : bytes := str key ++ str ": " ++ value.
Definition item_line (key : string) (value : bytes) : bytes := str "  - " ++ field_text key value.
Definition member_line (key : string) (value : bytes) : bytes := str "    " ++ field_text key value.

Fixpoint comma_list (l : list bytes) : bytes :=
  match l with
  | [] => []
  | [x] => x
  | x :: l => x ++ str ", " ++ comma_list l
  end.
Definition list_text (l : list bytes) : bytes := str "[" ++ comma_list l ++ str "]".

Definition shard_pairs (c : ShardSchema) : list (string * bytes) :=
  [("properties"%string, list_text (shard_properties c)); ("memtable_size"%string, to_string (memtable_size c));
   ("is_csr"%string, bool_text (is_csr c)); ("csr_l0_max_sst_num"%string, to_string (csr_l0_max_sst_num c));
   ("csr_l1_max_sst_num"%string, to_string (csr_l1_max_sst_num c))].
Definition members (kvs : list (string * bytes)) : list bytes := (fun kv => member_line kv.1 kv.2) <$> kvs.

Definition print_def (d : PropertyDef) : list bytes :=
  [item_line "name" (def_name d); member_line "length" (to_string (def_length d))].
Definition print_shard (c : ShardSchema) : list bytes := item_line "name" (shard_name c) :: members (shard_pairs c).
Definition print_node (c : ShardSchema) : list bytes := members (("name"%string, shard_name c) :: shard_pairs c).

Definition print_lines (s : Schema) : list bytes :=
  [field_text "max_vertex_num" (to_string (max_vertex_num s)); field_text "use_csr_disk" (bool_text (use_csr_disk s));
   field_text "sub_property_num" (to_string (sub_property_num s));
   field_text "max_property_length" (to_string (max_property_length s));
   field_text "system_threads" (to_string (system_threads s))] ++
  str "property_defs:" :: (property_defs s ≫= print_def) ++
  str "edge_shards:" :: (edge_shards s ≫= print_shard) ++
  str "node_db:" :: print_node (node_db s).

Definition print_schema (s : Schema) : bytes := unlines (print_lines s).

(** ** What can be written *)

(** A name that is not changed by trimming or unquoting and contains none of
    the characters the format gives a meaning to. *)
Definition plain (n : bytes) : Prop :=
  trimmed n /\ Unquote n = n /\ HASH ∉ n /\ NEWLINE ∉ n.
Definition plain_item (n : bytes) : Prop := plain n /\ COMMA ∉ n.

Definition shard_printable (c : ShardSchema) : Prop :=
  plain (shard_name c) /\ Forall plain_item (shard_properties c) /\ fits 32 (memtable_size c) /\
  fits 32 (csr_l0_max_sst_num c) /\ fits 32 (csr_l1_max_sst_num c).

Definition printable (s : Schema) : Prop :=
  fits 64 (max_vertex_num s) /\ max_vertex_num s <> 0 /\ fits 32 (sub_property_num s) /\ sub_property_num s <> 0 /\
  fits 32 (max_property_length s) /\ 0 < system_threads s < 2 ^ 31 /\
  Forall (fun d => plain (def_name d) /\ fits 32 (def_length d)) (property_defs s) /\
  edge_shards s <> [] /\ Forall shard_printable (edge_shards s) /\ shard_printable (node_db s).

#[export] Instance plain_dec n : Decision (plain n).
Proof. unfold plain. apply _. Defined.
#[export] Instance plain_item_dec n : Decision (plain_item n).
Proof. unfold plain_item. apply _. Defined.
#[export] Instance shard_printable_dec c : Decision (shard_printable c).
Proof. unfold shard_printable. apply _. Defined.
#[export] Instance printable_dec s : Decision (printable s).
Proof. unfold printable. pose proof (fun x y : list ShardSchema => list_eq_nil_dec x). apply _. Defined.

(** A value that survives a line. *)
Definition value_ok (v : bytes) : Prop := trimmed v /\ HASH ∉ v /\ NEWLINE ∉ v.

(** ** Values *)
Lemma plain_value n : plain n -> value_ok n.
Proof. by intros (? & _ & ? & ?). Qed.

Lemma digit_not c z : ~ is_digit c -> c ∉ to_string z.
Proof. intros Hc Hin. pose proof (to_string_digits z) as H. rewrite Forall_forall in H. by apply Hc, H. Qed.

Lemma number_value z : value_ok (to_string z).
Proof. split_and!; [apply to_string_trimmed|apply digit_not; eval_prop|apply digit_not; eval_prop]. Qed.

Lemma bool_value b : value_ok (bool_text b).
Proof. destruct b; unfold value_ok; eval_prop. Qed.

Lemma ParseBool_text b : ParseBool (bool_text b) = Some b.
Proof. by destruct b. Qed.

(** ** Inline lists *)
Lemma push_item p x : forallb isspace p = true -> plain_item x -> push_token (p ++ x) = [x].
Proof.
  intros Hp ((Ht & Hu & _) & _). unfold push_token. rewrite Trim_indent, Hu by done. destruct x; [done|done].
Qed.

Lemma comma_tokens l p : forallb isspace p = true -> Forall plain_item l -> l <> [] ->
  getlines COMMA p (comma_list l) ≫= push_token = l.
Proof.
  intros Hp Hl. revert p Hp. induction Hl as [|x l Hx Hl IH]; intros p Hp Hne; [done|]. destruct Hx as [Hx Hc].
  destruct l as [|y l].
  - cbn [comma_list]. rewrite getlines_end by done. destruct (p ++ x) as [|b s] eqn:E; [by apply app_eq_nil in E as [_ ->]; destruct Hx|].
    cbn [mbind list_bind]. by rewrite <- E, app_nil_r, push_item.
  - change (comma_list (x :: y :: l)) with (x ++ COMMA :: byte_of 32 :: comma_list (y :: l)).
    rewrite getlines_app by done. cbn [mbind list_bind]. rewrite push_item by done. cbn [app]. f_equal.
    change (getlines COMMA [] (byte_of 32 :: comma_list (y :: l))) with (getlines COMMA [byte_of 32] (comma_list (y :: l))).
    by apply IH.
Qed.

Lemma comma_trimmed l : Forall plain_item l -> l <> [] -> trimmed (comma_list l).
Proof.
  induction 1 as [|x l [[Hx _] _] Hl IH]; [done|]. intros _. destruct l as [|y l]; [done|].
  change (trimmed (x ++ str ", " ++ comma_list (y :: l))). apply trimmed_app; [done|by apply IH].
Qed.

Lemma list_text_ends l : head (list_text l) = Some (byte_of 91) /\ last (list_text l) = Some (byte_of 93).
Proof. split; [done|]. unfold list_text. change (str "]") with [byte_of 93]. by rewrite app_assoc, last_snoc. Qed.

Lemma ParseInlineList_text l : Forall plain_item l -> ParseInlineList (list_text l) = l.
Proof.
  intros Hl. destruct (list_text_ends l) as [Hh He]. unfold ParseInlineList.
  assert (trimmed (list_text l)) as Ht by (unfold trimmed; rewrite Hh, He; done).
  rewrite (Trim_trimmed _ Ht). destruct (list_text l) as [|b s] eqn:E; [done|]. rewrite <- E in *.
  rewrite bool_decide_true by done.
  assert (take (length (list_text l) - 2) (drop 1 (list_text l)) = comma_list l) as ->.
  { unfold list_text. rewrite !length_app.
    change (take (S (length (comma_list l) + 1) - 2) (comma_list l ++ str "]") = comma_list l).
    rewrite take_app_le, take_ge by lia. done. }
  destruct (decide (l = [])) as [->|Hne]; [done|]. rewrite Trim_trimmed by by apply comma_trimmed.
  rewrite comma_tokens by done. by destruct l.
Qed.

Lemma comma_chars c l : c ∉ str ", " -> Forall (fun x => c ∉ x) l -> c ∉ comma_list l.
Proof.
  intros Hc. induction 1 as [|x l Hx Hl IH]; [apply not_elem_of_nil|]. destruct l; [done|].
  change (c ∉ x ++ str ", " ++ comma_list (l :: l0)). rewrite !not_elem_of_app. done.
Qed.

Lemma list_value l : Forall plain_item l -> value_ok (list_text l).
Proof.
  intros Hl. destruct (list_text_ends l) as [Hh He]. split.
  { unfold trimmed. by rewrite Hh, He. }
  unfold list_text. rewrite !not_elem_of_app. split_and!; try (by vm_compute; intros H; repeat (inversion H as [|? ? ? H']; clear H; subst; rename H' into H)).
  all: apply comma_chars; [by vm_compute; intros H; repeat (inversion H as [|? ? ? H']; clear H; subst; rename H' into H)|].
  all: eapply Forall_impl; [exact Hl|]; by intros x [(_ & _ & ? & ?) _].
Qed.

(** ** Lines *)
Definition key_ok (k : string) : Prop :=
  trimmed (str k) /\ COLON ∉ str k /\ HASH ∉ str k /\ NEWLINE ∉ str k /\ head (str k) <> Some (byte_of 45).
#[export] Instance key_ok_dec k : Decision (key_ok k).
Proof. unfold key_ok. apply _. Defined.

Lemma field_split k v : field_text k v = str k ++ COLON :: byte_of 32 :: v.
Proof. reflexivity. Qed.

Lemma parse_pair k v : COLON ∉ k -> trimmed k -> trimmed v -> ParseKeyValue (k ++ COLON :: byte_of 32 :: v) = Some (k, v).
Proof.
  intros Hc Hk Hv. unfold ParseKeyValue. rewrite cut_at_app by done. simpl_bind. rewrite (Trim_trimmed k) by done.
  by rewrite (Trim_indent [byte_of 32] v eq_refl Hv : Trim (byte_of 32 :: v) = v).
Qed.

Lemma not_header line k v : ParseKeyValue line = Some (k, v) -> trimmed v ->
  line <> str "edge_shards:" /\ line <> str "node_db:" /\ line <> str "property_defs:".
Proof. intros Hp Hv. split_and!; intros ->; vm_compute in Hp; injection Hp as _ <-; done. Qed.

(** A line with a key and a value, after any indentation. *)
Lemma load_pair n p k v l :
  forallb isspace p = true -> COLON ∉ k -> HASH ∉ k -> trimmed k -> value_ok v ->
  load_line n (p ++ k ++ COLON :: byte_of 32 :: v) l =
  match root_key n k v l with Some r => r | None => section_line n (k ++ COLON :: byte_of 32 :: v) l end.
Proof.
  intros Hp Hc Hh Hk (Hv & Hvh & _). unfold load_line.
  assert (HASH ∉ p) as Hph.
  { intros [i Hi]%list_elem_of_lookup. rewrite forallb_forall in Hp. apply list_elem_of_lookup_2, list_elem_of_In, Hp in Hi. done. }
  rewrite StripComment_none.
  2:{ rewrite !not_elem_of_app, !not_elem_of_cons. split_and!; try done. }
  pose proof (trimmed_app k v Hk Hv [COLON; byte_of 32]) as Ht. cbn [app] in Ht.
  rewrite Trim_indent by done. destruct (k ++ COLON :: byte_of 32 :: v) as [|b s] eqn:E; [by destruct k|]. rewrite <- E.
  pose proof (parse_pair k v Hc Hk Hv) as Hkv. destruct (not_header _ _ _ Hkv Hv) as (H1 & H2 & H3).
  rewrite !decide_False by done. rewrite Hkv. done.
Qed.

Lemma load_field n p k v l : forallb isspace p = true -> key_ok k -> value_ok v ->
  load_line n (p ++ field_text k v) l =
  match root_key n (str k) v l with Some r => r | None => section_line n (field_text k v) l end.
Proof. intros Hp (? & ? & ? & _) Hv. rewrite field_split. by apply load_pair. Qed.

Lemma root_key_dash n k v l : root_key n (byte_of 45 :: k) v l = None.
Proof. unfold root_key. rewrite !decide_False by discriminate. done. Qed.

Lemma load_item n k v l : key_ok k -> value_ok v ->
  load_line n (item_line k v) l = section_line n (str "- " ++ field_text k v) l.
Proof.
  intros (Hk & Hc & Hh & Hn & Hd) Hv. unfold item_line. rewrite field_split.
  change (str "  - " ++ str k ++ COLON :: byte_of 32 :: v) with ([byte_of 32; byte_of 32] ++ (str "- " ++ str k) ++ COLON :: byte_of 32 :: v).
  rewrite load_pair; [| | | | |done].
  - change (str "- " ++ str k) with (byte_of 45 :: byte_of 32 :: str k). by rewrite root_key_dash.
  - done.
  - change (str "- " ++ str k) with (byte_of 45 :: byte_of 32 :: str k). rewrite !not_elem_of_cons. done.
  - change (str "- " ++ str k) with (byte_of 45 :: byte_of 32 :: str k). rewrite !not_elem_of_cons. done.
  - change (trimmed ([byte_of 45] ++ [byte_of 32] ++ str k)). by apply trimmed_app.
Qed.

Lemma dash_starts s : StartsWith (str "- " ++ s) (str "-") = true.
Proof. unfold StartsWith. by apply bool_decide_true. Qed.

Lemma field_starts k v : key_ok k -> StartsWith (field_text k v) (str "-") = false.
Proof.
  intros (Hk & _ & _ & _ & Hd). rewrite field_split. destruct (str k) as [|b s]; [done|]. unfold StartsWith.
  apply bool_decide_false. intros [= E]. by apply Hd; cbn; f_equal.
Qed.

Lemma item_pair k v : key_ok k -> value_ok v ->
  Trim (drop 1 (str "- " ++ field_text k v)) = field_text k v /\ field_text k v <> [] /\ ParseKeyValue (field_text k v) = Some (str k, v).
Proof.
  intros (Hk & Hc & _) (Hv & _). rewrite field_split. pose proof (trimmed_app (str k) v Hk Hv [COLON; byte_of 32]) as Ht. cbn [app] in Ht.
  split_and!; [by apply (Trim_indent [byte_of 32])|by apply trimmed_nonempty|by apply parse_pair].
Qed.

(** ** Shards *)
Definition root_names : list bytes :=
  [str "max_vertex_num"; str "use_csr_disk"; str "sub_property_num"; str "max_property_length"; str "system_threads"].

Lemma not_root n k v l : k ∉ root_names -> root_key n k v l = None.
Proof.
  unfold root_names. rewrite !not_elem_of_cons. intros (? & ? & ? & ? & ? & _). unfold root_key. by rewrite !decide_False.
Qed.

Definition pair_ok (kv : string * bytes) : Prop := key_ok kv.1 /\ value_ok kv.2 /\ str kv.1 ∉ root_names.

Fixpoint keys_fold (sec : Section_) (n : Z) (kvs : list (string * bytes)) (c : ShardSchema) : result SchemaError ShardSchema :=
  match kvs with
  | [] => Ok c
  | (k, v) :: kvs => c ← shard_key sec (n + 1) (str k) v c; keys_fold sec (n + 1) kvs c
  end.

Lemma load_lines_app n ls ls' l l1 :
  load_lines n ls l = Ok l1 -> load_lines n (ls ++ ls') l = load_lines (n + zlen ls) ls' l1.
Proof.
  revert n l. induction ls as [|x ls IH]; intros n l; cbn [load_lines app]; [intros [= ->]; by rewrite (Z.add_0_r n : n + zlen [] = n)|].
  destruct (load_line (n + 1) x l) as [l2|e]; [|done]. intros H. cbn [mbind result_bind] in *.
  rewrite (IH _ _ H). f_equal. unfold zlen. cbn [length]. lia.
Qed.

Lemma edge_members kvs n l : Forall pair_ok kvs -> section l = kEdgeShards -> edge_shard_open l = true ->
  load_lines n (members kvs) l = (c ← keys_fold kEdgeShards n kvs (curr_edge_shard l); Ok (set_shard c true l)).
Proof.
  intros Hk. revert n l. induction Hk as [|[k v] kvs (Hk & Hv & Hr) _ IH]; intros n l Hs Ho.
  - cbn. f_equal. destruct l. cbn in *. by subst.
  - cbn [members fmap list_fmap load_lines keys_fold fst snd] in *. unfold member_line. rewrite load_field by done. rewrite not_root by done.
    unfold section_line. rewrite Hs. unfold edge_shard_line. rewrite field_starts, Ho by done.
    destruct (item_pair k v Hk Hv) as (_ & _ & ->). unfold shard_field. cbn [fst snd].
    destruct (shard_key _ _ _ _ _) as [c|e]; cbn [mbind result_bind]; [|done].
    change (load_lines (n + 1) (members kvs) (set_shard c true l) = (c1 ← keys_fold kEdgeShards (n + 1) kvs c; Ok (set_shard c1 true l))).
    rewrite IH by done. cbn [curr_edge_shard set_shard]. by destruct (keys_fold _ _ _ _).
Qed.

Lemma node_members kvs n l : Forall pair_ok kvs -> section l = kNodeDb ->
  load_lines n (members kvs) l = (c ← keys_fold kNodeDb n kvs (node_db (schema l)); Ok (set_schema (set_node_db c (schema l)) l)).
Proof.
  intros Hk. revert n l. induction Hk as [|[k v] kvs (Hk & Hv & Hr) _ IH]; intros n l Hs.
  - cbn. f_equal. destruct l as [[]]. done.
  - cbn [members fmap list_fmap load_lines keys_fold fst snd] in *. unfold member_line. rewrite load_field by done. rewrite not_root by done.
    unfold section_line. rewrite Hs. unfold node_db_line.
    destruct (item_pair k v Hk Hv) as (_ & _ & ->).
    destruct (shard_key _ _ _ _ _) as [c|e]; cbn [mbind result_bind]; [|done].
    match goal with |- load_lines _ _ ?l1 = _ => set (l1' := l1) end.
    change (load_lines (n + 1) (members kvs) l1' = (c1 ← keys_fold kNodeDb (n + 1) kvs c; Ok (set_schema (set_node_db c1 (schema l)) l))).
    rewrite IH by done. subst l1'. cbn [schema set_schema set_node_db node_db]. by destruct (keys_fold _ _ _ _).
Qed.

Lemma keys_fold_shard sec n c c0 : shard_printable c -> keys_fold sec n (shard_pairs c) c0 = Ok (set_shard_name (shard_name c0) c).
Proof.
  intros (_ & Hp & Hm & H0 & H1). destruct c as [name props mem csr l0 l1], c0 as [name0 props0 mem0 csr0 l00 l10].
  cbn [shard_pairs keys_fold shard_properties memtable_size is_csr csr_l0_max_sst_num csr_l1_max_sst_num shard_name] in *.
  unfold shard_key. repeat first [rewrite decide_True by done | rewrite decide_False by done | progress cbn [mbind result_bind parsed]
    | rewrite ParseInlineList_text by done | rewrite ParseUint32_to_string by done | rewrite ParseBool_text].
  done.
Qed.

Lemma shard_pairs_ok c : shard_printable c -> Forall pair_ok (shard_pairs c).
Proof.
  intros (_ & Hp & _). unfold shard_pairs, pair_ok.
  repeat (apply Forall_cons; split; [split_and!; [eval_prop|first [by apply list_value|apply number_value|apply bool_value]|eval_prop]|]).
  constructor.
Qed.

Lemma name_value n : plain n -> key_ok "name" /\ value_ok n /\ Unquote n = n.
Proof. intros Hn. split_and!; [eval_prop|by apply plain_value|apply Hn]. Qed.

Lemma load_shard n c l : section l = kEdgeShards -> shard_printable c ->
  load_lines n (print_shard c) l = Ok (set_shard c true (flush_edge_shard l)).
Proof.
  intros Hs Hc. destruct (name_value (shard_name c)) as (Hk & Hv & Hu); [apply Hc|].
  unfold print_shard. cbn [load_lines]. rewrite load_item by done. unfold section_line. rewrite Hs. unfold edge_shard_line.
  rewrite dash_starts. destruct (item_pair "name" (shard_name c) Hk Hv) as (-> & Hne & Hp).
  destruct (field_text "name" (shard_name c)) eqn:E; [done|]. rewrite Hp. unfold shard_field, shard_key. cbn [fst snd].
  rewrite decide_True by done. cbn [mbind result_bind].
  rewrite edge_members by (first [by apply shard_pairs_ok|done|unfold flush_edge_shard; by destruct (edge_shard_open l)]).
  cbn [curr_edge_shard set_shard]. rewrite keys_fold_shard by done. cbn [mbind result_bind]. rewrite Hu. by destruct c.
Qed.

(** The schema with more shards, no shard being open. *)
Definition with_shards (cs : list ShardSchema) (l : Loader) : Loader :=
  let s := schema l in
  set_schema (mkSchema (max_vertex_num s) (use_csr_disk s) (sub_property_num s) (max_property_length s) (system_threads s)
    (property_defs s) (edge_shards s ++ cs) (node_db s)) l.
Definition shard_closed (l : Loader) : Prop := set_shard new_edge_shard false l = l.

Lemma load_shards cs n l : section l = kEdgeShards -> Forall shard_printable cs -> shard_closed (flush_edge_shard l) ->
  exists l', load_lines n (cs ≫= print_shard) l = Ok l' /\ flush_edge_shard l' = with_shards cs (flush_edge_shard l).
Proof.
  unfold shard_closed. intros Hs Hcs. revert n l Hs. induction Hcs as [|c cs Hc _ IH]; intros n l Hs Hcl.
  - exists l. split; [done|]. unfold with_shards. rewrite app_nil_r. by destruct (flush_edge_shard l) as [[]].
  - cbn [mbind list_bind]. rewrite (load_lines_app _ _ _ _ _ (load_shard n c l Hs Hc)).
    assert (flush_edge_shard (set_shard c true (flush_edge_shard l)) = with_shards [c] (flush_edge_shard l)) as E.
    { destruct Hc as [[Hn _] _]. unfold flush_edge_shard at 1. cbn [edge_shard_open set_shard curr_edge_shard].
      destruct (shard_name c) as [|b nm] eqn:En; [done|].
      revert Hcl. destruct (flush_edge_shard l). by intros [= <- <-]. }
    destruct (IH (n + zlen (print_shard c)) (set_shard c true (flush_edge_shard l))) as (l' & E' & F').
    + unfold flush_edge_shard. by destruct (edge_shard_open l).
    + rewrite E. revert Hcl. destruct (flush_edge_shard l). by intros [= <- <-].
    + exists l'. split; [exact E'|]. rewrite F', E. unfold with_shards. cbn [schema set_schema edge_shards].
      by rewrite <- app_assoc.
Qed.

(** ** Property definitions *)
Definition def_printable (d : PropertyDef) : Prop := plain (def_name d) /\ fits 32 (def_length d).

Lemma load_def n d l : section l = kPropertyDefs -> def_printable d ->
  load_lines n (print_def d) l = Ok (set_def d true (flush_prop_def l)).
Proof.
  intros Hs [Hn Hl]. destruct (name_value (def_name d) Hn) as (Hk & Hv & Hu).
  unfold print_def. cbn [load_lines]. rewrite load_item by done. unfold section_line at 1. rewrite Hs. unfold property_def_line at 1.
  rewrite dash_starts. destruct (item_pair "name" (def_name d) Hk Hv) as (-> & Hne & Hp).
  destruct (field_text "name" (def_name d)) eqn:E; [done|]. rewrite Hp. unfold def_field, def_key. cbn [fst snd].
  rewrite decide_True by done. cbn [mbind result_bind]. rewrite Hu.
  assert (key_ok "length") as Hk' by eval_prop. pose proof (number_value (def_length d)) as Hv'.
  unfold member_line. rewrite load_field by done. rewrite not_root by eval_prop. unfold section_line. cbn [section set_def].
  assert (section (flush_prop_def l) = kPropertyDefs) as -> by (unfold flush_prop_def; by destruct (prop_def_open l)).
  unfold property_def_line. rewrite field_starts by done. cbn [prop_def_open set_def].
  destruct (item_pair "length" (to_string (def_length d)) Hk' Hv') as (_ & _ & ->). unfold def_field, def_key. cbn [fst snd].
  rewrite decide_False, decide_True by done. rewrite ParseUint32_to_string by done. by destruct d.
Qed.

Definition with_defs (ds : list PropertyDef) (l : Loader) : Loader :=
  let s := schema l in
  set_schema (mkSchema (max_vertex_num s) (use_csr_disk s) (sub_property_num s) (max_property_length s) (system_threads s)
    (property_defs s ++ ds) (edge_shards s) (node_db s)) l.
Definition def_closed (l : Loader) : Prop := set_def new_def false l = l.

Lemma load_defs ds n l : section l = kPropertyDefs -> Forall def_printable ds -> def_closed (flush_prop_def l) ->
  exists l', load_lines n (ds ≫= print_def) l = Ok l' /\ flush_prop_def l' = with_defs ds (flush_prop_def l).
Proof.
  unfold def_closed. intros Hs Hds. revert n l Hs. induction Hds as [|d ds Hd _ IH]; intros n l Hs Hcl.
  - exists l. split; [done|]. unfold with_defs. rewrite app_nil_r. by destruct (flush_prop_def l) as [[]].
  - cbn [mbind list_bind]. rewrite (load_lines_app _ _ _ _ _ (load_def n d l Hs Hd)).
    assert (flush_prop_def (set_def d true (flush_prop_def l)) = with_defs [d] (flush_prop_def l)) as E.
    { destruct Hd as [[Hn _] _]. unfold flush_prop_def at 1. cbn [prop_def_open set_def curr_prop_def].
      destruct (def_name d) as [|b nm] eqn:En; [done|].
      revert Hcl. destruct (flush_prop_def l). by intros [= <- <-]. }
    destruct (IH (n + zlen (print_def d)) (set_def d true (flush_prop_def l))) as (l' & E' & F').
    + unfold flush_prop_def. by destruct (prop_def_open l).
    + rewrite E. revert Hcl. destruct (flush_prop_def l). by intros [= <- <-].
    + exists l'. split; [exact E'|]. rewrite F', E. unfold with_defs. cbn [schema set_schema property_defs].
      by rewrite <- app_assoc.
Qed.

(** ** The whole file *)
Definition root_lines (s : Schema) : list bytes := take 5 (print_lines s).
Definition root_loader (s : Schema) : Loader :=
  mkLoader (mkSchema (max_vertex_num s) (use_csr_disk s) (sub_property_num s) (max_property_length s) (system_threads s)
    [] [] new_node_shard) kRoot new_edge_shard false new_def false true.

Lemma load_root_field n k v l : key_ok k -> value_ok v -> forall r, root_key n (str k) v l = Some r -> load_line n (field_text k v) l = r.
Proof. intros Hk Hv r Hr. pose proof (load_field n [] k v l eq_refl Hk Hv) as H. cbn [app] in H. by rewrite H, Hr. Qed.

Lemma load_root s : printable s -> load_lines 0 (root_lines s) new_loader = Ok (root_loader s).
Proof.
  intros (Hm & _ & Hsub & _ & Hlen & Ht & _). unfold root_lines, print_lines. cbn [app take load_lines].
  erewrite (load_root_field _ "max_vertex_num"); [|eval_prop|apply number_value|unfold root_key; rewrite ParseUint64_to_string by done; reflexivity].
  cbn [parsed mbind result_bind].
  erewrite (load_root_field _ "use_csr_disk"); [|eval_prop|apply bool_value|unfold root_key; rewrite ParseBool_text by done; reflexivity].
  cbn [parsed mbind result_bind].
  erewrite (load_root_field _ "sub_property_num"); [|eval_prop|apply number_value|unfold root_key; rewrite !ParseUint32_to_string by done; reflexivity].
  cbn [parsed mbind result_bind].
  erewrite (load_root_field _ "max_property_length"); [|eval_prop|apply number_value|unfold root_key; rewrite !ParseUint32_to_string by done; reflexivity].
  cbn [parsed mbind result_bind].
  erewrite (load_root_field _ "system_threads"); [|eval_prop|apply number_value|unfold root_key; rewrite ParseInt_to_string by lia; reflexivity].
  cbn [parsed mbind result_bind option_bind]. by rewrite (proj2 (Z.leb_gt _ _)) by lia.
Qed.

(** The headers of the sections. *)
Lemma load_headers n l :
  load_line n (str "property_defs:") l = Ok (set_section kPropertyDefs (flush_prop_def (flush_edge_shard l))) /\
  load_line n (str "edge_shards:") l = Ok (set_section kEdgeShards (flush_edge_shard (flush_prop_def l))) /\
  load_line n (str "node_db:") l = Ok (set_section kNodeDb (flush_edge_shard (flush_prop_def l))).
Proof. split_and!; reflexivity. Qed.

Lemma load_defs_section s n : printable s ->
  exists l, load_lines n (str "property_defs:" :: (property_defs s ≫= print_def)) (root_loader s) = Ok l /\
    flush_prop_def l = with_defs (property_defs s) (set_section kPropertyDefs (root_loader s)).
Proof.
  intros Hp. cbn [load_lines]. rewrite (proj1 (load_headers _ _)). cbn [mbind result_bind].
  apply load_defs; [done|apply Hp|done].
Qed.

Lemma load_printed s : printable s ->
  exists l, load_lines 0 (print_lines s) new_loader = Ok l /\ finish_schema l = Ok s.
Proof.
  intros Hp. destruct (load_defs_section s (0 + zlen (root_lines s)) Hp) as (l1 & E1 & F1).
  change (print_lines s) with (root_lines s ++ (str "property_defs:" :: (property_defs s ≫= print_def)) ++
    str "edge_shards:" :: (edge_shards s ≫= print_shard) ++ str "node_db:" :: print_node (node_db s)).
  rewrite (load_lines_app _ _ _ _ _ (load_root s Hp)), (load_lines_app _ _ _ _ _ E1). cbn [load_lines].
  rewrite (proj1 (proj2 (load_headers _ _))). cbn [mbind result_bind]. rewrite F1.
  destruct Hp as (Hm & Hm0 & Hsub & Hsub0 & Hlen & Ht & Hd & Hne & Hes & Hnode).
  match goal with |- context [load_lines ?n (_ ++ _) ?l] => destruct (load_shards (edge_shards s) n l) as (l2 & E2 & F2) end; [done..|].
  rewrite (load_lines_app _ _ _ _ _ E2). cbn [load_lines]. rewrite (proj2 (proj2 (load_headers _ _))). cbn [mbind result_bind].
  assert (flush_prop_def l2 = l2) as ->.
  { assert (prop_def_open l2 = prop_def_open (flush_edge_shard l2)) as Hop by (unfold flush_edge_shard; by destruct (edge_shard_open l2)).
    unfold flush_prop_def. by rewrite Hop, F2. }
  rewrite F2. unfold print_node. rewrite node_members.
  2:{ apply Forall_cons. split; [|by apply shard_pairs_ok]. destruct (name_value (shard_name (node_db s))) as (Hk & Hv & _); [apply Hnode|].
      split_and!; [done|done|eval_prop]. }
  2: done.
  cbn [keys_fold]. unfold shard_key at 1. rewrite decide_True by done. cbn [mbind result_bind].
  rewrite keys_fold_shard by done. cbn [mbind result_bind]. eexists. split; [done|].
  unfold finish_schema, flush_edge_shard, flush_prop_def. cbn.
  rewrite (proj2 (Z.eqb_neq _ _) Hm0), (proj2 (Z.eqb_neq _ _) Hsub0), (proj2 (Z.leb_gt _ _)) by lia.
  rewrite decide_False by done. destruct Hnode as ((Hnn & Hnu & _) & _). rewrite Hnu. destruct s as [? ? ? ? ? ? ? [[]]]; done.
Qed.

Lemma printed_lines s : printable s -> Forall (fun l => NEWLINE ∉ l) (print_lines s).
Proof.
  intros (_ & _ & _ & _ & _ & _ & Hd & _ & He & Hn).
  assert (forall k v p, key_ok k -> value_ok v -> NEWLINE ∉ p -> NEWLINE ∉ p ++ field_text k v) as Hf.
  { intros k v p (_ & _ & _ & Hk & _) (_ & _ & Hv) Hp. rewrite field_split, !not_elem_of_app, !not_elem_of_cons. done. }
  assert (forall kvs, Forall pair_ok kvs -> Forall (fun l => NEWLINE ∉ l) (members kvs)) as Hm.
  { intros kvs Hk. apply Forall_fmap. eapply Forall_impl; [exact Hk|]. intros [k v] (? & ? & _). apply Hf; [done|done|by eval_prop]. }
  unfold print_lines. repeat (apply Forall_app; split).
  - repeat (apply Forall_cons; split; [apply (Hf _ _ []); [eval_prop|apply number_value || apply bool_value|eval_prop]|]). constructor.
  - apply Forall_cons. split; [eval_prop|]. apply Forall_app. split.
    + apply Forall_bind. eapply Forall_impl; [exact Hd|]. intros d [Hdn _].
      repeat (apply Forall_cons; split; [apply Hf; [eval_prop|first [by apply plain_value|apply number_value]|eval_prop]|]). constructor.
    + apply Forall_cons. split; [eval_prop|]. apply Forall_app. split.
      * apply Forall_bind. eapply Forall_impl; [exact He|]. intros c Hc. apply Forall_cons. split; [|by apply Hm, shard_pairs_ok].
        apply Hf; [eval_prop|apply plain_value, Hc|eval_prop].
      * apply Forall_cons. split; [eval_prop|]. apply Hm, Forall_cons. split; [|by apply shard_pairs_ok].
        split_and!; [eval_prop|apply plain_value, Hn|eval_prop].
Qed.

(** C20: A schema written to a file is loaded back exactly: every field of every
    property definition, edge shard and the node shard, in order. *)
Theorem schema_roundtrip s : printable s -> LoadSchemaFromYaml (Some (print_schema s)) = Ok s.
Proof.
  intros Hp. unfold LoadSchemaFromYaml, print_schema. rewrite getlines_unlines by by apply printed_lines.
  destruct (load_printed s Hp) as (l & -> & Hl). exact Hl.
Qed.

Definition sample_schema : Schema :=
  mkSchema 1024 false 2 32 2 [mkDef (str "amount") 32; mkDef (str "name") 16]
    [mkShard (str "edge_Db0") [str "amount"; str "time of day"] 100 true 8 10000; mkShard (str "edge_Db1") [] 0 false 4 50]
    (mkShard (str "node_Db") [str "name"] 0 false 8 10000).

Lemma schema_roundtrip_witness : LoadSchemaFromYaml (Some (print_schema sample_schema)) = Ok sample_schema.
Proof. apply (schema_roundtrip sample_schema). apply (bool_decide_unpack _). vm_compute. exact I. Defined.

(** ** What an accepted schema guarantees

    The invariant of the loader and what it leaves for the rest of the facade
    to rely on, whatever the text. *)

Definition shard_wf (c : ShardSchema) : Prop :=
  Forall (fun p => p <> []) (shard_properties c) /\ fits 32 (memtable_size c) /\
  fits 32 (csr_l0_max_sst_num c) /\ fits 32 (csr_l1_max_sst_num c).

Record schema_wf (s : Schema) : Prop := {
  wf_vertices : fits 64 (max_vertex_num s);
  wf_columns : fits 32 (sub_property_num s);
  wf_length : fits 32 (max_property_length s);
  wf_threads : 0 < system_threads s < 2 ^ 31;
  wf_defs : Forall (fun d => def_name d <> [] /\ fits 32 (def_length d)) (property_defs s);
  wf_shards : Forall (fun c => shard_name c <> [] /\ shard_wf c) (edge_shards s);
  wf_node : shard_wf (node_db s);
}.

(** The loader between two lines. *)
Record loader_wf (l : Loader) : Prop := {
  lw_schema : schema_wf (schema l);
  lw_shard : shard_wf (curr_edge_shard l);
  lw_def : fits 32 (def_length (curr_prop_def l));
}.

Lemma push_token_nonempty s : Forall (fun p => p <> []) (push_token s).
Proof. unfold push_token. destruct (Unquote (Trim s)); [constructor|]. by repeat constructor. Qed.

Lemma ParseInlineList_nonempty s : Forall (fun p => p <> []) (ParseInlineList s).
Proof.
  unfold ParseInlineList. destruct (Trim s) as [|b t]; [constructor|].
  match goal with |- context [getlines COMMA [] ?u] => set (r := u) end. destruct (getlines COMMA [] r ≫= push_token) eqn:E.
  - apply push_token_nonempty.
  - rewrite <- E. apply Forall_bind, Forall_forall. intros x _. apply push_token_nonempty.
Qed.

Lemma parsed_Ok {A} sec k n (o : option A) a : parsed sec k n o = Ok a -> o = Some a.
Proof. unfold parsed. destruct o; [by intros [= ->]|done]. Qed.

(** Splits a chain of key tests and the parse of a value. *)
Ltac key_cases :=
  repeat match goal with
  | H : (if decide _ then _ else _) = _ |- _ => destruct (decide _)
  | H : (_ ≫= _) = Ok _ |- _ => apply bind_Ok_inv in H as (? & ?%parsed_Ok & H)
  | H : Ok _ = Ok _ |- _ => injection H as <-
  | H : Err _ = Ok _ |- _ => discriminate H
  end.

Lemma shard_key_wf sec n k v c c' : shard_wf c -> shard_key sec n k v c = Ok c' -> shard_wf c'.
Proof.
  intros (Hp & Hm & H0 & H1) H. unfold shard_key in H. key_cases; unfold shard_wf;
    cbn [set_shard_name shard_properties memtable_size csr_l0_max_sst_num csr_l1_max_sst_num];
    split_and!; try done; first [apply ParseInlineList_nonempty|by eapply ParseUint32_fits].
Qed.

Lemma def_key_wf n k v d d' : fits 32 (def_length d) -> def_key n k v d = Ok d' -> fits 32 (def_length d').
Proof. intros Hd H. unfold def_key in H. key_cases; [done|by eapply ParseUint32_fits]. Qed.

Lemma new_shard_wf : shard_wf new_edge_shard.
Proof. split_and!; [constructor|eval_prop..]. Qed.

Lemma flush_shard_wf l : loader_wf l -> loader_wf (flush_edge_shard l).
Proof.
  intros Hl. unfold flush_edge_shard. destruct (edge_shard_open l); [|done]. destruct Hl as [[H1 H2 H3 H4 H5 H6 H7] Hc Hd].
  split; [split; try done|apply new_shard_wf|done]. cbn [schema set_shard set_schema add_edge_shard edge_shards].
  apply Forall_app. split; [done|]. apply Forall_singleton. by destruct (shard_name (curr_edge_shard l)) eqn:E; [|rewrite E].
Qed.

Lemma flush_def_wf l : loader_wf l -> loader_wf (flush_prop_def l).
Proof.
  intros Hl. unfold flush_prop_def. destruct (prop_def_open l); [|done]. destruct Hl as [[H1 H2 H3 H4 H5 H6 H7] Hc Hd].
  destruct (def_name (curr_prop_def l)) eqn:E; (split; [split; try done|done|by cbn]).
  cbn [schema set_def set_schema add_property_def property_defs]. apply Forall_app. split; [done|]. apply Forall_singleton. by rewrite E.
Qed.

Lemma root_key_wf n k v l l' : loader_wf l -> root_key n k v l = Some (Ok l') -> loader_wf l'.
Proof.
  intros [[H1 H2 H3 H4 H5 H6 H7] Hc Hd] H. unfold root_key in H.
  repeat match goal with
  | H : (if decide _ then _ else _) = Some _ |- _ => destruct (decide _); [injection H as H|]
  | H : None = Some _ |- _ => discriminate H
  end; key_cases; (split; [split; try done|done|done]); cbn;
    first [by eapply ParseUint64_fits|by eapply ParseUint32_fits|idtac].
  match goal with H : _ = Some x |- _ => rename H into Hx end. destruct (ParseInt v) as [z|] eqn:Ez; [|done].
  apply ParseInt_fits in Ez. cbn in Hx. destruct (Z.leb_spec z 0); [done|]. injection Hx as <-. destruct Ez as [_ Ez]. done.
Qed.

Lemma section_line_wf n line l l' : loader_wf l -> section_line n line l = Ok l' -> loader_wf l'.
Proof.
  assert (forall kv m m', loader_wf m -> shard_field n kv m = Ok m' -> loader_wf m') as Hshard.
  { intros kv m m' [Hs Hc Hd] H. unfold shard_field in H. apply bind_Ok_inv in H as (c & Hk & [= <-]).
    split; [done| |done]. by eapply shard_key_wf in Hk. }
  assert (forall kv m m', loader_wf m -> def_field n kv m = Ok m' -> loader_wf m') as Hdef.
  { intros kv m m' [Hs Hc Hd] H. unfold def_field in H. apply bind_Ok_inv in H as (d & Hk & [= <-]).
    split; [done|done|]. by eapply def_key_wf in Hk. }
  assert (forall m, loader_wf m -> loader_wf (set_shard new_edge_shard true m)) as Hns
    by (intros m [? ? ?]; split; [done|apply new_shard_wf|done]).
  assert (forall m, loader_wf m -> loader_wf (set_def new_def true m)) as Hnd by (intros m [? ? ?]; split; [done|done|eval_prop]).
  intros Hl H. unfold section_line in H. destruct (section l); [done|..].
  - unfold edge_shard_line in H. destruct (StartsWith line (str "-")).
    + destruct (Trim (drop 1 line)) as [|b t]; [injection H as <-; by apply Hns, flush_shard_wf|].
      destruct (ParseKeyValue (b :: t)) as [kv|]; [|done]. eapply Hshard; [|exact H]. by apply Hns, flush_shard_wf.
    + destruct (ParseKeyValue line) as [kv|]; [|done]. eapply Hshard; [|exact H]. destruct (edge_shard_open l); [done|by apply Hns].
  - unfold node_db_line in H. destruct (ParseKeyValue line) as [[k v]|]; [|done]. apply bind_Ok_inv in H as (c & Hk & [= <-]).
    destruct Hl as [[H1 H2 H3 H4 H5 H6 H7] Hc Hd]. split; [split; try done|done|done]. by eapply shard_key_wf in Hk.
  - unfold property_def_line in H. destruct (StartsWith line (str "-")).
    + destruct (Trim (drop 1 line)) as [|b t]; [injection H as <-; by apply Hnd, flush_def_wf|].
      destruct (ParseKeyValue (b :: t)) as [kv|]; [|done]. eapply Hdef; [|exact H]. by apply Hnd, flush_def_wf.
    + destruct (ParseKeyValue line) as [kv|]; [|done]. eapply Hdef; [|exact H]. destruct (prop_def_open l); [done|by apply Hnd].
Qed.

Lemma load_line_wf n raw l l' : loader_wf l -> load_line n raw l = Ok l' -> loader_wf l'.
Proof.
  assert (forall sec m, loader_wf m -> loader_wf (set_section sec m)) as Hsec by (by intros sec m [? ? ?]; split).
  intros Hl H. unfold load_line in H. destruct (Trim (StripComment raw)) as [|b line]; [by injection H as <-|].
  do 3 (case_decide; [injection H as <-; first [by apply Hsec, flush_shard_wf, flush_def_wf|by apply Hsec, flush_def_wf, flush_shard_wf]|]).
  destruct (ParseKeyValue (b :: line)) as [[k v]|]; simpl in H; [|by eapply section_line_wf].
  destruct (root_key n k v l) as [r|] eqn:E; [subst r; by eapply root_key_wf|by eapply section_line_wf].
Qed.

Lemma load_lines_wf ls n l l' : loader_wf l -> load_lines n ls l = Ok l' -> loader_wf l'.
Proof.
  revert n l. induction ls as [|x ls IH]; intros n l Hl; cbn [load_lines]; [by intros [= <-]|].
  intros (l1 & H1 & H2)%bind_Ok_inv. eapply IH; [|exact H2]. by eapply load_line_wf.
Qed.

(** C33: Every accepted schema file describes a database that can be opened: there
    are vertices and at least one edge shard, every number is in the range of
    its type, there is at least one thread, every shard, definition and column
    has a non-empty name, and the number of columns is positive (unless some
    shard has 2^32 of them). *)
Theorem accepted_schema_wf file s : LoadSchemaFromYaml file = Ok s ->
  schema_wf s /\ max_vertex_num s <> 0 /\ edge_shards s <> [] /\ shard_name (node_db s) <> [] /\
  (max_columns s < 2 ^ 32 -> 0 < sub_property_num s).
Proof.
  destruct file as [text|]; [|done]. intros (l & Hl & Hf)%bind_Ok_inv.
  apply load_lines_wf in Hl; [|split; [split|apply new_shard_wf|eval_prop]; first [eval_prop|constructor|apply new_shard_wf]].
  apply flush_shard_wf, flush_def_wf in Hl. unfold finish_schema in Hf. destruct Hl as [[H1 H2 H3 H4 H5 H6 H7] _ _].
  set (l' := flush_prop_def (flush_edge_shard l)) in *. destruct (_ || _) eqn:Ev; [done|]. case_decide as He; [done|].
  injection Hf as <-. apply orb_false_iff in Ev as [_ Ev]. apply Z.eqb_neq in Ev.
  rewrite (proj2 (Z.leb_gt _ _)) by lia. split_and!; [|done|done| |].
  - split; try done; cbn.
    + destruct (sub_property_num (schema l') =? 0); [by apply wrap_fits|done].
    + by destruct (shard_name (node_db (schema l'))) eqn:E.
  - cbn. by destruct (shard_name (node_db (schema l'))) eqn:E; [|rewrite E].
  - cbn [sub_property_num]. intros Hmax.
    assert (forall cs m, 0 <= m -> 0 <= foldl (fun m c => Z.max m (zlen (shard_properties c))) m cs) as Hpos
      by (clear; induction cs as [|c cs IH]; intros m Hm; [done|]; cbn [foldl]; apply IH; lia).
    destruct (Z.eqb_spec (sub_property_num (schema l')) 0) as [|Hn]; [|destruct H2; lia].
    assert (0 <= max_columns (schema l') < 2 ^ 32) as Hm.
    { split; [apply Hpos; unfold zlen; lia|]. revert Hmax. unfold max_columns. cbn [node_db edge_shards].
      destruct (shard_name (node_db (schema l'))); done. }
    unfold u32. rewrite wrap_small; destruct (Z.eqb_spec (max_columns (schema l')) 0); unfold fits; lia.
Qed.

(** A file with comments, blank lines and defaults. *)
Definition sample_text : bytes :=
  str "max_vertex_num: 10 # vertices" ++ [NEWLINE; NEWLINE] ++ str "edge_shards:" ++ [NEWLINE] ++
  str "  - properties: ['a', b]" ++ [NEWLINE] ++ str "  - name: e2" ++ [NEWLINE].
Definition sample_loaded : Schema :=
  mkSchema 10 false 2 10 1 [] [mkShard (str "edge_Db0") [str "a"; str "b"] 0 false 8 10000; mkShard (str "e2") [] 0 false 8 10000]
    new_node_shard.

Lemma accepted_schema_wf_witness :
  LoadSchemaFromYaml (Some sample_text) = Ok sample_loaded /\ 0 < sub_property_num sample_loaded.
Proof.
  assert (LoadSchemaFromYaml (Some sample_text) = Ok sample_loaded) as H by (vm_compute; reflexivity).
  split; [exact H|]. apply (accepted_schema_wf (Some sample_text) sample_loaded H). vm_compute. reflexivity.
Defined.

(** Numbers are taken from a prefix of the value, and a negative one wraps: a
    file that asks for -1 vertices is accepted with 2^64 - 1, and "1e6" is 1. *)
Example number_prefix_accepted :
  max_vertex_num <$> (match LoadSchemaFromYaml (Some (str "max_vertex_num: -1" ++ [NEWLINE] ++ str "edge_shards:" ++ [NEWLINE] ++ str "-")) with
    | Ok s => Some s | Err _ => None end) = Some UINT64_MAX /\
  ParseUint64 (str "1e6") = Some 1.
Proof. split; vm_compute; reflexivity. Qed.

(** A comment starts at the first '#', also inside quotes. *)
Example quoted_hash_cut : Unquote (Trim (StripComment (str "'a#b'"))) = str "'a".
Proof. vm_compute. reflexivity. Qed.
