(* ===== verification/GraphDb.v ===== *)
(** * The database facade

    [GraphDb] of include/richgraph/graph_db.h and src/graph_db.cpp: property
    names are routed to the columns of edge shards and one node shard, each an
    LSM store.  The facade is written against the interface of a store (the
    class [LSMGraph] below), the way the code calls it through [LSMGraph*].

    An [unordered_map] argument is the list of its items in the order the
    container iterates (its keys are distinct); the order in which the set of
    touched shards iterates is the parameter [order].  [None] is a call that
    waits, fails an assertion or accesses memory outside an object. *)

From S2P Require Import Prelude.
From S2P Require Import Types.
From S2P Require Import Names.
From S2P Require Import PropertyLayout.
From S2P Require Import UpdateManager.
From S2P Require Import LsmRead.
From S2P Require Import EdgeIterators.
From S2P Require Import GraphSchema.

(** ** The interface of a store *)

(** The arguments of the constructor; [cfg_flags] are the process flags it reads. *)
Record StoreConfig := mkConfig {
  cfg_dir : bytes;
  cfg_max_vertex_num : Z;
  cfg_threads : Z;
  cfg_memtable_count : Z;
  cfg_lengths : list Z;
  cfg_memtable_size : Z;
  cfg_is_csr : bool;
  cfg_csr_l0_max_sst_num : Z;
  cfg_csr_l1_max_sst_num : Z;
  cfg_kind : PropertyObjectKind;
  cfg_shard_id : Z;
  cfg_updates : PropertyUpdateOptions;
  cfg_flags : Flags;
}.

Class LSMGraph (Db : Type) := {
  (** the constructor; [None] is the exception it throws *)
  db_open : StoreConfig -> option Db;
  db_put_edge : Db -> Z -> Z -> bytes -> EdgeInsertMode -> bool -> Z -> Z -> option Db;
  db_update_edge : Db -> Z -> Z -> bytes -> bool -> Z -> bool -> Z -> option Db;
  db_GetEdge : Db -> Z -> Z -> Z -> bool -> Z -> option (Status * option bytes);
  db_LocateEdge : Db -> Z -> Z -> bool -> Z -> option (Status * LSMEdgeLocation);
  (** [Get_Edges] at [MAX_SEQ_ID], driven to its end *)
  db_Get_Edges : Db -> Z -> Z -> bool -> Z -> option (list Entry);
  db_new_vertex : Db -> Db * Z;
  db_InitVerticesUpTo : Z -> Db -> Db;
  db_NextTopologySequence : Db -> Z;
  db_GetMaxPropertyCommitSequence : Db -> Z;
}.

(** ** State *)
Record PropertyRoute := mkRoute { shard_idx : nat; local_property_id : Z }.

(** [EdgeShardHandle] and [NodeShardHandle] *)
Record ShardHandle (Db : Type) := mkHandle {
  h_name : bytes;
  h_properties : list bytes;
  property_lengths : list Z;
  property_to_local_id : gmap bytes Z;
  h_db : Db;
}.
Arguments mkHandle {Db}.
Arguments h_name {Db}.
Arguments h_properties {Db}.
Arguments property_lengths {Db}.
Arguments property_to_local_id {Db}.
Arguments h_db {Db}.

Record GraphDb (Db : Type) := mkGraphDb {
  base_dir_ : bytes;
  edge_shards_ : list (ShardHandle Db);
  node_shard_ : ShardHandle Db;
  edge_property_to_route_ : gmap bytes PropertyRoute;
  node_property_to_route_ : gmap bytes PropertyRoute;
  next_sequence_ : Z;
  property_update_manager_ : option Manager;
}.
Arguments mkGraphDb {Db}.
Arguments base_dir_ {Db}.
Arguments edge_shards_ {Db}.
Arguments node_shard_ {Db}.
Arguments edge_property_to_route_ {Db}.
Arguments node_property_to_route_ {Db}.
Arguments next_sequence_ {Db}.
Arguments property_update_manager_ {Db}.

Abbreviation Properties := (list (bytes * bytes)).

(** [find] on an [unordered_map] *)
Definition find_property (name : bytes) (properties : Properties) : option bytes :=
  snd ∘ snd <$> list_find (fun kv => kv.1 = name) properties.

Record GraphDbStorageLocation := mkStorage {
  loc_in_memtable : bool;
  loc_shard_idx : nat;
  loc_local_property_id : Z;
  loc_target_id : Z;
  loc_sequence : Z;
}.

Record GraphDbEdgeScanRecord := mkScanRecord { rec_dst : Z; rec_sequence : Z; rec_properties : gmap bytes bytes }.

Section Facade.
Context {Db : Type}.
Implicit Types (g : GraphDb Db) (properties : Properties).

Definition set_handle_db (db : Db) (h : ShardHandle Db) : ShardHandle Db :=
  mkHandle (h_name h) (h_properties h) (property_lengths h) (property_to_local_id h) db.
Definition set_shards (shards : list (ShardHandle Db)) (node : ShardHandle Db) g : GraphDb Db :=
  mkGraphDb (base_dir_ g) shards node (edge_property_to_route_ g) (node_property_to_route_ g) (next_sequence_ g)
    (property_update_manager_ g).
Definition set_next_sequence (n : Z) g : GraphDb Db :=
  mkGraphDb (base_dir_ g) (edge_shards_ g) (node_shard_ g) (edge_property_to_route_ g) (node_property_to_route_ g) n
    (property_update_manager_ g).
Definition set_manager (m : Manager) g : GraphDb Db :=
  mkGraphDb (base_dir_ g) (edge_shards_ g) (node_shard_ g) (edge_property_to_route_ g) (node_property_to_route_ g)
    (next_sequence_ g) (Some m).

(** ** Sequences *)
Definition NextSequence g : Z * GraphDb Db := (next_sequence_ g, set_next_sequence (next_sequence_ g + 1) g).

Definition ObserveSequence (sequence : Z) g : GraphDb Db :=
  if (sequence <? 0) || (sequence =? kMaxSequence) then g
  else if next_sequence_ g <? sequence + 1 then set_next_sequence (sequence + 1) g else g.

(** ** Property strings and routes *)
Fixpoint join_columns (first : bool) (order : list bytes) (properties : Properties) : bytes :=
  match order with
  | [] => []
  | name :: order =>
      (if first then [] else str "|") ++ default [] (find_property name properties) ++ join_columns false order properties
  end.

Definition BuildShardPropertyString (local_property_order : list bytes) (properties : Properties) : bytes :=
  join_columns true local_property_order properties.

(** [None] is an unknown property. *)
Fixpoint resolve_routes (routes : gmap bytes PropertyRoute) (seen : gset bytes) (names : list bytes)
  : option (list (bytes * PropertyRoute)) :=
  match names with
  | [] => Some []
  | p :: names =>
      if bool_decide (p = []) || bool_decide (p ∈ seen) then resolve_routes routes seen names
      else r ← routes !! p; rest ← resolve_routes routes ({[p]} ∪ seen) names; Some ((p, r) :: rest)
  end.

Definition nonempty_routes (routes : option (list (bytes * PropertyRoute))) : result Status (list (bytes * PropertyRoute)) :=
  match routes with
  | None | Some [] => Err kInvalidArgument
  | Some routes => Ok routes
  end.

Definition ResolveEdgePropertyRoutes g (property_names : list bytes) : result Status (list (bytes * PropertyRoute)) :=
  nonempty_routes (resolve_routes (edge_property_to_route_ g) ∅ property_names).
Definition ResolveNodePropertyRoutes g (property_names : list bytes) : result Status (list (bytes * PropertyRoute)) :=
  nonempty_routes (resolve_routes (node_property_to_route_ g) ∅ property_names).

(** The shards a write touches; [None] is an unknown property. *)
Definition touched_shards g properties : option (list nat) :=
  routes ← mapM (fun kv => edge_property_to_route_ g !! kv.1) properties;
  Some (remove_dups (shard_idx <$> routes)).

(** ** Buffered updates *)
Abbreviation PropertyVersionKey := (Z * Z)%type.

(** [emplace] keeps the first entry of a key. *)
Definition CaptureBufferedProperties (manager : option Manager) (kind : PropertyObjectKind) (shard_id property_id src : Z)
    (is_out : bool) (edge_type : Z) : gmap PropertyVersionKey bytes :=
  match manager with
  | None => ∅
  | Some m =>
      foldl (fun snapshot item =>
        let key := (sn_dst item, sn_base_sequence item) in
        match snapshot !! key with Some _ => snapshot | None => <[key := sn_value item]> snapshot end)
        ∅ (SnapshotForSource m kind shard_id property_id src is_out edge_type)
  end.

Definition ResolveBufferedProperty (snapshot : gmap PropertyVersionKey bytes) (dst sequence : Z) (base_value : bytes) : bytes :=
  default base_value (snapshot !! (dst, sequence)).

(** [SubmitBatch] and the status its caller makes of it; [None] waits. *)
Definition submit_updates (update_size : Z) (updates : list BufferedPropertyUpdate) (m : Manager) g
  : option (Status * option Z * GraphDb Db) :=
  match submit_checks update_size (options_ m) updates with
  | Err _ => Some (kBackgroundError, None, g)
  | Ok batch_bytes =>
      match submit_first m updates batch_bytes with
      | Blocked _ _ => None
      | Rejected _ m => Some (kBackgroundError, None, set_manager m g)
      | Committed us m => Some (kOk, commit_sequence ∘ u_record <$> head us, set_manager m g)
      end
  end.

Context `{!LSMGraph Db}.

(** ** [Init]

    [create_directories] is the outcome of the file system call. *)
Definition length_by_name (defs : list PropertyDef) : gmap bytes Z :=
  foldl (fun m def => if bool_decide (def_name def = []) then m else <[def_name def := Z.max 1 (def_length def)]> m) ∅ defs.

Definition resolve_property_length (schema : Schema) (name : bytes) : Z :=
  default (Z.max 1 (max_property_length schema)) (length_by_name (property_defs schema) !! name).

Definition resolve_memtable_size (options : GraphDbOptions) (shard_memtable_size : Z) : Z :=
  Z.max 1 (if shard_memtable_size =? 0 then u32 (default_memtable_capacity options) else shard_memtable_size).

Definition background_thread_count (schema : Schema) (options : GraphDbOptions) : Z :=
  if background_threads options =? 0 then Z.max 1 (system_threads schema) else signed 32 (background_threads options).

Definition store_config (schema : Schema) (options : GraphDbOptions) (kind : PropertyObjectKind) (id : Z) (dir : bytes)
    (lengths : list Z) (s : ShardSchema) : StoreConfig :=
  mkConfig dir (max_vertex_num schema) (background_thread_count schema options) (signed 32 (memtable_count options)) lengths
    (resolve_memtable_size options (memtable_size s)) (is_csr s) (csr_l0_max_sst_num s) (csr_l1_max_sst_num s) kind id
    (property_updates options) (mkFlags (sub_property_num schema) (max_property_length schema)).

(** [emplace] keeps the first entry of a name. *)
Definition emplace_id (name : bytes) (pid : Z) (ids : gmap bytes Z) : gmap bytes Z :=
  match ids !! name with Some _ => ids | None => <[name := pid]> ids end.

(** How a shard fails to open: a status [Init] returns, or the exception of the
    store's constructor, which nothing catches. *)
Inductive OpenError := Returned (status : Status) | Thrown.

Definition checked {A} (r : result Status A) : result OpenError A :=
  match r with Ok a => Ok a | Err e => Err (Returned e) end.
Definition make_store (cfg : StoreConfig) : result OpenError Db :=
  match db_open cfg with Some db => Ok db | None => Err Thrown end.

(** The columns of edge shard [i]. *)
Fixpoint route_columns (i : nat) (pid : Z) (names : list bytes) (ids : gmap bytes Z) (routes : gmap bytes PropertyRoute)
  : result Status (gmap bytes Z * gmap bytes PropertyRoute) :=
  match names with
  | [] => Ok (ids, routes)
  | name :: names =>
      if bool_decide (name = []) then Err kInvalidArgument
      else match routes !! name with
        | Some _ => Err kInvalidArgument
        | None => route_columns i (pid + 1) names (emplace_id name pid ids) (<[name := mkRoute i pid]> routes)
        end
  end.

Definition open_edge_shard (create_directories : bytes -> bool) (base_dir : bytes) (schema : Schema) (options : GraphDbOptions)
    (i : nat) (s : ShardSchema) (routes : gmap bytes PropertyRoute) : result OpenError (ShardHandle Db * gmap bytes PropertyRoute) :=
  let name := if bool_decide (shard_name s = []) then str "edge_Db" ++ to_string (Z.of_nat i) else shard_name s in
  let shard_dir := base_dir ++ str "/" ++ name in
  if negb (create_directories shard_dir) then Err (Returned kIOError)
  else
    '(ids, routes) ← checked (route_columns i 0 (shard_properties s) ∅ routes);
    let lengths := resolve_property_length schema <$> shard_properties s in
    db ← make_store (store_config schema options kEdge (Z.of_nat i) shard_dir lengths s);
    Ok (mkHandle name (shard_properties s) lengths ids db, routes).

Fixpoint open_edge_shards (create_directories : bytes -> bool) (base_dir : bytes) (schema : Schema) (options : GraphDbOptions)
    (i : nat) (shards : list ShardSchema) (routes : gmap bytes PropertyRoute)
  : result OpenError (list (ShardHandle Db) * gmap bytes PropertyRoute) :=
  match shards with
  | [] => Ok ([], routes)
  | s :: shards =>
      '(h, routes) ← open_edge_shard create_directories base_dir schema options i s routes;
      '(hs, routes) ← open_edge_shards create_directories base_dir schema options (S i) shards routes;
      Ok (h :: hs, routes)
  end.

(** The columns of the node shard: a repeated name is not refused. *)
Fixpoint route_node_columns (pid : Z) (names : list bytes) (ids : gmap bytes Z) (routes : gmap bytes PropertyRoute)
  : result Status (gmap bytes Z * gmap bytes PropertyRoute) :=
  match names with
  | [] => Ok (ids, routes)
  | name :: names =>
      if bool_decide (name = []) then Err kInvalidArgument
      else route_node_columns (pid + 1) names (emplace_id name pid ids) (<[name := mkRoute 0 pid]> routes)
  end.

Definition open_node_shard (create_directories : bytes -> bool) (base_dir : bytes) (schema : Schema) (options : GraphDbOptions)
  : result OpenError (ShardHandle Db * gmap bytes PropertyRoute) :=
  let s := node_db schema in
  let name := if bool_decide (shard_name s = []) then str "node_Db" else shard_name s in
  let node_dir := base_dir ++ str "/" ++ name in
  if negb (create_directories node_dir) then Err (Returned kIOError)
  else
    let lengths := resolve_property_length schema <$> shard_properties s in
    db ← make_store (store_config schema options kNode 0 node_dir lengths s);
    '(ids, routes) ← checked (route_node_columns 0 (shard_properties s) ∅ ∅);
    Ok (mkHandle name (shard_properties s) lengths ids db, routes).

(** [None] is an exception of a store's or of the manager's constructor. *)
Definition Init (create_directories : bytes -> bool) (base_dir : bytes) (schema : Schema) (options : GraphDbOptions)
  : option (result Status (GraphDb Db)) :=
  let shards :=
    if negb (create_directories base_dir) then Err (Returned kIOError)
    else
      '(edges, eroutes) ← open_edge_shards create_directories base_dir schema options 0 (edge_shards schema) ∅;
      '(node, nroutes) ← open_node_shard create_directories base_dir schema options;
      Ok (edges, node, eroutes, nroutes) in
  match shards with
  | Err (Returned e) => Some (Err e)
  | Err Thrown => None
  | Ok (edges, node, eroutes, nroutes) =>
      let stores := (h_db <$> edges) ++ [h_db node] in
      let recovered_next_sequence := foldl Z.max 0 (db_NextTopologySequence <$> stores) in
      let g m := mkGraphDb base_dir edges node eroutes nroutes recovered_next_sequence m in
      if enabled (property_updates options) then
        let initial := foldl Z.max 1 ((fun s => u64 (db_GetMaxPropertyCommitSequence s + 1)) <$> stores) in
        match new_manager (property_updates options) true initial with
        | Ok m => Some (Ok (g (Some m)))
        | Err _ => None
        end
      else Some (Ok (g None))
  end.

(** The store the manager's flush callback hands a batch to; [None] is the
    reported error of an unavailable shard. *)
Definition flush_store g (target : PropertyDeltaTarget) : option Db :=
  match kind target with
  | kNode => Some (h_db (node_shard_ g))
  | kEdge => if shard_id target <? zlen (edge_shards_ g) then h_db <$> edge_shards_ g !! Z.to_nat (shard_id target) else None
  end.

(** [OpenFromYaml]; the error messages are not kept. *)
Definition OpenFromYaml (create_directories : bytes -> bool) (base_dir : bytes) (schema_file : option bytes)
    (options : GraphDbOptions) : option (result Status (GraphDb Db)) :=
  match Validate options with
  | Some _ => Some (Err kInvalidArgument)
  | None =>
      match LoadSchemaFromYaml schema_file with
      | Err e => Some (Err (schema_status e))
      | Ok schema => Init create_directories base_dir schema options
      end
  end.

(** ** Vertices *)

(** The id of the first store that has one; a diverging store is only reported. *)
Definition expected_id (ids : list Z) : Z :=
  foldl (fun expected id => if expected =? kInvalidVertexId then id else expected) kInvalidVertexId ids.

Definition NewVertex g : GraphDb Db * Z :=
  let edges := (fun h => (set_handle_db (db_new_vertex (h_db h)).1 h, (db_new_vertex (h_db h)).2)) <$> edge_shards_ g in
  let '(node, id) := db_new_vertex (h_db (node_shard_ g)) in
  (set_shards edges.*1 (set_handle_db node (node_shard_ g)) g, expected_id (edges.*2 ++ [id])).

Definition InitVerticesUpTo (next_vertex_id : Z) g : GraphDb Db :=
  if next_vertex_id =? kInvalidVertexId then g
  else
    let init h := set_handle_db (db_InitVerticesUpTo next_vertex_id (h_db h)) h in
    set_shards (init <$> edge_shards_ g) (init (node_shard_ g)) g.

(** ** Writes

    A scope sets the layout and the directory of the shard a call works on;
    they are the store's own, which its operations use. *)
Context (order : list nat -> list nat) (update_size : Z).

Definition with_node_db g (f : Db -> option Db) : option (GraphDb Db) :=
  db ← f (h_db (node_shard_ g)); Some (set_shards (edge_shards_ g) (set_handle_db db (node_shard_ g)) g).

Definition with_edge_db (i : nat) g (f : ShardHandle Db -> option Db) : option (GraphDb Db) :=
  shard ← edge_shards_ g !! i; db ← f shard;
  Some (set_shards (<[i := set_handle_db db shard]> (edge_shards_ g)) (node_shard_ g) g).

(** One write per touched shard. *)
Fixpoint write_shards (f : ShardHandle Db -> option Db) (shards : list nat) g : option (GraphDb Db) :=
  match shards with
  | [] => Some g
  | i :: shards => g ← with_edge_db i g f; write_shards f shards g
  end.

Definition PutNode g (vertex_id : Z) properties (is_out : bool) (edge_type : Z) : option (Status * GraphDb Db) :=
  if forallb (fun kv => bool_decide (node_property_to_route_ g !! kv.1 = None)) properties then Some (kInvalidArgument, g)
  else
    let payload := BuildShardPropertyString (h_properties (node_shard_ g)) properties in
    let '(sequence, g) := NextSequence g in
    g ← with_node_db g (fun db => db_put_edge db vertex_id vertex_id payload kSingle is_out edge_type sequence);
    Some (kOk, g).

Definition PutNodePayload g (vertex_id : Z) (payload : bytes) (is_out : bool) (edge_type : Z) : option (Status * GraphDb Db) :=
  if bool_decide (payload = []) then Some (kInvalidArgument, g)
  else
    let '(sequence, g) := NextSequence g in
    g ← with_node_db g (fun db => db_put_edge db vertex_id vertex_id payload kSingle is_out edge_type sequence);
    Some (kOk, g).

Definition PutEdge g (src dst : Z) properties (insert_mode : EdgeInsertMode) (is_out : bool) (edge_type : Z)
  : option (Status * GraphDb Db) :=
  if bool_decide (properties = []) then Some (kInvalidArgument, g)
  else match touched_shards g properties with
    | None | Some [] => Some (kInvalidArgument, g)
    | Some shards =>
        let '(sequence, g) := NextSequence g in
        g ← write_shards (fun shard => db_put_edge (h_db shard) src dst (BuildShardPropertyString (h_properties shard) properties)
                            insert_mode is_out edge_type sequence) (order shards) g;
        Some (kOk, g)
    end.

Definition PutEdgePayload g (i : nat) (src dst : Z) (payload : bytes) (insert_mode : EdgeInsertMode) (is_out : bool)
    (edge_type sequence : Z) : option (Status * GraphDb Db) :=
  if bool_decide (payload = []) || bool_decide (length (edge_shards_ g) <= i)%nat then Some (kInvalidArgument, g)
  else
    let '(sequence, g) := if sequence <? 0 then NextSequence g else (sequence, ObserveSequence sequence g) in
    g ← with_edge_db i g (fun shard => db_put_edge (h_db shard) src dst payload insert_mode is_out edge_type sequence);
    Some (kOk, g).

(** ** Locations *)
Definition storage_location (route : PropertyRoute) (loc : LSMEdgeLocation) : GraphDbStorageLocation :=
  mkStorage (in_memtable loc) (shard_idx route) (local_property_id route) (target_id loc) (location_sequence loc).

Definition locate (route : PropertyRoute) (db : Db) (src dst : Z) (is_out : bool) (edge_type : Z)
  : option (result Status GraphDbStorageLocation) :=
  '(rs, loc) ← db_LocateEdge db src dst is_out edge_type;
  Some (if bool_decide (rs = kOk) then Ok (storage_location route loc) else Err rs).

Definition LocateEdgeProperty g (src dst : Z) (property_name : bytes) (is_out : bool) (edge_type : Z)
  : option (result Status GraphDbStorageLocation) :=
  match ResolveEdgePropertyRoutes g [property_name] with
  | Err e => Some (Err e)
  | Ok routes => '(_, route) ← head routes; shard ← edge_shards_ g !! shard_idx route; locate route (h_db shard) src dst is_out edge_type
  end.

(** The node shard is shard 0. *)
Definition LocateNodeProperty g (vertex_id : Z) (property_name : bytes) (is_out : bool) (edge_type : Z)
  : option (result Status GraphDbStorageLocation) :=
  match ResolveNodePropertyRoutes g [property_name] with
  | Err e => Some (Err e)
  | Ok routes =>
      '(_, route) ← head routes;
      locate (mkRoute 0 (local_property_id route)) (h_db (node_shard_ g)) vertex_id vertex_id is_out edge_type
  end.

(** ** Updates *)
Definition buffered_update (kind : PropertyObjectKind) (shard : nat) (property_id : Z) (location : GraphDbStorageLocation)
    (src dst : Z) (is_out : bool) (edge_type : Z) (value : bytes) : BufferedPropertyUpdate :=
  mkUpdate (mkTarget kind (u32 (Z.of_nat shard)) (loc_target_id location) (loc_target_id location) (u32 property_id))
    (mkRecord src dst (loc_sequence location) 0 is_out edge_type value) (negb (loc_in_memtable location)).

Definition UpdateNode g (vertex_id : Z) properties (is_out : bool) (edge_type : Z)
  : option (Status * option Z * GraphDb Db) :=
  if bool_decide (properties = []) then Some (kInvalidArgument, None, g)
  else match ResolveNodePropertyRoutes g properties.*1 with
    | Err _ => Some (kInvalidArgument, None, g)
    | Ok routes =>
        match property_update_manager_ g with
        | None =>
            let payload := BuildShardPropertyString (h_properties (node_shard_ g)) properties in
            let '(sequence, g) := NextSequence g in
            g ← with_node_db g (fun db => db_update_edge db vertex_id vertex_id payload false sequence is_out edge_type);
            Some (kOk, None, g)
        | Some m =>
            '(name, _) ← head routes;
            found ← LocateNodeProperty g vertex_id name is_out edge_type;
            match found with
            | Err rs => Some (rs, None, g)
            | Ok location =>
                updates ← mapM (fun '(name, route) =>
                  value ← find_property name properties;
                  Some (buffered_update kNode 0 (local_property_id route) location vertex_id vertex_id is_out edge_type value)) routes;
                submit_updates update_size updates m g
            end
        end
    end.

(** The locations of the touched shards, in the order they are visited. *)
Fixpoint locate_shards g (shards : list nat) (src dst : Z) (is_out : bool) (edge_type : Z)
  : option (result Status (gmap nat GraphDbStorageLocation)) :=
  match shards with
  | [] => Some (Ok ∅)
  | i :: shards =>
      shard ← edge_shards_ g !! i;
      found ← locate (mkRoute i 0) (h_db shard) src dst is_out edge_type;
      match found with
      | Err rs => Some (Err rs)
      | Ok location =>
          rest ← locate_shards g shards src dst is_out edge_type;
          Some (match rest with Ok locations => Ok (<[i := location]> locations) | Err rs => Err rs end)
      end
  end.

Definition edge_update g (locations : gmap nat GraphDbStorageLocation) (src dst : Z) (is_out : bool) (edge_type : Z)
    (item : bytes * bytes) : option BufferedPropertyUpdate :=
  route ← edge_property_to_route_ g !! item.1;
  location ← locations !! shard_idx route;
  Some (buffered_update kEdge (shard_idx route) (local_property_id route) location src dst is_out edge_type item.2).

Definition UpdateEdge g (src dst : Z) properties (is_out : bool) (edge_type : Z) : option (Status * option Z * GraphDb Db) :=
  if bool_decide (properties = []) then Some (kInvalidArgument, None, g)
  else match touched_shards g properties with
    | None | Some [] => Some (kInvalidArgument, None, g)
    | Some shards =>
        match property_update_manager_ g with
        | None =>
            let '(sequence, g) := NextSequence g in
            g ← write_shards (fun shard => db_update_edge (h_db shard) src dst
                                (BuildShardPropertyString (h_properties shard) properties) false sequence is_out edge_type) (order shards) g;
            Some (kOk, None, g)
        | Some m =>
            found ← locate_shards g (order shards) src dst is_out edge_type;
            match found with
            | Err rs => Some (rs, None, g)
            | Ok locations =>
                match mapM (edge_update g locations src dst is_out edge_type) properties with
                | None => Some (kNotFound, None, g)
                | Some updates => submit_updates update_size updates m g
                end
            end
        end
    end.

(** ** Point reads *)

(** One column: a buffered update of the version the store reports, or the
    store's value.  The store writes the value only with [kOk]. *)
Definition read_property (manager : option Manager) (key : PendingKey) (location : option (result Status GraphDbStorageLocation))
    (get : option (Status * option bytes)) : option (Status * bytes) :=
  let latest := m ← manager; LookupLatest m key in
  buffered ← (match latest with
    | None => Some None
    | Some _ =>
        found ← location;
        Some (match found with
          | Err _ => None
          | Ok loc => m ← manager; fst <$> LookupExact m key (loc_sequence loc)
          end)
    end : option (option bytes));
  match buffered with
  | Some value => Some (kOk, value)
  | None => '(rs, value) ← get; Some (rs, default (from_option fst [] latest) value)
  end.

Fixpoint read_properties (read : bytes * PropertyRoute -> option (Status * bytes)) (routes : list (bytes * PropertyRoute))
    (out : gmap bytes bytes) : option (Status * gmap bytes bytes) :=
  match routes with
  | [] => Some (kOk, out)
  | r :: routes =>
      '(rs, value) ← read r;
      if bool_decide (rs = kOk) then read_properties read routes (<[r.1 := value]> out) else Some (rs, ∅)
  end.

Definition read_edge_property g (src dst : Z) (is_out : bool) (edge_type : Z) (r : bytes * PropertyRoute) : option (Status * bytes) :=
  let route := r.2 in
  shard ← edge_shards_ g !! shard_idx route;
  read_property (property_update_manager_ g)
    (mkPKey kEdge (u32 (Z.of_nat (shard_idx route))) (u32 (local_property_id route)) src dst is_out edge_type)
    (LocateEdgeProperty g src dst r.1 is_out edge_type)
    (db_GetEdge (h_db shard) src dst (local_property_id route) is_out edge_type).

Definition GetEdge g (src dst : Z) (property_names : list bytes) (is_out : bool) (edge_type : Z)
  : option (Status * gmap bytes bytes) :=
  match ResolveEdgePropertyRoutes g property_names with
  | Err rs => Some (rs, ∅)
  | Ok routes => read_properties (read_edge_property g src dst is_out edge_type) routes ∅
  end.

Definition read_node_property g (vertex_id : Z) (is_out : bool) (edge_type : Z) (r : bytes * PropertyRoute) : option (Status * bytes) :=
  read_property (property_update_manager_ g)
    (mkPKey kNode 0 (u32 (local_property_id r.2)) vertex_id vertex_id is_out edge_type)
    (LocateNodeProperty g vertex_id r.1 is_out edge_type)
    (db_GetEdge (h_db (node_shard_ g)) vertex_id vertex_id (local_property_id r.2) is_out edge_type).

Definition GetNode g (vertex_id : Z) (property_names : list bytes) (is_out : bool) (edge_type : Z)
  : option (Status * gmap bytes bytes) :=
  match ResolveNodePropertyRoutes g property_names with
  | Err rs => Some (rs, ∅)
  | Ok routes => read_properties (read_node_property g vertex_id is_out edge_type) routes ∅
  end.

(** ** Scans *)

(** The versions of one column that are not deletions, with the buffered values. *)
Definition scan_column g (src : Z) (is_out : bool) (edge_type : Z) (route : PropertyRoute) : option (list (Z * Z * bytes)) :=
  shard ← edge_shards_ g !! shard_idx route;
  let buffered := CaptureBufferedProperties (property_update_manager_ g) kEdge (u32 (Z.of_nat (shard_idx route)))
                    (u32 (local_property_id route)) src is_out edge_type in
  entries ← db_Get_Edges (h_db shard) src (local_property_id route) is_out edge_type;
  Some (omap (fun e => if en_marker e then None
                else Some (en_dst e, en_sequence e, ResolveBufferedProperty buffered (en_dst e) (en_sequence e) (en_data e))) (entries : list Entry)).

(** By destination, the newest version first. *)
Definition key_less (a b : Z * Z) : bool := if negb (a.1 =? b.1) then a.1 <? b.1 else b.2 <? a.2.
Definition record_less (a b : Z * Z * bytes) : bool := key_less a.1 b.1.

(** Of adjacent records with one key the last one is reported. *)
Fixpoint last_of_runs (records : list (Z * Z * bytes)) : list (Z * Z * bytes) :=
  match records with
  | a :: (b :: _) as rest => if bool_decide (b.1 = a.1) then last_of_runs rest else a :: last_of_runs rest
  | _ => records
  end.

(** [if (!callback(...)) break]; the callback carries its own state. *)
Fixpoint call_back {A} (callback : A -> Z -> Z -> bytes -> A * bool) (records : list (Z * Z * bytes)) (a : A) : A :=
  match records with
  | [] => a
  | r :: records =>
      let '(a, continue) := callback a r.1.1 r.1.2 r.2 in
      if continue then call_back callback records a else a
  end.

Definition ForEachEdge {A} g (src : Z) (property_name : bytes) (callback : A -> Z -> Z -> bytes -> A * bool) (is_out : bool)
    (edge_type : Z) (a : A) : option (Status * A) :=
  match ResolveEdgePropertyRoutes g [property_name] with
  | Err rs => Some (rs, a)
  | Ok routes =>
      '(_, route) ← head routes;
      records ← scan_column g src is_out edge_type route;
      Some (kOk, call_back callback (last_of_runs (stable_sort record_less records)) a)
  end.

(** A single column. *)
Definition scan_single g (src : Z) (is_out : bool) (edge_type : Z) (r : bytes * PropertyRoute)
  : option (list GraphDbEdgeScanRecord) :=
  records ← scan_column g src is_out edge_type r.2;
  Some ((fun x : Z * Z * bytes => mkScanRecord x.1.1 x.1.2 {[ r.1 := x.2 ]}) <$> last_of_runs (stable_sort record_less records)).

(** [Candidate]: the values of a version and the columns that have it. *)
Abbreviation Candidate := (gmap bytes bytes * gset bytes)%type.
Definition hit (name value : bytes) (c : Candidate) : Candidate := (<[name := value]> c.1, {[name]} ∪ c.2).

Fixpoint merge_columns g (src : Z) (is_out : bool) (edge_type : Z) (routes : list (bytes * PropertyRoute))
    (merged : gmap (Z * Z) Candidate) : option (gmap (Z * Z) Candidate) :=
  match routes with
  | [] => Some merged
  | (name, route) :: routes =>
      records ← scan_column g src is_out edge_type route;
      merge_columns g src is_out edge_type routes
        (foldl (fun merged r => <[r.1 := hit name r.2 (default (∅, ∅) (merged !! r.1))]> merged) merged records)
  end.

Definition scan_join g (src : Z) (is_out : bool) (edge_type : Z) (routes : list (bytes * PropertyRoute))
  : option (list GraphDbEdgeScanRecord) :=
  merged ← merge_columns g src is_out edge_type routes ∅;
  let ready := filter (fun kv => size kv.2.2 = length routes) (map_to_list merged) in
  Some (omap (fun key => (fun c : Candidate => mkScanRecord key.1 key.2 c.1) <$> merged !! key) (stable_sort key_less ready.*1)).

Definition ScanEdges g (src : Z) (property_names : list bytes) (is_out : bool) (edge_type : Z)
  : option (Status * list GraphDbEdgeScanRecord) :=
  match ResolveEdgePropertyRoutes g property_names with
  | Err rs => Some (rs, [])
  | Ok [r] => records ← scan_single g src is_out edge_type r; Some (kOk, records)
  | Ok routes => records ← scan_join g src is_out edge_type routes; Some (kOk, records)
  end.
End Facade.
