(* ===== verification/GraphScan.v ===== *)
(** * Scans of the facade

    A scan of several columns is their join on (destination, sequence); the
    shorter path the code takes for one column gives the same records. *)

From S2P Require Import Prelude.
From S2P Require Import Types.
From S2P Require Import Names.
From S2P Require Import PropertyLayout.
From S2P Require Import UpdateManager.
From S2P Require Import LsmRead.
From S2P Require Import EdgeIterators.
From S2P Require Import GraphSchema.
From S2P Require Import GraphDb.

(** ** Keys *)
Definition key_before (a b : Z * Z) : Prop := key_less a b = true.

Lemma key_before_spec a b : key_before a b <-> a.1 < b.1 \/ a.1 = b.1 /\ b.2 < a.2.
Proof.
  unfold key_before, key_less. destruct (Z.eqb_spec a.1 b.1) as [E|E]; cbn [negb].
  - rewrite Z.ltb_lt. lia.
  - rewrite Z.ltb_lt. lia.
Qed.

Lemma key_not_before a b : key_less a b = false <-> b.1 < a.1 \/ a.1 = b.1 /\ a.2 <= b.2.
Proof. pose proof (key_before_spec a b) as Hs. unfold key_before in Hs. destruct (key_less a b); [|split; [|done]; intros _].
  - split; [done|]. pose proof (proj1 Hs eq_refl). lia.
  - destruct (decide (a.1 = b.1)), (decide (b.2 < a.2)), (decide (b.1 < a.1)); try lia; assert (false = true) by (apply Hs; lia); done.
Qed.

#[export] Instance key_before_trans : Transitive key_before.
Proof. intros a b c. rewrite !key_before_spec. lia. Qed.
#[export] Instance key_before_irrefl : Irreflexive key_before.
Proof. intros a. unfold complement. rewrite key_before_spec. lia. Qed.

Lemma key_tight a b : key_less a b = false -> key_less b a = false -> a = b.
Proof. rewrite !key_not_before. destruct a, b. cbn. intros. f_equal; lia. Qed.

(** ** The last record of a key *)
Definition last_value (k : Z * Z) (records : list (Z * Z * bytes)) : option bytes :=
  snd <$> last (filter (fun r => r.1 = k) records).

Lemma last_value_nil k : last_value k [] = None.
Proof. done. Qed.

Lemma last_value_snoc k records r : last_value k (records ++ [r]) = if decide (r.1 = k) then Some r.2 else last_value k records.
Proof.
  unfold last_value. rewrite filter_app, filter_cons, filter_nil. case_decide; [by rewrite last_snoc|by rewrite app_nil_r].
Qed.

Lemma last_value_in k records v : last_value k records = Some v -> (k, v) ∈ records.
Proof.
  unfold last_value. intros (r & Hl & ->)%fmap_Some. apply last_Some_elem_of in Hl.
  apply list_elem_of_filter in Hl as [<- Hr]. by destruct r.
Qed.

Lemma last_value_sort k records : last_value k (stable_sort record_less records) = last_value k records.
Proof.
  unfold last_value. rewrite stable_sort_filter; [done|]. intros y z <- E. unfold record_less. rewrite E. apply key_not_before. lia.
Qed.

(** ** Adjacent records *)
Definition sorted_records (records : list (Z * Z * bytes)) : Prop := StronglySorted (nless record_less) records.

Lemma sort_records_sorted records : sorted_records (stable_sort record_less records).
Proof.
  apply stable_sort_sorted.
  - intros x y. unfold record_less. rewrite key_not_before. intros Hx%key_before_spec. lia.
  - intros x y z. unfold nless, record_less. rewrite !key_not_before. lia.
Qed.

Lemma last_value_cons k r records :
  last_value k (r :: records) = match last_value k records with Some v => Some v | None => if decide (r.1 = k) then Some r.2 else None end.
Proof.
  unfold last_value. rewrite filter_cons. case_decide.
  - rewrite last_cons. by destruct (last (filter _ records)).
  - by destruct (last (filter _ records)).
Qed.

Lemma absent_last_value k records : Forall (fun r => r.1 <> k) records -> last_value k records = None.
Proof.
  induction 1 as [|r records Hr _ IH]; [done|]. rewrite last_value_cons, IH. by rewrite decide_False.
Qed.

Lemma last_of_runs_subset records r : r ∈ last_of_runs records -> r ∈ records.
Proof.
  induction records as [|a records IH]; [done|]. cbn [last_of_runs]. destruct records as [|b rest]; [done|].
  case_bool_decide; [intros Hr; right; by apply IH|]. intros [->|Hr]%elem_of_cons; [left|right; by apply IH].
Qed.

Lemma last_of_runs_spec records :
  sorted_records records ->
  StronglySorted key_before (last_of_runs records).*1 /\
  forall k v, (k, v) ∈ last_of_runs records <-> last_value k records = Some v.
Proof.
  induction records as [|a records IH]; intros Hs.
  { split; [constructor|]. intros k v. cbn. split; [by intros ?%elem_of_nil|done]. }
  apply StronglySorted_inv in Hs as [Hs Ha]. destruct (IH Hs) as [IHs IHv]. cbn [last_of_runs]. destruct records as [|b rest].
  { split; [repeat constructor|]. intros k v. rewrite last_value_cons, list_elem_of_singleton. cbn. destruct a as [ka va]. cbn.
    case_decide; split; congruence. }
  case_bool_decide as E.
  - split; [done|]. intros k v. rewrite IHv, (last_value_cons k a). destruct (last_value k (b :: rest)) as [w|] eqn:El; [done|].
    rewrite decide_False; [done|]. intros <-. rewrite last_value_cons, E, decide_True in El by done. by destruct (last_value a.1 rest).
  - assert (Forall (fun r => key_before a.1 r.1) (b :: rest)) as Hb.
    { apply StronglySorted_inv in Hs as [_ Hb']. apply Forall_cons in Ha as [Hab Har]. unfold nless, record_less in *.
      assert (key_before a.1 b.1) as Hlt.
      { apply key_before_spec. apply key_not_before in Hab. destruct (decide (a.1 = b.1)); [congruence|].
        destruct a as [[a1 a2] va], b as [[b1 b2] vb]. cbn in *. destruct (decide (a1 = b1)); [|lia].
        right. split; [done|]. destruct (decide (a2 = b2)); [subst; done|lia]. }
      apply Forall_cons. split; [done|]. eapply Forall_impl; [exact Hb'|]. cbn. intros r Hr.
      apply key_before_spec in Hlt. apply key_not_before in Hr. apply key_before_spec. lia. }
    split.
    + cbn [fmap list_fmap]. constructor; [done|]. apply Forall_fmap. apply Forall_forall. intros r Hr%last_of_runs_subset.
      rewrite Forall_forall in Hb. by apply Hb.
    + intros k v. rewrite elem_of_cons, IHv, (last_value_cons k a). destruct a as [ka va]. cbn [fst snd] in *. split.
      * intros [[= -> ->]|Hv]; [|by rewrite Hv]. rewrite absent_last_value; [by rewrite decide_True|].
        eapply Forall_impl; [exact Hb|]. cbn. intros r Hr E'. rewrite E' in Hr. by apply (irreflexivity key_before ka).
      * destruct (last_value k (b :: rest)) as [w|]; [by right|]. case_decide; [|done]. intros [= ->]. left. congruence.
Qed.

Lemma single_scan_spec records :
  let out := last_of_runs (stable_sort record_less records) in
  StronglySorted key_before out.*1 /\ forall k v, (k, v) ∈ out <-> last_value k records = Some v.
Proof.
  intros out. destruct (last_of_runs_spec _ (sort_records_sorted records)) as [Hs Hv]. split; [done|].
  intros k v. unfold out. by rewrite Hv, last_value_sort.
Qed.

(** ** The join *)

(** The requested columns: each name with the versions its column reports. *)
Abbreviation Columns := (list (bytes * list (Z * Z * bytes))).

Definition has_version (k : Z * Z) (c : bytes * list (Z * Z * bytes)) : Prop := is_Some (last_value k c.2).

(** The values of a version in the columns that have it. *)
Definition values (cols : Columns) (k : Z * Z) : gmap bytes bytes :=
  foldl (fun m c => match last_value k c.2 with Some v => <[c.1 := v]> m | None => m end) ∅ cols.

(** What a scan reports: a version that every column has, with its values. *)
Definition joins (cols : Columns) (r : GraphDbEdgeScanRecord) : Prop :=
  dom (rec_properties r) = list_to_set cols.*1 /\
  forall c, c ∈ cols -> has_version (rec_dst r, rec_sequence r) c /\ rec_properties r !! c.1 = last_value (rec_dst r, rec_sequence r) c.2.

Definition rec_key (r : GraphDbEdgeScanRecord) : Z * Z := (rec_dst r, rec_sequence r).

Lemma values_snoc cols c k :
  values (cols ++ [c]) k = match last_value k c.2 with Some v => <[c.1 := v]> (values cols k) | None => values cols k end.
Proof. unfold values. by rewrite foldl_snoc. Qed.

Lemma values_names cols k name : is_Some (values cols k !! name) -> name ∈ cols.*1.
Proof.
  induction cols as [|c cols IH] using rev_ind; [by intros [? ?]|]. rewrite values_snoc, fmap_app, elem_of_app.
  destruct (last_value k c.2); [|by left; auto]. destruct (decide (name = c.1)) as [->|Hne]; [right; left|].
  rewrite lookup_insert_ne by done. auto.
Qed.

Lemma values_lookup cols k c : NoDup cols.*1 -> c ∈ cols -> values cols k !! c.1 = last_value k c.2.
Proof.
  induction cols as [|c' cols IH] using rev_ind; [by intros _ ?%elem_of_nil|]. rewrite values_snoc, fmap_app, elem_of_app.
  intros (Hnd & Hd & _)%NoDup_app [Hc|Hc].
  - assert (c'.1 <> c.1) as Hne.
    { intros E. apply (Hd c.1); [apply list_elem_of_fmap; by exists c|]. rewrite <- E. left. }
    destruct (last_value k c'.2); [rewrite lookup_insert_ne by done|]; by apply IH.
  - apply list_elem_of_singleton in Hc as ->. destruct (last_value k c'.2) eqn:E; [by rewrite lookup_insert_eq|].
    apply eq_None_not_Some. intros Hs%values_names. apply (Hd c'.1 Hs). left.
Qed.

(** Every column was hit exactly when as many columns as asked for were. *)
Lemma values_size cols k :
  NoDup cols.*1 -> (size (dom (values cols k)) <= length cols)%nat /\
  (size (dom (values cols k)) = length cols <-> Forall (has_version k) cols).
Proof.
  induction cols as [|c cols IH] using rev_ind; [by cbn; rewrite dom_empty_L|]. rewrite values_snoc, fmap_app, length_app. cbn [length].
  intros (Hnd & Hd & _)%NoDup_app. destruct (IH Hnd) as [Hle Heq]. rewrite Forall_app, Forall_singleton. unfold has_version at 2.
  destruct (last_value k c.2) as [v|].
  - assert (c.1 ∉ dom (values cols k)) as Hn by (intros Hin%elem_of_dom%values_names; apply (Hd c.1 Hin); left).
    rewrite dom_insert_L, size_union, size_singleton by set_solver. split; [lia|]. rewrite <- Heq. split; [intros; split; [lia|by eexists]|].
    intros [? _]. lia.
  - split; [lia|]. split; [lia|]. by intros [_ [? ?]].
Qed.

Lemma joins_values cols d s props :
  NoDup cols.*1 -> joins cols (mkScanRecord d s props) <-> Forall (has_version (d, s)) cols /\ props = values cols (d, s).
Proof.
  intros Hnd. unfold joins. cbn [rec_properties rec_dst rec_sequence]. split.
  - intros [Hdom Hc]. split; [apply Forall_forall; intros c Hin; by apply Hc|]. apply map_eq. intros name.
    destruct (decide (name ∈ cols.*1)) as [Hin|Hout].
    + apply list_elem_of_fmap in Hin as (c & -> & Hin). rewrite (values_lookup cols (d, s) c) by done. by apply Hc.
    + assert (props !! name = None) as -> by (apply not_elem_of_dom; rewrite Hdom; by rewrite elem_of_list_to_set).
      symmetry. apply eq_None_not_Some. by intros ?%values_names.
  - intros [Hall ->]. rewrite Forall_forall in Hall. split.
    + apply set_eq. intros name. rewrite elem_of_dom, elem_of_list_to_set. split; [apply values_names|].
      intros (c & -> & Hin)%list_elem_of_fmap. rewrite (values_lookup cols (d, s) c) by done. by apply Hall.
    + intros c Hin. split; [by apply Hall|]. by apply values_lookup.
Qed.

(** ** The table of candidates *)
Definition merge_column (name : bytes) (records : list (Z * Z * bytes)) (merged : gmap (Z * Z) (gmap bytes bytes * gset bytes)) : gmap (Z * Z) (gmap bytes bytes * gset bytes) :=
  foldl (fun merged r => <[r.1 := hit name r.2 (default (∅, ∅) (merged !! r.1))]> merged) merged records.

Lemma hit_twice name v w c : hit name v (hit name w c) = hit name v c.
Proof. unfold hit. cbn. f_equal; [apply insert_insert_eq|set_solver]. Qed.

Lemma merge_column_lookup name records merged k :
  merge_column name records merged !! k =
  match last_value k records with Some v => Some (hit name v (default (∅, ∅) (merged !! k))) | None => merged !! k end.
Proof.
  unfold merge_column. induction records as [|r records IH] using rev_ind; [done|]. rewrite foldl_snoc, last_value_snoc. cbn beta.
  set (F := foldl _ merged records) in *. destruct (decide (r.1 = k)) as [->|Hne]; [|by rewrite lookup_insert_ne]. rewrite lookup_insert_eq. rewrite IH.
  destruct (last_value k records); [|done]. cbn. by rewrite hit_twice.
Qed.

(** The table after some columns: the values seen so far, under their names. *)
Definition table_of_columns (cols : Columns) (merged : gmap (Z * Z) (gmap bytes bytes * gset bytes)) : Prop :=
  forall k, default (∅, ∅) (merged !! k) = (values cols k, dom (values cols k)) /\
    (is_Some (merged !! k) <-> values cols k <> ∅).

Lemma table_step cols name records merged :
  table_of_columns cols merged -> table_of_columns (cols ++ [(name, records)]) (merge_column name records merged).
Proof.
  intros Ht k. destruct (Ht k) as [Hd Hs]. rewrite values_snoc, merge_column_lookup. cbn [fst snd].
  destruct (last_value k records) as [v|]; [|done]. rewrite Hd. cbn [default]. split; [unfold hit; cbn; by rewrite dom_insert_L|].
  split; [|by eexists]. intros _. apply insert_non_empty.
Qed.

Lemma omap_total {A B} (f : A -> option B) (h : A -> B) (l : list A) : (forall x, x ∈ l -> f x = Some (h x)) -> omap f l = h <$> l.
Proof.
  induction l as [|x l IH]; intros Hf; [done|]. cbn [omap list_omap fmap list_fmap]. rewrite Hf by left. f_equal. apply IH.
  intros; apply Hf. by right.
Qed.

Lemma NoDup_fmap_filter {A B} (f : A -> B) (P : A -> Prop) `{!forall x, Decision (P x)} (l : list A) :
  NoDup (f <$> l) -> NoDup (f <$> filter P l).
Proof.
  induction l as [|x l IH]; [done|]. cbn [fmap list_fmap]. intros [Hn Hnd]%NoDup_cons. rewrite filter_cons. case_decide; [|by apply IH].
  cbn. apply NoDup_cons. split; [|by apply IH]. intros (y & E & [_ Hy]%list_elem_of_filter)%list_elem_of_fmap. apply Hn. rewrite E.
  apply list_elem_of_fmap. by exists y.
Qed.

Section Scan.
Context {Db : Type} `{!LSMGraph Db}.
Context (g : GraphDb Db) (src : Z) (is_out : bool) (edge_type : Z).

(** The columns of a request, scanned. *)
Definition scanned (routes : list (bytes * PropertyRoute)) (cols : Columns) : Prop :=
  Forall2 (fun r c => c.1 = r.1 /\ scan_column g src is_out edge_type r.2 = Some c.2) routes cols.

Lemma scanned_names routes cols : scanned routes cols -> cols.*1 = routes.*1.
Proof. induction 1 as [|r c routes cols [E _] _ IH]; [done|]. cbn. by rewrite E, IH. Qed.

Lemma merge_columns_spec routes cols done_cols merged :
  scanned routes cols -> table_of_columns done_cols merged ->
  exists merged', merge_columns g src is_out edge_type routes merged = Some merged' /\ table_of_columns (done_cols ++ cols) merged'.
Proof.
  intros Hs. revert done_cols merged. induction Hs as [|[name route] [name' records] routes cols [E1 E2] _ IH]; intros done_cols merged Ht.
  - exists merged. by rewrite app_nil_r.
  - cbn [merge_columns fst snd] in *. subst name'. rewrite E2. simpl_bind.
    destruct (IH (done_cols ++ [(name, records)]) (merge_column name records merged)) as (m' & Em & Ht'); [by apply table_step|].
    exists m'. split; [done|]. by rewrite <- app_assoc in Ht'.
Qed.

Lemma sort_keys_sorted ks : NoDup ks -> StronglySorted key_before (stable_sort key_less ks).
Proof.
  intros Hnd. assert (StronglySorted (nless key_less) (stable_sort key_less ks)) as Hs.
  { apply stable_sort_sorted.
    - intros x y. rewrite key_not_before. intros Hx%key_before_spec. lia.
    - intros x y z. unfold nless. rewrite !key_not_before. lia. }
  rewrite <- (stable_sort_perm key_less ks) in Hnd. induction Hs as [|k l _ IH Hk]; [constructor|].
  apply NoDup_cons in Hnd as [Hn Hnd]. constructor; [by apply IH|]. rewrite Forall_forall in *. intros k' Hk'. specialize (Hk k' Hk').
  unfold key_before. destruct (key_less k k') eqn:E; [done|]. exfalso. apply Hn. by rewrite (key_tight k k').
Qed.

Lemma scan_join_spec routes cols :
  routes <> [] -> NoDup routes.*1 -> scanned routes cols ->
  exists records, scan_join g src is_out edge_type routes = Some records /\
    StronglySorted key_before (rec_key <$> records) /\ forall r, r ∈ records <-> joins cols r.
Proof.
  intros Hne Hnd Hs. pose proof (scanned_names _ _ Hs) as En. pose proof (Forall2_length _ _ _ Hs) as Elen.
  destruct (merge_columns_spec routes cols [] ∅ Hs) as (merged & Em & Ht).
  { intros k. rewrite lookup_empty. cbn. rewrite dom_empty_L. split; [done|]. split; [by intros [? ?]|done]. }
  unfold scan_join. rewrite Em. simpl_bind. eexists. split; [reflexivity|]. cbn [app] in Ht.
  set (ready := (filter _ (map_to_list merged)).*1).
  assert (forall k, k ∈ ready <-> Forall (has_version k) cols) as Hready.
  { intros k. unfold ready. rewrite list_elem_of_fmap. destruct (Ht k) as [Hd Hsome].
    destruct (values_size cols k ltac:(by rewrite En)) as [_ Hsz]. rewrite <- Hsz, <- Elen. split.
    - intros ([k' c] & -> & [Hc Hin%elem_of_map_to_list]%list_elem_of_filter). cbn [fst snd] in *. rewrite Hin in Hd. cbn in Hd.
      by rewrite Hd in Hc.
    - intros Hlen. assert (is_Some (merged !! k)) as [c Hc].
      { apply Hsome. intros E0. rewrite E0, dom_empty_L, size_empty in Hlen. by destruct routes. }
      exists (k, c). split; [done|]. apply list_elem_of_filter. rewrite elem_of_map_to_list. split; [|done].
      rewrite Hc in Hd. cbn in *. by rewrite Hd. }
  assert (forall k, k ∈ ready -> merged !! k = Some (values cols k, dom (values cols k))) as Hlook.
  { intros k Hk. unfold ready in Hk. apply list_elem_of_fmap in Hk as ([k' c] & -> & [_ Hin%elem_of_map_to_list]%list_elem_of_filter).
    cbn. destruct (Ht k') as [Hd _]. rewrite Hin in *. cbn in Hd. by rewrite Hd. }
  assert (NoDup ready) as Hndr.
  { apply NoDup_fmap_filter, NoDup_fst_map_to_list. }
  rewrite (omap_total _ (fun k => mkScanRecord k.1 k.2 (values cols k))).
  2:{ intros k Hk. rewrite stable_sort_perm in Hk. by rewrite (Hlook k Hk). }
  split.
  - rewrite <- list_fmap_compose, (list_fmap_ext _ id); [rewrite list_fmap_id; by apply sort_keys_sorted|by intros ? [] ?].
  - intros [d q props]. rewrite joins_values, <- Hready by (by rewrite En). rewrite list_elem_of_fmap. setoid_rewrite stable_sort_perm. split.
    + intros ([d' q'] & [= -> -> ->] & Hk). done.
    + intros [Hk ->]. by exists (d, q).
Qed.

Lemma scan_single_spec r col :
  scan_column g src is_out edge_type r.2 = Some col ->
  exists records, scan_single g src is_out edge_type r = Some records /\
    StronglySorted key_before (rec_key <$> records) /\ forall x, x ∈ records <-> joins [(r.1, col)] x.
Proof.
  intros Ec. destruct (single_scan_spec col) as [Hs Hv]. unfold scan_single. rewrite Ec. simpl_bind. eexists. split; [reflexivity|]. split.
  - rewrite <- list_fmap_compose. rewrite (list_fmap_ext _ fst); [done|by intros ? [[]] ?].
  - intros [d q props]. rewrite joins_values by (cbn; apply NoDup_singleton). unfold has_version, values. cbn [foldl fst snd].
    rewrite Forall_singleton, list_elem_of_fmap. cbn [snd]. split.
    + intros ([[d' q'] v] & [= -> -> ->] & Hin%Hv). cbn [fst snd]. rewrite Hin. by split; [eexists|].
    + intros [[v Ev] ->]. rewrite Ev. exists ((d, q), v). split; [done|]. by apply Hv.
Qed.
End Scan.

(** A strictly sorted scan is determined by its records. *)
Lemma scan_unique l k :
  StronglySorted key_before (rec_key <$> l) -> StronglySorted key_before (rec_key <$> k) -> (forall r, r ∈ l <-> r ∈ k) -> l = k.
Proof.
  intros Hl Hk Heq.
  assert (forall m, StronglySorted key_before (rec_key <$> m) -> StronglySorted (fun a b => key_before (rec_key a) (rec_key b)) m) as Hf.
  { induction m as [|x m IH]; [constructor|]. cbn. intros [Hm Hx]%StronglySorted_inv. constructor; [by apply IH|]. apply Forall_forall. intros y Hy. apply (proj1 (Forall_forall _ _) Hx), list_elem_of_fmap. by exists y. }
  apply Hf in Hl, Hk. apply (StronglySorted_unique_strong (fun a b => key_before (rec_key a) (rec_key b))); [|done|done|].
  - intros x y _ _ Hxy Hyx. exfalso. apply (irreflexivity key_before (rec_key x)). by etrans.
  - apply NoDup_Permutation; [..|done].
    + clear -Hl. induction Hl as [|x m _ IH Hx]; constructor; [|done]. intros Hin. rewrite Forall_forall in Hx.
      by apply (irreflexivity key_before (rec_key x)), Hx.
    + clear -Hk. induction Hk as [|x m _ IH Hx]; constructor; [|done]. intros Hin. rewrite Forall_forall in Hx.
      by apply (irreflexivity key_before (rec_key x)), Hx.
Qed.

(** ** Requests *)
Lemma resolve_routes_names routes seen names rs :
  resolve_routes routes seen names = Some rs -> NoDup rs.*1 /\ forall name, name ∈ rs.*1 -> name ∉ seen /\ name ∈ names.
Proof.
  revert seen rs. induction names as [|p names IH]; intros seen rs; cbn [resolve_routes].
  { intros [= <-]. split; [constructor|by intros ? ?%elem_of_nil]. }
  destruct (_ || bool_decide (p ∈ seen)) eqn:Es.
  { intros [Hnd Hin]%IH. split; [done|]. intros name Hname. destruct (Hin name Hname). split; [done|]. by right. }
  apply orb_false_iff in Es as [_ Hp%bool_decide_eq_false]. destruct (routes !! p) as [r|]; [|done]. simpl_bind.
  destruct (resolve_routes routes ({[p]} ∪ seen) names) as [rest|] eqn:Er; [|done]. simpl_bind. intros [= <-].
  destruct (IH _ _ Er) as [Hnd Hin]. cbn. split.
  - apply NoDup_cons. split; [|done]. intros Hp'. destruct (Hin p Hp') as [Hn _]. set_solver.
  - intros name [->|Hname]%elem_of_cons; [split; [done|left]|]. destruct (Hin name Hname). split; [set_solver|by right].
Qed.

Lemma resolve_routes_lookup routes seen names rs n r :
  resolve_routes routes seen names = Some rs -> (n, r) ∈ rs -> routes !! n = Some r.
Proof.
  revert seen rs. induction names as [|p names IH]; intros seen rs; cbn [resolve_routes]; [by intros [= <-] ?%elem_of_nil|].
  destruct (_ || _); [apply IH|]. destruct (routes !! p) as [r'|] eqn:Er; [|done]. simpl_bind.
  destruct (resolve_routes _ _ names) as [rest|] eqn:E; [|done]. simpl_bind. intros [= <-] [[= -> ->]|Hin]%elem_of_cons; [done|by eapply IH].
Qed.

Lemma resolved_routes routes seen names rs :
  nonempty_routes (resolve_routes routes seen names) = Ok rs -> rs <> [] /\ resolve_routes routes seen names = Some rs.
Proof. unfold nonempty_routes. destruct (resolve_routes routes seen names) as [[|r rest]|]; [done| |done]. by intros [= <-]. Qed.

(** C10: a scan joins the requested columns. Each version (destination and
    sequence) that every requested column has, and that is not a deletion there,
    is reported exactly once, with the value every column has for it, the
    buffered update of that version taking the place of the stored value;
    nothing else is reported. The records come by destination, the newest
    version first. *)
Theorem scan_joins_columns {Db} `{!LSMGraph Db} (g : GraphDb Db) src names is_out ty routes cols :
  ResolveEdgePropertyRoutes g names = Ok routes -> scanned g src is_out ty routes cols ->
  exists records, ScanEdges g src names is_out ty = Some (kOk, records) /\
    StronglySorted key_before (rec_key <$> records) /\ forall r, r ∈ records <-> joins cols r.
Proof.
  intros Hr Hs. pose proof (resolved_routes _ _ _ _ Hr) as [Hne Hres]. destruct (resolve_routes_names _ _ _ _ Hres) as [Hnd _].
  unfold ScanEdges. rewrite Hr. destruct routes as [|r [|r' routes]]; [done|..].
  - inversion Hs as [|? [name col] ? ? [En Ec] Hnil]; subst. inversion Hnil; subst. cbn [fst snd] in *. subst name.
    destruct (scan_single_spec g src is_out ty r col Ec) as (records & E & Hrec). rewrite E. simpl_bind. by exists records.
  - destruct (scan_join_spec g src is_out ty (r :: r' :: routes) cols Hne Hnd Hs) as (records & E & Hrec). rewrite E. simpl_bind. by exists records.
Qed.

(** the two shorter paths agree with the join. For one column the code
    sorts the records it scanned and drops repeated keys instead of building the
    table of candidates, and returns the same records in the same order as the
    join of that column; [ForEachEdge] calls back with exactly those records in
    that order until the callback stops it. *)
Theorem single_column_paths_agree {Db} `{!LSMGraph Db} (g : GraphDb Db) src is_out ty name route :
  scan_single g src is_out ty (name, route) = scan_join g src is_out ty [(name, route)] /\
  forall {A} (callback : A -> Z -> Z -> bytes -> A * bool) a, name <> [] -> edge_property_to_route_ g !! name = Some route ->
    ForEachEdge g src name callback is_out ty a =
    (records ← scan_join g src is_out ty [(name, route)];
     Some (kOk, call_back callback ((fun r => (rec_key r, default [] (rec_properties r !! name))) <$> records) a)).
Proof.
  assert (scan_single g src is_out ty (name, route) = scan_join g src is_out ty [(name, route)]) as E.
  { destruct (scan_column g src is_out ty route) as [col|] eqn:Ec.
    - destruct (scan_single_spec g src is_out ty (name, route) col Ec) as (l & El & Hl & Hlin).
      destruct (scan_join_spec g src is_out ty [(name, route)] [(name, col)]) as (k & Ek & Hk & Hkin);
        [done|apply NoDup_singleton|by constructor|].
      rewrite El, Ek. f_equal. apply scan_unique; [done|done|]. intros r. by rewrite Hlin, Hkin.
    - unfold scan_single, scan_join. cbn [merge_columns fst snd]. by rewrite Ec. }
  split; [done|]. intros A callback a Hne Hroute. rewrite <- E. unfold ForEachEdge, ResolveEdgePropertyRoutes, scan_single.
  cbn [resolve_routes]. rewrite bool_decide_eq_false_2, bool_decide_eq_false_2 by (done || apply not_elem_of_empty). cbn [orb].
  rewrite Hroute. simpl_bind. cbn [nonempty_routes head]. simpl_bind. cbn [fst snd].
  destruct (scan_column g src is_out ty route) as [col|]; [|done]. simpl_bind. do 3 f_equal.
  rewrite <- list_fmap_compose. symmetry. rewrite (list_fmap_ext _ id); [apply list_fmap_id|]. intros i [[d q] v] _. cbn.
  by rewrite lookup_singleton_eq.
Qed.
