(* ===== verification/GraphWf.v ===== *)
(** * The routes of the facade

    What [Init] sets up and every operation keeps: the route table is exactly
    the column layout of the shards, and every column has a length. *)

From S2P Require Import Prelude.
From S2P Require Import Types.
From S2P Require Import Names.
From S2P Require Import PropertyLayout.
From S2P Require Import UpdateManager.
From S2P Require Import UpdateManagerFacts.
From S2P Require Import UpdateManagerInv.
From S2P Require Import LsmRead.
From S2P Require Import EdgeIterators.
From S2P Require Import GraphSchema.
From S2P Require Import GraphDb.

(** Where a column is. *)
Definition column_at {Db} (shards : list (ShardHandle Db)) (name : bytes) (r : PropertyRoute) : Prop :=
  0 <= local_property_id r /\
  exists h, shards !! shard_idx r = Some h /\ h_properties h !! Z.to_nat (local_property_id r) = Some name.

(** A manager in a state its threads can reach. *)
Definition manager_ok (m : Manager) : Prop := exists s, inv s /\ mgr s = m.

Record facade_wf {Db} (g : GraphDb Db) : Prop := {
  wf_edge : forall name r, edge_property_to_route_ g !! name = Some r <-> name <> [] /\ column_at (edge_shards_ g) name r;
  wf_node : forall name, (exists r, node_property_to_route_ g !! name = Some r) <-> name ∈ h_properties (node_shard_ g);
  wf_node_route : forall name r, node_property_to_route_ g !! name = Some r ->
    name <> [] /\ shard_idx r = 0%nat /\ column_at [node_shard_ g] name r;
  wf_lengths : Forall (fun h => length (property_lengths h) = length (h_properties h) /\ Forall (fun l => 1 <= l) (property_lengths h))
    (node_shard_ g :: edge_shards_ g);
  wf_small : zlen (edge_shards_ g) < 2 ^ 32 /\ Forall (fun h => zlen (h_properties h) < 2 ^ 31) (node_shard_ g :: edge_shards_ g);
  wf_manager : forall m, property_update_manager_ g = Some m -> manager_ok m;
}.

(** ** Routes are injective, at 32 bits too *)
Lemma u32_id z : 0 <= z < 2 ^ 32 -> u32 z = z.
Proof. apply wrap_small. Qed.

Lemma column_at_inj {Db} (shards : list (ShardHandle Db)) name name' r r' :
  zlen shards < 2 ^ 32 -> Forall (fun h => zlen (h_properties h) < 2 ^ 31) shards ->
  column_at shards name r -> column_at shards name' r' ->
  u32 (Z.of_nat (shard_idx r)) = u32 (Z.of_nat (shard_idx r')) -> u32 (local_property_id r) = u32 (local_property_id r') ->
  name = name' /\ r = r'.
Proof.
  intros Hn Hc (Hp & h & Hh & Hname) (Hp' & h' & Hh' & Hname') Ei Ep.
  assert (forall (i : nat) h, shards !! i = Some h -> Z.of_nat i < 2 ^ 32) as Hi by (intros i x Hx%lookup_lt_Some; unfold zlen in Hn; lia).
  assert (forall (i : nat) h z name, shards !! i = Some h -> 0 <= z -> h_properties h !! Z.to_nat z = Some name -> z < 2 ^ 32) as Hz.
  { intros i x z nm Hx H0 Hl%lookup_lt_Some. eapply Forall_lookup_1 in Hx; [|exact Hc]. cbn in Hx. unfold zlen in Hx.
    change (2 ^ 31) with 2147483648 in Hx. change (2 ^ 32) with 4294967296. lia. }
  pose proof (Hi _ _ Hh). pose proof (Hi _ _ Hh'). pose proof (Hz _ _ _ _ Hh Hp Hname). pose proof (Hz _ _ _ _ Hh' Hp' Hname').
  rewrite !u32_id in Ei by lia. rewrite !u32_id in Ep by lia.
  destruct r as [i p], r' as [i' p']. cbn [shard_idx local_property_id] in *. subst p'. apply Nat2Z.inj in Ei as ->.
  rewrite Hh in Hh'. injection Hh' as ->. rewrite Hname in Hname'. by injection Hname' as ->.
Qed.

Lemma edge_route_inj {Db} (g : GraphDb Db) name name' r r' :
  facade_wf g -> edge_property_to_route_ g !! name = Some r -> edge_property_to_route_ g !! name' = Some r' ->
  u32 (Z.of_nat (shard_idx r)) = u32 (Z.of_nat (shard_idx r')) -> u32 (local_property_id r) = u32 (local_property_id r') -> name = name'.
Proof.
  intros Hwf [_ Hr]%(wf_edge _ Hwf) [_ Hr']%(wf_edge _ Hwf) Ei Ep. destruct (wf_small _ Hwf) as [Hn [_ Hc]%Forall_cons].
  by destruct (column_at_inj _ _ _ _ _ Hn Hc Hr Hr' Ei Ep).
Qed.

(** ** What [Init] routes *)
Definition columns_from (i : nat) (pid : Z) (names : list bytes) : list (bytes * PropertyRoute) :=
  zip names (mkRoute i <$> seqZ pid (zlen names)).
Fixpoint all_columns (i : nat) (shards : list ShardSchema) : list (bytes * PropertyRoute) :=
  match shards with [] => [] | s :: shards => columns_from i 0 (shard_properties s) ++ all_columns (S i) shards end.

Lemma columns_from_cons i pid name names :
  columns_from i pid (name :: names) = (name, mkRoute i pid) :: columns_from i (pid + 1) names.
Proof.
  unfold columns_from. rewrite zlen_cons, seqZ_cons by (pose proof (zlen_nonneg names); lia). cbn. do 3 f_equal. f_equal; lia.
Qed.

Lemma columns_from_names i pid names : (columns_from i pid names).*1 = names.
Proof. revert pid. induction names as [|name names IH]; intros pid; [done|]. rewrite columns_from_cons. cbn. by rewrite IH. Qed.

Lemma columns_from_in i pid names name r :
  (name, r) ∈ columns_from i pid names <->
  shard_idx r = i /\ pid <= local_property_id r /\ names !! Z.to_nat (local_property_id r - pid) = Some name.
Proof.
  revert pid. induction names as [|n names IH]; intros pid.
  { cbn. split; [by intros ?%elem_of_nil|by intros (_ & _ & ?)]. }
  rewrite columns_from_cons, elem_of_cons, IH. split.
  - intros [[= -> ->]|(Hi & Hp & Hl)]; cbn.
    + split_and!; [done|lia|]. by replace (Z.to_nat (pid - pid)) with 0%nat by lia.
    + split_and!; [done|lia|]. by replace (Z.to_nat (local_property_id r - pid)) with (S (Z.to_nat (local_property_id r - (pid + 1)))) by lia.
  - intros (Hi & Hp & Hl). destruct r as [i' p]. cbn in *. subst i'. destruct (decide (p = pid)) as [->|Hne].
    + replace (Z.to_nat (pid - pid)) with 0%nat in Hl by lia. injection Hl as ->. by left.
    + replace (Z.to_nat (p - pid)) with (S (Z.to_nat (p - (pid + 1)))) in Hl by lia. right. split_and!; [done|lia|done].
Qed.

Lemma all_columns_in i shards name r :
  (name, r) ∈ all_columns i shards <->
  0 <= local_property_id r /\ exists s, (i <= shard_idx r)%nat /\ shards !! (shard_idx r - i)%nat = Some s /\
    shard_properties s !! Z.to_nat (local_property_id r) = Some name.
Proof.
  revert i. induction shards as [|s shards IH]; intros i; cbn [all_columns].
  { split; [by intros ?%elem_of_nil|by intros (_ & ? & _ & ? & _)]. }
  rewrite elem_of_app, columns_from_in, IH, Z.sub_0_r. split.
  - intros [(Hi & Hp & Hl)|(Hp & s' & Hi & Hs & Hl)].
    + split; [done|]. exists s. split_and!; [lia| |done]. by replace (shard_idx r - i)%nat with 0%nat by lia.
    + split; [done|]. exists s'. split_and!; [lia| |done]. by replace (shard_idx r - i)%nat with (S (shard_idx r - S i)) by lia.
  - intros (Hp & s' & Hi & Hs & Hl). destruct (decide (shard_idx r = i)) as [E|Hne].
    + left. replace (shard_idx r - i)%nat with 0%nat in Hs by lia. injection Hs as ->. done.
    + right. split; [done|]. exists s'. split_and!; [lia| |done]. by replace (shard_idx r - i)%nat with (S (shard_idx r - S i)) in Hs by lia.
Qed.

Lemma all_columns_names i shards : (all_columns i shards).*1 = concat (shard_properties <$> shards).
Proof. revert i. induction shards as [|s shards IH]; intros i; [done|]. cbn. by rewrite fmap_app, columns_from_names, IH. Qed.

(** Names that can be routed: none is empty, taken or repeated. *)
Definition fresh_names (names : list bytes) (routes : gmap bytes PropertyRoute) : Prop :=
  Forall (fun n => n <> [] /\ routes !! n = None) names /\ NoDup names.

Lemma fresh_cons n names routes r :
  fresh_names (n :: names) routes <-> n <> [] /\ routes !! n = None /\ fresh_names names (<[n := r]> routes).
Proof.
  unfold fresh_names. rewrite Forall_cons, NoDup_cons, !Forall_forall. split.
  - intros [[[Hn Hr] Hf] [Hnin Hnd]]. split_and!; try done. intros x Hx. destruct (Hf x Hx). split; [done|].
    rewrite lookup_insert_ne; [done|]. by intros ->.
  - intros (Hn & Hr & Hf & Hnd). split_and!; try done.
    + intros x Hx. destruct (Hf x Hx) as [Hne Hx']. split; [done|]. by apply lookup_insert_None in Hx' as [? _].
    + intros Hx. destruct (Hf n Hx) as [_ Hx']. by rewrite lookup_insert_eq in Hx'.
Qed.

Lemma route_columns_spec i pid names ids routes :
  (fresh_names names routes /\ exists ids', route_columns i pid names ids routes = Ok (ids', list_to_map (columns_from i pid names) ∪ routes)) \/
  (~ fresh_names names routes /\ route_columns i pid names ids routes = Err kInvalidArgument).
Proof.
  revert pid ids routes. induction names as [|n names IH]; intros pid ids routes.
  { left. split; [by repeat constructor|]. exists ids. cbn. by rewrite (left_id_L ∅ (∪)). }
  cbn [route_columns]. rewrite (fresh_cons n names routes (mkRoute i pid)). case_bool_decide as Hn; [right; split; [by intros (? & _)|done]|].
  destruct (routes !! n) as [r|] eqn:Hr; [right; split; [by intros (_ & ? & _)|done]|].
  destruct (IH (pid + 1) (emplace_id n pid ids) (<[n := mkRoute i pid]> routes)) as [[Hf (ids' & E)]|[Hf E]]; [left|right].
  - split; [done|]. exists ids'. rewrite E, columns_from_cons. cbn [list_to_map foldr]. rewrite <- insert_union_r, insert_union_l; [done|].
    apply not_elem_of_list_to_map. rewrite columns_from_names. intros Hin. destruct Hf as [Hf _]. rewrite Forall_forall in Hf.
    destruct (Hf n Hin) as [_ Hx]. by rewrite lookup_insert_eq in Hx.
  - split; [|done]. by intros (_ & _ & ?).
Qed.

Lemma fresh_app names names' routes i pid :
  fresh_names (names ++ names') routes <->
  fresh_names names routes /\ fresh_names names' (list_to_map (columns_from i pid names) ∪ routes).
Proof.
  assert (forall x, (list_to_map (columns_from i pid names) ∪ routes) !! x = None <-> x ∉ names /\ routes !! x = None) as Hx.
  { intros x. rewrite lookup_union_None, <- not_elem_of_list_to_map, columns_from_names. done. }
  unfold fresh_names. rewrite Forall_app, NoDup_app, !Forall_forall. split.
  - intros [[H1 H2] (H3 & H4 & H5)]. split_and!; try done. intros x Hin. destruct (H2 x Hin). split; [done|]. apply Hx.
    split; [|done]. intros Hin'. by apply (H4 x).
  - intros [[H1 H2] [H3 H4]]. split_and!; try done.
    + intros x Hin. destruct (H3 x Hin) as [? [_ ?]%Hx]. done.
    + intros x Hin Hin'. by destruct (H3 x Hin') as [_ [? _]%Hx].
Qed.

(** ** The shards *)
Section Opened.
Context {Db : Type} `{!LSMGraph Db} (create_directories : bytes -> bool) (base_dir : bytes) (schema : Schema) (options : GraphDbOptions).

(** A handle of the schema's shard. *)
Definition opened (s : ShardSchema) (h : ShardHandle Db) : Prop :=
  h_properties h = shard_properties s /\ property_lengths h = resolve_property_length schema <$> shard_properties s /\
  exists kind id dir, db_open (store_config schema options kind id dir (property_lengths h) s) = Some (h_db h).

(** The constructor of the store of a shard throws. *)
Definition open_throws (s : ShardSchema) : Prop :=
  exists kind id dir, db_open (store_config schema options kind id dir (resolve_property_length schema <$> shard_properties s) s) = None.

Lemma open_edge_shards_spec i shards routes :
  match open_edge_shards create_directories base_dir schema options i shards routes with
  | Ok (hs, routes') => fresh_names (concat (shard_properties <$> shards)) routes /\ Forall2 opened shards hs /\
      routes' = list_to_map (all_columns i shards) ∪ routes
  | Err (Returned e) => (e = kIOError /\ exists dir, create_directories dir = false) \/
      (e = kInvalidArgument /\ ~ fresh_names (concat (shard_properties <$> shards)) routes)
  | Err Thrown => exists s, s ∈ shards /\ open_throws s
  end.
Proof.
  revert i routes. induction shards as [|s shards IH]; intros i routes; cbn [open_edge_shards].
  { split_and!; [by repeat constructor|constructor|]. cbn. by rewrite (left_id_L ∅ (∪)). }
  unfold open_edge_shard. set (dir := _ ++ _ ++ _). destruct (create_directories dir) eqn:Ed; cbn [negb mbind result_bind]; [|by left; eauto].
  cbn [fmap list_fmap concat]. pose proof (fresh_app (shard_properties s) (concat (shard_properties <$> shards)) routes i 0) as Hfa.
  destruct (route_columns_spec i 0 (shard_properties s) ∅ routes) as [[Hf (ids' & E)]|[Hf E]]; rewrite E; cbn [checked mbind result_bind].
  2:{ right. split; [done|]. by intros [? _]%Hfa. }
  unfold make_store. set (cfg := store_config _ _ _ _ _ _ _). destruct (db_open cfg) as [db|] eqn:Edb; cbn [mbind result_bind];
    [|exists s; split; [left|by eexists _, _, _]].
  specialize (IH (S i) (list_to_map (columns_from i 0 (shard_properties s)) ∪ routes)).
  destruct (open_edge_shards _ _ _ _ (S i) shards _) as [[hs routes']|[e|]]; cbn [mbind result_bind].
  - destruct IH as (Hf' & Hhs & ->). split_and!; [by apply Hfa| |].
    + constructor; [|done]. split_and!; [done|done|]. by eexists kEdge, _, _.
    + cbn [all_columns]. rewrite list_to_map_app, map_union_assoc. f_equal. apply map_union_comm.
      apply map_disjoint_spec. intros n r r' H1 H2. apply elem_of_list_to_map_2 in H1, H2.
      destruct Hf' as [Hf' _]. rewrite Forall_forall in Hf'. destruct (Hf' n) as [_ [Hn _]%lookup_union_None].
      * rewrite <- (all_columns_names (S i)). apply list_elem_of_fmap. by exists (n, r).
      * apply not_elem_of_list_to_map in Hn. apply Hn, list_elem_of_fmap. by exists (n, r').
  - destruct IH as [[-> Hd]|[-> Hn]]; [by left|]. right. split; [done|]. by intros [_ ?]%Hfa.
  - destruct IH as (s' & Hs' & Ht). exists s'. split; [by right|done].
Qed.

End Opened.

Lemma route_node_spec pid names ids routes :
  match route_node_columns pid names ids routes with
  | Ok (ids', routes') => Forall (fun n => n <> []) names /\
      (forall n, is_Some (routes' !! n) <-> n ∈ names \/ is_Some (routes !! n)) /\
      (forall n r, routes' !! n = Some r -> (n, r) ∈ columns_from 0 pid names \/ routes !! n = Some r)
  | Err e => e = kInvalidArgument /\ ~ Forall (fun n => n <> []) names
  end.
Proof.
  revert pid ids routes. induction names as [|n names IH]; intros pid ids routes; cbn [route_node_columns].
  { split_and!; [constructor| |by right]. intros n. split; [by right|]. by intros [?%elem_of_nil|]. }
  case_bool_decide as Hn; [split; [done|]; by intros [? _]%Forall_cons|].
  specialize (IH (pid + 1) (emplace_id n pid ids) (<[n := mkRoute 0 pid]> routes)).
  destruct (route_node_columns (pid + 1) names _ _) as [[ids' routes']|e].
  - destruct IH as (Hf & Hs & Hr). split_and!; [by constructor|..].
    + intros x. rewrite Hs, elem_of_cons, lookup_insert_is_Some. destruct (decide (x = n)); naive_solver.
    + intros x r [Hx|Hx]%Hr; rewrite columns_from_cons, elem_of_cons; [by left; right|].
      apply lookup_insert_Some in Hx as [[<- <-]|[_ Hx]]; [by left; left|by right].
  - destruct IH as [-> Hf]. split; [done|]. by intros [_ ?]%Forall_cons.
Qed.

Lemma length_by_name_pos defs : map_Forall (fun _ l => 1 <= l) (length_by_name defs).
Proof.
  unfold length_by_name. assert (forall m : gmap bytes Z, map_Forall (fun _ l => 1 <= l) m -> map_Forall (fun _ l => 1 <= l)
    (foldl (fun m def => if bool_decide (def_name def = []) then m else <[def_name def := Z.max 1 (def_length def)]> m) m defs)) as Hf.
  { induction defs as [|d defs IH]; intros m Hm; [done|]. cbn [foldl]. apply IH. case_bool_decide; [done|]. apply map_Forall_insert_2; [lia|done]. }
  apply Hf, map_Forall_empty.
Qed.

Lemma resolve_length_pos schema name : 1 <= resolve_property_length schema name.
Proof.
  unfold resolve_property_length. destruct (length_by_name (property_defs schema) !! name) as [l|] eqn:E; [|cbn; lia].
  exact (length_by_name_pos _ _ _ E).
Qed.

(** The property names [Init] accepts. *)
Definition names_ok (schema : Schema) : Prop :=
  Forall (fun n => n <> []) (concat (shard_properties <$> edge_shards schema) ++ shard_properties (node_db schema)) /\
  NoDup (concat (shard_properties <$> edge_shards schema)).

Lemma names_ok_fresh schema :
  names_ok schema <-> fresh_names (concat (shard_properties <$> edge_shards schema)) ∅ /\ Forall (fun n => n <> []) (shard_properties (node_db schema)).
Proof.
  unfold names_ok, fresh_names. rewrite Forall_app.
  assert (forall l : list bytes, Forall (fun n => n <> [] /\ (∅ : gmap bytes PropertyRoute) !! n = None) l <-> Forall (fun n => n <> []) l) as ->; [|tauto].
  intros l. rewrite !Forall_forall. setoid_rewrite lookup_empty. naive_solver.
Qed.

Section Wf.
Context {Db : Type} `{!LSMGraph Db} (schema : Schema) (options : GraphDbOptions).

Lemma opened_columns shards hs name r :
  Forall2 (opened schema options) shards hs -> column_at hs name r <-> (name, r) ∈ all_columns 0 shards.
Proof.
  intros Ho. rewrite all_columns_in. unfold column_at. rewrite Nat.sub_0_r. split; intros [Hp Hx]; split; try done.
  - destruct Hx as (h & Hh & Hn). eapply Forall2_lookup_r in Hh as (s & Hs & Hsh); [|exact Ho]. exists s. destruct Hsh as (E & _).
    rewrite <- E. split_and!; [lia|done|done].
  - destruct Hx as (s & _ & Hs & Hn). eapply Forall2_lookup_l in Hs as (h & Hh & Hsh); [|exact Ho]. exists h. destruct Hsh as (E & _).
    by rewrite E.
Qed.

Lemma opened_lengths s (h : ShardHandle Db) :
  opened schema options s h -> length (property_lengths h) = length (h_properties h) /\ Forall (fun l => 1 <= l) (property_lengths h).
Proof.
  intros (E1 & E2 & _). rewrite E1, E2, length_fmap. split; [done|]. apply Forall_fmap, Forall_forall. intros n _. apply resolve_length_pos.
Qed.

Lemma wf_of_opened base edges node nroutes next m :
  Forall2 (opened schema options) (edge_shards schema) edges -> opened schema options (node_db schema) node -> names_ok schema ->
  zlen (edge_shards schema) < 2 ^ 32 -> Forall (fun s => zlen (shard_properties s) < 2 ^ 31) (node_db schema :: edge_shards schema) ->
  (forall n, is_Some (nroutes !! n) <-> n ∈ shard_properties (node_db schema)) ->
  (forall n r, nroutes !! n = Some r -> (n, r) ∈ columns_from 0 0 (shard_properties (node_db schema))) ->
  (forall m', m = Some m' -> manager_ok m') ->
  facade_wf (mkGraphDb base edges node (list_to_map (all_columns 0 (edge_shards schema))) nroutes next m).
Proof.
  intros Ho On [Hne Hnd] Hs1 Hs2 Hn1 Hn2 Hm. apply Forall_app in Hne as [Hne Hnn]. pose proof On as (En & _).
  split; cbn [edge_property_to_route_ edge_shards_ node_property_to_route_ node_shard_ property_update_manager_].
  - intros name r. rewrite (opened_columns _ _ name r Ho). rewrite <- elem_of_list_to_map by (by rewrite all_columns_names). split; [|tauto].
    intros Hin. split; [|done]. rewrite Forall_forall in Hne. apply Hne. rewrite <- (all_columns_names 0). apply list_elem_of_fmap. by exists (name, r).
  - intros name. rewrite En. apply Hn1.
  - intros name r Hr. apply Hn2, columns_from_in in Hr as (Hi & Hp & Hl). rewrite Z.sub_0_r in Hl.
    split_and!; [|done|]. { rewrite Forall_forall in Hnn. apply Hnn. by eapply list_elem_of_lookup_2. }
    split; [done|]. exists node. by rewrite Hi, En.
  - constructor; [by eapply opened_lengths|]. apply Forall_forall. intros h (i & Hh)%list_elem_of_lookup.
    eapply Forall2_lookup_r in Hh as (s & _ & Hsh); [|exact Ho]. by eapply opened_lengths.
  - apply Forall_cons in Hs2 as [Hs2 Hs3]. split; [unfold zlen in *; by rewrite <- (Forall2_length _ _ _ Ho)|]. constructor; [by rewrite En|].
    apply Forall_forall. intros h (i & Hh)%list_elem_of_lookup. eapply Forall2_lookup_r in Hh as (s & Hs & Hsh); [|exact Ho]. destruct Hsh as (E & _).
    rewrite E. rewrite Forall_forall in Hs3. apply Hs3. by eapply list_elem_of_lookup_2.
  - done.
Qed.
End Wf.

(** Validated options make a manager. *)
Lemma new_manager_ok options c :
  Validate options = None -> enabled (property_updates options) = true ->
  exists m, new_manager (property_updates options) true c = Ok m /\ manager_ok m.
Proof.
  intros Hv He. assert (exists m, new_manager (property_updates options) true c = Ok m) as [m Em].
  { unfold Validate in Hv. rewrite He in Hv. unfold new_manager. rewrite He. cbn [negb orb].
    repeat match type of Hv with (if ?b then _ else _) = _ => destruct b eqn:?; [done|] end.
    repeat match goal with H : ?b = false |- context [?b] => rewrite H end. by eexists. }
  exists m. split; [done|]. exists (initial m). split; [by eapply inv_initial|done].
Qed.

Lemma init_opened {Db} `{!LSMGraph Db} create_directories base_dir schema options :
  Validate options = None -> zlen (edge_shards schema) < 2 ^ 32 ->
  Forall (fun s => zlen (shard_properties s) < 2 ^ 31) (node_db schema :: edge_shards schema) ->
  match Init create_directories base_dir schema options : option (result Status (GraphDb Db)) with
  | Some (Ok g) => names_ok schema /\ facade_wf g /\ Forall2 (opened schema options) (edge_shards schema) (edge_shards_ g) /\
      opened schema options (node_db schema) (node_shard_ g)
  | Some (Err e) => (e = kIOError /\ exists dir, create_directories dir = false) \/ (e = kInvalidArgument /\ ~ names_ok schema)
  | None => exists s, s ∈ node_db schema :: edge_shards schema /\ open_throws (Db := Db) schema options s
  end.
Proof.
  intros Hv Hs1 Hs2. unfold Init. destruct (create_directories base_dir) eqn:Eb; cbn [negb]; [|left; eauto].
  pose proof (open_edge_shards_spec (Db := Db) create_directories base_dir schema options 0 (edge_shards schema) ∅) as He.
  destruct (open_edge_shards _ _ _ _ _ _ _) as [[edges eroutes]|[e|]]; cbn [mbind result_bind].
  2:{ destruct He as [?|[-> Hn]]; [by left|]. right. split; [done|]. by intros [? _]%names_ok_fresh. }
  2:{ destruct He as (s & Hs & Ht). exists s. split; [by right|done]. }
  destruct He as (Hf & Ho & ->). rewrite map_union_empty. unfold open_node_shard. set (dir := _ ++ _ ++ _).
  destruct (create_directories dir) eqn:Ed; cbn [negb mbind result_bind]; [|left; eauto].
  unfold make_store. set (cfg := store_config _ _ _ _ _ _ _). destruct (db_open cfg) as [db|] eqn:Edb; cbn [mbind result_bind];
    [|exists (node_db schema); split; [left|by eexists _, _, _]].
  pose proof (route_node_spec 0 (shard_properties (node_db schema)) ∅ ∅) as Hr.
  destruct (route_node_columns _ _ _ _) as [[ids nroutes]|e]; cbn [checked mbind result_bind].
  2:{ destruct Hr as [-> Hn]. right. split; [done|]. by intros [_ ?]%names_ok_fresh. }
  destruct Hr as (Hne & Hn1 & Hn2). set (node := mkHandle _ _ _ ids _).
  assert (names_ok schema) as Hok by (by apply names_ok_fresh).
  assert (opened schema options (node_db schema) node) as Hnode by (split_and!; [done|done|by eexists kNode, _, _]).
  assert (forall next m, (forall m', m = Some m' -> manager_ok m') ->
    facade_wf (mkGraphDb base_dir edges node (list_to_map (all_columns 0 (edge_shards schema))) nroutes next m)) as Hwf.
  { intros next m Hm. apply (wf_of_opened schema options); try done.
    - intros n. rewrite Hn1, lookup_empty. split; [by intros [?|[? ?]]|by left].
    - intros n r Hr. apply Hn2 in Hr as [?|Hr]; [done|]. by rewrite lookup_empty in Hr. }
  destruct (enabled (property_updates options)) eqn:Een.
  - destruct (new_manager_ok options (foldl Z.max 1 ((fun s => u64 (db_GetMaxPropertyCommitSequence s + 1)) <$> (h_db <$> edges) ++ [h_db node]))
      Hv Een) as (m & Em & Hm).
    rewrite Em. split_and!; [done| |done|done]. apply Hwf. by intros m' [= <-].
  - split_and!; [done| |done|done]. by apply Hwf.
Qed.

