(* ===== verification/GraphUpdate.v ===== *)
(** * Buffered updates through the facade

    [UpdateEdge] with a property update manager: the update is visible to the
    next read of its columns and to nothing else. *)

From S2P Require Import Prelude.
From S2P Require Import Types.
From S2P Require Import Names.
From S2P Require Import PropertyLayout.
From S2P Require Import UpdateManager.
From S2P Require Import UpdateManagerFacts.
From S2P Require Import UpdateManagerInv.
From S2P Require Import LsmRead.
From S2P Require Import EdgeIterators.
From S2P Require Import GraphSchema.
From S2P Require Import GraphDb.
From S2P Require Import GraphScan.
From S2P Require Import GraphWf.

(** ** Submission *)
Lemma submit_updates_kOk {Db} update_size us m (g g' : GraphDb Db) c :
  manager_ok m -> submit_updates update_size us m g = Some (kOk, c, g') ->
  exists m', g' = set_manager m' g /\ manager_ok m' /\
    pending_ m' = foldl PublishPending (pending_ m) (map (stamp (next_commit_sequence_ m)) us).
Proof.
  intros (s & Hi & <-). unfold submit_updates. destruct (submit_checks update_size _ us) as [n|e]; [|done].
  pose proof (submit_first_outcome true (mgr s) us n (held s) (inv_ring _ Hi)) as Ho.
  pose proof (inv_outcome true s [] us n _ Hi Ho) as Hi'.
  destruct (submit_first (mgr s) us n) as [second m'|e m'|us' m']; [done|done|]. intros [= <- <-].
  exists m'. split; [done|]. split; [by eexists|]. destruct Ho as (-> & m0 & Hm & Hc).
  destruct (mv_rest _ _ _ _ Hm) as (_ & _ & Ep & _). by rewrite (cs_pending _ _ _ _ Hc), Ep.
Qed.

Lemma stamp_key c u : MakePendingKey (stamp c u) = MakePendingKey u.
Proof. done. Qed.

(** The pending table after a batch. *)
Lemma published_lookup m us k :
  manager_ok m ->
  match foldl PublishPending (pending_ m) (map (stamp (next_commit_sequence_ m)) us) !! k with
  | Some v => (pending_ m !! k = Some v /\ forall u, u ∈ us -> MakePendingKey u <> k) \/
      exists u, u ∈ us /\ MakePendingKey u = k /\ v = pending_of (stamp (next_commit_sequence_ m) u)
  | None => pending_ m !! k = None /\ forall u, u ∈ us -> MakePendingKey u <> k
  end.
Proof.
  intros (s & Hi & <-). set (c := next_commit_sequence_ (mgr s)).
  pose proof (publish_all_spec (pending_ (mgr s)) (map (stamp c) us) c (fun u => stamp_commit c us u) (inv_next _ Hi) (inv_pending _ Hi) k) as Hp.
  assert (forall u, u ∈ us -> stamp c u ∈ map (stamp c) us) as Hin by (intros u Hu; apply list_elem_of_fmap; by exists u).
  destruct (foldl PublishPending _ _ !! k) as [v|].
  - destruct Hp as [[Hp Hk]|(u & Hu & Ek & Ev)]; [left; split; [done|]; intros u Hu; by apply (Hk (stamp c u)), Hin|].
    right. apply list_elem_of_fmap in Hu as (u' & -> & Hu'). by exists u'.
  - destruct Hp as [Hp Hk]. split; [done|]. intros u Hu. by apply (Hk (stamp c u)), Hin.
Qed.

(** ** Requests for known names *)
Lemma resolve_known routes names seen :
  Forall (fun n => n <> [] /\ is_Some (routes !! n)) names ->
  exists rs, resolve_routes routes seen names = Some rs /\ (forall n r, (n, r) ∈ rs -> routes !! n = Some r) /\
    forall n, n ∈ rs.*1 <-> n ∈ names /\ n ∉ seen.
Proof.
  intros Hk. revert seen. induction Hk as [|n names [Hn [r Hr]] _ IH]; intros seen; cbn [resolve_routes].
  { exists []. split_and!; [done|by intros ? ? ?%elem_of_nil|]. set_solver. }
  rewrite bool_decide_eq_false_2 by done. cbn [orb]. case_bool_decide as Hs.
  - destruct (IH seen) as (rs & E & H1 & H2). exists rs. split_and!; [done|done|]. intros x. rewrite H2. set_solver.
  - rewrite Hr. simpl_bind. destruct (IH ({[n]} ∪ seen)) as (rs & E & H1 & H2). rewrite E. simpl_bind. exists ((n, r) :: rs).
    split_and!; [done| |].
    + intros x r' [[= -> ->]|Hin]%elem_of_cons; [done|by apply H1].
    + intros x. cbn. rewrite elem_of_cons, H2. destruct (decide (x = n)) as [->|]; set_solver.
Qed.

Lemma find_property_Some n v (properties : Properties) :
  NoDup properties.*1 -> find_property n properties = Some v <-> (n, v) ∈ properties.
Proof.
  intros Hnd. unfold find_property. induction properties as [|[n' v'] properties IH]; [cbn; split; [done|by intros ?%elem_of_nil]|].
  cbn in Hnd. apply NoDup_cons in Hnd as [Hn Hnd]. rewrite elem_of_cons. cbn [list_find fst]. destruct (decide (n' = n)) as [->|Hne].
  - cbn. split; [intros [= ->]; by left|]. intros [[= ->]|Hin]; [done|]. exfalso. apply Hn, list_elem_of_fmap. by exists (n, v).
  - rewrite <- (IH Hnd). destruct (list_find _ properties) as [[i x]|]; cbn; split; [by right|intros [[= <-]|?]; done|done|intros [[= <-]|?]; done].
Qed.

Section Update.
Context {Db : Type} `{!LSMGraph Db} (order : list nat -> list nat) (update_size : Z).
Context (Horder : forall l, order l ≡ₚ l).
Implicit Types (g : GraphDb Db).

(** The key of a column of an edge. *)
Definition edge_key (route : PropertyRoute) (src dst : Z) (is_out : bool) (ty : Z) : PendingKey :=
  mkPKey kEdge (u32 (Z.of_nat (shard_idx route))) (u32 (local_property_id route)) src dst is_out ty.

Lemma locate_shards_Ok g shards src dst is_out ty locations i :
  locate_shards g shards src dst is_out ty = Some (Ok locations) -> i ∈ shards ->
  exists h loc, edge_shards_ g !! i = Some h /\ locations !! i = Some loc /\
    locate (mkRoute i 0) (h_db h) src dst is_out ty = Some (Ok loc).
Proof.
  revert locations. induction shards as [|j shards IH]; intros locations; [by intros _ ?%elem_of_nil|]. cbn [locate_shards].
  destruct (edge_shards_ g !! j) as [h|] eqn:Eh; [|done]. simpl_bind.
  destruct (locate (mkRoute j 0) (h_db h) src dst is_out ty) as [[loc|rs]|] eqn:El; [|done|done]. simpl_bind.
  destruct (locate_shards g shards src dst is_out ty) as [[rest|rs]|]; [|done|done]. simpl_bind. intros [= <-].
  destruct (decide (i = j)) as [->|Hne]; [intros _; exists h, loc; by rewrite lookup_insert_eq|].
  intros [->|Hi]%elem_of_cons; [done|]. destruct (IH rest eq_refl Hi) as (h' & loc' & H1 & H2 & H3). exists h', loc'.
  by rewrite lookup_insert_ne.
Qed.

Lemma locate_shards_Err g shards src dst is_out ty rs : locate_shards g shards src dst is_out ty = Some (Err rs) -> rs <> kOk.
Proof.
  induction shards as [|j shards IH]; [done|]. cbn [locate_shards]. destruct (edge_shards_ g !! j) as [h|]; [|done]. simpl_bind.
  unfold locate. destruct (db_LocateEdge (h_db h) src dst is_out ty) as [[rs' l]|]; [|done]. simpl_bind.
  case_bool_decide as Hrs; simpl_bind; [|by intros [= <-]].
  destruct (locate_shards g shards src dst is_out ty) as [[rest|rs'']|]; [done| |done]. simpl_bind. intros [= <-]. by apply IH.
Qed.

Lemma locate_sequence route i db src dst is_out ty loc :
  locate (mkRoute i 0) db src dst is_out ty = Some (Ok loc) ->
  exists loc', locate route db src dst is_out ty = Some (Ok loc') /\ loc_sequence loc' = loc_sequence loc.
Proof.
  unfold locate. destruct (db_LocateEdge db src dst is_out ty) as [[rs l]|]; [|done]. simpl_bind.
  case_bool_decide; [|done]. intros [= <-]. by eexists.
Qed.

Lemma touched_in g properties shards item :
  touched_shards g properties = Some shards -> item ∈ properties ->
  exists route, edge_property_to_route_ g !! item.1 = Some route /\ shard_idx route ∈ shards.
Proof.
  unfold touched_shards. destruct (mapM _ properties) as [routes|] eqn:Em; [|done]. simpl_bind. intros [= <-] Hin.
  apply mapM_Some in Em. apply list_elem_of_lookup in Hin as (i & Hi). eapply Forall2_lookup_l in Hi as (route & Hr & E); [|exact Em].
  exists route. split; [done|]. apply elem_of_remove_dups, list_elem_of_fmap. exists route. split; [done|]. by eapply list_elem_of_lookup_2.
Qed.

(** An edge update is flushed to the store of its column. *)
Lemma edge_update_store g locations src dst is_out ty item u route h :
  facade_wf g -> edge_update g locations src dst is_out ty item = Some u ->
  edge_property_to_route_ g !! item.1 = Some route -> edge_shards_ g !! shard_idx route = Some h ->
  flush_store g (u_target u) = Some (h_db h).
Proof.
  intros Hwf E Er Hh. unfold edge_update in E. rewrite Er in E. simpl_bind in E. destruct (locations !! shard_idx route) as [loc|]; [|done].
  simpl_bind in E. injection E as <-. unfold flush_store. cbn [buffered_update u_target kind shard_id].
  destruct (wf_small _ Hwf) as [Hs _]. pose proof (lookup_lt_Some _ _ _ Hh) as Hlt. rewrite u32_id by (unfold zlen in Hs; lia).
  rewrite (proj2 (Z.ltb_lt _ _)) by (unfold zlen; lia). by rewrite Nat2Z.id, Hh.
Qed.

(** What a committed update leaves pending: per item, the value under the
    version the store locates; every other key keeps its value. *)
Lemma update_edge_pending g src dst properties is_out ty c g' m :
  facade_wf g -> property_update_manager_ g = Some m -> NoDup properties.*1 ->
  UpdateEdge order update_size g src dst properties is_out ty = Some (kOk, c, g') ->
  exists m', g' = set_manager m' g /\ manager_ok m' /\
    (forall name value, (name, value) ∈ properties -> exists route loc v,
       edge_property_to_route_ g !! name = Some route /\
       LocateEdgeProperty g src dst name is_out ty = Some (Ok loc) /\
       pending_ m' !! edge_key route src dst is_out ty = Some v /\ pv_base_sequence v = loc_sequence loc /\ pv_value v = value) /\
    (forall k, (forall name value route, (name, value) ∈ properties -> edge_property_to_route_ g !! name = Some route ->
        k <> edge_key route src dst is_out ty) -> pending_ m' !! k = pending_ m !! k).
Proof.
  intros Hwf Em Hnd. unfold UpdateEdge. case_bool_decide; [done|]. destruct (touched_shards g properties) as [shards|] eqn:Et; [|done].
  destruct shards as [|s0 shards']; [done|]. set (shards := s0 :: shards') in *. rewrite Em.
  destruct (locate_shards g (order shards) src dst is_out ty) as [[locations|rs]|] eqn:El;
    [|apply locate_shards_Err in El; simpl_bind; by intros [= ->]|done]. simpl_bind.
  destruct (mapM (edge_update g locations src dst is_out ty) properties) as [updates|] eqn:Eu; [|done]. intros Hsub.
  assert (manager_ok m) as Hm by (by apply (wf_manager _ Hwf)).
  destruct (submit_updates_kOk _ _ _ _ _ _ Hm Hsub) as (m' & -> & Hm' & Hp). exists m'. split; [done|]. split; [done|].
  apply mapM_Some in Eu.
  assert (forall u, u ∈ updates -> exists name value route loc, (name, value) ∈ properties /\ edge_property_to_route_ g !! name = Some route /\
    locations !! shard_idx route = Some loc /\
    u = buffered_update kEdge (shard_idx route) (local_property_id route) loc src dst is_out ty value) as Hups.
  { intros u (i & Hu)%list_elem_of_lookup. eapply Forall2_lookup_r in Hu as (item & Hi & E); [|exact Eu]. destruct item as [name value]. unfold edge_update in E. cbn in E.
    destruct (edge_property_to_route_ g !! name) as [route|] eqn:Er; [|done]. simpl_bind in E.
    destruct (locations !! shard_idx route) as [loc|] eqn:Eloc; [|done]. simpl_bind in E. injection E as <-.
    exists name, value, route, loc. split_and!; try done. by eapply list_elem_of_lookup_2. }
  split.
  - intros name value Hin. destruct (touched_in g properties shards (name, value) Et Hin) as (route & Er & Hshard). cbn in Er.
    destruct (locate_shards_Ok g (order shards) src dst is_out ty locations (shard_idx route) El) as (h & loc & Eh & Eloc & Hloc);
      [by rewrite Horder|].
    destruct (locate_sequence route _ _ _ _ _ _ _ Hloc) as (loc' & Hloc' & Eseq). exists route, loc'.
    assert (LocateEdgeProperty g src dst name is_out ty = Some (Ok loc')) as Hlp.
    { unfold LocateEdgeProperty, ResolveEdgePropertyRoutes. cbn [resolve_routes].
      pose proof (proj1 (wf_edge _ Hwf _ _) Er) as [Hne _].
      rewrite bool_decide_eq_false_2, bool_decide_eq_false_2 by (done || apply not_elem_of_empty). cbn [orb]. rewrite Er. simpl_bind.
      cbn [nonempty_routes head]. simpl_bind. rewrite Eh. simpl_bind. done. }
    pose proof (published_lookup m updates (edge_key route src dst is_out ty) Hm) as Hl. rewrite <- Hp in Hl.
    assert (exists u, u ∈ updates /\ MakePendingKey u = edge_key route src dst is_out ty) as (u0 & Hu0 & Ek0).
    { apply list_elem_of_lookup in Hin as (i & Hi). eapply Forall2_lookup_l in Hi as (u & Hu & E); [|exact Eu]. unfold edge_update in E. cbn in E.
      rewrite Er in E. simpl_bind in E. rewrite Eloc in E. simpl_bind in E. injection E as <-. eexists. split; [by eapply list_elem_of_lookup_2|done]. }
    destruct (pending_ m' !! edge_key route src dst is_out ty) as [v|]; [|by destruct Hl as [_ Hl]; destruct (Hl u0 Hu0)].
    destruct Hl as [[_ Hl]|(u & Hu & Ek & ->)]; [by destruct (Hl u0 Hu0)|]. eexists. split_and!; [done|done|done|..].
    all: destruct (Hups u Hu) as (name' & value' & route' & loc1 & Hin' & Er' & Eloc' & ->); injection Ek as Es Epid;
      assert (name' = name) as -> by (by eapply edge_route_inj); rewrite Er in Er'; injection Er' as <-.
    + rewrite Eloc in Eloc'. injection Eloc' as <-. cbn. done.
    + cbn. apply (find_property_Some _ _ _ Hnd) in Hin, Hin'. congruence.
  - intros k Hk. pose proof (published_lookup m updates k Hm) as Hl. rewrite <- Hp in Hl.
    assert (forall u, u ∈ updates -> MakePendingKey u <> k) as Hn.
    { intros u Hu. destruct (Hups u Hu) as (name & value & route & loc & Hin & Er & _ & ->). intros E. by apply (Hk name value route Hin Er). }
    destruct (pending_ m' !! k) as [v|]; [|by destruct Hl as [-> _]].
    destruct Hl as [[-> _]|(u & Hu & Ek & _)]; [done|]. by apply Hn in Ek.
Qed.
End Update.

(** ** Reads *)
Lemma read_properties_all (read : bytes * PropertyRoute -> option (Status * bytes)) (f : bytes -> bytes) rs out :
  (forall r, r ∈ rs -> read r = Some (kOk, f r.1)) ->
  exists out', read_properties read rs out = Some (kOk, out') /\
    forall n, out' !! n = if decide (n ∈ rs.*1) then Some (f n) else out !! n.
Proof.
  revert out. induction rs as [|r rs IH]; intros out Hr; [by exists out|]. cbn [read_properties]. rewrite Hr by left. simpl_bind.
  rewrite bool_decide_eq_true_2 by done. destruct (IH (<[r.1 := f r.1]> out)) as (out' & E & Ho); [intros; apply Hr; by right|].
  exists out'. split; [done|]. intros n. rewrite Ho. cbn. destruct (decide (n = r.1)) as [->|Hne].
  - rewrite lookup_insert_eq. rewrite (decide_True (P := r.1 ∈ r.1 :: rs.*1)) by left. by case_decide.
  - rewrite lookup_insert_ne by done. destruct (decide (n ∈ rs.*1)) as [Hin|Hout].
    + by rewrite decide_True by (by right).
    + rewrite decide_False; [done|]. by rewrite not_elem_of_cons.
Qed.

Lemma read_properties_ext (read read' : bytes * PropertyRoute -> option (Status * bytes)) rs out :
  (forall r, r ∈ rs -> read r = read' r) -> read_properties read rs out = read_properties read' rs out.
Proof.
  revert out. induction rs as [|r rs IH]; intros out Hr; [done|]. cbn [read_properties]. rewrite Hr by left.
  destruct (read' r) as [[st v]|]; [|done]. simpl_bind. case_bool_decide; [|done]. apply IH. intros; apply Hr. by right.
Qed.

Lemma read_property_ext m m' key location get :
  pending_ m' !! key = pending_ m !! key -> read_property (Some m') key location get = read_property (Some m) key location get.
Proof. intros E. unfold read_property. simpl_bind. unfold LookupLatest, LookupExact. by rewrite E. Qed.

(** A request for known names whose columns all answer. *)
Lemma get_edge_names {Db} `{!LSMGraph Db} (g : GraphDb Db) src dst names is_out ty (f : bytes -> bytes) :
  names <> [] -> Forall (fun n => n <> [] /\ is_Some (edge_property_to_route_ g !! n)) names ->
  (forall n route, n ∈ names -> edge_property_to_route_ g !! n = Some route ->
    read_edge_property g src dst is_out ty (n, route) = Some (kOk, f n)) ->
  exists out, GetEdge g src dst names is_out ty = Some (kOk, out) /\
    forall n, out !! n = if decide (n ∈ names) then Some (f n) else None.
Proof.
  intros Hne Hk Hread. destruct (resolve_known _ _ ∅ Hk) as (rs & Ers & Hroutes & Hnames). unfold GetEdge, ResolveEdgePropertyRoutes. rewrite Ers.
  destruct rs as [|r0 rs']; [destruct names as [|n names]; [done|]; exfalso; apply (not_elem_of_nil n), (Hnames n); split; [left|set_solver]|].
  set (rs := r0 :: rs') in *. cbn [nonempty_routes].
  destruct (read_properties_all (read_edge_property g src dst is_out ty) f rs ∅) as (out & Eout & Hout).
  - intros [n route] Hr. apply Hread; [|by apply Hroutes]. apply Hnames, list_elem_of_fmap. by exists (n, route).
  - exists out. split; [done|]. intros n. rewrite Hout, lookup_empty. destruct (decide (n ∈ names)) as [Hn|Hn].
    + rewrite decide_True; [done|]. apply Hnames. split; [done|set_solver].
    + rewrite decide_False; [done|]. by intros [? _]%Hnames.
Qed.

(** A column with a pending update of the located version. *)
Lemma read_pending {Db} `{!LSMGraph Db} (g : GraphDb Db) src dst is_out ty name route h m loc v :
  property_update_manager_ g = Some m -> edge_shards_ g !! shard_idx route = Some h ->
  LocateEdgeProperty g src dst name is_out ty = Some (Ok loc) ->
  pending_ m !! edge_key route src dst is_out ty = Some v -> pv_base_sequence v = loc_sequence loc ->
  read_edge_property g src dst is_out ty (name, route) = Some (kOk, pv_value v).
Proof.
  intros Em Eh Hloc Hpv Hseq. unfold read_edge_property. cbn [fst snd]. rewrite Eh. simpl_bind. rewrite Em. unfold read_property. simpl_bind.
  unfold LookupLatest, LookupExact. unfold edge_key in Hpv. rewrite Hpv. cbn [fmap option_fmap option_map]. rewrite Hloc. simpl_bind.
  by rewrite Hseq, Z.eqb_refl.
Qed.

(** C9: a buffered update is visible, exactly. When [UpdateEdge] acknowledges a
    set of properties of an edge, the next [GetEdge] of any of them returns the
    new values; a read that names none of them, and a read of another edge,
    direction or type, returns what it returned before. *)
Theorem update_edge_then_get {Db} `{!LSMGraph Db} order update_size (g : GraphDb Db) src dst properties is_out ty commit g' m :
  (forall l, order l ≡ₚ l) -> facade_wf g -> property_update_manager_ g = Some m -> NoDup properties.*1 ->
  UpdateEdge order update_size g src dst properties is_out ty = Some (kOk, commit, g') ->
  (forall names, names <> [] -> (forall n, n ∈ names -> n ∈ properties.*1) ->
    exists out, GetEdge g' src dst names is_out ty = Some (kOk, out) /\
      forall n, out !! n = if decide (n ∈ names) then find_property n properties else None) /\
  (forall src' dst' is_out' ty' names,
    (src', dst', is_out', ty') <> (src, dst, is_out, ty) \/ (forall n, n ∈ names -> n ∉ properties.*1) ->
    GetEdge g' src' dst' names is_out' ty' = GetEdge g src' dst' names is_out' ty').
Proof.
  intros Horder Hwf Em Hnd Hup.
  destruct (update_edge_pending order update_size Horder g src dst properties is_out ty commit g' m Hwf Em Hnd Hup) as (m' & -> & Hm' & Hnew & Hold).
  split.
  - intros names Hne Hin.
    assert (Forall (fun n => n <> [] /\ is_Some (edge_property_to_route_ g !! n)) names) as Hk.
    { apply Forall_forall. intros n ([n' v] & -> & Hn)%Hin%list_elem_of_fmap. destruct (Hnew n' v Hn) as (route & _ & _ & Er & _).
      split; [by apply (wf_edge _ Hwf) in Er as [? _]|by exists route]. }
    destruct (get_edge_names (set_manager m' g) src dst names is_out ty (fun n => default [] (find_property n properties)) Hne Hk)
      as (out & Eout & Hout).
    + intros n route ([n' v] & -> & Hn)%Hin%list_elem_of_fmap Er. cbn [fst] in *.
      destruct (Hnew n' v Hn) as (route' & loc & pv & Er' & Hloc & Hpv & Hseq & Hval).
      change (edge_property_to_route_ (set_manager m' g)) with (edge_property_to_route_ g) in Er. rewrite Er in Er'. injection Er' as <-.
      pose proof (proj1 (wf_edge _ Hwf _ _) Er) as [_ (_ & h & Eh & _)]. rewrite (proj2 (find_property_Some n' v properties Hnd) Hn). cbn [default].
      rewrite <- Hval. by apply (read_pending (set_manager m' g) src dst is_out ty n' route h m' loc pv).
    + exists out. split; [done|]. intros n. rewrite Hout. destruct (decide (n ∈ names)) as [Hn|Hn]; [|done].
      apply Hin in Hn as ([n' v] & -> & Hn)%list_elem_of_fmap. cbn [fst]. by rewrite (proj2 (find_property_Some n' v properties Hnd) Hn).
  - intros src' dst' is_out' ty' names Hother. unfold GetEdge, ResolveEdgePropertyRoutes.
    change (edge_property_to_route_ (set_manager m' g)) with (edge_property_to_route_ g).
    destruct (resolve_routes (edge_property_to_route_ g) ∅ names) as [rs|] eqn:Ers; [|done].
    destruct rs as [|r0 rs']; [done|]. set (rs := r0 :: rs') in *. cbn [nonempty_routes]. apply read_properties_ext. intros [n route] Hr.
    unfold read_edge_property. cbn [fst snd]. change (edge_shards_ (set_manager m' g)) with (edge_shards_ g).
    destruct (edge_shards_ g !! shard_idx route) as [h|]; [|done]. simpl_bind.
    change (LocateEdgeProperty (set_manager m' g) src' dst' n is_out' ty') with (LocateEdgeProperty g src' dst' n is_out' ty').
    rewrite Em. change (property_update_manager_ (set_manager m' g)) with (Some m'). apply read_property_ext, Hold.
    intros name value route' Hn Er' [= Ei Ep -> -> -> ->]. destruct Hother as [?|Hother]; [done|].
    destruct (resolve_routes_names _ _ _ _ Ers) as [_ Hin]. destruct (Hin n) as [_ Hnin]; [apply list_elem_of_fmap; by exists (n, route)|].
    assert (edge_property_to_route_ g !! n = Some route) as Er by (by eapply resolve_routes_lookup).
    assert (n = name) as -> by (by eapply (edge_route_inj g)). apply (Hother name Hnin), list_elem_of_fmap. by exists (name, value).
Qed.
