(* ===== verification/GraphHistory.v ===== *)
(** * The facade over its stores

    What the facade relies on in a store, as a class of laws over the history of
    its writes, and the theorem proved against it: a read returns the last write
    of its column, whatever shards the writes were spread over. *)

From S2P Require Import Prelude.
From S2P Require Import Types.
From S2P Require Import Names.
From S2P Require Import PropertyLayout.
From S2P Require Import EdgeBody.
From S2P Require Import Sst.
From S2P Require Import SkipList.
From S2P Require Import SkipListFacts.
From S2P Require Import SstBuild.
From S2P Require Import SstBuildFacts.
From S2P Require Import SstBuildTheorems.
From S2P Require Import MemTable.
From S2P Require Import MemTableFlush.
From S2P Require Import UpdateManager.
From S2P Require Import LsmRead.
From S2P Require Import LsmHistory.
From S2P Require Import EdgeIterators.
From S2P Require Import GraphSchema.
From S2P Require Import GraphDb.
From S2P Require Import GraphScan.
From S2P Require Import GraphWf.
From S2P Require Import GraphUpdate.

(** ** Property strings *)
Definition no_bar (v : bytes) : Prop := byte_of 124 ∉ v.
Definition value_of (properties : Properties) (name : bytes) : bytes := default [] (find_property name properties).

Lemma split_value v raw segment : no_bar v -> split_fields (v ++ raw) segment = split_fields raw (segment ++ v).
Proof.
  unfold no_bar. revert segment. induction v as [|c v IH]; intros segment Hv; [by rewrite app_nil_r|].
  apply not_elem_of_cons in Hv as [Hc Hv]. cbn [app split_fields]. rewrite bool_decide_eq_false_2 by congruence.
  rewrite IH by done. by rewrite <- app_assoc.
Qed.

Lemma split_joined names properties segment :
  (forall n, no_bar (value_of properties n)) ->
  split_fields (join_columns false names properties) segment = segment :: (value_of properties <$> names).
Proof.
  intros Hb. revert segment. induction names as [|n names IH]; intros segment; [done|].
  cbn [join_columns]. change (str "|") with [byte_of 124]. cbn [app split_fields]. rewrite bool_decide_eq_true_2 by done.
  fold (value_of properties n). rewrite split_value by apply Hb. by rewrite IH.
Qed.

Lemma split_built names properties :
  names <> [] -> (forall n, no_bar (value_of properties n)) ->
  split_fields (BuildShardPropertyString names properties) [] = value_of properties <$> names.
Proof.
  intros Hne Hb. destruct names as [|n names]; [done|]. unfold BuildShardPropertyString. cbn [join_columns app].
  fold (value_of properties n). rewrite split_value by apply Hb. by rewrite split_joined.
Qed.

Lemma no_bar_values (properties : Properties) n : Forall (fun kv => no_bar kv.2) properties -> no_bar (value_of properties n).
Proof.
  intros Hf. unfold value_of, find_property. destruct (list_find _ properties) as [[i kv]|] eqn:E; [|apply not_elem_of_nil].
  apply list_find_Some in E as (Hi & _ & _). cbn. by eapply (Forall_lookup_1 (fun kv : bytes * bytes => no_bar kv.2)).
Qed.

(** properties survive the property string. The string a write stores for a
    shard holds, in every column of the shard, the value given for the column's
    name, or nothing when none was given, as long as no value contains '|'. *)
Theorem property_string_roundtrip names properties p name :
  Forall (fun kv => no_bar kv.2) properties -> names !! p = Some name ->
  ExtractSubProperty (BuildShardPropertyString names properties) (Z.of_nat p) = default [] (find_property name properties).
Proof.
  intros Hb Hp. unfold ExtractSubProperty. rewrite (proj2 (Z.ltb_ge _ _)), Nat2Z.id, extract_field_split by lia.
  rewrite split_built by (first [by intros ->|intros n; by apply no_bar_values]). by rewrite list_lookup_fmap, Hp.
Qed.

Lemma property_string_roundtrip_witness :
  ExtractSubProperty (BuildShardPropertyString [str "age"; str "city"; str "name"] [(str "name", str "Ann"); (str "age", str "7")]) 2 = str "Ann" /\
  ExtractSubProperty (BuildShardPropertyString [str "age"; str "city"; str "name"] [(str "name", str "Ann"); (str "age", str "7")]) 1 = [].
Proof.
  split.
  - apply (property_string_roundtrip [str "age"; str "city"; str "name"] [(str "name", str "Ann"); (str "age", str "7")] 2 (str "name"));
      [repeat constructor; unfold no_bar; vm_compute; intros Hin; repeat (apply elem_of_cons in Hin as [?|Hin]; [done|]); by apply elem_of_nil in Hin|done].
  - vm_compute. reflexivity.
Defined.

(** A value with a '|' is not stored in its column: it moves the columns after it. *)
Example bar_shifts_columns :
  let s := BuildShardPropertyString [str "city"; str "name"] [(str "city", str "a|b"); (str "name", str "Ann")] in
  ExtractSubProperty s 0 = str "a" /\ ExtractSubProperty s 1 = str "b".
Proof. vm_compute. done. Qed.

(** ** The laws of a store *)

(** The history of a store: sources with the versions written, oldest first. *)
Abbreviation History := (list (Z * Edge)).

Definition written (dst seq : Z) (payload : bytes) (is_out : bool) (ty : Z) : Edge :=
  mkEdge dst seq (bool_decide (payload = str "~DELETED~")) payload is_out ty.

Definition last_edge (src dst : Z) (is_out : bool) (ty : Z) (h : History) : option Edge :=
  last (filter (version_of dst is_out ty) (snd <$> filter (fun x => x.1 = src) h)).

(** A write of one of [n] vertices, with a sequence above those of its source. *)
Definition writable (n : Z) (h : History) (src : Z) (e : Edge) : Prop :=
  0 <= sequence e < kMaxSequence /\ edge_fits e /\ 0 <= src < n /\ Forall (fun x => x.1 = src -> sequence x.2 < sequence e) h.

(** [represents db lens n h]: the store has columns of lengths [lens] and [n]
    vertices, and was written [h].  [settled]: no table waits for its flush;
    [background]: a flush or a compaction is done. *)
Class StoreLaws (Db : Type) `{!LSMGraph Db} := {
  represents : Db -> list Z -> Z -> History -> Prop;
  settled : Db -> Prop;
  background : Db -> Db -> Prop;
  max_vertices : Z;
  config_fits : StoreConfig -> Prop;
  law_open cfg db : config_fits cfg -> db_open cfg = Some db -> represents db (cfg_lengths cfg) 0 [];
  law_put db db' lens n h src dst payload is_out ty seq :
    represents db lens n h -> writable n h src (written dst seq payload is_out ty) ->
    db_put_edge db src dst payload kSingle is_out ty seq = Some db' ->
    represents db' lens n (h ++ [(src, written dst seq payload is_out ty)]);
  law_put_both db db' lens n h src dst payload is_out ty seq :
    represents db lens n h -> src <> dst ->
    writable n h src (written dst seq payload is_out ty) -> writable n h dst (written src seq payload (negb is_out) ty) ->
    db_put_edge db src dst payload kBidirectional is_out ty seq = Some db' ->
    represents db' lens n (h ++ [(src, written dst seq payload is_out ty); (dst, written src seq payload (negb is_out) ty)]);
  law_update db src dst payload mk seq is_out ty :
    db_update_edge db src dst payload mk seq is_out ty =
    db_put_edge db src dst (if mk then str "~DELETED~" else payload) kSingle is_out ty seq;
  law_vertex db lens n h :
    represents db lens n h -> n < max_vertices ->
    (db_new_vertex db).2 = n /\ represents (db_new_vertex db).1 lens (n + 1) h;
  law_vertices db lens n h next :
    represents db lens n h -> next <= max_vertices -> represents (db_InitVerticesUpTo next db) lens (Z.max next n) h;
  law_background db db' lens n h : represents db lens n h -> background db db' -> represents db' lens n h;
  law_get db lens n h p len src dst is_out ty :
    represents db lens n h -> settled db -> lens !! p = Some len -> 0 < len < 1024 -> 0 <= src < n ->
    Forall (fun x => storable len (field p x.2)) h ->
    db_GetEdge db src dst (Z.of_nat p) is_out ty = Some (status_of (field p) (last_edge src dst is_out ty h));
}.

(** ** Writes of the facade *)
Record FacadeWrite := mkWrite_ { w_src : Z; w_dst : Z; w_properties : Properties; w_out : bool; w_ty : Z; w_seq : Z }.

(** The writes of a shard: those that name one of its columns. *)
Definition touches (routes : gmap bytes PropertyRoute) (i : nat) (w : FacadeWrite) : Prop :=
  Exists (fun kv => shard_idx <$> routes !! kv.1 = Some i) (w_properties w).
#[export] Instance touches_dec routes i w : Decision (touches routes i w).
Proof. unfold touches. apply _. Defined.

Definition shard_edge (names : list bytes) (w : FacadeWrite) : Z * Edge :=
  (w_src w, written (w_dst w) (w_seq w) (BuildShardPropertyString names (w_properties w)) (w_out w) (w_ty w)).
Definition shard_history (routes : gmap bytes PropertyRoute) (i : nat) (names : list bytes) (ws : list FacadeWrite) : History :=
  shard_edge names <$> filter (touches routes i) ws.

(** The last write of an edge that touched shard [i]. *)
Definition last_facade_write (routes : gmap bytes PropertyRoute) (i : nat) (src dst : Z) (is_out : bool) (ty : Z) (ws : list FacadeWrite)
  : option FacadeWrite :=
  last (filter (fun w => touches routes i w /\ w_src w = src /\ w_dst w = dst /\ w_out w = is_out /\ w_ty w = ty) ws).

Lemma last_edge_history routes i names src dst is_out ty ws :
  last_edge src dst is_out ty (shard_history routes i names ws) =
  (fun w => (shard_edge names w).2) <$> last_facade_write routes i src dst is_out ty ws.
Proof.
  unfold last_edge, last_facade_write, shard_history. rewrite <- fmap_last. f_equal.
  induction ws as [|w ws IH]; [done|]. rewrite !filter_cons. destruct (decide (touches routes i w)) as [Ht|Ht].
  - cbn [fmap list_fmap]. rewrite filter_cons. cbn [shard_edge fst]. destruct (decide (w_src w = src)) as [Hs|Hs].
    + cbn [fmap list_fmap]. rewrite filter_cons.
      destruct (decide (w_dst w = dst /\ w_out w = is_out /\ w_ty w = ty)) as [Hv|Hv].
      * rewrite !decide_True by (unfold version_of; cbn; tauto). cbn. by rewrite IH.
      * rewrite !decide_False by (unfold version_of; cbn; tauto). done.
    + rewrite decide_False by tauto. done.
  - rewrite decide_False by tauto. done.
Qed.

(** ** States of the facade *)
Section Facade.
Context {Db : Type} `{StoreLaws Db} (order : list nat -> list nat) (update_size : Z).
Context (Horder : forall l, order l ≡ₚ l).
Implicit Types (g : GraphDb Db).

Record follows g (ws : list FacadeWrite) (n : Z) : Prop := {
  fo_wf : facade_wf g;
  fo_shards : forall i h, edge_shards_ g !! i = Some h ->
    represents (h_db h) (property_lengths h) n (shard_history (edge_property_to_route_ g) i (h_properties h) ws);
  fo_node : exists nh, represents (h_db (node_shard_ g)) (property_lengths (node_shard_ g)) n nh;
  fo_sequence : 0 <= next_sequence_ g /\ Forall (fun w => w_seq w < next_sequence_ g) ws;
}.

(** The same database with other stores behind it. *)
Definition same_layout (h h' : ShardHandle Db) : Prop := h_properties h' = h_properties h /\ property_lengths h' = property_lengths h.

Lemma facade_wf_same g g' :
  (forall i, match edge_shards_ g !! i, edge_shards_ g' !! i with Some h, Some h' => same_layout h h' | None, None => True | _, _ => False end) ->
  same_layout (node_shard_ g) (node_shard_ g') ->
  edge_property_to_route_ g' = edge_property_to_route_ g -> node_property_to_route_ g' = node_property_to_route_ g ->
  (forall m, property_update_manager_ g' = Some m -> manager_ok m) -> facade_wf g -> facade_wf g'.
Proof.
  intros Hs [Hn1 Hn2] Er En Hm Hwf.
  assert (Forall2 same_layout (edge_shards_ g) (edge_shards_ g')) as Hf.
  { apply Forall2_same_length_lookup_2.
    - apply Nat.le_antisymm; apply Nat.nlt_ge; intros Hlt%lookup_lt_is_Some_2; destruct Hlt as [h Hh].
      + specialize (Hs (length (edge_shards_ g'))). rewrite Hh, lookup_ge_None_2 in Hs by lia. done.
      + specialize (Hs (length (edge_shards_ g))). rewrite Hh, lookup_ge_None_2 in Hs by lia. done.
    - intros i h h' Hh Hh'. specialize (Hs i). by rewrite Hh, Hh' in Hs. }
  assert (forall name r, column_at (edge_shards_ g') name r <-> column_at (edge_shards_ g) name r) as Hc.
  { intros name r. unfold column_at. f_equiv. split; intros (h & Hh & Hp).
    - eapply Forall2_lookup_r in Hh as (h0 & Hh0 & Hsame); [|exact Hf]. destruct Hsame as [E _]. exists h0. by rewrite <- E.
    - eapply Forall2_lookup_l in Hh as (h0 & Hh0 & Hsame); [|exact Hf]. destruct Hsame as [E _]. exists h0. by rewrite E. }
  assert (forall P : list bytes -> list Z -> Prop, Forall (fun h => P (h_properties h) (property_lengths h)) (node_shard_ g :: edge_shards_ g) ->
    Forall (fun h => P (h_properties h) (property_lengths h)) (node_shard_ g' :: edge_shards_ g')) as Ht.
  { intros P [HP1 HP2]%Forall_cons. constructor; [by rewrite Hn1, Hn2|]. apply Forall_forall. intros h' (i & Hh')%list_elem_of_lookup.
    eapply Forall2_lookup_r in Hh' as (h & Hh & Hsame); [|exact Hf]. destruct Hsame as [E1 E2]. rewrite E1, E2. by eapply Forall_lookup_1 in Hh; [|exact HP2]. }
  destruct Hwf as [W1 W2 W3 W4 W5 W6]. split.
  - intros name r. by rewrite Er, W1, Hc.
  - intros name. by rewrite En, Hn1.
  - intros name r Hr. rewrite En in Hr. destruct (W3 name r Hr) as (? & Hi & Hp & h & Hh & Hl). split_and!; try done.
    split; [done|]. rewrite Hi in *. cbn in Hh. injection Hh as <-. exists (node_shard_ g'). by rewrite Hn1.
  - by apply (Ht (fun ps ls => length ls = length ps /\ Forall (fun l => 1 <= l) ls)).
  - destruct W5 as [W5 W5']. split; [unfold zlen in *; by rewrite <- (Forall2_length _ _ _ Hf)|]. by apply (Ht (fun ps _ => zlen ps < 2 ^ 31)).
  - done.
Qed.

Lemma write_shards_spec f shards g g' :
  write_shards f shards g = Some g' -> NoDup shards ->
  node_shard_ g' = node_shard_ g /\ edge_property_to_route_ g' = edge_property_to_route_ g /\
  node_property_to_route_ g' = node_property_to_route_ g /\ next_sequence_ g' = next_sequence_ g /\
  property_update_manager_ g' = property_update_manager_ g /\
  forall i, (i ∉ shards -> edge_shards_ g' !! i = edge_shards_ g !! i) /\
    (i ∈ shards -> exists h db, edge_shards_ g !! i = Some h /\ f h = Some db /\ edge_shards_ g' !! i = Some (set_handle_db db h)).
Proof.
  revert g. induction shards as [|j shards IH]; intros g; cbn [write_shards].
  { intros [= <-] _. split_and!; try done. intros i. split; [done|by intros ?%elem_of_nil]. }
  unfold with_edge_db. destruct (edge_shards_ g !! j) as [h|] eqn:Eh; [|done]. simpl_bind. destruct (f h) as [db|] eqn:Ef; [|done]. simpl_bind.
  intros E [Hj Hnd]%NoDup_cons. destruct (IH _ E Hnd) as (-> & -> & -> & -> & -> & Hi). split_and!; try done.
  intros i. destruct (Hi i) as [H1 H2]. cbn [set_shards edge_shards_] in *. rewrite not_elem_of_cons, elem_of_cons. split.
  - intros [Hne Hin]. rewrite H1 by done. by rewrite list_lookup_insert_ne.
  - intros [->|Hin].
    + exists h, db. rewrite H1 by done. by rewrite list_lookup_insert_eq by (by eapply lookup_lt_Some).
    + assert (i <> j) by congruence. destruct (H2 Hin) as (h' & db' & Hh' & ? & ?). rewrite list_lookup_insert_ne in Hh' by done. by exists h', db'.
Qed.

Lemma touched_iff g properties shards i :
  touched_shards g properties = Some shards ->
  NoDup shards /\ (i ∈ shards <-> Exists (fun kv => shard_idx <$> edge_property_to_route_ g !! kv.1 = Some i) properties).
Proof.
  intros Et. pose proof Et as Et'. unfold touched_shards in Et'. destruct (mapM _ properties) as [routes|] eqn:Em; [|done].
  simpl_bind in Et'. injection Et' as <-. split; [apply NoDup_remove_dups|]. rewrite elem_of_remove_dups, list_elem_of_fmap, Exists_exists.
  apply mapM_Some in Em. split.
  - intros (r & -> & (j & Hj)%list_elem_of_lookup). eapply Forall2_lookup_r in Hj as (kv & Hkv & Er); [|exact Em].
    exists kv. split; [by eapply list_elem_of_lookup_2|]. by rewrite Er.
  - intros (kv & (j & Hj)%list_elem_of_lookup & E). eapply Forall2_lookup_l in Hj as (r & Hr & Er); [|exact Em]. rewrite Er in E.
    injection E as <-. exists r. split; [done|by eapply list_elem_of_lookup_2].
Qed.

Lemma shard_history_app routes i names ws ws' :
  shard_history routes i names (ws ++ ws') = shard_history routes i names ws ++ shard_history routes i names ws'.
Proof. unfold shard_history. by rewrite filter_app, fmap_app. Qed.

Lemma history_below routes i names ws seq :
  Forall (fun w => w_seq w < seq) ws -> Forall (fun x => sequence x.2 < seq) (shard_history routes i names ws).
Proof.
  intros Hf. unfold shard_history. apply Forall_fmap, Forall_forall. intros w [_ Hw]%list_elem_of_filter.
  rewrite Forall_forall in Hf. by apply Hf.
Qed.

(** Writing the touched shards at the next sequence adds [new] to the history. *)
Lemma write_follows f properties shards new g g' ws n :
  follows g ws n -> touched_shards g properties = Some shards ->
  Forall (fun w => w_properties w = properties /\ w_seq w = next_sequence_ g) new ->
  (forall i h db, edge_shards_ g !! i = Some h -> f h = Some db ->
    represents db (property_lengths h) n (shard_history (edge_property_to_route_ g) i (h_properties h) ws ++ (shard_edge (h_properties h) <$> new))) ->
  write_shards f (order shards) (set_next_sequence (next_sequence_ g + 1) g) = Some g' ->
  follows g' (ws ++ new) n.
Proof.
  intros [Hwf Hsh Hnode [H0 Hseq]] Et Hnew Hf Hw.
  assert (forall i, NoDup (order shards) /\ (i ∈ order shards <-> Exists (fun kv => shard_idx <$> edge_property_to_route_ g !! kv.1 = Some i) properties)) as Ht.
  { intros i. rewrite Horder. by apply touched_iff. }
  destruct (write_shards_spec f (order shards) _ g' Hw (proj1 (Ht 0%nat))) as (En & Er & Enr & Esq & Em & Hi).
  cbn [set_next_sequence node_shard_ edge_property_to_route_ node_property_to_route_ next_sequence_ property_update_manager_ edge_shards_] in *.
  assert (forall i, filter (touches (edge_property_to_route_ g) i) new = if decide (i ∈ order shards) then new else []) as Hfil.
  { intros i. destruct (Ht i) as [_ Hiff]. clear -Hnew Hiff. induction Hnew as [|w new [Hp _] _ IH]; [by case_decide|].
    rewrite filter_cons, IH.
    assert (touches (edge_property_to_route_ g) i w <-> i ∈ order shards) as Hw by (unfold touches; by rewrite Hp, Hiff).
    rewrite (decide_ext _ (i ∈ order shards) _ _ Hw). by case_decide. }
  split.
  - apply (facade_wf_same g); try done.
    + intros i. destruct (Hi i) as [H1 H2]. destruct (decide (i ∈ order shards)) as [Hin|Hout].
      * destruct (H2 Hin) as (h & db & -> & _ & ->). done.
      * rewrite H1 by done. by destruct (edge_shards_ g !! i).
    + by rewrite En.
    + rewrite Em. apply (wf_manager _ Hwf).
  - intros i h' Hh'. rewrite Er, shard_history_app. unfold shard_history at 2. rewrite Hfil. destruct (Hi i) as [H1 H2].
    destruct (decide (i ∈ order shards)) as [Hin|Hout].
    + destruct (H2 Hin) as (h & db & Hh & Edb & E). rewrite E in Hh'. injection Hh' as <-. exact (Hf i h db Hh Edb).
    + rewrite H1 in Hh' by done. cbn. rewrite app_nil_r. by apply Hsh.
  - by rewrite En.
  - rewrite Esq. split; [lia|]. apply Forall_app. split; [eapply Forall_impl; [exact Hseq|]; cbn; lia|].
    eapply Forall_impl; [exact Hnew|]. cbn. intros w [_ ->]. lia.
Qed.

(** What the arguments of a write must be. *)
Definition edge_args_ok g (n src dst ty : Z) : Prop :=
  next_sequence_ g < kMaxSequence /\ 0 <= src < n /\ fits 48 dst /\ fits 8 ty.

Lemma args_writable g ws n src dst payload is_out ty i names :
  follows g ws n -> edge_args_ok g n src dst ty ->
  writable n (shard_history (edge_property_to_route_ g) i names ws) src (written dst (next_sequence_ g) payload is_out ty).
Proof.
  intros [_ _ _ [H0 Hseq]] (Hlt & Hsrc & Hdst & Hty). split_and!; cbn [written sequence]; try lia.
  - split_and!; cbn; try done. unfold fits. change kMaxSequence with 281474976710655 in Hlt. change (2 ^ 48) with 281474976710656. lia.
  - eapply Forall_impl; [by apply history_below|]. by intros x Hx _.
Qed.

Lemma put_follows g ws n src dst properties is_out ty g' :
  follows g ws n -> edge_args_ok g n src dst ty ->
  PutEdge order g src dst properties kSingle is_out ty = Some (kOk, g') ->
  follows g' (ws ++ [mkWrite_ src dst properties is_out ty (next_sequence_ g)]) n.
Proof.
  intros Hfo Hargs. unfold PutEdge. case_bool_decide; [done|]. destruct (touched_shards g properties) as [shards|] eqn:Et; [|done].
  destruct shards as [|s0 shards']; [done|]. cbn [NextSequence]. set (shards := s0 :: shards') in *.
  match goal with |- context [write_shards ?f _ _] => set (fw := f) end.
  destruct (write_shards fw (order shards) _) as [g1|] eqn:Ew; [|done]. simpl_bind. intros [= <-].
  apply (write_follows fw properties shards _ g g1 ws n Hfo Et); [by apply Forall_singleton| |done].
  intros i h db Hh Hput. eapply law_put; [by apply (fo_shards _ _ _ Hfo)|by apply args_writable|exact Hput].
Qed.

Lemma put_both_follows g ws n src dst properties is_out ty g' :
  follows g ws n -> edge_args_ok g n src dst ty -> edge_args_ok g n dst src ty -> src <> dst ->
  PutEdge order g src dst properties kBidirectional is_out ty = Some (kOk, g') ->
  follows g' (ws ++ [mkWrite_ src dst properties is_out ty (next_sequence_ g); mkWrite_ dst src properties (negb is_out) ty (next_sequence_ g)]) n.
Proof.
  intros Hfo Hargs Hargs' Hne. unfold PutEdge. case_bool_decide; [done|]. destruct (touched_shards g properties) as [shards|] eqn:Et; [|done].
  destruct shards as [|s0 shards']; [done|]. cbn [NextSequence]. set (shards := s0 :: shards') in *.
  match goal with |- context [write_shards ?f _ _] => set (fw := f) end.
  destruct (write_shards fw (order shards) _) as [g1|] eqn:Ew; [|done]. simpl_bind. intros [= <-].
  apply (write_follows fw properties shards _ g g1 ws n Hfo Et); [by repeat constructor| |done].
  intros i h db Hh Hput. eapply law_put_both; [by apply (fo_shards _ _ _ Hfo)|done|by apply args_writable|by apply args_writable|exact Hput].
Qed.

(** Without a manager an update is a write of the whole row. *)
Lemma update_follows g ws n src dst properties is_out ty c g' :
  follows g ws n -> edge_args_ok g n src dst ty -> property_update_manager_ g = None ->
  UpdateEdge order update_size g src dst properties is_out ty = Some (kOk, c, g') ->
  follows g' (ws ++ [mkWrite_ src dst properties is_out ty (next_sequence_ g)]) n.
Proof.
  intros Hfo Hargs Em. unfold UpdateEdge. case_bool_decide; [done|]. destruct (touched_shards g properties) as [shards|] eqn:Et; [|done].
  destruct shards as [|s0 shards']; [done|]. rewrite Em. cbn [NextSequence]. set (shards := s0 :: shards') in *.
  match goal with |- context [write_shards ?f _ _] => set (fw := f) end.
  destruct (write_shards fw (order shards) _) as [g1|] eqn:Ew; [|done]. simpl_bind. intros [= _ <-].
  apply (write_follows fw properties shards _ g g1 ws n Hfo Et); [by apply Forall_singleton| |done].
  intros i h db Hh Hput. unfold fw in Hput. rewrite law_update in Hput.
  eapply law_put; [by apply (fo_shards _ _ _ Hfo)|by apply args_writable|exact Hput].
Qed.

(** With a manager an update changes the manager alone. *)
Lemma submit_follows g ws n m src dst properties is_out ty c g' :
  follows g ws n -> property_update_manager_ g = Some m -> NoDup properties.*1 ->
  UpdateEdge order update_size g src dst properties is_out ty = Some (kOk, c, g') -> follows g' ws n.
Proof.
  intros [Hwf Hsh Hnode Hseq] Em Hnd Hup.
  destruct (update_edge_pending order update_size Horder g src dst properties is_out ty c g' m Hwf Em Hnd Hup) as (m' & -> & Hm' & _).
  split; [|exact Hsh|exact Hnode|exact Hseq]. apply (facade_wf_same g); try done.
  - intros i. cbn. by destruct (edge_shards_ g !! i).
  - by intros m1 [= <-].
Qed.

(** Replacing every store by one of the same columns. *)
Lemma map_follows g ws n n' (f : Db -> Db) :
  follows g ws n -> (forall db lens h, represents db lens n h -> represents (f db) lens n' h) ->
  follows (set_shards ((fun h => set_handle_db (f (h_db h)) h) <$> edge_shards_ g) (set_handle_db (f (h_db (node_shard_ g))) (node_shard_ g)) g) ws n'.
Proof.
  intros [Hwf Hsh (nh & Hnode) Hseq] Hf. split.
  - apply (facade_wf_same g); try done; [|apply (wf_manager _ Hwf)]. intros i. cbn. rewrite list_lookup_fmap. by destruct (edge_shards_ g !! i).
  - intros i h'. cbn. rewrite list_lookup_fmap. destruct (edge_shards_ g !! i) as [h|] eqn:Hh; [|done]. intros [= <-]. exact (Hf _ _ _ (Hsh i h Hh)).
  - exists nh. by apply Hf.
  - done.
Qed.

Lemma new_vertex_follows g ws n :
  follows g ws n -> n < max_vertices -> n <> kInvalidVertexId -> follows (NewVertex g).1 ws (n + 1) /\ (NewVertex g).2 = n.
Proof.
  intros Hfo Hn Hinv. pose proof (map_follows g ws n (n + 1) (fun db => (db_new_vertex db).1) Hfo) as Hm.
  pose proof (fun db lens h => law_vertex db lens n h) as Hlaw.
  unfold NewVertex. destruct (db_new_vertex (h_db (node_shard_ g))) as [node id] eqn:En. cbn [fst snd]. split.
  - rewrite <- list_fmap_compose. cbn beta in Hm. rewrite En in Hm. cbn [fst] in Hm. apply Hm. intros db lens h Hr. by apply Hlaw.
  - destruct Hfo as [_ Hsh (nh & Hnode) _].
    assert (id = n) as -> by (destruct (Hlaw _ _ _ Hnode Hn) as [E _]; by rewrite En in E).
    assert (forall ids : list Z, Forall (fun x => x = n) ids -> expected_id (ids ++ [n]) = n) as Hids.
    { intros ids Hids. unfold expected_id. rewrite foldl_snoc.
      assert (forall e, e = kInvalidVertexId \/ e = n -> foldl (fun expected id => if expected =? kInvalidVertexId then id else expected) e ids = kInvalidVertexId \/
        foldl (fun expected id => if expected =? kInvalidVertexId then id else expected) e ids = n) as Hfold.
      { induction Hids as [|x ids -> _ IH]; intros e He; [done|]. cbn [foldl]. apply IH. destruct (Z.eqb_spec e kInvalidVertexId); [by right|by destruct He; [done|right]]. }
      destruct (Hfold kInvalidVertexId (or_introl eq_refl)) as [->|E]; [by rewrite Z.eqb_refl|]. rewrite E. by rewrite (proj2 (Z.eqb_neq _ _)). }
    apply Hids. rewrite <- list_fmap_compose. apply Forall_fmap, Forall_forall. intros h (i & Hh)%list_elem_of_lookup. cbn.
    by destruct (Hlaw _ _ _ (Hsh i h Hh) Hn).
Qed.

Lemma init_vertices_follows g ws n next :
  follows g ws n -> next <= max_vertices -> next <> kInvalidVertexId -> follows (InitVerticesUpTo next g) ws (Z.max next n).
Proof.
  intros Hfo Hn Hinv. unfold InitVerticesUpTo. rewrite (proj2 (Z.eqb_neq _ _)) by done.
  apply (map_follows g ws n (Z.max next n) (db_InitVerticesUpTo next) Hfo). intros db lens h Hr. by apply law_vertices.
Qed.

Lemma background_follows g ws n i h db :
  follows g ws n -> edge_shards_ g !! i = Some h -> background (h_db h) db ->
  follows (set_shards (<[i := set_handle_db db h]> (edge_shards_ g)) (node_shard_ g) g) ws n.
Proof.
  intros [Hwf Hsh Hnode Hseq] Hh Hb. pose proof (lookup_lt_Some _ _ _ Hh) as Hlt. split; try done.
  - apply (facade_wf_same g); try done; [|apply (wf_manager _ Hwf)]. intros j. cbn. destruct (decide (j = i)) as [->|Hne].
    + by rewrite Hh, list_lookup_insert_eq.
    + rewrite list_lookup_insert_ne by done. by destruct (edge_shards_ g !! j).
  - intros j h'. cbn. destruct (decide (j = i)) as [->|Hne].
    + rewrite list_lookup_insert_eq by done. intros [= <-]. cbn. eapply law_background; [by apply Hsh|done].
    + rewrite list_lookup_insert_ne by done. apply Hsh.
Qed.

(** ** Runs *)
Inductive facade_step : GraphDb Db * list FacadeWrite * Z -> GraphDb Db * list FacadeWrite * Z -> Prop :=
| fs_put g ws n src dst properties is_out ty g' :
    edge_args_ok g n src dst ty -> PutEdge order g src dst properties kSingle is_out ty = Some (kOk, g') ->
    facade_step (g, ws, n) (g', ws ++ [mkWrite_ src dst properties is_out ty (next_sequence_ g)], n)
| fs_put_both g ws n src dst properties is_out ty g' :
    edge_args_ok g n src dst ty -> edge_args_ok g n dst src ty -> src <> dst ->
    PutEdge order g src dst properties kBidirectional is_out ty = Some (kOk, g') ->
    facade_step (g, ws, n)
      (g', ws ++ [mkWrite_ src dst properties is_out ty (next_sequence_ g); mkWrite_ dst src properties (negb is_out) ty (next_sequence_ g)], n)
| fs_update g ws n src dst properties is_out ty c g' :
    edge_args_ok g n src dst ty -> property_update_manager_ g = None ->
    UpdateEdge order update_size g src dst properties is_out ty = Some (kOk, c, g') ->
    facade_step (g, ws, n) (g', ws ++ [mkWrite_ src dst properties is_out ty (next_sequence_ g)], n)
| fs_submit g ws n m src dst properties is_out ty c g' :
    property_update_manager_ g = Some m -> NoDup properties.*1 ->
    UpdateEdge order update_size g src dst properties is_out ty = Some (kOk, c, g') -> facade_step (g, ws, n) (g', ws, n)
| fs_vertex g ws n : n < max_vertices -> n <> kInvalidVertexId -> facade_step (g, ws, n) ((NewVertex g).1, ws, n + 1)
| fs_vertices g ws n next :
    next <= max_vertices -> next <> kInvalidVertexId -> facade_step (g, ws, n) (InitVerticesUpTo next g, ws, Z.max next n)
| fs_background g ws n i h db :
    edge_shards_ g !! i = Some h -> background (h_db h) db ->
    facade_step (g, ws, n) (set_shards (<[i := set_handle_db db h]> (edge_shards_ g)) (node_shard_ g) g, ws, n).

Lemma run_follows x y : rtc facade_step x y -> follows x.1.1 x.1.2 x.2 -> follows y.1.1 y.1.2 y.2.
Proof.
  induction 1 as [|x y z Hstep _ IH]; [done|]. intros Hfo. apply IH. destruct Hstep; cbn [fst snd] in *.
  - by apply put_follows.
  - by apply put_both_follows.
  - by eapply update_follows.
  - by eapply submit_follows.
  - by apply new_vertex_follows.
  - by apply init_vertices_follows.
  - by apply background_follows.
Qed.

(** A database whose stores start empty. *)
Lemma init_follows create_directories base_dir schema options g :
  Validate options = None -> zlen (edge_shards schema) < 2 ^ 32 ->
  Forall (fun s => zlen (shard_properties s) < 2 ^ 31) (node_db schema :: edge_shards schema) ->
  (forall s kind id dir, s ∈ node_db schema :: edge_shards schema ->
    config_fits (store_config schema options kind id dir (resolve_property_length schema <$> shard_properties s) s)) ->
  Init create_directories base_dir schema options = Some (Ok g) -> follows g [] 0.
Proof.
  intros Hv Hs1 Hs2 Hcfg Hi. pose proof (init_opened create_directories base_dir schema options Hv Hs1 Hs2) as Hr.
  rewrite Hi in Hr. destruct Hr as (_ & Hwf & Ho & Hn).
  assert (forall s h, opened schema options s h -> s ∈ node_db schema :: edge_shards schema -> represents (h_db h) (property_lengths h) 0 []) as Hop.
  { intros s h (_ & El & kind & id & dir & Edb) Hin. rewrite El in Edb |- *. apply (law_open (store_config schema options kind id dir _ s) (h_db h)); [by apply Hcfg|exact Edb]. }
  split; [done| | |].
  - intros i h Hh. eapply Forall2_lookup_r in Hh as (s & Hs & Hsh); [|exact Ho]. unfold shard_history. cbn.
    apply (Hop s h Hsh). right. by eapply list_elem_of_lookup_2.
  - exists []. apply (Hop _ _ Hn). left.
  - split; [|constructor]. unfold Init in Hi. destruct (negb (create_directories base_dir)); [done|].
    destruct (open_edge_shards _ _ _ _ _ _ _) as [[edges eroutes]|[]]; cbn [mbind result_bind] in Hi; [|done..].
    destruct (open_node_shard _ _ _ _) as [[node nroutes]|[]]; cbn [mbind result_bind] in Hi; [|done..].
    assert (forall l a, 0 <= a -> 0 <= foldl Z.max a l) as Hmax by (induction l as [|x l IH]; intros a Ha; cbn; [done|apply IH; lia]).
    destruct (enabled _); [destruct (new_manager _ _ _) as [m|]; [|done]|]; injection Hi as <-; cbn; by apply Hmax.
Qed.
End Facade.

(** No update of a column of an edge waits in the manager. *)
Definition no_pending {Db} (g : GraphDb Db) (key : PendingKey) : Prop :=
  match property_update_manager_ g with Some m => pending_ m !! key = None | None => True end.

Lemma read_unbuffered {Db} (g : GraphDb Db) key location get :
  no_pending g key -> read_property (property_update_manager_ g) key location get = ('(rs, value) ← get; Some (rs, default [] value)).
Proof.
  unfold no_pending, read_property, LookupLatest. destruct (property_update_manager_ g) as [m|]; simpl_bind; [intros ->|intros _]; by simpl_bind.
Qed.

(** One column, read through the facade. *)
Lemma read_shard_column {Db} `{StoreLaws Db} (g : GraphDb Db) ws n src dst is_out ty name route h len :
  follows g ws n -> no_pending g (edge_key route src dst is_out ty) ->
  edge_property_to_route_ g !! name = Some route -> edge_shards_ g !! shard_idx route = Some h ->
  property_lengths h !! Z.to_nat (local_property_id route) = Some len -> len < 1024 -> settled (h_db h) -> 0 <= src < n ->
  Forall (fun w => touches (edge_property_to_route_ g) (shard_idx route) w ->
    Forall (fun kv => no_bar kv.2) (w_properties w) /\ storable len (value_of (w_properties w) name)) ws ->
  read_edge_property g src dst is_out ty (name, route) =
  Some (match last_facade_write (edge_property_to_route_ g) (shard_idx route) src dst is_out ty ws with
        | None => (kNotFound, [])
        | Some w => if marker (shard_edge (h_properties h) w).2 then (kDelete, []) else (kOk, value_of (w_properties w) name)
        end).
Proof.
  intros [Hwf Hsh _ _] Em Er Hh Hlen Hlt Hset Hsrc Hvals. set (p := Z.to_nat (local_property_id route)) in *.
  pose proof (proj1 (wf_edge _ Hwf _ _) Er) as [_ (Hp0 & h' & Hh' & Hcol)]. rewrite Hh in Hh'. injection Hh' as <-. fold p in Hcol.
  assert (forall w, w ∈ ws -> touches (edge_property_to_route_ g) (shard_idx route) w ->
    field p (shard_edge (h_properties h) w).2 = value_of (w_properties w) name /\ storable len (value_of (w_properties w) name)) as Hfield.
  { intros w Hw Ht. rewrite Forall_forall in Hvals. destruct (Hvals w Hw Ht) as [Hb Hst]. split; [|done]. unfold field. cbn [shard_edge snd written property].
    rewrite split_built by (first [by intros E; rewrite E in Hcol|intros n'; by apply no_bar_values]). by rewrite list_lookup_fmap, Hcol. }
  assert (0 < len) as Hpos.
  { pose proof (wf_lengths _ Hwf) as [_ Hl]%Forall_cons. eapply Forall_lookup_1 in Hh; [|exact Hl]. destruct Hh as [_ Hh].
    eapply Forall_lookup_1 in Hlen; [|exact Hh]. cbn in Hlen. lia. }
  unfold read_edge_property. cbn [fst snd]. rewrite Hh. simpl_bind. unfold edge_key in Em. rewrite (read_unbuffered g _ _ _ Em).
  replace (local_property_id route) with (Z.of_nat p) by (unfold p; lia).
  rewrite (law_get (h_db h) (property_lengths h) n (shard_history (edge_property_to_route_ g) (shard_idx route) (h_properties h) ws) p len); try done.
  - simpl_bind. rewrite last_edge_history. destruct (last_facade_write _ _ _ _ _ _ ws) as [w|] eqn:El; cbn [fmap option_fmap option_map status_of]; [|done].
    apply last_Some_elem_of, list_elem_of_filter in El as [[Ht _] Hw]. destruct (Hfield w Hw Ht) as [Hf _]. cbn [shard_edge snd] in Hf |- *.
    destruct (marker _); [done|]. cbn. by rewrite Hf.
  - by apply Hsh.
  - unfold shard_history. apply Forall_fmap, Forall_forall. intros w [Ht Hw]%list_elem_of_filter. cbn. destruct (Hfield w Hw Ht) as [Hf Hst].
    cbn [shard_edge snd] in Hf. by rewrite Hf.
Qed.

