(* ===== verification/CompactionPick.v ===== *)
(** * Compaction: the choice of input files

    src/compaction.cpp: [GetRange], [GetRange2], [GetOverlappingInputs],
    [SetupOtherInputs] and [PickCompactioFile].  A level is the list of its
    files; [None] is a failed assertion or an access outside a vector. *)

From S2P Require Import Prelude.
From S2P Require Import Types.
From S2P Require Import Sst.
From S2P Require Import LevelIndex.
From S2P Require Import LsmRead.

Definition MAX_GLOBAL_SEQ : Z := 9223372036854775807.

Abbreviation file_min f := (minKey (cache_header f)).
Abbreviation file_max f := (maxKey (cache_header f)).

(** ** Ranges *)
Fixpoint range_loop (smallest largest : Z) (inputs : list SSTableCache) : Z * Z :=
  match inputs with
  | [] => (smallest, largest)
  | f :: inputs =>
      range_loop (if file_min f <? smallest then file_min f else smallest)
                 (if largest <? file_max f then file_max f else largest) inputs
  end.

Definition GetRange (inputs : list SSTableCache) : option (Z * Z) :=
  match inputs with [] => None | f :: inputs => Some (range_loop (file_min f) (file_max f) inputs) end.

Definition GetRange2 (inputs1 inputs2 : list SSTableCache) : option (Z * Z) := GetRange (inputs1 ++ inputs2).

(** ** [GetOverlappingInputs] *)

(** The loop up to its end ([inl]) or to a restart with a larger range. *)
Fixpoint overlap_pass (level0 : bool) (user_begin user_end : Z) (files inputs : list SSTableCache)
  : list SSTableCache + Z * Z :=
  match files with
  | [] => inl inputs
  | f :: files =>
      if file_max f <? user_begin then overlap_pass level0 user_begin user_end files inputs
      else if user_end <? file_min f then overlap_pass level0 user_begin user_end files inputs
      else if level0 && (file_min f <? user_begin) then inr (file_min f, user_end)
      else if level0 && (user_end <? file_max f) then inr (user_begin, file_max f)
      else overlap_pass level0 user_begin user_end files (inputs ++ [f])
  end.

Fixpoint overlap_loop (fuel : nat) (level0 : bool) (user_begin user_end : Z) (files : list SSTableCache)
  : option (list SSTableCache) :=
  match overlap_pass level0 user_begin user_end files [] with
  | inl inputs => Some inputs
  | inr (user_begin, user_end) =>
      match fuel with O => None | S fuel => overlap_loop fuel level0 user_begin user_end files end
  end.

(** Every restart leaves fewer files sticking out of the range on one side. *)
Definition overlap_fuel (files : list SSTableCache) : nat := (2 * length files)%nat.

Section Picker.
Context (fileMetaCache_ : list (list SSTableCache)).

Definition GetOverlappingInputs (level : Z) (begin_ end_ : Z) : option (list SSTableCache) :=
  if (level <? 0) || (MAX_LEVEL <=? level) then None
  else
    files ← fileMetaCache_ !! Z.to_nat level;
    overlap_loop (overlap_fuel files) (level =? 0) begin_ end_ files.

Record Pick := mkPick {
  inputs_0 : list SSTableCache;
  inputs_1 : list SSTableCache;
  compact_pointer : Z;                 (** [compact_pointer_[level]] afterwards *)
  last_merge_max_key : option Z;       (** the new [last_merge_max_key_], if set *)
  is_reverse : bool;
}.

(** The first file above the compaction pointer. *)
Fixpoint first_after (pointer : Z) (files : list SSTableCache) : list SSTableCache :=
  match files with
  | [] => []
  | f :: files => if (pointer =? MAX_GLOBAL_SEQ) || (pointer <? file_min f) then [f] else first_after pointer files
  end.

(** Growing the inputs of [level] without changing the number of files of the
    next level. *)
Definition grow_inputs (level : Z) (in0 in1 : list SSTableCache) (range : Z * Z) (all_limit : Z) (all_start : Z)
  : option (list SSTableCache * list SSTableCache * (Z * Z) * Z) :=
  expanded0 ← GetOverlappingInputs level all_start all_limit;
  if (length in0 <? length expanded0)%nat then
    new_range ← GetRange expanded0;
    expanded1 ← GetOverlappingInputs (level + 1) (fst new_range) (snd new_range);
    if (length expanded1 =? length in1)%nat then
      all ← GetRange2 expanded0 expanded1;
      Some (expanded0, expanded1, new_range, snd all)
    else Some (in0, in1, range, all_limit)
  else Some (in0, in1, range, all_limit).

Definition SetupOtherInputs (level : Z) (is_grow : bool) (in0 : list SSTableCache) (reverse : bool) : option Pick :=
  range ← GetRange in0;
  in1 ← GetOverlappingInputs (level + 1) (fst range) (snd range);
  all ← GetRange2 in0 in1;
  '(in0, in1, range, all_limit) ←
     (if is_grow && negb (bool_decide (length in1 = 0%nat)) then grow_inputs level in0 in1 range (snd all) (fst all)
      else Some (in0, in1, range, snd all));
  Some (mkPick in0 in1 (snd range) (Some (Z.max (snd range) all_limit)) reverse).

Definition PickCompactioFile (level : Z) (is_grow : bool) (pointer : Z) : option Pick :=
  files ← fileMetaCache_ !! Z.to_nat level;
  '(in0, reverse) ← match first_after pointer files with
                    | [] => f ← files !! 0%nat; Some ([f], true)
                    | fs => Some (fs, false)
                    end;
  in0 ← (if level =? 0 then
           range ← GetRange in0; in0 ← GetOverlappingInputs 0 (fst range) (snd range);
           if bool_decide (length in0 = 0%nat) then None else Some in0
         else Some in0);
  if level + 1 <? zlen fileMetaCache_ then SetupOtherInputs level is_grow in0 reverse
  else range ← GetRange in0; Some (mkPick in0 [] (snd range) None reverse).
End Picker.

(** ** What is chosen *)
Definition overlaps (b e : Z) (f : SSTableCache) : Prop := b <= file_max f /\ file_min f <= e.
#[export] Instance overlaps_dec b e f : Decision (overlaps b e f).
Proof. unfold overlaps. apply _. Defined.

Lemma range_loop_spec inputs s l :
  let '(s', l') := range_loop s l inputs in
  s' <= s /\ l <= l' /\ (forall f, f ∈ inputs -> s' <= file_min f /\ file_max f <= l') /\
  (s' = s \/ exists f, f ∈ inputs /\ s' = file_min f) /\ (l' = l \/ exists f, f ∈ inputs /\ l' = file_max f).
Proof.
  revert s l. induction inputs as [|f inputs IH]; intros s l; cbn [range_loop].
  - split_and!; [done|done|by intros f Hf%elem_of_nil|by left|by left].
  - specialize (IH (if file_min f <? s then file_min f else s) (if l <? file_max f then file_max f else l)).
    destruct (range_loop _ _ inputs) as [s' l']. destruct IH as (H1 & H2 & H3 & H4 & H5).
    destruct (Z.ltb_spec (file_min f) s), (Z.ltb_spec l (file_max f)); (split_and!; [lia|lia| | |]).
    all: try (intros g [->|Hg]%elem_of_cons; [lia|by apply H3]).
    all: try (destruct H4 as [->|(g & Hg & ->)]; [|right; exists g; split; [by right|done]];
              first [by left|right; exists f; split; [left|done]]).
    all: destruct H5 as [->|(g & Hg & ->)]; [|right; exists g; split; [by right|done]];
         first [by left|right; exists f; split; [left|done]].
Qed.

(** The hull of the inputs. *)
Lemma GetRange_spec inputs s l :
  GetRange inputs = Some (s, l) ->
  (forall f, f ∈ inputs -> s <= file_min f /\ file_max f <= l) /\
  (exists f, f ∈ inputs /\ s = file_min f) /\ (exists f, f ∈ inputs /\ l = file_max f).
Proof.
  destruct inputs as [|f inputs]; cbn [GetRange]; [done|]. intros E.
  pose proof (range_loop_spec inputs (file_min f) (file_max f)) as Hr. destruct (range_loop _ _ _) as [s' l'].
  injection E as <- <-. destruct Hr as (H1 & H2 & H3 & H4 & H5). split_and!.
  - intros g [->|Hg]%elem_of_cons; [lia|by apply H3].
  - destruct H4 as [->|(g & Hg & ->)]; [exists f; split; [left|done]|exists g; split; [by right|done]].
  - destruct H5 as [->|(g & Hg & ->)]; [exists f; split; [left|done]|exists g; split; [by right|done]].
Qed.

(** ** Compaction: what the picked input files are

    [GetOverlappingInputs] returns within its fuel: on level 0 the files that
    overlap the least range that contains the one asked for and cuts through
    no file, on the other levels the files that overlap the range itself.
    [PickCompactioFile] then returns a set of files that can be merged and
    moved down: nothing it leaves behind on either level overlaps it. *)

(** ** One pass over the files *)
Lemma overlap_pass_done l0 b e files acc r :
  overlap_pass l0 b e files acc = inl r ->
  r = acc ++ filter (overlaps b e) files /\
  (l0 = true -> forall f, f ∈ files -> overlaps b e f -> b <= file_min f /\ file_max f <= e).
Proof.
  revert acc. induction files as [|f files IH]; intros acc; cbn [overlap_pass].
  - intros [= <-]. rewrite app_nil_r. split; [done|]. by intros _ f Hf%elem_of_nil.
  - destruct (Z.ltb_spec (file_max f) b).
    { rewrite filter_cons_False by (unfold overlaps; lia). intros [-> Hin]%IH. split; [done|].
      intros Hl g [->|Hg]%elem_of_cons Ho; [destruct Ho; lia|by apply Hin]. }
    destruct (Z.ltb_spec e (file_min f)).
    { rewrite filter_cons_False by (unfold overlaps; lia). intros [-> Hin]%IH. split; [done|].
      intros Hl g [->|Hg]%elem_of_cons Ho; [destruct Ho; lia|by apply Hin]. }
    destruct (l0 && (file_min f <? b)) eqn:E1; [done|]. destruct (l0 && (e <? file_max f)) eqn:E2; [done|].
    rewrite filter_cons_True by (unfold overlaps; lia). intros [-> Hin]%IH. split; [by rewrite <- app_assoc|].
    intros -> g [->|Hg]%elem_of_cons Ho; [|by apply Hin]. simpl in *. lia.
Qed.

Lemma overlap_pass_restart l0 b e files acc b' e' :
  overlap_pass l0 b e files acc = inr (b', e') ->
  l0 = true /\ exists f, f ∈ files /\ overlaps b e f /\
  ((b' = file_min f /\ file_min f < b /\ e' = e) \/ (b' = b /\ e < file_max f /\ e' = file_max f)).
Proof.
  revert acc. induction files as [|f files IH]; intros acc; cbn [overlap_pass]; [done|].
  assert (Hskip : forall acc', overlap_pass l0 b e files acc' = inr (b', e') -> l0 = true /\ exists g,
            g ∈ f :: files /\ overlaps b e g /\
            ((b' = file_min g /\ file_min g < b /\ e' = e) \/ (b' = b /\ e < file_max g /\ e' = file_max g))).
  { intros acc' (-> & g & Hg & Hr)%IH. split; [done|]. exists g. split; [by right|done]. }
  destruct (Z.ltb_spec (file_max f) b); [apply Hskip|]. destruct (Z.ltb_spec e (file_min f)); [apply Hskip|].
  destruct (l0 && (file_min f <? b)) eqn:E1.
  { intros [= <- <-]. apply andb_true_iff in E1 as [-> ?]. split; [done|]. exists f.
    split; [left|]. unfold overlaps. lia. }
  destruct (l0 && (e <? file_max f)) eqn:E2; [|apply Hskip].
  intros [= <- <-]. apply andb_true_iff in E2 as [-> ?]. split; [done|]. exists f.
  split; [left|]. unfold overlaps. lia.
Qed.

(** ** The restarts end *)
Definition sticking (b e : Z) (files : list SSTableCache) : nat :=
  (length (filter (fun f => (file_min f < b)%Z) files) + length (filter (fun f => (e < file_max f)%Z) files))%nat.

Lemma sticking_le b e files : (sticking b e files <= overlap_fuel files)%nat.
Proof.
  unfold sticking, overlap_fuel.
  pose proof (length_filter (fun f => (file_min f < b)%Z) files).
  pose proof (length_filter (fun f => (e < file_max f)%Z) files). lia.
Qed.

Lemma length_filter_lt {A} (P Q : A -> Prop) `{!forall x, Decision (P x)} `{!forall x, Decision (Q x)} (l : list A) x :
  (forall y, P y -> Q y) -> x ∈ l -> Q x -> ~ P x -> (length (filter P l) < length (filter Q l))%nat.
Proof.
  intros Hsub Hx HQ HP.
  assert (Hle : forall k, (length (filter P k) <= length (filter Q k))%nat).
  { induction k as [|y k IH]; [done|]. destruct (decide (P y)) as [Hy|Hy].
    - rewrite !filter_cons_True by auto. simpl. lia.
    - rewrite (filter_cons_False P) by done. destruct (decide (Q y)).
      + rewrite filter_cons_True by done. simpl. lia.
      + by rewrite filter_cons_False. }
  apply list_elem_of_split in Hx as (l1 & l2 & ->). rewrite !filter_app, !length_app.
  rewrite (filter_cons_False P) by done. rewrite (filter_cons_True Q) by done. simpl.
  pose proof (Hle l1). pose proof (Hle l2). lia.
Qed.

Lemma sticking_restart l0 b e files b' e' :
  overlap_pass l0 b e files [] = inr (b', e') -> (sticking b' e' files < sticking b e files)%nat.
Proof.
  intros (_ & f & Hf & _ & [(-> & ? & ->)|(-> & ? & ->)])%overlap_pass_restart; unfold sticking.
  - enough (length (filter (fun g => (file_min g < file_min f)%Z) files)
            < length (filter (fun g => (file_min g < b)%Z) files))%nat by lia.
    apply (length_filter_lt _ _ _ f); [lia|done|done|lia].
  - enough (length (filter (fun g => (file_max f < file_max g)%Z) files)
            < length (filter (fun g => (e < file_max g)%Z) files))%nat by lia.
    apply (length_filter_lt _ _ _ f); [lia|done|done|lia].
Qed.

(** ** What the loop returns *)

(** No file sticks out of the range. *)
Definition closed_range (files : list SSTableCache) (b e : Z) : Prop :=
  forall f, f ∈ files -> overlaps b e f -> b <= file_min f /\ file_max f <= e.

(** The least closed range around [b, e], whose ends are [b], [e] or ends of
    files it holds. *)
Record closure (files : list SSTableCache) (b e b' e' : Z) : Prop := {
  closure_left : b' <= b;
  closure_right : e <= e';
  closure_closed : closed_range files b' e';
  closure_least : forall x y, x <= b -> e <= y -> closed_range files x y -> x <= b' /\ e' <= y;
  closure_start : b' = b \/ exists f, f ∈ files /\ overlaps b' e' f /\ b' = file_min f;
  closure_limit : e' = e \/ exists f, f ∈ files /\ overlaps b' e' f /\ e' = file_max f;
}.

Lemma overlaps_mono b e b' e' f : b' <= b -> e <= e' -> overlaps b e f -> overlaps b' e' f.
Proof. unfold overlaps. lia. Qed.

Lemma closure_step files b e f b1 e1 b' e' :
  f ∈ files -> overlaps b e f ->
  (b1 = file_min f /\ file_min f < b /\ e1 = e) \/ (b1 = b /\ e < file_max f /\ e1 = file_max f) ->
  closure files b1 e1 b' e' -> closure files b e b' e'.
Proof.
  intros Hf Ho Hstep [Hl Hr Hc Hm Hs Ht]. split; [lia|lia|done| | |].
  - intros x y Hx Hy Hxy. apply Hm; [| |done].
    all: destruct (Hxy f Hf) as [? ?]; [by apply (overlaps_mono b e)|lia].
  - destruct Hs as [->|?]; [|by right]. destruct Hstep as [(-> & ? & ->)|(-> & ? & ->)]; [|by left].
    right. exists f. split_and!; [done| |done]. by apply (overlaps_mono b e); [lia|lia|].
  - destruct Ht as [->|?]; [|by right]. destruct Hstep as [(-> & ? & ->)|(-> & ? & ->)]; [by left|].
    right. exists f. split_and!; [done| |done]. by apply (overlaps_mono b e); [lia|lia|].
Qed.

Lemma overlap_loop_0 fuel b e files :
  (sticking b e files <= fuel)%nat ->
  exists b' e', closure files b e b' e' /\ overlap_loop fuel true b e files = Some (filter (overlaps b' e') files).
Proof.
  revert b e. induction fuel as [|fuel IH]; intros b e Hfuel; cbn [overlap_loop];
    destruct (overlap_pass true b e files []) as [r|[b1 e1]] eqn:E.
  1,3: apply overlap_pass_done in E as [-> Hc]; exists b, e; split; [|done]; split; [done|done|exact (Hc eq_refl)|by auto|by left|by left].
  - apply sticking_restart in E. lia.
  - destruct (IH b1 e1) as (b' & e' & Hc & ->); [apply sticking_restart in E; lia|].
    apply overlap_pass_restart in E as (_ & f & Hf & Ho & Hs). exists b', e'. split; [|done].
    by eapply closure_step.
Qed.

Lemma overlap_loop_1 fuel b e files :
  overlap_loop fuel false b e files = Some (filter (overlaps b e) files).
Proof.
  destruct fuel; cbn [overlap_loop]; destruct (overlap_pass false b e files []) as [r|[b1 e1]] eqn:E;
    first [by apply overlap_pass_done in E as [-> _]|by apply overlap_pass_restart in E as [? _]].
Qed.

(** ** The inputs of a level *)
Definition file_ok (f : SSTableCache) : Prop := file_min f <= file_max f.

(** No two files of the level overlap: every level but level 0. *)
Definition separated (files : list SSTableCache) : Prop :=
  forall i j f g, i <> j -> files !! i = Some f -> files !! j = Some g -> ~ overlaps (file_min f) (file_max f) g.

(** The files [r] of the level are all those that overlap their own hull. *)
Record whole (files r : list SSTableCache) (s l : Z) : Prop := {
  whole_range : GetRange r = Some (s, l);
  whole_sublist : r `sublist_of` files;
  whole_all : forall f, f ∈ files -> overlaps s l f <-> f ∈ r;
}.

Lemma GetRange_nonempty r : r <> [] -> exists s l, GetRange r = Some (s, l).
Proof. destruct r as [|f r]; [done|]. intros _. cbn [GetRange]. destruct (range_loop _ _ r). eauto. Qed.

Lemma filter_sublist {A} (P : A -> Prop) `{!forall x, Decision (P x)} (l : list A) : filter P l `sublist_of` l.
Proof.
  induction l as [|x l IH]; [constructor|]. destruct (decide (P x)).
  - rewrite filter_cons_True by done. by constructor.
  - rewrite filter_cons_False by done. by constructor.
Qed.

(** The files that overlap some range are whole when the range is closed, or
    when the files are separated. *)
Lemma whole_filter files b e :
  Forall file_ok files -> closed_range files b e \/ separated files -> filter (overlaps b e) files <> [] ->
  exists s l, whole files (filter (overlaps b e) files) s l.
Proof.
  intros Hok Hside Hne. destruct (GetRange_nonempty _ Hne) as (s & l & Hr). exists s, l.
  destruct (GetRange_spec _ _ _ Hr) as (Hin & (h1 & Hh1 & Hs) & (h2 & Hh2 & Hl)).
  split; [done|apply filter_sublist|]. intros f Hf. rewrite list_elem_of_filter. split.
  - intros Ho. split; [|done]. apply list_elem_of_filter in Hh1 as [Ho1 Hh1], Hh2 as [Ho2 Hh2].
    destruct Hside as [Hc|Hsep].
    + pose proof (Hc _ Hh1 Ho1). pose proof (Hc _ Hh2 Ho2). unfold overlaps in *. lia.
    + destruct (decide (overlaps b e f)) as [|Hn]; [done|exfalso].
      assert (Hne' : forall h, h ∈ files -> overlaps b e h -> ~ overlaps (file_min h) (file_max h) f).
      { intros h Hh Hoh. apply list_elem_of_lookup in Hh as [i Hi], Hf as [j Hj].
        apply (Hsep i j h f); [|done|done]. intros ->. congruence. }
      pose proof (Hne' _ Hh1 Ho1). pose proof (Hne' _ Hh2 Ho2).
      rewrite Forall_forall in Hok. pose proof (Hok f Hf). unfold overlaps, file_ok in *. lia.
  - intros Hof. destruct (Hin f) as [H1 H2]; [apply list_elem_of_filter; tauto|].
    rewrite Forall_forall in Hok. pose proof (Hok f Hf) as Hf'. unfold overlaps, file_ok in *. lia.
Qed.

Lemma whole_single files f : Forall file_ok files -> separated files -> f ∈ files -> whole files [f] (file_min f) (file_max f).
Proof.
  intros Hok Hsep Hf. pose proof Hf as [i Hi]%list_elem_of_lookup. split.
  - done.
  - by apply singleton_sublist_l.
  - intros g Hg. rewrite list_elem_of_singleton. split.
    + intros Ho. pose proof Hg as [j Hj]%list_elem_of_lookup. destruct (decide (i = j)) as [->|Hij]; [congruence|].
      by destruct (Hsep i j f g).
    + intros ->. rewrite Forall_forall in Hok. pose proof (Hok _ Hf) as Hf'. unfold overlaps, file_ok in *. lia.
Qed.

Section Levels.
Context (caches : list (list SSTableCache)) (level : Z) (files : list SSTableCache).
Hypothesis Hlevel : 0 <= level < MAX_LEVEL.
Hypothesis Hfiles : caches !! Z.to_nat level = Some files.
Hypothesis Hok : Forall file_ok files.
Hypothesis Hsep : level = 0 \/ separated files.

Lemma level_overlaps_whole b e :
  (exists f, f ∈ files /\ overlaps b e f) ->
  exists r s l, GetOverlappingInputs caches level b e = Some r /\ whole files r s l /\
  (forall f, f ∈ files -> overlaps b e f -> f ∈ r).
Proof.
  intros (f & Hf & Ho). unfold GetOverlappingInputs.
  rewrite (proj2 (orb_false_iff _ _)) by lia.
  rewrite Hfiles. simpl_bind. destruct (Z.eqb_spec level 0) as [->|Hl].
  - destruct (overlap_loop_0 _ b e files (sticking_le b e files)) as (b' & e' & Hc & ->).
    assert (Hin : forall g, g ∈ files -> overlaps b e g -> g ∈ filter (overlaps b' e') files).
    { intros g Hg Hog. apply list_elem_of_filter. split; [|done].
      by apply (overlaps_mono b e); [apply Hc|apply Hc|]. }
    destruct (whole_filter files b' e') as (s & l & Hw); [done|left; apply Hc| |].
    { intros Hnil. specialize (Hin f Hf Ho). rewrite Hnil in Hin. by apply elem_of_nil in Hin. }
    eauto 6.
  - rewrite overlap_loop_1. destruct Hsep as [|Hsep']; [done|].
    destruct (whole_filter files b e) as (s & l & Hw); [done|by right| |].
    { intros Hnil. assert (f ∈ filter (overlaps b e) files) as Hx by (by apply list_elem_of_filter).
      rewrite Hnil in Hx. by apply elem_of_nil in Hx. }
    eexists _, s, l. split_and!; [done|done|]. intros g Hg Hog. by apply list_elem_of_filter.
Qed.

Lemma next_overlaps next b e :
  level + 1 < MAX_LEVEL -> caches !! Z.to_nat (level + 1) = Some next ->
  GetOverlappingInputs caches (level + 1) b e = Some (filter (overlaps b e) next).
Proof.
  intros Hl Hn. unfold GetOverlappingInputs. rewrite (proj2 (orb_false_iff _ _)) by lia. rewrite Hn. simpl_bind.
  replace (level + 1 =? 0) with false by lia. apply overlap_loop_1.
Qed.
End Levels.

(** ** [PickCompactioFile] *)
Lemma first_after_elem pointer files :
  first_after pointer files = [] \/ exists f, f ∈ files /\ first_after pointer files = [f].
Proof.
  induction files as [|f files IH]; cbn [first_after]; [by left|].
  destruct ((pointer =? MAX_GLOBAL_SEQ) || (pointer <? file_min f)).
  - right. exists f. split; [left|done].
  - destruct IH as [->|(g & Hg & ->)]; [by left|]. right. exists g. split; [by right|done].
Qed.

(** Some file of the level is picked. *)
Lemma picked_first pointer files :
  files <> [] ->
  exists f reverse, f ∈ files /\
  match first_after pointer files with
  | [] => f ← files !! 0%nat; Some ([f], true)
  | fs => Some (fs, false)
  end = Some ([f], reverse).
Proof.
  intros Hne. destruct (first_after_elem pointer files) as [->|(f & Hf & ->)].
  - destruct files as [|f files]; [done|]. exists f, true. split; [left|done].
  - by exists f, false.
Qed.

(** What a pick promises about the two levels. *)
Definition pick_whole (files next : list SSTableCache) (p : Pick) : Prop :=
  exists s l, whole files (inputs_0 p) s l /\ inputs_1 p = filter (overlaps s l) next /\ compact_pointer p = l.

Section Setup.
Context (caches : list (list SSTableCache)) (level : Z) (files next : list SSTableCache).
Hypothesis Hlevel : 0 <= level < MAX_LEVEL - 1.
Hypothesis Hfiles : caches !! Z.to_nat level = Some files.
Hypothesis Hnext : caches !! Z.to_nat (level + 1) = Some next.
Hypothesis Hok : Forall file_ok files.
Hypothesis Hsep : level = 0 \/ separated files.

Lemma grow_inputs_whole r s l all_limit all_start :
  whole files r s l -> (exists f, f ∈ files /\ overlaps all_start all_limit f) ->
  exists r' in1' s' l' lim,
    grow_inputs caches level r (filter (overlaps s l) next) (s, l) all_limit all_start = Some (r', in1', (s', l'), lim) /\
    whole files r' s' l' /\ in1' = filter (overlaps s' l') next.
Proof.
  intros Hw Hex. unfold grow_inputs.
  destruct (level_overlaps_whole caches level files ltac:(lia) Hfiles Hok Hsep _ _ Hex) as (r' & s' & l' & -> & Hw' & _).
  simpl_bind. destruct (_ <? _)%nat; [|by eauto 10]. rewrite (whole_range _ _ _ _ Hw'). simpl_bind. simpl fst. simpl snd.
  rewrite (next_overlaps caches level ltac:(lia) next) by (done || lia). simpl_bind.
  destruct (_ =? _)%nat; [|by eauto 10].
  destruct (GetRange_nonempty (r' ++ filter (overlaps s' l') next)) as (a & a' & Ha).
  { intros [-> _]%app_eq_nil. by pose proof (whole_range _ _ _ _ Hw'). }
  unfold GetRange2. rewrite Ha. simpl_bind. by eauto 10.
Qed.

Lemma SetupOtherInputs_whole is_grow r s l reverse :
  whole files r s l -> exists p, SetupOtherInputs caches level is_grow r reverse = Some p /\ pick_whole files next p.
Proof.
  intros Hw. unfold SetupOtherInputs. rewrite (whole_range _ _ _ _ Hw). simpl_bind. simpl fst. simpl snd.
  rewrite (next_overlaps caches level ltac:(lia) next) by (done || lia). simpl_bind.
  destruct (GetRange_nonempty (r ++ filter (overlaps s l) next)) as (a & a' & Ha).
  { intros [-> _]%app_eq_nil. by pose proof (whole_range _ _ _ _ Hw). }
  unfold GetRange2 at 1. rewrite Ha. simpl_bind. simpl fst. simpl snd.
  destruct (_ && _); [|simpl_bind; eexists; split; [done|]; by exists s, l].
  destruct (grow_inputs_whole r s l a' a Hw) as (r' & in1' & s' & l' & lim & -> & Hw' & ->).
  { destruct (GetRange_spec _ _ _ (whole_range _ _ _ _ Hw)) as (_ & (f & Hf & _) & _). exists f.
    pose proof (elem_of_sublist _ _ _ Hf (whole_sublist _ _ _ _ Hw)) as Hff. split; [done|].
    destruct (GetRange_spec _ _ _ Ha) as (Hin & _). destruct (Hin f) as [H1 H2]; [apply elem_of_app; by left|].
    rewrite Forall_forall in Hok. pose proof (Hok _ Hff). unfold overlaps, file_ok in *. lia. }
  simpl_bind. eexists. split; [done|]. by exists s', l'.
Qed.
End Setup.

Lemma picked_whole caches level is_grow pointer files :
  0 <= level < MAX_LEVEL - 1 -> caches !! Z.to_nat level = Some files -> files <> [] ->
  Forall file_ok files -> level = 0 \/ separated files ->
  exists p, PickCompactioFile caches level is_grow pointer = Some p /\
            pick_whole files (default [] (caches !! Z.to_nat (level + 1))) p.
Proof.
  intros Hlevel Hfiles Hne Hok Hsep. unfold PickCompactioFile. rewrite Hfiles. simpl_bind.
  destruct (picked_first pointer files Hne) as (f & reverse & Hf & ->). simpl_bind.
  pose proof Hok as Hokf. rewrite Forall_forall in Hokf. pose proof (Hokf f Hf) as Hff.
  assert (exists r s l, whole files r s l /\
    (if level =? 0 then
       range ← GetRange [f]; in0 ← GetOverlappingInputs caches 0 (fst range) (snd range);
       if bool_decide (length in0 = 0%nat) then None else Some in0
     else Some [f]) = Some r) as (r & s & l & Hw & ->).
  { destruct (Z.eqb_spec level 0) as [->|Hl].
    - cbn [GetRange range_loop]. simpl_bind. simpl fst. simpl snd.
      destruct (level_overlaps_whole caches 0 files ltac:(lia) Hfiles Hok Hsep (file_min f) (file_max f))
        as (r & s & l & -> & Hw & _); [exists f; split; [done|]; unfold overlaps, file_ok in *; lia|].
      exists r, s, l. split; [done|]. simpl_bind. destruct r; [by pose proof (whole_range _ _ _ _ Hw)|].
      by rewrite bool_decide_eq_false_2.
    - destruct Hsep as [|Hsep]; [done|]. eexists _, _, _. split; [by apply whole_single|done]. }
  simpl_bind. destruct (Z.ltb_spec (level + 1) (zlen caches)) as [Hn|Hn].
  - destruct (lookup_lt_is_Some_2 caches (Z.to_nat (level + 1))) as [next Hnext]; [unfold zlen in Hn; lia|].
    rewrite Hnext. by apply (SetupOtherInputs_whole caches level files next Hlevel Hfiles Hnext Hok Hsep is_grow r s l).
  - rewrite (lookup_ge_None_2 caches (Z.to_nat (level + 1))) by (unfold zlen in Hn; lia).
    rewrite (whole_range _ _ _ _ Hw). simpl_bind. eexists. split; [done|]. by exists s, l.
Qed.

(** C34: The files picked for a compaction can be merged and moved down: the
    inputs of the level are exactly its files that overlap their common range,
    those of the next level exactly its files that overlap that range; and the
    next compaction of the level starts after that range. *)
Theorem pick_inputs_closed caches level is_grow pointer files :
  0 <= level < MAX_LEVEL - 1 -> caches !! Z.to_nat level = Some files -> files <> [] ->
  Forall file_ok files -> level = 0 \/ separated files ->
  exists p, PickCompactioFile caches level is_grow pointer = Some p /\
            pick_whole files (default [] (caches !! Z.to_nat (level + 1))) p.
Proof. apply picked_whole. Qed.

(** A level 0 of three files, of which two overlap, above two files. *)
Definition pick_file (fid mn mx : Z) : SSTableCache := mkCache (mkHeader_ fid 0 0 mn mx) 0 [].
Definition pick_level0 : list SSTableCache := [pick_file 5 1 4; pick_file 6 20 30; pick_file 7 3 9].
Definition pick_level1 : list SSTableCache := [pick_file 1 0 0; pick_file 2 8 12; pick_file 3 13 25].

Lemma pick_inputs_closed_witness :
  PickCompactioFile [pick_level0; pick_level1] 0 false 0
  = Some (mkPick [pick_file 5 1 4; pick_file 7 3 9] [pick_file 2 8 12] 9 (Some 12) false) /\
  exists p, PickCompactioFile [pick_level0; pick_level1] 0 false 0 = Some p /\ pick_whole pick_level0 pick_level1 p.
Proof.
  split; [reflexivity|].
  apply (pick_inputs_closed [pick_level0; pick_level1] 0 false 0 pick_level0);
    [vm_compute; split; congruence|done|done| |by left].
  repeat constructor; vm_compute; congruence.
Defined.
