(* ===== verification/SstWriter.v ===== *)
(** * Compaction: the writer of the output files

    core/graph/edge_record.h ([EdgeRecord] and its order) and [SSTableWriter] of
    core/compaction.h: [Init], [Write], [WriteEnd], [CurSize], [IsClear], in the
    multi-version build with the default level index.  A buffer with its fill
    pointer is the list of what has been put into it; a [write] appends to the
    file.  [None] is a store outside a buffer, an exception of the level index
    or, with [debug], a failed assertion. *)

From S2P Require Import Prelude.
From S2P Require Import Types.
From S2P Require Import SkipList.
From S2P Require Import MemTable.
From S2P Require Import EdgeBody.
From S2P Require Import PropertyLayout.
From S2P Require Import Sst.
From S2P Require Import SstBuild.
From S2P Require Import LevelIndex.
From S2P Require Import LsmRead.
From S2P Require Import SstBuildFacts.
From S2P Require Import SstBuildTheorems.

(** ** Edge records *)
Record EdgeRecord := mkRecord {
  src_ : Z; dst_ : Z; seq_ : Z; props_ : list bytes; marker_ : bool; is_out_ : bool; edge_type_ : Z }.

(** [operator<] *)
Definition record_less (a rhs : EdgeRecord) : bool :=
  if src_ a <? src_ rhs then true
  else if src_ a =? src_ rhs then
    if dst_ a <? dst_ rhs then true
    else if dst_ a =? dst_ rhs then seq_ rhs <? seq_ a
    else false
  else false.

(** ** Sizes *)

(** The constants of core/config.h that bound buffers and files. *)
Record CompactionConfig := mkConfig {
  BODY_BUFFER_SIZE : Z;
  PROPERTY_BUFFER_SIZE : Z;
  MAX_EFILE_SiZE : Z;
  MAX_INDEX_NUM : Z;
}.

Definition HEADER_SIZE : Z := sizeof Header.
Definition MAX_TABLE_SIZE : Z := 64 * Z.shiftl 1 20.

Definition default_config : CompactionConfig :=
  mkConfig (4 * Z.shiftl 1 20 / EDGEBODY_SIZE) (4 * Z.shiftl 1 20) (64 * Z.shiftl 1 20)
    ((MAX_TABLE_SIZE - HEADER_SIZE) / EDGEBODY_SIZE + 1).

(** ** The store the writer publishes into *)
Record Storage := mkStorage {
  fileMetaCache_ : list (list SSTableCache);
  vid_to_mullevelIndex_ : LazyArray;
  vertex_max_level_ : gmap Z Z;
  sst_data : gmap Z SstData;           (** [sstdata_manager_] *)
}.

(** ** The writer *)

(** One property column: the buffered bytes, the bytes counted so far and the
    bytes in the file. *)
Record PropertyFile := mkPFile { p_file_content_ : bytes; p_file_size_ : Z; p_file : bytes }.
Definition empty_pfile : PropertyFile := mkPFile [] 0 [].

Record SSTableWriter := mkWriter {
  timestamp_ : Z;
  edge_body_buffer_ : list Dym.EdgeBody;
  edge_cnt_ : Z;
  edge_index_buffer_ : list Index;
  columns : list PropertyFile;
  cur_src_vtx_ : Z;
  first_src_ : Z;
  newest_edge : Z;
  e_file : bytes;
}.

Definition edge_ptr_ (w : SSTableWriter) : Z := zlen (edge_body_buffer_ w).
Definition index_cnt_ (w : SSTableWriter) : Z := zlen (edge_index_buffer_ w).

(** [Sort minkey from small to large]. *)
Definition min_key_le (a b : SSTableCache) : Prop := minKey (cache_header a) <= minKey (cache_header b).
#[export] Instance min_key_le_dec a b : Decision (min_key_le a b).
Proof. unfold min_key_le. apply _. Defined.
#[export] Instance min_key_le_trans : Transitive min_key_le.
Proof. intros a b c. unfold min_key_le. lia. Qed.
#[export] Instance min_key_le_total : Total min_key_le.
Proof. intros a b. unfold min_key_le. lia. Qed.
#[global] Typeclasses Opaque min_key_le.

Section Writer.
Context (cfg : CompactionConfig) (debug : bool) (flags : Flags) (tls : layout) (property_num_ : nat).
(** The level of the inputs, the largest level-0 file among them, their ids. *)
Context (level_ min_level_0_fid_ : Z) (input_0_fidset_ : list Z).

Definition new_writer : SSTableWriter :=
  mkWriter 0 [] 0 [] (replicate property_num_ empty_pfile) kInvalidVertexId 0 0 [].

Definition Init (w : SSTableWriter) (first_src timestamp : Z) : SSTableWriter :=
  mkWriter timestamp [] 0 [] (replicate property_num_ empty_pfile) kInvalidVertexId first_src (newest_edge w) [].

Definition CurSize (w : SSTableWriter) : Z :=
  HEADER_SIZE + (edge_cnt_ w + 1) * EDGEBODY_SIZE + (index_cnt_ w + 1) * sizeof Index.

Definition IsClear (w : SSTableWriter) : bool := edge_ptr_ w =? 0.

(** *** Publication *)

(** The level index of one source. *)
Definition relocate (fid offset next_offset : Z) (findex : MulLevelIndex) : option MulLevelIndex :=
  findex ← (if 0 <? level_ then
              input0_fid ← get_fileID findex (level_ - 1);
              if bool_decide (input0_fid ∈ input_0_fidset_) then set_fileID findex (level_ - 1) INVALID_File_ID
              else Some findex
            else Some findex);
  let findex := if level_ =? 0 then set_min_level_0_fid findex (u32 (min_level_0_fid_ + 1)) else findex in
  findex ← set_fileID findex level_ fid;
  findex ← set_offset findex level_ offset;
  set_next_offset findex level_ next_offset.

Fixpoint publish_indexes (fid : Z) (indexes : list Index) (s : Storage) : option Storage :=
  match indexes with
  | x :: (y :: _) as rest =>
      '(a, findex) ← lazy_get (vid_to_mullevelIndex_ s) (ix_key x);
      findex ← relocate fid (ix_offset x) (ix_offset y) findex;
      a ← lazy_set a (ix_key x) findex;
      publish_indexes fid rest
        (mkStorage (fileMetaCache_ s) a
           (<[ix_key x := write_max (default 0 (vertex_max_level_ s !! ix_key x)) (level_ + 2)]> (vertex_max_level_ s))
           (sst_data s))
  | _ => Some s
  end.

Definition publish_file (f : SSTableCache) (s : Storage) : option Storage :=
  next ← fileMetaCache_ s !! Z.to_nat (level_ + 1);
  Some (mkStorage (<[Z.to_nat (level_ + 1) := merge_sort min_key_le (next ++ [f])]> (fileMetaCache_ s))
          (vid_to_mullevelIndex_ s) (vertex_max_level_ s) (sst_data s)).

(** *** [WriteEnd] *)
Definition WriteEnd (w : SSTableWriter) (s : Storage) : option (SSTableWriter * Storage) :=
  _ ← assert_ debug (edge_ptr_ w + 1 <? BODY_BUFFER_SIZE cfg);
  if BODY_BUFFER_SIZE cfg <=? edge_ptr_ w then None
  else
    c0 ← head (columns w);
    let bodies := edge_body_buffer_ w ++ [Dym.EdgeBody_t kInvalidVertexId 0 (p_file_size_ c0) false true 0] in
    let file := e_file w ++ concat (pod_encode <$> bodies) in
    _ ← assert_ debug (index_cnt_ w + 1 <? MAX_INDEX_NUM cfg);
    if MAX_INDEX_NUM cfg <=? index_cnt_ w then None
    else
      let indexes := edge_index_buffer_ w ++ [mkIndex kInvalidVertexId (u32 (edge_cnt_ w * EDGEBODY_SIZE))] in
      let header := mkHeader_ (timestamp_ w) (edge_cnt_ w + 1) (zlen indexes) (first_src_ w) (cur_src_vtx_ w) in
      let file := file ++ concat (pod_encode <$> indexes) ++ pod_encode header in
      let columns' := (fun c => p_file c ++ p_file_content_ c) <$> columns w in
      let cache := mkCache header (newest_edge w) indexes in
      let s := mkStorage (fileMetaCache_ s) (vid_to_mullevelIndex_ s) (vertex_max_level_ s)
                 (<[timestamp_ w := mkSst indexes file columns']> (sst_data s)) in
      s ← publish_indexes (u32 (timestamp_ w)) indexes s;
      s ← publish_file cache s;
      Some (mkWriter (timestamp_ w) bodies (edge_cnt_ w) indexes (columns w) (cur_src_vtx_ w) (first_src_ w)
              (newest_edge w) file, s).

(** *** [Write] *)
Definition write_property (i : nat) (c : PropertyFile) (prop : bytes) : option PropertyFile :=
  let fixed_len := slot_len flags tls i in
  let c := if PROPERTY_BUFFER_SIZE cfg <=? zlen (p_file_content_ c) + fixed_len
           then mkPFile [] (p_file_size_ c) (p_file c ++ p_file_content_ c) else c in
  _ ← assert_ debug (zlen (p_file_content_ c) + fixed_len <? PROPERTY_BUFFER_SIZE cfg);
  if PROPERTY_BUFFER_SIZE cfg <? zlen (p_file_content_ c) + fixed_len then None
  else Some (mkPFile (p_file_content_ c ++ slot_bytes fixed_len prop) (u32 (p_file_size_ c + fixed_len)) (p_file c)).

Fixpoint write_properties (i : nat) (cs : list PropertyFile) (props : list bytes) : option (list PropertyFile) :=
  match cs with
  | [] => Some []
  | c :: cs =>
      prop ← head props;
      c ← write_property i c prop;
      cs ← write_properties (S i) cs (tail props);
      Some (c :: cs)
  end.

(** The index entry of a new source. *)
Definition start_source (w : SSTableWriter) (src : Z) : option SSTableWriter :=
  if MAX_INDEX_NUM cfg <=? index_cnt_ w then None
  else
    _ ← assert_ debug (index_cnt_ w + 1 <? MAX_INDEX_NUM cfg);
    Some (mkWriter (timestamp_ w) (edge_body_buffer_ w) (edge_cnt_ w)
            (edge_index_buffer_ w ++ [mkIndex src (u32 (edge_cnt_ w * EDGEBODY_SIZE))])
            (columns w) src (first_src_ w) (newest_edge w) (e_file w)).

Definition write_edge (w : SSTableWriter) (r : EdgeRecord) : option SSTableWriter :=
  c0 ← head (columns w);
  columns' ← write_properties 0 (columns w) (props_ r);
  if BODY_BUFFER_SIZE cfg <=? edge_ptr_ w then None
  else
    let buffer := edge_body_buffer_ w
                  ++ [Dym.EdgeBody_t (dst_ r) (seq_ r) (p_file_size_ c0) (marker_ r) (is_out_ r) (edge_type_ r)] in
    let '(buffer, file) := if BODY_BUFFER_SIZE cfg - 1 <=? zlen buffer
                           then ([], e_file w ++ concat (pod_encode <$> buffer)) else (buffer, e_file w) in
    Some (mkWriter (timestamp_ w) buffer (edge_cnt_ w + 1) (edge_index_buffer_ w) columns' (cur_src_vtx_ w)
            (first_src_ w) (Z.max (newest_edge w) (seq_ r)) file).

(** [false] when the file was full and has been finished instead. *)
Definition Write (w : SSTableWriter) (s : Storage) (r : EdgeRecord) : option (bool * SSTableWriter * Storage) :=
  if src_ r =? cur_src_vtx_ w then w ← write_edge w r; Some (true, w, s)
  else if MAX_EFILE_SiZE cfg <=? CurSize w then '(w, s) ← WriteEnd w s; Some (false, w, s)
  else w ← start_source w (src_ r); w ← write_edge w r; Some (true, w, s).
End Writer.

(** ** Compaction: what the writer writes

    Fed with the edges of a table in order, the writer holds the image of what
    it was given: buffered or written, the bodies, the index and the columns
    are those of the reference image. *)

Lemma slot_bytes_id len v : zlen v = len -> slot_bytes len v = v.
Proof.
  intros <-. unfold slot_bytes. rewrite Z.min_id, Z.sub_diag, take_ge by (unfold zlen; lia). apply app_nil_r.
Qed.

Lemma u32_add_l a b : u32 (u32 a + b) = u32 (a + b).
Proof. unfold u32, wrap. by rewrite Z.add_mod_idemp_l. Qed.

Lemma all_edges_snoc vs v : all_edges (vs ++ [v]) = all_edges vs ++ v.2.
Proof. rewrite all_edges_app. unfold all_edges at 2. cbn [fmap list_fmap concat]. by rewrite app_nil_r. Qed.

Lemma assert_holds debug c : c = true -> assert_ debug c = Some ().
Proof. intros ->. unfold assert_. by rewrite andb_false_r. Qed.

(** The newest sequence after the edges of a file. *)
Definition newest_of (n : Z) (es : list Edge) : Z := foldl Z.max n (sequence <$> es).

Lemma newest_of_snoc n es e : newest_of n (es ++ [e]) = Z.max (newest_of n es) (sequence e).
Proof. unfold newest_of. by rewrite fmap_app, foldl_app. Qed.

(** The bounds that the constants of the build satisfy. *)
Record config_ok (cfg : CompactionConfig) : Prop := {
  cfg_body : 2 <= BODY_BUFFER_SIZE cfg;
  cfg_file : HEADER_SIZE + EDGEBODY_SIZE + sizeof Index < MAX_EFILE_SiZE cfg <= 2 ^ 32;
  cfg_index : MAX_EFILE_SiZE cfg <= (EDGEBODY_SIZE + sizeof Index) * (MAX_INDEX_NUM cfg - 1);
}.

Lemma default_config_ok : config_ok default_config.
Proof. split; vm_compute; split || idtac; congruence. Qed.

Section Facts.
Context (cfg : CompactionConfig) (debug : bool) (flags : Flags) (tls : layout) (property_num : nat).
Context (Hcfg : config_ok cfg) (Hpn : (0 < property_num)%nat).
Context (Hslots : forall p, (p < property_num)%nat -> 0 <= slot_len flags tls p < PROPERTY_BUFFER_SIZE cfg).

Abbreviation ref_slot := (ref_slot flags tls).

(** An edge as the record a way reads for it. *)
Definition record_of (src : Z) (e : Edge) : EdgeRecord :=
  mkRecord src (destination e) (sequence e) ((fun p => ref_slot p e) <$> seq 0 property_num)
    (marker e) (e_is_out e) (e_edge_type e).

(** ** Columns *)
Definition column_holds (i : nat) (c : PropertyFile) (es : list Edge) : Prop :=
  p_file c ++ p_file_content_ c = concat (ref_slot i <$> es) /\
  p_file_size_ c = u32 (zlen es * slot_len flags tls i) /\
  zlen (p_file_content_ c) < PROPERTY_BUFFER_SIZE cfg.

Lemma write_property_holds i c es e :
  (i < property_num)%nat -> column_holds i c es ->
  exists c', write_property cfg debug flags tls i c (ref_slot i e) = Some c' /\ column_holds i c' (es ++ [e]).
Proof.
  intros Hi (Hf & Hs & Hb). specialize (Hslots i Hi).
  assert (zlen (ref_slot i e) = slot_len flags tls i) as El by (apply slot_bytes_length; lia).
  assert (u32 (p_file_size_ c + slot_len flags tls i) = u32 (zlen (es ++ [e]) * slot_len flags tls i)) as Es.
  { rewrite Hs, u32_add_l, zlen_app. f_equal. unfold zlen at 3. simpl. lia. }
  unfold write_property. rewrite slot_bytes_id by done.
  destruct (Z.leb_spec (PROPERTY_BUFFER_SIZE cfg) (zlen (p_file_content_ c) + slot_len flags tls i)) as [Hc|Hc];
    cbn [p_file_content_ p_file_size_ p_file].
  - change (zlen (@nil byte)) with 0. rewrite assert_holds, (proj2 (Z.ltb_ge _ _)) by lia.
    eexists. split; [done|]. split_and!; cbn [p_file_content_ p_file_size_ p_file app]; [|done|lia].
    rewrite fmap_app, concat_app, <- Hf. cbn [fmap list_fmap concat]. by rewrite app_nil_r.
  - rewrite assert_holds, (proj2 (Z.ltb_ge _ _)) by lia.
    eexists. split; [done|]. split_and!; cbn [p_file_content_ p_file_size_ p_file]; [|done|rewrite zlen_app; lia].
    rewrite fmap_app, concat_app, <- Hf. cbn [fmap list_fmap concat]. by rewrite app_nil_r, app_assoc.
Qed.

Definition columns_hold (i : nat) (cs : list PropertyFile) (es : list Edge) : Prop :=
  forall j c, cs !! j = Some c -> column_holds (i + j) c es.

Lemma write_properties_hold i cs es e :
  (i + length cs <= property_num)%nat -> columns_hold i cs es ->
  exists cs', write_properties cfg debug flags tls i cs ((fun p => ref_slot p e) <$> seq i (length cs)) = Some cs' /\
    length cs' = length cs /\ columns_hold i cs' (es ++ [e]).
Proof.
  revert i. induction cs as [|c cs IH]; intros i Hl Hc; cbn [length write_properties].
  { exists []. split_and!; [done|done|]. intros j c Hj. by rewrite lookup_nil in Hj. }
  cbn [length] in Hl. cbn [seq fmap list_fmap head tail]. simpl_bind.
  pose proof (Hc 0%nat c eq_refl) as Hc0. rewrite Nat.add_0_r in Hc0.
  destruct (write_property_holds i c es e) as (c' & -> & Hc'); [lia|done|]. simpl_bind.
  destruct (IH (S i)) as (cs' & -> & Hlen & Hcs'); [lia|intros j d Hj; rewrite Nat.add_succ_l, <- Nat.add_succ_r; by apply Hc|].
  simpl_bind. eexists. split_and!; [done|simpl; by rewrite Hlen|].
  intros [|j] d Hj; cbn in Hj; [injection Hj as <-; by rewrite Nat.add_0_r|].
  rewrite Nat.add_succ_r, <- Nat.add_succ_l. by apply Hcs'.
Qed.

(** ** The writer *)
Record writer_holds (w : SSTableWriter) (t n0 : Z) (vs : list (Z * list Edge)) : Prop := {
  wh_timestamp : timestamp_ w = t;
  wh_file : e_file w ++ concat (pod_encode <$> edge_body_buffer_ w) = concat (ref_bodies flags tls 0 (all_edges vs));
  wh_ptr : edge_ptr_ w = zlen (all_edges vs) mod (BODY_BUFFER_SIZE cfg - 1);
  wh_cnt : edge_cnt_ w = zlen (all_edges vs);
  wh_index : edge_index_buffer_ w = ref_index 0 vs;
  wh_columns : length (columns w) = property_num /\ columns_hold 0 (columns w) (all_edges vs);
  wh_cur : cur_src_vtx_ w = from_option fst kInvalidVertexId (list.last vs);
  wh_first : first_src_ w = from_option fst (first_src_ w) (head vs);
  wh_newest : newest_edge w = newest_of n0 (all_edges vs);
  wh_room : zlen vs + 1 < MAX_INDEX_NUM cfg;
}.

Lemma init_holds w src t : writer_holds (Init property_num w src t) t (newest_edge w) [].
Proof.
  split; try done.
  - split; [apply length_replicate|]. intros j c [-> Hj]%lookup_replicate. split_and!; cbn; [done|done|].
    change (zlen (@nil byte)) with 0. specialize (Hslots j Hj). lia.
  - pose proof (cfg_file _ Hcfg). pose proof (cfg_index _ Hcfg). change (zlen (@nil (Z * list Edge))) with 0.
    change EDGEBODY_SIZE with 16 in *. change (sizeof Index) with 12 in *. change HEADER_SIZE with 40 in *. lia.
Qed.

Lemma buffer_bound w t n0 vs : writer_holds w t n0 vs -> 0 <= edge_ptr_ w < BODY_BUFFER_SIZE cfg - 1.
Proof. intros H. rewrite (wh_ptr _ _ _ _ H). apply Z.mod_pos_bound. pose proof (cfg_body _ Hcfg). lia. Qed.

Lemma start_source_holds w t n0 vs v :
  writer_holds w t n0 vs -> Forall (fun x => x.2 <> []) vs -> CurSize w < MAX_EFILE_SiZE cfg ->
  first_src_ w = from_option fst v (head vs) ->
  exists w', start_source cfg debug w v = Some w' /\ writer_holds w' t n0 (vs ++ [(v, [])]).
Proof.
  intros H Hne Hsize Hfirst. pose proof H as [Ht Hf Hp Hc Hi Hcol Hcur Hfst Hn Hr].
  assert (zlen vs <= zlen (all_edges vs)) as Hle.
  { clear -Hne. induction Hne as [|[x es] vs Hx Hne IH]; [done|]. unfold all_edges in *. cbn [fmap list_fmap concat snd].
    rewrite zlen_app. cbn [snd] in Hx. destruct es; [done|]. unfold zlen in *. simpl. lia. }
  unfold CurSize, index_cnt_ in Hsize. rewrite Hc, Hi, zlen_ref_index in Hsize.
  pose proof (cfg_file _ Hcfg). pose proof (cfg_index _ Hcfg).
  change EDGEBODY_SIZE with 16 in *. change (sizeof Index) with 12 in *. change HEADER_SIZE with 40 in *.
  unfold start_source, index_cnt_. rewrite Hi, zlen_ref_index. rewrite (proj2 (Z.leb_gt _ _)) by lia.
  rewrite assert_holds by lia.
  eexists. split; [done|]. split; cbn [timestamp_ edge_body_buffer_ edge_cnt_ edge_index_buffer_ columns cur_src_vtx_
    first_src_ newest_edge e_file]; rewrite ?all_edges_snoc; cbn [snd]; rewrite ?app_nil_r; try done.
  - rewrite ref_index_app, Z.add_0_l. cbn [ref_index].
    change EDGEBODY_SIZE with 16. pose proof (zlen_nonneg (all_edges vs)); pose proof (zlen_nonneg vs). rewrite Hc, u32_small by lia. by rewrite Z.mul_comm.
  - by rewrite last_snoc.
  - by destruct vs.
  - rewrite zlen_app. unfold zlen at 2. simpl. lia.
Qed.

Lemma write_edge_holds w t n0 vs v es e :
  writer_holds w t n0 (vs ++ [(v, es)]) ->
  exists w', write_edge cfg debug flags tls w (record_of v e) = Some w' /\
    writer_holds w' t n0 (vs ++ [(v, es ++ [e])]) /\ first_src_ w' = first_src_ w.
Proof.
  intros H. pose proof (buffer_bound _ _ _ _ H) as Hb. destruct H as [Ht Hf Hp Hc Hi [Hl Hcol] Hcur Hfst Hn Hr].
  rewrite all_edges_snoc in *. cbn [snd] in *.
  unfold write_edge. destruct (columns w) as [|c0 cs] eqn:Ecs; [simpl in Hl; lia|]. cbn [head]. simpl_bind.
  destruct (write_properties_hold 0 (c0 :: cs) (all_edges vs ++ es) e) as (cs' & Ew & Hl' & Hcol'); [lia|done|].
  cbn [props_ record_of]. rewrite <- Hl, Ew. simpl_bind.
  rewrite (proj2 (Z.leb_gt _ _)) by lia.
  set (body := Dym.EdgeBody_t _ _ _ _ _ _).
  assert (pod_encode body = ref_body flags tls (zlen (all_edges vs ++ es)) e) as Eb.
  { destruct (Hcol 0%nat c0 eq_refl) as (_ & Hs & _). unfold ref_body, body, body_of_edge. by rewrite Hs. }
  assert (e_file w ++ concat (pod_encode <$> edge_body_buffer_ w ++ [body])
          = concat (ref_bodies flags tls 0 (all_edges vs ++ es ++ [e]))) as Ef.
  { rewrite fmap_app, concat_app, app_assoc, Hf. rewrite (app_assoc (all_edges vs) es), (ref_bodies_app _ _ _ _ [e]), concat_app, Z.add_0_l.
    cbn [fmap list_fmap concat ref_bodies]. by rewrite Eb. }
  assert (zlen (all_edges vs ++ es ++ [e]) = zlen (all_edges vs ++ es) + 1) as El1 by (rewrite !zlen_app; unfold zlen; simpl; lia).
  assert (zlen (edge_body_buffer_ w ++ [body]) = edge_ptr_ w + 1) as El2 by (unfold edge_ptr_; rewrite zlen_app; unfold zlen; simpl; lia).
  assert (forall buffer file,
    file ++ concat (pod_encode <$> buffer) = concat (ref_bodies flags tls 0 (all_edges vs ++ es ++ [e])) ->
    zlen buffer = (zlen (all_edges vs ++ es) + 1) mod (BODY_BUFFER_SIZE cfg - 1) ->
    writer_holds (mkWriter (timestamp_ w) buffer (edge_cnt_ w + 1) (edge_index_buffer_ w) cs' (cur_src_vtx_ w) (first_src_ w)
      (Z.max (newest_edge w) (sequence e)) file) t n0 (vs ++ [(v, es ++ [e])])) as Hmk.
  { intros buffer file Hbf Hbz. split; cbn [timestamp_ edge_body_buffer_ edge_cnt_ edge_index_buffer_ columns cur_src_vtx_
      first_src_ newest_edge e_file]; rewrite ?all_edges_snoc; cbn [snd]; try done.
    - unfold edge_ptr_. cbn [edge_body_buffer_]. by rewrite El1.
    - lia.
    - rewrite Hi, !ref_index_app. done.
    - split; [lia|]. by rewrite app_assoc.
    - rewrite Hcur, !last_snoc. done.
    - rewrite Hfst. by destruct vs.
    - by rewrite (app_assoc (all_edges vs)), newest_of_snoc, Hn.
    - rewrite zlen_app in *. unfold zlen at 2 in Hr. unfold zlen at 2. simpl in *. lia. }
  destruct (Z.leb_spec (BODY_BUFFER_SIZE cfg - 1) (zlen (edge_body_buffer_ w ++ [body]))) as [Hfull|Hfull];
    (eexists; split; [done|]; split; [|done]); apply Hmk; cbn [fmap list_fmap concat]; rewrite ?app_nil_r; try done.
  - rewrite El2 in Hfull. change (zlen (@nil Dym.EdgeBody)) with 0. symmetry.
    assert (edge_ptr_ w = BODY_BUFFER_SIZE cfg - 2) as E by lia. rewrite Hp in E.
    rewrite <- Z.add_mod_idemp_l, E by lia. replace (BODY_BUFFER_SIZE cfg - 2 + 1) with (BODY_BUFFER_SIZE cfg - 1) by lia.
    apply Z.mod_same. lia.
  - rewrite El2 in *. rewrite <- Z.add_mod_idemp_l by lia. rewrite <- Hp. symmetry. apply Z.mod_small. lia.
Qed.
End Facts.
