(* ===== verification/CompactionMerge.v ===== *)
(** * Compaction: the multi-way merge

    [Way] of core/compaction.h, the buffered reader of one input file, and
    [Compaction::ProcessMultiWaysCompaction] of src/compaction.cpp, which merges
    the ways into output files.  The build without [DEL_EDGE_SEPARATE]: deleted
    edges stay in the output as their tombstones.  [None] is an access outside a
    buffer or a failed assertion. *)

From S2P Require Import Prelude.
From S2P Require Import Types.
From S2P Require Import SkipList.
From S2P Require Import EdgeBody.
From S2P Require Import PropertyLayout.
From S2P Require Import Sst.
From S2P Require Import SstBuild.
From S2P Require Import LevelIndex.
From S2P Require Import LsmRead.
From S2P Require Import SstWriter.

(** ** Ways *)

(** The reader of one property column: the bytes consumed so far, the place in
    the buffer, the buffer, and where the column starts for this way. *)
Record PropertyReader := mkPReader {
  prop_read_cnt_ : Z; prop_buffer_ptr_ : Z; property_buffer_ : bytes; property_start_offset_ : Z; p_data : bytes }.

Record Way := mkWay {
  total_edge_cnt_ : Z;
  total_index_cnt_ : Z;
  index_start_offset_ : Z;
  edge_start_offset_ : Z;
  index_cp : list Index;
  e_data : bytes;                      (** the contents behind [e_file_fd] *)
  way_fid_ : Z;
  is_input_0_ : bool;
  index_ptr_ : Z;
  remain_edge_cnt_ : Z;
  body_buffer_ : list Dym.EdgeBody;
  body_ptr_ : Z;
  readers : list PropertyReader;
}.

Section Ways.
Context (cfg : CompactionConfig) (debug : bool) (flags : Flags) (tls : layout).

(** The two constructors: a whole file, and [index_num] index entries of one.
    [p_datas] are the contents of the column files. *)
Definition sub_way (index_num index_offset edge_num fid : Z) (is_input_0 : bool) (indexes : list Index)
    (file : bytes) (p_datas : list bytes) : Way :=
  mkWay edge_num index_num index_offset 0 indexes file fid is_input_0 0 edge_num [] 0
    ((fun d => mkPReader 0 0 [] 0 d) <$> p_datas).

Definition new_way (c : SSTableCache) (data : SstData) (is_input_0 : bool) : Way :=
  sub_way (Sst.index_size (cache_header c)) 0 (Sst.size (cache_header c)) (u32 (timeStamp (cache_header c))) is_input_0
    (cache_indexes c) (edge_data data) (property_data data).

Definition FillBodyBuffer (w : Way) : option Way :=
  let body_cnt := Z.min (BODY_BUFFER_SIZE cfg) (remain_edge_cnt_ w) in
  let off := (total_edge_cnt_ w - remain_edge_cnt_ w) * EDGEBODY_SIZE + edge_start_offset_ w in
  if zlen (e_data w) <? off + body_cnt * EDGEBODY_SIZE then None
  else Some (mkWay (total_edge_cnt_ w) (total_index_cnt_ w) (index_start_offset_ w) (edge_start_offset_ w) (index_cp w)
               (e_data w) (way_fid_ w) (is_input_0_ w) (index_ptr_ w) (remain_edge_cnt_ w)
               (edge_bodies (e_data w) off (Z.to_nat body_cnt)) 0 (readers w)).

Definition FillPropertyBuffer (r : PropertyReader) : option PropertyReader :=
  let buffer := take (Z.to_nat (PROPERTY_BUFFER_SIZE cfg))
                  (drop (Z.to_nat (prop_read_cnt_ r + property_start_offset_ r)) (p_data r)) in
  _ ← assert_ debug (negb (zlen buffer =? 0));
  Some (mkPReader (prop_read_cnt_ r) 0 buffer (property_start_offset_ r) (p_data r)).

Fixpoint init_readers (now_edge_cnt : Z) (i : nat) (rs : list PropertyReader) : option (list PropertyReader) :=
  match rs with
  | [] => Some []
  | r :: rs =>
      let start := u32 (GetSubPropertyOffsetByEdgeOrdinal flags tls now_edge_cnt (Z.of_nat i)) in
      r ← FillPropertyBuffer (mkPReader 0 0 [] start (p_data r));
      rs ← init_readers now_edge_cnt (S i) rs;
      Some (r :: rs)
  end.

Definition Way_Init (w : Way) : option Way :=
  _ ← assert_ debug (total_index_cnt_ w <=? MAX_INDEX_NUM cfg);
  _ ← assert_ debug (0 <? total_index_cnt_ w);
  x ← index_cp w !! Z.to_nat (index_start_offset_ w);
  w ← FillBodyBuffer
        (mkWay (total_edge_cnt_ w) (total_index_cnt_ w) (index_start_offset_ w) (ix_offset x) (index_cp w) (e_data w)
           (way_fid_ w) (is_input_0_ w) (index_start_offset_ w) (remain_edge_cnt_ w) [] 0 (readers w));
  _ ← assert_ debug (0 <? total_edge_cnt_ w);
  rs ← init_readers (edge_start_offset_ w / EDGEBODY_SIZE) 0 (readers w);
  Some (mkWay (total_edge_cnt_ w) (total_index_cnt_ w) (index_start_offset_ w) (edge_start_offset_ w) (index_cp w)
          (e_data w) (way_fid_ w) (is_input_0_ w) (index_ptr_ w) (remain_edge_cnt_ w) (body_buffer_ w) (body_ptr_ w) rs).

Definition EdgeBodyOffset (w : Way) : Z :=
  u32 (edge_start_offset_ w + (total_edge_cnt_ w - remain_edge_cnt_ w) * EDGEBODY_SIZE).

(** The next slot of a column. *)
Definition next_property (i : nat) (r : PropertyReader) : option (bytes * PropertyReader) :=
  let prop_len := slot_len flags tls i in
  r ← (if PROPERTY_BUFFER_SIZE cfg <? prop_buffer_ptr_ r + prop_len then FillPropertyBuffer r else Some r);
  _ ← assert_ debug (prop_len <? 100000);
  prop ← read_at (property_buffer_ r) (prop_buffer_ptr_ r) prop_len;
  Some (prop, mkPReader (prop_read_cnt_ r + prop_len) (prop_buffer_ptr_ r + prop_len) (property_buffer_ r)
                (property_start_offset_ r) (p_data r)).

Fixpoint next_properties (i : nat) (rs : list PropertyReader) : option (list bytes * list PropertyReader) :=
  match rs with
  | [] => Some ([], [])
  | r :: rs =>
      '(prop, r) ← next_property i r;
      '(props, rs) ← next_properties (S i) rs;
      Some (prop :: props, r :: rs)
  end.

Definition with_index_ptr (w : Way) (index_ptr : Z) : Way :=
  mkWay (total_edge_cnt_ w) (total_index_cnt_ w) (index_start_offset_ w) (edge_start_offset_ w) (index_cp w) (e_data w)
    (way_fid_ w) (is_input_0_ w) index_ptr (remain_edge_cnt_ w) (body_buffer_ w) (body_ptr_ w) (readers w).

(** One edge consumed: the buffer is refilled behind its last entry. *)
Definition advance_body (w : Way) : option Way :=
  let w' := mkWay (total_edge_cnt_ w) (total_index_cnt_ w) (index_start_offset_ w) (edge_start_offset_ w) (index_cp w)
              (e_data w) (way_fid_ w) (is_input_0_ w) (index_ptr_ w) (remain_edge_cnt_ w - 1) (body_buffer_ w)
              (body_ptr_ w + 1) (readers w) in
  if body_ptr_ w =? BODY_BUFFER_SIZE cfg - 1 then FillBodyBuffer w' else Some w'.

Definition NextEdgeRecord (w : Way) : option (option EdgeRecord * Way) :=
  next ← index_cp w !! Z.to_nat (index_ptr_ w + 1);
  let crossing := ix_offset next <=? EdgeBodyOffset w in
  let w := if crossing then with_index_ptr w (index_ptr_ w + 1) else w in
  if crossing && (index_start_offset_ w + total_index_cnt_ w - 1 <=? index_ptr_ w) then Some (None, w)
  else
    edge_body ← body_buffer_ w !! Z.to_nat (body_ptr_ w);
    w ← advance_body w;
    '(props, rs) ← next_properties 0 (readers w);
    x ← index_cp w !! Z.to_nat (index_ptr_ w);
    Some (Some (mkRecord (ix_key x) (Dym.get_dst edge_body) (Dym.get_seq edge_body) props (Dym.get_marker edge_body)
                  (Dym.get_is_out edge_body) (Dym.get_edge_type edge_body)),
          mkWay (total_edge_cnt_ w) (total_index_cnt_ w) (index_start_offset_ w) (edge_start_offset_ w) (index_cp w)
            (e_data w) (way_fid_ w) (is_input_0_ w) (index_ptr_ w) (remain_edge_cnt_ w) (body_buffer_ w) (body_ptr_ w) rs).
End Ways.

(** ** [ProcessMultiWaysCompaction] *)

(** A way with the record it has in [edge_cache]; [live] is its [way_status]. *)
Record Lane := mkLane { lane_way : Way; edge_cache : EdgeRecord; live : bool }.

(** The scan for the least record: the first live way, then every live way
    with a smaller record. *)
Fixpoint find_min (ptr : nat) (lanes : list Lane) (best : option (nat * EdgeRecord)) : option (nat * EdgeRecord) :=
  match lanes with
  | [] => best
  | l :: lanes =>
      find_min (S ptr) lanes
        (if live l then
           match best with
           | None => Some (ptr, edge_cache l)
           | Some (_, r) => if record_less (edge_cache l) r then Some (ptr, edge_cache l) else best
           end
         else best)
  end.

Section Merge.
Context (cfg : CompactionConfig) (debug : bool) (flags : Flags) (tls : layout) (property_num : nat).
Context (level min_level_0_fid_ : Z) (input_0_fidset_ : list Z).
(** What the successive [__sync_fetch_and_add(&currentTime, 1)] of this
    compaction return; flushes take ids from the same counter meanwhile. *)
Context (fetch_time : nat -> Z).

Abbreviation Init := (SstWriter.Init property_num).
Abbreviation Write := (SstWriter.Write cfg debug flags tls level min_level_0_fid_ input_0_fidset_).
Abbreviation WriteEnd := (SstWriter.WriteEnd cfg debug level min_level_0_fid_ input_0_fidset_).

(** The writer with the storage and the number of file ids taken. *)
Record Output := mkOutput { out_writer : SSTableWriter; out_storage : Storage; fetched : nat }.

(** A record to the output: a full file is finished and the next one started. *)
Definition emit (o : Output) (r : EdgeRecord) : option Output :=
  '(ok, w, s) ← Write (out_writer o) (out_storage o) r;
  if (ok : bool) then Some (mkOutput w s (fetched o))
  else
    let w := Init w (src_ r) (fetch_time (fetched o)) in
    '(rt, w, s) ← Write w s r;
    _ ← assert_ debug rt;
    Some (mkOutput w s (S (fetched o))).

Fixpoint start_ways (ways : list Way) : option (list Lane) :=
  match ways with
  | [] => Some []
  | w :: ways =>
      w ← Way_Init cfg debug flags tls w;
      '(r, w) ← NextEdgeRecord cfg debug flags tls w;
      r ← r;
      lanes ← start_ways ways;
      Some (mkLane w r true :: lanes)
  end.

(** [while (work_way > 0)]: one record of one way in every iteration. *)
Fixpoint merge_loop (fuel : nat) (lanes : list Lane) (o : Output) : option Output :=
  match find_min 0 lanes None with
  | None => Some o
  | Some (min_way_index, edge_record) =>
      match fuel with
      | O => None
      | S fuel =>
          o ← emit o edge_record;
          l ← lanes !! min_way_index;
          '(r, w) ← NextEdgeRecord cfg debug flags tls (lane_way l);
          let l := match (r : option EdgeRecord) with
                   | None => mkLane w (edge_cache l) false
                   | Some r => mkLane w r (live l)
                   end in
          merge_loop fuel (<[min_way_index := l]> lanes) o
      end
  end.

(** Every iteration consumes an edge of some way. *)
Definition merge_fuel (ways : list Way) : nat := sum_list (Z.to_nat ∘ total_edge_cnt_ <$> ways).

(** The output at the end of the loop. *)
Definition merge_output (ways : list Way) (s : Storage) : option Output :=
  _ ← assert_ debug (0 <? zlen ways);
  lanes ← start_ways ways;
  '(_, first) ← find_min 0 lanes None;
  let w := Init (new_writer property_num) (src_ first) (fetch_time 0) in
  merge_loop (merge_fuel ways) lanes (mkOutput w s 1).

Definition merge_ways (ways : list Way) (s : Storage) : option Storage :=
  o ← merge_output ways s;
  if IsClear (out_writer o) then Some (out_storage o)
  else '(_, s) ← WriteEnd (out_writer o) (out_storage o); Some s.
End Merge.

(** [InsertInput0Fid] for every way of the upper level. *)
Definition input_0_fids (ways : list Way) : list Z := way_fid_ <$> filter (fun w => is_input_0_ w = true) ways.

Definition ProcessMultiWaysCompaction (cfg : CompactionConfig) (debug : bool) (flags : Flags) (tls : layout)
    (property_num : nat) (level min_level_0_fid_ : Z) (fetch_time : nat -> Z) (ways : list Way) (s : Storage)
  : option Storage :=
  merge_ways cfg debug flags tls property_num level min_level_0_fid_ (input_0_fids ways) fetch_time ways s.
