(* ===== verification/CompactionOutput.v ===== *)
(** * Compaction: the output files

    Fed with edges in source order, the writer publishes the images of
    consecutive runs of sources: [pieces] cuts the edges where [Write] finds the
    current file full. *)

From S2P Require Import Prelude.
From S2P Require Import Types.
From S2P Require Import SkipList.
From S2P Require Import EdgeBody.
From S2P Require Import PropertyLayout.
From S2P Require Import Sst.
From S2P Require Import SstBuild.
From S2P Require Import SstBuildFacts.
From S2P Require Import SstBuildTheorems.
From S2P Require Import LevelIndex.
From S2P Require Import LsmRead.
From S2P Require Import SstWriter.
From S2P Require Import CompactionMerge.

Abbreviation Table := (list (Z * list Edge)).

(** ** The reference cut *)

(** An edge appended to the last source of a table. *)
Definition add_to_last (cur : Table) (v : Z) (e : Edge) : Table :=
  take (pred (length cur)) cur ++ [(v, from_option snd [] (list.last cur) ++ [e])].

Definition image_size (vs : Table) : Z :=
  HEADER_SIZE + (zlen (all_edges vs) + 1) * EDGEBODY_SIZE + (zlen vs + 1) * sizeof Index.

Fixpoint pieces (cfg : CompactionConfig) (cur : Table) (F : list (Z * Edge)) : list Table :=
  match F with
  | [] => [cur]
  | (v, e) :: F =>
      if bool_decide (from_option fst kInvalidVertexId (list.last cur) = v) then pieces cfg (add_to_last cur v e) F
      else if MAX_EFILE_SiZE cfg <=? image_size cur then cur :: pieces cfg [(v, [e])] F
      else pieces cfg (cur ++ [(v, [e])]) F
  end.

Definition edges_in (vs : Table) : list (Z * Edge) := concat ((fun v : Z * list Edge => (fun e => (v.1, e)) <$> v.2) <$> vs).

Lemma edges_in_app vs vs' : edges_in (vs ++ vs') = edges_in vs ++ edges_in vs'.
Proof. unfold edges_in. by rewrite fmap_app, concat_app. Qed.

Lemma add_to_last_snoc vs v es e : add_to_last (vs ++ [(v, es)]) v e = vs ++ [(v, es ++ [e])].
Proof.
  unfold add_to_last. rewrite last_snoc, length_app. cbn [length]. replace (pred (length vs + 1)) with (length vs) by lia.
  by rewrite take_app_length.
Qed.

Section Output.
Context (cfg : CompactionConfig) (debug : bool) (flags : Flags) (tls : layout) (property_num : nat).
Context (level min_level_0_fid_ : Z) (fids : list Z) (fetch_time : nat -> Z).
Context (Hcfg : config_ok cfg) (Hpn : (0 < property_num)%nat).
Context (Hslots : forall p, (p < property_num)%nat -> 0 <= slot_len flags tls p < PROPERTY_BUFFER_SIZE cfg).

(** ** The image of an output file *)
Definition end_body (vs : Table) : Dym.EdgeBody :=
  Dym.EdgeBody_t kInvalidVertexId 0 (u32 (zlen (all_edges vs) * slot_len flags tls 0)) false true 0.

Definition compact_file (vs : Table) (timestamp : Z) : bytes :=
  concat (ref_bodies flags tls 0 (all_edges vs)) ++ pod_encode (end_body vs) ++
  concat (pod_encode <$> ref_indexes vs) ++ pod_encode (ref_header vs timestamp).

Definition compact_data (vs : Table) (timestamp : Z) : SstData :=
  mkSst (ref_indexes vs) (compact_file vs timestamp) (ref_column flags tls vs <$> seq 0 property_num).

Definition compact_cache (vs : Table) (timestamp newest : Z) : SSTableCache :=
  mkCache (ref_header vs timestamp) newest (ref_indexes vs).

(** What publishing an output file does to the store. *)
Definition publish (vs : Table) (timestamp newest : Z) (s : Storage) : option Storage :=
  s ← publish_indexes level min_level_0_fid_ fids (u32 timestamp) (ref_indexes vs)
        (mkStorage (fileMetaCache_ s) (vid_to_mullevelIndex_ s) (vertex_max_level_ s)
           (<[timestamp := compact_data vs timestamp]> (sst_data s)));
  publish_file level (compact_cache vs timestamp newest) s.

Fixpoint publish_all (ps : list Table) (k : nat) (n : Z) (s : Storage) : option Storage :=
  match ps with
  | [] => Some s
  | vs :: ps =>
      let n := newest_of n (all_edges vs) in
      s ← publish vs (fetch_time k) n s; publish_all ps (S k) n s
  end.

Abbreviation holds := (writer_holds cfg flags tls property_num).

Lemma WriteEnd_publishes w t n0 vs s :
  holds w t n0 vs -> vs <> [] -> EDGEBODY_SIZE * zlen (all_edges vs) < 2 ^ 32 ->
  exists w', newest_edge w' = newest_of n0 (all_edges vs) /\
    WriteEnd cfg debug level min_level_0_fid_ fids w s
    = (s' ← publish vs t (newest_of n0 (all_edges vs)) s; Some (w', s')).
Proof.
  intros H Hne Hsz. assert (0 <= edge_ptr_ w < BODY_BUFFER_SIZE cfg - 1) as Hb by (by eapply buffer_bound).
  destruct H as [Ht Hf Hp Hc Hi [Hl Hcol] Hcur Hfst Hn Hr].
  unfold WriteEnd. rewrite (assert_holds _ (edge_ptr_ w + 1 <? _)) by lia. simpl_bind. rewrite (proj2 (Z.leb_gt (BODY_BUFFER_SIZE cfg) _)) by lia.
  destruct (columns w) as [|c0 cs] eqn:Ecs; [simpl in Hl; lia|]. cbn [head]. simpl_bind.
  unfold index_cnt_. rewrite Hi, zlen_ref_index.
  rewrite (assert_holds _ (zlen vs + 1 <? _)) by lia. simpl_bind. rewrite (proj2 (Z.leb_gt (MAX_INDEX_NUM cfg) _)) by lia.
  assert (ref_index 0 vs ++ [mkIndex kInvalidVertexId (u32 (edge_cnt_ w * EDGEBODY_SIZE))] = ref_indexes vs) as Eix.
  { unfold ref_indexes, sentinel_index. rewrite Hc, Z.mul_comm, u32_small; [done|].
    pose proof (zlen_nonneg (all_edges vs)). change EDGEBODY_SIZE with 16 in *. lia. }
  rewrite Eix.
  assert (mkHeader_ (timestamp_ w) (edge_cnt_ w + 1) (zlen (ref_indexes vs)) (first_src_ w) (cur_src_vtx_ w)
          = ref_header vs t) as Eh.
  { unfold ref_header. f_equal; [done|by rewrite Hc| | |].
    - unfold ref_indexes. rewrite zlen_app, zlen_ref_index. done.
    - rewrite Hfst. by destruct vs.
    - rewrite Hcur. destruct (list.last vs) eqn:E; [done|]. by apply last_None in E. }
  rewrite Eh.
  destruct (Hcol 0%nat c0 eq_refl) as (_ & Hs0 & _). rewrite Nat.add_0_l in Hs0.
  rewrite Hs0. fold (end_body vs).
  assert ((fun c => p_file c ++ p_file_content_ c) <$> c0 :: cs = ref_column flags tls vs <$> seq 0 property_num) as Ecol.
  { apply list_eq. intros i. rewrite !list_lookup_fmap. destruct ((c0 :: cs) !! i) as [c|] eqn:Ei.
    - rewrite lookup_seq_lt by (rewrite <- Hl; by eapply lookup_lt_Some). cbn. f_equal. by apply (Hcol i).
    - rewrite (proj2 (lookup_ge_None (seq 0 property_num) i)); [done|]. rewrite length_seq, <- Hl. by apply lookup_ge_None. }
  rewrite Ecol.
  assert ((e_file w ++ concat (pod_encode <$> edge_body_buffer_ w ++ [end_body vs])) ++
          concat (pod_encode <$> ref_indexes vs) ++ pod_encode (ref_header vs t) = compact_file vs t) as Ef.
  { unfold compact_file. rewrite fmap_app, concat_app, (app_assoc (e_file w)), Hf. cbn [fmap list_fmap concat].
    by rewrite app_nil_r, <- !app_assoc. }
  rewrite Ef, Ht, Hn. fold (compact_data vs t). fold (compact_cache vs t (newest_of n0 (all_edges vs))).
  eexists (mkWriter _ _ _ _ _ _ _ _ _). split; [|unfold publish; rewrite option_bind_assoc; reflexivity]. done.
Qed.

(** ** Feeding the writer *)
Fixpoint emit_all (o : Output) (rs : list EdgeRecord) : option Output :=
  match rs with
  | [] => Some o
  | r :: rs => o ← emit cfg debug flags tls property_num level min_level_0_fid_ fids fetch_time o r; emit_all o rs
  end.

Abbreviation record_of := (record_of flags tls property_num).
Abbreviation emit := (emit cfg debug flags tls property_num level min_level_0_fid_ fids fetch_time).

(** A table under construction: the sources so far, every one with an edge. *)
Definition filled (vs : Table) : Prop := Forall (fun x => x.2 <> []) vs.

Lemma filled_snoc vs v es e : filled vs -> filled (vs ++ [(v, es ++ [e])]).
Proof. intros H. apply Forall_app. split; [done|]. apply Forall_singleton. cbn [snd]. by destruct es. Qed.

Lemma emit_same w s k t n0 vs v es e :
  holds w t n0 (vs ++ [(v, es)]) ->
  exists w', emit (mkOutput w s k) (record_of v e) = Some (mkOutput w' s k) /\ holds w' t n0 (vs ++ [(v, es ++ [e])]) /\
    first_src_ w' = first_src_ w.
Proof.
  intros H. destruct (write_edge_holds cfg debug flags tls property_num Hcfg Hpn Hslots _ _ _ _ _ _ e H) as (w' & Ew & H' & Ef).
  exists w'. split; [|done]. unfold CompactionMerge.emit, Write. cbn [out_writer out_storage src_ SstWriter.record_of].
  rewrite (wh_cur _ _ _ _ _ _ _ _ H), last_snoc. cbn [from_option fst]. rewrite Z.eqb_refl.
  change (mkRecord v (destination e) (sequence e) ((fun p => ref_slot flags tls p e) <$> seq 0 property_num)
    (marker e) (e_is_out e) (e_edge_type e)) with (record_of v e). rewrite Ew. done.
Qed.

Abbreviation Write := (Write cfg debug flags tls level min_level_0_fid_ fids).

Lemma write_source w s t n0 vs v e :
  holds w t n0 vs -> filled vs -> from_option fst kInvalidVertexId (list.last vs) <> v ->
  image_size vs < MAX_EFILE_SiZE cfg -> first_src_ w = from_option fst v (head vs) ->
  exists w', Write w s (record_of v e) = Some (true, w', s) /\ holds w' t n0 (vs ++ [(v, [e])]) /\ first_src_ w' = first_src_ w.
Proof.
  intros H Hf Hv Hsz Hfst.
  assert (CurSize w = image_size vs) as Ez.
  { unfold CurSize, image_size, index_cnt_. by rewrite (wh_cnt _ _ _ _ _ _ _ _ H), (wh_index _ _ _ _ _ _ _ _ H), zlen_ref_index. }
  destruct (start_source_holds cfg debug flags tls property_num Hcfg Hpn w t n0 vs v) as (w1 & E1 & H1); [done|done|lia|done|].
  destruct (write_edge_holds cfg debug flags tls property_num Hcfg Hpn Hslots _ _ _ _ _ _ e H1) as (w' & Ew & H' & Ef).
  exists w'. assert (first_src_ w1 = first_src_ w) as E1f.
  { revert E1. unfold start_source. destruct (_ <=? _); [done|]. unfold assert_. destruct (_ && _); [done|]. simpl_bind. by intros [= <-]. }
  split_and!; [|done|congruence]. unfold SstWriter.Write. cbn [src_ SstWriter.record_of].
  rewrite (wh_cur _ _ _ _ _ _ _ _ H). rewrite (proj2 (Z.eqb_neq _ _)) by congruence.
  rewrite (proj2 (Z.leb_gt _ _)) by lia. rewrite E1. simpl_bind. fold (record_of v e). rewrite Ew. done.
Qed.

Lemma emit_source w s k t n0 vs v e :
  holds w t n0 vs -> filled vs -> from_option fst kInvalidVertexId (list.last vs) <> v ->
  image_size vs < MAX_EFILE_SiZE cfg -> first_src_ w = from_option fst v (head vs) ->
  exists w', emit (mkOutput w s k) (record_of v e) = Some (mkOutput w' s k) /\ holds w' t n0 (vs ++ [(v, [e])]) /\
    first_src_ w' = first_src_ w.
Proof.
  intros H Hf Hv Hsz Hfst. destruct (write_source w s t n0 vs v e) as (w' & Ew & Hw); [done..|]. exists w'. split; [|done].
  unfold CompactionMerge.emit. cbn [out_writer out_storage]. rewrite Ew. done.
Qed.

Lemma emit_full w s k t n0 vs v e s' :
  holds w t n0 vs -> vs <> [] -> from_option fst kInvalidVertexId (list.last vs) <> v -> kInvalidVertexId <> v ->
  MAX_EFILE_SiZE cfg <= image_size vs -> EDGEBODY_SIZE * zlen (all_edges vs) < 2 ^ 32 ->
  publish vs t (newest_of n0 (all_edges vs)) s = Some s' ->
  exists w', emit (mkOutput w s k) (record_of v e) = Some (mkOutput w' s' (S k)) /\
    holds w' (fetch_time k) (newest_of n0 (all_edges vs)) [(v, [e])] /\ first_src_ w' = v.
Proof.
  intros H Hne Hv Hv' Hsz Hb Hpub.
  assert (CurSize w = image_size vs) as Ez.
  { unfold CurSize, image_size, index_cnt_. by rewrite (wh_cnt _ _ _ _ _ _ _ _ H), (wh_index _ _ _ _ _ _ _ _ H), zlen_ref_index. }
  destruct (WriteEnd_publishes w t n0 vs s H Hne Hb) as (w1 & En & Ew1).
  destruct (write_source (Init property_num w1 v (fetch_time k)) s' (fetch_time k) (newest_edge w1) [] v e)
    as (w' & Ew & Hw & Hf); [by apply init_holds|constructor|done| |done|].
  { pose proof (cfg_file _ Hcfg). unfold image_size. change (zlen (all_edges [])) with 0. change (zlen (@nil (Z * list Edge))) with 0. lia. }
  exists w'. rewrite En in Hw. split_and!; [|done|by rewrite Hf].
  assert (Write w s (record_of v e) = Some (false, w1, s')) as Efull.
  { unfold SstWriter.Write. cbn [src_ SstWriter.record_of].
    rewrite (wh_cur _ _ _ _ _ _ _ _ H), (proj2 (Z.eqb_neq _ _)) by congruence.
    by rewrite (proj2 (Z.leb_le _ _)), Ew1, Hpub by lia. }
  unfold CompactionMerge.emit. cbn [out_writer out_storage fetched]. rewrite Efull. simpl_bind.
  cbn [src_ SstWriter.record_of]. fold (record_of v e). rewrite Ew. simpl_bind. unfold assert_. by rewrite andb_false_r.
Qed.

Lemma pieces_nonempty cur F : exists P last, pieces cfg cur F = P ++ [last].
Proof.
  revert cur. induction F as [|[v e] F IH]; intros cur; cbn [pieces]; [by exists [], cur|].
  case_bool_decide; [apply IH|]. destruct (_ <=? _); [|apply IH].
  destruct (IH [(v, [e])]) as (P & lst & ->). by exists (cur :: P), lst.
Qed.

Definition newest_all (n : Z) (ps : list Table) : Z := foldl (fun n vs => newest_of n (all_edges vs)) n ps.

Lemma emit_all_spec F w k t n0 cur s P lst s' :
  holds w t n0 cur -> filled cur -> Forall (fun x => x.1 <> kInvalidVertexId) F ->
  (first_src_ w = from_option fst (from_option fst 0 (head F)) (head cur)) ->
  EDGEBODY_SIZE * (zlen (all_edges cur) + zlen F) < 2 ^ 32 ->
  pieces cfg cur F = P ++ [lst] ->
  match P with
  | [] => Some s
  | p :: P => s ← publish p t (newest_of n0 (all_edges p)) s; publish_all P k (newest_of n0 (all_edges p)) s
  end = Some s' ->
  exists w' t', emit_all (mkOutput w s k) (uncurry record_of <$> F) = Some (mkOutput w' s' (k + length P)) /\
    holds w' t' (newest_all n0 P) lst /\ filled lst /\ (F <> [] \/ cur <> [] -> lst <> []) /\
    t' = match P with [] => t | _ => fetch_time (k + length P - 1) end.
Proof.
  revert w k t n0 cur s P. induction F as [|[v e] F IH]; intros w k t n0 cur s P H Hf HF Hfst Hsz Ep Hpub.
  { cbn [pieces] in Ep. symmetry in Ep. change [cur] with ([] ++ [cur]) in Ep. apply app_inj_tail in Ep as [-> <-].
    injection Hpub as <-. exists w, t. cbn. rewrite Nat.add_0_r. split_and!; try done. by intros [?|?]. }
  apply Forall_cons in HF as [Hv HF]. cbn [fst] in Hv. cbn [pieces] in Ep. cbn [fmap list_fmap uncurry emit_all].
  assert (zlen ((v, e) :: F) = 1 + zlen F) as Ez by (unfold zlen; simpl; lia). rewrite Ez in Hsz.
  case_bool_decide as Hlast.
  - destruct cur as [|[u es] cur' _] using rev_ind; [cbn in Hlast; congruence|].
    rewrite last_snoc in Hlast. cbn [from_option fst] in Hlast. subst u. rewrite add_to_last_snoc in Ep.
    destruct (emit_same w s k t n0 cur' v es e H) as (w' & -> & H' & Ef). simpl_bind.
    destruct (IH w' k t n0 (cur' ++ [(v, es ++ [e])]) s P) as (w2 & t2 & E2 & Hw2 & Hf2 & Hl2 & Ht2); try done.
    + apply Forall_app in Hf as [Hf _]. by apply filled_snoc.
    + rewrite Ef, Hfst. by destruct cur'.
    + rewrite all_edges_snoc in *. cbn [snd] in *. rewrite !zlen_app in *. unfold zlen at 3. simpl. lia.
    + exists w2, t2. split_and!; try done. intros _. apply Hl2. right. by destruct cur'.
  - destruct (Z.leb_spec (MAX_EFILE_SiZE cfg) (image_size cur)) as [Hfull|Hroom].
    + assert (cur <> []) as Hne.
      { intros ->. pose proof (cfg_file _ Hcfg) as Hc. unfold image_size in Hfull.
        change (zlen (all_edges [])) with 0 in Hfull. change (zlen (@nil (Z * list Edge))) with 0 in Hfull. lia. }
      destruct P as [|p P]; [destruct (pieces_nonempty [(v, [e])] F) as (Q & x & EQ); rewrite EQ in Ep; by destruct Q|].
      injection Ep as <- Ep. apply bind_Some in Hpub as (s1 & Hp1 & Hp2).
      destruct (emit_full w s k t n0 cur v e s1) as (w' & -> & H' & Ef); try done;
        [pose proof (zlen_nonneg F); change EDGEBODY_SIZE with 16 in *; lia|].
      simpl_bind.
      destruct (IH w' (S k) (fetch_time k) (newest_of n0 (all_edges cur)) [(v, [e])] s1 P) as (w2 & t2 & E2 & Hw2 & Hf2 & Hl2 & Ht2); try done.
      * by repeat constructor.
      * pose proof (zlen_nonneg (all_edges cur)). change (zlen (all_edges [(v, [e])])) with 1. change EDGEBODY_SIZE with 16 in *. lia.
      * destruct P as [|p P]; [exact Hp2|]. cbn [publish_all] in Hp2. exact Hp2.
      * exists w2, t2. rewrite E2. cbn [length]. rewrite Nat.add_succ_r. split_and!; try done.
        { intros _. apply Hl2. by right. }
        rewrite Ht2. destruct P; cbn [length]; f_equal; lia.
    + destruct (emit_source w s k t n0 cur v e) as (w' & -> & H' & Ef); try done. simpl_bind.
      destruct (IH w' k t n0 (cur ++ [(v, [e])]) s P) as (w2 & t2 & E2 & Hw2 & Hf2 & Hl2 & Ht2); try done.
      * by apply (filled_snoc cur v [] e).
      * rewrite Ef, Hfst. by destruct cur.
      * rewrite all_edges_snoc. cbn [snd]. rewrite zlen_app. unfold zlen at 2. simpl. lia.
      * exists w2, t2. split_and!; try done. intros _. apply Hl2. right. by destruct cur.
Qed.
End Output.
