(* ===== verification/CompactionWays.v ===== *)
(** * Compaction: what a way reads

    A [Way] over a part of an input file yields exactly the edges of that part,
    in file order, whatever the sizes of its buffers, and then reports its end. *)

From S2P Require Import Prelude.
From S2P Require Import Types.
From S2P Require Import DeltaFileCreate.
From S2P Require Import SkipList.
From S2P Require Import EdgeBody.
From S2P Require Import PropertyLayout.
From S2P Require Import Sst.
From S2P Require Import SstBuild.
From S2P Require Import SstBuildFacts.
From S2P Require Import SstBuildTheorems.
From S2P Require Import LevelIndex.
From S2P Require Import LsmRead.
From S2P Require Import SstWriter.
From S2P Require Import CompactionMerge.
From S2P Require Import CompactionOutput.

(** The records a way returns until it ends. *)
Inductive way_yields (cfg : CompactionConfig) (debug : bool) (flags : Flags) (tls : layout)
  : Way -> list EdgeRecord -> Prop :=
| way_ends w w' : NextEdgeRecord cfg debug flags tls w = Some (None, w') -> way_yields cfg debug flags tls w []
| way_next w w' r rs : NextEdgeRecord cfg debug flags tls w = Some (Some r, w') ->
    way_yields cfg debug flags tls w' rs -> way_yields cfg debug flags tls w (r :: rs).

Lemma slice_take_drop {A} (l : list A) off size ptr len :
  0 <= off -> 0 <= ptr -> 0 <= len -> ptr + len <= size ->
  slice ptr len (take (Z.to_nat size) (drop (Z.to_nat off) l)) = slice (off + ptr) len l.
Proof.
  intros. unfold slice. apply list_eq. intros i. rewrite !lookup_take, !lookup_drop. case_decide; [|done].
  rewrite lookup_take_lt, lookup_drop by lia. f_equal. lia.
Qed.

Section Source.
Context (cfg : CompactionConfig) (debug : bool) (flags : Flags) (tls : layout) (property_num : nat).
Context (Hcfg : config_ok cfg) (Hpn : (0 < property_num)%nat).
(** The build asserts that a slot is below 100000 bytes. *)
Context (Hslots : forall p, (p < property_num)%nat ->
  0 < slot_len flags tls p < Z.min (PROPERTY_BUFFER_SIZE cfg) 100000).

(** The file: the table [A ++ M ++ B], of which the way reads [M]. *)
Context (A M B : Table) (T : Z) (end_ : Dym.EdgeBody) (rest : bytes) (fid : Z) (in0 : bool).
Abbreviation vs := (A ++ M ++ B).
Abbreviation k0 := (length (all_edges A)).
Abbreviation ref_slot := (ref_slot flags tls).
Abbreviation record_of := (record_of flags tls property_num).

Definition stored_bodies : list Dym.EdgeBody := body_list flags tls 0 (all_edges vs) ++ [end_].

Context (HM : M <> []) (Hfill : filled M) (Hfit : Forall (fun v => Forall edge_fits v.2) vs) (Hend : pod_ok end_).
Context (HT : zlen (all_edges M) <= T <= zlen (all_edges (M ++ B)) + 1).
Context (Hsz : sizes_fit flags tls property_num (zlen (all_edges vs))) (Hix : zlen M + 1 <= MAX_INDEX_NUM cfg).

Definition file_bytes : bytes := concat (pod_encode <$> stored_bodies) ++ rest.

Lemma stored_bodies_ok : Forall pod_ok stored_bodies.
Proof.
  apply Forall_app. split; [|by apply Forall_singleton]. by apply body_list_ok, Forall_concat, Forall_fmap.
Qed.

Lemma stored_bodies_length : length stored_bodies = S (length (all_edges vs)).
Proof. unfold stored_bodies. rewrite length_app, body_list_length. simpl. lia. Qed.

Lemma stored_body j e :
  all_edges vs !! j = Some e -> stored_bodies !! j = Some (body_of_edge (u32 (Z.of_nat j * slot_len flags tls 0)) e).
Proof.
  intros Hj. unfold stored_bodies. rewrite lookup_app_l by (rewrite body_list_length; by eapply lookup_lt_Some).
  by rewrite (body_list_lookup _ _ 0 _ _ _ Hj).
Qed.

(** Reading a run of bodies from the file. *)
Lemma read_bodies j n :
  (j + n <= length stored_bodies)%nat ->
  edge_bodies file_bytes (EDGEBODY_SIZE * Z.of_nat j) n = take n (drop j stored_bodies) /\
  EDGEBODY_SIZE * Z.of_nat j + EDGEBODY_SIZE * Z.of_nat n <= zlen file_bytes.
Proof.
  intros Hn. set (mid := take n (drop j stored_bodies)).
  assert (stored_bodies = take j stored_bodies ++ mid ++ drop n (drop j stored_bodies)) as E.
  { unfold mid. by rewrite take_drop, take_drop. }
  assert (length mid = n) as El by (unfold mid; rewrite length_take, length_drop; lia).
  assert (zlen (concat (pod_encode <$> take j stored_bodies)) = EDGEBODY_SIZE * Z.of_nat j) as Ea.
  { change (concat (pod_encode <$> ?l)) with (concat (map pod_encode l)). rewrite concat_pod_zlen. unfold zlen.
    rewrite length_take. change (sizeof Dym.EdgeBody) with 16. change EDGEBODY_SIZE with 16. lia. }
  pose proof (stored_bodies_ok) as Hok. rewrite E in Hok. apply Forall_app in Hok as [_ [Hok _]%Forall_app].
  assert (file_bytes = concat (pod_encode <$> take j stored_bodies) ++ concat (pod_encode <$> mid)
          ++ concat (pod_encode <$> drop n (drop j stored_bodies)) ++ rest) as Ef.
  { unfold file_bytes. rewrite E at 1. by rewrite !fmap_app, !concat_app, <- !app_assoc. }
  split.
  - rewrite Ef, <- Ea. set (tl := _ ++ rest). rewrite <- El. by apply edge_bodies_array.
  - rewrite Ef, !zlen_app, Ea. change (concat (pod_encode <$> mid)) with (concat (map pod_encode mid)).
    rewrite concat_pod_zlen. unfold zlen at 1. rewrite El. change (sizeof Dym.EdgeBody) with 16. change EDGEBODY_SIZE with 16.
    match goal with |- context [zlen ?a + zlen rest] => pose proof (zlen_nonneg a) end. pose proof (zlen_nonneg rest). lia.
Qed.

(** ** The state of a way that has returned [d] edges *)
Definition reader_at (p : nat) (r : PropertyReader) (d : nat) : Prop :=
  let len := slot_len flags tls p in
  p_data r = ref_column flags tls vs p /\ prop_read_cnt_ r = Z.of_nat d * len /\
  property_start_offset_ r = Z.of_nat k0 * len /\
  exists base, 0 <= base <= Z.of_nat d * len /\ prop_buffer_ptr_ r = Z.of_nat d * len - base /\
    property_buffer_ r = take (Z.to_nat (PROPERTY_BUFFER_SIZE cfg))
                           (drop (Z.to_nat (base + Z.of_nat k0 * len)) (ref_column flags tls vs p)).

Record way_at (w : Way) (d : nat) (ip : Z) : Prop := {
  at_total : total_edge_cnt_ w = T;
  at_index_cnt : total_index_cnt_ w = zlen M + 1;
  at_index_start : index_start_offset_ w = zlen A;
  at_edge_start : edge_start_offset_ w = EDGEBODY_SIZE * Z.of_nat k0;
  at_indexes : index_cp w = ref_indexes vs;
  at_data : e_data w = file_bytes;
  at_ip : index_ptr_ w = ip;
  at_remain : remain_edge_cnt_ w = T - Z.of_nat d;
  at_buffer : exists base, (base <= d)%nat /\ body_ptr_ w = Z.of_nat d - Z.of_nat base /\
    body_ptr_ w < BODY_BUFFER_SIZE cfg /\
    body_buffer_ w = take (Z.to_nat (Z.min (BODY_BUFFER_SIZE cfg) (T - Z.of_nat base))) (drop (k0 + base) stored_bodies);
  at_readers : length (readers w) = property_num /\ forall p r, readers w !! p = Some r -> reader_at p r d;
}.

Lemma T_bound : Z.of_nat k0 + T <= Z.of_nat (length stored_bodies).
Proof. rewrite stored_bodies_length, !all_edges_app, !length_app. rewrite all_edges_app, zlen_app in HT. unfold zlen in HT. lia. Qed.

(** ** Property slots *)
Lemma fill_reader p r d :
  (p < property_num)%nat -> (k0 + d < length (all_edges vs))%nat ->
  p_data r = ref_column flags tls vs p -> prop_read_cnt_ r = Z.of_nat d * slot_len flags tls p ->
  property_start_offset_ r = Z.of_nat k0 * slot_len flags tls p ->
  exists r', FillPropertyBuffer cfg debug r = Some r' /\ reader_at p r' d /\ prop_buffer_ptr_ r' = 0.
Proof.
  intros Hp Hd Hdata Hcnt Hstart. specialize (Hslots p Hp). unfold FillPropertyBuffer. rewrite Hdata, Hcnt, Hstart.
  assert (zlen (ref_column flags tls vs p) = zlen (all_edges vs) * slot_len flags tls p) as Ez by (apply zlen_ref_slots; lia).
  rewrite assert_holds.
  - eexists. split; [done|]. split; [|done]. split_and!; cbn; try done.
    exists (Z.of_nat d * slot_len flags tls p). split_and!; [nia|done|lia|done].
  - apply negb_true_iff, Z.eqb_neq. unfold zlen in *. rewrite length_take, length_drop. nia.
Qed.

Lemma next_property_at p r d e :
  (p < property_num)%nat -> all_edges vs !! (k0 + d)%nat = Some e -> reader_at p r d ->
  exists r', next_property cfg debug flags tls p r = Some (ref_slot p e, r') /\ reader_at p r' (S d).
Proof.
  intros Hp He Hr. pose proof (lookup_lt_Some _ _ _ He) as Hlt. pose proof (Hslots p Hp) as Hlen.
  assert (exists r1, (if PROPERTY_BUFFER_SIZE cfg <? prop_buffer_ptr_ r + slot_len flags tls p
                      then FillPropertyBuffer cfg debug r else Some r) = Some r1 /\ reader_at p r1 d /\
                     prop_buffer_ptr_ r1 + slot_len flags tls p <= PROPERTY_BUFFER_SIZE cfg) as (r1 & E1 & H1 & Hb).
  { destruct (Z.ltb_spec (PROPERTY_BUFFER_SIZE cfg) (prop_buffer_ptr_ r + slot_len flags tls p)); [|by exists r].
    destruct Hr as (Hd & Hc & Hs & _). destruct (fill_reader p r d Hp Hlt Hd Hc Hs) as (r1 & -> & H1 & Hz).
    exists r1. split_and!; [done|done|lia]. }
  unfold next_property. rewrite E1. simpl_bind. rewrite assert_holds by lia. simpl_bind.
  destruct H1 as (Hd & Hc & Hs & base & Hbase & Hptr & Hbuf).
  assert (read_at (property_buffer_ r1) (prop_buffer_ptr_ r1) (slot_len flags tls p) = Some (ref_slot p e)) as ->.
  { pose proof (read_slot flags tls vs p (k0 + d) e ltac:(lia) He) as Hr'. apply read_at_inv in Hr' as (Ho & _ & Hz & ->).
    rewrite Hbuf, Hptr. rewrite read_at_Some; [|nia|lia|].
    - f_equal. rewrite slice_take_drop by nia. f_equal. nia.
    - unfold zlen in *. rewrite length_take, length_drop. nia. }
  simpl_bind. eexists. split; [done|]. split_and!; cbn; [done|nia|done|].
  exists base. split_and!; [nia|nia|nia|done].
Qed.

Lemma next_properties_at i rs d e :
  (i + length rs <= property_num)%nat -> all_edges vs !! (k0 + d)%nat = Some e ->
  (forall p r, rs !! p = Some r -> reader_at (i + p) r d) ->
  exists rs', next_properties cfg debug flags tls i rs = Some ((fun p => ref_slot p e) <$> seq i (length rs), rs') /\
    length rs' = length rs /\ forall p r, rs' !! p = Some r -> reader_at (i + p) r (S d).
Proof.
  intros Hl He. revert i Hl. induction rs as [|r rs IH]; intros i Hl Hr; cbn [next_properties length] in *.
  { exists []. split_and!; [done|done|]. intros p r Hp. by rewrite lookup_nil in Hp. }
  pose proof (Hr 0%nat r eq_refl) as Hr0. rewrite Nat.add_0_r in Hr0.
  destruct (next_property_at i r d e ltac:(lia) He Hr0) as (r' & -> & Hr'). simpl_bind.
  destruct (IH (S i) ltac:(lia)) as (rs' & -> & Hl' & Hrs').
  { intros p x Hp. rewrite Nat.add_succ_l, <- Nat.add_succ_r. by apply Hr. }
  simpl_bind. exists (r' :: rs'). split_and!; [done|simpl; by rewrite Hl'|].
  intros [|p] x Hp; cbn in Hp; [injection Hp as <-; by rewrite Nat.add_0_r|].
  rewrite Nat.add_succ_r, <- Nat.add_succ_l. by apply Hrs'.
Qed.

(** ** Bodies *)
Lemma fill_body w d ip :
  total_edge_cnt_ w = T -> index_cp w = ref_indexes vs -> e_data w = file_bytes ->
  total_index_cnt_ w = zlen M + 1 -> index_start_offset_ w = zlen A -> edge_start_offset_ w = EDGEBODY_SIZE * Z.of_nat k0 ->
  index_ptr_ w = ip -> remain_edge_cnt_ w = T - Z.of_nat d -> Z.of_nat d <= T ->
  length (readers w) = property_num -> (forall p r, readers w !! p = Some r -> reader_at p r d) ->
  exists w', FillBodyBuffer cfg w = Some w' /\ way_at w' d ip /\ readers w' = readers w.
Proof.
  intros Ht Hx He Hic His Hes Hip Hrem Hd Hrl Hr. pose proof T_bound as HTb. pose proof (cfg_body _ Hcfg) as Hbb.
  unfold FillBodyBuffer. rewrite Ht, Hrem, Hes, He.
  replace ((T - (T - Z.of_nat d)) * EDGEBODY_SIZE + EDGEBODY_SIZE * Z.of_nat k0)
    with (EDGEBODY_SIZE * Z.of_nat (k0 + d)) by lia.
  set (cnt := Z.min (BODY_BUFFER_SIZE cfg) (T - Z.of_nat d)).
  destruct (read_bodies (k0 + d) (Z.to_nat cnt)) as [Eb Hz]; [lia|]. rewrite Z2Nat.id in Hz by lia.
  rewrite (proj2 (Z.ltb_ge _ _)) by lia. rewrite Eb. eexists. split; [done|]. split; [|done].
  split; cbn; try done. exists d. split_and!; [done|lia|lia|done].
Qed.

Lemma consume w d ip e :
  way_at w d ip -> all_edges vs !! (k0 + d)%nat = Some e -> Z.of_nat d < T ->
  exists b w1 rs, body_buffer_ w !! Z.to_nat (body_ptr_ w) = Some b /\
    b = body_of_edge (u32 (Z.of_nat (k0 + d) * slot_len flags tls 0)) e /\
    advance_body cfg w = Some w1 /\
    next_properties cfg debug flags tls 0 (readers w1) = Some ((fun p => ref_slot p e) <$> seq 0 property_num, rs) /\
    index_cp w1 = ref_indexes vs /\ index_ptr_ w1 = ip /\
    way_at (mkWay (total_edge_cnt_ w1) (total_index_cnt_ w1) (index_start_offset_ w1) (edge_start_offset_ w1) (index_cp w1)
       (e_data w1) (way_fid_ w1) (is_input_0_ w1) (index_ptr_ w1) (remain_edge_cnt_ w1) (body_buffer_ w1) (body_ptr_ w1) rs) (S d) ip.
Proof.
  intros [Ht Hic His Hes Hx He Hip Hrem (base & Hbd & Hptr & Hroom & Hbuf) [Hrl Hr]] Hj HdT.
  destruct (next_properties_at 0 (readers w) d e) as (rs & Ers & Hl' & Hrs); [lia|done|done|]. rewrite Hrl in *.
  exists (body_of_edge (u32 (Z.of_nat (k0 + d) * slot_len flags tls 0)) e).
  assert (body_buffer_ w !! Z.to_nat (body_ptr_ w) = Some (body_of_edge (u32 (Z.of_nat (k0 + d) * slot_len flags tls 0)) e)) as Hb.
  { rewrite Hbuf, Hptr, lookup_take_lt, lookup_drop by lia.
    replace (k0 + base + Z.to_nat (Z.of_nat d - Z.of_nat base))%nat with (k0 + d)%nat by lia. by apply stored_body. }
  unfold advance_body. destruct (Z.eqb_spec (body_ptr_ w) (BODY_BUFFER_SIZE cfg - 1)) as [Hlast|Hmore].
  - (* the readers do not matter to the refill: fill with those of after the edge *)
    set (w' := mkWay _ _ _ _ _ _ _ _ _ _ _ _ _).
    assert (exists w2, FillBodyBuffer cfg (mkWay (total_edge_cnt_ w) (total_index_cnt_ w) (index_start_offset_ w)
       (edge_start_offset_ w) (index_cp w) (e_data w) (way_fid_ w) (is_input_0_ w) (index_ptr_ w) (remain_edge_cnt_ w - 1)
       (body_buffer_ w) (body_ptr_ w + 1) rs) = Some w2 /\ way_at w2 (S d) ip /\ readers w2 = rs) as (w2 & E2 & H2 & Hr2).
    { apply fill_body; cbn; try done; lia. }
    revert E2. unfold FillBodyBuffer, w'. cbn [total_edge_cnt_ remain_edge_cnt_ edge_start_offset_ e_data].
    destruct (_ <? _); [done|]. intros [= <-]. eexists _, rs. by split_and!.
  - eexists _, rs. split_and!; try done. cbn.
    split; cbn; try done; [lia|].
    exists base. split_and!; [lia|lia|lia|done].
Qed.

(** ** Index entries *)
Lemma index_lookup i v es : M !! i = Some (v, es) ->
  ref_indexes vs !! (length A + i)%nat = Some (mkIndex v (EDGEBODY_SIZE * Z.of_nat (k0 + length (all_edges (take i M))))).
Proof.
  intros Hi. set (A' := A ++ take i M). set (B' := drop (S i) M ++ B).
  assert (vs = A' ++ (v, es) :: B') as E.
  { unfold A', B'. rewrite <- (take_drop_middle M i (v, es) Hi) at 1. by rewrite <- !app_assoc. }
  destruct (ref_indexes_split A' B' v es) as (y & Y & Eix & _). rewrite E, Eix.
  assert (length (ref_index 0 A') = (length A + i)%nat) as El.
  { rewrite ref_index_length. unfold A'. rewrite length_app, length_take. apply lookup_lt_Some in Hi. lia. }
  rewrite lookup_app_r, El, Nat.sub_diag by lia. cbn. do 2 f_equal. unfold A', zlen. rewrite all_edges_app, length_app. lia.
Qed.

Lemma index_after i v es : M !! i = Some (v, es) ->
  exists y, ref_indexes vs !! (length A + S i)%nat = Some y /\
    ix_offset y = EDGEBODY_SIZE * Z.of_nat (k0 + length (all_edges (take i M)) + length es).
Proof.
  intros Hi. set (A' := A ++ take i M). set (B' := drop (S i) M ++ B).
  assert (vs = A' ++ (v, es) :: B') as E.
  { unfold A', B'. rewrite <- (take_drop_middle M i (v, es) Hi) at 1. by rewrite <- !app_assoc. }
  destruct (ref_indexes_split A' B' v es) as (y & Y & Eix & Ey). exists y. rewrite E, Eix.
  assert (length (ref_index 0 A') = (length A + i)%nat) as El.
  { rewrite ref_index_length. unfold A'. rewrite length_app, length_take. apply lookup_lt_Some in Hi. lia. }
  split.
  - rewrite lookup_app_r, El by lia. by replace (length A + S i - (length A + i))%nat with 1%nat by lia.
  - rewrite Ey. unfold A', zlen. rewrite all_edges_app, length_app. lia.
Qed.

(** The place of a source of [M] among the edges the way returns. *)
Definition start_of (i : nat) : nat := length (all_edges (take i M)).

Lemma edge_at i v es j e :
  M !! i = Some (v, es) -> es !! j = Some e -> all_edges vs !! (k0 + (start_of i + j))%nat = Some e.
Proof.
  intros Hi Hj. rewrite <- (take_drop_middle M i (v, es) Hi) at 1. rewrite !all_edges_app.
  rewrite lookup_app_r by lia. replace (k0 + (start_of i + j) - k0)%nat with (start_of i + j)%nat by lia.
  unfold start_of. rewrite <- app_assoc. rewrite lookup_app_r by lia.
  replace (_ + j - _)%nat with j by lia. unfold all_edges at 1. cbn [fmap list_fmap concat app snd].
  rewrite <- app_assoc. apply lookup_app_Some. by left.
Qed.

Lemma start_of_S i v es : M !! i = Some (v, es) -> start_of (S i) = (start_of i + length es)%nat.
Proof. intros Hi. unfold start_of. by rewrite (take_S_r _ _ _ Hi), all_edges_snoc, length_app. Qed.

Lemma start_of_le i v es : M !! i = Some (v, es) -> (start_of i + length es <= length (all_edges M))%nat.
Proof.
  intros Hi. rewrite <- (start_of_S _ _ _ Hi). unfold start_of. rewrite <- (take_drop (S i) M) at 2.
  rewrite all_edges_app, length_app. lia.
Qed.

Lemma body_offset w d ip :
  way_at w d ip -> (d <= length (all_edges M))%nat -> EdgeBodyOffset w = EDGEBODY_SIZE * Z.of_nat (k0 + d).
Proof.
  intros H Hd. unfold EdgeBodyOffset. rewrite (at_total _ _ _ H), (at_edge_start _ _ _ H), (at_remain _ _ _ H).
  destruct Hsz as [H16 _]. rewrite !all_edges_app, !zlen_app in H16. unfold zlen in H16.
  change EDGEBODY_SIZE with 16 in *. rewrite u32_small by lia. lia.
Qed.

Lemma way_at_ip w d ip ip' : way_at w d ip -> way_at (with_index_ptr w ip') d ip'.
Proof. intros []. by split. Qed.

(** The record of the edge at the way's position, once the index is right. *)
Lemma next_record w d i v es j e :
  way_at w d (zlen A + Z.of_nat i) -> M !! i = Some (v, es) -> es !! j = Some e -> d = (start_of i + j)%nat ->
  exists w', way_at w' (S d) (zlen A + Z.of_nat i) /\
    (edge_body ← body_buffer_ w !! Z.to_nat (body_ptr_ w);
     w ← advance_body cfg w;
     '(props, rs) ← next_properties cfg debug flags tls 0 (readers w);
     x ← index_cp w !! Z.to_nat (index_ptr_ w);
     Some (Some (mkRecord (ix_key x) (Dym.get_dst edge_body) (Dym.get_seq edge_body) props (Dym.get_marker edge_body)
                  (Dym.get_is_out edge_body) (Dym.get_edge_type edge_body)),
          mkWay (total_edge_cnt_ w) (total_index_cnt_ w) (index_start_offset_ w) (edge_start_offset_ w) (index_cp w)
            (e_data w) (way_fid_ w) (is_input_0_ w) (index_ptr_ w) (remain_edge_cnt_ w) (body_buffer_ w) (body_ptr_ w) rs))
    = Some (Some (record_of v e), w').
Proof.
  intros H Hi Hj ->. pose proof (edge_at _ _ _ _ _ Hi Hj) as He.
  pose proof (start_of_le _ _ _ Hi) as Hle. pose proof (lookup_lt_Some _ _ _ Hj) as Hlt.
  destruct (consume w _ _ e H He) as (b & w1 & rs & Hb & -> & Ha & Hn & Hx & Hp & H'); [unfold zlen in HT; lia|].
  eexists. split; [exact H'|]. rewrite Hb. simpl_bind. rewrite Ha. simpl_bind. rewrite Hn. simpl_bind.
  rewrite Hx, Hp. replace (Z.to_nat (zlen A + Z.of_nat i)) with (length A + i)%nat by (unfold zlen; lia).
  rewrite (index_lookup _ _ _ Hi). simpl_bind.
  assert (edge_fits e) as (Hd & Hs & Ht).
  { assert (Forall edge_fits (all_edges vs)) as Hf by (by apply Forall_concat, Forall_fmap).
    rewrite Forall_forall in Hf. apply Hf. by eapply list_elem_of_lookup_2. }
  destruct (body_accessors (destination e) (sequence e) (u32 (Z.of_nat (k0 + (start_of i + j)) * slot_len flags tls 0))
              (marker e) (e_is_out e) (e_edge_type e) Hd Hs Ht) as (Ed & Es & _ & Em & Eo & Et).
  unfold SstWriter.record_of. unfold body_of_edge. cbn [ix_key]. by rewrite Ed, Es, Em, Eo, Et.
Qed.

Lemma next_in w i v es j e :
  way_at w (start_of i + j) (zlen A + Z.of_nat i) -> M !! i = Some (v, es) -> es !! j = Some e ->
  exists w', NextEdgeRecord cfg debug flags tls w = Some (Some (record_of v e), w') /\
    way_at w' (start_of i + S j) (zlen A + Z.of_nat i).
Proof.
  intros H Hi Hj. pose proof (start_of_le _ _ _ Hi) as Hle. pose proof (lookup_lt_Some _ _ _ Hj) as Hlt.
  destruct (next_record w _ i v es j e H Hi Hj eq_refl) as (w' & H' & E). exists w'. rewrite Nat.add_succ_r. split; [|done].
  destruct (index_after _ _ _ Hi) as (y & Hy & Ey). unfold NextEdgeRecord.
  rewrite (body_offset _ _ _ H) by lia. rewrite (at_indexes _ _ _ H), (at_ip _ _ _ H).
  replace (Z.to_nat (zlen A + Z.of_nat i + 1)) with (length A + S i)%nat by (unfold zlen; lia). rewrite Hy. simpl_bind.
  rewrite (proj2 (Z.leb_gt _ _)); [exact E|]. rewrite Ey. unfold start_of. change EDGEBODY_SIZE with 16. lia.
Qed.

Lemma crossing w i u es :
  way_at w (start_of i + length es) (zlen A + Z.of_nat i) -> M !! i = Some (u, es) ->
  exists y, index_cp w !! Z.to_nat (index_ptr_ w + 1) = Some y /\ ix_offset y <=? EdgeBodyOffset w = true /\
    way_at (with_index_ptr w (index_ptr_ w + 1)) (start_of (S i)) (zlen A + Z.of_nat (S i)).
Proof.
  intros H Hi. pose proof (start_of_le _ _ _ Hi) as Hle. destruct (index_after _ _ _ Hi) as (y & Hy & Ey). exists y.
  rewrite (body_offset _ _ _ H) by lia. rewrite (at_indexes _ _ _ H), (at_ip _ _ _ H).
  replace (Z.to_nat (zlen A + Z.of_nat i + 1)) with (length A + S i)%nat by (unfold zlen; lia).
  split_and!; [done| |].
  - apply Z.leb_le. rewrite Ey. unfold start_of. change EDGEBODY_SIZE with 16. lia.
  - rewrite (start_of_S _ _ _ Hi). replace (zlen A + Z.of_nat i + 1) with (zlen A + Z.of_nat (S i)) by lia. by eapply way_at_ip.
Qed.

Lemma next_cross w i u es v e es' :
  way_at w (start_of i + length es) (zlen A + Z.of_nat i) -> M !! i = Some (u, es) -> M !! S i = Some (v, e :: es') ->
  exists w', NextEdgeRecord cfg debug flags tls w = Some (Some (record_of v e), w') /\
    way_at w' (start_of (S i) + 1) (zlen A + Z.of_nat (S i)).
Proof.
  intros H Hi Hi'. destruct (crossing w i u es H Hi) as (y & Hy & Hc & Hw).
  destruct (next_record _ _ (S i) v (e :: es') 0 e Hw Hi' eq_refl) as (w' & H' & E); [lia|].
  exists w'. rewrite Nat.add_1_r. split; [|done]. unfold NextEdgeRecord. rewrite Hy. simpl_bind. rewrite Hc.
  cbn [with_index_ptr index_start_offset_ total_index_cnt_ index_ptr_ andb].
  rewrite (at_index_start _ _ _ H), (at_index_cnt _ _ _ H), (at_ip _ _ _ H).
  pose proof (lookup_lt_Some _ _ _ Hi'). rewrite (proj2 (Z.leb_gt _ _)) by (unfold zlen; lia).
  rewrite (at_ip _ _ _ H) in E. exact E.
Qed.

Lemma next_end w i u es :
  way_at w (start_of i + length es) (zlen A + Z.of_nat i) -> M !! i = Some (u, es) -> S i = length M ->
  exists w', NextEdgeRecord cfg debug flags tls w = Some (None, w').
Proof.
  intros H Hi Hl. destruct (crossing w i u es H Hi) as (y & Hy & Hc & Hw).
  eexists. unfold NextEdgeRecord. rewrite Hy. simpl_bind. rewrite Hc.
  cbn [with_index_ptr index_start_offset_ total_index_cnt_ index_ptr_ andb].
  rewrite (at_index_start _ _ _ H), (at_index_cnt _ _ _ H), (at_ip _ _ _ H).
  by rewrite (proj2 (Z.leb_le _ _)) by (unfold zlen; lia).
Qed.

(** ** The whole run *)
Definition records (vs : Table) : list EdgeRecord := uncurry record_of <$> edges_in vs.

Lemma records_cons v es vs : records ((v, es) :: vs) = (record_of v <$> es) ++ records vs.
Proof.
  unfold records. change ((v, es) :: vs) with ([(v, es)] ++ vs). rewrite edges_in_app, fmap_app. f_equal.
  unfold edges_in. cbn [fmap list_fmap concat fst snd]. rewrite app_nil_r, <- list_fmap_compose. done.
Qed.

Lemma yields_from m i v es j w :
  M !! i = Some (v, es) -> length M = (i + S m)%nat -> (j <= length es)%nat ->
  way_at w (start_of i + j) (zlen A + Z.of_nat i) ->
  way_yields cfg debug flags tls w ((record_of v <$> drop j es) ++ records (drop (S i) M)).
Proof.
  revert i v es j w. induction m as [|m IH]; intros i v es j w Hi Hl Hj; remember (length es - j)%nat as k eqn:Hk;
    revert j w Hj Hk; induction k as [|k IHk]; intros j w Hj Hk H.
  2,4: destruct (lookup_lt_is_Some_2 es j ltac:(lia)) as [e He]; destruct (next_in w i v es j e H Hi He) as (w' & E & H');
       rewrite (drop_S _ _ _ He); cbn [fmap list_fmap app]; eapply way_next; [exact E|]; apply IHk; [lia|lia|exact H'].
  - assert (j = length es) as -> by lia. rewrite drop_all, drop_ge by lia.
    destruct (next_end w i v es H Hi ltac:(lia)) as [w' E]. by eapply way_ends.
  - assert (j = length es) as -> by lia. rewrite drop_all. cbn [fmap list_fmap app].
    destruct (lookup_lt_is_Some_2 M (S i) ltac:(lia)) as [[u es'] Hi'].
    assert (es' <> []) as Hne.
    { unfold filled in Hfill. rewrite Forall_forall in Hfill. apply (Hfill (u, es')). by eapply list_elem_of_lookup_2. }
    destruct es' as [|e es']; [done|]. rewrite (drop_S _ _ _ Hi'), records_cons. cbn [fmap list_fmap app].
    destruct (next_cross w i v es u e es' H Hi Hi') as (w' & E & H'). eapply way_next; [exact E|].
    apply (IH (S i) u (e :: es') 1%nat w'); [done|lia|simpl; lia|done].
Qed.

(** The way as the compaction constructs it. *)
Abbreviation raw_way := (sub_way (zlen M + 1) (zlen A) T fid in0 (ref_indexes vs) file_bytes
  (ref_column flags tls vs <$> seq 0 property_num)).

Lemma first_edge : exists v e es, M !! 0%nat = Some (v, e :: es).
Proof.
  destruct M as [|[v [|e es]] M'] eqn:E; [done| |by eexists _, _, _]. apply Forall_cons in Hfill as [H _]. done.
Qed.

Lemma init_readers_at i rs :
  (i + length rs = property_num)%nat ->
  (forall p r, rs !! p = Some r -> p_data r = ref_column flags tls vs (i + p)) ->
  exists rs', init_readers cfg debug flags tls (Z.of_nat k0) i rs = Some rs' /\ length rs' = length rs /\
    forall p r, rs' !! p = Some r -> reader_at (i + p) r 0.
Proof.
  revert i. induction rs as [|r rs IH]; intros i Hl Hr; cbn [init_readers length] in *.
  { exists []. split_and!; [done|done|]. intros p r Hp. by rewrite lookup_nil in Hp. }
  destruct (first_edge) as (v & e & es & Hv). pose proof (edge_at 0 v (e :: es) 0 e Hv eq_refl) as He%lookup_lt_Some.
  unfold start_of in He. cbn in He. pose proof (Hr 0%nat r eq_refl) as Hr0. rewrite Nat.add_0_r in Hr0.
  assert (u32 (GetSubPropertyOffsetByEdgeOrdinal flags tls (Z.of_nat k0) (Z.of_nat i)) = Z.of_nat k0 * slot_len flags tls i) as Es.
  { destruct Hsz as [_ Hcol]. destruct (Hcol i ltac:(lia)) as [H0 Hb]. unfold GetSubPropertyOffsetByEdgeOrdinal.
    fold (slot_len flags tls i). unfold zlen in Hb. unfold u64. rewrite wrap_small by (unfold fits; nia). apply u32_small. nia. }
  rewrite Es. edestruct (fill_reader i (mkPReader 0 0 [] (Z.of_nat k0 * slot_len flags tls i) (p_data r)) 0)
    as (r' & -> & Hr' & _); [lia|lia|exact Hr0|done|done|]. simpl_bind.
  destruct (IH (S i)) as (rs' & -> & Hl' & Hrs'); [lia|intros p x Hp; rewrite Nat.add_succ_l, <- Nat.add_succ_r; by apply Hr|].
  simpl_bind. exists (r' :: rs'). split_and!; [done|simpl; by rewrite Hl'|].
  intros [|p] x Hp; cbn in Hp; [injection Hp as <-; by rewrite Nat.add_0_r|].
  rewrite Nat.add_succ_r, <- Nat.add_succ_l. by apply Hrs'.
Qed.

(** A way returns the edges of its part of the file. *)
Lemma way_reads :
  exists w, Way_Init cfg debug flags tls raw_way = Some w /\ way_yields cfg debug flags tls w (records M).
Proof.
  destruct first_edge as (v & e & es & Hv). pose proof (index_lookup _ _ _ Hv) as Hx.
  pose proof (edge_at 0 v (e :: es) 0 e Hv eq_refl) as He%lookup_lt_Some.
  pose proof (zlen_nonneg M). unfold Way_Init. cbn [sub_way total_index_cnt_ index_start_offset_ index_cp].
  rewrite !assert_holds by lia. simpl_bind. rewrite Nat.add_0_r in Hx.
  replace (Z.to_nat (zlen A)) with (length A) by (unfold zlen; lia). rewrite Hx. simpl_bind. cbn [ix_offset take].
  unfold all_edges at 2. cbn [fmap list_fmap concat length]. rewrite Nat.add_0_r.
  set (rs0 := (fun d => mkPReader 0 0 [] 0 d) <$> (ref_column flags tls vs <$> seq 0 property_num)).
  destruct (init_readers_at 0 rs0) as (rs & Ers & Hrl & Hrs).
  { unfold rs0. by rewrite !length_fmap, length_seq. }
  { intros p r Hp. unfold rs0 in Hp. rewrite !list_lookup_fmap in Hp. destruct (seq 0 property_num !! p) as [q|] eqn:Eq; [|done].
    apply lookup_seq in Eq as [-> _]. injection Hp as <-. done. }
  assert (length rs = property_num) as Hrl' by (rewrite Hrl; unfold rs0; by rewrite !length_fmap, length_seq).
  assert (exists w2, FillBodyBuffer cfg (mkWay T (zlen M + 1) (zlen A) (EDGEBODY_SIZE * Z.of_nat k0) (ref_indexes vs) file_bytes
    fid in0 (zlen A) T [] 0 rs) = Some w2 /\ way_at w2 0 (zlen A) /\ readers w2 = rs) as (w2 & E2 & H2 & Hr2).
  { apply fill_body; cbn; try done; [lia|]. pose proof (zlen_nonneg (all_edges M)). lia. }
  revert E2. unfold FillBodyBuffer. cbn [total_edge_cnt_ remain_edge_cnt_ edge_start_offset_ e_data sub_way readers way_fid_ is_input_0_].
  destruct (_ <? _); [done|]. intros [= <-]. simpl_bind.
  rewrite assert_holds. 2:{ apply Z.ltb_lt. pose proof (start_of_le _ _ _ Hv) as Hle. unfold zlen in HT. simpl in Hle. cbn. lia. }
  simpl_bind. cbn [edge_start_offset_ readers].
  replace (EDGEBODY_SIZE * Z.of_nat k0 / EDGEBODY_SIZE) with (Z.of_nat k0) by (by rewrite Z.mul_comm, Z.div_mul).
  unfold rs0 in Ers. rewrite Ers. simpl_bind.
  eexists. split; [reflexivity|]. pose proof (yields_from (pred (length M)) 0 v (e :: es) 0) as Hy.
  cbn [drop] in Hy.
  assert (M = (v, e :: es) :: drop 1 M) as EM by (rewrite <- (drop_S M _ 0 Hv); done). 
  assert (records M = (record_of v <$> e :: es) ++ records (drop 1 M)) as -> by (rewrite EM at 1; apply records_cons).
  apply Hy; [done|apply lookup_lt_Some in Hv; lia|lia|]. unfold start_of. cbn [take Nat.add]. rewrite Z.add_0_r. exact H2.
Qed.
End Source.
