(* ===== verification/CompactionTheorems.v ===== *)
(** * Compaction: the order of the merge

    The multi-way merge emits a sorted permutation of what its ways yield; when
    no two edges agree in source, destination and sequence there is only one. *)

From S2P Require Import Prelude.
From S2P Require Import Types.
From S2P Require Import SkipList.
From S2P Require Import PropertyLayout.
From S2P Require Import SstBuild.
From S2P Require Import SstBuildFacts.
From S2P Require Import LsmRead.
From S2P Require Import SstWriter.
From S2P Require Import CompactionMerge.
From S2P Require Import CompactionOutput.
From S2P Require Import CompactionWays.
From S2P Require Import SkipListFacts.
From S2P Require Import EdgeBody.
From S2P Require Import Sst.
From S2P Require Import SstBuildTheorems.
From S2P Require Import LevelIndex.

(** ** The order of records *)
Definition record_le (a b : EdgeRecord) : Prop := record_less b a = false.

Lemma record_le_spec a b :
  record_le a b <-> src_ a < src_ b \/ src_ a = src_ b /\ (dst_ a < dst_ b \/ dst_ a = dst_ b /\ seq_ b <= seq_ a).
Proof.
  unfold record_le, record_less.
  destruct (Z.ltb_spec (src_ b) (src_ a)), (Z.eqb_spec (src_ b) (src_ a)), (Z.ltb_spec (dst_ b) (dst_ a)),
    (Z.eqb_spec (dst_ b) (dst_ a)), (Z.ltb_spec (seq_ a) (seq_ b)); split; intros; try done; lia.
Qed.

Lemma record_le_trans a b c : record_le a b -> record_le b c -> record_le a c.
Proof. rewrite !record_le_spec. lia. Qed.

Lemma record_le_total a b : record_le a b \/ record_le b a.
Proof. rewrite !record_le_spec. lia. Qed.

Lemma record_less_le a b : record_less a b = true -> record_le a b.
Proof.
  rewrite record_le_spec. unfold record_less.
  destruct (Z.ltb_spec (src_ a) (src_ b)), (Z.eqb_spec (src_ a) (src_ b)), (Z.ltb_spec (dst_ a) (dst_ b)),
    (Z.eqb_spec (dst_ a) (dst_ b)); intros; try done; lia.
Qed.

(** ** [find_min] *)
Lemma find_min_spec lanes ptr best :
  (forall i r, best = Some (i, r) -> (i < ptr)%nat) ->
  match find_min ptr lanes best with
  | None => best = None /\ Forall (fun l => live l = false) lanes
  | Some (i, r) =>
      (best = Some (i, r) \/ exists l, (ptr <= i)%nat /\ lanes !! (i - ptr)%nat = Some l /\ live l = true /\ edge_cache l = r) /\
      (forall j x, best = Some (j, x) -> record_le r x) /\
      Forall (fun l => live l = true -> record_le r (edge_cache l)) lanes
  end.
Proof.
  revert ptr best. induction lanes as [|l lanes IH]; intros ptr best Hb; cbn [find_min].
  { destruct best as [[i r]|]; [|by split]. split_and!; [by left| |constructor].
    intros j x [= -> ->]. destruct (record_le_total x x); done. }
  set (best' := if live l then _ else best).
  assert (forall i r, best' = Some (i, r) -> (i < S ptr)%nat) as Hb'.
  { intros i r. unfold best'. destruct (live l); [|intros E; specialize (Hb i r E); lia].
    destruct best as [[j x]|]; [|intros [= <- <-]; lia]. specialize (Hb j x eq_refl).
    destruct (record_less _ _); intros [= <- <-]; lia. }
  specialize (IH (S ptr) best' Hb'). destruct (find_min (S ptr) lanes best') as [[i r]|].
  - destruct IH as (Hsrc & Hle & Hall).
    assert (forall j x, best = Some (j, x) -> record_le r x) as Hbest.
    { intros j x ->. unfold best' in Hle. destruct (live l); [|by apply (Hle j)].
      destruct (record_less (edge_cache l) x) eqn:E; [|by apply (Hle j)].
      eapply record_le_trans; [by apply (Hle ptr)|by apply record_less_le]. }
    split_and!; [|done|].
    + destruct Hsrc as [E|(l' & Hp & Hl & Hlive & Hc)].
      * unfold best' in E. destruct (live l) eqn:El; [|by left]. destruct best as [[j x]|].
        { destruct (record_less (edge_cache l) x); [|by left]. injection E as <- <-. right. exists l.
          rewrite Nat.sub_diag. by split_and!. }
        injection E as <- <-. right. exists l. rewrite Nat.sub_diag. by split_and!.
      * right. exists l'. split_and!; [lia| |done|done]. by replace (i - ptr)%nat with (S (i - S ptr)) by lia.
    + constructor; [|done]. intros El. unfold best' in Hle. rewrite El in Hle. destruct best as [[j x]|]; [|by apply (Hle ptr)].
      destruct (record_less (edge_cache l) x) eqn:E; [by apply (Hle ptr)|].
      eapply record_le_trans; [by apply (Hle j)|]. exact E.
  - destruct IH as [E Hall]. unfold best' in E. destruct (live l) eqn:El.
    + destruct best as [[j x]|]; [|done]. by destruct (record_less _ _).
    + split; [done|by constructor].
Qed.

(** ** The loop *)
Section Loop.
Context (cfg : CompactionConfig) (debug : bool) (flags : Flags) (tls : layout) (property_num : nat).
Context (level min_level_0_fid_ : Z) (fids : list Z) (fetch_time : nat -> Z).
Abbreviation loop := (merge_loop cfg debug flags tls property_num level min_level_0_fid_ fids fetch_time).
Abbreviation emits := (emit_all cfg debug flags tls property_num level min_level_0_fid_ fids fetch_time).

(** What a lane still has to give. *)
Definition lane_stream (l : Lane) (rs : list EdgeRecord) : Prop :=
  if live l then exists rest, rs = edge_cache l :: rest /\ way_yields cfg debug flags tls (lane_way l) rest else rs = [].

Abbreviation sorted := (StronglySorted record_le).

Lemma concat_take_out (Ss : list (list EdgeRecord)) i r rest :
  Ss !! i = Some (r :: rest) -> concat Ss ≡ₚ r :: concat (<[i := rest]> Ss).
Proof.
  intros Hi. rewrite <- (take_drop_middle Ss i (r :: rest) Hi) at 1.
  rewrite insert_take_drop by (by eapply lookup_lt_Some). rewrite !concat_app. cbn [concat app]. symmetry. apply Permutation_middle.
Qed.

Lemma merge_loop_emits fuel lanes Ss :
  Forall2 lane_stream lanes Ss -> (length (concat Ss) <= fuel)%nat ->
  exists F, (forall o, loop fuel lanes o = emits o F) /\ head F = snd <$> find_min 0 lanes None /\
    F ≡ₚ concat Ss /\ (Forall sorted Ss -> sorted F).
Proof.
  revert lanes Ss. induction fuel as [|fuel IH]; intros lanes Ss Hl Hfuel; cbn [merge_loop].
  all: pose proof (find_min_spec lanes 0 None ltac:(done)) as Hmin; destruct (find_min 0 lanes None) as [[i r]|].
  2,4: destruct Hmin as [_ Hdead]; exists []; split_and!; [done|done| |constructor];
       assert (Forall (fun S => S = []) Ss) as Hnil by
         (clear -Hl Hdead; induction Hl as [|l S lanes Ss Hl Hls IH]; [constructor|];
          apply Forall_cons in Hdead as [Hd Hdead]; constructor; [unfold lane_stream in Hl; by rewrite Hd in Hl|by apply IH]);
       clear -Hnil; induction Hnil as [|S Ss -> _ IH]; [done|exact IH].
  all: destruct Hmin as ([?|(l & _ & Hi & Hlive & Hc)] & _ & Hmin); [done|]; rewrite Nat.sub_0_r in Hi.
  all: destruct (Forall2_lookup_l _ _ _ _ _ Hl Hi) as (S0 & HS & Hst); unfold lane_stream in Hst; rewrite Hlive in Hst;
       destruct Hst as (rest & -> & Hy); rewrite Hc in HS; pose proof (concat_take_out _ _ _ _ HS) as Hperm.
  { rewrite Hperm in Hfuel. simpl in Hfuel. lia. }
  rewrite Hperm in Hfuel. cbn [length] in Hfuel.
  assert (exists w' l', NextEdgeRecord cfg debug flags tls (lane_way l)
      = Some (match rest with [] => None | x :: _ => Some x end, w') /\
    l' = match rest with [] => mkLane w' (edge_cache l) false | x :: _ => mkLane w' x (live l) end /\ lane_stream l' rest)
    as (w' & l' & En & El' & Hl').
  { inversion Hy as [w1 w2 E|w1 w2 x rs E Hy']; subst.
    - exists w2, (mkLane w2 (edge_cache l) false). by split_and!.
    - exists w2, (mkLane w2 x (live l)). split_and!; [done|done|]. unfold lane_stream. cbn. rewrite Hlive. by eexists. }
  destruct (IH (<[i := l']> lanes) (<[i := rest]> Ss)) as (F & Eloop & _ & HF & HFs); [by apply Forall2_insert|lia|].
  exists (r :: F). split_and!.
  - intros o. cbn [emit_all]. destruct (emit _ _ _ _ _ _ _ _ _ o r) as [o'|]; simpl_bind; [|done].
    rewrite Hi. simpl_bind. rewrite En. simpl_bind. rewrite <- Eloop, El'. by destruct rest.
  - done.
  - by rewrite HF, Hperm.
  - intros Hs. pose proof Hs as Hs'. rewrite Forall_forall in Hs'.
    assert (sorted (r :: rest)) as [Hrs Hr]%StronglySorted_inv by (apply Hs'; by eapply list_elem_of_lookup_2).
    constructor; [apply HFs, Forall_insert; [done|exact Hrs]|].
    rewrite HF. apply Forall_concat, Forall_insert; [|done].
    rewrite Forall_lookup. intros j S Hj. destruct (Forall2_lookup_r _ _ _ _ _ Hl Hj) as (lj & Hlj & Hst).
    unfold lane_stream in Hst. destruct (live lj) eqn:Elj; [|by subst]. destruct Hst as (restj & -> & _).
    rewrite Forall_lookup in Hmin. specialize (Hmin j lj Hlj Elj).
    assert (sorted (edge_cache lj :: restj)) as [_ Hcj]%StronglySorted_inv by (apply Hs'; by eapply list_elem_of_lookup_2).
    constructor; [done|]. eapply Forall_impl; [exact Hcj|]. intros x Hx. by eapply record_le_trans.
Qed.
End Loop.

(** ** Compaction: the merge of the input files

    [ProcessMultiWaysCompaction] on files that hold tables publishes the merged
    table: all edges of the inputs in (source, destination, newest first) order,
    cut into files at source boundaries. *)

(** ** The merged table *)
Definition edge_before (a b : Z * Edge) : Prop :=
  a.1 < b.1 \/ a.1 = b.1 /\ (destination a.2 < destination b.2 \/ destination a.2 = destination b.2 /\ sequence b.2 <= sequence a.2).
#[export] Instance edge_before_dec a b : Decision (edge_before a b).
Proof. unfold edge_before. apply _. Defined.
#[export] Instance edge_before_trans : Transitive edge_before.
Proof. intros a b c. unfold edge_before. lia. Qed.
#[export] Instance edge_before_total : Total edge_before.
Proof. intros a b. unfold edge_before. lia. Qed.

Definition merged (tables : list Table) : list (Z * Edge) := merge_sort edge_before (concat (edges_in <$> tables)).

(** No two edges agree in source, destination and sequence. *)
Definition edge_key (x : Z * Edge) : Z * Z * Z := (x.1, destination x.2, sequence x.2).
Definition distinct_edges (F : list (Z * Edge)) : Prop := NoDup (edge_key <$> F).

Lemma distinct_eq F a b :
  distinct_edges F -> a ∈ F -> b ∈ F -> edge_key a = edge_key b -> a = b.
Proof.
  intros Hd [i Hi]%list_elem_of_lookup [j Hj]%list_elem_of_lookup E.
  assert (i = j) as -> by (apply (NoDup_lookup _ i j (edge_key a) Hd); rewrite list_lookup_fmap; [by rewrite Hi|by rewrite Hj, E]).
  congruence.
Qed.

Lemma merged_perm tables : merged tables ≡ₚ concat (edges_in <$> tables).
Proof. apply merge_sort_Permutation. Qed.

Lemma merged_sorted tables : StronglySorted edge_before (merged tables).
Proof. apply StronglySorted_merge_sort; apply _. Qed.

Lemma merged_unique tables F :
  distinct_edges (concat (edges_in <$> tables)) -> F ≡ₚ concat (edges_in <$> tables) -> StronglySorted edge_before F ->
  F = merged tables.
Proof.
  intros Hd HF Hs. apply (StronglySorted_unique_strong edge_before); [|done|apply merged_sorted|by rewrite HF, merged_perm].
  intros a b Ha Hb H1 H2. rewrite HF in Ha. rewrite merged_perm in Hb. unfold edge_before in *.
  apply (distinct_eq (concat (edges_in <$> tables))); [done|done|done|]. unfold edge_key. f_equal; [f_equal|]; lia.
Qed.

Lemma edges_in_cons v es vs : edges_in ((v, es) :: vs) = ((fun e => (v, e)) <$> es) ++ edges_in vs.
Proof. done. Qed.

Lemma edges_in_elem vs v e : (v, e) ∈ edges_in vs <-> exists es, (v, es) ∈ vs /\ e ∈ es.
Proof.
  induction vs as [|[u es] vs IH].
  { split; [by intros ?%elem_of_nil|]. by intros (? & ?%elem_of_nil & _). }
  rewrite edges_in_cons, elem_of_app, list_elem_of_fmap, IH. split.
  - intros [(x & [= -> ->] & Hx)|(es' & H1 & H2)]; [exists es; split; [left|done]|exists es'; split; [by right|done]].
  - intros (es' & [[= -> ->]|H1]%elem_of_cons & H2); [left; by exists e|right; by exists es'].
Qed.

Lemma edges_in_length vs : length (edges_in vs) = length (all_edges vs).
Proof.
  induction vs as [|[v es] vs IH]; [done|]. rewrite edges_in_cons, length_app, length_fmap, IH.
  unfold all_edges. cbn [fmap list_fmap concat snd]. by rewrite length_app.
Qed.

(** The pieces hold the edges they were cut from, in order. *)
Lemma pieces_edges cfg cur F :
  Forall (fun x => x.1 <> kInvalidVertexId) F -> edges_in (concat (pieces cfg cur F)) = edges_in cur ++ F.
Proof.
  intros HF. revert cur. induction HF as [|[v e] F Hv HF IH]; intros cur; cbn [pieces].
  { cbn [concat]. by rewrite !app_nil_r. }
  case_bool_decide as Hl.
  - destruct cur as [|[u es] cur _] using rev_ind; [cbn in *; congruence|]. rewrite last_snoc in Hl. cbn in Hl. subst u.
    rewrite add_to_last_snoc, IH, !edges_in_app, <- !app_assoc. f_equal. rewrite !edges_in_cons, fmap_app, <- !app_assoc. done.
  - destruct (_ <=? _).
    + cbn [concat]. rewrite edges_in_app, IH. done.
    + rewrite IH, edges_in_app, <- app_assoc. done.
Qed.

Lemma pieces_filled cfg cur F : filled cur -> Forall filled (pieces cfg cur F).
Proof.
  revert cur. induction F as [|[v e] F IH]; intros cur Hc; cbn [pieces]; [by constructor|].
  case_bool_decide; [|destruct (_ <=? _); [constructor; [done|]|]]; apply IH.
  - unfold add_to_last. apply filled_snoc. by apply Forall_take.
  - by repeat constructor.
  - by apply (filled_snoc cur v [] e).
Qed.

Lemma pieces_all_nonempty cfg cur F : F <> [] \/ cur <> [] -> config_ok cfg -> Forall (fun vs => vs <> []) (pieces cfg cur F).
Proof.
  intros H Hcfg. revert cur H. induction F as [|[v e] F IH]; intros cur H; cbn [pieces].
  { constructor; [|constructor]. by destruct H. }
  case_bool_decide; [|destruct (Z.leb_spec (MAX_EFILE_SiZE cfg) (image_size cur)) as [Hf|Hf]; [constructor|]].
  - apply IH. right. unfold add_to_last. by intros [_ ?]%app_eq_nil.
  - intros ->. pose proof (cfg_file _ Hcfg). unfold image_size in Hf. change (zlen (all_edges [])) with 0 in Hf.
    change (zlen (@nil (Z * list Edge))) with 0 in Hf. lia.
  - apply IH. by right.
  - apply IH. right. by intros [_ ?]%app_eq_nil.
Qed.

(** The sources of the pieces increase. *)
Lemma pieces_sources cfg cur F :
  StronglySorted Z.lt cur.*1 -> StronglySorted Z.le F.*1 -> (forall k x, k ∈ cur.*1 -> x ∈ F -> k <= x.1) ->
  StronglySorted Z.lt (concat (pieces cfg cur F)).*1 /\
  forall k, k ∈ (concat (pieces cfg cur F)).*1 -> k ∈ cur.*1 \/ k ∈ F.*1.
Proof.
  revert cur. induction F as [|[v e] F IH]; intros cur Hc HF Hle; cbn [pieces].
  { cbn [concat]. rewrite app_nil_r. split; [done|by left]. }
  cbn [fmap list_fmap fst] in HF. apply StronglySorted_inv in HF as [HF Hv].
  assert (forall x, x ∈ F -> v <= x.1) as Hv'.
  { intros x Hx. rewrite Forall_fmap, Forall_forall in Hv. by apply Hv. }
  assert (forall k, k ∈ cur.*1 -> from_option fst kInvalidVertexId (list.last cur) <> v -> k < v) as Hnew.
  { intros k Hk Hne. destruct cur as [|[u es] cur _] using rev_ind; [by apply elem_of_nil in Hk|].
    rewrite last_snoc in Hne. cbn in Hne. rewrite fmap_app in *. cbn [fmap list_fmap fst] in *.
    assert (u <= v) by (apply (Hle u (v, e)); [apply elem_of_app; right; left|left]).
    apply elem_of_app in Hk as [Hk|Hk%list_elem_of_singleton]; [|lia].
    apply StronglySorted_app in Hc as (Hc & _ & _). specialize (Hc k u Hk ltac:(left)). lia. }
  case_bool_decide as Hl; [|destruct (_ <=? _)].
  - assert ((add_to_last cur v e).*1 = cur.*1 \/ cur = []) as [E|E].
    { destruct cur as [|[u es] cur _] using rev_ind; [by right|left]. rewrite last_snoc in Hl. cbn in Hl. subst u.
      by rewrite add_to_last_snoc, !fmap_app. }
    + destruct (IH (add_to_last cur v e)) as [H1 H2]; [by rewrite E|done|rewrite E; intros; apply Hle; [done|by right]|].
      split; [done|]. intros k Hk. apply H2 in Hk as [Hk|Hk]; [left; by rewrite <- E|right; by right].
    + subst cur. cbn [add_to_last app] in *. destruct (IH [(v, [e])]) as [H1 H2];
        [repeat constructor|done|intros k x Hk%list_elem_of_singleton Hx; subst k; by apply Hv'|].
      split; [exact H1|]. intros k Hk. apply H2 in Hk as [Hk%list_elem_of_singleton|Hk]; right; [rewrite Hk; left|by right].
  - destruct (IH [(v, [e])]) as [H1 H2]; [repeat constructor|done|intros k x Hk%list_elem_of_singleton Hx; subst k; by apply Hv'|].
    assert (forall k, k ∈ (concat (pieces cfg [(v, [e])] F)).*1 -> v <= k) as Hge.
    { intros k Hk. apply H2 in Hk as [Hk%list_elem_of_singleton|Hk]; [by rewrite Hk|].
      apply list_elem_of_fmap in Hk as (x & -> & Hx). by apply Hv'. }
    cbn [concat]. rewrite fmap_app. split.
    + apply StronglySorted_app. split_and!; [|done|done]. intros a b Ha Hb. specialize (Hnew a Ha Hl). specialize (Hge b Hb). lia.
    + intros k [Hk|Hk]%elem_of_app; [by left|]. apply H2 in Hk as [Hk%list_elem_of_singleton|Hk]; right; [rewrite Hk; left|by right].
  - destruct (IH (cur ++ [(v, [e])])) as [H1 H2].
    + rewrite fmap_app. apply StronglySorted_app. split_and!; [|done|repeat constructor].
      intros a b Ha ->%list_elem_of_singleton. by apply Hnew.
    + done.
    + rewrite fmap_app. intros k x Hk Hx. apply elem_of_app in Hk as [Hk|Hk%list_elem_of_singleton]; [apply Hle; [done|by right]|].
      subst k. by apply Hv'.
    + split; [done|]. intros k [Hk|Hk]%H2; [|right; by right]. rewrite fmap_app in Hk.
      apply elem_of_app in Hk as [Hk|Hk%list_elem_of_singleton]; [by left|right; rewrite Hk; left].
Qed.

(** A table in order is read in order. *)
Lemma edges_in_sorted vs : flush_input_ok vs -> StronglySorted edge_before (edges_in vs).
Proof.
  intros [Hs Hf]. induction vs as [|[v es] vs IH]; [constructor|].
  apply StronglySorted_inv in Hs as [Hs Hv]. apply Forall_cons in Hf as [(_ & _ & He) Hf]. cbn [snd] in He.
  rewrite edges_in_cons. apply StronglySorted_app. split_and!; [| |by apply IH].
  - intros a [u e] (x & -> & Hx)%list_elem_of_fmap (es' & Hu & _)%edges_in_elem. left.
    rewrite Forall_forall in Hv. apply (Hv _ Hu).
  - clear -He. induction He as [|e es Hs IH He]; [constructor|]. cbn [fmap list_fmap]. constructor; [done|].
    apply Forall_fmap. eapply Forall_impl; [exact He|]. intros x Hx. right. split; [done|]. cbn. unfold edge_less in Hx.
    destruct (Z.ltb_spec (destination e) (destination x)); [by left|]. right.
    destruct (Z.eqb_spec (destination e) (destination x)); [|done]. split; [done|]. lia.
Qed.

Section Merge.
Context (cfg : CompactionConfig) (debug : bool) (flags : Flags) (tls : layout) (property_num : nat).
Context (level min_level_0_fid_ : Z) (fetch_time : nat -> Z).
Abbreviation record_of := (record_of flags tls property_num).
Abbreviation records := (records flags tls property_num).

Lemma record_le_before a b : record_le (uncurry record_of a) (uncurry record_of b) <-> edge_before a b.
Proof. rewrite record_le_spec. destruct a, b. done. Qed.

Lemma records_sorted F : StronglySorted record_le (uncurry record_of <$> F) <-> StronglySorted edge_before F.
Proof.
  induction F as [|x F IH]; [split; constructor|]. cbn [fmap list_fmap]. split.
  - intros [Hs Hx]%StronglySorted_inv. constructor; [by apply IH|]. rewrite Forall_fmap in Hx.
    eapply Forall_impl; [exact Hx|]. intros y Hy. by apply record_le_before.
  - intros [Hs Hx]%StronglySorted_inv. constructor; [by apply IH|]. apply Forall_fmap.
    eapply Forall_impl; [exact Hx|]. intros y Hy. by apply record_le_before.
Qed.

(** ** Input files *)

(** A file that holds a table: what a flush or a compaction leaves. *)
Record holds_table (vs : Table) (c : SSTableCache) (d : SstData) : Prop := {
  ht_header : cache_header c = ref_header vs (timeStamp (cache_header c));
  ht_indexes : cache_indexes c = ref_indexes vs;
  ht_bodies : exists end_ rest, pod_ok end_ /\
    edge_data d = concat (pod_encode <$> body_list flags tls 0 (all_edges vs) ++ [end_]) ++ rest;
  ht_columns : property_data d = ref_column flags tls vs <$> seq 0 property_num;
}.

(** Flushed files and compacted files hold their tables. *)
Lemma body_file_split vs sentinel tail :
  concat (ref_bodies flags tls 0 (all_edges vs)) ++ pod_encode sentinel ++ tail
  = concat (pod_encode <$> body_list flags tls 0 (all_edges vs) ++ [sentinel]) ++ tail.
Proof. rewrite body_list_bytes, fmap_app, concat_app. cbn [fmap list_fmap concat]. by rewrite app_nil_r, <- app_assoc. Qed.

Lemma flushed_holds_table vs timestamp q :
  holds_table vs (mkCache (ref_header vs timestamp) q (ref_indexes vs))
    (mkSst (ref_indexes vs) (ref_file flags tls vs timestamp) (ref_column flags tls vs <$> seq 0 property_num)).
Proof.
  split; [done|done| |done]. eexists _, _. split; [|apply body_file_split]. by apply constructed_pod_ok.
Qed.

Lemma compacted_holds_table vs timestamp newest :
  holds_table vs (compact_cache vs timestamp newest) (compact_data flags tls property_num vs timestamp).
Proof.
  split; [done|done| |done]. eexists _, _. split; [|apply body_file_split]. by apply constructed_pod_ok.
Qed.

Definition table_ok (vs : Table) : Prop :=
  flushable flags tls property_num vs /\ flush_input_ok vs /\ filled vs /\ zlen vs + 1 <= MAX_INDEX_NUM cfg.

Record InputFile := mkInput { in_table : Table; in_cache : SSTableCache; in_data : SstData; in_0 : bool }.
Definition input_ok (f : InputFile) : Prop := table_ok (in_table f) /\ holds_table (in_table f) (in_cache f) (in_data f).
Definition way_of (f : InputFile) : Way := new_way (in_cache f) (in_data f) (in_0 f).

Context (Hcfg : config_ok cfg) (Hpn : (0 < property_num)%nat).
Context (Hslots : forall p, (p < property_num)%nat ->
  0 < slot_len flags tls p < Z.min (PROPERTY_BUFFER_SIZE cfg) 100000).

Lemma input_reads f :
  input_ok f ->
  exists w, Way_Init cfg debug flags tls (way_of f) = Some w /\ way_yields cfg debug flags tls w (records (in_table f)).
Proof.
  intros [((Hne & Hsz & _) & [Hs Hf] & Hfill & Hix) [H1 H3 (end_ & rest & Hend & Hd) H5]].
  assert ([] ++ in_table f ++ [] = in_table f) as E by (by rewrite app_nil_l, app_nil_r).
  destruct (way_reads cfg debug flags tls property_num Hcfg Hpn Hslots [] (in_table f) [] (zlen (all_edges (in_table f)) + 1)
    end_ rest (u32 (timeStamp (cache_header (in_cache f)))) (in_0 f)) as (w & Ew & Hw); rewrite ?E, ?app_nil_r; try done.
  - eapply Forall_impl; [exact Hf|]. simpl. tauto.
  - lia.
  - exists w. split; [|done]. revert Ew. unfold way_of, new_way.
    rewrite H1, H3, H5, Hd. cbn [Sst.size Sst.index_size ref_header timeStamp].
    unfold file_bytes, stored_bodies. by rewrite E.
Qed.

Lemma start_ways_streams files :
  Forall input_ok files ->
  exists lanes, start_ways cfg debug flags tls (way_of <$> files) = Some lanes /\
    Forall2 (lane_stream cfg debug flags tls) lanes (records ∘ in_table <$> files).
Proof.
  induction 1 as [|f files Hf Hfs (lanes & IH1 & IH2)]; [by exists []|]. cbn [fmap list_fmap start_ways].
  destruct (input_reads f Hf) as (w & -> & Hy). simpl_bind.
  destruct Hf as [(Hfl & _ & Hfill & _) _]. destruct Hfl as (Hne & _).
  destruct (in_table f) as [|[v [|e es]] vs] eqn:Et; [done|by apply Forall_cons in Hfill as [? _]|].
  rewrite records_cons in Hy. cbn [fmap list_fmap app] in Hy. inversion Hy as [|w1 w2 r rs E Hy']; subst.
  rewrite E. simpl_bind. rewrite IH1. simpl_bind. eexists. split; [done|]. constructor; [|done].
  unfold lane_stream. cbn [live edge_cache lane_way]. eexists. split; [|exact Hy'].
  unfold compose. rewrite Et, records_cons. done.
Qed.

Lemma fuel_enough files :
  Forall input_ok files -> (length (concat (records ∘ in_table <$> files)) <= merge_fuel (way_of <$> files))%nat.
Proof.
  induction 1 as [|f files [_ [H1 _ _ _]] Hfs IH]; [done|]. unfold merge_fuel in *. cbn [fmap list_fmap concat sum_list].
  rewrite length_app. change (sum_list (?x :: ?l)) with (x + sum_list l)%nat.
  unfold compose at 1 3. unfold way_of at 1, new_way. cbn [sub_way total_edge_cnt_]. rewrite H1. cbn [Sst.size ref_header].
  unfold CompactionWays.records at 1. rewrite length_fmap, edges_in_length. unfold zlen. unfold id. apply Nat.add_le_mono; [lia|exact IH].
Qed.

Lemma concat_records (ts : list Table) : concat (records <$> ts) = uncurry record_of <$> concat (edges_in <$> ts).
Proof.
  induction ts as [|t ts IH]; [done|]. cbn [fmap list_fmap concat]. rewrite fmap_app. by f_equal.
Qed.

(** The records the merge emits are those of the merged table. *)
Lemma merge_emits fids files lanes :
  Forall input_ok files -> distinct_edges (concat (edges_in ∘ in_table <$> files)) ->
  Forall2 (lane_stream cfg debug flags tls) lanes (records ∘ in_table <$> files) ->
  let F := merged (in_table <$> files) in
  (forall o, merge_loop cfg debug flags tls property_num level min_level_0_fid_ fids fetch_time (merge_fuel (way_of <$> files)) lanes o
    = emit_all cfg debug flags tls property_num level min_level_0_fid_ fids fetch_time o (uncurry record_of <$> F)) /\
  snd <$> find_min 0 lanes None = uncurry record_of <$> head F.
Proof.
  intros Hok Hd Hl F.
  destruct (merge_loop_emits cfg debug flags tls property_num level min_level_0_fid_ fids fetch_time _ lanes _ Hl (fuel_enough _ Hok))
    as (R & Eloop & Ehead & Hperm & Hsort).
  rewrite (list_fmap_compose in_table records), concat_records in Hperm.
  rewrite (list_fmap_compose in_table edges_in) in Hd.
  apply Permutation_map_inv in Hperm as (G & -> & HG). change (map ?f ?l) with (f <$> l) in *.
  assert (G = F) as ->.
  { apply merged_unique; [done|by symmetry|]. apply records_sorted, Hsort. apply Forall_fmap.
    eapply Forall_impl; [exact Hok|]. intros f [(_ & Hin & _) _]. cbn. by apply records_sorted, edges_in_sorted. }
  split; [exact Eloop|]. rewrite <- Ehead. by destruct F.
Qed.

(** ** The whole merge *)
Abbreviation publish_all fids := (publish_all flags tls property_num level min_level_0_fid_ fids fetch_time).
Abbreviation publish fids := (publish flags tls property_num level min_level_0_fid_ fids).

Lemma publish_all_app fids P Q k n s :
  publish_all fids (P ++ Q) k n s = (s1 ← publish_all fids P k n s; publish_all fids Q (k + length P) (newest_all n P) s1).
Proof.
  revert k n s. induction P as [|vs P IH]; intros k n s; cbn [app CompactionOutput.publish_all length].
  { by rewrite Nat.add_0_r. }
  destruct (publish fids vs (fetch_time k) (newest_of n (all_edges vs)) s) as [s1|]; simpl_bind; [|done].
  by rewrite IH, Nat.add_succ_r.
Qed.

Lemma merged_keys files :
  Forall input_ok files -> Forall (fun x => 0 <= x.1 < kInvalidVertexId) (merged (in_table <$> files)).
Proof.
  intros Hok. rewrite merged_perm. apply Forall_concat. rewrite !Forall_fmap. eapply Forall_impl; [exact Hok|].
  intros f [(_ & [_ Hf] & _) _]. cbn. rewrite Forall_forall. intros [v e] (es & Hv & _)%edges_in_elem.
  rewrite Forall_forall in Hf. by apply (Hf (v, es)).
Qed.

(** The loop ends with every output file but the last in the store, and the last
    one in the writer. *)
Lemma merge_ends files s P lst s1 :
  let fids := input_0_fids (way_of <$> files) in
  let F := merged (in_table <$> files) in
  files <> [] -> Forall input_ok files -> distinct_edges (concat (edges_in ∘ in_table <$> files)) ->
  EDGEBODY_SIZE * zlen F < 2 ^ 32 -> pieces cfg [] F = P ++ [lst] -> publish_all fids P 0 0 s = Some s1 ->
  exists w, merge_output cfg debug flags tls property_num level min_level_0_fid_ fids fetch_time (way_of <$> files) s = Some (mkOutput w s1 (S (length P))) /\
    writer_holds cfg flags tls property_num w (fetch_time (length P)) (newest_all 0 P) lst /\ lst <> [] /\
    IsClear w = (zlen (all_edges lst) mod (BODY_BUFFER_SIZE cfg - 1) =? 0).
Proof.
  intros fids F Hne Hok Hd Hsz Ep Hpub.
  destruct (start_ways_streams files Hok) as (lanes & Estart & Hl).
  destruct (merge_emits fids files lanes Hok Hd Hl) as [Eloop Ehead]. fold F in Eloop, Ehead.
  assert (exists v e F', F = (v, e) :: F') as (v & e & F' & EF).
  { destruct F as [|[v e] F'] eqn:EF; [|by eexists _, _, _]. exfalso.
    pose proof (merged_perm (in_table <$> files)) as Hp. fold F in Hp. rewrite EF in Hp.
    apply Permutation_nil_l in Hp || apply Permutation_nil in Hp. destruct files as [|f files]; [done|].
    apply Forall_cons in Hok as [[((Hne' & _) & _ & Hfill & _) _] _]. cbn [fmap list_fmap concat] in Hp.
    destruct (in_table f) as [|[u [|x es]] vs]; [done|by apply Forall_cons in Hfill as [? _]|done]. }
  assert (find_min 0 lanes None <> None) as Hmin by (intros E; rewrite E, EF in Ehead; done).
  destruct (find_min 0 lanes None) as [[i r]|] eqn:Efm; [|done]. rewrite EF in Ehead. cbn in Ehead. injection Ehead as ->.
  unfold merge_output. fold fids. rewrite assert_holds.
  2:{ apply Z.ltb_lt. unfold zlen. rewrite length_fmap. destruct files; [done|]. simpl. lia. }
  rewrite Estart. simpl_bind. rewrite Efm. simpl_bind. change (src_ (record_of v e)) with v. rewrite Eloop.
  destruct (emit_all_spec cfg debug flags tls property_num level min_level_0_fid_ fids fetch_time Hcfg Hpn
    ltac:(intros; specialize (Hslots p); lia) F (Init property_num (new_writer property_num) v (fetch_time 0)) 1 (fetch_time 0) 0 []
    s P lst s1) as (w' & t' & -> & Hw & Hfl & Hlne & Ht); try done.
  - apply init_holds; [done|done|]. intros p Hp. specialize (Hslots p Hp). lia.
  - constructor.
  - eapply Forall_impl; [by apply merged_keys|]. cbn. lia.
  - by rewrite EF.
  - by destruct P.
  - exists w'. assert (t' = fetch_time (length P)) as -> by (rewrite Ht; destruct P; [done|]; f_equal; simpl; lia).
    split_and!; [done|done|apply Hlne; left; by rewrite EF|]. unfold IsClear. by rewrite (wh_ptr _ _ _ _ _ _ _ _ Hw).
Qed.

(** What the merge of the files leaves in the store: every output file but the
    last, and the last one if its body buffer is not empty at the end. *)
Lemma merge_publishes files s P lst s1 :
  let fids := input_0_fids (way_of <$> files) in
  let F := merged (in_table <$> files) in
  files <> [] -> Forall input_ok files -> distinct_edges (concat (edges_in ∘ in_table <$> files)) ->
  EDGEBODY_SIZE * zlen F < 2 ^ 32 -> pieces cfg [] F = P ++ [lst] -> publish_all fids P 0 0 s = Some s1 ->
  ProcessMultiWaysCompaction cfg debug flags tls property_num level min_level_0_fid_ fetch_time (way_of <$> files) s
  = (if zlen (all_edges lst) mod (BODY_BUFFER_SIZE cfg - 1) =? 0 then Some s1
     else publish fids lst (fetch_time (length P)) (newest_of (newest_all 0 P) (all_edges lst)) s1).
Proof.
  intros fids F Hne Hok Hd Hsz Ep Hpub. destruct (merge_ends files s P lst s1 Hne Hok Hd Hsz Ep Hpub) as (w & Eo & Hw & Hlne & Hclear).
  unfold ProcessMultiWaysCompaction, merge_ways. fold fids in Eo |- *. rewrite Eo. simpl_bind. cbn [out_writer out_storage]. rewrite Hclear.
  destruct (_ =? 0); [done|].
  destruct (WriteEnd_publishes cfg debug flags tls property_num level min_level_0_fid_ fids Hcfg Hpn w _ _ lst s1 Hw) as (w2 & _ & ->); [done| |by destruct (publish _ _ _ _ _)].
  assert (zlen (all_edges lst) <= zlen F) as Hle.
  { assert (edges_in (concat (pieces cfg [] F)) = F) as <-.
    { rewrite pieces_edges; [done|]. eapply Forall_impl; [by apply merged_keys|]. cbn. lia. }
    unfold zlen. rewrite <- edges_in_length, Ep, concat_app, edges_in_app, length_app. cbn [concat]. rewrite app_nil_r. lia. }
  change EDGEBODY_SIZE with 16 in *. lia.
Qed.
End Merge.
