(* ===== verification/CompactionPublish.v ===== *)
(** * Compaction: what publication does to the store

    [WriteEnd] never fails on a vertex of the index; it redirects the level
    index of exactly the sources of the file, adds the file to the next level in
    key order and leaves the rest of the store alone. *)

From S2P Require Import Prelude.
From S2P Require Import Types.
From S2P Require Import SkipList.
From S2P Require Import PropertyLayout.
From S2P Require Import Sst.
From S2P Require Import SstBuild.
From S2P Require Import SstBuildFacts.
From S2P Require Import SstBuildTheorems.
From S2P Require Import LevelIndex.
From S2P Require Import LsmRead.
From S2P Require Import SstWriter.
From S2P Require Import CompactionMerge.
From S2P Require Import CompactionOutput.
From S2P Require Import CompactionWays.
From S2P Require Import CompactionTheorems.

(** An entry has a slot for every level. *)
Definition index_wf (x : MulLevelIndex) : Prop := length (levels x) = Z.to_nat LEVEL_INDEX_SIZE.

Definition storage_wf (s : Storage) : Prop := forall v, 0 <= v -> index_wf (entry (vid_to_mullevelIndex_ s) v).

(** The vertices the level index has a block for. *)
Definition has_block (s : Storage) (v : Z) : Prop :=
  0 <= v /\ Z.shiftr v kBlockShift < block_count_ (vid_to_mullevelIndex_ s).

Lemma update_level_Some x level f d :
  0 <= level -> levels x !! Z.to_nat level = Some d ->
  update_level x level f = Some (mkMulLevel (<[Z.to_nat level := f d]> (levels x)) (min_level_0_fid x)).
Proof. intros H0 Hd. unfold update_level, at_level. rewrite (proj2 (Z.ltb_ge _ _)) by lia. by rewrite Hd. Qed.

(** The three stores of a level's entry. *)
Lemma set_levels ls m level fid o n :
  0 <= level < LEVEL_INDEX_SIZE -> index_wf (mkMulLevel ls m) ->
  (findex ← set_fileID (mkMulLevel ls m) level fid; findex ← set_offset findex level o; set_next_offset findex level n)
  = Some (mkMulLevel (<[Z.to_nat level := mkLevel fid o n]> ls) m).
Proof.
  intros Hlevel Hl. unfold index_wf in Hl. cbn [levels] in Hl. destruct (lookup_lt_is_Some_2 ls (Z.to_nat level)) as [d Hd]; [lia|].
  unfold set_fileID. rewrite (update_level_Some _ _ _ d) by (done || lia). simpl_bind. cbn [levels min_level_0_fid].
  unfold set_offset. erewrite update_level_Some; [|lia|cbn; apply list_lookup_insert_eq; lia]. simpl_bind. cbn [levels min_level_0_fid].
  unfold set_next_offset. erewrite update_level_Some; [|lia|cbn; apply list_lookup_insert_eq; rewrite length_insert; lia].
  cbn. by rewrite !list_insert_insert_eq.
Qed.

Section Publish.
Context (level min_level_0_fid_ : Z) (fids : list Z).
Context (Hlevel : 0 <= level < LEVEL_INDEX_SIZE).

(** The new entry of a source of the output file. *)
Definition relocated (fid offset next_offset : Z) (x : MulLevelIndex) : MulLevelIndex :=
  let ls := match levels x !! Z.to_nat (level - 1) with
            | Some d => if (0 <? level) && bool_decide (lv_fileID d ∈ fids)
                        then <[Z.to_nat (level - 1) := mkLevel INVALID_File_ID (lv_offset d) (lv_next_offset d)]> (levels x)
                        else levels x
            | None => levels x
            end in
  mkMulLevel (<[Z.to_nat level := mkLevel fid offset next_offset]> ls)
    (if level =? 0 then u32 (min_level_0_fid_ + 1) else min_level_0_fid x).

Lemma relocate_relocated fid o n x :
  index_wf x -> relocate level min_level_0_fid_ fids fid o n x = Some (relocated fid o n x) /\ index_wf (relocated fid o n x).
Proof.
  intros Hw. unfold index_wf in *. change (Z.to_nat LEVEL_INDEX_SIZE) with 4%nat in *. change LEVEL_INDEX_SIZE with 4 in Hlevel.
  assert (forall ls m, length ls = 4%nat ->
    (findex ← set_fileID (mkMulLevel ls m) level fid; findex ← set_offset findex level o; set_next_offset findex level n)
    = Some (mkMulLevel (<[Z.to_nat level := mkLevel fid o n]> ls) m)) as Hset by (intros ls m Hl; by apply set_levels).
  unfold relocate, relocated. destruct (Z.ltb_spec 0 level) as [Hl|Hl].
  - destruct (lookup_lt_is_Some_2 (levels x) (Z.to_nat (level - 1))) as [d Hd]; [lia|].
    unfold get_fileID, at_level. rewrite (proj2 (Z.ltb_ge _ _)), Hd by lia. cbn [fmap option_fmap option_map]. simpl_bind.
    replace (level =? 0) with false by lia. cbn [andb].
    case_bool_decide.
    + assert (set_fileID x (level - 1) INVALID_File_ID = Some (mkMulLevel (<[Z.to_nat (level - 1) :=
          mkLevel INVALID_File_ID (lv_offset d) (lv_next_offset d)]> (levels x)) (min_level_0_fid x))) as ->
        by (unfold set_fileID; rewrite (update_level_Some _ _ _ d); [done|lia|done]). simpl_bind.
      rewrite Hset by (by rewrite length_insert). cbn [levels]. by rewrite !length_insert.
    + simpl_bind. destruct x as [ls m]. cbn [levels min_level_0_fid] in *. rewrite Hset by done. by rewrite length_insert.
  - assert (level = 0) as -> by lia. simpl_bind. cbn [Z.eqb]. unfold set_min_level_0_fid. rewrite Hset by done.
    cbn [andb]. destruct (levels x !! _); cbn [levels]; by rewrite length_insert.
Qed.

(** The range an index gives a source. *)
Fixpoint indexed (ixs : list Index) (v : Z) : option (Z * Z) :=
  match ixs with
  | x :: (y :: _) as rest => if ix_key x =? v then Some (ix_offset x, ix_offset y) else indexed rest v
  | _ => None
  end.

Lemma indexed_key ixs v o n : indexed ixs v = Some (o, n) -> v ∈ ix_key <$> ixs.
Proof.
  induction ixs as [|x [|y rest] IH]; [done|done|]. cbn [indexed fmap list_fmap].
  destruct (Z.eqb_spec (ix_key x) v) as [<-|]; intros H; [left|right; by apply IH].
Qed.

Lemma indexed_lookup ixs i x y :
  NoDup (ix_key <$> ixs) -> ixs !! i = Some x -> ixs !! S i = Some y -> indexed ixs (ix_key x) = Some (ix_offset x, ix_offset y).
Proof.
  revert i. induction ixs as [|z [|z' rest] IH]; intros i Hnd Hx Hy; [done|by destruct i|].
  cbn [indexed]. destruct i as [|i].
  - cbn in Hx, Hy. injection Hx as ->. injection Hy as ->. by rewrite Z.eqb_refl.
  - cbn [fmap list_fmap] in Hnd. apply NoDup_cons in Hnd as [Hz Hnd]. rewrite (proj2 (Z.eqb_neq _ _)).
    + by apply (IH i).
    + intros E. apply Hz. rewrite E. change (ix_key x ∈ ix_key <$> z' :: rest). apply list_elem_of_fmap. exists x. split; [done|]. by apply (list_elem_of_lookup_2 _ i).
Qed.

Lemma publish_indexes_cons fid x y rest s :
  publish_indexes level min_level_0_fid_ fids fid (x :: y :: rest) s =
  ('(a, findex) ← lazy_get (vid_to_mullevelIndex_ s) (ix_key x);
   findex ← relocate level min_level_0_fid_ fids fid (ix_offset x) (ix_offset y) findex;
   a ← lazy_set a (ix_key x) findex;
   publish_indexes level min_level_0_fid_ fids fid (y :: rest)
     (mkStorage (fileMetaCache_ s) a
        (<[ix_key x := MemTable.write_max (default 0 (vertex_max_level_ s !! ix_key x)) (level + 2)]> (vertex_max_level_ s))
        (sst_data s))).
Proof. done. Qed.

Lemma indexed_cons x y rest v :
  indexed (x :: y :: rest) v = if ix_key x =? v then Some (ix_offset x, ix_offset y) else indexed (y :: rest) v.
Proof. done. Qed.

Definition located_entry (fid : Z) (ixs : list Index) (v : Z) (x : MulLevelIndex) : MulLevelIndex :=
  match indexed ixs v with Some (o, n) => relocated fid o n x | None => x end.

Lemma publish_indexes_spec fid ixs s :
  storage_wf s -> NoDup (ix_key <$> ixs) -> Forall (fun x => ix_key x = kInvalidVertexId \/ has_block s (ix_key x)) ixs ->
  (forall i x, ixs !! i = Some x -> ix_key x = kInvalidVertexId -> S i = length ixs) ->
  exists a vm, publish_indexes level min_level_0_fid_ fids fid ixs s = Some (mkStorage (fileMetaCache_ s) a vm (sst_data s)) /\
    block_count_ a = block_count_ (vid_to_mullevelIndex_ s) /\
    forall v, 0 <= v -> entry a v = located_entry fid ixs v (entry (vid_to_mullevelIndex_ s) v).
Proof.
  revert s. induction ixs as [|x [|y rest] IH]; intros s Hw Hnd Hb Hlast.
  1,2: exists (vid_to_mullevelIndex_ s), (vertex_max_level_ s); split_and!; [by destruct s|done|done].
  apply Forall_cons in Hb as [Hx Hb]. destruct Hx as [Hx|[Hx0 Hx1]]; [specialize (Hlast 0%nat x eq_refl Hx); done|].
  cbn [fmap list_fmap] in Hnd. apply NoDup_cons in Hnd as [Hnx Hnd].
  rewrite publish_indexes_cons. destruct (lazy_get_spec (vid_to_mullevelIndex_ s) (ix_key x) Hx1) as (a1 & -> & He1 & Hc1 & _). simpl_bind.
  destruct (relocate_relocated fid (ix_offset x) (ix_offset y) (entry (vid_to_mullevelIndex_ s) (ix_key x))) as [-> Hwr]; [by apply Hw|].
  simpl_bind. destruct (lazy_set_spec a1 (ix_key x) (relocated fid (ix_offset x) (ix_offset y) (entry (vid_to_mullevelIndex_ s) (ix_key x))))
    as (a2 & -> & He2 & Hc2 & _); [done|by rewrite Hc1|]. simpl_bind.
  set (s2 := mkStorage _ a2 _ _).
  destruct (IH s2) as (a & vm & -> & Hc & He).
  - intros v Hv. unfold s2. cbn. rewrite He2 by done. case_decide; [done|]. rewrite He1. by apply Hw.
  - done.
  - eapply Forall_impl; [exact Hb|]. intros z [?|[? ?]]; [by left|right]. split; [done|]. unfold s2. cbn. by rewrite Hc2, Hc1.
  - intros i z Hz Hi. specialize (Hlast (S i) z Hz Hi). simpl in *. lia.
  - exists a, vm. split_and!; [done|unfold s2 in Hc; cbn in Hc; by rewrite Hc, Hc2, Hc1|].
    intros v Hv. rewrite He by done. unfold s2. cbn [vid_to_mullevelIndex_]. rewrite He2 by done.
    unfold located_entry. rewrite indexed_cons. destruct (Z.eqb_spec (ix_key x) v) as [<-|Hne].
    + rewrite decide_True by done. destruct (indexed (y :: rest) (ix_key x)) as [[o n]|] eqn:E; [|done]. apply indexed_key in E. done.
    + rewrite decide_False, He1 by congruence. done.
Qed.

(** ** One file, and all of them *)
Context (flags : Flags) (tls : layout) (property_num : nat) (fetch_time : nat -> Z).
Abbreviation publish := (publish flags tls property_num level min_level_0_fid_ fids).
Abbreviation publish_all := (publish_all flags tls property_num level min_level_0_fid_ fids fetch_time).
Abbreviation compact_data := (compact_data flags tls property_num).

Lemma ref_indexes_nodup vs : flush_input_ok vs -> NoDup (ix_key <$> ref_indexes vs).
Proof.
  intros Hin. pose proof (ref_indexes_sorted vs Hin) as Hs. unfold keys_sorted in Hs. clear Hin.
  induction Hs as [|x l Hs IH Hx]; [constructor|]. cbn [fmap list_fmap]. constructor; [|done].
  intros (y & E & Hy)%list_elem_of_fmap. rewrite Forall_forall in Hx. specialize (Hx y Hy). lia.
Qed.

Lemma ref_indexes_keys vs : ix_key <$> ref_indexes vs = vs.*1 ++ [kInvalidVertexId].
Proof. unfold ref_indexes. by rewrite fmap_app, ref_index_keys. Qed.

Lemma source_below vs v : flush_input_ok vs -> v ∈ vs.*1 -> 0 <= v < kInvalidVertexId.
Proof. intros [_ Hf] (x & -> & Hx)%list_elem_of_fmap. rewrite Forall_forall in Hf. by apply Hf. Qed.

Lemma publish_spec vs ts newest s next :
  storage_wf s -> flush_input_ok vs -> Forall (has_block s) vs.*1 -> fileMetaCache_ s !! Z.to_nat (level + 1) = Some next ->
  exists s', publish vs ts newest s = Some s' /\ storage_wf s' /\
    block_count_ (vid_to_mullevelIndex_ s') = block_count_ (vid_to_mullevelIndex_ s) /\
    sst_data s' = <[ts := compact_data vs ts]> (sst_data s) /\
    (forall v, 0 <= v -> entry (vid_to_mullevelIndex_ s') v
       = located_entry (u32 ts) (ref_indexes vs) v (entry (vid_to_mullevelIndex_ s) v)) /\
    fileMetaCache_ s' = <[Z.to_nat (level + 1) := merge_sort min_key_le (next ++ [compact_cache vs ts newest])]> (fileMetaCache_ s).
Proof.
  intros Hw Hin Hb Hn. unfold CompactionOutput.publish. set (s1 := mkStorage _ _ _ _).
  destruct (publish_indexes_spec (u32 ts) (ref_indexes vs) s1) as (a & vm & -> & Hc & He).
  - exact Hw.
  - by apply ref_indexes_nodup.
  - rewrite Forall_forall in Hb. apply Forall_forall. intros x Hx. assert (ix_key x ∈ ix_key <$> ref_indexes vs) as Hk
      by (apply list_elem_of_fmap; by exists x). rewrite ref_indexes_keys in Hk.
    apply elem_of_app in Hk as [Hk|Hk%list_elem_of_singleton]; [right; by apply Hb|by left].
  - intros i x Hi Hx. assert ((ix_key <$> ref_indexes vs) !! i = Some kInvalidVertexId) as Hk
      by (rewrite list_lookup_fmap, Hi; cbn; by rewrite Hx).
    rewrite ref_indexes_keys in Hk. apply lookup_app_Some in Hk as [Hk|[Hk1 Hk2]].
    + apply list_elem_of_lookup_2, (source_below vs _ Hin) in Hk. lia.
    + apply lookup_lt_Some in Hk2. unfold ref_indexes. rewrite length_app, ref_index_length. rewrite length_fmap in *. simpl in *. lia.
  - simpl_bind. unfold publish_file. cbn [fileMetaCache_]. unfold s1. cbn [fileMetaCache_]. rewrite Hn. simpl_bind.
    eexists. split; [done|]. cbn. split_and!; try done. intros v Hv. cbn. rewrite He by done. unfold located_entry.
    destruct (indexed (ref_indexes vs) v) as [[o n]|]; [|by apply Hw]. by apply relocate_relocated, Hw.
Qed.

(** Where the output files put a source. *)
Fixpoint located (ps : list Table) (k : nat) (v : Z) : option (Z * Z * Z) :=
  match ps with
  | [] => None
  | vs :: ps => match indexed (ref_indexes vs) v with
                | Some (o, n) => Some (u32 (fetch_time k), o, n)
                | None => located ps (S k) v
                end
  end.

Fixpoint out_caches (ps : list Table) (k : nat) (n : Z) : list SSTableCache :=
  match ps with
  | [] => []
  | vs :: ps => let n := newest_of n (all_edges vs) in compact_cache vs (fetch_time k) n :: out_caches ps (S k) n
  end.

Record published (ps : list Table) (k : nat) (n : Z) (s s' : Storage) (next : list SSTableCache) : Prop := {
  pub_wf : storage_wf s';
  pub_blocks : block_count_ (vid_to_mullevelIndex_ s') = block_count_ (vid_to_mullevelIndex_ s);
  pub_entry : forall v, 0 <= v -> v < kInvalidVertexId -> entry (vid_to_mullevelIndex_ s') v =
    match located ps k v with
    | Some (fid, o, n) => relocated fid o n (entry (vid_to_mullevelIndex_ s) v)
    | None => entry (vid_to_mullevelIndex_ s) v
    end;
  pub_data : forall j vs, ps !! j = Some vs -> sst_data s' !! fetch_time (k + j) = Some (compact_data vs (fetch_time (k + j)));
  pub_old : forall id, (forall j, (j < length ps)%nat -> id <> fetch_time (k + j)) -> sst_data s' !! id = sst_data s !! id;
  pub_files : exists l, fileMetaCache_ s' = <[Z.to_nat (level + 1) := l]> (fileMetaCache_ s) /\
    l ≡ₚ next ++ out_caches ps k n /\ (ps = [] -> l = next) /\ (ps <> [] -> StronglySorted min_key_le l);
}.

Lemma located_key ps k v x : located ps k v = Some x -> v = kInvalidVertexId \/ v ∈ (concat ps).*1.
Proof.
  revert k. induction ps as [|vs ps IH]; intros k; cbn [located concat]; [done|]. rewrite fmap_app.
  destruct (indexed (ref_indexes vs) v) as [[o n]|] eqn:E; intros H.
  - apply indexed_key in E. rewrite ref_indexes_keys in E. apply elem_of_app in E as [E|E%list_elem_of_singleton]; [right; apply elem_of_app; by left|by left].
  - destruct (IH _ H) as [?|?]; [by left|right; apply elem_of_app; by right].
Qed.

Lemma publish_files_spec ps k n s next :
  (forall i j, fetch_time i = fetch_time j -> i = j) ->
  storage_wf s -> Forall flush_input_ok ps -> Forall (has_block s) (concat ps).*1 -> NoDup (concat ps).*1 ->
  fileMetaCache_ s !! Z.to_nat (level + 1) = Some next ->
  exists s', publish_all ps k n s = Some s' /\ published ps k n s s' next.
Proof.
  intros Hinj. revert k n s next. induction ps as [|vs ps IH]; intros k n s next Hw Hin Hb Hnd Hn; cbn [CompactionOutput.publish_all].
  { exists s. split; [done|]. split; try done. exists next. rewrite list_insert_id by done. split_and!; [done|by rewrite app_nil_r|done|done]. }
  apply Forall_cons in Hin as [Hin Hins]. cbn [concat] in Hb, Hnd. rewrite fmap_app in Hb, Hnd.
  apply Forall_app in Hb as [Hb Hbs]. apply NoDup_app in Hnd as (Hnd & Hdisj & Hnds).
  set (n' := newest_of n (all_edges vs)).
  destruct (publish_spec vs (fetch_time k) n' s next Hw Hin Hb Hn) as (s1 & -> & Hw1 & Hc1 & Hd1 & He1 & Hf1). simpl_bind.
  assert (Z.to_nat (level + 1) < length (fileMetaCache_ s))%nat as Hlt by (by eapply lookup_lt_Some).
  destruct (IH (S k) n' s1 (merge_sort min_key_le (next ++ [compact_cache vs (fetch_time k) n']))) as (s' & -> & [P1 P2 P3 P4 P5 (l & P6 & P7 & P8 & P9)]).
  - done.
  - done.
  - eapply Forall_impl; [exact Hbs|]. unfold has_block. by rewrite Hc1.
  - done.
  - rewrite Hf1. by apply list_lookup_insert_eq.
  - exists s'. split; [done|]. split.
    + done.
    + by rewrite P2.
    + intros v Hv Hv'. cbn [located]. rewrite P3, He1 by done. unfold located_entry.
      destruct (indexed (ref_indexes vs) v) as [[o m]|] eqn:E; [|done].
      destruct (located ps (S k) v) as [x|] eqn:El; [|done]. exfalso.
      apply indexed_key in E. rewrite ref_indexes_keys in E. apply elem_of_app in E as [E|E%list_elem_of_singleton]; [|lia].
      destruct (located_key _ _ _ _ El) as [?|Hv2]; [lia|]. by apply (Hdisj v E).
    + intros [|j] t Hj; cbn in Hj.
      * injection Hj as <-. rewrite Nat.add_0_r, P5.
        { by rewrite Hd1, lookup_insert_eq. }
        intros j _ E%Hinj. lia.
      * rewrite Nat.add_succ_r. by apply P4.
    + intros id Hid. rewrite P5.
      { rewrite Hd1, lookup_insert_ne; [done|]. specialize (Hid 0%nat ltac:(simpl; lia)). rewrite Nat.add_0_r in Hid. congruence. }
      intros j Hj. rewrite Nat.add_succ_l, <- Nat.add_succ_r. apply Hid. simpl. lia.
    + exists l. split; [by rewrite P6, Hf1, list_insert_insert_eq|]. cbn [out_caches]. fold n'. split_and!; [|done|].
      * rewrite P7, merge_sort_Permutation, <- app_assoc. done.
      * intros _. destruct ps as [|vs' ps]; [rewrite P8 by done; apply StronglySorted_merge_sort; apply _|by apply P9].
Qed.
End Publish.

(** ** Compaction: the result of a merge

    The store after [ProcessMultiWaysCompaction]: the merged table, cut into
    files, is published and the level index of exactly its sources follows it. *)

Lemma table_from_edges vs :
  StronglySorted Z.lt vs.*1 -> StronglySorted edge_before (edges_in vs) -> distinct_edges (edges_in vs) -> filled vs ->
  Forall (fun x => 0 <= x.1 < kInvalidVertexId /\ edge_fits x.2) (edges_in vs) -> flush_input_ok vs.
Proof.
  intros Hk Hs Hd Hfl Hf. split.
  - clear -Hk. induction vs as [|v vs IH]; [constructor|]. cbn [fmap list_fmap] in Hk. apply StronglySorted_inv in Hk as [Hk Hv].
    constructor; [by apply IH|]. by rewrite Forall_fmap in Hv.
  - clear Hk. induction vs as [|[v es] vs IH]; [constructor|]. rewrite edges_in_cons in *.
    apply Forall_cons in Hfl as [Hne Hfl]. apply Forall_app in Hf as [Hf Hfs]. unfold distinct_edges in Hd.
    rewrite fmap_app in Hd. apply NoDup_app in Hd as (Hd & _ & Hds). apply StronglySorted_app in Hs as (_ & Hs & Hss).
    constructor; [|by apply IH]. cbn [fst snd] in *. rewrite Forall_fmap in Hf. split_and!.
    + destruct es as [|e es]; [done|]. apply Forall_cons in Hf as [[Hb _] _]. cbn in Hb. lia.
    + destruct es as [|e es]; [done|]. apply Forall_cons in Hf as [[Hb _] _]. cbn in Hb. lia.
    + eapply Forall_impl; [exact Hf|]. by intros x [_ ?].
    + clear -Hs Hd. rewrite <- list_fmap_compose in Hd. induction es as [|e es IH]; [constructor|]. cbn [fmap list_fmap] in *.
      apply StronglySorted_inv in Hs as [Hs He]. apply NoDup_cons in Hd as [Hn Hd]. constructor; [by apply IH|].
      rewrite Forall_fmap in He. rewrite Forall_forall in He. apply Forall_forall. intros x Hx. specialize (He x Hx).
      unfold edge_before in He. cbn in He. destruct He as [He|[_ He]]; [lia|]. unfold edge_less.
      destruct (Z.ltb_spec (destination e) (destination x)); [done|]. destruct He as [He|[He1 He2]]; [lia|].
      rewrite He1, Z.eqb_refl. apply Z.ltb_lt. enough (sequence x <> sequence e) by lia. intros E. apply Hn.
      apply list_elem_of_fmap. exists x. split; [|done]. cbn. unfold edge_key. cbn. congruence.
Qed.

Lemma flush_input_ok_app A B : flush_input_ok (A ++ B) -> flush_input_ok A /\ flush_input_ok B.
Proof. intros [Hs Hf]. apply StronglySorted_app in Hs as (_ & ? & ?). apply Forall_app in Hf as [? ?]. done. Qed.

Lemma flush_input_ok_concat ps : flush_input_ok (concat ps) -> Forall flush_input_ok ps.
Proof.
  induction ps as [|p ps IH]; [constructor|]. cbn [concat]. intros [? ?]%flush_input_ok_app. constructor; [done|by apply IH].
Qed.

Section Result.
Context (cfg : CompactionConfig) (debug : bool) (flags : Flags) (tls : layout) (property_num : nat).
Context (level min_level_0_fid_ : Z) (fetch_time : nat -> Z).
Abbreviation input_ok := (input_ok cfg flags tls property_num).

(** The output tables of a compaction. *)
Definition outputs (files : list InputFile) : list Table := pieces cfg [] (merged (in_table <$> files)).

Context (Hcfg : config_ok cfg).

Section Files.
Context (files : list InputFile) (Hok : Forall input_ok files)
  (Hd : distinct_edges (concat (edges_in ∘ in_table <$> files))).

Lemma merged_ok : Forall (fun x => 0 <= x.1 < kInvalidVertexId /\ edge_fits x.2) (merged (in_table <$> files)).
Proof.
  rewrite merged_perm. apply Forall_concat. rewrite !Forall_fmap. eapply Forall_impl; [exact Hok|].
  intros f [(_ & [_ Hf] & _) _]. cbn. rewrite Forall_forall. intros [v e] (es & Hv & He)%edges_in_elem.
  rewrite Forall_forall in Hf. destruct (Hf (v, es) Hv) as (? & Hfe & _). cbn in *. rewrite Forall_forall in Hfe. auto.
Qed.

Lemma outputs_edges : edges_in (concat (outputs files)) = merged (in_table <$> files).
Proof.
  unfold outputs. rewrite pieces_edges; [done|]. eapply Forall_impl; [apply merged_ok|]. cbn. lia.
Qed.

Lemma outputs_table : flush_input_ok (concat (outputs files)).
Proof.
  apply table_from_edges.
  - apply pieces_sources; [constructor| |by intros k x ?%elem_of_nil].
    pose proof (merged_sorted (in_table <$> files)) as Hs. induction Hs as [|x F Hs IH Hx]; [constructor|].
    cbn [fmap list_fmap]. constructor; [done|]. apply Forall_fmap. eapply Forall_impl; [exact Hx|]. cbn. unfold edge_before. lia.
  - rewrite outputs_edges. apply merged_sorted.
  - rewrite outputs_edges. unfold distinct_edges. rewrite merged_perm. by rewrite (list_fmap_compose in_table edges_in) in Hd.
  - apply Forall_concat, pieces_filled. constructor.
  - rewrite outputs_edges. apply merged_ok.
Qed.

Lemma outputs_nodup : NoDup (concat (outputs files)).*1.
Proof.
  destruct outputs_table as [Hs _]. induction Hs as [|x F Hs IH Hx]; [constructor|]. cbn [fmap list_fmap]. constructor; [|done].
  intros (y & E & Hy)%list_elem_of_fmap. rewrite Forall_forall in Hx. specialize (Hx y Hy). lia.
Qed.

Lemma outputs_sources v : v ∈ (concat (outputs files)).*1 -> exists f, f ∈ files /\ v ∈ (in_table f).*1.
Proof.
  intros ([u es] & -> & Hv)%list_elem_of_fmap. cbn [fst].
  assert (filled (concat (outputs files))) as Hf by (apply Forall_concat, pieces_filled; constructor).
  unfold filled in Hf. rewrite Forall_forall in Hf. specialize (Hf _ Hv). cbn in Hf. destruct es as [|e es]; [done|].
  assert ((u, e) ∈ edges_in (concat (outputs files))) as Hin by (apply edges_in_elem; exists (e :: es); split; [done|left]).
  rewrite outputs_edges, merged_perm in Hin. apply list_elem_of_In, in_concat in Hin as (l & Hl%list_elem_of_In & Hin%list_elem_of_In).
  apply list_elem_of_fmap in Hl as (t & -> & Ht). apply list_elem_of_fmap in Ht as (f & -> & Hf').
  apply edges_in_elem in Hin as (es' & Hin & _). exists f. split; [done|]. apply list_elem_of_fmap. by exists (u, es').
Qed.
End Files.
End Result.

(** The conditions of a merge of [files] from [level] in a store. *)
Record merge_ready (cfg : CompactionConfig) (flags : Flags) (tls : layout) (property_num : nat) (level : Z)
    (fetch_time : nat -> Z) (files : list InputFile) (s : Storage) (next : list SSTableCache) : Prop := {
  mr_config : config_ok cfg;
  mr_columns : (0 < property_num)%nat;
  mr_slots : forall p, (p < property_num)%nat -> 0 < slot_len flags tls p < Z.min (PROPERTY_BUFFER_SIZE cfg) 100000;
  mr_level : 0 <= level < LEVEL_INDEX_SIZE;
  mr_ids : forall i j, fetch_time i = fetch_time j -> i = j;
  mr_some : files <> [];
  mr_files : Forall (input_ok cfg flags tls property_num) files;
  mr_distinct : distinct_edges (concat (edges_in ∘ in_table <$> files));
  mr_size : EDGEBODY_SIZE * zlen (merged (in_table <$> files)) < 2 ^ 32;
  mr_storage : storage_wf s;
  mr_blocks : forall f v, f ∈ files -> v ∈ (in_table f).*1 -> has_block s v;
  mr_next : fileMetaCache_ s !! Z.to_nat (level + 1) = Some next;
}.

(** The output files, published one after the other. *)
Lemma merge_files cfg flags tls property_num level min_fid fetch_time files s next P lst :
  merge_ready cfg flags tls property_num level fetch_time files s next ->
  outputs cfg files = P ++ [lst] ->
  let fids := input_0_fids (way_of <$> files) in
  exists s1 s2, publish_all flags tls property_num level min_fid fids fetch_time P 0 0 s = Some s1 /\
    published level min_fid fids flags tls property_num fetch_time P 0 0 s s1 next /\
    publish flags tls property_num level min_fid fids lst (fetch_time (length P)) (newest_of (newest_all 0 P) (all_edges lst)) s1 = Some s2 /\
    published level min_fid fids flags tls property_num fetch_time (P ++ [lst]) 0 0 s s2 next.
Proof.
  intros [H1 H2 H3 H4 H5 H6 H7 H8 H9 H10 H11 H12] Ho fids.
  pose proof (outputs_table cfg flags tls property_num files H7 H8) as Ht. rewrite Ho in Ht.
  pose proof (outputs_nodup cfg flags tls property_num files H7 H8) as Hnd. rewrite Ho in Hnd.
  assert (Forall (has_block s) (concat (P ++ [lst])).*1) as Hb.
  { apply Forall_forall. intros v Hv. rewrite <- Ho in Hv.
    destruct (outputs_sources cfg flags tls property_num files H7 v Hv) as (f & Hf & Hvf). by apply (H11 f). }
  pose proof (publish_files_spec level min_fid fids H4 flags tls property_num fetch_time) as Hspec.
  assert (exists s1, publish_all flags tls property_num level min_fid fids fetch_time P 0 0 s = Some s1 /\
    published level min_fid fids flags tls property_num fetch_time P 0 0 s s1 next) as (s1 & E1 & Hp1).
  { rewrite concat_app in *. rewrite fmap_app in *. apply Hspec; try done.
    - apply flush_input_ok_concat. by apply flush_input_ok_app in Ht as [? _].
    - by apply Forall_app in Hb as [? _].
    - by apply NoDup_app in Hnd as (? & _ & _). }
  destruct (Hspec (P ++ [lst]) 0%nat 0 s next) as (s2 & E2 & Hp2); try done; [by apply flush_input_ok_concat|].
  rewrite (publish_all_app flags tls property_num level min_fid fetch_time fids P [lst]) in E2 || rewrite publish_all_app in E2.
  rewrite E1 in E2. simpl_bind in E2. cbn [publish_all] in E2. rewrite Nat.add_0_l in E2. exists s1, s2. split_and!; try done.
  destruct (publish _ _ _ _ _ _ lst _ _ s1) as [s3|]; simpl_bind in E2; [|done]. exact E2.
Qed.

(** What the merge publishes, given the tables of the output files. *)
Lemma merge_result cfg debug flags tls property_num level min_fid fetch_time files s next P lst :
  merge_ready cfg flags tls property_num level fetch_time files s next ->
  outputs cfg files = P ++ [lst] ->
  let fids := input_0_fids (way_of <$> files) in
  let full := zlen (all_edges lst) mod (BODY_BUFFER_SIZE cfg - 1) =? 0 in
  exists s', ProcessMultiWaysCompaction cfg debug flags tls property_num level min_fid fetch_time (way_of <$> files) s = Some s' /\
    published level min_fid fids flags tls property_num fetch_time (if full then P else P ++ [lst]) 0 0 s s' next.
Proof.
  intros Hr Ho fids full. destruct (merge_files cfg flags tls property_num level min_fid fetch_time files s next P lst Hr Ho) as (s1 & s2 & E1 & Hp1 & E2 & Hp2).
  destruct Hr as [H1 H2 H3 H4 H5 H6 H7 H8 H9 H10 H11 H12].
  rewrite (merge_publishes cfg debug flags tls property_num level min_fid fetch_time H1 H2 H3 files s P lst s1); try done.
  fold fids full. destruct full; [by exists s1|by exists s2].
Qed.

(** The output at the end of its loop: one id was drawn per file, and the last
    file is dropped when the buffer of its writer is empty. *)
Lemma merge_output_end cfg debug flags tls property_num level min_fid fetch_time files s next P lst :
  merge_ready cfg flags tls property_num level fetch_time files s next ->
  outputs cfg files = P ++ [lst] ->
  exists o, merge_output cfg debug flags tls property_num level min_fid (input_0_fids (way_of <$> files)) fetch_time (way_of <$> files) s = Some o /\
    fetched o = length (outputs cfg files) /\ IsClear (out_writer o) = (zlen (all_edges lst) mod (BODY_BUFFER_SIZE cfg - 1) =? 0).
Proof.
  intros Hr Ho. destruct (merge_files cfg flags tls property_num level min_fid fetch_time files s next P lst Hr Ho) as (s1 & s2 & E1 & _).
  destruct Hr as [H1 H2 H3 H4 H5 H6 H7 H8 H9 H10 H11 H12].
  destruct (merge_ends cfg debug flags tls property_num level min_fid fetch_time H1 H2 H3 files s P lst s1) as (w & E & _ & _ & Hc); try done.
  eexists. split; [exact E|]. split; [|exact Hc]. rewrite Ho, length_app. cbn. lia.
Qed.
