(* ===== verification/CompactionReads.v ===== *)
(** * Compaction preserves reads

    A merge of level-0 files and the level-1 files they overlap, seen by the
    point read: before, the inputs answer newest first and then level 1; after,
    the one output file that holds the source answers.  The two agree. *)

From S2P Require Import Prelude.
From S2P Require Import Types.
From S2P Require Import DeltaFile.
From S2P Require Import DeltaStore.
From S2P Require Import SkipList.
From S2P Require Import SkipListFacts.
From S2P Require Import MemTable.
From S2P Require Import PropertyLayout.
From S2P Require Import Sst.
From S2P Require Import SstBuild.
From S2P Require Import SstBuildFacts.
From S2P Require Import SstBuildTheorems.
From S2P Require Import MemTableFlush.
From S2P Require Import DeltaMerge.
From S2P Require Import LevelIndex.
From S2P Require Import LsmRead.
From S2P Require Import LsmHistory.
From S2P Require Import SstWriter.
From S2P Require Import CompactionMerge.
From S2P Require Import CompactionOutput.
From S2P Require Import CompactionWays.
From S2P Require Import CompactionTheorems.
From S2P Require Import CompactionPublish.

(** ** The newest version in a list of tables *)
Definition first_some {A} (l : list (option A)) : option A := head (omap id l).

Lemma first_some_cons {A} (x : option A) l : first_some (x :: l) = match x with Some a => Some a | None => first_some l end.
Proof. by destruct x. Qed.

Definition matches (src dst : Z) (is_out : bool) (ty : Z) (x : Z * Edge) : Prop := x.1 = src /\ version_of dst is_out ty x.2.
#[export] Instance matches_dec src dst is_out ty x : Decision (matches src dst is_out ty x).
Proof. unfold matches. apply _. Defined.

Lemma list_find_head {A} (P : A -> Prop) `{!forall x, Decision (P x)} (l : list A) : snd <$> list_find P l = head (filter P l).
Proof.
  induction l as [|x l IH]; [done|]. cbn [list_find]. destruct (decide (P x)).
  - by rewrite filter_cons_True.
  - rewrite filter_cons_False by done. rewrite <- IH. by destruct (list_find P l) as [[]|].
Qed.

Lemma filter_none {A} (P : A -> Prop) `{!forall x, Decision (P x)} (l : list A) : (forall x, x ∈ l -> ~ P x) -> filter P l = [].
Proof.
  induction l as [|x l IH]; intros Hn; [done|]. rewrite filter_cons_False by (apply Hn; left). apply IH. intros y Hy. apply Hn. by right.
Qed.

Lemma filter_source v es src dst is_out ty :
  filter (matches src dst is_out ty) ((fun e => (v, e)) <$> es)
  = if decide (v = src) then (fun e => (v, e)) <$> filter (version_of dst is_out ty) es else [].
Proof.
  destruct (decide (v = src)) as [->|Hne].
  - induction es as [|e es IH]; [done|]. cbn [fmap list_fmap]. destruct (decide (version_of dst is_out ty e)).
    + rewrite !filter_cons_True by done. cbn [fmap list_fmap]. by rewrite IH.
    + rewrite !filter_cons_False by (done || by intros [_ ?]). done.
  - apply filter_none. by intros x (e & -> & _)%list_elem_of_fmap [? _].
Qed.

(** A table's answer is the first match among its edges. *)
Lemma table_value_head vs src dst is_out ty :
  StronglySorted (fun a b => a.1 < b.1) vs ->
  table_value vs src dst is_out ty = snd <$> head (filter (matches src dst is_out ty) (edges_in vs)).
Proof.
  unfold table_value. induction vs as [|[v es] vs IH]; intros Hs; [done|].
  apply StronglySorted_inv in Hs as [Hs Hv]. rewrite edges_in_cons, filter_app, filter_source. cbn [list_find fst].
  destruct (decide (v = src)) as [->|Hne].
  - simpl_bind. cbn [snd]. rewrite (filter_none _ (edges_in vs)).
    + rewrite app_nil_r. unfold first_version. rewrite list_find_head. by destruct (filter _ es).
    + intros [u e] (es' & Hu & _)%edges_in_elem [E _]. cbn in E. subst u. rewrite Forall_forall in Hv. specialize (Hv _ Hu). cbn in Hv. lia.
  - cbn [app]. rewrite <- IH by done. by destruct (list_find _ vs) as [[]|].
Qed.

(** In every later table the versions of an edge are older. *)
Definition no_newer (t u : Table) : Prop :=
  Forall (fun a => Forall (fun b => a.1 = b.1 /\ destination a.2 = destination b.2 -> sequence b.2 <= sequence a.2) (edges_in u)) (edges_in t).
Definition newest_first (tables : list Table) : Prop := StronglySorted no_newer tables.

(** The merged table answers what the tables answer, asked in order. *)
Lemma merged_value tables vs src dst is_out ty :
  Forall flush_input_ok tables -> distinct_edges (concat (edges_in <$> tables)) -> newest_first tables ->
  flush_input_ok vs -> edges_in vs = merged tables ->
  table_value vs src dst is_out ty = first_some ((fun t => table_value t src dst is_out ty) <$> tables).
Proof.
  intros Hok Hd Hn [Hs _] E. rewrite table_value_head, E by done.
  set (P := matches src dst is_out ty). set (C := concat (edges_in <$> tables)) in *.
  assert (filter P (merged tables) = filter P C) as ->.
  { assert (forall l, l ⊆+ C -> forall a b, a ∈ l -> b ∈ l -> edge_before a b -> edge_before b a -> a = b) as Huniq.
    { intros l Hl a b Ha Hb H1 H2. apply (distinct_eq C); [done|by eapply elem_of_submseteq|by eapply elem_of_submseteq|].
      unfold edge_before in *. unfold edge_key. f_equal; [f_equal|]; lia. }
    apply (StronglySorted_unique_strong edge_before).
    - intros a b [_ Ha]%list_elem_of_filter [_ Hb]%list_elem_of_filter. rewrite merged_perm in Ha. by apply (Huniq C).
    - apply StronglySorted_filter, merged_sorted.
    - unfold C. clear -Hok Hn. induction Hok as [|t tables Ht Hok IH]; [constructor|]. cbn [fmap list_fmap concat]. rewrite filter_app.
      apply StronglySorted_inv in Hn as [Hn Hx]. apply StronglySorted_app. split_and!; [| |by apply IH].
      + intros a b [[Ha1 [Ha2 _]] Ha]%list_elem_of_filter [[Hb1 [Hb2 _]] Hb]%list_elem_of_filter.
        apply list_elem_of_In, in_concat in Hb as (l & Hl%list_elem_of_In & Hb%list_elem_of_In).
        apply list_elem_of_fmap in Hl as (u & -> & Hu). rewrite Forall_forall in Hx.
        right. split; [congruence|]. right. split; [congruence|]. specialize (Hx u Hu). unfold no_newer in Hx.
        rewrite Forall_forall in Hx. specialize (Hx a Ha). rewrite Forall_forall in Hx. apply (Hx b Hb). split; congruence.
      + by apply StronglySorted_filter, edges_in_sorted.
    - by rewrite merged_perm. }
  unfold C. clear -Hok. induction Hok as [|t tables [Ht _] Hok IH]; [done|]. cbn [fmap list_fmap concat]. rewrite filter_app, first_some_cons.
  rewrite table_value_head by done. fold P. destruct (filter P (edges_in t)); [exact IH|done].
Qed.

Lemma table_value_elem vs src es dst is_out ty :
  StronglySorted (fun a b => a.1 < b.1) vs -> (src, es) ∈ vs -> table_value vs src dst is_out ty = first_version dst is_out ty es.
Proof.
  intros Hs Hin. unfold table_value. induction Hs as [|[v es'] vs Hs IH Hv]; [by apply elem_of_nil in Hin|].
  cbn [list_find fst]. apply elem_of_cons in Hin as [[= <- <-]|Hin]; [by rewrite decide_True|].
  rewrite Forall_forall in Hv. specialize (Hv _ Hin). cbn in Hv. rewrite decide_False by lia.
  specialize (IH Hin). rewrite <- IH. by destruct (list_find _ vs) as [[]|].
Qed.

Lemma table_value_absent vs src dst is_out ty : src ∉ vs.*1 -> table_value vs src dst is_out ty = None.
Proof.
  intros Hn. unfold table_value. destruct (list_find _ vs) as [[i v]|] eqn:E; [|done]. exfalso.
  apply list_find_Some in E as (Hi & <- & _). apply Hn, list_elem_of_fmap. exists v. split; [done|]. by eapply list_elem_of_lookup_2.
Qed.

(** The output file of a source. *)
Lemma located_source fetch_time ps k v :
  Forall flush_input_ok ps -> v ∈ (concat ps).*1 ->
  exists j vs i es b e, ps !! j = Some vs /\ vs !! i = Some (v, es) /\ ref_indexes vs !! i = Some b /\
    ref_indexes vs !! S i = Some e /\ located fetch_time ps k v = Some (u32 (fetch_time (k + j)%nat), ix_offset b, ix_offset e).
Proof.
  intros Hok. revert k. induction Hok as [|vs ps Hvs Hok IH]; intros k Hv; [by apply elem_of_nil in Hv|].
  cbn [concat located] in *. rewrite fmap_app in Hv. destruct (decide (v ∈ vs.*1)) as [Hin|Hout].
  - apply list_elem_of_fmap in Hin as ([u es] & -> & Hin). apply list_elem_of_lookup in Hin as [i Hi]. cbn [fst].
    destruct (image_range vs i u es Hvs Hi) as (_ & Hb & e & He & _).
    exists 0%nat, vs, i, es, (mkIndex u (EDGEBODY_SIZE * zlen (all_edges (take i vs)))), e. split_and!; try done.
    pose proof (indexed_lookup (ref_indexes vs) i _ _ (ref_indexes_nodup vs Hvs) Hb He) as E. cbn [ix_key] in E.
    rewrite E, Nat.add_0_r. done.
  - apply elem_of_app in Hv as [Hv|Hv]; [done|]. destruct (IH (S k) Hv) as (j & ws & i & es & b & e & H1 & H2 & H3 & H4 & H5).
    exists (S j), ws, i, es, b, e. split_and!; try done. rewrite Nat.add_succ_r.
    destruct (indexed (ref_indexes vs) v) as [[o n]|] eqn:E; [exfalso|exact H5].
    apply indexed_key in E. rewrite ref_indexes_keys in E. apply elem_of_app in E as [E|E%list_elem_of_singleton]; [done|].
    apply list_elem_of_fmap in Hv as (x & Ex & Hx). apply list_elem_of_In, in_concat in Hx as (l & Hl%list_elem_of_In & Hx%list_elem_of_In).
    rewrite Forall_forall in Hok. assert (v ∈ l.*1) as Hvl by (apply list_elem_of_fmap; by exists x).
    pose proof (source_below l v (Hok l Hl) Hvl). lia.
Qed.

(** ** Reads *)
Definition with_data (L : LsmColumns) (d : gmap Z SstData) : LsmColumns :=
  mkColumns (property_object_kind_ L) (property_shard_id_ L) (sub_property_lengths_ L) (dataDir L) (update_durability_ L) d
    (process_flags L).

(** Level-0 metadata that, for a source, are the inputs in order and files whose
    key range misses it. *)
Inductive level0_of (src : Z) (ids : list Z) : list SSTableCache -> list InputFile -> Prop :=
| l0_nil : level0_of src ids [] []
| l0_input f l fs : timeStamp (cache_header (in_cache f)) ∈ ids -> level0_of src ids l fs -> level0_of src ids (in_cache f :: l) (f :: fs)
| l0_other c l fs : timeStamp (cache_header c) ∉ ids -> in_key_range src c = false -> level0_of src ids l fs -> level0_of src ids (c :: l) fs.

(** Removing the inputs from a level-0 list. *)
Definition without (ids : list Z) (l : list SSTableCache) : list SSTableCache :=
  filter (fun c => timeStamp (cache_header c) ∉ ids) l.

Section Reads.
Context `{StdHash} (debug : bool) (L : LsmColumns) (cfg : CompactionConfig) (p : nat).
Abbreviation fl := (process_flags L).
Abbreviation tls := (merge_layout L).
Abbreviation pnum := (length (sub_property_lengths_ L)).
Context (Hp : (p < pnum)%nat) (Hw : 0 < slot_len fl tls p < 1024).

(** An input whose file is in the data manager and whose values fit their slots. *)
Definition input_readable (d : gmap Z SstData) (f : InputFile) : Prop :=
  input_ok cfg fl tls pnum f /\ EDGEBODY_SIZE * zlen (all_edges (in_table f)) < 2 ^ 31 /\
  d !! timeStamp (cache_header (in_cache f)) = Some (in_data f) /\
  forall v x, v ∈ in_table f -> x ∈ v.2 -> storable (slot_len fl tls p) (field p x).

Lemma holds_bodies vs c d : holds_table fl tls pnum vs c d -> exists tail, edge_data d = bodies_file fl tls vs tail.
Proof.
  intros [_ _ (end_ & rest & _ & E) _]. exists (pod_encode end_ ++ rest). unfold bodies_file.
  rewrite E, body_list_bytes, fmap_app, concat_app. cbn [fmap list_fmap concat]. by rewrite app_nil_r, <- app_assoc.
Qed.

Lemma input_file_read d f src dst is_out ty :
  input_readable d f -> 0 <= src < kInvalidVertexId ->
  find_edge_in_lonely_SStableCache debug (with_data L d) None (in_cache f) src dst (Z.of_nat p) is_out ty
  = Some (status_of (field p) (table_value (in_table f) src dst is_out ty)).
Proof.
  intros ([(Hfl & Hin & _) Hh] & Hsz & Hd & Hst) Hsrc. destruct (holds_bodies _ _ _ Hh) as [tail Ht]. destruct Hh as [_ Hix _ Hc].
  by apply (table_file_read debug (with_data L d) p Hp Hw _ _ (in_data f) tail).
Qed.

Lemma level0_inputs_read d src ids l fs dst is_out ty :
  level0_of src ids l fs -> Forall (input_readable d) fs -> 0 <= src < kInvalidVertexId ->
  find_in_level0 debug (with_data L d) None l src dst (Z.of_nat p) is_out ty
  = Some (status_of (field p) (first_some ((fun f => table_value (in_table f) src dst is_out ty) <$> fs))).
Proof.
  intros Hl Hf Hsrc. induction Hl as [|f l fs Hid Hl IH|c l fs Hid Hr Hl IH]; [done| |].
  - apply Forall_cons in Hf as [Hf Hfs]. cbn [find_in_level0 fmap list_fmap]. rewrite first_some_cons.
    destruct (in_key_range src (in_cache f)) eqn:Er.
    + rewrite input_file_read by done. simpl_bind.
      destruct (table_value (in_table f) src dst is_out ty) as [e|]; cbn [status_of]; [by destruct (marker e)|by apply IH].
    + rewrite (table_value_absent (in_table f)); [by apply IH|]. intros (v & -> & Hv)%list_elem_of_fmap.
      destruct Hf as ([(_ & Hin & _) [Hh _ _ _]] & _). by rewrite (table_source_in_range _ _ v Hin Hh Hv) in Er.
  - cbn [find_in_level0]. rewrite Hr. by apply IH.
Qed.

Lemma level0_without d src ids l fs dst is_out ty :
  level0_of src ids l fs -> find_in_level0 debug (with_data L d) None (without ids l) src dst (Z.of_nat p) is_out ty = Some (kNotFound, None).
Proof.
  induction 1 as [|f l fs Hid Hl IH|c l fs Hid Hr Hl IH]; [done| |]; unfold without in *.
  - rewrite filter_cons_False by (intros Hx; by apply Hx). exact IH.
  - rewrite filter_cons_True by done. cbn [find_in_level0]. rewrite Hr. exact IH.
Qed.

Lemma find_in_level0_app d new l src dst is_out ty :
  find_in_level0 debug (with_data L d) None (new ++ l) src dst (Z.of_nat p) is_out ty
  = ('(rs, property) ← find_in_level0 debug (with_data L d) None new src dst (Z.of_nat p) is_out ty;
     match rs with
     | kNotFound => find_in_level0 debug (with_data L d) None l src dst (Z.of_nat p) is_out ty
     | _ => Some (rs, property)
     end).
Proof.
  induction new as [|c new IH]; [done|]. cbn [app find_in_level0]. destruct (in_key_range src c); [|exact IH].
  destruct (find_edge_in_lonely_SStableCache _ _ _ c _ _ _ _ _) as [[rs pr]|]; simpl_bind; [|done]. by destruct rs.
Qed.

(** Files that a merge leaves alone. *)
Lemma find_in_level0_data d d' new src dst is_out ty :
  Forall (fun c => d' !! timeStamp (cache_header c) = d !! timeStamp (cache_header c)) new ->
  find_in_level0 debug (with_data L d') None new src dst (Z.of_nat p) is_out ty
  = find_in_level0 debug (with_data L d) None new src dst (Z.of_nat p) is_out ty.
Proof.
  induction 1 as [|c new Hc Hn IH]; [done|]. cbn [find_in_level0]. rewrite IH. destruct (in_key_range src c); [|done].
  unfold find_edge_in_lonely_SStableCache. cbn [sstdata_manager_ with_data]. by rewrite Hc.
Qed.

Lemma find_by_levels_data d d' x y ls src dst is_out ty :
  Forall (fun l => at_level y l = at_level x l) ls ->
  (forall l s, l ∈ ls -> at_level x l = Some s -> lv_fileID s <> INVALID_File_ID -> d' !! lv_fileID s = d !! lv_fileID s) ->
  find_by_levels debug (with_data L d') None y ls src dst (Z.of_nat p) is_out ty
  = find_by_levels debug (with_data L d) None x ls src dst (Z.of_nat p) is_out ty.
Proof.
  intros Ha Hd. induction Ha as [|l ls Hl Hls IH]; [done|]. cbn [find_by_levels].
  rewrite IH by (intros l' s Hl'; apply Hd; by right). unfold level_range, get_fileID, get_offset, get_next_offset. rewrite Hl.
  destruct (at_level x l) as [s|] eqn:E; [|done]. cbn [fmap option_fmap option_map]. simpl_bind.
  destruct (Z.eqb_spec (lv_fileID s) INVALID_File_ID) as [|Hv]; [done|]. simpl_bind. unfold assert_. destruct (_ && _); [done|]. simpl_bind.
  cbn [sstdata_manager_ with_data]. by rewrite (Hd l s ltac:(left) E Hv).
Qed.

(** The search through one level of the index that has the source. *)
Definition then_levels (v : option Edge) (deeper : option (Status * option bytes)) : option (Status * option bytes) :=
  match v with Some e => Some (status_of (field p) (Some e)) | None => deeper end.

Lemma level_slot_read d x lv ls vs c_data tail i src es b e dst is_out ty :
  flushable fl tls pnum vs -> flush_input_ok vs -> EDGEBODY_SIZE * zlen (all_edges vs) < 2 ^ 31 ->
  edge_data c_data = bodies_file fl tls vs tail -> property_data c_data = ref_column fl tls vs <$> seq 0 pnum ->
  vs !! i = Some (src, es) -> ref_indexes vs !! i = Some b -> ref_indexes vs !! S i = Some e ->
  (forall y, y ∈ es -> storable (slot_len fl tls p) (field p y)) ->
  forall fid, at_level x lv = Some (mkLevel fid (ix_offset b) (ix_offset e)) -> fid <> INVALID_File_ID -> d !! fid = Some c_data ->
  find_by_levels debug (with_data L d) None x (lv :: ls) src dst (Z.of_nat p) is_out ty
  = then_levels (first_version dst is_out ty es) (find_by_levels debug (with_data L d) None x ls src dst (Z.of_nat p) is_out ty).
Proof.
  intros Hfl Hin Hsz He Hc Hi Hb Hb' Hst fid Ha Hne Hd. cbn [find_by_levels].
  unfold level_range, get_fileID, get_offset, get_next_offset. rewrite Ha. cbn [fmap option_fmap option_map]. simpl_bind.
  cbn [lv_fileID lv_offset lv_next_offset]. rewrite (proj2 (Z.eqb_neq _ _) Hne). simpl_bind.
  destruct (image_range vs i src es Hin Hi) as (_ & Hb0 & e0 & He0 & Eo). rewrite Hb in Hb0. injection Hb0 as ->.
  rewrite Hb' in He0. injection He0 as ->. cbn [ix_offset] in *.
  rewrite assert_holds. 2:{ apply Z.leb_le. rewrite Eo. pose proof (zlen_nonneg es). change EDGEBODY_SIZE with 16. lia. }
  simpl_bind. cbn [sstdata_manager_ with_data]. rewrite Hd. simpl_bind.
  change (view_of (with_data L d) None fid (Z.of_nat p)) with (@None PropertyDeltaReadView).
  pose proof (table_range_read debug (with_data L d) p Hp Hw vs c_data tail i src es _ _ dst is_out ty Hfl Hin Hsz He Hc Hi Hb Hb' Hst) as Hr.
  cbn [ix_offset] in Hr. rewrite Hr. simpl_bind. unfold then_levels.
  destruct (first_version dst is_out ty es) as [y|]; cbn [status_of]; [by destruct (marker y)|done].
Qed.

(** The level-1 slot of a source: it points into the one input file of level 1
    that holds the source, or is empty when none does. *)
Definition has_source (src : Z) (f : InputFile) : Prop := src ∈ (in_table f).*1.
#[local] Instance has_source_dec src f : Decision (has_source src f).
Proof. unfold has_source. apply _. Defined.

Definition level1_slot (src : Z) (x : MulLevelIndex) (inputs1 : list InputFile) : Prop :=
  (exists f i es b e, filter (has_source src) inputs1 = [f] /\ in_table f !! i = Some (src, es) /\
     ref_indexes (in_table f) !! i = Some b /\ ref_indexes (in_table f) !! S i = Some e /\
     timeStamp (cache_header (in_cache f)) <> INVALID_File_ID /\
     at_level x 0 = Some (mkLevel (timeStamp (cache_header (in_cache f))) (ix_offset b) (ix_offset e))) \/
  (filter (has_source src) inputs1 = [] /\ exists d, at_level x 0 = Some d /\ lv_fileID d = INVALID_File_ID).

Lemma first_some_app {A} (l l' : list (option A)) :
  first_some (l ++ l') = match first_some l with Some a => Some a | None => first_some l' end.
Proof. induction l as [|[x|] l IH]; [done|done|]. cbn [app]. by rewrite !first_some_cons. Qed.

Lemma first_some_filter src fs dst is_out ty :
  first_some ((fun f => table_value (in_table f) src dst is_out ty) <$> fs)
  = first_some ((fun f => table_value (in_table f) src dst is_out ty) <$> filter (has_source src) fs).
Proof.
  induction fs as [|f fs IH]; [done|]. destruct (decide (has_source src f)) as [Hs|Hs].
  - rewrite filter_cons_True by done. cbn [fmap list_fmap]. by rewrite !first_some_cons, IH.
  - rewrite filter_cons_False by done. cbn [fmap list_fmap]. by rewrite first_some_cons, (table_value_absent (in_table f)).
Qed.

(** What level 1 answers before the merge. *)
Lemma level1_read d src x inputs1 ls dst is_out ty :
  level1_slot src x inputs1 -> Forall (input_readable d) inputs1 ->
  find_by_levels debug (with_data L d) None x (0 :: ls) src dst (Z.of_nat p) is_out ty
  = then_levels (first_some ((fun f => table_value (in_table f) src dst is_out ty) <$> inputs1))
      (find_by_levels debug (with_data L d) None x ls src dst (Z.of_nat p) is_out ty).
Proof.
  intros Hslot Hr. rewrite first_some_filter.
  destruct Hslot as [(f & i & es & b & e & Hone & Hi & Hb & He & Hne & Ha)|(-> & s & Ha & Hinv)].
  - assert (input_readable d f) as ([(Hfl & Hin & _) Hh] & Hsz & Hd & Hst).
    { rewrite Forall_forall in Hr. apply Hr. assert (f ∈ filter (has_source src) inputs1) as Hf by (rewrite Hone; left).
      by apply list_elem_of_filter in Hf as [_ ?]. }
    rewrite Hone.
    destruct (holds_bodies _ _ _ Hh) as [tail Ht]. cbn [fmap list_fmap]. rewrite first_some_cons.
    rewrite (table_value_elem _ src es); [|apply Hin|by eapply list_elem_of_lookup_2].
    rewrite (level_slot_read d x 0 ls (in_table f) (in_data f) tail i src es b e dst is_out ty) with
      (fid := timeStamp (cache_header (in_cache f))); try done.
    + unfold then_levels. by destruct (first_version dst is_out ty es).
    + by destruct Hh.
    + intros y Hy. apply (Hst (src, es)); [by eapply list_elem_of_lookup_2|done].
  - cbn [find_by_levels fmap list_fmap]. unfold level_range, get_fileID. rewrite Ha. cbn [fmap option_fmap option_map]. simpl_bind.
    rewrite Hinv, Z.eqb_refl. done.
Qed.

(** ** After the merge *)
Section After.
Context (min_fid : Z) (fetch_time : nat -> Z) (files : list InputFile) (s s' : Storage) (next : list SSTableCache).
Abbreviation outs := (outputs cfg files).
Abbreviation fids := (input_0_fids (way_of <$> files)).
Context (Hready : merge_ready cfg fl tls pnum 0 fetch_time files s next)
  (Hfit : sizes_fit fl tls pnum (zlen (merged (in_table <$> files))))
  (H31 : EDGEBODY_SIZE * zlen (merged (in_table <$> files)) < 2 ^ 31)
  (Hids : forall j, (j < length outs)%nat -> 0 <= fetch_time j < INVALID_File_ID)
  (Hst : forall f v x, f ∈ files -> v ∈ in_table f -> x ∈ v.2 -> storable (slot_len fl tls p) (field p x))
  (Hpub : published 0 min_fid fids fl tls pnum fetch_time outs 0 0 s s' next).

Lemma output_edges vs : vs ∈ outs -> zlen (all_edges vs) <= zlen (merged (in_table <$> files)).
Proof.
  intros Hvs. rewrite <- (outputs_edges cfg fl tls pnum files (mr_files _ _ _ _ _ _ _ _ _ Hready)). unfold zlen.
  rewrite <- edges_in_length. apply list_elem_of_split in Hvs as (A & B & ->). rewrite concat_app, edges_in_app. cbn [concat].
  rewrite edges_in_app, !length_app. lia.
Qed.

Lemma output_flushable vs : vs ∈ outs -> flushable fl tls pnum vs.
Proof.
  intros Hvs. pose proof (output_edges vs Hvs) as Hle. destruct Hfit as [H16 Hcol]. pose proof (zlen_nonneg (all_edges vs)) as H0.
  assert (filled vs) as Hf.
  { pose proof (pieces_filled cfg [] (merged (in_table <$> files)) ltac:(constructor)) as Hf. rewrite Forall_forall in Hf. by apply Hf. }
  assert (zlen vs <= zlen (all_edges vs)) as Hsrc.
  { clear -Hf. induction Hf as [|[v es] vs Hv Hf IH]; [done|]. unfold all_edges in *. cbn [fmap list_fmap concat snd].
    rewrite zlen_app. cbn [snd] in Hv. destruct es; [done|]. unfold zlen in *. simpl. lia. }
  change EDGEBODY_SIZE with 16 in *. split_and!; [|split; [change EDGEBODY_SIZE with 16; lia|]|lia].
  - pose proof (pieces_all_nonempty cfg [] (merged (in_table <$> files))) as Hne. rewrite Forall_forall in Hne.
    apply Hne; [left|apply Hready|done]. intros E. destruct Hready as [_ _ _ _ _ Hsome Hfs _ _ _ _ _]. destruct files as [|f fs]; [done|].
    apply Forall_cons in Hfs as [[((Hne' & _) & _ & Hfl & _) _] _].
    pose proof (merged_perm (in_table <$> f :: fs)) as Hperm. rewrite E in Hperm. apply Permutation_nil_l in Hperm || apply Permutation_nil in Hperm.
    cbn [fmap list_fmap concat] in Hperm. destruct (in_table f) as [|[u [|x es]] ws]; [done|by apply Forall_cons in Hfl as [? _]|done].
  - intros q Hq. destruct (Hcol q Hq) as [Hq0 Hq1]. split; [done|nia].
Qed.

Lemma output_storable vs v x : vs ∈ outs -> v ∈ vs -> x ∈ v.2 -> storable (slot_len fl tls p) (field p x).
Proof.
  intros Hvs Hv Hx. destruct v as [u es]. cbn in Hx.
  assert ((u, x) ∈ edges_in (concat outs)) as Hin.
  { apply edges_in_elem. exists es. split; [|done]. apply list_elem_of_In, in_concat. exists vs. split; by apply list_elem_of_In. }
  rewrite (outputs_edges cfg fl tls pnum files (mr_files _ _ _ _ _ _ _ _ _ Hready)), merged_perm in Hin.
  apply list_elem_of_In, in_concat in Hin as (l & Hl%list_elem_of_In & Hin%list_elem_of_In).
  apply list_elem_of_fmap in Hl as (t & -> & (f & -> & Hf)%list_elem_of_fmap).
  apply edges_in_elem in Hin as (es' & Hes & Hx'). by apply (Hst f (u, es') x).
Qed.

(** A source of the inputs is read from its output file, then deeper. *)
Lemma output_read src ls dst is_out ty :
  src ∈ (concat outs).*1 -> newest_first (in_table <$> files) ->
  Forall (fun l => 0 < l) ls ->
  let x := entry (vid_to_mullevelIndex_ s) src in let x' := entry (vid_to_mullevelIndex_ s') src in
  Forall (fun l => at_level x' l = at_level x l) ls /\
  find_by_levels debug (with_data L (sst_data s')) None x' (0 :: ls) src dst (Z.of_nat p) is_out ty
  = then_levels (first_some ((fun f => table_value (in_table f) src dst is_out ty) <$> files))
      (find_by_levels debug (with_data L (sst_data s')) None x' ls src dst (Z.of_nat p) is_out ty).
Proof.
  intros Hsrc Hnew Hls x x'. pose proof Hready as [Hcfg _ _ _ _ _ Hfs Hd _ Hwf _ _].
  pose proof (outputs_table cfg fl tls pnum files Hfs Hd) as Htab. pose proof (flush_input_ok_concat _ Htab) as Hoks.
  pose proof (source_below _ _ Htab Hsrc) as Hb0.
  destruct (located_source fetch_time outs 0 src Hoks Hsrc) as (j & vs & i & es & b & e & Hj & Hi & Hb & He & Hloc).
  assert (vs ∈ outs) as Hvs by (by eapply list_elem_of_lookup_2).
  pose proof (Hids j (lookup_lt_Some _ _ _ Hj)) as Hidj.
  rewrite Nat.add_0_l, u32_small in Hloc by (change INVALID_File_ID with 2147483647 in *; lia).
  assert (x' = relocated 0 min_fid fids (fetch_time j) (ix_offset b) (ix_offset e) x) as Ex.
  { unfold x'. rewrite (pub_entry _ _ _ _ _ _ _ _ _ _ _ _ _ Hpub) by lia. by rewrite Hloc. }
  assert (at_level x' 0 = Some (mkLevel (fetch_time j) (ix_offset b) (ix_offset e))) as Ha.
  { rewrite Ex. unfold relocated, at_level. cbn [levels Z.ltb Z.compare andb Z.to_nat]. pose proof (Hwf src ltac:(lia)) as Hw'. unfold index_wf in Hw'.
    change (Z.to_nat LEVEL_INDEX_SIZE) with 4%nat in Hw'. fold x in Hw'.
    destruct (levels x !! _); apply list_lookup_insert_eq; lia. }
  split.
  - eapply Forall_impl; [exact Hls|]. intros l Hl. cbn beta in Hl. rewrite Ex. unfold at_level. destruct (l <? 0); [done|]. unfold relocated. cbn [levels].
    destruct (levels x !! Z.to_nat (0 - 1)); cbn [Z.ltb Z.compare andb]; apply list_lookup_insert_ne; simpl; lia.
  - rewrite (level_slot_read (sst_data s') x' 0 ls vs (compact_data fl tls pnum vs (fetch_time j)) (pod_encode (end_body fl tls vs) ++
        concat (pod_encode <$> ref_indexes vs) ++ pod_encode (ref_header vs (fetch_time j))) i src es b e dst is_out ty)
      with (fid := fetch_time j); try done.
    + f_equal.
      assert (table_value (concat outs) src dst is_out ty = first_version dst is_out ty es) as <-.
      { apply table_value_elem; [apply Htab|]. apply list_elem_of_In, in_concat. exists vs.
        split; apply list_elem_of_In; [done|by eapply list_elem_of_lookup_2]. }
      rewrite (merged_value (in_table <$> files)); [by rewrite <- list_fmap_compose| | |done|done|].
      * apply Forall_fmap. eapply Forall_impl; [exact Hfs|]. by intros f [(_ & ? & _) _].
      * by rewrite (list_fmap_compose in_table edges_in) in Hd.
      * by apply (outputs_edges cfg fl tls pnum).
    + by apply output_flushable.
    + rewrite Forall_forall in Hoks. by apply Hoks.
    + pose proof (output_edges vs Hvs). change EDGEBODY_SIZE with 16 in *. lia.
    + intros y Hy. apply (output_storable vs (src, es) y); [done|by eapply list_elem_of_lookup_2|done].
    + lia.
    + apply (pub_data _ _ _ _ _ _ _ _ _ _ _ _ _ Hpub j vs Hj).
Qed.
End After.
End Reads.

Lemma memtable_read_data `{StdHash} debug L d d' tables src dst pid is_out ty :
  find_edge_in_memtable debug (with_data L d') None tables src dst pid is_out ty
  = find_edge_in_memtable debug (with_data L d) None tables src dst pid is_out ty.
Proof. done. Qed.

Lemma outputs_has_source cfg flags tls property_num files src :
  Forall (input_ok cfg flags tls property_num) files ->
  src ∈ (concat (outputs cfg files)).*1 <-> exists f, f ∈ files /\ src ∈ (in_table f).*1.
Proof.
  intros Hok. split; [by apply (outputs_sources cfg flags tls property_num)|].
  intros (f & Hf & ([u es] & -> & Hin)%list_elem_of_fmap). cbn [fst].
  assert (es <> []) as Hne.
  { rewrite Forall_forall in Hok. destruct (Hok f Hf) as [(_ & _ & Hfl & _) _]. unfold filled in Hfl. rewrite Forall_forall in Hfl. apply (Hfl _ Hin). }
  destruct es as [|e es]; [done|].
  assert ((u, e) ∈ edges_in (concat (outputs cfg files))) as He.
  { rewrite (outputs_edges cfg flags tls property_num) by done. rewrite merged_perm. apply list_elem_of_In, in_concat.
    exists (edges_in (in_table f)). split; apply list_elem_of_In.
    - apply list_elem_of_fmap. exists (in_table f). split; [done|]. apply list_elem_of_fmap. by exists f.
    - apply edges_in_elem. exists (e :: es). split; [done|left]. }
  apply edges_in_elem in He as (es' & He & _). apply list_elem_of_fmap. by exists (u, es').
Qed.

(** A compaction of level 0 is invisible to point reads: the merge of the
    level-0 files with the level-1 files they overlap returns, and afterwards,
    with the input files taken out of the snapshot and the level index
    redirected, every [GetEdge] of every source, destination, direction, type
    and column answers exactly as before, whatever MemTables, other level-0
    files and deeper levels there are. *)
Theorem compaction_preserves_reads `{StdHash} debug L cfg p min_fid fetch_time inputs0 inputs1 s next P lst new old tables
    src dst is_out ty :
  let files := inputs0 ++ inputs1 in
  let ids := timeStamp ∘ cache_header ∘ in_cache <$> inputs0 in
  let fl := process_flags L in let tls := merge_layout L in let pnum := length (sub_property_lengths_ L) in
  let x := entry (vid_to_mullevelIndex_ s) src in
  (p < pnum)%nat -> 0 < slot_len fl tls p < 1024 -> 0 <= src < kInvalidVertexId ->
  merge_ready cfg fl tls pnum 0 fetch_time files s next ->
  sizes_fit fl tls pnum (zlen (merged (in_table <$> files))) ->
  EDGEBODY_SIZE * zlen (merged (in_table <$> files)) < 2 ^ 31 ->
  outputs cfg files = P ++ [lst] -> zlen (all_edges lst) mod (BODY_BUFFER_SIZE cfg - 1) <> 0 ->
  (forall j, (j < length (outputs cfg files))%nat ->
     0 <= fetch_time j < INVALID_File_ID /\ sst_data s !! fetch_time j = None) ->
  newest_first (in_table <$> files) -> Forall (input_readable L cfg p (sst_data s)) files ->
  level0_of src ids old inputs0 ->
  Forall (fun c => timeStamp (cache_header c) ∉ ids /\ is_Some (sst_data s !! timeStamp (cache_header c))) new ->
  (src ∈ (concat (outputs cfg files)).*1 -> level1_slot src x inputs1) ->
  (forall l d, at_level x l = Some d -> lv_fileID d <> INVALID_File_ID -> is_Some (sst_data s !! lv_fileID d)) ->
  exists s', ProcessMultiWaysCompaction cfg debug fl tls pnum 0 min_fid fetch_time (way_of <$> files) s = Some s' /\
    GetEdge debug (with_data L (sst_data s')) None
      (mkSnap tables (without ids (new ++ old)) (entry (vid_to_mullevelIndex_ s') src)) src dst (Z.of_nat p) is_out ty
    = GetEdge debug (with_data L (sst_data s)) None (mkSnap tables (new ++ old) x) src dst (Z.of_nat p) is_out ty.
Proof.
  intros files ids fl tls pnum x Hp Hw Hsrc Hready Hfit H31 Hout Hfull Hids Hnew Hread Hold Hnews Hslot Hdeep.
  destruct (merge_result cfg debug fl tls pnum 0 min_fid fetch_time files s next P lst Hready Hout) as (s' & E & Hpub).
  rewrite (proj2 (Z.eqb_neq _ _) Hfull), <- Hout in Hpub. exists s'. split; [exact E|].
  assert (forall id, is_Some (sst_data s !! id) -> sst_data s' !! id = sst_data s !! id) as Hkeep.
  { intros id [d Hd]. apply (pub_old _ _ _ _ _ _ _ _ _ _ _ _ _ Hpub). intros j Hj ->.
    destruct (Hids (0 + j)%nat Hj) as [_ Hn]. congruence. }
  unfold GetEdge. cbn [snap_tables]. rewrite (memtable_read_data debug L (sst_data s)).
  destruct (find_edge_in_memtable _ _ _ tables _ _ _ _ _) as [[rs pr]|]; simpl_bind; [|done]. destruct rs; try done.
  unfold find_edge_in_SStableCache. cbn [snap_level0 snap_findex].
  assert (without ids (new ++ old) = new ++ without ids old) as ->.
  { unfold without. rewrite filter_app. f_equal. clear -Hnews.
    induction Hnews as [|c new [Hc _] Hn IH]; [done|]. rewrite filter_cons_True by done. by f_equal. }
  rewrite !find_in_level0_app. rewrite (find_in_level0_data debug L p (sst_data s) (sst_data s') new).
  2:{ eapply Forall_impl; [exact Hnews|]. intros c [_ Hc]. by apply Hkeep. }
  destruct (find_in_level0 debug _ _ new _ _ _ _ _) as [[rs pr']|]; simpl_bind; [|done]. destruct rs; try done.
  rewrite (level0_without debug L p _ src ids old inputs0) by done. simpl_bind.
  apply Forall_app in Hread as [Hread0 Hread1].
  rewrite (level0_inputs_read debug L cfg p Hp Hw (sst_data s) src ids old inputs0) by done. simpl_bind.
  unfold find_edge_by_levelindex. change (seqZ 0 LEVEL_INDEX_SIZE) with [0; 1; 2; 3].
  assert (Forall (fun l => 0 < l) [1; 2; 3]) as Hls by (repeat constructor).
  destruct (decide (src ∈ (concat (outputs cfg files)).*1)) as [Hin|Hnin].
  - assert (forall f v y, f ∈ files -> v ∈ in_table f -> y ∈ v.2 -> storable (slot_len fl tls p) (field p y)) as Hstore.
    { intros f v y Hf. assert (Forall (input_readable L cfg p (sst_data s)) files) as Hall by (by apply Forall_app).
      rewrite Forall_forall in Hall. destruct (Hall f Hf) as (_ & _ & _ & Hy). apply Hy. }
    destruct (output_read debug L cfg p Hp Hw min_fid fetch_time files s s' next Hready Hfit H31
      (fun j Hj => proj1 (Hids j Hj)) Hstore Hpub src [1; 2; 3] dst is_out ty Hin Hnew Hls) as [Hsame ->].
    rewrite (level1_read debug L cfg p Hp Hw (sst_data s) src x inputs1 [1; 2; 3] dst is_out ty (Hslot Hin) Hread1).
    unfold files. rewrite fmap_app, first_some_app.
    rewrite (find_by_levels_data debug L p (sst_data s) (sst_data s') x) by
      (first [exact Hsame|intros l d _ Ha Hne; apply Hkeep; by apply (Hdeep l)]).
    destruct (first_some _) as [e|]; cbn [then_levels status_of]; [by destruct (marker e)|done].
  - assert (first_some ((fun f => table_value (in_table f) src dst is_out ty) <$> inputs0) = None) as ->.
    { rewrite first_some_filter, filter_none; [done|]. intros f Hf Hs. apply Hnin.
      apply (outputs_has_source cfg fl tls pnum); [apply Hready|]. exists f. split; [|done]. apply elem_of_app. by left. }
    cbn [status_of].
    assert (entry (vid_to_mullevelIndex_ s') src = x) as ->.
    { rewrite (pub_entry _ _ _ _ _ _ _ _ _ _ _ _ _ Hpub) by lia. destruct (located _ _ _ src) as [y|] eqn:El; [|done].
      destruct (located_key _ _ _ _ _ El) as [?|?]; [lia|done]. }
    apply find_by_levels_data; [by repeat constructor|]. intros l d _ Ha Hne. apply Hkeep. by apply (Hdeep l).
Qed.
