(* ===== verification/CompactionClaims.v ===== *)
(** * Compaction: the claims, on a sample

    A level 0 of two overlapping files over a level-1 file they overlap. *)

From S2P Require Import Prelude.
From S2P Require Import Types.
From S2P Require Import DeltaFile.
From S2P Require Import DeltaStore.
From S2P Require Import SkipList.
From S2P Require Import SkipListFacts.
From S2P Require Import MemTable.
From S2P Require Import PropertyLayout.
From S2P Require Import Sst.
From S2P Require Import SstBuild.
From S2P Require Import SstBuildFacts.
From S2P Require Import SstBuildTheorems.
From S2P Require Import MemTableFlush.
From S2P Require Import DeltaMerge.
From S2P Require Import LevelIndex.
From S2P Require Import LsmRead.
From S2P Require Import LsmHistory.
From S2P Require Import SstWriter.
From S2P Require Import CompactionMerge.
From S2P Require Import CompactionOutput.
From S2P Require Import CompactionWays.
From S2P Require Import CompactionTheorems.
From S2P Require Import CompactionPublish.
From S2P Require Import CompactionReads.

(** C13: A merge returns, and leaves in the store the files of the merged table:
    its edges are exactly those of the inputs, every file is a table in order
    and its index, header and columns are those of its image; the level index
    points every source to its file and no other entry changes. *)
Theorem compaction_publishes_merge cfg debug flags tls property_num level min_fid fetch_time files s next P lst :
  merge_ready cfg flags tls property_num level fetch_time files s next ->
  outputs cfg files = P ++ [lst] -> zlen (all_edges lst) mod (BODY_BUFFER_SIZE cfg - 1) <> 0 ->
  edges_in (concat (outputs cfg files)) ≡ₚ concat (edges_in ∘ in_table <$> files) /\
  flush_input_ok (concat (outputs cfg files)) /\
  exists s', ProcessMultiWaysCompaction cfg debug flags tls property_num level min_fid fetch_time (way_of <$> files) s = Some s' /\
    published level min_fid (input_0_fids (way_of <$> files)) flags tls property_num fetch_time (outputs cfg files) 0 0 s s' next.
Proof.
  intros Hr Ho Hfull. split_and!.
  - rewrite (outputs_edges cfg flags tls property_num) by apply Hr. by rewrite merged_perm, (list_fmap_compose in_table edges_in).
  - apply (outputs_table cfg flags tls property_num); apply Hr.
  - destruct (merge_result cfg debug flags tls property_num level min_fid fetch_time files s next P lst Hr Ho) as (s' & E & Hp).
    rewrite (proj2 (Z.eqb_neq _ _) Hfull), <- Ho in Hp. by exists s'.
Qed.

(** With the constants of the build, a merge whose only output has exactly
    262143 edges publishes nothing: the body buffer has just been written out,
    [IsClear] takes the empty buffer for an unused writer, and [WriteEnd] is
    skipped. The inputs are retired all the same. *)
Theorem full_buffer_output_lost debug flags tls property_num level min_fid fetch_time files s next lst :
  merge_ready default_config flags tls property_num level fetch_time files s next ->
  outputs default_config files = [lst] -> zlen (all_edges lst) = 262143 ->
  ProcessMultiWaysCompaction default_config debug flags tls property_num level min_fid fetch_time (way_of <$> files) s = Some s.
Proof.
  intros Hr Ho Hn. destruct Hr as [H1 H2 H3 H4 H5 H6 H7 H8 H9 H10 H11 H12].
  rewrite (merge_publishes default_config debug flags tls property_num level min_fid fetch_time H1 H2 H3 files s [] lst s) by done.
  by rewrite Hn.
Qed.

(** ** The sample *)
Definition sample_input (fid : Z) (vs : Table) (in0 : bool) : InputFile :=
  let fl := mkFlags 1 8 in let tls := scoped_enter (Some history_lengths) in
  mkInput vs (mkCache (ref_header vs fid) 0 (ref_indexes vs))
    (mkSst (ref_indexes vs) (SstBuildTheorems.ref_file fl tls vs fid) (ref_column fl tls vs <$> seq 0 1)) in0.

Definition level1_vs : Table := [(1, [mkEdge 5 1 false [byte_of 70] true 1; mkEdge 7 0 false [byte_of 71] true 1]); (6, [mkEdge 2 0 false [byte_of 72] true 1])].
Definition older_vs : Table := [(1, [mkEdge 7 2 false [byte_of 65] true 1]); (4, [mkEdge 3 3 false [byte_of 67] true 1])].
Definition newer_vs : Table := [(1, [mkEdge 5 5 true [] true 1; mkEdge 9 4 false [byte_of 68] true 1])].

Definition sample_inputs0 : list InputFile := [sample_input 11 newer_vs true; sample_input 10 older_vs true].
Definition sample_inputs1 : list InputFile := [sample_input 3 level1_vs false].
Definition sample_files : list InputFile := sample_inputs0 ++ sample_inputs1.

Definition sample_storage : option Storage :=
  a ← lazy_set (ResetStorage 100) 1 (mkMulLevel (<[0%nat := mkLevel 3 0 32]> (levels empty_index)) 0);
  a ← lazy_set a 6 (mkMulLevel (<[0%nat := mkLevel 3 32 48]> (levels empty_index)) 0);
  Some (mkStorage [in_cache <$> sample_inputs0; in_cache <$> sample_inputs1; []] a ∅
    (list_to_map ((fun f => (timeStamp (cache_header (in_cache f)), in_data f)) <$> sample_files))).
Definition sample_store : Storage := default (mkStorage [] (ResetStorage 0) ∅ ∅) sample_storage.
Definition sample_ids (j : nat) : Z := 12 + Z.of_nat j.
Definition sample_columns : LsmColumns := mkColumns kEdge 3 history_lengths [] kProcessCrashSafe ∅ (mkFlags 1 8).

Lemma sample_entry v : 0 <= v -> entry (vid_to_mullevelIndex_ sample_store) v =
  if decide (v = 6) then mkMulLevel (<[0%nat := mkLevel 3 32 48]> (levels empty_index)) 0
  else if decide (v = 1) then mkMulLevel (<[0%nat := mkLevel 3 0 32]> (levels empty_index)) 0 else empty_index.
Proof.
  intros Hv. unfold sample_store, sample_storage.
  destruct (lazy_set_spec (ResetStorage 100) 1 (mkMulLevel (<[0%nat := mkLevel 3 0 32]> (levels empty_index)) 0))
    as (a1 & -> & H1 & C1 & _); [done|done|]. simpl_bind.
  destruct (lazy_set_spec a1 6 (mkMulLevel (<[0%nat := mkLevel 3 32 48]> (levels empty_index)) 0))
    as (a2 & -> & H2 & _); [done|by rewrite C1|]. cbn [default vid_to_mullevelIndex_ mbind option_bind].
  rewrite H2, H1 by done. repeat case_decide; try done. 
Qed.

Lemma sample_table_ok vs fid in0 :
  flush_input_ok vs -> filled vs -> vs <> [] -> 0 <= zlen (all_edges vs) < 1000 -> zlen vs < 1000 ->
  input_ok default_config (mkFlags 1 8) (scoped_enter (Some history_lengths)) 1 (sample_input fid vs in0).
Proof.
  intros Hin Hfl Hne Hn Hv. split; [|apply flushed_holds_table]. change (in_table _) with vs. split_and!; [|done|done|].
  - split_and!; [done| |lia]. split; [change EDGEBODY_SIZE with 16; lia|].
    intros [|q] Hq; [|lia]. change (slot_len _ _ 0) with 2. lia.
  - change (MAX_INDEX_NUM default_config) with 4194302. lia.
Qed.

Lemma sample_inputs_ok : Forall (input_ok default_config (mkFlags 1 8) (scoped_enter (Some history_lengths)) 1) sample_files.
Proof.
  repeat (constructor; [apply sample_table_ok; [|repeat constructor; done|done|by vm_compute|by vm_compute];
    split; [repeat constructor|repeat (constructor; [split_and!; try done; [eval_prop|repeat constructor]|]); constructor]|]).
  constructor.
Qed.

Lemma sample_ready : merge_ready default_config (mkFlags 1 8) (scoped_enter (Some history_lengths)) 1 0 sample_ids sample_files sample_store [in_cache (sample_input 3 level1_vs false)].
Proof.
  split.
  - apply default_config_ok.
  - lia.
  - intros [|q] Hq; [|lia]. by vm_compute.
  - done.
  - unfold sample_ids. lia.
  - done.
  - apply sample_inputs_ok.
  - eval_prop.
  - by vm_compute.
  - intros v Hv. rewrite sample_entry by done. by repeat case_decide.
  - assert (Forall (fun f => Forall (has_block sample_store) (in_table f).*1) sample_files) as Hb
      by (repeat constructor; by vm_compute).
    intros f v Hf Hv. rewrite Forall_forall in Hb. specialize (Hb f Hf). rewrite Forall_forall in Hb. by apply Hb.
  - done.
Qed.

Definition sample_out : Table :=
  [(1, [mkEdge 5 5 true [] true 1; mkEdge 5 1 false [byte_of 70] true 1; mkEdge 7 2 false [byte_of 65] true 1;
        mkEdge 7 0 false [byte_of 71] true 1; mkEdge 9 4 false [byte_of 68] true 1]);
   (4, [mkEdge 3 3 false [byte_of 67] true 1]); (6, [mkEdge 2 0 false [byte_of 72] true 1])].

Lemma compaction_publishes_merge_witness :
  exists s', ProcessMultiWaysCompaction default_config true (mkFlags 1 8) (scoped_enter (Some history_lengths)) 1 0 11 sample_ids
    (way_of <$> sample_files) sample_store = Some s' /\
  sst_data s' !! 12 = Some (compact_data (mkFlags 1 8) (scoped_enter (Some history_lengths)) 1 sample_out 12).
Proof.
  destruct (compaction_publishes_merge default_config true (mkFlags 1 8) (scoped_enter (Some history_lengths)) 1 0 11 sample_ids
    sample_files sample_store [in_cache (sample_input 3 level1_vs false)] [] sample_out) as (_ & _ & s' & E & [_ _ _ Hd _ _]);
    [apply sample_ready|vm_compute; reflexivity|vm_compute; congruence|].
  exists s'. split; [exact E|]. by apply (Hd 0%nat).
Defined.

Lemma sample_readable : Forall (input_readable sample_columns default_config 0 (sst_data sample_store)) sample_files.
Proof.
  assert (Forall (fun f => EDGEBODY_SIZE * zlen (all_edges (in_table f)) < 2 ^ 31 /\
    Forall (fun v : Z * list Edge => Forall (fun x => storable 2 (field 0 x)) v.2) (in_table f)) sample_files) as Hst by eval_prop.
  assert (Forall (fun f => sst_data sample_store !! timeStamp (cache_header (in_cache f)) = Some (in_data f)) sample_files) as Hd
    by (repeat constructor; vm_compute; reflexivity).
  pose proof sample_inputs_ok as Hok. rewrite Forall_forall in *. intros f Hf. destruct (Hst f Hf) as [Hsz Hs].
  split_and!; [by apply Hok|done|by apply Hd|]. intros v x Hv Hx. rewrite Forall_forall in Hs. specialize (Hs v Hv).
  rewrite Forall_forall in Hs. by apply Hs.
Qed.

Lemma sample_files_known l d :
  at_level (entry (vid_to_mullevelIndex_ sample_store) 1) l = Some d -> lv_fileID d <> INVALID_File_ID ->
  is_Some (sst_data sample_store !! lv_fileID d).
Proof.
  rewrite sample_entry, decide_False, decide_True by done. unfold at_level. destruct (Z.ltb_spec l 0); [done|].
  cbn [levels]. destruct (Z.to_nat l) as [|[|[|[|k]]]]; cbn; intros [= <-]; intros Hne; done.
Qed.

Lemma compaction_preserves_reads_witness :
  let H : StdHash := fun z => z in
  exists s', ProcessMultiWaysCompaction default_config true (mkFlags 1 8) (scoped_enter (Some history_lengths)) 1 0 11 sample_ids
    (way_of <$> sample_files) sample_store = Some s' /\
  GetEdge true (with_data sample_columns (sst_data s')) None
    (mkSnap [] [] (entry (vid_to_mullevelIndex_ s') 1)) 1 7 0 true 1 = Some (kOk, Some [byte_of 65]).
Proof.
  intros H.
  destruct (compaction_preserves_reads true sample_columns default_config 0 11 sample_ids sample_inputs0 sample_inputs1 sample_store
    [in_cache (sample_input 3 level1_vs false)] [] sample_out [] (in_cache <$> sample_inputs0) [] 1 7 true 1) as (s' & E & Hread).
  - eval_prop.
  - eval_prop.
  - eval_prop.
  - apply sample_ready.
  - split; [by vm_compute|]. intros [|q] Hq; [by vm_compute|]. change (length _) with 1%nat in Hq. lia.
  - by vm_compute.
  - vm_compute. reflexivity.
  - vm_compute. congruence.
  - intros [|j] Hj; [by vm_compute|]. vm_compute in Hj. lia.
  - repeat constructor; eval_prop.
  - apply sample_readable.
  - apply l0_input; [eval_prop|]. apply l0_input; [eval_prop|]. constructor.
  - constructor.
  - intros _. left. eexists (sample_input 3 level1_vs false), 0%nat, _, _, _. split_and!; vm_compute; try reflexivity. congruence.
  - apply sample_files_known.
  - exists s'. split; [exact E|]. etrans; [exact Hread|]. vm_compute. reflexivity.
Defined.

(** The same with a buffer of three bodies, evaluated: the two edges of the only
    input reach no file. *)
Example two_edges_lost :
  let cfg := mkConfig 3 100 1000 100 in
  let f := sample_input 11 newer_vs true in
  sst_data <$> ProcessMultiWaysCompaction cfg true (mkFlags 1 8) (scoped_enter (Some history_lengths)) 1 0 11 sample_ids [way_of f] sample_store
  = Some (sst_data sample_store) /\
  fileMetaCache_ <$> ProcessMultiWaysCompaction cfg true (mkFlags 1 8) (scoped_enter (Some history_lengths)) 1 0 11 sample_ids [way_of f] sample_store
  = Some (fileMetaCache_ sample_store).
Proof. split; vm_compute; reflexivity. Qed.
