(* ===== verification/Reopen.v ===== *)
(** * Closing and reopening a store

    [LSMStore::~LSMStore] as far as it makes the store durable (the flush of the
    active table and file.info) and the part of [LSMStore::LSMStore] that loads
    an existing directory, both of src/lsmstore.cpp.  The directory is a map
    from file ids to the topology file with its column files.  file.info is read
    through an [ifstream]: a read past the end keeps the bytes it got, and after
    a failed read every later one leaves its variable as it is.

    [None] is a fatal exit, an exception or, with [debug], a failed assertion;
    closing also waits for the tables that are being flushed. *)

From S2P Require Import Prelude.
From S2P Require Import Types.
From S2P Require Import Names.
From S2P Require Import DeltaFile.
From S2P Require Import DeltaStore.
From S2P Require Import PropertyLayout.
From S2P Require Import Sst.
From S2P Require Import SkipList.
From S2P Require Import NeighBors.
From S2P Require Import MemTable.
From S2P Require Import SstBuild.
From S2P Require Import DeltaMerge.
From S2P Require Import LevelIndex.
From S2P Require Import LsmRead.
From S2P Require Import LsmWrite.
From S2P Require Import SstWriter.

Record DiskFile := mkDisk { e_file : bytes; p_files : list bytes }.
Definition kFileInfoSequenceMagic : Z := 5929344362323726641.

(** ** file.info *)
Definition write_level (level : list SSTableCache) : bytes :=
  le 4 (zlen level) ++ concat ((fun c => le 8 (timeStamp (cache_header c))) <$> level).

Definition write_file_info (max_vertex_num : Z) (fileMetaCache : list (list SSTableCache)) (next_topology_sequence : Z) : bytes :=
  le 8 max_vertex_num ++ le 4 (zlen fileMetaCache) ++ concat (write_level <$> fileMetaCache) ++
  le 8 kFileInfoSequenceMagic ++ le 8 next_topology_sequence.

Record Stream := mkStream { st_rest : bytes; st_good : bool }.

(** [file.read] into a variable of [n] bytes that holds [old]. *)
Definition stream_read (n : nat) (old : Z) (st : Stream) : Z * Stream :=
  if st_good st then
    let got := take n (st_rest st) in
    (of_le (got ++ drop (length got) (le n old)), mkStream (drop n (st_rest st)) (bool_decide (length got = n)))
  else (old, st).

(** ** Loading *)

(** The newest sequence of a file from its bodies, the sentinel left out. *)
Definition ScanSstNextTopologySequence (header : Header) (data : SstData) : option Z :=
  if Sst.size header <=? 1 then Some 0
  else
    seqs ← mapM (fun i => get_seq_at (edge_data data) (i * EDGEBODY_SIZE)) (seqZ 0 (Sst.size header - 1));
    let newest := foldl Z.max (-1) seqs in
    Some (if newest <? 0 then 0 else newest + 1).

(** The newest sequence a file may hold when only the next one is known. *)
Definition RestoreConservativeNewestEdge (next_sequence : Z) : Z := if next_sequence =? 0 then 0 else next_sequence - 1.

Definition time_ge (a b : SSTableCache) : Prop := timeStamp (cache_header b) <= timeStamp (cache_header a).
#[export] Instance time_ge_dec a b : Decision (time_ge a b).
Proof. unfold time_ge. apply _. Defined.
#[global] Typeclasses Opaque time_ge.

(** The variables of the loop over the levels. *)
Record Loading := mkLoading {
  ld_stream : Stream;
  level_file_num : Z;
  ld_fid : Z;
  ld_storage : Storage;
  recovered_caches : list SSTableCache;
  ld_time : Z;
}.

Section Load.
Context (debug : bool) (max_vertex_num_ : Z) (disk : gmap Z DiskFile).

(** A level-0 file: its sources have an edge on disk. *)
Fixpoint mark_sources (indexes : list Index) (lv : gmap Z Z) : gmap Z Z :=
  match indexes with
  | x :: (_ :: _) as rest =>
      mark_sources rest (if ix_key x <? max_vertex_num_ then <[ix_key x := write_max (default 0 (lv !! ix_key x)) 1]> lv else lv)
  | _ => lv
  end.

(** A file of a lower level: the index of its sources. [int index_id] is
    converted to the key type of the array again. *)
Fixpoint index_sources (level fid : Z) (indexes : list Index) (a : LazyArray) (lv : gmap Z Z)
  : option (LazyArray * gmap Z Z) :=
  match indexes with
  | x :: (y :: _) as rest =>
      let lv := if ix_key x <? max_vertex_num_ then <[ix_key x := write_max (default 0 (lv !! ix_key x)) (level + 1)]> lv else lv in
      let index_id := u64 (signed 32 (ix_key x)) in
      '(a, findex) ← lazy_get a index_id;
      findex ← set_fileID findex (level - 1) (u32 fid);
      findex ← set_offset findex (level - 1) (ix_offset x);
      findex ← set_next_offset findex (level - 1) (ix_offset y);
      a ← lazy_set a index_id findex;
      index_sources level fid rest a lv
  | [_] => Some (a, lv)
  | [] => None
  end.

(** [SSTableCache(dataDir + "/" + tableName, sstdata_manager_)] with the index
    it keeps: lower levels drop it. *)
Definition load_file (level : Z) (l : Loading) : option Loading :=
  let '(fid, st) := stream_read 8 (ld_fid l) (ld_stream l) in
  f ← disk !! fid;
  '(header, indexes) ← LoadSSTableCache (e_file f);
  let s := ld_storage l in
  let key := u32 (timeStamp header) in
  g ← disk !! key;
  _ ← assert_ debug (bool_decide (sst_data s !! key = None));
  '(a, lv) ← (if level =? 0 then Some (vid_to_mullevelIndex_ s, mark_sources indexes (vertex_max_level_ s))
              else index_sources level (timeStamp header) indexes (vid_to_mullevelIndex_ s) (vertex_max_level_ s));
  let kept := if level =? 0 then indexes else [] in
  let cache := mkCache header 0 kept in
  files ← fileMetaCache_ s !! Z.to_nat level;
  Some (mkLoading st (level_file_num l) fid
    (mkStorage (<[Z.to_nat level := files ++ [cache]]> (fileMetaCache_ s)) a lv (<[key := mkSst kept (e_file g) (p_files g)]> (sst_data s)))
    (recovered_caches l ++ [cache]) (Z.max (ld_time l) (timeStamp header))).

Fixpoint load_files (n : nat) (level : Z) (l : Loading) : option Loading :=
  match n with
  | O => Some l
  | S n => l ← load_file level l; load_files n level l
  end.

Definition sort_level (level : Z) (s : Storage) : option Storage :=
  files ← fileMetaCache_ s !! Z.to_nat level;
  Some (mkStorage (<[Z.to_nat level := if level =? 0 then merge_sort time_ge files else merge_sort min_key_le files]> (fileMetaCache_ s))
    (vid_to_mullevelIndex_ s) (vertex_max_level_ s) (sst_data s)).

Definition load_level (level : Z) (l : Loading) : option Loading :=
  let '(num, st) := stream_read 4 (level_file_num l) (ld_stream l) in
  let l := mkLoading st num (ld_fid l) (ld_storage l) (recovered_caches l) (ld_time l) in
  if 0 <? signed 32 num then
    l ← load_files (Z.to_nat (signed 32 num)) level l;
    s ← sort_level level (ld_storage l);
    Some (mkLoading (ld_stream l) (level_file_num l) (ld_fid l) s (recovered_caches l) (ld_time l))
  else Some l.

Fixpoint load_levels (levels : list Z) (l : Loading) : option Loading :=
  match levels with
  | [] => Some l
  | level :: levels => l ← load_level level l; load_levels levels l
  end.

(** What a directory gives back: the files with their index, the largest file
    id, the next sequence, the newest sequence kept for each file. *)
Record Recovered := mkRecovered { rec_storage : Storage; rec_caches : list SSTableCache; rec_time : Z; rec_next : Z; rec_newest : list Z }.

Definition scan_caches (s : Storage) (caches : list SSTableCache) : option (list Z) :=
  mapM (fun c => d ← sst_data s !! u32 (timeStamp (cache_header c)); ScanSstNextTopologySequence (cache_header c) d) caches.

(** The next sequence: from the end of file.info, or for a file of the older
    format from the files. *)
Definition recover_sequence (l : Loading) : option Recovered :=
  let '(sequence_magic, st) := stream_read 8 0 (ld_stream l) in
  let '(persisted, st) := stream_read 8 0 st in
  let persisted := signed 64 persisted in
  if st_good st && (sequence_magic =? kFileInfoSequenceMagic) && (0 <=? persisted) then
    Some (mkRecovered (ld_storage l) (recovered_caches l) (ld_time l) persisted
      ((fun _ => RestoreConservativeNewestEdge persisted) <$> recovered_caches l))
  else
    nexts ← scan_caches (ld_storage l) (recovered_caches l);
    Some (mkRecovered (ld_storage l) (recovered_caches l) (ld_time l) (foldl Z.max 0 nexts) ((fun n => Z.max 0 (n - 1)) <$> nexts)).

Definition empty_storage (lv : gmap Z Z) : Storage := mkStorage (replicate (Z.to_nat MAX_LEVEL) []) (ResetStorage max_vertex_num_) lv ∅.

(** The whole load into the store [s] of the constructor. *)
Definition recover (file_info : option bytes) (s : LSMStore) : option (LSMStore * Recovered) :=
  match file_info with
  | None => Some (s, mkRecovered (empty_storage (vertex_levels s)) [] (currentTime s) 0 [])
  | Some text =>
      let '(max_vertex_num, st) := stream_read 8 0 (mkStream text true) in
      let '(levelNum, st) := stream_read 4 0 st in
      let s := InitVerticesUpTo max_vertex_num s in
      let l := mkLoading st 0 0 (empty_storage (vertex_levels s)) [] (currentTime s) in
      if 0 <? signed 32 levelNum then
        l ← load_levels (seqZ 0 (signed 32 levelNum)) l;
        r ← recover_sequence l;
        Some (s, r)
      else Some (s, mkRecovered (ld_storage l) [] (ld_time l) 0 [])
  end.
End Load.

(** ** The store *)

(** [LSMStore::LSMStore] with [FLAGS_LOAD_OLD_DATA]: the active table moves
    beyond the recovered ids, and level 0 is published.  The write path has no
    level index, so of the files it keeps level 0. *)
Definition open_store (debug : bool) (tables : nat) (capacity max_vertex_num_ : Z) (disk : gmap Z DiskFile) (file_info : option bytes)
  : option (LSMStore * Recovered) :=
  '(s, r) ← recover debug max_vertex_num_ disk file_info (new_store tables capacity);
  let fid := rec_time r + 1 in
  let m := start_table fid (rec_next r) (memTable_ s) in
  level0 ← fileMetaCache_ (rec_storage r) !! 0%nat;
  Some (mkLsm m (immutables s) (free_menTables s) level0 (sst_data (rec_storage r)) (vertex_max_level_ (rec_storage r)) (fid + 1)
          (rec_next r + max_edge_num m) (rec_next r) (vertex_id_ s)
          (sum_list ((fun c => Z.to_nat (Sst.size (cache_header c) - 1)) <$> rec_caches r)), r).

(** [~LSMStore]: what is on disk when it returns. *)
Definition disk_of (d : SstData) : DiskFile := mkDisk (edge_data d) (property_data d).

(** [lower] is [fileMetaCache] from level 1 on.  Full tables are flushed and
    compactions run before; one that is scheduled but has not started is a
    compaction before the close. *)
Definition close_store (L : LsmColumns) (max_subcompactions : Z) (interleave : list (list SstBuild.Write) -> list SstBuild.Write) (level_0_max_sst_num_ : Z)
    (lower : list (list SSTableCache)) (s : LSMStore) : option (gmap Z DiskFile * bytes) :=
  match immutables s with
  | _ :: _ => None
  | [] =>
      s ← (if 0 <? listLength (memTable_ s) then
             flush_table L max_subcompactions interleave level_0_max_sst_num_ 0
               (mkLsm (memTable_ s) [memTable_ s] (free_menTables s) (level0_files s) (lsm_data s) (vertex_levels s) (currentTime s)
                  (global_seq s) (next_topology_sequence_ s) (vertex_id_ s) (insertions s))
           else Some s);
      Some (disk_of <$> lsm_data s,
            write_file_info (vertex_id_ s) (level0_files s :: lower) (next_topology_sequence_ s))
  end.
