(* ===== verification/ReopenFacts.v ===== *)
(** * What a load gives back

    The bytes of file.info are read back field by field; the files it names are
    loaded level by level.  The index of the lower levels is rebuilt from the
    files. *)

From S2P Require Import Prelude.
From S2P Require Import Types.
From S2P Require Import Sst.
From S2P Require Import SkipList.
From S2P Require Import SkipListFacts.
From S2P Require Import LevelIndex.
From S2P Require Import LsmRead.
From S2P Require Import LsmWrite.
From S2P Require Import SstWriter.
From S2P Require Import Reopen.

(** ** Streams *)
Lemma stream_read_le n z old rest :
  fits (8 * Z.of_nat n) z -> stream_read n old (mkStream (le n z ++ rest) true) = (z, mkStream rest true).
Proof.
  intros Hz. unfold stream_read. cbn [st_good st_rest].
  rewrite take_app_length', drop_app_length' by (symmetry; apply length_le). rewrite length_le.
  rewrite (drop_ge (le n old)) by (rewrite length_le; lia). rewrite app_nil_r, of_le_le_fits by done.
  by rewrite bool_decide_eq_true_2.
Qed.

Lemma stream_read_end n old : (0 < n)%nat -> (stream_read n old (mkStream [] true)).2 = mkStream [] false.
Proof. intros Hn. unfold stream_read. cbn. rewrite take_nil, drop_nil. by rewrite bool_decide_eq_false_2 by (simpl; lia). Qed.

Lemma InitVerticesUpTo_time n s : currentTime (InitVerticesUpTo n s) = currentTime s.
Proof.
  unfold InitVerticesUpTo. destruct (_ <=? _); [done|]. cbn. generalize (seqZ (vertex_id_ s) (n - vertex_id_ s)) as vids. intros vids.
  revert s. induction vids as [|v vids IH]; intros s; [done|]. cbn [foldl]. by rewrite IH.
Qed.

Lemma foldl_max_bound x zs : x <= foldl Z.max x zs /\ Forall (fun z => z <= foldl Z.max x zs) zs.
Proof.
  revert x. induction zs as [|z zs IH]; intros x; cbn; [split; [lia|constructor]|]. destruct (IH (Z.max x z)) as [H1 H2].
  split; [lia|]. constructor; [lia|done].
Qed.

Lemma foldl_max_le x y zs : x <= y -> Forall (fun z => z <= y) zs -> foldl Z.max x zs <= y.
Proof. revert x. induction zs as [|z zs IH]; intros x Hx Hf; cbn; [done|]. apply Forall_cons in Hf as [Hz Hf]. apply IH; [lia|done]. Qed.

Lemma merge_sort_id {A} (R : A -> A -> Prop) `{!forall x y, Decision (R x y), !Transitive R, !Total R} (l : list A) :
  StronglySorted (fun x y => R x y /\ ~ R y x) l -> merge_sort R l = l.
Proof.
  intros Hs.
  assert (forall l1 l2, l1 ≡ₚ l2 -> StronglySorted (fun x y => R x y /\ ~ R y x) l1 -> StronglySorted R l2 -> l1 = l2) as Hu.
  { clear. intros l1. induction l1 as [|x l1 IH]; intros l2 Hp Hs Hr; [by apply Permutation_nil_l in Hp as ->|].
    destruct l2 as [|y l2]; [by apply Permutation_nil_r in Hp|]. apply StronglySorted_inv in Hs as [Hs Hx]. apply StronglySorted_inv in Hr as [Hr Hy].
    assert (x = y) as <-.
    { rewrite Forall_forall in Hx, Hy. assert (x ∈ y :: l2) as [?|Hin]%elem_of_cons by (rewrite <- Hp; left); [done|].
      assert (y ∈ x :: l1) as [?|Hin']%elem_of_cons by (rewrite Hp; left); [done|]. destruct (Hx y Hin'). by apply Hy in Hin. }
    f_equal. apply IH; [by apply Permutation_cons_inv in Hp|done|done]. }
  symmetry. apply Hu; [symmetry; apply merge_sort_Permutation|done|by apply StronglySorted_merge_sort].
Qed.

#[export] Instance time_ge_trans : Transitive time_ge.
Proof. intros a b c. unfold time_ge. lia. Qed.
#[export] Instance time_ge_total : Total time_ge.
Proof. intros a b. unfold time_ge. lia. Qed.

(** ** Files *)

(** A file as its header and its index say. *)
Definition Desc : Type := Header * list Index.
Definition stamp (d : Desc) : Z := timeStamp d.1.

Definition kept (level : Z) (ixs : list Index) : list Index := if level =? 0 then ixs else [].
Definition reloaded (level : Z) (d : Desc) : SSTableCache := mkCache d.1 0 (kept level d.2).
Definition sorted_level (level : Z) (files : list SSTableCache) : list SSTableCache :=
  if level =? 0 then merge_sort time_ge files else merge_sort min_key_le files.

Definition described (c : SSTableCache) (d : Desc) : Prop := cache_header c = d.1.

Section Load.
Context (debug : bool) (max_vertex_num_ : Z) (disk : gmap Z DiskFile).

Definition on_disk (d : Desc) : Prop :=
  fits 32 (stamp d) /\ exists f, disk !! stamp d = Some f /\ LoadSSTableCache (e_file f) = Some d.

(** The index after the files of a level. *)
Definition index_file (level : Z) (d : Desc) (a : LazyArray) (lv : gmap Z Z) : option (LazyArray * gmap Z Z) :=
  if level =? 0 then Some (a, mark_sources max_vertex_num_ d.2 lv) else index_sources max_vertex_num_ level (stamp d) d.2 a lv.

Fixpoint index_files (level : Z) (ds : list Desc) (a : LazyArray) (lv : gmap Z Z) : option (LazyArray * gmap Z Z) :=
  match ds with
  | [] => Some (a, lv)
  | d :: ds => '(a, lv) ← index_file level d a lv; index_files level ds a lv
  end.

Fixpoint index_levels (level : Z) (Ds : list (list Desc)) (a : LazyArray) (lv : gmap Z Z) : option (LazyArray * gmap Z Z) :=
  match Ds with
  | [] => Some (a, lv)
  | ds :: Ds => '(a, lv) ← index_files level ds a lv; index_levels (level + 1) Ds a lv
  end.

Lemma marks_only (Ds : list Desc) a lv :
  index_files 0 Ds a lv = Some (a, foldl (fun lv d => mark_sources max_vertex_num_ d.2 lv) lv Ds).
Proof. revert lv. induction Ds as [|d Ds IH]; intros lv; [done|]. cbn [index_files foldl]. unfold index_file. cbn [Z.eqb]. simpl_bind. apply IH. Qed.

(** The data of loaded files, and of the others. *)
Definition data_loaded (level : Z) (ds : list Desc) (data : gmap Z SstData) : Prop :=
  forall d, d ∈ ds -> exists f, disk !! stamp d = Some f /\ data !! stamp d = Some (mkSst (kept level d.2) (e_file f) (p_files f)).

Definition same_data (ids : list Z) (data data' : gmap Z SstData) : Prop := forall id, id ∉ ids -> data' !! id = data !! id.

Lemma data_loaded_same level ds ids data data' :
  data_loaded level ds data -> same_data ids data data' -> (forall d, d ∈ ds -> stamp d ∉ ids) -> data_loaded level ds data'.
Proof. intros Hd Hs Hn d Hin. destruct (Hd d Hin) as (f & Hf & E). exists f. split; [done|]. by rewrite Hs by (by apply Hn). Qed.

Definition stream_of (ds : list Desc) : bytes := concat ((fun d => le 8 (stamp d)) <$> ds).

Lemma load_file_spec level d l rest files a lv :
  ld_stream l = mkStream (le 8 (stamp d) ++ rest) true -> on_disk d -> sst_data (ld_storage l) !! stamp d = None ->
  fileMetaCache_ (ld_storage l) !! Z.to_nat level = Some files ->
  index_file level d (vid_to_mullevelIndex_ (ld_storage l)) (vertex_max_level_ (ld_storage l)) = Some (a, lv) ->
  exists f, disk !! stamp d = Some f /\
  load_file debug max_vertex_num_ disk level l = Some (mkLoading (mkStream rest true) (level_file_num l) (stamp d)
    (mkStorage (<[Z.to_nat level := files ++ [reloaded level d]]> (fileMetaCache_ (ld_storage l))) a lv
       (<[stamp d := mkSst (kept level d.2) (e_file f) (p_files f)]> (sst_data (ld_storage l))))
    (recovered_caches l ++ [reloaded level d]) (Z.max (ld_time l) (stamp d))).
Proof.
  intros Hst (Hfit & f & Hf & Hload) Hnone Hfiles Hix. exists f. split; [done|]. destruct d as [h ixs].
  assert (fits 64 (stamp (h, ixs))) as H64 by (unfold fits in *; change (2 ^ 32) with 4294967296 in Hfit; change (2 ^ 64) with 18446744073709551616; lia).
  unfold load_file. rewrite Hst, stream_read_le by done. rewrite Hf. simpl_bind. rewrite Hload. simpl_bind.
  assert (u32 (timeStamp h) = stamp (h, ixs)) as -> by (apply Z.mod_small; exact Hfit).
  rewrite Hf. simpl_bind. rewrite (bool_decide_eq_true_2 _ Hnone), assert_true. simpl_bind.
  unfold index_file in Hix. cbn [fst snd] in Hix. change (stamp (h, ixs)) with (timeStamp h) in Hix at 1.
  unfold reloaded, kept. cbn [fst snd]. destruct (level =? 0); rewrite Hix; simpl_bind; rewrite Hfiles; simpl_bind; done.
Qed.

Lemma load_files_spec level ds l rest files a lv :
  ld_stream l = mkStream (stream_of ds ++ rest) true -> Forall on_disk ds -> NoDup (stamp <$> ds) ->
  (forall d, d ∈ ds -> sst_data (ld_storage l) !! stamp d = None) ->
  fileMetaCache_ (ld_storage l) !! Z.to_nat level = Some files ->
  index_files level ds (vid_to_mullevelIndex_ (ld_storage l)) (vertex_max_level_ (ld_storage l)) = Some (a, lv) ->
  exists fid data, load_files debug max_vertex_num_ disk (length ds) level l = Some (mkLoading (mkStream rest true) (level_file_num l) fid
      (mkStorage (<[Z.to_nat level := files ++ (reloaded level <$> ds)]> (fileMetaCache_ (ld_storage l))) a lv data)
      (recovered_caches l ++ (reloaded level <$> ds)) (foldl Z.max (ld_time l) (stamp <$> ds))) /\
    data_loaded level ds data /\ same_data (stamp <$> ds) (sst_data (ld_storage l)) data.
Proof.
  revert l files. induction ds as [|d ds IH]; intros l files Hst Hd Hnd Hnone Hfiles Hix.
  - injection Hix as <- <-. exists (ld_fid l), (sst_data (ld_storage l)). cbn. rewrite !app_nil_r, (list_insert_id _ _ _ Hfiles).
    split_and!; [|by intros d Hin%elem_of_nil|done]. change (stream_of [] ++ rest) with rest in Hst. rewrite <- Hst.
    by destruct l as [st n fid [fs a' lv' dt] rc t].
  - apply Forall_cons in Hd as [Hd Hds]. cbn [fmap list_fmap] in Hnd. apply NoDup_cons in Hnd as [Hn Hnd]. cbn [index_files] in Hix.
    destruct (index_file level d _ _) as [[a1 lv1]|] eqn:E1; [|done]. simpl_bind in Hix.
    unfold stream_of in Hst. cbn [fmap list_fmap concat] in Hst. rewrite <- app_assoc in Hst.
    destruct (load_file_spec level d l _ files a1 lv1 Hst Hd (Hnone d ltac:(left)) Hfiles E1) as (f & Hf & El).
    cbn [length load_files]. rewrite El. simpl_bind. set (l1 := mkLoading _ _ _ _ _ _).
    assert (Z.to_nat level < length (fileMetaCache_ (ld_storage l)))%nat as Hlt by (by eapply lookup_lt_Some).
    destruct (IH l1 (files ++ [reloaded level d])) as (fid & data & -> & Hdata & Hsame).
    + done.
    + done.
    + done.
    + intros d' Hd'. cbn. rewrite lookup_insert_ne; [by apply Hnone; right|]. intros E. apply Hn. rewrite E. by apply list_elem_of_fmap_2.
    + cbn. by apply list_lookup_insert_eq.
    + exact Hix.
    + exists fid, data. cbn. rewrite <- !app_assoc, list_insert_insert_eq. split_and!; [done|..].
      * intros d' [->|Hd']%elem_of_cons; [|by apply Hdata]. exists f. split; [done|]. rewrite Hsame by done. cbn. by rewrite lookup_insert_eq.
      * intros id Hid. apply not_elem_of_cons in Hid as [Hid1 Hid2]. rewrite Hsame by done. cbn. by rewrite lookup_insert_ne.
Qed.

(** ** Levels *)
Definition level_of (ds : list Desc) : bytes := le 4 (zlen ds) ++ stream_of ds.
Definition load_all (level : Z) (Ds : list (list Desc)) : list (list SSTableCache) :=
  imap (fun i ds => sorted_level (level + Z.of_nat i) (reloaded (level + Z.of_nat i) <$> ds)) Ds.
Definition in_load_order (level : Z) (Ds : list (list Desc)) : list SSTableCache :=
  concat (imap (fun i ds => reloaded (level + Z.of_nat i) <$> ds) Ds).

Lemma load_all_cons level ds Ds :
  load_all level (ds :: Ds) = sorted_level level (reloaded level <$> ds) :: load_all (level + 1) Ds.
Proof.
  unfold load_all. cbn [imap]. rewrite Z.add_0_r. f_equal. apply imap_ext. intros i x _. cbn. by replace (level + Z.of_nat (S i)) with (level + 1 + Z.of_nat i) by lia.
Qed.

Lemma in_load_order_cons level ds Ds :
  in_load_order level (ds :: Ds) = (reloaded level <$> ds) ++ in_load_order (level + 1) Ds.
Proof.
  unfold in_load_order. cbn [imap concat]. rewrite Z.add_0_r. do 2 f_equal. apply imap_ext. intros i x _. cbn.
  by replace (level + Z.of_nat (S i)) with (level + 1 + Z.of_nat i) by lia.
Qed.

Definition stamps (Ds : list (list Desc)) : list Z := stamp <$> concat Ds.

Lemma load_level_spec level ds l rest a lv :
  ld_stream l = mkStream (level_of ds ++ rest) true -> Forall on_disk ds -> NoDup (stamp <$> ds) -> zlen ds < 2 ^ 31 ->
  (forall d, d ∈ ds -> sst_data (ld_storage l) !! stamp d = None) ->
  fileMetaCache_ (ld_storage l) !! Z.to_nat level = Some [] ->
  index_files level ds (vid_to_mullevelIndex_ (ld_storage l)) (vertex_max_level_ (ld_storage l)) = Some (a, lv) ->
  exists num fid data, load_level debug max_vertex_num_ disk level l = Some (mkLoading (mkStream rest true) num fid
      (mkStorage (<[Z.to_nat level := sorted_level level (reloaded level <$> ds)]> (fileMetaCache_ (ld_storage l))) a lv data)
      (recovered_caches l ++ (reloaded level <$> ds)) (foldl Z.max (ld_time l) (stamp <$> ds))) /\
    data_loaded level ds data /\ same_data (stamp <$> ds) (sst_data (ld_storage l)) data.
Proof.
  intros Hst Hd Hnd Hlen Hnone Hfiles Hix. unfold load_level. unfold level_of in Hst. rewrite <- app_assoc in Hst.
  pose proof (zlen_nonneg ds) as Hz. change (2 ^ 31) with 2147483648 in Hlen.
  rewrite Hst, stream_read_le by (unfold fits; change (2 ^ (8 * Z.of_nat 4)) with 4294967296; lia).
  rewrite signed_small by (change (2 ^ (32 - 1)) with 2147483648; lia).
  destruct (Z.ltb_spec 0 (zlen ds)) as [Hpos|Hpos].
  - replace (Z.to_nat (zlen ds)) with (length ds) by (unfold zlen; lia).
    destruct (load_files_spec level ds (mkLoading (mkStream (stream_of ds ++ rest) true) (zlen ds) (ld_fid l) (ld_storage l)
      (recovered_caches l) (ld_time l)) rest [] a lv) as (fid & data & -> & Hdata & Hsame); try done.
    simpl_bind. unfold sort_level. cbn [ld_storage fileMetaCache_].
    rewrite list_lookup_insert_eq by (by eapply lookup_lt_Some). simpl_bind. cbn.
    exists (zlen ds), fid, data. rewrite list_insert_insert_eq. split_and!; [done|done|done].
  - destruct ds; [|rewrite zlen_cons in Hpos; pose proof (zlen_nonneg ds); lia]. injection Hix as <- <-.
    exists 0, (ld_fid l), (sst_data (ld_storage l)). cbn. rewrite app_nil_r.
    assert (sorted_level level [] = []) as -> by (unfold sorted_level; by destruct (level =? 0)).
    rewrite (list_insert_id _ _ _ Hfiles). split_and!; [by destruct (ld_storage l)|by intros d Hin%elem_of_nil|done].
Qed.

Lemma load_levels_spec Ds : forall level l rest pre a lv,
  ld_stream l = mkStream (concat (level_of <$> Ds) ++ rest) true -> Forall on_disk (concat Ds) -> NoDup (stamps Ds) ->
  Forall (fun ds => zlen ds < 2 ^ 31) Ds ->
  (forall d, d ∈ concat Ds -> sst_data (ld_storage l) !! stamp d = None) -> 0 <= level ->
  fileMetaCache_ (ld_storage l) = pre ++ replicate (length Ds) [] -> length pre = Z.to_nat level ->
  index_levels level Ds (vid_to_mullevelIndex_ (ld_storage l)) (vertex_max_level_ (ld_storage l)) = Some (a, lv) ->
  exists num fid data, load_levels debug max_vertex_num_ disk (seqZ level (zlen Ds)) l = Some (mkLoading (mkStream rest true) num fid
      (mkStorage (pre ++ load_all level Ds) a lv data)
      (recovered_caches l ++ in_load_order level Ds) (foldl Z.max (ld_time l) (stamps Ds))) /\
    (forall i ds, Ds !! i = Some ds -> data_loaded (level + Z.of_nat i) ds data) /\
    same_data (stamps Ds) (sst_data (ld_storage l)) data.
Proof.
  induction Ds as [|ds Ds IH]; intros level l rest pre a lv Hst Hd Hnd Hlen Hnone H0 Hfiles Hpre Hix.
  - injection Hix as <- <-. exists (level_file_num l), (ld_fid l), (sst_data (ld_storage l)). cbn. cbn in Hfiles. rewrite !app_nil_r in *.
    split_and!; [|done|done]. change (concat (level_of <$> []) ++ rest) with rest in Hst. rewrite <- Hst, <- Hfiles. by destruct l as [st n fid [fs a' lv' dt] rc t].
  - cbn [concat] in Hd, Hnone. unfold stamps in Hnd. cbn [concat] in Hnd. rewrite fmap_app in Hnd. apply NoDup_app in Hnd as (Hnd & Hdisj & Hnds).
    apply Forall_app in Hd as [Hd Hds]. apply Forall_cons in Hlen as [Hlen Hlens].
    cbn [fmap list_fmap concat] in Hst. rewrite <- app_assoc in Hst. cbn [index_levels] in Hix.
    destruct (index_files level ds _ _) as [[a1 lv1]|] eqn:E1; [|done]. simpl_bind in Hix.
    assert (fileMetaCache_ (ld_storage l) !! Z.to_nat level = Some []) as Hl by (rewrite Hfiles, lookup_app_r, Hpre, Nat.sub_diag by lia; done).
    destruct (load_level_spec level ds l _ a1 lv1 Hst Hd Hnd Hlen ltac:(intros; apply Hnone, elem_of_app; by left) Hl E1)
      as (num & fid & data & El & Hdata & Hsame).
    pose proof (zlen_nonneg Ds) as Hz. rewrite zlen_cons, seqZ_cons by lia. cbn [load_levels]. rewrite El. simpl_bind.
    replace (Z.succ level) with (level + 1) by lia. match goal with |- context [seqZ _ (Z.pred ?n)] => replace (Z.pred n) with (zlen Ds) by lia end.
    set (l1 := mkLoading _ _ _ _ _ _).
    destruct (IH (level + 1) l1 rest (pre ++ [sorted_level level (reloaded level <$> ds)]) a lv) as (num' & fid' & data' & -> & Hdata' & Hsame'); try done.
    + intros d Hin. cbn. rewrite Hsame; [apply Hnone, elem_of_app; by right|]. intros Hc. apply (Hdisj _ Hc). by apply list_elem_of_fmap_2.
    + lia.
    + cbn. rewrite Hfiles. cbn [length replicate]. rewrite insert_app_r_alt by lia. rewrite Hpre, Nat.sub_diag, <- app_assoc. done.
    + rewrite length_app, Hpre. cbn. lia.
    + exists num', fid', data'. unfold l1. cbn [recovered_caches ld_time ld_storage sst_data]. rewrite load_all_cons, in_load_order_cons, <- !app_assoc. unfold stamps. cbn [concat].
      rewrite fmap_app, foldl_app. split_and!; [done|..].
      * intros [|i] ds' Hi; cbn in Hi; [injection Hi as <-|].
        -- rewrite Z.add_0_r. eapply data_loaded_same; [exact Hdata|exact Hsame'|]. intros d Hin Hc. apply (Hdisj (stamp d)); [by apply list_elem_of_fmap_2|exact Hc].
        -- replace (level + Z.of_nat (S i)) with (level + 1 + Z.of_nat i) by lia. by apply Hdata'.
      * intros id [Hid1 Hid2]%not_elem_of_app. rewrite Hsame' by done. cbn. by apply Hsame.
Qed.

(** ** The whole file *)
Definition info_of (vertices : Z) (Ds : list (list Desc)) (tail : bytes) : bytes :=
  le 8 vertices ++ le 4 (zlen Ds) ++ concat (level_of <$> Ds) ++ tail.
Definition trailer (next : Z) : bytes := le 8 kFileInfoSequenceMagic ++ le 8 next.

Lemma write_level_desc level ds : Forall2 described level ds -> write_level level = level_of ds.
Proof.
  intros Hf. unfold write_level, level_of, stream_of. f_equal; [f_equal; unfold zlen; by rewrite (Forall2_length _ _ _ Hf)|]. f_equal.
  induction Hf as [|c d level ds Hc Hf IH]; [done|]. cbn [fmap list_fmap].
  f_equal; [|exact IH]. unfold stamp. rewrite <- Hc. reflexivity.
Qed.

Lemma write_info_desc vertices levels Ds next :
  Forall2 (Forall2 described) levels Ds -> write_file_info vertices levels next = info_of vertices Ds (trailer next).
Proof.
  intros Hf. unfold write_file_info, info_of, trailer. rewrite (Forall2_length _ _ _ Hf : length levels = length Ds) at 1 || unfold zlen.
  rewrite (Forall2_length _ _ _ Hf). do 3 f_equal. induction Hf as [|l ds levels Ds Hl Hf IH]; [done|].
  cbn [fmap list_fmap concat]. rewrite (write_level_desc l ds Hl). f_equal. exact IH.
Qed.

(** The load of the files named by an info file, whatever follows the names. *)
Lemma recover_levels vertices Ds tail s a lv :
  fits 64 vertices -> length Ds = Z.to_nat MAX_LEVEL -> Forall on_disk (concat Ds) -> NoDup (stamps Ds) ->
  Forall (fun ds => zlen ds < 2 ^ 31) Ds ->
  index_levels 0 Ds (ResetStorage max_vertex_num_) (vertex_levels (InitVerticesUpTo vertices s)) = Some (a, lv) ->
  exists num fid data,
    recover debug max_vertex_num_ disk (Some (info_of vertices Ds tail)) s =
      (r ← recover_sequence (mkLoading (mkStream tail true) num fid (mkStorage (load_all 0 Ds) a lv data) (in_load_order 0 Ds)
             (foldl Z.max (currentTime s) (stamps Ds)));
       Some (InitVerticesUpTo vertices s, r)) /\
    (forall i ds, Ds !! i = Some ds -> data_loaded (Z.of_nat i) ds data) /\ (forall id, id ∉ stamps Ds -> data !! id = None).
Proof.
  intros Hv Hlen Hd Hnd Hsz Hix. unfold recover, info_of. rewrite stream_read_le by exact Hv.
  assert (zlen Ds = 5) as Hz by (unfold zlen; rewrite Hlen; done).
  rewrite stream_read_le by (rewrite Hz; done). rewrite signed_small, Hz by (rewrite ?Hz; done). cbn [Z.ltb Z.compare].
  set (s1 := InitVerticesUpTo vertices s). set (l := mkLoading _ _ _ _ _ _).
  destruct (load_levels_spec Ds 0 l tail [] a lv) as (num & fid & data & E & Hdata & Hsame); try done.
  - cbn. rewrite Hlen. done.
  - rewrite Hz in E. rewrite E. simpl_bind. exists num, fid, data. split_and!; [|done|].
    + unfold l, s1. cbn [recovered_caches ld_time app]. by rewrite InitVerticesUpTo_time.
    + intros id Hid. by rewrite Hsame.
Qed.

Lemma recover_trailer next l :
  0 <= next < 2 ^ 63 -> ld_stream l = mkStream (trailer next) true ->
  recover_sequence l = Some (mkRecovered (ld_storage l) (recovered_caches l) (ld_time l) next
    ((fun _ => RestoreConservativeNewestEdge next) <$> recovered_caches l)).
Proof.
  intros Hn Hst. unfold recover_sequence. change (2 ^ 63) with 9223372036854775808 in Hn. unfold trailer in Hst.
  rewrite Hst, stream_read_le by done. rewrite <- (app_nil_r (le 8 next)), stream_read_le.
  - rewrite signed_small by (change (2 ^ (64 - 1)) with 9223372036854775808; lia). cbn [st_good]. rewrite Z.eqb_refl, (proj2 (Z.leb_le 0 next)) by lia. done.
  - unfold fits. change (2 ^ (8 * Z.of_nat 8)) with 18446744073709551616. lia.
Qed.

(** A file of the older format ends with the levels. *)
Lemma recover_legacy l :
  ld_stream l = mkStream [] true ->
  recover_sequence l = (nexts ← scan_caches (ld_storage l) (recovered_caches l);
    Some (mkRecovered (ld_storage l) (recovered_caches l) (ld_time l) (foldl Z.max 0 nexts) ((fun n => Z.max 0 (n - 1)) <$> nexts))).
Proof. intros Hst. unfold recover_sequence. rewrite Hst. done. Qed.
End Load.
