(* ===== verification/ReopenLevels.v ===== *)
(** * The lower levels after a restart

    The level index that a load rebuilds points every source to the range of it
    in the file of that level, and to nothing where no file has the source.
    Without a recorded sequence the load finds one above every edge on disk.
    The files of the lower levels keep no index in memory: a compaction that
    reads one goes outside an empty array, and no property delta of one can be
    merged. *)

From S2P Require Import Prelude.
From S2P Require Import Types.
From S2P Require Import EdgeBody.
From S2P Require Import PropertyLayout.
From S2P Require Import Sst.
From S2P Require Import SkipList.
From S2P Require Import SkipListFacts.
From S2P Require Import SstBuild.
From S2P Require Import SstBuildFacts.
From S2P Require Import SstBuildTheorems.
From S2P Require Import DeltaFile.
From S2P Require Import LevelIndex.
From S2P Require Import LsmRead.
From S2P Require Import SstWriter.
From S2P Require Import CompactionMerge.
From S2P Require Import CompactionOutput.
From S2P Require Import CompactionWays.
From S2P Require Import CompactionTheorems.
From S2P Require Import CompactionPublish.
From S2P Require Import LsmWrite.
From S2P Require Import Reopen.
From S2P Require Import ReopenFacts.

(** ** One file *)
Definition placed (level fid o n : Z) (x : MulLevelIndex) : MulLevelIndex :=
  mkMulLevel (<[Z.to_nat (level - 1) := mkLevel (u32 fid) o n]> (levels x)) (min_level_0_fid x).

Lemma placed_wf level fid o n x : index_wf x -> index_wf (placed level fid o n x).
Proof. unfold index_wf, placed. cbn. by rewrite length_insert. Qed.

Lemma index_sources_cons max_v level fid x y rest a lv :
  index_sources max_v level fid (x :: y :: rest) a lv =
  (let lv := if ix_key x <? max_v then <[ix_key x := MemTable.write_max (default 0 (lv !! ix_key x)) (level + 1)]> lv else lv in
   '(a, findex) ← lazy_get a (u64 (signed 32 (ix_key x)));
   findex ← set_fileID findex (level - 1) (u32 fid);
   findex ← set_offset findex (level - 1) (ix_offset x);
   findex ← set_next_offset findex (level - 1) (ix_offset y);
   a ← lazy_set a (u64 (signed 32 (ix_key x))) findex;
   index_sources max_v level fid (y :: rest) a lv).
Proof. done. Qed.

Lemma place_level level fid o n x :
  index_wf x -> 1 <= level <= LEVEL_INDEX_SIZE ->
  (findex ← set_fileID x (level - 1) fid; findex ← set_offset findex (level - 1) o; set_next_offset findex (level - 1) n)
  = Some (mkMulLevel (<[Z.to_nat (level - 1) := mkLevel fid o n]> (levels x)) (min_level_0_fid x)).
Proof. intros Hw Hl. destruct x as [ls m]. apply set_levels; [lia|exact Hw]. Qed.

Definition array_wf (a : LazyArray) : Prop := forall v, 0 <= v -> index_wf (entry a v).

Section Index.
Context (max_v level : Z) (Hlevel : 1 <= level <= LEVEL_INDEX_SIZE).

Lemma index_sources_spec fid ixs a lv :
  array_wf a -> NoDup (ix_key <$> ixs) -> ixs <> [] ->
  Forall (fun x => ix_key x = kInvalidVertexId \/ 0 <= ix_key x < 2 ^ 31 /\ Z.shiftr (ix_key x) kBlockShift < block_count_ a) ixs ->
  (forall i x, ixs !! i = Some x -> ix_key x = kInvalidVertexId -> S i = length ixs) ->
  exists a' lv', index_sources max_v level fid ixs a lv = Some (a', lv') /\ block_count_ a' = block_count_ a /\ array_wf a' /\
    forall v, 0 <= v -> entry a' v = match indexed ixs v with Some (o, n) => placed level fid o n (entry a v) | None => entry a v end.
Proof.
  revert a lv. induction ixs as [|x [|y rest] IH]; intros a lv Hw Hnd Hne Hb Hlast; [done|by exists a, lv|].
  apply Forall_cons in Hb as [Hx Hb]. destruct Hx as [Hx|[Hx0 Hx1]]; [specialize (Hlast 0%nat x eq_refl Hx); done|].
  cbn [fmap list_fmap] in Hnd. apply NoDup_cons in Hnd as [Hnx Hnd]. rewrite index_sources_cons.
  assert (u64 (signed 32 (ix_key x)) = ix_key x) as ->.
  { rewrite signed_small by (change (2 ^ (32 - 1)) with (2 ^ 31); lia). apply Z.mod_small. change (2 ^ 64) with 18446744073709551616. lia. }
  set (lv1 := if _ <? _ then _ else _). cbv zeta.
  destruct (lazy_get_spec a (ix_key x) Hx1) as (a1 & -> & He1 & Hc1 & _). simpl_bind.
  pose proof (place_level level (u32 fid) (ix_offset x) (ix_offset y) (entry a (ix_key x)) (Hw (ix_key x) ltac:(lia)) Hlevel) as Hp.
  destruct (set_fileID _ _ _) as [f1|]; [|done]. simpl_bind in Hp; simpl_bind. destruct (set_offset _ _ _) as [f2|]; [|done]. simpl_bind in Hp; simpl_bind.
  rewrite Hp. simpl_bind. fold (placed level fid (ix_offset x) (ix_offset y) (entry a (ix_key x))).
  destruct (lazy_set_spec a1 (ix_key x) (placed level fid (ix_offset x) (ix_offset y) (entry a (ix_key x)))) as (a2 & -> & He2 & Hc2 & _);
    [lia|by rewrite Hc1|]. simpl_bind.
  assert (array_wf a2) as Hw2 by (intros v Hv; rewrite He2 by done; case_decide; [apply placed_wf, Hw; lia|rewrite He1; by apply Hw]).
  destruct (IH a2 lv1 Hw2 Hnd ltac:(done)) as (a' & lv' & -> & Hc & Hw' & He).
  - eapply Forall_impl; [exact Hb|]. intros z [?|[? ?]]; [by left|right]. split; [done|]. by rewrite Hc2, Hc1.
  - intros i z Hz Hi. specialize (Hlast (S i) z Hz Hi). simpl in *. lia.
  - exists a', lv'. split_and!; [done|by rewrite Hc, Hc2, Hc1|done|]. intros v Hv. rewrite He, He2 by done. rewrite indexed_cons.
    destruct (Z.eqb_spec (ix_key x) v) as [<-|Hnv].
    + rewrite decide_True by done. destruct (indexed (y :: rest) (ix_key x)) as [[o n]|] eqn:E; [|done]. by apply indexed_key in E.
    + by rewrite decide_False, He1 by congruence.
Qed.

(** ** The files of a level *)
Definition file_desc (t : Z * Table) : Desc := (ref_header t.2 t.1, ref_indexes t.2).

Fixpoint located_in (ts : list (Z * Table)) (v : Z) : option (Z * Z * Z) :=
  match ts with
  | [] => None
  | t :: ts => match indexed (ref_indexes t.2) v with Some (o, n) => Some (t.1, o, n) | None => located_in ts v end
  end.

Lemma located_in_source ts v x : 0 <= v < kInvalidVertexId -> located_in ts v = Some x -> v ∈ concat ((fun t => t.2.*1) <$> ts).
Proof.
  intros Hv. induction ts as [|t ts IH]; [done|]. cbn [located_in fmap list_fmap concat]. rewrite elem_of_app.
  destruct (indexed (ref_indexes t.2) v) as [[o n]|] eqn:E; intros H; [left|right; by apply IH].
  apply indexed_key in E. rewrite ref_indexes_keys in E. apply elem_of_app in E as [E|E%list_elem_of_singleton]; [done|lia].
Qed.

(** A table of sources the index array of [n] vertices covers. *)
Definition indexable (n : Z) (t : Z * Table) : Prop :=
  flush_input_ok t.2 /\ Forall (fun v => v < Z.min n (2 ^ 31)) t.2.*1.

Lemma table_indexes t a n :
  indexable n t -> block_count_ a = BlockCount n -> 0 <= n < 2 ^ 63 ->
  NoDup (ix_key <$> ref_indexes t.2) /\ ref_indexes t.2 <> [] /\
  Forall (fun x => ix_key x = kInvalidVertexId \/ 0 <= ix_key x < 2 ^ 31 /\ Z.shiftr (ix_key x) kBlockShift < block_count_ a) (ref_indexes t.2) /\
  (forall i x, ref_indexes t.2 !! i = Some x -> ix_key x = kInvalidVertexId -> S i = length (ref_indexes t.2)).
Proof.
  intros [Hin Hb] Ha Hn. rewrite Forall_forall in Hb.
  assert (forall x, x ∈ ref_indexes t.2 -> ix_key x ∈ t.2.*1 \/ ix_key x = kInvalidVertexId) as Hk.
  { intros x Hx. assert (ix_key x ∈ ix_key <$> ref_indexes t.2) as Hx' by (apply list_elem_of_fmap; by exists x).
    rewrite ref_indexes_keys in Hx'. apply elem_of_app in Hx' as [?|?%list_elem_of_singleton]; [by left|by right]. }
  split_and!; [by apply ref_indexes_nodup|unfold ref_indexes; by destruct (ref_index 0 t.2)|..].
  - apply Forall_forall. intros x [Hs|Hs]%Hk; [right|by left]. specialize (Hb _ Hs). pose proof (source_below _ _ Hin Hs).
    split; [lia|]. rewrite Ha. change (2 ^ 63) with 9223372036854775808 in Hn. apply BlockCount_covers; change kBlockSize with 1048576; change (2 ^ 64) with 18446744073709551616; lia.
  - intros i x Hi Hx. assert ((ix_key <$> ref_indexes t.2) !! i = Some kInvalidVertexId) as Hk' by (rewrite list_lookup_fmap, Hi; cbn; by rewrite Hx).
    rewrite ref_indexes_keys in Hk'. apply lookup_app_Some in Hk' as [Hk'|[Hk1 Hk2]].
    + apply list_elem_of_lookup_2, (source_below _ _ Hin) in Hk'. lia.
    + apply lookup_lt_Some in Hk2. unfold ref_indexes. rewrite length_app, ref_index_length. rewrite length_fmap in *. simpl in *. lia.
Qed.

Lemma index_files_spec n ts a lv :
  array_wf a -> block_count_ a = BlockCount n -> 0 <= n < 2 ^ 63 -> Forall (indexable n) ts -> NoDup (concat ((fun t => t.2.*1) <$> ts)) ->
  exists a' lv', index_files max_v level (file_desc <$> ts) a lv = Some (a', lv') /\ block_count_ a' = block_count_ a /\ array_wf a' /\
    forall v, 0 <= v < kInvalidVertexId ->
      entry a' v = match located_in ts v with Some (f, o, n) => placed level f o n (entry a v) | None => entry a v end.
Proof.
  intros Hw Hc Hn Hf Hnd. revert a lv Hw Hc. induction ts as [|t ts IH]; intros a lv Hw Hc; [by exists a, lv|].
  apply Forall_cons in Hf as [Ht Hf]. cbn [fmap list_fmap concat] in Hnd. apply NoDup_app in Hnd as (_ & Hdisj & Hnd).
  destruct (table_indexes t a n Ht Hc Hn) as (T1 & T2 & T3 & T4).
  destruct (index_sources_spec t.1 (ref_indexes t.2) a lv Hw T1 T2 T3 T4) as (a1 & lv1 & E1 & Hc1 & Hw1 & He1).
  cbn [fmap list_fmap index_files]. unfold index_file. rewrite (proj2 (Z.eqb_neq level 0)) by lia.
  cbn [file_desc fst snd stamp ref_header timeStamp]. unfold stamp. cbn [fst ref_header timeStamp]. rewrite E1. simpl_bind.
  destruct (IH Hf Hnd a1 lv1 Hw1 ltac:(by rewrite Hc1)) as (a' & lv' & -> & Hc' & Hw' & He'). exists a', lv'. split_and!; [done|by rewrite Hc'|done|].
  intros v Hv. rewrite He' by done. rewrite He1 by lia. cbn [located_in]. destruct (indexed (ref_indexes t.2) v) as [[o m]|] eqn:E; [|done].
  destruct (located_in ts v) as [[[f' o'] n']|] eqn:El; [|done]. exfalso. apply indexed_key in E. rewrite ref_indexes_keys in E.
  apply elem_of_app in E as [E|E%list_elem_of_singleton]; [|lia]. apply (Hdisj v E). by eapply located_in_source.
Qed.
End Index.

(** ** The levels *)
Notation Tables := (list (list (Z * Table))).

Fixpoint placed_levels (level : Z) (Ts : Tables) (v : Z) (x : MulLevelIndex) : MulLevelIndex :=
  match Ts with
  | [] => x
  | ts :: Ts => placed_levels (level + 1) Ts v (match located_in ts v with Some (f, o, n) => placed level f o n x | None => x end)
  end.

Definition descs (Ts : Tables) : list (list Desc) := (fun ts : list (Z * Table) => file_desc <$> ts) <$> Ts.
Definition disjoint_sources (ts : list (Z * Table)) : Prop := NoDup (concat ((fun t => t.2.*1) <$> ts)).

Lemma index_levels_spec max_v n Ts : forall level a lv,
  1 <= level -> level + zlen Ts <= LEVEL_INDEX_SIZE + 1 -> array_wf a -> block_count_ a = BlockCount n -> 0 <= n < 2 ^ 63 ->
  Forall (indexable n) (concat Ts) -> Forall disjoint_sources Ts ->
  exists a' lv', index_levels max_v level (descs Ts) a lv = Some (a', lv') /\ block_count_ a' = block_count_ a /\ array_wf a' /\
    forall v, 0 <= v < kInvalidVertexId -> entry a' v = placed_levels level Ts v (entry a v).
Proof.
  induction Ts as [|ts Ts IH]; intros level a lv Hl Hz Hw Hc Hn Hf Hd; [by exists a, lv|].
  rewrite zlen_cons in Hz. pose proof (zlen_nonneg Ts). cbn [concat] in Hf. apply Forall_app in Hf as [Hf Hfs]. apply Forall_cons in Hd as [Hd Hds].
  destruct (index_files_spec max_v level ltac:(lia) n ts a lv Hw Hc Hn Hf Hd) as (a1 & lv1 & E1 & Hc1 & Hw1 & He1).
  cbn [descs fmap list_fmap index_levels]. rewrite E1. simpl_bind. fold (descs Ts).
  destruct (IH (level + 1) a1 lv1 ltac:(lia) ltac:(lia) Hw1 ltac:(by rewrite Hc1) Hn Hfs Hds) as (a' & lv' & -> & Hc' & Hw' & He). exists a', lv'. split_and!; [done|by rewrite Hc'|done|].
  intros v Hv. rewrite He by done. cbn [placed_levels]. by rewrite He1.
Qed.

Definition level_data (x : option (Z * Z * Z)) : LevelData := match x with Some (f, o, n) => mkLevel (u32 f) o n | None => no_level end.

Lemma placed_levels_lookup Ts v : forall level x j,
  1 <= level -> level + zlen Ts <= LEVEL_INDEX_SIZE + 1 -> index_wf x ->
  levels (placed_levels level Ts v x) !! j =
    match (if decide (Z.of_nat j < level - 1) then None else Ts !! (j - Z.to_nat (level - 1))%nat ≫= fun ts => located_in ts v) with
    | Some p => Some (level_data (Some p))
    | None => levels x !! j
    end.
Proof.
  induction Ts as [|ts Ts IH]; intros level x j Hl Hz Hw; [by case_decide|]. rewrite zlen_cons in Hz. pose proof (zlen_nonneg Ts).
  cbn [placed_levels]. rewrite IH; [|lia|lia|destruct (located_in ts v) as [[[f o] n]|]; [by apply placed_wf|done]].
  unfold index_wf in Hw. destruct (decide (Z.of_nat j < level - 1)) as [Hj|Hj].
  - rewrite decide_True by lia. destruct (located_in ts v) as [[[f o] n]|]; [|done]. cbn [placed levels]. rewrite list_lookup_insert_ne by lia. done.
  - destruct (decide (Z.of_nat j < level + 1 - 1)) as [Hj1|Hj1].
    + replace (j - Z.to_nat (level - 1))%nat with 0%nat by lia. cbn [lookup list_lookup]. simpl_bind.
      destruct (located_in ts v) as [[[f o] n]|]; [|done]. cbn [placed levels]. replace j with (Z.to_nat (level - 1)) by lia.
      rewrite list_lookup_insert_eq; [done|lia].
    + replace (j - Z.to_nat (level - 1))%nat with (S (j - Z.to_nat (level + 1 - 1)))%nat by lia. cbn [lookup list_lookup].
      destruct (Ts !! _ ≫= _); [done|]. destruct (located_in ts v) as [[[f o] n]|]; [|done]. cbn [placed levels].
      rewrite list_lookup_insert_ne by lia. done.
Qed.

(** ** A directory *)

(** The directory holds a file for every table of every level. *)
Record directory_ok (flags : Flags) (tls : layout) (pnum : nat) (max_v : Z) (disk : gmap Z DiskFile) (Ts : Tables) : Prop := {
  do_levels : length Ts = Z.to_nat MAX_LEVEL;
  do_files : Forall (fun t => flushable flags tls pnum t.2 /\ fits 32 t.1 /\
    exists end_ columns, disk !! t.1 = Some (mkDisk (table_image flags tls t.2 t.1 end_) columns)) (concat Ts);
  do_sources : Forall (indexable max_v) (concat Ts);
  do_ids : NoDup (fst <$> concat Ts);
  do_disjoint : Forall disjoint_sources (tail Ts);
  do_few : Forall (fun ts => zlen ts < 2 ^ 31) Ts;
}.

Lemma concat_descs Ts : concat (descs Ts) = file_desc <$> concat Ts.
Proof. induction Ts as [|ts Ts IH]; [done|]. cbn [descs fmap list_fmap concat]. fold (descs Ts). by rewrite fmap_app, <- IH. Qed.

Lemma stamps_descs Ts : stamps (descs Ts) = fst <$> concat Ts.
Proof. unfold stamps. rewrite concat_descs, <- list_fmap_compose. done. Qed.

Lemma ResetStorage_wf n : array_wf (ResetStorage n).
Proof. intros v _. done. Qed.

Section Directory.
Context (flags : Flags) (tls : layout) (pnum : nat) (debug : bool) (max_v : Z) (disk : gmap Z DiskFile) (Ts : Tables).
Context (Hdir : directory_ok flags tls pnum max_v disk Ts) (Hmax : 0 <= max_v < 2 ^ 63).

Lemma table_on_disk t : t ∈ concat Ts -> on_disk disk (file_desc t).
Proof.
  intros Hin. pose proof (do_files _ _ _ _ _ _ Hdir) as Hf. pose proof (do_sources _ _ _ _ _ _ Hdir) as Hs. rewrite Forall_forall in Hf, Hs.
  destruct (Hf t Hin) as (Hfl & Hfit & end_ & cols & Hd). split; [exact Hfit|]. exists (mkDisk (table_image flags tls t.2 t.1 end_) cols).
  split; [exact Hd|]. cbn [e_file]. apply (reload_image flags tls pnum); [done|by apply Hs|].
  unfold fits in *. change (2 ^ 32) with 4294967296 in Hfit. change (2 ^ 64) with 18446744073709551616. lia.
Qed.

Lemma directory_indexes lv :
  exists a lv', index_levels max_v 0 (descs Ts) (ResetStorage max_v) lv = Some (a, lv') /\ block_count_ a = BlockCount max_v /\ array_wf a /\
    forall v, 0 <= v < kInvalidVertexId -> entry a v = placed_levels 1 (tail Ts) v empty_index.
Proof.
  destruct Hdir as [Hlen _ Hs _ Hd _]. destruct Ts as [|ts Ts']; [done|]. cbn [descs fmap list_fmap index_levels]. rewrite marks_only. simpl_bind.
  cbn [concat tail] in *. apply Forall_app in Hs as [_ Hs].
  apply (index_levels_spec max_v max_v); [lia| |apply ResetStorage_wf|done|done|done|done].
  unfold zlen. cbn [length] in Hlen. change MAX_LEVEL with 5 in Hlen. change LEVEL_INDEX_SIZE with 4. lia.
Qed.

(** The load of the directory, whatever ends file.info. *)
Lemma directory_loads vertices tail s :
  fits 64 vertices ->
  exists a lv num fid data,
    recover debug max_v disk (Some (info_of vertices (descs Ts) tail)) s =
      (r ← recover_sequence (mkLoading (mkStream tail true) num fid (mkStorage (load_all 0 (descs Ts)) a lv data) (in_load_order 0 (descs Ts))
             (foldl Z.max (currentTime s) (fst <$> concat Ts)));
       Some (InitVerticesUpTo vertices s, r)) /\
    (forall i ds, descs Ts !! i = Some ds -> data_loaded disk (Z.of_nat i) ds data) /\
    (forall v, 0 <= v < kInvalidVertexId -> entry a v = placed_levels 1 (list.tail Ts) v empty_index) /\
    block_count_ a = BlockCount max_v /\ array_wf a.
Proof.
  intros Hv. destruct (directory_indexes (vertex_levels (InitVerticesUpTo vertices s))) as (a & lv & Hix & Hcount & Hwf & He).
  destruct (recover_levels debug max_v disk vertices (descs Ts) tail s a lv) as (num & fid & data & Er & Hd & _).
  - done.
  - unfold descs. rewrite length_fmap. apply Hdir.
  - rewrite concat_descs, Forall_fmap, Forall_forall. apply table_on_disk.
  - rewrite stamps_descs. apply Hdir.
  - pose proof (do_few _ _ _ _ _ _ Hdir) as Hf. unfold descs. rewrite Forall_fmap. eapply Forall_impl; [exact Hf|]. intros ts. cbn. unfold zlen. by rewrite length_fmap.
  - exact Hix.
  - rewrite stamps_descs in Er. exists a, lv, num, fid, data. done.
Qed.

Lemma placed_data v level :
  1 <= level < MAX_LEVEL ->
  levels (placed_levels 1 (tail Ts) v empty_index) !! Z.to_nat (level - 1) = Some (level_data (Ts !! Z.to_nat level ≫= fun ts => located_in ts v)).
Proof.
  intros Hl. pose proof (do_levels _ _ _ _ _ _ Hdir) as Hlen. destruct Ts as [|ts Ts']; [done|]. cbn [tail]. cbn [length] in Hlen.
  change MAX_LEVEL with 5 in *. rewrite placed_levels_lookup; [|lia|unfold zlen; change LEVEL_INDEX_SIZE with 4; lia|done].
  rewrite decide_False by lia. change (Z.to_nat (1 - 1)) with 0%nat. rewrite Nat.sub_0_r.
  replace (Z.to_nat level) with (S (Z.to_nat (level - 1))) by lia. cbn [lookup list_lookup].
  destruct (Ts' !! _ ≫= _) as [p|]; [done|]. cbn [levels empty_index]. apply lookup_replicate. split; [done|]. change LEVEL_INDEX_SIZE with 4. lia.
Qed.
End Directory.

(** ** The sequence of a directory without a recorded one *)
Definition next_of (t : Z * Table) : Z := foldl Z.max 0 ((fun e => sequence e + 1) <$> all_edges t.2).

Lemma foldl_max_succ zs : forall a, foldl Z.max a zs + 1 = foldl Z.max (a + 1) ((fun z => z + 1) <$> zs).
Proof. induction zs as [|z zs IH]; intros a; [done|]. cbn [fmap list_fmap foldl]. rewrite IH. f_equal. lia. Qed.

Lemma scan_table flags tls t d rest :
  Forall edge_fits (all_edges t.2) -> edge_data d = bodies_file flags tls t.2 rest ->
  ScanSstNextTopologySequence (ref_header t.2 t.1) d = Some (next_of t).
Proof.
  intros Hf Hd. unfold ScanSstNextTopologySequence, next_of. cbn [ref_header Sst.size]. rewrite Hd.
  destruct (Z.leb_spec (zlen (all_edges t.2) + 1) 1) as [Hz|Hz].
  { destruct (all_edges t.2) as [|e es]; [done|]. rewrite zlen_cons in Hz. pose proof (zlen_nonneg es). lia. }
  replace (zlen (all_edges t.2) + 1 - 1) with (zlen (all_edges t.2)) by lia. rewrite file_sequences by done. simpl_bind.
  pose proof (foldl_max_succ (sequence <$> all_edges t.2) (-1)) as Hm. change (-1 + 1) with 0 in Hm. rewrite <- list_fmap_compose in Hm.
  change (fun e => sequence e + 1) with ((fun z => z + 1) ∘ sequence). rewrite <- Hm. f_equal.
  pose proof (foldl_max_bound (-1) (sequence <$> all_edges t.2)) as [Hlow _]. destruct (Z.ltb_spec (foldl Z.max (-1) (sequence <$> all_edges t.2)) 0); [lia|done].
Qed.

Definition described_by (c : SSTableCache) (t : Z * Table) : Prop := cache_header c = ref_header t.2 t.1.

Lemma load_order_described Ts : forall level, Forall2 described_by (in_load_order level (descs Ts)) (concat Ts).
Proof.
  induction Ts as [|ts Ts IH]; intros level; [constructor|]. cbn [descs fmap list_fmap concat]. rewrite in_load_order_cons.
  apply Forall2_app; [|apply IH]. apply Forall2_fmap_l, Forall2_fmap_l. apply Forall_Forall2_diag, Forall_forall. done.
Qed.

Lemma in_level Ts t : t ∈ concat Ts -> exists i ds, descs Ts !! i = Some ds /\ file_desc t ∈ ds.
Proof.
  induction Ts as [|ts Ts IH]; [by intros ?%elem_of_nil|]. cbn [concat]. intros [Ht|Ht]%elem_of_app.
  - exists 0%nat, (file_desc <$> ts). split; [done|by apply list_elem_of_fmap_2].
  - destruct (IH Ht) as (i & ds & Hi & Hd). by exists (S i), ds.
Qed.

Lemma foldl_max_concat (zss : list (list Z)) : forall a, 0 <= a -> foldl Z.max a (foldl Z.max 0 <$> zss) = foldl Z.max a (concat zss).
Proof.
  assert (forall zs a b, foldl Z.max (Z.max a b) zs = Z.max a (foldl Z.max b zs)) as Hmax.
  { induction zs as [|z zs IH]; intros a b; [done|]. cbn [foldl]. rewrite <- IH. f_equal. lia. }
  induction zss as [|zs zss IH]; intros a Ha; [done|]. cbn [fmap list_fmap foldl concat]. rewrite foldl_app, <- Hmax, Z.max_l by done. apply IH.
  pose proof (foldl_max_bound a zs). lia.
Qed.

Section Scan.
Context (flags : Flags) (tls : layout) (pnum : nat) (max_v : Z) (disk : gmap Z DiskFile) (Ts : Tables).
Context (Hdir : directory_ok flags tls pnum max_v disk Ts).

Lemma table_edges_fit t : t ∈ concat Ts -> Forall edge_fits (all_edges t.2).
Proof.
  intros Hin. pose proof (do_sources _ _ _ _ _ _ Hdir) as Hs. rewrite Forall_forall in Hs. destruct (Hs t Hin) as [[_ Hf] _].
  apply Forall_concat, Forall_fmap. eapply Forall_impl; [exact Hf|]. cbn. tauto.
Qed.

Lemma loaded_data data t :
  (forall i ds, descs Ts !! i = Some ds -> data_loaded disk (Z.of_nat i) ds data) -> t ∈ concat Ts ->
  exists d rest, data !! t.1 = Some d /\ edge_data d = bodies_file flags tls t.2 rest.
Proof.
  intros Hd Hin. destruct (in_level Ts t Hin) as (i & ds & Hi & Ht). destruct (Hd i ds Hi _ Ht) as (f & Hf & E).
  pose proof (do_files _ _ _ _ _ _ Hdir) as Hfs. rewrite Forall_forall in Hfs. destruct (Hfs t Hin) as (_ & _ & end_ & cols & Hf').
  change (stamp (file_desc t)) with t.1 in *. rewrite Hf in Hf'. injection Hf' as ->. eexists _, _. split; [exact E|]. reflexivity.
Qed.

Lemma scan_all_caches fs a lv data :
  (forall i ds, descs Ts !! i = Some ds -> data_loaded disk (Z.of_nat i) ds data) ->
  scan_caches (mkStorage fs a lv data) (in_load_order 0 (descs Ts)) = Some (next_of <$> concat Ts).
Proof.
  intros Hd. apply mapM_Some_2. apply Forall2_fmap_r.
  apply Forall2_same_length_lookup_2; [exact (Forall2_length _ _ _ (load_order_described Ts 0))|]. intros i c t Hc Ht.
  pose proof (Forall2_lookup_lr _ _ _ _ _ _ (load_order_described Ts 0) Hc Ht) as Hdesc. unfold described_by in Hdesc.
  apply list_elem_of_lookup_2 in Ht. destruct (loaded_data data t Hd Ht) as (d & rest & E & Er).
  pose proof (do_files _ _ _ _ _ _ Hdir) as Hfs. rewrite Forall_forall in Hfs. destruct (Hfs t Ht) as (_ & Hfit & _).
  rewrite Hdesc. cbn [sst_data]. assert (u32 (timeStamp (ref_header t.2 t.1)) = t.1) as -> by (by apply Z.mod_small).
  rewrite E. simpl_bind. eapply scan_table; [by apply table_edges_fit|exact Er].
Qed.
End Scan.

Lemma load_all_lookup level Ds i ds :
  Ds !! i = Some ds -> load_all level Ds !! i = Some (sorted_level (level + Z.of_nat i) (reloaded (level + Z.of_nat i) <$> ds)).
Proof. intros Hi. unfold load_all. by rewrite list_lookup_imap, Hi. Qed.

Lemma sorted_level_elem level files c : c ∈ files -> c ∈ sorted_level level files.
Proof. intros Hc. unfold sorted_level. destruct (level =? 0); by rewrite merge_sort_Permutation. Qed.

(** ** Theorems *)

(** C28: the load rebuilds the level index. For every directory whose files are
    the images of tables of distinct sources per level, and the file.info that a
    store with those files writes, the load returns; the next sequence is the
    recorded one; and for every level below 0 the entry of every vertex is the
    file and the byte range of it at that level, or empty where it has none. *)
Theorem recovered_index_exact flags tls pnum debug max_v disk Ts files vertices next s :
  directory_ok flags tls pnum max_v disk Ts -> 0 <= max_v < 2 ^ 63 -> Forall2 (Forall2 described_by) files Ts ->
  fits 64 vertices -> 0 <= next < 2 ^ 63 ->
  exists r, recover debug max_v disk (Some (write_file_info vertices files next)) s = Some (InitVerticesUpTo vertices s, r) /\
    rec_next r = next /\
    forall level v, 1 <= level < MAX_LEVEL -> 0 <= v < kInvalidVertexId ->
      levels (entry (vid_to_mullevelIndex_ (rec_storage r)) v) !! Z.to_nat (level - 1) =
        Some (match Ts !! Z.to_nat level ≫= (fun ts => located_in ts v) with Some (f, o, n) => mkLevel (u32 f) o n | None => no_level end).
Proof.
  intros Hdir Hmax Hfiles Hv Hn. rewrite (write_info_desc vertices files (descs Ts)).
  2:{ unfold descs. apply Forall2_fmap_r. eapply Forall2_impl; [exact Hfiles|]. intros fs ts Hf. by apply Forall2_fmap_r. }
  destruct (directory_loads flags tls pnum debug max_v disk Ts Hdir Hmax vertices (trailer next) s Hv) as (a & lv & num & fid & data & -> & _ & He & _).
  rewrite (recover_trailer next) by done. simpl_bind. eexists. split; [reflexivity|]. split; [done|]. intros level v Hl Hvv. cbn [rec_storage ld_storage vid_to_mullevelIndex_].
  rewrite He by done. by eapply placed_data.
Qed.

(** a file.info of the older format, which ends with the levels, still gives
    a sequence that no edge on disk has: one more than the newest of them, and 0
    for a directory without edges. *)
Theorem legacy_sequence flags tls pnum debug max_v disk Ts vertices s :
  directory_ok flags tls pnum max_v disk Ts -> 0 <= max_v < 2 ^ 63 -> fits 64 vertices ->
  exists r, recover debug max_v disk (Some (info_of vertices (descs Ts) [])) s = Some (InitVerticesUpTo vertices s, r) /\
    rec_next r = foldl Z.max 0 ((fun e => sequence e + 1) <$> concat ((fun t => all_edges t.2) <$> concat Ts)) /\
    forall t e, t ∈ concat Ts -> e ∈ all_edges t.2 -> sequence e < rec_next r.
Proof.
  intros Hdir Hmax Hv.
  destruct (directory_loads flags tls pnum debug max_v disk Ts Hdir Hmax vertices [] s Hv) as (a & lv & num & fid & data & -> & Hd & _).
  rewrite recover_legacy by done. cbn [ld_storage recovered_caches].
  rewrite (scan_all_caches flags tls pnum max_v disk Ts Hdir _ _ _ _ Hd). simpl_bind. eexists. split; [reflexivity|]. cbn [rec_next].
  assert (foldl Z.max 0 (next_of <$> concat Ts) = foldl Z.max 0 ((fun e => sequence e + 1) <$> concat ((fun t => all_edges t.2) <$> concat Ts))) as ->.
  { generalize (concat Ts). intros ts. change (?f <$> concat ?ls) with (map f (concat ls)). rewrite concat_map, <- foldl_max_concat by done.
    f_equal. change (map ?f ?l) with (f <$> l). by rewrite <- !list_fmap_compose. }
  split; [done|]. intros t e Ht He. pose proof (foldl_max_bound 0 ((fun e => sequence e + 1) <$> concat ((fun t => all_edges t.2) <$> concat Ts))) as [_ Hb].
  rewrite Forall_forall in Hb. specialize (Hb (sequence e + 1)). cbn in Hb. match type of Hb with ?A -> ?B => assert B; [apply Hb|lia] end.
  apply (list_elem_of_fmap_2 (fun e => sequence e + 1)), list_elem_of_In, in_concat. exists (all_edges t.2).
  split; apply list_elem_of_In; [by apply (list_elem_of_fmap_2 (fun t : Z * Table => all_edges t.2))|done].
Qed.

(** A load drops the index of the files below level 0 (a defect). Every such
    file of the directory is in the table of its level without an index entry;
    a compaction that merges it reads outside that array before its first edge,
    and no record of a property delta finds its edge in it. *)
Theorem lower_level_index_lost flags tls pnum debug max_v disk Ts files vertices next s level ts t :
  directory_ok flags tls pnum max_v disk Ts -> 0 <= max_v < 2 ^ 63 -> Forall2 (Forall2 described_by) files Ts ->
  fits 64 vertices -> 0 <= next < 2 ^ 63 -> (1 <= level)%nat -> Ts !! level = Some ts -> t ∈ ts ->
  exists r fs c d, recover debug max_v disk (Some (write_file_info vertices files next)) s = Some (InitVerticesUpTo vertices s, r) /\
    fileMetaCache_ (rec_storage r) !! level = Some fs /\ c ∈ fs /\ described_by c t /\ sst_data (rec_storage r) !! t.1 = Some d /\
    (forall cfg d' is_input_0, Way_Init cfg debug flags tls (new_way c d' is_input_0) = None) /\
    forall record, LocateSstEdgeOrdinal d record = Some None.
Proof.
  intros Hdir Hmax Hfiles Hv Hn Hl Hts Ht. rewrite (write_info_desc vertices files (descs Ts)).
  2:{ unfold descs. apply Forall2_fmap_r. eapply Forall2_impl; [exact Hfiles|]. intros fs ts' Hf. by apply Forall2_fmap_r. }
  destruct (directory_loads flags tls pnum debug max_v disk Ts Hdir Hmax vertices (trailer next) s Hv) as (a & lv & num & fid & data & -> & Hd & _).
  rewrite (recover_trailer next) by done. simpl_bind. assert (descs Ts !! level = Some (file_desc <$> ts)) as Hds by (unfold descs; by rewrite list_lookup_fmap, Hts).
  destruct (Hd level _ Hds (file_desc t)) as (f & _ & Ef); [by apply list_elem_of_fmap_2|].
  assert (Z.of_nat level =? 0 = false) as Hl0 by lia. unfold kept in Ef. rewrite Hl0 in Ef.
  eexists _, _, (reloaded (Z.of_nat level) (file_desc t)), _. split; [reflexivity|]. cbn [rec_storage ld_storage fileMetaCache_ sst_data].
  split; [apply (load_all_lookup 0), Hds|]. split_and!.
  - apply sorted_level_elem, list_elem_of_fmap_2. by apply list_elem_of_fmap_2.
  - done.
  - exact Ef.
  - intros cfg d' in0. unfold Way_Init. cbn [new_way sub_way total_index_cnt_ index_cp index_start_offset_ reloaded cache_indexes].
    unfold kept. rewrite Hl0. by destruct (assert_ _ _), (assert_ _ _).
  - done.
Qed.

(** The load cannot index a vertex of 2^31 or more (a defect): its number is
    kept in an [int], and the index array is read far beyond its end. *)
Lemma wide_vertex_fails max_v level fid x y rest a lv :
  2 ^ 31 <= ix_key x < 2 ^ 32 -> block_count_ a < 2 ^ 43 -> index_sources max_v level fid (x :: y :: rest) a lv = None.
Proof.
  intros Hx Ha. rewrite index_sources_cons. cbv zeta. change (2 ^ 31) with 2147483648 in Hx. change (2 ^ 32) with 4294967296 in Hx.
  assert (u64 (signed 32 (ix_key x)) = 18446744069414584320 + ix_key x) as ->.
  { unfold signed. change (2 ^ (32 - 1)) with 2147483648. rewrite wrap_small by (unfold fits; change (2 ^ 32) with 4294967296; lia).
    unfold u64, wrap. change (2 ^ 64) with 18446744073709551616. change (2 ^ 32) with 4294967296.
    destruct (Z.ltb_spec (ix_key x) 2147483648); [lia|]. symmetry. apply (Z.mod_unique_pos _ _ (-1)); lia. }
  unfold lazy_get, EnsureBlock. cbn zeta. rewrite (proj2 (Z.leb_le _ _)); [done|].
  rewrite Z.shiftr_div_pow2 by done. change (2 ^ kBlockShift) with 1048576. change (2 ^ 43) with 8796093022208 in Ha.
  pose proof (Z.div_le_lower_bound (18446744069414584320 + ix_key x) 1048576 8796093022208). lia.
Qed.

(** ** A directory of two files *)
Definition lost_table : Table := [(3, [mkEdge 4 7 false [byte_of 65] true 1]); (9, [mkEdge 1 8 false [byte_of 66] true 1])].
Definition lost_tables : Tables := [[]; [(17, sample_vs); (21, lost_table)]; []; []; []].
Definition lost_disk : gmap Z DiskFile :=
  {[ 17 := mkDisk (ref_file sample_flags sample_layout sample_vs 17) []; 21 := mkDisk (ref_file sample_flags sample_layout lost_table 21) [] ]}.
Definition lost_files : list (list SSTableCache) :=
  (fun ts : list (Z * Table) => (fun t : Z * Table => mkCache (ref_header t.2 t.1) 0 (ref_indexes t.2)) <$> ts) <$> lost_tables.

Lemma lost_directory : directory_ok sample_flags sample_layout 2 16 lost_disk lost_tables.
Proof.
  assert (flushable sample_flags sample_layout 2 lost_table) as Hfl.
  { split_and!; [done| |reflexivity]. split; [reflexivity|]. intros [|[|p]] Hp; [split; [done|reflexivity]..|lia]. }
  assert (flush_input_ok lost_table) as Hin.
  { split; [repeat constructor|]. repeat (constructor; [split_and!; try done; [eval_prop|repeat constructor]|]). constructor. }
  split; [done|..].
  - constructor; [|constructor; [|constructor]]; cbn [fst snd].
    + split_and!; [exact sample_flushable|done|]. exists (sentinel_body sample_flags sample_layout sample_vs), []. reflexivity.
    + split_and!; [exact Hfl|done|]. exists (sentinel_body sample_flags sample_layout lost_table), []. reflexivity.
  - constructor; [|constructor; [|constructor]]; (split; [first [exact sample_input_ok | exact Hin]|eval_prop]).
  - eval_prop.
  - repeat (constructor; [eval_prop|]). constructor.
  - repeat (constructor; [reflexivity|]). constructor.
Qed.

Lemma lost_described : Forall2 (Forall2 described_by) lost_files lost_tables.
Proof. repeat constructor. Qed.

Lemma recovered_index_exact_witness :
  exists r, recover true 16 lost_disk (Some (write_file_info 10 lost_files 9)) (new_store 3 2) = Some (InitVerticesUpTo 10 (new_store 3 2), r) /\
    rec_next r = 9 /\ (levels (entry (vid_to_mullevelIndex_ (rec_storage r)) 9) !! 0%nat) = Some (mkLevel 21 16 32).
Proof.
  assert (1 <= 1 < MAX_LEVEL) as H1 by done. assert (0 <= 9 < kInvalidVertexId) as H2 by done.
  destruct (recovered_index_exact sample_flags sample_layout 2 true 16 lost_disk lost_tables lost_files 10 9 (new_store 3 2)
    lost_directory ltac:(lia) lost_described ltac:(done) ltac:(done)) as (r & E & En & He).
  exists r. split_and!; [exact E|exact En|]. pose proof (He 1 9 H1 H2) as H9. change (Z.to_nat (1 - 1)) with 0%nat in H9.
  rewrite H9. vm_compute. reflexivity.
Defined.

Lemma legacy_sequence_witness :
  exists r, recover true 16 lost_disk (Some (info_of 10 (descs lost_tables) [])) (new_store 3 2) = Some (InitVerticesUpTo 10 (new_store 3 2), r) /\
    rec_next r = 9.
Proof.
  destruct (legacy_sequence sample_flags sample_layout 2 true 16 lost_disk lost_tables 10 (new_store 3 2)
    lost_directory ltac:(lia) ltac:(done)) as (r & E & En & _).
  exists r. split; [exact E|]. rewrite En. reflexivity.
Defined.

Lemma lower_level_index_lost_witness :
  exists r fs c d, recover true 16 lost_disk (Some (write_file_info 10 lost_files 9)) (new_store 3 2) = Some (InitVerticesUpTo 10 (new_store 3 2), r) /\
    fileMetaCache_ (rec_storage r) !! 1%nat = Some fs /\ c ∈ fs /\ described_by c (21, lost_table) /\ sst_data (rec_storage r) !! 21 = Some d /\
    (forall cfg d' is_input_0, Way_Init cfg true sample_flags sample_layout (new_way c d' is_input_0) = None) /\
    forall record, LocateSstEdgeOrdinal d record = Some None.
Proof.
  apply (lower_level_index_lost sample_flags sample_layout 2 true 16 lost_disk lost_tables lost_files 10 9 (new_store 3 2) 1
    [(17, sample_vs); (21, lost_table)] (21, lost_table) lost_directory);
    first [lia | exact lost_described | done | reflexivity | right; left].
Defined.
