(* ===== verification/CompactionRound.v ===== *)
(** * Compaction: rounds and their schedule

    src/compaction.cpp around the merge: [RemoveCache], [PreCompaction],
    [DoCompactionWorkTwoWay], [ProcessCompactionWork], [UpdataLevelIndex],
    [DirectAdjustLevel], [DoGeneralCompactionWork], [BackgroundCompaction],
    [MaybeScheduleCompaction] and [ForceCompactAllL0ToL1], with one
    subcompaction (the default of the options).  The files that a reader's
    version still holds are an argument; a file is removed when its last holder
    releases it.  [None] is undefined behaviour, or with [debug] a failed
    assertion.

    Below level 0 the files of a level are in source order, so two cursors are
    enough: [DoCompactionWorkTwoWay] does to the store exactly what the multi-way
    merge of the same files does. *)

From S2P Require Import Prelude.
From S2P Require Import Types.
From S2P Require Import DeltaFile.
From S2P Require Import DeltaStore.
From S2P Require Import PropertyLayout.
From S2P Require Import Sst.
From S2P Require Import SkipList.
From S2P Require Import SkipListFacts.
From S2P Require Import MemTable.
From S2P Require Import SstBuild.
From S2P Require Import SstBuildFacts.
From S2P Require Import SstBuildTheorems.
From S2P Require Import MemTableFlush.
From S2P Require Import DeltaMerge.
From S2P Require Import LevelIndex.
From S2P Require Import LsmRead.
From S2P Require Import LsmHistory.
From S2P Require Import CompactionPick.
From S2P Require Import SstWriter.
From S2P Require Import CompactionMerge.
From S2P Require Import CompactionOutput.
From S2P Require Import CompactionWays.
From S2P Require Import CompactionTheorems.
From S2P Require Import CompactionPublish.
From S2P Require Import CompactionReads.
From S2P Require Import CompactionClaims.
From S2P Require Import Reopen.

(** ** Limits *)
Definition LEVEL_FILE_RATIO : Z := 10.

Fixpoint getLevelMaxSize (level : nat) : Z :=
  match level with O => 4 | S level => getLevelMaxSize level * LEVEL_FILE_RATIO end.

Record Limits := mkLimits { l0_auto_compaction_limit_ : Z; l1_auto_compaction_limit_ : Z }.

Definition default_limits : Limits := mkLimits 4 0.
Definition SetL0AutoCompactionLimit (limit : Z) (lim : Limits) : Limits := mkLimits (Z.max 1 limit) (l1_auto_compaction_limit_ lim).
Definition SetL1AutoCompactionLimit (limit : Z) (lim : Limits) : Limits := mkLimits (l0_auto_compaction_limit_ lim) (Z.max 1 limit).

Definition LevelMaxSize (lim : Limits) (level : Z) : Z :=
  if level =? 0 then l0_auto_compaction_limit_ lim
  else if (level =? 1) && (0 <? l1_auto_compaction_limit_ lim) then l1_auto_compaction_limit_ lim
  else getLevelMaxSize (Z.to_nat level).

(** ** Metadata *)
Definition fid_of (c : SSTableCache) : Z := u32 (timeStamp (cache_header c)).
Definition merged_fids (inputs : list SSTableCache) : list Z := fid_of <$> inputs.

Definition with_files (s : Storage) (files : list (list SSTableCache)) : Storage :=
  mkStorage files (vid_to_mullevelIndex_ s) (vertex_max_level_ s) (sst_data s).

Definition drop_fids (fids : list Z) (files : list SSTableCache) : list SSTableCache := filter (fun c => fid_of c ∉ fids) files.

(** The multi-version build keeps level 0 in its versions. *)
Definition RemoveCache (level inputs_index : Z) (fids : list Z) (s : Storage) : option Storage :=
  if (zlen (fileMetaCache_ s) <=? level) || bool_decide (fids = []) then Some s
  else if (level =? 0) && (inputs_index =? 0) then Some s
  else
    files ← fileMetaCache_ s !! Z.to_nat level;
    Some (with_files s (<[Z.to_nat level := drop_fids fids files]> (fileMetaCache_ s))).

Section Work.
Context (cfg : CompactionConfig) (debug : bool) (flags : Flags) (tls : layout) (property_num : nat).

(** ** The two-way merge of the lower levels *)

(** One of the two levels: the way that is read with its current record, and
    the ways behind it. *)
Record Side := mkSide { side_current : option (Way * EdgeRecord); side_waiting : list Way }.

Definition start_side (ways : list Way) : option Side :=
  match ways with
  | [] => Some (mkSide None [])
  | w :: ways =>
      w ← Way_Init cfg debug flags tls w;
      '(r, w) ← NextEdgeRecord cfg debug flags tls w;
      r ← r;
      Some (mkSide (Some (w, r)) ways)
  end.

Definition advance_side (a : Side) : option Side :=
  '(w, _) ← side_current a;
  '(r, w) ← NextEdgeRecord cfg debug flags tls w;
  match (r : option EdgeRecord) with
  | Some r => Some (mkSide (Some (w, r)) (side_waiting a))
  | None => start_side (side_waiting a)
  end.

(** [min_edge_index] and its record: the next level wins only if it is less. *)
Definition least_side (a b : Side) : option (bool * EdgeRecord) :=
  match side_current a, side_current b with
  | Some (_, r0), Some (_, r1) => if record_less r1 r0 then Some (true, r1) else Some (false, r0)
  | Some (_, r0), None => Some (false, r0)
  | None, Some (_, r1) => Some (true, r1)
  | None, None => None
  end.

Section TwoWay.
Context (level min_level_0_fid_ : Z) (input_0_fidset_ : list Z) (fetch_time : nat -> Z).

Fixpoint two_way_loop (fuel : nat) (a b : Side) (o : Output) : option Output :=
  match least_side a b with
  | None => Some o
  | Some (from_next, edge_record) =>
      match fuel with
      | O => None
      | S fuel =>
          o ← emit cfg debug flags tls property_num level min_level_0_fid_ input_0_fidset_ fetch_time o edge_record;
          if (from_next : bool) then b ← advance_side b; two_way_loop fuel a b o
          else a ← advance_side a; two_way_loop fuel a b o
      end
  end.

(** The output at the end of the loop. *)
Definition two_way_output (ways_0 ways_1 : list Way) (s : Storage) : option Output :=
  _ ← assert_ debug (1 <=? level);
  _ ← assert_ debug (1 <=? zlen ways_0);
  a ← start_side ways_0;
  b ← start_side ways_1;
  '(_, first) ← least_side a b;
  let w := SstWriter.Init property_num (new_writer property_num) (src_ first) (fetch_time 0%nat) in
  two_way_loop (merge_fuel (ways_0 ++ ways_1)) a b (mkOutput w s 1).

Definition two_way (ways_0 ways_1 : list Way) (s : Storage) : option Storage :=
  o ← two_way_output ways_0 ways_1 s;
  if IsClear (out_writer o) then Some (out_storage o)
  else '(_, s) ← WriteEnd cfg debug level min_level_0_fid_ input_0_fidset_ (out_writer o) (out_storage o); Some s.
End TwoWay.

Definition DoCompactionWorkTwoWay (level min_level_0_fid_ : Z) (fetch_time : nat -> Z) (inputs_0_size : nat) (ways : list Way) (s : Storage)
  : option Storage :=
  two_way level min_level_0_fid_ (way_fid_ <$> take inputs_0_size ways) fetch_time (take inputs_0_size ways) (drop inputs_0_size ways) s.

(** ** Merging the inputs *)
Definition ProcessCompactionWork (level min_level_0_fid_ : Z) (fetch_time : nat -> Z) (inputs_0_size : nat) (ways : list Way) (s : Storage)
  : option Storage :=
  if level =? 0 then ProcessMultiWaysCompaction cfg debug flags tls property_num level min_level_0_fid_ fetch_time ways s
  else DoCompactionWorkTwoWay level min_level_0_fid_ fetch_time inputs_0_size ways s.

(** The output of that merge at the end of its loop. *)
Definition work_output (level min_level_0_fid_ : Z) (fetch_time : nat -> Z) (inputs_0_size : nat) (ways : list Way) (s : Storage)
  : option Output :=
  if level =? 0 then merge_output cfg debug flags tls property_num level min_level_0_fid_ (input_0_fids ways) fetch_time ways s
  else two_way_output level min_level_0_fid_ (way_fid_ <$> take inputs_0_size ways) fetch_time (take inputs_0_size ways) (drop inputs_0_size ways) s.

(** A way over the files of a cache. *)
Definition open_way (s : Storage) (is_input_0 : bool) (c : SSTableCache) : option Way :=
  d ← sst_data s !! fid_of c; Some (new_way c d is_input_0).

Definition PreCompaction (level : Z) (inputs_0 inputs_1 : list SSTableCache) (s : Storage) : option (list Way * Storage) :=
  ways_0 ← mapM (open_way s true) inputs_0;
  ways_1 ← mapM (open_way s false) inputs_1;
  s ← RemoveCache level 0 (merged_fids inputs_0) s;
  s ← RemoveCache (level + 1) 1 (merged_fids inputs_1) s;
  Some (ways_0 ++ ways_1, s).

Definition DoGeneralCompactionWork (level min_level_0_fid_ : Z) (fetch_time : nat -> Z) (inputs_0 inputs_1 : list SSTableCache) (s : Storage)
  : option Storage :=
  _ ← assert_ debug (0 <? zlen inputs_0 + zlen inputs_1);
  '(ways, s) ← PreCompaction level inputs_0 inputs_1 s;
  ProcessCompactionWork level min_level_0_fid_ fetch_time (length inputs_0) ways s.

(** ** Moving files down *)
Definition move_entry (level : Z) (findex : MulLevelIndex) : option MulLevelIndex :=
  fid ← get_fileID findex (level - 1);
  findex ← set_fileID findex level fid;
  offset ← get_offset findex (level - 1);
  findex ← set_offset findex level offset;
  next_offset ← get_next_offset findex (level - 1);
  findex ← set_next_offset findex level next_offset;
  set_fileID findex (level - 1) INVALID_File_ID.

Fixpoint move_indexes (level : Z) (indexes : list Index) (s : Storage) : option Storage :=
  match indexes with
  | x :: (_ :: _) as rest =>
      '(a, findex) ← lazy_get (vid_to_mullevelIndex_ s) (ix_key x);
      findex ← move_entry level findex;
      a ← lazy_set a (ix_key x) findex;
      move_indexes level rest
        (mkStorage (fileMetaCache_ s) a
           (<[ix_key x := write_max (default 0 (vertex_max_level_ s !! ix_key x)) (level + 2)]> (vertex_max_level_ s)) (sst_data s))
  | _ => Some s
  end.

(** The index is read from the file. *)
Definition UpdataLevelIndex (level : Z) (it : SSTableCache) (s : Storage) : option Storage :=
  d ← sst_data s !! fid_of it;
  indexBuf ← read_at (edge_data d) (Sst.size (cache_header it) * EDGEBODY_SIZE) (Sst.index_size (cache_header it) * sizeof Index);
  _ ← assert_ debug (0 <? level);
  indexes ← load_indexes (Z.to_nat (Sst.index_size (cache_header it))) indexBuf 0;
  move_indexes level indexes s.

Fixpoint move_files (level : Z) (inputs_0 : list SSTableCache) (s : Storage) : option Storage :=
  match inputs_0 with
  | [] => Some s
  | it :: inputs_0 =>
      next ← fileMetaCache_ s !! Z.to_nat (level + 1);
      s ← UpdataLevelIndex level it (with_files s (<[Z.to_nat (level + 1) := next ++ [it]]> (fileMetaCache_ s)));
      move_files level inputs_0 s
  end.

Definition DirectAdjustLevel (level : Z) (inputs_0 : list SSTableCache) (s : Storage) : option Storage :=
  _ ← assert_ debug (1 <=? level);
  _ ← assert_ debug (level + 1 <? zlen (fileMetaCache_ s));
  s ← move_files level inputs_0 s;
  next ← fileMetaCache_ s !! Z.to_nat (level + 1);
  RemoveCache level 0 (merged_fids inputs_0) (with_files s (<[Z.to_nat (level + 1) := merge_sort min_key_le next]> (fileMetaCache_ s))).

(** ** A round *)

(** [LogAndApply] of the removals, as far as the list of level 0 goes. *)
Definition publish_level0 (fids : list Z) (s : Storage) : option Storage :=
  files ← fileMetaCache_ s !! 0%nat;
  let files := drop_fids fids files in
  Some (with_files s (<[0%nat := if (1 <? length files)%nat then merge_sort time_ge files else files]> (fileMetaCache_ s))).

(** The references of this compaction are dropped: what no reader holds goes. *)
Definition release_files (held : gset Z) (fids : list Z) (s : Storage) : Storage :=
  mkStorage (fileMetaCache_ s) (vid_to_mullevelIndex_ s) (vertex_max_level_ s)
    (filter (fun x => x.1 ∈ held \/ x.1 ∉ fids) (sst_data s)).

Definition min_level_0_fid_of (level : Z) (inputs_0 : list SSTableCache) : Z :=
  if level =? 0 then foldl (fun m c => if m <? timeStamp (cache_header c) then fid_of c else m) 0 inputs_0 else 0.

(** The output of the merge of a round at the end of its loop. *)
Definition inputs_output (fetch_time : nat -> Z) (level : Z) (inputs_0 inputs_1 : list SSTableCache) (s : Storage) : option Output :=
  '(ways, s) ← PreCompaction level inputs_0 inputs_1 s;
  work_output level (min_level_0_fid_of level inputs_0) fetch_time (length inputs_0) ways s.

Definition compact_inputs (held : gset Z) (fetch_time : nat -> Z) (level : Z) (inputs_0 inputs_1 : list SSTableCache) (s : Storage)
  : option Storage :=
  let moved := (0 <? level) && bool_decide (inputs_1 = []) in
  s ← (if moved then DirectAdjustLevel level inputs_0 s
       else DoGeneralCompactionWork level (min_level_0_fid_of level inputs_0) fetch_time inputs_0 inputs_1 s);
  s ← (if level =? 0 then publish_level0 (merged_fids inputs_0) s else Some s);
  Some (if moved then s else release_files held (merged_fids (inputs_0 ++ inputs_1)) s).

(** ** The schedule *)
Record Compactor := mkCompactor {
  storage : Storage;
  compact_pointer_ : list Z;
  last_merge_max_key_ : Z;
}.

(** What is left open for round [k]: the readers' files and the file ids. *)
Context (lim : Limits) (held : nat -> gset Z) (fetch_time : nat -> nat -> Z).

Definition level_size (s : Storage) (level : Z) : Z := from_option zlen 0 (fileMetaCache_ s !! Z.to_nat level).

Definition run_round (k : nat) (level : Z) (c : Compactor) : option Compactor :=
  pointer ← compact_pointer_ c !! Z.to_nat level;
  pick ← PickCompactioFile (fileMetaCache_ (storage c)) level true pointer;
  s ← compact_inputs (held k) (fetch_time k) level (inputs_0 pick) (inputs_1 pick) (storage c);
  Some (mkCompactor s (<[Z.to_nat level := compact_pointer pick]> (compact_pointer_ c)) (default (last_merge_max_key_ c) (last_merge_max_key pick))).

Definition level_done (level : Z) (s : Storage) : bool :=
  (zlen (fileMetaCache_ s) <=? level) || (level_size s level <? LevelMaxSize lim level) || (MAX_LEVEL <=? level + 1).

Definition next_level (level : Z) (s : Storage) : Z := if LevelMaxSize lim level <? level_size s level then level else level + 1.

Fixpoint compaction_loop (fuel : nat) (k : nat) (level : Z) (c : Compactor) : option Compactor :=
  if level_done level (storage c) then Some c
  else
    match fuel with
    | O => None
    | S fuel => c ← run_round k level c; compaction_loop fuel (S k) (next_level level (storage c)) c
    end.

(** A level never has more files than the store has edges. *)
Definition compaction_fuel (s : Storage) : nat :=
  (4 * S (sum_list ((fun c => Z.to_nat (Sst.size (cache_header c))) <$> concat (fileMetaCache_ s))))%nat.

(** [prepared] is the result of the preparation callback. *)
Definition BackgroundCompaction (prepared : bool) (c : Compactor) : option Compactor :=
  if prepared then compaction_loop (compaction_fuel (storage c)) 0 0 c else Some c.

Definition MaybeScheduleCompaction (state prepared : bool) (c : Compactor) : option Compactor :=
  if (l0_auto_compaction_limit_ lim <=? level_size (storage c) 0) && negb state then BackgroundCompaction prepared c else Some c.

Definition ForceCompactAllL0ToL1 (state prepared : bool) (c : Compactor) : option (bool * Compactor) :=
  if negb prepared || state then Some (false, c)
  else if zlen (fileMetaCache_ (storage c)) <=? 1 then Some (false, c)
  else
    files ← fileMetaCache_ (storage c) !! 0%nat;
    match files with
    | [] => Some (true, c)
    | _ =>
        range ← GetRange files;
        inputs_1 ← GetOverlappingInputs (fileMetaCache_ (storage c)) 1 range.1 range.2;
        s ← compact_inputs (held 0%nat) (fetch_time 0%nat) 0 files inputs_1 (storage c);
        Some (true, mkCompactor s (compact_pointer_ c) (last_merge_max_key_ c))
    end.
End Work.

(** ** The two-way merge is the multi-way merge *)
Section Cursors.
Context (cfg : CompactionConfig) (debug : bool) (flags : Flags) (tls : layout) (property_num : nat).
Context (level min_level_0_fid_ : Z) (fids : list Z) (fetch_time : nat -> Z).
Abbreviation emits := (emit_all cfg debug flags tls property_num level min_level_0_fid_ fids fetch_time).
Abbreviation yields := (way_yields cfg debug flags tls).
Abbreviation start := (start_side cfg debug flags tls).
Abbreviation advance := (advance_side cfg debug flags tls).
Abbreviation loop := (two_way_loop cfg debug flags tls property_num level min_level_0_fid_ fids fetch_time).
Abbreviation sorted := (StronglySorted record_le).

(** A way before its first record. *)
Definition fresh_way (w : Way) (rs : list EdgeRecord) : Prop :=
  rs <> [] /\ exists w', Way_Init cfg debug flags tls w = Some w' /\ yields w' rs.

(** What a side still has to give. *)
Definition side_stream (a : Side) (rs : list EdgeRecord) : Prop :=
  match side_current a with
  | None => rs = []
  | Some (w, r) => exists rest R, rs = r :: rest ++ concat R /\ yields w rest /\ Forall2 fresh_way (side_waiting a) R
  end.

Lemma start_side_stream ways R : Forall2 fresh_way ways R -> exists a, start ways = Some a /\ side_stream a (concat R).
Proof.
  intros [|w rs ways' R' (Hne & w1 & E1 & Hy) HR]; [by exists (mkSide None [])|]. cbn [start_side concat]. rewrite E1. simpl_bind.
  inversion Hy as [|? w2 r rest E2 Hy']; subst; [done|]. rewrite E2. simpl_bind. eexists. split; [reflexivity|]. cbn. by exists rest, R'.
Qed.

Lemma advance_side_stream a r rs :
  side_stream a (r :: rs) -> exists w a', side_current a = Some (w, r) /\ advance a = Some a' /\ side_stream a' rs.
Proof.
  unfold side_stream at 1. unfold advance_side. destruct (side_current a) as [[w r']|]; [|done].
  intros (rest & R & [= -> ->] & Hy & HR). simpl_bind. inversion Hy as [? w2 E|? w2 x rest' E Hy']; subst; rewrite E; simpl_bind.
  - destruct (start_side_stream _ _ HR) as (a' & -> & Ha). by exists w, a'.
  - eexists w, _. split_and!; [done|reflexivity|]. cbn. by exists rest', R.
Qed.

Lemma side_stream_cases a rs :
  side_stream a rs -> (side_current a = None /\ rs = []) \/ exists w r rest, side_current a = Some (w, r) /\ rs = r :: rest.
Proof.
  unfold side_stream. destruct (side_current a) as [[w r]|]; [|by left]. intros (rest & R & -> & _). right. by eexists _, _, _.
Qed.

(** Emitting [F] merges the two lists. *)
Definition merges (F A B : list EdgeRecord) : Prop := F ≡ₚ A ++ B /\ (sorted A -> sorted B -> sorted F).

Lemma merges_left r F A B : merges F A B -> (forall x, x ∈ B -> sorted B -> record_le r x) -> merges (r :: F) (r :: A) B.
Proof.
  intros [Hp Hs] Hr. split; [by rewrite Hp|]. intros [HA Hle]%StronglySorted_inv HB. constructor; [by apply Hs|].
  rewrite Hp, Forall_app. split; [done|]. apply Forall_forall. intros x Hx. by apply Hr.
Qed.

Lemma merges_sym F A B : merges F A B -> merges F B A.
Proof. intros [Hp Hs]. split; [by rewrite Hp, Permutation_app_comm|]. auto. Qed.

Lemma two_way_emits fuel : forall a b A B,
  side_stream a A -> side_stream b B -> (length (A ++ B) <= fuel)%nat ->
  exists F, (forall o, loop fuel a b o = emits o F) /\ head F = snd <$> least_side a b /\ merges F A B.
Proof.
  assert (forall x r r' l, record_le r r' -> x ∈ r' :: l -> sorted (r' :: l) -> record_le r x) as Hmin.
  { intros x r r' l Hr [->|Hx]%elem_of_cons; [done|]. intros [_ Hl]%StronglySorted_inv. rewrite Forall_forall in Hl.
    eapply record_le_trans; [exact Hr|by apply Hl]. }
  induction fuel as [|fuel IH]; intros a b A B Ha Hb Hf.
  { destruct A, B; try (simpl in Hf; lia). destruct (side_stream_cases _ _ Ha) as [[Ea _]|(?&?&?&_&?)]; [|done].
    destruct (side_stream_cases _ _ Hb) as [[Eb _]|(?&?&?&_&?)]; [|done]. exists []. unfold least_side. cbn [two_way_loop]. unfold least_side. rewrite Ea, Eb.
    split_and!; [done|done|split; [done|by constructor]]. }
  assert (forall r A', A = r :: A' -> (forall w, side_current a = Some (w, r) -> least_side a b = Some (false, r)) ->
    (forall x, x ∈ B -> sorted B -> record_le r x) ->
    exists F, (forall o, loop (S fuel) a b o = emits o F) /\ head F = snd <$> least_side a b /\ merges F A B) as Hleft.
  { intros r A' -> Hl Hr. destruct (advance_side_stream _ _ _ Ha) as (w & a' & Ec & E' & Ha'). specialize (Hl w Ec).
    destruct (IH a' b A' B Ha' Hb ltac:(simpl in Hf; lia)) as (F & Ho & _ & HF). exists (r :: F). split_and!.
    - intros o. cbn [two_way_loop emit_all]. rewrite Hl. destruct (emit _ _ _ _ _ _ _ _ _ o r) as [o'|]; simpl_bind; [|done]. rewrite E'. simpl_bind. apply Ho.
    - by rewrite Hl.
    - by apply merges_left. }
  assert (forall r B', B = r :: B' -> (forall w, side_current b = Some (w, r) -> least_side a b = Some (true, r)) ->
    (forall x, x ∈ A -> sorted A -> record_le r x) ->
    exists F, (forall o, loop (S fuel) a b o = emits o F) /\ head F = snd <$> least_side a b /\ merges F A B) as Hright.
  { intros r B' -> Hl Hr. destruct (advance_side_stream _ _ _ Hb) as (w & b' & Ec & E' & Hb'). specialize (Hl w Ec).
    destruct (IH a b' A B' Ha Hb' ltac:(rewrite length_app in *; simpl in Hf; lia)) as (F & Ho & _ & HF). exists (r :: F). split_and!.
    - intros o. cbn [two_way_loop emit_all]. rewrite Hl. destruct (emit _ _ _ _ _ _ _ _ _ o r) as [o'|]; simpl_bind; [|done]. rewrite E'. simpl_bind. apply Ho.
    - by rewrite Hl.
    - apply merges_sym. apply merges_left; [by apply merges_sym|done]. }
  destruct (side_stream_cases _ _ Ha) as [[Ea ->]|(wa & ra & A' & Ea & ->)], (side_stream_cases _ _ Hb) as [[Eb ->]|(wb & rb & B' & Eb & ->)].
  - exists []. cbn [two_way_loop]. unfold least_side. rewrite Ea, Eb. split_and!; [done|done|split; [done|by constructor]].
  - apply (Hright rb B' eq_refl); [intros w _; unfold least_side; by rewrite Ea, Eb|by intros x ?%elem_of_nil].
  - apply (Hleft ra A' eq_refl); [intros w _; unfold least_side; by rewrite Ea, Eb|by intros x ?%elem_of_nil].
  - destruct (record_less rb ra) eqn:El.
    + apply (Hright rb B' eq_refl); [intros w _; unfold least_side; by rewrite Ea, Eb, El|]. intros x Hx. apply (Hmin x rb ra A'); [by apply record_less_le|done].
    + apply (Hleft ra A' eq_refl); [intros w _; unfold least_side; by rewrite Ea, Eb, El|]. intros x Hx. by apply (Hmin x ra rb B').
Qed.
End Cursors.

(** ** Files *)
Section Files.
Context (cfg : CompactionConfig) (debug : bool) (flags : Flags) (tls : layout) (property_num : nat).
Context (level min_level_0_fid_ : Z) (fetch_time : nat -> Z).
Context (Hcfg : config_ok cfg) (Hpn : (0 < property_num)%nat).
Context (Hslots : forall p, (p < property_num)%nat -> 0 < slot_len flags tls p < Z.min (PROPERTY_BUFFER_SIZE cfg) 100000).
Abbreviation input_ok := (input_ok cfg flags tls property_num).
Abbreviation record_of := (record_of flags tls property_num).
Abbreviation records := (records flags tls property_num).
Abbreviation fresh := (fresh_way cfg debug flags tls).

(** The files of a level below 0, in their order. *)
Definition in_source_order (files : list InputFile) : Prop := StronglySorted edge_before (concat (edges_in <$> (in_table <$> files))).

Lemma files_fresh files : Forall input_ok files -> Forall2 fresh (way_of <$> files) (records <$> (in_table <$> files)).
Proof.
  induction 1 as [|f files Hf Hfs IH]; [constructor|]. cbn [fmap list_fmap]. constructor; [|exact IH].
  destruct (input_reads cfg debug flags tls property_num fetch_time Hcfg Hpn Hslots f Hf) as (w & Ew & Hy). split; [|by exists w].
  destruct Hf as [((Hne & _) & _ & Hfill & _) _]. destruct (in_table f) as [|[v [|e es]] vs]; [done|by apply Forall_cons in Hfill as [? _]|].
  by rewrite records_cons.
Qed.

Lemma level_records files :
  Forall input_ok files -> exists a, start_side cfg debug flags tls (way_of <$> files) = Some a /\
    side_stream cfg debug flags tls a (uncurry record_of <$> concat (edges_in <$> (in_table <$> files))).
Proof.
  intros Hf. destruct (start_side_stream cfg debug flags tls _ _ (files_fresh files Hf)) as (a & Ea & Ha). exists a. split; [exact Ea|].
  by rewrite concat_records in Ha.
Qed.

(** What both merges do: write the records of the merged table. *)
Definition write_output (fids : list Z) (F : list (Z * Edge)) (s : Storage) : option Output :=
  first ← head F;
  emit_all cfg debug flags tls property_num level min_level_0_fid_ fids fetch_time
    (mkOutput (SstWriter.Init property_num (new_writer property_num) first.1 (fetch_time 0%nat)) s 1) (uncurry record_of <$> F).

Lemma multi_way_writes files s :
  files <> [] -> Forall input_ok files -> distinct_edges (concat (edges_in ∘ in_table <$> files)) ->
  merge_output cfg debug flags tls property_num level min_level_0_fid_ (input_0_fids (way_of <$> files)) fetch_time (way_of <$> files) s
  = write_output (input_0_fids (way_of <$> files)) (merged (in_table <$> files)) s.
Proof.
  intros Hne Hok Hd. set (fids := input_0_fids _). set (F := merged _).
  destruct (start_ways_streams cfg debug flags tls property_num fetch_time Hcfg Hpn Hslots files Hok) as (lanes & Estart & Hl).
  destruct (merge_emits cfg debug flags tls property_num level min_level_0_fid_ fetch_time Hpn fids files lanes Hok Hd Hl) as [Eloop Ehead].
  fold F in Eloop, Ehead. unfold merge_output, write_output. rewrite assert_holds.
  2:{ apply Z.ltb_lt. unfold zlen. rewrite length_fmap. destruct files; [done|]. simpl. lia. }
  rewrite Estart. simpl_bind. destruct (find_min 0 lanes None) as [[i r]|], (head F) as [[v e]|] eqn:EF; cbn in Ehead; try done.
  injection Ehead as ->. simpl_bind. rewrite Eloop. done.
Qed.

Lemma two_way_writes fids files_0 files_1 s :
  1 <= level -> files_0 <> [] -> Forall input_ok (files_0 ++ files_1) -> distinct_edges (concat (edges_in ∘ in_table <$> files_0 ++ files_1)) ->
  in_source_order files_0 -> in_source_order files_1 ->
  two_way_output cfg debug flags tls property_num level min_level_0_fid_ fids fetch_time (way_of <$> files_0) (way_of <$> files_1) s
  = write_output fids (merged (in_table <$> files_0 ++ files_1)) s.
Proof.
  intros Hl Hne Hok Hd Ho0 Ho1. pose proof Hok as [Hok0 Hok1]%Forall_app. pose proof (fuel_enough cfg flags tls property_num Hpn _ Hok) as Hfuel.
  rewrite (list_fmap_compose in_table records), concat_records in Hfuel. rewrite (list_fmap_compose in_table edges_in) in Hd.
  destruct (level_records files_0 Hok0) as (a & Ea & Ha), (level_records files_1 Hok1) as (b & Eb & Hb).
  destruct (two_way_emits cfg debug flags tls property_num level min_level_0_fid_ fids fetch_time (merge_fuel (way_of <$> files_0 ++ files_1)) a b _ _ Ha Hb)
    as (R & Eloop & Ehead & Hp & Hs).
  { by rewrite <- fmap_app, <- concat_app, <- fmap_app, <- fmap_app. }
  rewrite <- fmap_app, <- concat_app, <- !fmap_app in Hp. apply Permutation_map_inv in Hp as (G & -> & HG). change (map ?f ?l) with (f <$> l) in *.
  assert (G = merged (in_table <$> files_0 ++ files_1)) as ->.
  { apply merged_unique; [done|by symmetry|]. apply (records_sorted flags tls property_num). apply Hs; by apply (records_sorted flags tls property_num). }
  unfold two_way_output, write_output. rewrite (assert_holds debug (1 <=? level)) by lia. simpl_bind. rewrite assert_holds.
  2:{ apply Z.leb_le. unfold zlen. rewrite length_fmap. destruct files_0; [done|]. simpl. lia. }
  rewrite Ea, Eb. simpl_bind. rewrite <- fmap_app.
  destruct (least_side a b) as [[n r]|], (merged (in_table <$> files_0 ++ files_1)) as [|[v e] F] eqn:EF; cbn in Ehead; try done.
  injection Ehead as <-. simpl_bind. rewrite Eloop. done.
Qed.
End Files.

Lemma input_0_way_fids files_0 files_1 :
  Forall (fun f => in_0 f = true) files_0 -> Forall (fun f => in_0 f = false) files_1 ->
  input_0_fids (way_of <$> files_0 ++ files_1) = way_fid_ <$> (way_of <$> files_0).
Proof.
  intros H0 H1. unfold input_0_fids. f_equal. rewrite fmap_app, filter_app.
  assert (filter (fun w => is_input_0_ w = true) (way_of <$> files_1) = []) as ->.
  { induction H1 as [|f fs Hf _ IH]; [done|]. cbn [fmap list_fmap]. rewrite filter_cons_False; [exact IH|]. cbn. by rewrite Hf. }
  rewrite app_nil_r. induction H0 as [|f fs Hf _ IH]; [done|]. cbn [fmap list_fmap]. rewrite filter_cons_True by done. by f_equal.
Qed.

Section TwoWayMulti.
Context (cfg : CompactionConfig) (debug : bool) (flags : Flags) (tls : layout) (property_num : nat) (level min_fid : Z) (fetch_time : nat -> Z)
  (files_0 files_1 : list InputFile)
  (Hcfg : config_ok cfg) (Hpn : (0 < property_num)%nat)
  (Hslots : forall p, (p < property_num)%nat -> 0 < slot_len flags tls p < Z.min (PROPERTY_BUFFER_SIZE cfg) 100000)
  (Hl : 1 <= level) (Hne : files_0 <> []) (Hok : Forall (input_ok cfg flags tls property_num) (files_0 ++ files_1))
  (Hd : distinct_edges (concat (edges_in ∘ in_table <$> files_0 ++ files_1)))
  (Ho0 : in_source_order files_0) (Ho1 : in_source_order files_1)
  (H0 : Forall (fun f => in_0 f = true) files_0) (H1 : Forall (fun f => in_0 f = false) files_1).
Abbreviation ways := (way_of <$> files_0 ++ files_1).

Lemma two_way_multi_output s :
  two_way_output cfg debug flags tls property_num level min_fid (way_fid_ <$> take (length files_0) ways) fetch_time
    (take (length files_0) ways) (drop (length files_0) ways) s
  = merge_output cfg debug flags tls property_num level min_fid (input_0_fids ways) fetch_time ways s.
Proof.
  rewrite fmap_app, take_app_length', drop_app_length' by (by rewrite length_fmap). rewrite two_way_writes by done.
  rewrite <- fmap_app, multi_way_writes by (done || by intros [? _]%app_eq_nil). by rewrite input_0_way_fids.
Qed.

Lemma two_way_multi s :
  DoCompactionWorkTwoWay cfg debug flags tls property_num level min_fid fetch_time (length files_0) ways s
  = ProcessMultiWaysCompaction cfg debug flags tls property_num level min_fid fetch_time ways s.
Proof.
  unfold DoCompactionWorkTwoWay, two_way, ProcessMultiWaysCompaction, merge_ways. rewrite two_way_multi_output.
  rewrite fmap_app, take_app_length' by (by rewrite length_fmap). by rewrite <- fmap_app, input_0_way_fids.
Qed.
End TwoWayMulti.

(** C29: the two-way merge that compaction uses below level 0 is the multi-way
    merge: on files of two levels, each in source order, both leave the same
    store, or both fail. *)
Theorem two_way_is_multi_way cfg debug flags tls property_num level min_fid fetch_time files_0 files_1 s :
  config_ok cfg -> (0 < property_num)%nat ->
  (forall p, (p < property_num)%nat -> 0 < slot_len flags tls p < Z.min (PROPERTY_BUFFER_SIZE cfg) 100000) ->
  1 <= level -> files_0 <> [] -> Forall (input_ok cfg flags tls property_num) (files_0 ++ files_1) ->
  distinct_edges (concat (edges_in ∘ in_table <$> files_0 ++ files_1)) -> in_source_order files_0 -> in_source_order files_1 ->
  Forall (fun f => in_0 f = true) files_0 -> Forall (fun f => in_0 f = false) files_1 ->
  DoCompactionWorkTwoWay cfg debug flags tls property_num level min_fid fetch_time (length files_0) (way_of <$> files_0 ++ files_1) s
  = ProcessMultiWaysCompaction cfg debug flags tls property_num level min_fid fetch_time (way_of <$> files_0 ++ files_1) s.
Proof. intros. by apply two_way_multi. Qed.

Lemma two_way_is_multi_way_witness :
  DoCompactionWorkTwoWay default_config true (mkFlags 1 8) (scoped_enter (Some history_lengths)) 1 1 0 sample_ids 1
    (way_of <$> [sample_input 3 level1_vs true] ++ [sample_input 4 older_vs false]) sample_store
  = ProcessMultiWaysCompaction default_config true (mkFlags 1 8) (scoped_enter (Some history_lengths)) 1 1 0 sample_ids
    (way_of <$> [sample_input 3 level1_vs true] ++ [sample_input 4 older_vs false]) sample_store.
Proof.
  apply (two_way_is_multi_way default_config true (mkFlags 1 8) (scoped_enter (Some history_lengths)) 1 1 0 sample_ids
    [sample_input 3 level1_vs true] [sample_input 4 older_vs false] sample_store).
  - apply default_config_ok.
  - lia.
  - intros [|q] Hq; [|lia]. by vm_compute.
  - lia.
  - done.
  - pose proof sample_inputs_ok as Hok. unfold sample_files in Hok. apply Forall_app in Hok as [[_ [[H2 _] _]%Forall_cons]%Forall_cons [[H3 _] _]%Forall_cons].
    constructor; [split; [exact H3|apply flushed_holds_table]|constructor; [split; [exact H2|apply flushed_holds_table]|constructor]].
  - eval_prop.
  - unfold in_source_order. eval_prop.
  - unfold in_source_order. eval_prop.
  - by repeat constructor.
  - by repeat constructor.
Defined.
