(* ===== verification/CompactionTree.v ===== *)
(** * The tree of tables

    What the files of all levels hold, without the store around them: level 0
    newest first, every lower level in source order, and no table newer than one
    above it.  A compaction replaces tables of two neighbouring levels by tables
    of the lower one with the same edges; that keeps the tree well-formed and
    what it answers. *)

From S2P Require Import Prelude.
From S2P Require Import Types.
From S2P Require Import SkipList.
From S2P Require Import SkipListFacts.
From S2P Require Import PropertyLayout.
From S2P Require Import Sst.
From S2P Require Import SstBuild.
From S2P Require Import SstBuildFacts.
From S2P Require Import SstBuildTheorems.
From S2P Require Import LevelIndex.
From S2P Require Import LsmRead.
From S2P Require Import LsmHistory.
From S2P Require Import MemTableFlush.
From S2P Require Import SstWriter.
From S2P Require Import CompactionOutput.
From S2P Require Import CompactionTheorems.
From S2P Require Import CompactionPublish.
From S2P Require Import CompactionReads.

(** A table with the id of its file. *)
Notation TFile := (Z * Table)%type.
Notation Tree := (list (list (Z * Table))).

Definition sources_of (t : TFile) : list Z := t.2.*1.
Definition tree_edges (ts : list TFile) : list (Z * Edge) := concat ((fun t : TFile => edges_in t.2) <$> ts).

Lemma tree_edges_app ts us : tree_edges (ts ++ us) = tree_edges ts ++ tree_edges us.
Proof. unfold tree_edges. by rewrite fmap_app, concat_app. Qed.

#[export] Instance tree_edges_perm : Proper ((≡ₚ) ==> (≡ₚ)) tree_edges.
Proof.
  intros ts us Hp. unfold tree_edges. induction Hp as [|t ts us Hp IH|t u ts|ts us vs Hp1 IH1 Hp2 IH2]; cbn [fmap list_fmap concat].
  - done.
  - by rewrite IH.
  - by rewrite !app_assoc, (Permutation_app_comm (edges_in t.2)).
  - by rewrite IH1.
Qed.

Lemma tree_edges_elem x ts : x ∈ tree_edges ts <-> exists t, t ∈ ts /\ x ∈ edges_in t.2.
Proof.
  unfold tree_edges. induction ts as [|t ts IH]; cbn [fmap list_fmap concat].
  - split; [by intros ?%elem_of_nil|by intros (? & ?%elem_of_nil & _)].
  - rewrite elem_of_app, IH. split.
    + intros [Hx|(u & Hu & Hx)]; [exists t; split; [left|done]|exists u; split; [by right|done]].
    + intros (u & [->|Hu]%elem_of_cons & Hx); [by left|right; by exists u].
Qed.

(** ** Sources *)

(** All sources of [t] are below those of [u]. *)
Definition table_before (t u : TFile) : Prop := forall v w, v ∈ sources_of t -> w ∈ sources_of u -> v < w.

(** The range of [t] meets the range from [a] to [b]. *)
Definition touches (a b : Z) (t : TFile) : Prop :=
  Exists (fun v => a <= v) (sources_of t) /\ Exists (fun v => v <= b) (sources_of t).
#[export] Instance range_touches_dec a b t : Decision (touches a b t).
Proof. unfold touches. apply _. Defined.

Lemma not_touches a b t :
  ~ touches a b t -> (forall v, v ∈ sources_of t -> v < a) \/ (forall v, v ∈ sources_of t -> b < v).
Proof.
  intros Hn. destruct (decide (Exists (fun v => a <= v) (sources_of t))) as [Ha|Ha].
  - right. intros v Hv. destruct (decide (v <= b)) as [Hle|]; [|lia]. exfalso. apply Hn. split; [done|]. apply Exists_exists. by exists v.
  - left. intros v Hv. destruct (decide (a <= v)) as [Hle|]; [|lia]. exfalso. apply Ha, Exists_exists. by exists v.
Qed.

Lemma table_source t v e : (v, e) ∈ edges_in t.2 -> v ∈ sources_of t.
Proof. intros (es & Hv & _)%edges_in_elem. apply list_elem_of_fmap. by exists (v, es). Qed.

Lemma source_edge t v : filled t.2 -> v ∈ sources_of t -> exists e, (v, e) ∈ edges_in t.2.
Proof.
  intros Hf ([u es] & -> & Hin)%list_elem_of_fmap. unfold filled in Hf. rewrite Forall_forall in Hf. specialize (Hf _ Hin). cbn in Hf.
  destruct es as [|e es]; [done|]. exists e. apply edges_in_elem. exists (e :: es). split; [done|left].
Qed.

(** ** Answers *)
Definition level_value (ts : list TFile) (src dst : Z) (is_out : bool) (ty : Z) : option Edge :=
  first_some ((fun t : TFile => table_value t.2 src dst is_out ty) <$> ts).
Definition tree_value (T : Tree) (src dst : Z) (is_out : bool) (ty : Z) : option Edge :=
  first_some ((fun ts => level_value ts src dst is_out ty) <$> T).

Definition orelse (x y : option Edge) : option Edge := match x with Some e => Some e | None => y end.

Lemma orelse_assoc x y z : orelse (orelse x y) z = orelse x (orelse y z).
Proof. by destruct x. Qed.

Lemma level_value_app ts us src dst is_out ty :
  level_value (ts ++ us) src dst is_out ty = orelse (level_value ts src dst is_out ty) (level_value us src dst is_out ty).
Proof. unfold level_value. by rewrite fmap_app, first_some_app. Qed.

Lemma level_value_none ts src dst is_out ty : (forall t, t ∈ ts -> src ∉ sources_of t) -> level_value ts src dst is_out ty = None.
Proof.
  induction ts as [|t ts IH]; intros Hn; [done|]. unfold level_value. cbn [fmap list_fmap]. rewrite first_some_cons, (table_value_absent t.2).
  - apply IH. intros u Hu. apply Hn. by right.
  - apply Hn. left.
Qed.

(** Tables without the source do not matter. *)
Lemma level_value_filter (P : TFile -> Prop) `{!forall t, Decision (P t)} ts src dst is_out ty :
  (forall t, t ∈ ts -> ~ P t -> src ∉ sources_of t) -> level_value ts src dst is_out ty = level_value (filter P ts) src dst is_out ty.
Proof.
  induction ts as [|t ts IH]; intros Hn; [done|]. destruct (decide (P t)) as [Ht|Ht].
  - rewrite filter_cons_True by done. unfold level_value in *. cbn [fmap list_fmap]. rewrite !first_some_cons, IH; [done|]. intros u Hu. apply Hn. by right.
  - rewrite filter_cons_False by done. rewrite <- IH by (intros u Hu; apply Hn; by right). unfold level_value. cbn [fmap list_fmap].
    rewrite first_some_cons, (table_value_absent t.2); [done|]. apply Hn; [left|done].
Qed.

(** Among tables without common sources the order does not matter. *)
Definition unshared (src : Z) (ts : list TFile) : Prop := forall t u, t ∈ ts -> u ∈ ts -> src ∈ sources_of t -> src ∈ sources_of u -> t = u.

Lemma level_value_one ts t src dst is_out ty :
  unshared src ts -> t ∈ ts -> src ∈ sources_of t -> level_value ts src dst is_out ty = table_value t.2 src dst is_out ty.
Proof.
  intros Hu Ht Hs. rewrite (level_value_filter (fun u => u = t)).
  2:{ intros u Hin Hne Hsu. apply Hne. by apply Hu. }
  assert (filter (fun u => u = t) ts <> []) as Hne.
  { intros E. assert (t ∈ filter (fun u => u = t) ts) as Hin by (by apply list_elem_of_filter). rewrite E in Hin. by apply elem_of_nil in Hin. }
  assert (Forall (fun u => u = t) (filter (fun u => u = t) ts)) as Hall by (apply Forall_forall; by intros u [? _]%list_elem_of_filter).
  revert Hne Hall. generalize (filter (fun u => u = t) ts). clear. intros us Hne Hall. induction Hall as [|u us -> Hall IH]; [done|].
  unfold level_value in *. cbn [fmap list_fmap]. rewrite first_some_cons. destruct (table_value t.2 src dst is_out ty); [done|].
  destruct us; [done|]. by apply IH.
Qed.

Lemma level_value_perm ts us src dst is_out ty :
  ts ≡ₚ us -> unshared src ts -> level_value ts src dst is_out ty = level_value us src dst is_out ty.
Proof.
  intros Hp Hu. assert (unshared src us) as Hu' by (intros t u; rewrite <- Hp; apply Hu).
  destruct (decide (Exists (fun t => src ∈ sources_of t) ts)) as [(t & Ht & Hs)%Exists_exists|Hn].
  - rewrite (level_value_one ts t), (level_value_one us t) by (done || by rewrite <- Hp). done.
  - rewrite !level_value_none; [done|..]; intros t Ht Hs; apply Hn, Exists_exists; exists t; [by rewrite Hp|done].
Qed.

Lemma table_before_unshared src ts : StronglySorted table_before ts -> unshared src ts.
Proof.
  intros Hs t u Ht Hu H1 H2. induction Hs as [|x ts Hs IH Hx]; [by apply elem_of_nil in Ht|]. rewrite Forall_forall in Hx.
  apply elem_of_cons in Ht as [->|Ht], Hu as [->|Hu]; [done|..|by apply IH].
  - specialize (Hx u Hu src src H1 H2). lia.
  - specialize (Hx t Ht src src H2 H1). lia.
Qed.

(** ** Well-formed trees *)
Section Forest.
Context (cfg : CompactionConfig) (flags : Flags) (tls : layout) (pnum : nat).

Definition tfile_ok (t : TFile) : Prop := table_ok cfg flags tls pnum t.2 /\ 0 <= t.1 < INVALID_File_ID.

Record forest (T : Tree) : Prop := {
  fo_len : length T = Z.to_nat MAX_LEVEL;
  fo_tables : Forall tfile_ok (concat T);
  fo_ids : NoDup (fst <$> concat T);
  fo_level0 : forall ts, T !! 0%nat = Some ts -> StronglySorted (fun t u : TFile => no_newer t.2 u.2 /\ u.1 < t.1) ts;
  fo_lower : forall i ts, (0 < i)%nat -> T !! i = Some ts -> StronglySorted table_before ts;
  fo_newer : forall i j ts us t u, (i < j)%nat -> T !! i = Some ts -> T !! j = Some us -> t ∈ ts -> u ∈ us -> no_newer t.2 u.2;
  fo_distinct : distinct_edges (tree_edges (concat T));
  fo_small : EDGEBODY_SIZE * zlen (tree_edges (concat T)) < 2 ^ 31;
  fo_sizes : sizes_fit flags tls pnum (zlen (tree_edges (concat T)));
}.

Definition in_of (fids : list Z) (ts : list TFile) : list TFile := filter (fun t => t.1 ∈ fids) ts.
Definition out_of (fids : list Z) (ts : list TFile) : list TFile := filter (fun t => t.1 ∉ fids) ts.

Lemma in_out fids ts : ts ≡ₚ in_of fids ts ++ out_of fids ts.
Proof.
  induction ts as [|t ts IH]; [done|]. unfold in_of, out_of in *. destruct (decide (t.1 ∈ fids)) as [Ht|Ht].
  - rewrite filter_cons_True, (filter_cons_False (fun t => t.1 ∉ fids)) by (done || by intros H; apply H). cbn [app]. by constructor.
  - rewrite filter_cons_False, (filter_cons_True (fun t => t.1 ∉ fids)) by done. rewrite IH at 1. apply Permutation_middle.
Qed.

Lemma in_of_elem fids ts t : t ∈ in_of fids ts <-> t.1 ∈ fids /\ t ∈ ts.
Proof. unfold in_of. by rewrite list_elem_of_filter. Qed.
Lemma out_of_elem fids ts t : t ∈ out_of fids ts <-> t.1 ∉ fids /\ t ∈ ts.
Proof. unfold out_of. by rewrite list_elem_of_filter. Qed.

(** The inputs of two levels, and the tables [W] that replace them below. *)
Record shift (T : Tree) (l : nat) (fids0 fids1 : list Z) (W ts us : list TFile) : Prop := {
  sh_level : T !! l = Some ts;
  sh_next : T !! S l = Some us;
  sh_hull : exists a b, (forall t, t ∈ ts -> t.1 ∈ fids0 <-> touches a b t) /\
    (forall t v, t ∈ ts -> t.1 ∈ fids0 -> v ∈ sources_of t -> a <= v <= b) /\ (forall u, u ∈ us -> u.1 ∈ fids1 <-> touches a b u);
  sh_edges : tree_edges W ≡ₚ tree_edges (in_of fids0 ts ++ in_of fids1 us);
  sh_tables : Forall tfile_ok W;
  sh_order : StronglySorted table_before W;
  sh_nodup : NoDup (fst <$> W);
  sh_fresh : forall w t, w ∈ W -> t ∈ concat T -> w.1 = t.1 -> t ∈ in_of fids0 ts;
  sh_value : forall src dst is_out ty, level_value W src dst is_out ty = level_value (in_of fids0 ts ++ in_of fids1 us) src dst is_out ty;
}.

Lemma two_levels (T : Tree) l ts us :
  T !! l = Some ts -> T !! S l = Some us -> exists A B, T = A ++ ts :: us :: B /\ length A = l.
Proof.
  intros H0 H1. exists (take l T), (drop (S (S l)) T). pose proof (lookup_lt_Some _ _ _ H1). split; [|rewrite length_take; lia].
  rewrite <- (take_drop_middle T l ts H0) at 1. f_equal. f_equal. rewrite <- (take_drop_middle (drop (S l) T) 0 us); [|by rewrite lookup_drop, Nat.add_0_r].
  cbn [take app]. by rewrite drop_drop, Nat.add_comm.
Qed.

Section Shift.
Context (T : Tree) (l : nat) (fids0 fids1 : list Z) (W ts us : list TFile).
Context (HF : forest T) (HS : shift T l fids0 fids1 W ts us).

Lemma sorted_pair {A} (R : A -> A -> Prop) (xs : list A) x y : StronglySorted R xs -> x ∈ xs -> y ∈ xs -> x = y \/ R x y \/ R y x.
Proof.
  induction 1 as [|z xs Hs IH Hz]; [by intros ?%elem_of_nil|]. rewrite Forall_forall in Hz.
  intros [->|Hx]%elem_of_cons [->|Hy]%elem_of_cons; auto.
Qed.

Lemma next_sorted : StronglySorted table_before us.
Proof. eapply (fo_lower _ HF); [|apply (sh_next _ _ _ _ _ _ _ HS)]. lia. Qed.

Lemma in_tree t : t ∈ ts \/ t ∈ us -> t ∈ concat T.
Proof.
  intros Ht. apply list_elem_of_In, in_concat. destruct Ht as [Ht|Ht]; [exists ts|exists us]; split; apply list_elem_of_In; try done;
    eapply list_elem_of_lookup_2; [apply (sh_level _ _ _ _ _ _ _ HS)|apply (sh_next _ _ _ _ _ _ _ HS)].
Qed.

Lemma tree_table_ok t : t ∈ ts \/ t ∈ us -> tfile_ok t.
Proof. intros Ht%in_tree. pose proof (fo_tables _ HF) as Hok. rewrite Forall_forall in Hok. by apply Hok. Qed.

(** Every edge, so every source, of the new tables comes from an input. *)
Lemma shift_edge w x : w ∈ W -> x ∈ edges_in w.2 -> exists t, t ∈ in_of fids0 ts ++ in_of fids1 us /\ x ∈ edges_in t.2.
Proof.
  intros Hw Hx. apply tree_edges_elem. rewrite <- (sh_edges _ _ _ _ _ _ _ HS). apply tree_edges_elem. by exists w.
Qed.

Lemma shift_source w v : w ∈ W -> v ∈ sources_of w -> exists t, t ∈ in_of fids0 ts ++ in_of fids1 us /\ v ∈ sources_of t.
Proof.
  intros Hw Hv. pose proof (sh_tables _ _ _ _ _ _ _ HS) as Hok. rewrite Forall_forall in Hok. destruct (Hok w Hw) as [(_ & _ & Hf & _) _].
  destruct (source_edge w v Hf Hv) as [e He]. destruct (shift_edge w _ Hw He) as (t & Ht & Hx). exists t. split; [done|]. by eapply table_source.
Qed.

(** A table that stays on the lower level is on one side of all new ones. *)
Lemma stays_aside u w : u ∈ out_of fids1 us -> w ∈ W -> table_before u w \/ table_before w u.
Proof.
  intros [Hu Hin]%out_of_elem Hw. destruct (sh_hull _ _ _ _ _ _ _ HS) as (a & b & _ & Hrange & Hnext). rewrite Hnext in Hu by done.
  assert (forall t, t ∈ in_of fids1 us -> t = u \/ table_before t u \/ table_before u t) as Hpair
    by (intros t [_ Ht]%in_of_elem; apply (sorted_pair _ us); [apply next_sorted|done|done]).
  assert (forall t, t ∈ in_of fids1 us -> touches a b t) as Hin1 by (intros t [H1 H2]%in_of_elem; by apply Hnext).
  destruct (not_touches a b u Hu) as [Hlo|Hhi]; [left|right].
  - intros v x Hv Hx. specialize (Hlo v Hv). destruct (shift_source w x Hw Hx) as (t & [Ht|Ht]%elem_of_app & Hxt).
    + apply in_of_elem in Ht as [Ht1 Ht2]. specialize (Hrange t x Ht2 Ht1 Hxt). lia.
    + destruct (Hpair t Ht) as [->|[Hb|Hb]]; [by destruct (Hu (Hin1 _ Ht))| |by apply Hb].
      destruct (Hin1 t Ht) as [(y & Hy & Hay)%Exists_exists _]. specialize (Hb y v Hy Hv). lia.
  - intros x v Hx Hv. specialize (Hhi v Hv). destruct (shift_source w x Hw Hx) as (t & [Ht|Ht]%elem_of_app & Hxt).
    + apply in_of_elem in Ht as [Ht1 Ht2]. specialize (Hrange t x Ht2 Ht1 Hxt). lia.
    + destruct (Hpair t Ht) as [->|[Hb|Hb]]; [by destruct (Hu (Hin1 _ Ht))|by apply Hb|].
      destruct (Hin1 t Ht) as [_ (y & Hy & Hay)%Exists_exists]. specialize (Hb v y Hv Hy). lia.
Qed.

Lemma new_pair t u : t ∈ out_of fids1 us ++ W -> u ∈ out_of fids1 us ++ W -> t = u \/ table_before t u \/ table_before u t.
Proof.
  intros [Ht|Ht]%elem_of_app [Hu|Hu]%elem_of_app.
  - apply out_of_elem in Ht as [_ Ht], Hu as [_ Hu]. by apply (sorted_pair _ us); [apply next_sorted|..].
  - right. by apply stays_aside.
  - right. destruct (stays_aside u t Hu Ht); [by right|by left].
  - apply (sorted_pair _ W); [apply (sh_order _ _ _ _ _ _ _ HS)|done|done].
Qed.

(** A table that stays on the upper level shares no source with the inputs of it. *)
Lemma stays_disjoint t u v : t ∈ out_of fids0 ts -> u ∈ in_of fids0 ts -> v ∈ sources_of t -> v ∈ sources_of u -> False.
Proof.
  intros [Ht Hin]%out_of_elem [Hu Hinu]%in_of_elem Hv Hvu. destruct (sh_hull _ _ _ _ _ _ _ HS) as (a & b & Hlevel & Hrange & _).
  rewrite Hlevel in Ht by done. specialize (Hrange u v Hinu Hu Hvu). destruct (not_touches a b t Ht) as [H|H]; specialize (H v Hv); lia.
Qed.

(** ** The new tree *)
Context (new : list TFile) (Hnew : new ≡ₚ out_of fids1 us ++ W) (Hsorted : StronglySorted table_before new).
Definition shifted : Tree := <[S l := new]> (<[l := out_of fids0 ts]> T).

Lemma shifted_split : exists A B, T = A ++ ts :: us :: B /\ shifted = A ++ out_of fids0 ts :: new :: B /\ length A = l.
Proof.
  destruct (two_levels T l ts us (sh_level _ _ _ _ _ _ _ HS) (sh_next _ _ _ _ _ _ _ HS)) as (A & B & E & El). exists A, B. split_and!; [exact E| |exact El].
  unfold shifted. rewrite E at 1. rewrite insert_app_r_alt, El, Nat.sub_diag by lia. cbn [insert list_insert].
  rewrite insert_app_r_alt, El by lia. replace (S l - l)%nat with 1%nat by lia. done.
Qed.

Lemma shifted_perm : exists R, concat T ≡ₚ (in_of fids0 ts ++ in_of fids1 us) ++ R /\ concat shifted ≡ₚ W ++ R.
Proof.
  destruct shifted_split as (A & B & -> & -> & _). exists (concat A ++ out_of fids0 ts ++ out_of fids1 us ++ concat B).
  rewrite !concat_app. cbn [concat]. split.
  - rewrite (in_out fids0 ts) at 1. rewrite (in_out fids1 us) at 1. rewrite <- !app_assoc. solve_Permutation.
  - rewrite Hnew, <- !app_assoc. solve_Permutation.
Qed.

Lemma shifted_edges : tree_edges (concat shifted) ≡ₚ tree_edges (concat T).
Proof.
  destruct shifted_perm as (R & -> & ->). by rewrite !tree_edges_app, (sh_edges _ _ _ _ _ _ _ HS), !tree_edges_app.
Qed.

Lemma shifted_lookup i xs : shifted !! i = Some xs ->
  (i = l /\ xs = out_of fids0 ts) \/ (i = S l /\ xs = new) \/ (i <> l /\ i <> S l /\ T !! i = Some xs).
Proof.
  pose proof (lookup_lt_Some _ _ _ (sh_next _ _ _ _ _ _ _ HS)) as Hlt. unfold shifted. destruct (decide (i = S l)) as [->|H1].
  - rewrite list_lookup_insert_eq by (rewrite length_insert; lia). intros [= <-]. by right; left.
  - rewrite list_lookup_insert_ne by done. destruct (decide (i = l)) as [->|H2].
    + rewrite list_lookup_insert_eq by lia. intros [= <-]. by left.
    + rewrite list_lookup_insert_ne by done. intros H. by right; right.
Qed.

(** Edges of [w] come from inputs, so what is no newer than these is no newer than it. *)
Lemma no_newer_below (t w : TFile) : w ∈ W -> (forall u : TFile, u ∈ in_of fids0 ts ++ in_of fids1 us -> no_newer t.2 u.2) -> no_newer t.2 w.2.
Proof.
  intros Hw Hu. apply Forall_forall. intros x Hx. apply Forall_forall. intros y Hy. destruct (shift_edge w y Hw Hy) as (u & Huin & Hyu).
  specialize (Hu u Huin). unfold no_newer in Hu. rewrite Forall_forall in Hu. specialize (Hu x Hx). rewrite Forall_forall in Hu. by apply Hu.
Qed.

Lemma no_newer_above (t w : TFile) : w ∈ W -> (forall u : TFile, u ∈ in_of fids0 ts ++ in_of fids1 us -> no_newer u.2 t.2) -> no_newer w.2 t.2.
Proof.
  intros Hw Hu. apply Forall_forall. intros x Hx. destruct (shift_edge w x Hw Hx) as (u & Huin & Hxu).
  specialize (Hu u Huin). unfold no_newer in Hu. rewrite Forall_forall in Hu. by apply Hu.
Qed.

Lemma disjoint_no_newer (t u : TFile) : (forall v, v ∈ sources_of t -> v ∈ sources_of u -> False) -> no_newer t.2 u.2.
Proof.
  intros Hd. apply Forall_forall. intros [v e] Hx. apply Forall_forall. intros [w e'] Hy [E _]. cbn in E. subst w.
  destruct (Hd v); by eapply table_source.
Qed.

Lemma input_level u : u ∈ in_of fids0 ts ++ in_of fids1 us -> (u ∈ ts /\ u.1 ∈ fids0) \/ u ∈ us.
Proof. intros [[? ?]%in_of_elem|[_ ?]%in_of_elem]%elem_of_app; [by left|by right]. Qed.

Lemma shifted_newer i j xs ys (t u : TFile) : (i < j)%nat -> shifted !! i = Some xs -> shifted !! j = Some ys -> t ∈ xs -> u ∈ ys -> no_newer t.2 u.2.
Proof.
  intros Hij Hi Hj Ht Hu. pose proof (fo_newer _ HF) as Hold. pose proof (sh_level _ _ _ _ _ _ _ HS) as H0. pose proof (sh_next _ _ _ _ _ _ _ HS) as H1.
  destruct (shifted_lookup i xs Hi) as [[-> ->]|[[-> ->]|(Hi1 & Hi2 & Hi3)]].
  - apply out_of_elem in Ht as Ht'. destruct Ht' as [Hid Hts]. destruct (shifted_lookup j ys Hj) as [[? _]|[[-> ->]|(? & ? & Hj3)]]; [lia| |by eapply (Hold l j)].
    rewrite Hnew in Hu. apply elem_of_app in Hu as [[_ Hu]%out_of_elem|Hu]; [by eapply (Hold l (S l))|]. apply no_newer_below; [done|].
    intros x [Hx|[_ Hx]%in_of_elem]%elem_of_app; [|by eapply (Hold l (S l))]. apply disjoint_no_newer. intros v Hv Hvx. by apply (stays_disjoint t x v).
  - destruct (shifted_lookup j ys Hj) as [[? _]|[[? _]|(? & ? & Hj3)]]; [lia|lia|]. rewrite Hnew in Ht.
    apply elem_of_app in Ht as [[_ Ht]%out_of_elem|Ht]; [by eapply (Hold (S l) j)|]. apply no_newer_above; [done|].
    intros x [[Hx _]|Hx]%input_level; [by eapply (Hold l j); [lia|..]|by eapply (Hold (S l) j)].
  - destruct (shifted_lookup j ys Hj) as [[-> ->]|[[-> ->]|(? & ? & Hj3)]]; [|..|by eapply (Hold i j)].
    + apply out_of_elem in Hu as [_ Hu]. by eapply (Hold i l).
    + rewrite Hnew in Hu. apply elem_of_app in Hu as [[_ Hu]%out_of_elem|Hu]; [by eapply (Hold i (S l))|]. apply no_newer_below; [done|].
      intros x [[Hx _]|Hx]%input_level; [by eapply (Hold i l); [lia|..]|by eapply (Hold i (S l))].
Qed.

Lemma shifted_ids : NoDup (fst <$> concat shifted).
Proof.
  destruct shifted_perm as (R & Hp & Hp'). rewrite Hp', fmap_app. pose proof (fo_ids _ HF) as Hnd. rewrite Hp, fmap_app in Hnd.
  apply NoDup_app in Hnd as (_ & Hdisj & HR). apply NoDup_app. split_and!; [apply (sh_nodup _ _ _ _ _ _ _ HS)| |done].
  intros id (w & -> & Hw)%list_elem_of_fmap Hin. apply list_elem_of_fmap in Hin as (t & E & Ht).
  assert (t ∈ in_of fids0 ts) as Hin0 by (apply (sh_fresh _ _ _ _ _ _ _ HS w); [done|rewrite Hp; apply elem_of_app; by right|done]).
  apply (Hdisj t.1); [|by apply list_elem_of_fmap_2]. rewrite fmap_app. apply elem_of_app. left. by apply list_elem_of_fmap_2.
Qed.

(** The tree stays well-formed. *)
Lemma shifted_forest : forest shifted.
Proof.
  pose proof shifted_edges as He. pose proof (lookup_lt_Some _ _ _ (sh_next _ _ _ _ _ _ _ HS)) as Hlt. split.
  - unfold shifted. rewrite !length_insert. apply HF.
  - destruct shifted_perm as (R & Hp & ->). pose proof (fo_tables _ HF) as Ht. rewrite Hp in Ht. apply Forall_app in Ht as [_ Ht].
    apply Forall_app. split; [apply (sh_tables _ _ _ _ _ _ _ HS)|done].
  - apply shifted_ids.
  - intros xs [[<- ->]|[[? _]|(_ & _ & Hi)]]%shifted_lookup; [|lia|by apply (fo_level0 _ HF)].
    apply StronglySorted_filter. apply (fo_level0 _ HF). apply (sh_level _ _ _ _ _ _ _ HS).
  - intros i xs H0 [[-> ->]|[[-> ->]|(_ & _ & Hi)]]%shifted_lookup; [|done|by apply (fo_lower _ HF i)].
    apply StronglySorted_filter, (fo_lower _ HF l); [done|]. apply (sh_level _ _ _ _ _ _ _ HS).
  - intros i j xs ys t u. apply shifted_newer.
  - unfold distinct_edges. rewrite He. apply HF.
  - unfold zlen. rewrite He. apply HF.
  - unfold zlen. rewrite He. apply HF.
Qed.

(** ** Its answers *)
Lemma upper_value src dst is_out ty :
  level_value ts src dst is_out ty = orelse (level_value (out_of fids0 ts) src dst is_out ty) (level_value (in_of fids0 ts) src dst is_out ty).
Proof.
  destruct (decide (Exists (fun t => src ∈ sources_of t) (in_of fids0 ts))) as [(t & Ht & Hs)%Exists_exists|Hn].
  - assert (forall u, u ∈ out_of fids0 ts -> src ∉ sources_of u) as Hout by (intros u Hu Hsu; by apply (stays_disjoint u t src)).
    rewrite (level_value_none (out_of fids0 ts)) by done. apply level_value_filter. intros u Hu Hid. apply Hout. by apply out_of_elem.
  - assert (forall u, u ∈ in_of fids0 ts -> src ∉ sources_of u) as Hin by (intros u Hu Hsu; apply Hn, Exists_exists; by exists u).
    rewrite (level_value_none (in_of fids0 ts)) by done. rewrite (level_value_filter (fun t => t.1 ∉ fids0)).
    + by destruct (level_value _ _ _ _ _).
    + intros u Hu Hid. apply Hin, in_of_elem. split; [|done]. destruct (decide (u.1 ∈ fids0)); [done|]. by destruct Hid.
Qed.

(** A source of a table that stays below is in no input. *)
Lemma stays_below_value src dst is_out ty :
  level_value (out_of fids1 us) src dst is_out ty = None \/
  level_value (in_of fids0 ts) src dst is_out ty = None /\ level_value (in_of fids1 us) src dst is_out ty = None.
Proof.
  destruct (decide (Exists (fun t => src ∈ sources_of t) (out_of fids1 us))) as [(u & Hu & Hs)%Exists_exists|Hn].
  - right. pose proof Hu as [Hid Hin]%out_of_elem. destruct (sh_hull _ _ _ _ _ _ _ HS) as (a & b & _ & Hrange & Hnext). split.
    + apply level_value_none. intros t [Ht1 Ht2]%in_of_elem Hst. specialize (Hrange t src Ht2 Ht1 Hst). rewrite Hnext in Hid by done.
      destruct (not_touches a b u Hid) as [H|H]; specialize (H src Hs); lia.
    + apply level_value_none. intros t [Ht1 Ht2]%in_of_elem Hst. apply Hid.
      by rewrite <- (table_before_unshared src us next_sorted t u Ht2 Hin Hst Hs).
  - left. apply level_value_none. intros t Ht Hs. apply Hn, Exists_exists. by exists t.
Qed.

Lemma shifted_value src dst is_out ty : tree_value shifted src dst is_out ty = tree_value T src dst is_out ty.
Proof.
  destruct shifted_split as (A & B & E1 & E2 & _). rewrite E1, E2. unfold tree_value. rewrite !fmap_app, !first_some_app. cbn [fmap list_fmap].
  rewrite !first_some_cons. destruct (first_some ((fun ts => level_value ts src dst is_out ty) <$> A)); [done|].
  set (X := first_some ((fun ts => level_value ts src dst is_out ty) <$> B)).
  rewrite upper_value. rewrite (level_value_perm us (in_of fids1 us ++ out_of fids1 us)) by (apply in_out || apply table_before_unshared, next_sorted).
  rewrite (level_value_perm new (out_of fids1 us ++ W)) by (done || by apply table_before_unshared).
  rewrite !level_value_app, (sh_value _ _ _ _ _ _ _ HS), level_value_app.
  pose proof (stays_below_value src dst is_out ty) as Hb.
  destruct (level_value (out_of fids0 ts) _ _ _ _); [done|]. cbn [orelse].
  destruct (level_value (out_of fids1 us) _ _ _ _), (level_value (in_of fids0 ts) _ _ _ _), (level_value (in_of fids1 us) _ _ _ _); cbn; try done;
    destruct Hb as [?|[? ?]]; done.
Qed.
End Shift.
End Forest.
