(* ===== verification/CompactionStore.v ===== *)
(** * The store of a tree

    A store [stores] a tree: its metadata and data files hold the tables level by
    level, and the level index of every vertex points exactly to the tables of
    the lower levels that have it.  Point reads then answer what the tree
    answers. *)

From S2P Require Import Prelude.
From S2P Require Import Types.
From S2P Require Import DeltaFile.
From S2P Require Import DeltaStore.
From S2P Require Import SkipList.
From S2P Require Import SkipListFacts.
From S2P Require Import MemTable.
From S2P Require Import MemTableFlush.
From S2P Require Import PropertyLayout.
From S2P Require Import EdgeBody.
From S2P Require Import Sst.
From S2P Require Import SstBuild.
From S2P Require Import SstBuildFacts.
From S2P Require Import SstBuildTheorems.
From S2P Require Import DeltaMerge.
From S2P Require Import LevelIndex.
From S2P Require Import LsmRead.
From S2P Require Import LsmHistory.
From S2P Require Import SstWriter.
From S2P Require Import CompactionPick.
From S2P Require Import CompactionMerge.
From S2P Require Import CompactionOutput.
From S2P Require Import CompactionWays.
From S2P Require Import CompactionTheorems.
From S2P Require Import CompactionPublish.
From S2P Require Import CompactionReads.
From S2P Require Import CompactionRound.
From S2P Require Import CompactionTree.

(** ** Lists *)
Lemma Forall2_filter {A B} (R : A -> B -> Prop) (P : A -> Prop) (Q : B -> Prop) `{!forall x, Decision (P x), !forall y, Decision (Q y)} l k :
  (forall x y, R x y -> P x <-> Q y) -> Forall2 R l k -> Forall2 R (filter P l) (filter Q k).
Proof.
  intros Hpq. induction 1 as [|x y l k Hxy Hf IH]; [constructor|]. destruct (decide (P x)) as [Hp|Hp].
  - rewrite !filter_cons_True by (done || by apply (Hpq x y)). by constructor.
  - rewrite !filter_cons_False by (done || by rewrite <- (Hpq x y)). done.
Qed.

Lemma Forall2_perm {A B} (R : A -> B -> Prop) l l' k : l ≡ₚ l' -> Forall2 R l k -> exists k', k ≡ₚ k' /\ Forall2 R l' k'.
Proof.
  intros Hp. revert k. induction Hp as [|x l l' Hp IH|x y l|l l1 l2 Hp1 IH1 Hp2 IH2]; intros k Hf.
  - exists k. done.
  - apply Forall2_cons_inv_l in Hf as (b & k0 & Hb & Hk & ->). destruct (IH k0 Hk) as (k' & Hp' & Hk'). exists (b :: k'). split; [by constructor|by constructor].
  - apply Forall2_cons_inv_l in Hf as (b & k0 & Hb & Hk & ->). apply Forall2_cons_inv_l in Hk as (b' & k1 & Hb' & Hk1 & ->).
    exists (b' :: b :: k1). split; [constructor|by repeat constructor].
  - destruct (IH1 k Hf) as (k1 & Hp1' & Hf1). destruct (IH2 k1 Hf1) as (k2 & Hp2' & Hf2). exists k2. split; [by rewrite Hp1'|done].
Qed.

Lemma filter_agree {A} (P Q : A -> Prop) `{!forall x, Decision (P x), !forall x, Decision (Q x)} (l : list A) :
  (forall x, x ∈ l -> P x <-> Q x) -> filter P l = filter Q l.
Proof.
  induction l as [|x l IH]; intros Hpq; [done|]. specialize (IH ltac:(intros; apply Hpq; by right)). destruct (decide (P x)) as [Hp|Hp].
  - rewrite !filter_cons_True by (done || (apply (Hpq x); [left|done])). by f_equal.
  - rewrite !filter_cons_False by (done || (rewrite <- (Hpq x) by left; done)). done.
Qed.

Lemma sublist_filter {A B} (f : A -> B) `{!EqDecision B} (r l : list A) :
  r `sublist_of` l -> NoDup (f <$> l) -> r = filter (fun x => f x ∈ f <$> r) l.
Proof.
  induction 1 as [|x r l Hs IH|x r l Hs IH]; intros Hnd; [done|..]; cbn [fmap list_fmap] in Hnd; apply NoDup_cons in Hnd as [Hx Hnd].
  - rewrite filter_cons_True by (cbn [fmap list_fmap]; left). f_equal. rewrite IH at 1 by done. apply filter_agree. intros y Hy. split.
    + intros Hin. cbn [fmap list_fmap]. by right.
    + intros [E|Hin]%elem_of_cons; [|done]. exfalso. apply Hx. rewrite <- E. by apply list_elem_of_fmap_2.
  - rewrite filter_cons_False; [by apply IH|]. intros (y & E & Hy)%list_elem_of_fmap. apply Hx. rewrite E.
    apply list_elem_of_fmap_2. by eapply elem_of_sublist.
Qed.

Lemma Forall2_elem_l {A B} (R : A -> B -> Prop) l k x : Forall2 R l k -> x ∈ l -> exists y, y ∈ k /\ R x y.
Proof. intros Hf [i Hi]%list_elem_of_lookup. destruct (Forall2_lookup_l _ _ _ _ _ Hf Hi) as (y & Hy & Hr). exists y. split; [by eapply list_elem_of_lookup_2|done]. Qed.

Lemma Forall2_elem_r {A B} (R : A -> B -> Prop) l k y : Forall2 R l k -> y ∈ k -> exists x, x ∈ l /\ R x y.
Proof. intros Hf [i Hi]%list_elem_of_lookup. destruct (Forall2_lookup_r _ _ _ _ _ Hf Hi) as (x & Hx & Hr). exists x. split; [by eapply list_elem_of_lookup_2|done]. Qed.

Lemma head_drop {A} (l : list A) x : l !! 0%nat = Some x -> l = x :: drop 1 l.
Proof. destruct l; [done|]. by intros [= ->]. Qed.

(** ** Ranges of tables *)
Lemma table_range vs :
  flush_input_ok vs -> vs <> [] -> exists lo hi, lo ∈ vs.*1 /\ hi ∈ vs.*1 /\ from_option fst 0 (head vs) = lo /\
    from_option fst 0 (list.last vs) = hi /\ forall v, v ∈ vs.*1 -> lo <= v <= hi.
Proof.
  intros [Hs _] Hne. destruct vs as [|x vs]; [done|]. destruct (list.last (x :: vs)) as [y|] eqn:El; [|by apply last_None in El].
  exists x.1, y.1. assert (y ∈ x :: vs) as Hy by (by apply last_Some_elem_of). split_and!; [left|by apply list_elem_of_fmap_2|done|done|].
  intros v (z & -> & Hz)%list_elem_of_fmap. split.
  - apply StronglySorted_inv in Hs as [_ Hx]. rewrite Forall_forall in Hx. apply elem_of_cons in Hz as [->|Hz]; [lia|]. specialize (Hx z Hz). lia.
  - exact (sorted_last_max _ _ _ Hs Hz El).
Qed.

Section Stores.
Context (cfg : CompactionConfig) (flags : Flags) (tls : layout) (pnum : nat).
Abbreviation forest := (forest cfg flags tls pnum).
Abbreviation tfile_ok := (tfile_ok cfg flags tls pnum).

(** A file of the store that holds a table. *)
Definition file_holds (s : Storage) (c : SSTableCache) (t : TFile) : Prop :=
  cache_header c = ref_header t.2 t.1 /\ cache_indexes c = ref_indexes t.2 /\
  exists end_, pod_ok end_ /\ sst_data s !! t.1 = Some (mkSst (ref_indexes t.2) (table_image flags tls t.2 t.1 end_) (ref_column flags tls t.2 <$> seq 0 pnum)).

(** The slot of a level in the index of [v]. *)
Definition slot_ok (ts : list TFile) (x : MulLevelIndex) (l v : Z) : Prop :=
  (exists t o n, t ∈ ts /\ indexed (ref_indexes t.2) v = Some (o, n) /\ at_level x l = Some (mkLevel t.1 o n)) \/
  ((forall t, t ∈ ts -> v ∉ sources_of t) /\ exists d, at_level x l = Some d /\ lv_fileID d = INVALID_File_ID).

Record stores (s : Storage) (T : Tree) : Prop := {
  st_files : Forall2 (Forall2 (file_holds s)) (fileMetaCache_ s) T;
  st_wf : storage_wf s;
  st_index : forall v i ts, 0 <= v < kInvalidVertexId -> (0 < i)%nat -> T !! i = Some ts ->
    slot_ok ts (entry (vid_to_mullevelIndex_ s) v) (Z.of_nat i - 1) v;
  st_blocks : forall t v, t ∈ concat T -> v ∈ sources_of t -> has_block s v;
}.

Lemma holds_fid s c t : file_holds s c t -> tfile_ok t -> fid_of c = t.1.
Proof.
  intros [Hh _] [_ Hid]. unfold fid_of. rewrite Hh. cbn [ref_header timeStamp]. apply u32_small. change INVALID_File_ID with 2147483647 in Hid. lia.
Qed.

Lemma holds_stamp s c t : file_holds s c t -> timeStamp (cache_header c) = t.1.
Proof. intros [-> _]. done. Qed.

Lemma holds_range s c t : file_holds s c t -> tfile_ok t -> forall a b, overlaps a b c <-> touches a b t.
Proof.
  intros [Hh _] [((Hne & _) & Hin & _) _] a b. destruct (table_range t.2 Hin Hne) as (lo & hi & Hlo & Hhi & E1 & E2 & Hr).
  unfold overlaps, touches, sources_of. rewrite Hh. cbn [ref_header minKey maxKey]. rewrite E1, E2, !Exists_exists. split.
  - intros [H1 H2]. split; [by exists hi|by exists lo].
  - intros [(v & Hv & H1) (w & Hw & H2)]. pose proof (Hr v Hv). pose proof (Hr w Hw). lia.
Qed.

Lemma holds_bounds s c t v : file_holds s c t -> tfile_ok t -> v ∈ sources_of t -> file_min c <= v <= file_max c.
Proof.
  intros [Hh _] [((Hne & _) & Hin & _) _] Hv. destruct (table_range t.2 Hin Hne) as (lo & hi & Hlo & Hhi & E1 & E2 & Hr).
  rewrite Hh. cbn [ref_header minKey maxKey]. rewrite E1, E2. by apply Hr.
Qed.

Lemma holds_ends s c t : file_holds s c t -> tfile_ok t -> file_min c ∈ sources_of t /\ file_max c ∈ sources_of t.
Proof.
  intros [Hh _] [((Hne & _) & Hin & _) _]. destruct (table_range t.2 Hin Hne) as (lo & hi & Hlo & Hhi & E1 & E2 & Hr).
  rewrite Hh. cbn [ref_header minKey maxKey]. by rewrite E1, E2.
Qed.
End Stores.

Lemma indexed_inv vs v o n :
  flush_input_ok vs -> 0 <= v < kInvalidVertexId -> indexed (ref_indexes vs) v = Some (o, n) ->
  exists i es b e, vs !! i = Some (v, es) /\ ref_indexes vs !! i = Some b /\ ref_indexes vs !! S i = Some e /\ ix_offset b = o /\ ix_offset e = n.
Proof.
  intros Hin Hv Hix. pose proof Hix as Hk%indexed_key. rewrite ref_indexes_keys in Hk. apply elem_of_app in Hk as [Hk|Hk%list_elem_of_singleton]; [|lia].
  apply list_elem_of_fmap in Hk as ([u es] & -> & Hk). apply list_elem_of_lookup in Hk as [i Hi]. cbn [fst] in *.
  destruct (image_range vs i u es Hin Hi) as (_ & Hb & e & He & _). eexists i, es, _, e. split_and!; [done|exact Hb|exact He|..];
    pose proof (indexed_lookup _ i _ _ (ref_indexes_nodup vs Hin) Hb He) as E; cbn [ix_key] in E; rewrite Hix in E; by injection E.
Qed.

(** ** Reads *)
Section Reads.
Context `{StdHash} (debug : bool) (L : LsmColumns) (cfg : CompactionConfig) (p : nat).
Abbreviation fl := (process_flags L).
Abbreviation tls := (merge_layout L).
Abbreviation pnum := (length (sub_property_lengths_ L)).
Context (Hp : (p < pnum)%nat) (Hw : 0 < slot_len fl tls p < 1024).

(** The values of column [p] fit their slot. *)
Definition column_fits (T : Tree) : Prop := forall x, x ∈ tree_edges (concat T) -> storable (slot_len fl tls p) (field p x.2).

Context (s : Storage) (T : Tree) (HF : forest cfg fl tls pnum T) (HT : stores fl tls pnum s T) (Hc : column_fits T).
Abbreviation read_level0 := (find_in_level0 debug (with_data L (sst_data s)) None).
Abbreviation read_levels := (find_by_levels debug (with_data L (sst_data s)) None).

Lemma table_small t : t ∈ concat T -> EDGEBODY_SIZE * zlen (all_edges t.2) < 2 ^ 31.
Proof.
  intros Ht. pose proof (fo_small _ _ _ _ _ HF) as Hs. eapply Z.le_lt_trans; [|exact Hs].
  apply list_elem_of_split in Ht as (A & B & ->). rewrite tree_edges_app. unfold tree_edges at 2. cbn [fmap list_fmap concat].
  unfold zlen. rewrite !length_app, edges_in_length. change EDGEBODY_SIZE with 16. lia.
Qed.

Lemma table_fits t v x : t ∈ concat T -> v ∈ t.2 -> x ∈ v.2 -> storable (slot_len fl tls p) (field p x).
Proof.
  intros Ht Hv Hx. destruct v as [u es]. apply (Hc (u, x)). apply tree_edges_elem. exists t. split; [done|]. apply edges_in_elem. by exists es.
Qed.

Lemma file_read c t src dst is_out ty :
  t ∈ concat T -> file_holds fl tls pnum s c t -> 0 <= src < kInvalidVertexId ->
  find_edge_in_lonely_SStableCache debug (with_data L (sst_data s)) None c src dst (Z.of_nat p) is_out ty
  = Some (status_of (field p) (table_value t.2 src dst is_out ty)).
Proof.
  intros Ht (Hh & Hix & end_ & _ & Hd) Hsrc. pose proof (fo_tables _ _ _ _ _ HF) as Hok. rewrite Forall_forall in Hok.
  destruct (Hok t Ht) as [(Hfl & Hin & _) _].
  apply (table_file_read debug (with_data L (sst_data s)) p Hp Hw t.2 c (mkSst (ref_indexes t.2) (table_image fl tls t.2 t.1 end_) (ref_column fl tls t.2 <$> seq 0 pnum))
    (pod_encode end_ ++ concat (pod_encode <$> ref_indexes t.2) ++ pod_encode (ref_header t.2 t.1))); try done.
  - by apply table_small.
  - cbn [sstdata_manager_ with_data]. rewrite Hh. exact Hd.
  - intros v x. by apply table_fits.
Qed.

Lemma level0_files_read cs ts src dst is_out ty :
  Forall2 (file_holds fl tls pnum s) cs ts -> (forall t, t ∈ ts -> t ∈ concat T) -> 0 <= src < kInvalidVertexId ->
  read_level0 cs src dst (Z.of_nat p) is_out ty = Some (status_of (field p) (level_value ts src dst is_out ty)).
Proof.
  intros Hf Hin Hsrc. induction Hf as [|c t cs ts Hct Hf IH]; [done|]. specialize (IH ltac:(intros; apply Hin; by right)).
  assert (t ∈ concat T) as Ht by (apply Hin; left). cbn [find_in_level0]. unfold level_value in *. cbn [fmap list_fmap]. rewrite first_some_cons.
  destruct (in_key_range src c) eqn:Er.
  - rewrite (file_read c t) by done. simpl_bind.
    destruct (table_value t.2 src dst is_out ty) as [e|]; cbn [status_of]; [by destruct (marker e)|done].
  - rewrite (table_value_absent t.2); [done|]. intros Hs. pose proof (fo_tables _ _ _ _ _ HF) as Hok. rewrite Forall_forall in Hok.
    pose proof (holds_bounds cfg fl tls pnum s c t src Hct (Hok t Ht) Hs) as Hb. unfold in_key_range in Er. lia.
Qed.

(** The levels from [i] on. *)
Lemma levels_read Ts i src dst is_out ty :
  (0 < i)%nat -> (forall j ts, Ts !! j = Some ts -> T !! (i + j)%nat = Some ts) -> 0 <= src < kInvalidVertexId ->
  read_levels (entry (vid_to_mullevelIndex_ s) src) (seqZ (Z.of_nat i - 1) (zlen Ts)) src dst (Z.of_nat p) is_out ty
  = Some (status_of (field p) (tree_value Ts src dst is_out ty)).
Proof.
  intros Hi Hts Hsrc. revert i Hi Hts. induction Ts as [|ts Ts IH]; intros i Hi Hts; [done|].
  rewrite zlen_cons, seqZ_cons by (pose proof (zlen_nonneg Ts); lia). replace (Z.succ (Z.of_nat i - 1)) with (Z.of_nat (S i) - 1) by lia.
  match goal with |- context [seqZ _ (Z.pred ?n)] => replace (Z.pred n) with (zlen Ts) by lia end.
  pose proof (Hts 0%nat ts eq_refl) as Hi0. rewrite Nat.add_0_r in Hi0.
  specialize (IH (S i) ltac:(lia) ltac:(intros j xs Hj; replace (S i + j)%nat with (i + S j)%nat by lia; by apply Hts)).
  unfold tree_value. cbn [fmap list_fmap]. rewrite first_some_cons. fold (tree_value Ts src dst is_out ty).
  destruct (st_index _ _ _ _ _ HT src i ts Hsrc Hi Hi0) as [(t & o & n & Ht & Hix & Ha)|(Hno & d & Ha & Hinv)].
  - assert (t ∈ concat T) as Htt by (apply list_elem_of_In, in_concat; exists ts; split; apply list_elem_of_In; [by eapply list_elem_of_lookup_2|done]).
    pose proof (fo_tables _ _ _ _ _ HF) as Hok. rewrite Forall_forall in Hok. destruct (Hok t Htt) as [(Hfl & Hin & _) Hid].
    destruct (indexed_inv t.2 src o n Hin Hsrc Hix) as (k & es & b & e & Hk & Hb & He & <- & <-).
    pose proof (st_files _ _ _ _ _ HT) as Hfiles. destruct (Forall2_lookup_r _ _ _ _ _ Hfiles Hi0) as (cs & _ & Hcs).
    destruct (Forall2_elem_r _ _ _ _ Hcs Ht) as (c & _ & (_ & _ & end_ & _ & Hd)).
    rewrite (level_slot_read debug L p Hp Hw (sst_data s) _ _ _ t.2
      (mkSst (ref_indexes t.2) (table_image fl tls t.2 t.1 end_) (ref_column fl tls t.2 <$> seq 0 pnum)) (pod_encode end_ ++ concat (pod_encode <$> ref_indexes t.2) ++ pod_encode (ref_header t.2 t.1))
      k src es b e dst is_out ty Hfl Hin (table_small t Htt) ltac:(reflexivity) ltac:(reflexivity) Hk Hb He) with (fid := t.1).
    + assert (src ∈ sources_of t) as Hs by (apply list_elem_of_fmap; exists (src, es); split; [done|by eapply list_elem_of_lookup_2]).
      rewrite (level_value_one ts t), (table_value_elem t.2 src es); [|apply Hin|by eapply list_elem_of_lookup_2| |done|done].
      * unfold then_levels. rewrite IH. by destruct (first_version dst is_out ty es).
      * apply table_before_unshared. by apply (fo_lower _ _ _ _ _ HF i).
    + intros y Hy. apply (table_fits t (src, es)); [done|by eapply list_elem_of_lookup_2|done].
    + exact Ha.
    + change INVALID_File_ID with 2147483647 in *. lia.
    + exact Hd.
  - cbn [find_by_levels]. unfold level_range, get_fileID. rewrite Ha. cbn [fmap option_fmap option_map]. simpl_bind. rewrite Hinv, Z.eqb_refl. simpl_bind.
    rewrite IH, (level_value_none ts) by done. done.
Qed.

(** The files of a store answer what its tree answers. *)
Lemma stores_read level0 src dst is_out ty tables :
  fileMetaCache_ s !! 0%nat = Some level0 -> 0 <= src < kInvalidVertexId ->
  find_edge_in_SStableCache debug (with_data L (sst_data s)) None (mkSnap tables level0 (entry (vid_to_mullevelIndex_ s) src))
    src dst (Z.of_nat p) is_out ty = Some (status_of (field p) (tree_value T src dst is_out ty)).
Proof.
  intros H0 Hsrc. unfold find_edge_in_SStableCache. cbn [snap_level0 snap_findex].
  pose proof (st_files _ _ _ _ _ HT) as Hfiles. destruct (Forall2_lookup_l _ _ _ _ _ Hfiles H0) as (ts & Hts & Hf).
  pose proof (fo_len _ _ _ _ _ HF) as Hlen. pose proof (head_drop T ts Hts) as ET.
  rewrite (level0_files_read level0 ts) by (done || (intros t Ht; rewrite ET; cbn [concat]; apply elem_of_app; by left)). simpl_bind.
  unfold find_edge_by_levelindex. replace (seqZ 0 LEVEL_INDEX_SIZE) with (seqZ (Z.of_nat 1 - 1) (zlen (drop 1 T))).
  2:{ f_equal. unfold zlen. rewrite length_drop, Hlen. done. }
  rewrite (levels_read (drop 1 T) 1) by (lia || done || (intros j xs Hj; by rewrite lookup_drop in Hj)).
  replace (tree_value T src dst is_out ty) with (orelse (level_value ts src dst is_out ty) (tree_value (drop 1 T) src dst is_out ty)).
  2:{ rewrite ET at 2. unfold tree_value. cbn [fmap list_fmap drop]. by rewrite first_some_cons. }
  destruct (level_value ts src dst is_out ty) as [e|]; cbn [status_of orelse]; [by destruct (marker e)|done].
Qed.
End Reads.
