(* ===== verification/CompactionSteps.v ===== *)
(** * The rounds of compaction

    What the operations of a round do to a store that [stores] a tree: the files
    that are picked are inputs of a [shift], and [compact_inputs], which merges
    or moves them, returns and leaves a store of the shifted tree. *)

From S2P Require Import Prelude.
From S2P Require Import Types.
From S2P Require Import EdgeBody.
From S2P Require Import PropertyLayout.
From S2P Require Import Sst.
From S2P Require Import SkipList.
From S2P Require Import SkipListFacts.
From S2P Require Import MemTable.
From S2P Require Import SstBuild.
From S2P Require Import SstBuildFacts.
From S2P Require Import SstBuildTheorems.
From S2P Require Import MemTableFlush.
From S2P Require Import LevelIndex.
From S2P Require Import LsmRead.
From S2P Require Import LsmHistory.
From S2P Require Import CompactionPick.
From S2P Require Import SstWriter.
From S2P Require Import CompactionMerge.
From S2P Require Import CompactionOutput.
From S2P Require Import CompactionWays.
From S2P Require Import CompactionTheorems.
From S2P Require Import CompactionPublish.
From S2P Require Import CompactionReads.
From S2P Require Import Reopen.
From S2P Require Import ReopenFacts.
From S2P Require Import CompactionRound.
From S2P Require Import CompactionTree.
From S2P Require Import CompactionStore.

Section Picked.
Context (cfg : CompactionConfig) (flags : Flags) (tls : layout) (pnum : nat).
Abbreviation tfile_ok := (tfile_ok cfg flags tls pnum).
Abbreviation holds := (file_holds flags tls pnum).
Context (s : Storage).

(** ** The files of a level *)
Record level_files (files : list SSTableCache) (ts : list TFile) : Prop := {
  lf_holds : Forall2 (holds s) files ts;
  lf_ok : Forall tfile_ok ts;
  lf_ids : NoDup (fst <$> ts);
}.

Lemma lf_fids files ts : level_files files ts -> fid_of <$> files = fst <$> ts.
Proof.
  intros [Hf Hok _]. induction Hf as [|c t files ts Hct Hf IH]; [done|]. apply Forall_cons in Hok as [Ht Hok]. cbn [fmap list_fmap].
  f_equal; [by eapply holds_fid|by apply IH].
Qed.

Lemma lf_file files ts c : level_files files ts -> c ∈ files -> exists t, t ∈ ts /\ holds s c t /\ tfile_ok t /\ fid_of c = t.1.
Proof.
  intros [Hf Hok _] Hc. destruct (Forall2_elem_l _ _ _ _ Hf Hc) as (t & Ht & Hct). rewrite Forall_forall in Hok.
  exists t. split_and!; [done|done|by apply Hok|]. eapply holds_fid; [done|by apply Hok].
Qed.

Lemma lf_table files ts t : level_files files ts -> t ∈ ts -> exists c, c ∈ files /\ holds s c t /\ tfile_ok t /\ fid_of c = t.1.
Proof.
  intros [Hf Hok _] Ht. destruct (Forall2_elem_r _ _ _ _ Hf Ht) as (c & Hc & Hct). rewrite Forall_forall in Hok.
  exists c. split_and!; [done|done|by apply Hok|]. eapply holds_fid; [done|by apply Hok].
Qed.

(** Files are told apart by their ids. *)
Lemma lf_fid_inj files ts c c' : level_files files ts -> c ∈ files -> c' ∈ files -> fid_of c = fid_of c' -> c = c'.
Proof.
  intros Hl [i Hi]%list_elem_of_lookup [j Hj]%list_elem_of_lookup E. assert (i = j) as ->; [|congruence].
  pose proof (lf_ids _ _ Hl) as Hnd. rewrite <- (lf_fids _ _ Hl) in Hnd.
  apply (NoDup_lookup _ i j (fid_of c) Hnd); rewrite list_lookup_fmap; [by rewrite Hi|by rewrite Hj, E].
Qed.

Lemma lf_filter files ts (P : SSTableCache -> Prop) (Q : TFile -> Prop) `{!forall c, Decision (P c), !forall t, Decision (Q t)} :
  level_files files ts -> (forall c t, holds s c t -> tfile_ok t -> P c <-> Q t) -> level_files (filter P files) (filter Q ts).
Proof.
  intros [Hf Hok Hnd] Hpq. split.
  - clear Hnd. induction Hf as [|c t files ts Hct Hf IH]; [constructor|]. apply Forall_cons in Hok as [Ht Hok].
    destruct (decide (P c)) as [Hp|Hp].
    + rewrite !filter_cons_True by (done || by apply (Hpq c t)). constructor; [done|by apply IH].
    + rewrite !filter_cons_False by (done || by rewrite <- (Hpq c t)). by apply IH.
  - apply Forall_forall. intros t [_ Ht]%list_elem_of_filter. rewrite Forall_forall in Hok. by apply Hok.
  - eapply sublist_NoDup; [|apply fmap_sublist, filter_sublist]. exact Hnd.
Qed.

Lemma lf_drop files ts fids : level_files files ts -> level_files (drop_fids fids files) (out_of fids ts).
Proof. intros Hl. apply lf_filter; [done|]. intros c t Hct Ht. by rewrite (holds_fid cfg flags tls pnum s c t). Qed.

Lemma lf_sublist files ts r : level_files files ts -> r `sublist_of` files -> level_files r (in_of (merged_fids r) ts).
Proof.
  intros Hl Hr. rewrite (sublist_filter fid_of r files Hr) at 1 by (rewrite (lf_fids _ _ Hl); apply Hl).
  apply lf_filter; [done|]. intros c t Hct Ht. by rewrite (holds_fid cfg flags tls pnum s c t).
Qed.

Lemma lf_fids_in files ts r t : level_files files ts -> r `sublist_of` files -> t ∈ ts -> t.1 ∈ merged_fids r <-> exists c, c ∈ r /\ holds s c t.
Proof.
  intros Hl Hr Ht. destruct (lf_table _ _ _ Hl Ht) as (c & Hc & Hct & _ & Ec). split.
  - intros (c' & E & Hc')%list_elem_of_fmap. exists c'. split; [done|].
    by rewrite (lf_fid_inj files ts c' c Hl (elem_of_sublist _ _ _ Hc' Hr) Hc) by congruence.
  - intros (c' & Hc' & Hct'). apply list_elem_of_fmap. exists c'. split; [|done]. destruct (lf_file _ _ _ Hl (elem_of_sublist _ _ _ Hc' Hr)) as (t' & _ & Hct'' & _ & E).
    rewrite E. rewrite <- (holds_stamp _ _ _ _ _ _ Hct''). by rewrite (holds_stamp _ _ _ _ _ _ Hct').
Qed.

(** A pick is the hull of a shift. *)
Lemma picked_hull files next ts us r a b :
  level_files files ts -> level_files next us -> whole files r a b ->
  let r1 := filter (overlaps a b) next in
  (forall t, t ∈ ts -> t.1 ∈ merged_fids r <-> touches a b t) /\
  (forall t v, t ∈ ts -> t.1 ∈ merged_fids r -> v ∈ sources_of t -> a <= v <= b) /\
  (forall u, u ∈ us -> u.1 ∈ merged_fids r1 <-> touches a b u).
Proof.
  intros Hl Hn [Hr Hsub Hall] r1.
  assert (r1 `sublist_of` next) as Hsub1 by apply filter_sublist. split_and!.
  - intros t Ht. rewrite (lf_fids_in files ts r t Hl Hsub Ht). destruct (lf_table _ _ _ Hl Ht) as (c & Hc & Hct & Hok & Ec). split.
    + intros (c' & Hc' & Hct'). apply (holds_range cfg flags tls pnum s c' t Hct' Hok), Hall; [by eapply elem_of_sublist|done].
    + intros Htc. exists c. split; [|done]. apply Hall; [done|]. by apply (holds_range cfg flags tls pnum s c t).
  - intros t v Ht Hid Hv. apply (lf_fids_in files ts r t Hl Hsub Ht) in Hid as (c & Hc & Hct). destruct (lf_table _ _ _ Hl Ht) as (_ & _ & _ & Hok & _).
    destruct (GetRange_spec _ _ _ Hr) as (Hin & _). specialize (Hin c Hc). pose proof (holds_bounds cfg flags tls pnum s c t v Hct Hok Hv). lia.
  - intros u Hu. rewrite (lf_fids_in next us r1 u Hn Hsub1 Hu). destruct (lf_table _ _ _ Hn Hu) as (c & Hc & Hcu & Hok & Ec). split.
    + intros (c' & [Ho _]%list_elem_of_filter & Hcu'). by apply (holds_range cfg flags tls pnum s c' u).
    + intros Htc. exists c. split; [|done]. apply list_elem_of_filter. split; [|done]. by apply (holds_range cfg flags tls pnum s c u).
Qed.
End Picked.

(** ** The files of a merge *)
Section Inputs.
Context (cfg : CompactionConfig) (flags : Flags) (tls : layout) (pnum : nat) (s : Storage).
Abbreviation level_files := (level_files cfg flags tls pnum s).

Definition input_files (is_input_0 : bool) (cs : list SSTableCache) (ts : list TFile) : list InputFile :=
  zip_with (fun c (t : TFile) => mkInput t.2 c (default (mkSst [] [] []) (sst_data s !! t.1)) is_input_0) cs ts.

Lemma input_tables b cs ts : level_files cs ts -> in_table <$> input_files b cs ts = snd <$> ts.
Proof. intros [Hf _ _]. induction Hf as [|c t cs ts Hct Hf IH]; [done|]. cbn. f_equal. exact IH. Qed.

Lemma input_flags b cs ts : Forall (fun f => in_0 f = b) (input_files b cs ts).
Proof. revert ts. induction cs as [|c cs IH]; intros [|t ts]; try constructor; [done|apply IH]. Qed.

Lemma input_ways b cs ts : level_files cs ts -> mapM (open_way s b) cs = Some (way_of <$> input_files b cs ts).
Proof.
  intros [Hf Hok _]. induction Hf as [|c t cs ts Hct Hf IH]; [done|]. apply Forall_cons in Hok as [Ht Hok]. cbn [mapM input_files zip_with fmap list_fmap].
  assert (open_way s b c = Some (new_way c (default (mkSst [] [] []) (sst_data s !! t.1)) b)) as ->.
  { unfold open_way. rewrite (holds_fid cfg flags tls pnum s c t Hct Ht). destruct Hct as (_ & _ & end_ & _ & Hd). by rewrite Hd. }
  simpl_bind. rewrite IH by done. done.
Qed.

Lemma input_way_fids b cs ts : level_files cs ts -> way_fid_ <$> (way_of <$> input_files b cs ts) = fst <$> ts.
Proof.
  intros [Hf Hok _]. induction Hf as [|c t cs ts Hct Hf IH]; [done|]. apply Forall_cons in Hok as [Ht Hok].
  cbn [input_files zip_with fmap list_fmap]. f_equal; [|by apply IH]. exact (holds_fid cfg flags tls pnum s c t Hct Ht).
Qed.

Lemma inputs_ok b cs ts : level_files cs ts -> Forall (input_ok cfg flags tls pnum) (input_files b cs ts).
Proof.
  intros [Hf Hok _]. induction Hf as [|c t cs ts Hct Hf IH]; [constructor|]. apply Forall_cons in Hok as [Ht Hok].
  cbn [input_files zip_with]. constructor; [|by apply IH]. destruct Hct as (Hh & Hix & end_ & Hend & Hd). split; [apply Ht|]. cbn [in_table in_cache in_data].
  rewrite Hd. cbn [default from_option]. split.
  - rewrite Hh at 1. by rewrite Hh.
  - done.
  - eexists end_, _. split; [done|]. cbn [edge_data]. apply body_file_split.
  - done.
Qed.

Lemma input_files_length b cs ts : level_files cs ts -> length (input_files b cs ts) = length cs.
Proof. intros [Hf _ _]. unfold input_files. rewrite length_zip_with, (Forall2_length _ _ _ Hf). lia. Qed.
End Inputs.

(** ** The tables a merge writes *)
Lemma sizes_fit_le flags tls pnum n m : sizes_fit flags tls pnum n -> 0 <= m <= n -> sizes_fit flags tls pnum m.
Proof.
  intros [H1 H2] Hm. split; [change EDGEBODY_SIZE with 16 in *; lia|]. intros p Hp. destruct (H2 p Hp) as [H3 H4]. split; [done|nia].
Qed.

Lemma filled_sources vs : filled vs -> zlen vs <= zlen (all_edges vs).
Proof.
  induction 1 as [|[v es] vs Hv Hf IH]; [done|]. unfold all_edges in *. cbn [fmap list_fmap concat snd].
  rewrite zlen_app. cbn [snd] in Hv. destruct es; [done|]. unfold zlen in *. simpl. lia.
Qed.

Lemma pieces_room cfg cur F :
  config_ok cfg -> filled cur -> zlen cur + 1 <= MAX_INDEX_NUM cfg -> Forall (fun vs => zlen vs + 1 <= MAX_INDEX_NUM cfg) (pieces cfg cur F).
Proof.
  intros Hcfg. pose proof (cfg_index _ Hcfg) as Hix. pose proof (cfg_file _ Hcfg) as Hfile. change (sizeof Index) with 12 in *. change EDGEBODY_SIZE with 16 in *.
  change HEADER_SIZE with 40 in *. revert cur. induction F as [|[v e] F IH]; intros cur Hf Hc; cbn [pieces]; [by repeat constructor|].
  case_bool_decide as Hl; [|destruct (Z.leb_spec (MAX_EFILE_SiZE cfg) (image_size cur)) as [Hm|Hm]; [constructor; [done|]|]].
  - destruct cur as [|[u es] cur _] using rev_ind.
    + cbn [add_to_last list.last length pred take app]. apply IH; [by repeat constructor|]. unfold zlen. simpl. lia.
    + rewrite last_snoc in Hl. cbn in Hl. subst u. rewrite add_to_last_snoc. apply IH.
      * apply Forall_app in Hf as [Hf _]. by apply filled_snoc.
      * rewrite zlen_app in *. exact Hc.
  - apply IH; [by repeat constructor|]. change (zlen [(v, [e])]) with 1. lia.
  - apply IH; [by apply (filled_snoc cur v [] e)|]. pose proof (filled_sources cur Hf). unfold image_size in Hm.
    change (sizeof Index) with 12 in Hm. change EDGEBODY_SIZE with 16 in Hm. change HEADER_SIZE with 40 in Hm. rewrite zlen_app. change (zlen [(v, [e])]) with 1. lia.
Qed.

Section Outputs.
Context (cfg : CompactionConfig) (flags : Flags) (tls : layout) (pnum : nat) (fetch_time : nat -> Z) (files : list InputFile).
Context (Hcfg : config_ok cfg) (Hne : files <> []) (Hok : Forall (input_ok cfg flags tls pnum) files)
  (Hd : distinct_edges (concat (edges_in ∘ in_table <$> files)))
  (Hsz : sizes_fit flags tls pnum (zlen (merged (in_table <$> files)))).
Abbreviation outs := (outputs cfg files).

Definition new_files : list TFile := imap (fun j vs => (fetch_time j, vs)) outs.

Lemma new_tables : snd <$> new_files = outs.
Proof.
  unfold new_files. generalize fetch_time. induction outs as [|vs ps IH]; intros f; [done|]. cbn [imap fmap list_fmap snd]. f_equal. apply (IH (f ∘ S)).
Qed.

Lemma new_edges : tree_edges new_files = merged (in_table <$> files).
Proof.
  unfold tree_edges. rewrite <- (outputs_edges cfg flags tls pnum files Hok).
  assert (forall ps k, concat ((fun t : TFile => edges_in t.2) <$> imap (fun j vs => (fetch_time (k + j)%nat, vs)) ps) = edges_in (concat ps)) as Hg.
  { induction ps as [|vs ps IH]; intros k; [done|]. cbn [imap fmap list_fmap concat]. rewrite edges_in_app. cbn [snd]. f_equal.
    rewrite <- (IH (S k)). f_equal. f_equal. apply imap_ext. intros i x _. cbn. by rewrite Nat.add_succ_r. }
  exact (Hg outs 0%nat).
Qed.

Lemma new_file w : w ∈ new_files -> exists j, outs !! j = Some w.2 /\ w.1 = fetch_time j.
Proof. intros (j & vs & -> & Hj)%elem_of_lookup_imap. by exists j. Qed.

Lemma new_order : StronglySorted table_before new_files.
Proof.
  destruct (outputs_table cfg flags tls pnum files Hok Hd) as [Hs _]. unfold new_files. generalize fetch_time. revert Hs.
  induction outs as [|vs ps IH]; intros Hs f; [constructor|]. cbn [concat] in Hs. apply StronglySorted_app in Hs as (Hlt & _ & Hs).
  cbn [imap]. constructor; [apply (IH Hs (f ∘ S))|]. apply Forall_forall. intros w (j & us & -> & Hj)%elem_of_lookup_imap.
  intros v x (a & -> & Ha)%list_elem_of_fmap (b & -> & Hb)%list_elem_of_fmap. apply Hlt; [done|]. apply list_elem_of_In, in_concat. exists us.
  split; apply list_elem_of_In; [by eapply list_elem_of_lookup_2|done].
Qed.

Lemma new_tables_ok : (forall j, (j < length outs)%nat -> 0 <= fetch_time j < INVALID_File_ID) -> Forall (tfile_ok cfg flags tls pnum) new_files.
Proof.
  intros Hids. apply Forall_forall. intros w Hw. destruct (new_file w Hw) as (j & Hj & E). assert (w.2 ∈ outs) as Hin by (by eapply list_elem_of_lookup_2).
  pose proof (outputs_table cfg flags tls pnum files Hok Hd) as Ht. apply flush_input_ok_concat in Ht. rewrite Forall_forall in Ht.
  assert (filled w.2) as Hf.
  { pose proof (pieces_filled cfg [] (merged (in_table <$> files)) ltac:(constructor)) as Hf. rewrite Forall_forall in Hf. by apply Hf. }
  split; [|rewrite E; apply Hids; by eapply lookup_lt_Some]. split_and!; [|by apply Ht|done|].
  - assert (zlen (all_edges w.2) <= zlen (merged (in_table <$> files))) as Hle.
    { rewrite <- new_edges. unfold zlen. apply list_elem_of_split in Hw as (A & B & EW). rewrite EW, tree_edges_app. unfold tree_edges at 2. cbn [fmap list_fmap concat].
      rewrite !length_app, edges_in_length. lia. }
    pose proof (zlen_nonneg (all_edges w.2)). pose proof (filled_sources w.2 Hf) as Hsrc. split_and!.
    + pose proof (pieces_all_nonempty cfg [] (merged (in_table <$> files))) as Hn. rewrite Forall_forall in Hn. apply Hn; [left|done|done].
      intros Em. pose proof (merged_perm (in_table <$> files)) as Hp. rewrite Em in Hp. apply Permutation_nil_l in Hp || apply Permutation_nil in Hp.
      destruct files as [|f fs]; [done|]. apply Forall_cons in Hok as [[((Hne' & _) & _ & Hfl & _) _] _]. cbn [fmap list_fmap concat] in Hp.
      destruct (in_table f) as [|[u [|x es]] ws]; [done|by apply Forall_cons in Hfl as [? _]|done].
    + eapply sizes_fit_le; [exact Hsz|]. lia.
    + destruct Hsz as [H16 _]. change EDGEBODY_SIZE with 16 in H16. lia.
  - pose proof (pieces_room cfg [] (merged (in_table <$> files)) Hcfg ltac:(constructor)) as Hr. rewrite Forall_forall in Hr. apply Hr; [|done].
    pose proof (cfg_index _ Hcfg) as Hix. pose proof (cfg_file _ Hcfg) as Hfile. change (sizeof Index) with 12 in *. change EDGEBODY_SIZE with 16 in *.
    change HEADER_SIZE with 40 in *. unfold zlen. simpl. lia.
Qed.

Lemma table_value_app vs ws src dst is_out ty :
  StronglySorted (fun a b => a.1 < b.1) (vs ++ ws) ->
  table_value (vs ++ ws) src dst is_out ty = orelse (table_value vs src dst is_out ty) (table_value ws src dst is_out ty).
Proof.
  intros Hs. pose proof Hs as (_ & Hs1 & Hs2)%StronglySorted_app. rewrite !table_value_head by done. rewrite edges_in_app, filter_app.
  by destruct (filter (matches src dst is_out ty) (edges_in vs)).
Qed.

Lemma new_value src dst is_out ty :
  newest_first (in_table <$> files) ->
  level_value new_files src dst is_out ty = first_some ((fun t => table_value t src dst is_out ty) <$> (in_table <$> files)).
Proof.
  intros Hn. pose proof (outputs_table cfg flags tls pnum files Hok Hd) as Ht. rewrite (list_fmap_compose in_table edges_in) in Hd.
  rewrite <- (merged_value (in_table <$> files) (concat outs)); [|by apply Forall_fmap; eapply Forall_impl; [exact Hok|]; intros f [(_ & ? & _) _]|done|done|done|by apply (outputs_edges cfg flags tls pnum)].
  destruct Ht as [Hs _]. unfold new_files, level_value. generalize fetch_time. revert Hs.
  induction outs as [|vs ps IH]; intros Hs f; [done|]. cbn [imap fmap list_fmap concat] in *. rewrite first_some_cons, table_value_app by done.
  apply StronglySorted_app in Hs as (_ & _ & Hs). specialize (IH Hs (f ∘ S)). cbn [snd]. unfold orelse. by rewrite <- IH.
Qed.
End Outputs.

(** ** The inputs of a round *)
Lemma sorted_lift {A} (R R' : A -> A -> Prop) xs : (forall x y, x ∈ xs -> y ∈ xs -> R x y -> R' x y) -> StronglySorted R xs -> StronglySorted R' xs.
Proof.
  intros Hr. induction 1 as [|x xs Hs IH Hx]; [constructor|]. constructor; [apply IH; intros; apply Hr; [by right|by right|done]|].
  rewrite Forall_forall in *. intros y Hy. apply Hr; [left|by right|by apply Hx].
Qed.

Section Round.
Context (cfg : CompactionConfig) (flags : Flags) (tls : layout) (pnum : nat) (s : Storage) (T : Tree).
Abbreviation tfile_ok := (tfile_ok cfg flags tls pnum).
Abbreviation level_files := (level_files cfg flags tls pnum s).
Context (HF : forest cfg flags tls pnum T) (HT : stores flags tls pnum s T).

Lemma tree_elem i ts t : T !! i = Some ts -> t ∈ ts -> t ∈ concat T.
Proof. intros Hi Ht. apply list_elem_of_In, in_concat. exists ts. split; apply list_elem_of_In; [by eapply list_elem_of_lookup_2|done]. Qed.

Lemma tree_sublist i ts : T !! i = Some ts -> ts `sublist_of` concat T.
Proof.
  intros Hi. rewrite <- (take_drop_middle T i ts Hi), concat_app. cbn [concat].
  apply sublist_inserts_l, sublist_inserts_r. done.
Qed.

Lemma stored_level i files : fileMetaCache_ s !! i = Some files -> exists ts, T !! i = Some ts /\ level_files files ts.
Proof.
  intros Hi. destruct (Forall2_lookup_l _ _ _ _ _ (st_files _ _ _ _ _ HT) Hi) as (ts & Hts & Hf). exists ts. split; [done|]. split; [done|..].
  - apply Forall_forall. intros t Ht. pose proof (fo_tables _ _ _ _ _ HF) as Hok. rewrite Forall_forall in Hok. apply Hok. by eapply tree_elem.
  - eapply sublist_NoDup; [apply (fo_ids _ _ _ _ _ HF)|]. by eapply fmap_sublist, tree_sublist.
Qed.

Context (l : nat) (files next r : list SSTableCache) (ts us : list TFile) (a b : Z).
Context (Hts : T !! l = Some ts) (Hus : T !! S l = Some us) (Hlf : level_files files ts) (Hln : level_files next us) (Hw : whole files r a b).
Abbreviation r1 := (filter (overlaps a b) next).
Abbreviation fids0 := (merged_fids r).
Abbreviation fids1 := (merged_fids r1).
Abbreviation in0 := (in_of fids0 ts).
Abbreviation in1 := (in_of fids1 us).

Lemma round_in0 : level_files r in0.
Proof. eapply lf_sublist; [done|]. apply Hw. Qed.
Lemma round_in1 : level_files r1 in1.
Proof. eapply lf_sublist; [done|]. apply filter_sublist. Qed.

Lemma inputs_perm : exists R, concat T ≡ₚ (in0 ++ in1) ++ R.
Proof.
  destruct (two_levels T l ts us Hts Hus) as (A & B & E & _). exists (concat A ++ out_of fids0 ts ++ out_of fids1 us ++ concat B).
  rewrite E at 1. rewrite concat_app. cbn [concat]. rewrite (in_out fids0 ts) at 1. rewrite (in_out fids1 us) at 1. rewrite <- !app_assoc. solve_Permutation.
Qed.

Definition round_inputs : list InputFile := input_files s true r in0 ++ input_files s false r1 in1.
Abbreviation F := round_inputs.

Lemma round_tables : in_table <$> F = snd <$> in0 ++ in1.
Proof. unfold round_inputs. rewrite !fmap_app. f_equal; [exact (input_tables cfg flags tls pnum s true _ _ round_in0)|exact (input_tables cfg flags tls pnum s false _ _ round_in1)]. Qed.

Lemma round_edges : concat (edges_in <$> (in_table <$> F)) = tree_edges (in0 ++ in1).
Proof. rewrite round_tables. unfold tree_edges. by rewrite <- list_fmap_compose. Qed.

Lemma round_ok : Forall (input_ok cfg flags tls pnum) F.
Proof. apply Forall_app. split; eapply inputs_ok; [apply round_in0|apply round_in1]. Qed.

Lemma round_distinct : distinct_edges (concat (edges_in ∘ in_table <$> F)).
Proof.
  rewrite (list_fmap_compose in_table edges_in), round_edges. pose proof (fo_distinct _ _ _ _ _ HF) as Hd. destruct inputs_perm as [R Hp].
  unfold distinct_edges in *. rewrite Hp, tree_edges_app, fmap_app in Hd. by apply NoDup_app in Hd as (? & _ & _).
Qed.

Lemma round_small : zlen (merged (in_table <$> F)) <= zlen (tree_edges (concat T)).
Proof.
  unfold zlen. rewrite merged_perm, round_edges. destruct inputs_perm as [R ->]. rewrite (tree_edges_app (in0 ++ in1)), length_app. lia.
Qed.

Lemma round_sizes : sizes_fit flags tls pnum (zlen (merged (in_table <$> F))).
Proof. eapply sizes_fit_le; [apply (fo_sizes _ _ _ _ _ HF)|]. split; [apply zlen_nonneg|apply round_small]. Qed.

Lemma before_no_newer (t u : TFile) : table_before t u \/ table_before u t -> no_newer t.2 u.2.
Proof. intros Hb. apply disjoint_no_newer. intros v Hv Hu. destruct Hb as [Hb|Hb]; [specialize (Hb v v Hv Hu)|specialize (Hb v v Hu Hv)]; lia. Qed.

Lemma level_newest i xs : T !! i = Some xs -> StronglySorted (fun t u : TFile => no_newer t.2 u.2) xs.
Proof.
  intros Hi. destruct i as [|i].
  - eapply sorted_lift; [|by apply (fo_level0 _ _ _ _ _ HF)]. cbn. tauto.
  - eapply sorted_lift; [|apply (fo_lower _ _ _ _ _ HF (S i)); [lia|done]]. intros t u _ _ Hb. apply before_no_newer. by left.
Qed.

Lemma round_newest : newest_first (in_table <$> F).
Proof.
  rewrite round_tables. unfold newest_first.
  assert (forall xs : list TFile, StronglySorted (fun t u : TFile => no_newer t.2 u.2) xs -> StronglySorted no_newer (snd <$> xs)) as Hmap.
  { induction 1 as [|x xs Hs IH Hx]; [constructor|]. cbn [fmap list_fmap]. constructor; [done|]. by apply Forall_fmap. }
  apply Hmap, StronglySorted_app. split_and!.
  - intros t u [_ Ht]%in_of_elem [_ Hu]%in_of_elem. by eapply (fo_newer _ _ _ _ _ HF l (S l)); [lia|..].
  - by apply StronglySorted_filter, (level_newest l).
  - by apply StronglySorted_filter, (level_newest (S l)).
Qed.

Lemma round_nonempty : F <> [].
Proof.
  intros [E _]%app_eq_nil. apply (f_equal length) in E. rewrite (input_files_length cfg flags tls pnum s true _ _ round_in0) in E.
  destruct r; [by pose proof (whole_range _ _ _ _ Hw)|done].
Qed.

(** The merged tables replace the inputs. *)
Lemma merge_shift fetch_time :
  config_ok cfg -> (forall i j, fetch_time i = fetch_time j -> i = j) ->
  (forall j, (j < length (outputs cfg F))%nat -> 0 <= fetch_time j < INVALID_File_ID) -> (forall j t, t ∈ concat T -> fetch_time j <> t.1) ->
  shift cfg flags tls pnum T l fids0 fids1 (new_files cfg fetch_time F) ts us.
Proof.
  intros Hcfg Hinj Hids Hfresh. split; [done|done|..].
  - exists a, b. eapply picked_hull; done.
  - by rewrite (new_edges cfg flags tls pnum fetch_time F round_ok), merged_perm, round_edges.
  - apply new_tables_ok; [done|apply round_nonempty|apply round_ok|apply round_distinct|apply round_sizes|exact Hids].
  - eapply new_order; [apply round_ok|apply round_distinct].
  - unfold new_files. rewrite fmap_imap. apply NoDup_alt. intros i j id Hi Hj. apply list_lookup_imap_Some in Hi as (? & _ & ->), Hj as (? & _ & E). by apply Hinj in E.
  - intros w t Hw' Ht E. destruct (new_file cfg fetch_time F w Hw') as (j & _ & E'). exfalso. apply (Hfresh j t Ht). congruence.
  - intros src dst is_out ty. rewrite (new_value cfg flags tls pnum fetch_time F round_ok round_distinct) by apply round_newest.
    rewrite round_tables. unfold level_value. by rewrite <- list_fmap_compose.
Qed.
End Round.

(** ** The store of the shifted tree *)
Lemma indexed_source vs v o n : 0 <= v < kInvalidVertexId -> indexed (ref_indexes vs) v = Some (o, n) -> v ∈ vs.*1.
Proof. intros Hv Hix%indexed_key. rewrite ref_indexes_keys in Hix. apply elem_of_app in Hix as [?|?%list_elem_of_singleton]; [done|lia]. Qed.

Section Shifted.
Context (cfg : CompactionConfig) (flags : Flags) (tls : layout) (pnum : nat) (s s' : Storage) (T : Tree).
Context (l : nat) (fids0 fids1 : list Z) (W ts us new : list TFile) (files new_caches : list SSTableCache).
Context (HF : forest cfg flags tls pnum T) (HT : stores flags tls pnum s T) (HS : shift cfg flags tls pnum T l fids0 fids1 W ts us).
Context (Hnew : new ≡ₚ out_of fids1 us ++ W).

(** The index of a vertex that is in a new table. *)
Record moved_slots (x x' : MulLevelIndex) (v : Z) : Prop := {
  ms_other : forall i, i <> Z.of_nat l -> i <> Z.of_nat l - 1 -> at_level x' i = at_level x i;
  ms_new : slot_ok W x' (Z.of_nat l) v;
  ms_upper : forall d, (0 < l)%nat -> at_level x (Z.of_nat l - 1) = Some d ->
    at_level x' (Z.of_nat l - 1) = Some (if decide (lv_fileID d ∈ fids0) then mkLevel INVALID_File_ID (lv_offset d) (lv_next_offset d) else d);
}.

Context (Hfiles : fileMetaCache_ s !! l = Some files)
  (Hfiles' : fileMetaCache_ s' = <[S l := new_caches]> (<[l := drop_fids fids0 files]> (fileMetaCache_ s)))
  (Hholds : Forall2 (file_holds flags tls pnum s') new_caches new)
  (Hkeep : forall t, t ∈ concat T -> t ∉ in_of fids0 ts -> t ∉ in_of fids1 us -> sst_data s' !! t.1 = sst_data s !! t.1)
  (Hwf : storage_wf s') (Hblocks : block_count_ (vid_to_mullevelIndex_ s') = block_count_ (vid_to_mullevelIndex_ s))
  (Hsame : forall v, 0 <= v < kInvalidVertexId -> (forall w, w ∈ W -> v ∉ sources_of w) -> entry (vid_to_mullevelIndex_ s') v = entry (vid_to_mullevelIndex_ s) v)
  (Hmoved : forall v w, 0 <= v < kInvalidVertexId -> w ∈ W -> v ∈ sources_of w -> moved_slots (entry (vid_to_mullevelIndex_ s) v) (entry (vid_to_mullevelIndex_ s') v) v).

Abbreviation T' := (shifted T l fids0 ts new).

Lemma input_moves t v : t ∈ in_of fids0 ts ++ in_of fids1 us -> v ∈ sources_of t -> exists w, w ∈ W /\ v ∈ sources_of w.
Proof.
  intros Ht Hv. assert (tfile_ok cfg flags tls pnum t) as [(_ & _ & Hf & _) _].
  { apply (tree_table_ok cfg flags tls pnum T l fids0 fids1 W ts us HF HS). apply elem_of_app in Ht as [[_ ?]%in_of_elem|[_ ?]%in_of_elem]; [by left|by right]. }
  destruct (source_edge t v Hf Hv) as [e He]. assert ((v, e) ∈ tree_edges W) as Hw.
  { rewrite (sh_edges _ _ _ _ _ _ _ _ _ _ _ HS). apply tree_edges_elem. by exists t. }
  apply tree_edges_elem in Hw as (w & Hw & Hx). exists w. split; [done|]. by eapply table_source.
Qed.

Lemma keeps_file c t : t ∈ concat T -> t ∉ in_of fids0 ts -> t ∉ in_of fids1 us -> file_holds flags tls pnum s c t -> file_holds flags tls pnum s' c t.
Proof. intros H1 H2 H3 (Hh & Hix & end_ & He & Hd). split_and!; [done|done|]. exists end_. split; [done|]. by rewrite Hkeep. Qed.

(** Tables of different levels are different. *)
Lemma levels_differ i xs t : T !! i = Some xs -> t ∈ xs -> (i <> l -> t ∉ in_of fids0 ts) /\ (i <> S l -> t ∉ in_of fids1 us).
Proof.
  intros Hi Ht. pose proof (fo_ids _ _ _ _ _ HF) as Hnd.
  assert (forall i j xs ys, T !! i = Some xs -> T !! j = Some ys -> i <> j -> forall t, t ∈ xs -> t ∈ ys -> False) as Hdiff.
  { clear -Hnd. intros i j xs ys Hi Hj Hij t Ht Hu. assert (forall i j xs ys, T !! i = Some xs -> T !! j = Some ys -> (i < j)%nat -> t ∈ xs -> t ∈ ys -> False) as Hlt.
    { clear -Hnd. intros i j xs ys Hi Hj Hij Ht Hu. rewrite <- (take_drop_middle T i xs Hi), concat_app, fmap_app in Hnd. apply NoDup_app in Hnd as (_ & _ & Hnd).
      cbn [concat] in Hnd. rewrite fmap_app in Hnd. apply NoDup_app in Hnd as (_ & Hd & _). apply (Hd t.1); [by apply list_elem_of_fmap_2|].
      apply list_elem_of_fmap_2, list_elem_of_In, in_concat. exists ys. split; apply list_elem_of_In; [|done].
      apply list_elem_of_lookup. exists (j - S i)%nat. rewrite lookup_drop. replace (S i + (j - S i))%nat with j by lia. done. }
    destruct (decide (i < j)%nat); [by apply (Hlt i j xs ys)|apply (Hlt j i ys xs); [done|done|lia|done|done]]. }
  split; intros Hne [_ Hin]%in_of_elem; [apply (Hdiff i l xs ts) with t|apply (Hdiff i (S l) xs us) with t]; try done; apply HS.
Qed.

Lemma shifted_files : Forall2 (Forall2 (file_holds flags tls pnum s')) (fileMetaCache_ s') T'.
Proof.
  pose proof (st_files _ _ _ _ _ HT) as Hf. pose proof (sh_level _ _ _ _ _ _ _ _ _ _ _ HS) as Hl. pose proof (Forall2_length _ _ _ Hf) as Hlen.
  pose proof (lookup_lt_Some _ _ _ (sh_next _ _ _ _ _ _ _ _ _ _ _ HS)) as Hlt.
  destruct (stored_level cfg flags tls pnum s T HF HT l files Hfiles) as (ts' & Hl' & Hlf). rewrite Hl in Hl'. injection Hl' as <-.
  apply Forall2_same_length_lookup_2; [rewrite Hfiles'; unfold shifted; by rewrite !length_insert|]. intros i cs xs Hcs Hxs. rewrite Hfiles' in Hcs.
  destruct (shifted_lookup cfg flags tls pnum T l fids0 fids1 W ts us HS new i xs Hxs) as [[-> ->]|[[-> ->]|(H1 & H2 & Hxs')]].
  - rewrite list_lookup_insert_ne, list_lookup_insert_eq in Hcs by lia. injection Hcs as <-.
    pose proof (lf_holds _ _ _ _ _ _ _ (lf_drop cfg flags tls pnum s files ts fids0 Hlf)) as Hd.
    apply Forall2_same_length_lookup_2; [by eapply Forall2_length|]. intros k c t Hc Ht. pose proof (Forall2_lookup_lr _ _ _ _ _ _ Hd Hc Ht) as Hct.
    apply list_elem_of_lookup_2, out_of_elem in Ht as [Hid Ht]. apply keeps_file; [by eapply tree_elem|by intros [? _]%in_of_elem| |done].
    eapply levels_differ; [exact Hl|done|lia].
  - rewrite list_lookup_insert_eq in Hcs by (rewrite length_insert; lia). injection Hcs as <-. done.
  - rewrite !list_lookup_insert_ne in Hcs by lia. pose proof (Forall2_lookup_lr _ _ _ _ _ _ Hf Hcs Hxs') as Hd.
    apply Forall2_same_length_lookup_2; [by eapply Forall2_length|]. intros k c t Hc Ht. pose proof (Forall2_lookup_lr _ _ _ _ _ _ Hd Hc Ht) as Hct.
    apply list_elem_of_lookup_2 in Ht. apply keeps_file; [by eapply tree_elem|..|done]; eapply levels_differ; done.
Qed.

Lemma slot_incl xs ys x i v : slot_ok xs x i v -> (forall t, t ∈ xs -> v ∈ sources_of t -> t ∈ ys) -> 0 <= v < kInvalidVertexId ->
  ((forall t, t ∈ xs -> v ∉ sources_of t) -> forall t, t ∈ ys -> v ∉ sources_of t) -> slot_ok ys x i v.
Proof.
  intros [(t & o & n & Ht & Hix & Ha)|[Hno Hd]] Hin Hv Hn; [left|right; split; [by apply Hn|done]].
  exists t, o, n. split_and!; [|done|done]. apply Hin; [done|]. by eapply indexed_source.
Qed.

(** The slot of the upper level. *)
Lemma upper_slot x x' v w :
  (0 < l)%nat -> 0 <= v < kInvalidVertexId -> w ∈ W -> v ∈ sources_of w -> moved_slots x x' v ->
  slot_ok ts x (Z.of_nat l - 1) v -> slot_ok (out_of fids0 ts) x' (Z.of_nat l - 1) v.
Proof.
  intros Hl Hv Hw Hvw Hm [(t & o & n & Ht & Hix & Ha)|(Hno & d & Ha & Hinv)].
  - pose proof (ms_upper _ _ _ Hm _ Hl Ha) as Ha'. cbn [lv_fileID lv_offset lv_next_offset] in Ha'. pose proof (indexed_source _ _ _ _ Hv Hix) as Hsrc.
    destruct (decide (t.1 ∈ fids0)) as [Hid|Hid].
    + right. split; [|eexists; split; [exact Ha'|done]]. intros u Hu Hvu.
      apply (stays_disjoint cfg flags tls pnum T l fids0 fids1 W ts us HS u t v); [done|by apply in_of_elem|done|done].
    + left. exists t, o, n. split_and!; [by apply out_of_elem|done|done].
  - pose proof (ms_upper _ _ _ Hm _ Hl Ha) as Ha'. right. split; [intros t [_ Ht]%out_of_elem; by apply Hno|].
    eexists. split; [exact Ha'|]. by destruct (decide _).
Qed.

Lemma shifted_index v i xs : 0 <= v < kInvalidVertexId -> (0 < i)%nat -> T' !! i = Some xs ->
  slot_ok xs (entry (vid_to_mullevelIndex_ s') v) (Z.of_nat i - 1) v.
Proof.
  intros Hv Hi Hxs. pose proof (sh_level _ _ _ _ _ _ _ _ _ _ _ HS) as Hl. pose proof (sh_next _ _ _ _ _ _ _ _ _ _ _ HS) as Hn.
  pose proof (st_index _ _ _ _ _ HT v) as Hold.
  destruct (decide (Exists (fun w => v ∈ sources_of w) W)) as [(w & Hw & Hvw)%Exists_exists|Hno].
  - pose proof (Hmoved v w Hv Hw Hvw) as Hm.
    destruct (shifted_lookup cfg flags tls pnum T l fids0 fids1 W ts us HS new i xs Hxs) as [[-> ->]|[[-> ->]|(H1 & H2 & Hxs')]].
    + eapply upper_slot; [lia|done|done|done|done|]. by apply Hold.
    + replace (Z.of_nat (S l) - 1) with (Z.of_nat l) by lia. eapply slot_incl; [apply (ms_new _ _ _ Hm)|..|done|].
      * intros t Ht _. rewrite Hnew. apply elem_of_app. by right.
      * intros Hc. by destruct (Hc w Hw).
    + pose proof (Hold i xs Hv Hi Hxs') as Ho. unfold slot_ok. rewrite (ms_other _ _ _ Hm (Z.of_nat i - 1)) by lia. exact Ho.
  - assert (forall w, w ∈ W -> v ∉ sources_of w) as HW by (intros w Hw Hvw; apply Hno, Exists_exists; by exists w).
    rewrite (Hsame v Hv HW).
    assert (forall t, t ∈ in_of fids0 ts ++ in_of fids1 us -> v ∉ sources_of t) as Hin.
    { intros t Ht Hvt. destruct (input_moves t v Ht Hvt) as (w & Hw & Hvw). by apply (HW w). }
    destruct (shifted_lookup cfg flags tls pnum T l fids0 fids1 W ts us HS new i xs Hxs) as [[-> ->]|[[-> ->]|(H1 & H2 & Hxs')]].
    + eapply slot_incl; [by apply Hold|..|done|].
      * intros t Ht Hvt. apply out_of_elem. split; [|done]. intros Hid. apply (Hin t); [|done]. apply elem_of_app. left. by apply in_of_elem.
      * intros Hc t [_ Ht]%out_of_elem. by apply Hc.
    + eapply slot_incl; [by apply Hold|..|done|].
      * intros t Ht Hvt. rewrite Hnew. apply elem_of_app. left. apply out_of_elem. split; [|done]. intros Hid. apply (Hin t); [|done]. apply elem_of_app. right. by apply in_of_elem.
      * intros Hc t Ht. rewrite Hnew in Ht. apply elem_of_app in Ht as [[_ Ht]%out_of_elem|Ht]; [by apply Hc|by apply HW].
    + by apply Hold.
Qed.

Lemma stores_shifted : stores flags tls pnum s' T'.
Proof.
  split; [apply shifted_files|exact Hwf|apply shifted_index|]. intros t v Ht Hv.
  assert (exists u, u ∈ concat T /\ v ∈ sources_of u) as (u & Hu & Hvu).
  { destruct (shifted_perm cfg flags tls pnum T l fids0 fids1 W ts us HF HS new Hnew) as (R & Hp & Hp'). rewrite Hp' in Ht.
    apply elem_of_app in Ht as [Ht|Ht]; [|exists t; split; [rewrite Hp; apply elem_of_app; by right|done]].
    destruct (shift_source cfg flags tls pnum T l fids0 fids1 W ts us HS t v Ht Hv) as (u & Hu & Hvu). exists u. split; [|done].
    rewrite Hp. apply elem_of_app. by left. }
  destruct (st_blocks _ _ _ _ _ HT u v Hu Hvu) as [H0 H1]. split; [done|]. by rewrite Hblocks.
Qed.
End Shifted.

(** ** Metadata *)
Lemma drop_fids_nil files : drop_fids [] files = files.
Proof. unfold drop_fids. induction files as [|c files IH]; [done|]. rewrite filter_cons_True by apply not_elem_of_nil. by rewrite IH. Qed.

Lemma RemoveCache_drops level idx fids s files :
  0 <= level -> (level <> 0 \/ idx <> 0) -> fileMetaCache_ s !! Z.to_nat level = Some files ->
  RemoveCache level idx fids s = Some (with_files s (<[Z.to_nat level := drop_fids fids files]> (fileMetaCache_ s))).
Proof.
  intros H0 Hidx Hf. unfold RemoveCache. pose proof (lookup_lt_Some _ _ _ Hf) as Hlt. rewrite (proj2 (Z.leb_gt _ _)) by (unfold zlen; lia). cbn [orb].
  case_bool_decide as Hn.
  - subst fids. rewrite drop_fids_nil, list_insert_id by done. by destruct s.
  - replace ((level =? 0) && (idx =? 0)) with false by lia. by rewrite Hf.
Qed.

(** Tables in the order of their files, if they can be ordered at all. *)
Lemma sorted_by_min cfg flags tls pnum s cs (ts : list TFile) :
  Forall2 (file_holds flags tls pnum s) cs ts -> Forall (tfile_ok cfg flags tls pnum) ts -> StronglySorted min_key_le cs -> NoDup (fst <$> ts) ->
  (forall t u, t ∈ ts -> u ∈ ts -> t = u \/ table_before t u \/ table_before u t) -> StronglySorted table_before ts.
Proof.
  revert cs. induction ts as [|t ts IH]; intros cs Hf Hok Hs Hnd Hpair; [constructor|].
  apply Forall2_cons_inv_r in Hf as (c & cs' & Hct & Hf & ->). apply Forall_cons in Hok as [Ht Hok]. apply StronglySorted_inv in Hs as [Hs Hc].
  cbn [fmap list_fmap] in Hnd. apply NoDup_cons in Hnd as [Hn Hnd]. constructor.
  - apply (IH cs'); [done..|]. intros x y Hx Hy. apply Hpair; by right.
  - apply Forall_forall. intros u Hu. destruct (Forall2_elem_r _ _ _ _ Hf Hu) as (c' & Hc' & Hcu). rewrite Forall_forall in Hc. rewrite Forall_forall in Hok. specialize (Hc c' Hc').
    destruct (Hpair t u ltac:(left) ltac:(by right)) as [->|[Hb|Hb]]; [|done|].
    + exfalso. apply Hn. by apply list_elem_of_fmap_2.
    + exfalso. destruct (holds_ends cfg flags tls pnum s c t Hct Ht) as [Hmin _]. destruct (holds_ends cfg flags tls pnum s c' u Hcu (Hok u Hu)) as [Hmin' _].
      specialize (Hb _ _ Hmin' Hmin). unfold min_key_le in Hc. lia.
Qed.

Lemma out_caches_hold flags tls pnum fetch_time s outs k n :
  (forall j vs, outs !! j = Some vs -> sst_data s !! fetch_time (k + j)%nat = Some (compact_data flags tls pnum vs (fetch_time (k + j)%nat))) ->
  Forall2 (file_holds flags tls pnum s) (out_caches fetch_time outs k n) (imap (fun j vs => (fetch_time (k + j)%nat, vs)) outs).
Proof.
  revert k n. induction outs as [|vs outs IH]; intros k n Hd; [constructor|]. cbn [out_caches imap]. constructor.
  - pose proof (Hd 0%nat vs eq_refl) as H0. rewrite Nat.add_0_r in *. split_and!; [done|done|]. exists (end_body flags tls vs). split; [by apply constructed_pod_ok|exact H0].
  - specialize (IH (S k) (newest_of n (all_edges vs))). erewrite imap_ext; [apply IH|].
    + intros j ws Hj. specialize (Hd (S j) ws Hj). rewrite Nat.add_succ_r in Hd. exact Hd.
    + intros i x _. cbn. by rewrite Nat.add_succ_r.
Qed.

(** The vertices with a level index stay the same. *)
Definition same_blocks (s s' : Storage) : Prop := block_count_ (vid_to_mullevelIndex_ s') = block_count_ (vid_to_mullevelIndex_ s).

(** ** Merging *)
Lemma insert_twice {A} (l : list A) i x y : <[i := x]> (<[i := y]> l) = <[i := x]> l.
Proof. apply list_insert_insert_eq. Qed.

(** The last file of a merge is not dropped. *)
Definition keeps_last (cfg : CompactionConfig) (tables : list Table) : Prop :=
  match list.last (pieces cfg [] (merged tables)) with
  | Some lst => zlen (all_edges lst) mod (BODY_BUFFER_SIZE cfg - 1) <> 0
  | None => True
  end.

(** A redirected entry. *)
Lemma relocated_slots l min_fid fids (W : list TFile) (w : TFile) o n x v :
  (l < Z.to_nat LEVEL_INDEX_SIZE)%nat -> index_wf x -> w ∈ W -> indexed (ref_indexes w.2) v = Some (o, n) ->
  moved_slots l fids W x (relocated (Z.of_nat l) min_fid fids w.1 o n x) v.
Proof.
  intros Hl Hwf Hw Hix. unfold index_wf in Hwf. change (Z.to_nat LEVEL_INDEX_SIZE) with 4%nat in *.
  assert (forall i, 0 <= i -> i <> Z.of_nat l -> at_level (relocated (Z.of_nat l) min_fid fids w.1 o n x) i =
    match levels x !! Z.to_nat (Z.of_nat l - 1) with
    | Some d => if bool_decide (i = Z.of_nat l - 1) && bool_decide (lv_fileID d ∈ fids) then Some (mkLevel INVALID_File_ID (lv_offset d) (lv_next_offset d))
                else at_level x i
    | None => at_level x i
    end) as Hat.
  { intros i Hi Hne. unfold at_level, relocated. rewrite (proj2 (Z.ltb_ge _ _)) by lia. cbn [levels]. rewrite list_lookup_insert_ne by lia.
    destruct (levels x !! Z.to_nat (Z.of_nat l - 1)) as [d|] eqn:Ed; [|done]. pose proof (lookup_lt_Some _ _ _ Ed).
    case_bool_decide as E1; [|by rewrite !andb_false_r]. rewrite !andb_true_r. destruct (decide (i = Z.of_nat l - 1)) as [->|Hi'].
    - replace (0 <? Z.of_nat l) with true by lia. rewrite bool_decide_eq_true_2 by done. by apply list_lookup_insert_eq.
    - rewrite bool_decide_eq_false_2 by done. destruct (0 <? Z.of_nat l) eqn:El; [|done]. by rewrite list_lookup_insert_ne by lia. }
  split.
  - intros i H1 H2. destruct (decide (i < 0)) as [Hn|Hn]; [unfold at_level; by rewrite (proj2 (Z.ltb_lt _ _))|]. rewrite Hat by lia.
    rewrite bool_decide_eq_false_2 by done. by destruct (levels x !! _).
  - left. exists w, o, n. split_and!; [done|done|]. unfold at_level, relocated. rewrite (proj2 (Z.ltb_ge _ _)) by lia. cbn [levels].
    apply list_lookup_insert_eq. rewrite Nat2Z.id. destruct (levels x !! _); [|lia]. destruct (_ && _); rewrite ?length_insert; lia.
  - intros d H0 Hd. rewrite Hat by lia. unfold at_level in Hd. rewrite (proj2 (Z.ltb_ge _ _)) in Hd by lia. rewrite Hd.
    rewrite bool_decide_eq_true_2 by done. cbn [andb]. case_bool_decide; case_decide; try done. unfold at_level. by rewrite (proj2 (Z.ltb_ge _ _)) by lia.
Qed.

Section MergeRound.
Context (cfg : CompactionConfig) (debug : bool) (flags : Flags) (tls : layout) (pnum : nat) (s : Storage) (T : Tree).
Abbreviation level_files := (level_files cfg flags tls pnum s).
Context (Hcfg : config_ok cfg) (Hpn : (0 < pnum)%nat)
  (Hslots : forall p, (p < pnum)%nat -> 0 < slot_len flags tls p < Z.min (PROPERTY_BUFFER_SIZE cfg) 100000).
Context (HF : forest cfg flags tls pnum T) (HT : stores flags tls pnum s T).
Context (l : nat) (files next r : list SSTableCache) (ts us : list TFile) (a b : Z).
Context (Hfiles : fileMetaCache_ s !! l = Some files) (Hnext : fileMetaCache_ s !! S l = Some next).
Context (Hts : T !! l = Some ts) (Hus : T !! S l = Some us) (Hlf : level_files files ts) (Hln : level_files next us) (Hw : whole files r a b).
Abbreviation r1 := (filter (overlaps a b) next).
Abbreviation fids0 := (merged_fids r).
Abbreviation fids1 := (merged_fids r1).
Abbreviation in0 := (in_of fids0 ts).
Abbreviation in1 := (in_of fids1 us).
Abbreviation F := (round_inputs s next r ts us a b).
Context (held : gset Z) (fetch_time : nat -> Z).
Context (Hinj : forall i j, fetch_time i = fetch_time j -> i = j).
Abbreviation W := (new_files cfg fetch_time F).

Lemma level_bound : (S l < Z.to_nat MAX_LEVEL)%nat.
Proof. pose proof (fo_len _ _ _ _ _ HF) as Hlen. apply lookup_lt_Some in Hus. lia. Qed.

(** The metadata that the merge sees. *)
Definition pre_files : list (list SSTableCache) :=
  <[S l := drop_fids fids1 next]> (if (l =? 0)%nat then fileMetaCache_ s else <[l := drop_fids fids0 files]> (fileMetaCache_ s)).

Lemma pre_compaction :
  PreCompaction (Z.of_nat l) r r1 s = Some (way_of <$> F, with_files s pre_files).
Proof.
  unfold PreCompaction. rewrite (input_ways cfg flags tls pnum s true r in0) by (by eapply round_in0). simpl_bind.
  rewrite (input_ways cfg flags tls pnum s false r1 in1) by (by eapply round_in1). simpl_bind.
  assert (Z.to_nat (Z.of_nat l + 1) = S l) as El by lia. unfold pre_files. destruct (Nat.eqb_spec l 0) as [E|Hl].
  - rewrite E in *. assert (RemoveCache (Z.of_nat 0) 0 fids0 s = Some s) as -> by (unfold RemoveCache; by destruct (_ || _)). simpl_bind.
    rewrite (RemoveCache_drops _ 1 _ s next) by (rewrite ?El; done || lia || by right). simpl_bind. unfold round_inputs. by rewrite fmap_app, El.
  - rewrite (RemoveCache_drops _ 0 _ s files) by (rewrite ?Nat2Z.id; done || lia). simpl_bind.
    rewrite (RemoveCache_drops _ 1 _ _ next).
    + simpl_bind. unfold round_inputs. by rewrite fmap_app, El, Nat2Z.id.
    + lia.
    + by right.
    + rewrite El. cbn [with_files fileMetaCache_]. rewrite list_lookup_insert_ne by lia. done.
Qed.

Lemma pre_next : pre_files !! S l = Some (drop_fids fids1 next).
Proof.
  unfold pre_files. apply list_lookup_insert_eq. apply lookup_lt_Some in Hnext. destruct (l =? 0)%nat; [done|]. by rewrite length_insert.
Qed.

Lemma round_fids : input_0_fids (way_of <$> F) = fids0.
Proof.
  unfold round_inputs. rewrite input_0_way_fids by apply input_flags. rewrite (input_way_fids cfg flags tls pnum s true r in0) by (by eapply round_in0).
  symmetry. eapply lf_fids. by eapply round_in0.
Qed.

(** Tables in source order give their edges in order. *)
Lemma tables_order (xs : list TFile) : Forall (tfile_ok cfg flags tls pnum) xs -> StronglySorted table_before xs -> StronglySorted edge_before (tree_edges xs).
Proof.
  intros Hok Hs. induction Hs as [|t xs Hs IH Ht]; [constructor|]. apply Forall_cons in Hok as [Htok Hok].
  unfold tree_edges in *. cbn [fmap list_fmap concat]. apply StronglySorted_app. split_and!; [|apply edges_in_sorted, Htok|by apply IH].
  intros [v e] [w e'] Hv (u & Hu & Hw')%tree_edges_elem. rewrite Forall_forall in Ht. left.
  apply (Ht u Hu); by eapply table_source.
Qed.

Lemma inputs_order i b' cs xs : (0 < i)%nat -> T !! i = Some xs -> forall fids, level_files cs (in_of fids xs) -> in_source_order (input_files s b' cs (in_of fids xs)).
Proof.
  intros Hi Hxs fids Hl. unfold in_source_order. rewrite (input_tables cfg flags tls pnum s b' _ _ Hl), <- list_fmap_compose.
  apply (tables_order (in_of fids xs)); [apply Hl|]. apply StronglySorted_filter. by apply (fo_lower _ _ _ _ _ HF i).
Qed.

Lemma process_merges min_fid s1 :
  ProcessCompactionWork cfg debug flags tls pnum (Z.of_nat l) min_fid fetch_time (length r) (way_of <$> F) s1
  = ProcessMultiWaysCompaction cfg debug flags tls pnum (Z.of_nat l) min_fid fetch_time (way_of <$> F) s1 /\
  work_output cfg debug flags tls pnum (Z.of_nat l) min_fid fetch_time (length r) (way_of <$> F) s1
  = merge_output cfg debug flags tls pnum (Z.of_nat l) min_fid (input_0_fids (way_of <$> F)) fetch_time (way_of <$> F) s1.
Proof.
  unfold ProcessCompactionWork, work_output. destruct (Z.eqb_spec (Z.of_nat l) 0) as [|Hl]; [done|].
  pose proof (round_in0 cfg flags tls pnum s files r ts a b Hlf Hw) as H0. pose proof (round_in1 cfg flags tls pnum s next us a b Hln) as H1.
  rewrite <- (input_files_length cfg flags tls pnum s true r in0 H0). unfold round_inputs.
  assert (input_files s true r in0 <> []) as Hne.
  { intros E%(f_equal length). rewrite (input_files_length cfg flags tls pnum s true r in0 H0) in E. destruct r; [by pose proof (whole_range _ _ _ _ Hw)|done]. }
  assert (in_source_order (input_files s true r in0)) as Ho0 by (eapply (inputs_order l); [lia|done|done]).
  assert (in_source_order (input_files s false r1 in1)) as Ho1 by (eapply (inputs_order (S l)); [lia|done|done]).
  assert (1 <= Z.of_nat l) as Hl1 by lia.
  split; [apply two_way_multi|apply two_way_multi_output]; first [done|by eapply round_ok|by eapply round_distinct|apply input_flags].
Qed.

Lemma round_ready : merge_ready cfg flags tls pnum (Z.of_nat l) fetch_time F (with_files s pre_files) (drop_fids fids1 next).
Proof.
  pose proof level_bound as Hb. change (Z.to_nat MAX_LEVEL) with 5%nat in Hb. split; try done.
  - change LEVEL_INDEX_SIZE with 4. lia.
  - by eapply round_nonempty.
  - by eapply round_ok.
  - by eapply round_distinct.
  - pose proof (round_small cfg flags tls pnum s T l files next r ts us a b Hts Hus Hlf Hln Hw) as Hs. pose proof (fo_small _ _ _ _ _ HF) as Hsm.
    change EDGEBODY_SIZE with 16 in *. lia.
  - intros v Hv. by apply (st_wf _ _ _ _ _ HT).
  - intros f v Hf Hv. assert (in_table f ∈ snd <$> in0 ++ in1) as Hin.
    { rewrite <- (round_tables cfg flags tls pnum s files next r ts us a b Hlf Hln Hw). by apply list_elem_of_fmap_2. }
    apply list_elem_of_fmap in Hin as (t & E & Ht). rewrite E in Hv. apply (st_blocks _ _ _ _ _ HT t v); [|done].
    apply elem_of_app in Ht as [[_ Ht]%in_of_elem|[_ Ht]%in_of_elem]; [by eapply (tree_elem T l ts)|by eapply (tree_elem T (S l) us)].
  - replace (Z.to_nat (Z.of_nat l + 1)) with (S l) by lia. apply pre_next.
Qed.

(** The output of the merge draws one id per file, and keeps the last one unless
    its buffer is empty. *)
Lemma round_output :
  exists o, inputs_output cfg debug flags tls pnum fetch_time (Z.of_nat l) r r1 s = Some o /\
    fetched o = length (outputs cfg F) /\ (IsClear (out_writer o) = false -> keeps_last cfg (in_table <$> F)).
Proof.
  unfold inputs_output. rewrite pre_compaction. simpl_bind. rewrite (proj2 (process_merges _ _)).
  destruct (pieces_nonempty cfg [] (merged (in_table <$> F))) as (P & lst & EP).
  destruct (merge_output_end cfg debug flags tls pnum _ (min_level_0_fid_of (Z.of_nat l) r) fetch_time F _ _ P lst round_ready EP) as (o & Eo & Hn & Hc).
  exists o. split_and!; [exact Eo|exact Hn|]. rewrite Hc. intros Hne%Z.eqb_neq. unfold keeps_last. by rewrite EP, last_snoc.
Qed.

Context (Hids : forall j, (j < length (outputs cfg F))%nat -> 0 <= fetch_time j < INVALID_File_ID)
  (Hfresh : forall j t, t ∈ concat T -> fetch_time j <> t.1)
  (Hlast : keeps_last cfg (in_table <$> F)).

Lemma merging : shift cfg flags tls pnum T l fids0 fids1 W ts us.
Proof. by eapply merge_shift. Qed.

Lemma round_work min_fid :
  exists s', DoGeneralCompactionWork cfg debug flags tls pnum (Z.of_nat l) min_fid fetch_time r r1 s = Some s' /\
    published (Z.of_nat l) min_fid fids0 flags tls pnum fetch_time (outputs cfg F) 0 0 (with_files s pre_files) s' (drop_fids fids1 next).
Proof.
  unfold DoGeneralCompactionWork. rewrite assert_holds.
  2:{ apply Z.ltb_lt. pose proof (zlen_nonneg r1). destruct r; [by pose proof (whole_range _ _ _ _ Hw)|]. rewrite zlen_cons. pose proof (zlen_nonneg l0). lia. }
  simpl_bind. rewrite pre_compaction. simpl_bind. rewrite (proj1 (process_merges _ _)).
  destruct (pieces_nonempty cfg [] (merged (in_table <$> F))) as (P & lst & EP).
  destruct (merge_result cfg debug flags tls pnum _ min_fid fetch_time F _ _ P lst round_ready EP) as (s' & Es & Hp).
  exists s'. split; [done|]. rewrite round_fids in Hp. unfold keeps_last in Hlast. rewrite EP, last_snoc in Hlast.
  rewrite (proj2 (Z.eqb_neq _ _)) in Hp by done. unfold outputs. by rewrite EP.
Qed.

(** ** The metadata of level 0 *)
Lemma level0_stamps : l = 0%nat -> StronglySorted (fun c d => time_ge c d /\ ~ time_ge d c) files.
Proof.
  intros ->. pose proof (fo_level0 _ _ _ _ _ HF ts Hts) as Hs. pose proof (lf_holds _ _ _ _ _ _ _ Hlf) as Hf. clear -Hs Hf.
  induction Hf as [|c t cs xs Hct Hf IH]; [constructor|]. apply StronglySorted_inv in Hs as [Hs Ht]. constructor; [by apply IH|].
  apply Forall_forall. intros d Hd. destruct (Forall2_elem_l _ _ _ _ Hf Hd) as (u & Hu & Hdu). rewrite Forall_forall in Ht. destruct (Ht u Hu) as [_ Hlt].
  unfold time_ge. rewrite (holds_stamp _ _ _ _ _ _ Hct), (holds_stamp _ _ _ _ _ _ Hdu). lia.
Qed.

Lemma level0_published s2 lc :
  fileMetaCache_ s2 = <[S l := lc]> pre_files ->
  (if Z.of_nat l =? 0 then publish_level0 fids0 s2 else Some s2)
  = Some (with_files s2 (<[S l := lc]> (<[l := drop_fids fids0 files]> (fileMetaCache_ s)))).
Proof.
  intros E. pose proof (lookup_lt_Some _ _ _ Hnext). unfold pre_files in E. rewrite insert_twice in E. destruct (Z.eqb_spec (Z.of_nat l) 0) as [Hl|Hl].
  - assert (l = 0%nat) as El by lia. pose proof (level0_stamps El) as Hsort. rewrite El in *. cbn [Nat.eqb] in E. unfold publish_level0. rewrite E, list_lookup_insert_ne by done.
    rewrite Hfiles. simpl_bind. rewrite (merge_sort_id time_ge).
    + destruct (1 <? length (drop_fids fids0 files))%nat; by rewrite list_insert_insert_ne.
    + by apply StronglySorted_filter.
  - destruct (Nat.eqb_spec l 0); [lia|]. rewrite <- E. by destruct s2.
Qed.

(** ** Ids *)
Lemma fids0_tables : fids0 = fst <$> in0.
Proof. eapply lf_fids. by eapply round_in0. Qed.
Lemma fids1_tables : fids1 = fst <$> in1.
Proof. eapply lf_fids. by eapply round_in1. Qed.

Lemma input_fid id : id ∈ merged_fids (r ++ r1) -> exists t, t ∈ in0 ++ in1 /\ t ∈ concat T /\ t.1 = id.
Proof.
  intros Hid. unfold merged_fids in Hid. rewrite fmap_app in Hid. apply elem_of_app in Hid.
  assert (id ∈ fst <$> in0 ++ in1) as (t & -> & Ht)%list_elem_of_fmap.
  { rewrite fmap_app. apply elem_of_app. destruct Hid as [Hid|Hid]; [left; by rewrite <- fids0_tables|right; by rewrite <- fids1_tables]. }
  exists t. split_and!; [done| |done].
  apply elem_of_app in Ht as [[_ Ht]%in_of_elem|[_ Ht]%in_of_elem]; [by eapply (tree_elem T l ts)|by eapply (tree_elem T (S l) us)].
Qed.

Lemma same_id (t u : TFile) : t ∈ concat T -> u ∈ concat T -> t.1 = u.1 -> t = u.
Proof.
  intros [i Hi]%list_elem_of_lookup [j Hj]%list_elem_of_lookup E. assert (i = j) as ->; [|congruence].
  apply (NoDup_lookup _ i j t.1 (fo_ids _ _ _ _ _ HF)); rewrite list_lookup_fmap; [by rewrite Hi|by rewrite Hj, E].
Qed.

Lemma kept_id t : t ∈ concat T -> t ∉ in0 -> t ∉ in1 -> t.1 ∉ merged_fids (r ++ r1).
Proof.
  intros Ht H0 H1 (u & Hu & HuT & E)%input_fid. rewrite (same_id u t) in Hu by done. by apply elem_of_app in Hu as [?|?].
Qed.

Lemma fetched_id j : fetch_time j ∉ merged_fids (r ++ r1).
Proof. intros (u & _ & HuT & E)%input_fid. by apply (Hfresh j u). Qed.

Lemma released_lookup fids s2 id : id ∉ fids -> sst_data (release_files held fids s2) !! id = sst_data s2 !! id.
Proof.
  intros Hn. cbn [release_files sst_data]. destruct (sst_data s2 !! id) as [d|] eqn:E.
  - apply map_lookup_filter_Some_2; [done|]. cbn. by right.
  - apply map_lookup_filter_None_2. by left.
Qed.

(** ** The index *)
Lemma output_source v : v ∈ (concat (outputs cfg F)).*1 <-> exists w, w ∈ W /\ v ∈ sources_of w.
Proof.
  rewrite <- (new_tables cfg fetch_time F). split.
  - intros (x & -> & Hx)%list_elem_of_fmap. apply list_elem_of_In, in_concat in Hx as (vs & Hvs%list_elem_of_In & Hx%list_elem_of_In).
    apply list_elem_of_fmap in Hvs as (w & -> & Hw'). exists w. split; [done|]. by apply list_elem_of_fmap_2.
  - intros (w & Hw' & (x & -> & Hx)%list_elem_of_fmap). apply list_elem_of_fmap_2, list_elem_of_In, in_concat. exists w.2.
    split; apply list_elem_of_In; [by apply list_elem_of_fmap_2|done].
Qed.

Lemma new_file_small w : w ∈ W -> u32 w.1 = w.1.
Proof.
  intros (j & Hj & E)%new_file. pose proof (Hids j (lookup_lt_Some _ _ _ Hj)) as Hb. rewrite E. apply u32_small. change INVALID_File_ID with 2147483647 in Hb. lia.
Qed.

Lemma moved_entry min_fid s2 v w :
  published (Z.of_nat l) min_fid fids0 flags tls pnum fetch_time (outputs cfg F) 0 0 (with_files s pre_files) s2 (drop_fids fids1 next) ->
  0 <= v < kInvalidVertexId -> w ∈ W -> v ∈ sources_of w ->
  moved_slots l fids0 W (entry (vid_to_mullevelIndex_ s) v) (entry (vid_to_mullevelIndex_ s2) v) v.
Proof.
  intros Hp Hv Hw' Hvw. rewrite (pub_entry _ _ _ _ _ _ _ _ _ _ _ _ _ Hp) by lia. cbn [with_files vid_to_mullevelIndex_].
  assert (Forall flush_input_ok (outputs cfg F)) as Hok by (apply flush_input_ok_concat; eapply outputs_table; [by eapply round_ok|by eapply round_distinct]).
  destruct (located_source fetch_time (outputs cfg F) 0 v Hok) as (j & vs & i & es & bg & en & Hj & Hi & Hb & He & ->); [apply output_source; eauto|].
  rewrite Nat.add_0_l. set (w' := (fetch_time j, vs)). assert (w' ∈ W) as Hin by (apply elem_of_lookup_imap; by exists j, vs).
  pose proof (new_file_small w' Hin) as E32. cbn [w' fst] in E32. rewrite E32. apply (relocated_slots l min_fid fids0 W w'); [|by apply (st_wf _ _ _ _ _ HT); lia|done|].
  - pose proof level_bound as Hlb. change (Z.to_nat MAX_LEVEL) with 5%nat in Hlb. change (Z.to_nat LEVEL_INDEX_SIZE) with 4%nat. lia.
  - cbn [w' snd]. rewrite Forall_forall in Hok. pose proof (Hok vs ltac:(by eapply list_elem_of_lookup_2)) as Hvs.
    destruct (image_range vs i v es Hvs Hi) as (_ & Hb' & _). rewrite Hb in Hb'. injection Hb' as ->.
    pose proof (indexed_lookup _ i _ _ (ref_indexes_nodup vs Hvs) Hb He) as E. exact E.
Qed.

Lemma kept_entry min_fid s2 v :
  published (Z.of_nat l) min_fid fids0 flags tls pnum fetch_time (outputs cfg F) 0 0 (with_files s pre_files) s2 (drop_fids fids1 next) ->
  0 <= v < kInvalidVertexId -> (forall w, w ∈ W -> v ∉ sources_of w) -> entry (vid_to_mullevelIndex_ s2) v = entry (vid_to_mullevelIndex_ s) v.
Proof.
  intros Hp Hv Hno. rewrite (pub_entry _ _ _ _ _ _ _ _ _ _ _ _ _ Hp) by lia. destruct (located _ _ _ v) as [y|] eqn:El; [|done].
  destruct (located_key _ _ _ _ _ El) as [?|(w & Hw' & Hvw)%output_source]; [lia|]. by destruct (Hno w Hw').
Qed.

(** ** The round *)
Lemma merge_round :
  l = 0%nat \/ r1 <> [] ->
  exists s' new, compact_inputs cfg debug flags tls pnum held fetch_time (Z.of_nat l) r r1 s = Some s' /\
    new ≡ₚ out_of fids1 us ++ W /\ StronglySorted table_before new /\ stores flags tls pnum s' (shifted T l fids0 ts new) /\ same_blocks s s'.
Proof.
  intros Hmoved. pose proof merging as HS. unfold compact_inputs. replace ((0 <? Z.of_nat l) && bool_decide (r1 = [])) with false.
  2:{ destruct Hmoved as [->|Hne]; [done|]. by rewrite bool_decide_eq_false_2, andb_false_r. }
  destruct (round_work (min_level_0_fid_of (Z.of_nat l) r)) as (s2 & -> & Hp). simpl_bind.
  destruct (pub_files _ _ _ _ _ _ _ _ _ _ _ _ _ Hp) as (lc & Elc & Hlc & _ & Hsorted). replace (Z.to_nat (Z.of_nat l + 1)) with (S l) in Elc by lia.
  cbn [with_files fileMetaCache_] in Elc. rewrite (level0_published s2 lc Elc). simpl_bind. set (s3 := with_files s2 _). set (s' := release_files _ _ s3).
  assert (forall id, id ∉ merged_fids (r ++ r1) -> sst_data s' !! id = sst_data s2 !! id) as Hdata by (intros id Hid; exact (released_lookup _ s3 id Hid)).
  assert (forall t, t ∈ concat T -> t ∉ in0 -> t ∉ in1 -> sst_data s' !! t.1 = sst_data s !! t.1) as Hkeep.
  { intros t Ht H0 H1. rewrite Hdata by (by apply kept_id). apply (pub_old _ _ _ _ _ _ _ _ _ _ _ _ _ Hp). intros j _ E. by apply (Hfresh (0 + j)%nat t). }
  assert (Forall2 (file_holds flags tls pnum s') (drop_fids fids1 next ++ out_caches fetch_time (outputs cfg F) 0 0) (out_of fids1 us ++ W)) as Hh.
  { apply Forall2_app.
    - pose proof (lf_holds _ _ _ _ _ _ _ (lf_drop cfg flags tls pnum s next us fids1 Hln)) as Hf.
      apply Forall2_same_length_lookup_2; [by eapply Forall2_length|]. intros k c t Hc Ht. pose proof (Forall2_lookup_lr _ _ _ _ _ _ Hf Hc Ht) as (H1 & H2 & end_ & He & Hd).
      apply list_elem_of_lookup_2, out_of_elem in Ht as [Hid Ht]. split_and!; [done|done|]. exists end_. split; [done|].
      rewrite Hkeep; [done|by eapply (tree_elem T (S l) us)| |by intros [? _]%in_of_elem].
      eapply (levels_differ cfg flags tls pnum T l fids0 fids1 W ts us HF HS (S l) us t); [done|done|lia].
    - apply (out_caches_hold flags tls pnum fetch_time s' (outputs cfg F) 0 0). intros j vs Hj. rewrite Hdata by apply fetched_id.
      by apply (pub_data _ _ _ _ _ _ _ _ _ _ _ _ _ Hp). }
  destruct (Forall2_perm _ _ lc _ ltac:(by symmetry) Hh) as (new & Hnew & Hholds).
  assert (StronglySorted table_before new) as Hs.
  { destruct (pieces_nonempty cfg [] (merged (in_table <$> F))) as (P & lst & EP).
    pose proof (new_pair cfg flags tls pnum T l fids0 fids1 W ts us HF HS) as Hpair.
    eapply (sorted_by_min cfg flags tls pnum s' lc new Hholds); [|apply Hsorted; unfold outputs; rewrite EP; by destruct P|..].
    - rewrite <- Hnew. apply Forall_app. split; [|apply HS]. eapply lf_ok. by eapply lf_drop.
    - rewrite <- Hnew, fmap_app. apply NoDup_app. split_and!; [eapply lf_ids; by eapply lf_drop| |apply HS].
      intros id (t & -> & [Hid Ht]%out_of_elem)%list_elem_of_fmap (w & E & Hw')%list_elem_of_fmap. destruct (new_file cfg fetch_time F w Hw') as (j & _ & Ej).
      apply (Hfresh j t); [by eapply (tree_elem T (S l) us)|congruence].
    - intros t u Ht Hu. rewrite <- Hnew in Ht, Hu. by apply Hpair. }
  exists s', new. split_and!; [done|by rewrite Hnew|done| |exact (pub_blocks _ _ _ _ _ _ _ _ _ _ _ _ _ Hp)].
  eapply (stores_shifted cfg flags tls pnum s s' T l fids0 fids1 W ts us new files lc HF HT HS); try done.
  - exact (pub_wf _ _ _ _ _ _ _ _ _ _ _ _ _ Hp).
  - exact (pub_blocks _ _ _ _ _ _ _ _ _ _ _ _ _ Hp).
  - intros v Hv. exact (kept_entry _ s2 v Hp Hv).
  - intros v w Hv. exact (moved_entry _ s2 v w Hp Hv).
Qed.
End MergeRound.

(** ** Moving *)
Section Moves.
Context (cfg : CompactionConfig) (debug : bool) (flags : Flags) (tls : layout) (pnum : nat) (level : Z).
Context (Hlevel : 1 <= level < LEVEL_INDEX_SIZE).

Definition moved_index (x : MulLevelIndex) : MulLevelIndex :=
  match levels x !! Z.to_nat (level - 1) with
  | Some d => mkMulLevel (<[Z.to_nat (level - 1) := mkLevel INVALID_File_ID (lv_offset d) (lv_next_offset d)]>
      (<[Z.to_nat level := mkLevel (lv_fileID d) (lv_offset d) (lv_next_offset d)]> (levels x))) (min_level_0_fid x)
  | None => x
  end.

Lemma move_entry_spec x : index_wf x -> move_entry level x = Some (moved_index x) /\ index_wf (moved_index x).
Proof.
  intros Hw. unfold index_wf in *. change (Z.to_nat LEVEL_INDEX_SIZE) with 4%nat in *. change LEVEL_INDEX_SIZE with 4 in Hlevel.
  destruct x as [ls m]. cbn [levels] in Hw. unfold moved_index. cbn [levels min_level_0_fid].
  destruct (lookup_lt_is_Some_2 ls (Z.to_nat (level - 1))) as [d Hd]; [lia|]. destruct (lookup_lt_is_Some_2 ls (Z.to_nat level)) as [e He]; [lia|].
  rewrite Hd. split; [|cbn; by rewrite !length_insert].
  assert (forall ls' m', ls' !! Z.to_nat (level - 1) = Some d -> at_level (mkMulLevel ls' m') (level - 1) = Some d) as Hat.
  { intros ls' m' Hls. unfold at_level. by rewrite (proj2 (Z.ltb_ge _ _)) by lia. }
  assert (forall g, (<[Z.to_nat level := g]> ls) !! Z.to_nat (level - 1) = Some d) as Hup by (intros g; rewrite list_lookup_insert_ne by lia; done).
  unfold move_entry, get_fileID, get_offset, get_next_offset, set_fileID, set_offset, set_next_offset. rewrite Hat by done. cbn [fmap option_fmap option_map]. simpl_bind.
  rewrite (update_level_Some _ _ _ e) by (done || lia). simpl_bind. cbn [levels min_level_0_fid]. rewrite Hat by done. cbn [fmap option_fmap option_map]. simpl_bind.
  erewrite update_level_Some; [|lia|cbn; apply list_lookup_insert_eq; lia]. simpl_bind. cbn [levels min_level_0_fid]. rewrite list_insert_insert_eq.
  rewrite Hat by done. cbn [fmap option_fmap option_map]. simpl_bind.
  erewrite update_level_Some; [|lia|cbn; apply list_lookup_insert_eq; lia]. simpl_bind. cbn [levels min_level_0_fid]. rewrite list_insert_insert_eq.
  erewrite update_level_Some; [|lia|cbn; apply Hup]. done.
Qed.

Lemma move_indexes_cons x y rest s :
  move_indexes level (x :: y :: rest) s =
  ('(a, findex) ← lazy_get (vid_to_mullevelIndex_ s) (ix_key x);
   findex ← move_entry level findex;
   a ← lazy_set a (ix_key x) findex;
   move_indexes level (y :: rest)
     (mkStorage (fileMetaCache_ s) a
        (<[ix_key x := write_max (default 0 (vertex_max_level_ s !! ix_key x)) (level + 2)]> (vertex_max_level_ s)) (sst_data s))).
Proof. done. Qed.

Definition moved_at (ixs : list Index) (v : Z) (x : MulLevelIndex) : MulLevelIndex := if indexed ixs v then moved_index x else x.

Lemma move_indexes_spec ixs s :
  storage_wf s -> NoDup (ix_key <$> ixs) -> Forall (fun x => ix_key x = kInvalidVertexId \/ has_block s (ix_key x)) ixs ->
  (forall i x, ixs !! i = Some x -> ix_key x = kInvalidVertexId -> S i = length ixs) ->
  exists a vm, move_indexes level ixs s = Some (mkStorage (fileMetaCache_ s) a vm (sst_data s)) /\
    block_count_ a = block_count_ (vid_to_mullevelIndex_ s) /\
    forall v, 0 <= v -> entry a v = moved_at ixs v (entry (vid_to_mullevelIndex_ s) v).
Proof.
  revert s. induction ixs as [|x [|y rest] IH]; intros s Hw Hnd Hb Hlast.
  1,2: exists (vid_to_mullevelIndex_ s), (vertex_max_level_ s); split_and!; [by destruct s|done|done].
  apply Forall_cons in Hb as [Hx Hb]. destruct Hx as [Hx|[Hx0 Hx1]]; [specialize (Hlast 0%nat x eq_refl Hx); done|].
  cbn [fmap list_fmap] in Hnd. apply NoDup_cons in Hnd as [Hnx Hnd].
  rewrite move_indexes_cons. destruct (lazy_get_spec (vid_to_mullevelIndex_ s) (ix_key x) Hx1) as (a1 & -> & He1 & Hc1 & _). simpl_bind.
  destruct (move_entry_spec (entry (vid_to_mullevelIndex_ s) (ix_key x))) as [-> Hwr]; [by apply Hw|].
  simpl_bind. destruct (lazy_set_spec a1 (ix_key x) (moved_index (entry (vid_to_mullevelIndex_ s) (ix_key x))))
    as (a2 & -> & He2 & Hc2 & _); [done|by rewrite Hc1|]. simpl_bind.
  set (s2 := mkStorage _ a2 _ _).
  destruct (IH s2) as (a & vm & -> & Hc & He).
  - intros v Hv. unfold s2. cbn. rewrite He2 by done. case_decide; [done|]. rewrite He1. by apply Hw.
  - done.
  - eapply Forall_impl; [exact Hb|]. intros z [?|[? ?]]; [by left|right]. split; [done|]. unfold s2. cbn. by rewrite Hc2, Hc1.
  - intros i z Hz Hi. specialize (Hlast (S i) z Hz Hi). simpl in *. lia.
  - exists a, vm. split_and!; [done|unfold s2 in Hc; cbn in Hc; by rewrite Hc, Hc2, Hc1|].
    intros v Hv. rewrite He by done. unfold s2. cbn [vid_to_mullevelIndex_]. rewrite He2 by done.
    unfold moved_at. rewrite indexed_cons. destruct (Z.eqb_spec (ix_key x) v) as [<-|Hne].
    + rewrite decide_True by done. destruct (indexed (y :: rest) (ix_key x)) as [[o n]|] eqn:E; [|done]. by apply indexed_key in E.
    + rewrite decide_False, He1 by congruence. done.
Qed.

Lemma file_index_read vs id end_ :
  flushable flags tls pnum vs -> flush_input_ok vs -> fits 64 id ->
  exists buf, read_at (table_image flags tls vs id end_) (Sst.size (ref_header vs id) * EDGEBODY_SIZE) (Sst.index_size (ref_header vs id) * sizeof Index) = Some buf /\
    load_indexes (Z.to_nat (Sst.index_size (ref_header vs id))) buf 0 = Some (ref_indexes vs).
Proof.
  intros Hfl Hin Hid. pose proof (reload_image flags tls pnum vs id Hfl Hin Hid end_) as E. unfold LoadSSTableCache in E.
  destruct (read_at _ (_ - _) _) as [raw|]; simpl_bind in E; [|done].
  destruct (read_at (table_image flags tls vs id end_) _ _) as [buf|] eqn:Eb; simpl_bind in E; [|done].
  destruct (load_indexes _ buf 0) as [ixs|] eqn:El; simpl_bind in E; [|done]. apply (inj Some), pair_equal_spec in E as [Eh ->]. rewrite Eh in Eb, El. by exists buf.
Qed.

Lemma ref_indexes_last vs i x : flush_input_ok vs -> ref_indexes vs !! i = Some x -> ix_key x = kInvalidVertexId -> S i = length (ref_indexes vs).
Proof.
  intros Hin Hi Hx. assert ((ix_key <$> ref_indexes vs) !! i = Some kInvalidVertexId) as Hk by (rewrite list_lookup_fmap, Hi; cbn; by rewrite Hx).
  rewrite ref_indexes_keys in Hk. apply lookup_app_Some in Hk as [Hk|[Hk1 Hk2]].
  - apply list_elem_of_lookup_2, (source_below vs _ Hin) in Hk. lia.
  - apply lookup_lt_Some in Hk2. unfold ref_indexes. rewrite length_app, ref_index_length. rewrite length_fmap in *. simpl in *. lia.
Qed.

Lemma ref_indexes_blocks s vs : Forall (has_block s) vs.*1 -> Forall (fun x => ix_key x = kInvalidVertexId \/ has_block s (ix_key x)) (ref_indexes vs).
Proof.
  intros Hb. rewrite Forall_forall in Hb. apply Forall_forall. intros x Hx.
  assert (ix_key x ∈ ix_key <$> ref_indexes vs) as Hk by (by apply list_elem_of_fmap_2). rewrite ref_indexes_keys in Hk.
  apply elem_of_app in Hk as [Hk|Hk%list_elem_of_singleton]; [right; by apply Hb|by left].
Qed.

Lemma indexed_sources vs v : flush_input_ok vs -> 0 <= v < kInvalidVertexId -> is_Some (indexed (ref_indexes vs) v) <-> v ∈ vs.*1.
Proof.
  intros Hin Hv. split; [intros [[o n] Hix]; by eapply indexed_source|]. intros ([u es] & -> & [i Hi]%list_elem_of_lookup)%list_elem_of_fmap. cbn [fst] in *.
  destruct (image_range vs i u es Hin Hi) as (_ & Hb & e & He & _). pose proof (indexed_lookup _ i _ _ (ref_indexes_nodup vs Hin) Hb He) as E. cbn [ix_key] in E.
  by rewrite E.
Qed.

(** ** Files *)
Definition has_source (xs : list TFile) (v : Z) : Prop := Exists (fun t => v ∈ sources_of t) xs.
#[local] Instance moved_source_dec xs v : Decision (has_source xs v).
Proof. unfold has_source. apply _. Defined.

Record moved_store (xs : list TFile) (s s' : Storage) (files : list (list SSTableCache)) : Prop := {
  mv_wf : storage_wf s';
  mv_blocks : block_count_ (vid_to_mullevelIndex_ s') = block_count_ (vid_to_mullevelIndex_ s);
  mv_data : sst_data s' = sst_data s;
  mv_files : fileMetaCache_ s' = files;
  mv_entry : forall v, 0 <= v < kInvalidVertexId -> entry (vid_to_mullevelIndex_ s') v =
    if decide (has_source xs v) then moved_index (entry (vid_to_mullevelIndex_ s) v) else entry (vid_to_mullevelIndex_ s) v;
}.

Lemma UpdataLevelIndex_spec c t s :
  file_holds flags tls pnum s c t -> tfile_ok cfg flags tls pnum t -> storage_wf s -> Forall (has_block s) (sources_of t) ->
  exists s', UpdataLevelIndex debug level c s = Some s' /\ moved_store [t] s s' (fileMetaCache_ s).
Proof.
  intros Hct Ht Hwf Hb. pose proof (holds_fid cfg flags tls pnum s c t Hct Ht) as Efid. destruct Ht as [(Hfl & Hin & _) Hid]. destruct Hct as (Hh & _ & end_ & _ & Hd).
  unfold UpdataLevelIndex. rewrite Efid, Hd. simpl_bind. cbn [edge_data]. rewrite Hh.
  destruct (file_index_read t.2 t.1 end_ Hfl Hin) as (buf & -> & Eix).
  { unfold fits. change INVALID_File_ID with 2147483647 in Hid. lia. }
  simpl_bind. rewrite assert_holds by lia. simpl_bind. rewrite Eix. simpl_bind.
  destruct (move_indexes_spec (ref_indexes t.2) s Hwf (ref_indexes_nodup _ Hin) (ref_indexes_blocks s _ Hb)) as (a & vm & -> & Hc & He).
  { intros i x. by apply ref_indexes_last. }
  eexists. split; [done|]. split; cbn; try done.
  - intros v Hv. cbn. rewrite He by done. unfold moved_at. destruct (indexed _ v); [apply move_entry_spec|]; by apply Hwf.
  - intros v Hv. rewrite He by lia. unfold moved_at. pose proof (indexed_sources t.2 v Hin Hv) as Hix. case_decide as Hs.
    + apply Exists_exists in Hs as (u & ->%list_elem_of_singleton & Hs). apply Hix in Hs as [y ->]. done.
    + destruct (indexed _ v) eqn:E; [|done]. exfalso. apply Hs, Exists_exists. exists t. split; [left|]. by apply Hix.
Qed.

Lemma move_files_spec cs xs s next :
  Forall2 (file_holds flags tls pnum s) cs xs -> Forall (tfile_ok cfg flags tls pnum) xs -> StronglySorted table_before xs -> storage_wf s ->
  (forall t, t ∈ xs -> Forall (has_block s) (sources_of t)) -> fileMetaCache_ s !! Z.to_nat (level + 1) = Some next ->
  exists s', move_files debug level cs s = Some s' /\ moved_store xs s s' (<[Z.to_nat (level + 1) := next ++ cs]> (fileMetaCache_ s)).
Proof.
  intros Hf. revert s next Hf. induction cs as [|c cs IH] in xs |- *; intros s next Hf Hok Hs Hwf Hb Hn.
  { apply Forall2_nil_inv_l in Hf as ->. exists s. split; [done|]. split; [done|done|done| |].
    - by rewrite app_nil_r, list_insert_id.
    - intros v Hv. case_decide as Hv'; [|done]. by apply Exists_nil in Hv'. }
  apply Forall2_cons_inv_l in Hf as (t & ys & Hct & Hf & ->). apply Forall_cons in Hok as [Ht Hok]. apply StronglySorted_inv in Hs as [Hs Hlt].
  cbn [move_files]. rewrite Hn. simpl_bind. set (s1 := with_files s _).
  destruct (UpdataLevelIndex_spec c t s1 Hct Ht Hwf (Hb t ltac:(left))) as (s2 & -> & [M1 M2 M3 M4 M5]). simpl_bind.
  pose proof (lookup_lt_Some _ _ _ Hn) as Hlen.
  destruct (IH ys s2 (next ++ [c])) as (s' & -> & [N1 N2 N3 N4 N5]).
  - eapply Forall2_impl; [exact Hf|]. intros d u (H1 & H2 & end_ & H3 & H4). split_and!; [done|done|]. exists end_. by rewrite M3.
  - done.
  - done.
  - done.
  - intros u Hu. eapply Forall_impl; [apply Hb; by right|]. unfold has_block. by rewrite M2.
  - rewrite M4. cbn. by apply list_lookup_insert_eq.
  - exists s'. split; [done|]. split; [done|by rewrite N2, M2|by rewrite N3, M3| |].
    + rewrite N4, M4. cbn. by rewrite list_insert_insert_eq, <- app_assoc.
    + intros v Hv. rewrite N5, M5 by done. cbn [with_files vid_to_mullevelIndex_ s1]. unfold has_source. 
      destruct (decide (Exists (fun t => v ∈ sources_of t) (t :: ys))) as [H|H];
        destruct (decide (Exists _ ys)) as [H1|H1]; destruct (decide (Exists _ [t])) as [H2|H2]; try done.
      * exfalso. apply Exists_exists in H1 as (u & Hu & Hvu), H2 as (? & ->%list_elem_of_singleton & Hvt). rewrite Forall_forall in Hlt.
        specialize (Hlt u Hu v v Hvt Hvu). lia.
      * exfalso. apply Exists_cons in H as [H|H]; [|done]. apply H2. by left.
      * exfalso. apply H, Exists_cons. by right.
      * exfalso. apply H, Exists_cons. by right.
      * exfalso. apply H, Exists_cons. left. apply Exists_exists in H2 as (? & ->%list_elem_of_singleton & Hvt). done.
Qed.
End Moves.

Section MoveRound.
Context (cfg : CompactionConfig) (debug : bool) (flags : Flags) (tls : layout) (pnum : nat) (s : Storage) (T : Tree).
Abbreviation level_files := (level_files cfg flags tls pnum s).
Context (HF : forest cfg flags tls pnum T) (HT : stores flags tls pnum s T).
Context (l : nat) (files next r : list SSTableCache) (ts us : list TFile) (a b : Z).
Context (Hfiles : fileMetaCache_ s !! l = Some files) (Hnext : fileMetaCache_ s !! S l = Some next).
Context (Hts : T !! l = Some ts) (Hus : T !! S l = Some us) (Hlf : level_files files ts) (Hln : level_files next us) (Hw : whole files r a b).
Context (Hl : (0 < l)%nat) (Hr1 : filter (overlaps a b) next = []).
Abbreviation fids0 := (merged_fids r).
Abbreviation in0 := (in_of fids0 ts).

Lemma in_of_nil (xs : list TFile) : in_of [] xs = [].
Proof. unfold in_of. induction xs as [|t xs IH]; [done|]. rewrite filter_cons_False by apply not_elem_of_nil. exact IH. Qed.
Lemma out_of_nil (xs : list TFile) : out_of [] xs = xs.
Proof. unfold out_of. induction xs as [|t xs IH]; [done|]. rewrite filter_cons_True by apply not_elem_of_nil. by rewrite IH. Qed.

Lemma upper_sorted : StronglySorted table_before ts.
Proof. by apply (fo_lower _ _ _ _ _ HF l). Qed.

Lemma moving : shift cfg flags tls pnum T l fids0 [] in0 ts us.
Proof.
  pose proof (round_in0 cfg flags tls pnum s files r ts a b Hlf Hw) as H0. split; [done|done|..].
  - exists a, b. pose proof (picked_hull cfg flags tls pnum s files next ts us r a b Hlf Hln Hw) as Hh. by rewrite Hr1 in Hh.
  - by rewrite in_of_nil, app_nil_r.
  - apply H0.
  - apply StronglySorted_filter, upper_sorted.
  - apply H0.
  - intros w t Hw' Ht E. rewrite <- (same_id cfg flags tls pnum T HF w t) by (done || (apply in_of_elem in Hw' as [_ ?]; by eapply (tree_elem T l ts))). done.
  - intros. by rewrite in_of_nil, app_nil_r.
Qed.

Lemma moved_index_slots v w x :
  0 <= v < kInvalidVertexId -> w ∈ in0 -> v ∈ sources_of w -> index_wf x -> slot_ok ts x (Z.of_nat l - 1) v ->
  (l < Z.to_nat LEVEL_INDEX_SIZE)%nat -> moved_slots l fids0 in0 x (moved_index (Z.of_nat l) x) v.
Proof.
  intros Hv Hw' Hvw Hwf Hslot Hlt. pose proof Hw' as [Hid Hin]%in_of_elem. unfold index_wf in Hwf. rewrite <- Hwf in Hlt.
  destruct Hslot as [(t & o & n & Ht & Hix & Ha)|[Hno _]]; [|by destruct (Hno w Hin)].
  assert (t = w) as -> by (apply (table_before_unshared v ts upper_sorted); [done|done|by eapply indexed_source|done]).
  unfold at_level in Ha. rewrite (proj2 (Z.ltb_ge _ _)) in Ha by lia. unfold moved_index. rewrite Ha. cbn [lv_fileID lv_offset lv_next_offset]. split.
  - intros i H1 H2. unfold at_level. destruct (Z.ltb_spec i 0); [done|]. cbn [levels]. by rewrite !list_lookup_insert_ne by lia.
  - left. exists w, o, n. split_and!; [done|done|]. unfold at_level. rewrite (proj2 (Z.ltb_ge _ _)) by lia. cbn [levels].
    rewrite list_lookup_insert_ne by lia. apply list_lookup_insert_eq. lia.
  - intros d _ Hd. unfold at_level in *. rewrite (proj2 (Z.ltb_ge _ _)) in * by lia. rewrite Ha in Hd. injection Hd as <-. cbn [levels lv_fileID lv_offset lv_next_offset].
    rewrite decide_True by done. apply list_lookup_insert_eq. rewrite length_insert. lia.
Qed.

Lemma move_round held fetch_time :
  exists s' new, compact_inputs cfg debug flags tls pnum held fetch_time (Z.of_nat l) r (filter (overlaps a b) next) s = Some s' /\
    new ≡ₚ us ++ in0 /\ StronglySorted table_before new /\ stores flags tls pnum s' (shifted T l fids0 ts new) /\ same_blocks s s'.
Proof.
  pose proof moving as HS. pose proof (round_in0 cfg flags tls pnum s files r ts a b Hlf Hw) as H0. pose proof (fo_len _ _ _ _ _ HF) as Hlen.
  pose proof (lookup_lt_Some _ _ _ Hus) as Hlt. pose proof (Forall2_length _ _ _ (st_files _ _ _ _ _ HT)) as Hfl. change (Z.to_nat MAX_LEVEL) with 5%nat in Hlen.
  assert (Z.to_nat (Z.of_nat l + 1) = S l) as El by lia. rewrite Hr1. unfold compact_inputs. rewrite bool_decide_eq_true_2 by done.
  rewrite (proj2 (Z.ltb_lt _ _)) by lia. cbn [andb]. unfold DirectAdjustLevel. rewrite (assert_holds debug (1 <=? Z.of_nat l)) by lia. simpl_bind.
  rewrite assert_holds by (unfold zlen; lia). simpl_bind.
  destruct (move_files_spec cfg debug flags tls pnum (Z.of_nat l) ltac:(change LEVEL_INDEX_SIZE with 4; lia) r in0 s next) as (s1 & -> & [M1 M2 M3 M4 M5]).
  { apply H0. } { apply H0. } { apply StronglySorted_filter, upper_sorted. } { apply HT. }
  { intros t [_ Ht]%in_of_elem. apply Forall_forall. intros v Hv. apply (st_blocks _ _ _ _ _ HT t v); [by eapply (tree_elem T l ts)|done]. }
  { by rewrite El. }
  simpl_bind. rewrite M4, El, list_lookup_insert_eq by lia. simpl_bind. rewrite insert_twice.
  rewrite (RemoveCache_drops _ 0 _ _ files); [|lia|left; lia|cbn; rewrite list_lookup_insert_ne by lia; by rewrite Nat2Z.id]. simpl_bind.
  rewrite (proj2 (Z.eqb_neq _ _)) by lia. cbn [with_files fileMetaCache_ vid_to_mullevelIndex_ vertex_max_level_ sst_data]. rewrite Nat2Z.id.
  rewrite (list_insert_insert_ne _ l (S l)) by lia. set (lc := merge_sort min_key_le (next ++ r)). set (s' := with_files _ _).
  assert (Forall2 (file_holds flags tls pnum s') (next ++ r) (us ++ in0)) as Hh.
  { apply Forall2_app; [pose proof (lf_holds _ _ _ _ _ _ _ Hln) as Hf|pose proof (lf_holds _ _ _ _ _ _ _ H0) as Hf];
      (eapply Forall2_impl; [exact Hf|]); intros c t (H1 & H2 & end_ & H3 & H4); (split_and!; [done|done|]); exists end_; cbn; by rewrite M3. }
  destruct (Forall2_perm _ _ lc _ ltac:(symmetry; apply merge_sort_Permutation) Hh) as (new & Hnew & Hholds).
  pose proof (new_pair cfg flags tls pnum T l fids0 [] in0 ts us HF HS) as Hpair. rewrite out_of_nil in Hpair.
  exists s', new. split_and!; [done|by rewrite Hnew| | |exact M2].
  - eapply (sorted_by_min cfg flags tls pnum s' lc new Hholds); [..|apply StronglySorted_merge_sort; apply _| |].
    + rewrite <- Hnew. apply Forall_app. split; [apply Hln|apply H0].
    + rewrite <- Hnew, fmap_app. apply NoDup_app. split_and!; [apply Hln| |apply H0].
      intros id (t & -> & Ht)%list_elem_of_fmap (w & E & Hw')%list_elem_of_fmap. pose proof Hw' as [_ Hin]%in_of_elem.
      rewrite <- (same_id cfg flags tls pnum T HF t w) in Hw' by (done || (by eapply (tree_elem T l ts)) || (by eapply (tree_elem T (S l) us))).
      destruct (levels_differ cfg flags tls pnum T l fids0 [] in0 ts us HF HS (S l) us t Hus Ht) as [Hd _]. apply Hd; [lia|done].
    + intros t u Ht Hu. rewrite <- Hnew in Ht, Hu. by apply Hpair.
  - eapply (stores_shifted cfg flags tls pnum s s' T l fids0 [] in0 ts us new files lc HF HT HS); try done.
    + by rewrite out_of_nil, Hnew.
    + intros t _ _ _. cbn. by rewrite M3.
    + intros v Hv Hno. cbn. rewrite M5 by done. rewrite decide_False; [done|]. intros (w & Hw' & Hvw)%Exists_exists. by apply (Hno w).
    + intros v w Hv Hw' Hvw. cbn. rewrite M5 by done. rewrite decide_True by (apply Exists_exists; by exists w).
      apply (moved_index_slots v w); [done|done|done|by apply (st_wf _ _ _ _ _ HT); lia|by apply (st_index _ _ _ _ _ HT)|change (Z.to_nat LEVEL_INDEX_SIZE) with 4%nat; lia].
Qed.
End MoveRound.
