(* ===== verification/CompactionLoop.v ===== *)
(** * The loop of compaction

    [BackgroundCompaction] and [ForceCompactAllL0ToL1] on a store with a tree:
    they return, the levels end within their limits, and every point read of the
    files answers what it answered before. *)

From S2P Require Import Prelude.
From S2P Require Import Types.
From S2P Require Import DeltaFile.
From S2P Require Import DeltaStore.
From S2P Require Import SkipList.
From S2P Require Import SkipListFacts.
From S2P Require Import MemTable.
From S2P Require Import MemTableFlush.
From S2P Require Import PropertyLayout.
From S2P Require Import EdgeBody.
From S2P Require Import Sst.
From S2P Require Import SstBuild.
From S2P Require Import SstBuildFacts.
From S2P Require Import SstBuildTheorems.
From S2P Require Import DeltaMerge.
From S2P Require Import LevelIndex.
From S2P Require Import LsmRead.
From S2P Require Import LsmHistory.
From S2P Require Import SstWriter.
From S2P Require Import CompactionPick.
From S2P Require Import CompactionMerge.
From S2P Require Import CompactionOutput.
From S2P Require Import CompactionWays.
From S2P Require Import CompactionTheorems.
From S2P Require Import CompactionPublish.
From S2P Require Import CompactionReads.
From S2P Require Import CompactionClaims.
From S2P Require Import CompactionRound.
From S2P Require Import CompactionTree.
From S2P Require Import CompactionStore.
From S2P Require Import CompactionSteps.
From S2P Require Import Reopen.
From S2P Require Import ReopenFacts.


(** ** What a run may not meet *)

(** Each of the checks follows the code: it is [None] when a merge that is run
    ends with the buffer of its writer empty, which drops the last file, or draws
    an id that is not from the counter; and otherwise what the counter has
    reached. *)
Section Checks.
Context (cfg : CompactionConfig) (debug : bool) (flags : Flags) (tls : layout) (pnum : nat).

Definition inputs_end (fetch_time : nat -> Z) (level : Z) (inputs_0 inputs_1 : list SSTableCache) (s : Storage) (time : Z) : option Z :=
  if (0 <? level) && bool_decide (inputs_1 = []) then Some time
  else
    match inputs_output cfg debug flags tls pnum fetch_time level inputs_0 inputs_1 s with
    | None => Some time
    | Some o =>
        let newest := fetch_time (fetched o - 1)%nat in
        if negb (IsClear (out_writer o)) && (time <=? fetch_time 0%nat) && (newest <? INVALID_File_ID) then Some (newest + 1) else None
    end.

Context (lim : Limits) (held : nat -> gset Z) (fetch_time : nat -> nat -> Z).

Definition round_end (k : nat) (level : Z) (c : Compactor) (time : Z) : option Z :=
  match (pointer ← compact_pointer_ c !! Z.to_nat level; PickCompactioFile (fileMetaCache_ (storage c)) level true pointer) with
  | None => Some time
  | Some pick => inputs_end (fetch_time k) level (inputs_0 pick) (inputs_1 pick) (storage c) time
  end.

Fixpoint loop_end (fuel k : nat) (level : Z) (c : Compactor) (time : Z) : option Z :=
  if level_done lim level (storage c) then Some time
  else
    match fuel with
    | O => Some time
    | S fuel =>
        time ← round_end k level c time;
        match run_round cfg debug flags tls pnum held fetch_time k level c with
        | None => Some time
        | Some c => loop_end fuel (S k) (next_level lim level (storage c)) c time
        end
    end.

Definition background_end (c : Compactor) (time : Z) : option Z := loop_end (compaction_fuel (storage c)) 0 0 c time.

Definition forced_end (c : Compactor) (time : Z) : option Z :=
  match (files ← fileMetaCache_ (storage c) !! 0%nat; range ← GetRange files;
         next ← GetOverlappingInputs (fileMetaCache_ (storage c)) 1 range.1 range.2; Some (files, next)) with
  | None => Some time
  | Some (files, next) => inputs_end (fetch_time 0%nat) 0 files next (storage c) time
  end.
End Checks.

(** The ids of a round come from the counter. *)
Definition increasing (fetch_time : nat -> Z) : Prop := forall i j, (i < j)%nat -> fetch_time i < fetch_time j.
Definition ids_below (time : Z) (T : Tree) : Prop := 0 <= time /\ forall t, t ∈ concat T -> t.1 < time.

Lemma increasing_inj f : increasing f -> forall i j, f i = f j -> i = j.
Proof. intros Hf i j E. destruct (Nat.lt_trichotomy i j) as [Hl|[->|Hl]]; [|done|]; apply Hf in Hl; lia. Qed.
Lemma increasing_least f j : increasing f -> f 0%nat <= f j.
Proof. intros Hf. destruct j as [|j]; [lia|]. specialize (Hf 0%nat (S j) ltac:(lia)). lia. Qed.
Lemma increasing_most f j n : increasing f -> (j < n)%nat -> f j <= f (n - 1)%nat.
Proof. intros Hf Hj. destruct (decide (j = n - 1)%nat) as [->|]; [lia|]. specialize (Hf j (n - 1)%nat ltac:(lia)). lia. Qed.

Section Counter.
Context (cfg : CompactionConfig) (debug : bool) (flags : Flags) (tls : layout) (pnum : nat) (lim : Limits) (held : nat -> gset Z) (fetch_time : nat -> nat -> Z).
Context (Hincr : forall k, increasing (fetch_time k)).

Lemma inputs_end_ge k level r r1 s time time' : inputs_end cfg debug flags tls pnum (fetch_time k) level r r1 s time = Some time' -> time <= time'.
Proof.
  unfold inputs_end. destruct (_ && _); [intros [= <-]; lia|]. destruct (inputs_output _ _ _ _ _ _ _ _ _ _) as [o|]; [|intros [= <-]; lia]. cbn zeta.
  destruct (negb _); [|done]. destruct (Z.leb_spec time (fetch_time k 0%nat)); [|done]. destruct (_ <? _); [|done]. intros [= <-].
  pose proof (increasing_least (fetch_time k) (fetched o - 1) (Hincr k)). lia.
Qed.

Lemma loop_end_ge fuel k level c time time' : loop_end cfg debug flags tls pnum lim held fetch_time fuel k level c time = Some time' -> time <= time'.
Proof.
  revert k level c time. induction fuel as [|fuel IH]; intros k level c time; cbn [loop_end]; destruct (level_done _ _ _); try (intros [= <-]; lia).
  destruct (round_end _ _ _ _ _ _ _ _ _ _) as [t|] eqn:E; [|done]. simpl_bind.
  assert (time <= t) as Ht.
  { unfold round_end in E. destruct (pointer ← _; _) as [pick|]; [by eapply inputs_end_ge|]. injection E as <-. lia. }
  destruct (run_round _ _ _ _ _ _ _ _ _ _) as [c'|]; [intros Hend%IH|intros [= <-]]; lia.
Qed.

Lemma forced_end_ge c time time' : forced_end cfg debug flags tls pnum fetch_time c time = Some time' -> time <= time'.
Proof. unfold forced_end. destruct (files ← _; _) as [[files next]|]; [by apply inputs_end_ge|]. intros [= <-]. lia. Qed.
End Counter.

(** ** Rounds *)

(** The tree after a round that moves the counter from [time] to [time']. *)
Record follows (l : nat) (time time' : Z) (T T' : Tree) : Prop := {
  fw_edges : tree_edges (concat T') ≡ₚ tree_edges (concat T);
  fw_value : forall src dst is_out ty, tree_value T' src dst is_out ty = tree_value T src dst is_out ty;
  fw_other : forall i, i <> l -> i <> S l -> T' !! i = T !! i;
  fw_less : forall ts ts', T !! l = Some ts -> T' !! l = Some ts' -> (length ts' < length ts)%nat;
  fw_subset : forall ts ts', T !! l = Some ts -> T' !! l = Some ts' -> ts' ⊆ ts;
  fw_ids : forall t, t ∈ concat T' -> (exists u, u ∈ concat T /\ u.1 = t.1) \/ time <= t.1 < time';
  fw_time : time <= time';
  fw_newest : forall u, u ∈ concat T -> exists t, t ∈ concat T' /\ u.1 <= t.1;
}.

Lemma follows_below l time time' T T' : follows l time time' T T' -> ids_below time T -> ids_below time' T'.
Proof.
  intros Hfo [H0 Hb]. pose proof (fw_time _ _ _ _ _ Hfo) as Ht. split; [lia|]. intros t [(u & Hu & <-)|?]%(fw_ids _ _ _ _ _ Hfo); [|lia].
  specialize (Hb u Hu). lia.
Qed.

Lemma filter_fewer {A} (P : A -> Prop) `{!forall x, Decision (P x)} (xs : list A) x : x ∈ xs -> ~ P x -> (length (filter P xs) < length xs)%nat.
Proof.
  induction xs as [|y xs IH]; [by intros ?%elem_of_nil|]. intros [->|Hx]%elem_of_cons Hn.
  - rewrite filter_cons_False by done. pose proof (length_filter P xs). simpl. lia.
  - destruct (decide (P y)); [rewrite filter_cons_True by done|rewrite filter_cons_False by done]; simpl; specialize (IH Hx Hn); lia.
Qed.

Section Rounds.
Context (cfg : CompactionConfig) (debug : bool) (flags : Flags) (tls : layout) (pnum : nat).
Context (Hcfg : config_ok cfg) (Hpn : (0 < pnum)%nat)
  (Hslots : forall p, (p < pnum)%nat -> 0 < slot_len flags tls p < Z.min (PROPERTY_BUFFER_SIZE cfg) 100000).
Abbreviation forest := (forest cfg flags tls pnum).
Abbreviation stores := (stores flags tls pnum).

Lemma shift_follows l time time' T fids0 fids1 W (ts us new : list TFile) :
  forest T -> shift cfg flags tls pnum T l fids0 fids1 W ts us -> new ≡ₚ out_of fids1 us ++ W -> StronglySorted table_before new ->
  in_of fids0 ts <> [] -> time <= time' -> (forall w, w ∈ W -> w ∈ ts \/ time <= w.1 < time') ->
  (forall u, u ∈ in_of fids0 ts ++ in_of fids1 us -> exists w, w ∈ W /\ u.1 <= w.1) ->
  forest (shifted T l fids0 ts new) /\ follows l time time' T (shifted T l fids0 ts new).
Proof.
  intros HF HS Hnew Hs Hne Htime HW Hnewest. pose proof (sh_level _ _ _ _ _ _ _ _ _ _ _ HS) as Hl. pose proof (lookup_lt_Some _ _ _ (sh_next _ _ _ _ _ _ _ _ _ _ _ HS)) as Hlt.
  split; [by eapply shifted_forest|]. split.
  - by eapply shifted_edges.
  - intros. by eapply shifted_value.
  - intros i H1 H2. unfold shifted. by rewrite !list_lookup_insert_ne by done.
  - intros xs xs' E E'. rewrite Hl in E. injection E as <-. unfold shifted in E'. rewrite list_lookup_insert_ne, list_lookup_insert_eq in E' by lia. injection E' as <-.
    destruct (in_of fids0 ts) as [|t xs] eqn:Ein; [done|]. assert (t ∈ in_of fids0 ts) as [Hid Ht]%in_of_elem by (rewrite Ein; left).
    apply (filter_fewer _ ts t Ht). by intros Hn.
  - intros xs xs' E E'. rewrite Hl in E. injection E as <-. unfold shifted in E'. rewrite list_lookup_insert_ne, list_lookup_insert_eq in E' by lia. injection E' as <-.
    by intros t [_ Ht]%out_of_elem.
  - intros t Ht. destruct (shifted_perm cfg flags tls pnum T l fids0 fids1 W ts us HF HS new Hnew) as (R & Hp & Hp'). rewrite Hp' in Ht.
    apply elem_of_app in Ht as [Ht|Ht]; [|left; exists t; split; [rewrite Hp; apply elem_of_app; by right|done]].
    destruct (HW t Ht) as [Hin|?]; [left; exists t; split; [by eapply (tree_elem T l ts)|done]|by right].
  - done.
  - intros u Hu. destruct (shifted_perm cfg flags tls pnum T l fids0 fids1 W ts us HF HS new Hnew) as (R & Hp & Hp'). rewrite Hp in Hu.
    apply elem_of_app in Hu as [(w & Hw & Hle)%Hnewest|Hu]; [exists w|exists u]; (split; [rewrite Hp'; apply elem_of_app|lia]); [by left|by right].
Qed.

(** Compacting a set of files that nothing of its level overlaps. *)
Lemma inputs_follow held fetch_time s T l files next r a b time time' :
  forest T -> stores s T -> increasing fetch_time -> ids_below time T ->
  inputs_end cfg debug flags tls pnum fetch_time (Z.of_nat l) r (filter (overlaps a b) next) s time = Some time' ->
  fileMetaCache_ s !! l = Some files -> fileMetaCache_ s !! S l = Some next -> whole files r a b ->
  exists s' T' ts, compact_inputs cfg debug flags tls pnum held fetch_time (Z.of_nat l) r (filter (overlaps a b) next) s = Some s' /\
    stores s' T' /\ forest T' /\ follows l time time' T T' /\ T !! l = Some ts /\ T' !! l = Some (out_of (merged_fids r) ts) /\ same_blocks s s'.
Proof.
  intros HF HT Hincr [Htime Hbelow] Hend Hfiles Hnext Hw. pose proof (increasing_inj _ Hincr) as Hinj.
  destruct (stored_level cfg flags tls pnum s T HF HT l files Hfiles) as (ts & Hts & Hlf). destruct (stored_level cfg flags tls pnum s T HF HT (S l) next Hnext) as (us & Hus & Hln).
  pose proof (round_in0 cfg flags tls pnum s files r ts a b Hlf Hw) as H0. pose proof (lookup_lt_Some _ _ _ Hus) as Hlt.
  assert (in_of (merged_fids r) ts <> []) as Hne.
  { intros E. pose proof (Forall2_length _ _ _ (lf_holds _ _ _ _ _ _ _ H0)) as Hlen. rewrite E in Hlen. destruct r; [by pose proof (whole_range _ _ _ _ Hw)|done]. }
  assert (forall new, shifted T l (merged_fids r) ts new !! l = Some (out_of (merged_fids r) ts)) as Hat.
  { intros new. unfold shifted. rewrite list_lookup_insert_ne by lia. apply list_lookup_insert_eq. lia. }
  unfold inputs_end in Hend. destruct (decide ((0 < l)%nat /\ filter (overlaps a b) next = [])) as [[Hl Hr1]|Hn].
  - rewrite (proj2 (Z.ltb_lt _ _)), bool_decide_eq_true_2 in Hend by (done || lia). injection Hend as <-.
    destruct (move_round cfg debug flags tls pnum s T HF HT l files next r ts us a b Hfiles Hnext Hts Hus Hlf Hln Hw Hl Hr1 held fetch_time) as (s' & new & E & Hnew & Hs & Hst & Hb).
    destruct (shift_follows l time time T (merged_fids r) [] _ ts us new HF
      (moving cfg flags tls pnum s T HF l files next r ts us a b Hts Hus Hlf Hln Hw Hl Hr1)) as [Hf' Hfo]; [by rewrite out_of_nil|done|done|done| | |].
    { intros w [_ Hw']%in_of_elem. by left. }
    { intros u [Hu|[Hu _]%in_of_elem]%elem_of_app; [by exists u|by apply elem_of_nil in Hu]. }
    eexists s', _, ts. split_and!; [exact E|exact Hst|exact Hf'|exact Hfo|done|apply Hat|exact Hb].
  - assert ((0 <? Z.of_nat l) && bool_decide (filter (overlaps a b) next = []) = false) as Em.
    { apply andb_false_iff. destruct (decide (0 < l)%nat) as [Hl|]; [right; apply bool_decide_eq_false_2; intros ?; by apply Hn|left; lia]. }
    set (F := round_inputs s next r ts us a b).
    destruct (round_output cfg debug flags tls pnum s T Hcfg Hpn Hslots HF HT l files next r ts us a b Hfiles Hnext Hts Hus Hlf Hln Hw fetch_time Hinj) as (o & Eo & Hfetched & Hlast).
    rewrite Em, Eo in Hend. cbn zeta in Hend. rewrite Hfetched in Hend. fold F in Hlast, Hend. set (n := length (outputs cfg F)) in *.
    destruct (IsClear (out_writer o)); [done|]. cbn [negb andb] in Hend. destruct (Z.leb_spec time (fetch_time 0%nat)) as [Hmin|]; [|done].
    destruct (Z.ltb_spec (fetch_time (n - 1)%nat) INVALID_File_ID) as [Hmax|]; [|done]. injection Hend as <-.
    assert (forall j, time <= fetch_time j) as Hleast by (intros j; pose proof (increasing_least fetch_time j Hincr); lia).
    assert (forall j, (j < n)%nat -> fetch_time j <= fetch_time (n - 1)%nat) as Hmost by (intros j; by apply increasing_most).
    assert (forall j, (j < n)%nat -> 0 <= fetch_time j < INVALID_File_ID) as Hids by (intros j Hj; specialize (Hleast j); specialize (Hmost j Hj); lia).
    assert (forall j t, t ∈ concat T -> fetch_time j <> t.1) as Hfresh by (intros j t Ht; specialize (Hbelow t Ht); specialize (Hleast j); lia).
    destruct (merge_round cfg debug flags tls pnum s T Hcfg Hpn Hslots HF HT l files next r ts us a b Hfiles Hnext Hts Hus Hlf Hln Hw held fetch_time Hinj Hids Hfresh)
      as (s' & new & E & Hnew & Hs & Hst & Hb).
    { by apply Hlast. } { destruct (decide (l = 0%nat)); [by left|right]. intros E. apply Hn. split; [lia|done]. }
    destruct (shift_follows l time (fetch_time (n - 1)%nat + 1) T (merged_fids r) (merged_fids (filter (overlaps a b) next)) (new_files cfg fetch_time F) ts us new HF)
      as [Hf' Hfo]; [|done|done|done|specialize (Hleast (n - 1)%nat); lia| | |].
    { by apply (merge_shift cfg flags tls pnum s T HF l files next r ts us a b Hts Hus Hlf Hln Hw fetch_time Hcfg Hinj). }
    { intros w (j & Hj & E')%new_file. right. rewrite E'. specialize (Hleast j). specialize (Hmost j ltac:(by eapply lookup_lt_Some)). lia. }
    { intros u Hu. assert (u ∈ concat T) as Hin by (apply elem_of_app in Hu as [[_ Hu]%in_of_elem|[_ Hu]%in_of_elem]; [by eapply (tree_elem T l ts)|by eapply (tree_elem T (S l) us)]).
      destruct (pieces_nonempty cfg [] (merged (in_table <$> F))) as (P & lst & EP). assert (is_Some (outputs cfg F !! 0%nat)) as [vs Hvs].
      { apply lookup_lt_is_Some. unfold outputs. rewrite EP, length_app. cbn. lia. }
      exists (fetch_time 0%nat, vs). split; [apply elem_of_lookup_imap; by exists 0%nat, vs|]. specialize (Hbelow u Hin). cbn. lia. }
    eexists s', _, ts. split_and!; [exact E|exact Hst|exact Hf'|exact Hfo|done|apply Hat|exact Hb].
Qed.
End Rounds.

(** ** The pick *)
Section Pick.
Context (cfg : CompactionConfig) (flags : Flags) (tls : layout) (pnum : nat).

Lemma stored_file_ok s files ts : level_files cfg flags tls pnum s files ts -> Forall file_ok files.
Proof.
  intros Hl. apply Forall_forall. intros c Hc. destruct (lf_file _ _ _ _ _ _ _ c Hl Hc) as (t & _ & Hct & Hok & _).
  destruct (holds_ends cfg flags tls pnum s c t Hct Hok) as [Hmin _]. pose proof (holds_bounds cfg flags tls pnum s c t _ Hct Hok Hmin). unfold file_ok. lia.
Qed.

Lemma stored_separated s files ts : level_files cfg flags tls pnum s files ts -> StronglySorted table_before ts -> separated files.
Proof.
  intros Hl Hs i j f g Hij Hi Hj [H1 H2].
  assert (forall i j f g, (i < j)%nat -> files !! i = Some f -> files !! j = Some g -> file_max f < file_min g) as Hlt.
  { clear -Hl Hs. intros i j f g Hij Hi Hj. destruct (Forall2_lookup_l _ _ _ _ _ (lf_holds _ _ _ _ _ _ _ Hl) Hi) as (t & Ht & Hft).
    destruct (Forall2_lookup_l _ _ _ _ _ (lf_holds _ _ _ _ _ _ _ Hl) Hj) as (u & Hu & Hgu). pose proof (lf_ok _ _ _ _ _ _ _ Hl) as Hok. rewrite Forall_forall in Hok.
    destruct (holds_ends cfg flags tls pnum s f t Hft (Hok t ltac:(by eapply list_elem_of_lookup_2))) as [_ Hmax].
    destruct (holds_ends cfg flags tls pnum s g u Hgu (Hok u ltac:(by eapply list_elem_of_lookup_2))) as [Hmin _].
    exact (StronglySorted_lookup table_before ts i j t u Hs Hij Ht Hu _ _ Hmax Hmin). }
  pose proof (stored_file_ok s files ts Hl) as Hok. rewrite Forall_forall in Hok.
  pose proof (Hok f ltac:(by eapply list_elem_of_lookup_2)). pose proof (Hok g ltac:(by eapply list_elem_of_lookup_2)). unfold file_ok in *.
  destruct (decide (i < j)%nat); [specialize (Hlt i j f g ltac:(lia) Hi Hj)|specialize (Hlt j i g f ltac:(lia) Hj Hi)]; lia.
Qed.
End Pick.

(** ** The loop *)
Lemma getLevelMaxSize_pos level : 0 < getLevelMaxSize level.
Proof. induction level as [|level IH]; cbn [getLevelMaxSize]; unfold LEVEL_FILE_RATIO; lia. Qed.

Lemma LevelMaxSize_pos lim level : 0 < l0_auto_compaction_limit_ lim -> 0 < LevelMaxSize lim level.
Proof.
  intros H0. unfold LevelMaxSize. destruct (level =? 0); [done|]. destruct (Z.eqb_spec level 1), (Z.ltb_spec 0 (l1_auto_compaction_limit_ lim)); cbn [andb]; try done;
    apply getLevelMaxSize_pos.
Qed.

Lemma level_length cfg flags tls pnum T l ts : forest cfg flags tls pnum T -> T !! l = Some ts -> (length ts <= length (tree_edges (concat T)))%nat.
Proof.
  intros HF Hl. pose proof (fo_tables _ _ _ _ _ HF) as Hok. destruct (list_elem_of_split T ts ltac:(by eapply list_elem_of_lookup_2)) as (A & B & ->).
  rewrite concat_app in *. cbn [concat] in *. apply Forall_app in Hok as [_ [Hok _]%Forall_app].
  rewrite !tree_edges_app, !length_app. enough (length ts <= length (tree_edges ts))%nat by lia.
  clear -Hok. induction Hok as [|t ts [((Hne & _) & _ & Hf & _) _] Hok IH]; [done|]. unfold tree_edges in *. cbn [fmap list_fmap concat]. rewrite length_app. cbn [length].
  enough (0 < length (edges_in t.2))%nat by lia. destruct t.2 as [|[v [|e es]] vs]; [done|by apply Forall_cons in Hf as [? _]|]. rewrite edges_in_cons. simpl. lia.
Qed.

Lemma stored_size flags tls pnum s T l ts : stores flags tls pnum s T -> T !! l = Some ts -> level_size s (Z.of_nat l) = zlen ts.
Proof.
  intros HT Hl. destruct (Forall2_lookup_r _ _ _ _ _ (st_files _ _ _ _ _ HT) Hl) as (files & Hf & Hh). unfold level_size. rewrite Nat2Z.id, Hf. cbn.
  unfold zlen. by rewrite (Forall2_length _ _ _ Hh).
Qed.

(** What the rounds leave of ids and of level 0. *)
Record settles (time time' : Z) (T T' : Tree) : Prop := {
  se_ids : forall t, t ∈ concat T' -> (exists u, u ∈ concat T /\ u.1 = t.1) \/ time <= t.1 < time';
  se_level0 : forall ts ts', T !! 0%nat = Some ts -> T' !! 0%nat = Some ts' -> ts' ⊆ ts;
  se_time : time <= time';
  se_newest : forall u, u ∈ concat T -> exists t, t ∈ concat T' /\ u.1 <= t.1;
}.

Lemma settles_refl time T : settles time time T T.
Proof. split; [intros t Ht; left; by exists t| |done|intros u Hu; by exists u]. intros ts ts' E E'. rewrite E in E'. by injection E' as <-. Qed.

Lemma settles_follow l time time1 time' T T1 T' :
  follows l time time1 T T1 -> is_Some (T1 !! 0%nat) -> settles time1 time' T1 T' -> settles time time' T T'.
Proof.
  intros Hfo [ts1 Hts1] [H1 H2 H3 H4]. pose proof (fw_time _ _ _ _ _ Hfo) as Ht. split; [| |lia|].
  - intros t [(u & Hu & <-)|?]%H1; [|right; lia]. destruct (fw_ids _ _ _ _ _ Hfo u Hu) as [?|?]; [by left|right; lia].
  - intros ts ts' E E'. transitivity ts1; [by apply H2|]. destruct (decide (l = 0%nat)) as [->|Hl].
    + by apply (fw_subset _ _ _ _ _ Hfo).
    + rewrite (fw_other _ _ _ _ _ Hfo) in Hts1 by congruence. rewrite E in Hts1. by injection Hts1 as <-.
  - intros u (v & Hv & Hle)%(fw_newest _ _ _ _ _ Hfo). destruct (H4 v Hv) as (t & Ht' & Hle'). exists t. split; [done|lia].
Qed.

Section Loop.
Context (cfg : CompactionConfig) (debug : bool) (flags : Flags) (tls : layout) (pnum : nat).
Context (Hcfg : config_ok cfg) (Hpn : (0 < pnum)%nat)
  (Hslots : forall p, (p < pnum)%nat -> 0 < slot_len flags tls p < Z.min (PROPERTY_BUFFER_SIZE cfg) 100000).
Context (lim : Limits) (Hlim : 0 < l0_auto_compaction_limit_ lim) (held : nat -> gset Z) (fetch_time : nat -> nat -> Z)
  (Hincr : forall k, increasing (fetch_time k)).
Abbreviation forest := (forest cfg flags tls pnum).
Abbreviation stores := (stores flags tls pnum).

Definition compactable (c : Compactor) (T : Tree) : Prop :=
  forest T /\ stores (storage c) T /\ length (compact_pointer_ c) = Z.to_nat MAX_LEVEL.

Lemma round_step k l c T ts time time' :
  compactable c T -> ids_below time T -> round_end cfg debug flags tls pnum fetch_time k (Z.of_nat l) c time = Some time' ->
  (l < 4)%nat -> T !! l = Some ts -> ts <> [] ->
  exists c' T', run_round cfg debug flags tls pnum held fetch_time k (Z.of_nat l) c = Some c' /\ compactable c' T' /\ follows l time time' T T' /\ same_blocks (storage c) (storage c').
Proof.
  intros (HF & HT & Hptr) Hids Hend Hl Hts Hne. pose proof (st_files _ _ _ _ _ HT) as Hfs. pose proof (fo_len _ _ _ _ _ HF) as Hlen. change (Z.to_nat MAX_LEVEL) with 5%nat in *.
  destruct (Forall2_lookup_r _ _ _ _ _ Hfs Hts) as (files & Hfiles & Hh). destruct (lookup_lt_is_Some_2 T (S l)) as [us Hus]; [lia|].
  destruct (Forall2_lookup_r _ _ _ _ _ Hfs Hus) as (next & Hnext & _). destruct (lookup_lt_is_Some_2 (compact_pointer_ c) l) as [pointer Hp]; [lia|].
  destruct (stored_level cfg flags tls pnum _ T HF HT l files Hfiles) as (ts' & Hts' & Hlf). rewrite Hts in Hts'. injection Hts' as <-.
  destruct (picked_whole (fileMetaCache_ (storage c)) (Z.of_nat l) true pointer files) as (p & Ep & (a & b & Hw & Hin1 & _)).
  - change MAX_LEVEL with 5. lia.
  - by rewrite Nat2Z.id.
  - intros ->. apply Forall2_nil_inv_l in Hh. done.
  - by eapply stored_file_ok.
  - destruct (decide (l = 0%nat)) as [->|Hl0]; [by left|right]. apply (stored_separated cfg flags tls pnum (storage c) files ts Hlf), (fo_lower _ _ _ _ _ HF l); [lia|done].
  - replace (Z.to_nat (Z.of_nat l + 1)) with (S l) in Hin1 by lia. rewrite Hnext in Hin1. change (default [] (Some next)) with next in Hin1.
    unfold round_end in Hend. rewrite Nat2Z.id, Hp in Hend. simpl_bind in Hend. rewrite Ep, Hin1 in Hend.
    destruct (inputs_follow cfg debug flags tls pnum Hcfg Hpn Hslots (held k) (fetch_time k) (storage c) T l files next (inputs_0 p) a b time time' HF HT (Hincr k) Hids Hend Hfiles Hnext Hw)
      as (s' & T' & xs & E & HT' & HF' & Hfo & _ & _ & Hb).
    unfold run_round. rewrite Nat2Z.id, Hp. simpl_bind. rewrite Ep. simpl_bind. rewrite Hin1, E. simpl_bind. eexists _, T'. split; [done|]. split; [|done].
    split_and!; [done|done|]. cbn. by rewrite length_insert.
Qed.

Definition within (T : Tree) (i : nat) : Prop := forall ts, T !! i = Some ts -> zlen ts <= LevelMaxSize lim (Z.of_nat i).

(** While level [l] is compacted only it and the next one may be too large, and
    the next one only if this level still is. *)
Record loop_inv (l : nat) (T : Tree) : Prop := {
  inv_other : forall i, (i < 4)%nat -> (i < l \/ S l < i)%nat -> within T i;
  inv_next : (l < 3)%nat -> within T (S l) \/ exists ts, T !! l = Some ts /\ LevelMaxSize lim (Z.of_nat l) < zlen ts;
}.

Lemma inv_done l T ts : loop_inv l T -> T !! l = Some ts -> zlen ts < LevelMaxSize lim (Z.of_nat l) -> forall i, (i < 4)%nat -> within T i.
Proof.
  intros [H1 H2] Hl Hsz i Hi. destruct (decide (i = l)) as [->|Hne]; [intros xs E; rewrite Hl in E; injection E as <-; lia|].
  destruct (decide (i = S l)) as [->|Hne']; [|apply H1; lia]. destruct (H2 ltac:(lia)) as [?|(xs & E & ?)]; [done|].
  rewrite Hl in E. injection E as <-. lia.
Qed.

Lemma inv_stay l time time' T T' ts' : loop_inv l T -> follows l time time' T T' -> T' !! l = Some ts' -> LevelMaxSize lim (Z.of_nat l) < zlen ts' -> loop_inv l T'.
Proof.
  intros [H1 H2] Hfo Hl Hsz. split; [|intros _; right; by exists ts']. intros i Hi Hd ts. rewrite (fw_other _ _ _ _ _ Hfo) by lia. by apply H1.
Qed.

Lemma inv_descend l time time' T T' ts' : loop_inv l T -> follows l time time' T T' -> T' !! l = Some ts' -> zlen ts' <= LevelMaxSize lim (Z.of_nat l) -> loop_inv (S l) T'.
Proof.
  intros [H1 H2] Hfo Hl Hsz. split.
  - intros i Hi Hd ts. destruct (decide (i = l)) as [->|Hne]; [rewrite Hl; by intros [= <-]|]. rewrite (fw_other _ _ _ _ _ Hfo) by lia. apply H1; lia.
  - intros Hl3. left. intros ts. rewrite (fw_other _ _ _ _ _ Hfo) by lia. apply H1; lia.
Qed.

(** A bound on the rounds that are left. *)
Definition rounds_left (l : nat) (T : Tree) : nat :=
  ((3 - l) * S (length (tree_edges (concat T))) + length (default [] (T !! l)))%nat.

Lemma loop_spec fuel : forall k l c T time time',
  compactable c T -> ids_below time T -> loop_end cfg debug flags tls pnum lim held fetch_time fuel k (Z.of_nat l) c time = Some time' ->
  (l <= 4)%nat -> l = 4%nat \/ (rounds_left l T < fuel)%nat ->
  exists c' T', compaction_loop cfg debug flags tls pnum lim held fetch_time fuel k (Z.of_nat l) c = Some c' /\ compactable c' T' /\
    tree_edges (concat T') ≡ₚ tree_edges (concat T) /\ (forall src dst is_out ty, tree_value T' src dst is_out ty = tree_value T src dst is_out ty) /\
    (loop_inv l T -> forall i, (i < 4)%nat -> within T' i) /\ same_blocks (storage c) (storage c') /\ settles time time' T T'.
Proof.
  induction fuel as [|fuel IH]; intros k l c T time time' Hc Hids Hend Hl Hfuel; cbn [compaction_loop loop_end] in *.
  { destruct Hfuel as [->|?]; [|lia]. unfold level_done in *. replace (MAX_LEVEL <=? Z.of_nat 4 + 1) with true in * by done. rewrite orb_true_r in *. injection Hend as <-.
    exists c, T. split_and!; try done; [|apply settles_refl]. intros Hinv i Hi. apply (inv_other _ _ Hinv); lia. }
  destruct (decide (l = 4%nat)) as [->|Hl4].
  { unfold level_done in *. replace (MAX_LEVEL <=? Z.of_nat 4 + 1) with true in * by done. rewrite orb_true_r in *. injection Hend as <-.
    exists c, T. split_and!; try done; [|apply settles_refl]. intros Hinv i Hi. apply (inv_other _ _ Hinv); lia. }
  destruct Hfuel as [?|Hfuel]; [done|]. pose proof Hc as (HF & HT & _). pose proof (fo_len _ _ _ _ _ HF) as Hlen. change (Z.to_nat MAX_LEVEL) with 5%nat in Hlen.
  destruct (lookup_lt_is_Some_2 T l) as [ts Hts]; [lia|]. pose proof (stored_size flags tls pnum _ T l ts HT Hts) as Hsize.
  assert (level_done lim (Z.of_nat l) (storage c) = (zlen ts <? LevelMaxSize lim (Z.of_nat l))) as Edone.
  { unfold level_done. rewrite Hsize. pose proof (Forall2_length _ _ _ (st_files _ _ _ _ _ HT)). rewrite (proj2 (Z.leb_gt _ _)) by (unfold zlen; lia).
    rewrite (proj2 (Z.leb_gt _ _)) by (change MAX_LEVEL with 5; lia). by rewrite orb_false_r. }
  rewrite Edone in Hend |- *. destruct (Z.ltb_spec (zlen ts) (LevelMaxSize lim (Z.of_nat l))) as [Hsz|Hsz].
  { injection Hend as <-. exists c, T. split_and!; try done; [|apply settles_refl]. intros Hinv. by eapply inv_done. }
  pose proof (LevelMaxSize_pos lim (Z.of_nat l) Hlim) as Hpos.
  destruct (round_end cfg debug flags tls pnum fetch_time k (Z.of_nat l) c time) as [time1|] eqn:Eround; simpl_bind in Hend; [|done].
  destruct (round_step k l c T ts time time1) as (c1 & T1 & Erun & Hc1 & Hfo & Hb1); try done; [lia|intros ->; change (zlen (@nil TFile)) with 0 in Hsz; lia|].
  rewrite Erun in Hend |- *. simpl_bind.
  pose proof Hc1 as (HF1 & HT1 & _). pose proof (fo_len _ _ _ _ _ HF1) as Hlen1. change (Z.to_nat MAX_LEVEL) with 5%nat in Hlen1.
  destruct (lookup_lt_is_Some_2 T1 l) as [ts1 Hts1]; [lia|]. pose proof (fw_less _ _ _ _ _ Hfo ts ts1 Hts Hts1) as Hless. pose proof (fw_edges _ _ _ _ _ Hfo) as He.
  assert (length (tree_edges (concat T1)) = length (tree_edges (concat T))) as En by (by rewrite He).
  pose proof (follows_below _ _ _ _ _ Hfo Hids) as Hids1. unfold rounds_left in Hfuel. rewrite Hts in Hfuel. cbn in Hfuel.
  assert (exists l1, next_level lim (Z.of_nat l) (storage c1) = Z.of_nat l1 /\ (l1 <= 4)%nat /\ (loop_inv l T -> loop_inv l1 T1) /\ (l1 = 4%nat \/ (rounds_left l1 T1 < fuel)%nat)) as (l1 & El1 & Hl1 & Hinv1 & Hf1).
  { unfold next_level. rewrite (stored_size flags tls pnum _ T1 l ts1 HT1 Hts1). destruct (Z.ltb_spec (LevelMaxSize lim (Z.of_nat l)) (zlen ts1)).
    - exists l. split_and!; [done|done|intros Hinv; by eapply inv_stay|right]. unfold rounds_left. rewrite Hts1, En. cbn. unfold id in *. lia.
    - exists (S l). split_and!; [lia|lia|intros Hinv; by eapply inv_descend|]. destruct (decide (S l = 4%nat)) as [|Hn4]; [by left|right].
      unfold rounds_left. destruct (lookup_lt_is_Some_2 T1 (S l)) as [us Hus]; [lia|]. pose proof (level_length cfg flags tls pnum T1 (S l) us HF1 Hus). rewrite Hus, En in *. cbn. unfold id in *.
      replace (3 - l)%nat with (S (3 - S l)) in Hfuel by lia. lia. }
  rewrite El1 in Hend |- *. destruct (IH (S k) l1 c1 T1 time1 time') as (c' & T' & E & Hc' & He' & Hv' & Hw' & Hb' & Hse'); try done.
  exists c', T'. split_and!; [done|done|by rewrite He', He| |auto|unfold same_blocks in *; congruence|eapply (settles_follow l time time1 time' T T1 T'); [done|apply lookup_lt_is_Some_2; lia|done]]. intros. by rewrite Hv', (fw_value _ _ _ _ _ Hfo).
Qed.
End Loop.

Lemma Forall2_concat {A B} (R : A -> B -> Prop) xss yss : Forall2 (Forall2 R) xss yss -> Forall2 R (concat xss) (concat yss).
Proof. induction 1 as [|xs ys xss yss Hx Hf IH]; [constructor|]. cbn [concat]. by apply Forall2_app. Qed.

Lemma compaction_fuel_enough cfg flags tls pnum s T :
  forest cfg flags tls pnum T -> stores flags tls pnum s T -> (rounds_left 0 T < compaction_fuel s)%nat.
Proof.
  intros HF HT. unfold rounds_left, compaction_fuel.
  assert (length (tree_edges (concat T)) <= sum_list ((fun c => Z.to_nat (Sst.size (cache_header c))) <$> concat (fileMetaCache_ s)))%nat as Hn.
  { pose proof (Forall2_concat _ _ _ (st_files _ _ _ _ _ HT)) as Hf. revert Hf. generalize (concat (fileMetaCache_ s)) (concat T). clear. intros cs ts Hf.
    induction Hf as [|c t cs ts (Hh & _) Hf IH]; [done|]. unfold tree_edges in *. cbn [fmap list_fmap concat]. rewrite length_app, Hh, edges_in_length.
    cbn [sum_list_with ref_header Sst.size]. unfold id at 1, zlen. lia. }
  assert (length (default [] (T !! 0%nat)) <= length (tree_edges (concat T)))%nat as H0.
  { destruct (T !! 0%nat) as [ts|] eqn:E; [exact (level_length cfg flags tls pnum T 0 ts HF E)|simpl; lia]. }
  change (3 - 0)%nat with 3%nat. lia.
Qed.

(** ** Reads of the files *)
Section Answers.
Context `{StdHash} (debug : bool) (L : LsmColumns) (cfg : CompactionConfig).
Abbreviation fl := (process_flags L).
Abbreviation tls := (merge_layout L).
Abbreviation pnum := (length (sub_property_lengths_ L)).

(** [GetEdge] through the memtables [tables] and the files of the store. *)
Definition get_edge (s : Storage) (tables : list MemTable) (p : nat) (src dst : Z) (is_out : bool) (ty : Z) : option (Status * option bytes) :=
  level0 ← fileMetaCache_ s !! 0%nat;
  GetEdge debug (with_data L (sst_data s)) None (mkSnap tables level0 (entry (vid_to_mullevelIndex_ s) src)) src dst (Z.of_nat p) is_out ty.

(** The shape of the columns: what both the merge and the reads need. *)
Record columns_ok : Prop := {
  co_config : config_ok cfg;
  co_some : (0 < pnum)%nat;
  co_slots : forall p, (p < pnum)%nat -> 0 < slot_len fl tls p < Z.min (PROPERTY_BUFFER_SIZE cfg) 1024;
}.

Context (Hco : columns_ok).

Lemma merge_slots p : (p < pnum)%nat -> 0 < slot_len fl tls p < Z.min (PROPERTY_BUFFER_SIZE cfg) 100000.
Proof. intros Hp. pose proof (co_slots Hco p Hp). lia. Qed.

(** Stores whose trees answer the same are read the same. *)
Lemma same_reads s s' T T' tables p src dst is_out ty :
  forest cfg fl tls pnum T -> stores fl tls pnum s T -> forest cfg fl tls pnum T' -> stores fl tls pnum s' T' ->
  tree_edges (concat T') ≡ₚ tree_edges (concat T) -> tree_value T' src dst is_out ty = tree_value T src dst is_out ty ->
  (p < pnum)%nat -> column_fits L p T -> 0 <= src < kInvalidVertexId ->
  get_edge s' tables p src dst is_out ty = get_edge s tables p src dst is_out ty.
Proof.
  intros HF HT HF' HT' He Hv Hp Hc Hsrc. pose proof (co_slots Hco p Hp) as Hw.
  assert (column_fits L p T') as Hc' by (intros x; rewrite He; apply Hc).
  assert (forall s T, forest cfg fl tls pnum T -> stores fl tls pnum s T -> exists level0, fileMetaCache_ s !! 0%nat = Some level0) as H0.
  { intros s0 T0 HF0 HT0. apply lookup_lt_is_Some_2. rewrite (Forall2_length _ _ _ (st_files _ _ _ _ _ HT0)), (fo_len _ _ _ _ _ HF0). change (Z.to_nat MAX_LEVEL) with 5%nat. lia. }
  destruct (H0 s T HF HT) as [l0 E0], (H0 s' T' HF' HT') as [l0' E0']. unfold get_edge. rewrite E0, E0'. simpl_bind. unfold GetEdge. cbn [snap_tables].
  rewrite (stores_read debug L cfg p Hp ltac:(lia) s T HF HT Hc l0 src dst is_out ty tables E0 Hsrc).
  rewrite (stores_read debug L cfg p Hp ltac:(lia) s' T' HF' HT' Hc' l0' src dst is_out ty tables E0' Hsrc). by rewrite Hv.
Qed.

Context (lim : Limits) (held : nat -> gset Z) (fetch_time : nat -> nat -> Z) (Hincr : forall k, increasing (fetch_time k)).
Abbreviation compactable := (compactable cfg fl tls pnum).

Lemma background_spec c T time time' :
  0 < l0_auto_compaction_limit_ lim -> compactable c T -> ids_below time T ->
  background_end cfg debug fl tls pnum lim held fetch_time c time = Some time' ->
  exists c' T', BackgroundCompaction cfg debug fl tls pnum lim held fetch_time true c = Some c' /\ compactable c' T' /\
    tree_edges (concat T') ≡ₚ tree_edges (concat T) /\ (forall src dst is_out ty, tree_value T' src dst is_out ty = tree_value T src dst is_out ty) /\
    (loop_inv lim 0 T -> forall i, (i < 4)%nat -> within lim T' i) /\ same_blocks (storage c) (storage c') /\
    settles time time' T T'.
Proof.
  intros Hlim Hc Hids Hend. pose proof Hc as (HF & HT & _). unfold BackgroundCompaction.
  apply (loop_spec cfg debug fl tls pnum (co_config Hco) (co_some Hco) merge_slots lim Hlim held fetch_time Hincr (compaction_fuel (storage c)) 0 0 c T time time' Hc Hids Hend); [lia|].
  right. by eapply compaction_fuel_enough.
Qed.

Lemma within_size s T i : forest cfg fl tls pnum T -> stores fl tls pnum s T -> (i < 5)%nat -> within lim T i <-> level_size s (Z.of_nat i) <= LevelMaxSize lim (Z.of_nat i).
Proof.
  intros HF HT Hi. destruct (lookup_lt_is_Some_2 T i) as [ts Hts]; [rewrite (fo_len _ _ _ _ _ HF); exact Hi|].
  rewrite (stored_size fl tls pnum s T i ts HT Hts). unfold within. rewrite Hts. split; [auto|]. by intros Hle xs [= <-].
Qed.
End Answers.

(** ** The theorems *)


(** C5: a background compaction changes no answer. Whatever files it merges and
    moves, every [GetEdge] through the memtables and the files of the store gives
    the status and the property it gave before. The ids are drawn from an
    increasing counter, and no merge of the run ends with the buffer of its writer
    empty. *)
Theorem background_compaction_reads `{StdHash} debug (L : LsmColumns) cfg lim held fetch_time c T time time' :
  columns_ok L cfg -> 0 < l0_auto_compaction_limit_ lim ->
  compactable cfg (process_flags L) (merge_layout L) (length (sub_property_lengths_ L)) c T ->
  (forall k, increasing (fetch_time k)) -> ids_below time T ->
  background_end cfg debug (process_flags L) (merge_layout L) (length (sub_property_lengths_ L)) lim held fetch_time c time = Some time' ->
  exists c', BackgroundCompaction cfg debug (process_flags L) (merge_layout L) (length (sub_property_lengths_ L)) lim held fetch_time true c = Some c' /\
    forall tables p src dst is_out ty, (p < length (sub_property_lengths_ L))%nat -> column_fits L p T -> 0 <= src < kInvalidVertexId ->
      get_edge debug L (storage c') tables p src dst is_out ty = get_edge debug L (storage c) tables p src dst is_out ty.
Proof.
  intros Hco Hlim Hc Hincr Hids Hend.
  destruct (background_spec debug L cfg Hco lim held fetch_time Hincr c T time time' Hlim Hc Hids Hend) as (c' & T' & E & (HF' & HT' & _) & He & Hv & _).
  pose proof Hc as (HF & HT & _). exists c'. split; [done|]. intros. by eapply (same_reads debug L cfg Hco (storage c) (storage c') T T').
Qed.

Lemma out_of_all (ts : list TFile) fids : fst <$> ts = fids -> out_of fids ts = [].
Proof.
  intros <-. destruct (out_of (fst <$> ts) ts) as [|t xs] eqn:E; [done|]. exfalso.
  assert (t ∈ out_of (fst <$> ts) ts) as [Hn Ht]%out_of_elem by (rewrite E; left). by apply Hn, list_elem_of_fmap_2.
Qed.

Lemma forced_spec debug (L : LsmColumns) cfg held fetch_time c T time time' :
  columns_ok L cfg -> compactable cfg (process_flags L) (merge_layout L) (length (sub_property_lengths_ L)) c T ->
  (forall k, increasing (fetch_time k)) -> ids_below time T ->
  forced_end cfg debug (process_flags L) (merge_layout L) (length (sub_property_lengths_ L)) fetch_time c time = Some time' ->
  exists c' T', ForceCompactAllL0ToL1 cfg debug (process_flags L) (merge_layout L) (length (sub_property_lengths_ L)) held fetch_time false true c = Some (true, c') /\
    compactable cfg (process_flags L) (merge_layout L) (length (sub_property_lengths_ L)) c' T' /\
    tree_edges (concat T') ≡ₚ tree_edges (concat T) /\ (forall src dst is_out ty, tree_value T' src dst is_out ty = tree_value T src dst is_out ty) /\
    same_blocks (storage c) (storage c') /\ settles time time' T T' /\ T' !! 0%nat = Some [].
Proof.
  intros Hco (HF & HT & Hptr) Hincr Hids Hend. pose proof (fo_len _ _ _ _ _ HF) as Hlen. pose proof (st_files _ _ _ _ _ HT) as Hfs. change (Z.to_nat MAX_LEVEL) with 5%nat in *.
  destruct (lookup_lt_is_Some_2 T 0) as [ts Hts]; [lia|]. destruct (lookup_lt_is_Some_2 T 1) as [us Hus]; [lia|].
  destruct (Forall2_lookup_r _ _ _ _ _ Hfs Hts) as (files & Hfiles & Hh), (Forall2_lookup_r _ _ _ _ _ Hfs Hus) as (next & Hnext & _).
  unfold forced_end in Hend. rewrite Hfiles in Hend. simpl_bind in Hend. unfold ForceCompactAllL0ToL1. cbn [negb orb]. pose proof (Forall2_length _ _ _ Hfs). rewrite (proj2 (Z.leb_gt _ _)) by (unfold zlen; lia). rewrite Hfiles. simpl_bind.
  destruct files as [|f files].
  { simpl_bind in Hend. injection Hend as <-. exists c, T. apply Forall2_nil_inv_l in Hh as ->. split_and!; try done. apply settles_refl. }
  destruct (GetRange_nonempty (f :: files) ltac:(done)) as (a & b & Er). rewrite Er in Hend |- *. simpl_bind. simpl_bind in Hend. cbn [fst snd] in *.
  assert (GetOverlappingInputs (fileMetaCache_ (storage c)) 1 a b = Some (filter (overlaps a b) next)) as Eo
    by (exact (next_overlaps (fileMetaCache_ (storage c)) 0 ltac:(change MAX_LEVEL with 5; lia) next a b ltac:(done) Hnext)).
  rewrite Eo in Hend |- *. simpl_bind. simpl_bind in Hend.
  destruct (stored_level cfg _ _ _ _ T HF HT 0 _ Hfiles) as (ts' & Hts' & Hlf).
  assert (whole (f :: files) (f :: files) a b) as Hw.
  { destruct (GetRange_spec _ _ _ Er) as (Hin & _). split; [done|done|]. intros g Hg. split; [done|]. intros _. specialize (Hin g Hg).
    pose proof (stored_file_ok cfg _ _ _ _ _ _ Hlf) as Hok. rewrite Forall_forall in Hok. specialize (Hok g Hg). unfold file_ok, overlaps in *. lia. }
  destruct (inputs_follow cfg debug _ _ _ (co_config L cfg Hco) (co_some L cfg Hco) (merge_slots L cfg Hco) (held 0%nat) (fetch_time 0%nat) (storage c) T 0 (f :: files) next (f :: files) a b time time' HF HT (Hincr 0%nat) Hids Hend Hfiles Hnext Hw)
    as (s' & T' & xs & E & HT' & HF' & Hfo & Hxs & Hxs' & Hb). change (Z.of_nat 0) with 0 in E. rewrite E. simpl_bind. rewrite Hxs in Hts'. injection Hts' as <-.
  rewrite out_of_all in Hxs' by (by rewrite <- (lf_fids _ _ _ _ _ _ _ Hlf)).
  eexists _, T'. split_and!; [done|split; [exact HF'|split; [exact HT'|exact Hptr]]|apply (fw_edges _ _ _ _ _ Hfo)|apply (fw_value _ _ _ _ _ Hfo)|exact Hb| |done].
  eapply (settles_follow 0); [exact Hfo|by exists []|apply settles_refl].
Qed.

(** a forced compaction empties level 0 and changes no answer. *)
Theorem forced_compaction_empties_level0 `{StdHash} debug (L : LsmColumns) cfg held fetch_time c T time time' :
  columns_ok L cfg -> compactable cfg (process_flags L) (merge_layout L) (length (sub_property_lengths_ L)) c T ->
  (forall k, increasing (fetch_time k)) -> ids_below time T ->
  forced_end cfg debug (process_flags L) (merge_layout L) (length (sub_property_lengths_ L)) fetch_time c time = Some time' ->
  exists c', ForceCompactAllL0ToL1 cfg debug (process_flags L) (merge_layout L) (length (sub_property_lengths_ L)) held fetch_time false true c = Some (true, c') /\
    fileMetaCache_ (storage c') !! 0%nat = Some [] /\
    forall tables p src dst is_out ty, (p < length (sub_property_lengths_ L))%nat -> column_fits L p T -> 0 <= src < kInvalidVertexId ->
      get_edge debug L (storage c') tables p src dst is_out ty = get_edge debug L (storage c) tables p src dst is_out ty.
Proof.
  intros Hco Hc Hincr Hids Hend. destruct (forced_spec debug L cfg held fetch_time c T time time' Hco Hc Hincr Hids Hend) as (c' & T' & E & (HF' & HT' & _) & He & Hv & _ & _ & H0).
  pose proof Hc as (HF & HT & _). exists c'. split_and!; [done|..].
  - destruct (Forall2_lookup_r _ _ _ _ _ (st_files _ _ _ _ _ HT') H0) as (cs & Hcs & Hh). by apply Forall2_nil_inv_r in Hh as ->.
  - intros. by eapply (same_reads debug L cfg Hco (storage c) (storage c') T T').
Qed.

(** ** A sample

    A build with a body buffer of three edges and files of one source each, so that
    a merge refills its buffers and writes several files. *)
Definition small_config : CompactionConfig := mkConfig 4 33 (HEADER_SIZE + EDGEBODY_SIZE + sizeof Index + 1) 8.
Lemma small_config_ok : SstWriter.config_ok small_config.
Proof. split; vm_compute; split || idtac; congruence. Qed.

Definition sample_tree : Tree := [[(11, newer_vs); (10, older_vs)]; [(3, level1_vs)]; []; []; []].
Definition sample_limits : Limits := mkLimits 2 1.
Definition sample_compactor : Compactor :=
  mkCompactor (with_files sample_store [in_cache <$> sample_inputs0; in_cache <$> sample_inputs1; []; []; []]) (replicate 5 MAX_GLOBAL_SEQ) 0.
Definition sample_rounds (k j : nat) : Z := 20 + 3 * Z.of_nat k + Z.of_nat j.
Abbreviation sample_fl := (process_flags sample_columns).
Abbreviation sample_tls := (merge_layout sample_columns).

Lemma sample_tables_ok : Forall (tfile_ok small_config sample_fl sample_tls 1) (concat sample_tree).
Proof.
  pose proof sample_inputs_ok as Hok. unfold sample_files in Hok. apply Forall_app in Hok as [[[H1 _] [[H2 _] _]%Forall_cons]%Forall_cons [[H3 _] _]%Forall_cons].
  change (concat sample_tree) with [(11, newer_vs); (10, older_vs); (3, level1_vs)].
  constructor; [split; [|done]|constructor; [split; [|done]|constructor; [split; [|done]|constructor]]].
  - destruct H1 as (? & ? & ? & _). split_and!; [done|done|done|by vm_compute].
  - destruct H2 as (? & ? & ? & _). split_and!; [done|done|done|by vm_compute].
  - destruct H3 as (? & ? & ? & _). split_and!; [done|done|done|by vm_compute].
Qed.

Lemma sample_forest : forest small_config sample_fl sample_tls 1 sample_tree.
Proof.
  split.
  - done.
  - apply sample_tables_ok.
  - eval_prop.
  - intros ts [= <-]. eval_prop.
  - intros [|[|[|[|[|i]]]]] ts Hi [= <-]; [lia|repeat constructor..].
  - assert (Forall (fun t => Forall (fun u => no_newer t u) [level1_vs]) [newer_vs; older_vs]) as Hn by eval_prop. rewrite !Forall_cons in Hn.
    intros [|[|[|[|[|i]]]]] [|[|[|[|[|j]]]]] ts us t u Hij E1 E2 Ht Hu; try lia; try done; injection E1 as <-; injection E2 as <-;
      try (by apply elem_of_nil in Hu); try (by apply elem_of_nil in Ht).
    apply list_elem_of_singleton in Hu as ->. apply elem_of_cons in Ht as [->| ->%list_elem_of_singleton]; cbn; tauto.
  - eval_prop.
  - by vm_compute.
  - split; [by vm_compute|]. intros [|q] Hq; [|lia]. by vm_compute.
Qed.

Lemma sample_holds fid vs b :
  sst_data (storage sample_compactor) !! fid = Some (in_data (sample_input fid vs b)) ->
  file_holds sample_fl sample_tls 1 (storage sample_compactor) (in_cache (sample_input fid vs b)) (fid, vs).
Proof. intros Hd. split_and!; [done|done|]. exists (sentinel_body sample_fl sample_tls vs). split; [by apply constructed_pod_ok|exact Hd]. Qed.

Lemma sample_slot i v ts : (0 < i)%nat -> 0 <= v < kInvalidVertexId -> sample_tree !! i = Some ts -> slot_ok ts (entry (vid_to_mullevelIndex_ sample_store) v) (Z.of_nat i - 1) v.
Proof.
  intros Hi Hv Hts. rewrite sample_entry by lia.
  destruct i as [|[|[|[|[|i]]]]]; [lia|injection Hts as <-..|done]; repeat case_decide; subst;
    first [left; eexists (3, level1_vs), _, _; split_and!; [left|vm_compute; reflexivity|vm_compute; reflexivity]
          |right; split; [|eexists; split; [reflexivity|reflexivity]]; intros t Ht; try (by apply elem_of_nil in Ht)].
  apply list_elem_of_singleton in Ht as ->. change (v ∉ [1; 6]). set_solver.
Qed.

Lemma sample_compactable : compactable small_config sample_fl sample_tls 1 sample_compactor sample_tree.
Proof.
  split_and!; [apply sample_forest| |done]. split.
  - change (fileMetaCache_ (storage sample_compactor)) with [in_cache <$> sample_inputs0; in_cache <$> sample_inputs1; []; []; []].
    constructor; [|constructor; [|repeat constructor]].
    + constructor; [apply sample_holds; vm_compute; reflexivity|]. constructor; [apply sample_holds; vm_compute; reflexivity|constructor].
    + constructor; [apply sample_holds; vm_compute; reflexivity|constructor].
  - exact (mr_storage _ _ _ _ _ _ _ _ _ sample_ready).
  - intros v i ts Hv Hi Hts. by apply sample_slot.
  - assert (Forall (fun t : TFile => Forall (has_block sample_store) (sources_of t)) (concat sample_tree)) as Hb by (repeat constructor; by vm_compute).
    intros t v Ht Hv. rewrite Forall_forall in Hb. specialize (Hb t Ht). rewrite Forall_forall in Hb. by apply Hb.
Qed.

Lemma sample_columns_ok : columns_ok sample_columns small_config.
Proof. split; [apply small_config_ok|by vm_compute; lia|]. intros [|q] Hq; [by vm_compute|]. change (length _) with 1%nat in Hq. lia. Qed.

Lemma sample_tree_fits : column_fits sample_columns 0 sample_tree.
Proof.
  assert (Forall (fun x : Z * Edge => storable (slot_len sample_fl sample_tls 0) (field 0 x.2)) (tree_edges (concat sample_tree))) as Hall by eval_prop.
  rewrite Forall_forall in Hall. exact Hall.
Qed.

Lemma sample_increasing k : increasing (sample_rounds k).
Proof. unfold increasing, sample_rounds. lia. Qed.
Lemma sample_below : ids_below 20 sample_tree.
Proof.
  split; [lia|]. assert (Forall (fun t : TFile => t.1 < 20) (concat sample_tree)) as Hid by eval_prop. by rewrite Forall_forall in Hid.
Qed.


Lemma background_compaction_reads_witness :
  let H : StdHash := fun z => z in
  exists c', BackgroundCompaction small_config true sample_fl sample_tls 1 sample_limits (fun _ => ∅) sample_rounds true sample_compactor = Some c' /\
    get_edge true sample_columns (storage c') [] 0 1 7 true 1 = Some (kOk, Some [byte_of 65]) /\
    get_edge true sample_columns (storage c') [] 0 1 5 true 1 = Some (kDelete, None).
Proof.
  intros H.
  assert (get_edge true sample_columns (storage sample_compactor) [] 0 1 7 true 1 = Some (kOk, Some [byte_of 65])) as R1 by (vm_compute; reflexivity).
  assert (get_edge true sample_columns (storage sample_compactor) [] 0 1 5 true 1 = Some (kDelete, None)) as R2 by (vm_compute; reflexivity).
  assert (column_fits sample_columns 0 sample_tree) as Hc by apply sample_tree_fits.
  assert (0 < length (sub_property_lengths_ sample_columns))%nat as Hp by (vm_compute; lia). assert (0 <= 1 < kInvalidVertexId) as Hv by done.
  destruct (background_compaction_reads true sample_columns small_config sample_limits (fun _ => ∅) sample_rounds sample_compactor sample_tree 20 23) as (c' & E & Hr).
  - apply sample_columns_ok.
  - done.
  - apply sample_compactable.
  - apply sample_increasing.
  - apply sample_below.
  - vm_compute. reflexivity.
  - exists c'. split; [exact E|]. split; [rewrite <- R1|rewrite <- R2]; exact (Hr _ _ _ _ _ _ Hp Hc Hv).
Defined.

Lemma forced_compaction_empties_level0_witness :
  let H : StdHash := fun z => z in
  exists c', ForceCompactAllL0ToL1 small_config true sample_fl sample_tls 1 (fun _ => ∅) sample_rounds false true sample_compactor = Some (true, c') /\
    fileMetaCache_ (storage c') !! 0%nat = Some [] /\ get_edge true sample_columns (storage c') [] 0 1 7 true 1 = Some (kOk, Some [byte_of 65]).
Proof.
  intros H.
  assert (get_edge true sample_columns (storage sample_compactor) [] 0 1 7 true 1 = Some (kOk, Some [byte_of 65])) as R1 by (vm_compute; reflexivity).
  assert (column_fits sample_columns 0 sample_tree) as Hc by apply sample_tree_fits.
  assert (0 < length (sub_property_lengths_ sample_columns))%nat as Hp by (vm_compute; lia). assert (0 <= 1 < kInvalidVertexId) as Hv by done.
  destruct (forced_compaction_empties_level0 true sample_columns small_config (fun _ => ∅) sample_rounds sample_compactor sample_tree 20 23) as (c' & E & H0 & Hr).
  - apply sample_columns_ok.
  - apply sample_compactable.
  - apply sample_increasing.
  - apply sample_below.
  - vm_compute. reflexivity.
  - exists c'. split; [exact E|]. split; [exact H0|]. rewrite <- R1. exact (Hr _ _ _ _ _ _ Hp Hc Hv).
Defined.

(** The run merges the three files into one per source and moves two of them on
    to level 2. *)
Example background_sample :
  (fun c => map (map fid_of) (fileMetaCache_ (storage c))) <$>
    BackgroundCompaction small_config true sample_fl sample_tls 1 sample_limits (fun _ => ∅) sample_rounds true sample_compactor
  = Some [[]; [22]; [20; 21]; []; []].
Proof. vm_compute. reflexivity. Qed.
