(* ===== verification/LsmEngine.v ===== *)
(** * The store with its compactions

    The writer of [LsmWrite] and the compactor of [CompactionRound] on one set
    of files: writes, flushes in the order the tables filled up, background and
    forced compactions.  Whatever their order, [GetEdge] returns the last write.

    A compaction is one step of the run: the lock-free overlap of a merge with
    later flushes is not modelled.  It may start at any point, which covers both
    the [MaybeScheduleCompaction] that every flush ends with and
    [LSMStore::ForceCompactAllL0ToL1].  A flush waits while level 0 has as many
    files as start a compaction.

    The proof compares the writer with one that never compacts: both hold the
    same tables in memory, and the tree of the compacted files answers what the
    level-0 files of the other one answer. *)

From S2P Require Import Prelude.
From S2P Require Import Types.
From S2P Require Import Names.
From S2P Require Import DeltaFile.
From S2P Require Import DeltaStore.
From S2P Require Import PropertyLayout.
From S2P Require Import EdgeBody.
From S2P Require Import Sst.
From S2P Require Import SkipList.
From S2P Require Import SkipListFacts.
From S2P Require Import NeighBors.
From S2P Require Import MemTable.
From S2P Require Import MemTableFlush.
From S2P Require Import SstBuild.
From S2P Require Import SstBuildFacts.
From S2P Require Import SstBuildTheorems.
From S2P Require Import DeltaMerge.
From S2P Require Import LevelIndex.
From S2P Require Import LsmRead.
From S2P Require Import LsmHistory.
From S2P Require Import EdgeIterators.
From S2P Require Import LsmWrite.
From S2P Require Import LsmWriteFacts.
From S2P Require Import LsmWriteTheorems.
From S2P Require Import SstWriter.
From S2P Require Import CompactionPick.
From S2P Require Import CompactionMerge.
From S2P Require Import CompactionOutput.
From S2P Require Import CompactionTheorems.
From S2P Require Import CompactionPublish.
From S2P Require Import CompactionReads.
From S2P Require Import CompactionClaims.
From S2P Require Import CompactionRound.
From S2P Require Import CompactionTree.
From S2P Require Import CompactionStore.
From S2P Require Import CompactionSteps.
From S2P Require Import CompactionLoop.

(** ** The state *)
Record Engine := mkEngine {
  writer : LSMStore;
  lower_levels : list (list SSTableCache);   (** [fileMetaCache_] from level 1 on *)
  level_index : LazyArray;                   (** [vid_to_mullevelIndex_] *)
  compact_pointers : list Z;
  merge_max_key : Z;
}.

(** The compactor works on the files of the writer. *)
Definition compactor_of (e : Engine) : Compactor :=
  mkCompactor (mkStorage (level0_files (writer e) :: lower_levels e) (level_index e) (vertex_levels (writer e)) (lsm_data (writer e)))
    (compact_pointers e) (merge_max_key e).

Definition with_writer (w : LSMStore) (e : Engine) : Engine :=
  mkEngine w (lower_levels e) (level_index e) (compact_pointers e) (merge_max_key e).

(** The files of [c]; the file counter has moved on to [time]. *)
Definition with_compactor (c : Compactor) (time : Z) (e : Engine) : Engine :=
  let w := writer e in
  mkEngine
    (mkLsm (memTable_ w) (immutables w) (free_menTables w) (default [] (head (fileMetaCache_ (storage c)))) (sst_data (storage c))
       (vertex_max_level_ (storage c)) time (global_seq w) (next_topology_sequence_ w) (vertex_id_ w) (insertions w))
    (tail (fileMetaCache_ (storage c))) (vid_to_mullevelIndex_ (storage c)) (compact_pointer_ c) (last_merge_max_key_ c).

(** A compaction with the ids it draws; [time] is the file counter when it ends. *)
Inductive Action :=
| Exec (c : Command)
| Compact (held : nat -> gset Z) (fetch_time : nat -> nat -> Z) (time : Z)
| CompactAll (held : nat -> gset Z) (fetch_time : nat -> nat -> Z) (time : Z).

Section Engine.
Context `{StdHash} (debug : bool) (L : LsmColumns) (reserve_node : Z) (draws : nat -> list Z).
Context (max_subcompactions : Z) (interleave : list (list SstBuild.Write) -> list SstBuild.Write).
Context (cfg : CompactionConfig) (lim : Limits).
Abbreviation fl := (process_flags L).
Abbreviation tls := (merge_layout L).
Abbreviation pnum := (length (sub_property_lengths_ L)).

Definition exec_action (e : Engine) (a : Action) : option Engine :=
  match a with
  | Exec c =>
      w ← exec_command debug L reserve_node draws max_subcompactions interleave (l0_auto_compaction_limit_ lim) (writer e) c;
      Some (with_writer w e)
  | Compact held fetch_time time =>
      c ← BackgroundCompaction cfg debug fl tls pnum lim held fetch_time true (compactor_of e);
      Some (with_compactor c time e)
  | CompactAll held fetch_time time =>
      '(_, c) ← ForceCompactAllL0ToL1 cfg debug fl tls pnum held fetch_time false true (compactor_of e);
      Some (with_compactor c time e)
  end.

Fixpoint exec_actions (e : Engine) (acts : list Action) : option Engine :=
  match acts with [] => Some e | a :: acts => e ← exec_action e a; exec_actions e acts end.

(** The compactions that are run draw their ids from the counter, and none of
    their merges ends with an empty buffer. *)
Definition reached_by (time : Z) (reached : option Z) : bool := match reached with Some t => t <=? time | None => false end.
Definition action_ok (e : Engine) (a : Action) : bool :=
  match a with
  | Exec _ => true
  | Compact held fetch_time time =>
      reached_by time (background_end cfg debug fl tls pnum lim held fetch_time (compactor_of e) (currentTime (writer e)))
  | CompactAll held fetch_time time =>
      reached_by time (forced_end cfg debug fl tls pnum fetch_time (compactor_of e) (currentTime (writer e)))
  end.

Fixpoint actions_ok (e : Engine) (acts : list Action) : bool :=
  match acts with
  | [] => true
  | a :: acts => action_ok e a && match exec_action e a with Some e => actions_ok e acts | None => true end
  end.

Definition engine_get (e : Engine) (src dst pid : Z) (is_out : bool) (ty : Z) : option (Status * option bytes) :=
  let w := writer e in
  GetEdge debug (LsmWrite.columns L w) None (mkSnap (immutables w ++ [memTable_ w]) (level0_files w) (entry (level_index e) src)) src dst pid is_out ty.

(** [LocateEdge] and [Get_Edges] at the latest sequence, driven to its end. *)
Definition engine_snapshot (e : Engine) (src : Z) : Snapshot :=
  mkSnap (immutables (writer e) ++ [memTable_ (writer e)]) (level0_files (writer e)) (entry (level_index e) src).
Definition engine_locate (e : Engine) (src dst : Z) (is_out : bool) (ty : Z) : option (Status * LSMEdgeLocation) :=
  LocateEdge debug (LsmWrite.columns L (writer e)) (engine_snapshot e src) src dst is_out ty.
Definition engine_scan_edges (e : Engine) (src pid : Z) (is_out : bool) (ty : Z) : option (list Entry) :=
  let w := writer e in
  let fuel := insertions w in
  d ← Get_Edges debug (LsmWrite.columns L w) None src pid kMaxSequence (engine_snapshot e src) (default (-1) (vertex_levels w !! src)) is_out ty fuel;
  scan debug kMaxSequence is_out ty pid fuel d.
End Engine.

Definition new_engine (tables : nat) (capacity max_v : Z) : Engine :=
  mkEngine (new_store tables capacity) [[]; []; []; []] (ResetStorage max_v) (replicate 5 MAX_GLOBAL_SEQ) 0.

(** ** Steps of the history *)
Definition op_edges (ops : list Op) : list (Z * Edge) := (fun op : Op => (op.1.1, op.1.2)) <$> ops.
(** Tables are flushed in the order they filled up. *)
Definition in_turn (c : Command) : Prop := match c with FlushTable i => i = 0%nat | _ => True end.

Inductive act (max_v : Z) (draws : nat -> list Z) (g : Graph) : Action -> Graph -> Prop :=
| act_write c g' : step max_v draws g c g' -> in_turn c -> act max_v draws g (Exec c) g'
| act_compact held fetch_time time : (forall k, increasing (fetch_time k)) -> act max_v draws g (Compact held fetch_time time) g
| act_compact_all held fetch_time time : (forall k, increasing (fetch_time k)) -> act max_v draws g (CompactAll held fetch_time time) g.

Inductive acts (max_v : Z) (draws : nat -> list Z) (g : Graph) : list Action -> Graph -> Prop :=
| acts_nil : acts max_v draws g [] g
| acts_cons a l g' g'' : act max_v draws g a g' -> acts max_v draws g' l g'' -> acts max_v draws g (a :: l) g''.

(** ** The same tables *)
Definition same_table (m m0 : MemTable) : Prop := m0 = share_levels (vertex_max_level m0) m.

Record mirrors (w s0 : LSMStore) : Prop := {
  mi_active : same_table (memTable_ w) (memTable_ s0);
  mi_waiting : Forall2 same_table (immutables w) (immutables s0);
  mi_free : Forall2 same_table (free_menTables w) (free_menTables s0);
  mi_time : currentTime s0 = currentTime w;
  mi_seq : global_seq s0 = global_seq w;
  mi_next : next_topology_sequence_ s0 = next_topology_sequence_ w;
  mi_vertex : vertex_id_ s0 = vertex_id_ w;
  mi_count : insertions s0 = insertions w;
}.

(** What the writer does not touch. *)
Definition same_files (w w' : LSMStore) : Prop := level0_files w' = level0_files w /\ lsm_data w' = lsm_data w /\ currentTime w <= currentTime w'.

Lemma same_table_refl m : same_table m m.
Proof. by destruct m. Qed.
Lemma mirrors_refl w : mirrors w w.
Proof. split; try done; [apply same_table_refl|..]; apply Forall_Forall2_diag, Forall_true; intros; apply same_table_refl. Qed.
Lemma same_table_share m lv : same_table m (share_levels lv m).
Proof. done. Qed.

Lemma put_table debug rn m m0 src e ds m' :
  same_table m m0 -> Mem_put_edge debug rn m src e ds = Some m' -> exists m0', Mem_put_edge debug rn m0 src e ds = Some m0' /\ same_table m' m0'.
Proof.
  intros ->. unfold Mem_put_edge. cbn [share_levels vertex_adjs listLength max_edge_num src_vertex_num remain_capacity newest_edge vertex_max_level].
  destruct (NB_put_edge _ _ _ _ _) as [nb|]; [|done]. simpl_bind. destruct (assert_ _ _) as [[]|]; [|done]. simpl_bind. intros [= <-].
  eexists. split; [reflexivity|done].
Qed.

Lemma rotate_mirrors debug w s0 w' : mirrors w s0 -> rotate_table debug w = Some w' -> exists s0', rotate_table debug s0 = Some s0' /\ mirrors w' s0' /\ same_files w w'.
Proof.
  intros [H1 H2 H3 H4 H5 H6 H7 H8] E. unfold rotate_table, get_newmemTable in *. destruct H3 as [|t t0 free free0 Ht Hfree]; [done|].
  rewrite Ht. cbn [share_levels isflash islive refs]. destruct ((_ || _) && _); [|done]. unfold Mem_reset in *. cbn [share_levels refs].
  destruct (assert_ _ _) as [[]|]; [|done]. simpl_bind. simpl_bind in E. injection E as <-. eexists. split; [reflexivity|]. split.
  - split; cbn; try done; try congruence.
    + unfold same_table. cbn. by rewrite H4, H5.
    + by apply Forall2_app; [|constructor; [|constructor]].
  - split_and!; cbn; [done|done|lia].
Qed.

Lemma put_mirrors debug rn draws w s0 src dst payload is_out ty seq w' :
  mirrors w s0 -> put_single debug rn draws w src dst payload is_out ty seq = Some w' ->
  exists s0', put_single debug rn draws s0 src dst payload is_out ty seq = Some s0' /\ mirrors w' s0' /\ same_files w w'.
Proof.
  intros [H1 H2 H3 H4 H5 H6 H7 H8] E. unfold put_single in *. rewrite H1. cbn [share_levels remain_capacity]. destruct (_ <=? 0); [done|].
  cbn [share_levels set_remain max_edge_num start_time_] in *. rewrite H8.
  destruct (Mem_put_edge debug rn _ src _ _) as [m|] eqn:Em; simpl_bind in E; [|done].
  edestruct put_table as (m0 & Em0 & Hm); [|exact Em|].
  2:{ unfold share_levels, set_remain in Em0 |- *. cbn in Em0 |- *. rewrite Em0. simpl_bind. rewrite H6. destruct (1 <? _).
      - injection E as <-. eexists. split; [reflexivity|]. split; [|split_and!; cbn; lia || done]. split; cbn; try done; congruence.
      - match type of E with rotate_table _ ?w1 = _ => match goal with |- context [rotate_table debug ?s1] => destruct (rotate_mirrors debug w1 s1 w') as (s0' & E0 & Hmi & Hf) end end;
          [split; cbn; try done; congruence|exact E|]. exists s0'. split; [exact E0|]. split; [done|]. destruct Hf as (? & ? & ?). split_and!; done. }
  done.
Qed.

Lemma same_files_trans w w1 w2 : same_files w w1 -> same_files w1 w2 -> same_files w w2.
Proof. intros (? & ? & ?) (? & ? & ?). split_and!; [congruence|congruence|lia]. Qed.

Lemma init_table vid m m0 : same_table m m0 -> same_table (init_vertex_adjs vid m) (init_vertex_adjs vid m0).
Proof. by intros ->. Qed.

Lemma init_tables vid ms ms0 : Forall2 same_table ms ms0 -> Forall2 same_table (init_vertex_adjs vid <$> ms) (init_vertex_adjs vid <$> ms0).
Proof. induction 1; constructor; [by apply init_table|done]. Qed.

Lemma init_vertex_mirrors vid w s0 : mirrors w s0 -> mirrors (init_vertex vid w) (init_vertex vid s0) /\ same_files w (init_vertex vid w).
Proof.
  intros [H1 H2 H3 H4 H5 H6 H7 H8]. split; [|split_and!; done]. split; cbn; try done; [by apply init_table|by apply init_tables|by apply init_tables].
Qed.

Lemma set_vertex_mirrors n w s0 : mirrors w s0 -> mirrors (set_vertex_id n w) (set_vertex_id n s0) /\ same_files w (set_vertex_id n w).
Proof. intros [H1 H2 H3 H4 H5 H6 H7 H8]. split; [by split|split_and!; done]. Qed.

Lemma init_vertices_mirrors vids w s0 :
  mirrors w s0 -> let f := foldl (fun s vid => init_vertex vid s) in mirrors (f w vids) (f s0 vids) /\ same_files w (f w vids).
Proof.
  cbn zeta. revert w s0. induction vids as [|vid vids IH]; intros w s0 Hm; [split; [done|split_and!; done]|]. cbn [foldl].
  destruct (init_vertex_mirrors vid w s0 Hm) as [Hm1 Hf1]. destruct (IH _ _ Hm1) as [Hm2 Hf2]. split; [done|by eapply same_files_trans].
Qed.

Lemma command_mirrors `{StdHash} debug L rn draws msub inter max0 max1 w s0 c w' :
  (forall i, c <> FlushTable i) -> mirrors w s0 -> exec_command debug L rn draws msub inter max0 w c = Some w' ->
  exists s0', exec_command debug L rn draws msub inter max1 s0 c = Some s0' /\ mirrors w' s0' /\ same_files w w'.
Proof.
  intros Hc Hm E. destruct c as [src dst payload [] is_out ty seq| |next|i]; cbn [exec_command put_edge] in *; [..|by destruct (Hc i)].
  - by eapply put_mirrors.
  - destruct (put_single _ _ _ w _ _ _ _ _ _) as [w1|] eqn:E1; [|done]. simpl_bind in E. destruct (put_mirrors _ _ _ _ _ _ _ _ _ _ _ _ Hm E1) as (s1 & -> & Hm1 & Hf1).
    simpl_bind. destruct (put_mirrors _ _ _ _ _ _ _ _ _ _ _ _ Hm1 E) as (s2 & -> & Hm2 & Hf2). exists s2. split_and!; [done|done|by eapply same_files_trans].
  - injection E as <-. eexists. split; [reflexivity|]. unfold new_vertex. cbn [fst]. rewrite (mi_vertex _ _ Hm).
    destruct (set_vertex_mirrors (vertex_id_ w + 1) w s0 Hm) as [Hm1 Hf1]. destruct (init_vertex_mirrors (vertex_id_ w) _ _ Hm1) as [Hm2 Hf2].
    split; [done|by eapply same_files_trans].
  - injection E as <-. eexists. split; [reflexivity|]. unfold InitVerticesUpTo. rewrite (mi_vertex _ _ Hm).
    destruct (_ <=? _); [split; [done|split_and!; done]|].
    destruct (init_vertices_mirrors (seqZ (vertex_id_ w) (next - vertex_id_ w)) w s0 Hm) as [Hm1 Hf1].
    destruct (set_vertex_mirrors next _ _ Hm1) as [Hm2 Hf2]. split; [done|by eapply same_files_trans].
Qed.

(** ** The table of a flush *)
Lemma op_edges_app A B : op_edges (A ++ B) = op_edges A ++ op_edges B.
Proof. unfold op_edges. by rewrite fmap_app. Qed.

Lemma op_edges_elem v e ops : (v, e) ∈ op_edges ops <-> e ∈ edges_of v ops.
Proof.
  unfold op_edges, edges_of. rewrite !list_elem_of_fmap. split.
  - intros (op & [= -> ->] & Hop). exists op. by rewrite list_elem_of_filter.
  - intros (op & -> & [<- Hop]%list_elem_of_filter). by exists op.
Qed.

Lemma in_order_before A B v a b : in_order (A ++ B) -> (v, a) ∈ op_edges A -> (v, b) ∈ op_edges B -> sequence a < sequence b.
Proof.
  intros Ho Ha%op_edges_elem Hb%op_edges_elem. specialize (Ho v). rewrite edges_of_app in Ho. apply StronglySorted_app in Ho as (Hlt & _ & _). by apply Hlt.
Qed.

Lemma op_edges_distinct ops : in_order ops -> distinct_edges (op_edges ops).
Proof.
  unfold distinct_edges. induction ops as [|op ops IH] using rev_ind; intros Ho; [constructor|]. rewrite op_edges_app, fmap_app. apply NoDup_app.
  split_and!; [apply IH; by apply in_order_app in Ho as [? _]| |repeat constructor; apply not_elem_of_nil].
  intros k ([v a] & -> & Ha)%list_elem_of_fmap Hb. cbn [op_edges fmap list_fmap] in Hb. apply list_elem_of_singleton in Hb. injection Hb as E1 E2 E3. cbn in *.
  assert ((v, op.1.2) ∈ op_edges [op]) as Hop by (rewrite E1; left). pose proof (in_order_before _ _ _ _ _ Ho Ha Hop). lia.
Qed.

Lemma NoDup_fmap_inv {A B} (f : A -> B) (l : list A) : NoDup (f <$> l) -> NoDup l.
Proof.
  induction l as [|x l IH]; [constructor|]. cbn [fmap list_fmap]. intros [Hx Hl]%NoDup_cons. constructor; [|by apply IH]. intros Hin. apply Hx. by apply list_elem_of_fmap_2.
Qed.

(** The writes of a run that was flushed, as a table of the tree. *)
Lemma run_table `{StdHash} debug L rn max_v cfg r :
  let fl := process_flags L in let tls := merge_layout L in let pnum := length (sub_property_lengths_ L) in
  0 <= max_v < kInvalidVertexId -> run_repr debug L rn max_v r -> in_order (run_ops r) -> Forall (op_in max_v) (run_ops r) -> zlen (run_ops r) + 1 <= MAX_INDEX_NUM cfg ->
  table_ok cfg fl tls pnum (run_vs r) /\ edges_in (run_vs r) ≡ₚ op_edges (run_ops r) /\
  forall src dst is_out ty, table_value (run_vs r) src dst is_out ty = last_written src dst is_out ty (run_ops r).
Proof.
  cbn zeta. intros Hv ((m & Hm & Ev) & Hfl & Hsz & _) Ho Hops Hn. rewrite Forall_forall in Hops. unfold op_in in Hops.
  destruct (flush_input_spec debug rn m (run_ops r) Hm (fun src => in_order_distinct _ src Ho) (seqZ 0 max_v)) as (vs & Ev' & Hk & Hvs).
  rewrite Ev in Ev'. injection Ev' as <-. rewrite Forall_forall in Hvs. pose proof (MemTableFlush.input_ok (run_ops r) max_v (run_vs r) Hv Hops Hk Hvs) as Hin.
  pose proof (sources_bound (run_ops r) max_v (run_vs r) Hk) as Hsb.
  assert (zlen (all_edges (run_vs r)) = zlen (run_ops r)) as El.
  { transitivity (listLength m); [by eapply (input_edges debug rn m (run_ops r) max_v)|apply Hm]. }
  split_and!.
  - split_and!; [done|done| |lia]. apply Forall_forall. intros v Hv' E. destruct (Hvs v Hv') as [Hp _]. rewrite E in Hp. symmetry in Hp. apply Permutation_nil_r in Hp.
    assert (v.1 ∈ (run_vs r).*1) as Hin' by (by apply list_elem_of_fmap_2). rewrite Hk in Hin'. by apply list_elem_of_filter in Hin' as [? _].
  - symmetry. apply submseteq_length_Permutation.
    + apply NoDup_submseteq; [by eapply (NoDup_fmap_inv edge_key), op_edges_distinct|]. intros [v e] He. pose proof He as (op & [= -> ->] & Hop)%list_elem_of_fmap.
      apply op_edges_elem in He. assert (op.1.1 ∈ (run_vs r).*1) as (x & E & Hx)%list_elem_of_fmap.
      { rewrite Hk. apply list_elem_of_filter. split; [intros E; rewrite E in He; by apply elem_of_nil in He|]. apply elem_of_seqZ. destruct (Hops op Hop) as (_ & _ & ?). lia. }
      destruct x as [v es]. cbn in E. subst v. apply edges_in_elem. exists es. split; [done|]. destruct (Hvs _ Hx) as [Hp _]. cbn in Hp. by rewrite Hp.
    + rewrite edges_in_length. unfold op_edges. rewrite length_fmap. unfold zlen in El. lia.
  - intros src dst is_out ty. by apply (input_last (run_ops r) max_v).
Qed.

Lemma Forall2_within {A B} (R R' : A -> B -> Prop) l k : Forall2 R l k -> (forall x y, y ∈ k -> R x y -> R' x y) -> Forall2 R' l k.
Proof. induction 1 as [|x y l k Hxy Hf IH]; intros Hi; constructor; [apply Hi; [left|done]|]. apply IH. intros. apply Hi; [by right|done]. Qed.

(** A new table on level 0. *)
Definition with_table (t : TFile) (T : Tree) : Tree := match T with [] => [] | ts :: Ts => (t :: ts) :: Ts end.

Section NewTable.
Context (cfg : CompactionConfig) (flags : Flags) (tls : layout) (pnum : nat).
Context (T : Tree) (t : TFile) (HF : forest cfg flags tls pnum T).

Lemma tree_levels : exists ts Ts, T = ts :: Ts.
Proof. pose proof (fo_len _ _ _ _ _ HF) as Hl. destruct T as [|ts Ts]; [done|]. by exists ts, Ts. Qed.

Lemma with_table_concat : concat (with_table t T) = t :: concat T.
Proof. destruct tree_levels as (ts & Ts & ->). done. Qed.

Lemma with_table_edges : tree_edges (concat (with_table t T)) = edges_in t.2 ++ tree_edges (concat T).
Proof. by rewrite with_table_concat. Qed.

Lemma with_table_value src dst is_out ty : tree_value (with_table t T) src dst is_out ty = orelse (table_value t.2 src dst is_out ty) (tree_value T src dst is_out ty).
Proof.
  destruct tree_levels as (ts & Ts & ->). unfold tree_value, level_value. cbn [with_table fmap list_fmap]. rewrite !first_some_cons. by destruct (table_value t.2 src dst is_out ty).
Qed.

Lemma with_table_forest :
  tfile_ok cfg flags tls pnum t -> (forall u, u ∈ concat T -> u.1 <> t.1) -> (forall ts u, T !! 0%nat = Some ts -> u ∈ ts -> u.1 < t.1) ->
  (forall u, u ∈ concat T -> no_newer t.2 u.2) -> distinct_edges (edges_in t.2 ++ tree_edges (concat T)) ->
  EDGEBODY_SIZE * zlen (edges_in t.2 ++ tree_edges (concat T)) < 2 ^ 31 -> sizes_fit flags tls pnum (zlen (edges_in t.2 ++ tree_edges (concat T))) ->
  forest cfg flags tls pnum (with_table t T).
Proof.
  intros Hok Hid Hlt Hnew Hd Hs Hf. pose proof with_table_concat as Ec. pose proof with_table_edges as Ee. destruct tree_levels as (ts & Ts & ET).
  destruct HF as [F1 F2 F3 F4 F5 F6 _ _ _]. split; rewrite ?Ee; try done; rewrite ?Ec.
  - rewrite ET in *. done.
  - by constructor.
  - cbn [fmap list_fmap]. constructor; [|done]. intros (u & E & Hu)%list_elem_of_fmap. by apply (Hid u Hu).
  - rewrite ET in *. cbn [with_table]. intros xs [= <-]. constructor; [by apply F4|]. apply Forall_forall. intros u Hu. split; [|by apply (Hlt ts)].
    apply Hnew. cbn [concat]. apply elem_of_app. by left.
  - rewrite ET in *. cbn [with_table]. intros [|i] xs Hi Hxs; [lia|]. by apply (F5 (S i)).
  - rewrite ET in *. cbn [with_table]. intros i j xs ys u v Hij Hx Hy Hu Hv. destruct j as [|j]; [lia|]. destruct i as [|i].
    + injection Hx as <-. apply elem_of_cons in Hu as [->|Hu]; [|by apply (F6 0%nat (S j) ts ys)]. apply Hnew. eapply (tree_elem _ (S j)); [exact Hy|done].
    + by apply (F6 (S i) (S j) xs ys).
Qed.

Lemma with_table_stores s s' c :
  stores flags tls pnum s T -> fileMetaCache_ s' = (c :: default [] (head (fileMetaCache_ s))) :: tail (fileMetaCache_ s) ->
  vid_to_mullevelIndex_ s' = vid_to_mullevelIndex_ s ->
  sst_data s' = <[t.1 := mkSst (ref_indexes t.2) (ref_file flags tls t.2 t.1) (ref_column flags tls t.2 <$> seq 0 pnum)]> (sst_data s) ->
  cache_header c = ref_header t.2 t.1 -> cache_indexes c = ref_indexes t.2 -> (forall u, u ∈ concat T -> u.1 <> t.1) ->
  (forall v, v ∈ sources_of t -> has_block s v) -> stores flags tls pnum s' (with_table t T).
Proof.
  intros [S1 S2 S3 S4] Ef Ei Ed Hh Hix Hid Hb. pose proof with_table_concat as Ec.
  assert (forall f u, u ∈ concat T -> file_holds flags tls pnum s f u -> file_holds flags tls pnum s' f u) as Hkeep.
  { intros f u Hu (H1 & H2 & end_ & H3 & H4). split_and!; [done|done|]. exists end_. split; [done|]. rewrite Ed, lookup_insert_ne; [done|]. intros E. by apply (Hid u Hu). }
  assert (file_holds flags tls pnum s' c t) as Hc.
  { split_and!; [done|done|]. eexists. split; [|rewrite Ed, lookup_insert_eq; reflexivity]. by apply constructed_pod_ok. }
  assert (Forall2 (Forall2 (file_holds flags tls pnum s')) (fileMetaCache_ s) T) as S1'.
  { apply (Forall2_within _ _ _ _ S1). intros cs ts Hts Hf. apply (Forall2_within _ _ _ _ Hf). intros f u Hu. apply Hkeep.
    apply list_elem_of_In, in_concat. exists ts. by rewrite <- !list_elem_of_In. }
  destruct tree_levels as (ts & Ts & ET). split.
  - rewrite Ef, ET in *. apply Forall2_cons_inv_r in S1' as (cs & css & H1 & H2 & E). rewrite E. cbn [with_table head default tail]. constructor; [constructor; [exact Hc|exact H1]|exact H2].
  - unfold storage_wf. by rewrite Ei.
  - rewrite Ei. intros v [|i] xs Hv Hi Hxs; [lia|]. apply S3; [done|lia|]. rewrite ET in *. exact Hxs.
  - rewrite Ec. intros u v [->|Hu]%elem_of_cons Hv; unfold has_block; rewrite Ei; [by apply Hb|by apply (S4 u)].
Qed.
End NewTable.

(** ** The invariant *)
Lemma stores_ext flags tls pnum s s' T :
  fileMetaCache_ s' = fileMetaCache_ s -> vid_to_mullevelIndex_ s' = vid_to_mullevelIndex_ s -> sst_data s' = sst_data s ->
  stores flags tls pnum s T -> stores flags tls pnum s' T.
Proof.
  destruct s as [f i v d], s' as [f' i' v' d']. cbn. intros -> -> -> [H1 H2 H3 H4]. split; [|exact H2|exact H3|exact H4].
  eapply Forall2_impl; [exact H1|]. intros cs ts Hf. eapply Forall2_impl; [exact Hf|]. done.
Qed.

Section Coupled.
Context `{StdHash} (debug : bool) (L : LsmColumns) (reserve_node capacity max_v : Z) (draws : nat -> list Z).
Context (max_subcompactions : Z) (interleave : list (list SstBuild.Write) -> list SstBuild.Write).
Context (cfg : CompactionConfig) (lim : Limits).
Abbreviation fl := (process_flags L).
Abbreviation tls := (merge_layout L).
Abbreviation pnum := (length (sub_property_lengths_ L)).
Abbreviation level_0_max := (l0_auto_compaction_limit_ lim).
Abbreviation store_inv := (store_inv debug L reserve_node capacity max_v).
Abbreviation compactable := (compactable cfg fl tls pnum).
Context (Hcfg : LsmWriteFacts.config_ok L reserve_node capacity max_v max_subcompactions interleave).

(** The writer without compactions is [s0]; the tables of [done] are in files,
    those of [waiting] are not, and [T] is what the files hold. *)
Record coupled (e : Engine) (g : Graph) (s0 : LSMStore) (done waiting : list Closed) (ops : list Op) (T : Tree) : Prop := {
  cp_mirror : mirrors (writer e) s0;
  cp_inv : store_inv s0 (done ++ waiting) ops;
  cp_done : Forall (fun c => c_mem c = None) done;
  cp_waiting : Forall (fun c => is_Some (c_mem c)) waiting;
  cp_history : closed_ops (done ++ waiting) ++ ops = g_ops g;
  cp_vertices : vertex_id_ s0 = g_vertices g;
  cp_tree : compactable (compactor_of e) T;
  cp_edges : tree_edges (concat T) ≡ₚ op_edges (closed_ops done);
  cp_value : forall src dst is_out ty, tree_value T src dst is_out ty = last_written src dst is_out ty (closed_ops done);
  cp_ids : forall t, t ∈ concat T -> t.1 < currentTime (writer e) /\ t.1 <> fid_ (memTable_ s0) /\ Forall (fun c => t.1 <> run_fid (c_run c)) waiting;
  cp_level0 : forall ts t, T !! 0%nat = Some ts -> t ∈ ts -> exists c, c ∈ done /\ run_fid (c_run c) = t.1;
  cp_newest : forall c, c ∈ done -> exists t, t ∈ concat T /\ run_fid (c_run c) <= t.1;
  cp_blocks : forall v, 0 <= v < max_v -> has_block (storage (compactor_of e)) v;
}.

(** Steps of the writer that leave the files alone. *)
Lemma writer_coupled e g s0 done waiting ops T w' g' s0' full ops' :
  coupled e g s0 done waiting ops T -> mirrors w' s0' -> same_files (writer e) w' ->
  store_inv s0' ((done ++ waiting) ++ full) ops' -> Forall (fun c => is_Some (c_mem c) /\ run_fid (c_run c) = fid_ (memTable_ s0)) full ->
  closed_ops ((done ++ waiting) ++ full) ++ ops' = g_ops g' -> vertex_id_ s0' = g_vertices g' ->
  fid_ (memTable_ s0') = fid_ (memTable_ s0) \/ fid_ (memTable_ s0') = currentTime s0 ->
  coupled (with_writer w' e) g' s0' done (waiting ++ full) ops' T.
Proof.
  intros [C1 C2 C3 C4 C5 C6 (C7 & C7' & C7'') C8 C9 C10 C11 C12 C13] Hm (F1 & F2 & F3) Hi Hfull Hops Hv Hfid. rewrite <- app_assoc in Hi, Hops. split; try done.
  - apply Forall_app. split; [done|]. eapply Forall_impl; [exact Hfull|]. by intros c [? _].
  - split_and!; [done| |done]. eapply (stores_ext _ _ _ (storage (compactor_of e))); [..|exact C7']; cbn; congruence.
  - intros t Ht. destruct (C10 t Ht) as (I1 & I2 & I3). cbn [with_writer writer]. rewrite (mi_time _ _ C1) in Hfid. split_and!; [lia|destruct Hfid; lia|].
    apply Forall_app. split; [done|]. eapply Forall_impl; [exact Hfull|]. intros c [_ ->]. done.
Qed.

Lemma put_coupled e g s0 done waiting ops T src dst payload is_out ty seq w' :
  coupled e g s0 done waiting ops T -> accepts g (op_of draws g src dst payload is_out ty seq) ->
  put_single debug reserve_node draws (writer e) src dst payload is_out ty seq = Some w' ->
  exists s0' waiting' ops', coupled (with_writer w' e) (add_op g (op_of draws g src dst payload is_out ty seq)) s0' done waiting' ops' T.
Proof.
  intros Hc Ha E. destruct (put_mirrors _ _ _ _ _ _ _ _ _ _ _ _ (cp_mirror _ _ _ _ _ _ _ Hc) E) as (s0' & E0 & Hm & Hf).
  destruct (put_grows debug L reserve_node capacity max_v draws max_subcompactions interleave Hcfg s0 (done ++ waiting) ops g s0' src dst payload is_out ty seq
    (cp_inv _ _ _ _ _ _ _ Hc) (cp_history _ _ _ _ _ _ _ Hc) (cp_vertices _ _ _ _ _ _ _ Hc) Ha E0) as (full & ops' & Hfull & Hi & Hops & Hv & Hfid).
  exists s0', (waiting ++ full), ops'. by eapply writer_coupled.
Qed.

Lemma quiet_coupled e g s0 done waiting ops T w' s0' n :
  coupled e g s0 done waiting ops T -> mirrors w' s0' -> same_files (writer e) w' -> store_inv s0' (done ++ waiting) ops ->
  fid_ (memTable_ s0') = fid_ (memTable_ s0) -> vertex_id_ s0' = n -> coupled (with_writer w' e) (mkGraph n (g_ops g)) s0' done waiting ops T.
Proof.
  intros Hc Hm Hf Hi Hfid Hv. rewrite <- (app_nil_r waiting). eapply writer_coupled; try done.
  - by rewrite app_nil_r.
  - rewrite app_nil_r. apply Hc.
  - by left.
Qed.

Lemma init_vertices_fid vids s : fid_ (memTable_ (foldl (fun s vid => init_vertex vid s) s vids)) = fid_ (memTable_ s).
Proof. revert s. induction vids as [|vid vids IH]; intros s; [done|]. cbn [foldl]. by rewrite IH. Qed.

Lemma command_coupled e g s0 done waiting ops T c g' w' :
  (forall i, c <> FlushTable i) -> coupled e g s0 done waiting ops T -> step max_v draws g c g' ->
  exec_command debug L reserve_node draws max_subcompactions interleave level_0_max (writer e) c = Some w' ->
  exists s0' waiting' ops', coupled (with_writer w' e) g' s0' done waiting' ops' T.
Proof.
  intros Hnf Hc Hst E. pose proof (cp_inv _ _ _ _ _ _ _ Hc) as Hi. pose proof (cp_vertices _ _ _ _ _ _ _ Hc) as Hv.
  destruct (command_mirrors debug L reserve_node draws max_subcompactions interleave level_0_max 0 _ _ _ _ Hnf (cp_mirror _ _ _ _ _ _ _ Hc) E) as (s0' & E0 & Hm & Hf).
  destruct (si_vertices _ _ _ _ _ _ _ _ Hi) as [_ Hb].
  destruct Hst as [src dst payload is_out ty seq op Ha|src dst payload is_out ty seq op op' Ha Ha'|Hlt|next Hle|i]; cbn [exec_command put_edge] in E, E0; [..|by destruct (Hnf i)].
  - by eapply put_coupled.
  - destruct (put_single _ _ _ (writer e) _ _ _ _ _ _) as [w1|] eqn:E1; [|done]. simpl_bind in E.
    destruct (put_coupled e g s0 done waiting ops T src dst payload is_out ty seq w1 Hc Ha E1) as (s1 & waiting1 & ops1 & Hc1).
    destruct (put_coupled _ _ _ _ _ _ _ dst src payload (negb is_out) ty seq w' Hc1 Ha' E) as (s2 & waiting2 & ops2 & Hc2). by exists s2, waiting2, ops2.
  - exists s0', waiting, ops. injection E0 as <-. eapply (quiet_coupled e g s0); try done; [|cbn; lia].
    pose proof (init_vertex_keeps debug L reserve_node capacity max_v s0 _ ops (vertex_id_ s0) Hi ltac:(lia)) as Hi1.
    apply (set_vertex_id_keeps debug L reserve_node capacity max_v _ _ ops (vertex_id_ s0 + 1)) in Hi1; [exact Hi1|cbn; lia].
  - exists s0', waiting, ops. injection E0 as <-. unfold InitVerticesUpTo in *. destruct (Z.leb_spec next (vertex_id_ s0)) as [Hn|Hn].
    + eapply (quiet_coupled e g s0); try done. lia.
    + destruct (init_vertices_keeps debug L reserve_node capacity max_v (seqZ (vertex_id_ s0) (next - vertex_id_ s0)) s0 _ ops Hi) as [Hi' E'].
      { apply Forall_forall. intros vid Hvid%elem_of_seqZ. lia. }
      eapply (quiet_coupled e g s0); try done; [apply set_vertex_id_keeps; [done|lia]|apply init_vertices_fid|cbn; lia].
Qed.

(** ** A flush *)

(** The sizes of the history fit the format of the files, and the ids are not
    used up. *)
Record room (e : Engine) (g : Graph) : Prop := {
  rm_bytes : EDGEBODY_SIZE * zlen (g_ops g) < 2 ^ 31;
  rm_sizes : sizes_fit fl tls pnum (zlen (g_ops g));
  rm_ids : currentTime (writer e) <= INVALID_File_ID;
}.

Lemma flush_file_shared vs n m lv : flush_file L max_subcompactions interleave fl tls n (share_levels lv m) = vs <-> flush_file L max_subcompactions interleave fl tls n m = vs.
Proof.
  assert (forall ids, flush_input (share_levels lv m) ids = flush_input m ids) as E.
  { induction ids as [|id ids IH]; [done|]. cbn [flush_input]. rewrite IH. done. }
  unfold flush_file. by rewrite E.
Qed.

Lemma flush_mirrors i w s0 w' :
  mirrors w s0 -> flush_table L max_subcompactions interleave level_0_max i w = Some w' ->
  exists m0 vs h d, immutables s0 !! i = Some m0 /\ flush_file L max_subcompactions interleave fl tls (vertex_id_ s0) m0 = Some (vs, h, d) /\
    level0_files w' = insert_file (mkCache h (start_time_ m0) (sst_indexes d)) (level0_files w) /\ lsm_data w' = <[fid_ m0 := d]> (lsm_data w) /\
    currentTime w' = currentTime w /\
    forall max1 s0', flush_table L max_subcompactions interleave max1 i s0 = Some s0' -> mirrors w' s0' /\ memTable_ s0' = memTable_ s0.
Proof.
  intros [H1 H2 H3 H4 H5 H6 H7 H8] E. unfold flush_table in E. destruct (immutables w !! i) as [m|] eqn:Em; [|done]. simpl_bind in E.
  destruct (Forall2_lookup_l _ _ _ _ _ H2 Em) as (m0 & Em0 & Hm). destruct (flush_file _ _ _ _ _ _ m) as [[[vs h] d]|] eqn:Ef; [|done]. simpl_bind in E.
  destruct (_ <=? _); [done|]. injection E as <-. exists m0, vs, h, d. rewrite Hm. rewrite H7. split_and!; try done; [by rewrite <- Hm|by apply flush_file_shared|].
  intros max1 s0'. unfold flush_table. rewrite Em0. simpl_bind. rewrite Hm, H7, (proj2 (flush_file_shared _ _ _ _) Ef). simpl_bind. destruct (_ <=? _); [done|].
  intros [= <-]. split; [|done]. split; cbn; try done.
  - by apply Forall2_delete.
  - by apply Forall2_app; [|constructor; [|constructor]].
Qed.

Lemma split_pending (A B pre post : list Closed) x :
  Forall (fun c => c_mem c = None) A -> Forall (fun c => is_Some (c_mem c)) B -> Forall (fun c => c_mem c = None) pre -> is_Some (c_mem x) ->
  A ++ B = pre ++ x :: post -> A = pre /\ B = x :: post.
Proof.
  intros HA HB Hp [m Hx]. revert pre Hp. induction HA as [|a A Ha HA IH]; intros pre Hp E; destruct Hp as [|p pre Hp Hpre]; cbn [app] in E.
  - done.
  - rewrite E in HB. apply Forall_cons in HB as [[? ?] _]. congruence.
  - injection E as -> _. congruence.
  - injection E as <- E. destruct (IH pre Hpre E) as [-> ->]. done.
Qed.

Lemma omap_none (cs : list Closed) : omap c_mem cs = [] -> Forall (fun c => c_mem c = None) cs.
Proof. induction cs as [|c cs IH]; [constructor|]. cbn [omap list_omap]. destruct (c_mem c) eqn:E; [done|]. intros Hn. constructor; [done|by apply IH]. Qed.

Section Flushed.
Context (e : Engine) (g : Graph) (s0 s1 : LSMStore) (done post : list Closed) (r : Run) (m : MemTable) (vs : Table) (ops : list Op) (T : Tree).
Abbreviation r' := (mkRun (run_fid r) (run_start r) (run_ops r) vs).
Context (Hc : coupled e g s0 done (mkClosed r (Some m) :: post) ops T) (Hroom : room e g) (Hmax : capacity + 1 <= MAX_INDEX_NUM cfg).
Context (Hrun : run_repr debug (LsmWrite.columns L s1) reserve_node max_v r').

Lemma flushed_history : g_ops g = (closed_ops done ++ run_ops r) ++ closed_ops post ++ ops.
Proof. rewrite <- (cp_history _ _ _ _ _ _ _ Hc), closed_ops_app. unfold closed_ops. cbn [fmap list_fmap concat c_run]. by rewrite <- !app_assoc. Qed.

Lemma flushed_order : in_order (closed_ops done ++ run_ops r).
Proof.
  pose proof (si_order _ _ _ _ _ _ _ _ (cp_inv _ _ _ _ _ _ _ Hc)) as Ho. rewrite (cp_history _ _ _ _ _ _ _ Hc), flushed_history in Ho. by apply in_order_app in Ho as [? _].
Qed.

Lemma flushed_ops_in : Forall (op_in max_v) (run_ops r).
Proof.
  destruct (si_vertices _ _ _ _ _ _ _ _ (cp_inv _ _ _ _ _ _ _ Hc)) as [Hv Hb]. rewrite (cp_history _ _ _ _ _ _ _ Hc), flushed_history in Hv.
  apply Forall_app in Hv as [[_ Hv]%Forall_app _]. eapply Forall_impl; [exact Hv|]. intros op (? & ? & ?). split_and!; [done|done|lia|lia].
Qed.

Lemma flushed_table :
  table_ok cfg fl tls pnum vs /\ edges_in vs ≡ₚ op_edges (run_ops r) /\ forall src dst is_out ty, table_value vs src dst is_out ty = last_written src dst is_out ty (run_ops r).
Proof.
  pose proof (si_closed _ _ _ _ _ _ _ _ (cp_inv _ _ _ _ _ _ _ Hc)) as Hcl. apply Forall_app in Hcl as [_ [(Hcap & _) _]%Forall_cons]. cbn [c_run] in Hcap.
  apply (run_table debug (LsmWrite.columns L s1) reserve_node max_v cfg r'); [apply (ok_vertices _ _ _ _ _ _ Hcfg)|done|by apply in_order_app with (1 := flushed_order)|apply flushed_ops_in|].
  cbn [run_ops]. lia.
Qed.

Lemma flushed_edges : edges_in vs ++ tree_edges (concat T) ≡ₚ op_edges (closed_ops done ++ run_ops r).
Proof. rewrite op_edges_app, (cp_edges _ _ _ _ _ _ _ Hc). destruct flushed_table as (_ & -> & _). apply Permutation_app_comm. Qed.

Lemma flushed_ids :
  0 <= run_fid r < fid_ (memTable_ s0) /\ fid_ (memTable_ s0) < currentTime (writer e) /\
  Forall (fun c => run_fid (c_run c) < run_fid r) done /\ Forall (fun c => run_fid r < run_fid (c_run c)) post.
Proof.
  pose proof (cp_inv _ _ _ _ _ _ _ Hc) as Hi. destruct (si_fids _ _ _ _ _ _ _ _ Hi) as (Hs & Hlt & Hact). rewrite <- (mi_time _ _ (cp_mirror _ _ _ _ _ _ _ Hc)).
  pose proof (si_closed _ _ _ _ _ _ _ _ Hi) as Hcl. apply Forall_app in Hcl as [_ [(_ & Hr & _) _]%Forall_cons]. apply Forall_app in Hlt as [_ [Hlt _]%Forall_cons]. cbn [c_run] in *.
  rewrite fmap_app in Hs. apply StronglySorted_app in Hs as (Hd & _ & Hs). apply StronglySorted_inv in Hs as [_ Hp]. split_and!; [lia|lia|lia|..]; apply Forall_forall; intros c Hin.
  - apply Hd; [by apply (list_elem_of_fmap_2 (fun c => run_fid (c_run c)))|left].
  - rewrite Forall_forall in Hp. apply Hp. by apply (list_elem_of_fmap_2 (fun c => run_fid (c_run c))).
Qed.

Lemma flushed_fresh u : u ∈ concat T -> u.1 <> run_fid r.
Proof. intros Hu. destruct (cp_ids _ _ _ _ _ _ _ Hc u Hu) as (_ & _ & [Hne _]%Forall_cons). done. Qed.

Lemma flushed_level0 ts u : T !! 0%nat = Some ts -> u ∈ ts -> u.1 < run_fid r.
Proof.
  intros Hts Hu. destruct (cp_level0 _ _ _ _ _ _ _ Hc ts u Hts Hu) as (c & Hin & <-). destruct flushed_ids as (_ & _ & Hd & _). rewrite Forall_forall in Hd. by apply Hd.
Qed.

Lemma flushed_forest : forest cfg fl tls pnum (with_table (run_fid r, vs) T).
Proof.
  destruct flushed_table as (Hok & He & _). pose proof flushed_edges as Hp. destruct (cp_tree _ _ _ _ _ _ _ Hc) as (HF & _). destruct flushed_ids as (Hid & Hid' & _).
  assert (zlen (edges_in vs ++ tree_edges (concat T)) <= zlen (g_ops g)) as Hlen.
  { unfold zlen. rewrite Hp, flushed_history. unfold op_edges. rewrite length_fmap, (length_app _ (closed_ops post ++ ops)). lia. }
  pose proof (zlen_nonneg (edges_in vs ++ tree_edges (concat T))). destruct Hroom as [R1 [R2 R3] R4].
  apply with_table_forest; cbn [fst snd].
  - done.
  - split; cbn [fst snd]; [done|lia].
  - apply flushed_fresh.
  - apply flushed_level0.
  - intros u Hu. apply Forall_forall. intros [v a] Ha. apply Forall_forall. intros [v' b] Hb [Hv _]. cbn in Hv |- *. subst v'. rewrite He in Ha.
    assert ((v, b) ∈ op_edges (closed_ops done)) as Hb' by (rewrite <- (cp_edges _ _ _ _ _ _ _ Hc); apply tree_edges_elem; by exists u).
    pose proof (in_order_before _ _ _ _ _ flushed_order Hb' Ha). lia.
  - unfold distinct_edges. rewrite Hp. apply op_edges_distinct, flushed_order.
  - change EDGEBODY_SIZE with 16 in *. lia.
  - split; [change EDGEBODY_SIZE with 16 in *; lia|]. intros p Hpn. destruct (R3 p Hpn). split; [done|]. nia.
Qed.

Lemma flushed_blocks v : v ∈ sources_of (run_fid r, vs) -> has_block (storage (compactor_of e)) v.
Proof.
  destruct flushed_table as ((_ & _ & Hf & _) & He & _). intros (x & Hx)%(source_edge (run_fid r, vs) v Hf). cbn [snd] in Hx. rewrite He in Hx.
  apply list_elem_of_fmap in Hx as (op & [= -> _] & Hop). pose proof flushed_ops_in as Hin. rewrite Forall_forall in Hin. destruct (Hin op Hop) as (_ & _ & ?).
  by apply (cp_blocks _ _ _ _ _ _ _ Hc).
Qed.

Lemma flushed_files w' :
  level0_files w' = insert_file (mkCache (ref_header vs (run_fid r)) (start_time_ m) (ref_indexes vs)) (level0_files (writer e)) ->
  lsm_data w' = <[run_fid r := mkSst (ref_indexes vs) (ref_file fl tls vs (run_fid r)) (ref_column fl tls vs <$> seq 0 pnum)]> (lsm_data (writer e)) ->
  compactable (compactor_of (with_writer w' e)) (with_table (run_fid r, vs) T).
Proof.
  intros E0 Ed. destruct (cp_tree _ _ _ _ _ _ _ Hc) as (HF & HT & Hptr). split_and!; [apply flushed_forest| |exact Hptr].
  eapply (with_table_stores cfg fl tls pnum T (run_fid r, vs) HF (storage (compactor_of e))); [exact HT| |done|exact Ed|..].
  - cbn [compactor_of with_writer storage fileMetaCache_ writer lower_levels head default tail]. rewrite E0. unfold id. f_equal.
    apply (insert_file_between _ [] (level0_files (writer e))); [constructor|]. apply Forall_forall. intros f Hf.
    pose proof (st_files _ _ _ _ _ HT) as Hfs. cbn [compactor_of storage fileMetaCache_] in Hfs. apply Forall2_cons_inv_l in Hfs as (ts & Ts & Hts & _ & ET).
    destruct (Forall2_elem_l _ _ _ _ Hts Hf) as (u & Hu & Hfu). rewrite (holds_stamp _ _ _ _ _ _ Hfu). apply (flushed_level0 ts); [by rewrite ET|done].
  - done.
  - done.
  - apply flushed_fresh.
  - apply flushed_blocks.
Qed.
End Flushed.

Lemma flush_coupled e g s0 done waiting ops T w' :
  capacity + 1 <= MAX_INDEX_NUM cfg -> coupled e g s0 done waiting ops T -> room e g ->
  flush_table L max_subcompactions interleave level_0_max 0 (writer e) = Some w' ->
  exists s0' done' waiting' T', coupled (with_writer w' e) g s0' done' waiting' ops T'.
Proof.
  intros Hmax Hc Hroom E. destruct (flush_mirrors _ _ _ _ (cp_mirror _ _ _ _ _ _ _ Hc) E) as (m & vs & h & d & Em & Ef & E0 & Ed & Et & Hmir).
  pose proof (cp_inv _ _ _ _ _ _ _ Hc) as Hi.
  destruct (flush_keeps debug L reserve_node capacity max_v max_subcompactions interleave (zlen (level0_files s0) + 1) Hcfg s0 (done ++ waiting) ops 0 m Hi Em ltac:(lia))
    as (s0' & cs' & Es & Hi' & Hops & _ & Hv & _ & pre & r & post & vs' & Ecs & -> & Hpre & Hfid & Ef').
  rewrite Ef in Ef'. injection Ef' as <- -> ->. destruct (Hmir _ _ Es) as [Hm' Eact].
  destruct (split_pending done waiting pre post (mkClosed r (Some m))) as [<- ->];
    [apply Hc|apply Hc|by apply omap_none, length_zero_iff_nil|by eexists|done|]. rewrite Hfid in *. cbn [sst_indexes] in E0.
  assert (run_repr debug (LsmWrite.columns L s0') reserve_node max_v (mkRun (run_fid r) (run_start r) (run_ops r) vs)) as Hrun.
  { pose proof (si_flushed _ _ _ _ _ _ _ _ Hi') as Hfl. rewrite flushed_app in Hfl. apply Forall_app in Hfl as [_ Hfl]. by apply Forall_cons in Hfl as [Hfl _]. }
  pose proof (flushed_ids _ _ _ _ _ _ _ _ _ Hc) as (Hid & Hid' & Hlt & Hgt).
  exists s0', (done ++ [mkClosed (mkRun (run_fid r) (run_start r) (run_ops r) vs) None]), post, (with_table (run_fid r, vs) T).
  destruct (cp_tree _ _ _ _ _ _ _ Hc) as (HF & _). pose proof (cp_waiting _ _ _ _ _ _ _ Hc) as [_ Hwait]%Forall_cons.
  assert (forall w : list Closed, closed_ops (done ++ w) = closed_ops done ++ closed_ops w) as Hca by (intros; apply closed_ops_app).
  split.
  - exact Hm'.
  - by rewrite <- app_assoc.
  - apply Forall_app. split; [apply Hc|by repeat constructor].
  - exact Hwait.
  - rewrite <- app_assoc. cbn [app]. rewrite Hops. apply Hc.
  - rewrite Hv. apply Hc.
  - eapply flushed_files; done.
  - rewrite (with_table_edges cfg fl tls pnum T _ HF). cbn [snd]. erewrite flushed_edges by done. rewrite Hca. unfold closed_ops at 2. cbn. by rewrite app_nil_r.
  - intros src dst is_out ty. rewrite (with_table_value cfg fl tls pnum T _ HF). cbn [snd]. destruct (flushed_table _ _ _ _ _ _ _ _ _ _ _ Hc Hmax Hrun) as (_ & _ & ->).
    rewrite Hca, last_written_app, (cp_value _ _ _ _ _ _ _ Hc). unfold closed_ops at 1. cbn. by rewrite app_nil_r.
  - rewrite (with_table_concat cfg fl tls pnum T _ HF). cbn [with_writer writer]. rewrite Et, Eact. intros t [->|Ht]%elem_of_cons.
    + cbn [fst]. split_and!; [lia|lia|]. eapply Forall_impl; [exact Hgt|]. intros c ?. cbn beta in *. lia.
    + destruct (cp_ids _ _ _ _ _ _ _ Hc t Ht) as (? & ? & [_ ?]%Forall_cons). done.
  - destruct (tree_levels cfg fl tls pnum T HF) as (ts & Ts & ->). cbn [with_table]. intros xs t [= <-] [->|Ht]%elem_of_cons.
    + eexists. split; [apply elem_of_app; right; left|done].
    + destruct (cp_level0 _ _ _ _ _ _ _ Hc ts t eq_refl Ht) as (c & Hin & Ec). exists c. split; [apply elem_of_app; by left|done].
  - rewrite (with_table_concat cfg fl tls pnum T _ HF). intros c [Hin| ->%list_elem_of_singleton]%elem_of_app.
    + destruct (cp_newest _ _ _ _ _ _ _ Hc c Hin) as (t & Ht & Hle). exists t. split; [by right|done].
    + eexists. split; [left|done].
  - apply Hc.
Qed.

(** ** A compaction *)
Definition set_time (time : Z) (s : LSMStore) : LSMStore :=
  mkLsm (memTable_ s) (immutables s) (free_menTables s) (level0_files s) (lsm_data s) (vertex_levels s) time (global_seq s)
    (next_topology_sequence_ s) (vertex_id_ s) (insertions s).

Lemma set_time_keeps time s cs ops : store_inv s cs ops -> currentTime s <= time -> store_inv (set_time time s) cs ops.
Proof. intros [I1 I2 I3 I4 I5 I6 I7 (I8 & I8' & I8'') I9 I10 I11 I12 I13 I14] Ht. split; try done. split_and!; cbn; [done|done|lia|lia]. Qed.

Section Compacted.
Context (e : Engine) (g : Graph) (s0 : LSMStore) (done waiting : list Closed) (ops : list Op) (T : Tree).
Context (Hc : coupled e g s0 done waiting ops T).

Lemma coupled_ids : ids_below (currentTime (writer e)) T.
Proof.
  destruct (si_fids _ _ _ _ _ _ _ _ (cp_inv _ _ _ _ _ _ _ Hc)) as (_ & _ & Ht). rewrite (mi_time _ _ (cp_mirror _ _ _ _ _ _ _ Hc)) in Ht.
  split; [lia|]. intros t Hin. by destruct (cp_ids _ _ _ _ _ _ _ Hc t Hin).
Qed.

Lemma compactor_back (c : Compactor) T' time' : compactable c T' -> compactor_of (with_compactor c time' e) = c.
Proof.
  intros (HF & HT & _). pose proof (Forall2_length _ _ _ (st_files _ _ _ _ _ HT)) as Hl. rewrite (fo_len _ _ _ _ _ HF) in Hl. destruct c as [[[|fs fss] ? ? ?] ? ?]; [done|]. done.
Qed.

Lemma compacted c' T' reached time :
  reached <= time -> compactable c' T' -> tree_edges (concat T') ≡ₚ tree_edges (concat T) ->
  (forall src dst is_out ty, tree_value T' src dst is_out ty = tree_value T src dst is_out ty) -> same_blocks (storage (compactor_of e)) (storage c') ->
  settles (currentTime (writer e)) reached T T' -> coupled (with_compactor c' time e) g (set_time time s0) done waiting ops T'.
Proof.
  intros Htime Hc' He Hv Hb [S1 S2 S3 S4]. pose proof (cp_mirror _ _ _ _ _ _ _ Hc) as [M1 M2 M3 M4 M5 M6 M7 M8]. pose proof (compactor_back c' T' time Hc') as Eback.
  pose proof (cp_inv _ _ _ _ _ _ _ Hc) as Hi. destruct (si_fids _ _ _ _ _ _ _ _ Hi) as (_ & Hfids & Ht). rewrite M4 in Ht. split.
  - split; cbn; done.
  - apply set_time_keeps; [done|]. rewrite M4. lia.
  - apply Hc.
  - apply Hc.
  - apply Hc.
  - apply Hc.
  - by rewrite Eback.
  - rewrite He. apply Hc.
  - intros. rewrite Hv. apply Hc.
  - intros t Hin. cbn [with_compactor writer currentTime set_time memTable_]. destruct (S1 t Hin) as [(u & Hu & <-)|?].
    + destruct (cp_ids _ _ _ _ _ _ _ Hc u Hu) as (? & ? & ?). split_and!; [lia|done|done].
    + split_and!; [lia|lia|]. apply Forall_app in Hfids as [_ Hfids]. eapply Forall_impl; [exact Hfids|]. intros c ?. cbn beta in *. lia.
  - intros ts' t Hts' Hin. destruct (tree_levels cfg fl tls pnum T (proj1 (cp_tree _ _ _ _ _ _ _ Hc))) as (ts & Ts & ET).
    apply (cp_level0 _ _ _ _ _ _ _ Hc ts); [by rewrite ET|]. apply (S2 ts ts'); [by rewrite ET|done|done].
  - intros c Hin. destruct (cp_newest _ _ _ _ _ _ _ Hc c Hin) as (u & Hu & Hle). destruct (S4 u Hu) as (t & Ht' & Hle'). exists t. split; [done|lia].
  - intros v Hv'. destruct (cp_blocks _ _ _ _ _ _ _ Hc v Hv') as [? Hlt]. split; [done|]. rewrite Eback. unfold same_blocks in Hb. by rewrite Hb.
Qed.

(** Both compactions return. *)
Context (Hco : columns_ok L cfg) (held : nat -> gset Z) (fetch_time : nat -> nat -> Z) (Hincr : forall k, increasing (fetch_time k)) (time : Z).

Lemma background_coupled :
  0 < l0_auto_compaction_limit_ lim -> action_ok debug L cfg lim e (Compact held fetch_time time) = true ->
  exists e' s0' T', exec_action debug L reserve_node draws max_subcompactions interleave cfg lim e (Compact held fetch_time time) = Some e' /\
    coupled e' g s0' done waiting ops T'.
Proof.
  intros Hlim Hok. cbn [action_ok] in Hok. destruct (background_end _ _ _ _ _ _ _ _ _ _) as [reached|] eqn:Eend; [|done]. apply Z.leb_le in Hok.
  destruct (background_spec debug L cfg Hco lim held fetch_time Hincr (compactor_of e) T _ reached Hlim (cp_tree _ _ _ _ _ _ _ Hc) coupled_ids Eend)
    as (c' & T' & E & Hc' & He & Hv & _ & Hb & Hs).
  cbn [exec_action]. rewrite E. simpl_bind. eexists _, _, T'. split; [done|]. by eapply compacted.
Qed.

Lemma forced_coupled :
  action_ok debug L cfg lim e (CompactAll held fetch_time time) = true ->
  exists e' s0' T', exec_action debug L reserve_node draws max_subcompactions interleave cfg lim e (CompactAll held fetch_time time) = Some e' /\
    coupled e' g s0' done waiting ops T' /\ level0_files (writer e') = [].
Proof.
  intros Hok. cbn [action_ok] in Hok. destruct (forced_end _ _ _ _ _ _ _ _) as [reached|] eqn:Eend; [|done]. apply Z.leb_le in Hok.
  destruct (forced_spec debug L cfg held fetch_time (compactor_of e) T _ reached Hco (cp_tree _ _ _ _ _ _ _ Hc) Hincr coupled_ids Eend)
    as (c' & T' & E & Hc' & He & Hv & Hb & Hs & H0).
  cbn [exec_action]. rewrite E. simpl_bind. eexists _, _, T'. split_and!; [done|by eapply compacted|].
  destruct Hc' as (_ & HT & _). destruct (Forall2_lookup_r _ _ _ _ _ (st_files _ _ _ _ _ HT) H0) as (cs & Hcs & Hh). apply Forall2_nil_inv_r in Hh as ->.
  cbn [with_compactor writer level0_files]. rewrite head_lookup, Hcs. done.
Qed.
End Compacted.

(** ** Runs *)
Definition reaches (e : Engine) (g : Graph) : Prop := exists s0 done waiting ops T, coupled e g s0 done waiting ops T.
Abbreviation run := (exec_actions debug L reserve_node draws max_subcompactions interleave cfg lim).
Abbreviation run_one := (exec_action debug L reserve_node draws max_subcompactions interleave cfg lim).

Lemma command_cases c : (exists i, c = FlushTable i) \/ forall i, c <> FlushTable i.
Proof. destruct c; try (right; done). left. by eexists. Qed.

Abbreviation runs_ok := (actions_ok debug L reserve_node draws max_subcompactions interleave cfg lim).

Lemma flush_time i w w' : flush_table L max_subcompactions interleave level_0_max i w = Some w' -> currentTime w' = currentTime w.
Proof.
  unfold flush_table. destruct (immutables w !! i); [|done]. simpl_bind. destruct (flush_file _ _ _ _ _ _ _) as [[[? ?] ?]|]; [|done]. simpl_bind.
  destruct (_ <=? _); [done|]. by intros [= <-].
Qed.

Lemma command_time c w w' :
  exec_command debug L reserve_node draws max_subcompactions interleave level_0_max w c = Some w' -> currentTime w <= currentTime w'.
Proof.
  intros E. destruct (command_cases c) as [[i ->]|Hn]; [apply flush_time in E; lia|].
  destruct (command_mirrors debug L reserve_node draws max_subcompactions interleave level_0_max level_0_max w w c w') as (_ & _ & _ & _ & _ & ?); [|apply mirrors_refl|done|done]. done.
Qed.

Lemma action_time e a e' g g' : act max_v draws g a g' -> action_ok debug L cfg lim e a = true -> run_one e a = Some e' -> currentTime (writer e) <= currentTime (writer e').
Proof.
  intros Ha Hok E. destruct Ha as [c g' _ Hin|held fetch_time time Hincr|held fetch_time time Hincr]; cbn [exec_action action_ok] in E, Hok; revert E.
  - destruct (exec_command _ _ _ _ _ _ _ _ c) as [w'|] eqn:Ew; [|done]. simpl_bind. intros [= <-]. by eapply command_time.
  - destruct (background_end _ _ _ _ _ _ _ _ _ _) as [t|] eqn:Et; [|done]. apply loop_end_ge in Et; [|done]. apply Z.leb_le in Hok.
    destruct (BackgroundCompaction _ _ _ _ _ _ _ _ _ _) as [c|]; [|done]. simpl_bind. intros [= <-]. cbn. lia.
  - destruct (forced_end _ _ _ _ _ _ _ _) as [t|] eqn:Et; [|done]. apply forced_end_ge in Et; [|done]. apply Z.leb_le in Hok.
    destruct (ForceCompactAllL0ToL1 _ _ _ _ _ _ _ _ _ _) as [[b c]|]; [|done]. simpl_bind. intros [= <-]. cbn. lia.
Qed.

Lemma init_vertices_counters vids s :
  let s' := foldl (fun s vid => init_vertex vid s) s vids in
  currentTime s' = currentTime s /\ insertions s' = insertions s /\ next_topology_sequence_ s' = next_topology_sequence_ s.
Proof. revert s. induction vids as [|v vids IH]; intros s; [done|]. cbn [foldl]. destruct (IH (init_vertex v s)) as (-> & -> & ->). done. Qed.

Lemma put_count s src dst payload is_out ty seq s' : put_single debug reserve_node draws s src dst payload is_out ty seq = Some s' -> insertions s' = S (insertions s).
Proof.
  unfold put_single. destruct (_ <=? 0); [done|]. destruct (Mem_put_edge _ _ _ _ _ _) as [m|]; [|done]. simpl_bind. destruct (1 <? _); [by intros [= <-]|].
  unfold rotate_table. destruct (get_newmemTable _ _) as [[t free]|]; [|done]. simpl_bind. by intros [= <-].
Qed.

Lemma command_count s g c g' s' :
  step max_v draws g c g' -> exec_command debug L reserve_node draws max_subcompactions interleave level_0_max s c = Some s' -> Z.of_nat (insertions s') - zlen (g_ops g') = Z.of_nat (insertions s) - zlen (g_ops g).
Proof.
  intros Hst. destruct Hst as [src dst payload is_out ty seq op _|src dst payload is_out ty seq op op' _ _| |next|i]; cbn [exec_command put_edge add_op g_ops].
  - intros ->%put_count. rewrite zlen_app. unfold zlen. cbn [length]. lia.
  - destruct (put_single _ _ _ _ _ _ _ _ _ _) as [s1|] eqn:E1; [|done]. simpl_bind. intros ->%put_count. rewrite (put_count _ _ _ _ _ _ _ _ E1), !zlen_app. unfold zlen. cbn [length]. lia.
  - by intros [= <-].
  - intros [= <-]. unfold InitVerticesUpTo. destruct (_ <=? _); [done|]. cbn.
    destruct (init_vertices_counters (seqZ (vertex_id_ s) (next - vertex_id_ s)) s) as (_ & -> & _). done.
  - unfold flush_table. destruct (immutables s !! i); [|done]. simpl_bind. destruct (flush_file _ _ _ _ _ _ _) as [[[? ?] ?]|]; [|done]. simpl_bind.
    destruct (_ <=? _); [done|]. by intros [= <-].
Qed.

Lemma put_vertices s src dst payload is_out ty seq s' : put_single debug reserve_node draws s src dst payload is_out ty seq = Some s' -> vertex_id_ s' = vertex_id_ s.
Proof.
  unfold put_single. destruct (_ <=? 0); [done|]. destruct (Mem_put_edge _ _ _ _ _ _) as [m|]; [|done]. simpl_bind. destruct (1 <? _); [by intros [= <-]|].
  unfold rotate_table. destruct (get_newmemTable _ _) as [[t free]|]; [|done]. simpl_bind. by intros [= <-].
Qed.

Lemma command_vertices s g c g' s' :
  step max_v draws g c g' -> exec_command debug L reserve_node draws max_subcompactions interleave level_0_max s c = Some s' -> vertex_id_ s = g_vertices g -> vertex_id_ s' = g_vertices g'.
Proof.
  intros Hst. destruct Hst as [src dst payload is_out ty seq op _|src dst payload is_out ty seq op op' _ _| |next|i]; cbn [exec_command put_edge add_op g_vertices].
  - by intros ->%put_vertices.
  - destruct (put_single _ _ _ _ _ _ _ _ _ _) as [s1|] eqn:E1; [|done]. simpl_bind. intros ->%put_vertices. by rewrite (put_vertices _ _ _ _ _ _ _ _ E1).
  - intros [= <-] E. cbn. lia.
  - intros [= <-] E. unfold InitVerticesUpTo. destruct (Z.leb_spec next (vertex_id_ s)); cbn; lia.
  - unfold flush_table. destruct (immutables s !! i); [|done]. simpl_bind. destruct (flush_file _ _ _ _ _ _ _) as [[[? ?] ?]|]; [|done]. simpl_bind.
    destruct (_ <=? _); [done|]. by intros [= <-].
Qed.

(** The counters of the vertices and of the insertions, whatever the files. *)
Lemma action_counts e a e' g g' :
  act max_v draws g a g' -> run_one e a = Some e' -> vertex_id_ (writer e) = g_vertices g -> Z.of_nat (insertions (writer e)) = zlen (g_ops g) ->
  vertex_id_ (writer e') = g_vertices g' /\ Z.of_nat (insertions (writer e')) = zlen (g_ops g').
Proof.
  intros Ha E Hv Hn. destruct Ha as [c g' Hst _|held fetch_time time _|held fetch_time time _]; cbn [exec_action] in E.
  - destruct (exec_command _ _ _ _ _ _ _ _ c) as [w'|] eqn:Ew; [|done]. simpl_bind in E. injection E as <-. cbn [with_writer writer].
    pose proof (command_count _ _ _ _ _ Hst Ew). split; [by eapply command_vertices|lia].
  - destruct (BackgroundCompaction _ _ _ _ _ _ _ _ _ _) as [c|]; [|done]. simpl_bind in E. by injection E as <-.
  - destruct (ForceCompactAllL0ToL1 _ _ _ _ _ _ _ _ _ _) as [[b c]|]; [|done]. simpl_bind in E. by injection E as <-.
Qed.

Lemma act_grows g a g' : act max_v draws g a g' -> exists more, g_ops g' = g_ops g ++ more.
Proof.
  intros [c g1 Hst _| |]; [|by exists []; rewrite app_nil_r..]. destruct Hst; cbn [add_op g_ops]; rewrite <- ?app_assoc; try (by eexists); exists []; by rewrite app_nil_r.
Qed.

Lemma room_before e g e' g' more : room e' g' -> currentTime (writer e) <= currentTime (writer e') -> g_ops g' = g_ops g ++ more -> room e g.
Proof.
  intros [R1 [R2 R3] R4] Ht Eg. rewrite Eg, zlen_app in *. pose proof (zlen_nonneg more). pose proof (zlen_nonneg (g_ops g)). change EDGEBODY_SIZE with 16 in *.
  split; [change EDGEBODY_SIZE with 16; lia| |lia]. split; [change EDGEBODY_SIZE with 16; lia|]. intros p Hp. destruct (R3 p Hp). split; [done|]. nia.
Qed.

Context (Hco : columns_ok L cfg) (Hmax : capacity + 1 <= MAX_INDEX_NUM cfg) (Hlim : 0 < l0_auto_compaction_limit_ lim).

Lemma act_reaches e g a g' e' :
  reaches e g -> act max_v draws g a g' -> action_ok debug L cfg lim e a = true -> run_one e a = Some e' -> room e' g' -> reaches e' g'.
Proof.
  intros (s0 & done & waiting & ops & T & Hc) Ha Hok E Hr. pose proof (action_time _ _ _ _ _ Ha Hok E) as Ht. pose proof (act_grows _ _ _ Ha) as [more Hm]. pose proof (room_before _ _ _ _ _ Hr Ht Hm) as Hr0.
  destruct Ha as [c g' Hst Hin|held fetch_time time Hincr|held fetch_time time Hincr].
  - cbn [exec_action] in E. destruct (exec_command _ _ _ _ _ _ _ _ c) as [w'|] eqn:Ew; [|done]. simpl_bind in E. injection E as <-.
    destruct (command_cases c) as [[i ->]|Hn].
    + cbn in Hin. subst i. inversion Hst; subst. destruct (flush_coupled e g' s0 done waiting ops T w' Hmax Hc Hr0 Ew) as (s0' & done' & waiting' & T' & Hc'). by exists s0', done', waiting', ops, T'.
    + destruct (command_coupled e g s0 done waiting ops T c g' w') as (s0' & waiting' & ops' & Hc'); [done|done|done|done|]. by exists s0', done, waiting', ops', T.
  - destruct (background_coupled e g s0 done waiting ops T Hc Hco held fetch_time Hincr time Hlim Hok) as (e1 & s0' & T' & E1 & Hc'). rewrite E in E1. injection E1 as <-. by exists s0', done, waiting, ops, T'.
  - destruct (forced_coupled e g s0 done waiting ops T Hc Hco held fetch_time Hincr time Hok) as (e1 & s0' & T' & E1 & Hc' & _). rewrite E in E1. injection E1 as <-. by exists s0', done, waiting, ops, T'.
Qed.

Lemma runs_ok_cons e a l e1 : runs_ok e (a :: l) = true -> run_one e a = Some e1 -> action_ok debug L cfg lim e a = true /\ runs_ok e1 l = true.
Proof. cbn [actions_ok]. intros [Ha Hl]%andb_true_iff E. by rewrite E in Hl. Qed.

Lemma run_grows e g l g' e' : acts max_v draws g l g' -> runs_ok e l = true -> run e l = Some e' -> currentTime (writer e) <= currentTime (writer e') /\ exists more, g_ops g' = g_ops g ++ more.
Proof.
  intros Ha. revert e. induction Ha as [g|g a l g1 g' Ha Hl IH]; intros e Hok E; cbn [exec_actions] in E.
  - injection E as <-. split; [done|]. exists []. by rewrite app_nil_r.
  - destruct (run_one e a) as [e1|] eqn:E1; [|done]. simpl_bind in E. destruct (runs_ok_cons _ _ _ _ Hok E1) as [Hok1 Hok2].
    destruct (IH e1 Hok2 E) as [Ht [more Hm]]. pose proof (action_time _ _ _ _ _ Ha Hok1 E1). destruct (act_grows _ _ _ Ha) as [more' Hm'].
    split; [lia|]. exists (more' ++ more). by rewrite Hm, Hm', app_assoc.
Qed.

Lemma acts_reach e g l g' e' : reaches e g -> acts max_v draws g l g' -> runs_ok e l = true -> run e l = Some e' -> room e' g' -> reaches e' g'.
Proof.
  intros He Ha. revert e He. induction Ha as [g|g a l g1 g' Ha Hl IH]; intros e He Hok E Hr; cbn [exec_actions] in E; [by injection E as <-|].
  destruct (run_one e a) as [e1|] eqn:E1; [|done]. simpl_bind in E. destruct (runs_ok_cons _ _ _ _ Hok E1) as [Hok1 Hok2]. destruct (run_grows _ _ _ _ _ Hl Hok2 E) as [Ht [more Hm]].
  apply (IH e1); [|done|done|done]. eapply act_reaches; [done|done|done|done|]. by eapply room_before.
Qed.

(** The first state. *)
Lemma new_engine_reaches tables : reaches (new_engine tables capacity max_v) (mkGraph 0 []).
Proof.
  pose proof (ok_vertices _ _ _ _ _ _ Hcfg) as Hv. assert (forall (x : TFile), x ∉ concat [[]; []; []; []; []]) as Hno by (intros x; apply not_elem_of_nil).
  assert (forall i (ts : list TFile), [[]; []; []; []; []] !! i = Some ts -> ts = []) as Hemp by (intros [|[|[|[|[|i]]]]] ts [= <-]; done).
  exists (new_store tables capacity), [], [], [], [[]; []; []; []; []]. split; try done.
  - apply mirrors_refl.
  - by eapply new_store_inv.
  - split_and!; [|split|done].
    + split.
      * done.
      * constructor.
      * constructor.
      * intros ts Hts. apply (Hemp 0%nat) in Hts as ->. constructor.
      * intros i ts _ ->%Hemp. constructor.
      * intros i j ts us t u _ ->%Hemp _ Ht. by apply elem_of_nil in Ht.
      * constructor.
      * done.
      * split; [done|]. intros p Hp. destruct (ok_columns _ _ _ _ _ _ Hcfg p Hp). split; [done|]. done.
    + repeat constructor.
    + intros v _. done.
    + intros v i ts Hv' Hi Hts. right. pose proof (lookup_lt_Some _ _ _ Hts) as Hlt. apply Hemp in Hts as ->. split; [by intros t ?%elem_of_nil|].
      cbn in Hlt. destruct i as [|[|[|[|[|i]]]]]; [lia| | | | |lia]; by eexists.
    + intros t v Ht. by apply Hno in Ht.
  - intros t Ht. by apply Hno in Ht.
  - intros ts t ->%Hemp Ht. by apply elem_of_nil in Ht.
  - intros c Hin. by apply elem_of_nil in Hin.
  - intros v Hv'. split; [lia|]. cbn. apply BlockCount_covers; [lia| |done]. change kInvalidVertexId with 281474976710655 in *. change kBlockSize with 1048576. change (2 ^ 64) with 18446744073709551616. lia.
Qed.

(** ** Reads *)
Lemma reached_read e g p src dst is_out ty :
  reaches e g -> immutables (writer e) = [] -> (p < pnum)%nat -> 0 <= src < max_v ->
  Forall (fun op => storable (slot_len fl tls p) (field p op.1.2)) (g_ops g) ->
  engine_get debug L e src dst (Z.of_nat p) is_out ty = Some (status_of (field p) (last_written src dst is_out ty (g_ops g))).
Proof.
  intros (s0 & done & waiting & ops & T & Hc) Him Hp Hsrc Hst. pose proof (cp_mirror _ _ _ _ _ _ _ Hc) as Hm. pose proof (cp_inv _ _ _ _ _ _ _ Hc) as Hi.
  pose proof (co_slots _ _ Hco p Hp) as Hw. pose proof (ok_vertices _ _ _ _ _ _ Hcfg) as Hv. destruct (cp_tree _ _ _ _ _ _ _ Hc) as (HF & HT & _).
  assert (waiting = []) as ->.
  { pose proof (mi_waiting _ _ Hm) as Hw'. rewrite Him in Hw'. apply Forall2_nil_inv_l in Hw'. rewrite (si_immutables _ _ _ _ _ _ _ _ Hi), omap_app in Hw'. apply app_eq_nil in Hw' as [_ Hw'].
    pose proof (cp_waiting _ _ _ _ _ _ _ Hc) as Hall. destruct Hall as [|c cs [m Em] _]; [done|]. cbn [omap list_omap] in Hw'. by rewrite Em in Hw'. }
  pose proof (cp_history _ _ _ _ _ _ _ Hc) as Hh. pose proof (si_order _ _ _ _ _ _ _ _ Hi) as Ho. destruct (si_vertices _ _ _ _ _ _ _ _ Hi) as [Hin Hvb].
  rewrite app_nil_r in Hh, Ho, Hin. rewrite <- Hh in Hst |- *. apply in_order_app in Ho as [_ Ho].
  assert (Forall (op_ok L max_v p) (closed_ops done ++ ops)) as Hops.
  { rewrite Forall_forall in Hst, Hin. apply Forall_forall. intros op Hop. eapply op_in_ok; [by apply Hin|lia|by apply Hst]. }
  assert (column_fits L p T) as Hcf.
  { intros x. rewrite (cp_edges _ _ _ _ _ _ _ Hc). intros (op & -> & Hop)%list_elem_of_fmap. rewrite Forall_forall in Hst. apply Hst. apply elem_of_app. by left. }
  assert (mem_repr debug reserve_node (memTable_ (writer e)) ops) as Hmem.
  { pose proof (si_active _ _ _ _ _ _ _ _ Hi) as Ha. rewrite (mi_active _ _ Hm) in Ha. exact Ha. }
  unfold engine_get, GetEdge. cbn [snap_tables]. rewrite Him. cbn [app].
  rewrite (table_read debug (LsmWrite.columns L (writer e)) reserve_node max_v p Hp (memTable_ (writer e)) ops) by (done || by apply Forall_app in Hops as [_ ?]). simpl_bind.
  rewrite last_written_app. destruct (last_written src dst is_out ty ops) as [x|]; cbn [status_of]; [by destruct (marker x)|].
  rewrite <- (cp_value _ _ _ _ _ _ _ Hc).
  exact (stores_read debug L cfg p Hp ltac:(lia) (storage (compactor_of e)) T HF HT Hcf (level0_files (writer e)) src dst is_out ty [memTable_ (writer e)] eq_refl ltac:(lia)).
Qed.
End Coupled.

(** ** The theorems *)


(** C6: compactions return. In every state such a run reaches, with any readers
    holding files, a background compaction ends within its computed number of
    rounds, no assertion fails and no file is missing; a forced compaction does
    the same and leaves level 0 empty. Their ids come from the counter, and none
    of their own merges ends with the buffer of its writer empty. *)
Theorem engine_compactions_return `{StdHash} debug L reserve_node capacity max_v draws max_subcompactions interleave cfg lim
    tables actions e g held fetch_time time :
  LsmWriteFacts.config_ok L reserve_node capacity max_v max_subcompactions interleave ->
  columns_ok L cfg -> capacity + 1 <= MAX_INDEX_NUM cfg -> 0 < l0_auto_compaction_limit_ lim ->
  acts max_v draws (mkGraph 0 []) actions g ->
  exec_actions debug L reserve_node draws max_subcompactions interleave cfg lim (new_engine tables capacity max_v) actions = Some e ->
  actions_ok debug L reserve_node draws max_subcompactions interleave cfg lim (new_engine tables capacity max_v) actions = true ->
  room L e g -> (forall k, increasing (fetch_time k)) ->
  let run := exec_action debug L reserve_node draws max_subcompactions interleave cfg lim e in
  (action_ok debug L cfg lim e (Compact held fetch_time time) = true -> exists e', run (Compact held fetch_time time) = Some e') /\
  (action_ok debug L cfg lim e (CompactAll held fetch_time time) = true ->
    exists e', run (CompactAll held fetch_time time) = Some e' /\ level0_files (writer e') = []).
Proof.
  intros Hcfg Hco Hmax Hlim Ha E Hok Hr Hincr.
  destruct (acts_reach debug L reserve_node capacity max_v draws max_subcompactions interleave cfg lim Hcfg Hco Hmax Hlim (new_engine tables capacity max_v) (mkGraph 0 []) actions g e)
    as (s0 & filed & waiting & ops & T & Hc); [by eapply (new_engine_reaches debug L reserve_node capacity max_v max_subcompactions interleave cfg Hcfg)|done|done|done|done|].
  split; intros Hok'.
  - destruct (background_coupled debug L reserve_node capacity max_v draws max_subcompactions interleave cfg lim e g s0 filed waiting ops T Hc Hco held fetch_time Hincr time Hlim Hok')
      as (e1 & _ & _ & E1 & _). by exists e1.
  - destruct (forced_coupled debug L reserve_node capacity max_v draws max_subcompactions interleave cfg lim e g s0 filed waiting ops T Hc Hco held fetch_time Hincr time Hok')
      as (e2 & _ & _ & E2 & _ & H0). by exists e2.
Qed.

(** ** A run: tables flushed, compacted, written over and compacted again

    With the small build of the compaction samples: the body buffer holds three
    edges and a file one source. *)
Definition engine_limits : Limits := mkLimits 2 1.
Definition no_readers (k : nat) : gset Z := ∅.
(** Consecutive ids from [time] on; a round of the samples writes at most four files. *)
Definition ids_from (time : Z) (k j : nat) : Z := time + 4 * Z.of_nat k + Z.of_nat j.
Definition put_out (src dst : Z) (payload : bytes) (seq : Z) : Action := Exec (PutEdge src dst payload kSingle true 1 seq).
Definition engine_actions : list Action :=
  [Exec (InitVertices 4); put_out 1 2 [byte_of 65] 0; put_out 1 3 [byte_of 66] 1; Exec (FlushTable 0);
   put_out 1 2 [byte_of 67] 2; put_out 2 1 [byte_of 68] 3; Exec (FlushTable 0); Compact no_readers (ids_from 3) 5;
   put_out 1 3 (str "~DELETED~") 4; put_out 2 1 [byte_of 69] 5; Exec (FlushTable 0); CompactAll no_readers (ids_from 6) 8; put_out 3 1 [byte_of 70] 6].
Definition engine_history : list Op :=
  [(1, mkEdge 2 0 false [byte_of 65] true 1, []); (1, mkEdge 3 1 false [byte_of 66] true 1, []);
   (1, mkEdge 2 2 false [byte_of 67] true 1, []); (2, mkEdge 1 3 false [byte_of 68] true 1, []);
   (1, mkEdge 3 4 true (str "~DELETED~") true 1, []); (2, mkEdge 1 5 false [byte_of 69] true 1, []);
   (3, mkEdge 1 6 false [byte_of 70] true 1, [])].
Definition engine_run `{StdHash} (n : nat) : option Engine :=
  exec_actions true write_columns 2 (fun _ => []) 2 (@concat SstBuild.Write) small_config engine_limits (new_engine 3 2 8) (take n engine_actions).
Definition engine_end `{StdHash} : Engine := default (new_engine 3 2 8) (engine_run 13).
Definition engine_mid `{StdHash} : Engine := default (new_engine 3 2 8) (engine_run 7).

Lemma engine_columns_ok : columns_ok write_columns small_config.
Proof. split; [apply small_config_ok|by vm_compute; lia|]. intros [|q] Hq; [by vm_compute|]. change (length _) with 1%nat in Hq. lia. Qed.

Lemma ids_from_increasing time k : increasing (ids_from time k).
Proof. unfold increasing, ids_from. lia. Qed.

Ltac run_acts :=
  repeat (eapply acts_cons; [first [apply act_write; [constructor; eval_prop|done]|constructor; apply ids_from_increasing]
    |cbn [op_of add_op g_vertices g_ops app Z.max Z.compare]]);
  constructor.
Lemma engine_acts : acts 8 (fun _ => []) (mkGraph 0 []) engine_actions (mkGraph 4 engine_history).
Proof. unfold engine_actions, put_out. run_acts. Qed.
(** Up to the first compaction. *)
Lemma engine_mid_acts : acts 8 (fun _ => []) (mkGraph 0 []) (take 7 engine_actions) (mkGraph 4 (take 4 engine_history)).
Proof. unfold engine_actions, put_out. cbn [take]. run_acts. Qed.

(** The first compaction merged two flushed files into one per source and moved
    one of them to level 2; the second one merged the third flushed file into
    level 1. *)
Example engine_levels : let H : StdHash := fun z => z in
  (fun e => map (map fid_of) (level0_files (writer e) :: lower_levels e)) <$> engine_run 13 = Some [[]; [6; 7]; [3]; []; []].
Proof. vm_compute. reflexivity. Qed.

(** With more than one worker the tables need not be flushed in turn (a defect):
    the newer table reaches level 0 first, a compaction moves it below, and the
    older one arrives above it. *)
Definition late_actions : list Action :=
  [Exec (InitVertices 4); put_out 1 2 [byte_of 65] 0; put_out 1 3 [byte_of 66] 1; put_out 1 2 [byte_of 67] 2; put_out 2 1 [byte_of 68] 3;
   Exec (FlushTable 1); CompactAll no_readers (ids_from 3) 5; Exec (FlushTable 0)].
Example late_flush_wins : let H : StdHash := fun z => z in
  (e ← exec_actions true write_columns 2 (fun _ => []) 2 (@concat SstBuild.Write) small_config engine_limits (new_engine 3 2 8) late_actions;
   engine_get true write_columns e 1 2 0 true 1) = Some (kOk, Some [byte_of 65]).
Proof. vm_compute. reflexivity. Qed.

Lemma engine_run_ok : let H : StdHash := fun z => z in
  actions_ok true write_columns 2 (fun _ => []) 2 (@concat SstBuild.Write) small_config engine_limits (new_engine 3 2 8) engine_actions = true.
Proof. vm_compute. reflexivity. Qed.

Lemma engine_room n m : let H : StdHash := fun z => z in
  (n = 4 /\ m = 7 \/ n = 7 /\ m = 13)%nat -> room write_columns (default (new_engine 3 2 8) (engine_run m)) (mkGraph 4 (take n engine_history)).
Proof.
  intros H [[-> ->]|[-> ->]].
  all: split; [by vm_compute| |by vm_compute]; split; [by vm_compute|]; intros [|q] Hq; [by vm_compute|]; change (length _) with 1%nat in Hq; lia.
Qed.


Lemma engine_compactions_return_witness :
  let H : StdHash := fun z => z in
  let run := exec_action true write_columns 2 (fun _ => []) 2 (@concat SstBuild.Write) small_config engine_limits engine_mid in
  (exists e', run (Compact no_readers (ids_from 3) 5) = Some e') /\
  (exists e', run (CompactAll no_readers (ids_from 3) 5) = Some e' /\ level0_files (writer e') = []).
Proof.
  intros H run.
  destruct (engine_compactions_return true write_columns 2 2 8 (fun _ => []) 2 (@concat SstBuild.Write) small_config engine_limits 3 (take 7 engine_actions) engine_mid
    (mkGraph 4 (take 4 engine_history)) no_readers (ids_from 3) 5) as [Hone Hall];
    [exact write_config_ok|exact engine_columns_ok|by vm_compute|done|exact engine_mid_acts|vm_compute; reflexivity|vm_compute; reflexivity|exact (engine_room 4 7 ltac:(left; done))|apply ids_from_increasing|].
  split; [apply Hone|apply Hall]; vm_compute; reflexivity.
Defined.
