(* ===== verification/ReopenTheorems.v ===== *)
(** * Sessions

    A store that is closed and opened again holds the history it was closed
    with, whatever levels its compactions have moved it to, and goes on from it:
    the level index of the lower levels is rebuilt from the files, and the
    counters start beyond what is on disk.

    Files of the lower levels come back without their cached index, which
    compactions read (a defect): the sessions after the first open write and
    flush, and do not compact. *)

From S2P Require Import Prelude.
From S2P Require Import Types.
From S2P Require Import Names.
From S2P Require Import DeltaFile.
From S2P Require Import DeltaStore.
From S2P Require Import PropertyLayout.
From S2P Require Import EdgeBody.
From S2P Require Import Sst.
From S2P Require Import SkipList.
From S2P Require Import SkipListFacts.
From S2P Require Import NeighBors.
From S2P Require Import MemTable.
From S2P Require Import SstBuild.
From S2P Require Import SstBuildFacts.
From S2P Require Import SstBuildTheorems.
From S2P Require Import MemTableFlush.
From S2P Require Import DeltaMerge.
From S2P Require Import LevelIndex.
From S2P Require Import LsmRead.
From S2P Require Import LsmHistory.
From S2P Require Import LsmWrite.
From S2P Require Import LsmWriteFacts.
From S2P Require Import LsmWriteTheorems.
From S2P Require Import SstWriter.
From S2P Require Import CompactionPick.
From S2P Require Import CompactionMerge.
From S2P Require Import CompactionOutput.
From S2P Require Import CompactionWays.
From S2P Require Import CompactionTheorems.
From S2P Require Import CompactionPublish.
From S2P Require Import CompactionReads.
From S2P Require Import CompactionClaims.
From S2P Require Import Reopen.
From S2P Require Import ReopenFacts.
From S2P Require Import ReopenLevels.
From S2P Require Import CompactionRound.
From S2P Require Import CompactionTree.
From S2P Require Import CompactionStore.
From S2P Require Import CompactionSteps.
From S2P Require Import CompactionLoop.
From S2P Require Import LsmEngine.

(** ** The engine *)
Section Engine.
Context `{StdHash} (debug : bool) (L : LsmColumns) (reserve_node capacity max_v : Z) (draws : nat -> list Z).
Context (max_subcompactions : Z) (interleave : list (list SstBuild.Write) -> list SstBuild.Write) (lim : Limits).

Definition close_engine (e : Engine) : option (gmap Z DiskFile * bytes) :=
  close_store L max_subcompactions interleave (l0_auto_compaction_limit_ lim) (lower_levels e) (writer e).

Definition open_engine (tables : nat) (disk : gmap Z DiskFile) (info : bytes) : option Engine :=
  '(w, r) ← open_store debug tables capacity max_v disk (Some info);
  Some (mkEngine w (tail (fileMetaCache_ (rec_storage r))) (vid_to_mullevelIndex_ (rec_storage r)) (replicate (Z.to_nat MAX_LEVEL) MAX_GLOBAL_SEQ) 0).

Fixpoint exec_writes (e : Engine) (cmds : list Command) : option Engine :=
  match cmds with
  | [] => Some e
  | c :: cmds =>
      w ← exec_command debug L reserve_node draws max_subcompactions interleave (l0_auto_compaction_limit_ lim) (writer e) c;
      exec_writes (with_writer w e) cmds
  end.

(** Sessions that begin with a close and an open. *)
Fixpoint run_sessions (tables : nat) (e : Engine) (sessions : list (list Command)) : option Engine :=
  match sessions with
  | [] => Some e
  | cmds :: sessions =>
      '(disk, info) ← close_engine e;
      e ← open_engine tables disk info;
      e ← exec_writes e cmds;
      run_sessions tables e sessions
  end.
End Engine.

(** ** Reads need the bytes of a file only *)
Definition same_bytes (d d' : gmap Z SstData) : Prop := disk_of <$> d = disk_of <$> d'.

Lemma same_bytes_lookup d d' id : same_bytes d d' ->
  match d !! id, d' !! id with Some x, Some y => edge_data x = edge_data y /\ property_data x = property_data y | None, None => True | _, _ => False end.
Proof.
  intros E. apply (f_equal (fun m : gmap Z DiskFile => m !! id)) in E. rewrite !lookup_fmap in E. destruct (d !! id), (d' !! id); cbn in E; try done. by injection E.
Qed.

Section Bytes.
Context `{StdHash} (debug : bool) (L : LsmColumns) (d d' : gmap Z SstData) (Hb : same_bytes d d').

Lemma sst_read_bytes view x y src dst o n pid is_out ty :
  edge_data x = edge_data y /\ property_data x = property_data y ->
  find_edge_from_sstdata_cache (with_data L d) debug view x src dst o n pid is_out ty = find_edge_from_sstdata_cache (with_data L d') debug view y src dst o n pid is_out ty.
Proof. intros [E1 E2]. unfold find_edge_from_sstdata_cache. rewrite E1. destruct x, y. cbn in E1, E2. by subst. Qed.
Lemma level0_bytes files src dst pid is_out ty :
  find_in_level0 debug (with_data L d) None files src dst pid is_out ty = find_in_level0 debug (with_data L d') None files src dst pid is_out ty.
Proof.
  induction files as [|c files IH]; [done|]. cbn [find_in_level0]. rewrite IH. destruct (in_key_range src c); [|done].
  unfold find_edge_in_lonely_SStableCache. destruct (source_range (cache_indexes c) src) as [[[o n]|]|]; [|done..]. simpl_bind. cbn [with_data sstdata_manager_].
  pose proof (same_bytes_lookup d d' (timeStamp (cache_header c)) Hb) as Hx. destruct (d !! _) as [x|], (d' !! _) as [y|]; try done. simpl_bind.
  by rewrite (sst_read_bytes _ x y).
Qed.

Lemma levels_bytes findex ids src dst pid is_out ty :
  find_by_levels debug (with_data L d) None findex ids src dst pid is_out ty = find_by_levels debug (with_data L d') None findex ids src dst pid is_out ty.
Proof.
  induction ids as [|i ids IH]; [done|]. cbn [find_by_levels]. rewrite IH. destruct (level_range debug findex i) as [[[[fid o] n]|]|]; [|done..]. simpl_bind.
  cbn [with_data sstdata_manager_]. pose proof (same_bytes_lookup d d' fid Hb) as Hx. destruct (d !! fid) as [x|], (d' !! fid) as [y|]; try done. simpl_bind.
  by rewrite (sst_read_bytes _ x y).
Qed.

Lemma tables_bytes tables src dst pid is_out ty :
  find_edge_in_memtable debug (with_data L d) None tables src dst pid is_out ty = find_edge_in_memtable debug (with_data L d') None tables src dst pid is_out ty.
Proof. done. Qed.

Lemma get_bytes snap src dst pid is_out ty :
  GetEdge debug (with_data L d) None snap src dst pid is_out ty = GetEdge debug (with_data L d') None snap src dst pid is_out ty.
Proof. unfold GetEdge, find_edge_in_SStableCache, find_edge_by_levelindex. by rewrite tables_bytes, level0_bytes, levels_bytes. Qed.
End Bytes.

(** ** Closing *)
Section Close.
Context `{StdHash} (debug : bool) (L : LsmColumns) (reserve_node capacity max_v : Z) (draws : nat -> list Z).
Context (max_subcompactions : Z) (interleave : list (list SstBuild.Write) -> list SstBuild.Write).
Context (cfg : CompactionConfig) (lim : Limits).
Abbreviation fl := (process_flags L).
Abbreviation tls := (merge_layout L).
Abbreviation pnum := (length (sub_property_lengths_ L)).
Abbreviation level_0_max := (l0_auto_compaction_limit_ lim).
Abbreviation store_inv := (store_inv debug L reserve_node capacity max_v).
Abbreviation coupled := (coupled debug L reserve_node capacity max_v cfg).
Abbreviation close_engine := (close_engine L max_subcompactions interleave lim).
Context (Hcfg : LsmWriteFacts.config_ok L reserve_node capacity max_v max_subcompactions interleave).
Context (Hmax : capacity + 1 <= MAX_INDEX_NUM cfg).

(** The store between its last rotation and the flush of its last table. *)
Definition rotated (s : LSMStore) : LSMStore :=
  mkLsm (start_table (currentTime s) (global_seq s) (new_memtable capacity ∅)) [memTable_ s] (free_menTables s) (level0_files s)
    (lsm_data s) (vertex_levels s) (currentTime s + 1) (global_seq s + capacity) (next_topology_sequence_ s) (vertex_id_ s) (insertions s).
Definition last_run (s : LSMStore) (ops : list Op) : Closed :=
  mkClosed (mkRun (fid_ (memTable_ s)) (start_time_ (memTable_ s)) ops []) (Some (memTable_ s)).

Lemma rotated_inv s cs ops :
  store_inv s cs ops -> immutables s = [] -> ops <> [] -> store_inv (rotated s) (cs ++ [last_run s ops]) [].
Proof.
  intros [Himm Hl0 Hfl Hcl Hact (Hmx & Hrefs & Hrem & Hlen) Hfree (Hf1 & Hf2 & Hf3) (Hs1 & Hs2) [Hv Hvb] Ho Hl Hc Hq] Hi Hne.
  set (c := last_run s ops). pose proof (zlen_nonneg ops) as Hz.
  assert (0 < zlen ops) as Hpos by (destruct ops; [done|rewrite zlen_cons; pose proof (zlen_nonneg ops); lia]).
  assert (flushed (cs ++ [c]) = flushed cs) as Efl by (rewrite flushed_app; cbn; by rewrite app_nil_r).
  assert (closed_ops (cs ++ [c]) ++ [] = closed_ops cs ++ ops) as Eops by (rewrite app_nil_r, closed_ops_app; cbn; by rewrite app_nil_r).
  split; cbn [rotated memTable_ immutables free_menTables level0_files lsm_data vertex_levels currentTime global_seq next_topology_sequence_
    vertex_id_ insertions]; rewrite ?Efl, ?Eops; try done.
  - rewrite omap_app, <- Himm, Hi. done.
  - apply Forall_app. split; [done|]. apply Forall_singleton. split_and!; cbn [c last_run c_run c_mem run_ops run_fid run_start]; try done; lia.
  - change (zlen []) with 0. cbn. destruct Hcfg as [_ [? _] _ _ _ _]. split_and!; [done|done|lia|lia].
  - rewrite fmap_app. cbn [start_table fid_]. split_and!.
    + apply StronglySorted_app. split_and!; [|done|repeat constructor]. intros x y (c' & -> & Hin)%list_elem_of_fmap ->%list_elem_of_singleton.
      rewrite Forall_forall in Hf2. by apply Hf2.
    + apply Forall_app. split; [eapply Forall_impl; [exact Hf2|]; cbn; lia|]. apply Forall_singleton. cbn. lia.
    + lia.
    + lia.
  - cbn [start_table start_time_]. destruct Hcfg as [_ [? _] _ _ _ _]. split; [|lia]. apply Forall_app.
    split; [eapply Forall_impl; [exact Hs1|]; cbn; lia|]. apply Forall_singleton. cbn. lia.
Qed.

Lemma settled_waiting e g s0 filed waiting ops T : coupled e g s0 filed waiting ops T -> immutables (writer e) = [] -> waiting = [] /\ immutables s0 = [].
Proof.
  intros Hc Him. pose proof (mi_waiting _ _ (cp_mirror _ _ _ _ _ _ _ _ _ _ _ _ _ Hc)) as Hw. rewrite Him in Hw. apply Forall2_nil_inv_l in Hw. split; [|done].
  rewrite (si_immutables _ _ _ _ _ _ _ _ (cp_inv _ _ _ _ _ _ _ _ _ _ _ _ _ Hc)), omap_app in Hw. apply app_eq_nil in Hw as [_ Hw].
  pose proof (cp_waiting _ _ _ _ _ _ _ _ _ _ _ _ _ Hc) as Hall. destruct Hall as [|c cs [m Em] _]; [done|]. cbn [omap list_omap] in Hw. by rewrite Em in Hw.
Qed.

Lemma rotated_coupled e g s0 filed ops T :
  coupled e g s0 filed [] ops T -> immutables (writer e) = [] -> ops <> [] ->
  coupled (with_writer (rotated (writer e)) e) g (rotated s0) filed [last_run s0 ops] [] T.
Proof.
  intros Hc Him Hne. destruct (settled_waiting _ _ _ _ _ _ _ Hc Him) as [_ Him0]. pose proof (cp_mirror _ _ _ _ _ _ _ _ _ _ _ _ _ Hc) as [M1 M2 M3 M4 M5 M6 M7 M8].
  pose proof (cp_inv _ _ _ _ _ _ _ _ _ _ _ _ _ Hc) as Hi.
  eapply (writer_coupled debug L reserve_node capacity max_v cfg _ _ _ _ [] _ _ (rotated (writer e)) g (rotated s0) [last_run s0 ops] [] Hc).
  - split; cbn; try congruence; try done; [unfold same_table; cbn; by rewrite M4, M5|]. constructor; [exact M1|constructor].
  - split_and!; cbn; [done|done|lia].
  - by apply rotated_inv.
  - repeat constructor. by eexists.
  - rewrite <- (cp_history _ _ _ _ _ _ _ _ _ _ _ _ _ Hc), !closed_ops_app. cbn. by rewrite !app_nil_r.
  - apply (cp_vertices _ _ _ _ _ _ _ _ _ _ _ _ _ Hc).
  - by right.
Qed.

(** A flush of the oldest table returns while level 0 has room. *)
Lemma flush_returns e g s0 filed waiting ops T m rest :
  coupled e g s0 filed waiting ops T -> immutables (writer e) = m :: rest -> zlen (level0_files (writer e)) < level_0_max ->
  exists vs h d, flush_file L max_subcompactions interleave fl tls (vertex_id_ (writer e)) m = Some (vs, h, d) /\
  flush_table L max_subcompactions interleave level_0_max 0 (writer e) = Some (mkLsm (memTable_ (writer e)) rest (free_menTables (writer e) ++ [set_flash m])
    (insert_file (mkCache h (start_time_ m) (sst_indexes d)) (level0_files (writer e))) (<[fid_ m := d]> (lsm_data (writer e))) (raise_levels vs.*1 (vertex_levels (writer e)))
    (currentTime (writer e)) (global_seq (writer e)) (next_topology_sequence_ (writer e)) (vertex_id_ (writer e)) (insertions (writer e))).
Proof.
  intros Hc Him Hroom. pose proof (cp_mirror _ _ _ _ _ _ _ _ _ _ _ _ _ Hc) as [M1 M2 M3 M4 M5 M6 M7 M8]. rewrite Him in M2.
  apply Forall2_cons_inv_l in M2 as (m0 & rest0 & Hm & _ & Em0).
  destruct (flush_keeps debug L reserve_node capacity max_v max_subcompactions interleave (zlen (level0_files s0) + 1) Hcfg s0 (filed ++ waiting) ops 0 m0
    (cp_inv _ _ _ _ _ _ _ _ _ _ _ _ _ Hc) ltac:(by rewrite Em0) ltac:(lia)) as (_ & _ & _ & _ & _ & _ & _ & _ & _ & r & _ & vs & _ & _ & _ & _ & Ef).
  rewrite M7, Hm in Ef. apply flush_file_shared in Ef. eexists _, _, _. split; [exact Ef|].
  unfold flush_table. rewrite Him. cbn [lookup list_lookup]. simpl_bind. rewrite Ef. simpl_bind. by rewrite (proj2 (Z.leb_gt _ _) Hroom).
Qed.

(** A store with no table waiting can be closed; all it held is on disk. *)
Lemma close_flushes e g s0 filed waiting ops T :
  coupled e g s0 filed waiting ops T -> immutables (writer e) = [] -> (ops <> [] -> zlen (level0_files (writer e)) < level_0_max) ->
  room L e g -> currentTime (writer e) < INVALID_File_ID ->
  exists e1 s1 filed1 T1, coupled e1 g s1 filed1 [] [] T1 /\
    close_engine e = Some (disk_of <$> lsm_data (writer e1),
      write_file_info (vertex_id_ (writer e)) (level0_files (writer e1) :: lower_levels e1) (next_topology_sequence_ (writer e))) /\
    vertex_id_ (writer e1) = vertex_id_ (writer e) /\ next_topology_sequence_ (writer e1) = next_topology_sequence_ (writer e) /\
    currentTime (writer e1) <= currentTime (writer e) + 1.
Proof.
  intros Hc Him Hroom Hr Ht. destruct (settled_waiting _ _ _ _ _ _ _ Hc Him) as [-> Him0].
  pose proof (cp_mirror _ _ _ _ _ _ _ _ _ _ _ _ _ Hc) as [M1 _ _ _ _ _ _ _]. pose proof (si_active _ _ _ _ _ _ _ _ (cp_inv _ _ _ _ _ _ _ _ _ _ _ _ _ Hc)) as (_ & Hlen & _).
  rewrite M1 in Hlen. cbn [share_levels listLength] in Hlen. unfold ReopenTheorems.close_engine, close_store. rewrite Him, Hlen.
  destruct (decide (ops = [])) as [->|Hne].
  - exists e, s0, filed, T. split_and!; try done. lia.
  - rewrite (proj2 (Z.ltb_lt 0 (zlen ops))) by (destruct ops; [done|rewrite zlen_cons; pose proof (zlen_nonneg ops); lia]).
    pose proof (rotated_coupled _ _ _ _ _ _ Hc Him Hne) as Hcr. set (er := with_writer (rotated (writer e)) e) in *.
    destruct (flush_returns er g _ filed _ [] T (memTable_ (writer e)) [] Hcr eq_refl (Hroom Hne)) as (vs & h & d & Ef & E).
    assert (room L er g) as Hrr by (destruct Hr; split; [done|done|cbn; lia]).
    destruct (flush_coupled debug L reserve_node capacity max_v max_subcompactions interleave cfg lim Hcfg _ _ _ _ _ _ _ _ Hmax Hcr Hrr E) as (s1 & filed1 & waiting1 & T1 & Hc1).
    destruct (settled_waiting _ _ _ _ _ _ _ Hc1 eq_refl) as [-> _].
    eexists _, s1, filed1, T1. split; [exact Hc1|]. unfold flush_table. cbn [immutables lookup list_lookup vertex_id_ level0_files]. simpl_bind.
    cbn [er with_writer writer rotated vertex_id_] in Ef. rewrite Ef. simpl_bind. rewrite (proj2 (Z.leb_gt _ _) (Hroom Hne)). simpl_bind. split_and!; done.
Qed.
End Close.

(** ** The directory of a tree *)
Lemma elem_of_concat {A} (x : A) (xss : list (list A)) : x ∈ concat xss <-> exists xs, xs ∈ xss /\ x ∈ xs.
Proof. rewrite list_elem_of_In, in_concat. split; intros (xs & H1 & H2); exists xs; by rewrite !list_elem_of_In in *. Qed.

Lemma sorted_lt_nodup (zs : list Z) : StronglySorted Z.lt zs -> NoDup zs.
Proof.
  induction 1 as [|z zs Hs IH Hz]; constructor; [|done]. intros Hin. rewrite Forall_forall in Hz. specialize (Hz z Hin). lia.
Qed.

Section Directory.
Context (cfg : CompactionConfig) (flags : Flags) (tls : layout) (pnum : nat) (s : Storage) (T : Tree).
Context (HF : forest cfg flags tls pnum T) (HT : stores flags tls pnum s T).

Lemma stored_table t : t ∈ concat T -> exists c, file_holds flags tls pnum s c t.
Proof.
  intros (ts & Hts & Ht)%elem_of_concat. destruct (Forall2_elem_r _ _ _ _ (st_files _ _ _ _ _ HT) Hts) as (cs & _ & Hcs).
  destruct (Forall2_elem_r _ _ _ _ Hcs Ht) as (c & _ & Hc). by exists c.
Qed.

Lemma stored_ok t : t ∈ concat T -> tfile_ok cfg flags tls pnum t.
Proof. pose proof (fo_tables _ _ _ _ _ HF) as Hf. rewrite Forall_forall in Hf. apply Hf. Qed.

(** Every table has an edge. *)
Lemma tables_edges ts : Forall (tfile_ok cfg flags tls pnum) ts -> zlen ts <= zlen (tree_edges ts).
Proof.
  induction 1 as [|t ts [((Hne & _) & _ & Hf & _) _] _ IH]; [done|]. change (tree_edges (t :: ts)) with (edges_in t.2 ++ tree_edges ts).
  rewrite zlen_cons, zlen_app. pose proof (filled_sources t.2 Hf) as Hs. pose proof (edges_in_length t.2) as El. unfold zlen in *. rewrite El.
  destruct t.2; [done|]. cbn [length] in *. lia.
Qed.

Lemma stored_few ts : ts ∈ T -> zlen ts < 2 ^ 31.
Proof.
  intros Hts. pose proof (fo_small _ _ _ _ _ HF) as Hs. change EDGEBODY_SIZE with 16 in Hs. pose proof (tables_edges _ (fo_tables _ _ _ _ _ HF)) as Hle.
  apply list_elem_of_split in Hts as (A & B & ->). rewrite concat_app in *. cbn [concat] in *. rewrite !zlen_app in Hle. unfold zlen in *. lia.
Qed.

Lemma lower_disjoint ts : StronglySorted table_before ts -> Forall (tfile_ok cfg flags tls pnum) ts -> disjoint_sources ts.
Proof.
  unfold disjoint_sources. intros Hs. induction Hs as [|t ts Hs IH Ht]; intros Hok; [constructor|]. apply Forall_cons in Hok as [[(_ & [Hsort _] & _) _] Hok].
  cbn [fmap list_fmap concat]. apply NoDup_app. split_and!; [| |by apply IH].
  2:{ intros v Hv (us & (u & -> & Hu)%list_elem_of_fmap & Hvu)%elem_of_concat. rewrite Forall_forall in Ht. specialize (Ht u Hu v v Hv Hvu). lia. }
  apply sorted_lt_nodup. clear -Hsort. induction Hsort as [|x vs Hs IH Hx]; [constructor|]. cbn [fmap list_fmap]. constructor; [done|].
  by rewrite Forall_fmap.
Qed.

Lemma tree_directory max_v :
  (forall t v, t ∈ concat T -> v ∈ sources_of t -> v < Z.min max_v (2 ^ 31)) -> directory_ok flags tls pnum max_v (disk_of <$> sst_data s) T.
Proof.
  intros Hsrc. split.
  - apply HF.
  - apply Forall_forall. intros t Ht. destruct (stored_ok t Ht) as [(Hfl & _) Hid]. destruct (stored_table t Ht) as (c & _ & _ & end_ & _ & Hd).
    split_and!; [done|unfold fits; change INVALID_File_ID with 2147483647 in Hid; change (2 ^ 32) with 4294967296; lia|]. eexists end_, _. by rewrite lookup_fmap, Hd.
  - apply Forall_forall. intros t Ht. destruct (stored_ok t Ht) as [(_ & Hin & _) _]. split; [done|]. apply Forall_forall. intros v Hv. by apply (Hsrc t).
  - apply HF.
  - apply Forall_forall. intros ts [i Hi]%list_elem_of_lookup. rewrite lookup_tail in Hi. apply lower_disjoint; [by eapply (fo_lower _ _ _ _ _ HF (S i)); [lia|]|].
    apply Forall_forall. intros t Ht. apply stored_ok, elem_of_concat. exists ts. split; [by eapply list_elem_of_lookup_2|done].
  - apply Forall_forall. apply stored_few.
Qed.

Lemma tree_described : Forall2 (Forall2 described_by) (fileMetaCache_ s) T.
Proof. eapply Forall2_impl; [apply HT|]. intros cs ts Hf. eapply Forall2_impl; [exact Hf|]. by intros c t (? & _). Qed.
End Directory.

(** ** Opening *)
Definition full_cache (t : TFile) : SSTableCache := mkCache (ref_header t.2 t.1) 0 (ref_indexes t.2).
Definition full_levels (T : Tree) : list (list SSTableCache) := (fun ts : list TFile => full_cache <$> ts) <$> T.
(** The data of the loaded files with the index they had before. *)
Definition reindexed (old data : gmap Z SstData) : gmap Z SstData :=
  map_imap (fun id d => Some (mkSst (default [] (sst_indexes <$> old !! id)) (edge_data d) (property_data d))) data.

Lemma reindexed_bytes old data : same_bytes data (reindexed old data).
Proof. apply map_eq. intros id. unfold reindexed. rewrite !lookup_fmap, map_lookup_imap. by destruct (data !! id). Qed.

Section Reload.
Context (cfg : CompactionConfig) (flags : Flags) (tls : layout) (pnum : nat) (s : Storage) (T : Tree).
Context (HF : forest cfg flags tls pnum T) (HT : stores flags tls pnum s T).

Lemma level0_sorted ts : T !! 0%nat = Some ts -> sorted_level 0 (reloaded 0 <$> (file_desc <$> ts)) = full_cache <$> ts.
Proof.
  intros Hts. unfold sorted_level. cbn [Z.eqb]. rewrite <- list_fmap_compose. apply merge_sort_id; try apply _.
  pose proof (fo_level0 _ _ _ _ _ HF ts Hts) as Hs. clear Hts. induction Hs as [|t ts' Hs IH Ht]; [constructor|]. cbn [fmap list_fmap]. constructor; [done|].
  rewrite Forall_fmap. eapply Forall_impl; [exact Ht|]. intros u [_ Hlt]. unfold time_ge. cbn. lia.
Qed.

Lemma lower_sorted i ts :
  (0 < i)%nat -> T !! i = Some ts -> sorted_level (Z.of_nat i) (reloaded (Z.of_nat i) <$> (file_desc <$> ts)) = reloaded (Z.of_nat i) <$> (file_desc <$> ts).
Proof.
  intros Hi Hts. unfold sorted_level. rewrite (proj2 (Z.eqb_neq _ _)) by lia. rewrite <- list_fmap_compose. apply merge_sort_id; try apply _.
  pose proof (fo_lower _ _ _ _ _ HF i ts Hi Hts) as Hs. assert (Forall (tfile_ok cfg flags tls pnum) ts) as Hok.
  { apply Forall_forall. intros t Ht. apply (stored_ok _ _ _ _ _ HF), elem_of_concat. exists ts. split; [by eapply list_elem_of_lookup_2|done]. }
  clear Hts. induction Hs as [|t ts' Hs IH Ht]; [constructor|]. apply Forall_cons in Hok as [[((Hne & _) & Hin & _) _] Hok]. cbn [fmap list_fmap].
  constructor; [by apply IH|]. rewrite Forall_fmap. rewrite Forall_forall in Ht, Hok. apply Forall_forall. intros u Hu. destruct (Hok u Hu) as [((Hneu & _) & Hinu & _) _].
  destruct (table_range t.2 Hin Hne) as (lo & hi & Hlo & _ & El & _). destruct (table_range u.2 Hinu Hneu) as (lo' & hi' & Hlo' & _ & El' & _).
  specialize (Ht u Hu lo lo' Hlo Hlo'). unfold min_key_le. cbn. rewrite El, El'. lia.
Qed.

Lemma located_slot ts v x level :
  Forall (tfile_ok cfg flags tls pnum) ts -> at_level x level = Some (level_data (located_in ts v)) -> slot_ok ts x level v.
Proof.
  intros Hok Ha. destruct (located_in ts v) as [[[f o] n]|] eqn:El.
  - left. induction Hok as [|t ts [_ Hid] _ IH]; [done|]. cbn [located_in] in El. destruct (indexed (ref_indexes t.2) v) as [[o' n']|] eqn:E.
    + injection El as <- <- <-. exists t, o', n'. split_and!; [left|done|]. rewrite Ha. cbn [level_data]. rewrite u32_small; [done|]. change INVALID_File_ID with 2147483647 in Hid. lia.
    + destruct (IH El) as (u & o' & n' & Hu & H1 & H2). exists u, o', n'. split_and!; [by right|done|done].
  - right. split; [|by exists no_level]. clear Ha. induction Hok as [|t ts [(_ & Hin & _) _] _ IH]; [by intros t ?%elem_of_nil|]. cbn [located_in] in El.
    destruct (indexed (ref_indexes t.2) v) as [[? ?]|] eqn:E; [done|]. intros u [->|Hu]%elem_of_cons; [|by apply IH].
    intros Hv. destruct (proj2 (indexed_sources t.2 v Hin (source_below _ _ Hin Hv)) Hv) as [? E']. congruence.
Qed.

(** The loaded files with their old index hold the tree. *)
Context (max_v : Z) (Hv : 0 <= max_v < kInvalidVertexId) (Hsrc : forall t v, t ∈ concat T -> v ∈ sources_of t -> v < Z.min max_v (2 ^ 31)).
Context (a : LazyArray) (data : gmap Z SstData).
Context (Hd : forall i ds, descs T !! i = Some ds -> data_loaded (disk_of <$> sst_data s) (Z.of_nat i) ds data).
Context (He : forall v, 0 <= v < kInvalidVertexId -> entry a v = placed_levels 1 (tail T) v empty_index).
Context (Hcount : block_count_ a = BlockCount max_v) (Hwf : array_wf a).

Lemma reindexed_table t : t ∈ concat T -> exists end_, pod_ok end_ /\
  reindexed (sst_data s) data !! t.1 = Some (mkSst (ref_indexes t.2) (table_image flags tls t.2 t.1 end_) (ref_column flags tls t.2 <$> seq 0 pnum)).
Proof.
  intros Ht. destruct (stored_table flags tls pnum s T HT t Ht) as (c & _ & _ & end_ & Hpod & E). exists end_. split; [done|].
  destruct (in_level T t Ht) as (i & ds & Hi & Hin). destruct (Hd i ds Hi _ Hin) as (f & Hf & Ed). change (stamp (file_desc t)) with t.1 in *.
  rewrite lookup_fmap, E in Hf. injection Hf as <-. unfold reindexed. rewrite map_lookup_imap, Ed, E. done.
Qed.

Lemma block_covers v : 0 <= v < max_v -> Z.shiftr v kBlockShift < block_count_ a.
Proof.
  intros Hv'. rewrite Hcount. apply BlockCount_covers; [lia| |done]. change kInvalidVertexId with 281474976710655 in *. change kBlockSize with 1048576.
  change (2 ^ 64) with 18446744073709551616. lia.
Qed.

Lemma reloaded_stores lv : stores flags tls pnum (mkStorage (full_levels T) a lv (reindexed (sst_data s) data)) T.
Proof.
  pose proof (tree_directory cfg flags tls pnum s T HF HT max_v Hsrc) as Hdir. split.
  - apply Forall2_fmap_l, Forall_Forall2_diag, Forall_forall. intros ts Hts. apply Forall2_fmap_l, Forall_Forall2_diag, Forall_forall. intros t Ht. split_and!; [done|done|].
    apply reindexed_table, elem_of_concat. by exists ts.
  - exact Hwf.
  - intros v i ts Hvv Hi Hts. cbn [vid_to_mullevelIndex_]. rewrite He by done. apply located_slot.
    + apply Forall_forall. intros t Ht. apply (stored_ok _ _ _ _ _ HF), elem_of_concat. exists ts. split; [by eapply list_elem_of_lookup_2|done].
    + unfold at_level. rewrite (proj2 (Z.ltb_ge _ _)) by lia. pose proof (lookup_lt_Some _ _ _ Hts) as Hlt. rewrite (fo_len _ _ _ _ _ HF) in Hlt. change (Z.to_nat MAX_LEVEL) with 5%nat in Hlt.
      rewrite (placed_data flags tls pnum max_v _ T Hdir) by (change MAX_LEVEL with 5; lia). rewrite Nat2Z.id, Hts. done.
  - intros t v Ht Hvt. pose proof (Hsrc t v Ht Hvt). destruct (stored_ok _ _ _ _ _ HF t Ht) as [(_ & Hin & _) _]. pose proof (source_below _ _ Hin Hvt).
    split; [lia|]. apply block_covers. lia.
Qed.
End Reload.

(** The files of a loaded store: those of the lower levels have lost their
    index. *)
Definition set_data (d : gmap Z SstData) (w : LSMStore) : LSMStore :=
  mkLsm (memTable_ w) (immutables w) (free_menTables w) (level0_files w) d (vertex_levels w) (currentTime w) (global_seq w)
    (next_topology_sequence_ w) (vertex_id_ w) (insertions w).
Definition same_header (c c0 : SSTableCache) : Prop := cache_header c = cache_header c0.

Record shadows (e e0 : Engine) : Prop := {
  sw_writer : writer e = set_data (lsm_data (writer e)) (writer e0);
  sw_bytes : same_bytes (lsm_data (writer e)) (lsm_data (writer e0));
  sw_lower : Forall2 (Forall2 same_header) (lower_levels e) (lower_levels e0);
  sw_index : level_index e = level_index e0;
}.

Lemma shadows_refl e : shadows e e.
Proof.
  split; [by destruct (writer e)|done| |done]. apply Forall_Forall2_diag, Forall_forall. intros cs _. by apply Forall_Forall2_diag, Forall_forall.
Qed.

Section Shadow.
Context `{StdHash} (debug : bool) (L : LsmColumns) (reserve_node capacity max_v : Z) (draws : nat -> list Z).
Context (max_subcompactions : Z) (interleave : list (list SstBuild.Write) -> list SstBuild.Write).
Context (level_0_max : Z).

Lemma shadow_get e e0 src dst pid is_out ty : shadows e e0 -> engine_get debug L e src dst pid is_out ty = engine_get debug L e0 src dst pid is_out ty.
Proof.
  intros [Hw Hb _ Hx]. unfold engine_get. rewrite Hx, Hw. cbn [set_data immutables memTable_ level0_files]. apply (get_bytes debug L _ _ Hb).
Qed.

Lemma write_info_headers vertices files files0 next :
  Forall2 (Forall2 same_header) files files0 -> write_file_info vertices files next = write_file_info vertices files0 next.
Proof.
  intros Hf. unfold write_file_info. assert (zlen files = zlen files0) as -> by (unfold zlen; by rewrite (Forall2_length _ _ _ Hf)).
  do 3 f_equal. induction Hf as [|cs cs0 files files0 Hcs Hf IH]; [done|]. cbn [fmap list_fmap concat]. f_equal; [|exact IH]. unfold write_level. f_equal.
  - unfold zlen. by rewrite (Forall2_length _ _ _ Hcs).
  - induction Hcs as [|c c0 cs cs0 Hc Hcs IH']; [done|]. cbn [fmap list_fmap concat]. by rewrite IH', Hc.
Qed.

(** A flush does not look at the data of the other files. *)
Lemma flush_set_data i d w w' :
  same_bytes d (lsm_data w) -> flush_table L max_subcompactions interleave level_0_max i w = Some w' ->
  exists d', flush_table L max_subcompactions interleave level_0_max i (set_data d w) = Some (set_data d' w') /\ same_bytes d' (lsm_data w').
Proof.
  intros Hb. unfold flush_table. cbn [set_data immutables vertex_id_ level0_files]. destruct (immutables w !! i) as [m|]; [|done]. simpl_bind.
  destruct (flush_file _ _ _ _ _ _ m) as [[[vs h] x]|]; [|done]. simpl_bind. destruct (_ <=? _); [done|]. intros [= <-].
  exists (<[fid_ m := x]> d). split; [done|]. unfold same_bytes in *. cbn [lsm_data]. by rewrite !fmap_insert, Hb.
Qed.

Lemma rotate_set_data d w w' : rotate_table debug w = Some w' -> rotate_table debug (set_data d w) = Some (set_data d w') /\ lsm_data w' = lsm_data w.
Proof.
  unfold rotate_table, get_newmemTable. cbn [set_data free_menTables]. destruct (free_menTables w) as [|t free]; [done|].
  destruct ((_ || _) && _); [|done]. destruct (Mem_reset debug t); [|done]. simpl_bind. by intros [= <-].
Qed.

Lemma put_set_data d w src dst payload is_out ty seq w' :
  put_single debug reserve_node draws w src dst payload is_out ty seq = Some w' ->
  put_single debug reserve_node draws (set_data d w) src dst payload is_out ty seq = Some (set_data d w') /\ lsm_data w' = lsm_data w.
Proof.
  unfold put_single. cbn [set_data memTable_]. destruct (_ <=? 0); [done|]. cbn [set_data insertions].
  destruct (Mem_put_edge _ _ _ _ _ _) as [m|]; [|done]. simpl_bind. destruct (1 <? _); [by intros [= <-]|]. intros E.
  destruct (rotate_set_data d _ _ E) as [E' Ed]. split; [exact E'|exact Ed].
Qed.

Lemma init_set_data d vids w :
  foldl (fun s vid => init_vertex vid s) (set_data d w) vids = set_data d (foldl (fun s vid => init_vertex vid s) w vids) /\
  lsm_data (foldl (fun s vid => init_vertex vid s) w vids) = lsm_data w.
Proof. revert w. induction vids as [|v vids IH]; intros w; [done|]. cbn [foldl]. apply (IH (init_vertex v w)). Qed.

Lemma command_set_data c d w w' :
  same_bytes d (lsm_data w) -> exec_command debug L reserve_node draws max_subcompactions interleave level_0_max w c = Some w' ->
  exists d', exec_command debug L reserve_node draws max_subcompactions interleave level_0_max (set_data d w) c = Some (set_data d' w') /\ same_bytes d' (lsm_data w').
Proof.
  intros Hb E. destruct c as [src dst payload [] is_out ty seq| |next|i]; cbn [exec_command put_edge] in *; [..|by apply flush_set_data].
  - destruct (put_set_data d _ _ _ _ _ _ _ _ E) as [E' Ed]. exists d. by rewrite Ed.
  - destruct (put_single _ _ _ w _ _ _ _ _ _) as [w1|] eqn:E1; [|done]. simpl_bind in E. destruct (put_set_data d _ _ _ _ _ _ _ _ E1) as [-> Ed1]. simpl_bind.
    destruct (put_set_data d _ _ _ _ _ _ _ _ E) as [E' Ed]. exists d. by rewrite Ed, Ed1.
  - injection E as <-. exists d. by split.
  - injection E as <-. exists d. unfold InitVerticesUpTo. cbn [set_data vertex_id_]. destruct (_ <=? _); [done|].
    destruct (init_set_data d (seqZ (vertex_id_ w) (next - vertex_id_ w)) w) as [E1 E2]. split; [|by cbn; rewrite E2]. unfold set_data in E1 |- * at 1. by rewrite E1.
Qed.

Lemma shadow_command e e0 c w :
  shadows e e0 -> exec_command debug L reserve_node draws max_subcompactions interleave level_0_max (writer e) c = Some w ->
  exists w0, exec_command debug L reserve_node draws max_subcompactions interleave level_0_max (writer e0) c = Some w0 /\ shadows (with_writer w e) (with_writer w0 e0).
Proof.
  intros [Hw Hb Hl Hx] E. destruct (command_set_data c (lsm_data (writer e0)) (writer e) w) as (d' & E' & Hb'); [by symmetry|done|].
  exists (set_data d' w). split.
  - rewrite <- E'. f_equal. rewrite Hw. by destruct (writer e0).
  - split; cbn; [by destruct w|by symmetry|done|done].
Qed.
End Shadow.

(** A fresh store before it loads anything. *)
Section Fresh.
Context `{StdHash} (debug : bool) (L : LsmColumns) (reserve_node capacity max_v : Z).
Context (max_subcompactions : Z) (interleave : list (list SstBuild.Write) -> list SstBuild.Write).
Context (Hcfg : LsmWriteFacts.config_ok L reserve_node capacity max_v max_subcompactions interleave).
Abbreviation store_inv := (store_inv debug L reserve_node capacity max_v).

Lemma fresh_store tables n :
  0 <= n <= max_v -> store_inv (InitVerticesUpTo n (new_store tables capacity)) [] [] /\
  vertex_id_ (InitVerticesUpTo n (new_store tables capacity)) = n.
Proof.
  intros Hn.
  destruct (init_upto_simulates debug L reserve_node capacity max_v (new_store tables capacity) (mkGraph 0 []) n) as (cs & ops & Hi & E & Ev);
    [by eapply new_store_simulates|lia|].
  cbn [g_ops g_vertices] in *. apply app_eq_nil in E as [E ->].
  destruct cs as [|c cs]; [split; [done|lia]|]. exfalso.
  pose proof (si_closed _ _ _ _ _ _ _ _ Hi) as [(Hpos & _) _]%Forall_cons. unfold closed_ops in E. cbn in E. apply app_eq_nil in E as [E _].
  rewrite E in Hpos. change (zlen []) with 0 in Hpos. lia.
Qed.

(** The writer without compactions, restarted with the counters of the load. *)
Definition restarted (c : Closed) : Closed := mkClosed (mkRun (run_fid (c_run c)) 0 (run_ops (c_run c)) (run_vs (c_run c))) None.
Definition restarted_store (s1 s0 : LSMStore) (filed : list Closed) (time next : Z) : LSMStore :=
  mkLsm (start_table (time + 1) next (memTable_ s1)) (immutables s1) (free_menTables s1) (run_cache <$> reverse (flushed (restarted <$> filed))) (lsm_data s0) (vertex_levels s0)
    (time + 1 + 1) (next + max_edge_num (memTable_ s1)) next (vertex_id_ s1) (insertions s0).

Lemma restarted_ops filed : closed_ops (restarted <$> filed) = closed_ops filed.
Proof. unfold closed_ops. f_equal. rewrite <- list_fmap_compose. by apply list_fmap_ext. Qed.

Lemma restarted_flushed filed : Forall (fun c => c_mem c = None) filed -> run_ops <$> flushed (restarted <$> filed) = run_ops <$> flushed filed.
Proof.
  induction 1 as [|[r m] cs E _ IH]; [done|]. cbn in E. subst m. cbn. f_equal. exact IH.
Qed.

Lemma restarted_inv s1 s0 filed time next :
  store_inv s1 [] [] -> store_inv s0 filed [] -> Forall (fun c => c_mem c = None) filed -> vertex_id_ s1 = vertex_id_ s0 ->
  0 <= time -> Forall (fun c => run_fid (c_run c) <= time) filed -> 0 <= next -> Forall (fun op => sequence op.1.2 < next) (closed_ops filed) ->
  store_inv (restarted_store s1 s0 filed time next) (restarted <$> filed) [].
Proof.
  intros [Himm1 _ _ _ Hact (Hmx & Hrefs & Hrem & _) Hfree _ _ _ _ _ _ _] [_ _ Hfl Hcl _ _ _ (Hf1 & _) _ [Hv Hvb] Ho Hl Hc _] Hno Ev Ht Hfids Hnext Hq.
  pose proof (restarted_ops filed) as Eops. assert (0 < capacity) as Hcap by (destruct Hcfg as [_ [? _] _ _ _ _]; lia).
  split; rewrite ?Eops; cbn [restarted_store memTable_ immutables free_menTables level0_files lsm_data vertex_levels currentTime global_seq next_topology_sequence_ vertex_id_
    insertions start_table max_edge_num refs remain_capacity fid_ start_time_]; try done.
  - rewrite Himm1. clear. by induction filed.
  - clear -Hfl Hno. induction Hno as [|[r m] cs E _ IH]; [constructor|]. cbn in E. subst m. cbn in Hfl |- *. apply Forall_cons in Hfl as [Hr Hfl]. constructor; [exact Hr|by apply IH].
  - rewrite Forall_fmap. eapply Forall_impl; [exact Hcl|]. intros c (? & ? & _). done.
  - rewrite <- list_fmap_compose. split_and!; [exact Hf1| |lia|lia]. rewrite Forall_fmap. eapply Forall_impl; [exact Hfids|]. cbn. lia.
  - rewrite Hmx. split; [|lia]. rewrite Forall_fmap. apply Forall_forall. intros c _. cbn. lia.
  - rewrite Ev. done.
  - intros v. rewrite restarted_flushed by done. apply Hl.
  - by rewrite app_nil_r.
Qed.
End Fresh.

Section Open.
Context `{StdHash} (debug : bool) (L : LsmColumns) (reserve_node capacity max_v : Z) (draws : nat -> list Z).
Context (max_subcompactions : Z) (interleave : list (list SstBuild.Write) -> list SstBuild.Write).
Context (cfg : CompactionConfig) (lim : Limits).
Abbreviation fl := (process_flags L).
Abbreviation tls := (merge_layout L).
Abbreviation pnum := (length (sub_property_lengths_ L)).
Abbreviation level_0_max := (l0_auto_compaction_limit_ lim).
Abbreviation store_inv := (store_inv debug L reserve_node capacity max_v).
Abbreviation coupled := (coupled debug L reserve_node capacity max_v cfg).
Abbreviation close_engine := (close_engine L max_subcompactions interleave lim).
Abbreviation open_engine := (open_engine debug capacity max_v).
Context (Hcfg : LsmWriteFacts.config_ok L reserve_node capacity max_v max_subcompactions interleave).
Context (Hmax : capacity + 1 <= MAX_INDEX_NUM cfg) (Hwide : max_v <= 2 ^ 31).

Lemma shadow_close e e0 : shadows e e0 -> close_engine e = close_engine e0.
Proof.
  intros [Hw Hb Hl _]. unfold ReopenTheorems.close_engine, close_store. rewrite Hw. cbn [set_data immutables]. destruct (immutables (writer e0)); [|done].
  assert (forall w, Forall2 (Forall2 same_header) (level0_files w :: lower_levels e) (level0_files w :: lower_levels e0)) as Hfiles.
  { intros w. constructor; [|done]. by apply Forall_Forall2_diag, Forall_forall. }
  cbn [set_data memTable_]. destruct (0 <? _).
  - destruct (flush_table _ _ _ _ 0 _) as [w|] eqn:E; unfold flush_table in *; cbn [immutables lookup list_lookup] in *; simpl_bind; simpl_bind in E;
      cbn [set_data vertex_id_ level0_files] in *; destruct (flush_file _ _ _ _ _ _ _) as [[[vs h] x]|]; try done; simpl_bind; simpl_bind in E; destruct (_ <=? _); try done.
    injection E as <-. simpl_bind. cbn [lsm_data vertex_id_ level0_files next_topology_sequence_]. rewrite !fmap_insert. unfold same_bytes in Hb. rewrite Hb. do 2 f_equal.
    apply write_info_headers. constructor; [by apply Forall_Forall2_diag, Forall_forall|done].
  - simpl_bind. cbn [set_data lsm_data vertex_id_ level0_files next_topology_sequence_]. unfold same_bytes in Hb. rewrite Hb. do 2 f_equal. apply write_info_headers, (Hfiles (writer e0)).
Qed.

Section Opened.
Context (e1 : Engine) (g : Graph) (s1 : LSMStore) (filed : list Closed) (T : Tree) (Hc : coupled e1 g s1 filed [] [] T).

Lemma tree_sources t v : t ∈ concat T -> v ∈ sources_of t -> v < Z.min max_v (2 ^ 31).
Proof.
  intros Ht Hv. destruct (cp_tree _ _ _ _ _ _ _ _ _ _ _ _ _ Hc) as (HF & _). destruct (stored_ok _ _ _ _ _ HF t Ht) as [(_ & _ & Hf & _) _].
  destruct (source_edge t v Hf Hv) as [x Hx]. assert ((v, x) ∈ op_edges (closed_ops filed)) as Hop.
  { rewrite <- (cp_edges _ _ _ _ _ _ _ _ _ _ _ _ _ Hc). apply tree_edges_elem. by exists t. }
  apply list_elem_of_fmap in Hop as (op & [= -> _] & Hop). destruct (si_vertices _ _ _ _ _ _ _ _ (cp_inv _ _ _ _ _ _ _ _ _ _ _ _ _ Hc)) as [Hin Hb].
  rewrite !app_nil_r, Forall_forall in Hin. destruct (Hin op Hop) as (_ & _ & ?). lia.
Qed.

Lemma tree_count : sum_list ((fun c => Z.to_nat (Sst.size (cache_header c) - 1)) <$> in_load_order 0 (descs T)) = length (closed_ops filed).
Proof.
  transitivity (length (tree_edges (concat T))).
  2:{ rewrite (cp_edges _ _ _ _ _ _ _ _ _ _ _ _ _ Hc). unfold op_edges. by rewrite length_fmap. }
  pose proof (load_order_described T 0) as Hd. induction Hd as [|c t cs ts Hct _ IH]; [done|]. change (tree_edges (t :: ts)) with (edges_in t.2 ++ tree_edges ts).
  cbn [fmap list_fmap]. cbn. rewrite IH, length_app, edges_in_length. f_equal. unfold described_by in Hct. rewrite Hct. cbn [ref_header Sst.size]. unfold zlen. lia.
Qed.

Lemma opened tables next :
  0 <= next < 2 ^ 63 -> Forall (fun op => sequence op.1.2 < next) (closed_ops filed) ->
  exists e' e0 s0', open_engine tables (disk_of <$> lsm_data (writer e1)) (write_file_info (vertex_id_ (writer e1)) (level0_files (writer e1) :: lower_levels e1) next) = Some e' /\
    shadows e' e0 /\ coupled e0 g s0' (restarted <$> filed) [] [] T /\
    immutables (writer e') = [] /\ next_topology_sequence_ (writer e') = next /\ currentTime (writer e') <= Z.max 3 (currentTime (writer e1) + 1).
Proof.
  intros Hnext Hseq. pose proof Hc as [C1 C2 C3 _ C5 C6 (HF & HT & _) C8 C9 C10 C11 C12 C13]. rewrite app_nil_r in C2. rewrite !app_nil_r in C5.
  destruct (si_vertices _ _ _ _ _ _ _ _ C2) as [_ Hvb]. rewrite (mi_vertex _ _ C1) in Hvb. pose proof (ok_vertices _ _ _ _ _ _ Hcfg) as Hv.
  pose proof (tree_directory cfg fl tls pnum (storage (compactor_of e1)) T HF HT max_v tree_sources) as Hdir. cbn [compactor_of storage sst_data] in Hdir.
  set (s2 := InitVerticesUpTo (vertex_id_ (writer e1)) (new_store tables capacity)).
  destruct (fresh_store debug L reserve_node capacity max_v max_subcompactions interleave Hcfg tables (vertex_id_ (writer e1)) Hvb) as [Hi2 Ev2]. fold s2 in Hi2, Ev2.
  destruct (directory_loads fl tls pnum debug max_v _ T Hdir ltac:(change kInvalidVertexId with 281474976710655 in Hv; change (2 ^ 63) with 9223372036854775808; lia)
    (vertex_id_ (writer e1)) (trailer next) (new_store tables capacity)) as (a & lv & num & fid & data & Er & Hd & He & Hcount & Hwf).
  { unfold fits. change kInvalidVertexId with 281474976710655 in Hv. change (2 ^ 64) with 18446744073709551616. lia. }
  change (currentTime (new_store tables capacity)) with 1 in Er. fold s2 in Er. set (time := foldl Z.max 1 (fst <$> concat T)) in *.
  destruct (foldl_max_bound 1 (fst <$> concat T)) as [Ht1 Ht]. fold time in Ht1, Ht. rewrite Forall_fmap, Forall_forall in Ht. cbn [compose] in Ht.
  destruct (tree_levels cfg fl tls pnum T HF) as (ts & Ts & ET).
  assert (open_engine tables (disk_of <$> lsm_data (writer e1)) (write_file_info (vertex_id_ (writer e1)) (level0_files (writer e1) :: lower_levels e1) next) =
    Some (mkEngine (mkLsm (start_table (time + 1) next (memTable_ s2)) (immutables s2) (free_menTables s2) (full_cache <$> ts) data lv (time + 1 + 1)
      (next + max_edge_num (memTable_ s2)) next (vertex_id_ s2) (length (closed_ops filed))) (load_all 1 (descs Ts)) a (replicate (Z.to_nat MAX_LEVEL) MAX_GLOBAL_SEQ) 0)) as Eo.
  { unfold ReopenTheorems.open_engine, open_store. rewrite (write_info_desc _ _ (descs T)).
    2:{ unfold descs. apply Forall2_fmap_r. eapply Forall2_impl; [exact (tree_described _ _ _ _ _ HT)|]. intros fs us Hf. by apply Forall2_fmap_r. }
    rewrite Er, (recover_trailer next) by done. simpl_bind. cbn [rec_storage rec_time rec_next rec_caches ld_storage ld_time recovered_caches fileMetaCache_ sst_data vertex_max_level_ vid_to_mullevelIndex_].
    rewrite tree_count. rewrite ET. cbn [descs fmap list_fmap]. fold (descs Ts). rewrite load_all_cons. cbn [lookup list_lookup tail]. simpl_bind.
    rewrite (level0_sorted cfg fl tls pnum T HF) by (by rewrite ET). done. }
  clearbody s2.
  set (w0 := mkLsm (start_table (time + 1) next (memTable_ s2)) (immutables s2) (free_menTables s2) (full_cache <$> ts) (reindexed (lsm_data (writer e1)) data) lv (time + 1 + 1)
      (next + max_edge_num (memTable_ s2)) next (vertex_id_ s2) (length (closed_ops filed))).
  eexists _, (mkEngine w0 (full_levels Ts) a (replicate (Z.to_nat MAX_LEVEL) MAX_GLOBAL_SEQ) 0), (restarted_store s2 s1 filed time next). split; [exact Eo|]. split_and!.
  - split; cbn [writer lower_levels level_index lsm_data]; [done|apply reindexed_bytes| |done].
    unfold load_all, full_levels. apply Forall2_same_length_lookup_2; [by rewrite length_imap, length_fmap; unfold descs; rewrite length_fmap|].
    intros i cs cs0. unfold descs. rewrite list_lookup_imap, !list_lookup_fmap. destruct (Ts !! i) as [us|] eqn:Eu; [|done]. cbn. intros [= <-] [= <-].
    replace (1 + Z.of_nat i) with (Z.of_nat (S i)) by lia. rewrite (lower_sorted cfg fl tls pnum T HF (S i) us) by (lia || by rewrite ET).
    apply Forall2_fmap_l, Forall2_fmap_l, Forall2_fmap_r, Forall_Forall2_diag, Forall_forall. done.
  - split; cbn [writer compactor_of].
    + pose proof (si_count _ _ _ _ _ _ _ _ C2) as Ec. rewrite app_nil_r in Ec. split; try reflexivity; try exact Ec; apply Forall_Forall2_diag, Forall_true; intros; apply same_table_refl.
    + rewrite app_nil_r. apply (restarted_inv debug L reserve_node capacity max_v max_subcompactions interleave Hcfg); [exact Hi2|exact C2|exact C3|rewrite Ev2, (mi_vertex _ _ C1); reflexivity|lia| |lia|exact Hseq].
      apply Forall_forall. intros c Hin. destruct (C12 c Hin) as (t & Hin' & Hle). specialize (Ht t Hin'). cbn in Ht. lia.
    + rewrite Forall_fmap. by apply Forall_forall.
    + constructor.
    + rewrite !app_nil_r, restarted_ops. exact C5.
    + cbn. rewrite Ev2, <- (mi_vertex _ _ C1). exact C6.
    + split_and!; [exact HF| |done]. cbn [storage]. apply (stores_ext _ _ _ (mkStorage (full_levels T) a lv (reindexed (lsm_data (writer e1)) data))); [by rewrite ET|done|done|].
      apply (reloaded_stores cfg fl tls pnum (storage (compactor_of e1)) T HF HT max_v Hv tree_sources a data Hd He Hcount Hwf).
    + by rewrite restarted_ops.
    + intros src dst is_out ty. by rewrite restarted_ops.
    + intros t Hin. specialize (Ht t Hin). cbn in Ht |- *. split_and!; [lia|lia|constructor].
    + intros us t Hus Hin. destruct (C11 us t Hus Hin) as (c & Hc' & E). exists (restarted c). split; [by apply list_elem_of_fmap_2|done].
    + intros c (c' & -> & Hin)%list_elem_of_fmap. exact (C12 c' Hin).
    + intros v Hv'. split; [lia|]. cbn. by eapply block_covers.
  - exact (si_immutables _ _ _ _ _ _ _ _ Hi2).
  - done.
  - cbn. assert (time <= Z.max 1 (currentTime (writer e1) - 1)); [|lia]. apply foldl_max_le; [lia|]. apply Forall_fmap, Forall_forall. intros t Ht'. cbn. destruct (C10 t Ht') as (? & _). lia.
Qed.
End Opened.
End Open.

(** ** Closing and opening *)
Section Sessions.
Context `{StdHash} (debug : bool) (L : LsmColumns) (reserve_node capacity max_v : Z) (draws : nat -> list Z).
Context (max_subcompactions : Z) (interleave : list (list SstBuild.Write) -> list SstBuild.Write).
Context (cfg : CompactionConfig) (lim : Limits).
Abbreviation fl := (process_flags L).
Abbreviation tls := (merge_layout L).
Abbreviation pnum := (length (sub_property_lengths_ L)).
Abbreviation level_0_max := (l0_auto_compaction_limit_ lim).
Abbreviation coupled := (coupled debug L reserve_node capacity max_v cfg).
Abbreviation close_engine := (close_engine L max_subcompactions interleave lim).
Abbreviation open_engine := (open_engine debug capacity max_v).
Abbreviation exec_command := (exec_command debug L reserve_node draws max_subcompactions interleave level_0_max).
Abbreviation exec_writes := (exec_writes debug L reserve_node draws max_subcompactions interleave lim).
Abbreviation run_sessions := (run_sessions debug L reserve_node capacity max_v draws max_subcompactions interleave lim).
Context (Hcfg : LsmWriteFacts.config_ok L reserve_node capacity max_v max_subcompactions interleave) (Hco : columns_ok L cfg).
Context (Hmax : capacity + 1 <= MAX_INDEX_NUM cfg) (Hwide : max_v <= 2 ^ 31) (Hlim : 0 < level_0_max).

(** The engine holds the history, in files that may have lost their index. *)
Definition holds_history (e : Engine) (g : Graph) : Prop :=
  exists e0, shadows e e0 /\ reaches debug L reserve_node capacity max_v cfg e0 g.

(** The counters: [k] ids were used otherwise than for a full table. *)
Definition bounded (k : Z) (w : LSMStore) : Prop :=
  1 <= currentTime w <= k + Z.of_nat (insertions w) /\ 0 <= next_topology_sequence_ w <= kMaxSequence.

Lemma history_count e g : holds_history e g -> Z.of_nat (insertions (writer e)) = zlen (g_ops g).
Proof.
  intros (e0 & [Hw _ _ _] & s0 & filed & waiting & ops & T & Hc). rewrite Hw. cbn [set_data insertions].
  rewrite <- (mi_count _ _ (cp_mirror _ _ _ _ _ _ _ _ _ _ _ _ _ Hc)), (si_count _ _ _ _ _ _ _ _ (cp_inv _ _ _ _ _ _ _ _ _ _ _ _ _ Hc)).
  by rewrite (cp_history _ _ _ _ _ _ _ _ _ _ _ _ _ Hc).
Qed.

Lemma put_bounded k s src dst payload is_out ty seq s' :
  bounded k s -> 0 <= seq < kMaxSequence -> put_single debug reserve_node draws s src dst payload is_out ty seq = Some s' -> bounded k s'.
Proof.
  intros [Ht Hn] Hseq. unfold put_single. destruct (_ <=? 0); [done|]. rewrite (proj2 (Z.leb_le 0 seq)) by lia.
  destruct (Mem_put_edge _ _ _ _ _ _) as [m|]; [|done]. simpl_bind. rewrite observe_above by lia. unfold bounded in *.
  destruct (1 <? _); [intros [= <-]; cbn; lia|]. unfold rotate_table, get_newmemTable. cbn [free_menTables].
  destruct (free_menTables s) as [|t free]; [done|]. destruct ((_ || _) && _); [|done].
  destruct (Mem_reset debug t) as [t'|]; [|done]. simpl_bind. intros [= <-]. cbn [currentTime insertions next_topology_sequence_]. lia.
Qed.

Lemma command_bounded k s g c g' s' : bounded k s -> step max_v draws g c g' -> exec_command s c = Some s' -> bounded k s'.
Proof.
  intros Hb Hst. destruct Hst as [src dst payload is_out ty seq op (? & (? & _) & _)|src dst payload is_out ty seq op op' (? & (? & _) & _) _| |next|i];
    cbn [LsmWriteTheorems.exec_command put_edge].
  - by apply put_bounded.
  - destruct (put_single _ _ _ _ _ _ _ _ _ _) as [s1|] eqn:E1; [|done]. simpl_bind. apply put_bounded; [|done]. by eapply put_bounded.
  - by intros [= <-].
  - intros [= <-]. unfold InitVerticesUpTo. destruct (_ <=? _); [done|]. unfold bounded in *. cbn.
    destruct (init_vertices_counters (seqZ (vertex_id_ s) (next - vertex_id_ s)) s) as (-> & -> & ->). done.
  - unfold flush_table. destruct (immutables s !! i); [|done]. simpl_bind. destruct (flush_file _ _ _ _ _ _ _) as [[[? ?] ?]|]; [|done]. simpl_bind.
    destruct (_ <=? _); [done|]. by intros [= <-].
Qed.

(** Closing and opening a store that waits for no flush. *)
Lemma reopens tables k e e0 g s0 filed waiting ops T :
  shadows e e0 -> coupled e0 g s0 filed waiting ops T -> immutables (writer e) = [] -> (ops <> [] -> zlen (level0_files (writer e)) < level_0_max) ->
  room L e g -> currentTime (writer e) < INVALID_File_ID -> bounded k (writer e) ->
  exists disk info e', close_engine e = Some (disk, info) /\ open_engine tables disk info = Some e' /\ holds_history e' g /\ immutables (writer e') = [] /\ bounded (k + 2) (writer e').
Proof.
  intros Hs Hc Him Hroom Hr Ht Hb. pose proof (history_count e g) as Hcount. rewrite (shadow_close L max_subcompactions interleave lim e e0 Hs). pose proof Hs as [Hw _ _ _].
  assert (currentTime (writer e) = currentTime (writer e0) /\ insertions (writer e) = insertions (writer e0) /\ next_topology_sequence_ (writer e) = next_topology_sequence_ (writer e0) /\
    level0_files (writer e) = level0_files (writer e0) /\ immutables (writer e) = immutables (writer e0)) as (Et & Ei & En & El & Em) by (rewrite Hw; done).
  rewrite El in Hroom. rewrite Em in Him. rewrite Et in Ht. destruct Hr as [R1 R2 R3]. rewrite Et in R3. destruct Hb as [Hb1 Hb2]. rewrite Et, Ei in Hb1. rewrite En in Hb2.
  destruct (close_flushes debug L reserve_node capacity max_v max_subcompactions interleave cfg lim Hcfg Hmax e0 g s0 filed waiting ops T Hc Him Hroom ltac:(by split) Ht)
    as (e1 & s1 & filed1 & T1 & Hc1 & Ec & Ev1 & En1 & Et1).
  rewrite <- Ev1 in Ec. pose proof (cp_inv _ _ _ _ _ _ _ _ _ _ _ _ _ Hc1) as Hi1. pose proof (si_sequence _ _ _ _ _ _ _ _ Hi1) as Hseq. rewrite !app_nil_r, (mi_next _ _ (cp_mirror _ _ _ _ _ _ _ _ _ _ _ _ _ Hc1)), En1 in Hseq.
  destruct (opened debug L reserve_node capacity max_v max_subcompactions interleave cfg Hcfg Hwide e1 g s1 filed1 T1 Hc1 tables (next_topology_sequence_ (writer e0))) as (e' & e0' & s0' & Eo & Hs' & Hc' & Him' & En' & Et');
    [change kMaxSequence with 281474976710655 in Hb2; change (2 ^ 63) with 9223372036854775808; lia|done|].
  assert (holds_history e' g) as Hh' by (exists e0'; split; [done|]; by eexists _, _, _, _, _).
  exists (disk_of <$> lsm_data (writer e1)), (write_file_info (vertex_id_ (writer e1)) (level0_files (writer e1) :: lower_levels e1) (next_topology_sequence_ (writer e0))), e'.
  split_and!; try done.
  split; [|by rewrite En']. rewrite (history_count e' g Hh'). rewrite Ei in Hcount. rewrite Hcount in Hb1 by (exists e0; split; [done|]; by eexists _, _, _, _, _).
  destruct Hs' as [Hw' _ _ _]. pose proof (si_fids _ _ _ _ _ _ _ _ (cp_inv _ _ _ _ _ _ _ _ _ _ _ _ _ Hc')) as (_ & _ & Hf). rewrite (mi_time _ _ (cp_mirror _ _ _ _ _ _ _ _ _ _ _ _ _ Hc')) in Hf.
  assert (currentTime (writer e') = currentTime (writer e0')) as E' by (by rewrite Hw'). lia.
Qed.

(** A store that was closed waited for no flush and had room for its last table. *)
Lemma closed_store e e0 g s0 filed waiting ops T disk info :
  shadows e e0 -> coupled e0 g s0 filed waiting ops T -> close_engine e = Some (disk, info) ->
  immutables (writer e) = [] /\ (ops <> [] -> zlen (level0_files (writer e)) < level_0_max).
Proof.
  intros [Hw _ _ _] Hc. unfold ReopenTheorems.close_engine, close_store. destruct (immutables (writer e)) as [|m ms]; [|done]. intros Ec. split; [done|]. intros Hne.
  pose proof (si_active _ _ _ _ _ _ _ _ (cp_inv _ _ _ _ _ _ _ _ _ _ _ _ _ Hc)) as (_ & Hlen & _). rewrite (mi_active _ _ (cp_mirror _ _ _ _ _ _ _ _ _ _ _ _ _ Hc)) in Hlen.
  cbn [share_levels listLength] in Hlen. assert (listLength (memTable_ (writer e)) = zlen ops) as Hl by (rewrite Hw; exact Hlen).
  rewrite Hl, (proj2 (Z.ltb_lt 0 (zlen ops))) in Ec by (destruct ops; [done|rewrite zlen_cons; pose proof (zlen_nonneg ops); lia]).
  unfold flush_table in Ec. cbn [immutables lookup list_lookup] in Ec. simpl_bind in Ec. destruct (flush_file _ _ _ _ _ _ _) as [[[? ?] ?]|]; [|done].
  simpl_bind in Ec. cbn [level0_files] in Ec. destruct (Z.leb_spec level_0_max (zlen (level0_files (writer e)))); [done|lia].
Qed.

(** Sizes and ids for a history of [g] after [k] other ids. *)
Definition history_fits (k : Z) (g : Graph) : Prop :=
  EDGEBODY_SIZE * zlen (g_ops g) < 2 ^ 31 /\ sizes_fit fl tls pnum (zlen (g_ops g)) /\ k + zlen (g_ops g) <= INVALID_File_ID.

Lemma history_fits_before k k' g g' more : history_fits k' g' -> k <= k' -> g_ops g' = g_ops g ++ more -> history_fits k g.
Proof.
  intros (R1 & [R2 R3] & R4) Hk Eg. rewrite Eg, zlen_app in *. pose proof (zlen_nonneg more). pose proof (zlen_nonneg (g_ops g)). change EDGEBODY_SIZE with 16 in *.
  split_and!; [change EDGEBODY_SIZE with 16; lia| |lia]. split; [change EDGEBODY_SIZE with 16; lia|]. intros p Hp. destruct (R3 p Hp). split; [done|]. nia.
Qed.

Lemma step_grows g c g' : step max_v draws g c g' -> exists more, g_ops g' = g_ops g ++ more.
Proof. intros Hst. destruct Hst; cbn [add_op g_ops]; rewrite <- ?app_assoc; try (by eexists); exists []; by rewrite app_nil_r. Qed.

Lemma steps_grow g cs g' : steps max_v draws g cs g' -> exists more, g_ops g' = g_ops g ++ more.
Proof.
  induction 1 as [|g c cs g1 g' Hc _ [more IH]]; [exists []; by rewrite app_nil_r|]. destruct (step_grows _ _ _ Hc) as [more' E]. exists (more' ++ more). by rewrite IH, E, app_assoc.
Qed.

Lemma command_holds k e g c g' w :
  holds_history e g -> bounded k (writer e) -> step max_v draws g c g' -> in_turn c -> history_fits k g' -> exec_command (writer e) c = Some w ->
  holds_history (with_writer w e) g' /\ bounded k w.
Proof.
  intros Hh Hb Hst Hin (R1 & R2 & R3) E. pose proof (history_count _ _ Hh) as Hcount. destruct Hh as (e0 & Hs & Hre).
  destruct (shadow_command debug L reserve_node draws max_subcompactions interleave level_0_max e e0 c w Hs E) as (w0 & E0 & Hs').
  pose proof (command_bounded k _ _ _ _ _ Hb Hst E) as Hb'. split; [|done]. exists (with_writer w0 e0). split; [done|].
  eapply (act_reaches debug L reserve_node capacity max_v draws max_subcompactions interleave cfg lim Hcfg Hco Hmax Hlim e0 g (Exec c) g'); [done|by apply act_write|done| |].
  - cbn [exec_action]. rewrite E0. done.
  - pose proof (command_count debug L reserve_node max_v draws max_subcompactions interleave lim _ _ _ _ _ Hst E) as Hc'. destruct Hs' as [Hw' _ _ _]. cbn [with_writer writer] in *. assert (currentTime w = currentTime w0) as Et by (by rewrite Hw').
    destruct Hb' as [Hb' _]. split; [done|done|]. cbn. lia.
Qed.

Lemma writes_hold k cmds : forall e g g' e',
  holds_history e g -> bounded k (writer e) -> steps max_v draws g cmds g' -> Forall in_turn cmds -> history_fits k g' -> exec_writes e cmds = Some e' ->
  holds_history e' g' /\ bounded k (writer e').
Proof.
  induction cmds as [|c cmds IH]; intros e g g' e' Hh Hb Hst Hin Hf E; cbn [ReopenTheorems.exec_writes] in E.
  - injection E as <-. by inversion Hst; subst.
  - inversion Hst as [|? ? g1 ? Hc Hr]; subst. apply Forall_cons in Hin as [Hi Hin]. destruct (exec_command (writer e) c) as [w|] eqn:Ew; [|done]. simpl_bind in E.
    destruct (steps_grow _ _ _ Hr) as [more Em]. pose proof (history_fits_before k k _ _ _ Hf ltac:(lia) Em) as Hf1.
    destruct (command_holds k e g c g1 w Hh Hb Hc Hi Hf1 Ew) as [Hh1 Hb1]. by eapply (IH (with_writer w e)).
Qed.

Lemma steps_app g cs cs' g'' : steps max_v draws g (cs ++ cs') g'' -> exists g', steps max_v draws g cs g' /\ steps max_v draws g' cs' g''.
Proof.
  revert g. induction cs as [|c cs IH]; intros g Hst; [exists g; split; [constructor|done]|]. inversion Hst as [|? ? g1 ? Hc Hr]; subst.
  destruct (IH g1 Hr) as (g' & H1 & H2). exists g'. split; [by econstructor|done].
Qed.

Lemma sessions_hold tables sessions : forall k e g g' e',
  holds_history e g -> bounded k (writer e) -> steps max_v draws g (concat sessions) g' -> Forall in_turn (concat sessions) ->
  history_fits (k + 2 * zlen sessions) g' -> run_sessions tables e sessions = Some e' -> holds_history e' g'.
Proof.
  induction sessions as [|cmds sessions IH]; intros k e g g' e' Hh Hb Hst Hin Hf E; cbn [ReopenTheorems.run_sessions concat] in *.
  - injection E as <-. by inversion Hst; subst.
  - apply steps_app in Hst as (g1 & Hst1 & Hst2). apply Forall_app in Hin as [Hin1 Hin2]. rewrite zlen_cons in Hf. pose proof (zlen_nonneg sessions).
    destruct (ReopenTheorems.close_engine _ _ _ _ e) as [[disk info]|] eqn:Ec; [|done]. simpl_bind in E. destruct (ReopenTheorems.open_engine _ _ _ _ disk info) as [e1|] eqn:Eo; [|done]. simpl_bind in E.
    destruct (exec_writes e1 cmds) as [e2|] eqn:Ew; [|done]. simpl_bind in E. destruct (steps_grow _ _ _ Hst1) as [more1 Em1]. destruct (steps_grow _ _ _ Hst2) as [more2 Em2].
    pose proof (history_fits_before (k + 2) _ _ _ _ Hf ltac:(lia) Em2) as Hf1. pose proof (history_fits_before (k + 2) (k + 2) _ _ _ Hf1 ltac:(lia) Em1) as (R1 & R2 & R3).
    pose proof (history_count _ _ Hh) as Hcount. pose proof Hh as (e0 & Hs & s0 & filed & waiting & ops & T & Hc). pose proof Hb as [Hb1 _].
    destruct (closed_store _ _ _ _ _ _ _ _ _ _ Hs Hc Ec) as [Him Hroom].
    destruct (reopens tables k e e0 g s0 filed waiting ops T Hs Hc Him Hroom ltac:(split; [done|done|lia]) ltac:(lia) Hb) as (disk' & info' & e1' & Ec' & Eo' & Hh1 & _ & Hb').
    rewrite Ec in Ec'. injection Ec' as <- <-. rewrite Eo in Eo'. injection Eo' as <-.
    destruct (writes_hold (k + 2) cmds e1 g g1 e2 Hh1 Hb' Hst1 Hin1 Hf1 Ew) as [Hh2 Hb2].
    eapply (IH (k + 2) e2); [done|done|done|done| |done]. by replace (k + 2 + 2 * zlen sessions) with (k + 2 * (1 + zlen sessions)) by lia.
Qed.
End Sessions.

(** ** The theorems *)
Section Runs.
Context `{StdHash} (debug : bool) (L : LsmColumns) (reserve_node capacity max_v : Z) (draws : nat -> list Z).
Context (max_subcompactions : Z) (interleave : list (list SstBuild.Write) -> list SstBuild.Write).
Context (cfg : CompactionConfig) (lim : Limits).
Abbreviation run := (exec_actions debug L reserve_node draws max_subcompactions interleave cfg lim).
Abbreviation runs_ok := (actions_ok debug L reserve_node draws max_subcompactions interleave cfg lim).

Definition counting (e : Engine) : Prop := bounded (currentTime (writer e)) (writer e).

Lemma counting_of k w : bounded k w -> bounded (currentTime w) w.
Proof. unfold bounded. lia. Qed.

Lemma actions_counting e g l g' e' : counting e -> acts max_v draws g l g' -> runs_ok e l = true -> run e l = Some e' -> counting e'.
Proof.
  intros Hn Ha. revert e Hn. induction Ha as [g|g a l g1 g' Ha _ IH]; intros e Hn Hok E; cbn [exec_actions] in E; [by injection E as <-|].
  destruct (exec_action _ _ _ _ _ _ _ _ e a) as [e1|] eqn:E1; [|done]. simpl_bind in E. destruct (runs_ok_cons _ _ _ _ _ _ _ _ _ _ _ _ Hok E1) as [Hok1 Hok2]. apply (IH e1); [|done|done].
  pose proof (action_time debug L reserve_node max_v draws max_subcompactions interleave cfg lim _ _ _ _ _ Ha Hok1 E1) as Ht. clear E Hok Hok2.
  destruct Ha as [c g1 Hst _|held fetch_time time _|held fetch_time time _]; cbn [exec_action] in E1.
  - destruct (exec_command _ _ _ _ _ _ _ (writer e) c) as [w|] eqn:Ew; [|done]. simpl_bind in E1. injection E1 as <-. eapply counting_of, command_bounded; [exact Hn|exact Hst|exact Ew].
  - destruct (BackgroundCompaction _ _ _ _ _ _ _ _ _ _) as [c|]; [|done]. simpl_bind in E1. injection E1 as <-. unfold counting, bounded in *. cbn in *. lia.
  - destruct (ForceCompactAllL0ToL1 _ _ _ _ _ _ _ _ _ _) as [[b c]|]; [|done]. simpl_bind in E1. injection E1 as <-. unfold counting, bounded in *. cbn in *. lia.
Qed.

Lemma shadow_read p src dst is_out ty e g :
  LsmWriteFacts.config_ok L reserve_node capacity max_v max_subcompactions interleave -> columns_ok L cfg ->
  holds_history debug L reserve_node capacity max_v cfg e g -> immutables (writer e) = [] -> (p < length (sub_property_lengths_ L))%nat -> 0 <= src < max_v ->
  Forall (fun op => storable (slot_len (process_flags L) (merge_layout L) p) (field p op.1.2)) (g_ops g) ->
  engine_get debug L e src dst (Z.of_nat p) is_out ty = Some (status_of (field p) (last_written src dst is_out ty (g_ops g))).
Proof.
  intros Hcfg Hco (e0 & Hs & Hr) Him Hp Hsrc Hst. rewrite (shadow_get debug L e e0) by done. destruct Hs as [Hw _ _ _]. rewrite Hw in Him.
  by eapply (reached_read debug L reserve_node capacity max_v max_subcompactions interleave cfg Hcfg Hco).
Qed.
End Runs.



(** *** Two restarts of the compacted sample *)
Definition write_out (src dst : Z) (payload : bytes) (seq : Z) : Command := PutEdge src dst payload kSingle true 1 seq.
Definition restart_sessions : list (list Command) :=
  [[write_out 1 2 [byte_of 71] 7; write_out 2 3 [byte_of 72] 8; FlushTable 0]; [NewVertex; write_out 4 1 [byte_of 73] 9]].
Definition restart_history : list Op :=
  engine_history ++ [(1, mkEdge 2 7 false [byte_of 71] true 1, []); (2, mkEdge 3 8 false [byte_of 72] true 1, []); (4, mkEdge 1 9 false [byte_of 73] true 1, [])].
Definition restart_run `{StdHash} : option Engine :=
  run_sessions true write_columns 2 2 8 (fun _ => []) 2 (@concat SstBuild.Write) engine_limits 3 engine_end restart_sessions.
Definition restart_end `{StdHash} : Engine := default (new_engine 3 2 8) restart_run.

Lemma restart_steps : steps 8 (fun _ => []) (mkGraph 4 engine_history) (concat restart_sessions) (mkGraph 5 restart_history).
Proof.
  cbn [concat restart_sessions app]. unfold write_out.
  repeat (eapply steps_cons; [constructor; eval_prop|cbn [op_of add_op g_vertices g_ops app Z.max Z.compare]]). constructor.
Qed.

Example restart_files : let H : StdHash := fun z => z in
  (fun e => map (map fid_of) (level0_files (writer e) :: lower_levels e)) <$> restart_run = Some [[8; 5]; [6; 7]; [3]; []; []].
Proof. vm_compute. reflexivity. Qed.

Lemma restart_ends : let H : StdHash := fun z => z in
  run_sessions true write_columns 2 2 8 (fun _ => []) 2 (@concat SstBuild.Write) engine_limits 3 engine_end restart_sessions = Some restart_end.
Proof. vm_compute. reflexivity. Qed.

Lemma restart_fits : let H : StdHash := fun z => z in
  history_fits write_columns (currentTime (writer engine_end) + 2 * zlen restart_sessions) (mkGraph 5 restart_history).
Proof.
  intros H. split_and!; [by vm_compute| |by vm_compute]. split; [by vm_compute|]. intros [|q] Hq; [by vm_compute|]. change (length _) with 1%nat in Hq. lia.
Qed.


