(* ===== verification/GraphStore.v ===== *)
(** * The LSM store behind the facade

    The write path, the flushes and compactions, and the reads of [LSMStore]
    satisfy the laws the facade relies on, and sample databases.  The compactor
    gets its limits from the constructor; the compactions that are run draw their
    ids from the counter and none of their merges ends with an empty buffer. *)

From S2P Require Import Prelude.
From S2P Require Import Types.
From S2P Require Import Names.
From S2P Require Import DeltaFile.
From S2P Require Import DeltaStore.
From S2P Require Import PropertyLayout.
From S2P Require Import EdgeBody.
From S2P Require Import Sst.
From S2P Require Import SkipList.
From S2P Require Import SkipListFacts.
From S2P Require Import NeighBors.
From S2P Require Import MemTable.
From S2P Require Import SstBuild.
From S2P Require Import SstBuildFacts.
From S2P Require Import SstBuildTheorems.
From S2P Require Import MemTableFlush.
From S2P Require Import DeltaMerge.
From S2P Require Import UpdateManager.
From S2P Require Import LevelIndex.
From S2P Require Import LsmRead.
From S2P Require Import LsmHistory.
From S2P Require Import EdgeIterators.
From S2P Require Import LsmWrite.
From S2P Require Import LsmWriteFacts.
From S2P Require Import LsmWriteTheorems.
From S2P Require Import SstWriter.
From S2P Require Import CompactionRound.
From S2P Require Import CompactionLoop.
From S2P Require Import LsmEngine.
From S2P Require Import GraphSchema.
From S2P Require Import GraphDb.
From S2P Require Import GraphScan.
From S2P Require Import GraphWf.
From S2P Require Import GraphUpdate.
From S2P Require Import GraphHistory.

(** A store with what its constructor fixed. *)
Record Store := mkStore { st_columns : LsmColumns; st_capacity : Z; st_limits : Limits; st_engine : Engine }.
Definition st_lsm (st : Store) : LSMStore := writer (st_engine st).
Definition set_engine (e : Engine) (st : Store) : Store := mkStore (st_columns st) (st_capacity st) (st_limits st) e.
Definition set_lsm (s : LSMStore) (st : Store) : Store := set_engine (with_writer s (st_engine st)) st.

Definition config_columns (cfg : StoreConfig) : LsmColumns :=
  mkColumns (cfg_kind cfg) (cfg_shard_id cfg) (cfg_lengths cfg) (cfg_dir cfg) (durability (cfg_updates cfg)) ∅ (cfg_flags cfg).

(** The constructor sets the limits of the compactor. *)
Definition config_limits (cfg : StoreConfig) : Limits :=
  let csr_l0_max_sst_num_ := Z.max 1 (cfg_csr_l0_max_sst_num cfg) in
  let csr_l1_max_sst_num_ := Z.max 1 (cfg_csr_l1_max_sst_num cfg) in
  let lim := SetL0AutoCompactionLimit (if cfg_is_csr cfg then csr_l0_max_sst_num_ else 4) default_limits in
  if cfg_is_csr cfg then SetL1AutoCompactionLimit csr_l1_max_sst_num_ lim else lim.

Lemma config_limits_pos cfg : 0 < l0_auto_compaction_limit_ (config_limits cfg).
Proof. unfold config_limits. destruct (cfg_is_csr cfg); cbn; lia. Qed.

Section Store.
Context `{StdHash} (debug : bool) (reserve_node max_v : Z) (draws : nat -> list Z).
Context (max_subcompactions : Z) (interleave : list (list SstBuild.Write) -> list SstBuild.Write) (ccfg : CompactionConfig).
(** Whether [PropertyDeltaStore::Open] of a directory succeeds. *)
Context (delta_store_opens : bytes -> bool).

(** The constructor on an empty directory: it throws when the delta store of a
    store with updates cannot be opened. *)
Definition open_store (cfg : StoreConfig) : option Store :=
  if enabled (cfg_updates cfg) && negb (delta_store_opens (cfg_dir cfg ++ str "/property-delta")) then None
  else Some (mkStore (config_columns cfg) (cfg_memtable_size cfg) (config_limits cfg)
    (new_engine (Z.to_nat (cfg_memtable_count cfg)) (cfg_memtable_size cfg) (cfg_max_vertex_num cfg))).

#[export] Instance lsm_graph : LSMGraph Store := {|
  db_open := open_store;
  db_put_edge st src dst payload mode is_out ty seq :=
    s ← LsmWrite.put_edge debug reserve_node draws (st_lsm st) src dst payload mode is_out ty seq; Some (set_lsm s st);
  db_update_edge st src dst payload mk seq is_out ty :=
    s ← LsmWrite.update_edge debug reserve_node draws (st_lsm st) src dst payload mk seq is_out ty; Some (set_lsm s st);
  db_GetEdge st src dst p is_out ty := engine_get debug (st_columns st) (st_engine st) src dst p is_out ty;
  db_LocateEdge st src dst is_out ty := engine_locate debug (st_columns st) (st_engine st) src dst is_out ty;
  db_Get_Edges st src p is_out ty := engine_scan_edges debug (st_columns st) (st_engine st) src p is_out ty;
  db_new_vertex st := (set_lsm (new_vertex (st_lsm st)).1 st, (new_vertex (st_lsm st)).2);
  db_InitVerticesUpTo next st := set_lsm (LsmWrite.InitVerticesUpTo next (st_lsm st)) st;
  db_NextTopologySequence st := next_topology_sequence_ (st_lsm st);
  db_GetMaxPropertyCommitSequence _ := 0;
|}.

(** The sizes of what was written fit the format of the files, and the file ids
    are not used up. *)
Definition store_room (st : Store) : Prop :=
  EDGEBODY_SIZE * Z.of_nat (insertions (st_lsm st)) < 2 ^ 31 /\
  sizes_fit (process_flags (st_columns st)) (merge_layout (st_columns st)) (length (sub_property_lengths_ (st_columns st))) (Z.of_nat (insertions (st_lsm st))) /\
  currentTime (st_lsm st) <= INVALID_File_ID.

Definition store_config_ok (L : LsmColumns) (capacity : Z) : Prop :=
  LsmWriteFacts.config_ok L reserve_node capacity max_v max_subcompactions interleave /\ columns_ok L ccfg /\ capacity + 1 <= MAX_INDEX_NUM ccfg.

(** What a store represents: its columns, and, as long as it has room, a history
    its state was reached by. *)
Definition store_represents (st : Store) (lens : list Z) (n : Z) (h : History) : Prop :=
  store_config_ok (st_columns st) (st_capacity st) /\ 0 < l0_auto_compaction_limit_ (st_limits st) /\ sub_property_lengths_ (st_columns st) = lens /\
  exists ops, ops.*1 = h /\ vertex_id_ (st_lsm st) = n /\ Z.of_nat (insertions (st_lsm st)) = zlen ops /\
    (room (st_columns st) (st_engine st) (mkGraph n ops) -> reaches debug (st_columns st) reserve_node (st_capacity st) max_v ccfg (st_engine st) (mkGraph n ops)).

Lemma history_edges src (ops : list Op) : edges_of src ops = snd <$> filter (fun x => x.1 = src) ops.*1.
Proof.
  unfold edges_of. induction ops as [|[[s e] d] ops IH]; [done|]. cbn [fmap list_fmap fst]. rewrite !filter_cons. cbn [fst].
  case_decide; [|done]. cbn. by rewrite IH.
Qed.

Lemma writable_accepts n ops src e d :
  writable n ops.*1 src e -> accepts (mkGraph n ops) (src, e, d).
Proof.
  intros (Hs & Hf & Hn & Hh). split_and!; [cbn; lia|split_and!; cbn; [lia|done|lia..]|]. cbn [fst snd g_ops]. rewrite history_edges.
  apply Forall_fmap, Forall_forall. intros x [E Hx]%list_elem_of_filter. rewrite Forall_forall in Hh. by apply Hh.
Qed.

Abbreviation run st := (exec_action debug (st_columns st) reserve_node draws max_subcompactions interleave ccfg (st_limits st)).

Lemma represents_step st e lens n h a n' h' :
  store_represents st lens n h -> run st (st_engine st) a = Some e -> action_ok debug (st_columns st) ccfg (st_limits st) (st_engine st) a = true ->
  (forall ops, ops.*1 = h -> exists ops', act max_v draws (mkGraph n ops) a (mkGraph n' ops') /\ ops'.*1 = h') ->
  store_represents (set_engine e st) lens n' h'.
Proof.
  intros ((Hc & Hco & Hmax) & Hlim & Hl & ops & Eops & Ev & En & Hs) He Hok Hst. destruct (Hst ops Eops) as (ops' & Ha & E'). split_and!; [done|done|done|].
  destruct (action_counts debug (st_columns st) reserve_node max_v draws max_subcompactions interleave ccfg (st_limits st) _ _ _ _ _ Ha He Ev En) as [Ev' En'].
  exists ops'. split_and!; [done|done|done|]. intros Hr.
  eapply (act_reaches debug (st_columns st) reserve_node (st_capacity st) max_v draws max_subcompactions interleave ccfg (st_limits st) Hc Hco Hmax Hlim (st_engine st)); [|exact Ha|exact Hok|exact He|exact Hr].
  apply Hs. destruct (act_grows _ _ _ _ _ Ha) as [more Em]. eapply room_before; [exact Hr| |exact Em].
  eapply (action_time debug (st_columns st) reserve_node max_v draws); [exact Ha|exact Hok|exact He].
Qed.

Lemma represents_command st s lens n h c n' h' :
  store_represents st lens n h ->
  exec_command debug (st_columns st) reserve_node draws max_subcompactions interleave (l0_auto_compaction_limit_ (st_limits st)) (st_lsm st) c = Some s -> in_turn c ->
  (forall ops, ops.*1 = h -> exists ops', step max_v draws (mkGraph n ops) c (mkGraph n' ops') /\ ops'.*1 = h') ->
  store_represents (set_lsm s st) lens n' h'.
Proof.
  intros Hr He Hin Hst. apply (represents_step st _ lens n h (Exec c)); [done| |done|].
  - cbn [exec_action]. unfold st_lsm in He. rewrite He. done.
  - intros ops Eops. destruct (Hst ops Eops) as (ops' & Hstep & E). exists ops'. split; [by apply act_write|done].
Qed.

Lemma store_put st st' lens n h src dst payload is_out ty seq :
  store_represents st lens n h -> writable n h src (written dst seq payload is_out ty) ->
  db_put_edge st src dst payload kSingle is_out ty seq = Some st' ->
  store_represents st' lens n (h ++ [(src, written dst seq payload is_out ty)]).
Proof.
  intros Hr Hw. cbn [db_put_edge lsm_graph]. destruct (LsmWrite.put_edge _ _ _ _ _ _ _ _ _ _ _) as [s|] eqn:E; [|done]. simpl_bind. intros [= <-].
  eapply (represents_command st s lens n h (LsmWriteTheorems.PutEdge src dst payload kSingle is_out ty seq)); [done|exact E|done|].
  intros ops <-. eexists. split; [apply step_single; by apply writable_accepts|]. by rewrite fmap_app.
Qed.

Lemma store_put_both st st' lens n h src dst payload is_out ty seq :
  store_represents st lens n h -> src <> dst ->
  writable n h src (written dst seq payload is_out ty) -> writable n h dst (written src seq payload (negb is_out) ty) ->
  db_put_edge st src dst payload kBidirectional is_out ty seq = Some st' ->
  store_represents st' lens n (h ++ [(src, written dst seq payload is_out ty); (dst, written src seq payload (negb is_out) ty)]).
Proof.
  intros Hr Hne Hw Hw'. cbn [db_put_edge lsm_graph]. destruct (LsmWrite.put_edge _ _ _ _ _ _ _ _ _ _ _) as [s|] eqn:E; [|done]. simpl_bind. intros [= <-].
  eapply (represents_command st s lens n h (LsmWriteTheorems.PutEdge src dst payload kBidirectional is_out ty seq)); [done|exact E|done|].
  intros ops <-. eexists. split; [apply step_both; [by apply writable_accepts|]|].
  - apply (writable_accepts n (ops ++ [op_of draws (mkGraph n ops) src dst payload is_out ty seq])).
    destruct Hw' as (H1 & H2 & H3 & H4). split; [done|]. split; [done|]. split; [done|]. rewrite fmap_app. apply Forall_app. split; [done|]. apply Forall_singleton. cbn. congruence.
  - cbn [add_op g_ops]. rewrite !fmap_app, <- app_assoc. done.
Qed.

Lemma store_vertex st lens n h :
  store_represents st lens n h -> n < max_v -> (db_new_vertex st).2 = n /\ store_represents (db_new_vertex st).1 lens (n + 1) h.
Proof.
  intros Hr Hn. split.
  - destruct Hr as (_ & _ & _ & ops & _ & Ev & _). exact Ev.
  - apply (represents_command st _ lens n h LsmWriteTheorems.NewVertex); [done|done|done|]. intros ops <-. exists ops. split; [|done]. by apply (step_vertex max_v draws (mkGraph n ops)).
Qed.

Lemma store_vertices st lens n h next :
  store_represents st lens n h -> next <= max_v -> store_represents (db_InitVerticesUpTo next st) lens (Z.max next n) h.
Proof.
  intros Hr Hn. apply (represents_command st _ lens n h (InitVertices next)); [done|done|done|]. intros ops <-. exists ops. split; [|done].
  by apply (step_vertices max_v draws (mkGraph n ops)).
Qed.

(** The background work of a store: the flush of its oldest full table, and
    compactions. *)
Inductive background_action : Action -> Prop :=
| ba_flush : background_action (Exec (FlushTable 0))
| ba_compact held fetch_time time : (forall k, increasing (fetch_time k)) -> background_action (Compact held fetch_time time)
| ba_compact_all held fetch_time time : (forall k, increasing (fetch_time k)) -> background_action (CompactAll held fetch_time time).

Definition store_works (st st' : Store) : Prop :=
  exists a e, background_action a /\ action_ok debug (st_columns st) ccfg (st_limits st) (st_engine st) a = true /\
    run st (st_engine st) a = Some e /\ st' = set_engine e st.

Lemma store_background st st' lens n h : store_represents st lens n h -> store_works st st' -> store_represents st' lens n h.
Proof.
  intros Hr (a & e & Ha & Hok & E & ->). apply (represents_step st e lens n h a); [done|done|done|]. intros ops <-. exists ops. split; [|done].
  destruct Ha; [apply act_write; [apply step_flush|done]|by apply act_compact|by apply act_compact_all].
Qed.

Lemma slot_len_column L p len :
  sub_property_lengths_ L !! p = Some len -> slot_len (process_flags L) (merge_layout L) p = len.
Proof.
  intros Hp. unfold slot_len, GetSubPropertyFixedLength. rewrite (proj2 (Z.ltb_ge _ _)), Nat2Z.id by lia. unfold merge_layout.
  destruct (sub_property_lengths_ L) as [|l ls]; [done|]. cbn [scoped_enter]. by rewrite Hp.
Qed.

Definition store_settled (st : Store) : Prop := immutables (st_lsm st) = [] /\ store_room st.

Lemma store_reads st lens n h p len src dst is_out ty :
  store_represents st lens n h -> store_settled st -> lens !! p = Some len -> 0 < len < 1024 -> 0 <= src < n ->
  Forall (fun x => storable len (field p x.2)) h ->
  db_GetEdge st src dst (Z.of_nat p) is_out ty = Some (status_of (field p) (last_edge src dst is_out ty h)).
Proof.
  intros ((Hc & Hco & _) & _ & <- & ops & <- & Ev & En & Hs) [Him (R1 & R2 & R3)] Hlen Hw Hsrc Hst. cbn [db_GetEdge lsm_graph].
  pose proof (slot_len_column (st_columns st) p len Hlen) as Esl. rewrite En in R1, R2. specialize (Hs ltac:(split; done)).
  assert (n <= max_v) as Hn.
  { destruct Hs as (s0 & filed & waiting & aops & T & Hcp). destruct (si_vertices _ _ _ _ _ _ _ _ (cp_inv _ _ _ _ _ _ _ _ _ _ _ _ _ Hcp)) as [_ Hb].
    pose proof (cp_vertices _ _ _ _ _ _ _ _ _ _ _ _ _ Hcp) as Ecv. cbn in Ecv. lia. }
  rewrite (reached_read debug (st_columns st) reserve_node (st_capacity st) max_v max_subcompactions interleave ccfg Hc Hco (st_engine st) (mkGraph n ops) p src dst);
    [..|lia|]; try done.
  - unfold last_edge, last_written. cbn [g_ops]. by rewrite history_edges.
  - by eapply lookup_lt_Some.
  - cbn [g_ops]. rewrite Esl. rewrite Forall_fmap in Hst. exact Hst.
Qed.

Definition store_fits (cfg : StoreConfig) : Prop := store_config_ok (config_columns cfg) (cfg_memtable_size cfg) /\ cfg_max_vertex_num cfg = max_v.

Lemma store_opens cfg st : store_fits cfg -> db_open cfg = Some st -> store_represents st (cfg_lengths cfg) 0 [].
Proof.
  intros [Hc Hv]. cbn [db_open lsm_graph]. unfold open_store. case_match; [done|]. intros [= <-]. split_and!; [done|apply config_limits_pos|done|].
  exists []. split_and!; [done|done|done|]. intros _. cbn [st_engine st_columns st_capacity]. rewrite Hv.
  exact (new_engine_reaches debug (config_columns cfg) reserve_node (cfg_memtable_size cfg) max_v max_subcompactions interleave ccfg (proj1 Hc) _).
Qed.

#[export] Instance lsm_laws : StoreLaws Store := {|
  represents := store_represents;
  settled := store_settled;
  background := store_works;
  max_vertices := max_v;
  config_fits := store_fits;
  law_open := store_opens;
  law_put := store_put;
  law_put_both := store_put_both;
  law_update := fun st src dst payload mk seq is_out ty => eq_refl;
  law_vertex := store_vertex;
  law_vertices := store_vertices;
  law_background := store_background;
  law_get := store_reads;
|}.
End Store.

(** ** Sample databases

    The facade on LSM stores, run: the theorems of the facade applied to two
    edge shards and a node shard. *)

#[local] Instance sample_hash : StdHash := fun z => z.
#[local] Instance sample_lsm : LSMGraph Store := lsm_graph true 2 (fun _ => []) (fun _ => true).
#[local] Instance sample_laws : StoreLaws Store := lsm_laws true 2 16 (fun _ => []) 2 (@concat SstBuild.Write) default_config (fun _ => true).

(** Two edge shards and a node shard; the updates of the second database are buffered. *)
Definition sample_schema : Schema :=
  mkSchema 16 false 2 12 1 [mkDef (str "weight") 4]
    [mkShard [] [str "weight"; str "label"] 0 false 8 10000; mkShard (str "extra") [str "color"] 4 false 8 10000]
    (mkShard (str "node_Db") [str "name"] 0 false 8 10000).
Definition sample_options (buffered : bool) : GraphDbOptions :=
  Build_GraphDbOptions 3 3 2 0 true false true false String.EmptyString (Build_PropertyUpdateOptions buffered 16 1024 2 4 kProcessCrashSafe).

Definition keep_order (l : list nat) : list nat := l.

Definition blank : GraphDb Store :=
  mkGraphDb [] [] (mkHandle [] [] [] ∅
    (mkStore (mkColumns kNode 0 [] [] kNone ∅ (mkFlags 0 0)) 0 default_limits (new_engine 0 0 0))) ∅ ∅ 0 None.
(** The database a call leaves, and whether it returned kOk. *)
Definition after {A} (g : GraphDb Store) (o : option (A * GraphDb Store)) : GraphDb Store :=
  match o with Some (_, g') => g' | None => g end.
Definition put_ok (o : option (Status * GraphDb Store)) : bool := match o with Some (kOk, _) => true | _ => false end.
Definition update_ok (o : option (Status * option Z * GraphDb Store)) : bool := match o with Some (kOk, _, _) => true | _ => false end.
Definition committed (o : option (Status * option Z * GraphDb Store)) : option Z := match o with Some (_, c, _) => c | _ => None end.

Lemma put_after g o : put_ok o = true -> o = Some (kOk, after g o).
Proof. by destruct o as [[[] g']|]. Qed.
Lemma update_after g o : update_ok o = true -> o = Some (kOk, committed o, after g o).
Proof. by destruct o as [[[[] c] g']|]. Qed.

Definition opened_db (r : option (result Status (GraphDb Store))) : option (GraphDb Store) := match r with Some (Ok g) => Some g | _ => None end.
Definition db0 (buffered : bool) : GraphDb Store :=
  default blank (opened_db (Init (fun _ => true) (str "db") sample_schema (sample_options buffered))).

Lemma opened_after r : has (opened_db r) = true -> r = Some (Ok (default blank (opened_db r))).
Proof. by destruct r as [[g|e]|]. Qed.
Definition row1 : Properties := [(str "color", str "red"); (str "weight", str "10"); (str "label", str "knows")].
Definition row2 : Properties := [(str "weight", str "25")].
Definition db1 b := InitVerticesUpTo 4 (db0 b).
Definition db2 b := after (db1 b) (PutEdge keep_order (db1 b) 1 2 row1 kSingle true 0).
Definition db3 b := after (db2 b) (PutEdge keep_order (db2 b) 1 3 row1 kBidirectional true 0).
Definition db4 b := after (db3 b) (UpdateEdge keep_order 96 (db3 b) 1 2 row2 true 0).

(** Background work of shard 0. *)
Definition worked (g : GraphDb Store) (a : Action) : option (ShardHandle Store * Store) :=
  h ← edge_shards_ g !! 0%nat;
  let st := h_db h in
  e ← exec_action true (st_columns st) 2 (fun _ => []) 2 (@concat SstBuild.Write) default_config (st_limits st) (st_engine st) a;
  if action_ok true (st_columns st) default_config (st_limits st) (st_engine st) a then Some (h, set_engine e st) else None.
Definition work (a : Action) (g : GraphDb Store) : GraphDb Store :=
  match worked g a with
  | Some (h, st) => set_shards (<[0%nat := set_handle_db st h]> (edge_shards_ g)) (node_shard_ g) g
  | None => g
  end.
(** The second write filled the first table of shard 0: its flush, and a
    compaction of it into level 1. *)
Definition flush_job : Action := Exec (FlushTable 0).
Definition compaction_job : Action := CompactAll no_readers (ids_from 4) 9.
Definition db5 b : GraphDb Store := work compaction_job (work flush_job (db4 b)).
Example db5_levels b :
  (fun h => map (map fid_of) (level0_files (st_lsm (h_db h)) :: lower_levels (st_engine (h_db h)))) <$> edge_shards_ (db5 b) !! 0%nat = Some [[]; [4]; []; []; []].
Proof. destruct b; vm_compute; reflexivity. Qed.

Definition no_manager : Manager :=
  mkManager (property_updates (sample_options true)) 0 ∅ [] [] None 0 false None (mkMStats 0 0 0 0 0 0).

(** ** The run *)

Ltac evaluates := vm_compute; reflexivity.

Lemma sample_fits b s kind id dir :
  s ∈ node_db sample_schema :: edge_shards sample_schema ->
  config_fits (store_config sample_schema (sample_options b) kind id dir (resolve_property_length sample_schema <$> shard_properties s) s).
Proof.
  intros Hs. repeat (apply elem_of_cons in Hs as [->|Hs]); [..|by apply elem_of_nil in Hs].
  all: split; [split_and!|reflexivity]; [split; [lia|eval_prop| |eval_prop|lia|done]|split; [apply default_config_ok|vm_compute; lia|]|by vm_compute].
  all: intros p Hp; do 2 (destruct p as [|p]; [first [eval_prop|exfalso; vm_compute in Hp; lia]|]); exfalso; vm_compute in Hp; lia.
Qed.

Definition writes : list FacadeWrite :=
  [mkWrite_ 1 2 row1 true 0 0; mkWrite_ 1 3 row1 true 0 1; mkWrite_ 3 1 row1 false 0 1].

Lemma sample_run b : rtc (facade_step keep_order 96) (db0 b, [], 0) (db3 b, writes, 4).
Proof.
  eapply rtc_l; [apply (fs_vertices keep_order 96 (db0 b) [] 0 4); [by vm_compute|done]|].
  eapply rtc_l; [apply (fs_put keep_order 96 (db1 b) [] (Z.max 4 0) 1 2 row1 true 0 (db2 b)); [destruct b; eval_prop|apply put_after; destruct b; evaluates]|].
  eapply rtc_l; [apply (fs_put_both keep_order 96 (db2 b) _ (Z.max 4 0) 1 3 row1 true 0 (db3 b));
    [destruct b; eval_prop|destruct b; eval_prop|done|apply put_after; destruct b; evaluates]|].
  destruct b; cbv [app next_sequence_]; apply rtc_refl.
Qed.

Lemma sample_follows b : follows (db3 b) writes 4.
Proof.
  apply (run_follows keep_order 96 (fun l => reflexivity l) _ _ (sample_run b)).
  apply (init_follows (fun _ => true) (str "db") sample_schema (sample_options b));
    [destruct b; eval_prop|eval_prop|eval_prop|apply sample_fits|apply opened_after; destruct b; evaluates].
Qed.


(** The delta store of the second shard cannot be opened: the exception passes
    through [Init] when updates are enabled, and only then. *)
Definition broken_lsm : LSMGraph Store := lsm_graph true 2 (fun _ => []) (fun dir => bool_decide (dir <> str "db/extra/property-delta")).
Example init_throws :
  has (@Init Store broken_lsm (fun _ => true) (str "db") sample_schema (sample_options true)) = false /\
  has (@Init Store broken_lsm (fun _ => true) (str "db") sample_schema (sample_options false)) = true.
Proof. split; evaluates. Qed.

(** Without a manager, the update of one column is what every column reads; with
    one, it waits there. *)
Definition row2_write : FacadeWrite := mkWrite_ 1 2 row2 true 0 2.
Definition writes5 (b : bool) : list FacadeWrite := if b then writes else writes ++ [row2_write].
Definition manager3 : Manager := default no_manager (property_update_manager_ (db3 true)).

Lemma sample_update b : facade_step keep_order 96 (db3 b, writes, 4) (db4 b, writes5 b, 4).
Proof.
  destruct b.
  - apply (fs_submit keep_order 96 (db3 true) writes 4 manager3 1 2 row2 true 0 (committed (UpdateEdge keep_order 96 (db3 true) 1 2 row2 true 0)));
      [apply has_default; evaluates|eval_prop|apply update_after; evaluates].
  - apply (fs_update keep_order 96 (db3 false) writes 4 1 2 row2 true 0 (committed (UpdateEdge keep_order 96 (db3 false) 1 2 row2 true 0)));
      [eval_prop|evaluates|apply update_after; evaluates].
Qed.

Lemma work_step a g ws n : background_action a -> has (worked g a) = true -> facade_step keep_order 96 (g, ws, n) (work a g, ws, n).
Proof.
  intros Ha Hw. unfold work. destruct (worked g a) as [[h st]|] eqn:E; [|discriminate Hw]. unfold worked in E.
  destruct (edge_shards_ g !! 0%nat) as [h'|] eqn:Eh; [|done]. simpl_bind in E. destruct (exec_action _ _ _ _ _ _ _ _ _ _) as [e|] eqn:Ee; [|done]. simpl_bind in E.
  destruct (action_ok _ _ _ _ _ _) eqn:Eok; [|done]. injection E as -> <-. apply fs_background; [exact Eh|]. exists a, e. by split_and!.
Qed.

Lemma sample_run5 b : rtc (facade_step keep_order 96) (db0 b, [], 0) (db5 b, writes5 b, 4).
Proof.
  etrans; [apply sample_run|]. eapply rtc_l; [apply sample_update|].
  eapply rtc_l; [apply (work_step flush_job); [constructor|destruct b; evaluates]|]. eapply rtc_l; [|apply rtc_refl].
  apply (work_step compaction_job); [constructor; apply ids_from_increasing|destruct b; evaluates].
Qed.

Definition shard0 b : ShardHandle Store := default (node_shard_ blank) (edge_shards_ (db5 b) !! 0%nat).

Lemma shard0_open b : edge_shards_ (db5 b) !! 0%nat = Some (shard0 b).
Proof. apply (has_default (node_shard_ blank)). destruct b; evaluates. Qed.
Lemma shard0_counters b :
  (fun st => (immutables (st_lsm st), insertions (st_lsm st), currentTime (st_lsm st), sub_property_lengths_ (st_columns st), process_flags (st_columns st))) (h_db (shard0 b))
  = ([], if b then 3%nat else 4%nat, 9, [4; 12], mkFlags 2 12).
Proof. destruct b; evaluates. Qed.
Lemma shard0_settled b : store_settled (h_db (shard0 b)).
Proof.
  pose proof (shard0_counters b) as E. unfold store_settled, store_room, merge_layout. destruct (h_db (shard0 b)) as [[k i lens dir du data fl] cap lim e].
  cbn [st_columns st_lsm st_engine sub_property_lengths_ process_flags] in *. injection E as -> -> -> -> ->.
  destruct b; (split; [done|split_and!; [done| |done]]); (split; [done|]); intros [|[|p]] Hp; (split; done) || (cbn in Hp; lia).
Qed.
Lemma shard0_lengths b : property_lengths (shard0 b) = [4; 12].
Proof. destruct b; evaluates. Qed.
Lemma shard0_properties b : h_properties (shard0 b) = [str "weight"; str "label"].
Proof. destruct b; evaluates. Qed.
Lemma db0_open b : Init (fun _ => true) (str "db") sample_schema (sample_options b) = Some (Ok (db0 b)).
Proof. apply opened_after. destruct b; evaluates. Qed.

Lemma last_row b i : i = 0%nat ->
  last_facade_write (edge_property_to_route_ (db5 b)) i 1 2 true 0 (writes5 b) = Some (if b then mkWrite_ 1 2 row1 true 0 0 else row2_write).
Proof. intros ->. destruct b; evaluates. Qed.


(** With a manager, the update of one column leaves the others and the other edges. *)
Lemma update_edge_then_get_witness :
  (exists out, GetEdge (db4 true) 1 2 [str "weight"] true 0 = Some (kOk, out) /\ out !! str "weight" = Some (str "25")) /\
  GetEdge (db4 true) 1 2 [str "label"; str "color"] true 0 = GetEdge (db3 true) 1 2 [str "label"; str "color"] true 0 /\
  GetEdge (db4 true) 1 3 [str "weight"] true 0 = GetEdge (db3 true) 1 3 [str "weight"] true 0.
Proof.
  destruct (update_edge_then_get keep_order 96 (db3 true) 1 2 row2 true 0 (committed (UpdateEdge keep_order 96 (db3 true) 1 2 row2 true 0)) (db4 true) manager3)
    as [Hnew Hold]; [done|apply (fo_wf _ _ _ (sample_follows true))|apply has_default; evaluates|eval_prop|apply update_after; evaluates|].
  split; [|split].
  - destruct (Hnew [str "weight"]) as (out & E & Ho); [done|by intros n ->%list_elem_of_singleton; left|].
    exists out. split; [exact E|]. rewrite Ho. evaluates.
  - apply Hold. right. intros n Hn Hin. apply list_elem_of_singleton in Hin as ->.
    repeat (apply elem_of_cons in Hn as [Hn|Hn]; [by vm_compute in Hn|]). by apply elem_of_nil in Hn.
  - apply Hold. left. congruence.
Defined.

(** The same update clears the other columns of the row when updates are not
    buffered, and keeps them when they are. *)
Example update_clears_other_columns :
  (fun r => r.2 !! str "label") <$> GetEdge (db3 false) 1 2 [str "label"] true 0 = Some (Some (str "knows")) /\
  (fun r => r.2 !! str "label") <$> GetEdge (db5 false) 1 2 [str "label"] true 0 = Some (Some []) /\
  (fun r => r.2 !! str "label") <$> GetEdge (db4 true) 1 2 [str "label"] true 0 = Some (Some (str "knows")).
Proof. split_and!; evaluates. Qed.

(** The columns [weight] and [color] of the edges of vertex 1, joined. *)
Definition scan_routes : list (bytes * PropertyRoute) := [(str "weight", mkRoute 0 0); (str "color", mkRoute 1 0)].
Definition scan_columns : list (bytes * list (Z * Z * bytes)) :=
  (fun r => (r.1, default [] (scan_column (db4 true) 1 true 0 r.2))) <$> scan_routes.

Definition joined_columns : list (bytes * list (Z * Z * bytes)) :=
  [(str "weight", [(2, 0, str "25"); (3, 1, str "10")]); (str "color", [(2, 0, str "red"); (3, 1, str "red")])].
Lemma scan_columns_values : scan_columns = joined_columns.
Proof. evaluates. Qed.
Lemma joined_names : NoDup joined_columns.*1.
Proof. eval_prop. Qed.

Lemma joined_record d q w :
  last_value (d, q) [(2, 0, str "25"); (3, 1, str "10")] = Some w -> last_value (d, q) [(2, 0, str "red"); (3, 1, str "red")] = Some (str "red") ->
  joins scan_columns (mkScanRecord d q (<[str "color" := str "red"]> {[ str "weight" := w ]})).
Proof.
  intros Hw Hc. rewrite scan_columns_values. apply (proj2 (joins_values joined_columns d q _ joined_names)). split.
  - constructor; [by exists w|]. constructor; [by exists (str "red")|constructor].
  - unfold values, joined_columns. cbn [foldl fst snd]. by rewrite Hw, Hc.
Qed.

Lemma scan_joins_columns_witness :
  exists records, ScanEdges (db4 true) 1 [str "weight"; str "color"] true 0 = Some (kOk, records) /\
    StronglySorted key_before (rec_key <$> records) /\
    mkScanRecord 2 0 (<[str "color" := str "red"]> {[ str "weight" := str "25" ]}) ∈ records /\
    mkScanRecord 3 1 (<[str "color" := str "red"]> {[ str "weight" := str "10" ]}) ∈ records.
Proof.
  destruct (scan_joins_columns (db4 true) 1 [str "weight"; str "color"] true 0 scan_routes scan_columns) as (records & E & Hs & Hin);
    [evaluates|repeat (constructor; [split; [done|apply has_default; evaluates]|]); constructor|].
  exists records. split; [exact E|]. split; [exact Hs|]. rewrite !Hin. split; by apply joined_record.
Defined.

(** [ForEachEdge] stopped at its first record. *)
Lemma single_column_paths_agree_witness :
  ForEachEdge (db4 true) 1 (str "label") (fun l dst seq v => (l ++ [(dst, seq, v)], false)) true 0 [] = Some (kOk, [((2, 0), str "knows")]).
Proof.
  destruct (single_column_paths_agree (db4 true) 1 true 0 (str "label") (mkRoute 0 1)) as [_ Heach].
  rewrite (Heach _ (fun l dst seq v => (l ++ [(dst, seq, v)], false)) []); [evaluates|done|evaluates].
Defined.
